(* ===== verification/_CoqProject ===== *)
-Q . S2P
Prelude.v
ByteQueue.v
RingBuffer.v
Pipe.v
Tty.v
Block.v
Task.v
Process.v
Signal.v
WaitQueue.v
Bitmap.v
Layout.v
Frame.v
Buffer.v
Minix.v
BlockMap.v
Directory.v
Space.v
Isolation.v
Fork.v
Cow.v
PageFault.v
UserAccess.v
Calendar.v
Glob.v
InodeTable.v
BlockFile.v
Path.v
Calls.v
Mounts.v
Files.v
Text.v
Io.v
Buffered.v
Vi.v
Mbr.v
Pack.v
Exec.v
Allocator.v
Lexer.v
Parser.v
Arith.v
ShellState.v
Nesting.v
Expand.v
