(* ===== verification/Prelude.v ===== *)
(** * linux-0.11-rs kernel: verification development

    ** The program and the model

    The repository is a Rust rewrite of Linux 0.11: a kernel, a user library,
    user programs and image tools.  The development models the kernel's core:
    processes, signals, blocking, pipes, the terminal, the disk request layer,
    the buffer cache, the minix file system, paths, mounts, memory and [exec]; the
    heap of user programs; of these the shell (its language and word expansion),
    the editor, the calendar of [date] and the wildcard patterns; and the tool for partitioned
    disk images.  Definitions follow the Rust functions one to one and keep their
    names.

    - _State._ Each component has a record with the fields of its Rust struct,
      or with the fields of the several structs it reaches (the task table with
      the pid counter; the frame counts with physical memory and all address
      spaces).  Shared objects ([Arc], statics) are therefore one value of the
      state and never copied.
    - _Effects._ [M S A] below: a routine takes the state and gives [Ok], [Err]
      with an error code, or [Panic] (a failed [assert!], a [panic!], an index
      out of range, [expect] on [None]), and the state it leaves, also when it
      fails.
    - _Integers._ Mathematical integers with the wrap-around written out where
      it can happen.  The kernel is built in release mode, so arithmetic wraps
      silently and [debug_assert!] is not compiled; [usize] has 32 bits.
    - _Concurrency._ Kernel code is never preempted: a task runs until it
      sleeps, and interrupts come in only where they are enabled.  One step of a
      model is thus the code between two such points, and the relations [step]
      interleave the steps of any number of tasks and of the hardware.
    - _Loops._ Bounded loops are recursions on the bound.  The [loop]s carry
      fuel; a run out of fuel is a value of its own, and the theorems say how
      much fuel suffices: the table size for [schedule] and [alloc_process], one
      unit per turn and one turn per block for [read_at] and [write_at], the
      number of ready bytes for the TTY loops, the chain length for the request
      queues, the size of the heap over that of the smallest block for the free
      list, two turns for [alloc], for the buffered adapters more turns than bytes and
      interruptions to come, and the size of the text for the editor's motions.  Loops that wait for other tasks are steps of a relation instead.

    ** Files

    - [Prelude]: error codes ([user_lib/src/syscall/errno.rs]), the monad, lists
      and integers.
    - [ByteQueue], [RingBuffer], [Tty]: the interface of a bounded byte queue;
      [driver/character/tty/ring_buffer.rs], which implements it; and
      [driver/character/tty/mod.rs] with [line_discipline.rs], proved against the
      interface.  Character devices are the two ends: bytes received and bytes
      taken for transmission.
    - [Pipe]: [fs/file/pipe.rs].  One definition per critical section.
    - [Block]: [driver/block/mod.rs].  Drivers are steps that link, transfer
      sectors of, and complete the head request.
    - [Buffer]: [fs/buffer.rs], with the lock and the requests of [Block] as it
      uses them; a system of tasks, block layer and interrupts.
    - [Task], [Process], [Signal], [WaitQueue]: [task/*.rs], the handlers of
      [syscall/handler/process], [signal.rs] and [sync/*.rs].  [Process] and
      [Signal] use the operations of [Task] on the same table.  The signal
      handlers of user programs and the return frame are behind interface laws
      which both frames of [syscall/context.rs] and [task/timer.rs] meet.
    - [Bitmap], [Layout], [Minix], [BlockMap], [Directory]: [fs/bitmap.rs],
      [fs/layout.rs] and the file and directory operations of [fs/minix.rs].
      [BlockMap] has the specifications of the file operations of [Minix], on
      which [Directory] builds.
    - [InodeTable], [Path], [Calls], [Mounts]: the super block and the inode table
      of [fs/minix.rs]; [fs/path.rs], [fs/mount.rs] and the path names of
      [segment/uaccess.rs]; the handlers of [syscall/handler/fs/path.rs] and
      [mount.rs]; the system of these calls.  The operations of [Minix] and
      [Directory] run on one inode of the world of [InodeTable].  An [Arc<Inode>]
      is an index into the list of all inode objects, and strong counts are
      counts of the references that the world lists.
    - [BlockFile], [Files]: [fs/file/*.rs] and the handlers of
      [syscall/handler/fs/fd.rs], on the same world.  A call that reads or writes a
      terminal or a pipe goes on in [Tty] or [Pipe].
    - [Frame], [Space], [Isolation], [Fork], [Cow]: [mm/address.rs],
      [mm/frame.rs], [mm/page.rs] and [mm/space.rs].  Page tables are words of
      the physical memory that [Frame] allocates.
    - [PageFault], [UserAccess]: [mm/page_fault.rs], [mm/mod.rs] and
      [segment/uaccess.rs], on the page tables of [Space]: what a fault loads, and
      the kernel's reads and writes of user memory with the faults they take.
    - [Calendar]: [time.rs], the time system calls and the calendar of
      [user_program/src/bin/date.rs].
    - [Exec]: [syscall/handler/process/exec.rs], on the world of [Files] and the
      task of [Task].  User memory is a function from addresses to bytes.
    - [Allocator]: [user_lib/src/allocator.rs], over the break of [Process] and the
      user memory of [Exec].
    - [Text]: strings, numbers and UTF-8 of the Rust library.
    - [Io], [Buffered]: [user_lib/src/io]: the traits of readers and writers as type
      classes, with classes for what they promise; cursors, [copy]; the buffered
      adapters.  A program's descriptors are any instance.
    - [Glob]: [user_program/src/fnmatch.rs].
    - [Lexer], [Parser]: [user_program/src/bin/sh/lexer.rs], [ast.rs] and
      [parser.rs].  A text is a list of bytes, and a routine gives a result and the
      text it leaves, an error, or [NoFuel].
    - [Arith], [ShellState], [Expand]: [sh/expand.rs] and [state.rs].  A word is
      expanded in the shell's state and a world of files ([Host]); the output of a
      command is an argument.  [Nesting] bounds the arithmetic within arithmetic.
    - [Vi]: [user_program/src/bin/vi]: buffer, motions, edits, undo, search, ex
      commands, keys and the handlers of the modes.  Regular expressions and the
      file system are arguments.
    - [Mbr], [Pack]: [mbrkit/src]: the partition table; layouts, packing,
      verification and extraction.

    All paths but those of [user_lib], [user_program] and [mbrkit] are under
    [kernel/src].

    ** What is shown

    - _Isolation._ [cow_isolation], [frame_counts], [fork_copies],
      [frame_allocator]: no step of one task changes what another finds in its
      memory, whichever frames they share, but for the kernel's stores through
      write-protected pages, whose effect it gives; counts are exact; a fork copies;
      lemma [write_fault].  [no_page_fault]: what an absent page is filled with;
      [copy_to_user]: a checked copy by the kernel to pages that are present, or
      beyond the data of the executable, reaches the caller only.  Two examples of
      [UserAccess] show which calls make the other stores.
    - _The heap._ [allocator]: live allocations are aligned, disjoint and kept, and
      a request ends, in null only at the limit of the break.
    - _Files._ [bitmap_refines_set], [read_at_contents], [write_at_contents],
      [directory_refines_map] and lemmas [block_map_extends], [truncate_frees]:
      bitmaps are sets, files are byte strings and directories are finite maps,
      when the disk is full or fails as well.
    - _Inodes and paths._ [inode_table_cache]: the inode table is a cache of the
      inodes on disk; [path_parsing]; [mounts_permanent]: the resolution of an
      inode across mounts ends, and no mount is ever removed.
    - _Open files._ [file_stream]: a file is a stream over the bytes of its inode;
      [block_device_bytes]; [descriptor_calls].
    - _Buffer cache._ [cache_transparent]: clients see the blocks of the disk as if
      there were no cache, under a discipline that lemma [cache_races] shows to be
      needed; [cache_index] has the invariant of index, list and locks.
    - _Disk requests._ [block_requests_conserved]: each request is completed once
      or pending; lemma [elevator_order] has the order.
    - _Processes._ [schedule_picks_best], [process_tree]; lemmas [exit_notifies],
      [wait_outcome], [alloc_process_fresh] and [identity_calls].
    - _Programs._ [exec_arguments]: a new program gets the strings of the call;
      [exec_atomic]: a failed [execve] changes nothing of the task.
    - _Signals._ [signal_delivery], lemma [kill_effect], and where the code departs from
      what it means to do, lemma [uncatchable_signals].
    - _Blocking._ [mutex_exclusive]; [sleepers_released]: a queue names each of its
      sleepers once, with the gap that wake-ups from elsewhere leave.
    - _Byte streams._ [pipe_fifo], [receive_input_edits], [reads_are_lines];
      lemmas [write_stream] and [ring_refines_list].
    - _Time._ [calendar_time].
    - _Readers and writers._ [line_writer]: what is written reaches the sink once, in
      order and by lines; [lines_of_stream]: reading by lines gives the lines of the
      stream; lemmas [copy_spec] and [split_of_stream].
    - _Patterns._ [fnmatch_correct]: the matcher decides a declarative meaning.
    - _The shell._ [lexer_progress]: lexing ends on every text; [parse_print]: a
      printed program is parsed to itself, whatever its nesting and quoting; lemma
      [group_never_returns]: not all texts have a parse.  [arith_value]: arithmetic
      computes the value of expressions; [expand_quoted]: quotes protect from
      splitting and patterns; lemmas [expansion_ends], [split_pieces] and
      [subshell_state].
    - _The editor._ [editor_invariant]: no key makes it panic or loop, but for the
      exceptions that it names, and the cursor stays in the text; lemmas
      [undo_restores] and [save_load].
    - _Images._ [pack_extract]: what is packed is extracted; lemma [mbr_roundtrip].

    ** Assumptions

    What is not under the source tree is an argument of the model: the clock
    chip's registers, the contents that user programs give to memory, the
    behaviour of disks.  The files on the disk see the buffer cache as named
    blocks and reads that may fail, which is what [cache_transparent] gives.
    Calls on paths run one at a time, with any change of task in between, and the
    clock stands still during one; a bitmap keeps the words of its blocks from
    [open] on.

    ** Not modelled

    Processor state (traps, segments, FPU, port I/O), the kernel's heap (a
    third-party allocator), the device ends of drivers, boot and logging: they are
    inline assembly and port I/O.  TLB flushes are not state.  The shell's executor,
    the editor's screen and the small tools are loops of system calls and terminal output
    around the parts above; the files, processes and standard streams of the user
    library wrap system calls in the manner of the Rust standard library; the tools for file system images write the
    format of [Layout] from the host side. *)

From Stdlib Require Export ZArith Lia.
From stdpp Require Export base tactics numbers option list gmap fin_maps.
From stdpp Require Import relations.

#[global] Set Default Goal Selector "!".
#[export] Set Warnings "-notation-overridden,-clear-no-such-hyp".

(** ** Error codes ([user_lib/src/syscall/errno.rs]) *)

(** The newtype [Errno(u32)] and its associated constants, as an enumeration
    with the numeric code as a function. *)
Inductive Errno : Set :=
| PERM | NOENT | SRCH | INTR | IO | NXIO | TOOBIG | NOEXEC | BADF | CHILD
| AGAIN | NOMEM | ACCESS | FAULT | NOTBLK | BUSY | EXIST | XDEV | NODEV
| NOTDIR | ISDIR | INVAL | NFILE | MFILE | NOTTY | TXTBSY | FBIG | NOSPC
| SPIPE | ROFS | MLINK | PIPE | DOM | RANGE | DEADLK | NAMETOOLONG | NOLCK
| NOSYS | NOTEMPTY | ERROR.

Definition code (e : Errno) : Z :=
  match e with
  | PERM => 1 | NOENT => 2 | SRCH => 3 | INTR => 4 | IO => 5 | NXIO => 6
  | TOOBIG => 7 | NOEXEC => 8 | BADF => 9 | CHILD => 10 | AGAIN => 11
  | NOMEM => 12 | ACCESS => 13 | FAULT => 14 | NOTBLK => 15 | BUSY => 16
  | EXIST => 17 | XDEV => 18 | NODEV => 19 | NOTDIR => 20 | ISDIR => 21
  | INVAL => 22 | NFILE => 23 | MFILE => 24 | NOTTY => 25 | TXTBSY => 26
  | FBIG => 27 | NOSPC => 28 | SPIPE => 29 | ROFS => 30 | MLINK => 31
  | PIPE => 32 | DOM => 33 | RANGE => 34 | DEADLK => 35 | NAMETOOLONG => 36
  | NOLCK => 37 | NOSYS => 38 | NOTEMPTY => 39 | ERROR => 99
  end%Z.

#[global] Instance Errno_eq_dec : EqDecision Errno.
Proof. solve_decision. Defined.

(** ** Results and the kernel monad

    A kernel routine either returns ([Ok]), fails with an error code ([Err],
    the [?] operator and explicit [Err(...)]), or panics ([Panic]: a failed
    [assert!], an out-of-bounds index, an [expect] on [None]).  Unlike a
    transaction, a failing routine keeps the effects it had before failing, so
    the state is threaded outside the result. *)
Inductive result (A : Type) : Type :=
| Ok (a : A)
| Err (e : Errno)
| Panic.
Arguments Ok {A} _.
Arguments Err {A} _.
Arguments Panic {A}.

#[global] Instance result_eq_dec `{EqDecision A} : EqDecision (result A).
Proof. solve_decision. Defined.

Definition M (S A : Type) : Type := S → result A * S.

Definition mok {S A} (a : A) : M S A := λ s, (Ok a, s).
Definition merr {S A} (e : Errno) : M S A := λ s, (Err e, s).
Definition mpanic {S A} : M S A := λ s, (Panic, s).
Definition bind {S A B} (m : M S A) (k : A → M S B) : M S B :=
  λ s, match m s with
       | (Ok a, s') => k a s'
       | (Err e, s') => (Err e, s')
       | (Panic, s') => (Panic, s')
       end.
Definition mget {S} : M S S := λ s, (Ok s, s).
Definition mput {S} (s : S) : M S unit := λ _, (Ok (), s).
Definition mmodify {S} (f : S → S) : M S unit := λ s, (Ok (), f s).
Definition mgets {S A} (f : S → A) : M S A := λ s, (Ok (f s), s).

(** [assert!(b)]. *)
Definition massert {S} (b : bool) : M S unit := if b then mok () else mpanic.

(** Rust's [Option::expect] / indexing: [None] panics. *)
Definition mexpect {S A} (o : option A) : M S A :=
  match o with Some a => mok a | None => mpanic end.

(** [Option::ok_or(e)?]. *)
Definition mok_or {S A} (o : option A) (e : Errno) : M S A :=
  match o with Some a => mok a | None => merr e end.

(** Observe the outcome of a computation instead of propagating its error
    (a [match] on a [Result]); panics still propagate. *)
Definition mtry {S A} (m : M S A) : M S (A + Errno) :=
  λ s, match m s with
       | (Ok a, s') => (Ok (inl a), s')
       | (Err e, s') => (Ok (inr e), s')
       | (Panic, s') => (Panic, s')
       end.

Declare Scope kmonad_scope.
Delimit Scope kmonad_scope with kmonad.
Notation "x <- m ;; k" := (bind m (λ x, k))
  (at level 100, m at next level, right associativity,
   format "'[v' x  <-  m ;; '/' k ']'") : kmonad_scope.
Notation "m1 ;;; m2" := (bind m1 (λ _, m2))
  (at level 100, right associativity) : kmonad_scope.

(** [for x in l { f(x)?; }] *)
Fixpoint mfor {S A} (l : list A) (f : A → M S unit) : M S unit :=
  match l with
  | [] => mok ()
  | x :: l' => bind (f x) (λ _, mfor l' f)
  end.

Section monad_facts.
Context {S A B : Type}.
Implicit Types (m : M S A) (k : A → M S B) (s : S).

Lemma bind_Ok m k s a s1 : m s = (Ok a, s1) → bind m k s = k a s1.
Proof. unfold bind. by intros ->. Qed.

Lemma bind_Err m k s e s1 : m s = (Err e, s1) → bind m k s = (Err e, s1).
Proof. unfold bind. by intros ->. Qed.

Lemma bind_Panic m k s s1 : m s = (Panic, s1) → bind m k s = (Panic, s1).
Proof. unfold bind. by intros ->. Qed.

Lemma bind_Ok_inv m k s b s' :
  bind m k s = (Ok b, s') → ∃ a s1, m s = (Ok a, s1) ∧ k a s1 = (Ok b, s').
Proof. unfold bind. destruct (m s) as [[a|e|] s1]; naive_solver. Qed.

(** The three ways a sequence can end. *)
Lemma bind_inv m k s r s' :
  bind m k s = (r, s') →
  (∃ a s1, m s = (Ok a, s1) ∧ k a s1 = (r, s')) ∨
  (∃ e, m s = (Err e, s') ∧ r = Err e) ∨
  (m s = (Panic, s') ∧ r = Panic).
Proof. unfold bind. destruct (m s) as [[a|e|] s1]; naive_solver. Qed.
End monad_facts.

Lemma bind_bind {S A B C} (m : M S A) (f : A → M S B) (g : B → M S C) s :
  bind (bind m f) g s = bind m (λ a, bind (f a) g) s.
Proof. unfold bind. by destruct (m s) as [[a|e|] s1]. Qed.

(** A state predicate kept by a computation whatever its outcome. *)
Definition preserves {S A} (P : S → Prop) (m : M S A) : Prop :=
  ∀ s, P s → P (snd (m s)).

Section preserves_facts.
Context {S : Type} (P : S → Prop).

Lemma preserves_mok {A} (a : A) : preserves P (mok a).
Proof. by intros s. Qed.
Lemma preserves_merr {A} e : preserves P (@merr S A e).
Proof. by intros s. Qed.
Lemma preserves_mpanic {A} : preserves P (@mpanic S A).
Proof. by intros s. Qed.
Lemma preserves_mgets {A} (f : S → A) : preserves P (mgets f).
Proof. by intros s. Qed.
Lemma preserves_mget : preserves P mget.
Proof. by intros s. Qed.
Lemma preserves_massert b : preserves P (massert b).
Proof. by destruct b; intros s. Qed.
Lemma preserves_mexpect {A} (o : option A) : preserves P (mexpect o).
Proof. by destruct o; intros s. Qed.
Lemma preserves_mok_or {A} (o : option A) e : preserves P (mok_or o e).
Proof. by destruct o; intros s. Qed.
Lemma preserves_mmodify f : (∀ s, P s → P (f s)) → preserves P (mmodify f).
Proof. intros H s Hs. by apply H. Qed.
Lemma preserves_bind {A B} (m : M S A) (k : A → M S B) :
  preserves P m → (∀ a, preserves P (k a)) → preserves P (bind m k).
Proof.
  intros Hm Hk s Hs. unfold bind. specialize (Hm s Hs).
  destruct (m s) as [[a|e|] s1]; simpl in *; try done. by apply Hk.
Qed.
Lemma preserves_mtry {A} (m : M S A) : preserves P m → preserves P (mtry m).
Proof.
  intros Hm s Hs. unfold mtry. specialize (Hm s Hs).
  by destruct (m s) as [[a|e|] s1].
Qed.
Lemma preserves_mfor {A} (l : list A) f :
  (∀ x, x ∈ l → preserves P (f x)) → preserves P (mfor l f).
Proof.
  induction l as [|x l IH]; intros H; simpl; [apply preserves_mok|].
  apply preserves_bind; [apply H; left|]. intros _. apply IH.
  intros y Hy. apply H. by right.
Qed.
End preserves_facts.

Create HintDb kernel.
#[export] Hint Resolve preserves_mok preserves_merr preserves_mpanic
  preserves_mgets preserves_mget preserves_massert preserves_mexpect
  preserves_mok_or : kernel.
#[export] Hint Resolve preserves_bind preserves_mtry : kernel.

(** Walk a computation with the [preserves] rules, splitting on the matches it
    makes; what is left are the state updates. *)
Ltac preserves_tac :=
  repeat match goal with
  | |- preserves _ (bind _ _) => apply preserves_bind; [|intros ?]
  | |- preserves _ (mtry _) => apply preserves_mtry
  | |- preserves _ (mmodify _) => apply preserves_mmodify; intros ? ?
  | |- preserves _ (mfor _ _) => apply preserves_mfor; intros ? ?
  | |- preserves _ (match ?x with _ => _ end) => destruct x
  | |- preserves _ (let _ := _ in _) => cbv zeta
  | |- preserves _ _ => solve [eauto with kernel]
  end.

(** ** Machine integers *)

Open Scope Z_scope.

Definition wrap (w x : Z) : Z := x mod 2 ^ w.

(** [x as u8], [x as u16], [x as u32]. *)
Abbreviation as_u8 := (wrap 8).
Abbreviation as_u16 := (wrap 16).
Abbreviation as_u32 := (wrap 32).

(** [usize] is 32 bits wide on the kernel's i386 target. *)
Definition wrapping_sub (x y : Z) : Z := wrap 32 (x - y).
Definition wrapping_add (x y : Z) : Z := wrap 32 (x + y).

Definition is_uint (w x : Z) : Prop := 0 ≤ x < 2 ^ w.
#[global] Instance is_uint_dec w x : Decision (is_uint w x).
Proof. unfold is_uint. apply _. Defined.

(** [!x] at width [w]. *)
Definition unot (w x : Z) : Z := Z.lxor x (Z.ones w).

(** [flags.contains(f)] of the [bitflags] types. *)
Definition contains (flags f : Z) : bool := Z.land flags f =? f.

Lemma wrap_bound w x : 0 ≤ w → is_uint w (wrap w x).
Proof. intros. apply Z.mod_pos_bound. apply Z.pow_pos_nonneg; lia. Qed.

Lemma wrap_small w x : is_uint w x → wrap w x = x.
Proof. intros. by apply Z.mod_small. Qed.

Lemma wrap_land w x : 0 ≤ w → wrap w x = Z.land x (Z.ones w).
Proof. intros. by rewrite Z.land_ones. Qed.

Lemma testbit_wrap w x i : 0 ≤ w → Z.testbit (wrap w x) i = (i <? w) && Z.testbit x i.
Proof.
  intros. rewrite wrap_land by done. rewrite Z.land_spec.
  destruct (Z.ltb_spec i w).
  - destruct (decide (0 ≤ i)).
    + rewrite Z.ones_spec_low by lia. by rewrite andb_true_r.
    + rewrite !(Z.testbit_neg_r _ i) by lia. done.
  - rewrite Z.ones_spec_high by lia. by rewrite andb_false_r.
Qed.

(** A value bounded by [2^w] has no bit at or above [w]. *)
Lemma testbit_high w x i : is_uint w x → w ≤ i → Z.testbit x i = false.
Proof.
  intros [Hlo Hhi] Hi. destruct (decide (x = 0)) as [->|]; [apply Z.bits_0|].
  apply Z.bits_above_log2; [done|].
  assert (Z.log2 x < w); [|lia]. apply Z.log2_lt_pow2; lia.
Qed.

(** Masking with [2^k - 1] is reduction modulo [2^k]. *)
Lemma land_mask k x : 0 ≤ k → Z.land x (2 ^ k - 1) = x mod 2 ^ k.
Proof.
  intros. rewrite <- Z.land_ones by done. f_equal. rewrite Z.ones_equiv. lia.
Qed.

Lemma wrap_mod_pow w k x : 0 ≤ k ≤ w → wrap w x mod 2 ^ k = x mod 2 ^ k.
Proof.
  intros. unfold wrap. replace w with (k + (w - k)) by lia.
  assert (0 < 2 ^ k) by (apply Z.pow_pos_nonneg; lia).
  assert (0 < 2 ^ (w - k)) by (apply Z.pow_pos_nonneg; lia).
  rewrite Z.pow_add_r, Z.rem_mul_r by lia.
  rewrite Z.mul_comm, Z.mod_add by lia. by apply Z.mod_mod; lia.
Qed.

(** Index arithmetic of a ring of [2^k] cells: the masked 32-bit difference of
    two indices is their distance around the ring, because [2^k] divides
    [2^32]. *)
Lemma masked_sub k x y :
  0 ≤ k ≤ 32 → Z.land (wrapping_sub x y) (2 ^ k - 1) = (x - y) mod 2 ^ k.
Proof. intros. rewrite land_mask by lia. by apply wrap_mod_pow. Qed.

(** ** Lists indexed by machine integers

    Rust's [v\[i\]]: an index outside the slice panics, so the lookup is
    partial. *)
Definition zlookup {A} (l : list A) (i : Z) : option A :=
  if 0 <=? i then l !! Z.to_nat i else None.
Definition zupdate {A} (l : list A) (i : Z) (x : A) : list A :=
  if 0 <=? i then <[Z.to_nat i := x]> l else l.

Section zlist.
Context {A : Type}.
Implicit Types l : list A.

Lemma zlookup_Some l i x : zlookup l i = Some x → 0 ≤ i < Z.of_nat (length l).
Proof.
  unfold zlookup. destruct (Z.leb_spec 0 i); [|done].
  intros ?%lookup_lt_Some. lia.
Qed.

Lemma zlookup_is_Some l i : is_Some (zlookup l i) ↔ 0 ≤ i < Z.of_nat (length l).
Proof.
  split; [intros [x ?]; by eapply zlookup_Some|].
  intros [Hlo Hhi]. unfold zlookup. destruct (Z.leb_spec 0 i); [|lia].
  apply lookup_lt_is_Some. lia.
Qed.

Lemma length_zupdate l i x : length (zupdate l i x) = length l.
Proof. unfold zupdate. destruct (0 <=? i); [apply length_insert|done]. Qed.

Lemma zlookup_zupdate l i j x :
  0 ≤ i < Z.of_nat (length l) →
  zlookup (zupdate l i x) j = if decide (i = j) then Some x else zlookup l j.
Proof.
  intros [Hlo Hhi]. unfold zlookup, zupdate.
  destruct (Z.leb_spec 0 i); [|lia]. destruct (Z.leb_spec 0 j).
  - destruct (decide (i = j)) as [->|].
    + apply list_lookup_insert_eq. lia.
    + apply list_lookup_insert_ne. lia.
  - destruct (decide (i = j)); [lia|done].
Qed.

Lemma zupdate_out l i x : ¬ (0 ≤ i < Z.of_nat (length l)) → zupdate l i x = l.
Proof.
  intros Hi. unfold zupdate. destruct (Z.leb_spec 0 i); [|done].
  apply list_insert_ge. lia.
Qed.
End zlist.

(** [&src\[off..off + n\]] and [dst\[off..off + src.len()\].copy_from_slice(src)]
    for ranges inside the slice. *)
Definition slice {A} (l : list A) (off n : Z) : list A :=
  take (Z.to_nat n) (drop (Z.to_nat off) l).
Definition splice {A} (l : list A) (off : Z) (src : list A) : list A :=
  take (Z.to_nat off) l ++ src ++ drop (Z.to_nat off + length src) l.

Section slices.
Context {A : Type}.
Implicit Types l src : list A.

Lemma length_slice l off n :
  0 ≤ off → 0 ≤ n → off + n ≤ Z.of_nat (length l) →
  Z.of_nat (length (slice l off n)) = n.
Proof. intros. unfold slice. rewrite length_take, length_drop. lia. Qed.

Lemma length_splice l off src :
  0 ≤ off → off + Z.of_nat (length src) ≤ Z.of_nat (length l) →
  length (splice l off src) = length l.
Proof. intros. unfold splice. rewrite !length_app, length_take, length_drop. lia. Qed.

Lemma slice_lookup l off n i :
  0 ≤ off → (i < Z.to_nat n)%nat → slice l off n !! i = l !! (Z.to_nat off + i)%nat.
Proof. intros. unfold slice. by rewrite lookup_take_lt, lookup_drop. Qed.

Lemma slice_app l off n m :
  0 ≤ off → 0 ≤ n → 0 ≤ m → slice l off (n + m) = slice l off n ++ slice l (off + n) m.
Proof.
  intros. unfold slice. rewrite !Z2Nat.inj_add by lia.
  rewrite <- drop_drop. by rewrite take_take_drop.
Qed.

Lemma splice_nil l off : 0 ≤ off → splice l off [] = l.
Proof.
  intros. unfold splice. simpl. rewrite Nat.add_0_r. apply take_drop.
Qed.

(** Cell by cell: inside the window the source, outside it the old cell. *)
Lemma splice_lookup l off src i :
  0 ≤ off → off + Z.of_nat (length src) ≤ Z.of_nat (length l) →
  splice l off src !! i =
    if decide (Z.to_nat off ≤ i < Z.to_nat off + length src)%nat
    then src !! (i - Z.to_nat off)%nat else l !! i.
Proof.
  intros. unfold splice. case_decide.
  - rewrite lookup_app_r by (rewrite length_take; lia).
    rewrite lookup_app_l by (rewrite length_take; lia).
    f_equal. rewrite length_take. lia.
  - destruct (decide (i < Z.to_nat off)%nat).
    + rewrite lookup_app_l by (rewrite length_take; lia). by apply lookup_take_lt.
    + rewrite lookup_app_r by (rewrite length_take; lia).
      rewrite lookup_app_r by (rewrite length_take; lia).
      rewrite lookup_drop, length_take. f_equal. lia.
Qed.

Lemma splice_slice l off src :
  0 ≤ off → off + Z.of_nat (length src) ≤ Z.of_nat (length l) →
  slice (splice l off src) off (Z.of_nat (length src)) = src.
Proof.
  intros. apply list_eq. intros i. destruct (decide (i < length src)%nat).
  - rewrite slice_lookup, splice_lookup by lia.
    rewrite decide_True by lia. f_equal. lia.
  - rewrite (lookup_ge_None_2 src) by lia. apply lookup_ge_None_2.
    unfold slice. rewrite length_take. lia.
Qed.
End slices.

Lemma list_snoc_case {A} (l : list A) : l = [] ∨ ∃ l' x, l = l' ++ [x].
Proof. induction l using rev_ind; eauto. Qed.

(** [iter().position(p)] and [iter().rposition(p)]: the first and the last
    index whose element satisfies the test. *)
Fixpoint position {A} (p : A → bool) (l : list A) : option nat :=
  match l with
  | [] => None
  | x :: l' => if p x then Some 0%nat else S <$> position p l'
  end.

Fixpoint rposition {A} (p : A → bool) (l : list A) : option nat :=
  match l with
  | [] => None
  | x :: l' => match rposition p l' with
               | Some i => Some (S i)
               | None => if p x then Some 0%nat else None
               end
  end.

(** [iter().find_map(f)]. *)
Fixpoint find_map {A B} (f : A → option B) (l : list A) : option B :=
  match l with
  | [] => None
  | x :: l' => match f x with Some b => Some b | None => find_map f l' end
  end.

Section search.
Context {A : Type}.
Implicit Types (p : A → bool) (l : list A).

Lemma position_Some p l i :
  position p l = Some i ↔
  (∃ x, l !! i = Some x ∧ p x = true) ∧
  (∀ j y, (j < i)%nat → l !! j = Some y → p y = false).
Proof.
  revert i. induction l as [|x l IH]; intros i; simpl.
  - split; [done|]. intros [(x & ? & ?) _]. done.
  - destruct (p x) eqn:Hx.
    + split.
      * intros [= <-]. split; [by exists x|]. intros j y ?. lia.
      * intros [_ Hmin]. destruct i as [|i]; [done|].
        exfalso. specialize (Hmin 0%nat x ltac:(lia) eq_refl). congruence.
    + rewrite fmap_Some. split.
      * intros (i' & Hi' & ->). apply IH in Hi' as [(y & Hy & Hpy) Hmin].
        split; [by exists y|]. intros [|j] z Hj Hz; simpl in *; [congruence|].
        apply (Hmin j); [lia|done].
      * intros [(y & Hy & Hpy) Hmin].
        destruct i as [|i]; simpl in *; [congruence|].
        exists i. split; [|done]. apply IH. split; [by exists y|].
        intros j z Hj Hz. apply (Hmin (S j)); [lia|done].
Qed.

Lemma position_None p l : position p l = None ↔ ∀ x, x ∈ l → p x = false.
Proof.
  induction l as [|x l IH]; simpl.
  - split; [intros _ y Hy; by apply elem_of_nil in Hy|done].
  - destruct (p x) eqn:Hx.
    + split; [done|]. intros H. specialize (H x ltac:(left)). congruence.
    + rewrite fmap_None, IH. split.
      * intros H y [->|Hy]%elem_of_cons; [done|by apply H].
      * intros H y Hy. apply H. by right.
Qed.

Lemma rposition_None p l : rposition p l = None ↔ ∀ x, x ∈ l → p x = false.
Proof.
  induction l as [|x l IH]; simpl.
  - split; [intros _ y Hy; by apply elem_of_nil in Hy|done].
  - destruct (rposition p l) eqn:E.
    + split; [done|]. intros H. exfalso.
      assert (Some n = None) by (apply IH; intros y ?; apply H; by right). done.
    + destruct IH as [IH _]. specialize (IH eq_refl).
      destruct (p x) eqn:Hx.
      * split; [done|]. intros H. specialize (H x ltac:(left)). congruence.
      * split; [|done]. intros _ y [->|Hy]%elem_of_cons; [done|by apply IH].
Qed.

Lemma rposition_Some p l i :
  rposition p l = Some i →
  (∃ x, l !! i = Some x ∧ p x = true) ∧
  (∀ j y, (i < j)%nat → l !! j = Some y → p y = false).
Proof.
  revert i. induction l as [|x l IH]; intros i; simpl; [done|].
  destruct (rposition p l) as [i'|] eqn:E.
  - intros [= <-]. destruct (IH i' eq_refl) as [Hex Hmax]. split; [done|].
    intros [|j] y Hj Hy; [lia|]. apply (Hmax j); [lia|done].
  - destruct (p x) eqn:Hx; [|done]. intros [= <-]. split; [by exists x|].
    intros [|j] y Hj Hy; [lia|]. apply rposition_None with (x := y) in E; [done|].
    by eapply list_elem_of_lookup_2.
Qed.
End search.

Lemma find_map_Some {A B} (f : A → option B) l b :
  find_map f l = Some b →
  ∃ l1 x l2, l = l1 ++ x :: l2 ∧ f x = Some b ∧ ∀ y, y ∈ l1 → f y = None.
Proof.
  induction l as [|x l IH]; simpl; [done|]. destruct (f x) as [b'|] eqn:Hx.
  - intros [= ->]. exists [], x, l. split_and!; try done. by intros y ?%elem_of_nil.
  - intros (l1 & y & l2 & -> & ? & Hn)%IH. exists (x :: l1), y, l2. split_and!; try done.
    intros z [->|?]%elem_of_cons; auto.
Qed.

Lemma find_map_None {A B} (f : A → option B) l : find_map f l = None → ∀ x, x ∈ l → f x = None.
Proof.
  induction l as [|x l IH]; simpl; [by intros _ y ?%elem_of_nil|].
  destruct (f x) eqn:Hx; [done|]. intros Hn y [->|Hy]%elem_of_cons; auto.
Qed.

(** ** Bits *)

Lemma testbit_unot w x n : 0 ≤ n < w → Z.testbit (unot w x) n = negb (Z.testbit x n).
Proof.
  intros Hn. unfold unot. rewrite Z.lxor_spec, Z.ones_spec_low by lia. by destruct (Z.testbit x n).
Qed.

(** A number without bits from [w] on fits in [w] bits. *)
Lemma bits_uint w x : 0 ≤ w → (∀ n, w ≤ n → Z.testbit x n = false) → is_uint w x.
Proof.
  intros Hw Hb. assert (x = wrap w x) as ->; [|by apply wrap_bound].
  apply Z.bits_inj_iff'. intros n Hn. rewrite testbit_wrap by done.
  destruct (Z.ltb_spec n w); [done|]. by rewrite Hb.
Qed.

Lemma land_uint w x y : 0 ≤ w → is_uint w x → is_uint w (Z.land x y).
Proof. intros. apply bits_uint; [done|]. intros n Hn. by rewrite Z.land_spec, (testbit_high w x n). Qed.

Lemma lor_uint w x y : 0 ≤ w → is_uint w x → is_uint w y → is_uint w (Z.lor x y).
Proof. intros. apply bits_uint; [done|]. intros n Hn. by rewrite Z.lor_spec, !(testbit_high w). Qed.

Lemma unot_uint w x : 0 ≤ w → is_uint w x → is_uint w (unot w x).
Proof.
  intros. apply bits_uint; [done|]. intros n Hn. unfold unot.
  by rewrite Z.lxor_spec, (testbit_high w x), Z.ones_spec_high by (done || lia).
Qed.

Lemma bit_uint w n : 0 ≤ n < w → is_uint w (Z.shiftl 1 n).
Proof.
  intros. apply bits_uint; [lia|]. intros m Hm. rewrite Z.shiftl_1_l. apply Z.pow2_bits_false. lia.
Qed.

Lemma testbit_bit n m : 0 ≤ n → Z.testbit (Z.shiftl 1 n) m = (n =? m).
Proof. intros. rewrite Z.shiftl_1_l. by apply Z.pow2_bits_eqb. Qed.

(** A word is zero when all its bits are. *)
Lemma uint_zero w x : is_uint w x → (∀ n, 0 ≤ n < w → Z.testbit x n = false) → x = 0.
Proof.
  intros Hx Hb. apply Z.bits_inj_0. intros n. destruct (decide (n < 0)); [by apply Z.testbit_neg_r|].
  destruct (decide (n < w)); [apply Hb; lia|]. apply (testbit_high w); [done|lia].
Qed.

(** [x.trailing_zeros()] of a [w]-bit word. *)
Definition trailing_zeros (w : nat) (x : Z) : nat :=
  default w (position (λ n, Z.testbit x (Z.of_nat n)) (seq 0 w)).

Lemma trailing_zeros_spec w x :
  is_uint (Z.of_nat w) x → x ≠ 0 →
  (trailing_zeros w x < w)%nat ∧ Z.testbit x (Z.of_nat (trailing_zeros w x)) = true ∧
  ∀ m, (m < trailing_zeros w x)%nat → Z.testbit x (Z.of_nat m) = false.
Proof.
  intros Hx Hnz. unfold trailing_zeros. destruct (position _ _) as [i|] eqn:Hp; simpl.
  - apply position_Some in Hp as [(j & Hj & Hb) Hm]. apply lookup_seq in Hj as [-> Hi].
    split_and!; [done|done|]. intros m Hmi. apply (Hm m m); [done|]. apply lookup_seq. lia.
  - exfalso. apply Hnz, (uint_zero _ _ Hx). intros n Hn.
    pose proof (proj1 (position_None _ _) Hp (Z.to_nat n)) as H. cbv beta in H.
    rewrite Z2Nat.id in H by lia. apply H, elem_of_seq. lia.
Qed.

(** ** Little-endian numbers *)

Fixpoint le_bytes (n : nat) (x : Z) : list Z :=
  match n with O => [] | S n => x mod 256 :: le_bytes n (x / 256) end.

Definition le_value (l : list Z) : Z := foldr (λ b x, b + 256 * x) 0 l.

Lemma length_le_bytes n x : length (le_bytes n x) = n.
Proof. revert x. induction n; intros x; simpl; auto. Qed.

Lemma le_bytes_uint n x : Forall (is_uint 8) (le_bytes n x).
Proof.
  revert x. induction n as [|n IH]; intros x; constructor; [|apply IH].
  pose proof (Z.mod_pos_bound x 256). unfold is_uint. lia.
Qed.

Lemma le_value_bytes n x : 0 ≤ x < 256 ^ Z.of_nat n → le_value (le_bytes n x) = x.
Proof.
  revert x. induction n as [|n IH]; intros x Hx; [simpl in *; lia|]. rewrite Nat2Z.inj_succ, Z.pow_succ_r in Hx by lia.
  cbn [le_bytes le_value foldr]. fold (le_value (le_bytes n (x / 256))).
  rewrite IH by (split; [apply Z.div_pos; lia|apply Z.div_lt_upper_bound; lia]). pose proof (Z.div_mod x 256). lia.
Qed.

Lemma le_bytes_value l : Forall (is_uint 8) l → le_bytes (length l) (le_value l) = l.
Proof.
  induction 1 as [|b l Hb _ IH]; [done|]. cbn [length le_bytes le_value foldr]. fold (le_value l). unfold is_uint in Hb.
  rewrite (Z.mul_comm 256), Z.mod_add, Z.div_add, Z.mod_small, Z.div_small, Z.add_0_l, IH by lia. done.
Qed.

Lemma le_value_bound l : Forall (is_uint 8) l → 0 ≤ le_value l < 256 ^ Z.of_nat (length l).
Proof.
  induction 1 as [|b l Hb _ IH]; [done|]. cbn [length le_value foldr]. fold (le_value l).
  rewrite Nat2Z.inj_succ, Z.pow_succ_r by lia. unfold is_uint in Hb. lia.
Qed.
