(* ===== verification/ByteQueue.v ===== *)
(** * Bounded byte queues

    The interface the TTY core relies on ([RingBuffer] of
    [kernel/src/driver/character/tty/ring_buffer.rs]) as a class of operations
    and a class of laws over an abstraction function to lists, and the facts on
    circular storage that the TTY ring buffer and the pipe page share. *)

From S2P Require Import Prelude.
Open Scope Z_scope.

(** ** The interface *)

Class ByteQueue (Q : Type) : Type := {
  q_new : Q;
  q_len : Q → Z;
  q_remaining : Q → Z;
  q_is_empty : Q → bool;
  q_is_full : Q → bool;
  q_push : Q → Z → bool * Q;
  q_pop : Q → option Z * Q;
  q_last : Q → option Z;
  q_pop_last : Q → option Z * Q;
  q_clear : Q → Q;
}.

(** A queue of capacity [q_cap] behaves as the list [q_list] of the bytes it
    holds, oldest first, for every state that satisfies [q_wf]. *)
Class ByteQueueLaws (Q : Type) `{ByteQueue Q} : Type := {
  q_cap : Z;
  q_wf : Q → Prop;
  q_list : Q → list Z;
  q_cap_word : 0 < q_cap < 2 ^ 32;
  q_new_wf : q_wf q_new;
  q_new_list : q_list q_new = [];
  q_len_list q : q_wf q → q_len q = Z.of_nat (length (q_list q));
  q_len_cap q : q_wf q → Z.of_nat (length (q_list q)) ≤ q_cap;
  q_remaining_list q : q_wf q → q_remaining q = q_cap - Z.of_nat (length (q_list q));
  q_is_empty_list q : q_wf q → q_is_empty q = bool_decide (q_list q = []);
  q_is_full_list q : q_wf q → q_is_full q = bool_decide (Z.of_nat (length (q_list q)) = q_cap);
  q_push_ok q b : q_wf q → Z.of_nat (length (q_list q)) < q_cap →
    (q_push q b).1 = true ∧ q_wf (q_push q b).2 ∧
    q_list (q_push q b).2 = q_list q ++ [b];
  q_push_full q b : q_wf q → Z.of_nat (length (q_list q)) = q_cap →
    q_push q b = (false, q);
  q_pop_nil q : q_wf q → q_list q = [] → q_pop q = (None, q);
  q_pop_cons q b l : q_wf q → q_list q = b :: l →
    (q_pop q).1 = Some b ∧ q_wf (q_pop q).2 ∧ q_list (q_pop q).2 = l;
  q_last_list q : q_wf q → q_last q = last (q_list q);
  q_pop_last_nil q : q_wf q → q_list q = [] → q_pop_last q = (None, q);
  q_pop_last_snoc q b l : q_wf q → q_list q = l ++ [b] →
    (q_pop_last q).1 = Some b ∧ q_wf (q_pop_last q).2 ∧ q_list (q_pop_last q).2 = l;
  q_clear_wf q : q_wf q → q_wf (q_clear q);
  q_clear_list q : q_wf q → q_list (q_clear q) = [];
}.

#[export] Hint Resolve q_new_wf q_clear_wf : kernel.

Section derived.
Context `{ByteQueueLaws Q}.

Lemma q_push_wf q b : q_wf q → q_wf (q_push q b).2.
Proof.
  intros Hq. pose proof (q_len_cap q Hq).
  destruct (decide (Z.of_nat (length (q_list q)) = q_cap)).
  - by rewrite q_push_full.
  - apply q_push_ok; [done|lia].
Qed.

(** A push appends when there is room and changes nothing otherwise. *)
Lemma q_push_list q b : q_wf q →
  q_list (q_push q b).2 =
    if decide (Z.of_nat (length (q_list q)) < q_cap) then q_list q ++ [b] else q_list q.
Proof.
  intros Hq. pose proof (q_len_cap q Hq). case_decide.
  - by apply q_push_ok.
  - rewrite q_push_full; [done|done|lia].
Qed.

Lemma q_pop_wf q : q_wf q → q_wf (q_pop q).2.
Proof.
  intros Hq. destruct (q_list q) as [|b l] eqn:E.
  - by rewrite q_pop_nil.
  - by eapply q_pop_cons.
Qed.

Lemma q_pop_eq q : q_wf q →
  (q_pop q).1 = head (q_list q) ∧ q_list (q_pop q).2 = tail (q_list q).
Proof.
  intros Hq. destruct (q_list q) as [|b l] eqn:E.
  - rewrite q_pop_nil by done. simpl. by rewrite E.
  - by destruct (q_pop_cons q b l Hq E) as (? & ? & ?).
Qed.

Lemma q_pop_last_wf q : q_wf q → q_wf (q_pop_last q).2.
Proof.
  intros Hq. destruct (list_snoc_case (q_list q)) as [E|(l & b & E)].
  - by rewrite q_pop_last_nil.
  - by eapply q_pop_last_snoc.
Qed.
End derived.

#[export] Hint Resolve q_push_wf q_pop_wf q_pop_last_wf : kernel.

(** ** Circular storage *)

(** The [n] bytes that start at index [t] of a storage of [cap] bytes, wrapping
    around at its end. *)
Definition circ (cap : Z) (buf : list Z) (t n : Z) : list Z :=
  (λ i, buf !!! Z.to_nat ((t + i) mod cap)) <$> seqZ 0 n.

Section circ.
Context (cap : Z) (Hcap : 0 < cap).
Implicit Types (buf : list Z) (t n : Z).

Lemma length_circ buf t n : length (circ cap buf t n) = Z.to_nat n.
Proof. unfold circ. by rewrite length_fmap, length_seqZ. Qed.

Lemma circ_nil buf t n : n ≤ 0 → circ cap buf t n = [].
Proof. intros. unfold circ. by rewrite seqZ_nil. Qed.

Lemma circ_lookup buf t n i :
  0 ≤ i < n → circ cap buf t n !! Z.to_nat i = Some (buf !!! Z.to_nat ((t + i) mod cap)).
Proof.
  intros. unfold circ. rewrite list_lookup_fmap, lookup_seqZ_lt by lia. simpl.
  do 4 f_equal. lia.
Qed.

Lemma circ_snoc buf t n :
  0 ≤ n → circ cap buf t (n + 1) = circ cap buf t n ++ [buf !!! Z.to_nat ((t + n) mod cap)].
Proof.
  intros. unfold circ. rewrite seqZ_app by lia. by rewrite fmap_app.
Qed.

Lemma circ_cons buf t n :
  0 ≤ n →
  circ cap buf t (n + 1) = buf !!! Z.to_nat (t mod cap) :: circ cap buf ((t + 1) mod cap) n.
Proof.
  intros. unfold circ. rewrite seqZ_cons by lia. simpl.
  rewrite Z.add_0_r. f_equal.
  replace (Z.succ 0) with (1 + 0) by lia. replace (Z.pred (n + 1)) with n by lia.
  rewrite <- (fmap_add_seqZ 1 0 n), <- list_fmap_compose. apply list_fmap_ext. intros i x _. unfold compose.
  rewrite Zplus_mod_idemp_l. do 3 f_equal. lia.
Qed.

Lemma circ_mod buf t n : circ cap buf (t mod cap) n = circ cap buf t n.
Proof.
  unfold circ. apply list_fmap_ext. intros i x _. by rewrite Zplus_mod_idemp_l.
Qed.

(** Two storages that agree on the window hold the same bytes. *)
Lemma circ_ext buf buf' t n :
  (∀ i, 0 ≤ i < n → buf !!! Z.to_nat ((t + i) mod cap) = buf' !!! Z.to_nat ((t + i) mod cap)) →
  circ cap buf t n = circ cap buf' t n.
Proof.
  intros Heq. unfold circ. apply list_fmap_ext. intros i x Hx.
  apply lookup_seqZ in Hx as [-> ?]. apply Heq. lia.
Qed.

(** Distinct offsets below [cap] address distinct cells. *)
Lemma circ_distinct t i j :
  0 ≤ i < cap → 0 ≤ j < cap → (t + i) mod cap = (t + j) mod cap → i = j.
Proof.
  intros Hi Hj Heq. rewrite (Z.mod_eq (t + i)), (Z.mod_eq (t + j)) in Heq by lia.
  set (d := (t + i) / cap - (t + j) / cap).
  assert (i - j = cap * d) by (unfold d; lia).
  assert (d = 0 ∨ 1 ≤ d ∨ d ≤ -1) as [?|[?|?]] by lia; nia.
Qed.

Lemma zupdate_total buf i j b :
  0 ≤ i < Z.of_nat (length buf) → 0 ≤ j →
  zupdate buf i b !!! Z.to_nat j = if decide (i = j) then b else buf !!! Z.to_nat j.
Proof.
  intros Hi Hj. unfold zupdate. destruct (Z.leb_spec 0 i); [|lia].
  case_decide as E.
  - subst. apply list_lookup_total_insert_eq. lia.
  - apply list_lookup_total_insert_ne. lia.
Qed.

(** Storing a byte just after a window of fewer than [cap] bytes extends it. *)
Lemma circ_store buf t n b :
  Z.of_nat (length buf) = cap → 0 ≤ n < cap →
  circ cap (zupdate buf ((t + n) mod cap) b) t (n + 1) = circ cap buf t n ++ [b].
Proof.
  intros Hlen Hn. rewrite circ_snoc by lia.
  assert (∀ i, 0 ≤ (t + i) mod cap < Z.of_nat (length buf)) as Hb
    by (rewrite Hlen; intros; apply Z.mod_pos_bound; lia).
  f_equal.
  - apply circ_ext. intros i Hi. rewrite zupdate_total by apply Hb.
    case_decide as E; [|done]. apply circ_distinct in E; lia.
  - rewrite zupdate_total by apply Hb. by rewrite decide_True.
Qed.

Lemma circ_app buf t n k :
  0 ≤ k ≤ n → circ cap buf t n = circ cap buf t k ++ circ cap buf ((t + k) mod cap) (n - k).
Proof.
  intros. rewrite circ_mod. unfold circ.
  replace n with (k + (n - k)) at 1 by lia. rewrite seqZ_app by lia.
  rewrite fmap_app. f_equal. replace (0 + k) with (k + 0) by lia.
  rewrite <- (fmap_add_seqZ k 0), <- list_fmap_compose.
  apply list_fmap_ext. intros i x _. unfold compose. by rewrite Z.add_assoc.
Qed.

(** A window that does not wrap is a slice of the storage. *)
Lemma circ_slice buf t k :
  Z.of_nat (length buf) = cap → 0 ≤ t → 0 ≤ k → t + k ≤ cap →
  circ cap buf t k = slice buf t k.
Proof.
  intros Hlen Ht Hk Htk. apply list_eq. intros i.
  destruct (decide (i < Z.to_nat k)%nat).
  - rewrite slice_lookup by lia.
    replace i with (Z.to_nat (Z.of_nat i)) at 1 by lia.
    rewrite circ_lookup by lia. symmetry.
    rewrite Z.mod_small by lia.
    replace (Z.to_nat t + i)%nat with (Z.to_nat (t + Z.of_nat i)) by lia.
    apply list_lookup_lookup_total_lt. lia.
  - rewrite !lookup_ge_None_2; [done| |].
    + unfold slice. rewrite length_take. lia.
    + rewrite length_circ. lia.
Qed.

(** Storing a chunk that fits before the end of the storage extends the
    window by that chunk. *)
Lemma circ_splice buf t n src :
  Z.of_nat (length buf) = cap → 0 ≤ n → n + Z.of_nat (length src) ≤ cap →
  (t + n) mod cap + Z.of_nat (length src) ≤ cap →
  circ cap (splice buf ((t + n) mod cap) src) t (n + Z.of_nat (length src)) =
    circ cap buf t n ++ src.
Proof.
  intros Hlen Hn Hfit Hend.
  pose proof (Z.mod_pos_bound (t + n) cap Hcap) as Hh. set (h := (t + n) mod cap) in *.
  assert (length (splice buf h src) = length buf) as Hlen' by (apply length_splice; lia).
  rewrite (circ_app _ t _ n) by lia.
  replace (n + Z.of_nat (length src) - n) with (Z.of_nat (length src)) by lia.
  fold h. f_equal.
  - apply circ_ext. intros i Hi. rewrite !list_lookup_total_alt.
    rewrite splice_lookup by lia. case_decide as Hin; [|done].
    exfalso. pose proof (Z.mod_pos_bound (t + i) cap Hcap).
    assert ((t + i) mod cap = (t + (n + ((t + i) mod cap - h))) mod cap) as E.
    { set (x := (t + i) mod cap) in *.
      rewrite Z.add_assoc, <- Zplus_mod_idemp_l. fold h.
      rewrite Zplus_minus. symmetry. apply Z.mod_small. lia. }
    apply circ_distinct in E; lia.
  - rewrite circ_slice by lia. apply splice_slice; lia.
Qed.
End circ.
