(* ===== verification/RingBuffer.v ===== *)
(** * The TTY ring buffer ([kernel/src/driver/character/tty/ring_buffer.rs])

    The fixed 1024-byte ring and its operations, and the proof that it
    implements the bounded byte queue of [ByteQueue]. *)

From S2P Require Import Prelude ByteQueue.
Open Scope Z_scope.

Module RingBuffer.

(** ** Data and operations *)

Record RingBuffer : Type := mkRing {
  buf : list Z;
  head : Z;
  tail : Z;
}.

Definition CAPACITY : Z := 1024.
Definition MASK : Z := CAPACITY - 1.

Definition new : RingBuffer :=
  {| buf := replicate (Z.to_nat CAPACITY) 0; head := 0; tail := 0 |}.

Definition len (r : RingBuffer) : Z := Z.land (wrapping_sub (head r) (tail r)) MASK.

Definition remaining (r : RingBuffer) : Z := MASK - len r.

Definition is_empty (r : RingBuffer) : bool := head r =? tail r.

Definition is_full (r : RingBuffer) : bool := remaining r =? 0.

Definition push (r : RingBuffer) (byte : Z) : bool * RingBuffer :=
  if is_full r then (false, r)
  else (true, {| buf := zupdate (buf r) (head r) byte;
                 head := Z.land (head r + 1) MASK;
                 tail := tail r |}).

Definition pop (r : RingBuffer) : option Z * RingBuffer :=
  if is_empty r then (None, r)
  else (zlookup (buf r) (tail r),
        {| buf := buf r; head := head r; tail := Z.land (tail r + 1) MASK |}).

Definition last (r : RingBuffer) : option Z :=
  if is_empty r then None
  else zlookup (buf r) (Z.land (wrapping_sub (head r) 1) MASK).

Definition pop_last (r : RingBuffer) : option Z * RingBuffer :=
  if is_empty r then (None, r)
  else let h := Z.land (wrapping_sub (head r) 1) MASK in
       (zlookup (buf r) h, {| buf := buf r; head := h; tail := tail r |}).

Definition clear (r : RingBuffer) : RingBuffer :=
  {| buf := buf r; head := head r; tail := head r |}.

(** ** Representation invariant and abstraction *)

Record wf (r : RingBuffer) : Prop := {
  wf_buf : length (buf r) = Z.to_nat CAPACITY;
  wf_head : 0 ≤ head r < CAPACITY;
  wf_tail : 0 ≤ tail r < CAPACITY;
}.

Definition contents (r : RingBuffer) : list Z := circ CAPACITY (buf r) (tail r) (len r).

Lemma mask_mod x : Z.land x MASK = x mod CAPACITY.
Proof. apply (land_mask 10). lia. Qed.

Lemma masked x y : Z.land (wrapping_sub x y) MASK = (x - y) mod CAPACITY.
Proof. apply (masked_sub 10). lia. Qed.

Lemma len_eq r : len r = (head r - tail r) mod CAPACITY.
Proof. apply masked. Qed.

Lemma len_bound r : 0 ≤ len r < CAPACITY.
Proof. rewrite len_eq. apply Z.mod_pos_bound. unfold CAPACITY; lia. Qed.

Lemma ring_length_contents r : Z.of_nat (length (contents r)) = len r.
Proof. unfold contents. rewrite length_circ. pose proof (len_bound r). lia. Qed.

Lemma ring_head_eq r : wf r → head r = (tail r + len r) mod CAPACITY.
Proof.
  intros [_ Hh Ht]. rewrite len_eq, Zplus_mod_idemp_r.
  rewrite <- (Z.mod_small (head r) CAPACITY) at 1 by done. f_equal. lia.
Qed.

Lemma is_empty_len r : wf r → is_empty r = (len r =? 0).
Proof.
  intros Hwf. pose proof (ring_head_eq r Hwf) as Hh. destruct Hwf as [_ ? Ht].
  unfold is_empty. apply eq_bool_prop_intro. rewrite !Is_true_true, !Z.eqb_eq. split.
  - intros E. rewrite len_eq, E, Z.sub_diag. done.
  - intros E. rewrite E, Z.add_0_r, Z.mod_small in Hh by done. done.
Qed.

Lemma is_empty_contents r : wf r → is_empty r = bool_decide (contents r = []).
Proof.
  intros Hwf. rewrite is_empty_len by done. apply eq_bool_prop_intro.
  rewrite bool_decide_spec, Is_true_true, Z.eqb_eq, <- ring_length_contents.
  destruct (contents r); simpl; split; try done; lia.
Qed.

(** The distance after moving either end by one. *)
Lemma dist_step x y n :
  (x - y) mod CAPACITY = n → (x + 1 - y) mod CAPACITY = (n + 1) mod CAPACITY.
Proof.
  intros <-. rewrite Zplus_mod_idemp_l. f_equal. lia.
Qed.

Lemma push_full r b : is_full r = true → push r b = (false, r).
Proof. unfold push. by intros ->. Qed.

Lemma is_full_len r : is_full r = (len r =? MASK).
Proof.
  unfold is_full, remaining.
  destruct (Z.eqb_spec (MASK - len r) 0), (Z.eqb_spec (len r) MASK); done || lia.
Qed.

Lemma push_spec r b :
  wf r → len r < MASK →
  (push r b).1 = true ∧ wf (push r b).2 ∧ contents (push r b).2 = contents r ++ [b].
Proof.
  intros Hwf Hn. unfold push. rewrite is_full_len.
  destruct (Z.eqb_spec (len r) MASK); [lia|]. simpl. split; [done|].
  pose proof (len_bound r) as Hlb. pose proof (ring_head_eq r Hwf) as Hh.
  destruct Hwf as [Hbuf ? ?]. split.
  - constructor; simpl; [by rewrite length_zupdate| |done].
    rewrite mask_mod. apply Z.mod_pos_bound. unfold CAPACITY; lia.
  - unfold contents at 1. rewrite len_eq; simpl. rewrite mask_mod.
    assert (((head r + 1) mod CAPACITY - tail r) mod CAPACITY = len r + 1) as ->.
    { rewrite Zminus_mod_idemp_l, (dist_step _ _ (len r)) by (by rewrite len_eq).
      apply Z.mod_small. unfold MASK in *. lia. }
    rewrite Hh. apply circ_store; [unfold CAPACITY; lia| |done].
    rewrite Hbuf. unfold CAPACITY. lia.
Qed.

Lemma zlookup_total (l : list Z) i :
  0 ≤ i < Z.of_nat (length l) → zlookup l i = Some (l !!! Z.to_nat i).
Proof.
  intros. unfold zlookup. destruct (Z.leb_spec 0 i); [|lia].
  apply list_lookup_lookup_total_lt. lia.
Qed.

Lemma pop_spec r b l :
  wf r → contents r = b :: l →
  (pop r).1 = Some b ∧ wf (pop r).2 ∧ contents (pop r).2 = l.
Proof.
  intros Hwf Hc. unfold pop. rewrite is_empty_contents, Hc by done. simpl.
  pose proof (ring_length_contents r) as Hl. rewrite Hc in Hl; simpl in Hl.
  pose proof (len_bound r) as Hlb. destruct Hwf as [Hbuf Hh Ht].
  unfold contents in Hc.
  replace (len r) with (len r - 1 + 1) in Hc by lia.
  rewrite circ_cons in Hc by (unfold CAPACITY; lia).
  rewrite Z.mod_small in Hc by done. injection Hc as Hb Hl'.
  split_and!.
  - rewrite zlookup_total by (rewrite Hbuf; unfold CAPACITY in *; lia). by rewrite Hb.
  - constructor; simpl; [done|done|].
    rewrite mask_mod. apply Z.mod_pos_bound. unfold CAPACITY; lia.
  - rewrite <- Hl'. unfold contents at 1. simpl. rewrite mask_mod. f_equal.
    rewrite len_eq; simpl. rewrite Zminus_mod_idemp_r.
    replace (len r - 1) with ((len r - 1) mod CAPACITY) by (apply Z.mod_small; lia).
    rewrite len_eq, Zminus_mod_idemp_l. f_equal. lia.
Qed.

(** The most recent byte sits just below the head. *)
Lemma snoc_spec r b l :
  wf r → contents r = l ++ [b] →
  zlookup (buf r) (Z.land (wrapping_sub (head r) 1) MASK) = Some b ∧
  circ CAPACITY (buf r) (tail r) (len r - 1) = l ∧
  (Z.land (wrapping_sub (head r) 1) MASK - tail r) mod CAPACITY = len r - 1.
Proof.
  intros Hwf Hc. rewrite masked.
  pose proof (ring_length_contents r) as Hl. rewrite Hc, length_app in Hl; simpl in Hl.
  pose proof (len_bound r) as Hlb. pose proof (ring_head_eq r Hwf) as Hhd.
  destruct Hwf as [Hbuf Hh Ht]. unfold contents in Hc.
  replace (len r) with (len r - 1 + 1) in Hc by lia.
  rewrite circ_snoc in Hc by lia. apply app_inj_2 in Hc as [Hl' [= Hb]]; [|done].
  assert ((head r - 1) mod CAPACITY = (tail r + (len r - 1)) mod CAPACITY) as Hp.
  { rewrite Hhd, Zminus_mod_idemp_l. f_equal. lia. }
  split_and!; [|done|].
  - rewrite Hp, zlookup_total; [by rewrite Hb|].
    rewrite Hbuf. pose proof (Z.mod_pos_bound (tail r + (len r - 1)) CAPACITY).
    unfold CAPACITY in *; lia.
  - rewrite Zminus_mod_idemp_l.
    replace (len r - 1) with ((len r - 1) mod CAPACITY) by (apply Z.mod_small; lia).
    rewrite len_eq, Zminus_mod_idemp_l. f_equal. lia.
Qed.

Lemma snoc_nonempty r b l : wf r → contents r = l ++ [b] → is_empty r = false.
Proof.
  intros Hwf Hc. rewrite is_empty_contents, Hc by done.
  apply bool_decide_eq_false_2. by destruct l.
Qed.

Lemma last_spec r : wf r → last r = list.last (contents r).
Proof.
  intros Hwf. unfold last. destruct (list_snoc_case (contents r)) as [E|(l & b & E)].
  - by rewrite is_empty_contents, E.
  - erewrite snoc_nonempty by done. rewrite E, last_snoc.
    by destruct (snoc_spec r b l Hwf E) as (? & _ & _).
Qed.

Lemma pop_last_spec r b l :
  wf r → contents r = l ++ [b] →
  (pop_last r).1 = Some b ∧ wf (pop_last r).2 ∧ contents (pop_last r).2 = l.
Proof.
  intros Hwf Hc. unfold pop_last. erewrite snoc_nonempty by done. simpl.
  destruct (snoc_spec r b l Hwf Hc) as (Hb & Hl & Hd). split_and!; [done| |].
  - destruct Hwf. constructor; simpl; [done| |done].
    rewrite masked. apply Z.mod_pos_bound. unfold CAPACITY; lia.
  - unfold contents. simpl. rewrite len_eq; simpl. by rewrite Hd.
Qed.

(** ** The interface instance *)

#[global] Instance ring_queue : ByteQueue RingBuffer := {
  q_new := new; q_len := len; q_remaining := remaining; q_is_empty := is_empty;
  q_is_full := is_full; q_push := push; q_pop := pop; q_last := last;
  q_pop_last := pop_last; q_clear := clear;
}.

#[global] Program Instance ring_queue_laws : ByteQueueLaws RingBuffer := {
  q_cap := MASK; q_wf := wf; q_list := contents;
}.
Next Obligation. done. Qed.
Next Obligation. by constructor. Qed.
Next Obligation. done. Qed.
Next Obligation. intros q _. by rewrite ring_length_contents. Qed.
Next Obligation.
  intros q _. rewrite ring_length_contents. pose proof (len_bound q). unfold MASK; lia.
Qed.
Next Obligation. intros q _. by rewrite ring_length_contents. Qed.
Next Obligation. apply is_empty_contents. Qed.
Next Obligation.
  intros q _. rewrite ring_length_contents. simpl. rewrite is_full_len.
  apply eq_bool_prop_intro. by rewrite bool_decide_spec, Is_true_true, Z.eqb_eq.
Qed.
Next Obligation. intros q b Hq. rewrite ring_length_contents. by apply push_spec. Qed.
Next Obligation.
  intros q b _. rewrite ring_length_contents. intros ?. apply push_full.
  rewrite is_full_len. by apply Z.eqb_eq.
Qed.
Next Obligation.
  intros q Hq Hc. simpl. unfold pop. by rewrite is_empty_contents, Hc.
Qed.
Next Obligation. intros q b l Hq. by apply pop_spec. Qed.
Next Obligation. intros q Hq. by apply last_spec. Qed.
Next Obligation.
  intros q Hq Hc. simpl. unfold pop_last. by rewrite is_empty_contents, Hc.
Qed.
Next Obligation. intros q b l Hq. by apply pop_last_spec. Qed.
Next Obligation. intros q [? ? ?]. by constructor. Qed.
Next Obligation.
  intros q Hq. simpl. unfold contents. simpl. apply circ_nil.
  rewrite len_eq; simpl. by rewrite Z.sub_diag.
Qed.

(** ** Refinement

    Any client sees a bounded list. *)

Inductive op : Set :=
| Push (b : Z) | Pop | PopLast | Last | Clear | Len | Remaining | IsEmpty | IsFull.

Inductive obs : Set := ObsBool (b : bool) | ObsByte (o : option Z) | ObsNat (n : Z) | ObsNone.

Definition apply_op (o : op) (r : RingBuffer) : obs * RingBuffer :=
  match o with
  | Push b => (ObsBool (push r b).1, (push r b).2)
  | Pop => (ObsByte (pop r).1, (pop r).2)
  | PopLast => (ObsByte (pop_last r).1, (pop_last r).2)
  | Last => (ObsByte (last r), r)
  | Clear => (ObsNone, clear r)
  | Len => (ObsNat (len r), r)
  | Remaining => (ObsNat (remaining r), r)
  | IsEmpty => (ObsBool (is_empty r), r)
  | IsFull => (ObsBool (is_full r), r)
  end.

(** The specification: a list of at most 1023 bytes, oldest first. *)
Definition spec_op (o : op) (l : list Z) : obs * list Z :=
  let n := Z.of_nat (length l) in
  match o with
  | Push b => if n <? 1023 then (ObsBool true, l ++ [b]) else (ObsBool false, l)
  | Pop => (ObsByte (List.hd_error l), List.tl l)
  | PopLast => (ObsByte (list.last l), removelast l)
  | Last => (ObsByte (list.last l), l)
  | Clear => (ObsNone, [])
  | Len => (ObsNat n, l)
  | Remaining => (ObsNat (1023 - n), l)
  | IsEmpty => (ObsBool (n =? 0), l)
  | IsFull => (ObsBool (n =? 1023), l)
  end.

Fixpoint run_ops {S} (f : op → S → obs * S) (os : list op) (s : S) : list obs :=
  match os with
  | [] => []
  | o :: os' => (f o s).1 :: run_ops f os' (f o s).2
  end.

Lemma apply_op_spec o r :
  wf r →
  wf (apply_op o r).2 ∧ (apply_op o r).1 = (spec_op o (contents r)).1 ∧
  contents (apply_op o r).2 = (spec_op o (contents r)).2.
Proof.
  intros Hwf. pose proof (q_len_cap r Hwf) as Hcap. simpl in Hcap.
  pose proof (ring_length_contents r) as Hlen.
  unfold MASK, CAPACITY in Hcap.
  destruct o as [b| | | | | | | |]; simpl; rewrite ?Hlen; split_and!; try done.
  1-3: destruct (Z.ltb_spec (len r) 1023);
    [destruct (push_spec r b Hwf) as (? & ? & ?); [unfold MASK, CAPACITY; lia|]
    |rewrite (push_full r b) by (rewrite is_full_len; unfold MASK, CAPACITY; apply Z.eqb_eq; lia)];
    simpl; congruence || done.
  all: try (destruct (contents r) as [|b l] eqn:E;
    [pose proof (q_pop_nil r Hwf E) as Hp; simpl in Hp; by rewrite Hp
    |destruct (pop_spec r b l Hwf E) as (? & ? & ?); simpl; try done; congruence]).
  all: try (destruct (list_snoc_case (contents r)) as [E|(l & b & E)];
    [pose proof (q_pop_last_nil r Hwf E) as Hp; simpl in Hp; by rewrite Hp, ?E
    |destruct (pop_last_spec r b l Hwf E) as (? & ? & ?);
     rewrite ?E, ?last_snoc, ?removelast_last; done || congruence]).
  - by rewrite last_spec.
  - exact (q_clear_wf r Hwf).
  - exact (q_clear_list r Hwf).
  - rewrite is_empty_len by done. done.
  - by rewrite is_full_len.
Qed.

(** No client can tell the ring buffer from a list of at most 1023 bytes:
    every sequence of operations on a new buffer makes the same observations on
    both. *)
Theorem ring_refines_list os : run_ops apply_op os new = run_ops spec_op os [].
Proof.
  assert (∀ r, wf r → run_ops apply_op os r = run_ops spec_op os (contents r)) as H.
  { induction os as [|o os IH]; intros r Hwf; simpl; [done|].
    destruct (apply_op_spec o r Hwf) as (Hwf' & -> & Hc). f_equal. by rewrite IH, Hc. }
  apply (H new). by constructor.
Qed.

End RingBuffer.
