(* ===== verification/Pipe.v ===== *)
(** * Pipes ([kernel/src/fs/file/pipe.rs])

    The shared state of a pipe, one definition per critical section of the read
    and write loops, the loops themselves, and the system in which any number
    of readers and writers interleave between critical sections. *)

From S2P Require Import Prelude ByteQueue.
From stdpp Require Import relations.
Open Scope Z_scope.

Module Pipe.

Definition PIPE_BUF_SIZE : Z := 4096.
Definition WRAP_MASK : Z := PIPE_BUF_SIZE - 1.

(** ** State *)

(** [frame] is the content of the physical page behind [PhysFrame]. *)
Record PipeState : Type := mkPipe {
  frame : list Z;
  head : Z;
  tail : Z;
  readers : Z;
  writers : Z;
}.

Definition size (s : PipeState) : Z := Z.land (wrapping_sub (head s) (tail s)) WRAP_MASK.

Definition space (s : PipeState) : Z := (PIPE_BUF_SIZE - 1) - size s.

(** [page] is the result of [frame::alloc()], a zeroed page when it succeeds. *)
Definition create_pair (page : option (list Z)) : result PipeState :=
  match page with
  | None => Err NOMEM
  | Some p => Ok {| frame := p; head := 0; tail := 0; readers := 1; writers := 1 |}
  end.

(** ** The read and write loops

    A call holds its locals; one iteration of its loop either goes round again,
    goes to sleep on the wait queue, or returns. *)
Inductive progress (C : Type) : Type :=
| Again (c : C)
| Sleep (c : C)
| Return (c : C) (r : result Z).
Arguments Again {C} _.
Arguments Sleep {C} _.
Arguments Return {C} _ _.

(** A [read] call: the length of the caller's buffer and the part of it filled
    so far (whose length is [total]). *)
Record ReadCall : Type := { r_count : Z; r_output : list Z }.

Definition r_total (c : ReadCall) : Z := Z.of_nat (length (r_output c)).

(** One pass of the [while] loop of [read], from its test to the end of its
    body. *)
Definition read_iter (c : ReadCall) (s : PipeState) : progress ReadCall * PipeState :=
  if r_total c <? r_count c then
    let n := size s in
    if n =? 0 then
      (if writers s =? 0 then Return c (Ok (r_total c)) else Sleep c, s)
    else
      let chars := Z.min (Z.min (PIPE_BUF_SIZE - tail s) (r_count c - r_total c)) n in
      (Again {| r_count := r_count c;
                r_output := r_output c ++ slice (frame s) (tail s) chars |},
       {| frame := frame s; head := head s;
          tail := Z.land (tail s + chars) WRAP_MASK;
          readers := readers s; writers := writers s |})
  else (Return c (Ok (r_total c)), s).

(** A [write] call: the input, the number of bytes accepted so far, and
    whether the call raised [SIGPIPE] on its task. *)
Record WriteCall : Type := { w_input : list Z; w_total : Z; w_sigpipe : bool }.

Definition w_count (c : WriteCall) : Z := Z.of_nat (length (w_input c)).

Definition write_iter (c : WriteCall) (s : PipeState) : progress WriteCall * PipeState :=
  if w_total c <? w_count c then
    let n := space s in
    if n =? 0 then
      (if readers s =? 0 then
         Return {| w_input := w_input c; w_total := w_total c; w_sigpipe := true |}
           (if 0 <? w_total c then Ok (w_total c) else Err PIPE)
       else Sleep c, s)
    else
      let chars := Z.min (Z.min (PIPE_BUF_SIZE - head s) (w_count c - w_total c)) n in
      (Again {| w_input := w_input c; w_total := w_total c + chars;
                w_sigpipe := w_sigpipe c |},
       {| frame := splice (frame s) (head s) (slice (w_input c) (w_total c) chars);
          head := Z.land (head s + chars) WRAP_MASK; tail := tail s;
          readers := readers s; writers := writers s |})
  else (Return c (Ok (w_total c)), s).

Definition start_read (count : Z) : ReadCall := {| r_count := count; r_output := [] |}.
Definition start_write (input : list Z) : WriteCall :=
  {| w_input := input; w_total := 0; w_sigpipe := false |}.

(** Run a loop until it sleeps or returns. *)
Fixpoint run {C} (iter : C → PipeState → progress C * PipeState) (fuel : nat)
    (c : C) (s : PipeState) : option (progress C * PipeState) :=
  match fuel with
  | O => None
  | S fuel' => match iter c s with
               | (Again c', s') => run iter fuel' c' s'
               | ps => Some ps
               end
  end.

(** The part of [Stat] that is not constant zero: [st_mode] (octal 10600, a
    FIFO readable and writable by its owner), [st_nlink] and [st_size]. *)
Definition stat (s : PipeState) : Z * Z * Z := (4480, 1, size s).

(** [Drop] for an endpoint. *)
Definition drop_end (is_write : bool) (s : PipeState) : PipeState :=
  if is_write
  then {| frame := frame s; head := head s; tail := tail s;
          readers := readers s; writers := wrapping_sub (writers s) 1 |}
  else {| frame := frame s; head := head s; tail := tail s;
          readers := wrapping_sub (readers s) 1; writers := writers s |}.

(** ** Invariant and abstraction *)

Record wf (s : PipeState) : Prop := {
  wf_frame : Z.of_nat (length (frame s)) = PIPE_BUF_SIZE;
  wf_head : 0 ≤ head s < PIPE_BUF_SIZE;
  wf_tail : 0 ≤ tail s < PIPE_BUF_SIZE;
}.

(** The bytes in flight, oldest first. *)
Definition contents (s : PipeState) : list Z := circ PIPE_BUF_SIZE (frame s) (tail s) (size s).

Lemma size_eq s : size s = (head s - tail s) mod PIPE_BUF_SIZE.
Proof. apply (masked_sub 12). lia. Qed.

Lemma wrap_index x : Z.land x WRAP_MASK = x mod PIPE_BUF_SIZE.
Proof. apply (land_mask 12). lia. Qed.

Lemma size_bound s : 0 ≤ size s < PIPE_BUF_SIZE.
Proof. rewrite size_eq. apply Z.mod_pos_bound. unfold PIPE_BUF_SIZE; lia. Qed.

Lemma pipe_length_contents s : Z.of_nat (length (contents s)) = size s.
Proof. unfold contents. rewrite length_circ. pose proof (size_bound s). lia. Qed.

Lemma pipe_head_eq s : wf s → head s = (tail s + size s) mod PIPE_BUF_SIZE.
Proof.
  intros [_ Hh Ht]. rewrite size_eq, Zplus_mod_idemp_r.
  rewrite <- (Z.mod_small (head s) PIPE_BUF_SIZE) at 1 by done. f_equal. lia.
Qed.

Lemma index_bound x : 0 ≤ x mod PIPE_BUF_SIZE < PIPE_BUF_SIZE.
Proof. apply Z.mod_pos_bound. unfold PIPE_BUF_SIZE; lia. Qed.

(** Taking [k] of the [n] bytes in flight. *)
Lemma consume_spec s k :
  wf s → 0 ≤ k ≤ size s → tail s + k ≤ PIPE_BUF_SIZE →
  let s' := {| frame := frame s; head := head s;
               tail := Z.land (tail s + k) WRAP_MASK;
               readers := readers s; writers := writers s |} in
  wf s' ∧ contents s = slice (frame s) (tail s) k ++ contents s'.
Proof.
  intros Hwf Hk Hend s'. pose proof (size_bound s) as Hsb. destruct Hwf as [Hf Hh Ht].
  assert (size s' = size s - k) as Hs'.
  { rewrite size_eq. unfold s'; simpl. rewrite wrap_index, Zminus_mod_idemp_r.
    replace (size s - k) with ((size s - k) mod PIPE_BUF_SIZE) by (apply Z.mod_small; lia).
    rewrite size_eq, Zminus_mod_idemp_l. f_equal. lia. }
  split.
  - constructor; unfold s'; simpl; [done|done|]. rewrite wrap_index. apply index_bound.
  - unfold contents. rewrite Hs'. unfold s'; simpl. rewrite wrap_index.
    rewrite (circ_app _ _ _ _ k) by lia. f_equal. apply circ_slice; lia.
Qed.

(** Storing a chunk behind the bytes in flight. *)
Lemma produce_spec s src :
  wf s → size s + Z.of_nat (length src) < PIPE_BUF_SIZE →
  head s + Z.of_nat (length src) ≤ PIPE_BUF_SIZE →
  let s' := {| frame := splice (frame s) (head s) src;
               head := Z.land (head s + Z.of_nat (length src)) WRAP_MASK;
               tail := tail s; readers := readers s; writers := writers s |} in
  wf s' ∧ contents s' = contents s ++ src.
Proof.
  intros Hwf Hfit Hend s'. pose proof (size_bound s) as Hsb.
  pose proof (pipe_head_eq s Hwf) as Hhd. destruct Hwf as [Hf Hh Ht].
  assert (size s' = size s + Z.of_nat (length src)) as Hs'.
  { rewrite size_eq. unfold s'; simpl. rewrite wrap_index, Zminus_mod_idemp_l.
    rewrite <- (Z.mod_small (size s + _) PIPE_BUF_SIZE) by lia.
    rewrite size_eq, Zplus_mod_idemp_l. f_equal. lia. }
  split.
  - constructor; unfold s'; simpl; [|rewrite wrap_index; apply index_bound|done].
    rewrite length_splice by lia. done.
  - unfold contents. rewrite Hs'. unfold s'; simpl. rewrite Hhd.
    apply circ_splice; [unfold PIPE_BUF_SIZE; lia|lia|lia|lia|]. by rewrite <- Hhd.
Qed.

(** ** One call run without interruption *)

Definition r_wf (c : ReadCall) : Prop := r_total c ≤ r_count c.
Definition w_wf (c : WriteCall) : Prop := 0 ≤ w_total c ≤ w_count c.

(** One critical section of a reader: either it moves a non-empty prefix of the
    bytes in flight to the caller, or it changes nothing. *)
Lemma read_iter_spec c s :
  wf s → r_wf c →
  let '(p, s') := read_iter c s in
  wf s' ∧ readers s' = readers s ∧ writers s' = writers s ∧
  match p with
  | Again c' => ∃ k bs, 0 < k ∧ k = Z.of_nat (length bs) ∧
      k ≤ Z.min (r_count c - r_total c) (size s) ∧
      (k = Z.min (r_count c - r_total c) (size s) ∨ tail s' = 0) ∧
      c' = {| r_count := r_count c; r_output := r_output c ++ bs |} ∧
      contents s = bs ++ contents s'
  | Sleep c' => c' = c ∧ s' = s ∧ r_total c < r_count c ∧ size s = 0 ∧ writers s ≠ 0
  | Return c' r => c' = c ∧ s' = s ∧ r = Ok (r_total c) ∧
      (r_total c = r_count c ∨ (size s = 0 ∧ writers s = 0))
  end.
Proof.
  intros Hwf Hc. unfold read_iter, r_wf in *. destruct (Z.ltb_spec (r_total c) (r_count c)).
  - destruct (Z.eqb_spec (size s) 0) as [Hz|Hz].
    + destruct (Z.eqb_spec (writers s) 0); split_and!; try done. by right.
    + pose proof (size_bound s). set (k := Z.min _ _).
      assert (0 ≤ tail s < PIPE_BUF_SIZE) as Ht by apply Hwf.
      destruct (consume_spec s k Hwf) as [Hwf' Hcont]; [lia|lia|].
      split_and!; [done|done|done|].
      assert (Z.of_nat (length (slice (frame s) (tail s) k)) = k) as Hl.
      { pose proof (wf_frame s Hwf). apply length_slice; lia. }
      exists k, (slice (frame s) (tail s) k). split_and!; try done; try lia.
      simpl. rewrite wrap_index.
      destruct (decide (k = PIPE_BUF_SIZE - tail s)) as [->|]; [|left; lia].
      right. rewrite Zplus_minus. apply Z_mod_same_full.
  - split_and!; try done. left. lia.
Qed.

Lemma write_iter_spec c s :
  wf s → w_wf c →
  let '(p, s') := write_iter c s in
  wf s' ∧ readers s' = readers s ∧ writers s' = writers s ∧
  match p with
  | Again c' => ∃ k, 0 < k ∧ k ≤ Z.min (w_count c - w_total c) (space s) ∧
      (k = Z.min (w_count c - w_total c) (space s) ∨ head s' = 0) ∧
      c' = {| w_input := w_input c; w_total := w_total c + k; w_sigpipe := w_sigpipe c |} ∧
      contents s' = contents s ++ slice (w_input c) (w_total c) k
  | Sleep c' => c' = c ∧ s' = s ∧ w_total c < w_count c ∧ space s = 0 ∧ readers s ≠ 0
  | Return c' r => s' = s ∧
      ((w_total c = w_count c ∧ c' = c ∧ r = Ok (w_total c)) ∨
       (w_total c < w_count c ∧ space s = 0 ∧ readers s = 0 ∧
        c' = {| w_input := w_input c; w_total := w_total c; w_sigpipe := true |} ∧
        r = if 0 <? w_total c then Ok (w_total c) else Err PIPE))
  end.
Proof.
  intros Hwf Hc. unfold write_iter, w_wf in *. destruct (Z.ltb_spec (w_total c) (w_count c)).
  - destruct (Z.eqb_spec (space s) 0) as [Hz|Hz].
    + destruct (Z.eqb_spec (readers s) 0); split_and!; try done. right. by split_and!.
    + pose proof (size_bound s). set (k := Z.min _ _).
      assert (0 ≤ head s < PIPE_BUF_SIZE) as Hh by apply Hwf.
      assert (0 < space s) by (unfold space in *; lia).
      assert (Z.of_nat (length (slice (w_input c) (w_total c) k)) = k) as Hl.
      { apply length_slice; unfold w_count in *; lia. }
      destruct (produce_spec s (slice (w_input c) (w_total c) k) Hwf) as [Hwf' Hcont];
        [unfold space in *; lia|lia|].
      rewrite Hl in *. split_and!; [done|done|done|].
      exists k. split_and!; try done; try lia.
      simpl. rewrite wrap_index.
      destruct (decide (k = PIPE_BUF_SIZE - head s)) as [->|]; [|left; lia].
      right. rewrite Zplus_minus. apply Z_mod_same_full.
  - split_and!; try done. left. split_and!; [lia|done|done].
Qed.

(** A read that is not interrupted takes, in order, the oldest
    [min(count, available)] bytes; it then returns if the buffer is filled or no
    writer is left, and sleeps otherwise.  Every iteration moves a byte, so a
    fuel above the number of bytes moved is enough. *)
Lemma run_read_spec fuel c s :
  wf s → r_wf c →
  let n := Z.min (r_count c - r_total c) (size s) in
  (Z.to_nat n < fuel)%nat →
  let c' := {| r_count := r_count c;
               r_output := r_output c ++ take (Z.to_nat n) (contents s) |} in
  ∃ s', wf s' ∧ contents s' = drop (Z.to_nat n) (contents s) ∧
    readers s' = readers s ∧ writers s' = writers s ∧
    run read_iter fuel c s =
      Some (if decide (r_count c - r_total c ≤ size s ∨ writers s = 0)
            then Return c' (Ok (r_total c + n)) else Sleep c', s').
Proof.
  revert c s. induction fuel as [|fuel IH]; intros c s Hwf Hc n Hfuel c'; [lia|].
  pose proof (read_iter_spec c s Hwf Hc) as Hspec.
  pose proof (size_bound s). unfold r_wf in Hc. simpl.
  destruct (read_iter c s) as [p s1].
  destruct Hspec as (Hwf1 & Hr1 & Hw1 & Hp).
  assert (n = 0 → c' = c) as Hc0.
  { intros E. unfold c'. rewrite E. change (Z.to_nat 0) with 0%nat. simpl.
    rewrite app_nil_r. by destruct c. }
  destruct p as [c1|c1|c1 r].
  - destruct Hp as (k & bs & Hk & Hlen & Hkn & _ & -> & Hcont).
    set (c1 := {| r_count := r_count c; r_output := r_output c ++ bs |}).
    assert (r_total c1 = r_total c + k) as Ht1.
    { unfold r_total, c1; simpl. rewrite length_app. lia. }
    assert (size s1 = size s - k) as Hs1.
    { rewrite <- !pipe_length_contents, Hcont, length_app. lia. }
    destruct (IH c1 s1 Hwf1) as (s2 & Hwf2 & Hcont2 & Hr2 & Hw2 & Hrun).
    { unfold r_wf. rewrite Ht1. simpl. lia. }
    { rewrite Ht1, Hs1. simpl. lia. }
    rewrite Ht1, Hs1 in *. cbn [r_count c1] in *.
    assert (Z.to_nat n = length bs + Z.to_nat (Z.min (r_count c - (r_total c + k)) (size s - k)))%nat
      as Hn by lia.
    exists s2. split_and!; [done| |congruence|congruence|].
    + rewrite Hcont2, Hcont, Hn, <- drop_drop. f_equal. by rewrite drop_app_length.
    + rewrite Hrun, Hw1. unfold c', c1; simpl. rewrite Hcont, Hn.
      rewrite take_app_add. f_equal.
      rewrite !app_assoc.
      destruct (decide (r_count c - r_total c ≤ size s ∨ writers s = 0)),
        (decide (r_count c - (r_total c + k) ≤ size s - k ∨ writers s = 0));
        try (exfalso; lia); [|done].
      do 3 f_equal. lia.
  - destruct Hp as (-> & -> & Hlt & Hz & Hw). assert (n = 0) as Hn0 by lia.
    exists s. rewrite Hc0, Hn0, decide_False by lia. by split_and!.
  - destruct Hp as (-> & -> & -> & Hd). assert (n = 0) as Hn0 by lia.
    exists s. rewrite Hc0, Hn0, decide_True, Z.add_0_r by lia. by split_and!.
Qed.

(** The same for a write: it accepts, in order, the longest prefix of the input
    that fits; it then returns if everything was accepted, reports a broken pipe
    if the pipe is full and no reader is left, and sleeps otherwise. *)
Lemma run_write_spec fuel c s :
  wf s → w_wf c →
  let n := Z.min (w_count c - w_total c) (space s) in
  (Z.to_nat n < fuel)%nat →
  let c' := {| w_input := w_input c; w_total := w_total c + n; w_sigpipe := w_sigpipe c |} in
  ∃ s', wf s' ∧ contents s' = contents s ++ slice (w_input c) (w_total c) n ∧
    readers s' = readers s ∧ writers s' = writers s ∧
    run write_iter fuel c s =
      Some (if decide (w_count c - w_total c ≤ space s) then Return c' (Ok (w_count c))
            else if decide (readers s = 0) then
              Return {| w_input := w_input c; w_total := w_total c + n; w_sigpipe := true |}
                (if 0 <? w_total c + n then Ok (w_total c + n) else Err PIPE)
            else Sleep c', s').
Proof.
  revert c s. induction fuel as [|fuel IH]; intros c s Hwf Hc n Hfuel c'; [lia|].
  pose proof (write_iter_spec c s Hwf Hc) as Hspec.
  pose proof (size_bound s) as Hsb. unfold w_wf in Hc. simpl.
  assert (0 ≤ space s) by (unfold space; lia).
  destruct (write_iter c s) as [p s1].
  destruct Hspec as (Hwf1 & Hr1 & Hw1 & Hp).
  assert (n = 0 → c' = c) as Hc0.
  { intros E. unfold c'. rewrite E, Z.add_0_r. by destruct c. }
  assert (∀ i, slice (w_input c) i 0 = []) as Hs0 by done.
  destruct p as [c1|c1|c1 r].
  - destruct Hp as (k & Hk & Hkn & _ & -> & Hcont).
    set (c1 := {| w_input := _; w_total := _; w_sigpipe := _ |}).
    assert (space s1 = space s - k) as Hs1.
    { unfold space. rewrite <- !pipe_length_contents, Hcont, length_app, Nat2Z.inj_add.
      rewrite length_slice; unfold w_count in *; lia. }
    destruct (IH c1 s1 Hwf1) as (s2 & Hwf2 & Hcont2 & Hr2 & Hw2 & Hrun).
    { unfold w_wf, w_count, c1 in *; simpl. lia. }
    { rewrite Hs1. unfold w_count, c1 in *; simpl. lia. }
    rewrite Hs1 in *. unfold w_count in *. cbn [w_input w_total w_sigpipe c1] in *.
    set (m := Z.min (Z.of_nat (length (w_input c)) - (w_total c + k)) (space s - k)) in *.
    assert (n = k + m) as Hn by lia.
    exists s2. split_and!; [done| |congruence|congruence|].
    + rewrite Hcont2, Hcont, <- app_assoc. f_equal. rewrite Hn. symmetry.
      apply slice_app; lia.
    + rewrite Hrun, Hr1. unfold c'. rewrite Hn, !Z.add_assoc.
      repeat case_decide; try (exfalso; lia); done.
  - destruct Hp as (-> & -> & Hlt & Hz & Hw). assert (n = 0) as Hn0 by lia.
    exists s. rewrite Hc0, Hn0, Hs0, app_nil_r, decide_False, decide_False by lia.
    by split_and!.
  - destruct Hp as (-> & [(Hd & -> & ->)|(Hlt & Hz & Hr & -> & ->)]);
      assert (n = 0) as Hn0 by lia; exists s.
    + rewrite Hc0, Hn0, Hs0, app_nil_r, decide_True by lia. rewrite Hd. by split_and!.
    + rewrite Hn0, Hs0, app_nil_r, decide_False, decide_True, !Z.add_0_r by lia.
      by split_and!.
Qed.

(** ** Readers and writers interleaved

    The kernel is not preempted inside a critical section, and a task gives up
    the processor only when it sleeps; any other pending call may run next, one
    iteration at a time.  [sent] and [received] are the history of the bytes
    accepted by writers and handed to readers. *)
Record Sys : Type := {
  pipe : PipeState;
  rcalls : list ReadCall;
  wcalls : list WriteCall;
  sent : list Z;
  received : list Z;
}.

Definition with_pipe (y : Sys) (s : PipeState) : Sys :=
  {| pipe := s; rcalls := rcalls y; wcalls := wcalls y; sent := sent y; received := received y |}.

(** The call that an iteration leaves pending, if it does not return. *)
Definition pending {C} (p : progress C) : option C :=
  match p with Again c | Sleep c => Some c | Return _ _ => None end.

Definition call_after {C} (p : progress C) : C :=
  match p with Again c | Sleep c | Return c _ => c end.

Definition update_call {C} (l : list C) (i : nat) (p : progress C) : list C :=
  match pending p with Some c => <[i := c]> l | None => delete i l end.

Inductive step : Sys → Sys → Prop :=
| step_call_read y n : 0 ≤ n →
    step y {| pipe := pipe y; rcalls := start_read n :: rcalls y; wcalls := wcalls y;
              sent := sent y; received := received y |}
| step_call_write y bs :
    step y {| pipe := pipe y; rcalls := rcalls y; wcalls := start_write bs :: wcalls y;
              sent := sent y; received := received y |}
| step_read y i c p s' :
    rcalls y !! i = Some c → read_iter c (pipe y) = (p, s') →
    step y {| pipe := s'; rcalls := update_call (rcalls y) i p; wcalls := wcalls y;
              sent := sent y;
              received := received y ++ drop (length (r_output c)) (r_output (call_after p)) |}
| step_write y i c p s' :
    wcalls y !! i = Some c → write_iter c (pipe y) = (p, s') →
    step y {| pipe := s'; rcalls := rcalls y; wcalls := update_call (wcalls y) i p;
              sent := sent y ++ slice (w_input c) (w_total c) (w_total (call_after p) - w_total c);
              received := received y |}
| step_drop y w : step y (with_pipe y (drop_end w (pipe y))).

Definition init (page : list Z) : Sys :=
  {| pipe := {| frame := page; head := 0; tail := 0; readers := 1; writers := 1 |};
     rcalls := []; wcalls := []; sent := []; received := [] |}.

(** Nothing is lost, duplicated or reordered: what was accepted is what was
    delivered followed by what is in flight. *)
Record inv (y : Sys) : Prop := {
  inv_wf : wf (pipe y);
  inv_fifo : sent y = received y ++ contents (pipe y);
  inv_rcalls : Forall r_wf (rcalls y);
  inv_wcalls : Forall w_wf (wcalls y);
}.

Lemma Forall_update_call {C} (P : C → Prop) l i p :
  Forall P l → P (call_after p) → Forall P (update_call l i p).
Proof.
  intros Hl Hp. unfold update_call.
  destruct p; simpl; [by apply Forall_insert|by apply Forall_insert|by apply Forall_delete].
Qed.

Lemma init_inv page : Z.of_nat (length page) = PIPE_BUF_SIZE → inv (init page).
Proof.
  intros. constructor; simpl; [|done|constructor|constructor].
  by constructor.
Qed.

Lemma step_inv y y' : inv y → step y y' → inv y'.
Proof.
  intros [Hwf Hfifo Hrc Hwc]. destruct 1 as [y n Hn|y bs|y i c p s' Hi Hit|y i c p s' Hi Hit|y w].
  - constructor; simpl; try done. by constructor.
  - constructor; simpl; try done. constructor; [|done]. unfold w_wf, w_count; simpl. lia.
  - assert (r_wf c) as Hc by (eapply Forall_lookup_1; eauto).
    pose proof (read_iter_spec c _ Hwf Hc) as Hs. rewrite Hit in Hs.
    destruct Hs as (Hwf' & _ & _ & Hp). constructor; simpl; [done| |apply Forall_update_call|]; try done;
      destruct p as [c'|c'|c' r]; simpl;
      [destruct Hp as (k & bs & ? & ? & ? & _ & -> & Hcont)
      |destruct Hp as (-> & -> & _)|destruct Hp as (-> & -> & _)
      |destruct Hp as (k & bs & ? & ? & ? & _ & -> & Hcont)
      |destruct Hp as (-> & -> & _)|destruct Hp as (-> & -> & _)]; simpl.
    + rewrite drop_app_length, Hfifo, Hcont. by rewrite app_assoc.
    + by rewrite drop_all, app_nil_r.
    + by rewrite drop_all, app_nil_r.
    + unfold r_wf, r_total in *; simpl. rewrite length_app. lia.
    + done.
    + done.
  - assert (w_wf c) as Hc by (eapply Forall_lookup_1; eauto).
    pose proof (write_iter_spec c _ Hwf Hc) as Hs. rewrite Hit in Hs.
    destruct Hs as (Hwf' & _ & _ & Hp).
    constructor; simpl; [done| |done|apply Forall_update_call]; [|done|];
      destruct p as [c'|c'|c' r]; simpl;
      [destruct Hp as (k & ? & ? & _ & -> & Hcont)
      |destruct Hp as (-> & -> & _)|
      |destruct Hp as (k & ? & ? & _ & -> & Hcont)
      |destruct Hp as (-> & -> & _)|]; simpl; try done.
    + rewrite Hcont, Hfifo, app_assoc. do 2 f_equal. lia.
    + by rewrite Z.sub_diag, app_nil_r.
    + destruct Hp as (-> & [(_ & -> & _)|(_ & _ & _ & -> & _)]); simpl;
        by rewrite Z.sub_diag, app_nil_r.
    + unfold w_wf, w_count in *; simpl. lia.
    + destruct Hp as (-> & [(_ & -> & _)|(_ & _ & _ & -> & _)]); done.
  - destruct Hwf. constructor; [by destruct w; constructor| |done|done].
    simpl. rewrite Hfifo. by destruct w.
Qed.

Definition zero_page : list Z := replicate (Z.to_nat PIPE_BUF_SIZE) 0.

(** A fresh pipe over a zeroed page. *)
Definition fresh : PipeState := pipe (init zero_page).

Lemma fresh_wf : wf fresh.
Proof. by constructor. Qed.

(** ** Properties *)

(** C11: under every interleaving of any number of readers, writers and endpoint
    closes, the bytes accepted by writers are exactly the bytes delivered to
    readers, in the same order, followed by the bytes in flight, of which there
    are never more than 4095. *)
Theorem pipe_fifo page y :
  Z.of_nat (length page) = PIPE_BUF_SIZE → rtc step (init page) y →
  sent y = received y ++ contents (pipe y) ∧
  Z.of_nat (length (contents (pipe y))) < PIPE_BUF_SIZE.
Proof.
  intros Hp Hrun. assert (inv y) as Hy.
  { apply init_inv in Hp. induction Hrun; [done|]. eauto using step_inv. }
  split; [apply Hy|]. rewrite pipe_length_contents. apply size_bound.
Qed.

Lemma pipe_fifo_witness :
  ∃ y, rtc step (init zero_page) y ∧ sent y = [7; 8] ∧ sent y = received y ++ contents (pipe y).
Proof.
  assert (∃ y, rtc step (init zero_page) y ∧ sent y = [7; 8]) as (y & Hrun & Hs).
  { eexists. split.
    - eapply rtc_l; [apply (step_call_write _ [7; 8])|].
      eapply rtc_l; [eapply (step_write _ 0); reflexivity|]. apply rtc_refl.
    - reflexivity. }
  exists y. split_and!; [exact Hrun|exact Hs|].
  apply (pipe_fifo zero_page); [reflexivity|exact Hrun].
Defined.

(** A [write] that runs without being interrupted accepts, in order, the
    longest prefix of its input that fits.  It returns the full count when
    everything fits, even with no reader left; when the pipe fills up it sleeps
    while a reader is open, and with none it raises [SIGPIPE] and returns the
    partial count, or [EPIPE] when nothing was accepted. *)
Lemma write_call fuel s input :
  wf s → (length input < fuel)%nat →
  let n := Z.min (Z.of_nat (length input)) (space s) in
  ∃ s', wf s' ∧ contents s' = contents s ++ take (Z.to_nat n) input ∧
    run write_iter fuel (start_write input) s =
      Some (if decide (Z.of_nat (length input) ≤ space s)
            then Return {| w_input := input; w_total := n; w_sigpipe := false |}
                   (Ok (Z.of_nat (length input)))
            else if decide (readers s = 0)
            then Return {| w_input := input; w_total := n; w_sigpipe := true |}
                   (if 0 <? n then Ok n else Err PIPE)
            else Sleep {| w_input := input; w_total := n; w_sigpipe := false |}, s').
Proof.
  intros Hwf Hfuel n. pose proof (size_bound s).
  destruct (run_write_spec fuel (start_write input) s Hwf) as (s' & ? & Hc & _ & _ & Hrun).
  { unfold w_wf, w_count; simpl. lia. }
  { unfold w_count; simpl. lia. }
  unfold w_count in *; simpl in *. rewrite Z.sub_0_r in *.
  exists s'. split_and!; [done|exact Hc|exact Hrun].
Qed.

(** A [read] that runs without being interrupted hands over, in order, the
    oldest bytes up to the caller's count and removes exactly those; it returns
    when the buffer is filled, returns a short count (zero at end of file) when
    the pipe is drained and no writer is left, and sleeps otherwise. *)
Lemma read_call fuel s count :
  wf s → 0 ≤ count → (Z.to_nat count < fuel)%nat →
  let n := Z.min count (size s) in
  let c' := {| r_count := count; r_output := take (Z.to_nat n) (contents s) |} in
  ∃ s', wf s' ∧ contents s' = drop (Z.to_nat n) (contents s) ∧
    run read_iter fuel (start_read count) s =
      Some (if decide (count ≤ size s ∨ writers s = 0) then Return c' (Ok n) else Sleep c', s').
Proof.
  intros Hwf Hcount Hfuel n c'. pose proof (size_bound s).
  destruct (run_read_spec fuel (start_read count) s Hwf) as (s' & ? & Hc & _ & _ & Hrun).
  { unfold r_wf, r_total; simpl. lia. }
  { unfold r_total; simpl. lia. }
  unfold r_total in *; simpl in *. rewrite Z.sub_0_r in *.
  exists s'. split_and!; [done|exact Hc|exact Hrun].
Qed.

(** Calls that run without being interrupted.  A [write] accepts, in order,
    the longest prefix of its input that fits.  It returns the full count when
    everything fits, even with no reader left; when the pipe fills up it sleeps
    while a reader is open, and with none it raises [SIGPIPE] and returns the
    partial count, or [EPIPE] when nothing was accepted.  A [read] hands over, in
    order, the oldest bytes up to the caller's count and removes exactly those;
    it returns when the buffer is filled, returns a short count (zero at end of
    file) when the pipe is drained and no writer is left, and sleeps otherwise. *)
Theorem call_outcomes s :
  wf s →
  (∀ fuel input, (length input < fuel)%nat →
     let n := Z.min (Z.of_nat (length input)) (space s) in
     ∃ s', wf s' ∧ contents s' = contents s ++ take (Z.to_nat n) input ∧
       run write_iter fuel (start_write input) s =
         Some (if decide (Z.of_nat (length input) ≤ space s)
               then Return {| w_input := input; w_total := n; w_sigpipe := false |}
                      (Ok (Z.of_nat (length input)))
               else if decide (readers s = 0)
               then Return {| w_input := input; w_total := n; w_sigpipe := true |}
                      (if 0 <? n then Ok n else Err PIPE)
               else Sleep {| w_input := input; w_total := n; w_sigpipe := false |}, s')) ∧
  (∀ fuel count, 0 ≤ count → (Z.to_nat count < fuel)%nat →
     let n := Z.min count (size s) in
     let c' := {| r_count := count; r_output := take (Z.to_nat n) (contents s) |} in
     ∃ s', wf s' ∧ contents s' = drop (Z.to_nat n) (contents s) ∧
       run read_iter fuel (start_read count) s =
         Some (if decide (count ≤ size s ∨ writers s = 0) then Return c' (Ok n) else Sleep c', s')).
Proof. intros Hwf. split; intros; [by apply write_call|by apply read_call]. Qed.

Lemma call_outcomes_witness :
  (∃ s', contents s' = [1; 2] ∧
     run write_iter 3 (start_write [1; 2]) (drop_end false fresh) =
       Some (Return {| w_input := [1; 2]; w_total := 2; w_sigpipe := false |} (Ok 2), s')) ∧
  (∃ s', contents s' = [] ∧
     run read_iter 6 (start_read 5) (drop_end true fresh) =
       Some (Return {| r_count := 5; r_output := [] |} (Ok 0), s')).
Proof.
  split.
  - destruct (call_outcomes (drop_end false fresh)) as [Hw _]; [constructor; done|].
    destruct (Hw 3%nat [1; 2]) as (s' & _ & Hc & Hr); [simpl; lia|]. exists s'. split; [exact Hc|exact Hr].
  - destruct (call_outcomes (drop_end true fresh)) as [_ Hrd]; [constructor; done|].
    destruct (Hrd 6%nat 5) as (s' & _ & Hc & Hr); [lia|simpl; lia|]. exists s'. split; [exact Hc|exact Hr].
Defined.

End Pipe.
