(* ===== verification/Tty.v ===== *)
(** * TTY core and line discipline
    ([kernel/src/driver/character/tty/mod.rs], [line_discipline.rs] and the
    [Termios] type of [user_lib/src/syscall/tty.rs])

    The per-device state over any bounded byte queue, the input path (mapping,
    flow control, signal characters, canonical editing, echo), the read path,
    and output post-processing. *)

From S2P Require Import Prelude ByteQueue RingBuffer.
Open Scope Z_scope.

Module Termios.

(** ** Configuration *)

Inductive ControlChar : Set :=
| Intr | Quit | Erase | Kill | Eof | Time | Min | Swtc | Start | Stop | Susp
| Eol | Reprint | Discard | WordErase | LiteralNext | Eol2.

(** [cc as usize]. *)
Definition cc_index (c : ControlChar) : nat :=
  match c with
  | Intr => 0 | Quit => 1 | Erase => 2 | Kill => 3 | Eof => 4 | Time => 5
  | Min => 6 | Swtc => 7 | Start => 8 | Stop => 9 | Susp => 10 | Eol => 11
  | Reprint => 12 | Discard => 13 | WordErase => 14 | LiteralNext => 15 | Eol2 => 16
  end%nat.

Definition NCC : nat := 8.
Definition NCCS : nat := 17.

Definition INIT_CONTROL_CHARS : list Z :=
  [3; 28; 127; 21; 4; 0; 1; 0; 17; 19; 26; 0; 18; 15; 23; 22; 0].

(** The mode bits the kernel tests (octal in the source). *)
Definition ISTRIP : Z := 32.
Definition INLCR : Z := 64.
Definition IGNCR : Z := 128.
Definition ICRNL : Z := 256.
Definition IUCLC : Z := 512.
Definition OPOST : Z := 1.
Definition OLCUC : Z := 2.
Definition ONLCR : Z := 4.
Definition OCRNL : Z := 8.
Definition ONLRET : Z := 32.
Definition ISIG : Z := 1.
Definition ICANON : Z := 2.
Definition ECHO : Z := 8.
Definition ECHOE : Z := 16.
Definition ECHOCTL : Z := 512.
Definition ECHOKE : Z := 2048.
Definition B2400 : Z := 11.
Definition CS8 : Z := 48.

Record Termios : Type := mkTermios {
  input_mode : Z;
  output_mode : Z;
  control_mode : Z;
  local_mode : Z;
  line_discipline : Z;
  control_chars : list Z;
}.

Definition console_default : Termios := {|
  input_mode := ICRNL;
  output_mode := Z.lor OPOST ONLCR;
  control_mode := 0;
  local_mode := Z.lor (Z.lor (Z.lor (Z.lor ISIG ICANON) ECHO) ECHOCTL) ECHOKE;
  line_discipline := 0;
  control_chars := INIT_CONTROL_CHARS;
|}.

Definition serial_default : Termios := {|
  input_mode := 0; output_mode := 0; control_mode := Z.lor B2400 CS8; local_mode := 0;
  line_discipline := 0; control_chars := INIT_CONTROL_CHARS;
|}.

(** The table is a [\[u8; 17\]], so the index is always in range. *)
Definition control_char (t : Termios) (c : ControlChar) : Z :=
  nth (cc_index c) (control_chars t) 0.

Definition set_control_char (t : Termios) (c : ControlChar) (v : Z) : Termios :=
  {| input_mode := input_mode t; output_mode := output_mode t;
     control_mode := control_mode t; local_mode := local_mode t;
     line_discipline := line_discipline t;
     control_chars := <[cc_index c := v]> (control_chars t) |}.

Record Termio : Type := mkTermio {
  c_iflag : Z;
  c_oflag : Z;
  c_cflag : Z;
  c_lflag : Z;
  c_line : Z;
  c_cc : list Z;
}.

Definition to_termio (t : Termios) : Termio :=
  {| c_iflag := as_u16 (input_mode t); c_oflag := as_u16 (output_mode t);
     c_cflag := as_u16 (control_mode t); c_lflag := as_u16 (local_mode t);
     c_line := line_discipline t; c_cc := take NCC (control_chars t) |}.

(** [(bits & !0xffff) | u32::from(half)]. *)
Definition replace_low_half (bits half : Z) : Z :=
  Z.lor (Z.land bits (unot 32 65535)) half.

Definition apply_termio (t : Termios) (o : Termio) : Termios :=
  {| input_mode := replace_low_half (input_mode t) (c_iflag o);
     output_mode := replace_low_half (output_mode t) (c_oflag o);
     control_mode := replace_low_half (control_mode t) (c_cflag o);
     local_mode := replace_low_half (local_mode t) (c_lflag o);
     line_discipline := c_line o;
     control_chars := c_cc o ++ drop NCC (control_chars t) |}.

(** ** Well-formed values: what the field types guarantee *)

Record termios_ok (t : Termios) : Prop := {
  ok_input : is_uint 32 (input_mode t);
  ok_output : is_uint 32 (output_mode t);
  ok_control : is_uint 32 (control_mode t);
  ok_local : is_uint 32 (local_mode t);
  ok_chars : length (control_chars t) = NCCS;
}.

Record termio_ok (o : Termio) : Prop := {
  ok_iflag : is_uint 16 (c_iflag o);
  ok_oflag : is_uint 16 (c_oflag o);
  ok_cflag : is_uint 16 (c_cflag o);
  ok_lflag : is_uint 16 (c_lflag o);
  ok_cc : length (c_cc o) = NCC;
}.

Lemma testbit_not_ffff i : 0 ≤ i → Z.testbit (unot 32 65535) i = (16 <=? i) && (i <? 32).
Proof.
  intros Hi. unfold unot. change 65535 with (Z.ones 16). rewrite Z.lxor_spec.
  rewrite !Z.testbit_ones_nonneg by lia.
  destruct (Z.ltb_spec i 16), (Z.ltb_spec i 32), (Z.leb_spec 16 i); done || lia.
Qed.

Lemma replace_low_half_same x : is_uint 32 x → replace_low_half x (as_u16 x) = x.
Proof.
  intros Hx. unfold replace_low_half. apply Z.bits_inj'. intros i Hi.
  rewrite Z.lor_spec, Z.land_spec, testbit_not_ffff, testbit_wrap by lia.
  destruct (decide (i < 32)).
  - destruct (Z.leb_spec 16 i), (Z.ltb_spec i 16), (Z.ltb_spec i 32); try lia;
      by destruct (Z.testbit x i).
  - rewrite (testbit_high 32 x i) by (done || lia). by rewrite andb_false_r.
Qed.

Lemma replace_low_half_low x h : is_uint 16 h → as_u16 (replace_low_half x h) = h.
Proof.
  intros Hh. unfold replace_low_half. apply Z.bits_inj'. intros i Hi.
  rewrite testbit_wrap, Z.lor_spec, Z.land_spec, testbit_not_ffff by lia.
  destruct (Z.ltb_spec i 16).
  - destruct (Z.leb_spec 16 i); [lia|]. by rewrite andb_false_r.
  - rewrite (testbit_high 16 h i) by (done || lia). done.
Qed.

(** The two terminal-attribute ABIs are consistent: writing back the legacy
    [termio] view of a configuration changes nothing, and what is read back
    after a legacy write is what was written. *)
Theorem termio_roundtrip t o :
  termios_ok t → termio_ok o →
  apply_termio t (to_termio t) = t ∧ to_termio (apply_termio t o) = o.
Proof.
  intros [? ? ? ? Hc] [? ? ? ? Ho]. split.
  - unfold apply_termio, to_termio; simpl.
    rewrite !replace_low_half_same, take_drop by done. by destruct t.
  - unfold apply_termio, to_termio; simpl.
    rewrite !replace_low_half_low by done. rewrite <- Ho, take_app_length. by destruct o.
Qed.

Lemma termio_roundtrip_witness :
  apply_termio console_default (to_termio console_default) = console_default ∧
  to_termio (apply_termio console_default (to_termio serial_default)) = to_termio serial_default.
Proof.
  apply termio_roundtrip; constructor; vm_compute; intuition congruence.
Defined.
End Termios.

Module Tty.
Import Termios.

(** ** State *)

Definition NO_FOREGROUND_GROUP : Z := 0.
Definition WRITE_WAKE_THRESHOLD : Z := 128.
Definition READ_CANONICAL_LOW_WATER : Z := 20.

(** [Signal::Int] and [Signal::Quit]. *)
Definition SIGINT : Z := 2.
Definition SIGQUIT : Z := 3.

Record TtyState (Q : Type) : Type := mkTty {
  termios : Termios;
  foreground_group : Z;
  stopped : bool;
  raw_input : Q;
  cooked_input : Q;
  output : Q;
  pending_lines : Z;
  output_cr_pending : bool;
}.
Arguments mkTty {Q} _ _ _ _ _ _ _ _.
Arguments termios {Q} _.
Arguments foreground_group {Q} _.
Arguments stopped {Q} _.
Arguments raw_input {Q} _.
Arguments cooked_input {Q} _.
Arguments output {Q} _.
Arguments pending_lines {Q} _.
Arguments output_cr_pending {Q} _.

Section tty.
Context {Q : Type} `{ByteQueue Q}.
Implicit Types st : TtyState Q.

Definition with_termios st t : TtyState Q :=
  mkTty t (foreground_group st) (stopped st) (raw_input st) (cooked_input st) (output st)
    (pending_lines st) (output_cr_pending st).
Definition with_group st g : TtyState Q :=
  mkTty (termios st) g (stopped st) (raw_input st) (cooked_input st) (output st)
    (pending_lines st) (output_cr_pending st).
Definition with_stopped st b : TtyState Q :=
  mkTty (termios st) (foreground_group st) b (raw_input st) (cooked_input st) (output st)
    (pending_lines st) (output_cr_pending st).
Definition with_raw st q : TtyState Q :=
  mkTty (termios st) (foreground_group st) (stopped st) q (cooked_input st) (output st)
    (pending_lines st) (output_cr_pending st).
Definition with_cooked st q : TtyState Q :=
  mkTty (termios st) (foreground_group st) (stopped st) (raw_input st) q (output st)
    (pending_lines st) (output_cr_pending st).
Definition with_output st q : TtyState Q :=
  mkTty (termios st) (foreground_group st) (stopped st) (raw_input st) (cooked_input st) q
    (pending_lines st) (output_cr_pending st).
Definition with_pending st n : TtyState Q :=
  mkTty (termios st) (foreground_group st) (stopped st) (raw_input st) (cooked_input st)
    (output st) n (output_cr_pending st).
Definition with_cr st b : TtyState Q :=
  mkTty (termios st) (foreground_group st) (stopped st) (raw_input st) (cooked_input st)
    (output st) (pending_lines st) b.

(** [TtyDevice::new]. *)
Definition new_device (t : Termios) : TtyState Q :=
  mkTty t NO_FOREGROUND_GROUP false q_new q_new q_new 0 false.

Definition is_canonical st : bool := contains (local_mode (termios st)) ICANON.

Definition has_readable_data st : bool :=
  if is_canonical st
  then (0 <? pending_lines st) || (q_remaining (cooked_input st) <=? READ_CANONICAL_LOW_WATER)
  else negb (q_is_empty (cooked_input st)).

Definition is_line_boundary st (byte : Z) : bool :=
  (byte =? 10) || (byte =? control_char (termios st) Eof).

(** The result of an [output.push] is ignored: a full queue drops the byte. *)
Definition push_output st (byte : Z) : TtyState Q :=
  with_output st (q_push (output st) byte).2.

(** ** Line discipline *)

Definition BACKSPACE : Z := 8.
Definition DELETE : Z := 127.
Definition CARET_OFFSET : Z := 64.

(** [u8::to_ascii_lowercase] and [u8::to_ascii_uppercase]. *)
Definition to_ascii_lowercase (b : Z) : Z := if (65 <=? b) && (b <=? 90) then b + 32 else b.
Definition to_ascii_uppercase (b : Z) : Z := if (97 <=? b) && (b <=? 122) then b - 32 else b.

Definition map_input (t : Termios) (raw : Z) : option Z :=
  let m := input_mode t in
  let byte := if contains m ISTRIP then Z.land raw 127 else raw in
  let lower b := if contains m IUCLC then to_ascii_lowercase b else b in
  if (byte =? 13) && contains m IGNCR then None
  else if (byte =? 13) && contains m ICRNL then Some (lower 10)
  else if (byte =? 10) && contains m INLCR then Some (lower 13)
  else Some (lower byte).

(** What the [&mut] flag and the posted signals accumulate along a drain. *)
Record Drain : Type := mkDrain {
  d_state : TtyState Q;
  needs_flush : bool;
  posted : list (Z * Z);
}.

Definition on_state (f : TtyState Q → TtyState Q) (d : Drain) : Drain :=
  mkDrain (f (d_state d)) (needs_flush d) (posted d).
Definition set_flush (b : bool) (d : Drain) : Drain :=
  mkDrain (d_state d) (needs_flush d || b) (posted d).

Definition handle_flow_control (d : Drain) (byte : Z) : bool * Drain :=
  let t := termios (d_state d) in
  if byte =? control_char t Stop then (true, on_state (λ st, with_stopped st true) d)
  else if byte =? control_char t Start then
    (true, set_flush true (on_state (λ st, with_stopped st false) d))
  else (false, d).

(** [signal_foreground_group]: a negative or zero group is not signalled; the
    posting itself is the task manager's. *)
Definition signal_foreground_group (group signal : Z) (d : Drain) : Drain :=
  if group <=? 0 then d
  else mkDrain (d_state d) (needs_flush d) (posted d ++ [(group, signal)]).

Definition handle_signal (d : Drain) (byte : Z) : bool * Drain :=
  let t := termios (d_state d) in
  let g := foreground_group (d_state d) in
  if byte =? control_char t Intr then (true, signal_foreground_group g SIGINT d)
  else if byte =? control_char t Quit then (true, signal_foreground_group g SIGQUIT d)
  else (false, d).

Definition is_control (byte : Z) : bool := byte <? 32.
Definition echoed_as_caret (byte : Z) : bool := is_control byte || (byte =? DELETE).

Definition push_erase_sequence st : TtyState Q :=
  push_output (push_output (push_output st BACKSPACE) 32) BACKSPACE.

Definition echo_erase (erased : Z) (d : Drain) : Drain :=
  let lm := local_mode (termios (d_state d)) in
  if negb (contains lm ECHO) then d
  else
    set_flush true
      (if contains lm ECHOE then
         if echoed_as_caret erased
         then on_state push_erase_sequence (on_state push_erase_sequence d)
         else on_state push_erase_sequence d
       else on_state (λ st, push_output st BACKSPACE) d).

Definition erase_last (d : Drain) : bool * Drain :=
  match q_last (cooked_input (d_state d)) with
  | Some b =>
      if negb (is_line_boundary (d_state d) b) then
        let d1 := echo_erase b d in
        (true, on_state (λ st, with_cooked st (q_pop_last (cooked_input st)).2) d1)
      else (false, d)
  | None => (false, d)
  end.

(** [while erase_last(..) {}]: a queue of [fuel] bytes needs [fuel + 1] calls. *)
Fixpoint erase_all (fuel : nat) (d : Drain) : Drain :=
  match fuel with
  | O => d
  | S fuel' => match erase_last d with
               | (true, d') => erase_all fuel' d'
               | (false, d') => d'
               end
  end.

Definition is_backspace_alias (byte erase : Z) : bool :=
  (erase =? 127) && (byte =? 8) || (erase =? 8) && (byte =? 127).

Definition handle_editing (d : Drain) (byte : Z) : bool * Drain :=
  let t := termios (d_state d) in
  let erase := control_char t Erase in
  if byte =? control_char t Kill then
    (true, erase_all (S (Z.to_nat (q_len (cooked_input (d_state d))))) d)
  else if (byte =? erase) || is_backspace_alias byte erase then (true, (erase_last d).2)
  else (false, d).

(** Returns whether bytes were echoed.  The addition cannot exceed a byte. *)
Definition echo st (byte : Z) : bool * TtyState Q :=
  if byte =? 10 then (true, push_output (push_output st 10) 13)
  else if is_control byte then
    if contains (local_mode (termios st)) ECHOCTL
    then (true, push_output (push_output st 94) (byte + CARET_OFFSET))
    else (false, st)
  else (true, push_output st byte).

(** The body of the drain loop after a byte has been popped: each handler that
    consumes the byte ends the iteration. *)
Definition process_byte (raw : Z) (d : Drain) : Drain :=
  match map_input (termios (d_state d)) raw with
  | None => d
  | Some byte =>
      let canonical := is_canonical (d_state d) in
      let (c1, d) := if canonical then handle_flow_control d byte else (false, d) in
      if c1 then d else
      let (c2, d) := if contains (local_mode (termios (d_state d))) ISIG
                     then handle_signal d byte else (false, d) in
      if c2 then d else
      let (c3, d) := if canonical then handle_editing d byte else (false, d) in
      if c3 then d else
      let d := if is_line_boundary (d_state d) byte
               then on_state (λ st, with_pending st (wrapping_add (pending_lines st) 1)) d
               else d in
      let d := if contains (local_mode (termios (d_state d))) ECHO
               then let (e, st) := echo (d_state d) byte in
                    set_flush e (on_state (λ _, st) d)
               else d in
      on_state (λ st, with_cooked st (q_push (cooked_input st) byte).2) d
  end.

(** One turn per raw byte, so the length of the raw queue is enough fuel. *)
Fixpoint drain_raw (fuel : nat) (d : Drain) : Drain :=
  match fuel with
  | O => d
  | S fuel' =>
      let st := d_state d in
      if negb (q_is_empty (raw_input st)) && negb (q_is_full (cooked_input st)) then
        match q_pop (raw_input st) with
        | (None, q) => on_state (λ st, with_raw st q) d
        | (Some raw, q) => drain_raw fuel' (process_byte raw (on_state (λ st, with_raw st q) d))
        end
      else d
  end.

Definition process_raw_input st : Drain :=
  drain_raw (Z.to_nat (q_len (raw_input st))) (mkDrain st false []).

(** [TtyDevice::receive_input]. *)
Definition receive_input (bytes : list Z) st : Drain :=
  process_raw_input (fold_left (λ st b, with_raw st (q_push (raw_input st) b).2) bytes st).

(** ** Read and write paths *)

(** The loop of [drain_cooked]; [n] counts down the free space of the caller's
    buffer and the result accumulates what is copied. *)
Fixpoint drain_cooked_loop (canonical : bool) (n : nat) st : list Z * TtyState Q :=
  match n with
  | O => ([], st)
  | S n' =>
      match q_pop (cooked_input st) with
      | (None, q) => ([], with_cooked st q)
      | (Some byte, q) =>
          let st := with_cooked st q in
          let st := if is_line_boundary st byte && (0 <? pending_lines st)
                    then with_pending st (pending_lines st - 1) else st in
          if canonical && (byte =? control_char (termios st) Eof) then ([], st)
          else let (bs, st) := drain_cooked_loop canonical n' st in (byte :: bs, st)
      end
  end.

Definition drain_cooked (count : Z) st : list Z * TtyState Q :=
  drain_cooked_loop (is_canonical st) (Z.to_nat count) st.

Definition map_output_byte (t : Termios) (byte : Z) : Z :=
  let m := output_mode t in
  if (byte =? 13) && contains m OCRNL then 10
  else if (byte =? 10) && contains m ONLRET then 13
  else if contains m OLCUC then to_ascii_uppercase byte
  else byte.

Definition should_insert_output_cr st (byte : Z) : bool :=
  (byte =? 10) && contains (output_mode (termios st)) ONLCR && negb (output_cr_pending st).

(** One turn of the loop of [fill_output] on its next byte: whether the byte
    was consumed, and the state. *)
Definition fill_output_byte (byte : Z) st : bool * TtyState Q :=
  if contains (output_mode (termios st)) OPOST then
    let byte := map_output_byte (termios st) byte in
    if should_insert_output_cr st byte then (false, push_output (with_cr st true) 13)
    else (true, push_output (with_cr st false) byte)
  else (true, push_output (with_cr st false) byte).

(** A byte takes at most two turns, an inserted carriage return and itself. *)
Fixpoint fill_output_loop (fuel : nat) (buffer : list Z) (consumed : Z) st : Z * TtyState Q :=
  match fuel, buffer with
  | S fuel', byte :: rest =>
      if q_is_full (output st) then (consumed, st)
      else match fill_output_byte byte st with
           | (true, st) => fill_output_loop fuel' rest (consumed + 1) st
           | (false, st) => fill_output_loop fuel' buffer consumed st
           end
  | _, _ => (consumed, st)
  end.

Definition fill_output (buffer : list Z) st : Z * TtyState Q :=
  fill_output_loop (2 * length buffer) buffer 0 st.

Fixpoint take_output_loop (n : nat) st : list Z * TtyState Q :=
  match n with
  | O => ([], st)
  | S n' => match q_pop (output st) with
            | (None, q) => ([], with_output st q)
            | (Some byte, q) =>
                let (bs, st) := take_output_loop n' (with_output st q) in (byte :: bs, st)
            end
  end.

Definition take_output (n : Z) st : list Z * TtyState Q :=
  if stopped st then ([], st) else take_output_loop (Z.to_nat n) st.

(** The wake-up test of [notify_output_drained] and the test a blocked writer
    re-checks ([wait_interruptible_while] in [write]). *)
Definition output_drained st : bool := WRITE_WAKE_THRESHOLD <=? q_remaining (output st).
Definition writer_should_sleep st : bool := q_remaining (output st) <? WRITE_WAKE_THRESHOLD.

Definition has_pending_output st : bool := negb (stopped st) && negb (q_is_empty (output st)).
Definition clear_foreground_group st : TtyState Q := with_group st NO_FOREGROUND_GROUP.

Definition flush_input st : TtyState Q :=
  with_pending (with_cooked (with_raw st (q_clear (raw_input st)))
    (q_clear (cooked_input st))) 0.
Definition flush_output st : TtyState Q :=
  with_cr (with_output st (q_clear (output st))) false.

(** One wake-up of a blocked or starting [read]: [None] goes (back) to sleep on
    [cooked_wait].  [signal] is whether the task has a pending signal. *)
Definition read_poll (signal : bool) (count : Z) st : option (result (list Z)) * TtyState Q :=
  if count =? 0 then (Some (Ok []), st)
  else if signal then (Some (Err INTR), st)
  else if negb (has_readable_data st) then (None, st)
  else let (bs, st) := drain_cooked count st in (Some (Ok bs), st).

(** One wake-up of a [write] that has sent [sent] bytes of [buffer]: the
    backend is asked to start, then the call sleeps ([None]), or fills the queue
    and yields or returns.  The second component is the new [sent]. *)
Definition write_poll (signal : bool) (buffer : list Z) (sent : Z) (blocked : bool) st :
    option (result Z) * Z * TtyState Q :=
  if negb (sent <? Z.of_nat (length buffer)) then (Some (Ok sent), sent, st)
  else if signal then (Some (Ok sent), sent, st)
  else if (blocked || q_is_full (output st)) && writer_should_sleep st then (None, sent, st)
  else
    let (n, st) := fill_output (drop (Z.to_nat sent) buffer) st in
    (if sent + n <? Z.of_nat (length buffer) then None else Some (Ok (sent + n)), sent + n, st).

(** ** Terminal ioctls ([tty/ioctl.rs]) *)

Inductive TtyRequest : Set :=
| GetTermios | SetTermios | SetTermiosWait | SetTermiosFlush
| GetTermio | SetTermio | SetTermioWait | SetTermioFlush
| Flush | GetPgrp | SetPgrp | OutputQueueBytes | InputQueueBytes.

Definition TtyRequest_try_from (v : Z) : option TtyRequest :=
  match v with
  | 0x5401 => Some GetTermios | 0x5402 => Some SetTermios
  | 0x5403 => Some SetTermiosWait | 0x5404 => Some SetTermiosFlush
  | 0x5405 => Some GetTermio | 0x5406 => Some SetTermio
  | 0x5407 => Some SetTermioWait | 0x5408 => Some SetTermioFlush
  | 0x540B => Some Flush | 0x540F => Some GetPgrp | 0x5410 => Some SetPgrp
  | 0x5411 => Some OutputQueueBytes | 0x541B => Some InputQueueBytes
  | _ => None
  end.

Inductive FlushSelector : Set := FlushIn | FlushOut | FlushBoth.

Definition FlushSelector_try_from (v : Z) : option FlushSelector :=
  match v with 0 => Some FlushIn | 1 => Some FlushOut | 2 => Some FlushBoth | _ => None end.

(** What user memory holds at the argument pointer, for the requests that read
    it, and what a request writes there. *)
Record UserArg : Type := { u_termios : Termios; u_termio : Termio; u_word : Z }.

Inductive UserOut : Type :=
| OutNone | OutTermios (t : Termios) | OutTermio (o : Termio) | OutWord (w : Z).

Definition flush (arg : Z) st : result UserOut * TtyState Q :=
  match FlushSelector_try_from arg with
  | None => (Err INVAL, st)
  | Some FlushIn => (Ok OutNone, flush_input st)
  | Some FlushOut => (Ok OutNone, flush_output st)
  | Some FlushBoth => (Ok OutNone, flush_output (flush_input st))
  end.

Definition dispatch (request arg : Z) (u : UserArg) st : result UserOut * TtyState Q :=
  match TtyRequest_try_from request with
  | None => (Err INVAL, st)
  | Some r =>
      match r with
      | GetTermios => (Ok (OutTermios (termios st)), st)
      | SetTermios | SetTermiosWait => (Ok OutNone, with_termios st (u_termios u))
      | SetTermiosFlush => (Ok OutNone, with_termios (flush_input st) (u_termios u))
      | GetTermio => (Ok (OutTermio (to_termio (termios st))), st)
      | SetTermio | SetTermioWait =>
          (Ok OutNone, with_termios st (apply_termio (termios st) (u_termio u)))
      | SetTermioFlush =>
          (Ok OutNone, with_termios (flush_input st) (apply_termio (termios st) (u_termio u)))
      | GetPgrp => (Ok (OutWord (as_u32 (foreground_group st))), st)
      | SetPgrp => (Ok OutNone, with_group st (u_word u))
      | Flush => flush arg st
      | OutputQueueBytes => (Ok (OutWord (q_len (output st))), st)
      | InputQueueBytes => (Ok (OutWord (q_len (cooked_input st))), st)
      end
  end.
End tty.

(** ** Reference line editor

    What the line discipline does to the line being edited, on plain lists: a
    raw byte is classified into one action, and an action maps the cooked bytes
    and yields the bytes to echo. *)

Inductive action : Set :=
| Discard | StopOutput | StartOutput | Post (signal : Z)
| KillLine | EraseLast | Input (byte : Z).

Definition classify (t : Termios) (raw : Z) : action :=
  let canonical := contains (local_mode t) ICANON in
  match map_input t raw with
  | None => Discard
  | Some b =>
      if canonical && (b =? control_char t Stop) then StopOutput
      else if canonical && (b =? control_char t Start) then StartOutput
      else if contains (local_mode t) ISIG && (b =? control_char t Intr) then Post SIGINT
      else if contains (local_mode t) ISIG && (b =? control_char t Quit) then Post SIGQUIT
      else if canonical && (b =? control_char t Kill) then KillLine
      else if canonical &&
              ((b =? control_char t Erase) || is_backspace_alias b (control_char t Erase))
      then EraseLast
      else Input b
  end.

Definition boundary (t : Termios) (b : Z) : bool := (b =? 10) || (b =? control_char t Eof).

(** The number of complete lines among the cooked bytes. *)
Definition lines (t : Termios) (l : list Z) : Z :=
  Z.of_nat (length (List.filter (boundary t) l)).

(** The cooked bytes up to and including the last line boundary, which editing
    cannot reach. *)
Fixpoint committed (t : Termios) (l : list Z) : list Z :=
  match l with
  | [] => []
  | b :: l' => if existsb (boundary t) l then b :: committed t l' else []
  end.

Definition rub_once : list Z := [BACKSPACE; 32; BACKSPACE].
Definition rubout (t : Termios) (b : Z) : list Z :=
  if contains (local_mode t) ECHO then
    if contains (local_mode t) ECHOE
    then if echoed_as_caret b then rub_once ++ rub_once else rub_once
    else [BACKSPACE]
  else [].

Definition echo_bytes (t : Termios) (b : Z) : list Z :=
  if b =? 10 then [10; 13]
  else if is_control b then
    if contains (local_mode t) ECHOCTL then [94; b + CARET_OFFSET] else []
  else [b].

(** The cooked bytes after an action and the bytes it echoes. *)
Definition edit (t : Termios) (l : list Z) (a : action) : list Z * list Z :=
  match a with
  | KillLine =>
      (committed t l,
       concat (rubout t <$> reverse (drop (length (committed t l)) l)))
  | EraseLast =>
      match last l with
      | Some b => if boundary t b then (l, []) else (removelast l, rubout t b)
      | None => (l, [])
      end
  | Input b => (l ++ [b], if contains (local_mode t) ECHO then echo_bytes t b else [])
  | _ => (l, [])
  end.

(** The observable effect of draining: the output queue holds at most [cap]
    bytes and drops what does not fit. *)
Record View : Type := mkView {
  v_cooked : list Z;
  v_output : list Z;
  v_stopped : bool;
  v_flush : bool;
  v_posted : list (Z * Z);
}.

Definition perform (cap : Z) (t : Termios) (group : Z) (v : View) (a : action) : View :=
  let (cooked, echoed) := edit t (v_cooked v) a in
  {| v_cooked := cooked;
     v_output := take (Z.to_nat cap) (v_output v ++ echoed);
     v_stopped := match a with StopOutput => true | StartOutput => false | _ => v_stopped v end;
     v_flush := v_flush v || match a with StartOutput => true | _ => negb (bool_decide (echoed = [])) end;
     v_posted := v_posted v ++
       match a with Post s => if group <=? 0 then [] else [(group, s)] | _ => [] end |}.

Definition performs (cap : Z) (t : Termios) (group : Z) (v : View) (raw : list Z) : View :=
  fold_left (λ v b, perform cap t group v (classify t b)) raw v.

(** What post-processing sends for [bytes]; [cr] tells that the carriage return
    of a leading newline has been sent already. *)
Fixpoint render (t : Termios) (cr : bool) (bytes : list Z) : list Z :=
  match bytes with
  | [] => []
  | b :: rest =>
      (if contains (output_mode t) OPOST then
         let b' := map_output_byte t b in
         if (b' =? 10) && contains (output_mode t) ONLCR && negb cr then [13; 10] else [b']
       else [b]) ++ render t false rest
  end.

Lemma take_app_take {A} (n : nat) (l k : list A) : take n (take n l ++ k) = take n (l ++ k).
Proof.
  destruct (decide (n ≤ length l)%nat).
  - rewrite !take_app_le by (rewrite ?length_take; lia). by rewrite take_take, Nat.min_id.
  - by rewrite (take_ge l) by lia.
Qed.

Lemma lines_app t l k : lines t (l ++ k) = lines t l + lines t k.
Proof. unfold lines. rewrite List.filter_app, length_app. lia. Qed.

Lemma lines_bound t l : 0 ≤ lines t l ≤ Z.of_nat (length l).
Proof. unfold lines. pose proof (List.filter_length_le (boundary t) l). lia. Qed.

Lemma lines_one t b : lines t [b] = if boundary t b then 1 else 0.
Proof. unfold lines. simpl. by destruct (boundary t b). Qed.

Lemma lines_no_boundary t l : existsb (boundary t) l = false → lines t l = 0.
Proof.
  unfold lines. induction l as [|b l IH]; simpl; [done|].
  intros [-> Hl]%orb_false_elim. by apply IH.
Qed.

(** Editing never reaches a line boundary. *)
Lemma committed_snoc_boundary t l b : boundary t b = true → committed t (l ++ [b]) = l ++ [b].
Proof.
  intros Hb. induction l as [|x l IH]; simpl; [by rewrite Hb|].
  rewrite IH, existsb_app; simpl. by rewrite Hb, !orb_true_r.
Qed.

Lemma committed_snoc_other t l b : boundary t b = false → committed t (l ++ [b]) = committed t l.
Proof.
  intros Hb. induction l as [|x l IH]; simpl; [by rewrite Hb|].
  rewrite IH, existsb_app; simpl. by rewrite Hb, !orb_false_r.
Qed.

Lemma committed_prefix t l : committed t l `prefix_of` l.
Proof.
  induction l as [|x l IH]; simpl; [done|]. destruct (_ || _).
  - by apply prefix_cons.
  - by apply prefix_nil.
Qed.

Lemma lines_committed t l : lines t (committed t l) = lines t l.
Proof.
  induction l as [|x l IH] using rev_ind; [done|].
  destruct (boundary t x) eqn:Hx.
  - by rewrite committed_snoc_boundary.
  - rewrite committed_snoc_other, lines_app, lines_one, Hx by done. lia.
Qed.

Section laws.
Context {Q : Type} `{ByteQueueLaws Q}.
Implicit Types (st : TtyState Q) (d : Drain (Q := Q)).

Record wf st : Prop := {
  wf_raw : q_wf (raw_input st);
  wf_cooked : q_wf (cooked_input st);
  wf_output : q_wf (output st);
  wf_pending : pending_lines st = lines (termios st) (q_list (cooked_input st));
}.

Lemma new_device_wf t : wf (new_device t).
Proof. constructor; simpl; auto with kernel. by rewrite q_new_list. Qed.

(** Bytes pushed one after the other. *)
Definition push_all (bs : list Z) st : TtyState Q := fold_left push_output bs st.

Lemma push_all_frame bs st : push_all bs st = with_output st (output (push_all bs st)).
Proof.
  revert st. induction bs as [|b bs IH]; intros st; simpl; [by destruct st|].
  rewrite IH at 1. done.
Qed.

Lemma push_output_spec st b :
  q_wf (output st) →
  q_wf (output (push_output st b)) ∧
  q_list (output (push_output st b)) =
    take (Z.to_nat (q_cap (Q := Q))) (q_list (output st) ++ [b]).
Proof.
  intros Hq. split; [by apply q_push_wf|]. simpl. rewrite q_push_list by done.
  pose proof (q_len_cap _ Hq). case_decide.
  - rewrite take_ge; [done|]. rewrite length_app; simpl. lia.
  - rewrite take_app_le by lia. rewrite take_ge by lia. done.
Qed.

Lemma push_all_spec bs st :
  q_wf (output st) →
  q_wf (output (push_all bs st)) ∧
  q_list (output (push_all bs st)) =
    take (Z.to_nat (q_cap (Q := Q))) (q_list (output st) ++ bs).
Proof.
  revert st. induction bs as [|b bs IH]; intros st Hq; simpl.
  - split; [done|]. rewrite app_nil_r, take_ge; [done|]. pose proof (q_len_cap _ Hq). lia.
  - destruct (push_output_spec st b Hq) as [Hq1 Hl1].
    destruct (IH _ Hq1) as [Hq2 ->]. split; [done|].
    rewrite Hl1, take_app_take. by rewrite <- app_assoc.
Qed.

(** *** What a drain leaves alone, and what it shows *)

Record same st st' : Prop := {
  same_termios : termios st' = termios st;
  same_group : foreground_group st' = foreground_group st;
  same_raw : raw_input st' = raw_input st;
  same_cr : output_cr_pending st' = output_cr_pending st;
}.

Definition view d : View := {|
  v_cooked := q_list (cooked_input (d_state d));
  v_output := q_list (output (d_state d));
  v_stopped := stopped (d_state d);
  v_flush := needs_flush d;
  v_posted := posted d;
|}.

(** [d'] is [d] after an action of the reference editor. *)
Definition does (a : action) d d' : Prop :=
  wf (d_state d') ∧ same (d_state d) (d_state d') ∧
  view d' = perform q_cap (termios (d_state d)) (foreground_group (d_state d)) (view d) a.

Lemma output_list_clip st : q_wf (output st) →
  take (Z.to_nat (q_cap (Q := Q))) (q_list (output st)) = q_list (output st).
Proof. intros Hq. apply take_ge. pose proof (q_len_cap _ Hq). lia. Qed.

Lemma does_quiet a d (f : TtyState Q → TtyState Q) (fl : bool) (ps : list (Z * Z)) :
  wf (d_state d) → edit (termios (d_state d)) (v_cooked (view d)) a = (v_cooked (view d), []) →
  (∀ st, f st = with_stopped st (stopped (f st))) →
  stopped (f (d_state d)) =
    match a with StopOutput => true | StartOutput => false | _ => stopped (d_state d) end →
  fl = needs_flush d || match a with StartOutput => true | _ => false end →
  ps = posted d ++ match a with
                   | Post s => if foreground_group (d_state d) <=? 0 then []
                               else [(foreground_group (d_state d), s)]
                   | _ => [] end →
  does a d (mkDrain (f (d_state d)) fl ps).
Proof.
  intros [? ? Ho ?] He Hf Hs -> ->. rewrite Hf. split_and!; [by constructor|by constructor|].
  unfold perform. rewrite He. unfold view at 1. simpl.
  rewrite app_nil_r, output_list_clip, Hs by done. by destruct a.
Qed.

Lemma last_snoc_removelast {A} (l : list A) b : last l = Some b → l = removelast l ++ [b].
Proof.
  intros Hb. destruct (list_snoc_case l) as [->|(l' & x & ->)]; [done|].
  rewrite last_snoc in Hb. injection Hb as ->. by rewrite removelast_last.
Qed.

(** The queue after dropping the last cooked byte. *)
Lemma pop_cooked st b : wf st → last (q_list (cooked_input st)) = Some b →
  boundary (termios st) b = false →
  q_wf (q_pop_last (cooked_input st)).2 ∧
  q_list (q_pop_last (cooked_input st)).2 = removelast (q_list (cooked_input st)) ∧
  lines (termios st) (removelast (q_list (cooked_input st))) = pending_lines st.
Proof.
  intros [? Hc ? Hp] Hl%last_snoc_removelast Hb.
  destruct (q_pop_last_snoc _ _ _ Hc Hl) as (_ & ? & ?). split_and!; [done|done|].
  rewrite Hp, Hl, lines_app, lines_one, Hb, removelast_last. lia.
Qed.

Lemma echo_erase_eq b d :
  echo_erase b d =
    mkDrain (push_all (rubout (termios (d_state d)) b) (d_state d))
      (needs_flush d || negb (bool_decide (rubout (termios (d_state d)) b = []))) (posted d).
Proof.
  unfold echo_erase, rubout. destruct (contains _ ECHO); simpl.
  2:{ rewrite orb_false_r. by destruct d. }
  destruct (contains _ ECHOE); [destruct (echoed_as_caret b)|]; done.
Qed.

Lemma erase_last_spec d : wf (d_state d) →
  does EraseLast d (erase_last d).2 ∧
  ((erase_last d).1 = match last (q_list (cooked_input (d_state d))) with
                      | Some b => negb (boundary (termios (d_state d)) b) | None => false end).
Proof.
  intros Hwf. unfold erase_last. rewrite q_last_list by apply Hwf.
  assert (∀ b, last (q_list (cooked_input (d_state d))) = Some b ∧
               boundary (termios (d_state d)) b = true ∨
               last (q_list (cooked_input (d_state d))) = None → does EraseLast d d) as Hq.
  { intros b Hb. assert (does EraseLast d (mkDrain (id (d_state d)) (needs_flush d) (posted d)));
      [|by destruct d].
    apply does_quiet; try done; [|by intros []|by rewrite orb_false_r|by rewrite app_nil_r].
    simpl. by destruct Hb as [[-> ->]| ->]. }
  destruct (last _) as [b|] eqn:Hl; [|split; [by apply (Hq 0); right|done]].
  change (is_line_boundary (d_state d) b) with (boundary (termios (d_state d)) b).
  destruct (boundary _ b) eqn:Hb; simpl; [split; [by apply (Hq b); left|done]|].
  split; [|done]. rewrite echo_erase_eq. unfold on_state; simpl.
  destruct (pop_cooked _ b Hwf Hl Hb) as (Hw & Hlist & Hpend).
  destruct (push_all_spec (rubout (termios (d_state d)) b) _ (wf_output _ Hwf)) as [Hwo Hlo].
  rewrite push_all_frame. split_and!.
  - constructor; simpl; [apply Hwf|done|done|]. by rewrite Hlist, Hpend.
  - by constructor.
  - unfold perform, view; simpl. rewrite Hl, Hb. by rewrite Hlist, Hlo, app_nil_r.
Qed.

(** Killing a line is erasing its last byte until a boundary is met. *)
Lemma perform_kill_step cap t g v b :
  last (v_cooked v) = Some b → boundary t b = false →
  perform cap t g (perform cap t g v EraseLast) KillLine = perform cap t g v KillLine.
Proof.
  intros Hl Hb. unfold perform. simpl. rewrite Hl, Hb; simpl.
  pose proof (last_snoc_removelast _ _ Hl) as Hs.
  set (l' := removelast (v_cooked v)) in *. rewrite Hs, committed_snoc_other by done.
  assert (reverse (drop (length (committed t l')) (l' ++ [b])) =
          b :: reverse (drop (length (committed t l')) l')) as ->.
  { rewrite drop_app_le by (apply prefix_length, committed_prefix). by rewrite reverse_snoc. }
  rewrite fmap_cons, concat_cons. f_equal.
  - rewrite take_app_take. by rewrite app_assoc.
  - rewrite <- orb_assoc. f_equal.
    destruct (rubout t b); [done|]. by rewrite orb_true_l.
  - by rewrite !app_nil_r.
Qed.

Lemma erase_all_spec fuel d :
  wf (d_state d) → (length (q_list (cooked_input (d_state d))) < fuel)%nat →
  does KillLine d (erase_all fuel d).
Proof.
  revert d. induction fuel as [|fuel IH]; intros d Hwf Hfuel; [lia|]. simpl.
  destruct (erase_last_spec d Hwf) as [(Hwf' & Hsame & Hv) Hr].
  destruct (erase_last d) as [r d']; simpl in *.
  destruct (last (q_list (cooked_input (d_state d)))) as [b|] eqn:Hl;
    [destruct (boundary (termios (d_state d)) b) eqn:Hb|]; simpl in Hr; subst r.
  - split_and!; [done|done|]. rewrite Hv. unfold perform. simpl. rewrite Hl, Hb.
    assert (committed (termios (d_state d)) (q_list (cooked_input (d_state d))) =
            q_list (cooked_input (d_state d))) as ->.
    { rewrite (last_snoc_removelast _ _ Hl). by apply committed_snoc_boundary. }
    by rewrite drop_all.
  - assert (v_cooked (view d') = removelast (q_list (cooked_input (d_state d)))) as Hc.
    { rewrite Hv. unfold perform; simpl. by rewrite Hl, Hb. }
    destruct (IH d' Hwf') as (Hwf2 & Hsame2 & Hv2).
    { simpl in Hc. rewrite Hc. pose proof (last_snoc_removelast _ _ Hl) as Hs.
      apply (f_equal length) in Hs. rewrite length_app in Hs. simpl in Hs. lia. }
    destruct Hsame, Hsame2. split_and!; [done|constructor; congruence|].
    rewrite Hv2, Hv. rewrite same_termios0, same_group0.
    by apply (perform_kill_step _ _ _ (view d) b).
  - split_and!; [done|done|]. rewrite Hv. unfold perform. simpl. rewrite Hl.
    destruct (q_list _); [done|]. by rewrite last_cons in Hl; destruct (last l).
Qed.

(** An ordinary byte is counted, echoed and queued. *)
Lemma input_spec d byte :
  wf (d_state d) → Z.of_nat (length (q_list (cooked_input (d_state d)))) < q_cap →
  let t := termios (d_state d) in
  let st1 := if boundary t byte
             then with_pending (d_state d) (wrapping_add (pending_lines (d_state d)) 1)
             else d_state d in
  let bs := if contains (local_mode t) ECHO then echo_bytes t byte else [] in
  let st2 := push_all bs st1 in
  does (Input byte) d
    (mkDrain (with_cooked st2 (q_push (cooked_input st2) byte).2)
       (needs_flush d || negb (bool_decide (bs = []))) (posted d)).
Proof.
  intros Hwf Hlen t st1 bs st2.
  assert (wf (with_pending st1 (pending_lines (d_state d)))) as Hwf1.
  { unfold st1. destruct (boundary t byte); destruct Hwf; by constructor. }
  assert (same (d_state d) st1 ∧ stopped st1 = stopped (d_state d) ∧
          cooked_input st1 = cooked_input (d_state d) ∧ output st1 = output (d_state d) ∧
          pending_lines st1 = pending_lines (d_state d) + lines t [byte])
    as ([? ? ? ?] & Hst & Hc & Ho & Hp).
  { unfold st1. rewrite lines_one. pose proof q_cap_word.
    pose proof (lines_bound t (q_list (cooked_input (d_state d)))).
    destruct (boundary t byte); simpl; split_and!; try done; try lia.
    rewrite (wf_pending _ Hwf). fold t.
    unfold wrapping_add. apply wrap_small. unfold is_uint. lia. }
  assert (q_wf (output st1)) as Hwo by (rewrite Ho; apply Hwf).
  destruct (push_all_spec bs st1 Hwo) as [Hwo2 Hlo2].
  destruct (q_push_ok (cooked_input st1) byte) as (_ & Hwc & Hlc); [rewrite Hc; apply Hwf| by rewrite Hc|].
  unfold st2. rewrite push_all_frame. split_and!.
  - constructor; simpl; [apply Hwf1|done|done|].
    rewrite Hlc, lines_app, Hc, Hp, same_termios0. by rewrite (wf_pending _ Hwf).
  - by constructor.
  - unfold perform, view; simpl. by rewrite Hlc, Hlo2, Hc, Ho, Hst, app_nil_r.
Qed.

(** The tail of the loop body, reached when no handler consumed the byte. *)
Lemma queue_byte_spec d byte :
  wf (d_state d) → Z.of_nat (length (q_list (cooked_input (d_state d)))) < q_cap →
  does (Input byte) d
    (let d := if is_line_boundary (d_state d) byte
              then on_state (λ st, with_pending st (wrapping_add (pending_lines st) 1)) d
              else d in
     let d := if contains (local_mode (termios (d_state d))) ECHO
              then let (e, st) := echo (d_state d) byte in set_flush e (on_state (λ _, st) d)
              else d in
     on_state (λ st, with_cooked st (q_push (cooked_input st) byte).2) d).
Proof.
  intros Hwf Hlen. pose proof (input_spec d byte Hwf Hlen) as Hin. simpl in Hin.
  change (is_line_boundary (d_state d) byte) with (boundary (termios (d_state d)) byte).
  destruct (boundary _ byte) eqn:Hb; simpl in *.
  all: destruct (contains _ ECHO); simpl in *; [|by rewrite orb_false_r in Hin].
  all: unfold echo, echo_bytes in *; destruct (byte =? 10); [done|];
    destruct (is_control byte); [|done]; simpl in *;
    destruct (contains _ ECHOCTL); simpl in *; done.
Qed.

Lemma does_post d s :
  wf (d_state d) →
  does (Post s) d (signal_foreground_group (foreground_group (d_state d)) s d).
Proof.
  intros Hwf. unfold signal_foreground_group.
  destruct (foreground_group (d_state d) <=? 0) eqn:Hg.
  - assert (does (Post s) d (mkDrain (id (d_state d)) (needs_flush d) (posted d))); [|by destruct d].
    apply does_quiet; try done; [by intros []|by rewrite orb_false_r|by rewrite Hg, app_nil_r].
  - assert (does (Post s) d (mkDrain (id (d_state d)) (needs_flush d)
      (posted d ++ [(foreground_group (d_state d), s)]))); [|done].
    apply does_quiet; try done; [by intros []|by rewrite orb_false_r|by rewrite Hg].
Qed.

(** The handlers in sequence do what the classification says. *)
Lemma process_byte_spec d raw :
  wf (d_state d) → Z.of_nat (length (q_list (cooked_input (d_state d)))) < q_cap →
  does (classify (termios (d_state d)) raw) d (process_byte raw d).
Proof.
  intros Hwf Hlen. unfold process_byte, classify.
  destruct (map_input (termios (d_state d)) raw) as [b|].
  2:{ assert (does Discard d (mkDrain (id (d_state d)) (needs_flush d) (posted d))); [|by destruct d].
      apply does_quiet; try done; [by intros []|by rewrite orb_false_r|by rewrite app_nil_r]. }
  unfold is_canonical, handle_flow_control, handle_signal, handle_editing.
  assert (0 ≤ q_len (cooked_input (d_state d)) ∧
    (length (q_list (cooked_input (d_state d))) <
     S (Z.to_nat (q_len (cooked_input (d_state d)))))%nat) as [_ Hfuel].
  { rewrite q_len_list by apply Hwf. lia. }
  destruct (contains (local_mode (termios (d_state d))) ICANON) eqn:Hcan; simpl.
  - destruct (b =? control_char _ Stop); simpl.
    { apply (does_quiet StopOutput d (λ st, with_stopped st true)); try done;
        [by rewrite orb_false_r|by rewrite app_nil_r]. }
    destruct (b =? control_char _ Start); simpl.
    { apply (does_quiet StartOutput d (λ st, with_stopped st false)); try done.
      by rewrite app_nil_r. }
    destruct (contains _ ISIG); simpl;
      [destruct (b =? control_char _ Intr); simpl; [by apply does_post|];
       destruct (b =? control_char _ Quit); simpl; [by apply does_post|]|].
    all: destruct (b =? control_char _ Kill); cbn [fst snd]; [by apply (erase_all_spec (S _))|].
    all: destruct (_ || _); cbn [fst snd]; [by apply erase_last_spec|by apply queue_byte_spec].
  - destruct (contains _ ISIG); simpl;
      [destruct (b =? control_char _ Intr); simpl; [by apply does_post|];
       destruct (b =? control_char _ Quit); simpl; [by apply does_post|]|].
    all: by apply queue_byte_spec.
Qed.

(** *** Draining the raw queue *)

(** The number of bytes a drain consumes: it goes on while raw bytes are left
    and the cooked queue has room. *)
Lemma drain_raw_spec fuel d :
  wf (d_state d) → (length (q_list (raw_input (d_state d))) ≤ fuel)%nat →
  let t := termios (d_state d) in
  let g := foreground_group (d_state d) in
  ∃ used rest d', drain_raw fuel d = d' ∧
    q_list (raw_input (d_state d)) = used ++ rest ∧ wf (d_state d') ∧
    q_list (raw_input (d_state d')) = rest ∧
    termios (d_state d') = t ∧ foreground_group (d_state d') = g ∧
    output_cr_pending (d_state d') = output_cr_pending (d_state d) ∧
    view d' = performs q_cap t g (view d) used ∧
    (rest = [] ∨ Z.of_nat (length (v_cooked (view d'))) = q_cap).
Proof.
  revert d. induction fuel as [|fuel IH]; intros d Hwf Hfuel t g.
  { destruct (q_list (raw_input (d_state d))) eqn:E; [|simpl in Hfuel; lia].
    exists [], [], d. split_and!; try done. by left. }
  simpl. rewrite q_is_empty_list, q_is_full_list by apply Hwf.
  pose proof (q_len_cap _ (wf_cooked _ Hwf)).
  destruct (q_list (raw_input (d_state d))) as [|raw l] eqn:Hraw; simpl.
  { exists [], [], d. split_and!; try done. by left. }
  case_bool_decide as Hfull; simpl.
  { exists [], (raw :: l), d. split_and!; try done. by right. }
  destruct (q_pop_cons _ _ _ (wf_raw _ Hwf) Hraw) as (Hp1 & Hpw & Hpl).
  destruct (q_pop (raw_input (d_state d))) as [o q]; simpl in *. subst o.
  set (d1 := on_state (λ st, with_raw st q) d).
  assert (wf (d_state d1)) as Hwf1 by (destruct Hwf; by constructor).
  destruct (process_byte_spec d1 raw Hwf1) as (Hwf2 & [Ht Hg Hr Hcr] & Hv); [simpl; lia|].
  destruct (IH (process_byte raw d1) Hwf2) as
    (used & rest & d' & Hd & Hsplit & Hwf' & Hraw' & Ht' & Hg' & Hcr' & Hv' & Hend).
  { rewrite Hr. simpl. rewrite Hpl. simpl in Hfuel. lia. }
  exists (raw :: used), rest, d'. rewrite Ht, Hg in *. split_and!; try done.
  - rewrite Hr in Hsplit. simpl in Hsplit. rewrite Hpl in Hsplit. by rewrite Hsplit.
  - by rewrite Hcr', Hcr.
  - rewrite Hv'. simpl. by rewrite Hv.
Qed.

(** *** Reading *)

Lemma cons_boundary_pending st byte l :
  wf st → q_list (cooked_input st) = byte :: l →
  wf (let st1 := with_cooked st (q_pop (cooked_input st)).2 in
      if boundary (termios st1) byte && (0 <? pending_lines st1)
      then with_pending st1 (pending_lines st1 - 1) else st1).
Proof.
  intros Hwf Hl. destruct (q_pop_cons _ _ _ (wf_cooked _ Hwf) Hl) as (_ & Hw & Hr).
  pose proof (wf_pending _ Hwf) as Hp. rewrite Hl in Hp.
  change (byte :: l) with ([byte] ++ l) in Hp. rewrite lines_app, lines_one in Hp.
  pose proof (lines_bound (termios st) l). simpl.
  destruct (boundary (termios st) byte); simpl.
  - destruct (Z.ltb_spec 0 (pending_lines st)); [|lia].
    destruct Hwf; constructor; simpl; try done. rewrite Hr. lia.
  - destruct Hwf; constructor; simpl; try done. rewrite Hr. lia.
Qed.

(** The consumed bytes are the bytes handed over, plus the EOF character when
    it ended a canonical read. *)
Definition read_consumes (canonical : bool) (eof : Z) (n : nat) (l bs rest : list Z) : Prop :=
  (length bs ≤ n)%nat ∧ (canonical = true → eof ∉ bs) ∧
  ((l = bs ++ rest ∧ (length bs = n ∨ rest = [])) ∨
   (canonical = true ∧ l = bs ++ eof :: rest ∧ (length bs < n)%nat)).

Lemma drain_cooked_loop_spec canonical n st :
  wf st →
  let '(bs, st') := drain_cooked_loop canonical n st in
  wf st' ∧ termios st' = termios st ∧ output st' = output st ∧ raw_input st' = raw_input st ∧
  read_consumes canonical (control_char (termios st) Eof) n
    (q_list (cooked_input st)) bs (q_list (cooked_input st')).
Proof.
  revert st. induction n as [|n IH]; intros st Hwf; simpl.
  { split_and!; try done. split_and!; simpl; [lia|intros _ []%elem_of_nil|left; by split; [|left]]. }
  destruct (q_list (cooked_input st)) as [|byte l] eqn:Hl.
  { rewrite q_pop_nil by (apply Hwf || done).
    split_and!; try done; [destruct Hwf; by constructor|].
    simpl. rewrite Hl. split_and!; simpl; [lia|intros _ []%elem_of_nil|left; by split; [|right]]. }
  pose proof (cons_boundary_pending _ _ _ Hwf Hl) as Hwf1.
  destruct (q_pop_cons _ _ _ (wf_cooked _ Hwf) Hl) as (Hp1 & _ & Hpl).
  destruct (q_pop (cooked_input st)) as [o q]; simpl in *. subst o.
  change (is_line_boundary (with_cooked st q) byte) with (boundary (termios st) byte).
  set (st1 := if boundary (termios st) byte && _ then _ else _) in *.
  assert (termios st1 = termios st ∧ output st1 = output st ∧ raw_input st1 = raw_input st ∧
          cooked_input st1 = q) as (Ht & Ho & Hr & Hc) by (unfold st1; by destruct (_ && _)).
  rewrite Ht. destruct (canonical && (byte =? control_char (termios st) Eof)) eqn:He.
  { apply andb_prop in He as [-> ->%Z.eqb_eq]. split_and!; try done. rewrite Hc, Hpl.
    split_and!; simpl; [lia|intros _ []%elem_of_nil|right; split_and!; [done|done|lia]]. }
  specialize (IH st1 Hwf1). destruct (drain_cooked_loop canonical n st1) as [bs st'].
  rewrite Ht, Ho, Hr, Hc, Hpl in IH. destruct IH as (? & ? & ? & ? & Hlen & Hne & Hcase).
  split_and!; try done. split_and!; simpl; [lia| |].
  - intros -> [Heq|Hin]%elem_of_cons; [|by apply Hne].
    simpl in He. rewrite <- Heq, Z.eqb_refl in He. done.
  - destruct Hcase as [[-> [?| ->]]|(-> & -> & ?)].
    + left. split; [done|left; lia].
    + left. split; [done|by right].
    + right. split_and!; [done|done|lia].
Qed.

Lemma drain_cooked_spec count st :
  wf st →
  let '(bs, st') := drain_cooked count st in
  wf st' ∧ termios st' = termios st ∧ output st' = output st ∧ raw_input st' = raw_input st ∧
  read_consumes (is_canonical st) (control_char (termios st) Eof) (Z.to_nat count)
    (q_list (cooked_input st)) bs (q_list (cooked_input st')).
Proof. apply drain_cooked_loop_spec. Qed.

(** *** Output *)

Lemma fill_output_byte_spec byte rest st :
  wf st → q_is_full (output st) = false →
  let '(used, st') := fill_output_byte byte st in
  let t := termios st in
  wf st' ∧ termios st' = t ∧ (used = false → output_cr_pending st = false) ∧
  output_cr_pending st' = negb used ∧
  ∃ sent, q_list (output st') = q_list (output st) ++ sent ∧
    sent ++ render t (output_cr_pending st') (if used then rest else byte :: rest) =
    render t (output_cr_pending st) (byte :: rest).
Proof.
  intros Hwf Hfull. rewrite q_is_full_list in Hfull by apply Hwf.
  apply bool_decide_eq_false in Hfull. pose proof (q_len_cap _ (wf_output _ Hwf)).
  assert (∀ c b, wf (push_output (with_cr st c) b) ∧
    q_list (output (push_output (with_cr st c) b)) = q_list (output st) ++ [b]) as Hpush.
  { intros c b. destruct (q_push_ok (output st) b) as (_ & ? & ?); [apply Hwf|lia|].
    split; [|done]. destruct Hwf; by constructor. }
  unfold fill_output_byte. cbn [render].
  destruct (contains (output_mode (termios st)) OPOST) eqn:Hop.
  - unfold should_insert_output_cr.
    destruct (_ && _ && negb _) eqn:Hcr; split_and!; try apply Hpush; try done.
    + intros _. by destruct (output_cr_pending st); rewrite ?andb_false_r in Hcr.
    + exists [13]. split; [apply Hpush|]. simpl.
      apply andb_prop in Hcr as [Hcr _]. rewrite Hcr, Hop. simpl.
      apply andb_prop in Hcr as [->%Z.eqb_eq _]. done.
    + eexists. split; [apply Hpush|]. done.
  - split_and!; try apply Hpush; try done. eexists. split; [apply Hpush|done].
Qed.

(** Enough fuel: two turns per byte, less one when the carriage return of the
    first byte is out already. *)
Definition turns (st : TtyState Q) (buffer : list Z) : nat :=
  2 * length buffer - (if output_cr_pending st then 1 else 0).

Lemma fill_output_loop_spec fuel buffer k0 st :
  wf st → (turns st buffer ≤ fuel)%nat →
  let '(k, st') := fill_output_loop fuel buffer k0 st in
  wf st' ∧ termios st' = termios st ∧ k0 ≤ k ≤ k0 + Z.of_nat (length buffer) ∧
  (k = k0 + Z.of_nat (length buffer) ∨ q_is_full (output st') = true) ∧
  ∃ sent, q_list (output st') = q_list (output st) ++ sent ∧
    sent ++ render (termios st) (output_cr_pending st') (drop (Z.to_nat (k - k0)) buffer) =
    render (termios st) (output_cr_pending st) buffer.
Proof.
  revert buffer k0 st. induction fuel as [|fuel IH]; intros buffer k0 st Hwf Hfuel.
  { assert (buffer = []) as ->.
    { unfold turns in Hfuel. destruct buffer; [done|]. simpl in Hfuel.
      destruct (output_cr_pending st); lia. }
    simpl. split_and!; try done; [lia|left; lia|]. exists [].
    by rewrite app_nil_r, drop_nil. }
  destruct buffer as [|byte rest]; simpl.
  { split_and!; try done; [lia|left; lia|]. exists []. by rewrite app_nil_r, drop_nil. }
  destruct (q_is_full (output st)) eqn:Hfull.
  { split_and!; try done; [lia|by right|]. exists []. rewrite app_nil_r, Z.sub_diag. done. }
  pose proof (fill_output_byte_spec byte rest st Hwf Hfull) as Hb.
  destruct (fill_output_byte byte st) as [used st1].
  destruct Hb as (Hwf1 & Ht1 & Hu & Hcr1 & s1 & Ho1 & Hr1). destruct used.
  - specialize (IH rest (k0 + 1) st1 Hwf1). destruct (fill_output_loop _ _ _ _) as [k st'].
    destruct IH as (? & Ht & Hk & Hend & s2 & Ho2 & Hr2).
    { revert Hfuel. unfold turns. rewrite Hcr1. simpl. destruct (output_cr_pending st); lia. }
    split_and!; try done; [congruence|lia|lia|destruct Hend; [left; lia|by right]|].
    exists (s1 ++ s2). rewrite Ho2, Ho1, <- !app_assoc. split; [done|].
    rewrite Ht1 in Hr2. replace (Z.to_nat (k - k0)) with (S (Z.to_nat (k - (k0 + 1)))) by lia.
    simpl drop. by rewrite Hr2.
  - specialize (IH (byte :: rest) k0 st1 Hwf1). destruct (fill_output_loop _ _ _ _) as [k st'].
    destruct IH as (? & Ht & Hk & Hend & s2 & Ho2 & Hr2).
    { revert Hfuel. unfold turns. rewrite Hcr1, Hu by done. simpl. lia. }
    split_and!; try done; [congruence|lia|simpl in Hk; lia|].
    exists (s1 ++ s2). rewrite Ho2, Ho1, <- !app_assoc. split; [done|].
    rewrite Ht1 in Hr2. by rewrite Hr2.
Qed.

Lemma take_output_loop_spec n st :
  wf st →
  let '(bs, st') := take_output_loop n st in
  wf st' ∧ st' = with_output st (output st') ∧
  bs = take n (q_list (output st)) ∧ q_list (output st') = drop n (q_list (output st)).
Proof.
  revert st. induction n as [|n IH]; intros st Hwf; simpl; [by destruct st|].
  destruct (q_list (output st)) as [|b l] eqn:Hl.
  { rewrite q_pop_nil by (apply Hwf || done). simpl. rewrite Hl.
    split_and!; try done. destruct Hwf; by constructor. }
  destruct (q_pop_cons _ _ _ (wf_output _ Hwf) Hl) as (Hp1 & Hw & Hpl).
  destruct (q_pop (output st)) as [o q]; simpl in *. subst o.
  specialize (IH (with_output st q)). destruct (take_output_loop n _) as [bs st'].
  destruct IH as (? & Heq & -> & Hl'); [destruct Hwf; by constructor|].
  simpl in *. rewrite Hpl in *. by split_and!.
Qed.

Lemma receive_input_queue bytes st :
  wf st →
  let st1 := fold_left (λ st b, with_raw st (q_push (raw_input st) b).2) bytes st in
  wf st1 ∧ st1 = with_raw st (raw_input st1) ∧
  q_list (raw_input st1) = take (Z.to_nat q_cap) (q_list (raw_input st) ++ bytes).
Proof.
  revert st. induction bytes as [|b bytes IH]; intros st Hwf; simpl.
  { split_and!; [done|by destruct st|]. rewrite app_nil_r, take_ge; [done|].
    pose proof (q_len_cap _ (wf_raw _ Hwf)). lia. }
  destruct (IH (with_raw st (q_push (raw_input st) b).2)) as (? & Heq & Hl).
  { destruct Hwf; constructor; simpl; auto with kernel. }
  split_and!; [done|by rewrite Heq|]. rewrite Hl. simpl.
  rewrite q_push_list by apply Hwf. pose proof (q_len_cap _ (wf_raw _ Hwf)).
  case_decide; [by rewrite <- app_assoc|].
  rewrite !take_app_le by lia. done.
Qed.

(** *** The device as a transition system *)

Inductive step : TtyState Q → TtyState Q → Prop :=
| step_receive bytes st : step st (d_state (receive_input bytes st))
| step_read signal count st : step st (read_poll signal count st).2
| step_write signal buffer sent blocked st :
    0 ≤ sent → step st (write_poll signal buffer sent blocked st).2
| step_take n st : step st (take_output n st).2
| step_ioctl request arg u st :
    control_char (termios (dispatch request arg u st).2) Eof = control_char (termios st) Eof →
    step st (dispatch request arg u st).2
| step_clear_group st : step st (clear_foreground_group st).

Lemma with_termios_wf st t :
  wf st → control_char t Eof = control_char (termios st) Eof → wf (with_termios st t).
Proof.
  intros [? ? ? Hp] He. constructor; simpl; try done. rewrite Hp.
  unfold lines. do 2 f_equal. apply filter_ext. intros b. unfold boundary. by rewrite He.
Qed.

Lemma flush_input_wf st : wf st → wf (flush_input st).
Proof.
  intros [? ? ? ?]. constructor; simpl; auto with kernel. by rewrite q_clear_list.
Qed.

Lemma flush_output_wf st : wf st → wf (flush_output st).
Proof. intros [? ? ? ?]. constructor; simpl; auto with kernel. Qed.

Lemma receive_input_spec bytes st :
  wf st →
  let d := receive_input bytes st in
  ∃ used rest,
    take (Z.to_nat q_cap) (q_list (raw_input st) ++ bytes) = used ++ rest ∧
    wf (d_state d) ∧ q_list (raw_input (d_state d)) = rest ∧
    termios (d_state d) = termios st ∧
    output_cr_pending (d_state d) = output_cr_pending st ∧
    view d = performs q_cap (termios st) (foreground_group st) (view (mkDrain st false [])) used ∧
    (rest = [] ∨ Z.of_nat (length (v_cooked (view d))) = q_cap).
Proof.
  intros Hwf d. destruct (receive_input_queue bytes st Hwf) as (Hwf1 & Heq & Hl).
  unfold d, receive_input, process_raw_input. set (st1 := fold_left _ bytes st) in *.
  destruct (drain_raw_spec (Z.to_nat (q_len (raw_input st1))) (mkDrain st1 false []))
    as (used & rest & d' & <- & Hs & ? & ? & Ht & Hg & Hcr & Hv & Hend); [done| |].
  { simpl. rewrite q_len_list by apply Hwf1. lia. }
  simpl in *. exists used, rest. rewrite <- Hl, Hs. split_and!; try done.
  - by rewrite Ht, Heq.
  - by rewrite Hcr, Heq.
  - rewrite Hv. by rewrite Heq.
Qed.

Lemma take_output_wf n st : wf st → wf (take_output n st).2.
Proof.
  intros Hwf. unfold take_output. destruct (stopped st); [done|].
  pose proof (take_output_loop_spec (Z.to_nat n) st Hwf) as Hs.
  destruct (take_output_loop _ _). apply Hs.
Qed.

(** A wake-up of [write]: what is sent renders what is consumed. *)
Lemma write_poll_spec signal buffer sent blocked st :
  wf st → 0 ≤ sent ≤ Z.of_nat (length buffer) →
  let '(r, sent', st') := write_poll signal buffer sent blocked st in
  wf st' ∧ termios st' = termios st ∧ sent ≤ sent' ≤ Z.of_nat (length buffer) ∧
  (∀ n, r = Some n → n = Ok sent' ∧ (signal = true ∨ sent' = Z.of_nat (length buffer))) ∧
  ∃ out, q_list (output st') = q_list (output st) ++ out ∧
    out ++ render (termios st) (output_cr_pending st') (drop (Z.to_nat sent') buffer) =
    render (termios st) (output_cr_pending st) (drop (Z.to_nat sent) buffer).
Proof.
  intros Hwf Hs. unfold write_poll.
  assert (∃ out, q_list (output st) = q_list (output st) ++ out ∧
    out ++ render (termios st) (output_cr_pending st) (drop (Z.to_nat sent) buffer) =
    render (termios st) (output_cr_pending st) (drop (Z.to_nat sent) buffer)) as Hid.
  { exists []. by rewrite app_nil_r. }
  destruct (Z.ltb_spec sent (Z.of_nat (length buffer))); simpl.
  2:{ split_and!; try done; try lia. intros n [= <-]. split; [done|right; lia]. }
  destruct signal; [split_and!; try done; try lia; intros n [= <-]; split; [done|by left]|].
  destruct (_ && _); [split_and!; try done; lia|].
  pose proof (fill_output_loop_spec (2 * length (drop (Z.to_nat sent) buffer))
    (drop (Z.to_nat sent) buffer) 0 st Hwf) as Hf. unfold fill_output.
  destruct (fill_output_loop _ _ _ _) as [k st'].
  destruct Hf as (? & ? & Hk & _ & out & Ho & Hr); [unfold turns; lia|].
  rewrite length_drop in Hk. split_and!; try done; try lia.
  - intros n. destruct (Z.ltb_spec (sent + k) (Z.of_nat (length buffer))); [done|].
    intros [= <-]. split; [done|right; lia].
  - exists out. split; [done|]. rewrite <- Hr, Z.sub_0_r, drop_drop. do 3 f_equal. lia.
Qed.

Lemma step_wf st st' : wf st → step st st' → wf st'.
Proof.
  intros Hwf. destruct 1.
  - by destruct (receive_input_spec bytes st Hwf) as (? & ? & ? & ? & _).
  - unfold read_poll. destruct (count =? 0); [done|]. destruct signal; [done|].
    destruct (negb _); [done|]. pose proof (drain_cooked_spec count st Hwf) as Hd.
    destruct (drain_cooked count st). apply Hd.
  - destruct (decide (sent ≤ Z.of_nat (length buffer))).
    + pose proof (write_poll_spec signal buffer sent blocked st Hwf) as Hs.
      destruct (write_poll _ _ _ _ _) as [[r s'] st']. simpl. apply Hs. lia.
    + unfold write_poll. destruct (Z.ltb_spec sent (Z.of_nat (length buffer))); [lia|done].
  - by apply take_output_wf.
  - revert H1. unfold dispatch. destruct (TtyRequest_try_from request) as [r|]; [|done].
    destruct r; simpl; auto using with_termios_wf, flush_input_wf.
    + intros _. unfold flush. destruct (FlushSelector_try_from arg) as [[]|]; simpl;
        auto using flush_input_wf, flush_output_wf.
    + intros _. destruct Hwf; by constructor.
  - destruct Hwf; by constructor.
Qed.

Lemma reachable_wf t st : rtc step (new_device t) st → wf st.
Proof.
  intros Hrun. pose proof (new_device_wf t) as Hwf. revert Hwf.
  induction Hrun; eauto using step_wf.
Qed.

Lemma lines_zero t l : lines t l = 0 → existsb (boundary t) l = false.
Proof.
  unfold lines. induction l as [|b l IH]; simpl; [done|].
  destruct (boundary t b); simpl; [lia|done].
Qed.

(** *** One write among drains *)

(** A writer, the transmitter and flow control taking turns; the last two
    components are the bytes transmitted and the writer's progress. *)
Inductive out_step (buffer : list Z) :
    TtyState Q * list Z * Z → TtyState Q * list Z * Z → Prop :=
| out_write blocked st tx sent r sent' st' :
    write_poll false buffer sent blocked st = (r, sent', st') →
    out_step buffer (st, tx, sent) (st', tx, sent')
| out_take n st tx sent bs st' :
    take_output n st = (bs, st') →
    out_step buffer (st, tx, sent) (st', tx ++ bs, sent)
| out_flow b st tx sent : out_step buffer (st, tx, sent) (with_stopped st b, tx, sent).

Lemma out_step_inv buffer st0 st tx sent st' tx' sent' :
  let inv st tx sent :=
    wf st ∧ termios st = termios st0 ∧ 0 ≤ sent ≤ Z.of_nat (length buffer) ∧
    tx ++ q_list (output st) ++
      render (termios st) (output_cr_pending st) (drop (Z.to_nat sent) buffer) =
    q_list (output st0) ++ render (termios st0) (output_cr_pending st0) buffer in
  inv st tx sent → out_step buffer (st, tx, sent) (st', tx', sent') → inv st' tx' sent'.
Proof.
  intros inv (Hwf & Ht & Hs & Heq) Hstep. inversion Hstep as
    [blocked ? ? ? r ? ? Hw|n ? ? ? bs ? Htake|b ? ? ?]; subst.
  - pose proof (write_poll_spec false buffer sent blocked st Hwf Hs) as Hp. rewrite Hw in Hp.
    destruct Hp as (? & Ht' & ? & _ & out & Ho & Hr). split_and!; [done|congruence|lia|lia|].
    rewrite Ho, Ht', <- app_assoc, Hr. done.
  - unfold take_output in Htake. destruct (stopped st).
    { injection Htake as <- <-. by rewrite app_nil_r. }
    pose proof (take_output_loop_spec (Z.to_nat n) st Hwf) as Hp. rewrite Htake in Hp.
    destruct Hp as (? & He & Hbs & Hl). split_and!; [done|by rewrite He|lia|lia|].
    rewrite <- Heq. rewrite He. simpl. rewrite Hbs, Hl, <- app_assoc.
    f_equal. rewrite app_assoc. by rewrite take_drop.
  - split_and!; try done; [|lia|lia]. destruct Hwf; by constructor.
Qed.

(** *** Properties *)

(** C35: hardware input goes through the line discipline exactly as through the
    reference editor: the bytes that fit in the raw queue are taken in order
    until they run out or the cooked queue is full, and the cooked line, the
    echo, the flow-control state, the flush request and the posted signals are
    those of the editor on those bytes. *)
Theorem receive_input_edits bytes st :
  wf st →
  let d := receive_input bytes st in
  ∃ used rest,
    take (Z.to_nat q_cap) (q_list (raw_input st) ++ bytes) = used ++ rest ∧
    q_list (raw_input (d_state d)) = rest ∧
    view d = performs q_cap (termios st) (foreground_group st) (view (mkDrain st false [])) used ∧
    (rest = [] ∨ Z.of_nat (length (v_cooked (view d))) = q_cap).
Proof.
  intros Hwf d. destruct (receive_input_spec bytes st Hwf)
    as (used & rest & ? & _ & ? & _ & _ & ? & ?). by exists used, rest.
Qed.

(** C34: in every state reached without changing the EOF character, the
    pending-line count is the number of line ends in the cooked queue, a
    canonical reader is let through exactly when there is one or the queue has
    room for at most [READ_CANONICAL_LOW_WATER] bytes, and a read of at least one byte that returns none has consumed
    the EOF character: end of file is never reported spuriously. *)
Theorem reads_are_lines t st count bs st' :
  READ_CANONICAL_LOW_WATER < q_cap (Q := Q) → rtc step (new_device t) st →
  is_canonical st = true → 0 < count →
  pending_lines st = lines (termios st) (q_list (cooked_input st)) ∧
  has_readable_data st = existsb (boundary (termios st)) (q_list (cooked_input st)) ||
    (q_cap - Z.of_nat (length (q_list (cooked_input st))) <=? READ_CANONICAL_LOW_WATER) ∧
  (read_poll false count st = (Some (Ok bs), st') →
   q_list (cooked_input st) = bs ++ q_list (cooked_input st') ∧ bs ≠ [] ∨
   q_list (cooked_input st) =
     bs ++ control_char (termios st) Eof :: q_list (cooked_input st')).
Proof.
  intros Hcap Hrun%reachable_wf Hcan Hcount. pose proof (wf_pending _ Hrun) as Hp.
  assert (has_readable_data st = existsb (boundary (termios st)) (q_list (cooked_input st)) ||
    (q_cap - Z.of_nat (length (q_list (cooked_input st))) <=? READ_CANONICAL_LOW_WATER)) as Hr.
  { unfold has_readable_data. rewrite Hcan, q_remaining_list by apply Hrun. f_equal.
    rewrite Hp. destruct (existsb _ _) eqn:He.
    - apply Z.ltb_lt. pose proof (lines_bound (termios st) (q_list (cooked_input st))).
      assert (lines (termios st) (q_list (cooked_input st)) ≠ 0); [|lia].
      intros H0'%lines_zero. congruence.
    - by rewrite lines_no_boundary. }
  split_and!; [done|done|]. unfold read_poll.
  destruct (Z.eqb_spec count 0); [lia|].
  destruct (has_readable_data st) eqn:Hd; [|done]. simpl.
  pose proof (drain_cooked_spec count st Hrun) as Hs.
  destruct (drain_cooked count st) as [bs1 st1]. intros [= -> ->].
  destruct Hs as (_ & _ & _ & _ & _ & _ & Hcase). rewrite Hcan in Hcase.
  destruct Hcase as [[Hl Hend]|(_ & Hl & _)]; [left|by right].
  split; [done|]. intros ->. symmetry in Hr. simpl in Hl. destruct Hend as [Hn|Hn].
  - simpl in Hn. lia.
  - rewrite Hn in Hl. rewrite Hl in Hr. simpl in Hr. apply Z.leb_le in Hr. lia.
Qed.

(** While one [write] takes turns with the transmitter and flow control,
    what has been transmitted, followed by the output queue, followed by the
    rendering of the unsent part, is the old queue followed by the rendering of
    the whole buffer: post-processed output is neither lost, duplicated nor
    reordered, including a newline whose carriage return was queued just before
    the queue filled up. *)
Theorem write_stream t buffer st0 st tx sent :
  rtc step (new_device t) st0 →
  rtc (out_step buffer) (st0, [], 0) (st, tx, sent) →
  0 ≤ sent ≤ Z.of_nat (length buffer) ∧
  tx ++ q_list (output st) ++
    render (termios st) (output_cr_pending st) (drop (Z.to_nat sent) buffer) =
  q_list (output st0) ++ render (termios st0) (output_cr_pending st0) buffer.
Proof.
  intros Hwf%reachable_wf Hrun.
  assert (∀ c c', rtc (out_step buffer) c c' →
    let '(s, x, k) := c in let '(s', x', k') := c' in
    wf s ∧ termios s = termios st0 ∧ 0 ≤ k ≤ Z.of_nat (length buffer) ∧
    x ++ q_list (output s) ++ render (termios s) (output_cr_pending s) (drop (Z.to_nat k) buffer) =
      q_list (output st0) ++ render (termios st0) (output_cr_pending st0) buffer →
    wf s' ∧ termios s' = termios st0 ∧ 0 ≤ k' ≤ Z.of_nat (length buffer) ∧
    x' ++ q_list (output s') ++
      render (termios s') (output_cr_pending s') (drop (Z.to_nat k') buffer) =
      q_list (output st0) ++ render (termios st0) (output_cr_pending st0) buffer) as Hind.
  { intros c c' Hcc. induction Hcc as [[[]]|[[s x] k] [[s1 x1] k1] [[s2 x2] k2] Hst Hrest IH];
      [done|]. intros Hi. apply IH. eapply out_step_inv; [exact Hi|exact Hst]. }
  destruct (Hind _ _ Hrun) as (_ & _ & ? & ?); [|done].
  split_and!; try done; lia.
Qed.
End laws.

(** A canonical console over the ring buffer. *)
Definition console : TtyState RingBuffer.RingBuffer := new_device console_default.

Lemma receive_input_edits_witness :
  let d := receive_input [97; 98; 127; 10] console in
  q_list (cooked_input (d_state d)) = [97; 10] ∧ 
  ∃ used, used = [97; 98; 127; 10] ∧ 
    view d = performs q_cap console_default 0 (view (mkDrain console false [])) used.
Proof.
  intros d. split; [vm_compute; reflexivity|].
  destruct (receive_input_edits [97; 98; 127; 10] console) as (used & rest & Hs & Hr & Hv & _).
  - apply new_device_wf.
  - exists used. split; [|exact Hv].
    assert (rest = []) as -> by (rewrite <- Hr; vm_compute; reflexivity).
    rewrite app_nil_r in Hs. rewrite <- Hs. vm_compute; reflexivity.
Defined.

Lemma reads_are_lines_witness :
  let st := d_state (receive_input [104; 105; 4] console) in
  (read_poll false 10 st).1 = Some (Ok [104; 105]) ∧
  pending_lines st = lines (termios st) (q_list (cooked_input st)).
Proof.
  intros st. split; [vm_compute; reflexivity|].
  apply (reads_are_lines console_default st 10 [] st);
    [vm_compute; reflexivity| |vm_compute; reflexivity|reflexivity].
  eapply rtc_l; [apply (step_receive [104; 105; 4])|apply rtc_refl].
Defined.

Lemma write_stream_witness :
  ∃ st tx, rtc (out_step [97; 10]) (console, [], 0) (st, tx, 2) ∧ tx = [97; 13] ∧
    tx ++ q_list (output st) = [97; 13; 10].
Proof.
  set (p := write_poll false [97; 10] 0 false console).
  set (q := take_output 2 p.2).
  assert (rtc (out_step [97; 10]) (console, [], 0) (q.2, q.1, 2)) as Hrun.
  { eapply rtc_l; [apply (out_write _ false _ _ _ p.1.1 2 p.2); vm_compute; reflexivity|].
    eapply rtc_l; [apply (out_take _ 2 _ _ _ q.1 q.2); vm_compute; reflexivity|].
    apply rtc_refl. }
  exists q.2, q.1. split_and!; [exact Hrun|vm_compute; reflexivity|].
  destruct (write_stream console_default [97; 10] console q.2 q.1 2 (rtc_refl _ _) Hrun) as [_ Hs].
  rewrite app_nil_r in Hs. rewrite Hs. vm_compute; reflexivity.
Defined.

(** A readable state with an empty cooked queue hands over nothing. *)
Lemma stuck_read st n :
  has_readable_data st = true →
  q_pop (cooked_input st) = (None, cooked_input (Q := RingBuffer.RingBuffer) st) →
  read_poll false (Z.pos n) st = (Some (Ok []), with_cooked st (cooked_input st)).
Proof.
  intros Hr Hp. unfold read_poll. rewrite Hr. cbn [Z.eqb negb]. unfold drain_cooked.
  destruct (Pos2Nat.is_succ n) as [k Hk]. rewrite Z2Nat.inj_pos, Hk. simpl drain_cooked_loop.
  simpl in Hp. by rewrite Hp.
Qed.

(** Changing the EOF character while an EOF is queued leaves the count of pending
    lines above the number of line ends, and from then on every canonical read of
    an empty queue reports end of file instead of blocking, without ever bringing
    the count down. *)
Example eof_change_reads_empty :
  let st1 := d_state (receive_input [97; 4] console) in
  let u := {| u_termios := set_control_char console_default Eof 0;
              u_termio := to_termio console_default; u_word := 0 |} in
  let st2 := (dispatch 0x5402 0 u st1).2 in
  let st3 := (read_poll false 10 st2).2 in
  (read_poll false 10 st2).1 = Some (Ok [97; 4]) ∧
  is_canonical st3 = true ∧ q_list (cooked_input st3) = [] ∧ pending_lines st3 = 1 ∧
  ∀ n, (read_poll false (Z.pos n) st3).1 = Some (Ok []) ∧
       pending_lines (read_poll false (Z.pos n) st3).2 = 1 ∧
       q_list (cooked_input (read_poll false (Z.pos n) st3).2) = [].
Proof.
  intros st1 u st2 st3.
  split; [vm_compute; reflexivity|]. split; [vm_compute; reflexivity|].
  split; [vm_compute; reflexivity|]. split; [vm_compute; reflexivity|].
  intros n. rewrite stuck_read; [|vm_compute; reflexivity..].
  split; [reflexivity|]. split; vm_compute; reflexivity.
Qed.
End Tty.
