(* ===== verification/Block.v ===== *)
(** * Block request layer ([kernel/src/driver/block/mod.rs])

    The shared request pool and the per-major elevator queues threaded through
    it, with submission, progress and completion of requests.  A queue is a
    chain of pool slots; the refinement shows it as a list of requests. *)

From S2P Require Import Prelude.
From stdpp Require Import relations functions list.
Open Scope Z_scope.

Module Block.

(** ** Data *)

Definition SECTOR_SIZE : Z := 512.
Definition REQUEST_POOL_CAPACITY : nat := 32.
Definition BLOCK_DEVICE_SLOT_COUNT : nat := 7.
Definition BUFFER_BLOCK_SECTOR_COUNT : Z := 2.

(** [DevNum] and its accessors. *)
Definition DevNum_new (major minor : Z) : Z := Z.lor (Z.shiftl major 8) minor.
Definition DevNum_major (dev : Z) : Z := Z.shiftr dev 8.
Definition DevNum_minor (dev : Z) : Z := Z.land dev 255.

Inductive BlockRequestType : Set := Read | Write.

#[global] Instance BlockRequestType_eq_dec : EqDecision BlockRequestType.
Proof. solve_decision. Defined.

(** [ty as u8]. *)
Definition ty_code (t : BlockRequestType) : Z := match t with Read => 0 | Write => 1 end.

Record BlockRequestIo : Type := mkIo {
  dev : Z;
  ty : BlockRequestType;
  first_sector : Z;
  sector_count : Z;
  data_addr : Z;
}.

Record RequestProgress : Type := mkProgress {
  next_sector : Z;
  remaining_sectors : Z;
  next_data_addr : Z;
}.

(** The completion target; a buffer-cache slot is named by its index. *)
Inductive RequestPayload : Set := BufferCache (buffer : nat) | Paging.

Record BlockRequest : Type := mkRequest {
  io : BlockRequestIo;
  progress : RequestProgress;
  error_count : Z;
  payload : RequestPayload;
  next_request : option nat;
}.

(** [ops] identifies the driver whose [kick] is registered. *)
Record DeviceQueue : Type := mkQueue { ops : nat; current_request : option nat }.

Record BlockManager : Type := mkManager {
  pool : list (option BlockRequest);
  queues : list (option DeviceQueue);
}.

Inductive RequestErrorAction : Set := Retry | Reset | Fail.
Inductive QueueAfterComplete : Set := Idle | More.

(** The part of a buffer-cache slot the request layer reads and writes. *)
Record Buffer : Type := mkBuffer {
  key : option (Z * Z);
  up_to_date : bool;
  dirty : bool;
  io_locked : bool;
  addr : Z;
}.

Record World : Type := mkWorld { mgr : BlockManager; bufs : gmap nat Buffer }.

Definition with_mgr (w : World) (m : BlockManager) : World := mkWorld m (bufs w).
Definition with_pool (m : BlockManager) (p : list (option BlockRequest)) : BlockManager :=
  mkManager p (queues m).
Definition with_next (r : BlockRequest) (n : option nat) : BlockRequest :=
  mkRequest (io r) (progress r) (error_count r) (payload r) n.

(** ** The current request's controlled view *)

(** [advance_one_sector]: the assertion is live in release builds. *)
Definition advance_one_sector (r : BlockRequest) : option BlockRequest :=
  if remaining_sectors (progress r) =? 0 then None
  else Some (mkRequest (io r)
    (mkProgress (wrapping_add (next_sector (progress r)) 1)
       (remaining_sectors (progress r) - 1)
       (next_data_addr (progress r) + SECTOR_SIZE))
    (error_count r) (payload r) (next_request r)).

Definition set_errors (r : BlockRequest) (n : Z) : BlockRequest :=
  mkRequest (io r) (progress r) n (payload r) (next_request r).
Definition clear_errors (r : BlockRequest) : BlockRequest := set_errors r 0.

Definition record_error (r : BlockRequest) (max_errors : Z) : RequestErrorAction * BlockRequest :=
  let n := wrapping_add (error_count r) 1 in
  (if max_errors <=? n then Fail else if max_errors / 2 <? n then Reset else Retry,
   set_errors r n).

(** ** The request pool *)

Definition pool_new : list (option BlockRequest) := replicate REQUEST_POOL_CAPACITY None.

Definition search_end (t : BlockRequestType) : nat :=
  match t with
  | Read => REQUEST_POOL_CAPACITY
  | Write => REQUEST_POOL_CAPACITY * 2 / 3
  end.

Definition is_free (o : option BlockRequest) : bool := negb (bool_decide (is_Some o)).

Definition find_free_slot (p : list (option BlockRequest)) (t : BlockRequestType) : option nat :=
  rposition is_free (take (search_end t) p).

(** [request] and [request_mut]: a free or missing slot panics. *)
Definition request (p : list (option BlockRequest)) (id : nat) : option BlockRequest :=
  p !! id ≫= λ o, o.

(** ** The manager *)

Definition manager_new : BlockManager :=
  mkManager pool_new (replicate BLOCK_DEVICE_SLOT_COUNT None).

Definition queue_at (m : BlockManager) (major : Z) : option DeviceQueue :=
  queues m !! Z.to_nat major ≫= λ o, o.

Definition driver_ops (m : BlockManager) (major : Z) : option nat := ops <$> queue_at m major.

Definition is_registered_major (m : BlockManager) (major : Z) : bool :=
  bool_decide (is_Some (driver_ops m major)).

(** An out-of-range major panics; the other two checks are debug-only. *)
Definition register_driver (major : Z) (o : nat) : M BlockManager unit :=
  (m <- mget ;;
   if bool_decide (Z.to_nat major < length (queues m))%nat
   then mput (mkManager (pool m) (<[Z.to_nat major := Some (mkQueue o None)]> (queues m)))
   else mpanic)%kmonad.

Definition current_request_id (m : BlockManager) (major : Z) : option nat :=
  queue_at m major ≫= current_request.

(** [current_request_mut] with an update of the borrowed request. *)
Definition update_current {A} (major : Z) (f : BlockRequest → A * BlockRequest) :
    M BlockManager (option A) :=
  (m <- mget ;;
  match current_request_id m major with
  | None => mok None
  | Some id =>
      r <- mexpect (request (pool m) id) ;;
      mput (with_pool m (<[id := Some (f r).2]> (pool m))) ;;;
      mok (Some (f r).1)
  end)%kmonad.

Definition set_current (m : BlockManager) (major : Z) (c : option nat) : BlockManager :=
  match queue_at m major with
  | Some q => mkManager (pool m) (<[Z.to_nat major := Some (mkQueue (ops q) c)]> (queues m))
  | None => m
  end.

Definition take_current_request (major : Z) : M BlockManager (BlockRequest * bool) :=
  (m <- mget ;;
   q <- mok_or (queue_at m major) NODEV ;;
   id <- mok_or (current_request q) IO ;;
   r <- mexpect (request (pool m) id) ;;
   let m1 := with_pool m (<[id := None]> (pool m)) in
   mput (set_current m1 major (next_request r)) ;;;
   mok (r, bool_decide (is_Some (next_request r))))%kmonad.

(** The tuple comparison [(ty, dev, next_sector) < (ty, dev, next_sector)]. *)
Definition request_in_order (left right : BlockRequest) : bool :=
  let c1 := ty_code (ty (io left)) ?= ty_code (ty (io right)) in
  let c2 := dev (io left) ?= dev (io right) in
  let c3 := next_sector (progress left) ?= next_sector (progress right) in
  match c1 with
  | Lt => true | Gt => false
  | Eq => match c2 with
          | Lt => true | Gt => false
          | Eq => match c3 with Lt => true | _ => false end
          end
  end.

Definition set_next (id : nat) (n : option nat) : M BlockManager unit :=
  (m <- mget ;;
   r <- mexpect (request (pool m) id) ;;
   mput (with_pool m (<[id := Some (with_next r n)]> (pool m))))%kmonad.

(** The splice loop of [add_request]; it visits each queued request once, so
    the pool capacity is enough fuel. *)
Fixpoint splice_loop (fuel current_id request_id : nat) : M BlockManager unit :=
  match fuel with
  | O => mpanic
  | S fuel' =>
      (m <- mget ;;
       current <- mexpect (request (pool m) current_id) ;;
       match next_request current with
       | None => set_next current_id (Some request_id)
       | Some next_id =>
           new <- mexpect (request (pool m) request_id) ;;
           next <- mexpect (request (pool m) next_id) ;;
           if (request_in_order current new || negb (request_in_order current next))
              && request_in_order new next
           then set_next request_id (Some next_id) ;;; set_next current_id (Some request_id)
           else splice_loop fuel' next_id request_id
       end)%kmonad
  end.

(** Link a stored request into its queue; returns the driver to kick when the
    queue was idle. *)
Definition link_request (major : Z) (request_id : nat) : M BlockManager (option nat) :=
  (set_next request_id None ;;;
   m <- mget ;;
   q <- mexpect (queue_at m major) ;;
   match current_request q with
   | None => mput (set_current m major (Some request_id)) ;;; mok (Some (ops q))
   | Some current_id =>
       splice_loop REQUEST_POOL_CAPACITY current_id request_id ;;; mok None
   end)%kmonad.

(** ** Submission and completion *)

Definition lift {A} (c : M BlockManager A) : M World A :=
  λ w, let (r, m) := c (mgr w) in (r, with_mgr w m).

Definition set_buffer (b : nat) (f : Buffer → Buffer) : M World unit :=
  mmodify (λ w, mkWorld (mgr w) (alter f b (bufs w))).

Definition set_dirty (d : bool) (x : Buffer) : Buffer :=
  mkBuffer (key x) (up_to_date x) d (io_locked x) (addr x).
Definition set_up_to_date (u : bool) (x : Buffer) : Buffer :=
  mkBuffer (key x) u (dirty x) (io_locked x) (addr x).
Definition set_locked (l : bool) (x : Buffer) : Buffer :=
  mkBuffer (key x) (up_to_date x) (dirty x) l (addr x).

(** [BusyLock::release] asserts that the lock is held. *)
Definition release_io (b : nat) : M World unit :=
  (w <- mget ;;
   x <- mexpect (bufs w !! b) ;;
   massert (io_locked x) ;;;
   set_buffer b (set_locked false))%kmonad.

(** [add_request]: a buffer-cache request cleans its buffer when queued. *)
Definition add_request (major : Z) (request_id : nat) : M World (option nat) :=
  (w <- mget ;;
   r <- mexpect (request (pool (mgr w)) request_id) ;;
   match payload r with
   | BufferCache b => set_buffer b (set_dirty false)
   | Paging => mok ()
   end ;;;
   lift (link_request major request_id))%kmonad.

(** Where a part of [submit_request] ends: done, about to take the buffer's I/O
    lock, asleep until that lock or a request slot is free, holding the lock and
    about to look for a slot, or queued (with the driver to kick, if it was
    idle). *)
Inductive SubmitStep : Type :=
| Done | NeedLock | WaitIo | NeedSlot | WaitSlot | Queued (kick : option nat).

(** Up to [acquire_io].  The key read here, [k] below, is the one that the
    request is made of, also when the submitter sleeps in between. *)
Definition submit_begin (prefetch : bool) (b : nat) : M World SubmitStep :=
  (w <- mget ;;
   x <- mexpect (bufs w !! b) ;;
   match key x with
   | None => mok Done
   | Some k =>
       if negb (is_registered_major (mgr w) (DevNum_major k.1)) then mok Done
       else if prefetch && io_locked x then mok Done
       else mok NeedLock
   end)%kmonad.

(** [acquire_io] and the test for requests with nothing to do. *)
Definition submit_lock (t : BlockRequestType) (b : nat) : M World SubmitStep :=
  (w <- mget ;;
   x <- mexpect (bufs w !! b) ;;
   if io_locked x then mok WaitIo
   else
     set_buffer b (set_locked true) ;;;
     if (bool_decide (t = Read) && up_to_date x) || (bool_decide (t = Write) && negb (dirty x))
     then release_io b ;;; mok Done
     else mok NeedSlot)%kmonad.

(** One pass of the slot loop and, when a slot is found, the rest. *)
Definition submit_slot (t : BlockRequestType) (prefetch : bool) (b : nat) (k : Z * Z) :
    M World SubmitStep :=
  (w <- mget ;;
   match find_free_slot (pool (mgr w)) t with
   | None => if prefetch then release_io b ;;; mok Done else mok WaitSlot
   | Some id =>
       x <- mexpect (bufs w !! b) ;;
       let i := mkIo k.1 t (as_u32 (k.2 * BUFFER_BLOCK_SECTOR_COUNT))
                  BUFFER_BLOCK_SECTOR_COUNT (addr x) in
       let r := mkRequest i (mkProgress (first_sector i) (sector_count i) (data_addr i)) 0
                  (BufferCache b) None in
       mput (with_mgr w (with_pool (mgr w) (<[id := Some r]> (pool (mgr w))))) ;;;
       kick <- add_request (DevNum_major k.1) id ;;
       mok (Queued kick)
   end)%kmonad.

Definition complete_current (major : Z) (success : bool) : M World QueueAfterComplete :=
  (o <- mtry (lift (take_current_request major)) ;;
   match o with
   | inr _ => mok Idle
   | inl (r, has_more) =>
       match payload r with
       | BufferCache b => set_buffer b (set_up_to_date success) ;;; release_io b
       | Paging => mok ()
       end ;;;
       mok (if has_more then More else Idle)
   end)%kmonad.

(** ** Queues as lists *)

(** Inserting after [cur] in the list of the requests that follow it. *)
Fixpoint insert_after (cur : BlockRequest) (rest : list BlockRequest) (new : BlockRequest) :
    list BlockRequest :=
  match rest with
  | [] => [new]
  | next :: rest' =>
      if (request_in_order cur new || negb (request_in_order cur next))
         && request_in_order new next
      then new :: next :: rest'
      else next :: insert_after next rest' new
  end.

(** The elevator on the list of queued requests, head in flight. *)
Definition enqueue (l : list BlockRequest) (new : BlockRequest) : list BlockRequest :=
  match l with
  | [] => [new]
  | h :: rest => h :: insert_after h rest new
  end.

(** The slots [ids], linked in that order from [start]. *)
Fixpoint chain (p : list (option BlockRequest)) (start : option nat) (ids : list nat) : Prop :=
  match ids with
  | [] => start = None
  | i :: ids' => start = Some i ∧ ∃ r, request p i = Some r ∧ chain p (next_request r) ids'
  end.

(** A request without its link. *)
Definition unlink (r : BlockRequest) : BlockRequest := with_next r None.

Definition reqs (p : list (option BlockRequest)) (ids : list nat) : list BlockRequest :=
  omap (λ i, unlink <$> request p i) ids.

Lemma request_Some p i r : request p i = Some r ↔ p !! i = Some (Some r).
Proof.
  unfold request. rewrite bind_Some. split; [by intros (? & ? & ->)|]. intros Hi. by exists (Some r).
Qed.

Lemma request_insert p i r j :
  (i < length p)%nat →
  request (<[i := Some r]> p) j = if decide (i = j) then Some r else request p j.
Proof.
  intros. unfold request. case_decide as E.
  - subst. by rewrite list_lookup_insert_eq.
  - by rewrite list_lookup_insert_ne.
Qed.

Lemma request_lt p i r : request p i = Some r → (i < length p)%nat.
Proof. intros Hr%request_Some. by eapply lookup_lt_Some. Qed.

Lemma chain_ext p p' start ids :
  (∀ i, i ∈ ids → request p' i = request p i) → chain p start ids → chain p' start ids.
Proof.
  revert start. induction ids as [|i ids IH]; intros start Heq; simpl; [done|].
  intros (-> & r & Hr & Hch). split; [done|]. exists r. split.
  - rewrite Heq; [done|by left].
  - apply IH; [|done]. intros j Hj. apply Heq. by right.
Qed.

Lemma reqs_ext p p' ids :
  (∀ i, i ∈ ids → unlink <$> request p' i = unlink <$> request p i) → reqs p' ids = reqs p ids.
Proof.
  induction ids as [|i ids IH]; intros Heq; [done|].
  assert (∀ q, reqs q (i :: ids) = match unlink <$> request q i with
    Some r => r :: reqs q ids | None => reqs q ids end) as Hc by done.
  rewrite !Hc, Heq by (by left). rewrite IH; [done|]. intros j Hj. apply Heq. by right.
Qed.

Lemma reqs_cons p i ids r : request p i = Some r → reqs p (i :: ids) = unlink r :: reqs p ids.
Proof. unfold reqs. simpl. by intros ->. Qed.

Lemma set_next_eq id n m r :
  request (pool m) id = Some r →
  set_next id n m = (Ok (), with_pool m (<[id := Some (with_next r n)]> (pool m))).
Proof. intros Hr. unfold set_next, mget, bind. by rewrite Hr. Qed.

(** What relinking keeps. *)
Record relinked (p p' : list (option BlockRequest)) (ids : list nat) : Prop := {
  rl_length : length p' = length p;
  rl_frame : ∀ j, j ∉ ids → p' !! j = p !! j;
  rl_same : ∀ j, unlink <$> request p' j = unlink <$> request p j;
}.

Lemma relinked_insert p i r n :
  request p i = Some r → relinked p (<[i := Some (with_next r n)]> p) [i].
Proof.
  intros Hr. pose proof (request_lt _ _ _ Hr). split.
  - apply length_insert.
  - intros j Hj. apply list_lookup_insert_ne. set_solver.
  - intros j. rewrite request_insert by done. case_decide as E; [|done].
    subst. by rewrite Hr.
Qed.

Lemma relinked_trans p1 p2 p3 ids1 ids2 ids :
  relinked p1 p2 ids1 → relinked p2 p3 ids2 → ids1 ⊆ ids → ids2 ⊆ ids → relinked p1 p3 ids.
Proof.
  intros [? Hf1 ?] [? Hf2 ?] Hs1 Hs2. split; [congruence| |congruence].
  intros j Hj. rewrite Hf2, Hf1; [done|auto|auto].
Qed.

Lemma relinked_weaken p1 p2 ids1 ids : relinked p1 p2 ids1 → ids1 ⊆ ids → relinked p1 p2 ids.
Proof.
  intros [? Hf ?] Hsub. split; [done| |done]. intros j Hj. apply Hf. intros Hin. by apply Hj, Hsub.
Qed.

Lemma relinked_request p p' ids i r :
  relinked p p' ids → request p i = Some r → ∃ r', request p' i = Some r' ∧ unlink r' = unlink r.
Proof.
  intros [_ _ Hs] Hr. specialize (Hs i). rewrite Hr in Hs.
  destruct (request p' i) as [r'|]; [|done]. apply (inj Some) in Hs. by exists r'.
Qed.

Lemma splice_loop_spec fuel m c ids new rc rn :
  request (pool m) c = Some rc → chain (pool m) (next_request rc) ids →
  NoDup (new :: c :: ids) →
  request (pool m) new = Some rn → next_request rn = None → (length ids < fuel)%nat →
  ∃ p' ids', splice_loop fuel c new m = (Ok (), with_pool m p') ∧
    chain p' (Some c) (c :: ids') ∧ ids' ≡ₚ new :: ids ∧ relinked (pool m) p' (new :: c :: ids) ∧
    reqs (pool m) ids' = insert_after (unlink rc) (reqs (pool m) ids) (unlink rn).
Proof.
  revert m c ids rc. induction fuel as [|fuel IH];
    intros m c ids rc Hc Hch Hnd Hn Hnn Hf; [lia|].
  simpl. unfold mget at 1, bind at 1. rewrite Hc. simpl mexpect. unfold mok at 1, bind at 1.
  pose proof (request_lt _ _ _ Hc). pose proof (request_lt _ _ _ Hn).
  pose proof Hnd as [Hnew Hnd1]%NoDup_cons. pose proof Hnd1 as [Hcn Hnd']%NoDup_cons.
  assert (c ≠ new) by set_solver. destruct ids as [|nx ids]; simpl in Hch.
  - rewrite Hch, (set_next_eq _ _ _ rc) by done.
    exists (<[c := Some (with_next rc (Some new))]> (pool m)), [new]. split_and!; try done.
    + exists (with_next rc (Some new)). rewrite !request_insert by done.
      rewrite decide_True by done. split; [done|]. split; [done|]. exists rn.
      by rewrite request_insert, decide_False.
    + eapply relinked_weaken; [by apply relinked_insert|]. set_solver.
    + by erewrite reqs_cons by done.
  - destruct Hch as (Hnx & rx & Hrx & Hch). rewrite Hnx, Hn, Hrx. simpl mexpect.
    unfold mok at 1 2, bind at 1 2. pose proof (request_lt _ _ _ Hrx).
    assert (nx ≠ new ∧ c ≠ nx) as [? ?] by set_solver.
    rewrite (reqs_cons _ nx ids rx) by done. simpl insert_after.
    change (request_in_order (unlink rc) (unlink rn)) with (request_in_order rc rn).
    change (request_in_order (unlink rc) (unlink rx)) with (request_in_order rc rx).
    change (request_in_order (unlink rn) (unlink rx)) with (request_in_order rn rx).
    destruct (_ && _) eqn:Hcmp.
    + unfold bind. rewrite (set_next_eq _ _ _ rn) by done.
      erewrite set_next_eq by (simpl; rewrite request_insert, decide_False by done; exact Hc).
      eexists _, (new :: nx :: ids). split; [done|]. simpl pool.
      assert (∀ j, j ≠ c → j ≠ new → request (<[c:=Some (with_next rc (Some new))]>
        (<[new:=Some (with_next rn (Some nx))]> (pool m))) j = request (pool m) j) as Hframe.
      { intros j ? ?. rewrite !request_insert by (rewrite ?length_insert; done).
        by rewrite !decide_False by done. }
      split_and!; [done| |done| |].
      * exists (with_next rc (Some new)).
        rewrite request_insert, decide_True by (rewrite ?length_insert; done).
        do 2 (split; [done|]). exists (with_next rn (Some nx)).
        rewrite request_insert, decide_False by (rewrite ?length_insert; done).
        rewrite request_insert, decide_True by done. do 2 (split; [done|]). exists rx.
        rewrite Hframe by done. split; [done|].
        eapply chain_ext; [|done]. intros i Hi. apply Hframe; set_solver.
      * eapply relinked_trans; [by apply relinked_insert|apply relinked_insert| |].
        -- by rewrite request_insert, decide_False.
        -- set_solver.
        -- set_solver.
      * by rewrite (reqs_cons _ _ _ rn), (reqs_cons _ _ _ rx).
    + destruct (IH m nx ids rx) as (p' & ids' & -> & Hch' & Hp & Hrl & Hreq); try done.
      { apply NoDup_cons. split; [set_solver|done]. }
      { simpl in Hf. lia. }
      exists p', (nx :: ids'). split_and!; [done|done| | | |].
      * exists rc. rewrite <- Hnx in Hch'. split; [|done]. unfold request.
        rewrite (rl_frame _ _ _ Hrl); [done|]. set_solver.
      * rewrite Hp. by constructor.
      * eapply relinked_weaken; [done|]. set_solver.
      * by rewrite (reqs_cons _ _ _ rx), Hreq by done.
Qed.

(** ** The manager invariant

    [qs k] lists the slots queued for major [k], in order. *)
Record wf (m : BlockManager) (qs : nat → list nat) : Prop := {
  wf_pool : length (pool m) = REQUEST_POOL_CAPACITY;
  wf_chain : ∀ k, chain (pool m) ((queues m !! k ≫= λ o, o) ≫= current_request) (qs k);
  wf_nodup : ∀ k, NoDup (qs k);
  wf_disjoint : ∀ k k' i, i ∈ qs k → i ∈ qs k' → k = k';
  wf_occupied : ∀ i r, request (pool m) i = Some r → ∃ k, i ∈ qs k;
  wf_major : ∀ k i r, i ∈ qs k → request (pool m) i = Some r →
    Z.to_nat (DevNum_major (dev (io r))) = k;
  wf_reserve : ∀ i r, request (pool m) i = Some r → ty (io r) = Write →
    (i < search_end Write)%nat;
}.

Definition view (m : BlockManager) (qs : nat → list nat) (k : nat) : list BlockRequest :=
  reqs (pool m) (qs k).

Lemma manager_new_wf : wf manager_new (λ _, []).
Proof.
  split; try done.
  - intros k. unfold manager_new; cbn [queues pool chain].
    destruct (replicate BLOCK_DEVICE_SLOT_COUNT None !! k) as [o|] eqn:E; [|done].
    by apply lookup_replicate in E as [-> _].
  - intros k. apply NoDup_nil_2.
  - intros ? ? ? []%elem_of_nil.
  - intros i r Hr%request_Some%lookup_replicate. by destruct Hr.
  - intros ? ? ? []%elem_of_nil.
  - intros i r Hr%request_Some%lookup_replicate. by destruct Hr.
Qed.

Lemma chain_occupied p start ids i : chain p start ids → i ∈ ids → is_Some (request p i).
Proof.
  revert start. induction ids as [|j ids IH]; intros start; [by intros _ ?%elem_of_nil|].
  intros (_ & r & Hr & Hc) [->|Hi]%elem_of_cons; [by eexists|by eapply IH].
Qed.

Lemma queue_occupied m qs k i : wf m qs → i ∈ qs k → is_Some (request (pool m) i).
Proof. intros Hwf. eapply chain_occupied. apply Hwf. Qed.

Lemma reqs_map p ids :
  (∀ i, i ∈ ids → is_Some (request p i)) →
  length (reqs p ids) = length ids ∧
  ∀ n i, ids !! n = Some i → ∃ r, request p i = Some r ∧ reqs p ids !! n = Some (unlink r).
Proof.
  induction ids as [|i ids IH]; intros Hs; [done|].
  destruct (Hs i) as [r Hr]; [by left|].
  destruct IH as [Hl Hn]; [intros j Hj; apply Hs; by right|].
  rewrite (reqs_cons _ _ _ _ Hr). split; [simpl; by rewrite Hl|].
  intros [|n] j; simpl; [intros [= <-]; by exists r|apply Hn].
Qed.

Lemma bounded_length (l : list nat) n : NoDup l → (∀ i, i ∈ l → (i < n)%nat) → (length l ≤ n)%nat.
Proof.
  intros Hnd Hb. rewrite <- (length_seq n 0). apply submseteq_length, NoDup_submseteq; [done|].
  intros i Hi. apply elem_of_seq. specialize (Hb i Hi). lia.
Qed.

Lemma queue_at_lookup m major q :
  queue_at m major = Some q ↔ queues m !! Z.to_nat major = Some (Some q).
Proof.
  unfold queue_at. rewrite bind_Some. split; [by intros (? & ? & ->)|]. intros Hq. by exists (Some q).
Qed.

Lemma set_current_queues m major q c k :
  queue_at m major = Some q →
  (queues (set_current m major c) !! k ≫= λ o, o) ≫= current_request =
    if decide (k = Z.to_nat major) then c
    else (queues m !! k ≫= λ o, o) ≫= current_request.
Proof.
  intros Hq. unfold set_current. rewrite Hq. simpl.
  apply queue_at_lookup in Hq. pose proof (lookup_lt_Some _ _ _ Hq).
  case_decide as E.
  - subst. by rewrite list_lookup_insert_eq.
  - by rewrite list_lookup_insert_ne.
Qed.

Lemma set_current_ops m major c k : driver_ops (set_current m major c) k = driver_ops m k.
Proof.
  unfold set_current. destruct (queue_at m major) as [q|] eqn:Hq; [|done].
  unfold driver_ops. unfold queue_at at 1. simpl.
  apply queue_at_lookup in Hq as Hl. pose proof (lookup_lt_Some _ _ _ Hl).
  destruct (decide (Z.to_nat k = Z.to_nat major)) as [E|].
  - rewrite E, list_lookup_insert_eq by done. simpl. unfold queue_at. by rewrite E, Hl.
  - by rewrite list_lookup_insert_ne.
Qed.

Lemma free_not_queued m qs id k : wf m qs → request (pool m) id = None → id ∉ qs k.
Proof. intros Hwf Hf Hi. destruct (queue_occupied m qs k id Hwf Hi). congruence. Qed.

Definition heads (m : BlockManager) (k : nat) : option nat :=
  (queues m !! k ≫= λ o, o) ≫= current_request.

(** What storing and linking the new slot [id] must establish. *)
Lemma enqueue_wf m qs k0 id r m' ids' :
  wf m qs → pool m !! id = Some None →
  Z.to_nat (DevNum_major (dev (io r))) = k0 → (ty (io r) = Write → (id < search_end Write)%nat) →
  relinked (<[id := Some r]> (pool m)) (pool m') (id :: qs k0) →
  chain (pool m') (heads m' k0) ids' → ids' ≡ₚ id :: qs k0 →
  (∀ k, k ≠ k0 → heads m' k = heads m k) →
  wf m' (<[k0 := ids']> qs) ∧
  (∀ i, unlink <$> request (pool m') i =
        if decide (i = id) then Some (unlink r) else unlink <$> request (pool m) i) ∧
  (∀ k, k ≠ k0 → view m' (<[k0 := ids']> qs) k = view m qs k) ∧
  reqs (pool m') ids' = reqs (<[id := Some r]> (pool m)) ids'.
Proof.
  intros Hwf Hfree Hmaj Hres Hrl Hch Hperm Hheads.
  assert (∀ k, id ∉ qs k) as Hnq.
  { intros k. apply (free_not_queued m); [done|]. unfold request. by rewrite Hfree. }
  assert (∀ i, unlink <$> request (pool m') i =
    if decide (i = id) then Some (unlink r) else unlink <$> request (pool m) i) as Hsame.
  { intros i. rewrite (rl_same _ _ _ Hrl), request_insert by (by eapply lookup_lt_Some).
    do 2 case_decide; congruence || done. }
  assert (∀ i r', request (pool m') i = Some r' →
    (i = id ∧ io r' = io r) ∨ (i ≠ id ∧ ∃ r0, request (pool m) i = Some r0 ∧ io r' = io r0)) as Hio.
  { intros i r' Hr'. specialize (Hsame i). rewrite Hr' in Hsame. simpl in Hsame.
    case_decide; [left|right]; (split; [done|]).
    - apply (inj Some) in Hsame. by injection Hsame as ? ? ? ?.
    - destruct (request (pool m) i) as [r0|]; [|done]. apply (inj Some) in Hsame.
      exists r0. split; [done|]. by injection Hsame as ? ? ? ?. }
  split_and!; [split| | |].
  - rewrite (rl_length _ _ _ Hrl), length_insert. apply Hwf.
  - intros k. destruct (decide (k = k0)) as [->|Hk].
    + by rewrite fn_lookup_insert.
    + rewrite fn_lookup_insert_ne by done. fold (heads m' k). rewrite Hheads by done.
      eapply chain_ext; [|apply Hwf]. intros i Hi. unfold request.
      rewrite (rl_frame _ _ _ Hrl).
      * rewrite list_lookup_insert_ne; [done|]. intros ->. by eapply Hnq.
      * intros [->|Hi0]%elem_of_cons; [by eapply Hnq|]. by eapply Hk, wf_disjoint.
  - intros k. destruct (decide (k = k0)) as [->|Hk].
    + rewrite fn_lookup_insert, Hperm. apply NoDup_cons. split; [done|]. apply Hwf.
    + rewrite fn_lookup_insert_ne by done. apply Hwf.
  - assert (∀ k i, i ∈ <[k0 := ids']> qs k → i = id ∧ k = k0 ∨ i ≠ id ∧ i ∈ qs k) as Hin.
    { intros k i. destruct (decide (k = k0)) as [->|Hk].
      - rewrite fn_lookup_insert, Hperm, elem_of_cons. intros [->|Hi]; [by left|right].
        split; [|done]. intros ->. by eapply Hnq.
      - rewrite fn_lookup_insert_ne by done. intros Hi. right. split; [|done].
        intros ->. by eapply Hnq. }
    intros k k' i [[-> ->]|[? Hi]]%Hin [[? ->]|[? Hi']]%Hin; try done. by eapply wf_disjoint.
  - intros i r' Hr'. destruct (Hio i r' Hr') as [[-> _]|(Hne & r0 & Hr0 & _)].
    + exists k0. rewrite fn_lookup_insert, Hperm. by left.
    + destruct (wf_occupied _ _ Hwf _ _ Hr0) as [k Hk]. exists k.
      destruct (decide (k = k0)) as [->|?].
      * rewrite fn_lookup_insert, Hperm. by right.
      * by rewrite fn_lookup_insert_ne.
  - intros k i r' Hi Hr'. destruct (Hio i r' Hr') as [[-> ->]|(Hne & r0 & Hr0 & ->)].
    + destruct (decide (k = k0)) as [->|?]; [done|].
      rewrite fn_lookup_insert_ne in Hi by done. by destruct (Hnq k).
    + eapply wf_major; [done| |done]. destruct (decide (k = k0)) as [->|?].
      * rewrite fn_lookup_insert, Hperm in Hi. by apply elem_of_cons in Hi as [->|].
      * by rewrite fn_lookup_insert_ne in Hi.
  - intros i r' Hr'. destruct (Hio i r' Hr') as [[-> ->]|(Hne & r0 & Hr0 & ->)]; [done|].
    by eapply wf_reserve.
  - done.
  - intros k Hk. unfold view. rewrite fn_lookup_insert_ne by done. apply reqs_ext.
    intros i Hi. rewrite Hsame, decide_False; [done|]. intros ->. by eapply Hnq.
  - apply reqs_ext. intros i Hi. apply Hrl.
Qed.

(** Storing a request in a free slot and linking it is [enqueue] on its queue;
    the other queues keep their requests, and the driver is kicked exactly when
    the queue was idle. *)
Lemma link_request_spec m qs major q id r :
  wf m qs → pool m !! id = Some None → queue_at m major = Some q →
  next_request r = None → DevNum_major (dev (io r)) = major →
  (ty (io r) = Write → (id < search_end Write)%nat) →
  ∃ m' qs', link_request major id (with_pool m (<[id := Some r]> (pool m))) =
      (Ok (match qs (Z.to_nat major) with [] => Some (ops q) | _ => None end), m') ∧
    wf m' qs' ∧
    view m' qs' (Z.to_nat major) = enqueue (view m qs (Z.to_nat major)) r ∧
    (∀ k, k ≠ Z.to_nat major → view m' qs' k = view m qs k) ∧
    (∀ k, driver_ops m' k = driver_ops m k) ∧
    (∀ i, unlink <$> request (pool m') i =
          if decide (i = id) then Some r else unlink <$> request (pool m) i).
Proof.
  intros Hwf Hfree Hq Hnext Hmaj Hres.
  set (k0 := Z.to_nat major). set (p1 := <[id := Some r]> (pool m)).
  assert (unlink r = r) as Hu by (destruct r; simpl in *; by subst).
  pose proof (lookup_lt_Some _ _ _ Hfree) as Hlt.
  assert (request p1 id = Some r) as Hid by (unfold p1; by rewrite request_insert, decide_True).
  pose proof (wf_chain _ _ Hwf k0) as Hch. pose proof Hq as Hql%queue_at_lookup.
  fold k0 in Hql. rewrite Hql in Hch. simpl in Hch.
  assert (∀ j, j ≠ id → request p1 j = request (pool m) j) as Hp1.
  { intros j Hj. unfold p1. by rewrite request_insert, decide_False. }
  assert (id ∉ qs k0) as Hnq.
  { apply (free_not_queued m); [done|]. unfold request. by rewrite Hfree. }
  unfold link_request. erewrite bind_Ok by (by apply (set_next_eq _ _ (with_pool m p1) r)).
  assert (with_pool (with_pool m p1) (<[id:=Some (with_next r None)]> (pool (with_pool m p1))) =
          with_pool m p1) as ->.
  { unfold with_pool; simpl. f_equal. change (with_next r None) with (unlink r). rewrite Hu.
    by apply list_insert_insert_eq. }
  unfold mget at 1, bind at 1.
  change (queue_at (with_pool m p1) major) with (queue_at m major). rewrite Hq.
  simpl mexpect. unfold mok at 1, bind at 1.
  destruct (qs k0) as [|c ids] eqn:Hqs; simpl in Hch.
  - rewrite Hch. unfold mput, mok, bind.
    set (m' := set_current (with_pool m p1) major (Some id)).
    assert (pool m' = p1) as Hpm by (unfold m', set_current; by destruct (queue_at _ _)).
    edestruct (enqueue_wf m qs k0 id r m' [id]) as (Hwf' & Hs & Hv & Hreq);
      [done|done|by subst|done| | | | |].
    + rewrite Hpm. by split.
    + rewrite Hpm. unfold heads, m'. erewrite set_current_queues by exact Hq.
      rewrite decide_True by done. split; [done|]. by exists r.
    + by rewrite Hqs.
    + intros k Hk. unfold heads, m'. erewrite set_current_queues by exact Hq.
      by rewrite decide_False.
    + eexists _, _. split; [done|]. split_and!; [exact Hwf'| |exact Hv| |].
      * unfold view. rewrite fn_lookup_insert, Hreq. fold p1. rewrite Hqs.
        by rewrite (reqs_cons _ _ _ _ Hid), Hu.
      * intros k. unfold m'. by rewrite set_current_ops.
      * intros i. by rewrite Hs, Hu.
  - destruct Hch as (Hc & rc & Hrc & Hch). rewrite Hc.
    assert (c ≠ id ∧ id ∉ ids) as [? ?] by set_solver.
    destruct (splice_loop_spec REQUEST_POOL_CAPACITY (with_pool m p1) c ids id rc r)
      as (p' & ids' & Hsl & Hch' & Hperm & Hrl & Hreqs'); try done.
    + simpl. by rewrite Hp1.
    + eapply chain_ext; [|done]. intros i Hi. simpl. apply Hp1. by intros ->.
    + apply NoDup_cons. split; [done|]. rewrite <- Hqs. apply Hwf.
    + assert (length (qs k0) ≤ REQUEST_POOL_CAPACITY)%nat as Hl.
      { apply bounded_length; [apply Hwf|]. intros i Hi.
        destruct (queue_occupied _ _ _ _ Hwf Hi) as [? ?%request_lt]. by rewrite <- (wf_pool _ _ Hwf). }
      rewrite Hqs in Hl. simpl in Hl. lia.
    + erewrite bind_Ok by exact Hsl. simpl in Hrl, Hreqs'.
      edestruct (enqueue_wf m qs k0 id r (with_pool m p') (c :: ids')) as (Hwf' & Hs & Hv & Hreq);
        [done|done|by subst|done| | | |done|].
      * rewrite Hqs. done.
      * unfold heads. simpl. rewrite Hql. simpl. by rewrite Hc.
      * rewrite Hqs. rewrite Hperm. by constructor.
      * eexists _, _. split; [done|]. split_and!; [exact Hwf'| |exact Hv|done|].
        -- unfold view. rewrite fn_lookup_insert. simpl pool. simpl pool in Hreq.
           rewrite Hreq. fold p1. rewrite Hqs, (reqs_cons p1 c ids' rc) by (by rewrite Hp1).
           rewrite Hreqs', (reqs_cons (pool m) c ids rc) by done. simpl enqueue.
           f_equal. rewrite Hu. f_equal. apply reqs_ext. intros i Hi. rewrite Hp1; [done|].
           by intros ->.
        -- intros i. rewrite Hs. by rewrite Hu.
Qed.

Lemma request_remove p i j :
  request (<[i := None]> p) j = if decide (i = j) then None else request p j.
Proof.
  unfold request. case_decide as E.
  - subst. destruct (decide (j < length p)%nat).
    + by rewrite list_lookup_insert_eq.
    + rewrite lookup_ge_None_2; [done|]. rewrite length_insert. lia.
  - by rewrite list_lookup_insert_ne.
Qed.

(** Taking the current request removes the head of its queue. *)
Lemma take_current_spec m qs major q :
  wf m qs → queue_at m major = Some q →
  match qs (Z.to_nat major) with
  | [] => take_current_request major m = (Err IO, m)
  | id :: ids => ∃ r m',
      take_current_request major m = (Ok (r, negb (bool_decide (ids = []))), m') ∧
      request (pool m) id = Some r ∧
      wf m' (<[Z.to_nat major := ids]> qs) ∧
      view m qs (Z.to_nat major) = unlink r :: view m' (<[Z.to_nat major := ids]> qs) (Z.to_nat major) ∧
      (∀ k, k ≠ Z.to_nat major → view m' (<[Z.to_nat major := ids]> qs) k = view m qs k) ∧
      (∀ k, driver_ops m' k = driver_ops m k) ∧
      (∀ i, request (pool m') i = if decide (id = i) then None else request (pool m) i)
  end.
Proof.
  intros Hwf Hq. set (k0 := Z.to_nat major).
  pose proof (wf_chain _ _ Hwf k0) as Hch. pose proof Hq as Hql%queue_at_lookup.
  fold k0 in Hql. rewrite Hql in Hch. simpl in Hch. pose proof (wf_nodup _ _ Hwf k0) as Hnd.
  unfold take_current_request. erewrite bind_Ok by done. erewrite bind_Ok by (by rewrite Hq).
  destruct (qs k0) as [|id ids] eqn:Hqs; simpl in Hch; [by rewrite Hch|].
  destruct Hch as (Hc & r & Hr & Hch). erewrite bind_Ok by (by rewrite Hc).
  erewrite bind_Ok by (by rewrite Hr). erewrite bind_Ok by done. unfold mok.
  set (m1 := with_pool m (<[id:=None]> (pool m))). apply NoDup_cons in Hnd as [Hni Hnd].
  assert (pool (set_current m1 major (next_request r)) = pool m1) as Hpm
    by (unfold set_current; by destruct (queue_at _ _)).
  assert (∀ i, request (pool m1) i = if decide (id = i) then None else request (pool m) i) as Hreq
    by (intros; apply request_remove).
  assert (∀ k i, i ∈ <[k0 := ids]> qs k → i ∈ qs k ∧ id ≠ i) as Hin.
  { intros k i. destruct (decide (k = k0)) as [->|Hk].
    - rewrite fn_lookup_insert, Hqs. intros Hi. split; [by right|]. by intros ->.
    - rewrite fn_lookup_insert_ne by done. intros Hi. split; [done|]. intros ->.
      apply Hk. eapply wf_disjoint; [done..|]. rewrite Hqs. by left. }
  exists r, (set_current m1 major (next_request r)).
  assert (∀ k, k ≠ k0 → reqs (pool m1) (qs k) = reqs (pool m) (qs k)) as Hviews.
  { intros k Hk. apply reqs_ext. intros i Hi. rewrite Hreq, decide_False; [done|]. intros ->.
    apply Hk. eapply wf_disjoint; [done..|]. rewrite Hqs. by left. }
  split_and!; [|done|split|..]; rewrite ?Hpm; try done.
  - do 3 f_equal. rewrite <- (bool_decide_not (ids = [])). apply bool_decide_ext.
    destruct ids; simpl in Hch; [rewrite Hch|destruct Hch as [-> _]]; split; try done; by intros [].
  - simpl. rewrite length_insert. apply Hwf.
  - intros k. erewrite (set_current_queues m1 major q) by exact Hq. fold k0.
    case_decide as E; [subst; rewrite fn_lookup_insert|rewrite fn_lookup_insert_ne by done].
    + eapply chain_ext; [|done]. intros i Hi. rewrite Hreq, decide_False; [done|]. by intros ->.
    + eapply chain_ext; [|apply Hwf]. intros i Hi. rewrite Hreq, decide_False; [done|]. intros ->.
      apply E. eapply wf_disjoint; [done..|]. rewrite Hqs. by left.
  - intros k. destruct (decide (k = k0)) as [->|]; [by rewrite fn_lookup_insert|].
    rewrite fn_lookup_insert_ne by done. apply Hwf.
  - intros k k' i [Hi _]%Hin [Hi' _]%Hin. by eapply wf_disjoint.
  - intros i r'. rewrite Hreq. case_decide; [done|]. intros [k Hk]%(wf_occupied _ _ Hwf). exists k.
    destruct (decide (k = k0)) as [->|]; [|by rewrite fn_lookup_insert_ne].
    rewrite fn_lookup_insert. rewrite Hqs in Hk. by apply elem_of_cons in Hk as [->|].
  - intros k i r' [Hi ?]%Hin. rewrite Hreq, decide_False by done. by eapply wf_major.
  - intros i r'. rewrite Hreq. case_decide; [done|]. by eapply wf_reserve.
  - unfold view. rewrite Hpm, fn_lookup_insert, Hqs, (reqs_cons _ _ _ _ Hr). f_equal.
    symmetry. apply reqs_ext. intros i Hi. rewrite Hreq, decide_False; [done|]. by intros ->.
  - intros k Hk. unfold view. rewrite Hpm, fn_lookup_insert_ne by done. by apply Hviews.
  - intros k. by rewrite set_current_ops.
Qed.

(** Updating the current request in place, keeping its parameters and link. *)
Lemma update_current_spec {A} m qs major (f : BlockRequest → A * BlockRequest) id ids r :
  wf m qs → qs (Z.to_nat major) = id :: ids → request (pool m) id = Some r →
  io (f r).2 = io r → next_request (f r).2 = next_request r →
  ∃ m', update_current major f m = (Ok (Some (f r).1), m') ∧ wf m' qs ∧
    view m' qs (Z.to_nat major) = unlink (f r).2 :: tail (view m qs (Z.to_nat major)) ∧
    (∀ k, k ≠ Z.to_nat major → view m' qs k = view m qs k) ∧
    (∀ k, driver_ops m' k = driver_ops m k) ∧
    (∀ i, request (pool m') i = if decide (id = i) then Some (f r).2 else request (pool m) i).
Proof.
  intros Hwf Hqs Hr Hio Hnx. set (k0 := Z.to_nat major) in *.
  pose proof (wf_chain _ _ Hwf k0) as Hch. rewrite Hqs in Hch. destruct Hch as (Hcur & _).
  assert (∀ i, request (<[id := Some (f r).2]> (pool m)) i =
    if decide (id = i) then Some (f r).2 else request (pool m) i) as Hreq.
  { intros i. apply request_insert. by eapply request_lt. }
  exists (with_pool m (<[id := Some (f r).2]> (pool m))).
  split_and!; [|split|..]; simpl; try done; try apply Hwf.
  - unfold update_current, mget. unfold bind at 1.
    assert (current_request_id m major = Some id) as -> by apply Hcur. by rewrite Hr.
  - rewrite length_insert. apply Hwf.
  - intros k. pose proof (wf_chain _ _ Hwf k) as Hch. revert Hch.
    generalize ((queues m !! k ≫= λ o, o) ≫= current_request). generalize (qs k).
    intros l. induction l as [|j l IH]; intros start; simpl; [done|].
    intros (-> & rj & Hrj & Hl). split; [done|]. rewrite Hreq. case_decide as E.
    + subst. exists (f r).2. split; [done|]. rewrite Hnx. apply IH. congruence.
    + exists rj. split; [done|]. by apply IH.
  - intros i r'. rewrite Hreq. case_decide as E; [|apply Hwf]. intros _. exists k0.
    rewrite Hqs, <- E. by left.
  - intros k i r' Hi. rewrite Hreq. case_decide as E; [|by eapply wf_major].
    intros [= <-]. subst. rewrite Hio. by eapply wf_major.
  - intros i r'. rewrite Hreq. case_decide as E; [|by eapply wf_reserve].
    intros [= <-]. subst. rewrite Hio. by eapply wf_reserve.
  - unfold view. rewrite Hqs, (reqs_cons _ _ _ _ Hr). simpl pool.
    erewrite reqs_cons by (by rewrite Hreq, decide_True). simpl. f_equal.
    apply reqs_ext. intros i Hi. rewrite Hreq, decide_False; [done|]. intros ->.
    pose proof (wf_nodup _ _ Hwf k0) as Hnd. rewrite Hqs in Hnd. by apply NoDup_cons in Hnd as [? _].
  - intros k Hk. apply reqs_ext. intros i Hi. simpl. rewrite Hreq, decide_False; [done|]. intros ->.
    apply Hk. eapply wf_disjoint; [done..|]. rewrite Hqs. by left.
Qed.

(** ** Elevator order *)

(** The number of places where the queue does not step up. *)
Fixpoint wraps (l : list BlockRequest) : nat :=
  match l with
  | a :: (b :: _) as t => (if request_in_order a b then 0 else 1) + wraps t
  | _ => 0
  end.

Definition order_key (r : BlockRequest) : Z * Z * Z :=
  (ty_code (ty (io r)), dev (io r), next_sector (progress r)).

Lemma request_in_order_spec a b :
  request_in_order a b = true ↔
  ty_code (ty (io a)) < ty_code (ty (io b)) ∨
  ty_code (ty (io a)) = ty_code (ty (io b)) ∧
    (dev (io a) < dev (io b) ∨
     dev (io a) = dev (io b) ∧ next_sector (progress a) < next_sector (progress b)).
Proof.
  unfold request_in_order.
  destruct (Z.compare_spec (ty_code (ty (io a))) (ty_code (ty (io b)))),
    (Z.compare_spec (dev (io a)) (dev (io b))),
    (Z.compare_spec (next_sector (progress a)) (next_sector (progress b)));
    split; try done; try lia; intros; tauto || lia.
Qed.

Lemma request_in_order_total a b :
  order_key a ≠ order_key b → request_in_order a b = false → request_in_order b a = true.
Proof.
  intros Hne Hab. apply request_in_order_spec.
  assert (¬ request_in_order a b = true) as Hn by congruence.
  rewrite request_in_order_spec in Hn.
  destruct (decide (ty_code (ty (io a)) = ty_code (ty (io b)))) as [E1|]; [|lia].
  destruct (decide (dev (io a) = dev (io b))) as [E2|]; [|lia].
  destruct (decide (next_sector (progress a) = next_sector (progress b))) as [E3|]; [|lia].
  destruct Hne. unfold order_key. congruence.
Qed.

Lemma wraps_cons a b l :
  wraps (a :: b :: l) = ((if request_in_order a b then 0 else 1) + wraps (b :: l))%nat.
Proof. done. Qed.

Lemma insert_after_sorted cur rest new :
  (∀ r, r ∈ cur :: rest → order_key r ≠ order_key new) →
  wraps (cur :: rest) = 0%nat → request_in_order cur new = true →
  wraps (cur :: insert_after cur rest new) = 0%nat.
Proof.
  revert cur. induction rest as [|next rest IH]; intros cur Hne Hw Hcn.
  - simpl. by rewrite Hcn.
  - rewrite wraps_cons in Hw. destruct (request_in_order cur next) eqn:Hcx; [|done].
    simpl insert_after. rewrite Hcn, Hcx. cbn [andb orb negb].
    destruct (request_in_order new next) eqn:Hnx.
    + rewrite !wraps_cons, Hcn, Hnx. done.
    + rewrite wraps_cons, Hcx. apply IH; [|done|].
      * intros r Hr. apply Hne. by right.
      * apply request_in_order_total; [|done]. symmetry. apply Hne. right. by left.
Qed.

(** Inserting keeps at most one wrap point. *)
Lemma insert_after_wraps cur rest new :
  (∀ r, r ∈ cur :: rest → order_key r ≠ order_key new) →
  (wraps (cur :: rest) ≤ 1)%nat → (wraps (cur :: insert_after cur rest new) ≤ 1)%nat.
Proof.
  revert cur. induction rest as [|next rest IH]; intros cur Hne Hw.
  - simpl. destruct (request_in_order cur new); lia.
  - rewrite wraps_cons in Hw. simpl insert_after.
    assert (∀ r, r ∈ next :: rest → order_key r ≠ order_key new) as Hne'
      by (intros r Hr; apply Hne; by right).
    destruct (request_in_order cur next) eqn:Hcx; cbn [negb].
    + rewrite orb_false_r.
      destruct (request_in_order cur new) eqn:Hcn, (request_in_order new next) eqn:Hnx;
        cbn [andb]; rewrite ?wraps_cons, ?Hcn, ?Hnx, ?Hcx; cbn [Nat.add] in *; try lia; by apply IH.
    + rewrite orb_true_r. destruct (request_in_order new next) eqn:Hnx; cbn [andb].
      * rewrite !wraps_cons, Hnx. destruct (request_in_order cur new); lia.
      * rewrite wraps_cons, Hcx. rewrite insert_after_sorted; [lia|done|lia|].
        apply request_in_order_total; [|done]. symmetry. apply Hne'. by left.
Qed.

Lemma enqueue_wraps l new :
  (∀ r, r ∈ l → order_key r ≠ order_key new) → (wraps l ≤ 1)%nat → (wraps (enqueue l new) ≤ 1)%nat.
Proof. destruct l as [|h rest]; simpl; [lia|]. apply insert_after_wraps. Qed.

Lemma enqueue_perm l new : enqueue l new ≡ₚ new :: l.
Proof.
  destruct l as [|h rest]; [done|]. simpl.
  assert (∀ c, insert_after c rest new ≡ₚ new :: rest) as H.
  { induction rest as [|x rest IH]; intros c; [done|]. simpl.
    destruct (_ && _); [done|]. rewrite IH. constructor. }
  rewrite H. constructor.
Qed.

(** The head of the queue stays in flight. *)
Lemma enqueue_head l new h : head l = Some h → head (enqueue l new) = Some h.
Proof. by destruct l. Qed.

(** Everything but the head is where it was put. *)
Lemma enqueue_tail l new r : r ∈ tail (enqueue l new) → r = new ∨ r ∈ tail l.
Proof.
  destruct l as [|h rest]; simpl; [by intros ?%elem_of_nil|].
  assert (∀ c, r ∈ insert_after c rest new → r = new ∨ r ∈ rest) as H.
  { induction rest as [|x rest IH]; intros c; simpl.
    - intros ?%list_elem_of_singleton. by left.
    - destruct (_ && _); rewrite !elem_of_cons; [naive_solver|].
      intros [->|Hr]; [by right; left|]. apply IH in Hr. tauto. }
  apply H.
Qed.

Lemma wraps_tail l : (wraps (tail l) ≤ wraps l)%nat.
Proof. destruct l as [|a [|b l]]; simpl; lia. Qed.

(** ** Submission and completion on the lists *)

(** What identifies a pending request. *)
Definition pio (m : BlockManager) (i : nat) : option (BlockRequestIo * RequestPayload) :=
  (λ r, (io r, payload r)) <$> request (pool m) i.

Definition pool_ios (p : list (option BlockRequest)) : list BlockRequestIo :=
  omap (λ o, io <$> o) p.

Lemma pio_unlink m i o : pio m i = Some o ↔
  ∃ r, (unlink <$> request (pool m) i) = Some r ∧ o = (io r, payload r).
Proof.
  unfold pio. destruct (request (pool m) i) as [r|]; simpl.
  - split; [intros [= <-]; by exists (unlink r)|]. intros (r' & [= <-] & ->). done.
  - split; [done|]. by intros (? & ? & _).
Qed.

Lemma pool_ios_split p i o :
  p !! i = Some o →
  pool_ios p = pool_ios (take i p) ++ option_list (io <$> o) ++ pool_ios (drop (S i) p).
Proof.
  intros Hi. rewrite <- (take_drop_middle _ _ _ Hi) at 1. unfold pool_ios.
  rewrite omap_app. f_equal. by destruct o.
Qed.

Lemma pool_ios_insert p i o o' :
  p !! i = Some o' →
  pool_ios (<[i := o]> p) = pool_ios (take i p) ++ option_list (io <$> o) ++ pool_ios (drop (S i) p).
Proof.
  intros Hi. pose proof (lookup_lt_Some _ _ _ Hi).
  rewrite insert_take_drop by done. unfold pool_ios. rewrite omap_app. f_equal. by destruct o.
Qed.

Lemma pool_ios_store p i r :
  p !! i = Some None → pool_ios (<[i := Some r]> p) ≡ₚ io r :: pool_ios p.
Proof.
  intros Hi. rewrite (pool_ios_insert _ _ _ _ Hi), (pool_ios_split _ _ _ Hi). simpl.
  by rewrite Permutation_middle.
Qed.

Lemma pool_ios_remove p i r :
  request p i = Some r → pool_ios p ≡ₚ io r :: pool_ios (<[i := None]> p).
Proof.
  intros Hi%request_Some. rewrite (pool_ios_insert _ _ _ _ Hi), (pool_ios_split _ _ _ Hi). simpl.
  by rewrite Permutation_middle.
Qed.

Lemma pool_ios_same p p' :
  length p' = length p → (∀ i, io <$> request p' i = io <$> request p i) → pool_ios p' = pool_ios p.
Proof.
  revert p'. induction p as [|o p IH]; intros [|o' p'] Hl Hs; try done. simpl in Hl.
  pose proof (Hs 0%nat) as H0. unfold request in H0. simpl in H0.
  assert (∀ x l, pool_ios (x :: l) = option_list (io <$> x) ++ pool_ios l) as Hc
    by (by intros [?|] l).
  rewrite !Hc. f_equal.
  - destruct o, o'; simpl in *; congruence.
  - apply IH; [lia|]. intros i. exact (Hs (S i)).
Qed.

(** The request built for buffer [x] under key [k]. *)
Definition new_request (t : BlockRequestType) (b : nat) (k : Z * Z) (x : Buffer) : BlockRequest :=
  let i := mkIo k.1 t (as_u32 (k.2 * BUFFER_BLOCK_SECTOR_COUNT)) BUFFER_BLOCK_SECTOR_COUNT (addr x) in
  mkRequest i (mkProgress (first_sector i) (sector_count i) (data_addr i)) 0 (BufferCache b) None.

Lemma find_free_slot_Some p t id :
  find_free_slot p t = Some id →
  p !! id = Some None ∧ (id < search_end t)%nat ∧
  (∀ j, (id < j < search_end t)%nat → (j < length p)%nat → is_Some (request p j)).
Proof.
  intros [(o & Ho & Hf) Hmax]%rposition_Some.
  apply lookup_take_Some in Ho as [Ho Hlt]. split_and!; [|done|].
  - by destruct o.
  - intros j [Hj Hje] Hl. destruct (lookup_lt_is_Some_2 p j Hl) as [[r|] Hr].
    + exists r. by apply request_Some.
    + assert (is_free None = false) as He; [|by vm_compute in He].
      apply (Hmax j); [done|]. apply lookup_take_Some. by split.
Qed.

Lemma release_io_eq w b x :
  bufs w !! b = Some x → io_locked x = true →
  release_io b w = (Ok (), mkWorld (mgr w) (alter (set_locked false) b (bufs w))).
Proof.
  intros Hb Hl. unfold release_io. erewrite bind_Ok by done. rewrite Hb.
  erewrite bind_Ok by done. by rewrite Hl.
Qed.

(** Once the I/O lock is held, submission never panics: it queues the request
    in the highest free slot its type may use, or waits, or (for a prefetch)
    gives up and releases the lock. *)
Lemma submit_slot_spec t p b k x q w qs :
  wf (mgr w) qs → bufs w !! b = Some x → io_locked x = true →
  queue_at (mgr w) (DevNum_major k.1) = Some q →
  let k0 := Z.to_nat (DevNum_major k.1) in
  let r := new_request t b k x in
  match find_free_slot (pool (mgr w)) t with
  | None => submit_slot t p b k w =
      if p then (Ok Done, mkWorld (mgr w) (alter (set_locked false) b (bufs w)))
      else (Ok WaitSlot, w)
  | Some id => ∃ kick m' qs',
      submit_slot t p b k w = (Ok (Queued kick), mkWorld m' (alter (set_dirty false) b (bufs w))) ∧
      kick = match qs k0 with [] => Some (ops q) | _ => None end ∧
      pool (mgr w) !! id = Some None ∧ wf m' qs' ∧
      view m' qs' k0 = enqueue (view (mgr w) qs k0) r ∧
      (∀ j, j ≠ k0 → view m' qs' j = view (mgr w) qs j) ∧
      (∀ j, driver_ops m' j = driver_ops (mgr w) j) ∧
      (∀ i, unlink <$> request (pool m') i =
            if decide (i = id) then Some r else unlink <$> request (pool (mgr w)) i)
  end.
Proof.
  intros Hwf Hb Hl Hq k0 r. unfold submit_slot. erewrite bind_Ok by done.
  destruct (find_free_slot (pool (mgr w)) t) as [id|] eqn:Hf.
  - apply find_free_slot_Some in Hf as (Hfree & Hlt & _).
    edestruct (link_request_spec (mgr w) qs (DevNum_major k.1) q id r)
      as (m' & qs' & Hlink & Hwf' & Hv & Hvo & Ho & Hs); [done..|by intros <-|].
    eexists _, m', qs'. split_and!; [|reflexivity|done|done|done|done|done|done].
    rewrite Hb. erewrite bind_Ok by done. erewrite bind_Ok by done.
    erewrite bind_Ok; [done|]. unfold add_request. erewrite bind_Ok by done. simpl mgr.
    erewrite bind_Ok.
    2:{ simpl pool. rewrite request_insert, decide_True by (done || by eapply lookup_lt_Some).
        reflexivity. }
    erewrite bind_Ok by reflexivity. unfold lift. cbn [mgr bufs with_mgr].
    fold (new_request t b k x). fold r. by rewrite Hlink.
  - destruct p; [|done]. erewrite bind_Ok by (by eapply release_io_eq). done.
Qed.

(** Completion hands the head of the queue back to its buffer. *)
Lemma complete_current_spec major w qs q success :
  wf (mgr w) qs → queue_at (mgr w) major = Some q →
  match qs (Z.to_nat major) with
  | [] => complete_current major success w = (Ok Idle, w)
  | id :: ids => ∃ r, request (pool (mgr w)) id = Some r ∧
      ∀ b x, payload r = BufferCache b → bufs w !! b = Some x → io_locked x = true →
      ∃ m', complete_current major success w =
          (Ok (if bool_decide (ids = []) then Idle else More),
           mkWorld m' (alter (set_locked false) b (alter (set_up_to_date success) b (bufs w)))) ∧
        wf m' (<[Z.to_nat major := ids]> qs) ∧
        view m' (<[Z.to_nat major := ids]> qs) (Z.to_nat major) = tail (view (mgr w) qs (Z.to_nat major)) ∧
        (∀ k, k ≠ Z.to_nat major → view m' (<[Z.to_nat major := ids]> qs) k = view (mgr w) qs k) ∧
        (∀ k, driver_ops m' k = driver_ops (mgr w) k) ∧
        (∀ i, request (pool m') i = if decide (id = i) then None else request (pool (mgr w)) i)
  end.
Proof.
  intros Hwf Hq. pose proof (take_current_spec _ _ _ _ Hwf Hq) as Hs.
  unfold complete_current. destruct (qs (Z.to_nat major)) as [|id ids].
  - erewrite bind_Ok by (unfold mtry, lift; by rewrite Hs). simpl. by destruct w.
  - destruct Hs as (r & m' & Htake & Hr & Hwf' & Hv & Hvo & Ho & Hreq).
    exists r. split; [done|]. intros b x Hp Hb Hl. exists m'.
    split_and!; try done; [|by rewrite Hv].
    erewrite bind_Ok by (unfold mtry, lift; by rewrite Htake). cbv beta iota. rewrite Hp.
    erewrite bind_Ok.
    2:{ erewrite bind_Ok by reflexivity. eapply release_io_eq; [|].
        - simpl. rewrite lookup_alter_eq, Hb. reflexivity.
        - done. }
    simpl. by destruct (bool_decide (ids = [])).
Qed.

(** ** The layer as a transition system

    [starting] lists the submitters that are to take their buffer's I/O lock,
    [waiting] those that hold it and look for a request slot; the histories
    record the parameters of the requests queued and completed so far. *)
Record Sys : Type := mkSys {
  world : World;
  starting : list (BlockRequestType * nat * (Z * Z));
  waiting : list (BlockRequestType * nat * (Z * Z));
  submitted : list BlockRequestIo;
  completed : list BlockRequestIo;
}.

Definition panicked {A} (r : result A) : bool := match r with Panic => true | _ => false end.

Definition with_world (s : Sys) (w : World) : Sys := mkSys w (starting s) (waiting s) (submitted s) (completed s).
Definition with_bufs (s : Sys) (f : gmap nat Buffer → gmap nat Buffer) : Sys :=
  with_world s (mkWorld (mgr (world s)) (f (bufs (world s)))).

(** The buffers of a list of submitters. *)
Definition buffers_of (l : list (BlockRequestType * nat * (Z * Z))) : list nat := (λ e, e.1.2) <$> l.

(** A successful sector transfer that leaves sectors to do. *)
Definition transfer (r : BlockRequest) : bool * BlockRequest :=
  match advance_one_sector (clear_errors r) with
  | Some r' => (true, r')
  | None => (false, r)
  end.

#[global] Instance SubmitStep_eq_dec : EqDecision SubmitStep.
Proof. solve_decision. Defined.

(** [step s p s']: one operation; [p] tells whether it panicked.  Buffer flags
    may change at any time; a buffer is rebound to a key no other buffer has,
    while no I/O is in flight on it and no submission of it has begun.  The
    latter is what the layer asks of the cache: a request carries the key its
    submitter read before it slept.  Sector numbers being 32 bits wide, block
    numbers have 31. *)
Inductive step (s : Sys) : bool → Sys → Prop :=
| step_register major o r m' :
    queue_at (mgr (world s)) major = None →
    (Z.to_nat major < length (queues (mgr (world s))))%nat →
    register_driver major o (mgr (world s)) = (r, m') →
    step s (panicked r) (with_world s (with_mgr (world s) m'))
| step_flags b u d :
    step s false (with_bufs s (alter (λ x, mkBuffer (key x) u d (io_locked x) (addr x)) b))
| step_rebind b k x :
    bufs (world s) !! b = Some x → io_locked x = false → is_uint 31 k.2 →
    (∀ b' x', bufs (world s) !! b' = Some x' → key x' ≠ Some k) →
    b ∉ buffers_of (starting s) →
    step s false (with_bufs s (<[b := mkBuffer (Some k) false false false (addr x)]>))
| step_begin t p b k x r w' :
    bufs (world s) !! b = Some x → key x = Some k →
    submit_begin p b (world s) = (r, w') →
    step s (panicked r)
      (mkSys w' (if decide (r = Ok NeedLock) then (t, b, k) :: starting s else starting s)
         (waiting s) (submitted s) (completed s))
| step_lock i t b k r w' :
    starting s !! i = Some (t, b, k) → submit_lock t b (world s) = (r, w') →
    step s (panicked r)
      (mkSys w' (if decide (r = Ok WaitIo) then starting s else delete i (starting s))
         (if decide (r = Ok NeedSlot) then (t, b, k) :: waiting s else waiting s)
         (submitted s) (completed s))
| step_slot i t p b k x r w' :
    waiting s !! i = Some (t, b, k) → bufs (world s) !! b = Some x →
    submit_slot t p b k (world s) = (r, w') →
    step s (panicked r)
      (mkSys w' (starting s) (if decide (r = Ok WaitSlot) then waiting s else delete i (waiting s))
         (match r with Ok (Queued _) => submitted s ++ [io (new_request t b k x)] | _ => submitted s end)
         (completed s))
| step_transfer major id r o m' :
    current_request_id (mgr (world s)) major = Some id →
    request (pool (mgr (world s))) id = Some r → 1 < remaining_sectors (progress r) →
    update_current major transfer (mgr (world s)) = (o, m') →
    step s (panicked o) (with_world s (with_mgr (world s) m'))
| step_error major max_errors o m' :
    update_current major (λ r, record_error r max_errors) (mgr (world s)) = (o, m') →
    step s (panicked o) (with_world s (with_mgr (world s) m'))
| step_complete major success r w' :
    complete_current major success (world s) = (r, w') →
    step s (panicked r)
      (mkSys w' (starting s) (waiting s) (submitted s)
         (completed s ++ option_list (io <$> (current_request_id (mgr (world s)) major ≫=
                                              request (pool (mgr (world s))))))).

(** *** The buffers' side of the invariant *)

Record binv (f : nat → option (BlockRequestIo * RequestPayload)) (bs : gmap nat Buffer)
    (wl : list (BlockRequestType * nat * (Z * Z))) : Prop := {
  b_pending : ∀ i o p, f i = Some (o, p) → ∃ b x k,
    p = BufferCache b ∧ bs !! b = Some x ∧ io_locked x = true ∧ key x = Some k ∧
    dev o = k.1 ∧ first_sector o = k.2 * 2 ∧ b ∉ buffers_of wl;
  b_unique : ∀ i j oi oj p, f i = Some (oi, p) → f j = Some (oj, p) → i = j;
  b_waiting : ∀ t b k, (t, b, k) ∈ wl →
    ∃ x, bs !! b = Some x ∧ io_locked x = true ∧ key x = Some k;
  b_nodup : NoDup (buffers_of wl);
  b_keys : ∀ b b' x x' k, bs !! b = Some x → bs !! b' = Some x' →
    key x = Some k → key x' = Some k → b = b';
  b_block : ∀ b x k, bs !! b = Some x → key x = Some k → is_uint 31 k.2;
}.

(** An update of one buffer that keeps its key; [lk] says how the lock moves. *)
Lemma binv_alter f bs wl g b :
  binv f bs wl → (∀ x, key (g x) = key x) →
  ((∀ x, io_locked (g x) = io_locked x) ∨
   ((b ∉ buffers_of wl) ∧ (∀ i o, f i ≠ Some (o, BufferCache b)))) →
  binv f (alter g b bs) wl.
Proof.
  intros [Hp Hu Hw Hn Hk Hb] Hkey Hlock.
  assert (∀ b' y, alter g b bs !! b' = Some y →
    ∃ x, bs !! b' = Some x ∧ key y = key x) as Hinv.
  { intros b' y. rewrite lookup_alter_Some. intros [(<- & x & Hx & ->)|[_ Hx]]; [by exists x|by exists y]. }
  assert (∀ b' x, bs !! b' = Some x → (b' = b → io_locked (g x) = io_locked x) →
    ∃ y, alter g b bs !! b' = Some y ∧ key y = key x ∧ io_locked y = io_locked x) as Hfwd.
  { intros b' x Hx Hl. destruct (decide (b' = b)) as [->|].
    - exists (g x). rewrite lookup_alter_eq, Hx. split_and!; auto.
    - exists x. by rewrite lookup_alter_ne. }
  split; [|done| |done| |].
  - intros i o p Hi. destruct (Hp i o p Hi) as (b' & x & k & -> & Hx & Hl & Hxk & ? & ? & ?).
    destruct (Hfwd b' x Hx) as (y & ? & ? & ?).
    { intros ->. destruct Hlock as [Hsl|[_ Hnp]]; [apply Hsl|]. by destruct (Hnp i o). }
    exists b', y, k. split_and!; congruence.
  - intros t b' k Hin. destruct (Hw t b' k Hin) as (x & Hx & Hl & Hxk).
    destruct (Hfwd b' x Hx) as (y & ? & ? & ?).
    { intros ->. destruct Hlock as [Hsl|[Hnw _]]; [apply Hsl|]. destruct Hnw.
      apply list_elem_of_fmap. by exists (t, b, k). }
    exists y. split_and!; congruence.
  - intros b1 b2 y1 y2 k (x1 & ? & ->)%Hinv (x2 & ? & ->)%Hinv. by eapply Hk.
  - intros b1 y1 k (x1 & ? & ->)%Hinv. by eapply Hb.
Qed.

Lemma binv_ext f f' bs wl : binv f bs wl → (∀ i, f' i = f i) → binv f' bs wl.
Proof.
  intros [Hp Hu ? ? ? ?] Heq. split; try done.
  - intros i o p. rewrite Heq. apply Hp.
  - intros i j oi oj p. rewrite !Heq. apply Hu.
Qed.

Lemma binv_rebind f bs wl b x k x' :
  binv f bs wl → bs !! b = Some x → io_locked x = false → is_uint 31 k.2 →
  (∀ b' x', bs !! b' = Some x' → key x' ≠ Some k) → key x' = Some k →
  binv f (<[b := x']> bs) wl.
Proof.
  intros [Hp Hu Hw Hn Hk Hb] Hx Hl Hu31 Hfresh Hx'. split; [|done| |done| |].
  - intros i o p Hi. destruct (Hp i o p Hi) as (b' & y & k' & -> & Hy & ? & ? & ? & ? & ?).
    exists b', y, k'. rewrite lookup_insert_ne by congruence. done.
  - intros t b' k' Hin. destruct (Hw t b' k' Hin) as (y & Hy & ? & ?).
    exists y. rewrite lookup_insert_ne by congruence. done.
  - intros b1 b2 y1 y2 k1. rewrite !lookup_insert_Some.
    intros [[<- <-]|[? H1]] [[<- <-]|[? H2]] E1 E2; [done| | |by eapply Hk].
    + destruct (Hfresh b2 y2 H2). congruence.
    + destruct (Hfresh b1 y1 H1). congruence.
  - intros b1 y1 k1. rewrite lookup_insert_Some. intros [[<- <-]|[? H1]]; [congruence|].
    by apply (Hb b1).
Qed.

Lemma binv_lock f bs wl t b x k :
  binv f bs wl → bs !! b = Some x → io_locked x = false → key x = Some k →
  binv f (alter (set_locked true) b bs) ((t, b, k) :: wl).
Proof.
  intros Hinv Hx Hl Hk.
  assert (b ∉ buffers_of wl) as Hnw.
  { intros ([[t' b'] k'] & -> & Hin)%list_elem_of_fmap.
    destruct (b_waiting _ _ _ Hinv _ _ _ Hin) as (y & ? & ? & ?). simpl in *. congruence. }
  assert (∀ i o, f i ≠ Some (o, BufferCache b)) as Hnp.
  { intros i o Hi. destruct (b_pending _ _ _ Hinv _ _ _ Hi) as (b' & y & k' & [= <-] & ? & ? & _).
    congruence. }
  destruct (binv_alter f bs wl (set_locked true) b Hinv) as [Hp Hu Hw Hn Hkk Hb]; [done|by right|].
  split; try done.
  - intros i o p Hi. destruct (Hp i o p Hi) as (b' & y & k' & -> & ? & ? & ? & ? & ? & Hni).
    exists b', y, k'. split_and!; try done. unfold buffers_of; simpl.
    intros [->|?]%elem_of_cons; [by destruct (Hnp i o)|done].
  - intros t' b' k' [[= -> -> ->]|Hin]%elem_of_cons; [|by eapply Hw].
    exists (set_locked true x). by rewrite lookup_alter_eq, Hx.
  - unfold buffers_of; simpl. by apply NoDup_cons.
Qed.

Lemma buffers_of_delete wl i t b k :
  wl !! i = Some (t, b, k) → buffers_of wl ≡ₚ b :: buffers_of (delete i wl).
Proof.
  intros Hi. unfold buffers_of. by rewrite (delete_Permutation _ _ _ Hi) at 1.
Qed.

(** The entry leaves the waiting list without a request, unlocking its buffer. *)
Lemma binv_cancel f bs wl i t b k :
  binv f bs wl → wl !! i = Some (t, b, k) → binv f (alter (set_locked false) b bs) (delete i wl).
Proof.
  intros Hinv Hi. pose proof (buffers_of_delete _ _ _ _ _ Hi) as Hperm.
  assert (∀ e, e ∈ delete i wl → e ∈ wl) as Hsub.
  { intros e He. rewrite (delete_Permutation _ _ _ Hi). by right. }
  assert (b ∉ buffers_of (delete i wl)) as Hnw.
  { pose proof (b_nodup _ _ _ Hinv) as Hnd. rewrite Hperm in Hnd. by apply NoDup_cons in Hnd as []. }
  apply binv_alter; [|done|].
  - destruct Hinv as [Hp Hu Hw Hn Hk Hb]. split; try done.
    + intros j o p Hj. destruct (Hp j o p Hj) as (b' & y & k' & -> & ? & ? & ? & ? & ? & Hni).
      exists b', y, k'. split_and!; try done. rewrite Hperm in Hni. set_solver.
    + intros t' b' k' Hin. by apply (Hw t'), Hsub.
    + rewrite Hperm in Hn. by apply NoDup_cons in Hn as [].
  - right. split; [done|]. intros j o Hj.
    destruct (b_pending _ _ _ Hinv _ _ _ Hj) as (b' & y & k' & [= <-] & _ & _ & _ & _ & _ & Hni).
    apply Hni. rewrite Hperm. by left.
Qed.

(** The entry's request is queued in the free slot [id]. *)
Lemma binv_queue f f' bs wl i t b k x id :
  binv f bs wl → wl !! i = Some (t, b, k) → bs !! b = Some x → f id = None →
  (∀ j, f' j = if decide (j = id) then Some (io (new_request t b k x), BufferCache b) else f j) →
  binv f' (alter (set_dirty false) b bs) (delete i wl).
Proof.
  intros Hinv Hi Hx Hid Hf'. pose proof (buffers_of_delete _ _ _ _ _ Hi) as Hperm.
  destruct (b_waiting _ _ _ Hinv t b k) as (x' & Hx' & Hl & Hk).
  { by eapply list_elem_of_lookup_2. }
  assert (x' = x) as -> by congruence.
  assert (∀ j o, f j ≠ Some (o, BufferCache b)) as Hnp.
  { intros j o Hj.
    destruct (b_pending _ _ _ Hinv _ _ _ Hj) as (b' & y & k' & [= <-] & _ & _ & _ & _ & _ & Hni).
    apply Hni. rewrite Hperm. by left. }
  assert (b ∉ buffers_of (delete i wl)) as Hnw.
  { pose proof (b_nodup _ _ _ Hinv) as Hnd. rewrite Hperm in Hnd. by apply NoDup_cons in Hnd as []. }
  apply binv_alter; [|done|by left].
  destruct Hinv as [Hp Hu Hw Hn Hkk Hb]. split; try done.
  - intros j o p. rewrite Hf'. case_decide as E.
    + intros [= <- <-]. exists b, x, k. split_and!; try done. simpl. apply wrap_small.
      pose proof (Hb b x k Hx Hk) as Hb31. unfold is_uint, BUFFER_BLOCK_SECTOR_COUNT in *. lia.
    + intros Hj. destruct (Hp j o p Hj) as (b' & y & k' & -> & ? & ? & ? & ? & ? & Hni).
      exists b', y, k'. split_and!; try done. rewrite Hperm in Hni. set_solver.
  - intros j j' oj oj' p. rewrite !Hf'. do 2 case_decide; subst; try done.
    + intros [= _ <-] Hj. by destruct (Hnp j' oj').
    + intros Hj [= _ <-]. by destruct (Hnp j oj).
    + by apply Hu.
  - intros t' b' k' Hin. apply (Hw t'). rewrite (delete_Permutation _ _ _ Hi). by right.
  - rewrite Hperm in Hn. by apply NoDup_cons in Hn as [].
Qed.

(** The request in slot [id] completes. *)
Lemma binv_complete f f' bs wl id o b g :
  binv f bs wl → f id = Some (o, BufferCache b) → (∀ x, key (g x) = key x) →
  (∀ j, f' j = if decide (id = j) then None else f j) → binv f' (alter g b bs) wl.
Proof.
  intros Hinv Hid Hg Hf'.
  destruct (b_pending _ _ _ Hinv _ _ _ Hid) as (b' & y & k' & [= <-] & _ & _ & _ & _ & _ & Hni).
  apply binv_alter; [|done|].
  - destruct Hinv as [Hp Hu Hw Hn Hk Hb]. split; try done.
    + intros j o' p. rewrite Hf'. case_decide; [done|]. apply Hp.
    + intros j j' oj oj' p. rewrite !Hf'. do 2 (case_decide; [done|]). apply Hu.
  - right. split; [done|]. intros j o'. rewrite Hf'. case_decide as E; [done|]. intros Hj.
    by apply E, (b_unique _ _ _ Hinv _ _ _ _ _ Hid Hj).
Qed.

(** *** The whole invariant *)

(** How far a queued request has come: only the head has started. *)
Definition progressed (n : nat) (r : BlockRequest) : Prop :=
  next_sector (progress r) = first_sector (io r) + (2 - remaining_sectors (progress r)) ∧
  1 ≤ remaining_sectors (progress r) ≤ 2 ∧ (n ≠ 0%nat → remaining_sectors (progress r) = 2).

(** A submission that has begun knows the key its buffer has. *)
Definition starts_ok (m : BlockManager) (bs : gmap nat Buffer)
    (st : list (BlockRequestType * nat * (Z * Z))) : Prop :=
  ∀ t b k, (t, b, k) ∈ st →
    (∃ x, bs !! b = Some x ∧ key x = Some k) ∧ is_Some (queue_at m (DevNum_major k.1)).

Record sinv (s : Sys) (qs : nat → list nat) : Prop := {
  s_wf : wf (mgr (world s)) qs;
  s_b : binv (pio (mgr (world s))) (bufs (world s)) (waiting s);
  s_start : starts_ok (mgr (world s)) (bufs (world s)) (starting s);
  s_ops : ∀ t b k, (t, b, k) ∈ waiting s →
    is_Some (queue_at (mgr (world s)) (DevNum_major k.1));
  s_progress : ∀ k n r, view (mgr (world s)) qs k !! n = Some r → progressed n r;
  s_order : ∀ k, (wraps (view (mgr (world s)) qs k) ≤ 1)%nat;
  s_hist : submitted s ≡ₚ completed s ++ pool_ios (pool (mgr (world s)));
}.

Lemma view_lookup m qs k n r :
  wf m qs → view m qs k !! n = Some r →
  ∃ i r0, qs k !! n = Some i ∧ request (pool m) i = Some r0 ∧ r = unlink r0.
Proof.
  intros Hwf Hn. destruct (reqs_map (pool m) (qs k)) as [Hl Hi].
  { intros i. by apply queue_occupied. }
  destruct (lookup_lt_is_Some_2 (qs k) n) as [i Hqi].
  { rewrite <- Hl. by eapply lookup_lt_Some. }
  destruct (Hi n i Hqi) as (r0 & Hr0 & Hv). exists i, r0. split_and!; [done|done|].
  unfold view in Hn. congruence.
Qed.

(** A request for another block never ties with the new one: sectors of queued
    requests start even and the head is at most one sector on. *)
Lemma fresh_key s qs t b k x r j :
  sinv s qs → (t, b, k) ∈ waiting s → bufs (world s) !! b = Some x →
  r ∈ view (mgr (world s)) qs j → order_key r ≠ order_key (new_request t b k x).
Proof.
  intros [Hwf Hb _ _ Hpr _ _] Hin Hx [n Hn]%list_elem_of_lookup Heq.
  destruct (view_lookup _ _ _ _ _ Hwf Hn) as (i & r0 & _ & Hr0 & ->).
  destruct (Hpr _ _ _ Hn) as (Hnext & Hrem & _).
  destruct (b_waiting _ _ _ Hb _ _ _ Hin) as (x' & Hx' & _ & Hk). assert (x' = x) as -> by congruence.
  destruct (b_pending _ _ _ Hb i (io r0) (payload r0)) as (b' & y & k' & _ & Hy & _ & Hk' & Hd & Hf & Hni).
  { unfold pio. by rewrite Hr0. }
  pose proof (b_block _ _ _ Hb _ _ _ Hx Hk) as Hu. unfold order_key in Heq. simpl in Heq.
  injection Heq as Ht Hdev Hsec. rewrite wrap_small in Hsec
    by (unfold is_uint, BUFFER_BLOCK_SECTOR_COUNT in *; lia).
  simpl in Hnext, Hrem. unfold BUFFER_BLOCK_SECTOR_COUNT in Hsec.
  assert (k' = k) as ->.
  { destruct k as [k1 k2], k' as [k1' k2']; simpl in *. f_equal; [congruence|lia]. }
  assert (b' = b) as -> by (by eapply (b_keys _ _ _ Hb)).
  apply Hni. apply list_elem_of_fmap. by exists (t, b, k).
Qed.

Lemma enqueue_lookup l new n r :
  enqueue l new !! n = Some r → r = new ∨ (n ≠ 0%nat ∧ r ∈ tail l) ∨ (l !! n = Some r ∧ n = 0%nat).
Proof.
  destruct l as [|h rest]; [destruct n; simpl; naive_solver|].
  destruct n as [|n]; simpl; [intros; right; by right|]. intros Hn%list_elem_of_lookup_2.
  assert (r ∈ tail (enqueue (h :: rest) new)) as [?|?]%enqueue_tail by done; [by left|].
  right; left. by split.
Qed.

Lemma enqueue_progress l new :
  (∀ n r, l !! n = Some r → progressed n r) → (∀ n, progressed n new) →
  ∀ n r, enqueue l new !! n = Some r → progressed n r.
Proof.
  intros Hl Hnew n r [->|[[Hn Hr]|[Hr ->]]]%enqueue_lookup; [apply Hnew| |by apply Hl].
  apply list_elem_of_lookup in Hr as [j Hj].
  assert (l !! S j = Some r) as (? & ? & ?)%Hl by (by destruct l).
  split_and!; [done|lia|lia|]. auto.
Qed.

Lemma progressed_new n t b k x :
  is_uint 31 k.2 → progressed n (new_request t b k x).
Proof.
  intros. unfold progressed, new_request, BUFFER_BLOCK_SECTOR_COUNT; simpl. lia.
Qed.

Lemma progressed_weaken n r : progressed n r → (∀ m, n ≠ 0%nat → progressed m r).
Proof. intros (? & ? & ?) m ?. split_and!; try done; lia. Qed.

Lemma tail_progress l :
  (∀ n r, l !! n = Some r → progressed n r) → ∀ n r, tail l !! n = Some r → progressed n r.
Proof.
  intros Hl n r Hn. destruct l as [|h l]; [done|]. simpl in Hn.
  eapply (progressed_weaken (S n)); [by apply (Hl (S n))|done].
Qed.

Lemma queue_at_ops m m' : (∀ k, driver_ops m' k = driver_ops m k) →
  ∀ k, is_Some (queue_at m k) → is_Some (queue_at m' k).
Proof.
  intros Ho k [q Hq]. specialize (Ho k). unfold driver_ops in Ho. rewrite Hq in Ho.
  destruct (queue_at m' k); [by eexists|done].
Qed.

Lemma starts_alter m bs st g b :
  (∀ x, key (g x) = key x) → starts_ok m bs st → starts_ok m (alter g b bs) st.
Proof.
  intros Hg Hst t b' k Hin. destruct (Hst t b' k Hin) as [(x & Hx & Hk) ?]. split; [|done].
  destruct (decide (b = b')) as [<-|].
  - exists (g x). rewrite lookup_alter_eq, Hx. by rewrite Hg.
  - exists x. by rewrite lookup_alter_ne.
Qed.

Lemma starts_ops m m' bs st :
  (∀ k, is_Some (queue_at m k) → is_Some (queue_at m' k)) →
  starts_ok m bs st → starts_ok m' bs st.
Proof. intros Ho Hst t b k Hin. destruct (Hst t b k Hin). split; [done|]. by apply Ho. Qed.

Lemma starts_sub m bs st st' : (∀ e, e ∈ st' → e ∈ st) → starts_ok m bs st → starts_ok m bs st'.
Proof. intros Hsub Hst t b k Hin. by apply (Hst t), Hsub. Qed.

Lemma starts_rebind m bs st b x' :
  (b ∉ buffers_of st) → starts_ok m bs st → starts_ok m (<[b := x']> bs) st.
Proof.
  intros Hb Hst t b' k Hin. destruct (Hst t b' k Hin) as [(x & ? & ?) ?]. split; [|done].
  exists x. rewrite lookup_insert_ne; [done|]. intros ->. destruct Hb.
  apply list_elem_of_fmap. by exists (t, b', k).
Qed.

(** Only the buffers or the lists of submitters changed. *)
Lemma sinv_bufs s qs bs st wl :
  sinv s qs → binv (pio (mgr (world s))) bs wl → starts_ok (mgr (world s)) bs st →
  (∀ t b k, (t, b, k) ∈ wl → is_Some (queue_at (mgr (world s)) (DevNum_major k.1))) →
  sinv (mkSys (mkWorld (mgr (world s)) bs) st wl (submitted s) (completed s)) qs.
Proof. intros [? ? ? ? ? ? ?] Hb Hst Ho. by split. Qed.

Lemma elem_delete {A} (l : list A) i x e : l !! i = Some x → e ∈ delete i l → e ∈ l.
Proof. intros Hi He. rewrite (delete_Permutation _ _ _ Hi). by right. Qed.

Lemma inv_register s qs major o r m' :
  sinv s qs → queue_at (mgr (world s)) major = None →
  (Z.to_nat major < length (queues (mgr (world s))))%nat →
  register_driver major o (mgr (world s)) = (r, m') →
  panicked r = false ∧ sinv (with_world s (with_mgr (world s) m')) qs.
Proof.
  intros [Hwf Hb Hst Ho Hp Hord Hh] Hq Hlt. unfold register_driver.
  erewrite bind_Ok by done. rewrite bool_decide_eq_true_2 by lia. intros [= <- <-].
  split; [done|].
  match goal with |- sinv (with_world _ (with_mgr _ ?m')) _ =>
    assert (∀ j, is_Some (queue_at (mgr (world s)) j) → is_Some (queue_at m' j)) as Hmono end.
  { intros j [q' Hq']. exists q'. rewrite <- Hq'. unfold queue_at. simpl.
    destruct (decide (Z.to_nat major = Z.to_nat j)) as [E|].
    - unfold queue_at in Hq, Hq'. rewrite E in Hq. congruence.
    - by rewrite list_lookup_insert_ne. }
  split; try done.
  - destruct Hwf. split; try done. intros k. simpl. specialize (wf_chain0 k).
    destruct (decide (Z.to_nat major = k)) as [<-|].
    + rewrite list_lookup_insert_eq by lia. unfold queue_at in Hq. by rewrite Hq in wf_chain0.
    + by rewrite list_lookup_insert_ne.
  - by eapply starts_ops.
  - intros t b k Hin. by apply Hmono, (Ho t b).
Qed.

Lemma relock (bs : gmap nat Buffer) b x : bs !! b = Some x → io_locked x = false →
  alter (set_locked false) b (alter (set_locked true) b bs) = bs.
Proof.
  intros Hx Hl.
  apply map_eq. intros j. destruct (decide (b = j)) as [<-|].
  - rewrite !lookup_alter_eq, Hx. simpl. f_equal. destruct x; simpl in *. by subst.
  - by rewrite !lookup_alter_ne.
Qed.

(** The start of a submission. *)
Lemma inv_begin s qs t p b k x r w' :
  sinv s qs → bufs (world s) !! b = Some x → key x = Some k →
  submit_begin p b (world s) = (r, w') →
  panicked r = false ∧
  sinv (mkSys w' (if decide (r = Ok NeedLock) then (t, b, k) :: starting s else starting s)
         (waiting s) (submitted s) (completed s)) qs.
Proof.
  intros Hinv Hx Hk Hr. unfold submit_begin in Hr. erewrite bind_Ok in Hr by done.
  rewrite Hx in Hr. erewrite bind_Ok in Hr by done. rewrite Hk in Hr.
  assert (sinv (mkSys (world s) (starting s) (waiting s) (submitted s) (completed s)) qs) as Hsame
    by (by destruct s).
  destruct (is_registered_major _ _) eqn:Hreg; cbn [negb] in Hr;
    [|injection Hr as <- <-; by rewrite decide_False].
  destruct (p && io_locked x); injection Hr as <- <-; [by rewrite decide_False|].
  rewrite decide_True by done. split; [done|]. destruct Hinv as [? ? Hst ? ? ? ?]. split; try done.
  intros t' b' k' [[= -> -> ->]|Hin]%elem_of_cons; [|by apply (Hst t')].
  split; [by exists x|]. unfold is_registered_major, driver_ops in Hreg.
  apply bool_decide_eq_true in Hreg. by apply fmap_is_Some in Hreg.
Qed.

(** Taking the I/O lock. *)
Lemma inv_lock s qs i t b k r w' :
  sinv s qs → starting s !! i = Some (t, b, k) → submit_lock t b (world s) = (r, w') →
  panicked r = false ∧
  sinv (mkSys w' (if decide (r = Ok WaitIo) then starting s else delete i (starting s))
         (if decide (r = Ok NeedSlot) then (t, b, k) :: waiting s else waiting s)
         (submitted s) (completed s)) qs.
Proof.
  intros Hinv Hi Hr. pose proof (s_start _ _ Hinv) as Hst.
  destruct (Hst t b k) as [(x & Hx & Hk) Hreg]; [by eapply list_elem_of_lookup_2|].
  assert (starts_ok (mgr (world s)) (bufs (world s)) (delete i (starting s))) as Hst'.
  { eapply starts_sub; [|done]. intros e. by apply (elem_delete _ _ _ _ Hi). }
  revert Hr. unfold submit_lock. erewrite bind_Ok by done. rewrite Hx. erewrite bind_Ok by done.
  destruct (io_locked x) eqn:Hl.
  { intros [= <- <-]. rewrite decide_True, decide_False by done. split; [done|]. by destruct s. }
  erewrite bind_Ok by reflexivity. destruct (_ || _).
  - unfold bind at 1. erewrite release_io_eq; [|simpl; by rewrite lookup_alter_eq, Hx|done].
    simpl. rewrite relock with (x := x) by done. intros [= <- <-].
    rewrite !decide_False by done. split; [done|].
    apply sinv_bufs; [done|apply Hinv|done|apply Hinv].
  - intros [= <- <-]. rewrite decide_False, decide_True by done. split; [done|].
    apply sinv_bufs; [done| |by apply starts_alter|].
    + by eapply binv_lock; [apply Hinv|..].
    + intros t' b' k' [[= -> -> ->]|Hin]%elem_of_cons; [done|by eapply s_ops].
Qed.

(** Queueing, waiting or giving up. *)
Lemma inv_slot s qs i t p b k x r w' :
  sinv s qs → waiting s !! i = Some (t, b, k) → bufs (world s) !! b = Some x →
  submit_slot t p b k (world s) = (r, w') →
  panicked r = false ∧ ∃ qs',
  sinv (mkSys w' (starting s) (if decide (r = Ok WaitSlot) then waiting s else delete i (waiting s))
         (match r with Ok (Queued _) => submitted s ++ [io (new_request t b k x)] | _ => submitted s end)
         (completed s)) qs' ∧ (∀ j, driver_ops (mgr w') j = driver_ops (mgr (world s)) j).
Proof.
  intros Hinv Hi Hx Hr. pose proof (list_elem_of_lookup_2 _ _ _ Hi) as Hin.
  destruct (b_waiting _ _ _ (s_b _ _ Hinv) _ _ _ Hin) as (x' & Hx' & Hl & Hk).
  assert (x' = x) as -> by congruence.
  destruct (s_ops _ _ Hinv _ _ _ Hin) as [q Hq].
  pose proof (submit_slot_spec t p b k x q (world s) qs (s_wf _ _ Hinv) Hx Hl Hq) as Hs.
  simpl in Hs. destruct (find_free_slot _ _) as [id|].
  - destruct Hs as (kick & m' & qs' & Hs & _ & Hfree & Hwf' & Hv & Hvo & Ho & Hp).
    rewrite Hs in Hr. injection Hr as <- <-. rewrite decide_False by done.
    split; [done|]. exists qs'. split; [|done].
    assert (∀ j, pio m' j = if decide (j = id) then Some (io (new_request t b k x), BufferCache b)
                            else pio (mgr (world s)) j) as Hpio.
    { intros j. specialize (Hp j). unfold pio. case_decide.
      - destruct (request (pool m') j) as [r1|]; [|done]. apply (inj Some) in Hp.
        destruct r1; simpl in *. injection Hp as -> _ _ ->. done.
      - destruct (request (pool m') j) as [r1|], (request (pool (mgr (world s))) j) as [r2|];
          try done. apply (inj Some) in Hp. destruct r1, r2; simpl in *.
        injection Hp as -> _ _ ->. done. }
    assert (is_uint 31 k.2) as Hu by (by eapply (b_block _ _ _ (s_b _ _ Hinv))).
    split; simpl; [done| | | | | |].
    + eapply binv_queue; [apply Hinv|done|done| |done].
      unfold pio, request. by rewrite Hfree.
    + apply (starts_ops (mgr (world s))); [by apply queue_at_ops|].
      apply starts_alter; [done|apply Hinv].
    + intros t' b' k' Hin'. apply (queue_at_ops _ _ Ho). eapply s_ops; [done|].
      by eapply elem_delete.
    + intros j n r'. destruct (decide (j = Z.to_nat (DevNum_major k.1))) as [->|].
      * rewrite Hv. apply enqueue_progress; [apply (s_progress _ _ Hinv)|].
        intros. by apply progressed_new.
      * rewrite Hvo by done. apply (s_progress _ _ Hinv).
    + intros j. destruct (decide (j = Z.to_nat (DevNum_major k.1))) as [->|].
      * rewrite Hv. apply enqueue_wraps; [|apply Hinv]. intros r' Hr'. by eapply fresh_key.
      * rewrite Hvo by done. apply Hinv.
    + rewrite (pool_ios_same (<[id := Some (new_request t b k x)]> (pool (mgr (world s))))).
      * rewrite (pool_ios_store _ _ _ Hfree), (s_hist _ _ Hinv). by solve_Permutation.
      * by rewrite length_insert, (wf_pool _ _ (s_wf _ _ Hinv)), (wf_pool _ _ Hwf').
      * intros j. rewrite request_insert by (by eapply lookup_lt_Some).
        specialize (Hpio j). unfold pio in Hpio. destruct (decide (id = j)) as [E|E].
        -- rewrite decide_True in Hpio by done. destruct (request (pool m') j); simpl in *; congruence.
        -- rewrite decide_False in Hpio by done.
           destruct (request (pool m') j), (request (pool (mgr (world s))) j); simpl in *; congruence.
  - rewrite Hs in Hr. destruct p; injection Hr as <- <-.
    + rewrite decide_False by done. split; [done|]. exists qs. split; [|done].
      apply sinv_bufs; [done| |apply starts_alter; [done|apply Hinv]|].
      * eapply binv_cancel; [apply Hinv|done].
      * intros t' b' k' Hin'. eapply s_ops; [done|]. by eapply elem_delete.
    + rewrite decide_True by done. split; [done|]. exists qs. split; [|done]. by destruct s.
Qed.

Lemma heads_cons m qs major id :
  wf m qs → current_request_id m major = Some id →
  ∃ ids r, qs (Z.to_nat major) = id :: ids ∧ request (pool m) id = Some r ∧
    is_Some (queue_at m major).
Proof.
  intros Hwf Hc. pose proof (wf_chain _ _ Hwf (Z.to_nat major)) as Hch.
  unfold current_request_id, queue_at in *. rewrite Hc in Hch.
  destruct (qs (Z.to_nat major)) as [|j ids]; simpl in Hch; [done|].
  destruct Hch as ([= ->] & r & Hr & _). exists ids, r. split_and!; [done|done|].
  destruct (queues m !! Z.to_nat major ≫= _); [by eexists|done].
Qed.

Lemma pending_even s qs i r :
  sinv s qs → request (pool (mgr (world s))) i = Some r → ∃ n, first_sector (io r) = n * 2.
Proof.
  intros Hinv Hr.
  destruct (b_pending _ _ _ (s_b _ _ Hinv) i (io r) (payload r))
    as (_ & _ & k & _ & _ & _ & _ & _ & Hf & _); [|by exists k.2].
  unfold pio. by rewrite Hr.
Qed.

Lemma pending_range s qs i r :
  sinv s qs → request (pool (mgr (world s))) i = Some r → 0 ≤ first_sector (io r) ≤ 2 ^ 32 - 2.
Proof.
  intros Hinv Hr.
  destruct (b_pending _ _ _ (s_b _ _ Hinv) i (io r) (payload r))
    as (b & x & k & _ & Hx & _ & Hk & _ & Hf & _); [unfold pio; by rewrite Hr|].
  pose proof (b_block _ _ _ (s_b _ _ Hinv) _ _ _ Hx Hk). unfold is_uint in *. lia.
Qed.

(** Moving on by a sector does not move the head past its successor. *)
Lemma order_stable r r' y n m :
  io r' = io r → progressed 0 r → progressed 0 r' → progressed (S n) y →
  (∃ a, first_sector (io r) = a * 2) → first_sector (io y) = m * 2 →
  request_in_order r' y = request_in_order r y.
Proof.
  intros Hio (H1 & H2 & _) (H3 & H4 & _) (H5 & _ & H6) [a Ha] Hm. specialize (H6 ltac:(lia)).
  apply eq_bool_prop_intro. rewrite !Is_true_true, !request_in_order_spec, !Hio.
  rewrite Hio in H3. lia.
Qed.

(** An update of the head in place that keeps what identifies it and stays in
    order with its successor. *)
Lemma inv_update {A} s qs major (f : BlockRequest → A * BlockRequest) o m' :
  sinv s qs → update_current major f (mgr (world s)) = (o, m') →
  (∀ r, io (f r).2 = io r ∧ payload (f r).2 = payload r ∧ next_request (f r).2 = next_request r) →
  (∀ id r, current_request_id (mgr (world s)) major = Some id →
    request (pool (mgr (world s))) id = Some r → progressed 0 r →
    0 ≤ first_sector (io r) ≤ 2 ^ 32 - 2 → progressed 0 (f r).2) →
  panicked o = false ∧ sinv (with_world s (with_mgr (world s) m')) qs ∧
  (∀ j, driver_ops m' j = driver_ops (mgr (world s)) j).
Proof.
  intros Hinv Hup Hkeep Hprog.
  destruct (current_request_id (mgr (world s)) major) as [id|] eqn:Hc.
  2:{ unfold update_current in Hup. erewrite bind_Ok in Hup by done. rewrite Hc in Hup.
      injection Hup as <- <-. split_and!; try done. by destruct s as [[] ? ? ?]. }
  destruct (heads_cons _ _ _ _ (s_wf _ _ Hinv) Hc) as (ids & r & Hqs & Hr & _).
  destruct (Hkeep r) as (Hio & Hpay & Hnx).
  destruct (update_current_spec _ qs major f id ids r (s_wf _ _ Hinv) Hqs Hr Hio Hnx)
    as (m1 & Hup1 & Hwf1 & Hv & Hvo & Ho & Hreq).
  rewrite Hup1 in Hup. injection Hup as <- <-. 
  assert (progressed 0 r) as Hpr0.
  { apply (s_progress _ _ Hinv (Z.to_nat major) 0 (unlink r)). unfold view.
    by rewrite Hqs, (reqs_cons _ _ _ _ Hr). }
  specialize (Hprog id r eq_refl Hr Hpr0 (pending_range _ _ _ _ Hinv Hr)).
  assert (∀ j, pio m1 j = pio (mgr (world s)) j) as Hpio.
  { intros j. unfold pio. rewrite Hreq. case_decide as E; [|done]. subst. rewrite Hr. simpl.
    by rewrite Hio, Hpay. }
  split; [done|]. split; [|done]. split; simpl; [done| | | | | |].
  - eapply binv_ext; [apply Hinv|done].
  - apply (starts_ops (mgr (world s))); [by apply queue_at_ops|apply Hinv].
  - intros t b k Hin. apply (queue_at_ops _ _ Ho). by eapply s_ops.
  - intros k n r'. destruct (decide (k = Z.to_nat major)) as [->|].
    + rewrite Hv. destruct n as [|n]; simpl; [intros [= <-]; done|]. intros Hn.
      eapply (s_progress _ _ Hinv). by rewrite <- lookup_tail.
    + rewrite Hvo by done. apply (s_progress _ _ Hinv).
  - intros k. destruct (decide (k = Z.to_nat major)) as [->|]; [|rewrite Hvo by done; apply Hinv].
    rewrite Hv. pose proof (s_order _ _ Hinv (Z.to_nat major)) as Hord.
    pose proof (s_progress _ _ Hinv (Z.to_nat major)) as Hpr.
    unfold view in *. rewrite Hqs in *. rewrite (reqs_cons _ _ _ _ Hr) in *. simpl tail.
    destruct (reqs (pool (mgr (world s))) ids) as [|y l] eqn:Hl; [simpl; lia|].
    rewrite wraps_cons in *.
    assert (request_in_order (unlink (f r).2) y = request_in_order (unlink r) y) as ->; [|done].
    assert (y ∈ view (mgr (world s)) qs (Z.to_nat major)) as [j Hj]%list_elem_of_lookup.
    { unfold view. rewrite Hqs, (reqs_cons _ _ _ _ Hr), Hl. right. by left. }
    destruct (view_lookup _ _ _ _ _ (s_wf _ _ Hinv) Hj) as (iy & ry & _ & Hry & ->).
    destruct (pending_even _ _ _ _ Hinv Hry) as [m Hm].
    eapply (order_stable _ _ _ 0 m); [done| |done|by apply (Hpr 1%nat)| |done].
    + by apply (Hpr 0%nat).
    + exact (pending_even _ _ _ _ Hinv Hr).
  - rewrite (pool_ios_same (pool (mgr (world s)))); [apply Hinv| |].
    + by rewrite (wf_pool _ _ Hwf1), (wf_pool _ _ (s_wf _ _ Hinv)).
    + intros j. rewrite Hreq. case_decide as E; [|done]. subst. rewrite Hr. simpl. by rewrite Hio.
Qed.

(** Completing the head of a queue. *)
Lemma inv_complete s qs major success r w' :
  sinv s qs → complete_current major success (world s) = (r, w') →
  panicked r = false ∧ ∃ qs',
  sinv (mkSys w' (starting s) (waiting s) (submitted s)
         (completed s ++ option_list (io <$> (current_request_id (mgr (world s)) major ≫=
                                              request (pool (mgr (world s))))))) qs' ∧
  (∀ j, driver_ops (mgr w') j = driver_ops (mgr (world s)) j).
Proof.
  intros Hinv Hr.
  destruct (current_request_id (mgr (world s)) major) as [id|] eqn:Hc.
  - destruct (heads_cons _ _ _ _ (s_wf _ _ Hinv) Hc) as (ids & r0 & Hqs & Hr0 & [q Hq]).
    pose proof (complete_current_spec major (world s) qs q success (s_wf _ _ Hinv) Hq) as Hs.
    rewrite Hqs in Hs. destruct Hs as (r1 & Hr1 & Hs). assert (r1 = r0) as -> by congruence.
    assert (pio (mgr (world s)) id = Some (io r0, payload r0)) as Hpid
      by (unfold pio; by rewrite Hr0).
    destruct (b_pending _ _ _ (s_b _ _ Hinv) _ _ _ Hpid) as (b & x & k & Hp & Hx & Hl & _).
    destruct (Hs b x Hp Hx Hl) as (m' & Hcc & Hwf' & Hv & Hvo & Ho & Hreq).
    rewrite Hcc in Hr. injection Hr as <- <-. split; [done|].
    exists (<[Z.to_nat major := ids]> qs). split; [|done]. simpl. rewrite Hr0. simpl.
    assert (∀ j, pio m' j = if decide (id = j) then None else pio (mgr (world s)) j) as Hpio.
    { intros j. unfold pio. rewrite Hreq. by case_decide. }
    split; simpl; [done| | | | | |].
    + apply binv_alter; [|done|].
      * eapply binv_complete; [apply (s_b _ _ Hinv)|by rewrite Hpid, Hp|done|done].
      * right. rewrite Hp in Hpid. split.
        -- by destruct (b_pending _ _ _ (s_b _ _ Hinv) _ _ _ Hpid)
             as (? & ? & ? & [= <-] & _ & _ & _ & _ & _ & ?).
        -- intros j o. rewrite Hpio. case_decide as E; [done|]. intros Hj.
           by apply E, (b_unique _ _ _ (s_b _ _ Hinv) _ _ _ _ _ Hpid Hj).
    + apply (starts_ops (mgr (world s))); [by apply queue_at_ops|].
      apply starts_alter; [done|apply starts_alter; [done|apply Hinv]].
    + intros t' b' k' Hin. apply (queue_at_ops _ _ Ho). by eapply s_ops.
    + intros j n r'. destruct (decide (j = Z.to_nat major)) as [->|].
      * rewrite Hv. apply tail_progress. apply (s_progress _ _ Hinv).
      * rewrite Hvo by done. apply (s_progress _ _ Hinv).
    + intros j. destruct (decide (j = Z.to_nat major)) as [->|]; [|rewrite Hvo by done; apply Hinv].
      rewrite Hv. pose proof (wraps_tail (view (mgr (world s)) qs (Z.to_nat major))).
      pose proof (s_order _ _ Hinv (Z.to_nat major)). lia.
    + rewrite (s_hist _ _ Hinv), (pool_ios_remove _ _ _ Hr0), <- app_assoc. simpl.
      rewrite (pool_ios_same (<[id := None]> (pool (mgr (world s)))) (pool m')); [done| |].
      * by rewrite length_insert, (wf_pool _ _ (s_wf _ _ Hinv)), (wf_pool _ _ Hwf').
      * intros j. rewrite Hreq, request_remove. by case_decide.
  - assert (complete_current major success (world s) = (Ok Idle, world s)) as E.
    { assert (∃ e, mtry (lift (take_current_request major)) (world s) = (Ok (inr e), world s))
        as [e He]; [|unfold complete_current; by erewrite bind_Ok by exact He].
      unfold mtry, lift, take_current_request. unfold current_request_id in Hc.
      erewrite bind_Ok by done. destruct (queue_at (mgr (world s)) major) as [q|].
      - erewrite bind_Ok by done. simpl in Hc. rewrite Hc. exists IO. simpl. by destruct (world s).
      - exists NODEV. simpl. by destruct (world s). }
    rewrite E in Hr. injection Hr as <- <-. split; [done|]. exists qs. split; [|done].
    simpl. rewrite app_nil_r. by destruct s.
Qed.

(** An empty manager over unlocked buffers. *)
Definition initial (bs : gmap nat Buffer) : Sys := mkSys (mkWorld manager_new bs) [] [] [] [].

(** No buffer is bound or locked before the layer is used. *)
Definition fresh_buffers (bs : gmap nat Buffer) : Prop :=
  ∀ b x, bs !! b = Some x → key x = None.

Lemma initial_sinv bs : fresh_buffers bs → sinv (initial bs) (λ _, []).
Proof.
  intros Hfresh.
  assert (∀ i, request pool_new i = None) as Hnone.
  { intros i. destruct (request pool_new i) as [r|] eqn:Hr; [|done].
    apply request_Some, lookup_replicate in Hr as [? _]. done. }
  split; simpl; [apply manager_new_wf| | | | | |done].
  - split; try done.
    + intros i o p. unfold pio. simpl. by rewrite Hnone.
    + intros i j oi oj p. unfold pio. simpl. by rewrite Hnone.
    + by intros ? ? ? ?%elem_of_nil.
    + apply NoDup_nil_2.
    + intros b b' x x' k Hx _ Hk. by rewrite (Hfresh _ _ Hx) in Hk.
    + intros b x k Hx Hk. by rewrite (Hfresh _ _ Hx) in Hk.
  - by intros ? ? ? ?%elem_of_nil.
  - by intros ? ? ? ?%elem_of_nil.
  - by intros k n r ?.
  - intros k. simpl. lia.
Qed.

Lemma step_sinv s qs p s' : sinv s qs → step s p s' → p = false ∧ ∃ qs', sinv s' qs'.
Proof.
  intros Hinv. destruct 1 as [major o r m' Hq Hlt Hr|b u d|b k x Hx Hl Hu Hfr Hns|t p b k x r w' Hx Hk Hr
    |i t b k r w' Hi Hr|i t p b k x r w' Hi Hx Hr|major id r o m' Hc Hr Hrem Hup|major me o m' Hup|major success r w' Hr].
  - destruct (inv_register _ _ _ _ _ _ Hinv Hq Hlt Hr). eauto.
  - split; [done|]. exists qs.
    apply sinv_bufs; [done| |apply starts_alter; [done|apply Hinv]|apply Hinv].
    apply binv_alter; [apply Hinv|done|by left].
  - split; [done|]. exists qs.
    apply sinv_bufs; [done| |apply starts_rebind; [done|apply Hinv]|apply Hinv].
    by eapply binv_rebind; [apply Hinv|..].
  - destruct (inv_begin _ _ t _ _ _ _ _ _ Hinv Hx Hk Hr). eauto.
  - destruct (inv_lock _ _ _ _ _ _ _ _ Hinv Hi Hr). eauto.
  - destruct (inv_slot _ _ _ _ _ _ _ _ _ _ Hinv Hi Hx Hr) as (? & qs' & ? & _). eauto.
  - assert (∀ r, remaining_sectors (progress r) ≠ 0 ∧ (transfer r).2 =
      mkRequest (io r) (mkProgress (wrapping_add (next_sector (progress r)) 1)
        (remaining_sectors (progress r) - 1) (next_data_addr (progress r) + SECTOR_SIZE)) 0
        (payload r) (next_request r) ∨ (transfer r).2 = r) as Ht.
    { intros r1. unfold transfer, advance_one_sector. simpl.
      destruct (Z.eqb_spec (remaining_sectors (progress r1)) 0); [by right|by left]. }
    destruct (inv_update s qs major transfer o m' Hinv Hup) as (? & ? & _); [| |by eauto].
    + intros r1. by destruct (Ht r1) as [[_ ->]| ->].
    + intros id' r1 Hc' Hr'. assert (id' = id) as -> by congruence.
      assert (r1 = r) as -> by congruence. destruct (Ht r) as [[_ ->]| ->]; simpl.
      * intros (Hn & Hre & _) Hf. split; simpl; [|lia]. rewrite Hn. unfold wrapping_add.
        rewrite wrap_small; [lia|]. unfold is_uint. lia.
      * done.
  - destruct (inv_update s qs major _ o m' Hinv Hup) as (? & ? & _); [done| |by eauto].
    by intros id r _ _ ? _.
  - destruct (inv_complete _ _ _ _ _ _ Hinv Hr) as (? & qs' & ? & _). eauto.
Qed.

(** ** Properties *)

Definition reachable (bs : gmap nat Buffer) (s : Sys) : Prop :=
  rtc (λ s s', ∃ p, step s p s') (initial bs) s.

Lemma reachable_sinv bs s : fresh_buffers bs → reachable bs s → ∃ qs, sinv s qs.
Proof.
  intros Hf Hr. pose proof (initial_sinv bs Hf) as H0. unfold reachable in Hr.
  revert H0. generalize (λ _ : nat, @nil nat). induction Hr as [|s1 s2 s3 [p Hst] _ IH].
  - eauto.
  - intros qs Hinv. destruct (step_sinv _ _ _ _ Hinv Hst) as (_ & qs' & Hinv'). eauto.
Qed.

(** The queue of a major, read off the pool by following the links. *)
Fixpoint walk (fuel : nat) (p : list (option BlockRequest)) (start : option nat) :
    list BlockRequest :=
  match fuel, start with
  | S fuel', Some i =>
      match request p i with
      | Some r => unlink r :: walk fuel' p (next_request r)
      | None => []
      end
  | _, _ => []
  end.

Definition queue_list (m : BlockManager) (major : Z) : list BlockRequest :=
  walk REQUEST_POOL_CAPACITY (pool m) (current_request_id m major).

Lemma walk_chain fuel p start ids :
  chain p start ids → (length ids ≤ fuel)%nat → walk fuel p start = reqs p ids.
Proof.
  revert start ids. induction fuel as [|fuel IH]; intros start ids Hch Hl.
  { destruct ids; [done|simpl in Hl; lia]. }
  destruct ids as [|i ids]; simpl in Hch; [by subst|].
  destruct Hch as (-> & r & Hr & Hch). simpl in Hl. cbn [walk]. rewrite Hr, (reqs_cons _ _ _ _ Hr).
  f_equal. apply IH; [done|lia].
Qed.

Lemma queue_list_view m qs major : wf m qs → queue_list m major = view m qs (Z.to_nat major).
Proof.
  intros Hwf. apply walk_chain; [apply Hwf|]. apply bounded_length; [apply Hwf|].
  intros i Hi. destruct (queue_occupied _ _ _ _ Hwf Hi) as [? ?%request_lt].
  by rewrite <- (wf_pool _ _ Hwf).
Qed.

(** C2: in every reachable state no operation panics, every queued request is
    either completed or still in the pool, exactly once, no two pending
    requests are for the same block, and the upper third of the pool never
    holds a write, so a read is kept waiting only by that many reads. *)
Theorem block_requests_conserved bs s :
  fresh_buffers bs → reachable bs s →
  (∀ p s', step s p s' → p = false) ∧
  submitted s ≡ₚ completed s ++ pool_ios (pool (mgr (world s))) ∧
  (∀ i j ri rj, request (pool (mgr (world s))) i = Some ri →
     request (pool (mgr (world s))) j = Some rj →
     dev (io ri) = dev (io rj) → first_sector (io ri) = first_sector (io rj) → i = j) ∧
  (find_free_slot (pool (mgr (world s))) Read = None →
     ∀ i, (search_end Write ≤ i < REQUEST_POOL_CAPACITY)%nat →
     ∃ r, request (pool (mgr (world s))) i = Some r ∧ ty (io r) = Read).
Proof.
  intros Hf Hr. destruct (reachable_sinv _ _ Hf Hr) as [qs Hinv]. split_and!.
  - intros p s' Hst. by destruct (step_sinv _ _ _ _ Hinv Hst).
  - apply Hinv.
  - intros i j ri rj Hri Hrj Hd Hs.
    destruct (b_pending _ _ _ (s_b _ _ Hinv) i (io ri) (payload ri))
      as (b1 & x1 & k1 & Hp1 & Hx1 & _ & Hk1 & Hd1 & Hf1 & _); [unfold pio; by rewrite Hri|].
    destruct (b_pending _ _ _ (s_b _ _ Hinv) j (io rj) (payload rj))
      as (b2 & x2 & k2 & Hp2 & Hx2 & _ & Hk2 & Hd2 & Hf2 & _); [unfold pio; by rewrite Hrj|].
    assert (k2 = k1) as ->.
    { destruct k1, k2; simpl in *. f_equal; [congruence|lia]. }
    assert (b1 = b2) as -> by (by eapply (b_keys _ _ _ (s_b _ _ Hinv))).
    eapply (b_unique _ _ _ (s_b _ _ Hinv) i j (io ri) (io rj) (BufferCache b2)); unfold pio.
    + by rewrite Hri, <- Hp1.
    + by rewrite Hrj, <- Hp2.
  - intros Hnone i Hi. unfold find_free_slot in Hnone. rewrite rposition_None in Hnone.
    pose proof (wf_pool _ _ (s_wf _ _ Hinv)) as Hl.
    destruct (lookup_lt_is_Some_2 (pool (mgr (world s))) i) as [o Ho]; [lia|].
    assert (is_free o = false) as Hocc.
    { apply Hnone. apply list_elem_of_lookup. exists i. apply lookup_take_Some. split; [done|].
      simpl. lia. }
    destruct o as [r|]; [|by vm_compute in Hocc]. exists r.
    assert (request (pool (mgr (world s))) i = Some r) as Hri by (by apply request_Some).
    split; [done|]. destruct (ty (io r)) eqn:Ht; [done|].
    pose proof (wf_reserve _ _ (s_wf _ _ Hinv) _ _ Hri Ht). lia.
Qed.

(** In every reachable state each device queue is in elevator order: along
    the queue the requests step up by (type, device, sector) except at one place
    at most, where the sweep wraps around. *)
Theorem elevator_order bs s major :
  fresh_buffers bs → reachable bs s →
  (wraps (queue_list (mgr (world s)) major) ≤ 1)%nat.
Proof.
  intros Hf Hr. destruct (reachable_sinv _ _ Hf Hr) as [qs Hinv].
  rewrite (queue_list_view _ qs) by apply Hinv. apply Hinv.
Qed.

(** Two bound buffers of a hard disk partition, and requests for both. *)
Definition demo_buffers : gmap nat Buffer :=
  {[ 0%nat := mkBuffer None false false false 4096; 1%nat := mkBuffer None false false false 5120 ]}.

(** The first request is queued. *)
Definition demo_first : Sys := Eval vm_compute in
  let s0 := initial demo_buffers in
  let s1 := with_world s0 (with_mgr (world s0) (register_driver 3 0 (mgr (world s0))).2) in
  let s2 := with_bufs s1 (<[0%nat := mkBuffer (Some (769, 9)) false false false 4096]>) in
  let s3 := with_bufs s2 (<[1%nat := mkBuffer (Some (769, 4)) false false false 5120]>) in
  let s4 := mkSys (world s3) [(Read, 0%nat, (769, 9))] [] [] [] in
  let s5 := mkSys (submit_lock Read 0 (world s4)).2 [] [(Read, 0%nat, (769, 9))] [] [] in
  mkSys (submit_slot Read false 0 (769, 9) (world s5)).2 [] [] [mkIo 769 Read 18 2 4096] [].

Definition demo_run : Sys := Eval vm_compute in
  let s7 := mkSys (world demo_first) [(Read, 1%nat, (769, 4))] [] (submitted demo_first) [] in
  let s8 := mkSys (submit_lock Read 1 (world s7)).2 [] [(Read, 1%nat, (769, 4))] (submitted demo_first) [] in
  mkSys (submit_slot Read false 1 (769, 4) (world s8)).2 [] []
    [mkIo 769 Read 18 2 4096; mkIo 769 Read 8 2 5120] [].

Lemma demo_fresh : fresh_buffers demo_buffers.
Proof.
  intros b x Hx. unfold demo_buffers in Hx.
  apply lookup_insert_Some in Hx as [[_ <-]|[_ Hx]]; [done|].
  by apply lookup_singleton_Some in Hx as [_ <-].
Qed.

Lemma demo_first_reachable : reachable demo_buffers demo_first.
Proof.
  unfold reachable.
  eapply rtc_l; [eexists; eapply (step_register _ 3 0); vm_compute; reflexivity || lia|].
  eapply rtc_l; [eexists; eapply (step_rebind _ 0 (769, 9)); [vm_compute; reflexivity|done|done| |by apply not_elem_of_nil]|].
  { intros b' x' Hx. simpl in Hx. by rewrite (demo_fresh _ _ Hx). }
  eapply rtc_l; [eexists; eapply (step_rebind _ 1 (769, 4)); [vm_compute; reflexivity|done|done| |by apply not_elem_of_nil]|].
  { intros b' x' Hx. simpl in Hx. apply lookup_insert_Some in Hx as [[_ <-]|[_ Hx]]; [done|].
    by rewrite (demo_fresh _ _ Hx). }
  eapply rtc_l; [eexists; eapply (step_begin _ Read false 0 (769, 9)); vm_compute; reflexivity|].
  eapply rtc_l; [eexists; eapply (step_lock _ 0 Read 0 (769, 9)); vm_compute; reflexivity|].
  eapply rtc_l; [eexists; eapply (step_slot _ 0 Read false 0 (769, 9)); vm_compute; reflexivity|].
  apply rtc_refl.
Qed.

Lemma demo_reachable : reachable demo_buffers demo_run.
Proof.
  unfold reachable. etransitivity; [exact demo_first_reachable|].
  eapply rtc_l; [eexists; eapply (step_begin _ Read false 1 (769, 4)); vm_compute; reflexivity|].
  eapply rtc_l; [eexists; eapply (step_lock _ 0 Read 1 (769, 4)); vm_compute; reflexivity|].
  eapply rtc_l; [eexists; eapply (step_slot _ 0 Read false 1 (769, 4)); vm_compute; reflexivity|].
  apply rtc_refl.
Qed.

Lemma block_requests_conserved_witness :
  reachable demo_buffers demo_run ∧
  submitted demo_run ≡ₚ completed demo_run ++ pool_ios (pool (mgr (world demo_run))).
Proof.
  split; [exact demo_reachable|].
  destruct (block_requests_conserved demo_buffers demo_run demo_fresh demo_reachable) as (_ & H & _).
  exact H.
Defined.

Lemma elevator_order_witness :
  length (queue_list (mgr (world demo_run)) 3) = 2%nat ∧
  (wraps (queue_list (mgr (world demo_run)) 3) ≤ 1)%nat.
Proof.
  split; [vm_compute; reflexivity|].
  exact (elevator_order demo_buffers demo_run 3 demo_fresh demo_reachable).
Defined.
End Block.
