(* ===== verification/Task.v ===== *)
(** * Tasks and the scheduler
    ([kernel/src/task/task_struct.rs], [manager.rs], [mod.rs], [timer.rs])

    The task table and the operations every other process component uses:
    signal bits, wake-ups, the choice of the next task, slot and pid allocation,
    and the timer tick. *)

From S2P Require Import Prelude.
Open Scope Z_scope.

Module Task.

(** ** Data *)

Definition TASK_NUM : nat := 64.
Definition NSIG : nat := 32.
Definition TASK_OPEN_FILES_LIMIT : nat := 20.
Definition HZ : Z := 100.

Inductive TaskState : Set := Running | Interruptible | Uninterruptible | Zombie | Stopped.

#[global] Instance TaskState_eq_dec : EqDecision TaskState.
Proof. solve_decision. Defined.

Record TaskSchedInfo : Type := mkSched { state : TaskState; counter : Z; priority : Z }.

Record TaskRelationInfo : Type := mkRelation {
  father : Z; pgrp : Z; session : Z; leader : bool;
}.

Record TaskIdentityInfo : Type := mkIdentity {
  uid : Z; euid : Z; suid : Z; gid : Z; egid : Z; sgid : Z;
}.

Record TaskAcctInfo : Type := mkAcct { utime : Z; stime : Z; cutime : Z; cstime : Z }.

Record SigAction : Type := mkSigAction {
  sa_handler : Z; sa_mask : Z; sa_flags : Z; sa_restorer : Z;
}.

Record TaskSignalInfo : Type := mkSignalInfo {
  signal : Z; blocked : Z; sigaction : list SigAction; alarm : Z;
}.

Record TaskMemoryLayout : Type := mkLayout {
  end_code : Z; end_data : Z; brk : Z; start_stack : Z;
}.

(** Inodes and open files are shared objects, named by numbers. *)
Record TaskFileSystemContext : Type := mkFs {
  umask : Z;
  root_directory : option nat;
  current_directory : option nat;
  executable_inode : option nat;
  close_on_exec : Z;
  open_files : list (option nat);
}.

(** The process control block, less the hardware context. *)
Record Task : Type := mkTask {
  pid : Z;
  sched : TaskSchedInfo;
  relation : TaskRelationInfo;
  identity : TaskIdentityInfo;
  acct : TaskAcctInfo;
  memory_space : option nat;
  mem_layout : TaskMemoryLayout;
  exit_code : Z;
  tty : Z;
  fs : TaskFileSystemContext;
  signal_info : TaskSignalInfo;
}.

Definition with_sched (t : Task) (x : TaskSchedInfo) : Task :=
  mkTask (pid t) x (relation t) (identity t) (acct t) (memory_space t) (mem_layout t)
    (exit_code t) (tty t) (fs t) (signal_info t).
Definition with_relation (t : Task) (x : TaskRelationInfo) : Task :=
  mkTask (pid t) (sched t) x (identity t) (acct t) (memory_space t) (mem_layout t)
    (exit_code t) (tty t) (fs t) (signal_info t).
Definition with_identity (t : Task) (x : TaskIdentityInfo) : Task :=
  mkTask (pid t) (sched t) (relation t) x (acct t) (memory_space t) (mem_layout t)
    (exit_code t) (tty t) (fs t) (signal_info t).
Definition with_acct (t : Task) (x : TaskAcctInfo) : Task :=
  mkTask (pid t) (sched t) (relation t) (identity t) x (memory_space t) (mem_layout t)
    (exit_code t) (tty t) (fs t) (signal_info t).
Definition with_signal (t : Task) (x : TaskSignalInfo) : Task :=
  mkTask (pid t) (sched t) (relation t) (identity t) (acct t) (memory_space t) (mem_layout t)
    (exit_code t) (tty t) (fs t) x.
Definition with_state (t : Task) (s : TaskState) : Task :=
  with_sched t (mkSched s (counter (sched t)) (priority (sched t))).

(** [TaskSignalInfo::raise] and [clear]; signal numbers start at 1. *)
Definition sig_bit (n : Z) : Z := as_u32 (Z.shiftl 1 (n - 1)).
Definition raise (n : Z) (s : TaskSignalInfo) : TaskSignalInfo :=
  mkSignalInfo (Z.lor (signal s) (sig_bit n)) (blocked s) (sigaction s) (alarm s).
Definition clear (n : Z) (s : TaskSignalInfo) : TaskSignalInfo :=
  mkSignalInfo (Z.land (signal s) (unot 32 (sig_bit n))) (blocked s) (sigaction s) (alarm s).

Definition wake_if_interruptible (t : Task) : Task :=
  if decide (state (sched t) = Interruptible) then with_state t Running else t.

(** Raise a signal on a task and let it run if it sleeps interruptibly. *)
Definition notify (n : Z) (t : Task) : Task :=
  wake_if_interruptible (with_signal t (raise n (signal_info t))).

(** The lowest free descriptor takes the file. *)
Definition add_file (f : nat) (c : TaskFileSystemContext) : option (nat * TaskFileSystemContext) :=
  fd ← position (λ o, negb (bool_decide (is_Some o))) (open_files c);
  Some (fd, mkFs (umask c) (root_directory c) (current_directory c) (executable_inode c)
              (close_on_exec c) (<[fd := Some f]> (open_files c))).

(** ** The task table *)

Record Kernel : Type := mkKernel {
  tasks : list (option Task);
  last_pid : Z;
  current : nat;
  jiffies : Z;
  cleared_ttys : list Z;
}.

Definition with_tasks (k : Kernel) (ts : list (option Task)) : Kernel :=
  mkKernel ts (last_pid k) (current k) (jiffies k) (cleared_ttys k).

Definition task_at (k : Kernel) (slot : nat) : option Task := tasks k !! slot ≫= λ o, o.

Definition current_task (k : Kernel) : option Task := task_at k (current k).

(** [manager.tasks.iter().flatten().for_each(..)] *)
Definition for_tasks (f : nat → Task → Task) (k : Kernel) : Kernel :=
  with_tasks k (imap (λ i o, f i <$> o) (tasks k)).

(** [task.pcb.inner.exclusive(..)] on one slot. *)
Definition update_task (slot : nat) (f : Task → Task) (k : Kernel) : Kernel :=
  for_tasks (λ i t, if decide (i = slot) then f t else t) k.

Definition update_current (f : Task → Task) (k : Kernel) : Kernel := update_task (current k) f k.

(** ** The scheduler *)

Definition SIGHUP : Z := 1.
Definition SIGKILL : Z := 9.
Definition SIGALRM : Z := 14.
Definition SIGCHLD : Z := 17.
Definition SIGSTOP : Z := 19.
Definition SIGTSTP : Z := 20.

Definition BLOCKABLE : Z := unot 32 (Z.lor (sig_bit SIGKILL) (sig_bit SIGSTOP)).

(** One task's part of the scan that opens [schedule]: an expired alarm is
    raised, and a deliverable signal wakes an interruptible sleeper. *)
Definition scan_task (j : Z) (t : Task) : Task :=
  let s := signal_info t in
  let s := if (0 <? alarm s) && (alarm s <? j)
           then let s' := raise SIGALRM s in mkSignalInfo (signal s') (blocked s') (sigaction s') 0
           else s in
  let t := with_signal t s in
  if Z.land (signal s) (unot 32 (Z.land BLOCKABLE (blocked s))) =? 0
  then t else wake_if_interruptible t.

(** The runnable non-idle tasks with their counters, in slot order. *)
Definition runnable (k : Kernel) : list (nat * Z) :=
  omap (λ '(slot, o), t ← o;
          if decide (slot ≠ 0%nat ∧ state (sched t) = Running)
          then Some (slot, counter (sched t)) else None)
    (imap pair (tasks k)).

(** [max_by_key(|&(slot, counter)| (counter, slot))] *)
Definition better (a b : nat * Z) : bool :=
  (a.2 <? b.2) || ((a.2 =? b.2) && (a.1 <=? b.1)%nat).
Definition max_by_key (l : list (nat * Z)) : option (nat * Z) :=
  fold_left (λ best x, match best with
                       | None => Some x
                       | Some y => if better y x then Some x else Some y
                       end) l None.

(** [(counter >> 1) + priority], for every task but the idle one. *)
Definition refill_task (t : Task) : Task :=
  with_sched t (mkSched (state (sched t))
    (wrapping_add (Z.shiftr (counter (sched t)) 1) (priority (sched t))) (priority (sched t))).
Definition refill (k : Kernel) : Kernel :=
  for_tasks (λ i t, if decide (i = 0%nat) then t else refill_task t) k.

(** The slot to switch to, if not the current one.  One refill is enough when
    every priority is positive, so two turns of the loop are enough fuel. *)
Fixpoint select_next_task (fuel : nat) (k : Kernel) : result (option nat * Kernel) :=
  match fuel with
  | O => Panic
  | S fuel' =>
      match max_by_key (runnable k) with
      | Some (next, c) =>
          if 0 <? c then Ok (if decide (current k = next) then None else Some next, k)
          else select_next_task fuel' (refill k)
      | None =>
          if decide (current k = 0%nat) then Ok (None, k)
          else if task_at k 0 is Some _ then Ok (Some 0%nat, k) else Panic
      end
  end.

(** Up to the task switch; the chosen slot becomes the current task. *)
Definition schedule (k : Kernel) : result Kernel :=
  let k := for_tasks (λ _, scan_task (jiffies k)) k in
  match select_next_task 2 k with
  | Ok (Some next, k) =>
      Ok (mkKernel (tasks k) (last_pid k) next (jiffies k) (cleared_ttys k))
  | Ok (None, k) => Ok k
  | Err e => Err e
  | Panic => Panic
  end.

(** ** Slots and pids *)

Definition next_pid (last : Z) : Z := Z.max (wrapping_add last 1) 1.

Definition pid_used (k : Kernel) (p : Z) : bool :=
  existsb (λ o, match o with Some t => pid t =? p | None => false end) (tasks k).

(** The table holds 64 tasks, so one of 65 consecutive candidates is free. *)
Fixpoint find_pid (fuel : nat) (k : Kernel) (last : Z) : option Z :=
  match fuel with
  | O => None
  | S fuel' => let p := next_pid last in
               if pid_used k p then find_pid fuel' k p else Some p
  end.

Definition free_slot (k : Kernel) : option nat :=
  find_map (λ i, match tasks k !! i with Some None => Some i | _ => None end)
    (seq 1 (TASK_NUM - 1)).

(** The pid is taken even when no slot is free. *)
Definition alloc_process (k : Kernel) : option (option (nat * Z) * Kernel) :=
  p ← find_pid (S TASK_NUM) k (last_pid k);
  Some (s ← free_slot k; Some (s, p),
        mkKernel (tasks k) p (current k) (jiffies k) (cleared_ttys k)).

(** ** The timer tick *)

(** The accounting part of [handle_timer_tick]; the result tells whether the
    interrupted user code used up its time slice. *)
Definition timer_tick (cpl : Z) (k : Kernel) : option (bool * Kernel) :=
  t ← current_task k;
  let a := acct t in
  let a' := if cpl =? 0 then mkAcct (utime a) (wrapping_add (stime a) 1) (cutime a) (cstime a)
            else mkAcct (wrapping_add (utime a) 1) (stime a) (cutime a) (cstime a) in
  let c := counter (sched t) in
  let c' := if 0 <? c then c - 1 else c in
  let t' := with_acct (with_sched t (mkSched (state (sched t)) c' (priority (sched t)))) a' in
  Some ((c' =? 0) && negb (cpl =? 0),
        update_current (λ _, t')
          (mkKernel (tasks k) (last_pid k) (current k) (wrapping_add (jiffies k) 1) (cleared_ttys k))).

Definition sys_nice (increment : Z) (t : Task) : Task :=
  if increment <? priority (sched t)
  then with_sched t (mkSched (state (sched t)) (counter (sched t)) (priority (sched t) - increment))
  else t.

(** ** Facts on the table *)

Lemma task_at_Some k i t : task_at k i = Some t ↔ tasks k !! i = Some (Some t).
Proof.
  unfold task_at. rewrite bind_Some. split; [by intros (? & ? & ->)|]. intros Hi. by exists (Some t).
Qed.

Lemma task_at_for_tasks f k i : task_at (for_tasks f k) i = f i <$> task_at k i.
Proof.
  unfold task_at, for_tasks. simpl. rewrite list_lookup_imap.
  by destruct (tasks k !! i) as [[t|]|].
Qed.

Lemma task_at_update k s f i :
  task_at (update_task s f k) i = (if decide (i = s) then f else id) <$> task_at k i.
Proof.
  unfold update_task. rewrite task_at_for_tasks. case_decide; by destruct (task_at k i).
Qed.

Lemma length_for_tasks f k : length (tasks (for_tasks f k)) = length (tasks k).
Proof. unfold for_tasks; simpl. apply length_imap. Qed.

Lemma elem_of_runnable k s c :
  (s, c) ∈ runnable k ↔
  ∃ t, task_at k s = Some t ∧ s ≠ 0%nat ∧ state (sched t) = Running ∧ counter (sched t) = c.
Proof.
  unfold runnable. rewrite list_elem_of_omap. split.
  - intros ([s' o] & Hin & Ho). apply list_elem_of_lookup in Hin as [j Hj].
    rewrite list_lookup_imap in Hj. apply fmap_Some in Hj as (o' & Hj & [= -> ->]).
    apply bind_Some in Ho as (t & -> & Ho). case_decide as E; [|done]. injection Ho as <- <-.
    exists t. destruct E. split_and!; try done. by apply task_at_Some.
  - intros (t & Ht & Hs & Hst & <-). apply task_at_Some in Ht.
    exists (s, Some t). split.
    + apply list_elem_of_lookup. exists s. by rewrite list_lookup_imap, Ht.
    + simpl. by rewrite decide_True.
Qed.

(** ** The choice of the scheduler *)

Definition ranks_below (a b : nat * Z) : Prop := a.2 < b.2 ∨ a.2 = b.2 ∧ (a.1 ≤ b.1)%nat.

Lemma better_spec a b : better a b = true ↔ ranks_below a b.
Proof.
  unfold better, ranks_below. rewrite orb_true_iff, andb_true_iff, Z.ltb_lt, Z.eqb_eq, Nat.leb_le. done.
Qed.

Lemma ranks_below_trans a b c : ranks_below a b → ranks_below b c → ranks_below a c.
Proof. unfold ranks_below. lia. Qed.

Lemma max_by_key_spec l :
  match max_by_key l with
  | None => l = []
  | Some x => x ∈ l ∧ ∀ y, y ∈ l → ranks_below y x
  end.
Proof.
  unfold max_by_key.
  assert (∀ l0 best, (∀ x, best = Some x → x ∈ l0 ∧ ∀ y, y ∈ l0 → ranks_below y x) →
    (best = None → l0 = []) →
    match fold_left (λ best x, match best with
                       | None => Some x
                       | Some y => if better y x then Some x else Some y
                       end) l best with
    | None => l0 ++ l = []
    | Some x => x ∈ l0 ++ l ∧ ∀ y, y ∈ l0 ++ l → ranks_below y x
    end) as H.
  { induction l as [|x l IH]; intros l0 best Hb Hn; simpl.
    - rewrite app_nil_r. destruct best; auto.
    - change (x :: l) with ([x] ++ l). rewrite app_assoc. apply IH; [|by destruct best as [y|]; [destruct (better y x)|]].
      intros z Hz. destruct best as [y|].
      + destruct (Hb y eq_refl) as [Hy Hmax]. destruct (better y x) eqn:Hyx; injection Hz as <-.
        * apply better_spec in Hyx. split; [set_solver|].
          intros w [Hw|Hw]%elem_of_app; [by eapply ranks_below_trans; [apply Hmax|]|].
          apply list_elem_of_singleton in Hw as ->. right. lia.
        * split; [set_solver|]. intros w [Hw|Hw]%elem_of_app; [by apply Hmax|].
          apply list_elem_of_singleton in Hw as ->.
          assert (¬ ranks_below y x) by (rewrite <- better_spec; congruence).
          unfold ranks_below in *. lia.
      + injection Hz as <-. rewrite (Hn eq_refl). split; [set_solver|].
        intros w ->%list_elem_of_singleton. right. lia. }
  specialize (H [] None). rewrite app_nil_l in H. apply H; [done|done].
Qed.

(** Time slices and priorities stay small: the initial priority is 15 and
    [nice] only lowers it.  The idle task never leaves the table. *)
Record sched_ok (t : Task) : Prop := {
  ok_priority : 1 ≤ priority (sched t) ≤ 15;
  ok_counter : 0 ≤ counter (sched t) ≤ 30;
}.

Record wf (k : Kernel) : Prop := {
  wf_length : length (tasks k) = TASK_NUM;
  wf_sched : ∀ i t, task_at k i = Some t → sched_ok t;
  wf_last_pid : is_uint 32 (last_pid k);
  wf_idle : is_Some (task_at k 0);
}.

Lemma half_bound c : 0 ≤ c ≤ 30 → 0 ≤ c / 2 ≤ 15.
Proof. intros. split; [apply Z.div_pos; lia|]. apply (Z.div_le_mono c 30 2); lia. Qed.

Lemma refill_counter t : sched_ok t →
  counter (sched (refill_task t)) = counter (sched t) / 2 + priority (sched t).
Proof.
  intros [Hp Hc]. unfold refill_task, wrapping_add; simpl. rewrite Z.shiftr_div_pow2 by lia.
  change (2 ^ 1) with 2. apply wrap_small.
  pose proof (half_bound _ Hc). unfold is_uint. lia.
Qed.

Lemma refill_sched_ok t : sched_ok t → sched_ok (refill_task t).
Proof.
  intros Hok. pose proof (refill_counter t Hok) as Hc. destruct Hok as [Hp Hcn].
  split; [done|]. rewrite Hc. pose proof (half_bound _ Hcn). lia.
Qed.

Lemma for_tasks_wf f k : wf k → (∀ i t, sched_ok t → sched_ok (f i t)) → wf (for_tasks f k).
Proof.
  intros [Hl Hs Hp Hi] Hf. split; [by rewrite length_for_tasks| |done|by rewrite task_at_for_tasks, fmap_is_Some].
  intros i t. rewrite task_at_for_tasks, fmap_Some. intros (t' & Ht' & ->). eauto.
Qed.

Lemma wake_sched t : counter (sched (wake_if_interruptible t)) = counter (sched t) ∧
  priority (sched (wake_if_interruptible t)) = priority (sched t).
Proof. unfold wake_if_interruptible. by case_decide. Qed.

Lemma scan_sched j t : counter (sched (scan_task j t)) = counter (sched t) ∧
  priority (sched (scan_task j t)) = priority (sched t).
Proof.
  unfold scan_task. destruct (_ =? 0); [done|].
  match goal with |- context [wake_if_interruptible ?x] => pose proof (wake_sched x) as [H1 H2] end.
  rewrite H1, H2. done.
Qed.

Lemma scan_wf k : wf k → wf (for_tasks (λ _, scan_task (jiffies k)) k).
Proof.
  intros Hwf. apply for_tasks_wf; [done|]. intros i t [Hp Hc].
  destruct (scan_sched (jiffies k) t) as [E1 E2]. split; by rewrite ?E1, ?E2.
Qed.

Lemma refill_wf k : wf k → wf (refill k).
Proof. intros Hwf. apply for_tasks_wf; [done|]. intros i t. case_decide; auto using refill_sched_ok. Qed.

(** The table the choice is made on: refilled exactly when some non-idle task
    is runnable and all of them have used up their slice. *)
Definition exhausted (k : Kernel) : bool :=
  match runnable k with [] => false | l => forallb (λ x, x.2 =? 0) l end.
Definition refreshed (k : Kernel) : Kernel := if exhausted k then refill k else k.

Definition best_slot (k : Kernel) : nat :=
  match max_by_key (runnable k) with Some (s, _) => s | None => 0%nat end.

Lemma max_positive k s c :
  wf k → max_by_key (runnable k) = Some (s, c) → exhausted k = (c =? 0).
Proof.
  intros Hwf Hmax. pose proof (max_by_key_spec (runnable k)) as Hs. rewrite Hmax in Hs.
  destruct Hs as [Hin Hrank]. unfold exhausted.
  destruct (runnable k) as [|x l] eqn:El; [by apply elem_of_nil in Hin|]. rewrite <- El in *.
  destruct (Z.eqb_spec c 0) as [->|Hc].
  - apply forallb_forall. intros [s' c'] Hin'%list_elem_of_In. simpl. apply Z.eqb_eq.
    destruct (Hrank _ Hin') as [Hlt|[Heq _]]; simpl in *; [|done].
    apply elem_of_runnable in Hin' as (t & Ht & _ & _ & <-).
    destruct (wf_sched _ Hwf _ _ Ht). lia.
  - apply not_true_is_false. intros Hall. rewrite forallb_forall in Hall.
    apply list_elem_of_In in Hin. specialize (Hall _ Hin). simpl in Hall. lia.
Qed.

Lemma runnable_refill k s c :
  (s, c) ∈ runnable (refill k) → ∃ t, task_at k s = Some t ∧ c = counter (sched (refill_task t)).
Proof.
  intros (t & Ht & Hs & Hst & <-)%elem_of_runnable. unfold refill in Ht.
  rewrite task_at_for_tasks in Ht. apply fmap_Some in Ht as (t' & Ht' & ->).
  rewrite decide_False by done. by exists t'.
Qed.

Lemma runnable_refill_iff k s :
  (∃ c, (s, c) ∈ runnable (refill k)) ↔ ∃ c, (s, c) ∈ runnable k.
Proof.
  split.
  - intros (c & (t & Ht & Hs & Hst & <-)%elem_of_runnable). unfold refill in Ht.
    rewrite task_at_for_tasks in Ht. apply fmap_Some in Ht as (t' & Ht' & ->).
    rewrite decide_False in Hst by done. exists (counter (sched t')). apply elem_of_runnable.
    by exists t'.
  - intros (c & (t & Ht & Hs & Hst & <-)%elem_of_runnable).
    exists (counter (sched (refill_task t))). apply elem_of_runnable. exists (refill_task t).
    unfold refill. rewrite task_at_for_tasks, Ht. simpl. by rewrite decide_False.
Qed.

Lemma select_next_task_spec k :
  wf k →
  select_next_task 2 k =
    Ok (if decide (current k = best_slot (refreshed k)) then None
        else Some (best_slot (refreshed k)), refreshed k).
Proof.
  intros Hwf. unfold best_slot, refreshed. cbn [select_next_task].
  destruct (max_by_key (runnable k)) as [[s c]|] eqn:Hmax.
  - rewrite (max_positive _ _ _ Hwf Hmax).
    pose proof (max_by_key_spec (runnable k)) as Hsp. rewrite Hmax in Hsp. destruct Hsp as [Hin _].
    apply elem_of_runnable in Hin as Hin'. destruct Hin' as (t & Ht & _ & _ & Hct).
    pose proof (ok_counter _ (wf_sched _ Hwf _ _ Ht)).
    destruct (Z.eqb_spec c 0), (Z.ltb_spec 0 c); try lia; [|by rewrite Hmax].
    pose proof (max_by_key_spec (runnable (refill k))) as Hsp2.
    destruct (max_by_key (runnable (refill k))) as [[s2 c2]|].
    + destruct Hsp2 as [(t2 & Ht2 & ->)%runnable_refill _].
      pose proof (wf_sched _ Hwf _ _ Ht2) as Hok. pose proof (refill_counter _ Hok) as Hc2.
      destruct Hok as [? Hcn]. pose proof (half_bound _ Hcn). destruct (Z.ltb_spec 0 (counter (sched (refill_task t2)))); [done|lia].
    + exfalso. assert (∃ c, (s, c) ∈ runnable (refill k)) as [c' Hc'].
      { apply runnable_refill_iff. by exists c. }
      rewrite Hsp2 in Hc'. by apply elem_of_nil in Hc'.
  - pose proof (max_by_key_spec (runnable k)) as Hsp. rewrite Hmax in Hsp.
    unfold exhausted. rewrite Hsp. rewrite Hmax. destruct (wf_idle _ Hwf) as [t ->]. by case_decide.
Qed.

(** ** Pid allocation *)

(** The candidates go round [1 .. 2^32 - 1]. *)
Definition PIDS : Z := 2 ^ 32 - 1.
Definition candidate (last : Z) (n : nat) : Z := (last + Z.of_nat n) mod PIDS + 1.

Lemma next_pid_eq last : is_uint 32 last → next_pid last = candidate last 0.
Proof.
  intros Hl. unfold next_pid, candidate, wrapping_add, PIDS, is_uint in *. rewrite Z.add_0_r.
  destruct (decide (last = 2 ^ 32 - 1)) as [->|].
  - rewrite Z.mod_same by lia. vm_compute. done.
  - rewrite wrap_small by (unfold is_uint; lia). rewrite Z.mod_small by lia. lia.
Qed.

Lemma candidate_bound last n : 1 ≤ candidate last n ≤ PIDS.
Proof.
  unfold candidate. pose proof (Z.mod_pos_bound (last + Z.of_nat n) PIDS ltac:(unfold PIDS; lia)). lia.
Qed.

Lemma candidate_uint last n : is_uint 32 (candidate last n).
Proof. pose proof (candidate_bound last n). unfold is_uint, PIDS in *. lia. Qed.

Lemma candidate_step last n : candidate (candidate last 0) n = candidate last (S n).
Proof.
  unfold candidate. rewrite Z.add_0_r. f_equal.
  rewrite <- Z.add_assoc, Zplus_mod_idemp_l. f_equal. lia.
Qed.

Lemma candidate_inj last n m :
  (n ≤ TASK_NUM)%nat → (m ≤ TASK_NUM)%nat → candidate last n = candidate last m → n = m.
Proof.
  unfold candidate, PIDS, TASK_NUM. intros Hn Hm Heq.
  assert (∀ a b : Z, 0 ≤ a < 65 → 0 ≤ b < 65 → (last + a) mod (2^32-1) = (last + b) mod (2^32-1) → a = b) as H.
  { intros a b Ha Hb Hab. rewrite (Z.mod_eq (last + a)), (Z.mod_eq (last + b)) in Hab by lia.
    set (d := (last + a) / (2 ^ 32 - 1) - (last + b) / (2 ^ 32 - 1)).
    assert (a - b = (2 ^ 32 - 1) * d) by (unfold d; lia).
    assert (d = 0 ∨ 1 ≤ d ∨ d ≤ -1) as [?|[?|?]] by lia; lia. }
  specialize (H (Z.of_nat n) (Z.of_nat m)). lia.
Qed.

Lemma find_pid_spec fuel k last :
  is_uint 32 last →
  match find_pid fuel k last with
  | Some p => ∃ n, (n < fuel)%nat ∧ p = candidate last n ∧ pid_used k p = false ∧
      ∀ m, (m < n)%nat → pid_used k (candidate last m) = true
  | None => ∀ n, (n < fuel)%nat → pid_used k (candidate last n) = true
  end.
Proof.
  revert last. induction fuel as [|fuel IH]; intros last Hl; cbn [find_pid]; [lia|].
  rewrite next_pid_eq by done. destruct (pid_used k (candidate last 0)) eqn:Hu.
  - specialize (IH _ (candidate_uint last 0)). destruct (find_pid _ _ _) as [p|].
    + destruct IH as (n & ? & -> & ? & Hm). exists (S n). rewrite candidate_step in *.
      split_and!; try done; [lia|]. intros [|m] ?; [done|]. rewrite <- candidate_step. apply Hm. lia.
    + intros [|n] ?; [done|]. rewrite <- candidate_step. apply IH. lia.
  - exists 0%nat. split_and!; try done; lia.
Qed.

Definition pids (k : Kernel) : list Z := omap (λ o, pid <$> o) (tasks k).

Lemma pid_used_spec k p : pid_used k p = true ↔ p ∈ pids k.
Proof.
  unfold pid_used, pids. rewrite existsb_exists, list_elem_of_omap. split.
  - intros ([t|] & Hin%list_elem_of_In & Hp); [|done]. apply Z.eqb_eq in Hp as <-. by exists (Some t).
  - intros ([t|] & Hin%list_elem_of_In & Hp); [|done]. injection Hp as <-.
    exists (Some t). split; [done|]. apply Z.eqb_refl.
Qed.

Lemma length_omap_le {A B} (f : A → option B) l : (length (omap f l) ≤ length l)%nat.
Proof.
  induction l as [|x l IH]; [done|].
  change (omap f (x :: l)) with (match f x with Some y => y :: omap f l | None => omap f l end).
  destruct (f x); cbn [length]; lia.
Qed.

(** More candidates than tasks: one is free. *)
Lemma find_pid_total k : wf k → is_Some (find_pid (S TASK_NUM) k (last_pid k)).
Proof.
  intros Hwf. pose proof (find_pid_spec (S TASK_NUM) k (last_pid k) (wf_last_pid _ Hwf)) as Hs.
  destruct (find_pid _ _ _) as [p|]; [by eexists|]. exfalso.
  assert (length (candidate (last_pid k) <$> seq 0 (S TASK_NUM)) ≤ length (pids k))%nat as Hl.
  { apply submseteq_length, NoDup_submseteq.
    - apply NoDup_fmap_2_strong; [|apply NoDup_seq]. intros n m Hn%elem_of_seq Hm%elem_of_seq.
      apply candidate_inj; lia.
    - intros p (n & -> & Hn%elem_of_seq)%list_elem_of_fmap. apply pid_used_spec, Hs. lia. }
  rewrite length_fmap, length_seq in Hl.
  pose proof (length_omap_le (λ o, pid <$> o) (tasks k)) as Hle. fold (pids k) in Hle.
  rewrite (wf_length _ Hwf) in Hle. lia.
Qed.

Lemma free_slot_spec k :
  length (tasks k) = TASK_NUM →
  match free_slot k with
  | Some s => (1 ≤ s < TASK_NUM)%nat ∧ tasks k !! s = Some None ∧
      ∀ j, (1 ≤ j < s)%nat → is_Some (task_at k j)
  | None => ∀ j, (1 ≤ j < TASK_NUM)%nat → is_Some (task_at k j)
  end.
Proof.
  intros Hlen. unfold free_slot.
  assert (∀ j, (j < TASK_NUM)%nat →
    (match tasks k !! j with Some None => Some j | _ => None end) = None → is_Some (task_at k j)) as Hocc.
  { intros j Hj Hn. destruct (lookup_lt_is_Some_2 (tasks k) j) as [[t|] Ht]; [lia| |].
    - exists t. by apply task_at_Some.
    - by rewrite Ht in Hn. }
  destruct (find_map _ _) as [s|] eqn:Hf.
  - apply find_map_Some in Hf as (l1 & x & l2 & Hl & Hx & Hn).
    destruct (tasks k !! x) as [[t|]|] eqn:Ht; try done. injection Hx as <-.
    assert (seq 1 (TASK_NUM - 1) !! length l1 = Some x) as Hsx by (by rewrite Hl, list_lookup_middle).
    apply lookup_seq in Hsx as [-> Hlt]. split_and!; try done; unfold TASK_NUM in *; try lia.
    intros j Hj. apply Hocc; [lia|]. apply Hn. apply list_elem_of_lookup. exists (j - 1)%nat.
    assert (seq 1 63 !! (j - 1)%nat = Some j) as Hsj by (apply lookup_seq; lia).
    simpl (64 - 1)%nat in Hl. rewrite Hl in Hsj. rewrite lookup_app_l in Hsj by lia. done.
  - intros j Hj. apply Hocc; [lia|]. apply (find_map_None _ _ Hf). apply elem_of_seq.
    unfold TASK_NUM in *. lia.
Qed.

Lemma schedule_spec k :
  wf k →
  let k1 := for_tasks (λ _, scan_task (jiffies k)) k in
  let k2 := refreshed k1 in
  ∃ k', schedule k = Ok k' ∧ tasks k' = tasks k2 ∧ wf k' ∧
    (exhausted k1 = true ↔ (∃ s c, (s, c) ∈ runnable k1) ∧ ∀ s c, (s, c) ∈ runnable k1 → c = 0) ∧
    ((current k' = 0%nat ∧ runnable k1 = []) ∨
     ∃ t, task_at k' (current k') = Some t ∧ state (sched t) = Running ∧
       current k' ≠ 0%nat ∧ 0 < counter (sched t) ∧
       ∀ s c, (s, c) ∈ runnable k2 → ranks_below (s, c) (current k', counter (sched t))).
Proof.
  intros Hwf k1 k2. assert (wf k1) as Hwf1 by (by apply scan_wf).
  assert (wf k2) as Hwf2 by (unfold k2, refreshed; destruct (exhausted k1); auto using refill_wf).
  exists (mkKernel (tasks k2) (last_pid k2) (best_slot k2) (jiffies k2) (cleared_ttys k2)).
  split; [|split; [done|split; [by destruct Hwf2; split|split]]].
  - unfold schedule. fold k1. rewrite select_next_task_spec by done. fold k2.
    destruct (decide (current k1 = best_slot k2)) as [E|]; [|done]. rewrite <- E.
    assert (current k1 = current k2) as -> by (unfold k2, refreshed; by destruct (exhausted k1)).
    by destruct k2.
  - unfold exhausted. destruct (runnable k1) as [|x l] eqn:El.
    + split; [done|]. intros [(s & c & Hin%elem_of_nil) _]. done.
    + rewrite forallb_forall. split.
      * intros Hall. split; [exists x.1, x.2; destruct x; by left|].
        intros s c Hin%list_elem_of_In. by apply Z.eqb_eq, (Hall (s, c)).
      * intros [_ Hall] [s c] Hin%list_elem_of_In. apply Z.eqb_eq. by apply (Hall s c).
  - change (best_slot k2) with (current (mkKernel (tasks k2) (last_pid k2) (best_slot k2) (jiffies k2) (cleared_ttys k2))).
    cbn [current]. unfold best_slot.
    pose proof (max_by_key_spec (runnable k2)) as Hsp.
    destruct (max_by_key (runnable k2)) as [[s c]|] eqn:Hmax.
    + right. destruct Hsp as [Hin Hrank].
      apply elem_of_runnable in Hin as (t & Ht & Hs & Hst & Hc).
      exists t. split_and!; try done.
      * pose proof (select_next_task_spec k1 Hwf1) as Hsel.
        pose proof (max_positive _ _ _ Hwf2 Hmax) as Hex.
        pose proof (ok_counter _ (wf_sched _ Hwf2 _ _ Ht)).
        destruct (Z.eqb_spec c 0) as [E|]; [exfalso|lia].
        unfold k2, refreshed in Ht. destruct (exhausted k1) eqn:Hx.
        -- unfold refill in Ht. rewrite task_at_for_tasks in Ht.
           apply fmap_Some in Ht as (t' & Ht' & ->). rewrite decide_False in Hc by done.
           pose proof (wf_sched _ Hwf1 _ _ Ht') as Hok. pose proof (refill_counter _ Hok) as Hrc.
           destruct Hok as [? Hcn]. pose proof (half_bound _ Hcn). lia.
        -- unfold k2, refreshed in Hex. rewrite Hx in Hex. congruence.
      * intros s' c' Hin'. rewrite Hc. by apply Hrank.
    + left. split; [done|]. unfold k2, refreshed in Hsp. destruct (exhausted k1) eqn:Hx; [|done].
      destruct (runnable k1) as [|[s c] l] eqn:El; [done|]. exfalso.
      assert (∃ c', (s, c') ∈ runnable (refill k1)) as [c' Hc'].
      { apply runnable_refill_iff. exists c. rewrite El. by left. }
      rewrite Hsp in Hc'. by apply elem_of_nil in Hc'.
Qed.

Lemma alloc_process_spec k :
  wf k →
  ∃ p n r, alloc_process k = Some (r, mkKernel (tasks k) p (current k) (jiffies k) (cleared_ttys k)) ∧
    p = candidate (last_pid k) n ∧ 1 ≤ p < 2 ^ 32 ∧ (p ∉ pids k) ∧
    (∀ m, (m < n)%nat → candidate (last_pid k) m ∈ pids k) ∧
    match r with
    | Some (s, p') => p' = p ∧ (1 ≤ s < TASK_NUM)%nat ∧ task_at k s = None ∧
        ∀ j, (1 ≤ j < s)%nat → is_Some (task_at k j)
    | None => ∀ j, (1 ≤ j < TASK_NUM)%nat → is_Some (task_at k j)
    end.
Proof.
  intros Hwf. destruct (find_pid_total k Hwf) as [p Hp].
  pose proof (find_pid_spec (S TASK_NUM) k (last_pid k) (wf_last_pid _ Hwf)) as Hs.
  rewrite Hp in Hs. destruct Hs as (n & _ & Hpn & Hu & Hm).
  pose proof (free_slot_spec k (wf_length _ Hwf)) as Hfs.
  exists p, n, (s ← free_slot k; Some (s, p)). unfold alloc_process. rewrite Hp.
  pose proof (candidate_bound (last_pid k) n). unfold PIDS in *.
  split_and!; try done; try lia.
  - rewrite <- pid_used_spec. congruence.
  - intros m Hlt. apply pid_used_spec. auto.
  - destruct (free_slot k) as [s|]; simpl; [|done].
    destruct Hfs as (? & Hf & ?). split_and!; try done; try lia. unfold task_at. by rewrite Hf.
Qed.

(** ** Properties *)

(** C29: [schedule] always returns.  After waking the interruptible tasks that
    have a deliverable signal, it makes the idle task current exactly when no
    other task is runnable; otherwise the task it makes current is runnable,
    has part of its time slice left, and no runnable task has a larger counter
    (nor, with an equal one, a higher slot).  Time slices are refilled exactly
    when every runnable task has used up its own. *)
Theorem schedule_picks_best k :
  wf k →
  let k1 := for_tasks (λ _, scan_task (jiffies k)) k in
  let k2 := refreshed k1 in
  ∃ k', schedule k = Ok k' ∧ tasks k' = tasks k2 ∧ wf k' ∧
    (exhausted k1 = true ↔ (∃ s c, (s, c) ∈ runnable k1) ∧ ∀ s c, (s, c) ∈ runnable k1 → c = 0) ∧
    ((current k' = 0%nat ∧ runnable k1 = []) ∨
     ∃ t, task_at k' (current k') = Some t ∧ state (sched t) = Running ∧
       current k' ≠ 0%nat ∧ 0 < counter (sched t) ∧
       ∀ s c, (s, c) ∈ runnable k2 → ranks_below (s, c) (current k', counter (sched t))).
Proof. apply schedule_spec. Qed.

(** [alloc_process] always terminates and takes the first pid after the last
    one, going round [1 .. 2^32 - 1], that no task has; the slot is the lowest
    free one from 1, and there is none exactly when slots 1 to 63 are taken. *)
Theorem alloc_process_fresh k :
  wf k →
  ∃ p n r, alloc_process k = Some (r, mkKernel (tasks k) p (current k) (jiffies k) (cleared_ttys k)) ∧
    p = candidate (last_pid k) n ∧ 1 ≤ p < 2 ^ 32 ∧ (p ∉ pids k) ∧
    (∀ m, (m < n)%nat → candidate (last_pid k) m ∈ pids k) ∧
    match r with
    | Some (s, p') => p' = p ∧ (1 ≤ s < TASK_NUM)%nat ∧ task_at k s = None ∧
        ∀ j, (1 ≤ j < s)%nat → is_Some (task_at k j)
    | None => ∀ j, (1 ≤ j < TASK_NUM)%nat → is_Some (task_at k j)
    end.
Proof. apply alloc_process_spec. Qed.

(** A booted kernel: the idle task and init, with sample files and memory. *)
Definition no_signals : TaskSignalInfo := mkSignalInfo 0 0 (replicate NSIG (mkSigAction 0 0 0 0)) 0.
Definition boot_task (p f : Z) : Task :=
  mkTask p (mkSched Running 15 15) (mkRelation f 0 0 false) (mkIdentity 0 0 0 0 0 0)
    (mkAcct 0 0 0 0) (Some 0%nat) (mkLayout 0 0 0 0) 0 (-1)
    (mkFs 18 None None None 0 (replicate TASK_OPEN_FILES_LIMIT None)) no_signals.
Definition boot_kernel : Kernel :=
  mkKernel (Some (boot_task 0 (2 ^ 32 - 1)) :: Some (boot_task 1 0) :: replicate 62 None)
    1 0 5 [].

Lemma boot_lookup i t : task_at boot_kernel i = Some t →
  (i = 0%nat ∧ t = boot_task 0 (2 ^ 32 - 1)) ∨ (i = 1%nat ∧ t = boot_task 1 0).
Proof.
  intros Ht%task_at_Some. unfold boot_kernel in Ht. cbn [tasks] in Ht.
  destruct i as [|[|i]]; cbn [lookup list_lookup] in Ht.
  - left. by injection Ht as <-.
  - right. by injection Ht as <-.
  - by apply lookup_replicate in Ht as [? _].
Qed.

Lemma boot_wf : wf boot_kernel.
Proof.
  split; [done| |done|by eexists]. intros i t [[_ ->]|[_ ->]]%boot_lookup; split; simpl; lia.
Qed.

Lemma schedule_picks_best_witness :
  ∃ k', schedule boot_kernel = Ok k' ∧ current k' = 1%nat ∧
    tasks k' = tasks (refreshed (for_tasks (λ _, scan_task (jiffies boot_kernel)) boot_kernel)).
Proof.
  destruct (schedule_picks_best boot_kernel boot_wf) as (k' & Hk & Ht & _).
  exists k'. split; [exact Hk|]. split; [|exact Ht].
  assert (schedule boot_kernel = Ok k') as H by exact Hk. clear Hk Ht.
  vm_compute in H. injection H as <-. reflexivity.
Defined.

Lemma alloc_process_fresh_witness :
  ∃ k', alloc_process boot_kernel = Some (Some (2%nat, 2), k') ∧ ¬ (2 ∈ pids boot_kernel).
Proof.
  destruct (alloc_process_fresh boot_kernel boot_wf) as (p & n & r & Ha & _ & _ & Hp & _).
  assert (r = Some (2%nat, 2) ∧ p = 2) as [-> ->].
  { vm_compute in Ha. injection Ha as <- <-. done. }
  eexists. split; [exact Ha|exact Hp].
Defined.
End Task.
