(* ===== verification/Process.v ===== *)
(** * Process life cycle and identity
    ([exit_process] of [kernel/src/task/mod.rs] and the handlers [fork.rs],
    [waitpid.rs], [identity.rs] and [mod.rs] of
    [kernel/src/syscall/handler/process])

    Fork, exit and wait on the task table, the process-tree invariant they keep,
    and the user- and group-id system calls. *)

From S2P Require Import Prelude Task.
From stdpp Require Import relations.
Open Scope Z_scope.

Module Process.
Import Task.

(** ** Exit *)

(** [iter().flatten().find(|t| t.pcb.pid == p)], as a slot. *)
Definition find_slot (p : nat → Task → bool) (k : Kernel) : option nat :=
  find_map (λ '(i, o), t ← o; if p i t then Some i else None) (imap pair (tasks k)).

Definition has_pid (p : Z) (_ : nat) (t : Task) : bool := pid t =? p.

(** [others().for_each(..)]: every task but the one in [slot]. *)
Definition for_others (slot : nat) (f : Task → Task) (k : Kernel) : Kernel :=
  for_tasks (λ i t, if decide (i = slot) then t else f t) k.

(** The fields released when a task becomes a zombie. *)
Definition become_zombie (code : Z) (t : Task) : Task :=
  mkTask (pid t) (mkSched Zombie (counter (sched t)) (priority (sched t))) (relation t)
    (identity t) (acct t) None (mem_layout t) code (-1)
    (mkFs (umask (fs t)) None None None 0 ((λ _, None) <$> open_files (fs t)))
    (signal_info t).

Definition set_father (p : Z) (t : Task) : Task :=
  with_relation t (mkRelation p (pgrp (relation t)) (session (relation t)) (leader (relation t))).

(** A session leader gives up its terminal's foreground group and hangs up the
    other tasks of its session. *)
Definition hangup (me : Task) (k : Kernel) : Kernel :=
  let r := relation me in
  let k := if leader r && (0 <=? tty me)
           then mkKernel (tasks k) (last_pid k) (current k) (jiffies k) (cleared_ttys k ++ [tty me])
           else k in
  if leader r
  then for_others (current k) (λ t, if session (relation t) =? session r then notify SIGHUP t else t) k
  else k.

(** The children of the dying task go to init. *)
Definition reparent (me : Task) (k : Kernel) : Kernel :=
  for_others (current k) (λ t, if father (relation t) =? pid me then set_father 1 t else t) k.

(** The part of [exit_process] that runs on the task table. *)
Definition exit_update (code : Z) (me : Task) (k : Kernel) : Kernel :=
  let slot := current k in
  let init := find_slot (has_pid 1) k in
  let k := hangup me k in
  let notify_init :=
    bool_decide (is_Some (find_slot (λ i t, bool_decide (i ≠ slot) &&
      (father (relation t) =? pid me) && bool_decide (state (sched t) = Zombie)) k)) in
  let k := reparent me k in
  let k := match init with
           | Some s => if notify_init then update_task s (notify SIGCHLD) k else k
           | None => k
           end in
  let k := update_task slot (become_zombie code) k in
  match find_slot (λ i t, bool_decide (i ≠ slot) && (pid t =? father (relation me))) k with
  | Some s => update_task s (notify SIGCHLD) k
  | None => k
  end.

(** Task 0 cannot exit, and the final [schedule] must not return. *)
Definition exit_process (code : Z) (k : Kernel) : result Kernel :=
  match current_task k with
  | None => Panic
  | Some me =>
      if decide (current k = 0%nat) then Panic
      else match schedule (exit_update code me k) with
           | Ok k' => if decide (current k' = current k) then Panic else Ok k'
           | Err e => Err e
           | Panic => Panic
           end
  end.

Definition sys_exit (status : Z) (k : Kernel) : result Kernel :=
  exit_process (Z.shiftl (Z.land status 255) 8) k.

(** ** Wait *)

Definition WNOHANG : Z := 1.
Definition WUNTRACED : Z := 2.

Inductive ScanResult : Type :=
| ScanStopped (pid status : Z)
| ScanZombie (slot : nat) (pid status utime stime : Z)
| NeedWait
| NoChild.

(** The argument is the signed pid; [-p] is taken at 32 bits. *)
Definition pid_matches (p : Z) (current_pgrp : Z) (t : Task) : bool :=
  if 0 <? p then pid t =? p
  else if p =? 0 then pgrp (relation t) =? current_pgrp
  else if p =? -1 then true
  else pgrp (relation t) =? as_u32 (- p).

(** The caller's matching children, from the highest slot down. *)
Definition children (p : Z) (me : Task) (k : Kernel) : list (nat * Task) :=
  omap (λ '(i, o), t ← o;
          if bool_decide (i ≠ current k) && (father (relation t) =? pid me)
             && pid_matches p (pgrp (relation me)) t
          then Some (i, t) else None)
    (reverse (imap pair (tasks k))).

Definition child_report (options : Z) (c : nat * Task) : option ScanResult :=
  let (slot, t) := c in
  match state (sched t) with
  | Stopped => if Z.land options WUNTRACED =? 0 then None else Some (ScanStopped (pid t) 127)
  | Zombie => Some (ScanZombie slot (pid t) (as_u32 (exit_code t)) (utime (acct t)) (stime (acct t)))
  | _ => None
  end.

Definition is_live (t : Task) : bool :=
  match state (sched t) with Stopped | Zombie => false | _ => true end.

Definition remove_task (slot : nat) (k : Kernel) : Kernel := with_tasks k (<[slot := None]> (tasks k)).

Definition scan_children (p options : Z) (me : Task) (k : Kernel) : ScanResult * Kernel :=
  match find_map (child_report options) (children p me k) with
  | Some (ScanZombie slot cpid st ut stm) =>
      (ScanZombie slot cpid st ut stm,
       remove_task slot
         (update_current (λ t, with_acct t
            (mkAcct (utime (acct t)) (stime (acct t)) (wrapping_add (cutime (acct t)) ut)
               (wrapping_add (cstime (acct t)) stm))) k))
  | Some r => (r, k)
  | None => (if existsb (λ c, is_live c.2) (children p me k) then NeedWait else NoChild, k)
  end.

(** One turn of the loop of [sys_waitpid] up to its sleep: the result with the
    status written to user space, or [None] when the call goes to sleep. *)
Definition wait_poll (p options : Z) (k : Kernel) : option (result (Z * option Z)) * Kernel :=
  match current_task k with
  | None => (Some Panic, k)
  | Some me =>
      match scan_children p options me k with
      | (ScanStopped cpid st, k) | (ScanZombie _ cpid st _ _, k) => (Some (Ok (cpid, Some st)), k)
      | (NeedWait, k) =>
          if negb (Z.land options WNOHANG =? 0) then (Some (Ok (0, None)), k)
          else (None, update_current (λ t, with_state t Interruptible) k)
      | (NoChild, k) => (Some (Err CHILD), k)
      end
  end.

(** After the sleep: the child signal is cleared, any other one interrupts. *)
Definition wait_resume (k : Kernel) : bool * Kernel :=
  let k := update_current (λ t, with_signal t (clear SIGCHLD (signal_info t))) k in
  (match current_task k with
   | Some t => negb (signal (signal_info t) =? 0)
   | None => false
   end, k).

(** ** Fork *)

(** [page] tells whether a task page was available; [memory] is the result of
    the copy-on-write duplication of the caller's memory. *)
Definition child_of (parent : Task) (p : Z) (memory : nat) : Task :=
  mkTask p
    (mkSched Running (priority (sched parent)) (priority (sched parent)))
    (mkRelation (pid parent) (pgrp (relation parent)) (session (relation parent)) false)
    (identity parent) (mkAcct 0 0 0 0) (Some memory) (mem_layout parent) 0 (tty parent) (fs parent)
    (mkSignalInfo 0 (blocked (signal_info parent)) (sigaction (signal_info parent)) 0).

Definition sys_fork (page : bool) (memory : option nat) (k : Kernel) : result Z * Kernel :=
  match alloc_process k with
  | None => (Panic, k)
  | Some (None, k) => (Err AGAIN, k)
  | Some (Some (slot, p), k) =>
      if negb page then (Err AGAIN, k)
      else match current_task k with
           | None => (Panic, k)
           | Some parent =>
               match memory_space parent, memory with
               | None, _ => (Panic, k)
               | Some _, None => (Err AGAIN, k)
               | Some _, Some m =>
                   (Ok p, with_tasks k (<[slot := Some (child_of parent p m)]> (tasks k)))
               end
           end
  end.

(** ** Groups and sessions *)

Definition sys_setpgid (pid_arg pgid_arg : Z) (k : Kernel) : result Z * Kernel :=
  match current_task k with
  | None => (Panic, k)
  | Some me =>
      let target_pid := if pid_arg =? 0 then pid me else pid_arg in
      let target_pgid := if pgid_arg =? 0 then pid me else pgid_arg in
      match find_slot (has_pid target_pid) k with
      | None => (Err SRCH, k)
      | Some s =>
          match task_at k s with
          | None => (Panic, k)
          | Some t =>
              if leader (relation t) || negb (session (relation t) =? session (relation me))
              then (Err PERM, k)
              else (Ok 0, update_task s (λ t, with_relation t
                            (mkRelation (father (relation t)) target_pgid (session (relation t))
                               (leader (relation t)))) k)
          end
      end
  end.

Definition is_superuser (t : Task) : bool := euid (identity t) =? 0.

Definition set_tty (t : Task) (n : Z) : Task :=
  mkTask (pid t) (sched t) (relation t) (identity t) (acct t) (memory_space t) (mem_layout t)
    (exit_code t) n (fs t) (signal_info t).

Definition sys_setsid (k : Kernel) : result Z * Kernel :=
  match current_task k with
  | None => (Panic, k)
  | Some me =>
      if leader (relation me) && negb (is_superuser me) then (Err PERM, k)
      else (Ok (pid me), update_current (λ t,
              set_tty (with_relation t (mkRelation (father (relation t)) (pid me) (pid me) true)) (-1)) k)
  end.

(** ** User and group ids *)

Definition set_uid (i : TaskIdentityInfo) (u : Z) : TaskIdentityInfo :=
  mkIdentity u (euid i) (suid i) (gid i) (egid i) (sgid i).
Definition set_euid (i : TaskIdentityInfo) (u : Z) : TaskIdentityInfo :=
  mkIdentity (uid i) u (suid i) (gid i) (egid i) (sgid i).
Definition set_suid (i : TaskIdentityInfo) (u : Z) : TaskIdentityInfo :=
  mkIdentity (uid i) (euid i) u (gid i) (egid i) (sgid i).
Definition set_gid (i : TaskIdentityInfo) (g : Z) : TaskIdentityInfo :=
  mkIdentity (uid i) (euid i) (suid i) g (egid i) (sgid i).
Definition set_egid (i : TaskIdentityInfo) (g : Z) : TaskIdentityInfo :=
  mkIdentity (uid i) (euid i) (suid i) (gid i) g (sgid i).

(** A refused effective id puts the real id back. *)
Definition sys_setreuid_impl (ruid eu : Z) (i : TaskIdentityInfo) : result Z * TaskIdentityInfo :=
  let superuser := euid i =? 0 in
  let old_ruid := uid i in
  let set_e (i : TaskIdentityInfo) :=
    if 0 <? eu then
      if (old_ruid =? as_u16 eu) || (euid i =? as_u16 eu) || (suid i =? as_u16 eu) || superuser
      then let i := set_euid i (as_u16 eu) in
           (Ok 0, if superuser then set_suid i (as_u16 eu) else i)
      else (Err PERM, set_uid i old_ruid)
    else (Ok 0, i) in
  if 0 <? ruid then
    if (euid i =? as_u16 ruid) || (old_ruid =? as_u16 ruid) || superuser
    then set_e (set_uid i (as_u16 ruid))
    else (Err PERM, i)
  else set_e i.

(** A refused effective group id leaves the new real one in place. *)
Definition sys_setregid_impl (rgid eg : Z) (i : TaskIdentityInfo) : result Z * TaskIdentityInfo :=
  let superuser := euid i =? 0 in
  let set_e (i : TaskIdentityInfo) :=
    if 0 <? eg then
      if (gid i =? as_u16 eg) || (egid i =? as_u16 eg) || (sgid i =? as_u16 eg) || superuser
      then (Ok 0, set_egid i (as_u16 eg))
      else (Err PERM, i)
    else (Ok 0, i) in
  if 0 <? rgid then
    if (gid i =? as_u16 rgid) || superuser
    then set_e (set_gid i (as_u16 rgid))
    else (Err PERM, i)
  else set_e i.

Definition sys_setuid (u : Z) := sys_setreuid_impl u u.
Definition sys_setgid (g : Z) := sys_setregid_impl g g.

(** ** The break *)

Definition MIN_STACK_GAP : Z := 16384.

Definition sys_brk (end_data_seg : Z) (l : TaskMemoryLayout) : Z * TaskMemoryLayout :=
  let l' := if (end_code l <=? end_data_seg) &&
               (end_data_seg <? wrapping_sub (start_stack l) MIN_STACK_GAP)
            then mkLayout (end_code l) (end_data l) end_data_seg (start_stack l)
            else l in
  (brk l', l').

(** [umask]; the mask keeps its nine permission bits. *)
Definition sys_umask (mask : Z) (c : TaskFileSystemContext) : Z * TaskFileSystemContext :=
  (umask c, mkFs (as_u16 (Z.land mask 511)) (root_directory c) (current_directory c)
              (executable_inode c) (close_on_exec c) (open_files c)).

(** ** The process tree *)

(** An update that keeps a task's place in the tree and its time accounting. *)
Record kin (t t' : Task) : Prop := {
  kin_pid : pid t' = pid t;
  kin_father : father (relation t') = father (relation t);
  kin_sched : sched_ok t → sched_ok t';
  kin_zombie : state (sched t') = Zombie ↔ state (sched t) = Zombie;
}.

Record kin_k (k k' : Kernel) : Prop := {
  kk_length : length (tasks k') = length (tasks k);
  kk_current : current k' = current k;
  kk_last : last_pid k' = last_pid k;
  kk_task : ∀ i, match task_at k i, task_at k' i with
                 | Some t, Some t' => kin t t'
                 | None, None => True
                 | _, _ => False
                 end;
}.

Lemma kin_same t t' :
  pid t' = pid t → father (relation t') = father (relation t) → sched t' = sched t → kin t t'.
Proof. intros ? ? E. split; [done|done| |by rewrite E]. intros [? ?]. split; by rewrite E. Qed.

Lemma kin_refl t : kin t t.
Proof. by split. Qed.

Lemma kin_trans t1 t2 t3 : kin t1 t2 → kin t2 t3 → kin t1 t3.
Proof. intros [? ? ? Hz1] [? ? ? Hz2]. split; [congruence|congruence|auto|by rewrite Hz2]. Qed.

#[export] Hint Resolve kin_refl : kernel.

Lemma kin_k_refl k : kin_k k k.
Proof. split; try done. intros i. destruct (task_at k i); [apply kin_refl|done]. Qed.

Lemma kin_k_trans k1 k2 k3 : kin_k k1 k2 → kin_k k2 k3 → kin_k k1 k3.
Proof.
  intros [? ? ? H1] [? ? ? H2]. split; [congruence..|]. intros i.
  specialize (H1 i). specialize (H2 i).
  destruct (task_at k1 i), (task_at k2 i), (task_at k3 i); try done. by eapply kin_trans.
Qed.

Lemma kin_for_tasks f k : (∀ i t, kin t (f i t)) → kin_k k (for_tasks f k).
Proof.
  intros Hf. split; [apply length_for_tasks|done|done|]. intros i.
  rewrite task_at_for_tasks. by destruct (task_at k i); simpl.
Qed.

Lemma kin_update s f k : (∀ t, kin t (f t)) → kin_k k (update_task s f k).
Proof. intros Hf. apply kin_for_tasks. intros i t. case_decide; [apply Hf|apply kin_refl]. Qed.

Lemma kin_wake t : kin t (wake_if_interruptible t).
Proof.
  unfold wake_if_interruptible. case_decide as E; [|apply kin_refl].
  split; try done; simpl; [by intros [? ?]; split|]. rewrite E. split; intros; discriminate.
Qed.

Lemma kin_notify n t : kin t (notify n t).
Proof. eapply kin_trans; [|apply kin_wake]. by apply kin_same. Qed.

Lemma kin_scan j t : kin t (scan_task j t).
Proof.
  unfold scan_task. destruct (_ =? 0); [by apply kin_same|].
  eapply kin_trans; [|apply kin_wake]. by apply kin_same.
Qed.

#[export] Hint Resolve kin_notify kin_wake kin_scan kin_for_tasks kin_update kin_k_refl : kernel.

Record forest (k : Kernel) : Prop := {
  tr_wf : wf k;
  tr_unique : ∀ i j ti tj, task_at k i = Some ti → task_at k j = Some tj → pid ti = pid tj → i = j;
  tr_idle : ∃ t, task_at k 0 = Some t ∧ pid t = 0 ∧ state (sched t) ≠ Zombie;
  tr_father : ∀ i t, task_at k i = Some t → i ≠ 0%nat →
    father (relation t) = 1 ∨
    ∃ j tj, j ≠ i ∧ task_at k j = Some tj ∧ pid tj = father (relation t) ∧ state (sched tj) ≠ Zombie;
}.

Definition alive_current (k : Kernel) : Prop :=
  ∃ t, current_task k = Some t ∧ state (sched t) ≠ Zombie.

Definition tree (k : Kernel) : Prop := forest k ∧ alive_current k.

Lemma kin_k_back k k' i t' : kin_k k k' → task_at k' i = Some t' → ∃ t, task_at k i = Some t ∧ kin t t'.
Proof.
  intros [_ _ _ H] Ht. specialize (H i). rewrite Ht in H. destruct (task_at k i) as [t|]; [|done].
  by exists t.
Qed.

Lemma kin_k_fwd k k' i t : kin_k k k' → task_at k i = Some t → ∃ t', task_at k' i = Some t' ∧ kin t t'.
Proof.
  intros [_ _ _ H] Ht. specialize (H i). rewrite Ht in H. destruct (task_at k' i) as [t'|]; [|done].
  by exists t'.
Qed.

Lemma kin_k_wf k k' : kin_k k k' → wf k → wf k'.
Proof.
  intros Hk [Hl Hs Hp [t0 Hi]]. split.
  - by rewrite (kk_length _ _ Hk).
  - intros i t' Ht'. destruct (kin_k_back _ _ _ _ Hk Ht') as (t & Ht & Hkin).
    eapply kin_sched; eauto.
  - by rewrite (kk_last _ _ Hk).
  - destruct (kin_k_fwd _ _ _ _ Hk Hi) as (t' & Ht' & _). by exists t'.
Qed.

Lemma forest_kin k k' : forest k → kin_k k k' → forest k'.
Proof.
  intros [Hwf Hu Hi Hf] Hk. split.
  - by eapply kin_k_wf.
  - intros i j ti tj Hti Htj.
    destruct (kin_k_back _ _ _ _ Hk Hti) as (ti0 & Hti0 & [-> _ _ _]).
    destruct (kin_k_back _ _ _ _ Hk Htj) as (tj0 & Htj0 & [-> _ _ _]). by eapply Hu.
  - destruct Hi as (t & Ht & Hp & Hz). destruct (kin_k_fwd _ _ _ _ Hk Ht) as (t' & Ht' & [Hp' _ _ Hz']).
    exists t'. split_and!; [done|congruence|tauto].
  - intros i t' Ht' Hne. destruct (kin_k_back _ _ _ _ Hk Ht') as (t & Ht & [_ -> _ _]).
    destruct (Hf i t Ht Hne) as [?|(j & tj & Hj & Htj & Hp & Hz)]; [by left|right].
    destruct (kin_k_fwd _ _ _ _ Hk Htj) as (tj' & Htj' & [Hp' _ _ Hz']).
    exists j, tj'. split_and!; [done|done|congruence|tauto].
Qed.

Lemma tree_kin k k' : tree k → kin_k k k' → tree k'.
Proof.
  intros [Hf (t & Ht & Hz)] Hk. split; [by eapply forest_kin|].
  unfold alive_current, current_task in *. rewrite (kk_current _ _ Hk).
  destruct (kin_k_fwd _ _ _ _ Hk Ht) as (t' & Ht' & [_ _ _ Hz']). exists t'. split; [done|tauto].
Qed.

Lemma find_slot_Some p k s :
  find_slot p k = Some s →
  ∃ t, task_at k s = Some t ∧ p s t = true ∧ ∀ j tj, (j < s)%nat → task_at k j = Some tj → p j tj = false.
Proof.
  unfold find_slot. intros (l1 & [i o] & l2 & Hl & Hx & Hn)%find_map_Some.
  assert (imap pair (tasks k) !! length l1 = Some (i, o)) as Hi by (by rewrite Hl, list_lookup_middle).
  rewrite list_lookup_imap in Hi. apply fmap_Some in Hi as (o' & Ho & [= -> ->]).
  destruct o' as [t|]; [|done]. simpl in Hx. destruct (p (length l1) t) eqn:Hp; [|done].
  injection Hx as <-. exists t. split_and!; [by apply task_at_Some|done|].
  intros j tj Hj Htj%task_at_Some.
  assert ((j, Some tj) ∈ l1) as Hin.
  { apply list_elem_of_lookup. exists j. rewrite <- (lookup_app_l l1 ((length l1, Some t) :: l2)) by done.
    rewrite <- Hl, list_lookup_imap, Htj. done. }
  specialize (Hn _ Hin). simpl in Hn. by destruct (p j tj).
Qed.

Lemma find_slot_None p k i t : find_slot p k = None → task_at k i = Some t → p i t = false.
Proof.
  unfold find_slot. intros Hn Ht%task_at_Some.
  assert ((i, Some t) ∈ imap pair (tasks k)) as Hin.
  { apply list_elem_of_lookup. exists i. by rewrite list_lookup_imap, Ht. }
  pose proof (find_map_None _ _ Hn _ Hin) as Hf. simpl in Hf. by destruct (p i t).
Qed.

(** *** Exit, in three stages *)

Lemma hangup_kin me k : kin_k k (hangup me k).
Proof.
  unfold hangup. set (k1 := if leader _ && _ then _ else k).
  assert (kin_k k k1 ∧ current k1 = current k) as [Hk _].
  { unfold k1. destruct (_ && _); [|auto with kernel]. split; [|done]. split; try done.
    intros i. unfold task_at; simpl. fold (task_at k i). destruct (task_at k i); [apply kin_refl|done]. }
  destruct (leader _); [|done]. eapply kin_k_trans; [done|]. apply kin_for_tasks.
  intros i t. case_decide; [apply kin_refl|]. destruct (_ =? _); auto with kernel.
Qed.

(** What [exit_update] does to each task. *)
Record exit_effect (code : Z) (me : Task) (k k' : Kernel) : Prop := {
  ee_length : length (tasks k') = length (tasks k);
  ee_current : current k' = current k;
  ee_last : last_pid k' = last_pid k;
  ee_task : ∀ i, match task_at k i, task_at k' i with
    | Some t, Some t' =>
        pid t' = pid t ∧ (sched_ok t → sched_ok t') ∧
        (state (sched t') = Zombie ↔ i = current k ∨ state (sched t) = Zombie) ∧
        father (relation t') =
          (if decide (i ≠ current k ∧ father (relation t) = pid me) then 1 else father (relation t)) ∧
        (i = current k → exit_code t' = code ∧ memory_space t' = None ∧
                         ∀ fd f, open_files (fs t') !! fd ≠ Some (Some f))
    | None, None => True
    | _, _ => False
    end;
}.

Lemma notify_fields n t : exit_code (notify n t) = exit_code t ∧
  memory_space (notify n t) = memory_space t ∧ fs (notify n t) = fs t.
Proof. unfold notify, wake_if_interruptible. by case_decide. Qed.

Lemma exit_core code me k : 
  exit_effect code me k (update_task (current k) (become_zombie code) (reparent me k)).
Proof.
  split; [unfold update_task, reparent, for_others; by rewrite !length_for_tasks|done|done|].
  intros i. rewrite task_at_update. unfold reparent, for_others. rewrite task_at_for_tasks.
  destruct (task_at k i) as [t|]; [|done]. simpl. destruct (decide (i = current k)) as [E|E]; simpl.
  - split; [done|]. split; [by intros [? ?]; split|]. split; [by split; [left|]|].
    split; [by rewrite decide_False by tauto|].
    intros _. split; [done|]. split; [done|]. intros fd f. simpl. rewrite list_lookup_fmap.
    by destruct (open_files (fs t) !! fd).
  - destruct (Z.eqb_spec (father (relation t)) (pid me)); simpl.
    + split; [done|]. split; [by intros [? ?]; split|]. split; [tauto|].
      split; [by rewrite decide_True by done|done].
    + split; [done|]. split; [done|]. split; [tauto|].
      split; [by rewrite decide_False by tauto|done].
Qed.

Lemma exit_effect_kin_before code me k k1 k2 :
  kin_k k k1 → exit_effect code me k1 k2 → exit_effect code me k k2.
Proof.
  intros Hk [? ? ? He]. split; [by rewrite ee_length0, (kk_length _ _ Hk)|by rewrite ee_current0, (kk_current _ _ Hk)
    |by rewrite ee_last0, (kk_last _ _ Hk)|].
  intros i. specialize (He i). pose proof (kk_task _ _ Hk i) as Hi. rewrite (kk_current _ _ Hk) in He.
  destruct (task_at k i), (task_at k1 i), (task_at k2 i); try done.
  destruct Hi as [Hp Hf Hs Hz], He as (? & ? & Hz2 & Hf2 & ?). rewrite Hz, Hf in *.
  split_and!; try done; [congruence|auto].
Qed.

(** Signals sent to other tasks afterwards change nothing of it. *)
Lemma exit_effect_notify code me k k1 s n :
  exit_effect code me k k1 → exit_effect code me k (update_task s (notify n) k1).
Proof.
  intros [? ? ? He]. split; [unfold update_task; by rewrite length_for_tasks|done|done|].
  intros i. specialize (He i). rewrite task_at_update.
  destruct (task_at k i), (task_at k1 i) as [t1|]; try done. simpl.
  destruct (decide (i = s)); [|exact He].
  pose proof (kin_notify n t1) as [Hp Hf Hs Hz]. pose proof (notify_fields n t1) as (-> & -> & ->).
  destruct He as (? & ? & Hz2 & Hf2 & ?). rewrite Hp, Hf, Hz. split_and!; auto.
Qed.

Lemma for_tasks_ext f g k :
  (∀ i t, f i t = g i t) → for_tasks f k = for_tasks g k.
Proof.
  intros Hfg. unfold for_tasks. f_equal. apply imap_ext. intros i [t|] _; simpl; [by rewrite Hfg|done].
Qed.

Lemma for_tasks_compose f g k : for_tasks f (for_tasks g k) = for_tasks (λ i t, f i (g i t)) k.
Proof.
  unfold for_tasks, with_tasks; simpl. f_equal. apply list_eq. intros i.
  rewrite !list_lookup_imap. by destruct (tasks k !! i) as [[t|]|].
Qed.

(** Dying and being signalled commute. *)
Lemma zombie_notify c n t : become_zombie c (notify n t) = notify n (become_zombie c t).
Proof.
  unfold notify, wake_if_interruptible. simpl.
  destruct (decide (state (sched t) = Interruptible)); simpl; done.
Qed.

Lemma update_zombie_notify slot c s n k :
  update_task slot (become_zombie c) (update_task s (notify n) k) =
  update_task s (notify n) (update_task slot (become_zombie c) k).
Proof.
  unfold update_task. rewrite !for_tasks_compose. apply for_tasks_ext. intros i t.
  do 2 case_decide; try done. apply zombie_notify.
Qed.

Lemma hangup_current me k : current (hangup me k) = current k.
Proof. apply (kk_current _ _ (hangup_kin me k)). Qed.

Lemma exit_update_effect code me k : exit_effect code me k (exit_update code me k).
Proof.
  unfold exit_update. cbv zeta. set (k1 := hangup me k).
  set (k3 := update_task (current k) (become_zombie code) _).
  assert (exit_effect code me k k3) as H3.
  { assert (exit_effect code me k (update_task (current k) (become_zombie code) (reparent me k1))) as H.
    { eapply exit_effect_kin_before; [apply hangup_kin|]. fold k1.
      rewrite <- (hangup_current me k). apply exit_core. }
    unfold k3. destruct (find_slot (has_pid 1) k); [|done].
    destruct (bool_decide _); [|done]. rewrite update_zombie_notify. by apply exit_effect_notify. }
  destruct (find_slot _ k3); [by apply exit_effect_notify|done].
Qed.

(** *** Switching tasks *)

Lemma kin_refill t : kin t (refill_task t).
Proof. split; try done. apply refill_sched_ok. Qed.

Lemma refreshed_kin k : kin_k k (refreshed (for_tasks (λ _, scan_task (jiffies k)) k)).
Proof.
  eapply kin_k_trans; [apply (kin_for_tasks (λ _, scan_task (jiffies k))); intros; apply kin_scan|].
  unfold refreshed, refill. destruct (exhausted _); [|apply kin_k_refl].
  apply kin_for_tasks. intros i t. case_decide; auto using kin_refl, kin_refill.
Qed.

Lemma forest_tasks k k' : forest k → tasks k' = tasks k → wf k' → forest k'.
Proof.
  intros [Hwf Hu Hi Hf] Ht Hwf'. assert (∀ i, task_at k' i = task_at k i) as He
    by (intros; unfold task_at; by rewrite Ht).
  split; [done| | |].
  - intros i j ti tj. rewrite !He. apply Hu.
  - by rewrite He.
  - intros i t. rewrite He. intros Hit Hne. destruct (Hf i t Hit Hne) as [?|(j & tj & ?)]; [by left|right].
    exists j, tj. by rewrite He.
Qed.

(** [schedule] keeps the tree, whatever state it found the caller in. *)
Lemma schedule_forest k : forest k → ∃ k', schedule k = Ok k' ∧ tree k' ∧
  tasks k' = tasks (refreshed (for_tasks (λ _, scan_task (jiffies k)) k)) ∧
  (current k' = 0%nat ∨ ∃ t, task_at k' (current k') = Some t ∧ state (sched t) = Running).
Proof.
  intros Hf. destruct (schedule_spec k (tr_wf _ Hf)) as (k' & Hk & Ht & Hwf & _ & Hcur).
  exists k'. pose proof (refreshed_kin k) as Hkin.
  assert (forest k') as Hf' by (eapply forest_tasks; [by eapply forest_kin|done|done]).
  split_and!; [done|split; [done|]|done|].
  - unfold alive_current, current_task. destruct Hcur as [[-> _]|(t & Ht' & Hst & _)].
    + destruct (tr_idle _ Hf') as (t & ? & _ & ?). by exists t.
    + exists t. split; [done|]. by rewrite Hst.
  - destruct Hcur as [[? _]|(t & ? & ? & _)]; [by left|right]. by exists t.
Qed.

(** *** Exit keeps the tree *)

Lemma exit_effect_forest code me k k' :
  forest k → current_task k = Some me → current k ≠ 0%nat → exit_effect code me k k' → forest k'.
Proof.
  intros [Hwf Hu Hi Hf] Hme Hc0 [Hl _ Hlast He].
  assert (∀ i t', task_at k' i = Some t' → ∃ t, task_at k i = Some t ∧
    pid t' = pid t ∧ (sched_ok t → sched_ok t') ∧
    (state (sched t') = Zombie ↔ i = current k ∨ state (sched t) = Zombie) ∧
    father (relation t') =
      (if decide (i ≠ current k ∧ father (relation t) = pid me) then 1 else father (relation t))) as Hback.
  { intros i t' Ht'. specialize (He i). rewrite Ht' in He.
    destruct (task_at k i) as [t|]; [|done]. exists t. tauto. }
  assert (∀ j tj, task_at k j = Some tj → state (sched tj) ≠ Zombie → j ≠ current k →
    ∃ tj', task_at k' j = Some tj' ∧ pid tj' = pid tj ∧ state (sched tj') ≠ Zombie) as Hfwd.
  { intros j tj Htj Hz Hne. specialize (He j). rewrite Htj in He.
    destruct (task_at k' j) as [t'|]; [|done]. exists t'. split_and!; [done|tauto|].
    destruct He as (_ & _ & Hz' & _). tauto. }
  split.
  - split; [by rewrite Hl; apply Hwf| |by rewrite Hlast; apply Hwf|].
    + intros i t' (t & Ht & _ & Hs & _)%Hback. by eapply Hs, Hwf.
    + destruct Hi as (t & Ht & _ & Hz). destruct (Hfwd 0%nat t Ht Hz) as (t' & ? & _); [auto|by exists t'].
  - intros i j ti tj (ti0 & Hti & -> & _)%Hback (tj0 & Htj & -> & _)%Hback. by eapply Hu.
  - destruct Hi as (t & Ht & Hp & Hz). destruct (Hfwd 0%nat t Ht Hz) as (t' & ? & ? & ?); [auto|].
    exists t'. split_and!; [done|congruence|done].
  - intros i t' (t & Ht & _ & _ & _ & ->)%Hback Hne. case_decide as Hd; [by left|].
    destruct (Hf i t Ht Hne) as [?|(j & tj & Hj & Htj & Hp & Hz)]; [by left|right].
    destruct (Hfwd j tj Htj Hz) as (tj' & ? & ? & ?).
    { intros ->. unfold current_task in Hme. assert (tj = me) as -> by congruence.
      apply Hd. split; [|done]. by intros ->. }
    exists j, tj'. split_and!; [done|done|congruence|done].
Qed.

Lemma exit_process_spec code k me :
  tree k → current_task k = Some me → current k ≠ 0%nat →
  ∃ k', exit_process code k = Ok k' ∧ tree k' ∧ current k' ≠ current k ∧
    tasks k' = tasks (refreshed (for_tasks (λ _, scan_task (jiffies (exit_update code me k)))
                                   (exit_update code me k))).
Proof.
  intros [Hf Ha] Hme Hc. pose proof (exit_update_effect code me k) as He.
  pose proof (exit_effect_forest _ _ _ _ Hf Hme Hc He) as Hf1.
  destruct (schedule_forest _ Hf1) as (k' & Hk & Htree & Htasks & Hcur).
  pose proof (refreshed_kin (exit_update code me k)) as Hkin.
  assert (kin_k (exit_update code me k) (with_tasks (exit_update code me k) (tasks k'))) as Hkk.
  { split; [by rewrite <- (kk_length _ _ Hkin), <- Htasks|done|done|].
    intros i. pose proof (kk_task _ _ Hkin i) as Hi. unfold task_at in *. simpl. by rewrite Htasks. }
  assert (current k' ≠ current k) as Hne.
  { intros E. destruct Hcur as [?|(t' & Ht' & Hst)]; [congruence|].
    rewrite E in Ht'. pose proof (ee_task _ _ _ _ He (current k)) as Hi. unfold current_task in Hme.
    rewrite Hme in Hi. destruct (task_at (exit_update code me k) (current k)) as [t1|] eqn:Ht1; [|done].
    destruct Hi as (_ & _ & Hz & _). destruct (kin_k_fwd _ _ _ _ Hkk Ht1) as (t2 & Ht2 & [_ _ _ Hz2]).
    change (task_at k' (current k) = Some t2) in Ht2. assert (t2 = t') as -> by congruence.
    rewrite Hst in Hz2. assert (state (sched t1) = Zombie) by (apply Hz; by left).
    assert (Running = Zombie) by tauto. done. }
  exists k'. split; [|done]. unfold exit_process. rewrite Hme, decide_False, Hk by done.
  by rewrite decide_False.
Qed.

(** *** Waiting *)

Definition is_child (p : Z) (me : Task) (k : Kernel) (i : nat) (t : Task) : Prop :=
  task_at k i = Some t ∧ i ≠ current k ∧ father (relation t) = pid me ∧
  pid_matches p (pgrp (relation me)) t = true.

Lemma elem_of_children p me k i t : (i, t) ∈ children p me k ↔ is_child p me k i t.
Proof.
  unfold children, is_child. rewrite list_elem_of_omap. split.
  - intros ([j o] & Hin & Ho). rewrite elem_of_reverse in Hin.
    apply list_elem_of_lookup in Hin as [n Hn].
    rewrite list_lookup_imap in Hn. apply fmap_Some in Hn as (o' & Hn & [= -> ->]).
    apply bind_Some in Ho as (t' & -> & Ho). destruct (_ && _ && _) eqn:Hb; [|done].
    injection Ho as <- <-. apply andb_prop in Hb as [[H1%bool_decide_eq_true H2%Z.eqb_eq]%andb_prop H3].
    split_and!; try done. by apply task_at_Some.
  - intros (Ht%task_at_Some & Hi & Hf & Hp). exists (i, Some t). split.
    + rewrite elem_of_reverse. apply list_elem_of_lookup. exists i. by rewrite list_lookup_imap, Ht.
    + simpl. rewrite bool_decide_eq_true_2, Hf, Z.eqb_refl, Hp by done. done.
Qed.

Lemma child_report_Some options i t r :
  child_report options (i, t) = Some r →
  (state (sched t) = Stopped ∧ Z.land options WUNTRACED ≠ 0 ∧ r = ScanStopped (pid t) 127) ∨
  (state (sched t) = Zombie ∧
   r = ScanZombie i (pid t) (as_u32 (exit_code t)) (utime (acct t)) (stime (acct t))).
Proof.
  unfold child_report. destruct (state (sched t)); try done.
  - intros [= <-]. by right.
  - destruct (Z.eqb_spec (Z.land options WUNTRACED) 0); [done|]. intros [= <-]. by left.
Qed.

(** The caller after it has reaped a child. *)
Definition add_child_times (ut stm : Z) (t : Task) : Task :=
  with_acct t (mkAcct (utime (acct t)) (stime (acct t)) (wrapping_add (cutime (acct t)) ut)
                 (wrapping_add (cstime (acct t)) stm)).

Definition reap (slot : nat) (t : Task) (k : Kernel) : Kernel :=
  remove_task slot (update_current (add_child_times (utime (acct t)) (stime (acct t))) k).

(** Every outcome of a pass over the children. *)
Lemma scan_children_spec p options me k :
  match scan_children p options me k with
  | (ScanStopped cpid st, k') => k' = k ∧ ∃ i t, is_child p me k i t ∧ cpid = pid t ∧ st = 127 ∧
      state (sched t) = Stopped ∧ Z.land options WUNTRACED ≠ 0
  | (ScanZombie slot cpid st _ _, k') => ∃ t, is_child p me k slot t ∧ cpid = pid t ∧
      st = as_u32 (exit_code t) ∧ state (sched t) = Zombie ∧ k' = reap slot t k
  | (NeedWait, k') => k' = k ∧ (∀ i t, is_child p me k i t → child_report options (i, t) = None) ∧
      ∃ i t, is_child p me k i t ∧ is_live t = true
  | (NoChild, k') => k' = k ∧
      ∀ i t, is_child p me k i t → state (sched t) = Stopped ∧ Z.land options WUNTRACED = 0
  end.
Proof.
  unfold scan_children. destruct (find_map _ _) as [r|] eqn:Hf.
  - apply find_map_Some in Hf as (l1 & [i t] & l2 & Hl & Hx & _).
    assert (is_child p me k i t) as Hc by (apply elem_of_children; rewrite Hl; set_solver).
    apply child_report_Some in Hx as [(Hst & Ho & ->)|(Hst & ->)].
    + split; [done|]. by exists i, t.
    + by exists t.
  - assert (∀ i t, is_child p me k i t → child_report options (i, t) = None) as Hn.
    { intros i t Hc%elem_of_children. by apply (find_map_None _ _ Hf). }
    destruct (existsb _ _) eqn:He.
    + split; [done|]. split; [done|]. apply existsb_exists in He as ([i t] & Hin%list_elem_of_In & Hl).
      exists i, t. split; [by apply elem_of_children|done].
    + split; [done|]. intros i t Hc. specialize (Hn i t Hc).
      assert (is_live t = false) as Hl.
      { apply not_true_is_false. intros Hl. assert (existsb (λ c, is_live c.2) (children p me k) = true); [|congruence].
        apply existsb_exists. exists (i, t). split; [|done]. by apply list_elem_of_In, elem_of_children. }
      unfold is_live, child_report in *. destruct (state (sched t)); try done.
      split; [done|]. destruct (Z.eqb_spec (Z.land options WUNTRACED) 0); done.
Qed.

Lemma task_at_remove s k i : task_at (remove_task s k) i = if decide (i = s) then None else task_at k i.
Proof.
  unfold remove_task, task_at, with_tasks. simpl. case_decide as E.
  - subst. destruct (decide (s < length (tasks k))%nat).
    + by rewrite list_lookup_insert_eq.
    + rewrite lookup_ge_None_2; [done|]. rewrite length_insert. lia.
  - by rewrite list_lookup_insert_ne.
Qed.

Lemma reap_tree p me k i t :
  tree k → is_child p me k i t → state (sched t) = Zombie → tree (reap i t k).
Proof.
  intros Htree (Ht & Hi & _) Hz. unfold reap.
  assert (tree (update_current (add_child_times (utime (acct t)) (stime (acct t))) k)) as Htree1.
  { eapply tree_kin; [done|]. apply kin_update. intros t'. by apply kin_same. }
  set (k1 := update_current _ k) in *.
  assert (∃ t1, task_at k1 i = Some t1 ∧ state (sched t1) = Zombie) as (t1 & Ht1 & Hz1).
  { unfold k1, update_current. rewrite task_at_update, Ht. simpl. rewrite decide_False by done.
    by exists t. }
  destruct Htree1 as [[Hwf Hu Hid Hf] Ha]. split; [split|].
  - split; [unfold remove_task; simpl; rewrite length_insert; apply Hwf| |apply Hwf|].
    + intros j tj. rewrite task_at_remove. case_decide; [done|]. apply Hwf.
    + destruct Hid as (t0 & Ht0 & _ & Hz0). rewrite task_at_remove, decide_False; [by exists t0|]. intros <-. congruence.
  - intros j1 j2 ta tb. rewrite !task_at_remove. do 2 (case_decide; [done|]). apply Hu.
  - destruct Hid as (t0 & Ht0 & ? & ?). exists t0. rewrite task_at_remove, decide_False; [done|].
    intros <-. congruence.
  - intros j tj. rewrite task_at_remove. case_decide; [done|]. intros Htj Hj.
    destruct (Hf j tj Htj Hj) as [?|(j' & tj' & ? & Htj' & ? & Hz')]; [by left|right].
    exists j', tj'. rewrite task_at_remove, decide_False; [done|]. intros ->. congruence.
  - destruct Ha as (tc & Htc & Hzc). exists tc. unfold current_task in *.
    rewrite task_at_remove, decide_False; [done|]. intros E.
    change (current k1 = i) in E. rewrite E in Htc. congruence.
Qed.

Lemma kin_sleep t : state (sched t) ≠ Zombie → kin t (with_state t Interruptible).
Proof. intros Hz. split; [done|done|by intros [? ?]; split|]. simpl. split; [done|tauto]. Qed.

Lemma wait_poll_tree p options k o k' : tree k → wait_poll p options k = (o, k') → tree k'.
Proof.
  intros Htree. unfold wait_poll. destruct (current_task k) as [me|] eqn:Hme; [|by intros [= _ <-]].
  pose proof (scan_children_spec p options me k) as Hs.
  destruct (scan_children p options me k) as [[cpid st|slot cpid st ut stm| |] k1].
  - destruct Hs as [-> _]. by intros [= _ <-].
  - destruct Hs as (t & Hc & _ & _ & Hz & ->). intros [= _ <-]. by eapply reap_tree.
  - destruct Hs as [-> _]. destruct (negb _); intros [= _ <-]; [done|].
    destruct Htree as [Hf (t & Ht & Hz)]. eapply tree_kin; [by split; [|exists t]|].
    split; [apply length_for_tasks|done|done|]. intros i. unfold update_current. rewrite task_at_update.
    destruct (task_at k i) as [ti|] eqn:Hi; [|done]. simpl. case_decide; [|apply kin_refl].
    apply kin_sleep. unfold current_task in Ht. congruence.
  - destruct Hs as [-> _]. by intros [= _ <-].
Qed.

(** *** Forking *)

Lemma task_at_insert s t k i :
  (s < length (tasks k))%nat →
  task_at (with_tasks k (<[s := Some t]> (tasks k))) i = if decide (i = s) then Some t else task_at k i.
Proof.
  intros Hs. unfold task_at, with_tasks. simpl. case_decide as E.
  - subst. by rewrite list_lookup_insert_eq.
  - by rewrite list_lookup_insert_ne.
Qed.

Lemma elem_of_pids k p : p ∈ pids k ↔ ∃ i t, task_at k i = Some t ∧ pid t = p.
Proof.
  unfold pids. rewrite list_elem_of_omap. split.
  - intros ([t|] & [i Hi]%list_elem_of_lookup & Hp); [|done]. injection Hp as <-.
    exists i, t. split; [by apply task_at_Some|done].
  - intros (i & t & Hi%task_at_Some & <-). exists (Some t). split; [|done].
    by eapply list_elem_of_lookup_2.
Qed.

Lemma fork_tree page memory k r k' : tree k → sys_fork page memory k = (r, k') → tree k'.
Proof.
  intros [Hf Ha]. unfold sys_fork.
  destruct (alloc_process_spec k (tr_wf _ Hf)) as (p & n & o & Halloc & _ & Hp & Hnew & _ & Ho).
  rewrite Halloc. set (k1 := mkKernel (tasks k) p _ _ _).
  assert (tree k1) as Htree1.
  { split; [|done]. eapply forest_tasks; [done|done|].
    destruct (tr_wf _ Hf). split; try done. unfold is_uint, k1; simpl. lia. }
  destruct o as [[s p']|]; [|by intros [= _ <-]]. destruct Ho as (-> & Hs & Hfree & _).
  destruct page; simpl; [|by intros [= _ <-]].
  destruct Ha as (me & Hme & Hz). change (current_task k1) with (current_task k). rewrite Hme.
  destruct (memory_space me); [|by intros [= _ <-]]. destruct memory as [m|]; [|by intros [= _ <-]].
  destruct Htree1 as [[Hwf Hu Hid Hft] Ha1].
  assert (s < length (tasks k1))%nat as Hlt by (rewrite (wf_length _ Hwf); lia).
  assert (task_at k1 s = None) as Hfree1 by done.
  set (c := child_of me p m). set (k2 := with_tasks k1 _). intros [= _ <-].
  assert (∀ i, task_at k2 i = if decide (i = s) then Some c else task_at k1 i) as Hat
    by (intros i; exact (task_at_insert s c k1 i Hlt)).
  split; [split|].
  - split; [simpl; rewrite length_insert; apply Hwf| |apply Hwf|rewrite Hat, decide_False by lia; apply Hwf].
    intros i t. rewrite Hat. case_decide; [|apply Hwf]. intros [= <-].
    pose proof (wf_sched _ (tr_wf _ Hf) _ _ Hme) as [? ?]. split; simpl; lia.
  - assert (∀ i t, task_at k1 i = Some t → pid t ≠ p) as Hne.
    { intros i t Hit Hpt. apply Hnew, elem_of_pids. by exists i, t. }
    intros i j ti tj. rewrite !Hat. do 2 case_decide; subst; try done.
    + intros [= <-] Htj Hpt. by destruct (Hne _ _ Htj).
    + intros Hti [= <-] Hpt. by destruct (Hne _ _ Hti).
    + apply Hu.
  - destruct Hid as (t0 & ? & ?). exists t0. rewrite Hat, decide_False by lia. done.
  - intros i t. rewrite Hat. case_decide as E.
    + intros [= <-] _. right. exists (current k), me. simpl.
      assert (current k ≠ i) by (intros E'; unfold current_task in Hme; rewrite E' in Hme; subst i; unfold k1 in Hfree1; unfold task_at in *; simpl in *; congruence).
      rewrite Hat, decide_False by congruence. done.
    + intros Hit Hi. destruct (Hft i t Hit Hi) as [?|(j & tj & ? & Htj & ?)]; [by left|right].
      exists j, tj. rewrite Hat, decide_False by congruence. done.
  - destruct Ha1 as (t & Ht & ?). exists t. unfold current_task in *.
    change (current k2) with (current k1).
    rewrite Hat, decide_False by congruence. done.
Qed.

(** ** Every step keeps the tree *)

(** What can happen to the task table, by the running task, an interrupt or a
    signal; a wait queue wakes whatever task it still refers to, a zombie as well.
    Exit by the idle task is a panic, not a step. *)
Inductive step : Kernel → Kernel → Prop :=
| step_fork page memory k r k' : sys_fork page memory k = (r, k') → step k k'
| step_exit code k k' : exit_process code k = Ok k' → step k k'
| step_wait p options k o k' : wait_poll p options k = (o, k') → step k k'
| step_resume k b k' : wait_resume k = (b, k') → step k k'
| step_schedule k k' : schedule k = Ok k' → step k k'
| step_tick cpl k b k' : timer_tick cpl k = Some (b, k') → step k k'
| step_nice inc k : is_uint 32 inc → step k (update_current (sys_nice inc) k)
| step_setpgid p g k r k' : sys_setpgid p g k = (r, k') → step k k'
| step_setsid k r k' : sys_setsid k = (r, k') → step k k'
| step_ids ru eu k :
    step k (update_current (λ t, with_identity t (sys_setreuid_impl ru eu (identity t)).2) k)
| step_gids rg eg k :
    step k (update_current (λ t, with_identity t (sys_setregid_impl rg eg (identity t)).2) k)
| step_sleep s k : s = Interruptible ∨ s = Uninterruptible ∨ s = Stopped →
    step k (update_current (λ t, with_state t s) k)
| step_signal n s k : step k (update_task s (notify n) k)
| step_wake s k : step k (update_task s (λ t, with_state t Running) k).

Lemma kin_live s t : state (sched t) ≠ Zombie → s ≠ Zombie → kin t (with_state t s).
Proof. intros Hz Hs. split; [done|done|by intros [? ?]; split|]. simpl. tauto. Qed.

Lemma kin_current f k :
  alive_current k → (∀ t, sched_ok t → state (sched t) ≠ Zombie → kin t (f t)) → wf k →
  kin_k k (update_current f k).
Proof.
  intros (t & Ht & Hz) Hf Hwf. split; [apply length_for_tasks|done|done|]. intros i.
  unfold update_current. rewrite task_at_update. destruct (task_at k i) as [ti|] eqn:Hi; [|done].
  simpl. case_decide as E; [|apply kin_refl]. unfold current_task in Ht. rewrite E in Hi.
  assert (ti = t) as -> by congruence. apply Hf; [by eapply Hwf|done].
Qed.

Lemma tree_current f k :
  tree k → (∀ t, sched_ok t → state (sched t) ≠ Zombie → kin t (f t)) → tree (update_current f k).
Proof.
  intros Ht Hf. eapply tree_kin; [done|]. apply kin_current; [apply Ht|done|apply Ht].
Qed.

Lemma tick_tree cpl k b k' : tree k → timer_tick cpl k = Some (b, k') → tree k'.
Proof.
  intros Htree. unfold timer_tick. destruct (current_task k) as [t|] eqn:Ht; [|done]. simpl.
  set (t' := with_acct _ _). set (k1 := mkKernel _ _ _ (wrapping_add _ _) _). intros [= _ <-].
  assert (kin_k k k1) as H1.
  { split; try done. intros i. change (task_at k1 i) with (task_at k i).
    destruct (task_at k i); [apply kin_refl|done]. }
  eapply tree_kin; [done|]. eapply kin_k_trans; [exact H1|].
  split; [apply length_for_tasks|done|done|]. intros i. unfold update_current. rewrite task_at_update.
  change (task_at k1 i) with (task_at k i). change (current k1) with (current k).
  destruct (task_at k i) as [ti|] eqn:Hi; [|done]. simpl. case_decide as E; [|apply kin_refl].
  unfold current_task in Ht. rewrite E in Hi. assert (ti = t) as -> by congruence.
  split; [done|done| |done]. intros [? ?]. split; simpl; [lia|].
  destruct (Z.ltb_spec 0 (counter (sched t))); lia.
Qed.

Lemma nice_kin inc t : is_uint 32 inc → kin t (sys_nice inc t).
Proof.
  intros Hi. unfold sys_nice, is_uint in *. destruct (Z.ltb_spec inc (priority (sched t))); [|apply kin_refl].
  split; [done|done| |done]. intros [? ?]. split; simpl; lia.
Qed.

Lemma setpgid_tree p g k r k' : tree k → sys_setpgid p g k = (r, k') → tree k'.
Proof.
  intros Htree. unfold sys_setpgid. destruct (current_task k); [|by intros [= _ <-]]. cbv zeta.
  destruct (find_slot _ k) as [s|]; [|by intros [= _ <-]].
  destruct (task_at k s); [|by intros [= _ <-]]. destruct (_ || _); intros [= _ <-]; [done|].
  eapply tree_kin; [done|]. apply kin_update. intros. by apply kin_same.
Qed.

Lemma setsid_tree k r k' : tree k → sys_setsid k = (r, k') → tree k'.
Proof.
  intros Htree. unfold sys_setsid. destruct (current_task k); [|by intros [= _ <-]].
  destruct (_ && _); intros [= _ <-]; [done|].
  apply tree_current; [done|]. intros. by apply kin_same.
Qed.

(** A zombie that is woken is alive again: nobody loses a father. *)
Lemma wake_tree s k : tree k → tree (update_task s (λ t, with_state t Running) k).
Proof.
  intros [[[Hl Hs Hp Hz] Hu (t0 & Ht0 & Hp0 & Hz0) Hf] (tc & Htc & Hzc)]. set (f := λ t, with_state t Running). set (k' := update_task s f k).
  assert (∀ i, task_at k' i = (if decide (i = s) then f else id) <$> task_at k i) as Hat by (intros i; apply task_at_update).
  assert (∀ i t', task_at k' i = Some t' → ∃ t, task_at k i = Some t ∧ pid t' = pid t ∧ relation t' = relation t ∧ (sched_ok t → sched_ok t')) as Hback.
  { intros i t'. rewrite Hat, fmap_Some. intros (t & Ht & ->). exists t. case_decide; split_and!; try done. intros [? ?]. by split. }
  assert (∀ i t, task_at k i = Some t → state (sched t) ≠ Zombie → ∃ t', task_at k' i = Some t' ∧ pid t' = pid t ∧ state (sched t') ≠ Zombie) as Hfwd.
  { intros i t Ht Hst. rewrite Hat, Ht. eexists. split; [reflexivity|]. by case_decide. }
  split; [split; [split|..]|].
  - unfold k', update_task. by rewrite length_for_tasks.
  - intros i t' (t & Ht & _ & _ & Hok)%Hback. eauto.
  - done.
  - rewrite Hat. by apply fmap_is_Some.
  - intros i j ti tj (ti0 & Hti & -> & _)%Hback (tj0 & Htj & -> & _)%Hback. by eapply Hu.
  - destruct (Hfwd _ _ Ht0 Hz0) as (t' & ? & ? & ?). exists t'. split_and!; [done|congruence|done].
  - intros i t' (t & Ht & _ & -> & _)%Hback Hne. destruct (Hf i t Ht Hne) as [?|(j & tj & ? & Htj & ? & Hst)]; [by left|right].
    destruct (Hfwd _ _ Htj Hst) as (tj' & ? & ? & ?). exists j, tj'. split_and!; [done|done|congruence|done].
  - destruct (Hfwd _ _ Htc Hzc) as (t' & ? & _ & ?). by exists t'.
Qed.

Lemma step_tree k k' : tree k → step k k' → tree k'.
Proof.
  intros Htree. destruct 1.
  - by eapply fork_tree.
  - match goal with H : exit_process _ _ = _ |- _ => rename H into He end.
    destruct (current_task k) as [me|] eqn:Hme; [|by (unfold exit_process in He; rewrite Hme in He)].
    destruct (decide (current k = 0%nat)) as [Hc|Hc].
    { unfold exit_process in He. by rewrite Hme, decide_True in He. }
    destruct (exit_process_spec code k me Htree Hme Hc) as (k2 & Hk2 & ? & _). congruence.
  - by eapply wait_poll_tree.
  - match goal with H : wait_resume _ = _ |- _ => injection H as _ <- end.
    apply tree_current; [done|]. intros. by apply kin_same.
  - destruct (schedule_forest k (proj1 Htree)) as (k2 & Hk2 & ? & _). congruence.
  - by eapply tick_tree.
  - apply tree_current; [done|]. intros. by apply nice_kin.
  - by eapply setpgid_tree.
  - by eapply setsid_tree.
  - apply tree_current; [done|]. intros. by apply kin_same.
  - apply tree_current; [done|]. intros. by apply kin_same.
  - apply tree_current; [done|]. intros. apply kin_live; [done|]. intros ->. by repeat match goal with H : _ ∨ _ |- _ => destruct H end.
  - eapply tree_kin; [done|]. apply kin_update. intros. apply kin_notify.
  - by apply wake_tree.
Qed.

Lemma boot_tree : tree boot_kernel.
Proof.
  split; [split|].
  - apply boot_wf.
  - intros i j ti tj [[-> ->]|[-> ->]]%boot_lookup [[-> ->]|[-> ->]]%boot_lookup; simpl; done.
  - by exists (boot_task 0 (2 ^ 32 - 1)).
  - intros i t [[-> ->]|[-> ->]]%boot_lookup Hi; [done|]. right.
    by exists 0%nat, (boot_task 0 (2 ^ 32 - 1)).
  - by exists (boot_task 0 (2 ^ 32 - 1)).
Qed.

Lemma reachable_tree k : rtc step boot_kernel k → tree k.
Proof.
  intros Hr. pose proof boot_tree as Ht. induction Hr as [|k1 k2 k3 Hs _ IH]; [done|].
  apply IH. by eapply step_tree.
Qed.

(** ** What exit tells the other tasks *)

(** What later updates keep of a task that is not the dying one: no pending
    signal is lost, and it does not fall asleep. *)
Record keeps (t t' : Task) : Prop := {
  kp_pid : pid t' = pid t;
  kp_group : pgrp (relation t') = pgrp (relation t) ∧ session (relation t') = session (relation t) ∧
             leader (relation t') = leader (relation t);
  kp_signal : ∀ n, Z.testbit (signal (signal_info t)) n = true → Z.testbit (signal (signal_info t')) n = true;
  kp_state : state (sched t') = state (sched t) ∨
             state (sched t) = Interruptible ∧ state (sched t') = Running;
  kp_rest : exit_code t' = exit_code t ∧ memory_space t' = memory_space t ∧ fs t' = fs t;
}.

Lemma keeps_refl t : keeps t t.
Proof. split; try done. by left. Qed.

Lemma keeps_trans t1 t2 t3 : keeps t1 t2 → keeps t2 t3 → keeps t1 t3.
Proof.
  intros [? (? & ? & ?) ? Hs1 (? & ? & ?)] [? (? & ? & ?) ? Hs2 (? & ? & ?)].
  split; [congruence|split_and!; congruence|auto| |split_and!; congruence].
  destruct Hs1 as [E1|[? E1]], Hs2 as [E2|[E2 ?]]; rewrite ?E1 in *; auto; congruence.
Qed.

(** Signal [n] is pending and does not find the task in interruptible sleep. *)
Definition notified (n : Z) (t : Task) : Prop :=
  Z.testbit (signal (signal_info t)) (n - 1) = true ∧ state (sched t) ≠ Interruptible.

Lemma keeps_notified n t t' : keeps t t' → notified n t → notified n t'.
Proof.
  intros [_ _ Hsig Hst _] [Hb Hs]. split; [auto|]. destruct Hst as [->|[? ->]]; done.
Qed.

Lemma wake_keeps t : keeps t (wake_if_interruptible t).
Proof.
  unfold wake_if_interruptible. case_decide; [|apply keeps_refl]. split; try done. by right.
Qed.

Lemma signal_keeps t s :
  (∀ n, Z.testbit (signal (signal_info t)) n = true → Z.testbit (signal s) n = true) →
  keeps t (with_signal t s).
Proof. intros Hs. split; try done. by left. Qed.

Lemma raise_bits n s m : Z.testbit (signal s) m = true → Z.testbit (signal (raise n s)) m = true.
Proof. intros Hm. simpl. by rewrite Z.lor_spec, Hm. Qed.

Lemma notify_keeps n t : keeps t (notify n t).
Proof. eapply keeps_trans; [|apply wake_keeps]. apply signal_keeps, raise_bits. Qed.

Lemma sig_bit_self n : 1 ≤ n ≤ 32 → Z.testbit (sig_bit n) (n - 1) = true.
Proof.
  intros Hn. unfold sig_bit, as_u32, wrap. rewrite Z.mod_pow2_bits_low by lia.
  rewrite Z.shiftl_1_l. apply Z.pow2_bits_true. lia.
Qed.

Lemma notify_notified n t : 1 ≤ n ≤ 32 → notified n (notify n t).
Proof.
  intros Hn. unfold notified, notify, wake_if_interruptible. split.
  - case_decide; simpl; by rewrite Z.lor_spec, sig_bit_self, orb_true_r.
  - case_decide as E; simpl; [done|]. exact E.
Qed.

Lemma scan_keeps j t : keeps t (scan_task j t).
Proof.
  unfold scan_task.
  set (s := if (_ <? _) && _ then _ else signal_info t).
  assert (keeps t (with_signal t s)) as Hs.
  { apply signal_keeps. intros n Hn. unfold s. destruct (_ && _); [|done]. by apply (raise_bits SIGALRM). }
  destruct (_ =? 0); [done|]. eapply keeps_trans; [exact Hs|apply wake_keeps].
Qed.

Lemma refill_keeps t : keeps t (refill_task t).
Proof. split; try done. by left. Qed.

Definition keeps_at (k k' : Kernel) (i : nat) : Prop :=
  match task_at k i, task_at k' i with
  | Some t, Some t' => keeps t t'
  | None, None => True
  | _, _ => False
  end.

Lemma keeps_at_refl k i : keeps_at k k i.
Proof. unfold keeps_at. destruct (task_at k i); [apply keeps_refl|done]. Qed.

Lemma keeps_at_trans k1 k2 k3 i : keeps_at k1 k2 i → keeps_at k2 k3 i → keeps_at k1 k3 i.
Proof.
  unfold keeps_at. destruct (task_at k1 i), (task_at k2 i), (task_at k3 i); try done. apply keeps_trans.
Qed.

Lemma keeps_at_fwd k k' i t :
  keeps_at k k' i → task_at k i = Some t → ∃ t', task_at k' i = Some t' ∧ keeps t t'.
Proof.
  unfold keeps_at. intros Hk Ht. rewrite Ht in Hk. destruct (task_at k' i) as [t'|]; [|done]. by exists t'.
Qed.

Lemma keeps_at_back k k' i t' :
  keeps_at k k' i → task_at k' i = Some t' → ∃ t, task_at k i = Some t ∧ keeps t t'.
Proof.
  unfold keeps_at. intros Hk Ht. rewrite Ht in Hk. destruct (task_at k i) as [t|]; [|done]. by exists t.
Qed.

Lemma keeps_at_notified n k k' i t :
  keeps_at k k' i → task_at k i = Some t → notified n t → ∃ t', task_at k' i = Some t' ∧ notified n t'.
Proof.
  intros Hk Ht Hn. destruct (keeps_at_fwd _ _ _ _ Hk Ht) as (t' & ? & ?). exists t'.
  split; [done|]. by eapply keeps_notified.
Qed.

Lemma keeps_at_for f k i : (∀ t, keeps t (f i t)) → keeps_at k (for_tasks f k) i.
Proof. intros Hf. unfold keeps_at. rewrite task_at_for_tasks. destruct (task_at k i); simpl; auto. Qed.

Lemma keeps_at_notify n s k i : keeps_at k (update_task s (notify n) k) i.
Proof.
  apply keeps_at_for. intros t. case_decide; [apply notify_keeps|apply keeps_refl].
Qed.

Lemma keeps_at_refreshed k i : keeps_at k (refreshed (for_tasks (λ _, scan_task (jiffies k)) k)) i.
Proof.
  eapply keeps_at_trans; [apply (keeps_at_for (λ _, scan_task (jiffies k))); intros; apply scan_keeps|].
  unfold refreshed, refill. destruct (exhausted _); [|apply keeps_at_refl].
  apply keeps_at_for. intros t. case_decide; [apply keeps_refl|apply refill_keeps].
Qed.

Lemma notified_at n s k t :
  1 ≤ n ≤ 32 → task_at k s = Some t →
  ∃ t', task_at (update_task s (notify n) k) s = Some t' ∧ notified n t'.
Proof.
  intros Hn Ht. exists (notify n t). rewrite task_at_update, decide_True, Ht by done.
  split; [done|by apply notify_notified].
Qed.

(** The stages of [exit_update] as seen by another task. *)
Section exit_stages.
Context (code : Z) (me : Task) (k : Kernel) (i : nat).
Context (Hi : i ≠ current k).

Lemma hangup_keeps : keeps_at k (hangup me k) i.
Proof.
  unfold hangup. set (kc := if leader _ && _ then _ else k).
  assert (task_at kc i = task_at k i) as Hkc by (unfold kc; by destruct (_ && _)).
  unfold keeps_at. rewrite <- Hkc. change (keeps_at kc (if leader (relation me) then for_others (current kc)
    (λ t, if session (relation t) =? session (relation me) then notify SIGHUP t else t) kc else kc) i).
  destruct (leader _); [|apply keeps_at_refl]. apply keeps_at_for. intros t.
  case_decide; [apply keeps_refl|]. destruct (_ =? _); [apply notify_keeps|apply keeps_refl].
Qed.

Lemma hangup_notified t : task_at k i = Some t → leader (relation me) = true →
  session (relation t) = session (relation me) →
  ∃ t', task_at (hangup me k) i = Some t' ∧ notified SIGHUP t'.
Proof using Hi.
  intros Ht Hl Hs. exists (notify SIGHUP t). split; [|apply notify_notified; unfold SIGHUP; lia].
  unfold hangup. rewrite Hl. simpl. unfold for_others. rewrite task_at_for_tasks.
  assert (∀ b, task_at (if b : bool then mkKernel (tasks k) (last_pid k) (current k) (jiffies k)
     (cleared_ttys k ++ [tty me]) else k) i = Some t) as -> by (by intros []).
  simpl. rewrite Hs, Z.eqb_refl. by destruct (0 <=? tty me); simpl; rewrite decide_False by done.
Qed.

Lemma reparent_keeps k1 : keeps_at k1 (reparent me k1) i.
Proof.
  apply keeps_at_for. intros t. case_decide; [apply keeps_refl|].
  destruct (_ =? _); [|apply keeps_refl]. split; try done. by left.
Qed.

Lemma zombie_keeps k1 : keeps_at k1 (update_task (current k) (become_zombie code) k1) i.
Proof using Hi.
  apply keeps_at_for. intros t. rewrite decide_False by done. apply keeps_refl.
Qed.
End exit_stages.

(** [exit_update] as the sequence of its stages. *)
Definition notify_init (me : Task) (k k1 : Kernel) : Kernel :=
  match find_slot (has_pid 1) k with
  | Some s =>
      if bool_decide (is_Some (find_slot (λ i t, bool_decide (i ≠ current k) &&
           (father (relation t) =? pid me) && bool_decide (state (sched t) = Zombie)) k1))
      then update_task s (notify SIGCHLD) (reparent me k1) else reparent me k1
  | None => reparent me k1
  end.

Definition notify_father (me : Task) (slot : nat) (k : Kernel) : Kernel :=
  match find_slot (λ i t, bool_decide (i ≠ slot) && (pid t =? father (relation me))) k with
  | Some s => update_task s (notify SIGCHLD) k
  | None => k
  end.

Lemma exit_update_stages code me k :
  exit_update code me k =
  notify_father me (current k)
    (update_task (current k) (become_zombie code) (notify_init me k (hangup me k))).
Proof. reflexivity. Qed.

Lemma notify_init_keeps me k k1 i : keeps_at k1 (notify_init me k k1) i.
Proof.
  unfold notify_init. destruct (find_slot _ k); [|apply reparent_keeps].
  destruct (bool_decide _); [|apply reparent_keeps].
  eapply keeps_at_trans; [apply reparent_keeps|apply keeps_at_notify].
Qed.

Lemma notify_father_keeps me s k i : keeps_at k (notify_father me s k) i.
Proof.
  unfold notify_father. destruct (find_slot _ k); [apply keeps_at_notify|apply keeps_at_refl].
Qed.

Definition unique_pids (k : Kernel) : Prop :=
  ∀ i j ti tj, task_at k i = Some ti → task_at k j = Some tj → pid ti = pid tj → i = j.

(** Init is told when it inherits a dead child. *)
Lemma notify_init_notified me k k1 i t j tj :
  unique_pids k → (∀ j, keeps_at k k1 j) → task_at k i = Some t → pid t = 1 →
  task_at k1 j = Some tj → j ≠ current k → father (relation tj) = pid me → state (sched tj) = Zombie →
  ∃ t', task_at (notify_init me k k1) i = Some t' ∧ notified SIGCHLD t'.
Proof.
  intros Hu Hk Ht Hp Htj Hj Hf Hz. unfold notify_init.
  destruct (find_slot (has_pid 1) k) as [s|] eqn:Hs.
  - apply find_slot_Some in Hs as (t1 & Ht1 & Hp1%Z.eqb_eq & _).
    assert (i = s) as <- by (eapply Hu; [done|done|congruence]).
    rewrite bool_decide_eq_true_2.
    + destruct (keeps_at_fwd k (reparent me k1) i t) as (t' & Ht' & _); [|done|].
      { eapply keeps_at_trans; [apply Hk|apply reparent_keeps]. }
      eapply notified_at; [unfold SIGCHLD; lia|done].
    + destruct (find_slot _ k1) eqn:Hn; [by eexists|]. eapply find_slot_None in Hn; [|done].
      rewrite bool_decide_eq_true_2, Hf, Z.eqb_refl, bool_decide_eq_true_2 in Hn by done. done.
  - eapply find_slot_None in Hs; [|done]. unfold has_pid in Hs. by rewrite Hp in Hs.
Qed.

Lemma notify_father_notified me k k1 i t :
  unique_pids k → (∀ j, j ≠ current k → keeps_at k k1 j) → i ≠ current k → task_at k i = Some t →
  pid t = father (relation me) →
  ∃ t', task_at (notify_father me (current k) k1) i = Some t' ∧ notified SIGCHLD t'.
Proof.
  intros Hu Hk Hi Ht Hp. unfold notify_father.
  destruct (keeps_at_fwd _ _ _ _ (Hk i Hi) Ht) as (t1 & Ht1 & Hkt).
  destruct (find_slot _ k1) as [s|] eqn:Hs.
  - apply find_slot_Some in Hs as (t2 & Ht2 & [Hs%bool_decide_eq_true Hp2%Z.eqb_eq]%andb_prop & _).
    destruct (keeps_at_back _ _ _ _ (Hk s Hs) Ht2) as (t0 & Ht0 & Hkt0).
    assert (i = s) as <- by (eapply Hu; [done|done|rewrite Hp, <- Hp2; apply (kp_pid _ _ Hkt0)]).
    eapply notified_at; [unfold SIGCHLD; lia|done].
  - eapply find_slot_None in Hs; [|exact Ht1]. rewrite bool_decide_eq_true_2, (kp_pid _ _ Hkt), Hp, Z.eqb_refl in Hs by done.
    done.
Qed.

Lemma exit_update_others code me k i t :
  unique_pids k → i ≠ current k → task_at k i = Some t →
  let k' := exit_update code me k in
  keeps_at k k' i ∧
  (leader (relation me) = true → session (relation t) = session (relation me) →
     ∃ t', task_at k' i = Some t' ∧ notified SIGHUP t') ∧
  (pid t = father (relation me) → ∃ t', task_at k' i = Some t' ∧ notified SIGCHLD t') ∧
  (pid t = 1 → (∃ j tj, j ≠ current k ∧ task_at k j = Some tj ∧ father (relation tj) = pid me ∧
                        state (sched tj) = Zombie) →
     ∃ t', task_at k' i = Some t' ∧ notified SIGCHLD t').
Proof.
  intros Hu Hi Ht k'. unfold k'. rewrite exit_update_stages. set (k1 := hangup me k).
  set (k3 := notify_init me k k1). set (k4 := update_task _ _ k3).
  assert (∀ j, keeps_at k k1 j) as H1 by (intros; apply hangup_keeps).
  assert (∀ j, keeps_at k1 k3 j) as H3 by (intros; apply notify_init_keeps).
  assert (∀ j, j ≠ current k → keeps_at k3 k4 j) as H4 by (intros; by apply zombie_keeps).
  assert (∀ j, keeps_at k4 (notify_father me (current k) k4) j) as H5 by (intros; apply notify_father_keeps).
  assert (∀ j, j ≠ current k → keeps_at k k4 j) as Hk4 by eauto using keeps_at_trans.
  split_and!.
  - eauto using keeps_at_trans.
  - intros Hl Hs. destruct (hangup_notified me k i Hi t Ht Hl Hs) as (t1 & Ht1 & ?).
    eapply keeps_at_notified; [|exact Ht1|done]. eauto using keeps_at_trans.
  - intros Hp. by eapply notify_father_notified.
  - intros Hp (j & tj & Hj & Htj & Hf & Hz).
    destruct (kin_k_fwd _ _ _ _ (hangup_kin me k) Htj) as (tj1 & Htj1 & [_ Hf1 _ Hz1]).
    destruct (notify_init_notified me k k1 i t j tj1) as (t1 & Ht1 & ?); try done; [congruence|tauto|].
    eapply keeps_at_notified; [|exact Ht1|done]. eauto using keeps_at_trans.
Qed.

Lemma keeps_at_tasks k1 k2 k3 i : keeps_at k1 k2 i → tasks k3 = tasks k2 → keeps_at k1 k3 i.
Proof. intros H E. unfold keeps_at, task_at in *. by rewrite E. Qed.

(** ** Properties *)

(** C9: In every kernel state the modelled steps can reach from boot, no two
    tasks have the same pid, the idle task is there, the running task is not a
    zombie, and the father of every other task is init or a task that has not
    exited.  There [schedule] always returns, and exit by any task but the idle
    one switches to another task: its final panic is not reached at once.  Wait
    queues may wake any task at any time, a zombie as well, which then counts as
    a live task (in the kernel it runs on into that panic). *)
Theorem process_tree k :
  rtc step boot_kernel k →
  unique_pids k ∧
  (∃ t, task_at k 0 = Some t ∧ pid t = 0) ∧
  (∃ t, current_task k = Some t ∧ state (sched t) ≠ Zombie) ∧
  (∀ i t, task_at k i = Some t → i ≠ 0%nat →
     father (relation t) = 1 ∨
     ∃ j tj, j ≠ i ∧ task_at k j = Some tj ∧ pid tj = father (relation t) ∧ state (sched tj) ≠ Zombie) ∧
  (∃ k', schedule k = Ok k') ∧
  (current k ≠ 0%nat → ∀ code, ∃ k', exit_process code k = Ok k' ∧ current k' ≠ current k).
Proof.
  intros Hr%reachable_tree. destruct (Hr) as [Hf Ha]. split_and!.
  - exact (tr_unique _ Hf).
  - destruct (tr_idle _ Hf) as (t & ? & ? & _). by exists t.
  - done.
  - exact (tr_father _ Hf).
  - destruct (schedule_forest k Hf) as (k' & ? & _). by exists k'.
  - intros Hc code. destruct Ha as (me & Hme & _).
    destruct (exit_process_spec code k me Hr Hme Hc) as (k' & ? & _ & ? & _). by exists k'.
Qed.

Lemma process_tree_witness :
  ∃ k, rtc step boot_kernel k ∧ current k = 1%nat ∧ unique_pids k.
Proof.
  destruct (schedule boot_kernel) as [k| |] eqn:Hk; [|vm_compute in Hk; discriminate..].
  assert (rtc step boot_kernel k) as Hr by (eapply rtc_l; [apply step_schedule, Hk|apply rtc_refl]).
  exists k. split; [exact Hr|]. split; [vm_compute in Hk; injection Hk as <-; reflexivity|].
  apply (process_tree k Hr).
Defined.

(** When a task other than the idle one exits, it becomes a zombie that holds
    the exit code, no memory and no open file, until it is waited for.  Its
    children pass to init.  Its father, the tasks of its session if it leads
    one, and init if it inherits a dead child have the signal pending and are
    not left in interruptible sleep. *)
Theorem exit_notifies code k me :
  tree k → current_task k = Some me → current k ≠ 0%nat →
  ∃ k', exit_process code k = Ok k' ∧
    (∃ z, task_at k' (current k) = Some z ∧ pid z = pid me ∧ state (sched z) = Zombie ∧
       exit_code z = code ∧ memory_space z = None ∧ ∀ fd f, open_files (fs z) !! fd ≠ Some (Some f)) ∧
    ∀ i t, i ≠ current k → task_at k i = Some t →
      ∃ t', task_at k' i = Some t' ∧ pid t' = pid t ∧
        father (relation t') = (if decide (father (relation t) = pid me) then 1 else father (relation t)) ∧
        (pid t = father (relation me) → notified SIGCHLD t') ∧
        (leader (relation me) = true → session (relation t) = session (relation me) → notified SIGHUP t') ∧
        (pid t = 1 → (∃ j tj, j ≠ current k ∧ task_at k j = Some tj ∧ father (relation tj) = pid me ∧
                              state (sched tj) = Zombie) → notified SIGCHLD t').
Proof.
  intros Htree Hme Hc. destruct (exit_process_spec code k me Htree Hme Hc) as (k' & Hk' & _ & _ & Htasks).
  exists k'. split; [done|]. pose proof (exit_update_effect code me k) as He.
  set (k1 := exit_update code me k) in *.
  assert (∀ i, keeps_at k1 k' i) as Hkp by (intros; eapply keeps_at_tasks; [apply keeps_at_refreshed|done]).
  assert (kin_k k1 (with_tasks k1 (tasks k'))) as Hkin.
  { rewrite Htasks. pose proof (refreshed_kin k1) as [? ? ? Hkt]. split; try done. }
  split.
  - pose proof (ee_task _ _ _ _ He (current k)) as Hi. unfold current_task in Hme. rewrite Hme in Hi.
    destruct (task_at k1 (current k)) as [t1|] eqn:Ht1; [|done].
    destruct Hi as (Hp & _ & Hz & _ & (Hcode & Hmem & Hfiles)%(λ f, f eq_refl)).
    destruct (keeps_at_fwd _ _ _ _ (Hkp _) Ht1) as (z & Hz' & [Hpz _ _ Hst (He1 & He2 & He3)]).
    exists z. rewrite He1, He2, He3. split_and!; try done; [congruence|]. destruct Hst as [->|[Hst _]]; [apply Hz; by left|].
    assert (state (sched t1) = Zombie) by (apply Hz; by left). congruence.
  - intros i t Hi Ht. destruct (exit_update_others code me k i t (tr_unique _ (proj1 Htree)) Hi Ht) as (Hk1 & Hh & Hch & Hin).
    fold k1 in Hk1, Hh, Hch, Hin. destruct (keeps_at_fwd _ _ _ _ Hk1 Ht) as (t1 & Ht1 & Hkt).
    destruct (kin_k_fwd _ _ _ _ Hkin Ht1) as (t' & Ht' & [Hp Hfa _ _]).
    change (task_at k' i = Some t') in Ht'.
    assert (∀ n, (∃ t1, task_at k1 i = Some t1 ∧ notified n t1) → notified n t') as Hn.
    { intros n (t1' & ? & ?). destruct (keeps_at_notified n k1 k' i t1') as (t2 & ? & ?); try done. congruence. }
    exists t'. split_and!; auto.
    + rewrite Hp. apply (kp_pid _ _ Hkt).
    + rewrite Hfa. pose proof (ee_task _ _ _ _ He i) as Hei. rewrite Ht, Ht1 in Hei.
      destruct Hei as (_ & _ & _ & -> & _). by repeat case_decide; try tauto.
Qed.

(** A shell (pid 2, leader of session 2) with one running and one dead child. *)
Definition family_task (p f s : Z) (st : TaskState) : Task :=
  mkTask p (mkSched st 5 15) (mkRelation f s s (p =? s)) (mkIdentity 0 0 0 0 0 0)
    (mkAcct 0 0 0 0) (Some 0%nat) (mkLayout 0 0 0 0) 0 0
    (mkFs 18 (Some 0%nat) (Some 0%nat) None 0 (Some 3%nat :: replicate 19 None)) no_signals.
Definition family : Kernel :=
  mkKernel ([Some (boot_task 0 (2 ^ 32 - 1)); Some (family_task 1 0 1 Interruptible);
             Some (family_task 2 1 2 Running); Some (family_task 3 2 2 Interruptible);
             Some (family_task 4 2 2 Zombie)] ++ replicate 59 None) 4 2 5 [].

Lemma family_lookup i t : task_at family i = Some t →
  (i = 0%nat ∧ t = boot_task 0 (2 ^ 32 - 1)) ∨ (i = 1%nat ∧ t = family_task 1 0 1 Interruptible) ∨
  (i = 2%nat ∧ t = family_task 2 1 2 Running) ∨ (i = 3%nat ∧ t = family_task 3 2 2 Interruptible) ∨
  (i = 4%nat ∧ t = family_task 4 2 2 Zombie).
Proof.
  intros Ht%task_at_Some. unfold family in Ht. cbn [tasks app] in Ht.
  destruct i as [|[|[|[|[|i]]]]]; cbn [lookup list_lookup] in Ht; try (injection Ht as <-; tauto).
  by apply lookup_replicate in Ht as [? _].
Qed.

Lemma family_tree : tree family.
Proof.
  split; [split|].
  - split; [done| |done|by eexists]. intros i t Ht%family_lookup.
    destruct_or! Ht; destruct Ht as [_ ->]; split; simpl; lia.
  - intros i j ti tj Hi%family_lookup Hj%family_lookup.
    destruct_or! Hi; destruct Hi as [-> ->]; destruct_or! Hj; destruct Hj as [-> ->]; by intros.
  - by exists (boot_task 0 (2 ^ 32 - 1)).
  - intros i t Hi%family_lookup Hne. destruct_or! Hi; destruct Hi as [-> ->]; [done| |by left| |]; right.
    + by exists 0%nat, (boot_task 0 (2 ^ 32 - 1)).
    + by exists 2%nat, (family_task 2 1 2 Running).
    + by exists 2%nat, (family_task 2 1 2 Running).
  - by exists (family_task 2 1 2 Running).
Qed.

Lemma exit_notifies_witness :
  ∃ k', exit_process 256 family = Ok k' ∧
    ∃ t', task_at k' 1 = Some t' ∧ notified SIGCHLD t'.
Proof.
  destruct (exit_notifies 256 family (family_task 2 1 2 Running) family_tree eq_refl) as (k' & Hk & _ & H).
  { discriminate. }
  exists k'. split; [exact Hk|].
  destruct (H 1%nat (family_task 1 0 1 Interruptible)) as (t' & Ht & _ & _ & Hn & _); [discriminate|reflexivity|].
  exists t'. split; [exact Ht|]. apply Hn. reflexivity.
Defined.

(** A child the call may report now. *)
Definition reportable (options : Z) (t : Task) : Prop :=
  state (sched t) = Zombie ∨ state (sched t) = Stopped ∧ Z.land options WUNTRACED ≠ 0.

Lemma child_report_None options i t : child_report options (i, t) = None → ¬ reportable options t.
Proof.
  unfold child_report, reportable. intros Hn [Hz|[Hs Ho]].
  - by rewrite Hz in Hn.
  - rewrite Hs in Hn. apply Z.eqb_neq in Ho. by rewrite Ho in Hn.
Qed.

Lemma task_at_reap i t k j :
  task_at (reap i t k) j =
  if decide (j = i) then None
  else if decide (j = current k) then add_child_times (utime (acct t)) (stime (acct t)) <$> task_at k j
  else task_at k j.
Proof.
  unfold reap. rewrite task_at_remove. case_decide; [done|]. unfold update_current.
  rewrite task_at_update. case_decide; [done|]. by destruct (task_at k j).
Qed.

(** One pass of [waitpid] has exactly these outcomes.  It reports a matching
    child that is a zombie or, with WUNTRACED, stopped; a reported zombie is
    removed from the table with its times added to the caller's, and nothing
    else changes.  With no such child it fails with ECHILD when no matching
    child is alive, returns 0 at once under WNOHANG, and otherwise puts the
    caller to interruptible sleep. *)
Theorem wait_outcome p options k me o k' :
  current_task k = Some me → wait_poll p options k = (o, k') →
  let nothing := ∀ i t, is_child p me k i t → ¬ reportable options t in
  let live := ∃ i t, is_child p me k i t ∧ is_live t = true in
  match o with
  | Some (Ok (cpid, Some st)) => ∃ i t, is_child p me k i t ∧ cpid = pid t ∧ reportable options t ∧
      (state (sched t) = Stopped → st = 127 ∧ k' = k) ∧
      (state (sched t) = Zombie → st = as_u32 (exit_code t) ∧ task_at k' i = None ∧
         current_task k' = Some (add_child_times (utime (acct t)) (stime (acct t)) me) ∧
         ∀ j, j ≠ i → j ≠ current k → task_at k' j = task_at k j)
  | Some (Ok (r, None)) => r = 0 ∧ k' = k ∧ Z.land options WNOHANG ≠ 0 ∧ nothing ∧ live
  | Some (Err e) => e = CHILD ∧ k' = k ∧ nothing ∧ ¬ live
  | Some Panic => False
  | None => Z.land options WNOHANG = 0 ∧ nothing ∧ live ∧
      k' = update_current (λ t, with_state t Interruptible) k
  end.
Proof.
  intros Hme. unfold wait_poll. rewrite Hme. cbv zeta.
  pose proof (scan_children_spec p options me k) as Hs.
  destruct (scan_children p options me k) as [[cpid st|slot cpid st ut stm| |] k1].
  - destruct Hs as (-> & i & t & Hc & -> & -> & Hst & Ho). intros [= <- <-]. exists i, t.
    split_and!; try done; [by right|]. by rewrite Hst.
  - destruct Hs as (t & Hc & -> & -> & Hst & ->). intros [= <- <-]. exists slot, t.
    pose proof Hc as (_ & Hne & _). split_and!; try done; [by left|by rewrite Hst|]. intros _.
    split_and!; [done|by rewrite task_at_reap, decide_True| |].
    + unfold current_task in *. rewrite task_at_reap.
      rewrite decide_False by (intros E; by apply Hne). rewrite decide_True by done.
      change (current (reap slot t k)) with (current k). by rewrite Hme.
    + intros j Hj Hjc. by rewrite task_at_reap, !decide_False.
  - destruct Hs as (-> & Hn & Hl). destruct (Z.eqb_spec (Z.land options WNOHANG) 0); simpl;
      intros [= <- <-]; split_and!; try done; intros i t Hc; by eapply child_report_None, Hn.
  - destruct Hs as (-> & Hn). intros [= <- <-]. split_and!; try done.
    + intros i t [Hst Ho]%Hn [Hz|[_ ?]]; [congruence|done].
    + intros (i & t & [Hst _]%Hn & Hl). unfold is_live in Hl. by rewrite Hst in Hl.
Qed.

Lemma wait_outcome_witness :
  ∃ k', wait_poll (-1) 0 family = (Some (Ok (4, Some 0)), k') ∧ task_at k' 4 = None.
Proof.
  destruct (wait_poll (-1) 0 family) as [o k'] eqn:Hw.
  pose proof (wait_outcome (-1) 0 family (family_task 2 1 2 Running) o k' eq_refl Hw) as H.
  vm_compute in Hw. injection Hw as <- <-.
  eexists. split; [reflexivity|]. destruct H as (i & t & (Ht & _) & Hp & _ & _ & _).
  reflexivity.
Defined.

Lemma setreuid_spec r e i res i' :
  sys_setreuid_impl r e i = (res, i') →
  (res = Ok 0 ∨ res = Err PERM ∧ i' = i) ∧
  (gid i' = gid i ∧ egid i' = egid i ∧ sgid i' = sgid i) ∧
  (euid i ≠ 0 → uid i' ∈ [uid i; euid i] ∧ euid i' ∈ [uid i; euid i; suid i] ∧ suid i' = suid i) ∧
  (euid i = 0 → res = Ok 0 ∧ uid i' = (if 0 <? r then as_u16 r else uid i) ∧
     euid i' = (if 0 <? e then as_u16 e else 0) ∧ suid i' = (if 0 <? e then as_u16 e else suid i)).
Proof.
  unfold sys_setreuid_impl. destruct i as [u eu su g eg sg]; simpl.
  destruct (Z.eqb_spec eu 0) as [->|Hs]; rewrite ?orb_true_r, ?orb_false_r.
  - destruct (0 <? r), (0 <? e); intros [= <- <-]; simpl; tauto.
  - destruct (0 <? r), (0 <? e); simpl;
      repeat match goal with |- context [?a =? as_u16 ?b] => destruct (Z.eqb_spec a (as_u16 b)) end;
      simpl; intros [= <- <-]; simpl; split_and!; try tauto; intros; split_and?; try done;
      rewrite ?list_elem_of_cons; subst; set_solver.
Qed.

Lemma setregid_spec r e i res i' :
  sys_setregid_impl r e i = (res, i') →
  (res = Ok 0 ∨ res = Err PERM ∧ i' = i) ∧
  (uid i' = uid i ∧ euid i' = euid i ∧ suid i' = suid i ∧ sgid i' = sgid i) ∧
  (euid i ≠ 0 → gid i' = gid i ∧ egid i' ∈ [gid i; egid i; sgid i]) ∧
  (euid i = 0 → res = Ok 0 ∧ gid i' = (if 0 <? r then as_u16 r else gid i) ∧
     egid i' = (if 0 <? e then as_u16 e else egid i)).
Proof.
  unfold sys_setregid_impl. destruct i as [u eu su g eg sg]; simpl.
  destruct (Z.eqb_spec eu 0) as [->|Hs]; rewrite ?orb_true_r, ?orb_false_r.
  - destruct (0 <? r), (0 <? e); simpl; rewrite ?orb_true_r; intros [= <- <-]; simpl; tauto.
  - destruct (0 <? r), (0 <? e); simpl;
      repeat match goal with |- context [?a =? as_u16 ?b] => destruct (Z.eqb_spec a (as_u16 b)) end;
      simpl; intros [= <- <-]; simpl; split_and!; try tauto; intros; split_and?; try done;
      subst; set_solver.
Qed.

(** [setreuid] and [setregid] (and [setuid], [setgid], which call them) fail
    with EPERM exactly as a whole, leaving every id as it was.  A caller whose
    effective user id is not 0 only ever moves its user ids among the three it
    has, its saved id excluded as a new real one, and never changes its real
    group id; a superuser's call succeeds.  Ids are cut to 16 bits, and an
    argument that is not positive leaves its id unchanged. *)
Theorem identity_calls r e i :
  let '(res, i') := sys_setreuid_impl r e i in
  let '(res', i'') := sys_setregid_impl r e i in
  (res = Ok 0 ∨ res = Err PERM ∧ i' = i) ∧ (res' = Ok 0 ∨ res' = Err PERM ∧ i'' = i) ∧
  (gid i' = gid i ∧ egid i' = egid i ∧ sgid i' = sgid i) ∧
  (uid i'' = uid i ∧ euid i'' = euid i ∧ suid i'' = suid i ∧ sgid i'' = sgid i) ∧
  (euid i ≠ 0 →
     uid i' ∈ [uid i; euid i] ∧ euid i' ∈ [uid i; euid i; suid i] ∧ suid i' = suid i ∧
     gid i'' = gid i ∧ egid i'' ∈ [gid i; egid i; sgid i]) ∧
  (euid i = 0 →
     res = Ok 0 ∧ res' = Ok 0 ∧
     uid i' = (if 0 <? r then as_u16 r else uid i) ∧ euid i' = (if 0 <? e then as_u16 e else 0) ∧
     suid i' = (if 0 <? e then as_u16 e else suid i) ∧
     gid i'' = (if 0 <? r then as_u16 r else gid i) ∧
     egid i'' = (if 0 <? e then as_u16 e else egid i)).
Proof.
  destruct (sys_setreuid_impl r e i) as [res i'] eqn:Hu, (sys_setregid_impl r e i) as [res' i''] eqn:Hg.
  apply setreuid_spec in Hu as (? & ? & ? & ?). apply setregid_spec in Hg as (? & ? & ? & ?).
  split_and!; try tauto; intros; naive_solver.
Qed.
End Process.
