(* ===== verification/Signal.v ===== *)
(** * Signals
    ([kernel/src/signal.rs], [kernel/src/syscall/handler/process/signal.rs],
    [user_lib/src/syscall/signal.rs] and the two return frames of
    [kernel/src/syscall/context.rs] and [kernel/src/task/timer.rs])

    The signal names user programs parse, the signal system calls, and the
    delivery of one pending signal on the way back to user mode. *)

From S2P Require Import Prelude Task Process.
From Stdlib Require String Ascii.
Open Scope Z_scope.

(** ** Names *)

Module Names.
Import Task String Ascii.
Local Open Scope string_scope.
Local Open Scope Z_scope.

Inductive Signal : Set :=
| Hup | Int | Quit | Ill | Trap | Abrt | Bus | Fpe | Kill | Usr1 | Segv | Usr2 | Pipe | Alrm | Term
| Stkflt | Chld | Cont | Stop | Tstp | Ttin | Ttou | Urg | Xcpu | Xfsz | Vtalrm | Prof | Winch | Io
| Pwr | Sys.

#[global] Instance Signal_eq_dec : EqDecision Signal.
Proof. solve_decision. Defined.

Definition number (s : Signal) : Z :=
  match s with
  | Hup => 1 | Int => 2 | Quit => 3 | Ill => 4 | Trap => 5 | Abrt => 6 | Bus => 7 | Fpe => 8
  | Kill => 9 | Usr1 => 10 | Segv => 11 | Usr2 => 12 | Pipe => 13 | Alrm => 14 | Term => 15
  | Stkflt => 16 | Chld => 17 | Cont => 18 | Stop => 19 | Tstp => 20 | Ttin => 21 | Ttou => 22
  | Urg => 23 | Xcpu => 24 | Xfsz => 25 | Vtalrm => 26 | Prof => 27 | Winch => 28 | Io => 29
  | Pwr => 30 | Sys => 31
  end.

Definition from_u32 (raw : Z) : option Signal :=
  match raw with
  | 1 => Some Hup | 2 => Some Int | 3 => Some Quit | 4 => Some Ill | 5 => Some Trap
  | 6 => Some Abrt | 7 => Some Bus | 8 => Some Fpe | 9 => Some Kill | 10 => Some Usr1
  | 11 => Some Segv | 12 => Some Usr2 | 13 => Some Pipe | 14 => Some Alrm | 15 => Some Term
  | 16 => Some Stkflt | 17 => Some Chld | 18 => Some Cont | 19 => Some Stop | 20 => Some Tstp
  | 21 => Some Ttin | 22 => Some Ttou | 23 => Some Urg | 24 => Some Xcpu | 25 => Some Xfsz
  | 26 => Some Vtalrm | 27 => Some Prof | 28 => Some Winch | 29 => Some Io | 30 => Some Pwr
  | 31 => Some Sys
  | _ => None
  end.

Definition name (s : Signal) : string :=
  match s with
  | Hup => "HUP" | Int => "INT" | Quit => "QUIT" | Ill => "ILL" | Trap => "TRAP" | Abrt => "ABRT"
  | Bus => "BUS" | Fpe => "FPE" | Kill => "KILL" | Usr1 => "USR1" | Segv => "SEGV"
  | Usr2 => "USR2" | Pipe => "PIPE" | Alrm => "ALRM" | Term => "TERM" | Stkflt => "STKFLT"
  | Chld => "CHLD" | Cont => "CONT" | Stop => "STOP" | Tstp => "TSTP" | Ttin => "TTIN"
  | Ttou => "TTOU" | Urg => "URG" | Xcpu => "XCPU" | Xfsz => "XFSZ" | Vtalrm => "VTALRM"
  | Prof => "PROF" | Winch => "WINCH" | Io => "IO" | Pwr => "PWR" | Sys => "SYS"
  end.

(** [char::to_digit(10)], [u8::to_ascii_uppercase] and [str::parse::<u32>] of
    the Rust library. *)
Definition digit (c : ascii) : option Z :=
  let n := Z.of_nat (nat_of_ascii c) in
  if (48 <=? n) && (n <=? 57) then Some (n - 48) else None.

Definition upper (c : ascii) : ascii :=
  let n := nat_of_ascii c in
  if (97 <=? n)%nat && (n <=? 122)%nat then ascii_of_nat (n - 32) else c.

Fixpoint to_ascii_uppercase (s : string) : string :=
  match s with
  | EmptyString => EmptyString
  | String c s => String (upper c) (to_ascii_uppercase s)
  end.

Fixpoint parse_digits (acc : Z) (s : string) : option Z :=
  match s with
  | EmptyString => Some acc
  | String c s =>
      d ← digit c;
      let acc := acc * 10 + d in
      if acc <? 2 ^ 32 then parse_digits acc s else None
  end.

Definition parse_u32 (s : string) : option Z :=
  match s with
  | EmptyString => None
  | String "+" EmptyString => None
  | String "+" s => parse_digits 0 s
  | s => parse_digits 0 s
  end.

Definition starts_with (p s : string) : bool := String.prefix p s.

Definition parse_name (s : string) : option Signal :=
  match s with
  | "HUP" => Some Hup | "INT" => Some Int | "QUIT" => Some Quit | "ILL" => Some Ill
  | "TRAP" => Some Trap | "ABRT" | "IOT" => Some Abrt | "BUS" => Some Bus | "FPE" => Some Fpe
  | "KILL" => Some Kill | "USR1" => Some Usr1 | "SEGV" => Some Segv | "USR2" => Some Usr2
  | "PIPE" => Some Pipe | "ALRM" => Some Alrm | "TERM" => Some Term | "STKFLT" => Some Stkflt
  | "CHLD" | "CLD" => Some Chld | "CONT" => Some Cont | "STOP" => Some Stop | "TSTP" => Some Tstp
  | "TTIN" => Some Ttin | "TTOU" => Some Ttou | "URG" => Some Urg | "XCPU" => Some Xcpu
  | "XFSZ" => Some Xfsz | "VTALRM" => Some Vtalrm | "PROF" => Some Prof | "WINCH" => Some Winch
  | "IO" | "POLL" => Some Io | "PWR" => Some Pwr | "SYS" | "UNUSED" => Some Sys
  | _ => None
  end.

(** [Signal::parse] *)
Definition parse (raw : string) : option Signal :=
  let name := if (3 <? Z.of_nat (String.length raw)) && (starts_with "SIG" raw || starts_with "sig" raw)
              then String.substring 3 (String.length raw - 3) raw
              else raw in
  match parse_u32 name with
  | Some num => from_u32 num
  | None => parse_name (to_ascii_uppercase name)
  end.

Definition all_signals : list Signal :=
  [Hup; Int; Quit; Ill; Trap; Abrt; Bus; Fpe; Kill; Usr1; Segv; Usr2; Pipe; Alrm; Term; Stkflt; Chld;
   Cont; Stop; Tstp; Ttin; Ttou; Urg; Xcpu; Xfsz; Vtalrm; Prof; Winch; Io; Pwr; Sys].

Lemma from_u32_number s : from_u32 (number s) = Some s.
Proof. by destruct s. Qed.

Lemma from_u32_Some n s : from_u32 n = Some s → number s = n.
Proof.
  unfold from_u32. intros H.
  repeat match type of H with context [match ?x with _ => _ end] => is_var x; destruct x end;
    try discriminate H; by injection H as <-.
Qed.

Lemma substring_all s : String.substring 0 (String.length s) s = s.
Proof. induction s as [|c s IH]; [done|]. simpl. by rewrite IH. Qed.

Lemma substring_app p s :
  String.substring (String.length p) (String.length s) (p ++ s) = s.
Proof. induction p as [|c p IH]; simpl; [apply substring_all|done]. Qed.

Lemma length_append p s : String.length (p ++ s) = (String.length p + String.length s)%nat.
Proof. induction p as [|c p IH]; simpl; [done|by rewrite IH]. Qed.

(** Nothing that upcases to a signal name starts with [sig] or is a number. *)
Lemma upper_cons s c u : to_ascii_uppercase s = String c u → ∃ d s', s = String d s' ∧ upper d = c ∧ to_ascii_uppercase s' = u.
Proof. destruct s as [|d s']; simpl; [done|]. intros [= <- <-]. by exists d, s'. Qed.

Lemma upper_digit d : digit d ≠ None → upper d = d.
Proof.
  unfold digit, upper. intros Hd. destruct ((48 <=? _) && _) eqn:E; [|done].
  apply andb_prop in E as [H1%Z.leb_le H2%Z.leb_le].
  destruct ((97 <=? _)%nat && _) eqn:E'; [|done]. apply andb_prop in E' as [H3%Nat.leb_le _]. lia.
Qed.

Lemma parse_u32_name s x : to_ascii_uppercase s = name x → parse_u32 s = None.
Proof.
  intros H. assert (∃ c u, name x = String c u ∧ digit c = None ∧ c ≠ "+"%char) as (c & u & Hx & Hc & Hp).
  { destruct x; eexists _, _; split_and!; try reflexivity; discriminate. }
  rewrite Hx in H. apply upper_cons in H as (d & s' & -> & Hd & _).
  assert (digit d = None) as Hdig.
  { destruct (digit d) eqn:E; [|done]. exfalso. assert (upper d = d) as E' by (apply upper_digit; congruence).
    congruence. }
  assert (d ≠ "+"%char) as Hplus by (intros ->; by apply Hp).
  unfold parse_u32. destruct d as [[] [] [] [] [] [] [] []]; simpl; try done; by destruct Hplus.
Qed.

Lemma not_sig s x p : to_ascii_uppercase p = "SIG" → to_ascii_uppercase s = name x → starts_with p s = false.
Proof.
  intros Hp Hs. unfold starts_with. destruct (String.prefix p s) eqn:E; [exfalso|done].
  destruct p as [|p1 [|p2 [|p3 [|? ?]]]]; try done. simpl in Hp. injection Hp as H1 H2 H3.
  assert (∃ s', s = String p1 (String p2 (String p3 s'))) as [s' ->].
  { destruct s as [|a [|b [|c s']]]; simpl in E; repeat (destruct (ascii_dec _ _); [subst|done]); try done.
    by exists s'. }
  simpl in Hs. rewrite H1, H2, H3 in Hs. by destruct x.
Qed.

Lemma parse_name_name x : parse_name (name x) = Some x.
Proof. by destruct x. Qed.

Lemma parse_upper s x : to_ascii_uppercase s = name x → parse s = Some x.
Proof.
  intros H. unfold parse. rewrite (not_sig s x "SIG"), (not_sig s x "sig") by done.
  change (false || false) with false. rewrite andb_false_r. cbv zeta.
  by rewrite (parse_u32_name s x), H, parse_name_name.
Qed.

Lemma parse_prefixed p s x :
  p = "SIG" ∨ p = "sig" → to_ascii_uppercase s = name x → parse (p ++ s) = Some x.
Proof.
  intros Hp H. assert (String.length p = 3%nat) as Hl by (by destruct Hp as [->| ->]).
  assert ((starts_with "SIG" (p ++ s) || starts_with "sig" (p ++ s)) = true) as Hst.
  { destruct Hp as [->| ->]; unfold starts_with; simpl; [by destruct s|]. by destruct s. }
  assert (s ≠ EmptyString) as Hne by (intros ->; by destruct x).
  unfold parse. rewrite Hst, length_append, Hl, andb_true_r.
  assert ((3 <? Z.of_nat (3 + String.length s)) = true) as ->.
  { apply Z.ltb_lt. destruct s; simpl; [done|lia]. }
  assert (String.substring 3 (3 + String.length s - 3) (p ++ s) = s) as ->.
  { replace (3 + String.length s - 3)%nat with (String.length s) by lia. rewrite <- Hl. apply substring_app. }
  cbv zeta. by rewrite (parse_u32_name s x), H, parse_name_name.
Qed.

(** Every signal is recognised from its number, and from its name in any mix
    of case, bare or after SIG or sig; what [from_u32] accepts are exactly the
    numbers 1 to 31. *)
Theorem signal_names :
  (∀ n s, from_u32 n = Some s ↔ number s = n) ∧
  (∀ n, is_Some (from_u32 n) ↔ 1 ≤ n ≤ 31) ∧
  ∀ s raw, to_ascii_uppercase raw = name s →
    parse raw = Some s ∧ parse ("SIG" ++ raw) = Some s ∧ parse ("sig" ++ raw) = Some s.
Proof.
  split_and!.
  - intros n s. split; [apply from_u32_Some|]. intros <-. apply from_u32_number.
  - intros n. split.
    + intros [s <-%from_u32_Some]. by destruct s.
    + intros Hn. assert (n ∈ number <$> all_signals) as (s & -> & _)%list_elem_of_fmap.
      { assert (∃ m, n = Z.of_nat m ∧ (1 ≤ m ≤ 31)%nat) as (m & -> & Hm) by (exists (Z.to_nat n); lia).
        do 32 (destruct m as [|m]; [try lia; set_solver|]). lia. }
      eexists. apply from_u32_number.
  - intros s raw H. split_and!; [by apply parse_upper| |]; apply parse_prefixed; auto.
Qed.

Example parse_examples :
  parse "9" = Some Kill ∧ parse "sigkill" = Some Kill ∧ parse "SIGwInCh" = Some Winch ∧
  parse "SIG" = None ∧ parse "+15" = Some Term ∧ parse "4294967305" = None ∧ parse "SigKill" = None.
Proof. vm_compute. done. Qed.

End Names.

(** ** Delivery *)

Module Delivery.
Import Task Process.

Definition SIG_DFL : Z := 0.
Definition SIG_IGN : Z := 1.
Definition NO_MASK : Z := 2 ^ 30.
Definition ONE_SHOT : Z := 2 ^ 31.

Record DeliverAction : Type := mkDeliver {
  d_handler : Z; d_restorer : Z; d_signal : Z; d_blocked : Z; d_flags : Z; d_mask : Z;
}.

Record SignalSavedRegisters : Type := mkRegs {
  r_eax : Z; r_ecx : Z; r_edx : Z; r_eflags : Z; r_eip : Z;
}.

(** The user stores, in program order. *)
Definition Stores : Type := list (Z * Z).

Definition push_word (v : Z) (s : Z * Stores) : Z * Stores :=
  (wrapping_add s.1 4, (s.2 ++ [(s.1, v)])%list).

(** The stores go through [ensure_user_area_writable], which gives the user
    private pages and leaves their contents. *)
Definition push_user_signal_frame (user_esp restorer signal_number blocked sa_flags : Z)
    (r : SignalSavedRegisters) : Z * Stores :=
  let has_nomask := negb (Z.land sa_flags NO_MASK =? 0) in
  let frame_words := if has_nomask then 7 else 8 in
  let new_esp := wrapping_sub user_esp (frame_words * 4) in
  let s := push_word signal_number (push_word restorer (new_esp, [])) in
  let s := if has_nomask then s else push_word blocked s in
  let s := push_word (r_eflags r) (push_word (r_edx r) (push_word (r_ecx r) (push_word (r_eax r) s))) in
  (new_esp, (s.2 ++ [(s.1, r_eip r)])%list).

(** The trait of the same name; a delivery returns the stores it makes. *)
Class SignalDeliveryFrame (F : Type) := {
  is_returning_to_user : F → bool;
  deliver_signal : DeliverAction → F → bool * (F * Stores);
}.

Definition USER_CS : Z := 15.
Definition USER_DS : Z := 23.

Record SyscallContext : Type := mkCtx {
  gs : Z; esi : Z; edi : Z; ebp : Z; eax : Z; ebx : Z; ecx : Z; edx : Z; fs : Z; es : Z; ds : Z;
  eip : Z; cs : Z; eflags : Z; user_esp : Z; user_ss : Z;
}.

(** The [esp] and [ss] the processor saved above the frame are part of it. *)
Record TimerInterruptFrame : Type := mkTimerFrame {
  t_eax : Z; t_ebx : Z; t_ecx : Z; t_edx : Z; t_fs : Z; t_es : Z; t_ds : Z;
  t_eip : Z; t_cs : Z; t_eflags : Z; t_user_esp : Z; t_user_ss : Z;
}.

Definition ctx_returning (f : SyscallContext) : bool :=
  (Z.land (cs f) 65535 =? USER_CS) && (Z.land (user_ss f) 65535 =? USER_DS).

Definition ctx_deliver (a : DeliverAction) (f : SyscallContext) : bool * (SyscallContext * Stores) :=
  if negb (ctx_returning f) then (false, (f, []))
  else
    let '(new_esp, w) := push_user_signal_frame (user_esp f) (d_restorer a) (d_signal a) (d_blocked a)
                           (d_flags a) (mkRegs (eax f) (ecx f) (edx f) (eflags f) (eip f)) in
    (true, (mkCtx (gs f) (esi f) (edi f) (ebp f) (eax f) (ebx f) (ecx f) (edx f) (fs f) (es f) (ds f)
              (d_handler a) (cs f) (eflags f) new_esp (user_ss f), w)).

#[global] Instance SyscallContext_frame : SignalDeliveryFrame SyscallContext :=
  { is_returning_to_user := ctx_returning; deliver_signal := ctx_deliver }.

Definition timer_returning (f : TimerInterruptFrame) : bool :=
  if negb (Z.land (t_cs f) 65535 =? USER_CS) then false else Z.land (t_user_ss f) 65535 =? USER_DS.

Definition timer_deliver (a : DeliverAction) (f : TimerInterruptFrame) : bool * (TimerInterruptFrame * Stores) :=
  if negb (timer_returning f) then (false, (f, []))
  else
    let '(new_esp, w) := push_user_signal_frame (t_user_esp f) (d_restorer a) (d_signal a) (d_blocked a)
                           (d_flags a) (mkRegs (t_eax f) (t_ecx f) (t_edx f) (t_eflags f) (t_eip f)) in
    (true, (mkTimerFrame (t_eax f) (t_ebx f) (t_ecx f) (t_edx f) (t_fs f) (t_es f) (t_ds f)
              (d_handler a) (t_cs f) (t_eflags f) new_esp (t_user_ss f), w)).

#[global] Instance TimerInterruptFrame_frame : SignalDeliveryFrame TimerInterruptFrame :=
  { is_returning_to_user := timer_returning; deliver_signal := timer_deliver }.

Inductive PendingSignalAction : Type :=
| ActNone
| ActDeliver (d : DeliverAction)
| ActStop
| ActExit (signal_number : Z).

Definition default_action : SigAction := mkSigAction 0 0 0 0.

Definition set_handler (h : Z) (a : SigAction) : SigAction :=
  mkSigAction h (sa_mask a) (sa_flags a) (sa_restorer a).
Definition set_mask (m : Z) (a : SigAction) : SigAction :=
  mkSigAction (sa_handler a) m (sa_flags a) (sa_restorer a).
Definition with_actions (s : TaskSignalInfo) (l : list SigAction) : TaskSignalInfo :=
  mkSignalInfo (signal s) (blocked s) l (alarm s).
Definition with_blocked (s : TaskSignalInfo) (b : Z) : TaskSignalInfo :=
  mkSignalInfo (signal s) b (sigaction s) (alarm s).

(** What to do about the lowest pending signal that is not blocked. *)
Definition pending_action (s : TaskSignalInfo) : PendingSignalAction * TaskSignalInfo :=
  let pending := Z.land (signal s) (unot 32 (blocked s)) in
  if pending =? 0 then (ActNone, s)
  else
    let bit := trailing_zeros 32 pending in
    if (NSIG <=? bit)%nat then (ActNone, s)
    else
      let signal_number := Z.of_nat bit + 1 in
      let s := clear signal_number s in
      let sa := nth bit (sigaction s) default_action in
      if sa_handler sa =? SIG_IGN then (ActNone, s)
      else if sa_handler sa =? SIG_DFL then
        if signal_number =? SIGCHLD then (ActNone, s)
        else if (signal_number =? SIGSTOP) || (signal_number =? SIGTSTP) then (ActStop, s)
        else (ActExit signal_number, s)
      else
        let s' := if Z.land (sa_flags sa) ONE_SHOT =? 0 then s
                  else with_actions s (alter (set_handler SIG_DFL) bit (sigaction s)) in
        (ActDeliver (mkDeliver (sa_handler sa) (sa_restorer sa) signal_number (blocked s') (sa_flags sa)
                       (sa_mask sa)), s').

Inductive Outcome (F : Type) : Type :=
| Continues (f : F) (w : Stores)
| Stopping
| Exiting.
Arguments Continues {F} _ _.
Arguments Stopping {F}.
Arguments Exiting {F}.

Definition as_i32 (x : Z) : Z := if as_u32 x <? 2 ^ 31 then as_u32 x else as_u32 x - 2 ^ 32.

Definition set_signal (f : TaskSignalInfo → TaskSignalInfo) (t : Task) : Task :=
  with_signal t (f (signal_info t)).

(** Stop and exit switch to another task. *)
Definition handle_pending_signal {F} `{SignalDeliveryFrame F} (frame : F) (k : Kernel)
    : result (Outcome F * Kernel) :=
  if negb (is_returning_to_user frame) then Ok (Continues frame [], k)
  else match current_task k with
  | None => Panic
  | Some t =>
      let (action, s) := pending_action (signal_info t) in
      let k := update_current (λ t, with_signal t s) k in
      match action with
      | ActNone => Ok (Continues frame [], k)
      | ActStop =>
          match schedule (update_current (λ t, with_state t Stopped) k) with
          | Ok k => Ok (Stopping, k)
          | Err e => Err e
          | Panic => Panic
          end
      | ActExit n =>
          match exit_process (as_i32 (Z.shiftl 1 (n - 1))) k with
          | Ok k => Ok (Exiting, k)
          | Err e => Err e
          | Panic => Panic
          end
      | ActDeliver d =>
          let '(delivered, (frame, w)) := deliver_signal d frame in
          Ok (Continues frame w,
              if delivered : bool
              then update_current (set_signal (λ s, with_blocked s (Z.lor (blocked s) (d_mask d)))) k
              else k)
      end
  end.

(** ** System calls *)

Definition sys_alarm (j seconds : Z) (s : TaskSignalInfo) : Z * TaskSignalInfo :=
  let old := if (0 <? alarm s) && (j <? alarm s) then (alarm s - j) / HZ else 0 in
  (old, mkSignalInfo (signal s) (blocked s) (sigaction s)
          (if 0 <? seconds then wrapping_add j (as_u32 (HZ * seconds)) else 0)).

Definition sys_pause (k : Kernel) : result Kernel :=
  schedule (update_current (λ t, with_state t Interruptible) k).

Definition sys_sgetmask (s : TaskSignalInfo) : Z := blocked s.

Definition sys_ssetmask (newmask : Z) (s : TaskSignalInfo) : Z * TaskSignalInfo :=
  (blocked s, with_blocked s (Z.land newmask (unot 32 (sig_bit SIGKILL)))).

Definition valid_action_signal (n : Z) : bool :=
  (1 <=? n) && (n <=? Z.of_nat NSIG) && negb (n =? SIGKILL).

Definition sys_signal (n handler restorer : Z) (s : TaskSignalInfo) : result Z * TaskSignalInfo :=
  if negb (valid_action_signal n) then (Err PERM, s)
  else
    let i := Z.to_nat (n - 1) in
    (Ok (sa_handler (nth i (sigaction s) default_action)),
     with_actions s (<[i := mkSigAction handler 0 (Z.lor ONE_SHOT NO_MASK) restorer]> (sigaction s))).

(** The action is read from user space when its address is not null; the old
    action is the value to write back. *)
Definition sys_sigaction (n : Z) (action : option SigAction) (s : TaskSignalInfo)
    : result SigAction * TaskSignalInfo :=
  if negb (valid_action_signal n) then (Err PERM, s)
  else
    let i := Z.to_nat (n - 1) in
    let old := nth i (sigaction s) default_action in
    let l := match action with Some a => <[i := a]> (sigaction s) | None => sigaction s end in
    let new := nth i l default_action in
    let mask := if Z.land (sa_flags new) NO_MASK =? 0 then Z.lor (sa_mask new) (sig_bit n) else 0 in
    (Ok old, with_actions s (alter (set_mask mask) i l)).

(** *** kill *)

Definition kill_matches (p current_pid : Z) (t : Task) : bool :=
  if p =? 0 then pgrp (relation t) =? current_pid
  else if 0 <? p then pid t =? as_u32 p
  else if p =? -1 then true
  else pgrp (relation t) =? as_u32 (- p).

Definition may_signal (me t : Task) : bool :=
  (euid (identity t) =? euid (identity me)) || is_superuser me.

Definition send_signal (n : Z) (skip : bool) (me : Task) (slot : nat) (t : Task) (k : Kernel)
    : result () * Kernel :=
  if skip || may_signal me t then (Ok (), update_task slot (notify n) k) else (Err PERM, k).

(** One turn of the loop over the table. *)
Definition kill_step (p n : Z) (me : Task) (acc : result Z * Kernel) (slot : nat) : result Z * Kernel :=
  let (res, k) := acc in
  match task_at k slot with
  | None => (res, k)
  | Some t =>
      if decide (slot = 0%nat) then (res, k)
      else if kill_matches p (pid me) t
      then match send_signal n (p =? 0) me slot t k with
           | (Err e, k) => (Err e, k)
           | (_, k) => (res, k)
           end
      else (res, k)
  end.

(** The null signal looks for a matching task and sends nothing; the permission
    check only ends the scan early. *)
Fixpoint kill_probe (p : Z) (me : Task) (l : list (nat * Task)) (found : bool) : bool :=
  match l with
  | [] => found
  | (slot, t) :: l =>
      if decide (slot = 0%nat) then kill_probe p me l found
      else if negb (kill_matches p (pid me) t) then kill_probe p me l found
      else if negb (is_superuser me || (euid (identity t) =? euid (identity me))) then true
      else kill_probe p me l true
  end.

Definition slots (k : Kernel) : list (nat * Task) :=
  omap (λ '(i, o), t ← o; Some (i, t)) (imap pair (tasks k)).

Definition sys_kill (p n : Z) (k : Kernel) : result Z * Kernel :=
  match current_task k with
  | None => (Panic, k)
  | Some me =>
      if negb ((0 <=? n) && (n <=? Z.of_nat NSIG)) then (Err INVAL, k)
      else if n =? 0 then
        if p =? 0 then (Ok 0, k)
        else (if kill_probe p me (slots k) false then Ok 0 else Err SRCH, k)
      else fold_left (kill_step p n me) (seq 0 TASK_NUM) (Ok 0, k)
  end.

(** *** The frame *)

Definition has_nomask (flags : Z) : bool := negb (Z.land flags NO_MASK =? 0).

(** The words of a signal frame from its lowest address up. *)
Definition frame_words (a : DeliverAction) (r : SignalSavedRegisters) : list Z :=
  [d_restorer a; d_signal a] ++ (if has_nomask (d_flags a) then [] else [d_blocked a]) ++
  [r_eax r; r_ecx r; r_edx r; r_eflags r; r_eip r].

Definition stores_at (base : Z) (ws : list Z) : Stores :=
  imap (λ i v, (wrap 32 (base + 4 * Z.of_nat i), v)) ws.

(** The builder after the words [ws]. *)
Definition pushed (base : Z) (ws : list Z) : Z * Stores :=
  (wrap 32 (base + 4 * Z.of_nat (length ws)), stores_at base ws).

Lemma stores_at_snoc base ws v :
  stores_at base (ws ++ [v]) = stores_at base ws ++ [(wrap 32 (base + 4 * Z.of_nat (length ws)), v)].
Proof. unfold stores_at. rewrite imap_app. simpl. by rewrite Nat.add_0_r. Qed.

Lemma push_word_pushed base ws v : push_word v (pushed base ws) = pushed base (ws ++ [v]).
Proof.
  unfold push_word, pushed. cbn [fst snd]. rewrite stores_at_snoc. f_equal.
  unfold wrapping_add, wrap. rewrite Zplus_mod_idemp_l, length_app. simpl. f_equal. lia.
Qed.

Lemma push_frame_spec esp a r :
  let base := wrapping_sub esp (4 * Z.of_nat (length (frame_words a r))) in
  push_user_signal_frame esp (d_restorer a) (d_signal a) (d_blocked a) (d_flags a) r =
    (base, stores_at base (frame_words a r)).
Proof.
  cbv zeta. unfold push_user_signal_frame. fold (has_nomask (d_flags a)).
  set (base := wrapping_sub esp _).
  assert (base = wrapping_sub esp (4 * Z.of_nat (length (frame_words a r)))) as <-.
  { unfold base, frame_words. by destruct (has_nomask _). }
  assert ((base, []) = pushed base []) as ->.
  { unfold pushed. rewrite Z.add_0_r. f_equal. symmetry. apply wrap_small.
    unfold is_uint, base, wrapping_sub. apply wrap_bound. lia. }
  rewrite !push_word_pushed. cbv zeta. unfold frame_words.
  destruct (has_nomask _); rewrite ?push_word_pushed; f_equal; apply (eq_sym (stores_at_snoc _ _ _)).
Qed.

(** What a return frame promises to the delivery: it can be delivered to when it
    returns to user mode, and then the handler starts on the pushed frame. *)
Class FrameLaws (F : Type) `{SignalDeliveryFrame F} := {
  saved : F → SignalSavedRegisters;
  user_stack : F → Z;
  deliver_law : ∀ a f, is_returning_to_user f = true →
    ∃ f', deliver_signal a f = (true, (f', (push_user_signal_frame (user_stack f) (d_restorer a)
                                     (d_signal a) (d_blocked a) (d_flags a) (saved f)).2)) ∧
      user_stack f' = (push_user_signal_frame (user_stack f) (d_restorer a) (d_signal a) (d_blocked a)
                         (d_flags a) (saved f)).1 ∧
      saved f' = mkRegs (r_eax (saved f)) (r_ecx (saved f)) (r_edx (saved f)) (r_eflags (saved f)) (d_handler a);
}.

#[local] Obligation Tactic := idtac.

#[global] Program Instance SyscallContext_laws : FrameLaws SyscallContext :=
  { saved f := mkRegs (eax f) (ecx f) (edx f) (eflags f) (eip f); user_stack := user_esp }.
Next Obligation.
  intros a f Hr. change (ctx_returning f = true) in Hr. change (deliver_signal a f) with (ctx_deliver a f).
  unfold ctx_deliver. rewrite Hr. cbn [negb].
  destruct (push_user_signal_frame _ _ _ _ _ _) as [e w]. by eexists.
Qed.

#[global] Program Instance TimerInterruptFrame_laws : FrameLaws TimerInterruptFrame :=
  { saved f := mkRegs (t_eax f) (t_ecx f) (t_edx f) (t_eflags f) (t_eip f); user_stack := t_user_esp }.
Next Obligation.
  intros a f Hr. change (timer_returning f = true) in Hr. change (deliver_signal a f) with (timer_deliver a f).
  unfold timer_deliver. rewrite Hr. cbn [negb].
  destruct (push_user_signal_frame _ _ _ _ _ _) as [e w]. by eexists.
Qed.

(** *** The choice of the signal *)

Record sig_ok (s : TaskSignalInfo) : Prop := {
  so_signal : is_uint 32 (signal s);
  so_blocked : is_uint 32 (blocked s);
  so_actions : length (sigaction s) = NSIG;
}.

Definition deliverable (s : TaskSignalInfo) (n : Z) : Prop :=
  1 ≤ n ≤ 32 ∧ Z.testbit (signal s) (n - 1) = true ∧ Z.testbit (blocked s) (n - 1) = false.

Definition action (s : TaskSignalInfo) (n : Z) : SigAction :=
  nth (Z.to_nat (n - 1)) (sigaction s) default_action.

Lemma deliverable_bit s n : sig_ok s → 1 ≤ n ≤ 32 →
  Z.testbit (Z.land (signal s) (unot 32 (blocked s))) (n - 1) = true ↔ deliverable s n.
Proof.
  intros [_ Hb _] Hn. unfold deliverable. rewrite Z.land_spec, testbit_unot by lia.
  rewrite andb_true_iff, negb_true_iff. tauto.
Qed.

(** The lowest deliverable signal, if any. *)
Definition lowest (s : TaskSignalInfo) (n : Z) : Prop :=
  deliverable s n ∧ ∀ m, m < n → ¬ deliverable s m.

Lemma pending_spec s : sig_ok s →
  let pending := Z.land (signal s) (unot 32 (blocked s)) in
  (pending = 0 ∧ ∀ n, ¬ deliverable s n) ∨
  (pending ≠ 0 ∧ (trailing_zeros 32 pending < NSIG)%nat ∧ lowest s (Z.of_nat (trailing_zeros 32 pending) + 1)).
Proof.
  intros Hs pending. destruct (decide (pending = 0)) as [E|E]; [left|right]; (split; [done|]).
  - intros n Hd. pose proof Hd as (Hn & _). apply deliverable_bit in Hd; [|done..].
    fold pending in Hd. by rewrite E, Z.bits_0 in Hd.
  - destruct (trailing_zeros_spec 32 pending) as (Hlt & Hb & Hm); [by apply land_uint, so_signal|done|].
    split; [done|]. split.
    + apply deliverable_bit; [done|lia|]. by rewrite Z.add_simpl_r.
    + intros m Hlt' Hd. pose proof Hd as (Hmr & _). apply deliverable_bit in Hd; [|done..].
      specialize (Hm (Z.to_nat (m - 1)) ltac:(lia)). rewrite Z2Nat.id in Hm by lia. fold pending in Hd. congruence.
Qed.

(** The action to take, in terms of the lowest deliverable signal. *)
Definition to_deliver (s : TaskSignalInfo) (n : Z) : DeliverAction :=
  let a := action s n in mkDeliver (sa_handler a) (sa_restorer a) n (blocked s) (sa_flags a) (sa_mask a).

Definition after_delivery (s : TaskSignalInfo) (n : Z) : TaskSignalInfo :=
  if Z.land (sa_flags (action s n)) ONE_SHOT =? 0 then clear n s
  else with_actions (clear n s) (alter (set_handler SIG_DFL) (Z.to_nat (n - 1)) (sigaction s)).

Definition expected_action (s : TaskSignalInfo) (n : Z) : PendingSignalAction * TaskSignalInfo :=
  let h := sa_handler (action s n) in
  if h =? SIG_IGN then (ActNone, clear n s)
  else if h =? SIG_DFL then
    (if n =? SIGCHLD then ActNone
     else if (n =? SIGSTOP) || (n =? SIGTSTP) then ActStop else ActExit n, clear n s)
  else (ActDeliver (to_deliver s n), after_delivery s n).

Lemma pending_action_spec s : sig_ok s →
  (pending_action s = (ActNone, s) ∧ ∀ n, ¬ deliverable s n) ∨
  ∃ n, lowest s n ∧ pending_action s = expected_action s n.
Proof.
  intros Hs. unfold pending_action. destruct (pending_spec s Hs) as [[-> Hn]|(Hnz & Hlt & Hlow)]; [by left|].
  right. rewrite (proj2 (Z.eqb_neq _ _) Hnz). set (bit := trailing_zeros 32 _) in *.
  exists (Z.of_nat bit + 1). split; [done|].
  rewrite (proj2 (Nat.leb_gt _ _) Hlt). unfold expected_action, to_deliver, after_delivery, action.
  rewrite Z.add_simpl_r, Nat2Z.id. cbn [clear sigaction blocked].
  destruct (_ =? SIG_IGN); [done|]. destruct (_ =? SIG_DFL).
  - destruct (_ =? SIGCHLD); [done|]. by destruct (_ || _).
  - by destruct (_ =? 0).
Qed.

(** *** Updates of the running task *)

Lemma update_current_id f k me :
  current_task k = Some me → f me = me → update_current f k = k.
Proof.
  intros Hme Hf. destruct k as [ts lp c j cl]. unfold update_current, update_task, for_tasks, with_tasks. simpl.
  f_equal. apply list_eq. intros i. rewrite list_lookup_imap. unfold current_task, task_at in Hme. simpl in Hme.
  destruct (ts !! i) as [[t|]|] eqn:Hi; try done. simpl. case_decide as E; [|done]. subst i.
  rewrite Hi in Hme. simpl in Hme. injection Hme as ->. by rewrite Hf.
Qed.

Lemma update_current_ext f g k me :
  current_task k = Some me → f me = g me → update_current f k = update_current g k.
Proof.
  intros Hme Hfg. unfold update_current, update_task, for_tasks, with_tasks. f_equal. apply imap_ext.
  intros i [t|] Hi; [|done]. simpl. f_equal. case_decide as E; [|done]. subst i.
  unfold current_task, task_at in Hme. rewrite Hi in Hme. simpl in Hme. by injection Hme as ->.
Qed.

Lemma update_current_at f k me :
  current_task k = Some me → current_task (update_current f k) = Some (f me).
Proof.
  intros Hme. unfold current_task, update_current in *. rewrite task_at_update.
  change (current (update_task (current k) f k)) with (current k). by rewrite Hme, decide_True.
Qed.

Lemma with_signal_same t : with_signal t (signal_info t) = t.
Proof. by destruct t. Qed.

(** What one call does about the signal [n], [k1] being the table without it. *)
Definition delivery_of {F} `{FrameLaws F} (f : F) (k : Kernel) (me : Task) (n : Z) : Prop :=
  let s := signal_info me in
  let h := sa_handler (action s n) in
  let k1 := update_current (set_signal (clear n)) k in
  if h =? SIG_IGN then handle_pending_signal f k = Ok (Continues f [], k1)
  else if h =? SIG_DFL then
    if n =? SIGCHLD then handle_pending_signal f k = Ok (Continues f [], k1)
    else if (n =? SIGSTOP) || (n =? SIGTSTP) then
      ∃ k', handle_pending_signal f k = Ok (Stopping, k') ∧
        schedule (update_current (λ t, with_state t Stopped) k1) = Ok k'
    else
      ∃ k', handle_pending_signal f k = Ok (Exiting, k') ∧
        exit_process (as_i32 (2 ^ (n - 1))) k1 = Ok k' ∧ current k' ≠ current k
  else
    ∃ f' k' me', handle_pending_signal f k =
        Ok (Continues f' (stores_at (user_stack f') (frame_words (to_deliver s n) (saved f))), k') ∧
      user_stack f' = wrapping_sub (user_stack f)
        (4 * Z.of_nat (length (frame_words (to_deliver s n) (saved f)))) ∧
      saved f' = mkRegs (r_eax (saved f)) (r_ecx (saved f)) (r_edx (saved f)) (r_eflags (saved f)) h ∧
      current_task k' = Some me' ∧
      blocked (signal_info me') = Z.lor (blocked s) (sa_mask (action s n)) ∧
      signal (signal_info me') = signal (clear n s) ∧
      (Z.land (sa_flags (action s n)) ONE_SHOT = 0 → sigaction (signal_info me') = sigaction s) ∧
      (Z.land (sa_flags (action s n)) ONE_SHOT ≠ 0 → sa_handler (action (signal_info me') n) = SIG_DFL).

Lemma tree_signal g k : tree k → tree (update_current (set_signal g) k).
Proof. intros Ht. apply tree_current; [done|]. intros. by apply kin_same. Qed.

Lemma action_range s n : sig_ok s → deliverable s n → (Z.to_nat (n - 1) < length (sigaction s))%nat.
Proof. intros [_ _ Hl] [Hn _]. rewrite Hl. unfold NSIG. lia. Qed.

Lemma after_delivery_spec s n :
  sig_ok s → deliverable s n →
  signal (after_delivery s n) = signal (clear n s) ∧ blocked (after_delivery s n) = blocked s ∧
  (Z.land (sa_flags (action s n)) ONE_SHOT = 0 → sigaction (after_delivery s n) = sigaction s) ∧
  (Z.land (sa_flags (action s n)) ONE_SHOT ≠ 0 → sa_handler (action (after_delivery s n) n) = SIG_DFL).
Proof.
  intros Hs Hd. unfold after_delivery. pose proof (action_range s n Hs Hd) as Hlt.
  destruct (Z.eqb_spec (Z.land (sa_flags (action s n)) ONE_SHOT) 0); split_and!; try done.
  intros _. unfold action, with_actions. cbn [sigaction]. rewrite (nth_lookup _ _ default_action).
  destruct (lookup_lt_is_Some_2 _ _ Hlt) as [a Ha]. by rewrite list_lookup_alter_eq, Ha.
Qed.

Section delivery.
Context {F} `{FrameLaws F} (f : F) (k : Kernel) (me : Task).
Context (Hret : is_returning_to_user f = true) (Htree : tree k) (Hme : current_task k = Some me)
  (Hc : current k ≠ 0%nat) (Hs : sig_ok (signal_info me)).

Lemma handle_eq r s :
  pending_action (signal_info me) = (r, s) →
  handle_pending_signal f k =
  (let k := update_current (λ t, with_signal t s) k in
   match r with
      | ActNone => Ok (Continues f [], k)
      | ActStop =>
          match schedule (update_current (λ t, with_state t Stopped) k) with
          | Ok k => Ok (Stopping, k)
          | Err e => Err e
          | Panic => Panic
          end
      | ActExit n =>
          match exit_process (as_i32 (Z.shiftl 1 (n - 1))) k with
          | Ok k => Ok (Exiting, k)
          | Err e => Err e
          | Panic => Panic
          end
      | ActDeliver d =>
          let '(delivered, (frame, w)) := deliver_signal d f in
          Ok (Continues frame w,
              if delivered : bool
              then update_current (set_signal (λ s, with_blocked s (Z.lor (blocked s) (d_mask d)))) k
              else k)
   end).
Proof using Hret Hme. intros Hp. unfold handle_pending_signal. by rewrite Hret, Hme, Hp. Qed.

Lemma handle_none :
  (∀ n, ¬ deliverable (signal_info me) n) → handle_pending_signal f k = Ok (Continues f [], k).
Proof using Hret Hme Hs.
  intros Hn. destruct (pending_action_spec (signal_info me) Hs) as [[Hp _]|(n & [Hd _] & _)]; [|by destruct (Hn n)].
  rewrite (handle_eq _ _ Hp). cbv zeta. rewrite (update_current_id _ k me); [done|done|apply with_signal_same].
Qed.

Lemma clear_current n s : s = clear n (signal_info me) →
  update_current (λ t, with_signal t s) k = update_current (set_signal (clear n)) k.
Proof using Hme. intros ->. by eapply update_current_ext. Qed.

Lemma handle_some n : lowest (signal_info me) n → delivery_of f k me n.
Proof using Hret Htree Hme Hc Hs.
  intros [Hd Hmin]. destruct (pending_action_spec (signal_info me) Hs) as [[_ Hn]|(n' & [Hd' Hmin'] & Hp)];
    [by destruct (Hn n)|].
  assert (n' = n) as ->.
  { destruct (Z.lt_trichotomy n n') as [?|[?|?]]; [by destruct (Hmin' n)|done|by destruct (Hmin n')]. }
  unfold expected_action in Hp. unfold delivery_of. cbv zeta. pose proof (clear_current n _ eq_refl) as Hk1.
  set (h := sa_handler _) in *. set (k1 := update_current (set_signal (clear n)) k) in *.
  assert (tree k1) as Htree1 by (by apply tree_signal).
  assert (current_task k1 = Some (set_signal (clear n) me)) as Hme1 by (by apply update_current_at).
  destruct (h =? SIG_IGN); [by rewrite (handle_eq _ _ Hp), Hk1|].
  destruct (h =? SIG_DFL); [destruct (n =? SIGCHLD); [by rewrite (handle_eq _ _ Hp), Hk1|]; destruct (_ || _)|].
  - rewrite (handle_eq _ _ Hp), Hk1. cbv zeta.
    destruct (schedule_forest (update_current (λ t, with_state t Stopped) k1)) as (k' & Hk' & _).
    { apply tree_current; [done|]. intros. by apply kin_live. }
    exists k'. by rewrite Hk'.
  - rewrite (handle_eq _ _ Hp), Hk1. cbv zeta. rewrite Z.shiftl_1_l.
    destruct (exit_process_spec (as_i32 (2 ^ (n - 1))) k1 _ Htree1 Hme1 Hc) as (k' & Hk' & _ & Hne & _).
    exists k'. by rewrite Hk'.
  - rewrite (handle_eq _ _ Hp). cbv zeta.
    destruct (deliver_law (to_deliver (signal_info me) n) f Hret) as (f' & Hdel & Hst & Hsv).
    rewrite Hdel. pose proof (push_frame_spec (user_stack f) (to_deliver (signal_info me) n) (saved f)) as Hpf.
    cbv zeta in Hpf. rewrite Hpf in *. cbn [fst snd] in *.
    eexists f', _, _. split; [by rewrite <- Hst|]. split; [done|]. split; [done|].
    split; [apply update_current_at, update_current_at; done|].
    destruct (after_delivery_spec (signal_info me) n Hs Hd) as (Ha1 & Ha2 & Ha3 & Ha4).
    unfold set_signal, with_signal, with_blocked; cbn [signal_info signal blocked sigaction].
    rewrite Ha2. split; [done|]. split; [done|]. split; [done|exact Ha4].
Qed.
End delivery.

(** C10: On the way back to user mode exactly one signal is handled, the lowest
    pending one that is not blocked, and with none nothing changes.  The signal
    is cleared; then it is dropped, or stops the task, or makes it exit with the
    code [2 ^ (n-1)], or starts its handler on a frame laid out as documented
    (restorer, number, the old mask unless NO_MASK, eax, ecx, edx, eflags, eip),
    with [sa_mask] blocked and a one-shot handler reset.  This holds for both
    return paths. *)
Theorem signal_delivery {F} `{FrameLaws F} (f : F) k me :
  is_returning_to_user f = true → tree k → current_task k = Some me → current k ≠ 0%nat →
  sig_ok (signal_info me) →
  ((∀ n, ¬ deliverable (signal_info me) n) → handle_pending_signal f k = Ok (Continues f [], k)) ∧
  (∀ n, lowest (signal_info me) n → delivery_of f k me n) ∧
  ((∀ n, ¬ deliverable (signal_info me) n) ∨ ∃ n, lowest (signal_info me) n).
Proof.
  intros Hret Htree Hme Hc Hs. split_and!.
  - by apply (handle_none f k me).
  - by apply (handle_some f k me).
  - destruct (pending_spec _ Hs) as [[_ ?]|(_ & _ & ?)]; [by left|right; eauto].
Qed.

(** A shell with a handler at 4096 for SIGTERM, which is pending with SIGUSR2. *)
Definition user_frame : SyscallContext :=
  mkCtx 23 0 0 0 7 0 8 9 23 23 23 100 USER_CS 514 1048576 USER_DS.
Definition handler_action : SigAction := mkSigAction 4096 2 ONE_SHOT 8192.
Definition with_handler (s : TaskSignalInfo) : TaskSignalInfo :=
  mkSignalInfo (Z.lor (sig_bit 12) (sig_bit 15)) (sig_bit 12)
    (<[14%nat := handler_action]> (sigaction s)) 0.
Definition handling : Kernel := update_current (set_signal with_handler) family.
Definition shell : Task := set_signal with_handler (family_task 2 1 2 Running).

Lemma handling_tree : tree handling.
Proof. apply tree_signal, family_tree. Qed.

Lemma shell_lowest : lowest (signal_info shell) 15.
Proof.
  split; [by vm_compute; split_and!|]. intros m Hm ([H1 _] & Hb & Hn).
  assert (∃ i, m = Z.of_nat i ∧ (1 ≤ i < 15)%nat) as (i & -> & Hi) by (exists (Z.to_nat m); lia).
  do 15 (destruct i as [|i]; [first [lia | vm_compute in Hb; discriminate | vm_compute in Hn; discriminate]|]). lia.
Qed.

Lemma shell_sig_ok : sig_ok (signal_info shell).
Proof. by split. Qed.

Lemma signal_delivery_witness :
  is_returning_to_user user_frame = true ∧ delivery_of user_frame handling shell 15.
Proof.
  split; [reflexivity|].
  apply (signal_delivery user_frame handling shell); [reflexivity|exact handling_tree|reflexivity|discriminate
    |exact shell_sig_ok|exact shell_lowest].
Defined.

(** ** What kill does *)

Definition kill_target (p : Z) (me : Task) (i : nat) (t : Task) : bool :=
  negb (bool_decide (i = 0%nat)) && kill_matches p (pid me) t.
Definition kill_allowed (p : Z) (me t : Task) : bool := (p =? 0) || may_signal me t.
Definition kill_effect_on (p n : Z) (me : Task) (i : nat) (t : Task) : Task :=
  if kill_target p me i t && kill_allowed p me t then notify n t else t.

(** After the slots before [m]. *)
Record kill_inv (p n : Z) (me : Task) (k : Kernel) (m : nat) (res : result Z) (k' : Kernel) : Prop := {
  ki_tasks : ∀ i, task_at k' i =
    (if decide (i < m)%nat then kill_effect_on p n me i else id) <$> task_at k i;
  ki_result : (res = Err PERM ∧ ∃ i t, (i < m)%nat ∧ task_at k i = Some t ∧ kill_target p me i t = true ∧
                                   kill_allowed p me t = false) ∨
              (res = Ok 0 ∧ ∀ i t, (i < m)%nat → task_at k i = Some t → kill_target p me i t = true →
                                   kill_allowed p me t = true);
}.

Lemma kill_keep p n me k m res k' :
  kill_inv p n me k m res k' →
  (∀ t, task_at k m = Some t → kill_target p me m t = false) → kill_inv p n me k (S m) res k'.
Proof.
  intros [Ht Hr] Hm. split.
  - intros i. rewrite Ht. destruct (task_at k i) as [t|] eqn:Hi; [|done]. simpl. f_equal.
    repeat case_decide; try lia; try done. assert (i = m) as -> by lia.
    unfold kill_effect_on. by rewrite (Hm t).
  - destruct Hr as [(-> & i & t & ? & ? & ? & ?)|(-> & Hall)]; [left|right]; (split; [done|]).
    + exists i, t. split_and!; try done. lia.
    + intros i t Hi Hit Htg. destruct (decide (i = m)) as [->|]; [|apply (Hall i); [lia|done..]].
      rewrite (Hm t Hit) in Htg. done.
Qed.

Lemma kill_step_inv p n me k m res k' :
  kill_inv p n me k m res k' →
  let '(res', k'') := kill_step p n me (res, k') m in kill_inv p n me k (S m) res' k''.
Proof.
  intros Hinv. pose proof Hinv as [Ht Hr]. unfold kill_step.
  rewrite Ht, decide_False by lia. destruct (task_at k m) as [t|] eqn:Hm; simpl;
    [|by apply kill_keep; [|intros t; rewrite Hm]].
  assert (∀ t', task_at k m = Some t' → t' = t) as Hu by (intros; congruence).
  destruct (decide (m = 0%nat)) as [Hz|Hz].
  { apply kill_keep; [done|]. intros t' ->%Hu. unfold kill_target. by rewrite bool_decide_eq_true_2. }
  destruct (kill_matches p (pid me) t) eqn:Hmatch.
  2: { apply kill_keep; [done|]. intros t' ->%Hu. unfold kill_target. by rewrite Hmatch, andb_false_r. }
  assert (kill_target p me m t = true) as Htg
    by (unfold kill_target; by rewrite Hmatch, bool_decide_eq_false_2).
  unfold send_signal. fold (kill_allowed p me t). destruct (kill_allowed p me t) eqn:Ha.
  - split.
    + intros i. rewrite task_at_update, Ht. destruct (task_at k i) as [ti|] eqn:Hi; [|done]. simpl. f_equal.
      destruct (decide (i = m)) as [->|]; repeat case_decide; try lia; try done.
      rewrite Hm in Hi. injection Hi as <-. unfold kill_effect_on. by rewrite Htg, Ha.
    + destruct Hr as [(-> & i & t' & ? & ? & ? & ?)|(-> & Hall)]; [left|right]; (split; [done|]).
      * exists i, t'. split_and!; try done. lia.
      * intros i t' Hi Hit Htg'. destruct (decide (i = m)) as [->|]; [|apply (Hall i); [lia|done..]].
        by rewrite (Hu t' Hit).
  - split.
    + intros i. rewrite Ht. destruct (task_at k i) as [ti|] eqn:Hi; [|done]. simpl. f_equal.
      repeat case_decide; try lia; try done. assert (i = m) as -> by lia. rewrite Hm in Hi. injection Hi as <-.
      unfold kill_effect_on. by rewrite Ha, andb_false_r.
    + left. split; [done|]. exists m, t. split_and!; try done. lia.
Qed.

Lemma kill_loop_inv p n me k m :
  let '(res, k') := fold_left (kill_step p n me) (seq 0 m) (Ok 0, k) in kill_inv p n me k m res k'.
Proof.
  induction m as [|m IH].
  - simpl. split.
    + intros i. by destruct (task_at k i).
    + right. split; [done|]. intros i t. lia.
  - rewrite seq_S, fold_left_app. simpl. destruct (fold_left _ _ _) as [res k']. by apply kill_step_inv.
Qed.

Lemma elem_of_slots k i t : (i, t) ∈ slots k ↔ task_at k i = Some t.
Proof.
  unfold slots. rewrite list_elem_of_omap. split.
  - intros ([j o] & [n Hn]%list_elem_of_lookup & Ho).
    rewrite list_lookup_imap in Hn. apply fmap_Some in Hn as (o' & Hn & [= -> ->]).
    apply bind_Some in Ho as (t' & -> & [= <- <-]). by apply task_at_Some.
  - intros Ht%task_at_Some. exists (i, Some t). split; [|done].
    apply list_elem_of_lookup. exists i. by rewrite list_lookup_imap, Ht.
Qed.

Lemma kill_probe_spec p me l found :
  kill_probe p me l found = true ↔ found = true ∨ ∃ i t, (i, t) ∈ l ∧ kill_target p me i t = true.
Proof.
  revert found. induction l as [|[i t] l IH]; intros found; cbn [kill_probe].
  - split; [by left|]. by intros [?|(i & t & ?%elem_of_nil & _)].
  - setoid_rewrite elem_of_cons.
    assert (∀ b, (b = true ∨ (∃ i0 t0, (i0, t0) ∈ l ∧ kill_target p me i0 t0 = true)) →
       (b = true ∨ ∃ i0 t0, ((i0, t0) = (i, t) ∨ (i0, t0) ∈ l) ∧ kill_target p me i0 t0 = true)) as Hmono by naive_solver.
    destruct (decide (i = 0%nat)) as [Hi|Hi]; [|destruct (kill_matches p (pid me) t) eqn:Hm]; simpl.
    + rewrite IH. split; [apply Hmono|]. intros [?|(i0 & t0 & [[= -> ->]|?] & Ht)]; [by left| |right; eauto].
      unfold kill_target in Ht. by rewrite bool_decide_eq_true_2 in Ht.
    + assert (kill_target p me i t = true) as Ht by (unfold kill_target; by rewrite Hm, bool_decide_eq_false_2).
      assert (found = true ∨ ∃ i0 t0, ((i0, t0) = (i, t) ∨ (i0, t0) ∈ l) ∧ kill_target p me i0 t0 = true)
        by (right; exists i, t; auto).
      destruct (negb _); [done|]. rewrite IH. split; [done|]. by left.
    + rewrite IH. split; [apply Hmono|]. intros [?|(i0 & t0 & [[= -> ->]|?] & Ht)]; [by left| |right; eauto].
      unfold kill_target in Ht. by rewrite Hm, andb_false_r in Ht.
Qed.

(** [kill] with a signal from 1 to 32 raises it on exactly the tasks, the idle
    one apart, that the pid argument designates and the caller may signal (all
    of them when the argument is 0), waking those in interruptible sleep, and
    changes no other; it fails with EPERM exactly when some designated task may
    not be signalled.  The null signal changes nothing and reports ESRCH exactly
    when no task is designated, whatever the permissions.  Other numbers are
    refused with EINVAL. *)
Theorem kill_effect p n k me :
  length (tasks k) = TASK_NUM → current_task k = Some me →
  let target i t := task_at k i = Some t ∧ kill_target p me i t = true in
  (1 ≤ n ≤ 32 → ∃ r k', sys_kill p n k = (r, k') ∧
     (∀ i, task_at k' i = kill_effect_on p n me i <$> task_at k i) ∧
     ((r = Err PERM ∧ ∃ i t, target i t ∧ kill_allowed p me t = false) ∨
      (r = Ok 0 ∧ ∀ i t, target i t → kill_allowed p me t = true))) ∧
  (sys_kill p 0 k = (Ok 0, k) ∧ (p = 0 ∨ ∃ i t, target i t) ∨
   sys_kill p 0 k = (Err SRCH, k) ∧ p ≠ 0 ∧ ¬ ∃ i t, target i t) ∧
  (n < 0 ∨ 32 < n → sys_kill p n k = (Err INVAL, k)).
Proof.
  intros Hlen Hme target. split_and!.
  - intros Hn. unfold sys_kill. rewrite Hme.
    rewrite (proj2 (Z.leb_le 0 n)), (proj2 (Z.leb_le n (Z.of_nat NSIG))) by (unfold NSIG; lia). cbn [negb andb].
    destruct (Z.eqb_spec n 0); [lia|]. pose proof (kill_loop_inv p n me k TASK_NUM) as Hinv.
    destruct (fold_left _ _ _) as [r k']. destruct Hinv as [Ht Hres]. exists r, k'. split; [done|].
    assert (∀ i t, task_at k i = Some t → (i < TASK_NUM)%nat) as Hlt.
    { intros i t Hi%task_at_Some%lookup_lt_Some. lia. }
    split.
    + intros i. rewrite Ht. destruct (task_at k i) eqn:Hi; [|done]. by rewrite decide_True by eauto.
    + destruct Hres as [(-> & i & t & ? & ? & ? & ?)|(-> & Hall)]; [left|right]; (split; [done|]).
      * by exists i, t.
      * intros i t [? ?]. eauto.
  - unfold sys_kill. rewrite Hme. change (negb _) with false at 1. cbn [Z.eqb]. destruct (Z.eqb_spec p 0) as [->|Hp]; [left; auto|].
    destruct (kill_probe p me (slots k) false) eqn:Hpr; [left|right]; (split; [done|]).
    + right. apply kill_probe_spec in Hpr as [?|(i & t & Hi%elem_of_slots & ?)]; [done|]. by exists i, t.
    + split; [done|]. intros (i & t & Hi & Ht). apply not_true_iff_false in Hpr. apply Hpr, kill_probe_spec.
      right. exists i, t. split; [by apply elem_of_slots|done].
  - intros Hn. unfold sys_kill. rewrite Hme. destruct ((0 <=? n) && _) eqn:Hr; [|done].
    apply andb_prop in Hr as [H1%Z.leb_le H2%Z.leb_le]. unfold NSIG in H2. lia.
Qed.

Lemma kill_effect_witness :
  ∃ r k', sys_kill (-2) 15 family = (r, k') ∧ r = Ok 0 ∧
    task_at k' 3 = Some (notify 15 (family_task 3 2 2 Interruptible)).
Proof.
  destruct (kill_effect (-2) 15 family (family_task 2 1 2 Running) eq_refl eq_refl) as ((r & k' & Hk & Ht & Hr) & _).
  { lia. }
  exists r, k'. split; [exact Hk|]. split.
  - destruct Hr as [(_ & i & t & (Hi & _) & Ha)|(H & _)]; [|exact H]. exfalso.
    apply family_lookup in Hi. destruct_or! Hi; destruct Hi as [-> ->]; discriminate Ha.
  - rewrite Ht. reflexivity.
Defined.

(** ** Dispositions *)

(** What a task, an interrupt or another task can do to a task's signal state. *)
Inductive sig_step : TaskSignalInfo → TaskSignalInfo → Prop :=
| ss_raise n s : 1 ≤ n ≤ 32 → sig_step s (raise n s)
| ss_clear n s : 1 ≤ n ≤ 32 → sig_step s (clear n s)
| ss_deliver s : sig_step s (pending_action s).2
| ss_mask m s : is_uint 32 m → sig_step s (with_blocked s (Z.lor (blocked s) m))
| ss_signal n h r s : sig_step s (sys_signal n h r s).2
| ss_sigaction n a s : sig_step s (sys_sigaction n a s).2
| ss_ssetmask m s : is_uint 32 m → sig_step s (sys_ssetmask m s).2
| ss_alarm j sec s : sig_step s (sys_alarm j sec s).2.

Definition kill_default (s : TaskSignalInfo) : Prop := sig_ok s ∧ sa_handler (action s SIGKILL) = SIG_DFL.

Lemma raise_ok n s : sig_ok s → sig_ok (raise n s).
Proof.
  intros [? ? ?]. split; try done. apply lor_uint; [done..|]. apply wrap_bound. lia.
Qed.

Lemma clear_ok n s : sig_ok s → sig_ok (clear n s).
Proof. intros [? ? ?]. split; try done. by apply land_uint. Qed.

Lemma actions_ok s l : sig_ok s → length l = NSIG → sig_ok (with_actions s l).
Proof. intros [? ? ?] Hl. by split. Qed.

(** Changing another action leaves that of SIGKILL. *)
Lemma action_other s l n :
  (∀ i, i ≠ Z.to_nat (n - 1) → l !! i = sigaction s !! i) → valid_action_signal n = true →
  action (with_actions s l) SIGKILL = action s SIGKILL.
Proof.
  intros Hl Hn. apply andb_prop in Hn as [[H1%Z.leb_le H2%Z.leb_le]%andb_prop H3%negb_true_iff%Z.eqb_neq].
  unfold action, with_actions. cbn [sigaction].
  rewrite !(nth_lookup _ _ default_action), Hl; [done|]. unfold SIGKILL in *. lia.
Qed.

Lemma deliver_kill_default s : kill_default s → kill_default (pending_action s).2.
Proof.
  intros [Hok Hk]. destruct (pending_action_spec s Hok) as [[-> _]|(n & [Hd _] & ->)]; [done|].
  unfold expected_action. destruct (_ =? SIG_IGN); [by split; [apply clear_ok|]|].
  destruct (Z.eqb_spec (sa_handler (action s n)) SIG_DFL) as [|Hh]; [by split; [apply clear_ok|]|].
  unfold after_delivery. cbn [snd]. destruct (_ =? 0); [by split; [apply clear_ok|]|].
  assert (n ≠ SIGKILL) as Hne by (intros ->; done). split.
  - apply actions_ok; [by apply clear_ok|]. rewrite length_alter. apply Hok.
  - unfold action, with_actions in *. cbn [sigaction clear].
    rewrite !(nth_lookup _ _ default_action) in *. rewrite list_lookup_alter_ne; [done|].
    destruct Hd as [? _]. unfold SIGKILL in *. lia.
Qed.

Lemma sig_step_default s s' : kill_default s → sig_step s s' → kill_default s'.
Proof.
  intros Hd Hst. pose proof Hd as [Hok Hk]. destruct Hst as [n s ?|n s ?|s|m s ?|n h r s|n a s|m s ?|j sec s].
  - split; [by apply raise_ok|done].
  - split; [by apply clear_ok|done].
  - by apply deliver_kill_default.
  - split; [|done]. destruct Hok. split; try done. by apply lor_uint.
  - unfold sys_signal. destruct (valid_action_signal n) eqn:Hv; [|done]. cbn [negb snd]. split.
    + apply actions_ok; [done|]. rewrite length_insert. apply Hok.
    + rewrite (action_other _ _ n); [done| |done]. intros i Hi. by apply list_lookup_insert_ne.
  - unfold sys_sigaction. destruct (valid_action_signal n) eqn:Hv; [|done]. cbn [negb snd].
    set (i := Z.to_nat (n - 1)). set (l := match a with Some _ => _ | None => _ end).
    assert (length l = NSIG) by (unfold l; destruct a; rewrite ?length_insert; apply Hok).
    split; [apply actions_ok; [done|by rewrite length_alter]|].
    rewrite (action_other _ _ n); [done| |done]. intros j Hj. rewrite list_lookup_alter_ne by done.
    unfold l. destruct a; [|done]. by apply list_lookup_insert_ne.
  - split; [|done]. destruct Hok. split; try done. by apply land_uint.
  - by split; [destruct Hok; split|].
Qed.

Lemma no_signals_default : kill_default no_signals.
Proof. by split; [split|]. Qed.

(** Whatever signals arrive and whatever the system calls do, SIGKILL keeps its
    default action. *)
Lemma sigkill_default s :
  rtc sig_step no_signals s →
  sa_handler (action s SIGKILL) = SIG_DFL ∧
  (lowest s SIGKILL → pending_action s = (ActExit SIGKILL, clear SIGKILL s)).
Proof.
  intros Hr. assert (kill_default s) as [Hok Hk].
  { pose proof no_signals_default as Hd. induction Hr as [|s1 s2 s3 Hst _ IH]; [done|].
    apply IH. by eapply sig_step_default. }
  split; [done|]. intros [Hd Hmin]. destruct (pending_action_spec s Hok) as [[_ Hn]|(n & [Hd' Hmin'] & ->)];
    [by destruct (Hn SIGKILL)|].
  assert (n = SIGKILL) as ->.
  { destruct (Z.lt_trichotomy n SIGKILL) as [?|[?|?]]; [by destruct (Hmin n)|done|by destruct (Hmin' SIGKILL)]. }
  unfold expected_action. by rewrite Hk.
Qed.

(** A full [sa_mask] blocks SIGKILL, and a handler for SIGSTOP runs. *)
Lemma mask_and_stop :
  (∃ s, rtc sig_step no_signals s ∧ Z.testbit (signal s) (SIGKILL - 1) = true ∧ ¬ deliverable s SIGKILL) ∧
  (∃ s d s', rtc sig_step no_signals s ∧ pending_action s = (ActDeliver d, s') ∧ d_signal d = SIGSTOP).
Proof.
  split.
  - set (s1 := (sys_sigaction 10 (Some (mkSigAction 4096 (2 ^ 32 - 1) 0 0)) no_signals).2).
    set (s2 := (pending_action (raise 10 s1)).2).
    exists (raise 9 (with_blocked s2 (Z.lor (blocked s2) (2 ^ 32 - 1)))). split_and!.
    + eapply rtc_l; [apply (ss_sigaction 10 (Some (mkSigAction 4096 (2 ^ 32 - 1) 0 0)))|].
      eapply rtc_l; [apply (ss_raise 10); lia|]. eapply rtc_l; [apply ss_deliver|].
      eapply rtc_l; [by apply (ss_mask (2 ^ 32 - 1))|].
      eapply rtc_l; [apply (ss_raise 9); lia|apply rtc_refl].
    + by vm_compute.
    + intros (_ & _ & Hb). by vm_compute in Hb.
  - set (s1 := (sys_signal SIGSTOP 4096 0 no_signals).2).
    exists (raise SIGSTOP s1). destruct (pending_action (raise SIGSTOP s1)) as [a s'] eqn:Hp.
    vm_compute in Hp. injection Hp as <- <-. eexists _, _. split; [|by split].
    eapply rtc_l; [apply (ss_signal SIGSTOP 4096 0)|].
    eapply rtc_l; [apply (ss_raise SIGSTOP); unfold SIGSTOP; lia|apply rtc_refl].
Qed.

(** Of the two signals documented as ones that cannot be caught or ignored,
    SIGKILL keeps its default action whatever signals arrive and whatever
    [signal], [sigaction], [ssetmask] and handlers do, so when it is the signal
    handled, the task exits.  But a handler whose [sa_mask] has every bit set
    leaves it blocked and not deliverable, though [ssetmask] refuses to block it;
    and a handler for SIGSTOP is accepted and runs. *)
Theorem uncatchable_signals :
  (∀ s, rtc sig_step no_signals s →
     sa_handler (action s SIGKILL) = SIG_DFL ∧
     (lowest s SIGKILL → pending_action s = (ActExit SIGKILL, clear SIGKILL s))) ∧
  (∃ s, rtc sig_step no_signals s ∧ Z.testbit (signal s) (SIGKILL - 1) = true ∧ ¬ deliverable s SIGKILL) ∧
  (∃ s d s', rtc sig_step no_signals s ∧ pending_action s = (ActDeliver d, s') ∧ d_signal d = SIGSTOP).
Proof. split; [apply sigkill_default|apply mask_and_stop]. Qed.

Lemma uncatchable_signals_witness :
  ∃ s, rtc sig_step no_signals s ∧ pending_action s = (ActExit SIGKILL, clear SIGKILL s).
Proof.
  exists (raise 9 no_signals).
  assert (rtc sig_step no_signals (raise 9 no_signals)) as Hr.
  { eapply rtc_l; [apply (ss_raise 9); lia|apply rtc_refl]. }
  split; [exact Hr|]. apply (proj1 uncatchable_signals _ Hr). split.
  - vm_compute. repeat split; discriminate.
  - intros m Hm ([H1 _] & Hb & _). unfold SIGKILL in Hm.
    assert (∃ i, m = Z.of_nat i ∧ (1 ≤ i < 9)%nat) as (i & -> & Hi) by (exists (Z.to_nat m); lia).
    do 9 (destruct i as [|i]; [first [lia | vm_compute in Hb; discriminate Hb]|]). lia.
Defined.

(** No signal resumes a stopped task: after any signal, SIGCONT and SIGKILL
    included, [schedule] leaves it stopped and runs another task. *)
Theorem stopped_stays_stopped k i t n skip me k1 :
  forest k → task_at k i = Some t → state (sched t) = Stopped → i ≠ 0%nat →
  send_signal n skip me i t k = (Ok (), k1) →
  ∃ k', schedule k1 = Ok k' ∧ current k' ≠ i ∧
    ∃ t', task_at k' i = Some t' ∧ state (sched t') = Stopped ∧
      signal (signal_info t') = Z.lor (signal (signal_info t')) (sig_bit n).
Proof.
  intros Hf Ht Hst Hi. unfold send_signal. destruct (_ || _); [|done]. intros [= <-].
  set (k1 := update_task i (notify n) k).
  assert (forest k1) as Hf1 by (eapply forest_kin; [done|apply kin_update; intros; apply kin_notify]).
  destruct (schedule_forest k1 Hf1) as (k' & Hk & _ & Htasks & Hcur).
  assert (task_at k1 i = Some (notify n t)) as Ht1 by (unfold k1; by rewrite task_at_update, Ht, decide_True).
  assert (keeps_at k1 k' i) as Hkp by (eapply keeps_at_tasks; [apply keeps_at_refreshed|done]).
  destruct (keeps_at_fwd _ _ _ _ Hkp Ht1) as (t' & Ht' & [_ _ Hsig Hs _]).
  assert (state (sched (notify n t)) = Stopped) as Hn.
  { unfold notify, wake_if_interruptible. by rewrite decide_False by (simpl; congruence). }
  assert (state (sched t') = Stopped) as Hst' by (destruct Hs as [->|[? _]]; congruence).
  exists k'. split; [done|]. split.
  - intros <-. destruct Hcur as [?|(t2 & Ht2 & ?)]; [done|congruence].
  - exists t'. split; [done|]. split; [done|]. apply Z.bits_inj_iff'. intros m Hm. rewrite Z.lor_spec.
    destruct (Z.testbit (sig_bit n) m) eqn:Hb; [|by rewrite orb_false_r]. rewrite orb_true_r. apply Hsig.
    unfold notify, wake_if_interruptible. rewrite decide_False by (simpl; congruence).
    simpl. by rewrite Z.lor_spec, Hb, orb_true_r.
Qed.

(** The shell's running child, stopped. *)
Definition stopped_family : Kernel := update_task 3 (λ t, with_state t Stopped) family.

Lemma stopped_stays_stopped_witness :
  ∃ k1 k', send_signal 18 true (family_task 3 2 2 Running) 3 (with_state (family_task 3 2 2 Interruptible) Stopped)
    stopped_family = (Ok (), k1) ∧ schedule k1 = Ok k' ∧ current k' ≠ 3%nat.
Proof.
  assert (forest stopped_family) as Hf.
  { eapply forest_kin; [apply family_tree|]. split; [done|done|done|]. intros i.
    unfold stopped_family. rewrite task_at_update. destruct (task_at family i) as [t|] eqn:Hi; [|done].
    simpl. case_decide; [|apply kin_refl]. apply family_lookup in Hi. apply kin_live; [|discriminate].
    destruct_or! Hi; destruct Hi as [-> ->]; try discriminate. }
  destruct (stopped_stays_stopped stopped_family 3 (with_state (family_task 3 2 2 Interruptible) Stopped) 18
    true (family_task 3 2 2 Running) (update_task 3 (notify 18) stopped_family))
    as (k' & Hk & Hc & _); [exact Hf|reflexivity|reflexivity|discriminate|reflexivity|].
  eexists _, k'. split; [reflexivity|]. split; [exact Hk|exact Hc].
Defined.
End Delivery.
