(* ===== verification/WaitQueue.v ===== *)
(** * Wait queues, busy locks and mutexes
    ([kernel/src/task/wait_queue.rs], [kernel/src/sync/busy_lock.rs] and
    [kernel/src/sync/mutex.rs])

    A wait queue has one slot; a sleeper that finds another task there keeps it
    as its handoff and wakes it when it wakes up itself.  The kernel does not
    preempt kernel code, so the part of a sleep before [schedule] and the part
    after it are one step each, and the steps of other tasks come in between. *)

From S2P Require Import Prelude Task.
From stdpp Require Import gmap relations.
Open Scope Z_scope.

Module WaitQueue.
Import Task.

(** A task that is inside a sleep on the queue. *)
Record Frame : Type := mkFrame { handoff : option nat; is_interruptible : bool }.

(** [states] has the tasks that exist: a weak reference to any other is dead.
    Tasks are named by numbers that are not used again. *)
Record Queue : Type := mkQueue {
  slot : option nat;
  states : gmap nat TaskState;
  frames : gmap nat Frame;
}.

Definition set_state (st : TaskState) (t : nat) (q : Queue) : Queue :=
  mkQueue (slot q) (alter (λ _, st) t (states q)) (frames q).

Definition wake_task (t : nat) (q : Queue) : Queue := set_state Running t q.

Definition wake_handoff (h : option nat) (q : Queue) : Queue :=
  match h with Some u => wake_task u q | None => q end.

(** Up to [schedule]. *)
Definition sleep (t : nat) (q : Queue) : Queue :=
  set_state Uninterruptible t (mkQueue (Some t) (states q) (<[t := mkFrame (slot q) false]> (frames q))).

Definition sleep_interruptible (t : nat) (q : Queue) : Queue :=
  set_state Interruptible t (mkQueue (Some t) (states q) (<[t := mkFrame (slot q) true]> (frames q))).

Definition leave (t : nat) (q : Queue) : Queue := mkQueue (slot q) (states q) (delete t (frames q)).

(** After [schedule], for a task whose frame is [f]. *)
Definition resume (t : nat) (f : Frame) (q : Queue) : Queue := wake_handoff (handoff f) (leave t q).

(** One turn of the loop of [sleep_interruptible]; a slot that holds another
    living task sends this one back to sleep. *)
Definition resume_interruptible (t : nat) (f : Frame) (q : Queue) : Queue :=
  match (u ← slot q; _ ← states q !! u; Some u) with
  | Some u =>
      if decide (u = t) then wake_handoff (handoff f) (leave t (mkQueue None (states q) (frames q)))
      else wake_task u (set_state Interruptible t q)
  | None => wake_handoff (handoff f) (leave t (mkQueue None (states q) (frames q)))
  end.

Definition wake (q : Queue) : Queue :=
  wake_handoff (slot q) (mkQueue None (states q) (frames q)).

(** What happens to a task that is not inside a sleep on this queue. *)
Inductive life : option TaskState → option TaskState → Prop :=
| life_create : life None (Some Running)
| life_change a b : a ≠ Zombie → b ≠ Zombie → life (Some a) (Some b)
| life_exit : life (Some Running) (Some Zombie)
| life_reap : life (Some Zombie) None.

Definition set_other (t : nat) (st : option TaskState) (q : Queue) : Queue :=
  mkQueue (slot q) (partial_alter (λ _, st) t (states q)) (frames q).

(** ** Uninterruptible sleepers *)

Inductive step : Queue → Queue → Prop :=
| step_sleep t q : states q !! t = Some Running → frames q !! t = None → step q (sleep t q)
| step_resume t f q : states q !! t = Some Running → frames q !! t = Some f →
    step q (resume t f q)
| step_wake q : step q (wake q)
| step_other t st q : frames q !! t = None → life (states q !! t) st → step q (set_other t st q).

Definition new_queue (st : gmap nat TaskState) : Queue := mkQueue None st ∅.

(** The tasks a wake-up can reach directly. *)
Definition referenced (q : Queue) (t : nat) : Prop :=
  slot q = Some t ∨ ∃ u f, frames q !! u = Some f ∧ handoff f = Some t.

Record inv (q : Queue) : Prop := {
  (** Exactly the sleepers of the queue are referenced, and each once. *)
  qi_sleeps : ∀ t, referenced q t ↔ (is_Some (frames q !! t) ∧ states q !! t = Some Uninterruptible);
  qi_states : ∀ t f, frames q !! t = Some f →
    states q !! t = Some Uninterruptible ∨ states q !! t = Some Running;
  qi_slot : ∀ t u f, slot q = Some t → frames q !! u = Some f → handoff f ≠ Some t;
  qi_once : ∀ t u v f g, frames q !! u = Some f → frames q !! v = Some g →
    handoff f = Some t → handoff g = Some t → u = v;
  (** A handoff went to sleep before its keeper. *)
  qi_order : ∃ r : nat → nat, ∀ t f u, frames q !! t = Some f → handoff f = Some u → (r u < r t)%nat;
}.

Lemma new_queue_inv st : inv (new_queue st).
Proof.
  split.
  - intros t. split; [|by intros [[? ?] _]]. by intros [?|(u & f & ? & _)].
  - done.
  - done.
  - done.
  - by exists (λ _, 0%nat).
Qed.

Lemma not_referenced q t : inv q → frames q !! t = None → ¬ referenced q t.
Proof. intros Hi Hf Hr. apply (qi_sleeps _ Hi) in Hr as [[? ?] _]. congruence. Qed.

Lemma sleep_inv t q : inv q → states q !! t = Some Running → frames q !! t = None → inv (sleep t q).
Proof.
  intros Hi Hs Hf. pose proof (not_referenced _ _ Hi Hf) as Hnr.
  assert (∀ u f, frames q !! u = Some f → handoff f ≠ Some t) as Hnh.
  { intros u f ? ?. apply Hnr. right. by exists u, f. }
  assert (slot q ≠ Some t) as Hns by (intros ?; apply Hnr; by left).
  unfold sleep, set_state; split; cbn [slot states frames].
  - intros u. unfold referenced; cbn [slot frames]. split.
    + intros [[= <-]|(v & f & Hv & Hh)].
      * rewrite lookup_insert_eq, lookup_alter_eq, Hs. done.
      * assert (u ≠ t ∧ referenced q u) as [Hut Hru].
        { destruct (decide (v = t)) as [->|].
          - rewrite lookup_insert_eq in Hv. injection Hv as <-. cbn [handoff] in Hh. split; [congruence|by left].
          - rewrite lookup_insert_ne in Hv by done. split; [by intros ->; destruct (Hnh v f)|right; by exists v, f]. }
        rewrite lookup_insert_ne, lookup_alter_ne by done. by apply (qi_sleeps _ Hi).
    + destruct (decide (u = t)) as [->|]; [by left|].
      rewrite lookup_insert_ne, lookup_alter_ne by done. intros Hu%(qi_sleeps _ Hi).
      right. destruct Hu as [Hu|(v & f & Hv & Hh)].
      * exists t, (mkFrame (slot q) false). by rewrite lookup_insert_eq.
      * exists v, f. rewrite lookup_insert_ne; [done|congruence].
  - intros u f. destruct (decide (u = t)) as [->|].
    + rewrite lookup_alter_eq, Hs. by left.
    + rewrite lookup_insert_ne, lookup_alter_ne by done. apply (qi_states _ Hi).
  - intros u v f [= <-] Hv. destruct (decide (v = t)) as [->|].
    + rewrite lookup_insert_eq in Hv. by injection Hv as <-.
    + rewrite lookup_insert_ne in Hv by done. by apply (Hnh v).
  - intros u v w f g Hv Hw Hhf Hhg. destruct (decide (v = t)) as [->|], (decide (w = t)) as [->|]; try done;
      rewrite ?lookup_insert_eq, ?lookup_insert_ne in * by done.
    + injection Hv as <-. by destruct (qi_slot _ Hi u w g).
    + injection Hw as <-. by destruct (qi_slot _ Hi u v f).
    + by eapply (qi_once _ Hi).
  - destruct (qi_order _ Hi) as [r Hr].
    exists (λ x, if decide (x = t) then S (default 0%nat (r <$> slot q)) else r x).
    intros u f v Hu Hh. destruct (decide (u = t)) as [->|].
    + rewrite lookup_insert_eq in Hu. injection Hu as <-. cbn [handoff] in Hh. rewrite Hh. simpl.
      rewrite decide_False by congruence. lia.
    + rewrite lookup_insert_ne in Hu by done.
      rewrite decide_False by (intros ->; by destruct (Hnh u f)). by apply (Hr u f v).
Qed.

(** Waking a referenced task whose reference is dropped. *)
Lemma release_inv q sl fr h :
  inv q →
  (∀ t, sl = Some t → slot q = Some t) → (∀ t f, fr !! t = Some f → frames q !! t = Some f) →
  (∀ t f, frames q !! t = Some f → fr !! t = Some f ∨ states q !! t = Some Running) →
  (∀ t, referenced q t ↔ (h = Some t ∨ referenced (mkQueue sl (states q) fr) t)) →
  (∀ t, h = Some t → ¬ referenced (mkQueue sl (states q) fr) t) →
  inv (wake_handoff h (mkQueue sl (states q) fr)).
Proof.
  intros Hi Hsl Hfr Hgone Href Hdrop. set (q1 := mkQueue sl (states q) fr).
  assert (∀ t, referenced q1 t → referenced q t) as Hsub by (intros; apply Href; by right).
  assert (slot (wake_handoff h q1) = sl ∧ frames (wake_handoff h q1) = fr ∧
    ∀ t, states (wake_handoff h q1) !! t =
      if decide (h = Some t) then (λ _, Running) <$> states q !! t else states q !! t) as (E1 & E2 & E3).
  { destruct h as [u|]; simpl; split_and!; try done. intros t. case_decide as Hd.
    - injection Hd as ->. by rewrite lookup_alter_eq.
    - by rewrite lookup_alter_ne by congruence. }
  split.
  - intros t. rewrite E3, E2. unfold referenced. rewrite E1, E2. fold (referenced q1 t). split.
    + intros Hr. assert (h ≠ Some t) by (intros E; by apply (Hdrop t)). rewrite decide_False by done.
      pose proof (proj1 (qi_sleeps _ Hi t) (Hsub t Hr)) as [[f Hf] Hst]. split; [|done].
      destruct (Hgone t f Hf) as [?|?]; [by eexists|congruence].
    + intros [[f Hf] Hst]. case_decide as Hd; [by destruct (states q !! t)|].
      assert (referenced q t) as Hrq by (apply (qi_sleeps _ Hi); split; [exists f; by apply Hfr|done]).
      apply Href in Hrq as [?|?]; done.
  - intros t f. rewrite E2, E3. intros Hf%Hfr. destruct (qi_states _ Hi t f Hf) as [E|E]; rewrite E; case_decide; auto.
  - intros t u f. rewrite E1, E2. intros Hs%Hsl Hu%Hfr. by apply (qi_slot _ Hi t u f).
  - intros t u v f g. rewrite E2. intros Hu%Hfr Hv%Hfr. by apply (qi_once _ Hi t).
  - destruct (qi_order _ Hi) as [r Hr]. exists r. intros t f u. rewrite E2. intros Hf%Hfr. by apply (Hr t f).
Qed.

Lemma resume_inv t f q : inv q → states q !! t = Some Running → frames q !! t = Some f → inv (resume t f q).
Proof.
  intros Hi Hs Hf. unfold resume, leave. apply release_inv; try done.
  - intros u g. rewrite lookup_delete_Some. tauto.
  - intros u g Hu. destruct (decide (u = t)) as [->|]; [by right|left]. by rewrite lookup_delete_ne.
  - intros u. unfold referenced; cbn [slot frames]. split.
    + intros [?|(v & g & Hv & Hh)]; [auto|]. destruct (decide (v = t)) as [->|].
      * left. congruence.
      * right. right. exists v, g. by rewrite lookup_delete_ne.
    + intros [Hh|[?|(v & g & [Hne Hv]%lookup_delete_Some & Hh)]]; [right; by exists t, f|by left|right; by exists v, g].
  - intros u Hh. unfold referenced; cbn [slot frames]. intros [Hsl|(v & g & [Hne Hv]%lookup_delete_Some & Hg)].
    + by destruct (qi_slot _ Hi u t f).
    + apply Hne. by eapply (qi_once _ Hi u).
Qed.

Lemma wake_inv q : inv q → inv (wake q).
Proof.
  intros Hi. unfold wake. apply release_inv; try done; auto.
  - intros u. unfold referenced; cbn [slot frames]. naive_solver.
  - intros u Hs. unfold referenced; cbn [slot frames]. intros [?|(v & f & Hv & Hh)]; [done|]. by destruct (qi_slot _ Hi u v f).
Qed.

Lemma other_inv t st q : inv q → frames q !! t = None →
  inv (set_other t st q).
Proof.
  intros Hi Hf. pose proof (not_referenced _ _ Hi Hf) as Hnr. unfold set_other; split; cbn [slot states frames].
  - intros u. change (referenced _ u) with (referenced q u). destruct (decide (u = t)) as [->|].
    + split; [done|]. intros [[? ?] _]. congruence.
    + rewrite lookup_partial_alter_ne by done. apply (qi_sleeps _ Hi).
  - intros u f Hu. rewrite lookup_partial_alter_ne by congruence. by apply (qi_states _ Hi u f).
  - apply (qi_slot _ Hi).
  - apply (qi_once _ Hi).
  - apply (qi_order _ Hi).
Qed.

Lemma queue_step_inv q q' : inv q → step q q' → inv q'.
Proof. intros Hi. destruct 1; auto using sleep_inv, resume_inv, wake_inv, other_inv. Qed.

Lemma queue_reachable_inv st q : rtc step (new_queue st) q → inv q.
Proof.
  intros Hr. pose proof (new_queue_inv st) as Hi. induction Hr as [|q1 q2 q3 Hs _ IH]; [done|].
  apply IH. by eapply queue_step_inv.
Qed.

(** The sleepers are above one another, so the highest is in the slot or below
    a task that is about to resume. *)
Lemma sleeper_root q t :
  inv q → is_Some (frames q !! t) →
  is_Some (slot q) ∨ ∃ u, is_Some (frames q !! u) ∧ states q !! u = Some Running.
Proof.
  intros Hi Hf. destruct (qi_order _ Hi) as [r Hr].
  set (B := max_list (r <$> (map_to_list (frames q)).*1)).
  assert (∀ u, is_Some (frames q !! u) → (r u ≤ B)%nat) as HB.
  { intros u [f Hu]. apply max_list_elem_of_le, list_elem_of_fmap. exists u. split; [done|].
    apply list_elem_of_fmap. exists (u, f). split; [done|]. by apply elem_of_map_to_list. }
  remember (B - r t)%nat as n eqn:Hn. revert t Hf Hn. induction n as [n IH] using lt_wf_ind. intros t Hf ->.
  destruct Hf as [f Hf]. destruct (qi_states _ Hi t f Hf) as [Hs|Hs]; [|right; eauto].
  assert (referenced q t) as [Hr'|(u & g & Hu & Hh)] by (apply (qi_sleeps _ Hi); eauto); [left; eauto|].
  pose proof (Hr u g t Hu Hh). pose proof (HB u ltac:(eauto)).
  eapply (IH (B - r u)%nat); [lia|by eexists|done].
Qed.

(** Sleepers are named, once each, and a resumed one is out of the queue. *)
Lemma sleepers_named st q :
  rtc step (new_queue st) q →
  (∀ t, referenced q t ↔ is_Some (frames q !! t) ∧ states q !! t = Some Uninterruptible) ∧
  (∀ t u f, slot q = Some t → frames q !! u = Some f → handoff f ≠ Some t) ∧
  (∀ t u v f g, frames q !! u = Some f → frames q !! v = Some g → handoff f = Some t → handoff g = Some t → u = v) ∧
  ∀ t f, frames q !! t = Some f → (size (frames (resume t f q)) < size (frames q))%nat.
Proof.
  intros Hi%queue_reachable_inv. split_and!.
  - apply (qi_sleeps _ Hi).
  - apply (qi_slot _ Hi).
  - apply (qi_once _ Hi).
  - intros t f Hf. unfold resume, leave. assert (∀ h q', frames (wake_handoff h q') = frames q') as -> by (by intros []).
    simpl. rewrite <- (insert_delete_id (frames q) t f Hf) at 2.
    rewrite map_size_insert_None by apply lookup_delete_eq. lia.
Qed.

(** ** Wake-ups from outside

    Other queues may name a task that sleeps in this one: a task that a signal took
    out of an interruptible sleep stays their handoff.  Their wake-ups reach it at
    any time. *)

Inductive disturbed_step : Queue → Queue → Prop :=
| disturbed_own q q' : step q q' → disturbed_step q q'
| disturbed_stray t q : disturbed_step q (wake_task t q).

(** The tasks that wake-ups will get to: from the slot, from those that are about
    to resume, and on along the handoffs. *)
Inductive reached (q : Queue) : nat → Prop :=
| reached_slot t : slot q = Some t → reached q t
| reached_awake t : is_Some (frames q !! t) → states q !! t = Some Running → reached q t
| reached_handoff u f t : reached q u → frames q !! u = Some f → handoff f = Some t → reached q t.

Record covered (q : Queue) : Prop := {
  co_states : ∀ t f, frames q !! t = Some f → states q !! t = Some Uninterruptible ∨ states q !! t = Some Running;
  co_reached : ∀ t, is_Some (frames q !! t) → reached q t;
}.

Lemma slot_wake_handoff h q : slot (wake_handoff h q) = slot q.
Proof. by destruct h. Qed.

Lemma frames_wake_handoff h q : frames (wake_handoff h q) = frames q.
Proof. by destruct h. Qed.

Lemma states_wake_handoff h q t : states (wake_handoff h q) !! t = if decide (h = Some t) then (λ _, Running) <$> states q !! t else states q !! t.
Proof.
  destruct h as [u|]; cbn [wake_handoff]; [|done]. unfold wake_task, set_state. cbn [states]. case_decide as Hd.
  - injection Hd as ->. by rewrite lookup_alter_eq.
  - by rewrite lookup_alter_ne by congruence.
Qed.

(** Frames that stay keep being reached, when what is no longer named is awake. *)
Lemma covered_after q q' :
  covered q →
  (∀ t f, frames q' !! t = Some f → frames q !! t = Some f) →
  (∀ t f, frames q !! t = Some f → frames q' !! t = Some f ∨ ∀ u, handoff f = Some u → is_Some (frames q' !! u) → states q' !! u = Some Running) →
  (∀ t, slot q = Some t → slot q' = Some t ∨ (is_Some (frames q' !! t) → states q' !! t = Some Running)) →
  (∀ t, is_Some (frames q' !! t) → states q' !! t = states q !! t ∨ states q' !! t = Some Running) →
  covered q'.
Proof.
  intros [Hs Hr] Hsub Hgone Hslot Hst. split.
  - intros t f Hf. destruct (Hst t) as [->|]; [by eexists|by eapply Hs, Hsub|by right].
  - intros t [f Hf]. assert (reached q t) as H by (apply Hr; exists f; by apply Hsub).
    revert f Hf. induction H as [t H|t Hin H|u g t Hu IH Hg Hh]; intros f Hf.
    + destruct (Hslot t H) as [?|Hw]; [by apply reached_slot|]. apply reached_awake; [by eexists|]. apply Hw. by eexists.
    + apply reached_awake; [by eexists|]. destruct (Hst t) as [->|]; [by eexists|done|done].
    + destruct (Hgone u g Hg) as [Hg'|Hw]; [eapply reached_handoff; [by eapply IH|done|done]|].
      apply reached_awake; [by eexists|]. apply Hw; [done|by eexists].
Qed.

Lemma covered_sleep t q : covered q → states q !! t = Some Running → frames q !! t = None → covered (sleep t q).
Proof.
  intros [Hs Hr] Ht Hf. unfold sleep, set_state. set (q' := mkQueue _ _ _).
  assert (reached q' t) as Hself by (by apply reached_slot).
  assert (frames q' !! t = Some (mkFrame (slot q) false)) as Hft by (unfold q'; cbn [frames]; by rewrite lookup_insert_eq).
  split.
  - intros u f. unfold q'. cbn [frames states]. destruct (decide (u = t)) as [->|]; [rewrite lookup_alter_eq, Ht; by left|].
    rewrite lookup_insert_ne, lookup_alter_ne by done. apply Hs.
  - assert (∀ u, reached q u → reached q' u) as Hkeep.
    { induction 1 as [u H|u [f Hu] H|v g u _ IH Hg Hh].
      - by eapply reached_handoff.
      - apply reached_awake; unfold q'; cbn [frames states]; assert (u ≠ t) by congruence; [rewrite lookup_insert_ne by done; by eexists|by rewrite lookup_alter_ne].
      - eapply reached_handoff; [exact IH| |exact Hh]. unfold q'. cbn [frames]. rewrite lookup_insert_ne; [done|congruence]. }
    intros u Hu. destruct (decide (u = t)) as [->|Hne]; [done|]. apply Hkeep, Hr. revert Hu. unfold q'. cbn [frames]. by rewrite lookup_insert_ne.
Qed.

Lemma covered_disturbed q q' : covered q → disturbed_step q q' → covered q'.
Proof.
  intros Hc Hd. revert Hc. destruct Hd as [q1 q2 [t q Ht Hf|t f q Ht Hf|q|t st q Hf Hl]|t q]; intros Hc.
  - by apply covered_sleep.
  - unfold resume. apply (covered_after q); [done|..].
    + intros u g. rewrite frames_wake_handoff. cbn [leave frames]. by intros [_ ?]%lookup_delete_Some.
    + intros u g Hg. destruct (decide (u = t)) as [->|].
      * right. assert (g = f) as -> by congruence. intros v Hv Hin. rewrite states_wake_handoff, decide_True by done.
        assert (is_Some (frames q !! v)) as [g' Hg'].
        { destruct Hin as [x Hx]. rewrite frames_wake_handoff in Hx. cbn [leave frames] in Hx. apply lookup_delete_Some in Hx as [_ Hx]. by exists x. }
        cbn [leave states]. by destruct (co_states _ Hc v g' Hg') as [-> | ->].
      * left. rewrite frames_wake_handoff. cbn [leave frames]. by rewrite lookup_delete_ne.
    + intros u Hu. left. by rewrite slot_wake_handoff.
    + intros u [g Hg]. rewrite states_wake_handoff. case_decide; [|by left]. cbn [leave states]. destruct (states q !! u) eqn:E; [by right|by left].
  - unfold wake. apply (covered_after q); [done|..].
    + intros u g. by rewrite frames_wake_handoff.
    + intros u g Hg. left. by rewrite frames_wake_handoff.
    + intros u Hu. right. intros [g Hg]. rewrite states_wake_handoff, decide_True by done. cbn [states].
      assert (frames q !! u = Some g) as Hg' by (by rewrite frames_wake_handoff in Hg). by destruct (co_states _ Hc u g Hg') as [-> | ->].
    + intros u _. rewrite states_wake_handoff. case_decide; [|by left]. cbn [states]. destruct (states q !! u) eqn:E; [by right|by left].
  - apply (covered_after q); [done|done|by left|by left|]. intros u [g Hg]. left. unfold set_other. cbn [states]. rewrite lookup_partial_alter_ne; [done|].
    intros ->. cbn [set_other frames] in Hg. congruence.
  - apply (covered_after q); [done|done|by left|by left|]. intros u [g Hg]. unfold wake_task, set_state. cbn [states].
    destruct (decide (u = t)) as [->|]; [right|left; by rewrite lookup_alter_ne]. rewrite lookup_alter_eq.
    by destruct (co_states _ Hc t g Hg) as [-> | ->].
Qed.

Lemma disturbed_covered st q : rtc disturbed_step (new_queue st) q → covered q.
Proof.
  intros Hr. assert (covered (new_queue st)) as Hc by (split; [done|by intros t [f Hf]]).
  induction Hr as [|q1 q2 q3 Hs _ IH]; [done|]. apply IH. by eapply covered_disturbed.
Qed.

(** No uninterruptible sleeper is lost. *)
Lemma sleepers_reached st q :
  rtc disturbed_step (new_queue st) q →
  (∀ t, is_Some (frames q !! t) → reached q t) ∧
  (slot q = None → (∀ t, is_Some (frames q !! t) → states q !! t ≠ Some Running) → frames q = ∅).
Proof.
  intros Hc%disturbed_covered. split; [apply (co_reached _ Hc)|]. intros Hs Hn.
  assert (∀ t, ¬ reached q t) as Hnone.
  { induction 1 as [t H|t Hf H|u f t _ IH _ _]; [congruence|by apply (Hn t)|done]. }
  apply map_empty. intros t. destruct (frames q !! t) eqn:Hf; [|done]. destruct (Hnone t). apply (co_reached _ Hc). by eexists.
Qed.

(** ** Interruptible sleepers *)

Inductive istep : Queue → Queue → Prop :=
| istep_sleep t q : states q !! t = Some Running → frames q !! t = None → istep q (sleep t q)
| istep_sleep_int t q : states q !! t = Some Running → frames q !! t = None →
    istep q (sleep_interruptible t q)
| istep_resume t f q : states q !! t = Some Running → frames q !! t = Some f →
    is_interruptible f = false → istep q (resume t f q)
| istep_turn t f q : states q !! t = Some Running → frames q !! t = Some f →
    is_interruptible f = true → istep q (resume_interruptible t f q)
| istep_wake q : istep q (wake q)
| istep_signal t q : states q !! t = Some Interruptible → istep q (set_state Running t q)
| istep_other t st q : frames q !! t = None → life (states q !! t) st → istep q (set_other t st q).

Definition three_running : gmap nat TaskState := {[1%nat := Running; 2%nat := Running; 3%nat := Running]}.

Ltac istep_run step := eapply rtc_l; [apply step; by vm_compute|].

(** An interruptible sleeper can be lost.  There is a run without signals in
    which one wake-up happens and every task that can resume has done so, and
    yet two tasks stay asleep that neither the slot nor any handoff of a task
    that is awake names: the one that was woken finds a later sleeper in the
    slot and goes back to sleep, and that sleeper does not know it. *)
Lemma sleepers_lost_run :
  ∃ q, rtc istep (new_queue three_running) q ∧ slot q = None ∧
    (∀ t, is_Some (frames q !! t) → states q !! t ≠ Some Running) ∧
    states q !! 1%nat = Some Interruptible ∧ is_Some (frames q !! 1%nat) ∧
    states q !! 2%nat = Some Interruptible ∧ is_Some (frames q !! 2%nat) ∧
    ¬ referenced q 2.
Proof.
  eexists. split.
  { istep_run (istep_sleep_int 1). istep_run (istep_sleep_int 2).
    eapply rtc_l; [apply istep_wake|]. istep_run (istep_sleep_int 3).
    istep_run (istep_turn 2 (mkFrame (Some 1%nat) true)). istep_run (istep_turn 3 (mkFrame None true)).
    apply rtc_refl. }
  set (q := resume_interruptible 3 _ _).
  assert (frames q = {[1%nat := mkFrame None true; 2%nat := mkFrame (Some 1%nat) true]}) as Hf by (by vm_compute).
  split_and!; try (by vm_compute); try (by (rewrite Hf; eexists)).
  - rewrite Hf. intros t [f Ht]. apply lookup_insert_Some in Ht as [[<- _]|[_ [<- _]%lookup_singleton_Some]];
      by vm_compute.
  - unfold referenced. rewrite Hf. intros [?|(u & f & Hu & Hh)]; [done|].
    apply lookup_insert_Some in Hu as [[? E]|[? [? E]%lookup_singleton_Some]]; by rewrite <- E in Hh.
Qed.

(** A wake-up can revive a task that has exited.  A task that a signal takes
    out of the queue is still the handoff of a later sleeper; when it exits
    before that sleeper resumes, the sleeper makes the zombie runnable again. *)
Lemma zombie_run :
  ∃ q f, rtc istep (new_queue three_running) q ∧ states q !! 1%nat = Some Zombie ∧
    states q !! 2%nat = Some Running ∧ frames q !! 2%nat = Some f ∧
    states (resume_interruptible 2 f q) !! 1%nat = Some Running.
Proof.
  eexists _, (mkFrame (Some 1%nat) true). split.
  { istep_run (istep_sleep_int 1). istep_run (istep_sleep_int 2).
    eapply rtc_l; [apply istep_wake|]. istep_run (istep_signal 1).
    istep_run (istep_turn 1 (mkFrame None true)).
    eapply rtc_l; [apply (istep_other 1 (Some Zombie)); [by vm_compute|apply life_exit]|]. apply rtc_refl. }
  by vm_compute.
Qed.

(** C36: What becomes of sleepers.  Of a queue whose tasks sleep uninterruptibly
    and are woken by it alone: in every reachable state the tasks that the slot
    and the handoffs name are exactly the sleepers, and each is named in one
    place, so that a wake-up never touches another task nor the same sleeper
    twice; a task that resumes is out of the queue.  When other queues may wake
    its sleepers as well, at any time: every task inside a sleep can still be
    reached from the slot and the tasks about to resume, along the handoffs; so
    once the slot is empty and no task is about to resume, none is asleep.
    Interruptible sleep is not as safe.  There is a run without signals in which
    one wake-up happens and every task that can resume has done so, and yet two
    tasks stay asleep that nobody awake can reach; and there is a run in which a
    task that a signal took out of the queue exits and a later sleeper, which
    still has it as its handoff, makes the zombie runnable. *)
Theorem sleepers_released :
  (∀ st q, rtc step (new_queue st) q →
    (∀ t, referenced q t ↔ is_Some (frames q !! t) ∧ states q !! t = Some Uninterruptible) ∧
    (∀ t u f, slot q = Some t → frames q !! u = Some f → handoff f ≠ Some t) ∧
    (∀ t u v f g, frames q !! u = Some f → frames q !! v = Some g → handoff f = Some t → handoff g = Some t → u = v) ∧
    ∀ t f, frames q !! t = Some f → (size (frames (resume t f q)) < size (frames q))%nat) ∧
  (∀ st q, rtc disturbed_step (new_queue st) q →
    (∀ t, is_Some (frames q !! t) → reached q t) ∧
    (slot q = None → (∀ t, is_Some (frames q !! t) → states q !! t ≠ Some Running) → frames q = ∅)) ∧
  (∃ q, rtc istep (new_queue three_running) q ∧ slot q = None ∧
    (∀ t, is_Some (frames q !! t) → states q !! t ≠ Some Running) ∧
    states q !! 1%nat = Some Interruptible ∧ is_Some (frames q !! 1%nat) ∧
    states q !! 2%nat = Some Interruptible ∧ is_Some (frames q !! 2%nat) ∧
    ¬ referenced q 2) ∧
  (∃ q f, rtc istep (new_queue three_running) q ∧ states q !! 1%nat = Some Zombie ∧
    states q !! 2%nat = Some Running ∧ frames q !! 2%nat = Some f ∧
    states (resume_interruptible 2 f q) !! 1%nat = Some Running).
Proof. split_and!; [apply sleepers_named|apply sleepers_reached|apply sleepers_lost_run|apply zombie_run]. Qed.
End WaitQueue.

(** ** Busy locks and mutexes *)

Module Lock.
Import Task WaitQueue.

Record BusyLock : Type := mkBusy { locked : bool; queue : Queue }.

(** [acquire] from its loop test to the end or to the sleep; the result tells
    whether the lock is taken. *)
Definition acquire (t : nat) (l : BusyLock) : bool * BusyLock :=
  if locked l then (false, mkBusy true (sleep t (queue l))) else (true, mkBusy true (queue l)).

(** The rest of the sleep, and the loop again. *)
Definition acquire_resume (t : nat) (f : Frame) (l : BusyLock) : bool * BusyLock :=
  acquire t (mkBusy (locked l) (resume t f (queue l))).

(** [wait] leaves the lock as it is. *)
Definition wait (t : nat) (l : BusyLock) : bool * BusyLock :=
  if locked l then (false, mkBusy true (sleep t (queue l))) else (true, l).

Definition release (l : BusyLock) : result BusyLock :=
  if locked l then Ok (mkBusy false (wake (queue l))) else Panic.

Record Mutex : Type := mkMutex { lock : BusyLock; owner_slot : option nat }.

(** What [Mutex::lock] does once [acquire] has returned. *)
Definition set_owner (t : nat) (r : bool * BusyLock) (m : Mutex) : result Mutex :=
  match r with
  | (false, l) => Ok (mkMutex l (owner_slot m))
  | (true, l) => if owner_slot m is None then Ok (mkMutex l (Some t)) else Panic
  end.

Definition mutex_lock (t : nat) (m : Mutex) : result Mutex :=
  if decide (owner_slot m = Some t) then Panic else set_owner t (acquire t (lock m)) m.

Definition mutex_resume (t : nat) (f : Frame) (m : Mutex) : result Mutex :=
  set_owner t (acquire_resume t f (lock m)) m.

Definition mutex_unlock (t : nat) (m : Mutex) : result Mutex :=
  if decide (owner_slot m = Some t) then
    match release (lock m) with
    | Ok l => Ok (mkMutex l None)
    | Err e => Err e
    | Panic => Panic
    end
  else Panic.

Definition running (m : Mutex) (t : nat) : Prop := states (queue (lock m)) !! t = Some Running.
Definition waiting (m : Mutex) (t : nat) (f : Frame) : Prop := frames (queue (lock m)) !! t = Some f.
Definition outside (m : Mutex) (t : nat) : Prop := frames (queue (lock m)) !! t = None.

Inductive step : Mutex → Mutex → Prop :=
| step_lock t m m' : running m t → outside m t → owner_slot m ≠ Some t → mutex_lock t m = Ok m' → step m m'
| step_resume t f m m' : running m t → waiting m t f → mutex_resume t f m = Ok m' → step m m'
| step_unlock t m m' : running m t → owner_slot m = Some t → mutex_unlock t m = Ok m' → step m m'
| step_other t st m : outside m t → life (states (queue (lock m)) !! t) st →
    step m (mkMutex (mkBusy (locked (lock m)) (set_other t st (queue (lock m)))) (owner_slot m)).

Definition new_mutex (st : gmap nat TaskState) : Mutex := mkMutex (mkBusy false (new_queue st)) None.

Record inv (m : Mutex) : Prop := {
  mi_queue : WaitQueue.inv (queue (lock m));
  mi_locked : locked (lock m) = true ↔ is_Some (owner_slot m);
  mi_free : locked (lock m) = false → slot (queue (lock m)) = None;
  mi_owner : ∀ t, owner_slot m = Some t → outside m t;
}.

Lemma frames_resume t f q : frames (resume t f q) = delete t (frames q).
Proof. unfold resume. by rewrite frames_wake_handoff. Qed.

(** A resuming task is running and out of the queue. *)
Lemma resume_running t f q :
  WaitQueue.inv q → states q !! t = Some Running → frames q !! t = Some f →
  states (resume t f q) !! t = Some Running ∧ frames (resume t f q) !! t = None.
Proof.
  intros Hi Hs Hf. rewrite frames_resume, lookup_delete_eq. split; [|done].
  unfold resume, leave. destruct (handoff f) as [u|]; [|done]. simpl.
  destruct (decide (u = t)) as [->|]; [by rewrite lookup_alter_eq, Hs|by rewrite lookup_alter_ne].
Qed.

Lemma acquire_inv t (b : bool) q o :
  WaitQueue.inv q → states q !! t = Some Running → frames q !! t = None →
  (b = true ↔ is_Some o) → (b = false → slot q = None) → o ≠ Some t →
  (∀ u, o = Some u → frames q !! u = None) →
  ∃ m', set_owner t (acquire t (mkBusy b q)) (mkMutex (mkBusy b q) o) = Ok m' ∧ inv m' ∧
    match o with
    | Some u => owner_slot m' = Some u ∧ states (queue (lock m')) !! t = Some Uninterruptible
    | None => owner_slot m' = Some t ∧ lock m' = mkBusy true q
    end.
Proof.
  intros Hi Hs Hf Hb Hfree Hne Hout. unfold acquire. cbn [locked queue]. destruct b.
  - destruct (proj1 Hb eq_refl) as [u ->]. eexists. split; [done|]. split; [split|]; cbn [lock owner_slot locked queue].
    + by apply sleep_inv.
    + done.
    + done.
    + intros v [= <-]. unfold outside. simpl. rewrite lookup_insert_ne by congruence. by apply Hout.
    + split; [done|]. unfold sleep, set_state. cbn [states]. by rewrite lookup_alter_eq, Hs.
  - destruct o as [u|]; [by discriminate (proj2 Hb (mk_is_Some _ _ eq_refl))|].
    eexists. split; [done|]. split; [split|done]; cbn [lock owner_slot locked queue]; try done.
    by intros v [= <-].
Qed.

Lemma lock_spec t m : inv m → running m t → outside m t → owner_slot m ≠ Some t →
  ∃ m', mutex_lock t m = Ok m' ∧ inv m' ∧
    match owner_slot m with
    | Some u => owner_slot m' = Some u ∧ states (queue (lock m')) !! t = Some Uninterruptible
    | None => owner_slot m' = Some t
    end.
Proof.
  intros [Hq Hl Hf Ho] Hr Hout Hne. unfold mutex_lock. rewrite decide_False by done.
  destruct m as [[b q] o]. cbn [lock owner_slot] in *.
  destruct (acquire_inv t b q o) as (m' & Hm' & Hi & Hres); try done.
  exists m'. split; [done|]. split; [done|]. destruct o; tauto.
Qed.

Lemma resume_spec t f m : inv m → running m t → waiting m t f →
  ∃ m', mutex_resume t f m = Ok m' ∧ inv m' ∧
    match owner_slot m with
    | Some u => owner_slot m' = Some u ∧ states (queue (lock m')) !! t = Some Uninterruptible
    | None => owner_slot m' = Some t
    end.
Proof.
  intros [Hq Hl Hf Ho] Hr Hw. unfold mutex_resume, acquire_resume.
  destruct m as [[b q] o]. cbn [lock owner_slot locked queue] in *.
  unfold running, waiting, outside in *. cbn [lock queue] in *.
  destruct (resume_running t f q Hq Hr Hw) as [Hr' Hf'].
  destruct (acquire_inv t b (resume t f q) o) as (m' & Hm' & Hi & Hres); try done.
  - by apply resume_inv.
  - intros E. unfold resume. rewrite slot_wake_handoff. by apply Hf.
  - intros ->. by rewrite (Ho t eq_refl) in Hw.
  - intros u E. rewrite frames_resume. destruct (decide (u = t)) as [->|]; [by rewrite lookup_delete_eq|].
    rewrite lookup_delete_ne by done. by apply Ho.
  - exists m'. split; [done|]. split; [done|]. destruct o; tauto.
Qed.

Lemma unlock_spec t m : inv m → owner_slot m = Some t →
  mutex_unlock t m = Ok (mkMutex (mkBusy false (wake (queue (lock m)))) None) ∧
  inv (mkMutex (mkBusy false (wake (queue (lock m)))) None).
Proof.
  intros [Hq Hl Hf Ho] Ht. unfold mutex_unlock, release. rewrite decide_True by done.
  rewrite (proj2 Hl) by (by eexists). split; [done|]. split; cbn [lock owner_slot locked queue].
  - by apply wake_inv.
  - split; [done|]. by intros [? ?].
  - intros _. unfold wake. by rewrite slot_wake_handoff.
  - done.
Qed.

Lemma mutex_step_inv m m' : inv m → step m m' → inv m'.
Proof.
  intros Hi. destruct 1 as [t m m' Hr Ho Hne Hm|t f m m' Hr Hw Hm|t m m' Hr Ho Hm|t st m Ho Hlife].
  - destruct (lock_spec t m Hi Hr Ho Hne) as (m2 & Hm2 & ? & _). congruence.
  - destruct (resume_spec t f m Hi Hr Hw) as (m2 & Hm2 & ? & _). congruence.
  - destruct (unlock_spec t m Hi Ho) as [Hm2 ?]. congruence.
  - destruct Hi as [Hq Hl Hf How]. split; try done. by apply other_inv.
Qed.

Lemma mutex_reachable_inv st m : rtc step (new_mutex st) m → inv m.
Proof.
  intros Hr. assert (inv (new_mutex st)) as Hi.
  { split; try done; [apply new_queue_inv|]. split; [done|]. by intros [? ?]. }
  induction Hr as [|m1 m2 m3 Hs _ IH]; [done|]. apply IH. by eapply mutex_step_inv.
Qed.

(** C22: A mutex is exclusive and loses no waiter.  In every reachable state: a
    task that asks for a free mutex, or comes back from its sleep to find it
    free, becomes its owner; while another task owns it, it goes to sleep and
    the owner stays; the owner's unlock succeeds.  None of these panics (only a
    second lock by the owner does).  And when the mutex is free, some waiter, if
    there is any, is awake and about to take it. *)
Theorem mutex_exclusive st m :
  rtc step (new_mutex st) m →
  (∀ t, running m t → outside m t → owner_slot m ≠ Some t →
     ∃ m', mutex_lock t m = Ok m' ∧ owner_slot m' = Some (default t (owner_slot m)) ∧
       (is_Some (owner_slot m) → states (queue (lock m')) !! t = Some Uninterruptible)) ∧
  (∀ t f, running m t → waiting m t f →
     ∃ m', mutex_resume t f m = Ok m' ∧ owner_slot m' = Some (default t (owner_slot m)) ∧
       (is_Some (owner_slot m) → states (queue (lock m')) !! t = Some Uninterruptible)) ∧
  (∀ t, owner_slot m = Some t → mutex_lock t m = Panic ∧ ∃ m', mutex_unlock t m = Ok m' ∧ owner_slot m' = None) ∧
  (owner_slot m = None → (∃ t f, waiting m t f) → ∃ t f, waiting m t f ∧ running m t).
Proof.
  intros Hi%mutex_reachable_inv. split_and!.
  - intros t Hr Ho Hne. destruct (lock_spec t m Hi Hr Ho Hne) as (m' & ? & _ & Hres). exists m'.
    destruct (owner_slot m); [destruct Hres; naive_solver|split_and!; [done|done|by intros [? ?]]].
  - intros t f Hr Hw. destruct (resume_spec t f m Hi Hr Hw) as (m' & ? & _ & Hres). exists m'.
    destruct (owner_slot m); [destruct Hres; naive_solver|split_and!; [done|done|by intros [? ?]]].
  - intros t Ho. unfold mutex_lock. rewrite decide_True by done. split; [done|].
    destruct (unlock_spec t m Hi Ho) as [Hu _]. eexists. by split.
  - intros Ho (t & f & Hw). destruct (sleeper_root (queue (lock m)) t) as [[u Hu]|(u & [g Hg] & Hr)].
    + apply Hi.
    + by exists f.
    + rewrite (mi_free _ Hi) in Hu; [done|]. destruct (locked (lock m)) eqn:El; [|done].
      apply (mi_locked _ Hi) in El as [? ?]. congruence.
    + by exists u, g.
Qed.

(** Task 2 waits for the mutex that task 1 gives back. *)
Lemma mutex_exclusive_witness :
  ∃ m m', rtc step (new_mutex three_running) m ∧ owner_slot m = None ∧
    mutex_resume 2 (mkFrame None false) m = Ok m' ∧ owner_slot m' = Some 2%nat.
Proof.
  assert (∃ m, rtc step (new_mutex three_running) m ∧ owner_slot m = None ∧ running m 2 ∧
            waiting m 2 (mkFrame None false)) as (m & Hr & Ho & Hrun & Hw).
  { eexists. split.
    { eapply rtc_l; [eapply (step_lock 1); [by vm_compute..|reflexivity]|].
      eapply rtc_l; [eapply (step_lock 2); [by vm_compute..|reflexivity]|].
      eapply rtc_l; [eapply (step_unlock 1); [by vm_compute..|reflexivity]|]. apply rtc_refl. }
    split_and!; by vm_compute. }
  destruct (mutex_exclusive three_running m Hr) as (_ & Hres & _ & _).
  destruct (Hres 2%nat _ Hrun Hw) as (m' & Hm' & Hown & _).
  exists m, m'. rewrite Ho in Hown. split; [exact Hr|]. split; [exact Ho|]. split; [exact Hm'|exact Hown].
Defined.

Lemma sleepers_released_witness :
  ∃ q, rtc WaitQueue.step (new_queue three_running) q ∧ referenced q 1.
Proof.
  exists (WaitQueue.sleep 1 (new_queue three_running)).
  assert (rtc WaitQueue.step (new_queue three_running) (WaitQueue.sleep 1 (new_queue three_running))) as Hr.
  { eapply rtc_l; [apply (WaitQueue.step_sleep 1); by vm_compute|apply rtc_refl]. }
  split; [exact Hr|]. apply (proj1 sleepers_released three_running _ Hr). split; [by vm_compute; eexists|by vm_compute].
Defined.
End Lock.
