(* ===== verification/Bitmap.v ===== *)
(** * Allocation bitmaps ([kernel/src/fs/bitmap.rs])

    Inode and zone allocation over cached bitmap blocks of 64-bit words, and its
    refinement of "the set of free identifiers". *)

From S2P Require Import Prelude.
Open Scope kmonad_scope.
Open Scope Z_scope.

Module Bitmap.

Definition BITS_PER_BLOCK : nat := 1024 * 8.
Definition BITS_PER_WORD : nat := 64.
Definition WORDS_PER_BLOCK : nat := 128.

(** [buffers] has the loaded blocks; the other slots of the array are empty. *)
Record Bitmap : Type := mkBitmap {
  buffers : list (list Z);
  base_id : Z;
  bit_count : nat;
}.

Definition split_word_index (i : nat) : nat * nat := ((i / WORDS_PER_BLOCK)%nat, (i mod WORDS_PER_BLOCK)%nat).

(** A missing block or word is a panic. *)
Definition read_word (i : nat) : M Bitmap Z :=
  let '(block_slot, word_in_block) := split_word_index i in
  b <- mget;;
  mexpect (blk ← buffers b !! block_slot; blk !! word_in_block).

Definition modify_word (i : nat) (mutate : Z → Z) : M Bitmap () :=
  let '(block_slot, word_in_block) := split_word_index i in
  _ <- read_word i;;
  mmodify (λ b, mkBitmap (alter (alter mutate word_in_block) block_slot (buffers b)) (base_id b) (bit_count b)).

(** The constructor; [capacity] is the const parameter [N]. *)
Definition new (capacity : nat) (base : Z) (blocks : list (list Z)) (bits : nat) : result Bitmap :=
  if negb (bool_decide (length blocks ≤ capacity)%nat) then Panic
  else if negb (bool_decide (bits ≤ length blocks * BITS_PER_BLOCK)%nat) then Panic
  else match blocks with
       | [] => Panic
       | _ => Ok (mkBitmap (alter (alter (λ w, Z.lor w 1) 0%nat) 0%nat blocks) base bits)
       end.

Definition div_ceil (a b : nat) : nat := ((a + b - 1) / b)%nat.

Fixpoint alloc_words (l : list nat) : M Bitmap (option Z) :=
  match l with
  | [] => mok None
  | word_index :: l =>
      w <- read_word word_index;;
      let free := unot 64 w in
      if free =? 0 then alloc_words l
      else
        let bit_in_word := trailing_zeros 64 free in
        let bit := (word_index * BITS_PER_WORD + bit_in_word)%nat in
        b <- mget;;
        if (bit_count b <=? bit)%nat then mok None
        else
          modify_word word_index (λ w, Z.lor w (Z.shiftl 1 (Z.of_nat bit_in_word)));;;
          mok (Some (wrapping_add (base_id b) (Z.of_nat bit)))
  end.

Definition alloc : M Bitmap (option Z) :=
  b <- mget;;
  alloc_words (seq 0 (div_ceil (bit_count b) BITS_PER_WORD)).

Definition dealloc (id : Z) : M Bitmap () :=
  b <- mget;;
  let bit := Z.to_nat (wrapping_sub id (base_id b)) in
  massert (bit <? bit_count b)%nat;;;
  modify_word (bit / BITS_PER_WORD)
    (λ w, Z.land w (unot 64 (Z.shiftl 1 (Z.of_nat (bit mod BITS_PER_WORD))))).

Definition count_ones (x : Z) : nat := length (filter (λ n, Z.testbit x (Z.of_nat n)) (seq 0 64)).

Fixpoint sum_words (l : list nat) : M Bitmap nat :=
  match l with
  | [] => mok 0%nat
  | i :: l => w <- read_word i;; n <- sum_words l;; mok (count_ones w + n)%nat
  end.

Definition count_free : M Bitmap nat :=
  b <- mget;;
  let full_words := (bit_count b / BITS_PER_WORD)%nat in
  let remaining := (bit_count b mod BITS_PER_WORD)%nat in
  used_in_full <- sum_words (seq 0 full_words);;
  used_in_tail <- (if (0 <? remaining)%nat
                   then w <- read_word full_words;;
                        mok (count_ones (Z.land w (2 ^ Z.of_nat remaining - 1)))
                   else mok 0%nat);;
  mok (bit_count b - (used_in_full + used_in_tail))%nat.

(** ** Well-formed bitmaps and their bits *)

Record wf (b : Bitmap) : Prop := {
  wf_blocks : ∀ i blk, buffers b !! i = Some blk →
    length blk = WORDS_PER_BLOCK ∧ Forall (is_uint 64) blk;
  wf_bits : (bit_count b ≤ length (buffers b) * BITS_PER_BLOCK)%nat;
  wf_ids : 0 ≤ base_id b ∧ base_id b + Z.of_nat (bit_count b) ≤ 2 ^ 32;
}.

Definition word (b : Bitmap) (i : nat) : option Z :=
  blk ← buffers b !! (i / WORDS_PER_BLOCK)%nat; blk !! (i mod WORDS_PER_BLOCK)%nat.

Definition used (b : Bitmap) (n : nat) : bool :=
  match word b (n / BITS_PER_WORD) with
  | Some w => Z.testbit w (Z.of_nat (n mod BITS_PER_WORD))
  | None => false
  end.

(** A word index below the end of the last bit. *)
Definition in_words (b : Bitmap) (i : nat) : Prop := (i * BITS_PER_WORD < bit_count b)%nat.

Lemma word_loaded b i : wf b → in_words b i → ∃ w, word b i = Some w ∧ is_uint 64 w.
Proof.
  intros Hwf Hi. unfold in_words, BITS_PER_WORD in Hi. pose proof (wf_bits _ Hwf) as Hb.
  unfold BITS_PER_BLOCK in Hb. unfold word, WORDS_PER_BLOCK.
  destruct (lookup_lt_is_Some_2 (buffers b) (i / 128)) as [blk Hblk].
  { apply Nat.Div0.div_lt_upper_bound. lia. }
  destruct (wf_blocks _ Hwf _ _ Hblk) as [Hl Hu].
  destruct (lookup_lt_is_Some_2 blk (i mod 128)) as [w Hw].
  { rewrite Hl. apply Nat.mod_upper_bound. done. }
  exists w. rewrite Hblk. simpl. split; [done|]. by eapply Forall_lookup_1.
Qed.

Lemma read_word_eq b i w : word b i = Some w → read_word i b = (Ok w, b).
Proof.
  unfold word, read_word, split_word_index. intros Hw. cbv zeta beta.
  erewrite bind_Ok by done. by rewrite Hw.
Qed.

(** The bitmap with one word replaced. *)
Definition set_word (i : nat) (f : Z → Z) (b : Bitmap) : Bitmap :=
  mkBitmap (alter (alter f (i mod WORDS_PER_BLOCK)%nat) (i / WORDS_PER_BLOCK)%nat (buffers b)) (base_id b) (bit_count b).

Lemma modify_word_eq b i f w : word b i = Some w → modify_word i f b = (Ok (), set_word i f b).
Proof.
  intros Hw. unfold modify_word, split_word_index. cbv zeta beta. by erewrite bind_Ok by (by apply read_word_eq).
Qed.

Lemma word_set_word b i f j : word (set_word i f b) j = if decide (i = j) then f <$> word b i else word b j.
Proof.
  unfold word, set_word. cbn [buffers].
  destruct (decide (i / WORDS_PER_BLOCK = j / WORDS_PER_BLOCK)%nat) as [E|E].
  - rewrite <- E, list_lookup_alter_eq. destruct (buffers b !! _) as [blk|]; simpl; [|by case_decide].
    destruct (decide (i mod WORDS_PER_BLOCK = j mod WORDS_PER_BLOCK)%nat) as [E'|E'].
    + assert (i = j) as -> by (rewrite (Nat.div_mod_eq i WORDS_PER_BLOCK), (Nat.div_mod_eq j WORDS_PER_BLOCK); congruence).
      by rewrite decide_True, list_lookup_alter_eq.
    + rewrite list_lookup_alter_ne by done. rewrite decide_False; [done|]. by intros ->.
  - rewrite list_lookup_alter_ne by done. rewrite decide_False; [done|]. by intros ->.
Qed.

Lemma set_word_wf b i f : wf b → (∀ w, is_uint 64 w → is_uint 64 (f w)) → wf (set_word i f b).
Proof.
  intros [Hb Hc Hi] Hf. split; [|by unfold set_word; cbn [bit_count buffers]; rewrite length_alter|done].
  intros j blk. cbn [set_word buffers]. destruct (decide (i / WORDS_PER_BLOCK = j)%nat) as [<-|Hne];
    [rewrite list_lookup_alter_eq|rewrite list_lookup_alter_ne by done; apply Hb].
  intros (blk' & Hblk & ->)%fmap_Some.
  destruct (Hb _ _ Hblk) as [Hl Hu]. split; [by rewrite length_alter|].
  apply Forall_alter; [done|]. intros w Hw. by apply Hf.
Qed.

Lemma used_set_word b i f w n :
  word b i = Some w →
  used (set_word i f b) n =
    if decide (i = n / BITS_PER_WORD)%nat then Z.testbit (f w) (Z.of_nat (n mod BITS_PER_WORD)) else used b n.
Proof. intros Hw. unfold used. rewrite word_set_word. case_decide; [by rewrite Hw|done]. Qed.

(** Bit [k] of word [i] is bit [i * 64 + k]. *)
Lemma bit_split i k : (k < BITS_PER_WORD)%nat →
  ((i * BITS_PER_WORD + k) / BITS_PER_WORD = i ∧ (i * BITS_PER_WORD + k) mod BITS_PER_WORD = k)%nat.
Proof.
  intros Hk. unfold BITS_PER_WORD in *. split.
  - rewrite Nat.div_add_l by lia. rewrite Nat.div_small by lia. lia.
  - rewrite Nat.add_comm, Nat.Div0.mod_add. by apply Nat.mod_small.
Qed.

Lemma bit_join n : (n = (n / BITS_PER_WORD) * BITS_PER_WORD + n mod BITS_PER_WORD)%nat.
Proof. rewrite Nat.mul_comm. apply Nat.div_mod_eq. Qed.

Lemma used_bit b i k w : (k < BITS_PER_WORD)%nat → word b i = Some w →
  used b (i * BITS_PER_WORD + k) = Z.testbit w (Z.of_nat k).
Proof. intros Hk Hw. unfold used. destruct (bit_split i k Hk) as [-> ->]. by rewrite Hw. Qed.

(** ** Allocation *)

Definition set_bit (k : nat) (w : Z) : Z := Z.lor w (Z.shiftl 1 (Z.of_nat k)).
Definition clear_bit (k : nat) (w : Z) : Z := Z.land w (unot 64 (Z.shiftl 1 (Z.of_nat k))).

Lemma set_bit_uint k w : (k < 64)%nat → is_uint 64 w → is_uint 64 (set_bit k w).
Proof. intros. apply lor_uint; [lia|done|]. apply bit_uint. lia. Qed.

Lemma clear_bit_uint k w : is_uint 64 w → is_uint 64 (clear_bit k w).
Proof. intros. by apply land_uint. Qed.

Lemma testbit_set_bit k w m : Z.testbit (set_bit k w) (Z.of_nat m) = Z.testbit w (Z.of_nat m) || bool_decide (m = k).
Proof.
  unfold set_bit. rewrite Z.lor_spec, testbit_bit by lia. f_equal.
  case_bool_decide; [apply Z.eqb_eq; lia|apply Z.eqb_neq; lia].
Qed.

Lemma testbit_clear_bit k w m : (m < 64)%nat →
  Z.testbit (clear_bit k w) (Z.of_nat m) = Z.testbit w (Z.of_nat m) && negb (bool_decide (m = k)).
Proof.
  intros Hm. unfold clear_bit. rewrite Z.land_spec, testbit_unot, testbit_bit by lia. f_equal. f_equal.
  case_bool_decide; [apply Z.eqb_eq; lia|apply Z.eqb_neq; lia].
Qed.

(** All bits of the words before [i] are taken. *)
Definition full_before (b : Bitmap) (i : nat) : Prop :=
  ∀ n, (n < i * BITS_PER_WORD)%nat → (n < bit_count b)%nat → used b n = true.

Definition first_free (b : Bitmap) (n : nat) : Prop :=
  (n < bit_count b)%nat ∧ used b n = false ∧ ∀ m, (m < n)%nat → used b m = true.

Lemma full_word w : is_uint 64 w → unot 64 w = 0 → ∀ k, (k < 64)%nat → Z.testbit w (Z.of_nat k) = true.
Proof.
  intros Hw Hz k Hk. pose proof (testbit_unot 64 w (Z.of_nat k) ltac:(lia)) as H.
  rewrite Hz, Z.bits_0 in H. by destruct (Z.testbit w (Z.of_nat k)).
Qed.

Lemma full_extend b i w : full_before b i → word b i = Some w →
  (∀ k, (k < 64)%nat → Z.testbit w (Z.of_nat k) = true) → full_before b (S i).
Proof.
  intros Hf Hw Hk n Hn Hc. destruct (decide (n < i * BITS_PER_WORD)%nat); [by apply Hf|].
  assert (∃ k, n = (i * BITS_PER_WORD + k)%nat ∧ (k < BITS_PER_WORD)%nat) as (k & -> & Hlt).
  { exists (n - i * BITS_PER_WORD)%nat. unfold BITS_PER_WORD in *. lia. }
  rewrite (used_bit b i k w) by done. by apply Hk.
Qed.

Lemma alloc_words_spec b n i :
  wf b → (∀ j, (j < i + n)%nat → in_words b j) → (bit_count b ≤ (i + n) * BITS_PER_WORD)%nat → full_before b i →
  (∃ m, first_free b m ∧ alloc_words (seq i n) b =
     (Ok (Some (base_id b + Z.of_nat m)), set_word (m / BITS_PER_WORD) (set_bit (m mod BITS_PER_WORD)) b)) ∨
  ((∀ m, (m < bit_count b)%nat → used b m = true) ∧ alloc_words (seq i n) b = (Ok None, b)).
Proof.
  intros Hwf. revert i. induction n as [|n IH]; intros i Hin Hend Hfull; cbn [seq alloc_words].
  { right. split; [|done]. intros m Hm. apply Hfull; [lia|done]. }
  destruct (word_loaded b i Hwf (Hin i ltac:(lia))) as (w & Hw & Hu).
  erewrite bind_Ok by (by apply read_word_eq). cbv zeta.
  destruct (Z.eqb_spec (unot 64 w) 0) as [Hz|Hnz].
  { apply IH; [intros j ?; apply Hin; lia|lia|]. eapply full_extend; [done..|]. by apply full_word. }
  destruct (trailing_zeros_spec 64 (unot 64 w)) as (Hk & Hbit & Hlow); [by apply unot_uint|done|].
  set (k := trailing_zeros 64 (unot 64 w)) in *.
  rewrite testbit_unot in Hbit by lia. apply negb_true_iff in Hbit.
  assert (∀ m, (m < i * BITS_PER_WORD + k)%nat → (m < bit_count b)%nat → used b m = true) as Hbelow.
  { intros m Hm Hc. destruct (decide (m < i * BITS_PER_WORD)%nat); [by apply Hfull|].
    assert (m = (i * BITS_PER_WORD + (m - i * BITS_PER_WORD))%nat) as -> by lia.
    rewrite (used_bit b i _ w) by (unfold BITS_PER_WORD in *; done || lia).
    specialize (Hlow (m - i * BITS_PER_WORD)%nat ltac:(lia)). rewrite testbit_unot in Hlow by lia.
    by apply negb_false_iff in Hlow. }
  erewrite bind_Ok by done. destruct (Nat.leb_spec (bit_count b) (i * BITS_PER_WORD + k)).
  - right. split; [|done]. intros m Hm. apply Hbelow; [lia|done].
  - left. exists (i * BITS_PER_WORD + k)%nat. split.
    + split; [done|]. rewrite (used_bit b i k w) by done. split; [done|]. intros m Hm. apply Hbelow; lia.
    + erewrite bind_Ok by (by eapply modify_word_eq). destruct (bit_split i k Hk) as [-> ->].
      unfold mok. do 3 f_equal. pose proof (wf_ids _ Hwf). apply wrap_small. unfold is_uint. lia.
Qed.

Lemma div_ceil_bound n : (n ≤ div_ceil n BITS_PER_WORD * BITS_PER_WORD)%nat ∧
  ∀ j, (j < div_ceil n BITS_PER_WORD)%nat → (j * BITS_PER_WORD < n)%nat.
Proof.
  unfold div_ceil, BITS_PER_WORD. pose proof (Nat.div_mod_eq (n + 64 - 1) 64).
  pose proof (Nat.mod_upper_bound (n + 64 - 1) 64 ltac:(lia)). split; [lia|]. intros j Hj. lia.
Qed.

Lemma alloc_spec b :
  wf b →
  (∃ m, first_free b m ∧ alloc b =
     (Ok (Some (base_id b + Z.of_nat m)), set_word (m / BITS_PER_WORD) (set_bit (m mod BITS_PER_WORD)) b)) ∨
  ((∀ m, (m < bit_count b)%nat → used b m = true) ∧ alloc b = (Ok None, b)).
Proof.
  intros Hwf. unfold alloc. erewrite bind_Ok by done. destruct (div_ceil_bound (bit_count b)) as [H1 H2].
  apply alloc_words_spec; [done|done|done|]. intros n Hn. unfold BITS_PER_WORD in Hn. lia.
Qed.

(** The bit [m] changed to [v]. *)
Definition only_bit (b b' : Bitmap) (m : nat) (v : bool) : Prop :=
  base_id b' = base_id b ∧ bit_count b' = bit_count b ∧
  ∀ n, used b' n = if decide (n = m) then v else used b n.

Lemma only_bit_intro b m f w (v : bool) :
  word b (m / BITS_PER_WORD) = Some w →
  (∀ k, (k < 64)%nat → Z.testbit (f w) (Z.of_nat k) =
     if decide (k = m mod BITS_PER_WORD)%nat then v else Z.testbit w (Z.of_nat k)) →
  only_bit b (set_word (m / BITS_PER_WORD) f b) m v.
Proof.
  intros Hw Hf. split_and!; [done|done|]. intros n. rewrite (used_set_word _ _ _ w) by done.
  destruct (decide (m / BITS_PER_WORD = n / BITS_PER_WORD)%nat) as [E|E].
  - rewrite Hf by (apply Nat.mod_upper_bound; done).
    destruct (decide (n = m)) as [->|Hne]; [by rewrite decide_True|].
    rewrite decide_False; [unfold used; by rewrite <- E, Hw|].
    intros E'. apply Hne. rewrite (bit_join n), (bit_join m). congruence.
  - rewrite decide_False; [done|]. by intros ->.
Qed.

Lemma in_words_div b m : (m < bit_count b)%nat → in_words b (m / BITS_PER_WORD).
Proof. intros Hm. unfold in_words. pose proof (bit_join m). lia. Qed.

Lemma dealloc_spec b id :
  wf b → is_uint 32 id →
  let n := Z.to_nat (id - base_id b) in
  (base_id b ≤ id < base_id b + Z.of_nat (bit_count b) →
     dealloc id b = (Ok (), set_word (n / BITS_PER_WORD) (clear_bit (n mod BITS_PER_WORD)) b)) ∧
  (¬ (base_id b ≤ id < base_id b + Z.of_nat (bit_count b)) → dealloc id b = (Panic, b)).
Proof.
  intros Hwf Hid n. pose proof (wf_ids _ Hwf) as Hb. unfold dealloc.
  erewrite bind_Ok by done. cbv zeta. unfold is_uint in Hid. split.
  - intros Hr. assert (wrapping_sub id (base_id b) = id - base_id b) as -> by (apply wrap_small; unfold is_uint; lia).
    fold n. assert (n < bit_count b)%nat as Hn by (unfold n; lia).
    rewrite (proj2 (Nat.ltb_lt _ _) Hn). erewrite bind_Ok by done.
    destruct (word_loaded b _ Hwf (in_words_div b n Hn)) as (w & Hw & _). by eapply modify_word_eq.
  - intros Hr. assert (bit_count b ≤ Z.to_nat (wrapping_sub id (base_id b)))%nat as Hge.
    { destruct (Z.lt_ge_cases id (base_id b)).
      - assert (wrapping_sub id (base_id b) = id - base_id b + 2 ^ 32) as ->; [|lia].
        unfold wrapping_sub, wrap. rewrite <- (Z.mod_add _ 1) by lia. rewrite Z.mod_small by lia. lia.
      - assert (wrapping_sub id (base_id b) = id - base_id b) as -> by (apply wrap_small; unfold is_uint; lia). lia. }
    apply Nat.ltb_ge in Hge. by rewrite Hge.
Qed.

(** ** Counting *)

Definition count_used (b : Bitmap) (i n : nat) : nat := length (filter (λ m, used b m = true) (seq i n)).

Lemma count_used_app b i n m : count_used b i (n + m) = (count_used b i n + count_used b (i + n) m)%nat.
Proof. unfold count_used. by rewrite seq_app, filter_app, length_app. Qed.

Lemma filter_length_ext {A} (P Q : A → Prop) `{∀ x, Decision (P x)} `{∀ x, Decision (Q x)} (l : list A) :
  (∀ x, x ∈ l → P x ↔ Q x) → length (filter P l) = length (filter Q l).
Proof.
  induction l as [|x l IH]; intros Hpq; [done|]. rewrite !filter_cons.
  specialize (IH (λ y Hy, Hpq y (list_elem_of_further _ _ _ Hy))).
  destruct (decide (P x)) as [Hp|Hp]; [rewrite decide_True by (apply Hpq; [by left|done])
    |rewrite decide_False by (by rewrite <- Hpq by (by left))]; simpl; congruence.
Qed.

Lemma filter_fmap_length {A B} (f : A → B) (P : B → Prop) `{∀ x, Decision (P x)} (l : list A) :
  length (filter P (f <$> l)) = length (filter (λ x, P (f x)) l).
Proof.
  induction l as [|x l IH]; [done|]. rewrite fmap_cons, !filter_cons.
  by destruct (decide (P (f x))); simpl; rewrite IH.
Qed.

Lemma filter_none {A} (P : A → Prop) `{∀ x, Decision (P x)} (l : list A) :
  (∀ x, x ∈ l → ¬ P x) → filter P l = [].
Proof.
  induction l as [|x l IH]; intros Hp; [done|]. rewrite filter_cons, decide_False by (apply Hp; by left).
  apply IH. intros y Hy. apply Hp. by right.
Qed.

(** The used bits of word [i] below bit [r]. *)
Lemma count_word b i w r : word b i = Some w → (r ≤ BITS_PER_WORD)%nat →
  length (filter (λ n, Z.testbit w (Z.of_nat n)) (seq 0 r)) = count_used b (i * BITS_PER_WORD) r.
Proof.
  intros Hw Hr. unfold count_used. rewrite <- (Nat.add_0_r (i * BITS_PER_WORD)) at 1.
  rewrite <- fmap_add_seq, filter_fmap_length. apply filter_length_ext.
  intros k Hk%elem_of_seq. simpl. rewrite (used_bit b i k w) by (done || lia). by destruct (Z.testbit _ _).
Qed.

Lemma sum_words_spec b i n :
  (∀ j, (j < i + n)%nat → ∃ w, word b j = Some w) →
  sum_words (seq i n) b = (Ok (count_used b (i * BITS_PER_WORD) (n * BITS_PER_WORD)), b).
Proof.
  revert i. induction n as [|n IH]; intros i Hin; cbn [seq sum_words]; [done|].
  destruct (Hin i ltac:(lia)) as [w Hw]. erewrite bind_Ok by (by apply read_word_eq).
  erewrite bind_Ok by (apply IH; intros; apply Hin; lia). unfold mok. do 2 f_equal.
  change (S n * BITS_PER_WORD)%nat with (BITS_PER_WORD + n * BITS_PER_WORD)%nat.
  rewrite count_used_app.
  assert (count_ones w = count_used b (i * BITS_PER_WORD) BITS_PER_WORD) as -> by (by apply count_word).
  do 2 f_equal. unfold BITS_PER_WORD. lia.
Qed.

Lemma count_masked w r : (r ≤ 64)%nat →
  count_ones (Z.land w (2 ^ Z.of_nat r - 1)) = length (filter (λ n, Z.testbit w (Z.of_nat n)) (seq 0 r)).
Proof.
  intros Hr. unfold count_ones. replace 64%nat with (r + (64 - r))%nat by lia.
  rewrite seq_app, filter_app, length_app. rewrite land_mask by lia.
  assert (∀ n, Z.testbit (w mod 2 ^ Z.of_nat r) (Z.of_nat n) = (bool_decide (n < r)%nat) && Z.testbit w (Z.of_nat n)) as Hb.
  { intros n. change (w mod 2 ^ Z.of_nat r) with (wrap (Z.of_nat r) w). rewrite testbit_wrap by lia. f_equal.
    case_bool_decide; [apply Z.ltb_lt; lia|apply Z.ltb_ge; lia]. }
  assert (length (filter (λ n, Z.testbit (w mod 2 ^ Z.of_nat r) (Z.of_nat n)) (seq (0 + r) (64 - r))) = 0%nat) as ->.
  { rewrite filter_none; [done|]. intros n Hn%elem_of_seq. rewrite Hb, bool_decide_eq_false_2 by lia. by intros []. }
  rewrite Nat.add_0_r. apply filter_length_ext. intros n Hn%elem_of_seq.
  rewrite Hb, bool_decide_eq_true_2 by lia. done.
Qed.

Lemma filter_complement {A} (P : A → Prop) `{∀ x, Decision (P x)} (l : list A) :
  (length (filter P l) + length (filter (λ x, ¬ P x) l) = length l)%nat.
Proof.
  induction l as [|x l IH]; [done|]. rewrite !filter_cons. simpl length.
  destruct (decide (P x)); [rewrite decide_False by tauto|rewrite decide_True by done]; simpl; lia.
Qed.

Definition free_bits (b : Bitmap) : list nat := filter (λ m, ¬ used b m = true) (seq 0 (bit_count b)).

Lemma count_free_spec b : wf b → count_free b = (Ok (length (free_bits b)), b).
Proof.
  intros Hwf. unfold count_free. erewrite bind_Ok by done. cbv zeta.
  set (full := (bit_count b / BITS_PER_WORD)%nat). set (r := (bit_count b mod BITS_PER_WORD)%nat).
  assert (bit_count b = full * BITS_PER_WORD + r)%nat as Hc by apply bit_join.
  assert (r < BITS_PER_WORD)%nat as Hr by (apply Nat.mod_upper_bound; done).
  assert (∀ j, (j < full)%nat → ∃ w, word b j = Some w) as Hload.
  { intros j Hj. destruct (word_loaded b j Hwf) as (w & ? & _); [|by exists w].
    unfold in_words, BITS_PER_WORD in *. lia. }
  erewrite bind_Ok by (by apply sum_words_spec).
  pose proof (filter_complement (λ m, used b m = true) (seq 0 (bit_count b))) as Hcomp.
  rewrite length_seq in Hcomp. fold (count_used b 0 (bit_count b)) (free_bits b) in Hcomp.
  assert (count_used b 0 (bit_count b) = count_used b 0 (full * BITS_PER_WORD) + count_used b (full * BITS_PER_WORD) r)%nat
    as Hsplit by (by rewrite Hc, count_used_app).
  change (0 * BITS_PER_WORD)%nat with 0%nat. destruct (Nat.ltb_spec 0 r) as [Hpos|Hz].
  - destruct (word_loaded b full Hwf) as (w & Hw & _); [unfold in_words; lia|].
    erewrite bind_Ok by (erewrite bind_Ok by (by apply read_word_eq); reflexivity).
    unfold mok. rewrite count_masked, (count_word b full w r) by (unfold BITS_PER_WORD in *; done || lia).
    do 2 f_equal. lia.
  - erewrite bind_Ok by done. unfold mok. assert (r = 0%nat) as Hr0 by lia. rewrite Hr0 in Hsplit.
    assert (count_used b (full * BITS_PER_WORD) 0 = 0%nat) as Hz0 by done. do 2 f_equal. lia.
Qed.

(** ** Construction *)

Definition block_ok (blk : list Z) : Prop := length blk = WORDS_PER_BLOCK ∧ Forall (is_uint 64) blk.

Lemma new_spec capacity base blocks bits b :
  Forall block_ok blocks → 0 ≤ base → base + Z.of_nat bits ≤ 2 ^ 32 →
  new capacity base blocks bits = Ok b →
  wf b ∧ base_id b = base ∧ bit_count b = bits ∧ used b 0 = true ∧
  ∀ n, n ≠ 0%nat → used b n = used (mkBitmap blocks base bits) n.
Proof.
  intros Hb Hbase Hids. unfold new. destruct (bool_decide (length blocks ≤ _)%nat); [|done]. cbn [negb].
  destruct (bool_decide_reflect (bits ≤ length blocks * BITS_PER_BLOCK)%nat) as [Hbits|]; [|done]. cbn [negb].
  destruct blocks as [|blk blocks]; [done|]. set (b0 := mkBitmap (blk :: blocks) base bits).
  assert (wf b0) as Hwf.
  { split; [|done|done]. intros i k Hk. by apply (Forall_lookup_1 _ _ _ _ Hb) in Hk. }
  assert (∃ w, word b0 0 = Some w) as [w Hw].
  { inversion_clear Hb as [|? ? [Hl _] _]. unfold word. simpl. destruct blk; [done|]. by eexists. }
  intros [= <-]. change (mkBitmap _ base bits) with (set_word (0 / BITS_PER_WORD) (set_bit 0) b0).
  destruct (only_bit_intro b0 0 (set_bit 0) w true) as (_ & _ & Hu).
  - done.
  - intros k Hk. rewrite testbit_set_bit. change (0 mod BITS_PER_WORD)%nat with 0%nat.
    case_bool_decide; [rewrite decide_True by done; apply orb_true_r|rewrite decide_False by done; apply orb_false_r].
  - split_and!; [apply set_word_wf; [done|]; intros; by apply set_bit_uint; [lia|]|done|done| |].
    + by rewrite Hu.
    + intros n Hn. by rewrite Hu, decide_False.
Qed.

(** ** Properties *)

Lemma bit_index m : (m mod BITS_PER_WORD < 64)%nat.
Proof. by apply Nat.mod_upper_bound. Qed.

Lemma alloc_outcome b :
  wf b →
  (∃ m b', first_free b m ∧ alloc b = (Ok (Some (base_id b + Z.of_nat m)), b') ∧ wf b' ∧ only_bit b b' m true) ∨
  (free_bits b = [] ∧ alloc b = (Ok None, b)).
Proof.
  intros Hwf. pose proof bit_index as Hix. destruct (alloc_spec b Hwf) as [(m & Hf & Ha)|[Hall Ha]]; [left|right].
  - exists m, (set_word (m / BITS_PER_WORD) (set_bit (m mod BITS_PER_WORD)) b). destruct (Hf) as (Hm & _).
    destruct (word_loaded b _ Hwf (in_words_div b m Hm)) as (w & Hw & _).
    split_and!; [done|done|apply set_word_wf; [done|]; intros; by apply set_bit_uint|].
    eapply only_bit_intro; [done|]. intros k Hk. rewrite testbit_set_bit.
    case_bool_decide; [rewrite decide_True by done; apply orb_true_r|rewrite decide_False by done; apply orb_false_r].
  - split; [|done]. apply filter_none. intros m Hm%elem_of_seq Hn. apply Hn, Hall. lia.
Qed.

Lemma dealloc_outcome b id :
  wf b → is_uint 32 id →
  (∃ m b', id = base_id b + Z.of_nat m ∧ (m < bit_count b)%nat ∧
     dealloc id b = (Ok (), b') ∧ wf b' ∧ only_bit b b' m false) ∨
  (¬ (base_id b ≤ id < base_id b + Z.of_nat (bit_count b)) ∧ dealloc id b = (Panic, b)).
Proof.
  intros Hwf Hid. destruct (dealloc_spec b id Hwf Hid) as [Hin Hout].
  destruct (decide (base_id b ≤ id < base_id b + Z.of_nat (bit_count b))) as [Hr|Hr]; [left|right; auto].
  set (m := Z.to_nat (id - base_id b)) in *. assert (m < bit_count b)%nat as Hm by (unfold m; lia).
  exists m, (set_word (m / BITS_PER_WORD) (clear_bit (m mod BITS_PER_WORD)) b).
  destruct (word_loaded b _ Hwf (in_words_div b m Hm)) as (w & Hw & _).
  split_and!; [unfold m; lia|done|by apply Hin|apply set_word_wf; [done|]; intros; by apply clear_bit_uint|].
  eapply only_bit_intro; [done|]. intros k Hk. rewrite testbit_clear_bit by done.
  case_bool_decide; [rewrite decide_True by done; apply andb_false_r|rewrite decide_False by done; apply andb_true_r].
Qed.

(** C30: A bitmap is the set of its free identifiers.  [alloc] returns the
    smallest free one and takes it, or [None], changing nothing, when there is
    none; [dealloc] of an identifier in range frees it alone, and of any other
    panics; [count_free] is the size of the set.  All keep the bitmap well
    formed and never reach an unloaded block. *)
Theorem bitmap_refines_set b :
  wf b →
  ((∃ m b', first_free b m ∧ alloc b = (Ok (Some (base_id b + Z.of_nat m)), b') ∧ wf b' ∧ only_bit b b' m true) ∨
   (free_bits b = [] ∧ alloc b = (Ok None, b))) ∧
  (∀ id, is_uint 32 id →
     (∃ m b', id = base_id b + Z.of_nat m ∧ (m < bit_count b)%nat ∧
        dealloc id b = (Ok (), b') ∧ wf b' ∧ only_bit b b' m false) ∨
     (¬ (base_id b ≤ id < base_id b + Z.of_nat (bit_count b)) ∧ dealloc id b = (Panic, b))) ∧
  count_free b = (Ok (length (free_bits b)), b).
Proof. intros. split_and!; [by apply alloc_outcome|intros; by apply dealloc_outcome|by apply count_free_spec]. Qed.

(** Two blocks of 128 words, bits 0 and 2 taken, over identifiers from 600. *)
Definition sample : Bitmap := mkBitmap [5 :: replicate 127 0; replicate 128 0] 600 900.

Lemma sample_wf : wf sample.
Proof.
  split; [|cbn [bit_count buffers length sample]; unfold BITS_PER_BLOCK; lia|cbn; lia].
  intros i blk. destruct i as [|[|i]]; intros Hi; [| |done]; injection Hi as <-; (split; [done|]).
  - by apply (bool_decide_unpack (Forall (is_uint 64) _)).
  - by apply (bool_decide_unpack (Forall (is_uint 64) _)).
Qed.

Lemma bitmap_refines_set_witness :
  wf sample ∧ ∃ b', alloc sample = (Ok (Some 601), b') ∧ used b' 1 = true.
Proof.
  split; [exact sample_wf|].
  destruct (bitmap_refines_set sample sample_wf) as ([(m & b' & Hf & Ha & _ & _ & _ & Hu)|[He _]] & _ & _).
  - assert (m = 1%nat) as ->.
    { destruct Hf as (_ & Hfree & Hlow). destruct (Nat.lt_trichotomy m 1) as [Hm|[Hm|Hm]]; [|exact Hm|].
      - assert (m = 0%nat) as -> by lia. discriminate Hfree.
      - discriminate (Hlow 1%nat Hm). }
    exists b'. split; [exact Ha|]. rewrite Hu. reflexivity.
  - exfalso. assert (1%nat ∈ free_bits sample) as Hin.
    { apply list_elem_of_filter. split; [discriminate|]. apply elem_of_seq. cbn [bit_count sample]. lia. }
    rewrite He in Hin. by apply elem_of_nil in Hin.
Defined.
End Bitmap.
