(* ===== verification/Layout.v ===== *)
(** * The on-disk layout ([kernel/src/fs/layout.rs])

    Blocks as bytes with the typed views the code takes of them, inode modes,
    and directory entries. *)

From S2P Require Import Prelude.
Open Scope Z_scope.

Module Layout.

Definition BLOCK_SIZE : Z := 1024.
Definition MINIX_NAME_LENGTH : nat := 14.
Definition DIRECT_ZONE_COUNT : Z := 7.
Definition INDIRECT_ZONE_INDEX : Z := DIRECT_ZONE_COUNT.
Definition DOUBLE_INDIRECT_ZONE_INDEX : Z := DIRECT_ZONE_COUNT + 1.
Definition INODES_PER_BLOCK : Z := BLOCK_SIZE / 32.
Definition DIRECTORY_ENTRY_SIZE : Z := 16.
Definition DIRECTORY_ENTRIES_PER_BLOCK : Z := BLOCK_SIZE / DIRECTORY_ENTRY_SIZE.

(** A block is its bytes. *)
Abbreviation Block := (list Z).

Definition block_ok (b : Block) : Prop := length b = Z.to_nat BLOCK_SIZE ∧ Forall (is_uint 8) b.

Definition zero_block : Block := replicate (Z.to_nat BLOCK_SIZE) 0.

(** *** 16-bit little-endian words *)

Definition byte_at (b : Block) (i : Z) : Z := default 0 (zlookup b i).

Definition u16_at (b : Block) (i : Z) : Z := byte_at b (2 * i) + 256 * byte_at b (2 * i + 1).

Definition u16_bytes (x : Z) : list Z := [x mod 256; x / 256].

Definition u16_set (i x : Z) (b : Block) : Block := splice b (2 * i) (u16_bytes x).

(** *** Inodes *)

Inductive InodeType : Set := Regular | Directory | Fifo | BlockDevice | CharacterDevice.

#[global] Instance InodeType_eq_dec : EqDecision InodeType.
Proof. solve_decision. Defined.

Definition TYPE_MASK : Z := 61440.

(** [None] is the panic on unknown type bits. *)
Definition file_type (mode : Z) : option InodeType :=
  let t := Z.land mode TYPE_MASK in
  if t =? 32768 then Some Regular
  else if t =? 16384 then Some Directory
  else if t =? 24576 then Some BlockDevice
  else if t =? 8192 then Some CharacterDevice
  else if t =? 4096 then Some Fifo
  else None.

Record DiskInode : Type := mkDiskInode {
  mode : Z;
  user_id : Z;
  size : Z;
  modification_time : Z;
  group_id : Z;
  link_count : Z;
  direct_zones : list Z;
  single_indirect_zone : Z;
  double_indirect_zone : Z;
}.

Definition zeroed : DiskInode := mkDiskInode 0 0 0 0 0 0 (replicate 7 0) 0 0.

(** *** Directory entries *)

Record DiskDirectoryEntry : Type := mkEntry { inode_number : Z; entry_name : list Z }.

Definition entry_empty : DiskDirectoryEntry := mkEntry 0 (replicate MINIX_NAME_LENGTH 0).

(** [None] is the panic on a name that is too long. *)
Definition entry_new (name : list Z) (inum : Z) : option DiskDirectoryEntry :=
  if bool_decide (length name ≤ MINIX_NAME_LENGTH)%nat
  then Some (mkEntry inum (name ++ replicate (MINIX_NAME_LENGTH - length name) 0))
  else None.

(** The well-formed byte sequences of UTF-8, as [core::str::from_utf8] takes
    them: no overlong form, no surrogate, nothing above U+10FFFF. *)
Definition in_range (lo hi x : Z) : bool := (lo <=? x) && (x <=? hi).
Definition continuation : Z → bool := in_range 128 191.

Fixpoint valid_utf8 (fuel : nat) (s : list Z) : bool :=
  match fuel with
  | O => false
  | S fuel =>
      match s with
      | [] => true
      | a :: s1 =>
          if in_range 0 127 a then valid_utf8 fuel s1
          else if in_range 194 223 a then
            match s1 with b :: s2 => continuation b && valid_utf8 fuel s2 | _ => false end
          else if in_range 224 239 a then
            match s1 with
            | b :: c :: s3 =>
                in_range (if a =? 224 then 160 else 128) (if a =? 237 then 159 else 191) b &&
                continuation c && valid_utf8 fuel s3
            | _ => false
            end
          else if in_range 240 244 a then
            match s1 with
            | b :: c :: d :: s4 =>
                in_range (if a =? 240 then 144 else 128) (if a =? 244 then 143 else 191) b &&
                continuation c && continuation d && valid_utf8 fuel s4
            | _ => false
            end
          else false
      end
  end.

Definition is_str (s : list Z) : bool := valid_utf8 (S (length s)) s.

(** The name up to its first zero byte; [None] is the panic on bytes that are
    not UTF-8. *)
Definition trim_nul (s : list Z) : list Z := take (default MINIX_NAME_LENGTH (position (Z.eqb 0) s)) s.

Definition entry_str (e : DiskDirectoryEntry) : option (list Z) :=
  let s := trim_nul (entry_name e) in if is_str s then Some s else None.

(** An entry as 16 bytes of a block, and back. *)
Definition entry_bytes (e : DiskDirectoryEntry) : list Z := u16_bytes (inode_number e) ++ entry_name e.

Definition entry_at (b : Block) (i : Z) : DiskDirectoryEntry :=
  mkEntry (u16_at b (8 * i)) (slice b (16 * i + 2) 14).

Definition entry_set (i : Z) (e : DiskDirectoryEntry) (b : Block) : Block :=
  splice b (16 * i) (entry_bytes e).

(** ** Bytes and words *)

Lemma zero_block_ok : block_ok zero_block.
Proof. split; [apply length_replicate|]. by apply Forall_replicate. Qed.

Lemma byte_at_uint b i : block_ok b → is_uint 8 (byte_at b i).
Proof.
  intros [_ Hb]. unfold byte_at. destruct (zlookup b i) as [x|] eqn:Hx; simpl; [|unfold is_uint; lia].
  unfold zlookup in Hx. destruct (0 <=? i); [|done]. by eapply Forall_lookup_1.
Qed.

Lemma byte_at_zero i : byte_at zero_block i = 0.
Proof.
  unfold byte_at, zlookup. destruct (0 <=? i); [|done].
  destruct (zero_block !! Z.to_nat i) as [x|] eqn:Hx; [|done]. by apply lookup_replicate in Hx as [-> _].
Qed.

Lemma u16_at_zero i : u16_at zero_block i = 0.
Proof. unfold u16_at. by rewrite !byte_at_zero. Qed.

Lemma u16_at_uint b i : block_ok b → is_uint 16 (u16_at b i).
Proof.
  intros Hb. pose proof (byte_at_uint b (2 * i) Hb). pose proof (byte_at_uint b (2 * i + 1) Hb).
  unfold u16_at, is_uint in *. lia.
Qed.

Lemma u16_bytes_uint x : is_uint 16 x → Forall (is_uint 8) (u16_bytes x).
Proof.
  intros Hx. unfold is_uint in *. pose proof (Z.mod_pos_bound x 256 ltac:(lia)).
  assert (0 ≤ x / 256 < 256) by (split; [apply Z.div_pos; lia|apply Z.div_lt_upper_bound; lia]).
  repeat constructor; unfold is_uint; lia.
Qed.

Lemma splice_ok b off src :
  block_ok b → Forall (is_uint 8) src → 0 ≤ off → off + Z.of_nat (length src) ≤ BLOCK_SIZE →
  block_ok (splice b off src).
Proof.
  intros [Hl Hb] Hs Ho Hend. unfold block_ok, BLOCK_SIZE in *. split; [rewrite length_splice; lia|].
  unfold splice. rewrite !Forall_app. split_and!; [by apply Forall_take|done|by apply Forall_drop].
Qed.

(** A byte of a block after a store. *)
Lemma byte_at_splice b off src i :
  block_ok b → 0 ≤ off → off + Z.of_nat (length src) ≤ BLOCK_SIZE →
  byte_at (splice b off src) i =
    if decide (off ≤ i < off + Z.of_nat (length src)) then byte_at src (i - off) else byte_at b i.
Proof.
  intros [Hl _] Ho Hend. unfold byte_at, zlookup, BLOCK_SIZE in *. destruct (Z.leb_spec 0 i).
  - rewrite splice_lookup by lia. case_decide as Hd.
    + rewrite decide_True by lia. rewrite (proj2 (Z.leb_le 0 (i - off))) by lia. do 2 f_equal. lia.
    + by rewrite decide_False by lia.
  - by rewrite decide_False by lia.
Qed.

Lemma u16_set_ok i x b : block_ok b → is_uint 16 x → 0 ≤ i < 512 → block_ok (u16_set i x b).
Proof.
  intros Hb Hx Hi. apply splice_ok; [done|by apply u16_bytes_uint|lia|]. unfold BLOCK_SIZE. simpl. lia.
Qed.

Lemma u16_at_set b i j x : block_ok b → is_uint 16 x → 0 ≤ i < 512 →
  u16_at (u16_set i x b) j = if decide (i = j) then x else u16_at b j.
Proof.
  intros Hb Hx Hi. unfold u16_at, u16_set. rewrite !byte_at_splice by (simpl; unfold BLOCK_SIZE; done || lia).
  change (Z.of_nat (length (u16_bytes x))) with 2. destruct (decide (i = j)) as [Hij|Hij].
  - subst j. rewrite !decide_True by lia.
    replace (2 * i - 2 * i) with 0 by lia. replace (2 * i + 1 - 2 * i) with 1 by lia.
    unfold byte_at, u16_bytes; simpl. pose proof (Z.div_mod x 256). lia.
  - by rewrite !decide_False by lia.
Qed.

(** ** Directory entries *)

Definition entry_ok (e : DiskDirectoryEntry) : Prop :=
  is_uint 16 (inode_number e) ∧ length (entry_name e) = MINIX_NAME_LENGTH ∧ Forall (is_uint 8) (entry_name e).

Lemma entry_empty_ok : entry_ok entry_empty.
Proof. split_and!; [done|done|]. by apply Forall_replicate. Qed.

Lemma length_entry_bytes e : entry_ok e → length (entry_bytes e) = 16%nat.
Proof. intros (_ & Hl & _). unfold entry_bytes. rewrite length_app, Hl. done. Qed.

Lemma entry_bytes_uint e : entry_ok e → Forall (is_uint 8) (entry_bytes e).
Proof. intros (Hi & _ & Hn). apply Forall_app. split; [by apply u16_bytes_uint|done]. Qed.

Lemma entry_set_ok i e b : block_ok b → entry_ok e → 0 ≤ i < DIRECTORY_ENTRIES_PER_BLOCK → block_ok (entry_set i e b).
Proof.
  intros Hb He Hi. change DIRECTORY_ENTRIES_PER_BLOCK with 64 in Hi.
  apply splice_ok; [done|by apply entry_bytes_uint|lia|]. rewrite length_entry_bytes by done. unfold BLOCK_SIZE. lia.
Qed.

Lemma entry_at_set i j e b : block_ok b → entry_ok e → 0 ≤ i < DIRECTORY_ENTRIES_PER_BLOCK → 0 ≤ j < DIRECTORY_ENTRIES_PER_BLOCK →
  entry_at (entry_set i e b) j = if decide (i = j) then e else entry_at b j.
Proof.
  change DIRECTORY_ENTRIES_PER_BLOCK with 64. intros Hb He Hi Hj. pose proof (proj1 Hb) as Hl.
  pose proof (length_entry_bytes e He) as Hlen.
  assert (∀ k, byte_at (entry_set i e b) k = if decide (16 * i ≤ k < 16 * i + 16)
            then byte_at (entry_bytes e) (k - 16 * i) else byte_at b k) as Hbyte.
  { intros k. unfold entry_set. rewrite byte_at_splice by (rewrite ?Hlen; unfold BLOCK_SIZE; done || lia).
    by rewrite Hlen. }
  unfold entry_at. destruct (decide (i = j)) as [<-|Hne].
  - destruct e as [inum name]. destruct He as (Hin & Hln & _). simpl in Hln, Hin. f_equal.
    + unfold u16_at. rewrite !Hbyte, !decide_True by lia.
      replace (2 * (8 * i) - 16 * i) with 0 by lia. replace (2 * (8 * i) + 1 - 16 * i) with 1 by lia.
      unfold byte_at, entry_bytes; simpl. pose proof (Z.div_mod inum 256). lia.
    + unfold entry_set, entry_bytes. unfold slice, splice.
      rewrite Z2Nat.inj_add by lia. rewrite drop_app_ge by (rewrite length_take; lia).
      rewrite length_take, Hl. unfold BLOCK_SIZE.
      replace (Z.to_nat (16 * i) + Z.to_nat 2 - Z.to_nat (16 * i) `min` Z.to_nat 1024)%nat with 2%nat by lia.
      cbn [inode_number entry_name]. unfold u16_bytes at 1. cbn [app skipn].
      rewrite drop_0.       rewrite take_app_le by (rewrite Hln; done). by rewrite take_ge by (rewrite Hln; done).
  - f_equal.
    + unfold u16_at. by rewrite !Hbyte, !decide_False by lia.
    + apply list_eq. intros k. unfold entry_set.
      destruct (decide (k < 14)%nat); [|by unfold slice; rewrite !lookup_ge_None_2 by (rewrite length_take; lia)].
      rewrite !slice_lookup by lia.
      rewrite splice_lookup by (rewrite ?Hlen, ?Hl; unfold BLOCK_SIZE; lia).
      rewrite Hlen, decide_False by lia. done.
Qed.

(** A name without zero bytes comes back as it was stored. *)
Lemma entry_new_str name inum e :
  entry_new name inum = Some e → (0 ∉ name) → is_str name = true → entry_str e = Some name ∧ inode_number e = inum.
Proof.
  unfold entry_new. case_bool_decide as Hl; [|done]. intros [= <-] Hz Hs. split; [|done].
  unfold entry_str, trim_nul. cbn [entry_name].
  assert (take (default MINIX_NAME_LENGTH (position (Z.eqb 0) (name ++ replicate (MINIX_NAME_LENGTH - length name) 0)))
            (name ++ replicate (MINIX_NAME_LENGTH - length name) 0) = name) as ->; [|by rewrite Hs].
  destruct (position _ _) as [i|] eqn:Hp; simpl.
  - apply position_Some in Hp as [(x & Hx & <-%Z.eqb_eq) Hlow].
    assert (i = length name) as ->; [|by rewrite take_app_length].
    destruct (Nat.lt_trichotomy i (length name)) as [Hi|[Hi|Hi]]; [exfalso|done|exfalso].
    + rewrite lookup_app_l in Hx by done. apply Hz. by eapply list_elem_of_lookup_2.
    + assert ((0 =? 0) = false) as E; [|done]. apply (Hlow (length name)); [done|].
      rewrite lookup_app_r, Nat.sub_diag by done. apply lookup_replicate. split; [done|].
      apply lookup_lt_Some in Hx. rewrite length_app, length_replicate in Hx. lia.
  - assert (length name = MINIX_NAME_LENGTH) as E.
    { destruct (decide (length name = MINIX_NAME_LENGTH)); [done|]. exfalso.
      pose proof (proj1 (position_None _ _) Hp 0) as H. assert ((0 =? 0) = false) as E; [|done].
      apply H. apply elem_of_app. right. apply elem_of_replicate. split; [done|lia]. }
    by rewrite <- E, take_app_length.
Qed.

Lemma entry_new_ok name inum e :
  entry_new name inum = Some e → Forall (is_uint 8) name → is_uint 16 inum → entry_ok e.
Proof.
  unfold entry_new. case_bool_decide as Hl; [|done]. intros [= <-] Hn Hi. split_and!; [done| |].
  - simpl. rewrite length_app, length_replicate. unfold MINIX_NAME_LENGTH in *. lia.
  - simpl. apply Forall_app. split; [done|]. by apply Forall_replicate.
Qed.
End Layout.
