(* ===== verification/Frame.v ===== *)
(** * Physical frames ([kernel/src/mm/address.rs] and [kernel/src/mm/frame.rs])

    Addresses and page numbers, and the allocator of reference-counted frames.
    The state has the allocator's counts and the words of physical memory. *)

From S2P Require Import Prelude.
From stdpp Require Import gmap.
Open Scope kmonad_scope.
Open Scope Z_scope.

Module Frame.

Definition PAGE_SHIFT : Z := 12.
Definition PAGE_SIZE : Z := Z.shiftl 1 PAGE_SHIFT.
Definition LOW_MEM : Z := 2097152.
Definition PAGING_MEMORY : Z := 14 * 1024 * 1024.
Definition PAGING_PAGES : Z := Z.shiftr PAGING_MEMORY PAGE_SHIFT.
Definition HIGH_MEMORY : Z := LOW_MEM + PAGING_MEMORY.
Definition UNPAGED_PAGES : Z := Z.shiftr LOW_MEM PAGE_SHIFT.

(** ** Addresses *)

Definition PAGE_OFFSET_MASK : Z := Z.shiftl 1 PAGE_SHIFT - 1.

Definition align_down (a : Z) : Z := Z.land a (unot 32 PAGE_OFFSET_MASK).
Definition floor (a : Z) : Z := Z.shiftr a PAGE_SHIFT.
Definition page_offset (a : Z) : Z := Z.land a PAGE_OFFSET_MASK.

(** [PhysPageNum::addr] and [LinPageNum::addr]. *)
Definition addr (ppn : Z) : Z := as_u32 (Z.shiftl ppn PAGE_SHIFT).

(** [PhysPageNum::from] an address that must be aligned. *)
Definition ppn_of (a : Z) : option Z := if page_offset a =? 0 then Some (floor a) else None.

Definition from_indices (pde_index pte_index : Z) : Z := Z.lor (as_u32 (Z.shiftl pde_index 10)) pte_index.
Definition pde_index (page : Z) : Z := Z.shiftr page 10.
Definition pte_index (page : Z) : Z := Z.land page 1023.

(** ** The allocator *)

(** A page is its 1024 words; memory that was not written reads as zeros. *)
Abbreviation Page := (list Z).
Definition zero_page : Page := replicate 1024 0.

Record Phys : Type := mkPhys { mem_map : list Z; mem : gmap Z Page }.

Definition page_at (s : Phys) (ppn : Z) : Page := default zero_page (mem s !! ppn).
Definition set_page (ppn : Z) (p : Page) (s : Phys) : Phys := mkPhys (mem_map s) (<[ppn := p]> (mem s)).
Definition set_count (i c : Z) (s : Phys) : Phys := mkPhys (zupdate (mem_map s) i c) (mem s).

Definition page_addr_from_index (i : Z) : Z := as_u32 (LOW_MEM + as_u32 (Z.shiftl i PAGE_SHIFT)).
Definition index_for_ppn (ppn : Z) : Z := wrapping_sub ppn UNPAGED_PAGES.

Definition fill (l : list Z) (first last : nat) (x : Z) : list Z :=
  take first l ++ replicate (last - first) x ++ drop last l.

Definition init (start_mem end_mem : Z) (s : Phys) : result Phys :=
  if (LOW_MEM <=? start_mem) && (start_mem <=? end_mem) && (end_mem <=? HIGH_MEMORY) then
    let start_no := Z.to_nat (wrapping_sub (floor start_mem) UNPAGED_PAGES) in
    let end_no := Z.to_nat (wrapping_sub (floor end_mem) UNPAGED_PAGES) in
    Ok (mkPhys (fill (replicate (length (mem_map s)) 100) start_no end_no 0) (mem s))
  else Panic.

(** One page zeroed and counted. *)
Definition take_frame (i : Z) : M Phys Z :=
  ppn <- mexpect (ppn_of (page_addr_from_index i));;
  mmodify (set_page ppn zero_page);;;
  mmodify (set_count i 1);;;
  mok ppn.

Definition alloc : M Phys (option Z) :=
  s <- mget;;
  match rposition (Z.eqb 0) (mem_map s) with
  | None => mok None
  | Some i => ppn <- take_frame (Z.of_nat i);; mok (Some ppn)
  end.

Definition windows {A} (n : nat) (l : list A) : list (list A) :=
  map (λ i, take n (drop i l)) (seq 0 (S (length l) - n)).

Definition alloc_contiguous (page_count : nat) : M Phys (option Z) :=
  if (page_count =? 0)%nat then mok None
  else
    s <- mget;;
    match rposition (forallb (Z.eqb 0)) (windows page_count (mem_map s)) with
    | None => mok None
    | Some i =>
        start <- mexpect (ppn_of (page_addr_from_index (Z.of_nat i)));;
        mfor (seq i page_count) (λ j, take_frame (Z.of_nat j);;; mok ());;;
        mok (Some start)
    end.

(** A count that is there; an index beyond the array panics. *)
Definition count_at (ppn : Z) : M Phys Z := s <- mget;; mexpect (zlookup (mem_map s) (index_for_ppn ppn)).

Definition dealloc (ppn : Z) : M Phys () :=
  if ppn <? UNPAGED_PAGES then mok ()
  else
    c <- count_at ppn;;
    massert (0 <? c);;;
    mmodify (set_count (index_for_ppn ppn) (c - 1)).

Definition dealloc_range (start : Z) (page_count : nat) : M Phys () :=
  mfor (seqZ start (Z.of_nat page_count)) dealloc.

Definition share (ppn : Z) : M Phys Z :=
  c <- count_at ppn;;
  massert (0 <? c);;;
  mmodify (set_count (index_for_ppn ppn) (as_u8 (c + 1)));;;
  mok ppn.

Definition ref_count (ppn : Z) : M Phys Z :=
  if ppn <? UNPAGED_PAGES then mok 255 else count_at ppn.

(** ** Lemmas *)

(** The frames the allocator counts. *)
Definition tracked (ppn : Z) : Prop := 512 ≤ ppn < 4096.

#[global] Instance tracked_dec ppn : Decision (tracked ppn).
Proof. unfold tracked. apply _. Defined.

Definition count (s : Phys) (ppn : Z) : Z := default 0 (zlookup (mem_map s) (ppn - 512)).

Record phys_ok (s : Phys) : Prop := {
  po_length : length (mem_map s) = Z.to_nat PAGING_PAGES;
  po_counts : Forall (is_uint 8) (mem_map s);
  po_pages : ∀ ppn, length (page_at s ppn) = 1024%nat;
}.

Lemma floor_addr ppn : is_uint 20 ppn → floor (addr ppn) = ppn.
Proof.
  unfold is_uint. intros Hp. unfold floor, addr, PAGE_SHIFT. rewrite Z.shiftl_mul_pow2, Z.shiftr_div_pow2 by lia.
  rewrite wrap_small by (unfold is_uint; lia). by apply Z.div_mul.
Qed.

Lemma page_offset_mod a : page_offset a = a mod 4096.
Proof. unfold page_offset, PAGE_OFFSET_MASK. change (Z.shiftl 1 PAGE_SHIFT) with (2 ^ 12). by apply land_mask. Qed.

Lemma ppn_of_addr ppn : is_uint 20 ppn → ppn_of (addr ppn) = Some ppn.
Proof.
  intros Hp. unfold ppn_of. rewrite page_offset_mod. pose proof (floor_addr ppn Hp) as Hf. unfold is_uint in Hp.
  unfold addr, PAGE_SHIFT in *. rewrite Z.shiftl_mul_pow2 in * by lia.
  rewrite wrap_small in * by (unfold is_uint; lia). change (2 ^ 12) with 4096 in *.
  rewrite Z.mod_mul by done. simpl. by rewrite Hf.
Qed.

Lemma page_addr_index i : 0 ≤ i < 3584 → page_addr_from_index i = addr (512 + i).
Proof.
  intros Hi. unfold page_addr_from_index, addr, PAGE_SHIFT, LOW_MEM. rewrite !Z.shiftl_mul_pow2 by lia.
  rewrite (wrap_small 32 (i * 2 ^ 12)) by (unfold is_uint; lia). f_equal. lia.
Qed.

Lemma ppn_of_index i : 0 ≤ i < 3584 → ppn_of (page_addr_from_index i) = Some (512 + i).
Proof. intros Hi. rewrite page_addr_index by done. apply ppn_of_addr. unfold is_uint. lia. Qed.

Lemma index_of_tracked ppn : tracked ppn → index_for_ppn ppn = ppn - 512.
Proof. unfold tracked. intros. apply wrap_small. change UNPAGED_PAGES with 512. unfold is_uint. lia. Qed.

Lemma lookup_count s ppn : phys_ok s → tracked ppn → zlookup (mem_map s) (ppn - 512) = Some (count s ppn).
Proof.
  intros Hok Ht. unfold count. destruct (zlookup _ _) eqn:E; [done|exfalso].
  destruct (proj2 (zlookup_is_Some (mem_map s) (ppn - 512))) as [x Hx]; [|congruence].
  rewrite (po_length _ Hok). change PAGING_PAGES with 3584. unfold tracked in Ht. lia.
Qed.

Lemma count_uint s ppn : phys_ok s → is_uint 8 (count s ppn).
Proof.
  intros Hok. unfold count, zlookup. destruct (_ <=? _); [|unfold is_uint; simpl; lia].
  destruct (_ !! _) eqn:E; [|unfold is_uint; simpl; lia]. by apply (Forall_lookup_1 _ _ _ _ (po_counts _ Hok)) in E.
Qed.

Lemma count_at_spec s ppn : phys_ok s → tracked ppn → count_at ppn s = (Ok (count s ppn), s).
Proof.
  intros Hok Ht. unfold count_at. erewrite bind_Ok by reflexivity.
  by rewrite index_of_tracked, lookup_count by done.
Qed.

Lemma count_set_count s ppn c q : phys_ok s → tracked ppn →
  count (set_count (ppn - 512) c s) q = if decide (q = ppn) then c else count s q.
Proof.
  intros Hok Ht. unfold count, set_count. cbn [mem_map]. unfold tracked in Ht.
  rewrite zlookup_zupdate by (rewrite (po_length _ Hok); change PAGING_PAGES with 3584; lia).
  repeat case_decide; try done; lia.
Qed.

Lemma set_count_ok s i c : phys_ok s → is_uint 8 c → phys_ok (set_count i c s).
Proof.
  intros [Hl Hc Hp] Hu. split; [by cbn; rewrite length_zupdate| |done].
  cbn [mem_map set_count]. unfold zupdate. destruct (_ <=? _); [|done]. by apply Forall_insert.
Qed.

Lemma page_at_set s ppn p q : page_at (set_page ppn p s) q = if decide (q = ppn) then p else page_at s q.
Proof.
  unfold page_at, set_page. simpl. case_decide as E; [by rewrite E, lookup_insert_eq|by rewrite lookup_insert_ne].
Qed.

Lemma set_page_ok s ppn p : phys_ok s → length p = 1024%nat → phys_ok (set_page ppn p s).
Proof.
  intros [Hl Hc Hp] Hlen. split; [done|done|]. intros q. rewrite page_at_set. by case_decide.
Qed.

(** [s'] is [s] with the counts and pages of [l] replaced. *)
Record took (s s' : Phys) (l : list Z) : Prop := {
  tk_ok : phys_ok s';
  tk_count : ∀ q, count s' q = if decide (q ∈ l) then 1 else count s q;
  tk_page : ∀ q, page_at s' q = if decide (q ∈ l) then zero_page else page_at s q;
}.

Lemma take_frame_spec s i : phys_ok s → 0 ≤ i < 3584 →
  ∃ s', take_frame i s = (Ok (512 + i), s') ∧ took s s' [512 + i].
Proof.
  intros Hok Hi. unfold take_frame. rewrite ppn_of_index by done. do 3 erewrite bind_Ok by reflexivity.
  eexists. split; [done|]. assert (phys_ok (set_page (512 + i) zero_page s)) as Hok1.
  { by apply set_page_ok; [|apply length_replicate]. }
  split; [by apply set_count_ok| |].
  - intros q. replace i with (512 + i - 512) at 1 by lia.
    rewrite count_set_count by (done || unfold tracked; lia).
    change (count (set_page (512 + i) zero_page s) q) with (count s q).
    destruct (decide (q = 512 + i)); [rewrite decide_True by (by apply list_elem_of_singleton)
      |rewrite decide_False by (by rewrite list_elem_of_singleton)]; done.
  - intros q. change (page_at (set_count i 1 (set_page (512 + i) zero_page s)) q) with (page_at (set_page (512 + i) zero_page s) q).
    rewrite page_at_set. destruct (decide (q = 512 + i)); [rewrite decide_True by (by apply list_elem_of_singleton)
      |rewrite decide_False by (by rewrite list_elem_of_singleton)]; done.
Qed.

(** [alloc] takes the highest free frame. *)
Lemma frame_alloc_spec s :
  phys_ok s →
  (∃ ppn s', alloc s = (Ok (Some ppn), s') ∧ tracked ppn ∧ count s ppn = 0 ∧ took s s' [ppn] ∧
     ∀ q, ppn < q → tracked q → count s q ≠ 0) ∨
  (alloc s = (Ok None, s) ∧ ∀ q, tracked q → count s q ≠ 0).
Proof.
  intros Hok. unfold alloc. erewrite bind_Ok by reflexivity. pose proof (po_length _ Hok) as Hl.
  change (Z.to_nat PAGING_PAGES) with (Z.to_nat 3584) in Hl.
  destruct (rposition _ _) as [i|] eqn:Hr.
  - left. apply rposition_Some in Hr as [(x & Hx & <-%Z.eqb_eq) Hmax].
    pose proof (lookup_lt_Some _ _ _ Hx) as Hi.
    destruct (take_frame_spec s (Z.of_nat i) Hok) as (s' & Hrun & Ht); [lia|].
    exists (512 + Z.of_nat i), s'. rewrite (bind_Ok _ _ _ _ _ Hrun). split_and!; [done|unfold tracked; lia..| |done|].
    + unfold count, zlookup. rewrite (proj2 (Z.leb_le 0 _)) by lia.
      replace (Z.to_nat (512 + Z.of_nat i - 512)) with i by lia. by rewrite Hx.
    + intros q Hq Htr. pose proof (lookup_count s q Hok Htr) as Hc. unfold zlookup, tracked in *.
      rewrite (proj2 (Z.leb_le 0 _)) in Hc by lia. apply (Hmax (Z.to_nat (q - 512))) in Hc; [|lia].
      apply Z.eqb_neq in Hc. lia.
  - right. split; [done|]. intros q Htr. pose proof (lookup_count s q Hok Htr) as Hc. unfold zlookup, tracked in *.
    rewrite (proj2 (Z.leb_le 0 _)) in Hc by lia. apply list_elem_of_lookup_2 in Hc.
    pose proof (proj1 (rposition_None _ _) Hr _ Hc) as E. apply Z.eqb_neq in E. lia.
Qed.

Lemma dealloc_low s ppn : ppn < 512 → dealloc ppn s = (Ok (), s).
Proof. intros. unfold dealloc. by rewrite (proj2 (Z.ltb_lt _ _)). Qed.

Lemma frame_dealloc_spec s ppn :
  phys_ok s → tracked ppn → 0 < count s ppn →
  dealloc ppn s = (Ok (), set_count (ppn - 512) (count s ppn - 1) s) ∧ phys_ok (set_count (ppn - 512) (count s ppn - 1) s).
Proof.
  intros Hok Ht Hc. pose proof (count_uint s ppn Hok) as Hu. split.
  - unfold dealloc. rewrite (proj2 (Z.ltb_ge _ _)) by (unfold tracked in Ht; change UNPAGED_PAGES with 512; lia).
    erewrite bind_Ok by (by apply count_at_spec). rewrite (proj2 (Z.ltb_lt _ _)) by done.
    erewrite bind_Ok by reflexivity. by rewrite index_of_tracked.
  - apply set_count_ok; [done|]. unfold is_uint in *. lia.
Qed.

Lemma share_spec s ppn :
  phys_ok s → tracked ppn → 0 < count s ppn →
  share ppn s = (Ok ppn, set_count (ppn - 512) (as_u8 (count s ppn + 1)) s) ∧
  phys_ok (set_count (ppn - 512) (as_u8 (count s ppn + 1)) s).
Proof.
  intros Hok Ht Hc. split.
  - unfold share. erewrite bind_Ok by (by apply count_at_spec). rewrite (proj2 (Z.ltb_lt _ _)) by done.
    erewrite bind_Ok by reflexivity. rewrite index_of_tracked by done. by erewrite bind_Ok by reflexivity.
  - apply set_count_ok; [done|]. apply wrap_bound. lia.
Qed.

Lemma ref_count_spec s ppn : phys_ok s → tracked ppn → ref_count ppn s = (Ok (count s ppn), s).
Proof.
  intros Hok Ht. unfold ref_count. rewrite (proj2 (Z.ltb_ge _ _)) by (unfold tracked in Ht; change UNPAGED_PAGES with 512; lia).
  by apply count_at_spec.
Qed.

(** ** Runs of frames *)

Definition run_of (ppn : Z) (n : nat) : list Z := seqZ ppn (Z.of_nat n).

Lemma took_nil s : phys_ok s → took s s [].
Proof. intros Hok. by split. Qed.

Lemma took_app s1 s2 s3 l1 l2 : took s1 s2 l1 → took s2 s3 l2 → took s1 s3 (l1 ++ l2).
Proof.
  intros [_ C1 P1] [Ok C2 P2]. split; [done|..]; intros q.
  - rewrite C2, C1. destruct (decide (q ∈ l1 ++ l2)) as [H|H]; rewrite elem_of_app in H; repeat case_decide; tauto.
  - rewrite P2, P1. destruct (decide (q ∈ l1 ++ l2)) as [H|H]; rewrite elem_of_app in H; repeat case_decide; tauto.
Qed.

Lemma take_frames_spec n i s : phys_ok s → (i + n ≤ 3584)%nat →
  ∃ s', mfor (seq i n) (λ j, take_frame (Z.of_nat j);;; mok ()) s = (Ok (), s') ∧ took s s' (run_of (512 + Z.of_nat i) n).
Proof.
  revert i s. induction n as [|n IH]; intros i s Hok Hi; cbn [seq mfor].
  { exists s. split; [done|]. by apply took_nil. }
  destruct (take_frame_spec s (Z.of_nat i) Hok) as (s1 & Hr & Ht); [lia|].
  destruct (IH (S i) s1) as (s2 & Hr2 & Ht2); [apply Ht|lia|]. exists s2. split.
  - rewrite bind_bind, (bind_Ok _ _ _ _ _ Hr). by erewrite bind_Ok by reflexivity.
  - unfold run_of. rewrite seqZ_cons by lia. change (?x :: ?l) with ([x] ++ l). eapply took_app; [done|].
    unfold run_of in Ht2. by replace (Z.succ (512 + Z.of_nat i)) with (512 + Z.of_nat (S i)) by lia;
      replace (Z.pred (Z.of_nat (S n))) with (Z.of_nat n) by lia.
Qed.

Lemma windows_lookup {A} n (l : list A) i : (0 < n)%nat →
  windows n l !! i = if decide (i + n ≤ length l)%nat then Some (take n (drop i l)) else None.
Proof.
  intros Hn. unfold windows. rewrite list_lookup_fmap. case_decide.
  - by rewrite lookup_seq_lt by lia.
  - rewrite lookup_seq_ge by lia. done.
Qed.

(** Whether the frames of a run are all free. *)
Definition free_run (s : Phys) (ppn : Z) (n : nat) : Prop := ∀ q, ppn ≤ q < ppn + Z.of_nat n → tracked q ∧ count s q = 0.

Lemma window_free s i n : phys_ok s → (i + n ≤ 3584)%nat →
  forallb (Z.eqb 0) (take n (drop i (mem_map s))) = true ↔ free_run s (512 + Z.of_nat i) n.
Proof.
  intros Hok Hi. pose proof (po_length _ Hok) as Hl. change (Z.to_nat PAGING_PAGES) with (Z.to_nat 3584) in Hl.
  rewrite forallb_forall. split.
  - intros Hall q Hq. assert (tracked q) as Ht by (unfold tracked; lia). split; [done|].
    pose proof (lookup_count s q Hok Ht) as Hc. unfold zlookup in Hc. rewrite (proj2 (Z.leb_le 0 _)) in Hc by lia.
    assert ((0 =? count s q) = true) as E%Z.eqb_eq; [|done]. apply Hall, list_elem_of_In, list_elem_of_lookup.
    exists (Z.to_nat (q - 512) - i)%nat. rewrite lookup_take_lt, lookup_drop by lia.
    by replace (i + (Z.to_nat (q - 512) - i))%nat with (Z.to_nat (q - 512)) by lia.
  - intros Hf x [k Hk]%list_elem_of_In%list_elem_of_lookup. apply lookup_take_Some in Hk as [Hk Hkn].
    rewrite lookup_drop in Hk. destruct (Hf (512 + Z.of_nat (i + k))) as [Ht Hc]; [lia|].
    pose proof (lookup_count s _ Hok Ht) as E. unfold zlookup in E. rewrite (proj2 (Z.leb_le 0 _)) in E by lia.
    replace (Z.to_nat (512 + Z.of_nat (i + k) - 512)) with (i + k)%nat in E by lia.
    rewrite Hc in E. apply Z.eqb_eq. congruence.
Qed.

(** [alloc_contiguous] takes the highest free run. *)
Lemma alloc_contiguous_spec s n :
  phys_ok s → (0 < n)%nat →
  (∃ ppn s', alloc_contiguous n s = (Ok (Some ppn), s') ∧ free_run s ppn n ∧ took s s' (run_of ppn n) ∧
     ∀ q, ppn < q → ¬ free_run s q n) ∨
  (alloc_contiguous n s = (Ok None, s) ∧ ∀ q, ¬ free_run s q n).
Proof.
  intros Hok Hn. unfold alloc_contiguous. rewrite (proj2 (Nat.eqb_neq _ _)) by lia. erewrite bind_Ok by reflexivity.
  pose proof (po_length _ Hok) as Hl. change (Z.to_nat PAGING_PAGES) with (Z.to_nat 3584) in Hl.
  assert (∀ q, free_run s q n → 512 ≤ q ∧ (Z.to_nat (q - 512) + n ≤ 3584)%nat) as Hin.
  { intros q Hq. destruct (Hq q) as [H1 _]; [lia|]. destruct (Hq (q + Z.of_nat n - 1)) as [H2 _]; [lia|].
    unfold tracked in *. lia. }
  destruct (rposition _ _) as [i|] eqn:Hr.
  - left. apply rposition_Some in Hr as [(w & Hw & Hf) Hmax]. rewrite windows_lookup in Hw by done.
    case_decide as Hi; [|done]. injection Hw as <-. rewrite Hl in Hi. apply window_free in Hf; [|done|lia].
    destruct (take_frames_spec n i s Hok) as (s' & Hrun & Ht); [lia|].
    exists (512 + Z.of_nat i), s'. split_and!; [|done|done|].
    + rewrite ppn_of_index by lia. erewrite bind_Ok by reflexivity. by rewrite (bind_Ok _ _ _ _ _ Hrun).
    + intros q Hq Hfq. destruct (Hin q Hfq) as [? ?].
      assert (forallb (Z.eqb 0) (take n (drop (Z.to_nat (q - 512)) (mem_map s))) = false) as E.
      { apply (Hmax (Z.to_nat (q - 512))); [lia|]. rewrite windows_lookup, decide_True by lia. done. }
      rewrite <- not_true_iff_false, window_free in E by (done || lia). apply E.
      by replace (512 + Z.of_nat (Z.to_nat (q - 512))) with q by lia.
  - right. split; [done|]. intros q Hfq. destruct (Hin q Hfq) as [? ?].
    pose proof (proj1 (rposition_None _ _) Hr (take n (drop (Z.to_nat (q - 512)) (mem_map s)))) as E.
    rewrite <- not_true_iff_false, window_free in E by (done || lia). apply E.
    + apply list_elem_of_lookup. exists (Z.to_nat (q - 512)). rewrite windows_lookup, decide_True by lia. done.
    + by replace (512 + Z.of_nat (Z.to_nat (q - 512))) with q by lia.
Qed.

(** ** Properties *)

Lemma floor_div a : floor a = a / 4096.
Proof. unfold floor, PAGE_SHIFT. by rewrite Z.shiftr_div_pow2. Qed.

Lemma fill_lookup l a b x i : (a ≤ b)%nat → (b ≤ length l)%nat → (i < length l)%nat →
  fill l a b x !! i = if decide (a ≤ i < b)%nat then Some x else l !! i.
Proof.
  intros Hab Hb Hi. unfold fill. case_decide as Hin.
  - rewrite lookup_app_r by (rewrite length_take; lia). rewrite length_take, Nat.min_l by lia.
    rewrite lookup_app_l by (rewrite length_replicate; lia). by apply lookup_replicate; split; [|lia].
  - destruct (decide (i < a)%nat).
    + rewrite lookup_app_l by (rewrite length_take; lia). by rewrite lookup_take_lt.
    + rewrite lookup_app_r by (rewrite length_take; lia). rewrite length_take, Nat.min_l by lia.
      rewrite lookup_app_r by (rewrite length_replicate; lia). rewrite length_replicate, lookup_drop. f_equal. lia.
Qed.

Lemma init_spec s first last :
  phys_ok s → LOW_MEM ≤ first → first ≤ last → last ≤ HIGH_MEMORY →
  ∃ s', init first last s = Ok s' ∧ phys_ok s' ∧
    ∀ q, tracked q → count s' q = if decide (first / 4096 ≤ q < last / 4096) then 0 else 100.
Proof.
  intros Hok H1 H2 H3. unfold init. rewrite (proj2 (Z.leb_le _ _) H1), (proj2 (Z.leb_le _ _) H2), (proj2 (Z.leb_le _ _) H3).
  cbn [andb]. change LOW_MEM with (512 * 4096) in H1. change HIGH_MEMORY with (4096 * 4096) in H3.
  assert (512 ≤ first / 4096) by (by apply Z.div_le_lower_bound; lia).
  assert (first / 4096 ≤ last / 4096) by (by apply Z.div_le_mono).
  assert (last / 4096 ≤ 4096) by (by apply Z.div_le_upper_bound; lia).
  rewrite !floor_div. change UNPAGED_PAGES with 512.
  assert (∀ x, 512 ≤ x ≤ 4096 → wrapping_sub x 512 = x - 512) as Hw by (intros; apply wrap_small; unfold is_uint; lia).
  rewrite !Hw by lia. pose proof (po_length _ Hok) as Hl. change PAGING_PAGES with 3584 in Hl.
  eexists. split; [done|]. set (l := fill _ _ _ _).
  assert (∀ i, (i < 3584)%nat → l !! i = Some (if decide (Z.to_nat (first / 4096 - 512) ≤ i < Z.to_nat (last / 4096 - 512))%nat then 0 else 100)) as Hlk.
  { intros i Hi. unfold l. rewrite fill_lookup by (rewrite ?length_replicate; lia). case_decide; [done|].
    apply lookup_replicate. split; [done|lia]. }
  assert (length l = 3584%nat) as Hll.
  { unfold l, fill. rewrite !length_app, length_take, length_drop, !length_replicate. lia. }
  split.
  - split; [by cbn [mem_map]| |apply Hok]. cbn [mem_map]. apply Forall_lookup_2. intros i x Hx.
    pose proof (lookup_lt_Some _ _ _ Hx) as Hi. rewrite Hlk in Hx by lia. injection Hx as <-. by case_decide.
  - intros q Hq. unfold count, zlookup, tracked in *. cbn [mem_map]. rewrite (proj2 (Z.leb_le 0 _)), Hlk by lia. simpl.
    repeat case_decide; done || lia.
Qed.

(** C37: The frame allocator.  [alloc] returns the highest free frame, zeroed and
    with count 1, and [None] only when there is none; [alloc_contiguous] does so
    for runs.  Dropping a handle takes one from the frame's count and sharing
    adds one, modulo 256; both panic on a free frame and on one beyond the
    counted memory.  Dropping a frame of low memory does nothing, and sharing one
    panics, its index being out of the array (the comment on [LOW_MEM] has both
    skip it).  Counts of other frames never change, and none leaves its byte. *)
Theorem frame_allocator s :
  phys_ok s →
  ((∃ ppn s', alloc s = (Ok (Some ppn), s') ∧ tracked ppn ∧ count s ppn = 0 ∧ took s s' [ppn] ∧
      ∀ q, ppn < q → tracked q → count s q ≠ 0) ∨
   (alloc s = (Ok None, s) ∧ ∀ q, tracked q → count s q ≠ 0)) ∧
  (∀ n, (0 < n)%nat →
     (∃ ppn s', alloc_contiguous n s = (Ok (Some ppn), s') ∧ free_run s ppn n ∧ took s s' (run_of ppn n) ∧
        ∀ q, ppn < q → ¬ free_run s q n) ∨
     (alloc_contiguous n s = (Ok None, s) ∧ ∀ q, ¬ free_run s q n)) ∧
  (∀ ppn, tracked ppn → count s ppn ≠ 0 →
     (∃ s', dealloc ppn s = (Ok (), s') ∧ phys_ok s' ∧
        ∀ q, count s' q = if decide (q = ppn) then count s ppn - 1 else count s q) ∧
     (∃ s', share ppn s = (Ok ppn, s') ∧ phys_ok s' ∧
        ∀ q, count s' q = if decide (q = ppn) then as_u8 (count s ppn + 1) else count s q)) ∧
  (∀ ppn, tracked ppn → count s ppn = 0 → dealloc ppn s = (Panic, s) ∧ share ppn s = (Panic, s)) ∧
  (∀ ppn, 0 ≤ ppn < 512 → dealloc ppn s = (Ok (), s) ∧ share ppn s = (Panic, s)) ∧
  (∀ ppn, 4096 ≤ ppn → is_uint 20 ppn → dealloc ppn s = (Panic, s) ∧ share ppn s = (Panic, s)) ∧
  (∀ first last, LOW_MEM ≤ first → first ≤ last → last ≤ HIGH_MEMORY →
     ∃ s', init first last s = Ok s' ∧ phys_ok s' ∧
       ∀ q, tracked q → count s' q = if decide (first / 4096 ≤ q < last / 4096) then 0 else 100).
Proof.
  intros Hok. assert (∀ ppn, 0 ≤ ppn < 512 ∨ 4096 ≤ ppn ∧ is_uint 20 ppn → count_at ppn s = (Panic, s)) as Hout.
  { intros ppn Hp. unfold count_at. erewrite bind_Ok by reflexivity.
    destruct (zlookup (mem_map s) (index_for_ppn ppn)) as [x|] eqn:Hx; [exfalso|done].
    apply zlookup_Some in Hx. rewrite (po_length _ Hok) in Hx. change PAGING_PAGES with 3584 in Hx.
    unfold index_for_ppn, wrapping_sub, wrap, is_uint in *. change UNPAGED_PAGES with 512 in Hx.
    destruct Hp as [Hp|Hp]; [rewrite <- (Z.mod_add _ 1) in Hx by done|]; rewrite Z.mod_small in Hx by lia; lia. }
  split_and!.
  - by apply frame_alloc_spec.
  - intros. by apply alloc_contiguous_spec.
  - intros ppn Ht Hc. pose proof (count_uint s ppn Hok) as Hu. unfold is_uint in Hu.
    destruct (frame_dealloc_spec s ppn Hok Ht) as [Hd Hd']; [lia|]. destruct (share_spec s ppn Hok Ht) as [Hs Hs']; [lia|].
    split; eexists; (split; [done|]; split; [done|]); intros q; by apply count_set_count.
  - intros ppn Ht Hc. unfold dealloc, share.
    rewrite (proj2 (Z.ltb_ge _ _)) by (unfold tracked in Ht; change UNPAGED_PAGES with 512; lia).
    split; (erewrite bind_Ok by (by apply count_at_spec)); by rewrite Hc.
  - intros ppn Hp. split; [apply dealloc_low; lia|]. unfold share. erewrite bind_Panic; [done|]. apply Hout; by left.
  - intros ppn Hp Hu. unfold dealloc, share. rewrite (proj2 (Z.ltb_ge _ _)) by (change UNPAGED_PAGES with 512; lia).
    split; (erewrite bind_Panic; [done|]; apply Hout; by right).
  - intros. by apply init_spec.
Qed.

(** All counted frames free. *)
Definition free_memory : Phys := mkPhys (replicate (Z.to_nat PAGING_PAGES) 0) ∅.

Lemma free_memory_ok : phys_ok free_memory.
Proof. split; [done|by apply Forall_replicate|done]. Qed.

Lemma count_free_memory q : count free_memory q = 0.
Proof.
  unfold count, zlookup, free_memory. cbn [mem_map]. destruct (_ <=? _); [|done].
  destruct (_ !! _) eqn:E; [|done]. by apply lookup_replicate in E as [-> _].
Qed.

Lemma frame_allocator_witness : ∃ s', alloc free_memory = (Ok (Some 4095), s') ∧ count s' 4095 = 1.
Proof.
  destruct (frame_allocator free_memory free_memory_ok)
    as ([(ppn & s' & Hr & Ht & _ & [_ Hc _] & Hmax)|[_ Hn]] & _).
  - assert (ppn = 4095) as ->.
    { unfold tracked in Ht. destruct (Z.lt_trichotomy ppn 4095) as [H|[H|H]]; [|exact H|lia].
      exfalso. apply (Hmax 4095 H); [unfold tracked; lia|apply count_free_memory]. }
    exists s'. split; [exact Hr|]. rewrite Hc. rewrite decide_True by (apply list_elem_of_singleton; reflexivity). reflexivity.
  - exfalso. apply (Hn 600); [unfold tracked; lia|apply count_free_memory].
Defined.
End Frame.
