(* ===== verification/Buffer.v ===== *)
(** * Block buffer cache ([kernel/src/fs/buffer.rs])

    The slots, their index and replacement order; the operations of tasks, cut
    where they sleep; the system in which tasks, the block layer and its
    interrupts interleave; and when the cache is transparent. *)

From stdpp Require Import functions list_numbers.
From S2P Require Import Prelude Block Layout Frame.
Open Scope Z_scope.
Open Scope kmonad_scope.

Module Buffer.
#[local] Set Default Proof Using "Type".

(** ** Data *)

Record BufferKey : Set := mkKey { dev : Z; block_number : Z }.

#[global] Instance BufferKey_eq_dec : EqDecision BufferKey.
Proof. solve_decision. Defined.

#[global] Program Instance BufferKey_countable : Countable BufferKey :=
  inj_countable' (λ k, (dev k, block_number k)) (λ p, mkKey p.1 p.2) _.
Next Obligation. by intros []. Qed.

Record BufferMeta : Set := mkMeta {
  key : option BufferKey;
  ref_count : Z;
  dirty : bool;
  up_to_date : bool;
}.

Definition empty_meta : BufferMeta := mkMeta None 0 false false.

(** A slot with the block its [data] points to.  Of the ownerless lock, the
    order of its sleepers is the subject of [WaitQueue]. *)
Record BufferSlot : Set := mkSlot { data : list Z; io_locked : bool; meta : BufferMeta }.

(** Slots are numbered in the order of their blocks. *)
Record BufferManager : Type := mkManager {
  buffers : list nat;
  buffer_index : gmap BufferKey nat;
}.

(** What a task wants of a block, and where [submit_and_wait] was called. *)
Inductive Want : Set := Get | Read.
Inductive Caller : Set :=
| InFlush (w : Want) (k : BufferKey)
| InRead (k : BufferKey)
| InSync (rest : list nat).

(** Where a task is: outside the cache, at the head of the loop of
    [acquire_slot], or at a point where it may sleep. *)
Inductive Pc : Set :=
| Outside
| Acquire (w : Want) (k : BufferKey)
| CachedWait (w : Want) (k : BufferKey) (i : nat)
| VictimSleep (w : Want) (k : BufferKey)
| VictimWait (w : Want) (k : BufferKey) (i : nat)
| AcquireIo (ty : Block.BlockRequestType) (i : nat) (k : BufferKey) (c : Caller)
| FindSlot (ty : Block.BlockRequestType) (i : nat) (k : BufferKey) (c : Caller)
| IoWait (i : nat) (c : Caller)
| ReleaseWait (i : nat).

(** A request of the block layer; [block] is what its [first_sector] names, and
    [done] counts the sectors transferred. *)
Record Request : Set := mkRequest {
  ty : Block.BlockRequestType;
  block : BufferKey;
  done : nat;
}.

(** The requests in the pool are given by the slot they are for: [Block] shows
    that no slot has two.  [handles] are the [BufferHandle]s that exist, with
    the key each was asked for; [cur] is the task that runs in the kernel. *)
Record St : Type := mkSt {
  manager : BufferManager;
  slots : nat → BufferSlot;
  requests : gmap nat Request;
  disk : BufferKey → list Z;
  threads : list Pc;
  cur : option nat;
  handles : list (nat * BufferKey);
}.

Definition with_manager (m : BufferManager) (s : St) : St :=
  mkSt m (slots s) (requests s) (disk s) (threads s) (cur s) (handles s).
Definition with_slot (i : nat) (f : BufferSlot → BufferSlot) (s : St) : St :=
  mkSt (manager s) (<[i := f (slots s i)]> (slots s)) (requests s) (disk s) (threads s) (cur s)
    (handles s).
Definition with_requests (r : gmap nat Request) (s : St) : St :=
  mkSt (manager s) (slots s) r (disk s) (threads s) (cur s) (handles s).
Definition with_block (k : BufferKey) (b : list Z) (s : St) : St :=
  mkSt (manager s) (slots s) (requests s) (<[k := b]> (disk s)) (threads s) (cur s) (handles s).
Definition with_pc (t : nat) (pc : Pc) (s : St) : St :=
  mkSt (manager s) (slots s) (requests s) (disk s) (<[t := pc]> (threads s)) (cur s) (handles s).
Definition with_cur (c : option nat) (s : St) : St :=
  mkSt (manager s) (slots s) (requests s) (disk s) (threads s) c (handles s).
Definition with_handles (h : list (nat * BufferKey)) (s : St) : St :=
  mkSt (manager s) (slots s) (requests s) (disk s) (threads s) (cur s) h.

(** ** Slots *)

Definition on_meta (f : BufferMeta → BufferMeta) (x : BufferSlot) : BufferSlot :=
  mkSlot (data x) (io_locked x) (f (meta x)).
Definition on_data (f : list Z → list Z) (x : BufferSlot) : BufferSlot :=
  mkSlot (f (data x)) (io_locked x) (meta x).
Definition set_locked (l : bool) (x : BufferSlot) : BufferSlot := mkSlot (data x) l (meta x).

Definition set_key (k : option BufferKey) (m : BufferMeta) : BufferMeta :=
  mkMeta k (ref_count m) (dirty m) (up_to_date m).
Definition set_dirty (d : bool) (m : BufferMeta) : BufferMeta :=
  mkMeta (key m) (ref_count m) d (up_to_date m).
Definition set_up_to_date (u : bool) (m : BufferMeta) : BufferMeta :=
  mkMeta (key m) (ref_count m) (dirty m) u.
Definition set_ref_count (n : Z) (m : BufferMeta) : BufferMeta :=
  mkMeta (key m) n (dirty m) (up_to_date m).
Definition reset_after_rebind (m : BufferMeta) : BufferMeta := mkMeta (key m) 1 false false.

Definition slot_key (s : St) (i : nat) : option BufferKey := key (meta (slots s i)).
Definition key_matches (k : BufferKey) (x : BufferSlot) : bool :=
  bool_decide (key (meta x) = Some k).

(** The count is a [u16] and wraps. *)
Definition inc_ref (i : nat) : M St unit :=
  mmodify (with_slot i (on_meta (λ m, set_ref_count (as_u16 (ref_count m + 1)) m))).

Definition dec_ref (i : nat) : M St unit :=
  s <- mget ;;
  massert (negb (ref_count (meta (slots s i)) =? 0)) ;;;
  mmodify (with_slot i (on_meta (λ m, set_ref_count (ref_count m - 1) m))).

Definition reclaim_penalty (x : BufferSlot) : Z :=
  Z.lor (Z.shiftl (Z.b2z (dirty (meta x))) 1) (Z.b2z (io_locked x)).

(** ** The replacement list and the index *)

Fixpoint scan (x : nat → BufferSlot) (l : list nat) (best : option (nat * Z)) : option nat :=
  match l with
  | [] => fst <$> best
  | i :: l' =>
      let penalty := reclaim_penalty (x i) in
      if (ref_count (meta (x i)) =? 0) &&
         match best with None => true | Some (_, p) => penalty <? p end
      then if penalty =? 0 then Some i else scan x l' (Some (i, penalty))
      else scan x l' best
  end.

Definition find_reclaim_candidate (s : St) : option nat :=
  scan (slots s) (buffers (manager s)) None.

Definition move_to_back (i : nat) (l : list nat) : list nat :=
  filter (λ j, j ≠ i) l ++ [i].

Definition pin_buffer (k : BufferKey) : M St (option nat) :=
  s <- mget ;;
  match buffer_index (manager s) !! k with
  | None => mok None
  | Some i => inc_ref i ;;; mok (Some i)
  end.

(** Both clear the key of the slot that loses its entry. *)
Definition clear_key (k : BufferKey) (o : option nat) (s : St) : St :=
  match o with
  | Some j => if key_matches k (slots s j) then with_slot j (on_meta (set_key None)) s else s
  | None => s
  end.

Definition index_remove (k : BufferKey) (s : St) : St :=
  let m := manager s in
  clear_key k (buffer_index m !! k)
    (with_manager (mkManager (buffers m) (delete k (buffer_index m))) s).

Definition index_insert (k : BufferKey) (i : nat) (s : St) : St :=
  let m := manager s in
  clear_key k (buffer_index m !! k)
    (with_manager (mkManager (buffers m) (<[k := i]> (buffer_index m)))
       (with_slot i (on_meta (set_key (Some k))) s)).

Definition rebind (k : BufferKey) (i : nat) (s : St) : St :=
  let s1 := match slot_key s i with Some old => index_remove old s | None => s end in
  let s2 := index_insert k i (with_slot i (on_meta reset_after_rebind) s1) in
  with_manager (mkManager (move_to_back i (buffers (manager s2))) (buffer_index (manager s2))) s2.

Definition try_rebind_buffer (k : BufferKey) (i : nat) : M St bool :=
  s <- mget ;;
  if bool_decide (is_Some (buffer_index (manager s) !! k)) then mok false
  else mmodify (rebind k i) ;;; mok true.

(** ** The code between two points where a task may sleep *)

Section cache.
(** Which major numbers have a driver. *)
Context (registered : Z → bool).

(** [submit_request] up to [acquire_io]; without a driver it returns, and
    [submit_and_wait] goes on to [wait_io]. *)
Definition submit (t : Block.BlockRequestType) (i : nat) (c : Caller) : M St Pc :=
  s <- mget ;;
  match slot_key s i with
  | Some k => mok (if registered (Block.DevNum_major (dev k)) then AcquireIo t i k c else IoWait i c)
  | None => mok (IoWait i c)
  end.

(** The [BufferHandle] is built. *)
Definition give (k : BufferKey) (i : nat) : M St Pc :=
  mmodify (λ s, with_handles ((i, k) :: handles s) s) ;;; mok Outside.

(** [acquire_slot] has returned: the rest of [get] or [read]. *)
Definition acquired (w : Want) (k : BufferKey) (i : nat) : M St Pc :=
  match w with
  | Get => give k i
  | Read =>
      s <- mget ;;
      if up_to_date (meta (slots s i)) then give k i else submit Block.Read i (InRead k)
  end.

Definition try_acquire_victim (w : Want) (k : BufferKey) : M St Pc :=
  s <- mget ;;
  mok (match find_reclaim_candidate s with
       | None => VictimSleep w k
       | Some i => VictimWait w k i
       end).

Definition rebind_or_retry (w : Want) (k : BufferKey) (i : nat) : M St Pc :=
  b <- try_rebind_buffer k i ;;
  if (b : bool) then acquired w k i else mok (Acquire w k).

(** The loop of [sync_dirty]. *)
Definition sync_next (l : list nat) : M St Pc :=
  match l with
  | [] => mok Outside
  | i :: rest => submit Block.Write i (InSync rest)
  end.

(** After [submit_and_wait]. *)
Definition return_to (c : Caller) (i : nat) : M St Pc :=
  match c with
  | InFlush w k => rebind_or_retry w k i
  | InRead k =>
      s <- mget ;;
      if up_to_date (meta (slots s i)) then give k i else mok (ReleaseWait i)
  | InSync rest => sync_next rest
  end.

(** [submit_request] once [acquire_io] has the lock. *)
Definition lock_held (t : Block.BlockRequestType) (i : nat) (k : BufferKey) (c : Caller) : M St Pc :=
  s <- mget ;;
  let m := meta (slots s i) in
  if (bool_decide (t = Block.Read) && up_to_date m) || (bool_decide (t = Block.Write) && negb (dirty m))
  then mok (IoWait i c)
  else mmodify (with_slot i (set_locked true)) ;;; mok (FindSlot t i k c).

(** The request is stored and queued. *)
Definition queue_request (t : Block.BlockRequestType) (i : nat) (k : BufferKey) (c : Caller) : M St Pc :=
  mmodify (λ s, with_requests (<[i := mkRequest t k 0]> (requests s))
                  (with_slot i (on_meta (set_dirty false)) s)) ;;;
  mok (IoWait i c).

(** Where the slot's lock is waited for, [None] while it is held. *)
Definition when_unlocked (i : nat) (m : M St Pc) : M St (option Pc) :=
  s <- mget ;;
  if io_locked (slots s i) then mok None else (pc <- m ;; mok (Some pc)).

(** A task runs on from where it is; [None] is that it sleeps there. *)
Definition resume (pc : Pc) : M St (option Pc) :=
  match pc with
  | Outside => mok None
  | Acquire w k =>
      o <- pin_buffer k ;;
      match o with
      | Some i => mok (Some (CachedWait w k i))
      | None => pc' <- try_acquire_victim w k ;; mok (Some pc')
      end
  | CachedWait w k i => when_unlocked i (
      s <- mget ;;
      if key_matches k (slots s i) then acquired w k i
      else dec_ref i ;;; try_acquire_victim w k)
  | VictimSleep w k => mok (Some (Acquire w k))
  | VictimWait w k i => when_unlocked i (
      s <- mget ;;
      if negb (ref_count (meta (slots s i)) =? 0) then mok (Acquire w k)
      else if dirty (meta (slots s i)) then submit Block.Write i (InFlush w k)
      else rebind_or_retry w k i)
  | AcquireIo t i k c => when_unlocked i (lock_held t i k c)
  | FindSlot t i k c => pc' <- queue_request t i k c ;; mok (Some pc')
  | IoWait i c => when_unlocked i (return_to c i)
  | ReleaseWait i => when_unlocked i (dec_ref i ;;; mok Outside)
  end.

(** ** What clients do with a handle *)

Inductive Access : Type :=
| Modify (f : list Z → list Z)
| WriteBytes (off : nat) (src : list Z)
| FillZero.

Definition read_bytes (i off len : nat) : M St (list Z) :=
  massert (bool_decide (off + len ≤ Z.to_nat Layout.BLOCK_SIZE)%nat) ;;;
  mgets (λ s, take len (drop off (data (slots s i)))).

Definition write_bytes (i off : nat) (src : list Z) : M St unit :=
  massert (bool_decide (off + length src ≤ Z.to_nat Layout.BLOCK_SIZE)%nat) ;;;
  mmodify (with_slot i (λ x, on_meta (set_dirty true) (on_data (λ b, splice b (Z.of_nat off) src) x))) ;;;
  if bool_decide (off = 0%nat ∧ length src = Z.to_nat Layout.BLOCK_SIZE)
  then mmodify (with_slot i (on_meta (set_up_to_date true))) else mok ().

Definition access (i : nat) (a : Access) : M St unit :=
  match a with
  | Modify f => mmodify (with_slot i (λ x, on_meta (set_dirty true) (on_data f x)))
  | WriteBytes off src => write_bytes i off src
  | FillZero =>
      mmodify (with_slot i (λ x,
        on_meta (λ m, set_dirty true (set_up_to_date true m)) (on_data (λ _, Layout.zero_block) x)))
  end.

(** ** The block layer and the driver *)

Definition SECTOR_SIZE : Z := Block.SECTOR_SIZE.

Definition sector (n : nat) (b : list Z) : list Z := slice b (Z.of_nat n * SECTOR_SIZE) SECTOR_SIZE.
Definition put_sector (n : nat) (src b : list Z) : list Z :=
  splice b (Z.of_nat n * SECTOR_SIZE) (sector n src).

(** The next sector of the request for slot [i]. *)
Definition transfer (i : nat) (r : Request) (s : St) : St :=
  let s' := with_requests (<[i := mkRequest (ty r) (block r) (S (done r))]> (requests s)) s in
  match ty r with
  | Block.Read => with_slot i (on_data (put_sector (done r) (disk s (block r)))) s'
  | Block.Write =>
      with_block (block r) (put_sector (done r) (data (slots s i)) (disk s (block r))) s'
  end.

(** [complete_current]. *)
Definition complete (i : nat) (success : bool) (s : St) : St :=
  with_requests (delete i (requests s))
    (with_slot i (λ x, set_locked false (on_meta (set_up_to_date success) x)) s).

(** ** The system *)

Definition sync_snapshot (predicate : BufferKey → bool) (s : St) : list nat :=
  filter (λ i, dirty (meta (slots s i)) = true ∧
               match slot_key s i with Some k => predicate k | None => false end = true)
    (map_to_list (buffer_index (manager s))).*2.

(** One action: a task gets the processor, runs on, calls into the cache, uses
    a handle or gives it up, or sleeps elsewhere; or an interrupt. *)
Inductive Action : Type :=
| Switch (t : nat)
| Run
| WaitForSlot
| Leave
| Call (w : Want) (k : BufferKey)
| SyncDirty (predicate : BufferKey → bool) (order : list nat)
| Drop (n : nat)
| Use (n : nat) (a : Access)
| Transfer (i : nat)
| Complete (i : nat) (success : bool).

Definition current (s : St) : option (nat * Pc) :=
  t ← cur s; pc ← threads s !! t; Some (t, pc).

Definition step_result (t : nat) (r : result (option Pc) * St) : bool * St :=
  match r with
  | (Ok (Some (VictimSleep w k as pc)), s) => (false, with_cur None (with_pc t pc s))
  | (Ok (Some pc), s) => (false, with_pc t pc s)
  | (Ok None, s) => (false, with_cur None s)
  | (_, s) => (true, s)
  end.

(** [None] when the action cannot happen; the boolean tells a panic.  Only a
    task that sleeps gives up the processor. *)
Definition act (a : Action) (s : St) : option (bool * St) :=
  match a with
  | Switch t =>
      match cur s, threads s !! t with
      | None, Some _ => Some (false, with_cur (Some t) s)
      | _, _ => None
      end
  | Run => '(t, pc) ← current s; Some (step_result t (resume pc s))
  | WaitForSlot =>
      '(_, pc) ← current s;
      match pc with FindSlot _ _ _ _ => Some (false, with_cur None s) | _ => None end
  | Leave =>
      '(_, pc) ← current s;
      match pc with Outside => Some (false, with_cur None s) | _ => None end
  | Call w k =>
      '(t, pc) ← current s;
      match pc with Outside => Some (false, with_pc t (Acquire w k) s) | _ => None end
  | SyncDirty p l =>
      '(t, pc) ← current s;
      match pc with
      | Outside =>
          if bool_decide (l ≡ₚ sync_snapshot p s)
          then Some (step_result t ((pc' <- sync_next l ;; mok (Some pc')) s)) else None
      | _ => None
      end
  | Drop n =>
      '(t, pc) ← current s;
      match pc, handles s !! n with
      | Outside, Some (i, _) =>
          Some (false, with_pc t (ReleaseWait i) (with_handles (delete n (handles s)) s))
      | _, _ => None
      end
  | Use n x =>
      '(_, pc) ← current s;
      match pc, handles s !! n with
      | Outside, Some (i, _) =>
          let (r, s') := access i x s in Some (Block.panicked r, s')
      | _, _ => None
      end
  | Transfer i =>
      r ← requests s !! i;
      if bool_decide (done r < 2)%nat then Some (false, transfer i r s) else None
  | Complete i success =>
      r ← requests s !! i;
      if success && bool_decide (done r < 2)%nat then None
      else Some (negb (io_locked (slots s i)), complete i success s)
  end.

(** [init] over the memory from [LOW_MEM] on: [BUFFER_MANAGER] before the first
    call. *)
Definition LOW_MEM : Z := Frame.LOW_MEM.

Definition buffer_count (buffer_memory_end : Z) : nat :=
  let clamped_end := Z.max buffer_memory_end LOW_MEM in
  let region_end := clamped_end / Layout.BLOCK_SIZE * Layout.BLOCK_SIZE in
  Z.to_nat ((region_end - LOW_MEM) / Layout.BLOCK_SIZE).

Definition init (buffer_memory_end : Z) (memory : nat → list Z) (d : BufferKey → list Z)
    (tasks : nat) : St :=
  mkSt (mkManager (seq 0 (buffer_count buffer_memory_end)) ∅)
    (λ i, mkSlot (memory i) false empty_meta) ∅ d (replicate tasks Outside) None [].

Definition step (s s' : St) : Prop := ∃ a, act a s = Some (false, s').
Definition panics (s : St) : Prop := ∃ a s', act a s = Some (true, s').

(** ** What a task does between two sleeps *)

Definition caller_of (pc : Pc) : option (nat * Caller) :=
  match pc with
  | AcquireIo _ i _ c | FindSlot _ i _ c | IoWait i c => Some (i, c)
  | _ => None
  end.

(** The slot a task has counted itself in, the slot and key a reader is sure of,
    the slot it wants to rebind, and the slot whose lock it holds. *)
Definition pins_of (pc : Pc) : option nat :=
  match pc with
  | CachedWait _ _ i | ReleaseWait i => Some i
  | _ => match caller_of pc with Some (i, InRead _) => Some i | _ => None end
  end.

Definition holds (pc : Pc) : option (nat * BufferKey) :=
  match caller_of pc with Some (i, InRead k) => Some (i, k) | _ => None end.

Definition victim_of (pc : Pc) : option nat :=
  match pc with
  | VictimWait _ _ i => Some i
  | _ => match caller_of pc with Some (i, InFlush _ _) => Some i | _ => None end
  end.

Definition finds (pc : Pc) : option nat :=
  match pc with FindSlot _ i _ _ => Some i | _ => None end.

(** What a task has called. *)
Definition want (pc : Pc) : option Want :=
  match pc with
  | Acquire w _ | CachedWait w _ _ | VictimSleep w _ | VictimWait w _ _ => Some w
  | _ => match caller_of pc with Some (_, InFlush w _) => Some w | Some (_, InRead _) => Some Read | _ => None end
  end.

(** The block a task has called the cache for. *)
Definition asks (pc : Pc) : option BufferKey :=
  match pc with
  | Acquire _ k | CachedWait _ k _ | VictimSleep _ k | VictimWait _ k _ => Some k
  | _ => match caller_of pc with Some (_, InFlush _ k) | Some (_, InRead k) => Some k | _ => None end
  end.

Definition slot_meta (s : St) (i : nat) : BufferMeta := meta (slots s i).

Inductive moves (s : St) : Pc → Pc → St → Prop :=
| mv_none pc pc' :
    finds pc = None → finds pc' = None → pins_of pc' = pins_of pc →
    (∀ i, victim_of pc' = Some i → victim_of pc = Some i ∨ i ∈ buffers (manager s)) →
    (∀ i k, holds pc' = Some (i, k) → holds pc = Some (i, k) ∨ slot_key s i = Some k) →
    moves s pc pc' s
| mv_pin w k i :
    buffer_index (manager s) !! k = Some i →
    moves s (Acquire w k) (CachedWait w k i)
      (with_slot i (on_meta (λ m, set_ref_count (as_u16 (ref_count m + 1)) m)) s)
| mv_unpin pc pc' i :
    finds pc = None → pins_of pc = Some i → ref_count (slot_meta s i) ≠ 0 →
    finds pc' = None → pins_of pc' = None → holds pc' = None →
    (∀ j, victim_of pc' = Some j → j ∈ buffers (manager s)) →
    moves s pc pc' (with_slot i (on_meta (λ m, set_ref_count (ref_count m - 1) m)) s)
| mv_give pc k i :
    finds pc = None → pins_of pc = Some i → asks pc = Some k →
    (holds pc = Some (i, k) ∨ slot_key s i = Some k) →
    (want pc = Some Read → up_to_date (slot_meta s i) = true) →
    moves s pc Outside (with_handles ((i, k) :: handles s) s)
| mv_rebind pc pc' k i s' :
    finds pc = None → pins_of pc = None → victim_of pc = Some i → asks pc = Some k →
    io_locked (slots s i) = false → buffer_index (manager s) !! k = None →
    ((∃ w, pc = IoWait i (InFlush w k)) ∨
     ref_count (slot_meta s i) = 0 ∧ dirty (slot_meta s i) = false) →
    (pc' = Outside ∧ want pc = Some Get ∧ s' = with_handles ((i, k) :: handles s) (rebind k i s) ∨
     holds pc' = Some (i, k) ∧ pins_of pc' = Some i ∧ finds pc' = None ∧ victim_of pc' = None ∧
     s' = rebind k i s) →
    moves s pc pc' s'
| mv_lock t i k c :
    io_locked (slots s i) = false → (t = Block.Read → up_to_date (slot_meta s i) = false) →
    (t = Block.Write → dirty (slot_meta s i) = true) →
    moves s (AcquireIo t i k c) (FindSlot t i k c) (with_slot i (set_locked true) s)
| mv_queue t i k c :
    moves s (FindSlot t i k c) (IoWait i c)
      (with_requests (<[i := mkRequest t k 0]> (requests s))
         (with_slot i (on_meta (set_dirty false)) s)).

Lemma scan_elem x l best i : scan x l best = Some i → i ∈ l ∨ fst <$> best = Some i.
Proof.
  revert best. induction l as [|j l IH]; intros best; simpl; [by right|].
  destruct (_ && _); [destruct (_ =? 0)|].
  - intros [= <-]. left. by left.
  - intros [?|[= ->]]%IH; left; [by right|by left].
  - intros [?|?]%IH; [left; by right|by right].
Qed.

Lemma reclaim_penalty_pos x : 0 ≤ reclaim_penalty x.
Proof. unfold reclaim_penalty. destruct (dirty _), (io_locked _); done. Qed.

(** [scan] finds an unreferenced slot of least penalty, if there is one. *)
Lemma scan_spec x l best :
  (∀ b p, best = Some (b, p) → ref_count (meta (x b)) = 0 ∧ p = reclaim_penalty (x b)) →
  match scan x l best with
  | Some i => ref_count (meta (x i)) = 0 ∧
      (∀ j, j ∈ l → ref_count (meta (x j)) = 0 → reclaim_penalty (x i) ≤ reclaim_penalty (x j)) ∧
      (∀ b p, best = Some (b, p) → reclaim_penalty (x i) ≤ p)
  | None => best = None ∧ ∀ j, j ∈ l → ref_count (meta (x j)) ≠ 0
  end.
Proof.
  revert best. induction l as [|j l IH]; intros best Hb; cbn [scan].
  - destruct best as [[b p]|]; simpl; [|by split; [|set_solver]].
    destruct (Hb b p eq_refl) as [? ->]. split_and!; [done|set_solver|]. by intros ? ? [= <- <-].
  - cbv zeta. destruct (Z.eqb_spec (ref_count (meta (x j))) 0) as [Hr|Hr]; cbn [andb].
    2:{ specialize (IH best Hb). destruct (scan x l best) as [i|].
        - destruct IH as (? & Hl & ?). split_and!; [done| |done]. intros j' [->|?]%elem_of_cons; [done|auto].
        - destruct IH as [? Hl]. split; [done|]. intros j' [->|?]%elem_of_cons; auto. }
    destruct (match best with None => true | Some (_, p) => reclaim_penalty (x j) <? p end) eqn:Hlt.
    + assert (∀ b p, best = Some (b, p) → reclaim_penalty (x j) ≤ p) as Hle.
      { intros b p ->. apply Z.ltb_lt in Hlt. lia. }
      destruct (Z.eqb_spec (reclaim_penalty (x j)) 0) as [Hz|Hz].
      * split_and!; [done| |done]. intros j' _ _. rewrite Hz. apply reclaim_penalty_pos.
      * specialize (IH (Some (j, reclaim_penalty (x j)))).
        destruct (scan x l _) as [i|].
        -- destruct IH as (? & Hl & Hj); [by intros ? ? [= <- <-]|]. specialize (Hj _ _ eq_refl).
           split_and!; [done| |].
           ++ intros j' [->|?]%elem_of_cons; auto.
           ++ intros b p Hbp. specialize (Hle b p Hbp). lia.
        -- destruct IH as [? _]; [by intros ? ? [= <- <-]|done].
    + destruct best as [[b p]|]; [|done]. apply Z.ltb_ge in Hlt. specialize (IH _ Hb).
      destruct (scan x l _) as [i|].
      * destruct IH as (? & Hl & Hj). split_and!; [done| |done].
        intros j' [->|?]%elem_of_cons Hj'; [|auto]. specialize (Hj _ _ eq_refl). lia.
      * by destruct IH.
Qed.

Lemma submit_spec t i c s :
  ∃ pc, submit t i c s = (Ok pc, s) ∧ caller_of pc = Some (i, c) ∧ finds pc = None ∧
    pc ≠ Outside ∧ (∀ w k, pc ≠ VictimSleep w k) ∧
    (∀ w k j, pc ≠ CachedWait w k j ∧ pc ≠ VictimWait w k j) ∧ (∀ j, pc ≠ ReleaseWait j).
Proof.
  unfold submit. erewrite bind_Ok by done. destruct (slot_key s i) as [k|]; [|by eexists].
  by destruct (registered _); eexists.
Qed.

Lemma caller_fields pc i c :
  caller_of pc = Some (i, c) →
  pins_of pc = match c with InRead _ => Some i | _ => None end ∧
  holds pc = match c with InRead k => Some (i, k) | _ => None end ∧
  victim_of pc = match c with InFlush _ _ => Some i | _ => None end.
Proof. by destruct pc; try done; intros [= -> ->]; destruct c. Qed.

Lemma victim_spec w k s :
  ∃ pc, try_acquire_victim w k s = (Ok pc, s) ∧ finds pc = None ∧ pins_of pc = None ∧
    holds pc = None ∧ (∀ j, victim_of pc = Some j → j ∈ buffers (manager s)).
Proof.
  unfold try_acquire_victim. erewrite bind_Ok by done.
  destruct (find_reclaim_candidate s) as [i|] eqn:Hi; eexists; split_and!; try done.
  intros j [= <-]. by destruct (scan_elem _ _ _ _ Hi).
Qed.

(** [acquired] for a slot that has the key. *)
Lemma acquired_spec w k i s :
  (∃ s1, acquired w k i s = (Ok Outside, s1) ∧ s1 = with_handles ((i, k) :: handles s) s ∧
     (w = Read → up_to_date (slot_meta s i) = true)) ∨
  (∃ pc, w = Read ∧ acquired w k i s = (Ok pc, s) ∧ up_to_date (slot_meta s i) = false ∧
     holds pc = Some (i, k) ∧ pins_of pc = Some i ∧ finds pc = None ∧ victim_of pc = None).
Proof.
  destruct w; simpl; [left; by eexists|]. erewrite bind_Ok by done. unfold slot_meta.
  destruct (up_to_date _); [left; by eexists|]. right.
  destruct (submit_spec Block.Read i (InRead k) s) as (pc & -> & Hc & Hf & _).
  destruct (caller_fields _ _ _ Hc) as (? & ? & ?). exists pc. by split_and!.
Qed.

Lemma rebind_or_retry_spec w k i s pc s' :
  rebind_or_retry w k i s = (Ok pc, s') →
  (pc = Acquire w k ∧ s' = s) ∨
  (buffer_index (manager s) !! k = None ∧ acquired w k i (rebind k i s) = (Ok pc, s')).
Proof.
  unfold rebind_or_retry, try_rebind_buffer. rewrite bind_bind. erewrite bind_Ok by done.
  case_bool_decide as H; [intros [= <- <-]; by left|].
  intros Hr. right. split; [by apply eq_None_not_Some|done].
Qed.

Lemma with_slot_lookup i f s j :
  slots (with_slot i f s) j = if decide (j = i) then f (slots s i) else slots s j.
Proof.
  simpl. case_decide as E; [subst; by rewrite fn_lookup_insert|by rewrite fn_lookup_insert_ne].
Qed.

Lemma clear_key_slots k o s j :
  slots (clear_key k o s) j =
    if decide (o = Some j ∧ slot_key s j = Some k) then on_meta (set_key None) (slots s j)
    else slots s j.
Proof.
  unfold clear_key, key_matches, slot_key.
  destruct o as [i|]; [|rewrite decide_False; [done|naive_solver]].
  case_bool_decide as H; [rewrite with_slot_lookup|].
  - destruct (decide (j = i)) as [->|]; [by rewrite decide_True|].
    rewrite decide_False; [done|naive_solver].
  - rewrite decide_False; [done|]. intros [[= ->] ?]. done.
Qed.

Lemma clear_key_rest k o s :
  manager (clear_key k o s) = manager s ∧ requests (clear_key k o s) = requests s ∧
  disk (clear_key k o s) = disk s ∧ threads (clear_key k o s) = threads s ∧
  cur (clear_key k o s) = cur s ∧ handles (clear_key k o s) = handles s.
Proof. unfold clear_key. destruct o; [destruct (key_matches _ _)|]; by split_and!. Qed.

Definition bound (k : BufferKey) (x : BufferSlot) : BufferSlot :=
  mkSlot (data x) (io_locked x) (mkMeta (Some k) 1 false false).

(** Rebinding moves the index entry, the key and the place in the list. *)
Lemma rebind_spec k i s :
  buffer_index (manager s) !! k = None →
  (∀ old, slot_key s i = Some old → buffer_index (manager s) !! old = Some i) →
  (∀ j, slots (rebind k i s) j = if decide (j = i) then bound k (slots s i) else slots s j) ∧
  manager (rebind k i s) = mkManager (move_to_back i (buffers (manager s)))
    (<[k := i]> match slot_key s i with
                | Some old => delete old (buffer_index (manager s))
                | None => buffer_index (manager s) end) ∧
  requests (rebind k i s) = requests s ∧ disk (rebind k i s) = disk s ∧
  threads (rebind k i s) = threads s ∧ cur (rebind k i s) = cur s ∧
  handles (rebind k i s) = handles s.
Proof.
  intros Hk Hold. unfold rebind, index_insert.
  set (s1 := match slot_key s i with Some old => index_remove old s | None => s end).
  assert (buffer_index (manager s1) = match slot_key s i with
    | Some old => delete old (buffer_index (manager s)) | None => buffer_index (manager s) end ∧
    buffers (manager s1) = buffers (manager s) ∧ requests s1 = requests s ∧ disk s1 = disk s ∧
    threads s1 = threads s ∧ cur s1 = cur s ∧ handles s1 = handles s ∧
    (∀ j, j ≠ i → slots s1 j = slots s j) ∧ data (slots s1 i) = data (slots s i) ∧
    io_locked (slots s1 i) = io_locked (slots s i)) as (Hi & Hb & ? & ? & ? & ? & ? & Hs & Hd & Hl).
  { subst s1. destruct (slot_key s i) as [old|] eqn:Ho; [|by split_and!].
    unfold index_remove. rewrite (Hold old eq_refl).
    match goal with |- context [clear_key ?k ?o ?s] =>
      destruct (clear_key_rest k o s) as (-> & -> & -> & -> & -> & ->);
      pose proof (clear_key_slots k o s) as Hc end.
    split_and!; try done.
    - intros j Hj. rewrite Hc, decide_False; [done|]. naive_solver.
    - rewrite Hc. by case_decide.
    - rewrite Hc. by case_decide. }
  assert (buffer_index (manager (with_slot i (on_meta reset_after_rebind) s1)) !! k = None) as Hn.
  { simpl. rewrite Hi. destruct (slot_key s i); [by rewrite lookup_delete_None; right|done]. }
  rewrite Hn. cbn [clear_key]. split_and!; simpl; try done; [|by rewrite Hi, Hb].
  intros j. case_decide as E; [subst|].
  - rewrite !fn_lookup_insert. unfold bound, on_meta, set_key, reset_after_rebind. simpl.
    by rewrite Hd, Hl.
  - rewrite !fn_lookup_insert_ne by done. by apply Hs.
Qed.

Lemma rebind_invalid k i s : up_to_date (slot_meta (rebind k i s) i) = false.
Proof.
  unfold slot_meta, rebind, index_insert. simpl. rewrite clear_key_slots. case_decide; simpl;
    by rewrite !fn_lookup_insert.
Qed.

(** A rebinding, with what the caller of [acquire_slot] does next. *)
Lemma rebinding_moves s pc w k i pc' s' :
  finds pc = None → pins_of pc = None → victim_of pc = Some i → asks pc = Some k →
  io_locked (slots s i) = false →
  (pc = IoWait i (InFlush w k) ∨
   ref_count (slot_meta s i) = 0 ∧ dirty (slot_meta s i) = false) →
  holds pc = None → want pc = Some w →
  rebind_or_retry w k i s = (Ok pc', s') → moves s pc pc' s'.
Proof.
  intros Hf Hp Hv Ha Hl Hw Hh Hwant Hr. apply rebind_or_retry_spec in Hr as [[-> ->]|[Hk Hr]].
  { apply mv_none; naive_solver. }
  apply (mv_rebind _ _ _ k i); try done; [naive_solver|].
  destruct (acquired_spec w k i (rebind k i s)) as [(s1 & Hq & -> & Hu)|(pc1 & _ & Hq & _ & Hh' & Hp' & Hf' & Hv')];
    rewrite Hq in Hr; injection Hr as <- <-; [left|right]; [|by split_and!].
  split; [done|]. split.
  { destruct w; [done|]. specialize (Hu eq_refl). by rewrite rebind_invalid in Hu. }
  f_equal. f_equal. unfold rebind. simpl.
  unfold index_insert. simpl.
  match goal with |- context [clear_key ?k ?o ?s] =>
    destruct (clear_key_rest k o s) as (_ & _ & _ & _ & _ & ->) end. simpl.
  destruct (slot_key s i); [|done]. unfold index_remove.
  match goal with |- context [clear_key ?k ?o ?s] =>
    by destruct (clear_key_rest k o s) as (_ & _ & _ & _ & _ & ->) end.
Qed.

Lemma when_unlocked_inv i m s pc' s' :
  when_unlocked i m s = (Ok (Some pc'), s') → io_locked (slots s i) = false ∧ m s = (Ok pc', s').
Proof.
  unfold when_unlocked. erewrite bind_Ok by done. destruct (io_locked (slots s i)); [done|].
  intros (pc & s1 & Hm & [= <- <-])%bind_Ok_inv. by split.
Qed.

Lemma dec_ref_inv i s a s' :
  dec_ref i s = (Ok a, s') → ref_count (slot_meta s i) ≠ 0 ∧
  s' = with_slot i (on_meta (λ m, set_ref_count (ref_count m - 1) m)) s.
Proof.
  unfold dec_ref, slot_meta. erewrite bind_Ok by done. unfold massert.
  destruct (Z.eqb_spec (ref_count (meta (slots s i))) 0); [done|].
  cbn [negb]. erewrite bind_Ok by done. intros [= <- <-]. by split.
Qed.

Lemma submit_moves s pc t i c pc' s' :
  finds pc = None → pins_of pc = match c with InRead _ => Some i | _ => None end →
  (match c with InFlush _ _ => victim_of pc = Some i | _ => True end) →
  (∀ k, c = InRead k → holds pc = Some (i, k) ∨ slot_key s i = Some k) →
  submit t i c s = (Ok pc', s') → moves s pc pc' s'.
Proof.
  intros Hf Hp Hv Hk Hs. destruct (submit_spec t i c s) as (pc1 & Hs1 & Hc & Hf1 & _).
  rewrite Hs1 in Hs. injection Hs as <- <-. destruct (caller_fields _ _ _ Hc) as (Hp1 & Hh1 & Hv1).
  apply mv_none; [done|done|congruence| |].
  - intros j. rewrite Hv1. destruct c; naive_solver.
  - intros j k. rewrite Hh1. destruct c; naive_solver.
Qed.

Lemma acquired_moves s pc w k i pc' s' :
  finds pc = None → pins_of pc = Some i → asks pc = Some k → slot_key s i = Some k → want pc = Some w →
  acquired w k i s = (Ok pc', s') → moves s pc pc' s'.
Proof.
  intros Hf Hp Hq Hk Hw Ha.
  destruct (acquired_spec w k i s) as [(s1 & Ha1 & -> & Hu)|(pc1 & -> & Ha1 & Hu & Hh & Hp1 & Hf1 & Hv1)];
    rewrite Ha1 in Ha; injection Ha as <- <-.
  - apply mv_give; auto. rewrite Hw. intros [= ->]. by apply Hu.
  - apply mv_none; [done|done|congruence|by rewrite Hv1|]. intros j k'. rewrite Hh. naive_solver.
Qed.

Lemma resume_moves pc s pc' s' : resume pc s = (Ok (Some pc'), s') → moves s pc pc' s'.
Proof.
  destruct pc as [|w k|w k i|w k|w k i|t i k c|t i k c|i c|i]; simpl; [done| | | | | | | |].
  - unfold pin_buffer. rewrite bind_bind. erewrite bind_Ok by done.
    destruct (buffer_index (manager s) !! k) as [i|] eqn:Hi.
    + intros [= <- <-]. by apply mv_pin.
    + erewrite bind_Ok by done. destruct (victim_spec w k s) as (pc & Hv & ? & ? & Hh & ?).
      erewrite bind_Ok by done. intros [= <- <-]. apply mv_none; try done; [auto|]. by rewrite Hh.
  - intros [Hl H]%when_unlocked_inv. erewrite bind_Ok in H by done. unfold key_matches in H.
    case_bool_decide as Hk.
    + by eapply acquired_moves; [..|apply H].
    + apply bind_Ok_inv in H as (a & s1 & [Hr ->]%dec_ref_inv & H).
      match type of H with try_acquire_victim _ _ ?s1 = _ =>
        destruct (victim_spec w k s1) as (pc & Hv & ? & ? & ? & ?) end.
      rewrite Hv in H. injection H as <- <-. by apply mv_unpin.
  - intros [= <- <-]. apply mv_none; naive_solver.
  - intros [Hl H]%when_unlocked_inv. erewrite bind_Ok in H by done.
    destruct (Z.eqb_spec (ref_count (meta (slots s i))) 0) as [Hr|Hr]; cbn [negb] in H.
    2:{ injection H as <- <-. apply mv_none; naive_solver. }
    destruct (dirty (meta (slots s i))) eqn:Hd.
    + by eapply submit_moves; [..|apply H].
    + eapply rebinding_moves; [..|apply H]; try done. by right.
  - intros [Hl H]%when_unlocked_inv. unfold lock_held in H. erewrite bind_Ok in H by done.
    cbv zeta in H. case_bool_decide as Ht; [|case_bool_decide as Ht']; simpl in H.
    + destruct (up_to_date _) eqn:Hu; cbn [orb] in H.
      * injection H as <- <-. apply mv_none; try done; destruct c; naive_solver.
      * rewrite (bool_decide_eq_false_2 (t = Block.Write)) in H by (by rewrite Ht).
        injection H as <- <-. apply mv_lock; naive_solver.
    + destruct (dirty _) eqn:Hu; cbn [negb] in H.
      * injection H as <- <-. apply mv_lock; naive_solver.
      * injection H as <- <-. apply mv_none; try done; destruct c; naive_solver.
    + by destruct t.
  - intros [= <- <-]. by apply mv_queue.
  - intros [Hl H]%when_unlocked_inv. destruct c as [w k|k|rest]; simpl in H.
    + eapply rebinding_moves; [..|apply H]; try done. by left.
    + erewrite bind_Ok in H by done. destruct (up_to_date _) eqn:Hu; [|injection H as <- <-].
      * injection H as <- <-. apply mv_give; try done; by left.
      * apply mv_none; naive_solver.
    + destruct rest as [|j rest]; simpl in H; [injection H as <- <-; apply mv_none; naive_solver|].
      by eapply submit_moves; [..|apply H].
  - intros [Hl H]%when_unlocked_inv. apply bind_Ok_inv in H as (a & s1 & [Hr ->]%dec_ref_inv & H).
    injection H as <- <-. by apply mv_unpin.
Qed.

(** ** What one action does *)

Inductive change (s : St) : Action → St → Prop :=
| ch_cur a c : (∀ n x, a ≠ Use n x) → change s a (with_cur c s)
| ch_move a t pc pc' s1 c :
    (∀ n x, a ≠ Use n x) → current s = Some (t, pc) → (a = Run ∨ pc = Outside) → moves s pc pc' s1 →
    change s a (with_cur c (with_pc t pc' s1))
| ch_drop t n i k :
    threads s !! t = Some Outside → handles s !! n = Some (i, k) →
    change s (Drop n) (with_pc t (ReleaseWait i) (with_handles (delete n (handles s)) s))
| ch_use n i k x s' :
    handles s !! n = Some (i, k) → access i x s = (Ok (), s') → change s (Use n x) s'
| ch_transfer i r :
    requests s !! i = Some r → (done r < 2)%nat → change s (Transfer i) (transfer i r s)
| ch_complete i b r :
    requests s !! i = Some r → (b = true → 2 ≤ done r)%nat → io_locked (slots s i) = true →
    change s (Complete i b) (complete i b s).

Lemma with_cur_id s : with_cur (cur s) s = s.
Proof. by destruct s. Qed.

Lemma with_pc_id s t pc : threads s !! t = Some pc → with_pc t pc s = s.
Proof. intros H. destruct s; simpl in *. unfold with_pc. simpl. by rewrite list_insert_id. Qed.

Lemma current_Some s t pc : current s = Some (t, pc) ↔ cur s = Some t ∧ threads s !! t = Some pc.
Proof.
  unfold current. destruct (cur s) as [t'|]; simpl; [|naive_solver].
  destruct (threads s !! t') eqn:E; simpl; naive_solver.
Qed.

(** Only [dec_ref] can fail. *)
Definition total {A} (m : M St A) : Prop := ∀ s, ∃ a s', m s = (Ok a, s').

Lemma total_bind {A B} (m : M St A) (f : A → M St B) : total m → (∀ a, total (f a)) → total (bind m f).
Proof. intros Hm Hf s. destruct (Hm s) as (a & s1 & E). rewrite (bind_Ok _ _ _ _ _ E). apply Hf. Qed.

Lemma total_mok {A} (a : A) : total (mok a).
Proof. intros s. by exists a, s. Qed.

Lemma total_mget : total mget.
Proof. intros s. by exists s, s. Qed.

Lemma total_mmodify f : total (mmodify f).
Proof. intros s. by exists (), (f s). Qed.

Create HintDb total discriminated.
#[local] Hint Resolve total_mok total_mget total_mmodify : total.

Ltac total :=
  repeat first [ by eauto 3 with total | apply total_bind; [|intros ?] | case_match ].

Lemma total_submit t i c : total (submit t i c).
Proof. unfold submit. total. Qed.

#[local] Hint Resolve total_submit : total.

Lemma total_acquired w k i : total (acquired w k i).
Proof. unfold acquired, give. total. Qed.

#[local] Hint Resolve total_acquired : total.

Lemma total_rebind w k i : total (rebind_or_retry w k i).
Proof. unfold rebind_or_retry, try_rebind_buffer. total. Qed.

#[local] Hint Resolve total_rebind : total.

Lemma total_victim w k : total (try_acquire_victim w k).
Proof. intros s. destruct (victim_spec w k s) as (pc & -> & _). by exists pc, s. Qed.

#[local] Hint Resolve total_victim : total.

Lemma total_lock t i k c : total (lock_held t i k c).
Proof. unfold lock_held. cbv zeta. total. Qed.

Lemma total_return c i : total (return_to c i).
Proof. unfold return_to, give, sync_next. total. Qed.

Lemma total_unlocked i m : total m → total (when_unlocked i m).
Proof. intros. unfold when_unlocked. total. Qed.

#[local] Hint Resolve total_lock total_return total_unlocked : total.

Definition fails {A} (r : result A) : Prop := ∀ a, r ≠ Ok a.

Lemma total_fails {A} (m : M St A) s r s' : total m → m s = (r, s') → ¬ fails r.
Proof. intros Hm E Hr. destruct (Hm s) as (a & s1 & E'). rewrite E' in E. injection E as <- _. by apply (Hr a). Qed.

Lemma when_unlocked_fails i m s r s' :
  when_unlocked i m s = (r, s') → fails r → ∃ r1, m s = (r1, s') ∧ fails r1.
Proof.
  unfold when_unlocked. erewrite bind_Ok by done. destruct (io_locked _).
  { intros [= <- _] Hr. by destruct (Hr None). }
  unfold bind. destruct (m s) as [[pc|e|] s1]; intros [= <- <-] Hr; [by destruct (Hr (Some pc))| |];
    by eexists.
Qed.

Lemma dec_ref_fails {A} i (m : M St A) s r s' :
  total m → (dec_ref i ;;; m) s = (r, s') → fails r → ref_count (slot_meta s i) = 0.
Proof.
  intros Hm. unfold dec_ref, slot_meta. rewrite bind_bind. erewrite bind_Ok by done.
  destruct (Z.eqb_spec (ref_count (meta (slots s i))) 0) as [|]; [done|]. cbn [negb massert].
  rewrite bind_bind. erewrite bind_Ok by done. erewrite bind_Ok by done.
  intros E Hr. by destruct (total_fails _ _ _ _ Hm E).
Qed.

Lemma resume_fails pc s r s' :
  resume pc s = (r, s') → fails r →
  ∃ i, pins_of pc = Some i ∧ ref_count (slot_meta s i) = 0.
Proof.
  intros E Hr.
  destruct pc as [|w k|w k i|w k|w k i|t i k c|t i k c|i c|i]; simpl in E;
    try (exfalso; revert Hr; eapply total_fails, E; total; fail).
  - apply when_unlocked_fails in E as (r1 & E & Hr1); [|done]. exists i. split; [done|].
    erewrite bind_Ok in E by done. destruct (key_matches _ _).
    + exfalso. revert Hr1. by eapply total_fails, E; total.
    + by eapply dec_ref_fails, Hr1; [|apply E]; total.
  - apply when_unlocked_fails in E as (r1 & E & Hr1); [|done]. exists i. split; [done|].
    eapply dec_ref_fails, Hr1; [|apply E]; total.
Qed.

Lemma step_result_cases t r s b s' :
  step_result t (r, s) = (b, s') →
  (b = true ∧ fails r) ∨
  (b = false ∧ ((r = Ok None ∧ s' = with_cur None s) ∨
                ∃ pc c, r = Ok (Some pc) ∧ s' = with_cur c (with_pc t pc s))).
Proof.
  unfold step_result. destruct r as [[pc|]|e|]; try (intros [= <- <-]; left; by split).
  - assert (∀ c, ∃ c0, with_cur c0 (with_pc t pc s) = with_cur c (with_pc t pc s)) as Hc by eauto.
    intros H. right. destruct pc; injection H as <- <-; (split; [done|]); right;
      eexists _, _; (split; [done|]);
      try (symmetry; apply (with_cur_id (with_pc t _ s))); done.
  - intros [= <- <-]. right. split; [done|]. by left.
Qed.

Lemma sync_next_moves s pc' s' l : sync_next l s = (Ok pc', s') → moves s Outside pc' s'.
Proof.
  destruct l as [|i l]; simpl; [intros [= <- <-]; by apply mv_none|].
  intros H. by eapply submit_moves; [..|apply H].
Qed.

Lemma resume_sleeps pc s s' : resume pc s = (Ok None, s') → s' = s.
Proof.
  assert (∀ i m, when_unlocked i m s = (Ok None, s') → s' = s) as Hw.
  { intros i m. unfold when_unlocked. erewrite bind_Ok by done. destruct (io_locked _); [by intros [= <-]|].
    by intros (? & ? & _ & ?)%bind_Ok_inv. }
  destruct pc; simpl; try apply Hw; try done.
  - by intros [= <-].
  - intros ([i|] & s1 & _ & H)%bind_Ok_inv; [done|]. by apply bind_Ok_inv in H as (? & ? & _ & ?).
Qed.

Lemma access_no_err i x s e s' : access i x s ≠ (Err e, s').
Proof.
  destruct x; simpl; try done. unfold write_bytes, massert. case_bool_decide; [|done].
  erewrite bind_Ok by done. erewrite bind_Ok by done. by case_bool_decide.
Qed.

Lemma act_change a s s' : act a s = Some (false, s') → change s a s'.
Proof.
  assert (∀ A (o : option A) (f : A → option (bool * St)) r, o ≫= f = Some r → ∃ x, o = Some x ∧ f x = Some r)
    as Hb by (intros A [x|] f r; [by exists x|done]).
  destruct a as [t| | | |w k|p l|n|n x|i|i b]; simpl.
  - destruct (cur s), (threads s !! t); try done. intros [= <-]. by apply ch_cur.
  - intros ([t pc] & Hc & [= H])%Hb. destruct (resume pc s) as [r s1] eqn:Hr.
    apply step_result_cases in H as [[? _]|[_ [[-> ->]|(pc' & c & -> & ->)]]]; [done| |].
    + rewrite (resume_sleeps _ _ _ Hr). by apply ch_cur.
    + eapply ch_move; [done|done|by left|by apply resume_moves].
  - intros ([t pc] & Hc & H)%Hb. destruct pc; try done. injection H as <-. by apply ch_cur.
  - intros ([t pc] & Hc & H)%Hb. destruct pc; try done. injection H as <-. by apply ch_cur.
  - intros ([t pc] & Hc & H)%Hb. destruct pc; try done. injection H as <-.
    rewrite <- (with_cur_id (with_pc t _ s)). eapply ch_move; [done|done|by right|by apply mv_none].
  - intros ([t pc] & Hc & H)%Hb. destruct pc; try done. case_bool_decide; [|done]. injection H as H.
    destruct (sync_next l s) as [r s1] eqn:Hs. unfold bind in H. rewrite Hs in H.
    destruct r as [pc'|e|]; [|done..].
    apply step_result_cases in H as [[? _]|[_ [[? _]|(pc1 & c & [= ->] & ->)]]]; [done|done|].
    eapply ch_move; [done|done|by right|]. by eapply sync_next_moves.
  - intros ([t pc] & Hc & H)%Hb. destruct pc; try done.
    destruct (handles s !! n) as [[i k]|] eqn:Hn; [|done]. injection H as <-.
    apply current_Some in Hc as [_ ?]. by eapply ch_drop.
  - intros ([t pc] & Hc & H)%Hb. destruct pc; try done.
    destruct (handles s !! n) as [[i k]|] eqn:Hn; [|done]. destruct (access i x s) as [r s1] eqn:Ha.
    destruct r as [[]|e|]; [|by destruct (access_no_err _ _ _ _ _ Ha)|done].
    injection H as <-. by eapply ch_use.
  - intros (r & Hr & H)%Hb. case_bool_decide; [|done]. injection H as <-. by apply ch_transfer.
  - intros (r & Hr & H)%Hb. destruct (b && _) eqn:Hd; [done|]. injection H as Hl <-.
    eapply ch_complete; [done| |by destruct (io_locked _)]. intros ->.
    simpl in Hd. apply bool_decide_eq_false in Hd. lia.
Qed.

(** ** The index *)

Definition finding (s : St) (t i : nat) : Prop := ∃ pc, threads s !! t = Some pc ∧ finds pc = Some i.

(** [n] is the number of slots. *)
Record inv (n : nat) (s : St) : Prop := {
  i_index : ∀ k i, buffer_index (manager s) !! k = Some i ↔ slot_key s i = Some k;
  i_list : buffers (manager s) ≡ₚ seq 0 n;
  i_find : ∀ t i, finding s t i → io_locked (slots s i) = true ∧ requests s !! i = None;
  i_once : ∀ t t' i, finding s t i → finding s t' i → t = t';
  i_request : ∀ i, is_Some (requests s !! i) → io_locked (slots s i) = true;
  i_locked : ∀ i, io_locked (slots s i) = true → (∃ t, finding s t i) ∨ is_Some (requests s !! i);
  i_victim : ∀ t pc i, threads s !! t = Some pc → victim_of pc = Some i → i ∈ buffers (manager s);
}.

(** A change that leaves the index, the keys and the locks alone. *)
Lemma inv_same n s s' :
  inv n s → manager s' = manager s → (∀ i, slot_key s' i = slot_key s i) →
  (∀ i, io_locked (slots s' i) = io_locked (slots s i)) →
  (∀ i, is_Some (requests s' !! i) ↔ is_Some (requests s !! i)) →
  (∀ t i, finding s' t i ↔ finding s t i) →
  (∀ t pc i, threads s' !! t = Some pc → victim_of pc = Some i → i ∈ buffers (manager s)) →
  inv n s'.
Proof.
  intros [Hi Hl Hf Ho Hr Hk Hv] Hm Hkey Hlock Hreq Hfind Hvic. split; try rewrite Hm; try done.
  - intros k i. by rewrite Hkey.
  - intros t i [? Hnone]%Hfind%Hf. rewrite Hlock. split; [done|].
    apply eq_None_not_Some. rewrite Hreq. by apply eq_None_not_Some.
  - intros t t' i ?%Hfind ?%Hfind. by eapply Ho.
  - intros i ?%Hreq. rewrite Hlock. auto.
  - intros i. rewrite Hlock, Hreq. intros [[t ?]|?]%Hk; [left; exists t; by apply Hfind|by right].
Qed.

Lemma finding_pc s t pc pc' i t' :
  threads s !! t = Some pc →
  (∃ pc1, <[t := pc']> (threads s) !! t' = Some pc1 ∧ finds pc1 = Some i) ↔
  if decide (t' = t) then finds pc' = Some i else finding s t' i.
Proof.
  intros Ht. case_decide as E; [subst|].
  - rewrite list_lookup_insert_eq by (by eapply lookup_lt_Some). naive_solver.
  - by rewrite list_lookup_insert_ne.
Qed.

(** Threads that differ in [t] only, who holds no lock before or after. *)
Lemma finding_quiet s s' t pc pc' t' i :
  threads s !! t = Some pc → threads s' = <[t := pc']> (threads s) →
  finds pc = None → finds pc' = None → finding s' t' i ↔ finding s t' i.
Proof.
  intros Ht Hs Hf Hf'. unfold finding. rewrite Hs. destruct (decide (t' = t)) as [->|].
  - rewrite list_lookup_insert_eq by (by eapply lookup_lt_Some). naive_solver.
  - by rewrite list_lookup_insert_ne.
Qed.

Lemma inv_quiet n s s1 t pc pc' c :
  inv n s → threads s !! t = Some pc → finds pc = None → finds pc' = None →
  (∀ i, victim_of pc' = Some i → victim_of pc = Some i ∨ i ∈ buffers (manager s)) →
  manager s1 = manager s → threads s1 = threads s → (∀ i, slot_key s1 i = slot_key s i) →
  (∀ i, io_locked (slots s1 i) = io_locked (slots s i)) →
  (∀ i, is_Some (requests s1 !! i) ↔ is_Some (requests s !! i)) →
  inv n (with_cur c (with_pc t pc' s1)).
Proof.
  intros Hinv Ht Hf Hf' Hv Hm Hts Hk Hl Hr. eapply inv_same; try done.
  - intros t' i. eapply finding_quiet; [done| |done..]. simpl. by rewrite Hts.
  - intros t' pc1 i. simpl. rewrite Hts. intros [(-> & -> & _)|[_ H]]%list_lookup_insert_Some Hi.
    + destruct (Hv i Hi) as [?|?]; [|done]. by eapply (i_victim _ _ Hinv).
    + by eapply (i_victim _ _ Hinv).
Qed.

Lemma move_to_back_perm i l : NoDup l → i ∈ l → move_to_back i l ≡ₚ l.
Proof.
  intros Hn Hi. unfold move_to_back. destruct (list_elem_of_split _ _ Hi) as (l1 & l2 & ->).
  apply NoDup_app in Hn as (_ & Hd & [Hni _]%NoDup_cons).
  assert (∀ l0 : list nat, i ∉ l0 → filter (λ j, j ≠ i) l0 = l0) as Hf.
  { intros l0 H0. induction l0 as [|x l0 IH]; [done|]. apply not_elem_of_cons in H0 as [? ?].
    rewrite filter_cons_True by done. f_equal. by apply IH. }
  rewrite filter_app, filter_cons_False by naive_solver. rewrite !Hf; [by solve_Permutation|done|].
  intros H1. apply (Hd i); [done|left].
Qed.

Lemma slot_key_bound k i s s' :
  (∀ j, slots s' j = if decide (j = i) then bound k (slots s i) else slots s j) →
  ∀ j, slot_key s' j = if decide (j = i) then Some k else slot_key s j.
Proof. intros Hs j. unfold slot_key. rewrite Hs. by case_decide. Qed.

(** Rebinding in the index. *)
Lemma rebind_inv n s k i :
  inv n s → buffer_index (manager s) !! k = None → i ∈ buffers (manager s) → inv n (rebind k i s).
Proof.
  intros Hinv Hk Hi. destruct (rebind_spec k i s Hk) as (Hs & Hm & Hr & _ & Ht & _ & _).
  { intros old Ho. by apply (i_index _ _ Hinv). }
  pose proof (slot_key_bound _ _ _ _ Hs) as Hkey.
  assert (∀ j, io_locked (slots (rebind k i s) j) = io_locked (slots s j)) as Hl.
  { intros j. rewrite Hs. case_decide; by subst. }
  assert (∀ t j, finding (rebind k i s) t j ↔ finding s t j) as Hfi by (unfold finding; by rewrite Ht).
  assert (buffers (manager (rebind k i s)) ≡ₚ buffers (manager s)) as Hb.
  { rewrite Hm. apply move_to_back_perm; [|done]. rewrite (i_list _ _ Hinv). apply NoDup_seq. }
  destruct Hinv as [Hidx Hlist Hf Ho Hreq Hlk Hv]. split.
  - intros k' j. rewrite Hkey, Hm. simpl. destruct (decide (k' = k)) as [->|Hne].
    + rewrite lookup_insert_eq. case_decide as E; [naive_solver|].
      split; [naive_solver|]. rewrite <- Hidx. congruence.
    + rewrite lookup_insert_ne by done. case_decide as E; [subst|].
      * split; [|naive_solver]. destruct (slot_key s i) as [old|] eqn:Hold.
        -- rewrite lookup_delete_Some. intros [Hne' H%Hidx]. congruence.
        -- rewrite Hidx. congruence.
      * rewrite <- Hidx. destruct (slot_key s i) as [old|] eqn:Hold; [|done].
        rewrite lookup_delete_Some. split; [naive_solver|]. intros H. split; [|done].
        intros ->. apply Hidx in Hold. congruence.
  - by rewrite Hb.
  - intros t j Hf1. rewrite Hl, Hr. by apply (Hf t), Hfi.
  - intros t t' j ?%Hfi ?%Hfi. by eapply Ho.
  - intros j. rewrite Hl, Hr. apply Hreq.
  - intros j. rewrite Hl, Hr. intros [[t ?]|?]%Hlk; [left; exists t; by apply Hfi|by right].
  - intros t pc j. rewrite Ht, Hb. apply Hv.
Qed.

Lemma with_slot_key i f s j :
  (∀ x, key (meta (f x)) = key (meta x)) → slot_key (with_slot i f s) j = slot_key s j.
Proof. intros Hf. unfold slot_key. rewrite with_slot_lookup. case_decide; [subst; apply Hf|done]. Qed.

Lemma with_slot_locked i f s j :
  (∀ x, io_locked (f x) = io_locked x) → io_locked (slots (with_slot i f s) j) = io_locked (slots s j).
Proof. intros Hf. rewrite with_slot_lookup. case_decide; [subst; apply Hf|done]. Qed.

(** Taking the lock. *)
Lemma lock_inv n s t i pc pc' c :
  inv n s → threads s !! t = Some pc → finds pc = None → finds pc' = Some i →
  victim_of pc' = victim_of pc → io_locked (slots s i) = false →
  inv n (with_cur c (with_pc t pc' (with_slot i (set_locked true) s))).
Proof.
  intros Hinv Ht Hf Hf' Hv Hl. pose proof Hinv as [Hidx Hlist Hfi Ho Hreq Hlk Hvi].
  set (s' := with_cur _ _).
  assert (∀ t' j, finding s' t' j ↔ if decide (t' = t) then j = i else finding s t' j) as Hfind.
  { intros t' j. unfold finding at 1. simpl. rewrite (finding_pc s t pc pc') by done.
    case_decide; [naive_solver|done]. }
  assert (∀ j, io_locked (slots s' j) = if decide (j = i) then true else io_locked (slots s j)) as Hlock.
  { intros j. change (slots s') with (slots (with_slot i (set_locked true) s)).
    rewrite with_slot_lookup. by case_decide. }
  assert (∀ t', ¬ finding s t' i) as Hno.
  { intros t' [? _]%Hfi. congruence. }
  split; try done.
  - intros k j. change (slot_key s' j) with (slot_key (with_slot i (set_locked true) s) j).
    rewrite with_slot_key by done. apply Hidx.
  - intros t' j. rewrite Hfind, Hlock. case_decide as E.
    + intros ->. rewrite decide_True by done. split; [done|]. simpl.
      apply eq_None_not_Some. intros ?%Hreq. congruence.
    + intros H. destruct (decide (j = i)); [subst; by destruct (Hno t')|]. by apply (Hfi t').
  - intros t1 t2 j. rewrite !Hfind. do 2 case_decide; subst; try done; [naive_solver..|]. by apply Ho.
  - intros j Hj. rewrite Hlock. case_decide; [done|]. by apply Hreq.
  - intros j. rewrite Hlock. case_decide as E; [subst|].
    + intros _. left. exists t. rewrite Hfind. by rewrite decide_True.
    + intros [[t' H]|?]%Hlk; [left|by right]. exists t'. rewrite Hfind. case_decide; [|done].
      subst. destruct H as (pc0 & ? & ?). congruence.
  - intros t' pc1 j. simpl. intros [(-> & -> & _)|[_ H]]%list_lookup_insert_Some Hj; [|by eapply Hvi].
    rewrite Hv in Hj. by eapply Hvi.
Qed.

(** The lock goes from the task to the request. *)
Lemma queue_inv n s t i pc pc' c r f :
  inv n s → threads s !! t = Some pc → finds pc = Some i → finds pc' = None →
  victim_of pc' = victim_of pc →
  (∀ x, key (meta (f x)) = key (meta x)) → (∀ x, io_locked (f x) = io_locked x) →
  inv n (with_cur c (with_pc t pc' (with_requests (<[i := r]> (requests s)) (with_slot i f s)))).
Proof.
  intros Hinv Ht Hf Hf' Hv Hfk Hfl. pose proof Hinv as [Hidx Hlist Hfi Ho Hreq Hlk Hvi].
  set (s' := with_cur _ _).
  assert (finding s t i) as Hti by (by exists pc). destruct (Hfi t i Hti) as [Hl _].
  assert (∀ t' j, finding s' t' j ↔ t' ≠ t ∧ finding s t' j) as Hfind.
  { intros t' j. unfold finding at 1. simpl. rewrite (finding_pc s t pc pc') by done.
    case_decide; naive_solver. }
  assert (∀ j, io_locked (slots s' j) = io_locked (slots s j)) as Hlock.
  { intros j. change (slots s') with (slots (with_slot i f s)). by apply with_slot_locked. }
  split; try done.
  - intros k j. change (slot_key s' j) with (slot_key (with_slot i f s) j).
    rewrite with_slot_key by done. apply Hidx.
  - intros t' j. rewrite Hfind, Hlock. intros [Hne H]. destruct (Hfi t' j H) as [? Hn].
    split; [done|]. simpl. rewrite lookup_insert_ne; [done|]. intros ->. by apply Hne, (Ho _ _ j).
  - intros t1 t2 j. rewrite !Hfind. intros [_ ?] [_ ?]. by eapply Ho.
  - intros j. rewrite Hlock. simpl. destruct (decide (i = j)) as [<-|]; [done|].
    rewrite lookup_insert_ne by done. apply Hreq.
  - intros j. rewrite Hlock. simpl. destruct (decide (i = j)) as [<-|].
    + rewrite lookup_insert_eq. by right.
    + rewrite lookup_insert_ne by done. intros [[t' H]|?]%Hlk; [left|by right]. exists t'.
      rewrite Hfind. split; [|done]. intros ->. destruct H as (? & ? & ?). congruence.
  - intros t' pc1 j. simpl. intros [(-> & -> & _)|[_ H]]%list_lookup_insert_Some Hj; [|by eapply Hvi].
    rewrite Hv in Hj. by eapply Hvi.
Qed.

(** The lock is given back at completion. *)
Lemma complete_inv n s i b :
  inv n s → is_Some (requests s !! i) → inv n (complete i b s).
Proof.
  intros Hinv Hr. pose proof Hinv as [Hidx Hlist Hfi Ho Hreq Hlk Hvi].
  assert (∀ j, io_locked (slots (complete i b s) j) = if decide (j = i) then false else io_locked (slots s j)) as Hlock.
  { intros j. change (slots (complete i b s)) with
      (slots (with_slot i (λ x, set_locked false (on_meta (set_up_to_date b) x)) s)).
    rewrite with_slot_lookup. by case_decide. }
  split; try done.
  - intros k j. unfold complete.
    change (slot_key _ j) with (slot_key (with_slot i (λ x, set_locked false (on_meta (set_up_to_date b) x)) s) j).
    rewrite with_slot_key by done. apply Hidx.
  - intros t j Hf. destruct (Hfi t j Hf) as [? Hn]. rewrite Hlock. simpl. rewrite lookup_delete_None.
    split; [|by right]. rewrite decide_False; [done|]. intros ->. destruct Hr as [? ?]. congruence.
  - intros j. rewrite Hlock. simpl. intros [r [? H]%lookup_delete_Some]. rewrite decide_False by done.
    apply Hreq. by eexists.
  - intros j. rewrite Hlock. case_decide; [done|]. simpl. rewrite lookup_delete_ne by done. apply Hlk.
Qed.

Lemma moves_inv n s t pc pc' s1 c :
  inv n s → threads s !! t = Some pc → moves s pc pc' s1 → inv n (with_cur c (with_pc t pc' s1)).
Proof.
  intros Hinv Ht Hm.
  destruct Hm as [pc pc' Hf Hf' Hp Hv Hh|w k i Hi|pc pc' i Hf Hp Hr Hf' Hp' Hh Hv|pc k i Hf Hp Hq Hk Hr
    |pc pc' k i s' Hf Hp Hv Hq Hl Hk Hc Hs'|t' i k c' Hl Hr Hw|t' i k c'].
  - by eapply inv_quiet.
  - eapply inv_quiet; try done; intros; [by apply with_slot_key|by apply with_slot_locked].
  - eapply inv_quiet; try done; intros; [naive_solver|by apply with_slot_key|by apply with_slot_locked].
  - by eapply inv_quiet.
  - assert (i ∈ buffers (manager s)) as Hi by (by eapply (i_victim _ _ Hinv)).
    pose proof (rebind_inv _ _ _ _ Hinv Hk Hi) as Hinv'.
    destruct (rebind_spec k i s Hk) as (_ & _ & _ & _ & Hts & _).
    { intros old Ho. by apply (i_index _ _ Hinv). }
    destruct Hs' as [(-> & _ & ->)|(? & ? & ? & Hv' & ->)];
      (eapply inv_quiet; [exact Hinv'|by rewrite Hts|try done..]).
    intros j. by rewrite Hv'.
  - by eapply lock_inv.
  - by eapply queue_inv.
Qed.

(** The contents a client leaves, and whether it wrote the whole block. *)
Definition accessed (x : Access) (b : list Z) : list Z :=
  match x with
  | Modify f => f b
  | WriteBytes off src => splice b (Z.of_nat off) src
  | FillZero => Layout.zero_block
  end.

Definition whole (x : Access) : bool :=
  match x with
  | Modify _ => false
  | WriteBytes off src => bool_decide (off = 0%nat ∧ length src = Z.to_nat Layout.BLOCK_SIZE)
  | FillZero => true
  end.

Definition accessed_slot (x : Access) (y : BufferSlot) : BufferSlot :=
  mkSlot (accessed x (data y)) (io_locked y)
    (mkMeta (key (meta y)) (ref_count (meta y)) true (whole x || up_to_date (meta y))).

Lemma access_spec i x s s' :
  access i x s = (Ok (), s') →
  (∀ j, slots s' j = if decide (j = i) then accessed_slot x (slots s i) else slots s j) ∧
  manager s' = manager s ∧ requests s' = requests s ∧ disk s' = disk s ∧ threads s' = threads s ∧
  cur s' = cur s ∧ handles s' = handles s ∧
  (match x with WriteBytes off src => off + length src ≤ 1024 | _ => True end)%nat.
Proof.
  destruct x as [f|off src|]; simpl.
  - intros [= <-]. split_and!; try done. apply with_slot_lookup.
  - unfold write_bytes, massert. case_bool_decide as Hb; [|done].
    erewrite bind_Ok by done. erewrite bind_Ok by done. case_bool_decide as Hw.
    + intros [= <-]. split_and!; try done. intros j. unfold accessed_slot. simpl.
      case_decide; [subst; rewrite !fn_lookup_insert|by rewrite !fn_lookup_insert_ne].
      by rewrite bool_decide_eq_true_2.
    + intros [= <-]. split_and!; try done. intros j. unfold accessed_slot. simpl.
      case_decide; [subst; rewrite !fn_lookup_insert|by rewrite !fn_lookup_insert_ne].
      by rewrite bool_decide_eq_false_2.
  - intros [= <-]. split_and!; try done. apply with_slot_lookup.
Qed.

(** A change of one slot that keeps its key and its lock. *)
Lemma slot_inv n s s' i y :
  inv n s → (∀ j, slots s' j = if decide (j = i) then y else slots s j) →
  key (meta y) = slot_key s i → io_locked y = io_locked (slots s i) →
  manager s' = manager s → threads s' = threads s →
  (∀ j, is_Some (requests s' !! j) ↔ is_Some (requests s !! j)) → inv n s'.
Proof.
  intros Hinv Hs Hk Hl Hm Ht Hr. eapply inv_same; try done.
  - intros j. unfold slot_key. rewrite Hs. case_decide; by subst.
  - intros j. rewrite Hs. case_decide; by subst.
  - intros t j. unfold finding. by rewrite Ht.
  - rewrite Ht. apply Hinv.
Qed.

Definition transferred (r : Request) (s : St) (y : BufferSlot) : BufferSlot :=
  match ty r with
  | Block.Read => on_data (put_sector (done r) (disk s (block r))) y
  | Block.Write => y
  end.

Lemma transfer_slots i r s j :
  slots (transfer i r s) j = if decide (j = i) then transferred r s (slots s i) else slots s j.
Proof.
  unfold transfer, transferred. destruct (ty r); simpl; case_decide; subst; try done.
  - by rewrite fn_lookup_insert.
  - by rewrite fn_lookup_insert_ne.
Qed.

Lemma transfer_rest i r s :
  manager (transfer i r s) = manager s ∧ threads (transfer i r s) = threads s ∧
  requests (transfer i r s) = <[i := mkRequest (ty r) (block r) (S (done r))]> (requests s) ∧
  cur (transfer i r s) = cur s ∧ handles (transfer i r s) = handles s.
Proof. unfold transfer. by destruct (ty r). Qed.

Lemma change_inv n s a s' : inv n s → change s a s' → inv n s'.
Proof.
  intros Hinv Hch.
  destruct Hch as [a c _|a t pc pc' s1 c _ H _ Hm|t n' i k Ht _|n' i k x s' Hn Ha|i r Hr _|i b r Hr _ _].
  - eapply inv_same; try done. apply Hinv.
  - apply current_Some in H as [_ ?]. by eapply moves_inv.
  - rewrite <- (with_cur_id (with_pc _ _ _)). by eapply inv_quiet.
  - destruct (access_spec _ _ _ _ Ha) as (Hs & Hm & Hr & _ & Ht & _).
    eapply slot_inv; try done. intros j. by rewrite Hr.
  - destruct (transfer_rest i r s) as (Hm & Ht & Hr' & _).
    eapply slot_inv; [done|apply transfer_slots|..]; try done; unfold transferred; try by destruct (ty r).
    intros j. rewrite Hr'. destruct (decide (i = j)) as [<-|]; [|by rewrite lookup_insert_ne].
    rewrite lookup_insert_eq, Hr. split; by eexists.
  - apply complete_inv; [done|by eexists].
Qed.

(** ** Reachable states *)

Definition reachable (s0 s : St) : Prop := rtc step s0 s.

Lemma cache_init_inv e memory d tasks : inv (buffer_count e) (init e memory d tasks).
Proof.
  assert (∀ t i, ¬ finding (init e memory d tasks) t i) as Hf.
  { intros t i (pc & Hp%lookup_replicate & H). by destruct Hp as [-> _]. }
  split; simpl; try done.
  - intros t i ?%Hf. done.
  - intros t t' i ?%Hf. done.
  - intros i [r Hr]. done.
  - intros t pc i [-> _]%lookup_replicate. done.
Qed.

Lemma reachable_inv n s0 s : inv n s0 → reachable s0 s → inv n s.
Proof.
  intros H0. induction 1 as [|s1 s2 s3 [a Ha] _ IH]; [done|]. apply IH.
  eapply change_inv; [done|by apply act_change].
Qed.

(** ** Orderly runs *)

Definition pin_count (i : nat) (pc : Pc) : nat := if decide (pins_of pc = Some i) then 1 else 0.
Definition handle_count (i : nat) (h : nat * BufferKey) : nat := if decide (h.1 = i) then 1 else 0.

(** How many references to slot [i] there are. *)
Definition pins (s : St) (i : nat) : nat :=
  sum_list_with (handle_count i) (handles s) + sum_list_with (pin_count i) (threads s).

(** The clients' and the disks' part: a slot that is not up to date is only
    written as a whole and while no I/O is going on, blocks keep their size, and
    writes do not fail. *)
Definition disciplined (a : Action) (s : St) : Prop :=
  match a with
  | Use n x =>
      (∀ i k, handles s !! n = Some (i, k) →
         up_to_date (slot_meta s i) = true ∨ (whole x = true ∧ io_locked (slots s i) = false)) ∧
      (∀ b, length b = Z.to_nat Layout.BLOCK_SIZE →
            length (accessed x b) = Z.to_nat Layout.BLOCK_SIZE)
  | Complete i false => ∀ r, requests s !! i = Some r → ty r = Block.Read
  | _ => True
  end.

(** The cache's part, which it does not see to: a victim that was flushed is
    still unreferenced and clean when it is rebound, and a slot still has the
    key that the submitter of its request read. *)
Definition orderly (a : Action) (s : St) : Prop :=
  disciplined a s ∧ (∀ i, Z.of_nat (pins s i) < 65535) ∧
  (a = Run → match current s with
   | Some (_, IoWait i (InFlush _ k)) =>
       io_locked (slots s i) = false → buffer_index (manager s) !! k = None →
       ref_count (slot_meta s i) = 0 ∧ dirty (slot_meta s i) = false
   | Some (_, FindSlot _ i k _) => slot_key s i = Some k
   | _ => True
   end).

(** How many bytes of a clean slot are known to be on the disk. *)
Definition agreed (r : option Request) : nat :=
  match r with None => Z.to_nat Layout.BLOCK_SIZE | Some q => Z.to_nat SECTOR_SIZE * done q end.

Record slot_ok (x : BufferSlot) (r : option Request) (d : BufferKey → list Z) : Prop := {
  k_length : length (data x) = Z.to_nat Layout.BLOCK_SIZE;
  k_dirty : dirty (meta x) = true → up_to_date (meta x) = true;
  k_request : ∀ q, r = Some q → key (meta x) = Some (block q) ∧ (done q ≤ 2)%nat ∧
    up_to_date (meta x) = bool_decide (ty q = Block.Write);
  k_agree : ∀ k, key (meta x) = Some k → dirty (meta x) = false →
    up_to_date (meta x) = true ∨ is_Some r → take (agreed r) (data x) = take (agreed r) (d k);
}.

Record oinv (n : nat) (s : St) : Prop := {
  o_inv : inv n s;
  o_refs : ∀ i, ref_count (slot_meta s i) = Z.of_nat (pins s i);
  o_handles : ∀ i k, (i, k) ∈ handles s → slot_key s i = Some k;
  o_holds : ∀ t pc i k, threads s !! t = Some pc → holds pc = Some (i, k) → slot_key s i = Some k;
  o_finds : ∀ t y i k c, threads s !! t = Some (FindSlot y i k c) →
    (y = Block.Read → up_to_date (slot_meta s i) = false) ∧
    (y = Block.Write → dirty (slot_meta s i) = true);
  o_slots : ∀ i, slot_ok (slots s i) (requests s !! i) (disk s);
  o_disk : ∀ k, length (disk s k) = Z.to_nat Layout.BLOCK_SIZE;
}.

(** What a client of the cache sees of a block. *)
Definition view (s : St) (k : BufferKey) : list Z :=
  match buffer_index (manager s) !! k with
  | Some i => if up_to_date (slot_meta s i) then data (slots s i) else disk s k
  | None => disk s k
  end.

Lemma sum_insert {A} (f : A → nat) l t x y :
  l !! t = Some x → (sum_list_with f (<[t := y]> l) + f x = sum_list_with f l + f y)%nat.
Proof.
  revert t. induction l as [|z l IH]; intros [|t]; simpl; try done.
  - intros [= ->]. lia.
  - intros H. specialize (IH t H). lia.
Qed.

Lemma sum_delete {A} (f : A → nat) l n x :
  l !! n = Some x → (sum_list_with f (delete n l) + f x = sum_list_with f l)%nat.
Proof.
  revert n. induction l as [|z l IH]; intros [|n]; simpl; try done.
  - intros [= ->]. lia.
  - intros H. specialize (IH n H). lia.
Qed.

Lemma sum_elem {A} (f : A → nat) l x : x ∈ l → (f x ≤ sum_list_with f l)%nat.
Proof. induction 1; simpl; lia. Qed.

(** An unreferenced slot has no handle and no pinned task. *)
Lemma pins_zero s i :
  pins s i = 0%nat →
  (∀ k, (i, k) ∉ handles s) ∧ (∀ t pc, threads s !! t = Some pc → pins_of pc ≠ Some i).
Proof.
  unfold pins. intros Hz. split.
  - intros k H%(sum_elem (handle_count i)). unfold handle_count in H at 1. simpl in H.
    rewrite decide_True in H by done. lia.
  - intros t pc Ht Hp. apply list_elem_of_lookup_2, (sum_elem (pin_count i)) in Ht.
    unfold pin_count in Ht at 1. rewrite decide_True in Ht by done. lia.
Qed.

Lemma pins_pos s i :
  (∀ k, (i, k) ∈ handles s → 0 < pins s i)%nat ∧
  (∀ t pc, threads s !! t = Some pc → pins_of pc = Some i → 0 < pins s i)%nat.
Proof.
  split; intros; (destruct (decide (pins s i = 0%nat)) as [Hz|]; [|lia]);
    apply pins_zero in Hz as [? ?]; naive_solver.
Qed.

Lemma pins_pc s s' t pc pc' i :
  threads s !! t = Some pc → threads s' = <[t := pc']> (threads s) → handles s' = handles s →
  (pins s' i + pin_count i pc = pins s i + pin_count i pc')%nat.
Proof.
  intros Ht Hs Hh. unfold pins. rewrite Hs, Hh. pose proof (sum_insert (pin_count i) _ _ _ pc' Ht). lia.
Qed.

(** Contents and keys stay; a task moves, references and locks may change. *)
Lemma oinv_keep n s s' t pc pc' :
  oinv n s → inv n s' → threads s !! t = Some pc → threads s' = <[t := pc']> (threads s) →
  (∀ i, data (slots s' i) = data (slots s i) ∧ slot_key s' i = slot_key s i ∧
        dirty (slot_meta s' i) = dirty (slot_meta s i) ∧
        up_to_date (slot_meta s' i) = up_to_date (slot_meta s i)) →
  requests s' = requests s → disk s' = disk s →
  (∀ i, ref_count (slot_meta s' i) = Z.of_nat (pins s' i)) →
  (∀ i k, (i, k) ∈ handles s' → slot_key s i = Some k) →
  (∀ i k, holds pc' = Some (i, k) → slot_key s i = Some k) →
  (∀ y i k c, pc' = FindSlot y i k c →
     (y = Block.Read → up_to_date (slot_meta s i) = false) ∧
     (y = Block.Write → dirty (slot_meta s i) = true)) →
  oinv n s'.
Proof.
  intros [_ _ _ Hh Hf Hs Hd] Hinv Ht Hts Hsame Hr Hdisk Href Hhan Hhol Hfin. split; try done.
  - intros i k Hin. destruct (Hsame i) as (_ & -> & _). by apply Hhan.
  - intros t' pc1 i k. rewrite Hts. destruct (Hsame i) as (_ & -> & _).
    intros [(-> & -> & _)|[_ H]]%list_lookup_insert_Some; [apply Hhol|by apply (Hh t')].
  - intros t' y i k c. rewrite Hts. destruct (Hsame i) as (_ & _ & -> & ->).
    intros [(-> & Hpc & _)|[_ H]]%list_lookup_insert_Some; [by eapply Hfin|by apply (Hf t' y i k c)].
  - intros i. rewrite Hr, Hdisk. destruct (Hs i) as [Hl Hdu Hq Ha].
    destruct (Hsame i) as (E1 & E2 & E3 & E4). unfold slot_key, slot_meta in E2, E3, E4.
    split; by rewrite ?E1, ?E2, ?E3, ?E4.
  - by rewrite Hdisk.
Qed.

Lemma view_keep s s' k :
  buffer_index (manager s') = buffer_index (manager s) →
  (∀ i, data (slots s' i) = data (slots s i) ∧ up_to_date (slot_meta s' i) = up_to_date (slot_meta s i)) →
  disk s' = disk s → view s' k = view s k.
Proof.
  intros Hm Hs Hd. unfold view. rewrite Hm, Hd.
  destruct (buffer_index _ !! k) as [i|]; [|done]. by destruct (Hs i) as [-> ->].
Qed.

Lemma with_slot_meta i f s j :
  slot_meta (with_slot i (on_meta f) s) j = if decide (j = i) then f (slot_meta s i) else slot_meta s j.
Proof. unfold slot_meta. rewrite with_slot_lookup. by case_decide. Qed.

(** Only the count of slot [i] changes, to [c]. *)
Lemma with_ref_same i (f : BufferMeta → Z) s j :
  let s' := with_slot i (on_meta (λ m, set_ref_count (f m) m)) s in
  (data (slots s' j) = data (slots s j) ∧ slot_key s' j = slot_key s j ∧
   dirty (slot_meta s' j) = dirty (slot_meta s j) ∧
   up_to_date (slot_meta s' j) = up_to_date (slot_meta s j)) ∧
  ref_count (slot_meta s' j) = if decide (j = i) then f (slot_meta s i) else ref_count (slot_meta s j).
Proof.
  cbv zeta. unfold slot_key, slot_meta. rewrite with_slot_lookup. case_decide; [subst|]; by split.
Qed.

Lemma pin_count_eq i pc : (pin_count i pc ≤ 1)%nat ∧ (pins_of pc = Some i ↔ pin_count i pc = 1%nat).
Proof. unfold pin_count. case_decide; split; [lia|done|lia|]. split; [done|lia]. Qed.

Lemma pin_count_none i pc : pins_of pc = None → pin_count i pc = 0%nat.
Proof. intros H. unfold pin_count. by rewrite H. Qed.

Lemma pin_count_some i j pc :
  pins_of pc = Some j → pin_count i pc = if decide (i = j) then 1%nat else 0%nat.
Proof. intros H. unfold pin_count. rewrite H. repeat case_decide; naive_solver. Qed.

Lemma holds_pins pc i k : holds pc = Some (i, k) → pins_of pc = Some i.
Proof.
  destruct pc as [|w k'|w k' j|w k'|w k' j|y j k' c|y j k' c|j c|j]; try done;
    unfold holds, pins_of; simpl; destruct c; naive_solver.
Qed.

Definition safe (s : St) (pc : Pc) : Prop :=
  match pc with
  | IoWait i (InFlush _ k) =>
      io_locked (slots s i) = false → buffer_index (manager s) !! k = None →
      ref_count (slot_meta s i) = 0 ∧ dirty (slot_meta s i) = false
  | FindSlot _ i k _ => slot_key s i = Some k
  | _ => True
  end.

Section move.
Context (n : nat) (s : St) (t : nat) (c : option nat).
Context (Hinv : oinv n s).

Lemma none_oinv pc pc' :
  threads s !! t = Some pc → finds pc' = None → pins_of pc' = pins_of pc →
  (∀ i k, holds pc' = Some (i, k) → holds pc = Some (i, k) ∨ slot_key s i = Some k) →
  inv n (with_cur c (with_pc t pc' s)) → oinv n (with_cur c (with_pc t pc' s)).
Proof using Hinv.
  intros Ht Hf Hp Hh Hi. eapply oinv_keep; try done.
  - intros i. etrans; [apply (o_refs _ _ Hinv)|]. f_equal.
    pose proof (pins_pc s (with_cur c (with_pc t pc' s)) t pc pc' i Ht eq_refl eq_refl) as H.
    unfold pin_count in H. rewrite Hp in H. lia.
  - apply Hinv.
  - intros i k [H|?]%Hh; [|done]. by eapply (o_holds _ _ Hinv).
  - intros y i k c' ->. done.
Qed.

Lemma pin_oinv w k i :
  (∀ j, Z.of_nat (pins s j) < 65535) →
  threads s !! t = Some (Acquire w k) → buffer_index (manager s) !! k = Some i →
  let s' := with_cur c (with_pc t (CachedWait w k i)
    (with_slot i (on_meta (λ m, set_ref_count (as_u16 (ref_count m + 1)) m)) s)) in
  inv n s' → oinv n s'.
Proof using Hinv.
  intros Hbound Ht Hk s' Hi. eapply oinv_keep; try done.
  - intros j. apply (with_ref_same i (λ m, as_u16 (ref_count m + 1)) s j).
  - intros j. destruct (with_ref_same i (λ m, as_u16 (ref_count m + 1)) s j) as [_ Hr].
    etrans; [exact Hr|]. rewrite !(o_refs _ _ Hinv).
    pose proof (pins_pc s s' t _ (CachedWait w k i) j Ht eq_refl eq_refl) as Hp.
    rewrite pin_count_none, (pin_count_some j i) in Hp by done. specialize (Hbound j).
    case_decide; [subst|lia]. rewrite wrap_small by (unfold is_uint; lia). lia.
  - apply Hinv.
Qed.

Lemma unpin_oinv pc pc' i :
  threads s !! t = Some pc → finds pc' = None → pins_of pc = Some i → pins_of pc' = None →
  holds pc' = None →
  let s' := with_cur c (with_pc t pc'
    (with_slot i (on_meta (λ m, set_ref_count (ref_count m - 1) m)) s)) in
  inv n s' → oinv n s'.
Proof using Hinv.
  intros Ht Hf Hp Hp' Hh s' Hi. eapply oinv_keep; try done.
  - intros j. apply (with_ref_same i (λ m, ref_count m - 1) s j).
  - intros j. destruct (with_ref_same i (λ m, ref_count m - 1) s j) as [_ Hr].
    etrans; [exact Hr|]. rewrite !(o_refs _ _ Hinv).
    pose proof (pins_pc s s' t _ pc' j Ht eq_refl eq_refl) as Hc.
    rewrite (pin_count_none j pc'), (pin_count_some j i) in Hc by done.
    case_decide; [subst|]; lia.
  - apply Hinv.
  - intros j k. by rewrite Hh.
  - intros y j k c' ->. done.
Qed.

Lemma give_oinv pc k i :
  threads s !! t = Some pc → pins_of pc = Some i →
  (holds pc = Some (i, k) ∨ slot_key s i = Some k) →
  let s' := with_cur c (with_pc t Outside (with_handles ((i, k) :: handles s) s)) in
  inv n s' → oinv n s'.
Proof using Hinv.
  intros Ht Hp Hk s' Hi. eapply oinv_keep; try done.
  - intros j. change (slot_meta s' j) with (slot_meta s j). rewrite (o_refs _ _ Hinv). f_equal.
    unfold pins. simpl. pose proof (sum_insert (pin_count j) _ _ _ Outside Ht) as Hc.
    rewrite (pin_count_none j Outside), (pin_count_some j i) in Hc by done.
    unfold handle_count at 2. simpl. repeat case_decide; try congruence; lia.
  - intros j k' [[= -> ->]|H]%elem_of_cons; [|by apply (o_handles _ _ Hinv)].
    destruct Hk as [Hk|Hk]; [|done]. by eapply (o_holds _ _ Hinv).
Qed.

Lemma lock_oinv y i k c' :
  threads s !! t = Some (AcquireIo y i k c') →
  (y = Block.Read → up_to_date (slot_meta s i) = false) →
  (y = Block.Write → dirty (slot_meta s i) = true) →
  let s' := with_cur c (with_pc t (FindSlot y i k c') (with_slot i (set_locked true) s)) in
  inv n s' → oinv n s'.
Proof using Hinv.
  intros Ht Hr Hw s' Hi.
  assert (∀ j, data (slots s' j) = data (slots s j) ∧ meta (slots s' j) = meta (slots s j)) as Hs.
  { intros j. change (slots s') with (slots (with_slot i (set_locked true) s)).
    rewrite with_slot_lookup. case_decide; by subst. }
  eapply oinv_keep; try done.
  - intros j. unfold slot_key, slot_meta. by destruct (Hs j) as [-> ->].
  - intros j. unfold slot_meta. destruct (Hs j) as [_ ->]. etrans; [apply (o_refs _ _ Hinv)|]. f_equal.
    pose proof (pins_pc s s' t _ (FindSlot y i k c') j Ht eq_refl eq_refl) as Hc.
    unfold pin_count in Hc. simpl in Hc. lia.
  - apply Hinv.
  - intros j k' Hh. by eapply (o_holds _ _ Hinv t (AcquireIo y i k c')).
  - intros y' j k' c1 [= -> -> -> ->]. done.
Qed.

(** Rebinding an unreferenced, clean, unlocked slot. *)
Lemma rebind_oinv pc pc' k i s' :
  threads s !! t = Some pc → pins_of pc = None → io_locked (slots s i) = false →
  ref_count (slot_meta s i) = 0 →
  (∀ j, slots s' j = if decide (j = i) then bound k (slots s i) else slots s j) →
  requests s' = requests s → disk s' = disk s → threads s' = <[t := pc']> (threads s) →
  (pc' = Outside ∧ handles s' = (i, k) :: handles s ∨
   holds pc' = Some (i, k) ∧ pins_of pc' = Some i ∧ finds pc' = None ∧ handles s' = handles s) →
  inv n s' → oinv n s'.
Proof using Hinv.
  intros Ht Hp Hl Hz Hs Hr Hd Hts Hcase Hi.
  assert (pins s i = 0%nat) as Hpz by (pose proof (o_refs _ _ Hinv i); lia).
  destruct (pins_zero _ _ Hpz) as [Hnh Hnp].
  pose proof (slot_key_bound _ _ _ _ Hs) as Hkey.
  split; try done.
  - intros j. unfold slot_meta. rewrite Hs.
    assert (pins s' j = pins s j + if decide (j = i) then 1 else 0)%nat as ->.
    { pose proof (sum_insert (pin_count j) _ _ _ pc' Ht) as Hc.
      rewrite (pin_count_none j pc) in Hc by done. unfold pins. rewrite Hts.
      destruct Hcase as [[-> ->]|(_ & Hp' & _ & ->)].
      - rewrite (pin_count_none j Outside) in Hc by done. simpl. unfold handle_count at 1. simpl.
        repeat case_decide; try congruence; lia.
      - rewrite (pin_count_some j i) in Hc by done. case_decide; lia. }
    case_decide; [subst; rewrite Hpz; done|]. rewrite Nat.add_0_r. apply (o_refs _ _ Hinv).
  - intros j k' Hin. rewrite Hkey.
    assert ((j, k') = (i, k) ∨ (j, k') ∈ handles s) as [[= -> ->]|H].
    { destruct Hcase as [[_ E]|(_ & _ & _ & E)]; rewrite E in Hin; [by apply elem_of_cons in Hin|by right]. }
    + by rewrite decide_True.
    + rewrite decide_False; [by apply (o_handles _ _ Hinv)|]. intros ->. by apply (Hnh k').
  - intros t' pc1 j k'. rewrite Hts, Hkey. intros [(-> & -> & _)|[_ H]]%list_lookup_insert_Some Hh.
    + destruct Hcase as [[-> _]|(Hh' & _)]; [done|]. rewrite Hh in Hh'. injection Hh' as -> ->.
      by rewrite decide_True.
    + rewrite decide_False; [by apply (o_holds _ _ Hinv t' pc1)|]. intros ->.
      by apply (Hnp t' pc1), (holds_pins _ _ k').
  - intros t' y j k' c'. rewrite Hts. intros [(-> & -> & _)|[_ H]]%list_lookup_insert_Some.
    + by destruct Hcase as [[? _]|(_ & _ & ? & _)].
    + unfold slot_meta. rewrite Hs, decide_False; [by apply (o_finds _ _ Hinv t' y j k' c')|].
      intros ->. destruct (i_find _ _ (o_inv _ _ Hinv) t' i) as [? _]; [by eexists|congruence].
  - intros j. rewrite Hr, Hd, Hs. case_decide as E; [subst|apply Hinv].
    assert (requests s !! i = None) as ->.
    { apply eq_None_not_Some. intros ?%(i_request _ _ (o_inv _ _ Hinv)). congruence. }
    destruct (o_slots _ _ Hinv i). split; simpl; try done. intros k' _ _ [?|[? ?]]; done.
  - rewrite Hd. apply Hinv.
Qed.

Lemma clean_agrees k i :
  slot_key s i = Some k → io_locked (slots s i) = false → dirty (slot_meta s i) = false →
  up_to_date (slot_meta s i) = true → data (slots s i) = disk s k.
Proof using Hinv.
  intros Hk Hl Hd Hu. destruct (o_slots _ _ Hinv i) as [Hlen _ _ Ha].
  assert (requests s !! i = None) as Hn.
  { apply eq_None_not_Some. intros ?%(i_request _ _ (o_inv _ _ Hinv)). congruence. }
  specialize (Ha k Hk Hd (or_introl Hu)). rewrite Hn in Ha. simpl in Ha.
  rewrite !take_ge in Ha; [done|by rewrite (o_disk _ _ Hinv)|by rewrite Hlen].
Qed.

Lemma rebind_view k i s' k' :
  io_locked (slots s i) = false → dirty (slot_meta s i) = false →
  buffer_index (manager s) !! k = None →
  (∀ j, slots s' j = if decide (j = i) then bound k (slots s i) else slots s j) →
  buffer_index (manager s') = <[k := i]> match slot_key s i with
    | Some old => delete old (buffer_index (manager s)) | None => buffer_index (manager s) end →
  disk s' = disk s → view s' k' = view s k'.
Proof using Hinv.
  intros Hl Hd Hk Hs Hm Hdisk. unfold view. rewrite Hm, Hdisk. destruct (decide (k' = k)) as [->|Hne].
  { rewrite lookup_insert_eq, Hk. unfold slot_meta. rewrite Hs, decide_True by done. done. }
  rewrite lookup_insert_ne by done.
  assert (∀ j, buffer_index (manager s) !! k' = Some j → j ≠ i →
    (if up_to_date (slot_meta s' j) then data (slots s' j) else disk s k') =
    (if up_to_date (slot_meta s j) then data (slots s j) else disk s k')) as Hother.
  { intros j _ Hj. unfold slot_meta. by rewrite Hs, decide_False. }
  pose proof (i_index _ _ (o_inv _ _ Hinv)) as Hidx.
  destruct (slot_key s i) as [old|] eqn:Hold.
  - destruct (decide (k' = old)) as [->|].
    + rewrite lookup_delete_eq. pose proof Hold as Ho. apply Hidx in Ho. rewrite Ho.
      destruct (up_to_date (slot_meta s i)) eqn:Hu; [|done]. symmetry. by apply clean_agrees.
    + rewrite lookup_delete_ne by done. destruct (_ !! k') as [j|] eqn:Hj; [|done].
      apply Hother; [done|]. intros ->. apply Hidx in Hj. congruence.
  - destruct (_ !! k') as [j|] eqn:Hj; [|done]. apply Hother; [done|]. intros ->.
    apply Hidx in Hj. congruence.
Qed.

Definition queued (y : Block.BlockRequestType) (i : nat) (k : BufferKey) (c' : Caller) : St :=
  with_cur c (with_pc t (IoWait i c') (with_requests (<[i := mkRequest y k 0]> (requests s))
    (with_slot i (on_meta (set_dirty false)) s))).

Lemma queued_slot y i k c' j :
  slots (queued y i k c') j =
    if decide (j = i) then on_meta (set_dirty false) (slots s i) else slots s j.
Proof. apply (with_slot_lookup i (on_meta (set_dirty false)) s). Qed.

Lemma queue_oinv y i k c' :
  threads s !! t = Some (FindSlot y i k c') → slot_key s i = Some k →
  inv n (queued y i k c') → oinv n (queued y i k c').
Proof using Hinv.
  intros Ht Hk Hi. destruct (o_finds _ _ Hinv t y i k c' Ht) as [Hr Hw].
  assert (∀ j, slot_key (queued y i k c') j = slot_key s j) as Hkey.
  { intros j. unfold slot_key. rewrite queued_slot. case_decide; by subst. }
  split; try done.
  - intros j. assert (ref_count (slot_meta (queued y i k c') j) = ref_count (slot_meta s j)) as ->.
    { unfold slot_meta. rewrite queued_slot. case_decide; by subst. }
    rewrite (o_refs _ _ Hinv). f_equal.
    pose proof (pins_pc s (queued y i k c') t _ (IoWait i c') j Ht eq_refl eq_refl) as Hc.
    unfold pin_count in Hc. simpl in Hc. lia.
  - intros j k' Hin. rewrite Hkey. by apply (o_handles _ _ Hinv).
  - intros t' pc1 j k'. rewrite Hkey. simpl.
    intros [(<- & <- & _)|[_ H]]%list_lookup_insert_Some Hh; by eapply (o_holds _ _ Hinv).
  - intros t' y' j k' c1. simpl. intros [(-> & ? & _)|[Hne H]]%list_lookup_insert_Some; [done|].
    unfold slot_meta. rewrite queued_slot, decide_False; [by apply (o_finds _ _ Hinv t' y' j k' c1)|].
    intros ->. apply Hne. eapply (i_once _ _ (o_inv _ _ Hinv)); by eexists.
  - intros j. rewrite queued_slot. simpl. case_decide as E; [subst|].
    2:{ rewrite lookup_insert_ne by done. apply Hinv. }
    rewrite lookup_insert_eq. destruct (o_slots _ _ Hinv i) as [Hl Hdu _ _].
    split; simpl; [done|done| |done]. intros q [= <-]. simpl. split_and!; [done|lia|].
    unfold slot_meta in Hr, Hw. destruct y; [by rewrite Hr|]. rewrite Hdu; [done|by apply Hw].
  - apply Hinv.
Qed.
End move.

(** A task's move under the cache's conditions. *)
Lemma moves_oinv n s t pc pc' s1 c :
  oinv n s → (∀ i, Z.of_nat (pins s i) < 65535) → threads s !! t = Some pc → safe s pc →
  moves s pc pc' s1 →
  oinv n (with_cur c (with_pc t pc' s1)) ∧ ∀ k, view (with_cur c (with_pc t pc' s1)) k = view s k.
Proof.
  intros Hinv Hb Ht Hsafe Hm. pose proof (moves_inv _ _ _ _ _ _ c (o_inv _ _ Hinv) Ht Hm) as Hi.
  destruct Hm as [pc pc' Hf Hf' Hp Hv Hh|w k i Hk|pc pc' i Hf Hp Hr Hf' Hp' Hh Hv|pc k i Hf Hp Hq Hk Hr
    |pc pc' k i s' Hf Hp Hv Hq Hl Hk Hc Hs'|t' i k c' Hl Hr Hw|t' i k c'].
  - split; [by eapply none_oinv|done].
  - split; [by eapply pin_oinv|]. intros k'. apply view_keep; try done.
    intros j. by destruct (with_ref_same i (λ m, as_u16 (ref_count m + 1)) s j) as [(? & _ & _ & ?) _].
  - split; [by eapply unpin_oinv|]. intros k'. apply view_keep; try done.
    intros j. by destruct (with_ref_same i (λ m, ref_count m - 1) s j) as [(? & _ & _ & ?) _].
  - split; [by eapply give_oinv|done].
  - assert (ref_count (slot_meta s i) = 0 ∧ dirty (slot_meta s i) = false) as [Hz Hd].
    { destruct Hc as [[w ->]|?]; [by apply Hsafe|done]. }
    destruct (rebind_spec k i s Hk) as (Hs & Hm & Hreq & Hdk & Hts & _ & Hhs).
    { intros old Ho. by apply (i_index _ _ (o_inv _ _ Hinv)). }
    assert (∃ hs, s' = with_handles hs (rebind k i s) ∧
      (pc' = Outside ∧ hs = (i, k) :: handles s ∨
       holds pc' = Some (i, k) ∧ pins_of pc' = Some i ∧ finds pc' = None ∧ hs = handles s))
      as (hs & -> & Hcase).
    { destruct Hs' as [(-> & _ & ->)|(? & ? & ? & _ & ->)]; [by eexists; split; [|left]|].
      exists (handles s). split; [|by right]. rewrite <- Hhs. by destruct (rebind k i s). }
    split.
    + eapply rebind_oinv; try done. cbn [threads with_cur with_pc with_handles]. by rewrite Hts.
    + intros k'. eapply rebind_view; try done. cbn [manager with_cur with_pc with_handles].
      by rewrite Hm.
  - split; [by eapply lock_oinv|]. intros k'. apply view_keep; try done. intros j.
    unfold slot_meta. change (slots (with_cur _ _)) with (slots (with_slot i (set_locked true) s)).
    rewrite with_slot_lookup. case_decide; by subst.
  - split; [by eapply queue_oinv|]. intros k'. apply view_keep; try done. intros j. unfold slot_meta.
    change (slots (with_cur _ _)) with (slots (queued s t c t' i k c')).
    rewrite queued_slot. case_decide; by subst.
Qed.

Lemma put_sector_spec d src b :
  (d < 2)%nat → length src = Z.to_nat Layout.BLOCK_SIZE → length b = Z.to_nat Layout.BLOCK_SIZE →
  length (put_sector d src b) = Z.to_nat Layout.BLOCK_SIZE ∧
  (take (512 * d) b = take (512 * d) src →
   take (512 * S d) (put_sector d src b) = take (512 * S d) src).
Proof.
  intros Hd Hs Hb. change (Z.to_nat Layout.BLOCK_SIZE) with 1024%nat in *.
  unfold put_sector, sector, slice, splice.
  replace (Z.to_nat (Z.of_nat d * SECTOR_SIZE)) with (512 * d)%nat
    by (unfold SECTOR_SIZE, Block.SECTOR_SIZE; lia).
  change (Z.to_nat SECTOR_SIZE) with 512%nat. split.
  - rewrite !length_app, !length_drop, !length_take, !length_drop. lia.
  - intros E. rewrite app_assoc, take_app_le by (rewrite length_app, !length_take, length_drop; lia).
    rewrite E. replace (512 * S d)%nat with (512 * d + 512)%nat by lia.
    rewrite (take_ge (_ ++ _)) by (rewrite length_app, !length_take, length_drop; lia).
    apply take_take_drop.
Qed.

Lemma agreed_S q : agreed (Some (mkRequest (ty q) (block q) (S (done q)))) = (512 * S (done q))%nat.
Proof. done. Qed.

(** What every change but a task's move has in common: the tasks stay. *)
Lemma oinv_slots n s s' :
  oinv n s → inv n s' → threads s' = threads s → handles s' = handles s →
  (∀ i, slot_key s' i = slot_key s i ∧ ref_count (slot_meta s' i) = ref_count (slot_meta s i)) →
  (∀ t y i k c, threads s !! t = Some (FindSlot y i k c) →
     (y = Block.Read → up_to_date (slot_meta s' i) = false) ∧
     (y = Block.Write → dirty (slot_meta s' i) = true)) →
  (∀ i, slot_ok (slots s' i) (requests s' !! i) (disk s')) →
  (∀ k, length (disk s' k) = Z.to_nat Layout.BLOCK_SIZE) → oinv n s'.
Proof.
  intros Hinv Hi Ht Hh Hs Hf Hok Hd. split; try done.
  - intros i. destruct (Hs i) as [_ ->]. unfold pins. rewrite Ht, Hh. apply Hinv.
  - intros i k. rewrite Hh. destruct (Hs i) as [-> _]. apply Hinv.
  - intros t pc i k. rewrite Ht. destruct (Hs i) as [-> _]. apply Hinv.
  - intros t y i k c. rewrite Ht. apply Hf.
Qed.

(** The slot a task has locked is not the one a request is for. *)
Lemma finds_no_request n s t y i k c :
  oinv n s → threads s !! t = Some (FindSlot y i k c) →
  requests s !! i = None ∧ io_locked (slots s i) = true.
Proof. intros Hinv Ht. destruct (i_find _ _ (o_inv _ _ Hinv) t i); [by eexists|done]. Qed.

Lemma whole_accessed x b b' :
  whole x = true → length b = Z.to_nat Layout.BLOCK_SIZE → length b' = Z.to_nat Layout.BLOCK_SIZE →
  accessed x b = accessed x b'.
Proof.
  destruct x as [|off src|]; simpl; [done| |done].
  intros [-> Hs]%bool_decide_eq_true Hb Hb'. unfold splice. simpl.
  by rewrite !drop_ge by lia.
Qed.

Lemma use_oinv n s s' m i k x :
  oinv n s → disciplined (Use m x) s → handles s !! m = Some (i, k) →
  access i x s = (Ok (), s') → inv n s' →
  oinv n s' ∧ view s' k = accessed x (view s k) ∧ (∀ k', k' ≠ k → view s' k' = view s k').
Proof.
  intros Hinv [Hdis Hlen] Hm Ha Hi. specialize (Hdis i k Hm).
  destruct (access_spec _ _ _ _ Ha) as (Hs & Hman & Hr & Hd & Ht & _ & Hh & Hoff).
  assert (slot_key s i = Some k) as Hk.
  { apply (o_handles _ _ Hinv). by eapply list_elem_of_lookup_2. }
  split_and!.
  - eapply oinv_slots; try done.
    + intros j. unfold slot_key, slot_meta. rewrite Hs. case_decide; by subst.
    + intros t y j k' c' Hf. destruct (o_finds _ _ Hinv t y j k' c' Hf) as [Hfr Hfw].
      destruct (finds_no_request _ _ _ _ _ _ _ Hinv Hf) as [_ Hl].
      unfold slot_meta. rewrite Hs. case_decide as E; [subst; simpl|done].
      split; [|done]. intros ->. specialize (Hfr eq_refl). unfold slot_meta in *.
      destruct Hdis as [?|[_ ?]]; congruence.
    + intros j. rewrite Hr, Hd, Hs. case_decide as E; [subst|apply Hinv].
      destruct (o_slots _ _ Hinv i) as [Hl Hdu Hq _]. split; simpl; try done.
      * by apply Hlen.
      * intros _. unfold slot_meta in Hdis. destruct Hdis as [->|[-> _]]; [apply orb_true_r|done].
      * intros q E. destruct (Hq q E) as (? & ? & Hu). split_and!; try done.
        unfold slot_meta in Hdis. destruct Hdis as [Hup|[_ Hl']].
        -- by rewrite Hup, orb_true_r, <- Hu.
        -- rewrite (i_request _ _ (o_inv _ _ Hinv)) in Hl'; [done|by eexists].
    + rewrite Hd. apply Hinv.
  - pose proof Hk as Hix. apply (i_index _ _ (o_inv _ _ Hinv)) in Hix.
    unfold view. rewrite Hman, Hix, Hd. unfold slot_meta in *. rewrite Hs, decide_True by done. simpl.
    destruct Hdis as [->|[Hw _]]; [by rewrite orb_true_r|]. rewrite Hw. simpl.
    apply whole_accessed; [done|apply (o_slots _ _ Hinv)|].
    destruct (up_to_date _); [apply (o_slots _ _ Hinv)|apply (o_disk _ _ Hinv)].
  - intros k' Hne. unfold view. rewrite Hman, Hd. destruct (_ !! k') as [j|] eqn:Hj; [|done].
    unfold slot_meta. rewrite Hs, decide_False; [done|]. intros ->.
    apply (i_index _ _ (o_inv _ _ Hinv)) in Hj. congruence.
Qed.

Lemma transfer_oinv n s i r :
  oinv n s → requests s !! i = Some r → (done r < 2)%nat → inv n (transfer i r s) →
  oinv n (transfer i r s) ∧ ∀ k, view (transfer i r s) k = view s k.
Proof.
  intros Hinv Hr Hd Hi. destruct (transfer_rest i r s) as (Hman & Ht & Hreq & _ & Hh).
  destruct (k_request _ _ _ (o_slots _ _ Hinv i) r Hr) as (Hk & _ & Hu).
  pose proof (k_length _ _ _ (o_slots _ _ Hinv i)) as Hlen. pose proof (o_disk _ _ Hinv) as Hdl.
  assert (∀ j, meta (slots (transfer i r s) j) = meta (slots s j)) as Hmeta.
  { intros j. rewrite transfer_slots. destruct (decide (j = i)) as [->|]; [|done].
    unfold transferred. by destruct (ty r). }
  assert (∀ j, j ≠ i → slot_key s j ≠ Some (block r)) as Hother.
  { intros j Hj Hkj. apply (i_index _ _ (o_inv _ _ Hinv)) in Hk, Hkj. congruence. }
  assert (∀ k, k ≠ block r → disk (transfer i r s) k = disk s k) as Hdisk.
  { intros k Hne. unfold transfer. destruct (ty r); [done|]. simpl. by rewrite fn_lookup_insert_ne. }
  assert (length (data (slots (transfer i r s) i)) = Z.to_nat Layout.BLOCK_SIZE ∧
    length (disk (transfer i r s) (block r)) = Z.to_nat Layout.BLOCK_SIZE ∧
    (take (512 * done r) (data (slots s i)) = take (512 * done r) (disk s (block r)) →
     take (512 * S (done r)) (data (slots (transfer i r s) i)) =
       take (512 * S (done r)) (disk (transfer i r s) (block r)))) as (Hl1 & Hl2 & Hag).
  { rewrite transfer_slots, decide_True by done. unfold transferred, transfer. destruct (ty r); simpl.
    - destruct (put_sector_spec _ _ _ Hd (Hdl (block r)) Hlen) as [? Hp]. by split_and!.
    - rewrite fn_lookup_insert. destruct (put_sector_spec _ _ _ Hd Hlen (Hdl (block r))) as [? Hp].
      split_and!; [done|done|]. intros E. symmetry. by apply Hp. }
  split.
  - eapply oinv_slots; try done.
    + intros j. unfold slot_key, slot_meta. by rewrite Hmeta.
    + intros t y j k c Hf. unfold slot_meta. rewrite Hmeta. by eapply (o_finds _ _ Hinv).
    + intros j. rewrite Hreq. destruct (decide (j = i)) as [->|Hne].
      * rewrite lookup_insert_eq. destruct (o_slots _ _ Hinv i) as [_ Hdu _ Ha].
        split; [done|by rewrite Hmeta|rewrite Hmeta; intros q [= <-]; by split_and!|].
        intros k. rewrite Hmeta, agreed_S. intros Hk' Hc _. assert (k = block r) as -> by congruence.
        apply Hag. rewrite Hr in Ha. apply (Ha _ Hk Hc). right. by eexists.
      * rewrite lookup_insert_ne by done. rewrite transfer_slots, decide_False by done.
        destruct (o_slots _ _ Hinv j) as [? ? ? Ha]. split; try done.
        intros k Hkj. rewrite Hdisk; [by apply Ha|]. intros ->. by apply (Hother j).
    + intros k. destruct (decide (k = block r)) as [->|]; [done|]. by rewrite Hdisk.
  - intros k. unfold view. rewrite Hman. destruct (_ !! k) as [j|] eqn:Hj.
    + unfold slot_meta. rewrite Hmeta. apply (i_index _ _ (o_inv _ _ Hinv)) in Hj.
      destruct (decide (j = i)) as [->|Hne].
      * assert (k = block r) as -> by (unfold slot_key in Hj; congruence).
        unfold transfer. destruct (ty r) eqn:Hty; rewrite Hu, bool_decide_decide; simpl; [done|].
        done.
      * rewrite transfer_slots, decide_False, Hdisk; [done| |done].
        intros ->. by apply (Hother j).
    + apply Hdisk. intros ->. apply (i_index _ _ (o_inv _ _ Hinv)) in Hk. congruence.
Qed.

Lemma complete_oinv n s i b r :
  oinv n s → requests s !! i = Some r → disciplined (Complete i b) s → (b = true → 2 ≤ done r)%nat →
  inv n (complete i b s) →
  oinv n (complete i b s) ∧ ∀ k, view (complete i b s) k = view s k.
Proof.
  intros Hinv Hr Hdis Hd Hi.
  destruct (o_slots _ _ Hinv i) as [Hl Hdu Hq Ha]. destruct (Hq r Hr) as (Hk & Hd2 & Hu).
  assert (∀ j, slots (complete i b s) j =
    if decide (j = i) then mkSlot (data (slots s i)) false (set_up_to_date b (slot_meta s i))
    else slots s j) as Hs.
  { intros j. apply (with_slot_lookup i (λ x, set_locked false (on_meta (set_up_to_date b) x)) s). }
  assert (b = false → up_to_date (slot_meta s i) = false) as Hb.
  { intros ->. unfold slot_meta. rewrite Hu. simpl in Hdis. by rewrite (Hdis r Hr). }
  assert (dirty (slot_meta s i) = false → b = true → data (slots s i) = disk s (block r)) as Hag.
  { intros Hc Hbt. specialize (Ha _ Hk Hc). rewrite Hr in Ha.
    assert (done r = 2%nat) as E by (specialize (Hd Hbt); lia).
    simpl in Ha. rewrite E in Ha. change (Z.to_nat SECTOR_SIZE * 2)%nat with 1024%nat in Ha.
    rewrite !take_ge in Ha; [by apply Ha; right; eexists|by rewrite (o_disk _ _ Hinv)|by rewrite Hl]. }
  split.
  - eapply oinv_slots; try done.
    + intros j. unfold slot_key, slot_meta. rewrite Hs. destruct (decide (j = i)) as [->|]; done.
    + intros t y j k c Hf. unfold slot_meta. rewrite Hs, decide_False.
      * by eapply (o_finds _ _ Hinv).
      * intros ->. destruct (finds_no_request _ _ _ _ _ _ _ Hinv Hf) as [? _]. congruence.
    + intros j. rewrite Hs. simpl. destruct (decide (j = i)) as [->|].
      2:{ rewrite lookup_delete_ne by done. apply Hinv. }
      rewrite lookup_delete_eq. split; simpl; try done.
      * intros Hdt. destruct b; [done|]. specialize (Hb eq_refl). unfold slot_meta in *.
        rewrite Hdu in Hb; done.
      * intros k Hk' Hc [->|[? ?]]; [|done]. assert (k = block r) as -> by (unfold slot_meta in *; congruence).
        by rewrite Hag.
    + apply Hinv.
  - intros k. unfold view. change (manager (complete i b s)) with (manager s).
    change (disk (complete i b s)) with (disk s). destruct (_ !! k) as [j|] eqn:Hj; [|done].
    unfold slot_meta at 1. rewrite Hs. destruct (decide (j = i)) as [->|]; [|done]. simpl.
    apply (i_index _ _ (o_inv _ _ Hinv)) in Hj. assert (k = block r) as -> by (unfold slot_key in *; congruence).
    destruct b; [|by rewrite Hb]. destruct (up_to_date (slot_meta s i)) eqn:Hup; [done|].
    apply Hag; [|done]. destruct (dirty (slot_meta s i)) eqn:Hdt; [|done].
    unfold slot_meta in *. rewrite Hdu in Hup; done.
Qed.

Lemma drop_oinv n s t m i k :
  oinv n s → threads s !! t = Some Outside → handles s !! m = Some (i, k) →
  let s' := with_pc t (ReleaseWait i) (with_handles (delete m (handles s)) s) in
  inv n s' → oinv n s'.
Proof.
  intros Hinv Ht Hm s' Hi. eapply oinv_keep; try done.
  - intros j. etrans; [apply (o_refs _ _ Hinv)|]. f_equal.
    pose proof (sum_insert (pin_count j) _ _ _ (ReleaseWait i) Ht) as Hc.
    pose proof (sum_delete (handle_count j) _ _ _ Hm) as Hd.
    rewrite (pin_count_none j Outside), (pin_count_some j i) in Hc by done.
    unfold handle_count at 2 in Hd. simpl in Hd. unfold pins. simpl.
    destruct (decide (i = j)), (decide (j = i)); try congruence; lia.
  - intros j k' Hin. apply (o_handles _ _ Hinv). by eapply Block.elem_delete.
Qed.

(** The blocks an action writes to. *)
Definition writes (a : Action) (s : St) (k : BufferKey) (x : Access) : Prop :=
  ∃ m i, a = Use m x ∧ handles s !! m = Some (i, k).

Lemma change_oinv n s a s' :
  oinv n s → orderly a s → change s a s' →
  oinv n s' ∧ (∀ k, (∀ x, ¬ writes a s k x) → view s' k = view s k) ∧
  (∀ k x, writes a s k x → view s' k = accessed x (view s k)).
Proof.
  intros Hinv (Hdis & Hb & Hsafe) Hch. pose proof (change_inv _ _ _ _ (o_inv _ _ Hinv) Hch) as Hi.
  assert (oinv n s' ∧ (∀ k, view s' k = view s k) → (∀ m x, a ≠ Use m x) →
    oinv n s' ∧ (∀ k, (∀ x, ¬ writes a s k x) → view s' k = view s k) ∧
    (∀ k x, writes a s k x → view s' k = accessed x (view s k))) as Hno.
  { intros [? Hv] Ha. split_and!; [done|by auto|]. intros k x (m & i & -> & _). by destruct (Ha m x). }
  destruct Hch as [a c Ha|a t pc pc' s1 c Ha Hc Hr Hm|t m i k Ht Hm|m i k x s' Hm Ha|i r Hr Hd|i b r Hr Hd _].
  - apply Hno; [|done]. split; [|done]. eapply oinv_slots; try done; apply Hinv.
  - apply Hno; [|done]. assert (safe s pc) as Hs.
    { destruct Hr as [->| ->]; [|done]. specialize (Hsafe eq_refl). rewrite Hc in Hsafe.
      by destruct pc; try done; destruct c0. }
    apply current_Some in Hc as [_ Ht]. by eapply moves_oinv.
  - apply Hno; [|done]. split; [by eapply drop_oinv|done].
  - destruct (use_oinv _ _ _ _ _ _ _ Hinv Hdis Hm Ha Hi) as (? & Hk & Hne). split_and!; [done| |].
    + intros k' Hw. apply Hne. intros ->. apply (Hw x). by exists m, i.
    + intros k' x' (m' & i' & [= <- <-] & Hm'). assert (k' = k) as -> by congruence. done.
  - apply Hno; [|done]. by apply transfer_oinv.
  - apply Hno; [|done]. by eapply complete_oinv.
Qed.

(** What stays when a task gets a handle. *)
Lemma act_run n s t pc s' :
  oinv n s → current s = Some (t, pc) → act Run s = Some (false, s') → oinv n s' →
  handles s' = handles s ∨
  ∃ i k, asks pc = Some k ∧ handles s' = (i, k) :: handles s ∧
    (want pc = Some Read → data (slots s' i) = view s' k).
Proof.
  intros Hinv Hc Ha Hinv'. apply act_change in Ha. inversion Ha as [|a t1 pc1 pc' s1 c _ Hc1 _ Hm| | | |].
  { by left. } simplify_eq.
  assert (∀ i k, (i, k) ∈ handles (with_cur c (with_pc t pc' s1)) → up_to_date (slot_meta s1 i) = true →
    data (slots s1 i) = view (with_cur c (with_pc t pc' s1)) k) as Hview.
  { intros i k Hin Hu. apply (o_handles _ _ Hinv'), (i_index _ _ (o_inv _ _ Hinv')) in Hin.
    unfold view. rewrite Hin. change (slot_meta (with_cur _ _) i) with (slot_meta s1 i). by rewrite Hu. }
  destruct Hm as [pc pc' Hf Hf' Hp Hv Hh|w k i Hk|pc pc' i Hf Hp Hr Hf' Hp' Hh Hv|pc k i Hf Hp Hq Hk Hr
    |pc pc' k i s1 Hf Hp Hv Hq Hl Hk Hc' Hs'|t' i k c' Hl Hr Hw|t' i k c']; try (by left).
  - right. exists i, k. split_and!; [done|done|]. intros Hw. apply Hview; [by left|by apply Hr].
  - destruct (rebind_spec k i s Hk) as (_ & _ & _ & _ & _ & _ & Hhs).
    { intros old Ho. by apply (i_index _ _ (o_inv _ _ Hinv)). }
    destruct Hs' as [(-> & Hw & ->)|(_ & _ & _ & _ & ->)]; [right|left; done].
    exists i, k. split_and!; [done|done|]. rewrite Hw. done.
Qed.

Definition orderly_step (s s' : St) : Prop := ∃ a, orderly a s ∧ act a s = Some (false, s').

Lemma init_oinv e memory d tasks :
  (∀ i, length (memory i) = Z.to_nat Layout.BLOCK_SIZE) →
  (∀ k, length (d k) = Z.to_nat Layout.BLOCK_SIZE) →
  oinv (buffer_count e) (init e memory d tasks).
Proof.
  intros Hm Hd. split; simpl; try done.
  - apply cache_init_inv.
  - intros i. unfold pins, slot_meta. simpl. induction tasks; [done|]. simpl. lia.
  - intros i k ?%elem_of_nil. done.
  - intros t pc i k [-> _]%lookup_replicate. done.
  - intros t y i k c [? _]%lookup_replicate. done.
  - intros i. rewrite lookup_empty. split; simpl; [apply Hm|done..].
Qed.

Lemma orderly_oinv n s0 s : oinv n s0 → rtc orderly_step s0 s → oinv n s.
Proof.
  intros H0. induction 1 as [|s1 s2 s3 (a & Ho & Ha) _ IH]; [done|]. apply IH.
  by eapply change_oinv, act_change.
Qed.

(** Panics are the clients' own. *)
Lemma orderly_panic n s a s' :
  oinv n s → act a s = Some (true, s') →
  ∃ m off src, a = Use m (WriteBytes off src) ∧ (1024 < off + length src)%nat.
Proof.
  assert (∀ A (o : option A) (f : A → option (bool * St)) r, o ≫= f = Some r → ∃ x, o = Some x ∧ f x = Some r)
    as Hb by (intros A [x|] f r; [by exists x|done]).
  intros Hinv. destruct a as [t| | | |w k|p l|m|m x|i|i b]; simpl.
  - by destruct (cur s), (threads s !! t).
  - intros ([t pc] & Hc & [= H])%Hb. destruct (resume pc s) as [r s1] eqn:Hr.
    apply step_result_cases in H as [[_ Hf]|[? _]]; [|done].
    destruct (resume_fails _ _ _ _ Hr Hf) as (i & Hp & Hz). apply current_Some in Hc as [_ Ht].
    pose proof (proj2 (pins_pos s i) t pc Ht Hp). rewrite (o_refs _ _ Hinv) in Hz. lia.
  - intros ([t pc] & Hc & H)%Hb. by destruct pc.
  - intros ([t pc] & Hc & H)%Hb. by destruct pc.
  - intros ([t pc] & Hc & H)%Hb. by destruct pc.
  - intros ([t pc] & Hc & H)%Hb. destruct pc; try done. case_bool_decide; [|done]. injection H as H.
    assert (total (pc' <- sync_next l ;; mok (Some pc'))) as Ht by (unfold sync_next; total).
    destruct (Ht s) as (o & s1 & E). rewrite E in H.
    apply step_result_cases in H as [[_ Hf]|[? _]]; [by destruct (Hf o)|done].
  - intros ([t pc] & Hc & H)%Hb. destruct pc; try done. by destruct (handles s !! m) as [[]|].
  - intros ([t pc] & Hc & H)%Hb. destruct pc; try done. destruct (handles s !! m) as [[i k]|]; [|done].
    destruct x as [f|off src|]; simpl in H; [done| |done]. exists m, off, src. split; [done|].
    unfold write_bytes, massert in H. case_bool_decide as Hn; [|change (Z.to_nat Layout.BLOCK_SIZE) with 1024%nat in Hn; lia].
    unfold bind in H. simpl in H. by case_bool_decide.
  - intros (r & Hr & H)%Hb. by case_bool_decide.
  - intros (r & Hr & H)%Hb. destruct (b && _); [done|]. injection H as Hl _.
    rewrite (i_request _ _ (o_inv _ _ Hinv)) in Hl; [done|by eexists].
Qed.

(** ** Runs *)

Definition disciplined_step (s s' : St) : Prop := ∃ a, disciplined a s ∧ act a s = Some (false, s').

(** Sufficient for [disciplined]. *)
Definition allowed (a : Action) (s : St) : bool :=
  match a with
  | Use _ (Modify _) => false
  | Use m x =>
      match handles s !! m with
      | Some (i, _) => up_to_date (slot_meta s i) || (whole x && negb (io_locked (slots s i)))
      | None => false
      end && match x with
             | WriteBytes off src => bool_decide (off + length src ≤ Z.to_nat Layout.BLOCK_SIZE)%nat
             | _ => true
             end
  | Complete _ b => b
  | _ => true
  end.

Fixpoint run (l : list Action) (s : St) : option St :=
  match l with
  | [] => Some s
  | a :: l' =>
      match act a s with
      | Some (false, s') => if allowed a s then run l' s' else None
      | _ => None
      end
  end.

Lemma allowed_disciplined a s : allowed a s = true → disciplined a s.
Proof.
  assert (∀ m x, match handles s !! m with
    | Some (i, _) => up_to_date (slot_meta s i) || (whole x && negb (io_locked (slots s i)))
    | None => false end = true →
    (∀ b, length b = Z.to_nat Layout.BLOCK_SIZE → length (accessed x b) = Z.to_nat Layout.BLOCK_SIZE) →
    disciplined (Use m x) s) as Huse.
  { intros m x H ?. split; [|done]. intros i k E. rewrite E in H.
    apply orb_true_iff in H as [?|[? ?%negb_true_iff]%andb_true_iff]; [by left|by right]. }
  destruct a as [| | | | | | |m [f|off src|]|i|i []]; cbn [allowed]; try done.
  - intros [H Hn%bool_decide_eq_true]%andb_true_iff. apply Huse; [done|]. intros b Hb. simpl.
    rewrite length_splice; lia.
  - intros [H _]%andb_true_iff. by apply Huse.
Qed.

Lemma run_disciplined l s s' : run l s = Some s' → rtc disciplined_step s s'.
Proof.
  revert s. induction l as [|a l IH]; intros s; simpl; [intros [= ->]; done|].
  destruct (act a s) as [[[] s1]|] eqn:Ha; [done| |done].
  destruct (allowed a s) eqn:Hd; [|done]. intros H. eapply rtc_l; [|by apply IH].
  exists a. split; [by apply allowed_disciplined|done].
Qed.

Lemma run_check l s (f : St → bool) :
  match run l s with Some s' => f s' | None => false end = true →
  ∃ s', rtc disciplined_step s s' ∧ f s' = true.
Proof.
  destruct (run l s) as [s'|] eqn:Hr; [|done]. intros Hf. exists s'. split; [|done].
  by eapply run_disciplined.
Qed.

(** Sufficient for [orderly]. *)
Definition in_order (a : Action) (s : St) : bool :=
  allowed a s && bool_decide (Z.of_nat (length (handles s) + length (threads s)) < 65535) &&
  match a, current s with
  | Run, Some (_, IoWait i (InFlush _ k)) =>
      io_locked (slots s i) || bool_decide (is_Some (buffer_index (manager s) !! k)) ||
      (ref_count (slot_meta s i) =? 0) && negb (dirty (slot_meta s i))
  | Run, Some (_, FindSlot _ i k _) => bool_decide (slot_key s i = Some k)
  | _, _ => true
  end.

Fixpoint run_in_order (l : list Action) (s : St) : option St :=
  match l with
  | [] => Some s
  | a :: l' =>
      match act a s with
      | Some (false, s') => if in_order a s then run_in_order l' s' else None
      | _ => None
      end
  end.

Lemma sum_le_length {A} (f : A → nat) l : (∀ x, f x ≤ 1)%nat → (sum_list_with f l ≤ length l)%nat.
Proof. intros Hf. induction l as [|x l IH]; simpl; [done|]. specialize (Hf x). lia. Qed.

Lemma in_order_orderly a s : in_order a s = true → orderly a s.
Proof.
  unfold in_order. intros [[Ha Hl%bool_decide_eq_true]%andb_true_iff Hc]%andb_true_iff.
  split_and!; [by apply allowed_disciplined| |].
  - intros i. unfold pins.
    pose proof (sum_le_length (handle_count i) (handles s)) as H1.
    pose proof (sum_le_length (pin_count i) (threads s)) as H2.
    assert (∀ h, handle_count i h ≤ 1)%nat as H3 by (intros h; unfold handle_count; case_decide; lia).
    assert (∀ h, pin_count i h ≤ 1)%nat as H4 by (intros h; unfold pin_count; case_decide; lia).
    specialize (H1 H3). specialize (H2 H4). lia.
  - intros ->. destruct (current s) as [[t pc]|]; [|done].
    destruct pc as [| | | | | |y i k c|i c|]; try done; [by apply bool_decide_eq_true in Hc|].
    destruct c; try done. intros Hlk Hk. rewrite Hlk in Hc. simpl in Hc.
    rewrite bool_decide_eq_false_2 in Hc by (by rewrite Hk; intros []). simpl in Hc.
    apply andb_true_iff in Hc as [?%Z.eqb_eq ?%negb_true_iff]. by split.
Qed.

Lemma run_orderly l s s' : run_in_order l s = Some s' → rtc orderly_step s s'.
Proof.
  revert s. induction l as [|a l IH]; intros s; cbn [run_in_order]; [intros [= ->]; done|].
  destruct (act a s) as [[[] s1]|] eqn:Ha; [done| |done].
  destruct (in_order a s) eqn:Hd; [|done]. intros H. eapply rtc_l; [|by apply IH].
  exists a. split; [by apply in_order_orderly|done].
Qed.

Lemma orderly_reachable s s' : rtc orderly_step s s' → reachable s s'.
Proof.
  induction 1 as [|s1 s2 s3 (a & _ & Ha) _ IH]; [apply rtc_refl|]. eapply rtc_l; [|exact IH]. by exists a.
Qed.

End cache.

(** ** Properties *)

(** C28: Under any interleaving of tasks and interrupts the index and the slots'
    keys are inverse to each other, so no block is cached twice; the replacement
    list keeps every slot; the lock of a slot has one holder, a submitting task or
    a request, and none when it is free, so that completions never release a
    free lock; and the victim of a replacement is an unreferenced slot that no
    other beats in the order of clean and free of I/O, clean, and dirty. *)
Theorem cache_index registered e memory d tasks s :
  let n := buffer_count e in
  reachable registered (init e memory d tasks) s →
  (∀ k i, buffer_index (manager s) !! k = Some i ↔ slot_key s i = Some k) ∧
  buffers (manager s) ≡ₚ seq 0 n ∧
  (∀ i, io_locked (slots s i) = true ↔ (∃ t, finding s t i) ∨ is_Some (requests s !! i)) ∧
  (∀ t i, finding s t i → requests s !! i = None ∧ ∀ t', finding s t' i → t' = t) ∧
  (∀ i b r, act registered (Complete i b) s ≠ Some (true, r)) ∧
  match find_reclaim_candidate s with
  | Some i => (i < n)%nat ∧ ref_count (slot_meta s i) = 0 ∧
      ∀ j, (j < n)%nat → ref_count (slot_meta s j) = 0 →
        reclaim_penalty (slots s i) ≤ reclaim_penalty (slots s j)
  | None => ∀ j, (j < n)%nat → ref_count (slot_meta s j) ≠ 0
  end.
Proof.
  intros n Hr. pose proof (reachable_inv _ _ _ _ (cache_init_inv e memory d tasks) Hr) as Hinv.
  destruct Hinv as [Hidx Hlist Hf Ho Hreq Hl _]. split_and!; [done|done| | | |].
  - intros i. split; [apply Hl|]. intros [[t ?]|?]; [by eapply Hf|by apply Hreq].
  - intros t i Hi. split; [by apply (Hf t)|]. intros t' ?. by eapply Ho.
  - intros i b r. simpl. destruct (requests s !! i) as [q|] eqn:Hq; [|done]. simpl.
    destruct (b && _); [done|]. rewrite Hreq by (by eexists). done.
  - pose proof (scan_spec (slots s) (buffers (manager s)) None) as Hs.
    assert (∀ j, (j < n)%nat ↔ j ∈ buffers (manager s)) as Hin.
    { intros j. rewrite Hlist. change (buffer_count e) with n. rewrite elem_of_seq. lia. }
    unfold find_reclaim_candidate. destruct (scan _ _ _) as [i|] eqn:Hi.
    + destruct Hs as (? & Hm & _); [done|]. destruct (scan_elem _ _ _ _ Hi) as [?|?]; [|done].
      split_and!; [by apply Hin|done|]. intros j ?%Hin. by apply Hm.
    + destruct Hs as [_ Hm]; [done|]. intros j ?%Hin. by apply Hm.
Qed.

(** C3: as long as clients are disciplined, disks do not fail writes, and the
    cache finds a flushed victim unreferenced and clean when it rebinds it and a
    slot's key unchanged when its request is queued, the cache is transparent:
    what is seen of a block changes by the writes of clients and by nothing else
    (not by eviction, reloading or syncing, at any point of an I/O); a handle
    shows the block that it was asked for; a task in [read] gets a handle with the
    block's contents; and no operation panics but a write out of bounds. *)
Theorem cache_transparent registered e memory d tasks s :
  (∀ i, length (memory i) = Z.to_nat Layout.BLOCK_SIZE) →
  (∀ k, length (d k) = Z.to_nat Layout.BLOCK_SIZE) →
  rtc (orderly_step registered) (init e memory d tasks) s →
  (∀ a s', orderly a s → act registered a s = Some (false, s') →
     (∀ k, (∀ x, ¬ writes a s k x) → view s' k = view s k) ∧
     (∀ k x, writes a s k x → view s' k = accessed x (view s k))) ∧
  (∀ i k, (i, k) ∈ handles s → slot_key s i = Some k ∧
     (up_to_date (slot_meta s i) = true → data (slots s i) = view s k)) ∧
  (∀ t pc s', current s = Some (t, pc) → orderly Run s → act registered Run s = Some (false, s') →
     handles s' = handles s ∨
     ∃ i k, asks pc = Some k ∧ handles s' = (i, k) :: handles s ∧
       (want pc = Some Read → data (slots s' i) = view s' k)) ∧
  (∀ a s', act registered a s = Some (true, s') →
     ∃ m off src, a = Use m (WriteBytes off src) ∧ (1024 < off + length src)%nat).
Proof.
  intros Hm Hd Hr. pose proof (orderly_oinv _ _ _ _ (init_oinv e memory d tasks Hm Hd) Hr) as Hinv.
  split_and!.
  - intros a s' Ho Ha. by eapply change_oinv, act_change.
  - intros i k Hin. pose proof (o_handles _ _ Hinv i k Hin) as Hk. split; [done|]. intros Hu.
    unfold view. apply (i_index _ _ (o_inv _ _ Hinv)) in Hk. by rewrite Hk, Hu.
  - intros t pc s' Hc Ho Ha. eapply act_run; try done. by eapply change_oinv, act_change.
  - intros a s' Ha. by eapply orderly_panic.
Qed.

(** *** The cache's part *)

Definition blk (b : Z) : BufferKey := mkKey 769 b.

(** One slot, three tasks, and disk blocks that are not zero. *)
Definition small : St :=
  init (LOW_MEM + 1024) (λ _, Layout.zero_block) (λ k, replicate 1024 (block_number k)) 3.

Definition any (_ : Z) : bool := true.

(** A task overwrites block 1 and releases it. *)
Definition dirty_block : list Action :=
  [Switch 0; Call Get (blk 1); Run; Run; Use 0 FillZero; Drop 0; Run; Leave].

(** Task 1 wants block 2 and flushes block 1; task 2 then wants block 1, and both
    wait for the flush. *)
Definition both_wait : list Action :=
  dirty_block ++ [Switch 1; Call Get (blk 2); Run; Run; Run; Run; Run;
                  Switch 2; Call Get (blk 1); Run; Run; Transfer 0; Transfer 0; Complete 0 true].

(** Task 1 sleeps for a free request in between, so that task 2 waits for the slot
    before it does; the last to sleep wakes first. *)
Definition both_wait_first : list Action :=
  dirty_block ++ [Switch 1; Call Get (blk 2); Run; Run; Run; WaitForSlot;
                  Switch 2; Call Get (blk 1); Run; Run; Switch 1; Run; Run;
                  Transfer 0; Transfer 0; Complete 0 true].

(** Task 1 rebinds the slot that task 2 is counted in; task 2 finds the key
    changed, takes itself out, and rebinds the slot of task 1. *)
Definition uncounted : list Action :=
  both_wait_first ++ [Switch 1; Run; Leave; Switch 2; Run; Run; Leave; Switch 1; Drop 1; Run; Leave;
                Switch 2; Drop 0].

(** Task 2 slept last and goes first, writes to block 1 and releases it. *)
Definition rewritten : list Action :=
  both_wait ++ [Switch 2; Run; Use 0 (WriteBytes 0 [5]); Drop 0; Run; Leave; Switch 1].

(** A sync waits for the slot of block 1, which is meanwhile flushed, rebound to
    block 2 and overwritten. *)
Definition stale : list Action :=
  dirty_block ++ [Switch 1; Call Get (blk 2); Run; Run; Run; WaitForSlot;
                  Switch 2; SyncDirty (λ _, true) [0%nat]; Run; Switch 1; Run; Run;
                  Transfer 0; Transfer 0; Complete 0 true;
                  Switch 1; Run; Use 0 (WriteBytes 0 (replicate 1024 5)); Drop 0; Run; Leave;
                  Switch 2; Run; Run].

(** A task gets block 2 after block 1 was overwritten and flushed. *)
Definition evicted : list Action :=
  dirty_block ++ [Switch 1; Call Get (blk 2); Run; Run; Run; Run; Run;
                  Transfer 0; Transfer 0; Complete 0 true; Switch 1; Run].

Lemma evicted_run :
  ∃ s, rtc (orderly_step any) small s ∧
    bool_decide (handles s = [(0%nat, blk 2)]) && bool_decide (view s (blk 1) !! 0%nat = Some 0) = true.
Proof.
  destruct (run_in_order any evicted small) as [s|] eqn:Hs; [|by vm_compute in Hs].
  exists s. split; [by eapply run_orderly|].
  assert (match run_in_order any evicted small with
    | Some s => bool_decide (handles s = [(0%nat, blk 2)]) && bool_decide (view s (blk 1) !! 0%nat = Some 0)
    | None => false end = true) as H by (by vm_compute).
  by rewrite Hs in H.
Qed.

Lemma cache_index_witness :
  ∃ s, reachable any small s ∧ handles s = [(0%nat, blk 2)] ∧ buffers (manager s) ≡ₚ seq 0 1.
Proof.
  destruct evicted_run as (s & Hr & [Hh%bool_decide_eq_true _]%andb_true_iff).
  exists s. pose proof (orderly_reachable _ _ _ Hr) as Hr'. split; [exact Hr'|]. split; [exact Hh|].
  exact (proj1 (proj2 (cache_index any (LOW_MEM + 1024) _ _ 3 s Hr'))).
Defined.

Lemma cache_transparent_witness :
  ∃ s, rtc (orderly_step any) small s ∧ view s (blk 1) !! 0%nat = Some 0 ∧
    slot_key s 0 = Some (blk 2).
Proof.
  destruct evicted_run as (s & Hr & [Hh%bool_decide_eq_true Hv%bool_decide_eq_true]%andb_true_iff).
  exists s. split; [exact Hr|]. split; [exact Hv|].
  refine (proj1 (proj1 (proj2 (cache_transparent any (LOW_MEM + 1024) _ _ 3 s _ _ Hr)) 0%nat (blk 2) _)).
  - intros i. apply length_replicate.
  - intros k. apply length_replicate.
  - rewrite Hh. left.
Defined.

Definition panics_now (s : St) : bool :=
  match act any Run s with Some (true, _) => true | _ => false end.

(** The first byte of block 1 before and after an action. *)
Definition first_bytes (a : Action) (s : St) : option (option Z * option Z) :=
  match act any a s with
  | Some (false, s') => Some (view s (blk 1) !! 0%nat, view s' (blk 1) !! 0%nat)
  | _ => None
  end.

(** The cache does not keep its part by itself.  With disciplined clients and
    a disk that never fails, (1) releasing a block panics the kernel with "zero
    reference count"; (2) a rebinding undoes a write; (3) an I/O overwrites one
    block with another's contents.  In the first two, a flushed victim is taken
    although another task has counted itself in or written to it during the
    flush; in the third, a request carries the key read before its submitter
    slept. *)
Theorem cache_races :
  (∃ s s', rtc (disciplined_step any) small s ∧ act any Run s = Some (true, s')) ∧
  (∃ s s', rtc (disciplined_step any) small s ∧ act any Run s = Some (false, s') ∧
     view s (blk 1) !! 0%nat = Some 5 ∧ view s' (blk 1) !! 0%nat = Some 0) ∧
  (∃ s s', rtc (disciplined_step any) small s ∧ act any (Transfer 0) s = Some (false, s') ∧
     view s (blk 1) !! 0%nat = Some 0 ∧ view s' (blk 1) !! 0%nat = Some 5).
Proof.
  assert (∀ a l p, match run any l small with
      Some s => bool_decide (first_bytes a s = Some p) | None => false end = true →
    ∃ s s', rtc (disciplined_step any) small s ∧ act any a s = Some (false, s') ∧
      view s (blk 1) !! 0%nat = p.1 ∧ view s' (blk 1) !! 0%nat = p.2) as Hv.
  { intros a l p (s & Hr & Hf%bool_decide_eq_true)%run_check. unfold first_bytes in Hf.
    destruct (act any a s) as [[[] s']|] eqn:E; [done| |done]. injection Hf as <-. by exists s, s'. }
  split_and!.
  - destruct (run_check any uncounted small panics_now) as (s & Hr & Hf); [by vm_compute|].
    unfold panics_now in Hf. destruct (act any Run s) as [[[] s']|] eqn:E; try done. by exists s, s'.
  - apply (Hv Run rewritten (Some 5, Some 0)). by vm_compute.
  - apply (Hv (Transfer 0) stale (Some 0, Some 5)). by vm_compute.
Qed.

End Buffer.
