(* ===== verification/Minix.v ===== *)
(** * Minix files ([kernel/src/fs/minix.rs])

    One inode of a mounted file system: the map from file blocks to zones, read,
    write and truncate.  The blocks are seen through the buffer cache; a block
    that is not cached may fail to be read. *)

From S2P Require Import Prelude Bitmap Layout.
From stdpp Require Import gmap.
Open Scope kmonad_scope.
Open Scope Z_scope.

Module Minix.
Import Layout.

Definition INDIRECT_ENTRIES_PER_BLOCK : Z := BLOCK_SIZE / 2.

Definition MAX_LOGICAL_BLOCKS : Z :=
  DIRECT_ZONE_COUNT + INDIRECT_ENTRIES_PER_BLOCK + INDIRECT_ENTRIES_PER_BLOCK * INDIRECT_ENTRIES_PER_BLOCK.

Record InodeInner : Type := mkInner {
  disk_inode : DiskInode;
  is_dirty : bool;
  access_time : Z;
  change_time : Z;
}.

(** [faults] says for each coming block read whether the device fails; a list
    that has run out stands for a device that works. *)
Record St : Type := mkSt {
  cache : gmap Z Block;
  faults : list bool;
  zones : Bitmap.Bitmap;
  mounted : bool;
  inner : InodeInner;
  now : Z;
}.

Definition with_cache (s : St) (c : gmap Z Block) : St :=
  mkSt c (faults s) (zones s) (mounted s) (inner s) (now s).
Definition with_faults (s : St) (f : list bool) : St :=
  mkSt (cache s) f (zones s) (mounted s) (inner s) (now s).
Definition with_zones (s : St) (z : Bitmap.Bitmap) : St :=
  mkSt (cache s) (faults s) z (mounted s) (inner s) (now s).
Definition with_inner (s : St) (i : InodeInner) : St :=
  mkSt (cache s) (faults s) (zones s) (mounted s) i (now s).

Definition block_at (s : St) (z : Z) : Block := default zero_block (cache s !! z).

(** ** The inode *)

Definition set_disk (f : DiskInode → DiskInode) : M St () :=
  mmodify (λ s, with_inner s (mkInner (f (disk_inode (inner s))) (is_dirty (inner s))
                                (access_time (inner s)) (change_time (inner s)))).

Definition disk : M St DiskInode := mgets (λ s, disk_inode (inner s)).

Definition touch_access : M St () :=
  mmodify (λ s, with_inner s (mkInner (disk_inode (inner s)) true (now s) (change_time (inner s)))).
Definition touch_change : M St () :=
  mmodify (λ s, with_inner s (mkInner (disk_inode (inner s)) true (access_time (inner s)) (now s))).

Definition set_mtime (t : Z) (d : DiskInode) : DiskInode :=
  mkDiskInode (mode d) (user_id d) (size d) t (group_id d) (link_count d) (direct_zones d)
    (single_indirect_zone d) (double_indirect_zone d).
Definition set_size (x : Z) (d : DiskInode) : DiskInode :=
  mkDiskInode (mode d) (user_id d) x (modification_time d) (group_id d) (link_count d) (direct_zones d)
    (single_indirect_zone d) (double_indirect_zone d).
Definition set_direct (l : list Z) (d : DiskInode) : DiskInode :=
  mkDiskInode (mode d) (user_id d) (size d) (modification_time d) (group_id d) (link_count d) l
    (single_indirect_zone d) (double_indirect_zone d).
Definition set_single (z : Z) (d : DiskInode) : DiskInode :=
  mkDiskInode (mode d) (user_id d) (size d) (modification_time d) (group_id d) (link_count d) (direct_zones d)
    z (double_indirect_zone d).
Definition set_double (z : Z) (d : DiskInode) : DiskInode :=
  mkDiskInode (mode d) (user_id d) (size d) (modification_time d) (group_id d) (link_count d) (direct_zones d)
    (single_indirect_zone d) z.

Definition touch_modified : M St () :=
  t <- mgets now;;
  set_disk (set_mtime t);;;
  touch_change.

(** ** Blocks and zones *)

(** [buffer::read] *)
Definition read_block (z : Z) : M St (option Block) := λ s,
  match faults s with
  | [] => (Ok (Some (block_at s z)), s)
  | fault :: rest => (Ok (if fault : bool then None else Some (block_at s z)), with_faults s rest)
  end.

(** [BufferHandle::modify] on a block that has been read. *)
Definition modify_block (z : Z) (f : Block → Block) : M St () :=
  mmodify (λ s, with_cache s (<[z := f (block_at s z)]> (cache s))).

Definition on_zones {A} (m : M Bitmap.Bitmap A) : M St A := λ s,
  let '(r, b) := m (zones s) in (r, with_zones s b).

Definition alloc_zone : M St (option Z) :=
  o <- on_zones Bitmap.alloc;;
  match o with
  | None => mok None
  | Some id => modify_block (as_u16 id) (λ _, zero_block);;; mok (Some (as_u16 id))
  end.

Definition free_zone (zone : Z) : M St () :=
  if zone =? 0 then mok () else on_zones (Bitmap.dealloc zone).

(** ** The block map *)

(** The zone, and whether it is a new one. *)
Definition try_alloc (create : bool) (current : Z) : M St (Z * bool) :=
  if (current =? 0) && create
  then o <- alloc_zone;; let zone := default 0 o in mok (zone, negb (zone =? 0))
  else mok (current, false).

Definition resolve_indirect_entry (create : bool) (block_number index : Z) : M St Z :=
  if block_number =? 0 then mok 0
  else
    o <- read_block block_number;;
    match o with
    | None => merr IO
    | Some blk =>
        let zone := u16_at blk index in
        if (zone =? 0) && create
        then
          o <- alloc_zone;;
          match o with
          | Some new_zone => modify_block block_number (u16_set index new_zone);;; mok new_zone
          | None => mok 0
          end
        else mok zone
    end.

(** Store a new root pointer. *)
Definition store_new (set : Z → DiskInode → DiskInode) (r : Z * bool) : M St () :=
  if r.2 then set_disk (set r.1);;; touch_change else mok ().

Definition map_block_id (logic_id : Z) (create : bool) : M St Z :=
  if MAX_LOGICAL_BLOCKS <=? logic_id then merr FBIG
  else
    m <- mgets mounted;;
    if negb m then merr IO
    else
      d <- disk;;
      if logic_id <? DIRECT_ZONE_COUNT then
        current <- mexpect (zlookup (direct_zones d) logic_id);;
        r <- try_alloc create current;;
        store_new (λ z d, set_direct (zupdate (direct_zones d) logic_id z) d) r;;;
        mok r.1
      else if logic_id <? INDIRECT_ZONE_INDEX + INDIRECT_ENTRIES_PER_BLOCK then
        r <- try_alloc create (single_indirect_zone d);;
        store_new set_single r;;;
        resolve_indirect_entry create r.1 (logic_id - INDIRECT_ZONE_INDEX)
      else
        r <- try_alloc create (double_indirect_zone d);;
        store_new set_double r;;;
        let block := logic_id - (DOUBLE_INDIRECT_ZONE_INDEX + INDIRECT_ENTRIES_PER_BLOCK - 1) in
        second_level_zone <- resolve_indirect_entry create r.1 (block / INDIRECT_ENTRIES_PER_BLOCK);;
        resolve_indirect_entry create second_level_zone (block mod INDIRECT_ENTRIES_PER_BLOCK).

(** ** Reading *)

(** The loop of [read_at]; every turn reads at least one byte, so [left] turns
    are enough fuel.  [got] is what the buffer has so far. *)
Fixpoint read_loop (fuel : nat) (pos left : Z) (got : list Z) : M St (list Z) :=
  if left <=? 0 then touch_access;;; mok got
  else match fuel with
  | O => mpanic
  | S fuel =>
      let logical_block := pos / BLOCK_SIZE in
      let block_offset := pos mod BLOCK_SIZE in
      let chunk_len := Z.min left (BLOCK_SIZE - block_offset) in
      block_id <- map_block_id logical_block false;;
      if block_id =? 0
      then read_loop fuel (pos + chunk_len) (left - chunk_len) (got ++ replicate (Z.to_nat chunk_len) 0)
      else
        o <- read_block block_id;;
        match o with
        | None => match got with [] => merr IO | _ => mok got end
        | Some block =>
            read_loop fuel (pos + chunk_len) (left - chunk_len) (got ++ slice block block_offset chunk_len)
        end
  end.

(** The bytes read into a buffer of [len] bytes. *)
Definition read_at (offset len : Z) : M St (list Z) :=
  if len =? 0 then mok []
  else
    d <- disk;;
    if size d <=? offset then mok []
    else
      let left := Z.min len (size d - offset) in
      read_loop (Z.to_nat left) offset left [].

(** ** Writing *)

(** The loop of [write_at]: the bytes written so far and why it stopped.  A
    [modify] on the chunk's block writes at least one byte. *)
Fixpoint write_loop (fuel : nat) (offset written : Z) (buf : list Z) : M St (Z * option Errno) :=
  if Z.of_nat (length buf) <=? written then mok (written, None)
  else match fuel with
  | O => mpanic
  | S fuel =>
      let pos := offset + written in
      let logical_block := pos / BLOCK_SIZE in
      let block_offset := pos mod BLOCK_SIZE in
      let chunk_len := Z.min (Z.of_nat (length buf) - written) (BLOCK_SIZE - block_offset) in
      r <- mtry (map_block_id logical_block true);;
      match r with
      | inr e => mok (written, Some e)
      | inl block_id =>
          if block_id =? 0 then mok (written, Some ERROR)
          else
            o <- read_block block_id;;
            match o with
            | None => mok (written, Some ERROR)
            | Some _ =>
                modify_block block_id (λ block, splice block block_offset (slice buf written chunk_len));;;
                write_loop fuel offset (written + chunk_len) buf
            end
      end
  end.

Definition write_at (offset : Z) (buf : list Z) : M St Z :=
  if (length buf =? 0)%nat then mok 0
  else
    w <- write_loop (length buf) offset 0 buf;;
    let '(written, outcome) := w in
    let pos := offset + written in
    d <- disk;;
    (if size d <? pos then set_disk (set_size (as_u32 pos)) else mok ());;;
    touch_modified;;;
    match outcome with
    | Some e => if written =? 0 then merr e else mok written
    | None => mok written
    end.

(** ** Truncation *)

(** [levels] is the depth of the tree below [zone]; an unreadable block keeps
    its children. *)
Fixpoint free_zone_tree (levels : nat) (zone : Z) : M St () :=
  if zone =? 0 then mok ()
  else
    (match levels with
     | O => mok ()
     | S levels =>
         o <- read_block zone;;
         match o with
         | None => mok ()
         | Some buf =>
             mfor (map (u16_at buf) (seqZ 0 INDIRECT_ENTRIES_PER_BLOCK)) (free_zone_tree levels)
         end
     end);;;
    free_zone zone.

Definition truncate : M St () :=
  m <- mgets mounted;;
  if negb m then mok ()
  else
    d <- disk;;
    t <- mexpect (file_type (mode d));;
    match t with
    | Regular | Directory =>
        mfor (direct_zones d) free_zone;;;
        set_disk (set_direct (replicate 7 0));;;
        set_disk (set_single 0);;;
        free_zone_tree 1 (single_indirect_zone d);;;
        set_disk (set_double 0);;;
        free_zone_tree 2 (double_indirect_zone d);;;
        set_disk (set_size 0);;;
        touch_modified
    | _ => mok ()
    end.
End Minix.
