(* ===== verification/BlockMap.v ===== *)
(** * Files as bytes: the block map of [kernel/src/fs/minix.rs]

    The zones of a file hang off the inode as a tree of depth at most two.  Here
    its pointers get names, a file gets its contents, and [map_block_id],
    [read_at], [write_at] and [truncate] their specifications. *)

From S2P Require Import Prelude Bitmap Layout Minix.
From stdpp Require Import gmap.
Open Scope kmonad_scope.
Open Scope Z_scope.

Module BlockMap.
Import Layout Minix.

(** ** Pointers *)

Inductive root : Set := Direct (i : Z) | Single | Double.

(** [Slot p i] is entry [i] of the table that [p] points to. *)
Inductive loc : Set := Root (r : root) | Slot (p : loc) (i : Z).

#[global] Instance root_eq_dec : EqDecision root.
Proof. solve_decision. Defined.
#[global] Instance loc_eq_dec : EqDecision loc.
Proof. solve_decision. Defined.

(** The depth of the tree below a pointer: 0 for the pointers to data. *)
Fixpoint level (p : loc) : option nat :=
  match p with
  | Root (Direct i) => if (0 <=? i) && (i <? DIRECT_ZONE_COUNT) then Some 0%nat else None
  | Root Single => Some 1%nat
  | Root Double => Some 2%nat
  | Slot p i =>
      match level p with
      | Some (S n) => if (0 <=? i) && (i <? INDIRECT_ENTRIES_PER_BLOCK) then Some n else None
      | _ => None
      end
  end.

Definition valid (p : loc) : Prop := is_Some (level p).

Definition root_val (d : DiskInode) (r : root) : Z :=
  match r with
  | Direct i => default 0 (zlookup (direct_zones d) i)
  | Single => single_indirect_zone d
  | Double => double_indirect_zone d
  end.

Definition entry (s : St) (zone i : Z) : Z := if zone =? 0 then 0 else u16_at (block_at s zone) i.

Fixpoint val (s : St) (p : loc) : Z :=
  match p with
  | Root r => root_val (disk_inode (inner s)) r
  | Slot p i => entry s (val s p) i
  end.

(** Where the zone of a file block is kept. *)
Definition data_loc (l : Z) : loc :=
  if l <? 7 then Root (Direct l)
  else if l <? 519 then Slot (Root Single) (l - 7)
  else Slot (Slot (Root Double) ((l - 519) / 512)) ((l - 519) mod 512).

(** The contents of a file block; a hole reads as zeros. *)
Definition contents (s : St) (l : Z) : Block :=
  let z := val s (data_loc l) in if z =? 0 then zero_block else block_at s z.

Definition file_byte (s : St) (pos : Z) : Z := byte_at (contents s (pos / BLOCK_SIZE)) (pos mod BLOCK_SIZE).

Definition file_bytes (s : St) (pos n : Z) : list Z := map (file_byte s) (seqZ pos n).

Definition MAX_FILE_SIZE : Z := MAX_LOGICAL_BLOCKS * BLOCK_SIZE.

(** ** Well-formed states *)

(** The data zones come after the first identifier of the bitmap. *)
Definition zone_used (s : St) (z : Z) : Prop :=
  let b := zones s in
  Bitmap.base_id b < z < Bitmap.base_id b + Z.of_nat (Bitmap.bit_count b) ∧
  Bitmap.used b (Z.to_nat (z - Bitmap.base_id b)) = true.

Definition disk_full (s : St) : Prop := Bitmap.free_bits (zones s) = [].

Record wf (s : St) : Prop := {
  wf_bitmap : Bitmap.wf (zones s);
  wf_first : Bitmap.used (zones s) 0 = true;
  wf_ids : 0 ≤ Bitmap.base_id (zones s) ∧
    Bitmap.base_id (zones s) + Z.of_nat (Bitmap.bit_count (zones s)) ≤ 2 ^ 16;
  wf_blocks : ∀ z, block_ok (block_at s z);
  wf_direct : length (direct_zones (disk_inode (inner s))) = 7%nat;
  (** Every zone of the file is taken in the bitmap, and has one pointer. *)
  wf_used : ∀ p, valid p → val s p ≠ 0 → zone_used s (val s p);
  wf_inj : ∀ p q, valid p → valid q → val s p = val s q → val s p ≠ 0 → p = q;
}.

Lemma level_slot p i n : level (Slot p i) = Some n → level p = Some (S n) ∧ 0 ≤ i < INDIRECT_ENTRIES_PER_BLOCK.
Proof.
  simpl. destruct (level p) as [[|m]|]; [done| |done].
  destruct (Z.leb_spec 0 i), (Z.ltb_spec i INDIRECT_ENTRIES_PER_BLOCK); simpl; try done. intros [= ->]. done.
Qed.

Lemma valid_parent p i : valid (Slot p i) → valid p ∧ 0 ≤ i < INDIRECT_ENTRIES_PER_BLOCK.
Proof. intros [n Hn]. apply level_slot in Hn as [Hp Hi]. split; [by eexists|done]. Qed.

Lemma slot_ne p i : Slot p i ≠ p.
Proof. revert i. induction p as [r|p IH j]; intros i [=]. by eapply IH. Qed.

Lemma data_loc_level l : 0 ≤ l < MAX_LOGICAL_BLOCKS → level (data_loc l) = Some 0%nat.
Proof.
  change MAX_LOGICAL_BLOCKS with 262663. intros Hl. unfold data_loc.
  destruct (Z.ltb_spec l 7); [|destruct (Z.ltb_spec l 519)]; simpl.
  - by rewrite (proj2 (Z.leb_le 0 l)), (proj2 (Z.ltb_lt l DIRECT_ZONE_COUNT)) by (unfold DIRECT_ZONE_COUNT; lia).
  - rewrite (proj2 (Z.leb_le _ _)), (proj2 (Z.ltb_lt _ _)); [done| |lia]. change INDIRECT_ENTRIES_PER_BLOCK with 512. lia.
  - pose proof (Z.mod_pos_bound (l - 519) 512). pose proof (Z.div_mod (l - 519) 512).
    change INDIRECT_ENTRIES_PER_BLOCK with 512.
    rewrite (proj2 (Z.leb_le 0 ((l - 519) / 512))) by lia. rewrite (proj2 (Z.ltb_lt ((l - 519) / 512) 512)) by lia.
    by rewrite (proj2 (Z.leb_le _ _)), (proj2 (Z.ltb_lt _ _)) by lia.
Qed.

Lemma data_loc_inj l m : data_loc l = data_loc m → l = m.
Proof.
  unfold data_loc. destruct (Z.ltb_spec l 7), (Z.ltb_spec m 7); try (intros [= ->]; lia);
    destruct (Z.ltb_spec l 519), (Z.ltb_spec m 519); try done; intros [=]; try lia.
  pose proof (Z.div_mod (l - 519) 512). pose proof (Z.div_mod (m - 519) 512). lia.
Qed.

Lemma data_loc_valid l : 0 ≤ l < MAX_LOGICAL_BLOCKS → valid (data_loc l).
Proof. intros Hl. exists 0%nat. by apply data_loc_level. Qed.

Lemma contents_ok s l : wf s → block_ok (contents s l).
Proof. intros Hwf. unfold contents. destruct (_ =? 0); [apply zero_block_ok|by apply wf_blocks]. Qed.

Lemma used_uint s z : wf s → zone_used s z → is_uint 16 z.
Proof. intros Hwf [Hz _]. pose proof (wf_ids _ Hwf). unfold is_uint. lia. Qed.

Lemma val_uint s p : wf s → valid p → is_uint 16 (val s p).
Proof.
  intros Hwf Hp. destruct (decide (val s p = 0)) as [->|]; [unfold is_uint; lia|].
  apply (used_uint s); [done|by apply wf_used].
Qed.

(** ** Growing the tree *)

(** [z] is taken from the bitmap and its block cleared. *)
Record fresh (s s' : St) (z : Z) : Prop := {
  fr_nonzero : z ≠ 0;
  fr_uint : is_uint 16 z;
  fr_unused : ¬ zone_used s z;
  fr_used : ∀ x, zone_used s' x ↔ zone_used s x ∨ x = z;
  fr_bitmap : Bitmap.wf (zones s');
  fr_first : Bitmap.used (zones s') 0 = true;
  fr_ids : 0 ≤ Bitmap.base_id (zones s') ∧
    Bitmap.base_id (zones s') + Z.of_nat (Bitmap.bit_count (zones s')) ≤ 2 ^ 16;
}.

Lemma lookup_block s z b x :
  default zero_block (<[z := b]> (cache s) !! x) = if decide (x = z) then b else block_at s x.
Proof.
  unfold block_at. case_decide as Hx; [subst x; by rewrite lookup_insert_eq|by rewrite lookup_insert_ne by done].
Qed.

Lemma alloc_zone_spec s :
  wf s →
  (∃ z zb, alloc_zone s = (Ok (Some z), with_cache (with_zones s zb) (<[z := zero_block]> (cache s))) ∧
     fresh s (with_cache (with_zones s zb) (<[z := zero_block]> (cache s))) z) ∨
  (disk_full s ∧ alloc_zone s = (Ok None, s)).
Proof.
  intros Hwf. unfold alloc_zone. destruct (Bitmap.alloc_outcome _ (wf_bitmap _ Hwf)) as
    [(m & zb & (Hm & Hfree & Hlow) & Ha & Hzb & Hbase & Hcount & Hbits)|[Hfull Ha]].
  - left. pose proof (wf_ids _ Hwf) as [Hids Hmax].
    set (z := Bitmap.base_id (zones s) + Z.of_nat m) in *.
    assert (m ≠ 0%nat) as Hm0 by (intros ->; by rewrite (wf_first _ Hwf) in Hfree).
    assert (is_uint 16 z) as Hz by (unfold is_uint, z; lia).
    exists z, zb. split.
    + erewrite bind_Ok by (unfold on_zones; by rewrite Ha). cbv beta iota.
      rewrite (wrap_small 16 z) by done. by erewrite bind_Ok by done.
    + split; cbn [zones with_cache with_zones]; try done.
      * unfold z. lia.
      * intros [_ Hu]. unfold z in Hu. replace (Z.to_nat _) with m in Hu by lia. congruence.
      * intros x. unfold zone_used. cbn [zones with_cache with_zones]. rewrite Hbase, Hcount, Hbits. split.
        -- intros [Hr Hu]. case_decide; [right; unfold z; lia|by left].
        -- intros [[Hr Hu]|Hx].
           ++ split; [done|]. by destruct (decide _).
           ++ split; [unfold z in Hx; lia|]. rewrite decide_True; [done|unfold z in Hx; lia].
      * rewrite Hbits, decide_False by lia. apply (wf_first _ Hwf).
      * by rewrite Hbase, Hcount.
  - right. split; [done|]. erewrite bind_Ok by (unfold on_zones; by rewrite Ha). by destruct s.
Qed.

(** A fresh zone stored at a null pointer [p]. *)
Record stored (s s' : St) (p : loc) (z : Z) : Prop := {
  sd_fresh : fresh s s' z;
  sd_roots : ∀ r, root_val (disk_inode (inner s')) r =
    if decide (Root r = p) then z else root_val (disk_inode (inner s)) r;
  sd_direct : length (direct_zones (disk_inode (inner s'))) = 7%nat;
  sd_new : block_at s' z = zero_block;
  sd_blocks : ∀ x, x ≠ z → block_at s' x =
    match p with
    | Slot t i => if decide (x = val s t) then u16_set i z (block_at s x) else block_at s x
    | Root _ => block_at s x
    end;
}.

Section stored.
Context (s s' : St) (p : loc) (z : Z).
Context (Hwf : wf s) (Hp : valid p) (Hnull : val s p = 0).
Context (Htab : match p with Slot t _ => val s t ≠ 0 | Root _ => True end).
Context (Hst : stored s s' p z).

Lemma stored_ne q : valid q → val s q ≠ z.
Proof.
  intros Hq E. destruct (sd_fresh _ _ _ _ Hst) as [Hz0 _ Hun _ _ _ _]. apply Hun. rewrite <- E.
  apply wf_used; [done..|congruence].
Qed.

Lemma stored_val q : valid q → val s' q = if decide (q = p) then z else val s q.
Proof using Hwf Hp Hnull Htab Hst.
  induction q as [r|t IH j]; intros Hq; [by rewrite <- (sd_roots _ _ _ _ Hst)|].
  destruct (valid_parent _ _ Hq) as [Ht Hj]. change INDIRECT_ENTRIES_PER_BLOCK with 512 in Hj.
  cbn [val]. rewrite IH by done. unfold entry. destruct (decide (t = p)) as [E|Htp].
  - rewrite decide_False by (rewrite <- E; apply slot_ne).
    rewrite E, Hnull. destruct (z =? 0); [done|]. by rewrite (sd_new _ _ _ _ Hst), u16_at_zero.
  - destruct (Z.eqb_spec (val s t) 0) as [E|E].
    { destruct (decide (Slot t j = p)) as [Ep|]; [by rewrite <- Ep in Htab|done]. }
    rewrite (sd_blocks _ _ _ _ Hst) by (by apply stored_ne).
    pose proof (fr_uint _ _ _ (sd_fresh _ _ _ _ Hst)) as Hz.
    destruct p as [r|t' i]; [by rewrite decide_False|]. destruct (valid_parent _ _ Hp) as [Ht' Hi].
    destruct (decide (val s t = val s t')) as [Et|Et].
    + apply (wf_inj _ Hwf) in Et as <-; [|done..]. rewrite u16_at_set by (done || by apply wf_blocks).
      destruct (decide (i = j)) as [->|]; [by rewrite decide_True|rewrite decide_False; [done|congruence]].
    + rewrite decide_False; [done|congruence].
Qed.

Lemma stored_wf : wf s'.
Proof using Hwf Hp Hnull Htab Hst.
  destruct (sd_fresh _ _ _ _ Hst) as [Hz0 Hz Hun Hu Hb Hf Hids]. split; try done.
  - intros x. destruct (decide (x = z)) as [->|Hx]; [rewrite (sd_new _ _ _ _ Hst); apply zero_block_ok|].
    rewrite (sd_blocks _ _ _ _ Hst) by done. pose proof (wf_blocks _ Hwf x).
    destruct p as [r|t i]; [done|]. destruct (valid_parent _ _ Hp) as [_ Hi]. case_decide; [by apply u16_set_ok|done].
  - apply (sd_direct _ _ _ _ Hst).
  - intros q Hq. rewrite stored_val by done. intros Hv. apply Hu. case_decide; [by right|left; by apply wf_used].
  - intros q q' Hq Hq'. rewrite !stored_val by done. case_decide; case_decide; try congruence.
    + intros E. by destruct (stored_ne q').
    + intros E. by destruct (stored_ne q).
    + by apply (wf_inj _ Hwf).
Qed.

(** Blocks of data are not touched. *)
Lemma stored_block q : level q = Some 0%nat → val s q ≠ 0 → block_at s' (val s q) = block_at s (val s q).
Proof using Hwf Hp Hnull Htab Hst.
  intros Hq Hv. rewrite (sd_blocks _ _ _ _ Hst) by (apply stored_ne; by eexists).
  destruct p as [r|t i]; [done|]. rewrite decide_False; [done|]. intros E.
  destruct Hp as [n Hn]. apply level_slot in Hn as [Ht _].
  apply (wf_inj _ Hwf) in E as <-; [congruence|by eexists|by eexists|done].
Qed.

Lemma stored_contents l : 0 ≤ l < MAX_LOGICAL_BLOCKS → contents s' l = contents s l.
Proof using Hwf Hp Hnull Htab Hst.
  intros Hl. pose proof (data_loc_level l Hl) as Hd. unfold contents. rewrite stored_val by (by eexists).
  case_decide as E.
  - rewrite E, Hnull, (sd_new _ _ _ _ Hst). simpl. by destruct (z =? 0).
  - destruct (Z.eqb_spec (val s (data_loc l)) 0); [done|]. by apply stored_block.
Qed.
End stored.

(** ** Extensions *)

(** What [map_block_id] may do: add zones, each with a pointer of its own,
    without a visible change to the file. *)
Record ext (s s' : St) : Prop := {
  ex_wf : wf s';
  ex_contents : ∀ l, 0 ≤ l < MAX_LOGICAL_BLOCKS → contents s' l = contents s l;
  ex_size : size (disk_inode (inner s')) = size (disk_inode (inner s));
  ex_mode : mode (disk_inode (inner s')) = mode (disk_inode (inner s));
  ex_mounted : mounted s' = mounted s;
  ex_now : now s' = now s;
  ex_faults : faults s = [] → faults s' = [];
  ex_vals : ∀ p, valid p → val s p ≠ 0 → val s' p = val s p;
  ex_used : ∀ x, zone_used s x → zone_used s' x;
  ex_no_leak : ∀ x, zone_used s' x → zone_used s x ∨ ∃ p, valid p ∧ val s' p = x ∧ x ≠ 0;
}.

Lemma ext_refl s : wf s → ext s s.
Proof. intros Hwf. split; auto. Qed.

Lemma ext_trans s1 s2 s3 : ext s1 s2 → ext s2 s3 → ext s1 s3.
Proof.
  intros H1 H2. split.
  - apply (ex_wf _ _ H2).
  - intros l Hl. rewrite (ex_contents _ _ H2), (ex_contents _ _ H1) by done. done.
  - by rewrite (ex_size _ _ H2), (ex_size _ _ H1).
  - by rewrite (ex_mode _ _ H2), (ex_mode _ _ H1).
  - by rewrite (ex_mounted _ _ H2), (ex_mounted _ _ H1).
  - by rewrite (ex_now _ _ H2), (ex_now _ _ H1).
  - intros Hf. by apply (ex_faults _ _ H2), (ex_faults _ _ H1).
  - intros p Hp Hv. pose proof (ex_vals _ _ H1 p Hp Hv) as E. rewrite <- E. apply (ex_vals _ _ H2); [done|congruence].
  - intros x Hx. by apply (ex_used _ _ H2), (ex_used _ _ H1).
  - intros x [Hx|?]%(ex_no_leak _ _ H2); [|by right].
    apply (ex_no_leak _ _ H1) in Hx as [?|(p & Hp & Hv & Hx)]; [by left|]. right. exists p.
    split_and!; [done| |done]. rewrite <- Hv. apply (ex_vals _ _ H2); [done|congruence].
Qed.

(** A state that differs in the coming faults and in what the file does not
    show. *)
Lemma val_ext s s' p : cache s' = cache s → disk_inode (inner s') = disk_inode (inner s) → val s' p = val s p.
Proof.
  intros Hc Hd. induction p as [r|p IH i]; simpl; [by rewrite Hd|]. unfold entry, block_at. by rewrite IH, Hc.
Qed.

Record alike (s s' : St) : Prop := {
  al_cache : cache s' = cache s;
  al_disk : disk_inode (inner s') = disk_inode (inner s);
  al_zones : zones s' = zones s;
  al_mounted : mounted s' = mounted s;
  al_now : now s' = now s;
  al_faults : faults s = [] → faults s' = [];
}.

Lemma alike_refl s : alike s s.
Proof. by split. Qed.

Lemma alike_trans s1 s2 s3 : alike s1 s2 → alike s2 s3 → alike s1 s3.
Proof. intros [] []. split; try congruence. auto. Qed.

Lemma alike_val s s' p : alike s s' → val s' p = val s p.
Proof. intros Ha. apply val_ext; apply Ha. Qed.

Lemma alike_block s s' z : alike s s' → block_at s' z = block_at s z.
Proof. intros Ha. unfold block_at. by rewrite (al_cache _ _ Ha). Qed.

Lemma alike_contents s s' l : alike s s' → contents s' l = contents s l.
Proof. intros Ha. unfold contents. by rewrite (alike_val s), (alike_block s) by done. Qed.

Lemma alike_wf s s' : wf s → alike s s' → wf s'.
Proof.
  intros Hwf Ha. pose proof (λ p, alike_val s s' p Ha) as Hv. split; rewrite ?(al_zones _ _ Ha), ?(al_disk _ _ Ha).
  - apply Hwf.
  - apply Hwf.
  - apply Hwf.
  - intros z. rewrite (alike_block s) by done. by apply wf_blocks.
  - apply Hwf.
  - intros p Hp. unfold zone_used. rewrite Hv, (al_zones _ _ Ha). by apply (wf_used _ Hwf).
  - intros p q Hp Hq. rewrite !Hv. by apply (wf_inj _ Hwf).
Qed.

Lemma alike_ext s s' : wf s → alike s s' → ext s s'.
Proof.
  intros Hwf Ha. split; rewrite ?(al_disk _ _ Ha); try apply Ha; try done.
  - by eapply alike_wf.
  - intros l _. by apply alike_contents.
  - intros p _ _. by apply alike_val.
  - intros x. unfold zone_used. by rewrite (al_zones _ _ Ha).
  - intros x. unfold zone_used. rewrite (al_zones _ _ Ha). by left.
Qed.

Lemma read_block_spec z s :
  ∃ o s', read_block z s = (Ok o, s') ∧ alike s s' ∧
    (o = Some (block_at s z) ∨ o = None ∧ faults s ≠ []).
Proof.
  unfold read_block. destruct (faults s) as [|b f] eqn:Hf.
  - eexists _, _. split; [done|]. split; [apply alike_refl|by left].
  - eexists _, _. split; [done|]. split; [split; try done; congruence|]. destruct b; [by right|by left].
Qed.

Lemma stored_ext s s' p z :
  wf s → valid p → val s p = 0 → match p with Slot t _ => val s t ≠ 0 | Root _ => True end → stored s s' p z →
  size (disk_inode (inner s')) = size (disk_inode (inner s)) →
  mode (disk_inode (inner s')) = mode (disk_inode (inner s)) →
  mounted s' = mounted s → now s' = now s → faults s' = faults s → ext s s'.
Proof.
  intros Hwf Hp Hv Ht Hs. intros. pose proof (sd_fresh _ _ _ _ Hs) as Hf. split; try done.
  - by eapply stored_wf.
  - intros. by eapply stored_contents.
  - congruence.
  - intros q Hq Hq0. rewrite (stored_val s s' p z) by done. case_decide; [congruence|done].
  - intros x Hx. apply (fr_used _ _ _ Hf). by left.
  - intros x Hx. apply (fr_used _ _ _ Hf) in Hx as [?|Hx]; [by left|right]. exists p.
    rewrite (stored_val s s' p z), decide_True by done. split_and!; [done..|]. rewrite Hx. apply Hf.
Qed.

(** *** Root pointers *)

(** [set] stores root [r]. *)
Record sets_root (set : Z → DiskInode → DiskInode) (r : root) (d : DiskInode) : Prop := {
  sr_roots : ∀ z r', root_val (set z d) r' = if decide (r' = r) then z else root_val d r';
  sr_direct : ∀ z, length (direct_zones (set z d)) = length (direct_zones d);
  sr_size : ∀ z, size (set z d) = size d;
  sr_mode : ∀ z, mode (set z d) = mode d;
}.

Lemma sets_direct d i : length (direct_zones d) = 7%nat → 0 ≤ i < 7 →
  sets_root (λ z d', set_direct (zupdate (direct_zones d') i z) d') (Direct i) d.
Proof.
  intros Hl Hi. split; try done.
  - intros z [j| |]; simpl; try done. rewrite zlookup_zupdate by lia.
    repeat case_decide; congruence || done.
  - intros z. apply length_zupdate.
Qed.

Lemma sets_single d : sets_root set_single Single d.
Proof. split; try done. by intros z [j| |]. Qed.

Lemma sets_double d : sets_root set_double Double d.
Proof. split; try done. by intros z [j| |]. Qed.

(** [try_alloc] and the store of its result. *)
Lemma root_spec {A} create r set (k : Z → M St A) s :
  wf s → valid (Root r) → sets_root set r (disk_inode (inner s)) →
  ∃ x s', (t <- try_alloc create (val s (Root r));; (store_new set t;;; k t.1)) s = k x s' ∧
    ext s s' ∧ val s' (Root r) = x ∧ (create = true → x = 0 → disk_full s') ∧ (create = false → alike s s').
Proof.
  intros Hwf Hr Hset. unfold try_alloc. destruct ((val s (Root r) =? 0) && create) eqn:Hc.
  - apply andb_true_iff in Hc as [Hv%Z.eqb_eq ->].
    destruct (alloc_zone_spec s Hwf) as [(z & zb & Ha & Hf)|[Hfull Ha]].
    + set (s1 := with_cache _ _) in *.
      exists z, ((set_disk (set z);;; touch_change) s1).2. split.
      { erewrite bind_Ok by (erewrite bind_Ok by exact Ha; reflexivity). change (default 0 (Some z)) with z.
        rewrite (proj2 (Z.eqb_neq z 0)) by (apply Hf). reflexivity. }
      assert (stored s ((set_disk (set z);;; touch_change) s1).2 (Root r) z) as Hst.
      { split.
        - destruct Hf. by split.
        - intros r'. simpl. rewrite (sr_roots _ _ _ Hset). repeat case_decide; congruence || done.
        - simpl. rewrite (sr_direct _ _ _ Hset). apply Hwf.
        - simpl. unfold block_at. simpl. by rewrite lookup_insert_eq.
        - intros x Hx. unfold block_at. simpl. by rewrite lookup_insert_ne. }
      split_and!.
      * eapply stored_ext; try done; simpl; [apply Hset|apply Hset].
      * erewrite stored_val by done. by rewrite decide_True.
      * intros _ ->. by destruct (fr_nonzero _ _ _ Hf).
      * done.
    + exists 0, s. split; [erewrite bind_Ok by (erewrite bind_Ok by exact Ha; reflexivity); reflexivity|].
      split_and!; [by apply ext_refl|done|done|done].
  - exists (val s (Root r)), s. split; [reflexivity|]. split_and!; [by apply ext_refl|done| |intros; apply alike_refl].
    intros -> E. rewrite E in Hc. done.
Qed.

(** *** Entries of a table *)

Lemma slot_spec create p i s :
  wf s → valid (Slot p i) → (create = true → val s p = 0 → disk_full s) →
  ∃ res s', resolve_indirect_entry create (val s p) i s = (res, s') ∧ ext s s' ∧
    (res = Ok (val s' (Slot p i)) ∧ (create = true → val s' (Slot p i) = 0 → disk_full s') ∨
     res = Err IO ∧ faults s ≠ []) ∧
    (create = false → alike s s').
Proof.
  intros Hwf Hp Hfull0. unfold resolve_indirect_entry. destruct (Z.eqb_spec (val s p) 0) as [Hz|Hz].
  { eexists _, s. split; [done|]. split_and!; [by apply ext_refl| |intros; apply alike_refl].
    left. cbn [val]. unfold entry. rewrite Hz. simpl. auto. }
  destruct (read_block_spec (val s p) s) as (o & s1 & Hrd & Hal & Ho). erewrite bind_Ok by done.
  destruct Ho as [->|[-> Hflt]]; [|eexists _, s1; split; [done|]; split_and!; [by apply alike_ext|by right|done]].
  assert (wf s1) as Hwf1 by (by eapply alike_wf).
  assert (val s1 (Slot p i) = u16_at (block_at s (val s p)) i) as Hv.
  { rewrite (alike_val s) by done. cbn [val]. unfold entry. by rewrite (proj2 (Z.eqb_neq _ _) Hz). }
  cbv beta iota zeta. rewrite <- Hv. destruct ((val s1 (Slot p i) =? 0) && create) eqn:Hc.
  - apply andb_true_iff in Hc as [Hv0%Z.eqb_eq ->].
    assert (val s1 p ≠ 0) as Hz1 by (by rewrite (alike_val s)).
    destruct (alloc_zone_spec s1 Hwf1) as [(z & zb & Ha & Hf)|[Hfull Ha]]; rewrite (bind_Ok _ _ _ _ _ Ha).
    + set (s2 := with_cache _ _) in *. erewrite bind_Ok by reflexivity. eexists _, _. split; [done|].
      assert (val s p ≠ z) as Hne.
      { intros E. apply (fr_unused _ _ _ Hf). rewrite <- E, <- (alike_val s s1) by done.
        apply wf_used; [done|by eapply valid_parent|by rewrite (alike_val s)]. }
      assert (stored s1 (with_cache s2 (<[val s p := u16_set i z (block_at s2 (val s p))]> (cache s2))) (Slot p i) z) as Hst.
      { split.
        - destruct Hf. by split.
        - intros r. by rewrite decide_False by done.
        - apply Hwf1.
        - unfold block_at. cbn [cache with_cache]. rewrite lookup_insert_ne by done. unfold s2. simpl.
          by rewrite lookup_insert_eq.
        - intros x Hx. unfold block_at at 1. cbn [cache with_cache]. rewrite lookup_block.
          rewrite (alike_val s s1) by done. unfold block_at, s2. simpl.
          case_decide as E; rewrite lookup_insert_ne by congruence; congruence || done. }
      assert (ext s1 (with_cache s2 (<[val s p := u16_set i z (block_at s2 (val s p))]> (cache s2)))) as Hext.
      { by apply (stored_ext s1 _ (Slot p i) z). }
      split_and!; [eapply ext_trans; [by apply alike_ext|done]| |done].
      left. rewrite (stored_val s1 _ (Slot p i) z) by done. rewrite decide_True by done.
      split; [done|]. intros _ ->. by destruct (fr_nonzero _ _ _ Hf).
    + eexists _, s1. split; [done|]. split_and!; [by apply alike_ext| |done].
      left. rewrite Hv0. done.
  - eexists _, s1. split; [done|]. split_and!; [by apply alike_ext| |done].
    left. split; [done|]. intros -> E. by rewrite E in Hc.
Qed.

(** ** [map_block_id] *)

Lemma map_block_spec l create s :
  wf s → 0 ≤ l < MAX_LOGICAL_BLOCKS → mounted s = true →
  ∃ res s', map_block_id l create s = (res, s') ∧ ext s s' ∧
    (res = Ok (val s' (data_loc l)) ∧ (create = true → val s' (data_loc l) = 0 → disk_full s') ∨
     res = Err IO ∧ faults s ≠ []) ∧
    (create = false → alike s s').
Proof.
  intros Hwf Hl Hm. pose proof (data_loc_valid l Hl) as Hval. unfold map_block_id.
  rewrite (proj2 (Z.leb_gt _ _)) by lia. erewrite bind_Ok by reflexivity. rewrite Hm. cbn [negb].
  erewrite bind_Ok by reflexivity. unfold data_loc in *. unfold INDIRECT_ZONE_INDEX.
  change (DIRECT_ZONE_COUNT + INDIRECT_ENTRIES_PER_BLOCK) with 519. change DIRECT_ZONE_COUNT with 7.
  destruct (Z.ltb_spec l 7); [|destruct (Z.ltb_spec l 519)].
  - pose proof (wf_direct _ Hwf) as Hlen.
    destruct (zlookup (direct_zones (disk_inode (inner s))) l) as [c|] eqn:Hc.
    2:{ destruct (proj2 (zlookup_is_Some (direct_zones (disk_inode (inner s))) l)) as [? ?]; [lia|congruence]. }
    erewrite bind_Ok by reflexivity.
    assert (c = val s (Root (Direct l))) as -> by (simpl; by rewrite Hc).
    destruct (root_spec create (Direct l) _ mok s Hwf Hval (sets_direct _ l Hlen ltac:(lia))) as (x & s' & -> & He & Hx & Hf & Ha).
    eexists _, s'. split; [done|]. rewrite Hx. split_and!; auto.
  - destruct (valid_parent _ _ Hval) as [Hr _].
    change (single_indirect_zone (disk_inode (inner s))) with (val s (Root Single)).
    destruct (root_spec create Single set_single (λ x, resolve_indirect_entry create x (l - 7)) s Hwf Hr (sets_single _))
      as (x & s1 & Hrun & He & <- & Hf & Ha). rewrite Hrun.
    destruct (slot_spec create (Root Single) (l - 7) s1) as (res & s' & -> & He' & Hres & Ha'); [apply He|done|auto|].
    eexists _, s'. split; [done|]. split_and!; [by eapply ext_trans| |].
    + destruct Hres as [?|[? Hflt]]; [by left|right]. split; [done|]. intros E. by apply Hflt, (ex_faults _ _ He).
    + intros Hcr. eapply alike_trans; auto.
  - destruct (valid_parent _ _ Hval) as [Hs _]. destruct (valid_parent _ _ Hs) as [Hr _].
    change (DOUBLE_INDIRECT_ZONE_INDEX + INDIRECT_ENTRIES_PER_BLOCK - 1) with 519. cbv zeta.
    change INDIRECT_ENTRIES_PER_BLOCK with 512.
    change (double_indirect_zone (disk_inode (inner s))) with (val s (Root Double)).
    destruct (root_spec create Double set_double (λ x, z <- resolve_indirect_entry create x ((l - 519) / 512);;
      resolve_indirect_entry create z ((l - 519) mod 512)) s Hwf Hr (sets_double _))
      as (x & s1 & Hrun & He & <- & Hf & Ha). rewrite Hrun.
    destruct (slot_spec create (Root Double) ((l - 519) / 512) s1) as (res & s2 & Hsl & He' & Hres & Ha'); [apply He|done|auto|].
    assert (faults s1 ≠ [] → faults s ≠ []) as Hf1 by (intros Hn E; by apply Hn, (ex_faults _ _ He)).
    destruct Hres as [[-> Hfull]|[-> Hflt]].
    + rewrite (bind_Ok _ _ _ _ _ Hsl).
      destruct (slot_spec create (Slot (Root Double) ((l - 519) / 512)) ((l - 519) mod 512) s2)
        as (res & s' & -> & He2 & Hres & Ha2); [apply He'|done|auto|].
      eexists _, s'. split; [done|]. split_and!; [by do 2 (eapply ext_trans; [done|])| |].
      * destruct Hres as [?|[? Hflt]]; [by left|right]. split; [done|]. apply Hf1. intros E. by apply Hflt, (ex_faults _ _ He').
      * intros Hcr. do 2 (eapply alike_trans; [by auto|]). auto.
    + rewrite (bind_Err _ _ _ _ _ Hsl). eexists _, s2. split; [done|]. split_and!; [by eapply ext_trans|right; auto|].
      intros Hcr. eapply alike_trans; auto.
Qed.

(** ** Bytes of the file *)

Lemma file_bytes_app s pos n m : 0 ≤ n → 0 ≤ m → file_bytes s pos (n + m) = file_bytes s pos n ++ file_bytes s (pos + n) m.
Proof. intros. unfold file_bytes. rewrite seqZ_app by done. apply map_app. Qed.

Lemma length_file_bytes s pos n : 0 ≤ n → Z.of_nat (length (file_bytes s pos n)) = n.
Proof. intros. unfold file_bytes. rewrite length_map, length_seqZ. lia. Qed.

Lemma lookup_file_bytes s pos n i : 0 ≤ i < n → file_bytes s pos n !! Z.to_nat i = Some (file_byte s (pos + i)).
Proof.
  intros. unfold file_bytes. apply list_lookup_fmap_Some. exists (pos + i). split; [done|].
  apply lookup_seqZ. lia.
Qed.

Lemma block_pos pos n : 0 ≤ pos mod BLOCK_SIZE + n → pos mod BLOCK_SIZE + n < BLOCK_SIZE →
  (pos + n) / BLOCK_SIZE = pos / BLOCK_SIZE ∧ (pos + n) mod BLOCK_SIZE = pos mod BLOCK_SIZE + n.
Proof.
  unfold BLOCK_SIZE. intros. assert (pos + n = pos mod 1024 + n + pos / 1024 * 1024) as E by (pose proof (Z.div_mod pos 1024); lia).
  split; [rewrite E, Z.div_add, Z.div_small by lia; lia|]. rewrite E, Z.mod_add by lia. apply Z.mod_small. lia.
Qed.

(** The bytes of one chunk lie in one block. *)
Lemma chunk_bytes s pos n :
  wf s → 0 ≤ n → pos mod BLOCK_SIZE + n ≤ BLOCK_SIZE →
  slice (contents s (pos / BLOCK_SIZE)) (pos mod BLOCK_SIZE) n = file_bytes s pos n.
Proof.
  intros Hwf Hn Hend. pose proof (Z.mod_pos_bound pos BLOCK_SIZE ltac:(done)) as Hb.
  pose proof (proj1 (contents_ok s (pos / BLOCK_SIZE) Hwf)) as Hlen. unfold BLOCK_SIZE in Hlen.
  apply list_eq. intros i. destruct (decide (i < Z.to_nat n)%nat) as [Hi|Hi].
  - rewrite slice_lookup by lia. replace i with (Z.to_nat (Z.of_nat i)) at 2 by lia.
    rewrite lookup_file_bytes by lia. unfold file_byte. destruct (block_pos pos (Z.of_nat i)) as [-> ->]; [lia..|].
    unfold byte_at, zlookup. rewrite (proj2 (Z.leb_le 0 _)) by lia.
    replace (Z.to_nat (pos mod BLOCK_SIZE + Z.of_nat i)) with (Z.to_nat (pos mod BLOCK_SIZE) + i)%nat by lia.
    destruct (lookup_lt_is_Some_2 (contents s (pos / BLOCK_SIZE)) (Z.to_nat (pos mod BLOCK_SIZE) + i)) as [x Hx];
      [unfold BLOCK_SIZE in *; lia|by rewrite Hx].
  - rewrite !lookup_ge_None_2; [done| |unfold slice; rewrite length_take; lia].
    pose proof (length_file_bytes s pos n Hn). lia.
Qed.

Lemma hole_bytes s pos n :
  wf s → 0 ≤ n → pos mod BLOCK_SIZE + n ≤ BLOCK_SIZE → val s (data_loc (pos / BLOCK_SIZE)) = 0 →
  replicate (Z.to_nat n) 0 = file_bytes s pos n.
Proof.
  intros Hwf Hn Hend Hz. rewrite <- chunk_bytes by done. unfold contents. rewrite Hz. simpl.
  pose proof (Z.mod_pos_bound pos BLOCK_SIZE ltac:(done)) as Hb. unfold slice, zero_block, BLOCK_SIZE in *.
  rewrite drop_replicate, take_replicate. f_equal. lia.
Qed.

Lemma file_bytes_alike s s' pos n : alike s s' → file_bytes s' pos n = file_bytes s pos n.
Proof. intros Ha. unfold file_bytes. apply map_ext. intros p. unfold file_byte. by rewrite (alike_contents s). Qed.

(** ** [read_at] *)

Lemma read_block_index pos left : 0 ≤ pos → 0 < left → pos + left ≤ MAX_FILE_SIZE →
  0 ≤ pos / BLOCK_SIZE < MAX_LOGICAL_BLOCKS.
Proof.
  intros. unfold MAX_FILE_SIZE in *. split; [by apply Z.div_pos|]. apply Z.div_lt_upper_bound; [done|].
  rewrite Z.mul_comm. lia.
Qed.

Lemma chunk_len pos left : 0 < left → let n := Z.min left (BLOCK_SIZE - pos mod BLOCK_SIZE) in
  0 < n ≤ left ∧ pos mod BLOCK_SIZE + n ≤ BLOCK_SIZE.
Proof. intros Hl. pose proof (Z.mod_pos_bound pos BLOCK_SIZE ltac:(done)). cbv zeta. lia. Qed.

Lemma read_loop_spec fuel pos left got s :
  wf s → mounted s = true → 0 ≤ pos → 0 ≤ left ≤ Z.of_nat fuel → pos + left ≤ MAX_FILE_SIZE →
  ∃ res s', read_loop fuel pos left got s = (res, s') ∧ alike s s' ∧
    (res = Ok (got ++ file_bytes s pos left) ∨
     faults s ≠ [] ∧ (res = Err IO ∨ ∃ n, 0 ≤ n < left ∧ res = Ok (got ++ file_bytes s pos n))).
Proof.
  revert pos left got s. induction fuel as [|fuel IH]; intros pos left got s Hwf Hm Hpos Hleft Hend.
  all: cbn [read_loop]; destruct (Z.leb_spec left 0) as [Hz|Hz]; [|try lia].
  1,2: assert (left = 0) as -> by lia; eexists _, _; split; [done|]; split; [by split|];
    left; f_equal; symmetry; apply app_nil_r.
  cbv zeta. set (n := Z.min left (BLOCK_SIZE - pos mod BLOCK_SIZE)).
  destruct (chunk_len pos left Hz) as [Hn Hn2]. fold n in Hn, Hn2.
  destruct (map_block_spec (pos / BLOCK_SIZE) false s Hwf) as (r & s1 & Hrun & _ & Hres & Ha);
    [by eapply read_block_index|done|]. specialize (Ha eq_refl). pose proof (alike_wf _ _ Hwf Ha) as Hwf1.
  destruct Hres as [[-> _]|[-> Hflt]].
  2:{ rewrite (bind_Err _ _ _ _ _ Hrun). eexists _, s1. split; [done|]. split; [done|]. right. auto. }
  rewrite (bind_Ok _ _ _ _ _ Hrun). rewrite (alike_val s) by done.
  assert (∀ s2 g, alike s s2 → g = file_bytes s pos n → ∃ res s',
    read_loop fuel (pos + n) (left - n) (got ++ g) s2 = (res, s') ∧ alike s s' ∧
    (res = Ok (got ++ file_bytes s pos left) ∨
     faults s ≠ [] ∧ (res = Err IO ∨ ∃ n, 0 ≤ n < left ∧ res = Ok (got ++ file_bytes s pos n)))) as Hgo.
  { intros s2 g Ha2 ->. destruct (IH (pos + n) (left - n) (got ++ file_bytes s pos n) s2) as (res & s' & Hr & Ha' & Hres);
      [by apply (alike_wf s)|by rewrite (al_mounted _ _ Ha2)|lia..|].
    exists res, s'. split; [done|]. split; [by eapply alike_trans|]. rewrite (file_bytes_alike s s2) in Hres by done.
    rewrite <- app_assoc, <- file_bytes_app in Hres by lia. replace (n + (left - n)) with left in Hres by lia.
    destruct Hres as [?|[Hf Hres]]; [by left|right]. split; [intros E; by apply Hf, (al_faults _ _ Ha2)|].
    destruct Hres as [?|(k & Hk & ->)]; [by left|right]. exists (n + k). split; [lia|].
    by rewrite file_bytes_app, app_assoc, (file_bytes_alike s s2) by (done || lia). }
  destruct (Z.eqb_spec (val s (data_loc (pos / BLOCK_SIZE))) 0) as [Hv|Hv]; [apply Hgo; [done|apply hole_bytes; done || lia]|].
  destruct (read_block_spec (val s (data_loc (pos / BLOCK_SIZE))) s1) as (o & s2 & Hrd & Ha2 & Ho).
  rewrite (bind_Ok _ _ _ _ _ Hrd). destruct Ho as [->|[-> Hflt]].
  - apply Hgo; [by eapply alike_trans|]. rewrite <- chunk_bytes by (done || lia). unfold contents.
    by rewrite (proj2 (Z.eqb_neq _ _) Hv), (alike_block s).
  - assert (faults s ≠ []) as Hf by (intros E; by apply Hflt, (al_faults _ _ Ha)).
    destruct got; (eexists _, s2; split; [done|]; split; [by eapply alike_trans|]; right; split; [done|]); [by left|right].
    exists 0. split; [lia|]. by rewrite app_nil_r.
Qed.

(** ** [write_at] *)

(** Bytes [a] to [b] of [buf] have been written to the file at [off]. *)
Record writes (s s' : St) (off : Z) (buf : list Z) (a b : Z) : Prop := {
  wr_wf : wf s';
  wr_bytes : ∀ pos, 0 ≤ pos < MAX_FILE_SIZE → file_byte s' pos =
    if decide (off + a ≤ pos < off + b) then byte_at buf (pos - off) else file_byte s pos;
  wr_size : size (disk_inode (inner s')) = size (disk_inode (inner s));
  wr_mode : mode (disk_inode (inner s')) = mode (disk_inode (inner s));
  wr_mounted : mounted s' = mounted s;
  wr_now : now s' = now s;
  wr_faults : faults s = [] → faults s' = [];
  wr_vals : ∀ p, valid p → val s p ≠ 0 → val s' p = val s p;
  wr_used : ∀ x, zone_used s x → zone_used s' x;
  wr_no_leak : ∀ x, zone_used s' x → zone_used s x ∨ ∃ p, valid p ∧ val s' p = x ∧ x ≠ 0;
}.

Lemma page_of_pos pos : 0 ≤ pos < MAX_FILE_SIZE → 0 ≤ pos / BLOCK_SIZE < MAX_LOGICAL_BLOCKS.
Proof. intros. apply (read_block_index pos 1); lia. Qed.

Lemma ext_writes s s' off buf a : ext s s' → writes s s' off buf a a.
Proof.
  intros He. split; try apply He. intros pos Hpos. rewrite decide_False by lia.
  unfold file_byte. by rewrite (ex_contents _ _ He) by (by apply page_of_pos).
Qed.

Lemma writes_trans s1 s2 s3 off buf a b c : 0 ≤ a ≤ b → b ≤ c →
  writes s1 s2 off buf a b → writes s2 s3 off buf b c → writes s1 s3 off buf a c.
Proof.
  intros Hab Hbc H1 H2. split.
  - apply H2.
  - intros pos Hpos. rewrite (wr_bytes _ _ _ _ _ _ H2), (wr_bytes _ _ _ _ _ _ H1) by done.
    repeat case_decide; lia || done.
  - by rewrite (wr_size _ _ _ _ _ _ H2), (wr_size _ _ _ _ _ _ H1).
  - by rewrite (wr_mode _ _ _ _ _ _ H2), (wr_mode _ _ _ _ _ _ H1).
  - by rewrite (wr_mounted _ _ _ _ _ _ H2), (wr_mounted _ _ _ _ _ _ H1).
  - by rewrite (wr_now _ _ _ _ _ _ H2), (wr_now _ _ _ _ _ _ H1).
  - intros Hf. by apply (wr_faults _ _ _ _ _ _ H2), (wr_faults _ _ _ _ _ _ H1).
  - intros p Hp Hv. pose proof (wr_vals _ _ _ _ _ _ H1 p Hp Hv) as E. rewrite <- E.
    apply (wr_vals _ _ _ _ _ _ H2); [done|congruence].
  - intros x Hx. by apply (wr_used _ _ _ _ _ _ H2), (wr_used _ _ _ _ _ _ H1).
  - intros x [Hx|?]%(wr_no_leak _ _ _ _ _ _ H2); [|by right].
    apply (wr_no_leak _ _ _ _ _ _ H1) in Hx as [?|(p & Hp & Hv & Hx)]; [by left|]. right. exists p.
    split_and!; [done| |done]. rewrite <- Hv. apply (wr_vals _ _ _ _ _ _ H2); [done|congruence].
Qed.

(** A new block for data moves no pointer. *)
Definition set_block (s : St) (z : Z) (b : Block) : St := with_cache s (<[z := b]> (cache s)).

Lemma set_data_val s q b p :
  wf s → level q = Some 0%nat → val s q ≠ 0 → valid p → val (set_block s (val s q) b) p = val s p.
Proof.
  intros Hwf Hq Hv. induction p as [r|t IH i]; intros Hp; [done|].
  destruct (valid_parent _ _ Hp) as [Ht _]. cbn [val]. rewrite IH by done. unfold entry.
  destruct (Z.eqb_spec (val s t) 0); [done|]. f_equal. unfold set_block, block_at at 1. simpl. rewrite lookup_block.
  rewrite decide_False; [done|]. intros E. apply (wf_inj _ Hwf) in E as ->; [|done|by eexists|done].
  destruct Hp as [m Hm]. apply level_slot in Hm as [? _]. congruence.
Qed.

Lemma set_data_contents s l b m :
  wf s → 0 ≤ l < MAX_LOGICAL_BLOCKS → 0 ≤ m < MAX_LOGICAL_BLOCKS → val s (data_loc l) ≠ 0 →
  contents (set_block s (val s (data_loc l)) b) m = if decide (m = l) then b else contents s m.
Proof.
  intros Hwf Hl Hm Hv. unfold contents.
  rewrite set_data_val by (done || by apply data_loc_level || by apply data_loc_valid).
  unfold set_block at 1, block_at at 1. simpl. rewrite lookup_block. destruct (decide (m = l)) as [->|Hne].
  - by rewrite (proj2 (Z.eqb_neq _ _) Hv), decide_True.
  - destruct (Z.eqb_spec (val s (data_loc m)) 0); [done|]. rewrite decide_False; [done|]. intros E.
    apply Hne, data_loc_inj, (wf_inj _ Hwf); [by apply data_loc_valid..|done|done].
Qed.

Lemma set_data_wf s l b :
  wf s → 0 ≤ l < MAX_LOGICAL_BLOCKS → val s (data_loc l) ≠ 0 → block_ok b → wf (set_block s (val s (data_loc l)) b).
Proof.
  intros Hwf Hl Hv Hb. assert (∀ p, valid p → val (set_block s (val s (data_loc l)) b) p = val s p) as Hval.
  { intros p Hp. apply set_data_val; [done|by apply data_loc_level|done|done]. }
  split; try apply Hwf.
  - intros z. unfold set_block, block_at. simpl. rewrite lookup_block. case_decide; [done|by apply wf_blocks].
  - intros p Hp. rewrite Hval by done. by apply (wf_used _ Hwf).
  - intros p q Hp Hq. rewrite !Hval by done. by apply (wf_inj _ Hwf).
Qed.

Lemma byte_at_slice l off n i : 0 ≤ off → 0 ≤ i < n → off + n ≤ Z.of_nat (length l) →
  byte_at (slice l off n) i = byte_at l (off + i).
Proof.
  intros. unfold byte_at, zlookup. rewrite !(proj2 (Z.leb_le 0 _)) by lia. rewrite slice_lookup by lia.
  do 2 f_equal. lia.
Qed.

(** One chunk. *)
Lemma chunk_writes s off buf a n :
  wf s → Forall (is_uint 8) buf → 0 ≤ off → 0 ≤ a → 0 < n → a + n ≤ Z.of_nat (length buf) →
  let pos := off + a in
  pos mod BLOCK_SIZE + n ≤ BLOCK_SIZE → 0 ≤ pos / BLOCK_SIZE < MAX_LOGICAL_BLOCKS →
  let z := val s (data_loc (pos / BLOCK_SIZE)) in z ≠ 0 →
  writes s (set_block s z (splice (block_at s z) (pos mod BLOCK_SIZE) (slice buf a n))) off buf a (a + n).
Proof.
  intros Hwf Hbuf Ho Ha Hn Hlen pos Hend Hl z Hz. set (src := slice buf a n).
  assert (Z.of_nat (length src) = n) as Hsrc by (apply length_slice; lia).
  pose proof (Z.mod_pos_bound pos BLOCK_SIZE ltac:(done)) as Hmod.
  assert (block_ok (splice (block_at s z) (pos mod BLOCK_SIZE) src)) as Hok.
  { apply splice_ok; [by apply wf_blocks|by apply Forall_take, Forall_drop|lia|lia]. }
  assert (∀ p, valid p → val (set_block s z (splice (block_at s z) (pos mod BLOCK_SIZE) src)) p = val s p) as Hval.
  { intros p Hp. by apply set_data_val; [|apply data_loc_level| |]. }
  split; try done; try (by intros; apply Hval); try (by left).
  - by apply set_data_wf.
  - intros p Hp. unfold file_byte. unfold z at 1. rewrite set_data_contents by (done || by apply page_of_pos).
    assert (contents s (pos / BLOCK_SIZE) = block_at s z) as Hc.
    { unfold contents. fold z. by rewrite (proj2 (Z.eqb_neq _ _) Hz). }
    pose proof (Z.div_mod p BLOCK_SIZE ltac:(done)). pose proof (Z.div_mod pos BLOCK_SIZE ltac:(done)).
    pose proof (Z.mod_pos_bound p BLOCK_SIZE ltac:(done)).
    destruct (decide (p / BLOCK_SIZE = pos / BLOCK_SIZE)) as [E|E].
    + rewrite byte_at_splice by (lia || by apply wf_blocks). rewrite Hsrc, E, Hc.
      destruct (decide (off + a ≤ p < off + (a + n))) as [Hin|Hin].
      * rewrite decide_True by lia. unfold src. rewrite byte_at_slice by lia. f_equal. lia.
      * rewrite decide_False by lia. done.
    + rewrite decide_False; [done|]. intros Hin. apply E.
      replace p with (pos + (p - pos)) by lia. by apply block_pos; lia.
Qed.

Definition write_stop (s s' : St) (off n len : Z) (outcome : option Errno) : Prop :=
  match outcome with
  | None => n = len
  | Some e => n < len ∧
      (e = FBIG ∧ MAX_FILE_SIZE ≤ off + n ∨ e = ERROR ∧ disk_full s' ∨ (e = ERROR ∨ e = IO) ∧ faults s ≠ [])
  end.

(** One turn of the loop ends it or writes a chunk. *)
Lemma write_turn fuel off buf a s :
  wf s → mounted s = true → Forall (is_uint 8) buf → 0 ≤ off → 0 ≤ a < Z.of_nat (length buf) →
  (∃ e s', write_loop (S fuel) off a buf s = (Ok (a, Some e), s') ∧ ext s s' ∧
     write_stop s s' off a (Z.of_nat (length buf)) (Some e)) ∨
  (∃ n s', write_loop (S fuel) off a buf s = write_loop fuel off (a + n) buf s' ∧
     0 < n ∧ a + n ≤ Z.of_nat (length buf) ∧ off + (a + n) ≤ MAX_FILE_SIZE ∧ writes s s' off buf a (a + n)).
Proof.
  intros Hwf Hm Hbuf Ho Ha. cbn [write_loop]. rewrite (proj2 (Z.leb_gt _ _)) by lia.
  cbv zeta. set (pos := off + a). set (n := Z.min _ _).
  destruct (chunk_len pos (Z.of_nat (length buf) - a)) as [Hn Hn2]; [lia|]. fold n in Hn, Hn2.
  destruct (decide (MAX_LOGICAL_BLOCKS ≤ pos / BLOCK_SIZE)) as [Hbig|Hsmall].
  { left. erewrite bind_Ok by (unfold mtry, map_block_id; rewrite (proj2 (Z.leb_le _ _) Hbig); reflexivity).
    eexists FBIG, s. split; [done|]. split; [by apply ext_refl|]. split; [lia|]. left. split; [done|].
    unfold MAX_FILE_SIZE. fold pos.
    pose proof (Z.div_mod pos BLOCK_SIZE ltac:(done)). pose proof (Z.mod_pos_bound pos BLOCK_SIZE ltac:(done)).
    unfold BLOCK_SIZE in *. lia. }
  assert (0 ≤ pos / BLOCK_SIZE < MAX_LOGICAL_BLOCKS) as Hl by (split; [apply Z.div_pos; done || lia|lia]).
  destruct (map_block_spec (pos / BLOCK_SIZE) true s Hwf Hl Hm) as (r & s1 & Hrun & He & Hres & _).
  destruct Hres as [[-> Hfull]|[-> Hflt]].
  2:{ left. erewrite bind_Ok by (unfold mtry; rewrite Hrun; reflexivity). exists IO, s1. split; [done|].
      split; [done|]. split; [lia|]. right. right. auto. }
  erewrite bind_Ok by (unfold mtry; rewrite Hrun; reflexivity). cbv beta iota.
  destruct (Z.eqb_spec (val s1 (data_loc (pos / BLOCK_SIZE))) 0) as [Hz|Hz].
  { left. eexists ERROR, s1. split; [done|]. split; [done|]. split; [lia|]. right. left. auto. }
  destruct (read_block_spec (val s1 (data_loc (pos / BLOCK_SIZE))) s1) as (o & s2 & Hrd & Ha2 & Hor).
  rewrite (bind_Ok _ _ _ _ _ Hrd). pose proof (alike_ext _ _ (ex_wf _ _ He) Ha2) as He2.
  destruct Hor as [->|[-> Hflt]].
  - right. erewrite bind_Ok by reflexivity. eexists n, _. split; [done|]. split_and!; [lia|lia| |].
    { fold pos. pose proof (Z.div_mod pos BLOCK_SIZE ltac:(done)). unfold MAX_FILE_SIZE, BLOCK_SIZE in *. lia. }
    rewrite <- (alike_val s1 s2) by done.
    eapply (writes_trans _ s2 _ _ _ _ a); [lia..|by apply ext_writes; eapply ext_trans|].
    apply chunk_writes; [apply He2|done|lia|lia|lia|lia|done|done|by rewrite (alike_val s1)].
  - left. eexists ERROR, s2. split; [done|]. split; [by eapply ext_trans|]. split; [lia|]. right. right.
    split; [auto|]. intros E. by apply Hflt, (ex_faults _ _ He).
Qed.

Lemma write_loop_spec fuel off buf a s :
  wf s → mounted s = true → Forall (is_uint 8) buf → 0 ≤ off → 0 ≤ a →
  a ≤ Z.of_nat (length buf) ≤ a + Z.of_nat fuel →
  ∃ n outcome s', write_loop fuel off a buf s = (Ok (n, outcome), s') ∧ a ≤ n ≤ Z.of_nat (length buf) ∧
    (a < n → off + n ≤ MAX_FILE_SIZE) ∧ writes s s' off buf a n ∧ write_stop s s' off n (Z.of_nat (length buf)) outcome.
Proof.
  revert a s. induction fuel as [|fuel IH]; intros a s Hwf Hm Hbuf Ho Ha Hfuel;
    (destruct (Z.leb_spec (Z.of_nat (length buf)) a) as [Hz|Hz]; [|try lia]).
  1,2: eexists a, None, s; split; [cbn [write_loop]; by rewrite (proj2 (Z.leb_le _ _) Hz)|];
    split; [lia|]; split; [lia|]; split; [by apply ext_writes, ext_refl|simpl; lia].
  destruct (write_turn fuel off buf a s) as [(e & s' & -> & He & Hs)|(n & s1 & -> & Hn & Hlen & Hmax & Hw)]; [done..|lia| |].
  - eexists a, (Some e), s'. split; [done|]. split; [lia|]. split; [lia|]. split; [by apply ext_writes|done].
  - destruct (IH (a + n) s1) as (m & outcome & s' & -> & Hm' & Hmax' & Hw' & Hs); [apply Hw|by rewrite (wr_mounted _ _ _ _ _ _ Hw)|done|lia..|].
    exists m, outcome, s'. split; [done|]. split; [lia|].
    split; [intros _; destruct (decide (m = a + n)) as [->|]; [done|apply Hmax'; lia]|]. split; [by eapply writes_trans; [| |done..]; lia|].
    destruct outcome as [e|]; [|done]. destruct Hs as [? Hs]. split; [done|].
    destruct Hs as [?|[?|[? Hf]]]; [by left|by right; left|right; right]. split; [done|].
    intros E. by apply Hf, (wr_faults _ _ _ _ _ _ Hw).
Qed.

Lemma with_disk_spec s1 d' :
  wf s1 → (∀ r, root_val d' r = root_val (disk_inode (inner s1)) r) →
  length (direct_zones d') = 7%nat → ∀ i t c, let s' := with_inner s1 (mkInner d' i t c) in
  wf s' ∧ (∀ pos, 0 ≤ pos < MAX_FILE_SIZE → file_byte s' pos = file_byte s1 pos) ∧ (∀ p, val s' p = val s1 p).
Proof.
  intros Hwf1 Hd Hlen i t c s'. assert (∀ p, val s' p = val s1 p) as Hval.
  { intros p. induction p as [r|p IH j]; simpl; [apply Hd|]. by rewrite IH. }
  split_and!; [|intros pos _; unfold file_byte, contents; by rewrite Hval|done].
  split; try apply Hwf1; try done.
  - intros p Hp. rewrite Hval. by apply (wf_used _ Hwf1).
  - intros p q Hp Hq. rewrite !Hval. by apply (wf_inj _ Hwf1).
Qed.

(** ** Properties *)

(** How much of a read of [len] bytes at [offset] the file has. *)
Definition readable (s : St) (offset len : Z) : Z := Z.max 0 (Z.min len (size (disk_inode (inner s)) - offset)).

Lemma read_at_spec s offset len :
  wf s → mounted s = true → 0 ≤ offset → 0 ≤ len → size (disk_inode (inner s)) ≤ MAX_FILE_SIZE →
  ∃ res s', read_at offset len s = (res, s') ∧ alike s s' ∧
    (res = Ok (file_bytes s offset (readable s offset len)) ∨
     faults s ≠ [] ∧ (res = Err IO ∨ ∃ n, 0 ≤ n < readable s offset len ∧ res = Ok (file_bytes s offset n))).
Proof.
  intros Hwf Hm Ho Hlen Hsize. unfold read_at, readable. set (sz := size _) in *.
  destruct (Z.eqb_spec len 0) as [->|Hl0].
  { eexists _, s. split; [done|]. split; [apply alike_refl|]. left. by rewrite Z.max_l by lia. }
  erewrite bind_Ok by reflexivity. fold sz. destruct (Z.leb_spec sz offset) as [Hs|Hs].
  { eexists _, s. split; [done|]. split; [apply alike_refl|]. left. by rewrite Z.max_l by lia. }
  rewrite Z.max_r by lia.
  destruct (read_loop_spec (Z.to_nat (Z.min len (sz - offset))) offset (Z.min len (sz - offset)) [] s)
    as (res & s' & Hr & Ha & Hres); [done..|lia|lia|]. exists res, s'. auto.
Qed.

(** C31: Reading gives the contents.  [read_at] changes nothing that the file
    shows and, on a working device, returns exactly the bytes of the file from
    [offset] to its end or to the end of the buffer, holes read as zeros; when
    a block cannot be read it returns an I/O error or a shorter prefix of these
    bytes, never wrong ones. *)
Theorem read_at_contents s offset len :
  wf s → mounted s = true → 0 ≤ offset → 0 ≤ len → size (disk_inode (inner s)) ≤ MAX_FILE_SIZE →
  ∃ res s', read_at offset len s = (res, s') ∧ wf s' ∧ size (disk_inode (inner s')) = size (disk_inode (inner s)) ∧
    (∀ pos n, file_bytes s' pos n = file_bytes s pos n) ∧
    (res = Ok (file_bytes s offset (readable s offset len)) ∨
     faults s ≠ [] ∧ (res = Err IO ∨ ∃ n, 0 ≤ n < readable s offset len ∧ res = Ok (file_bytes s offset n))).
Proof.
  intros Hwf Hm Ho Hlen Hsize. destruct (read_at_spec s offset len) as (res & s' & Hr & Ha & Hres); [done..|].
  exists res, s'. split_and!; [done|by apply (alike_wf s)|by rewrite (al_disk _ _ Ha)|intros; by apply file_bytes_alike|done].
Qed.

(** The state after [write_at]. *)
Definition written_inode (s1 : St) (size' : Z) : St :=
  with_inner s1 (mkInner (set_mtime (now s1) (set_size size' (disk_inode (inner s1)))) true
    (access_time (inner s1)) (now s1)).

Lemma write_at_run s offset buf :
  wf s → mounted s = true → Forall (is_uint 8) buf → is_uint 32 offset → buf ≠ [] →
  ∃ n s1, writes s s1 offset buf 0 n ∧ 0 ≤ n ≤ Z.of_nat (length buf) ∧ (0 < n → offset + n ≤ MAX_FILE_SIZE) ∧
    (n < Z.of_nat (length buf) → MAX_FILE_SIZE ≤ offset + n ∨ disk_full s1 ∨ faults s ≠ []) ∧
    ∃ res, write_at offset buf s = (res, written_inode s1 (Z.max (size (disk_inode (inner s))) (offset + n))) ∧
      if decide (n = 0) then ∃ e, res = Err e else res = Ok n.
Proof.
  intros Hwf Hm Hbuf Ho Hne. assert (0 < length buf)%nat as Hpos by (destruct buf; [done|simpl; lia]).
  unfold write_at. rewrite (proj2 (Nat.eqb_neq _ _)) by lia.
  destruct (write_loop_spec (length buf) offset buf 0 s) as (n & outcome & s1 & Hrun & Hn & Hmax & Hw & Hstop);
    [done..|apply Ho|lia|lia|]. rewrite (bind_Ok _ _ _ _ _ Hrun). cbv beta iota. erewrite bind_Ok by reflexivity.
  exists n, s1. split; [done|]. split; [done|]. split; [done|]. split.
  { intros Hlt. destruct outcome as [e|]; simpl in Hstop; [|lia]. destruct Hstop as [_ [[_ ?]|[[_ ?]|[_ ?]]]]; auto. }
  rewrite <- (wr_size _ _ _ _ _ _ Hw). set (d := disk_inode (inner s1)).
  assert (is_uint 32 (offset + n)) as Hend.
  { unfold is_uint in *. change MAX_FILE_SIZE with 268966912 in Hmax. destruct (decide (n = 0)); lia. }
  assert ((if size d <? offset + n then set_disk (set_size (as_u32 (offset + n))) else mok ()) s1 =
    (Ok (), with_inner s1 (mkInner (set_size (Z.max (size d) (offset + n)) d) (is_dirty (inner s1))
      (access_time (inner s1)) (change_time (inner s1))))) as Hset.
  { destruct (Z.ltb_spec (size d) (offset + n)) as [Hlt|Hge].
    - rewrite wrap_small, Z.max_r by (done || lia). done.
    - rewrite Z.max_l by lia. unfold mok, d. destruct s1 as [? ? ? ? [[] ? ? ?] ?]. done. }
  rewrite (bind_Ok _ _ _ _ _ Hset). erewrite bind_Ok by reflexivity.
  destruct (decide (n = 0)) as [->|Hn0].
  - destruct outcome as [e|]; simpl in Hstop; [|lia]. eexists. split; [reflexivity|]. by exists e.
  - exists (Ok n). split; [|done]. destruct outcome as [e|]; [by rewrite (proj2 (Z.eqb_neq _ _) Hn0)|done].
Qed.

(** C5: Writing stores the bytes.  [write_at] stores a first part of the buffer,
    [n] bytes, at [offset] and changes no other byte of the file; the file ends
    at the larger of its old end and [offset + n]; every zone that it takes from
    the bitmap gets a pointer, and no zone is freed.  It returns [n], or an error
    when [n] is 0, and [n] is the whole length unless the largest file size is
    reached, the disk is full or a block cannot be read. *)
Theorem write_at_contents s offset buf :
  wf s → mounted s = true → Forall (is_uint 8) buf → is_uint 32 offset → buf ≠ [] →
  ∃ n res s', write_at offset buf s = (res, s') ∧ 0 ≤ n ≤ Z.of_nat (length buf) ∧ wf s' ∧
    (∀ pos, 0 ≤ pos < MAX_FILE_SIZE → file_byte s' pos =
       if decide (offset ≤ pos < offset + n) then byte_at buf (pos - offset) else file_byte s pos) ∧
    size (disk_inode (inner s')) = Z.max (size (disk_inode (inner s))) (offset + n) ∧
    modification_time (disk_inode (inner s')) = now s ∧
    (∀ x, zone_used s' x ↔ zone_used s x ∨ ∃ p, valid p ∧ val s' p = x ∧ x ≠ 0) ∧
    (n < Z.of_nat (length buf) → MAX_FILE_SIZE ≤ offset + n ∨ disk_full s' ∨ faults s ≠ []) ∧
    (if decide (n = 0) then ∃ e, res = Err e else res = Ok n).
Proof.
  intros Hwf Hm Hbuf Ho Hne.
  destruct (write_at_run s offset buf) as (n & s1 & Hw & Hn & _ & Hshort & res & Hrun & Hres); [done..|].
  destruct (with_disk_spec s1 (set_mtime (now s1) (set_size (Z.max (size (disk_inode (inner s))) (offset + n))
    (disk_inode (inner s1)))) (wr_wf _ _ _ _ _ _ Hw) ltac:(by intros []) (wf_direct _ (wr_wf _ _ _ _ _ _ Hw)) true (access_time (inner s1)) (now s1))
    as (Hwf' & Hbytes & Hval).
  eexists n, res, _. split_and!; [done|lia..|done| |done|simpl; apply Hw| |done|done].
  - intros pos Hpos. unfold written_inode. rewrite Hbytes by done. rewrite (wr_bytes _ _ _ _ _ _ Hw) by done.
    by rewrite Z.add_0_r.
  - intros x. split.
    + intros [?|(p & Hp & Hv & Hx)]%(wr_no_leak _ _ _ _ _ _ Hw); [by left|right]. exists p. by rewrite Hval.
    + intros [?|(p & Hp & Hv & Hx)]; [by apply (wr_used _ _ _ _ _ _ Hw)|]. rewrite Hval in Hv. subst x.
      by apply (wf_used _ (wr_wf _ _ _ _ _ _ Hw)).
Qed.

(** What is written is read back: after a complete write, reading the same
    range returns the buffer. *)
Theorem write_read_roundtrip s offset buf s' :
  wf s → mounted s = true → Forall (is_uint 8) buf → is_uint 32 offset → buf ≠ [] → faults s = [] →
  size (disk_inode (inner s)) ≤ MAX_FILE_SIZE →
  write_at offset buf s = (Ok (Z.of_nat (length buf)), s') →
  ∃ s'', read_at offset (Z.of_nat (length buf)) s' = (Ok buf, s'').
Proof.
  intros Hwf Hm Hbuf Ho Hne Hf Hsize Hrun'.
  destruct (write_at_run s offset buf) as (n & s1 & Hw & Hn & Hmax & _ & res & Hrun & Hres); [done..|].
  destruct (with_disk_spec s1 (set_mtime (now s1) (set_size (Z.max (size (disk_inode (inner s))) (offset + n))
    (disk_inode (inner s1)))) (wr_wf _ _ _ _ _ _ Hw) ltac:(by intros []) (wf_direct _ (wr_wf _ _ _ _ _ _ Hw)) true (access_time (inner s1)) (now s1))
    as (Hwf' & Hbytes & _). fold (written_inode s1 (Z.max (size (disk_inode (inner s))) (offset + n))) in *.
  rewrite Hrun' in Hrun. injection Hrun as <- Es.
  case_decide; [by destruct Hres|]. injection Hres as Hlen. specialize (Hmax ltac:(lia)).
  destruct (read_at_spec s' offset (Z.of_nat (length buf))) as (res & s'' & Hr & _ & Hres).
  - by subst s'.
  - subst s'. simpl. by rewrite (wr_mounted _ _ _ _ _ _ Hw).
  - apply Ho.
  - lia.
  - subst s'. simpl. lia.
  - exists s''. rewrite Hr. destruct Hres as [->|[Hflt _]].
    2:{ destruct Hflt. subst s'. simpl. by apply (wr_faults _ _ _ _ _ _ Hw). }
    do 2 f_equal. unfold readable. replace (Z.max _ _) with n by (subst s'; simpl; lia).
    apply list_eq. intros i. destruct (decide (i < length buf)%nat) as [Hi|Hi].
    + replace i with (Z.to_nat (Z.of_nat i)) at 1 by lia. rewrite lookup_file_bytes by lia. subst s'.
      rewrite Hbytes, (wr_bytes _ _ _ _ _ _ Hw), decide_True by (unfold is_uint in Ho; lia).
      replace (offset + Z.of_nat i - offset) with (Z.of_nat i) by lia. unfold byte_at, zlookup.
      rewrite (proj2 (Z.leb_le 0 _)), Nat2Z.id by lia. by destruct (lookup_lt_is_Some_2 buf i Hi) as [x ->].
    + rewrite !lookup_ge_None_2; [done|lia|]. pose proof (length_file_bytes s' offset n). lia.
Qed.

(** ** [truncate] *)

(** The zones of the tree below [zone], as [free_zone_tree] walks it. *)
Fixpoint tree (s : St) (levels : nat) (zone : Z) : list Z :=
  if zone =? 0 then []
  else
    match levels with
    | O => []
    | S levels => concat (map (λ i, tree s levels (u16_at (block_at s zone) i)) (seqZ 0 INDIRECT_ENTRIES_PER_BLOCK))
    end ++ [zone].

Record freed (s s' : St) (l : list Z) : Prop := {
  fd_cache : cache s' = cache s;
  fd_inner : inner s' = inner s;
  fd_faults : faults s' = faults s;
  fd_mounted : mounted s' = mounted s;
  fd_now : now s' = now s;
  fd_wf : Bitmap.wf (zones s');
  fd_base : Bitmap.base_id (zones s') = Bitmap.base_id (zones s);
  fd_count : Bitmap.bit_count (zones s') = Bitmap.bit_count (zones s);
  fd_used : ∀ n, Bitmap.used (zones s') n =
    Bitmap.used (zones s) n && negb (bool_decide (Bitmap.base_id (zones s) + Z.of_nat n ∈ l));
}.

Definition in_bitmap (s : St) (z : Z) : Prop :=
  is_uint 32 z ∧ Bitmap.base_id (zones s) ≤ z < Bitmap.base_id (zones s) + Z.of_nat (Bitmap.bit_count (zones s)).

Lemma freed_nil s : Bitmap.wf (zones s) → freed s s [].
Proof.
  intros. split; try done. intros n. rewrite bool_decide_eq_false_2 by (by intros ?%elem_of_nil).
  by rewrite andb_true_r.
Qed.

Lemma freed_app s1 s2 s3 l1 l2 : freed s1 s2 l1 → freed s2 s3 l2 → freed s1 s3 (l1 ++ l2).
Proof.
  intros [] []. split; try congruence. intros n. rewrite fd_used1, fd_used0, fd_base0, <- andb_assoc. f_equal.
  rewrite <- negb_orb. f_equal. repeat case_bool_decide; try done; rewrite elem_of_app in *; tauto.
Qed.

Lemma free_zone_spec z s : Bitmap.wf (zones s) → in_bitmap s z → z ≠ 0 →
  ∃ s', free_zone z s = (Ok (), s') ∧ freed s s' [z].
Proof.
  intros Hb [Hu Hr] Hz. unfold free_zone, on_zones. rewrite (proj2 (Z.eqb_neq _ _) Hz).
  destruct (Bitmap.dealloc_outcome _ z Hb Hu) as [(m & b' & E & Hm & -> & Hb' & Hbase & Hcount & Hbits)|[? _]]; [|done].
  eexists. split; [done|]. split; try done. intros n. cbn [zones with_zones]. rewrite Hbits. case_decide as Hn.
  - rewrite bool_decide_eq_true_2; [by rewrite andb_false_r|]. apply list_elem_of_singleton. lia.
  - rewrite bool_decide_eq_false_2; [by rewrite andb_true_r|]. intros ?%list_elem_of_singleton. lia.
Qed.

Lemma tree_ext s s' levels zone : cache s' = cache s → tree s' levels zone = tree s levels zone.
Proof.
  intros Hc. revert zone. induction levels as [|k IH]; intros zone; cbn [tree]; [done|].
  destruct (zone =? 0); [done|]. f_equal. f_equal. apply map_ext. intros i. unfold block_at. rewrite Hc. apply IH.
Qed.

Lemma in_bitmap_freed s s' l z : freed s s' l → in_bitmap s z → in_bitmap s' z.
Proof. intros [] [? ?]. split; [done|]. by rewrite fd_base0, fd_count0. Qed.

(** Freeing a list of trees, given how to free one. *)
Lemma free_trees_spec levels (l : list Z) s :
  (∀ z s, Bitmap.wf (zones s) → faults s = [] → (∀ x, x ∈ tree s levels z → in_bitmap s x) →
     ∃ s', free_zone_tree levels z s = (Ok (), s') ∧ freed s s' (tree s levels z)) →
  Bitmap.wf (zones s) → faults s = [] → (∀ z x, z ∈ l → x ∈ tree s levels z → in_bitmap s x) →
  ∃ s', mfor l (free_zone_tree levels) s = (Ok (), s') ∧ freed s s' (concat (map (tree s levels) l)).
Proof.
  intros Hone. revert s. induction l as [|z l IH]; intros s Hb Hf Hin; cbn [mfor map concat].
  { eexists. split; [done|]. by apply freed_nil. }
  destruct (Hone z s Hb Hf) as (s1 & Hr & Hfr); [intros x; apply Hin; by left|].
  rewrite (bind_Ok _ _ _ _ _ Hr). pose proof (fd_cache _ _ _ Hfr) as Hc.
  destruct (IH s1) as (s2 & Hr2 & Hfr2).
  - apply Hfr.
  - by rewrite (fd_faults _ _ _ Hfr).
  - intros y x Hy. rewrite (tree_ext s s1) by done. intros Hx. eapply in_bitmap_freed; [done|].
    apply (Hin y); [by right|done].
  - exists s2. split; [done|]. eapply freed_app; [done|].
    rewrite (map_ext (tree s levels) (tree s1 levels)); [done|]. intros. by rewrite (tree_ext s s1).
Qed.

Lemma free_zone_tree_spec levels z s :
  Bitmap.wf (zones s) → faults s = [] → (∀ x, x ∈ tree s levels z → in_bitmap s x) →
  ∃ s', free_zone_tree levels z s = (Ok (), s') ∧ freed s s' (tree s levels z).
Proof.
  revert z s. induction levels as [|k IH]; intros z s Hb Hf Hin; cbn [free_zone_tree tree] in *;
    (destruct (Z.eqb_spec z 0) as [Hz|Hz]; [by eexists; split; [done|apply freed_nil]|]).
  - erewrite bind_Ok by reflexivity. apply free_zone_spec; [done| |done]. apply Hin. by left.
  - assert (read_block z s = (Ok (Some (block_at s z)), s)) as Hrd by (unfold read_block; by rewrite Hf).
    rewrite bind_bind, (bind_Ok _ _ _ _ _ Hrd).
    destruct (free_trees_spec k (map (u16_at (block_at s z)) (seqZ 0 INDIRECT_ENTRIES_PER_BLOCK)) s IH Hb Hf)
      as (s1 & Hr & Hfr).
    { intros y x Hy Hx. apply Hin, elem_of_app. left. apply list_elem_of_In, in_concat. exists (tree s k y).
      split; [|by apply list_elem_of_In]. rewrite <- (map_map (u16_at (block_at s z)) (tree s k)).
      apply in_map. by apply list_elem_of_In. }
    rewrite (bind_Ok _ _ _ _ _ Hr). rewrite map_map in Hfr.
    destruct (free_zone_spec z s1) as (s2 & Hr2 & Hfr2).
    + apply Hfr.
    + eapply in_bitmap_freed; [done|]. apply Hin, elem_of_app. right. by left.
    + done.
    + exists s2. split; [done|]. by eapply freed_app.
Qed.

(** The pointers below [p], itself included. *)
Fixpoint below (p q : loc) : Prop := q = p ∨ match q with Slot t _ => below p t | Root _ => False end.

Lemma below_refl p : below p p.
Proof. destruct p; by left. Qed.

Lemma below_slot p q i : below (Slot p i) q → below p q.
Proof.
  induction q as [r|t IH j]; intros [E|H]; try done.
  - rewrite E. right. apply below_refl.
  - right. by apply IH.
Qed.

Lemma below_inv p q : below p q → q = p ∨ ∃ i, below (Slot p i) q.
Proof.
  induction q as [r|t IH j]; intros [E|H]; try done; [by left|by left|right].
  destruct (IH H) as [->|(i & Hi)]; [exists j; apply below_refl|exists i; by right].
Qed.

Lemma below_valid p q : below p q → valid q → valid p.
Proof.
  induction q as [r|t IH j]; intros [<-|H] Hq; try done. apply IH; [done|]. by eapply valid_parent.
Qed.

Lemma below_null s p q : below p q → val s p = 0 → val s q = 0.
Proof.
  induction q as [r|t IH j]; intros [<-|H] Hz; try done. cbn [val]. unfold entry. by rewrite IH.
Qed.

Lemma below_level_0 p q : level p = Some 0%nat → below p q → valid q → q = p.
Proof.
  intros Hp Hb Hq. apply below_inv in Hb as [?|(i & Hi)]; [done|].
  apply below_valid in Hi as [n Hn]; [|done]. apply level_slot in Hn as [? _]. congruence.
Qed.

Lemma elem_of_tree s n p x :
  level p = Some n → x ∈ tree s n (val s p) ↔ x ≠ 0 ∧ ∃ q, valid q ∧ below p q ∧ val s q = x.
Proof.
  revert p x. induction n as [|n IH]; intros p x Hp; cbn [tree]; destruct (Z.eqb_spec (val s p) 0) as [Hz|Hz];
    try (split; [by intros ?%elem_of_nil|intros (Hx & q & _ & Hb & <-); by rewrite (below_null s p q) in Hx]).
  - rewrite app_nil_l, list_elem_of_singleton. split.
    + intros ->. split; [done|]. exists p. split; [by eexists|split; [apply below_refl|done]].
    + intros (Hx & q & Hq & Hb & <-). f_equal. by apply below_level_0.
  - rewrite elem_of_app, list_elem_of_singleton, list_elem_of_In, in_concat. split.
    + intros [(l & (i & <- & Hi)%in_map_iff & Hx)| ->].
      * apply list_elem_of_In, elem_of_seqZ in Hi. apply list_elem_of_In in Hx.
        assert (u16_at (block_at s (val s p)) i = val s (Slot p i)) as E.
        { cbn [val]. unfold entry. by rewrite (proj2 (Z.eqb_neq _ _) Hz). }
        rewrite E in Hx. apply IH in Hx as (Hx & q & Hq & Hb & Hv).
        -- split; [done|]. exists q. split_and!; [done|by eapply below_slot|done].
        -- simpl. rewrite Hp. by rewrite (proj2 (Z.leb_le 0 i)), (proj2 (Z.ltb_lt _ _)) by lia.
      * split; [done|]. exists p. split; [by eexists|split; [apply below_refl|done]].
    + intros (Hx & q & Hq & Hb & Hv). apply below_inv in Hb as [->|(i & Hi)]; [by right|left].
      destruct (valid_parent p i) as [_ Hir]; [by eapply below_valid|].
      exists (tree s n (u16_at (block_at s (val s p)) i)). split.
      { apply in_map_iff. exists i. split; [done|]. apply list_elem_of_In, elem_of_seqZ. lia. }
      assert (u16_at (block_at s (val s p)) i = val s (Slot p i)) as ->.
      { cbn [val]. unfold entry. by rewrite (proj2 (Z.eqb_neq _ _) Hz). }
      apply list_elem_of_In, IH; [|split; [done|by exists q]].
      simpl. rewrite Hp. by rewrite (proj2 (Z.leb_le 0 i)), (proj2 (Z.ltb_lt _ _)) by lia.
Qed.

(** Every pointer is below a root. *)
Fixpoint top (q : loc) : root := match q with Root r => r | Slot t _ => top t end.

Lemma below_top q : below (Root (top q)) q.
Proof. induction q as [r|t IH i]; [by left|by right]. Qed.

Definition root_level (r : root) : nat := match r with Direct _ => 0 | Single => 1 | Double => 2 end.

(** All zones of the file, in the order [truncate] frees them. *)
Definition file_zones (s : St) : list Z :=
  let d := disk_inode (inner s) in
  concat (map (tree s 0) (direct_zones d)) ++
  tree s 1 (single_indirect_zone d) ++ tree s 2 (double_indirect_zone d).

Lemma elem_of_direct s z : length (direct_zones (disk_inode (inner s))) = 7%nat →
  z ∈ direct_zones (disk_inode (inner s)) ↔ ∃ i, 0 ≤ i < 7 ∧ z = val s (Root (Direct i)).
Proof.
  intros Hl. rewrite list_elem_of_lookup. split.
  - intros [k Hk]. exists (Z.of_nat k). pose proof (lookup_lt_Some _ _ _ Hk). split; [lia|].
    simpl. unfold zlookup. by rewrite (proj2 (Z.leb_le 0 _)), Nat2Z.id, Hk by lia.
  - intros (i & Hi & ->). simpl. destruct (proj2 (zlookup_is_Some (direct_zones (disk_inode (inner s))) i)) as [x Hx]; [lia|].
    rewrite Hx. unfold zlookup in Hx. destruct (0 <=? i); [by eexists|done].
Qed.

Lemma elem_of_file_zones s x :
  wf s → x ∈ file_zones s ↔ x ≠ 0 ∧ ∃ q, valid q ∧ val s q = x.
Proof.
  intros Hwf. unfold file_zones. cbv zeta. rewrite !elem_of_app.
  rewrite (elem_of_tree s 1 (Root Single) x eq_refl), (elem_of_tree s 2 (Root Double) x eq_refl).
  rewrite (list_elem_of_In _ x), in_concat. split.
  - intros [(l & (z & <- & Hz)%in_map_iff & Hx)|[(Hx & q & ? & _ & ?)|(Hx & q & ? & _ & ?)]]; [|split; eauto..].
    apply list_elem_of_In, (elem_of_direct s z (wf_direct _ Hwf)) in Hz as (i & Hi & ->).
    apply list_elem_of_In, elem_of_tree in Hx; [naive_solver|].
    simpl. by rewrite (proj2 (Z.leb_le 0 i)), (proj2 (Z.ltb_lt _ _)) by (unfold DIRECT_ZONE_COUNT; lia).
  - intros (Hx & q & Hq & Hv). pose proof (below_top q) as Hb. pose proof (below_valid _ _ Hb Hq) as [n Hn].
    destruct (top q) as [i| |]; [left|right; left; eauto|right; right; eauto].
    simpl in Hn. destruct (Z.leb_spec 0 i), (Z.ltb_spec i DIRECT_ZONE_COUNT); try done.
    exists (tree s 0 (val s (Root (Direct i)))). split.
    + apply in_map, list_elem_of_In, (elem_of_direct s _ (wf_direct _ Hwf)). exists i. by split.
    + apply list_elem_of_In, elem_of_tree; [|eauto]. simpl.
      by rewrite (proj2 (Z.leb_le 0 i)), (proj2 (Z.ltb_lt _ _)) by done.
Qed.

Lemma free_direct_run l s : mfor l free_zone s = mfor l (free_zone_tree 0) s.
Proof.
  revert s. induction l as [|z l IH]; intros s; [done|]. cbn [mfor free_zone_tree]. unfold free_zone at 1.
  destruct (Z.eqb_spec z 0) as [->|Hz]; [apply IH|]. unfold bind, free_zone.
  rewrite (proj2 (Z.eqb_neq _ _) Hz). simpl. destruct (on_zones _ s) as [[[]| |] ?]; [apply IH|done..].
Qed.

(** The inode after [truncate]. *)
Definition cleared (t : Z) (d : DiskInode) : DiskInode :=
  set_mtime t (set_size 0 (set_double 0 (set_single 0 (set_direct (replicate 7 0) d)))).

Lemma freed_with_inner s s' l i : freed s s' l → freed (with_inner s i) (with_inner s' i) l.
Proof. intros []. by split. Qed.

Lemma file_zone_in_bitmap s x : wf s → x ∈ file_zones s → in_bitmap s x.
Proof.
  intros Hwf (Hx & q & Hq & <-)%(elem_of_file_zones s x Hwf).
  pose proof (wf_used _ Hwf q Hq Hx) as Hu. pose proof (used_uint _ _ Hwf Hu) as H16.
  destruct Hu as [Hr _]. unfold in_bitmap, is_uint in *. lia.
Qed.

Lemma truncate_run s :
  wf s → mounted s = true → faults s = [] →
  (file_type (mode (disk_inode (inner s))) = Some Regular ∨ file_type (mode (disk_inode (inner s))) = Some Directory) →
  ∃ s', truncate s = (Ok (), s') ∧
    freed (with_inner s (mkInner (cleared (now s) (disk_inode (inner s))) true (access_time (inner s)) (now s))) s' (file_zones s).
Proof.
  intros Hwf Hm Hf Ht. unfold truncate. erewrite bind_Ok by reflexivity. rewrite Hm. cbn [negb].
  erewrite bind_Ok by reflexivity. set (d := disk_inode (inner s)) in *.
  set (J := mkInner _ _ _ _). set (l0 := concat (map (tree s 0) (direct_zones d))).
  pose proof (λ x, file_zone_in_bitmap s x Hwf) as Hin. unfold file_zones in Hin. cbv zeta in Hin. fold d l0 in Hin.
  destruct (free_trees_spec 0 (direct_zones d) s (free_zone_tree_spec 0) (wf_bitmap _ Hwf) Hf) as (s1 & Hr1 & F1).
  { intros z x Hz Hx. apply Hin, elem_of_app. left. apply list_elem_of_In, in_concat.
    exists (tree s 0 z). split; [apply in_map|]; by apply list_elem_of_In. }
  rewrite <- free_direct_run in Hr1.
  set (s2 := with_inner s1 (mkInner (set_single 0 (set_direct (replicate 7 0) d)) (is_dirty (inner s))
    (access_time (inner s)) (change_time (inner s)))).
  destruct (free_zone_tree_spec 1 (single_indirect_zone d) s2) as (s3 & Hr3 & F3).
  { apply F1. }
  { simpl. by rewrite (fd_faults _ _ _ F1). }
  { intros x. rewrite (tree_ext s s2) by apply F1. intros Hx. apply (in_bitmap_freed s s1 l0); [done|].
    apply Hin, elem_of_app. right. apply elem_of_app. by left. }
  set (s4 := with_inner s3 (mkInner (set_double 0 (set_single 0 (set_direct (replicate 7 0) d))) (is_dirty (inner s))
    (access_time (inner s)) (change_time (inner s)))).
  assert (cache s3 = cache s) as Hc3 by (rewrite (fd_cache _ _ _ F3); apply F1).
  destruct (free_zone_tree_spec 2 (double_indirect_zone d) s4) as (s5 & Hr5 & F5).
  { apply F3. }
  { simpl. rewrite (fd_faults _ _ _ F3). simpl. by rewrite (fd_faults _ _ _ F1). }
  { intros x. rewrite (tree_ext s s4) by done. intros Hx.
    apply (in_bitmap_freed s2 s3 (tree s2 1 (single_indirect_zone d))); [done|].
    apply (in_bitmap_freed s s1 l0); [done|]. apply Hin, elem_of_app. right. apply elem_of_app. by right. }
  exists (with_inner s5 J). split.
  - assert ((mfor (direct_zones d) free_zone;;; set_disk (set_direct (replicate 7 0));;; set_disk (set_single 0);;;
      free_zone_tree 1 (single_indirect_zone d);;; set_disk (set_double 0);;;
      free_zone_tree 2 (double_indirect_zone d);;; set_disk (set_size 0);;; touch_modified) s = (Ok (), with_inner s5 J)) as Hbody.
    { rewrite (bind_Ok _ _ _ _ _ Hr1), <- bind_bind.
      erewrite bind_Ok by (unfold set_disk, mmodify, bind, with_inner; simpl; rewrite (fd_inner _ _ _ F1); reflexivity).
      change (with_inner s1 _) with s2. rewrite (bind_Ok _ _ _ _ _ Hr3).
      erewrite bind_Ok by (unfold set_disk, mmodify, with_inner; simpl; rewrite (fd_inner _ _ _ F3); reflexivity).
      fold s4. rewrite (bind_Ok _ _ _ _ _ Hr5).
      unfold set_disk, touch_modified, touch_change, disk, mgets, mmodify, bind, with_inner. simpl.
      rewrite (fd_inner _ _ _ F5), (fd_now _ _ _ F5). simpl. rewrite (fd_now _ _ _ F3). simpl. by rewrite (fd_now _ _ _ F1). }
    destruct Ht as [-> | ->]; (erewrite bind_Ok by reflexivity); exact Hbody.
  - unfold file_zones. cbv zeta. fold d l0. rewrite <- (tree_ext s s2), <- (tree_ext s s4) by (done || apply F1).
    eapply freed_app; [by apply (freed_with_inner s s1 l0)|].
    eapply freed_app; [by apply (freed_with_inner s2 s3)|]. by apply (freed_with_inner s4 s5).
Qed.

Lemma null_roots s p : (∀ r, root_val (disk_inode (inner s)) r = 0) → val s p = 0.
Proof. intros Hr. induction p as [r|t IH i]; simpl; [done|]. unfold entry. by rewrite IH. Qed.

Lemma cleared_roots t d r : root_val (cleared t d) r = 0.
Proof.
  destruct r as [i| |]; try done. simpl. unfold zlookup. destruct (0 <=? i); [|done].
  destruct (Z.to_nat i) as [|[|[|[|[|[|[|[|n]]]]]]]]; done.
Qed.

(** Truncation frees the file's zones and no other.  It frees exactly the
    zones of the tree, the indirect blocks included, leaves the file empty with
    all pointers null, and does nothing to a file that is not a regular file or
    a directory (the first pointer of a device node is its device number). *)
Theorem truncate_frees s :
  wf s → mounted s = true → faults s = [] →
  match file_type (mode (disk_inode (inner s))) with
  | Some Regular | Some Directory =>
      ∃ s', truncate s = (Ok (), s') ∧ wf s' ∧ size (disk_inode (inner s')) = 0 ∧
        modification_time (disk_inode (inner s')) = now s ∧ (∀ p, val s' p = 0) ∧
        ∀ x, zone_used s' x ↔ zone_used s x ∧ ¬ ∃ p, valid p ∧ val s p = x ∧ x ≠ 0
  | Some _ => truncate s = (Ok (), s)
  | None => truncate s = (Panic, s)
  end.
Proof.
  intros Hwf Hm Hf.
  assert ((file_type (mode (disk_inode (inner s))) = Some Regular ∨ file_type (mode (disk_inode (inner s))) = Some Directory) →
    ∃ s', truncate s = (Ok (), s') ∧ wf s' ∧ size (disk_inode (inner s')) = 0 ∧
      modification_time (disk_inode (inner s')) = now s ∧ (∀ p, val s' p = 0) ∧
      ∀ x, zone_used s' x ↔ zone_used s x ∧ ¬ ∃ p, valid p ∧ val s p = x ∧ x ≠ 0) as Hrun.
  { intros Ht. destruct (truncate_run s Hwf Hm Hf Ht) as (s' & Hrun & [Hc Hi _ _ _ Hb Hbase Hcount Hu]).
    simpl in Hc, Hi, Hbase, Hcount, Hu. exists s'.
    assert (∀ p, val s' p = 0) as Hnull by (intros p; apply null_roots; rewrite Hi; apply cleared_roots).
    assert (∀ x, zone_used s' x ↔ zone_used s x ∧ ¬ x ∈ file_zones s) as Hz.
    { intros x. unfold zone_used. rewrite Hbase, Hcount, Hu, andb_true_iff, negb_true_iff, bool_decide_eq_false. split.
      - intros (Hr & ? & Hn). rewrite Z2Nat.id in Hn by lia.
        replace (Bitmap.base_id (zones s) + (x - Bitmap.base_id (zones s))) with x in Hn by lia. auto.
      - intros ([Hr ?] & Hn). split_and!; [lia..|done|]. rewrite Z2Nat.id by lia.
        by replace (Bitmap.base_id (zones s) + (x - Bitmap.base_id (zones s))) with x by lia. }
    split_and!; [done| |by rewrite Hi|by rewrite Hi|done|].
    - split; try (intros; by rewrite Hnull in *).
      + done.
      + rewrite Hu, (wf_first _ Hwf). simpl. rewrite bool_decide_eq_false_2; [done|].
        intros (Hx & q & Hq & Hv)%elem_of_file_zones; [|done]. rewrite <- Hv in Hx.
        pose proof (wf_used _ Hwf q Hq Hx) as [? _]. lia.
      + rewrite Hbase, Hcount. apply (wf_ids _ Hwf).
      + intros z. unfold block_at. rewrite Hc. apply (wf_blocks _ Hwf).
      + by rewrite Hi.
    - intros x. rewrite Hz, elem_of_file_zones by done. naive_solver. }
  destruct (file_type _) as [t|] eqn:Ht; [destruct t; try (by apply Hrun; auto)|];
    unfold truncate; do 2 (erewrite bind_Ok by reflexivity; rewrite ?Hm; cbn [negb]); by rewrite Ht.
Qed.

(** The block map.  [map_block_id] rejects a block beyond the largest file
    and an unmounted file system; otherwise it returns the zone of the file
    block, 0 for a hole.  When asked to create, it returns 0 only when the disk
    is full, and however it ends, the contents and all zones of the file stay,
    and every zone it has taken from the bitmap has a pointer. *)
Theorem block_map_extends l create s :
  wf s → 0 ≤ l →
  if MAX_LOGICAL_BLOCKS <=? l then map_block_id l create s = (Err FBIG, s)
  else if negb (mounted s) then map_block_id l create s = (Err IO, s)
  else ∃ res s', map_block_id l create s = (res, s') ∧ wf s' ∧
    (∀ m, 0 ≤ m < MAX_LOGICAL_BLOCKS → contents s' m = contents s m) ∧
    (∀ p, valid p → val s p ≠ 0 → val s' p = val s p) ∧
    (∀ x, zone_used s' x → zone_used s x ∨ ∃ p, valid p ∧ val s' p = x ∧ x ≠ 0) ∧
    (res = Ok (val s' (data_loc l)) ∧ (create = true → val s' (data_loc l) = 0 → disk_full s') ∨
     res = Err IO ∧ faults s ≠ []) ∧
    (create = false → ∀ p, val s' p = val s p).
Proof.
  intros Hwf Hl. destruct (Z.leb_spec MAX_LOGICAL_BLOCKS l) as [Hbig|Hsmall].
  { unfold map_block_id. by rewrite (proj2 (Z.leb_le _ _) Hbig). }
  destruct (mounted s) eqn:Hm; simpl.
  - destruct (map_block_spec l create s Hwf) as (res & s' & Hr & He & Hres & Ha); [lia|done|].
    exists res, s'. split_and!; [done|apply He|apply He|apply He|apply He|done|].
    intros Hc p. apply alike_val. auto.
  - unfold map_block_id. rewrite (proj2 (Z.leb_gt _ _) Hsmall). erewrite bind_Ok by reflexivity. by rewrite Hm.
Qed.

(** ** A file of three bytes *)

Definition sample_inode : DiskInode := mkDiskInode 33188 0 3 0 0 1 [602; 0; 0; 0; 0; 0; 0] 0 0.

Definition sample_file : St :=
  mkSt {[602 := splice zero_block 0 [97; 98; 99]]} [] Bitmap.sample true (mkInner sample_inode false 0 0) 1000.

Lemma sample_val p : valid p → val sample_file p = if decide (p = Root (Direct 0)) then 602 else 0.
Proof.
  assert (∀ p n, level p = Some (S n) → val sample_file p = 0) as Hup.
  { clear p. induction p as [[i| |]|p IH i]; intros n Hn; try done.
    - simpl in Hn. by destruct (_ && _).
    - apply level_slot in Hn as [Hn _]. cbn [val]. unfold entry. by rewrite (IH _ Hn). }
  intros [n Hn]. destruct p as [[i| |]|p i]; try done.
  - simpl. destruct (decide (i = 0)) as [->|Hi]; [by rewrite decide_True|].
    rewrite decide_False by congruence. unfold zlookup. destruct (Z.leb_spec 0 i); [|done].
    destruct (Z.to_nat i) as [|[|[|[|[|[|[|[|k]]]]]]]] eqn:E; done || lia.
  - apply level_slot in Hn as [Hn _]. cbn [val]. unfold entry. by rewrite (Hup _ _ Hn).
Qed.

Lemma sample_file_wf : wf sample_file.
Proof.
  split; try done.
  - apply Bitmap.sample_wf.
  - intros z. unfold block_at, sample_file. cbn [cache]. destruct (decide (z = 602)) as [->|Hz].
    + rewrite lookup_singleton_eq. apply splice_ok; [apply zero_block_ok| |done|done].
      by apply (bool_decide_unpack (Forall (is_uint 8) _)).
    + rewrite lookup_singleton_ne by done. apply zero_block_ok.
  - intros p Hp. rewrite sample_val by done. case_decide; [|done]. intros _. split; [split; reflexivity|reflexivity].
  - intros p q Hp Hq. rewrite !sample_val by done. repeat case_decide; congruence.
Qed.

Lemma read_at_contents_witness : ∃ s', read_at 1 5 sample_file = (Ok [98; 99], s').
Proof.
  destruct (read_at_contents sample_file 1 5 sample_file_wf) as (res & s' & Hr & _ & _ & _ & [Hres|[Hf _]]);
    [reflexivity|lia|lia|discriminate| |by destruct Hf].
  exists s'. rewrite Hr, Hres. reflexivity.
Defined.

Lemma write_at_contents_witness : ∃ s', write_at 1022 [1; 2; 3; 4] sample_file = (Ok 4, s') ∧ file_byte s' 1025 = 4.
Proof.
  destruct (write_at_contents sample_file 1022 [1; 2; 3; 4] sample_file_wf)
    as (n & res & s' & Hr & Hn & _ & Hb & _ & _ & _ & _ & Hres);
    [reflexivity|repeat constructor; unfold is_uint; lia|unfold is_uint; lia|discriminate|].
  assert (fst (write_at 1022 [1; 2; 3; 4] sample_file) = Ok 4) as E by (vm_compute; reflexivity).
  rewrite Hr in E. cbn [fst] in E.
  case_decide; [destruct Hres as [e He]; congruence|]. assert (n = 4) as -> by congruence.
  exists s'. split; [congruence|]. rewrite Hb by (split; [lia|reflexivity]). reflexivity.
Defined.

Lemma write_read_roundtrip_witness :
  ∃ s' s'', write_at 1022 [1; 2; 3; 4] sample_file = (Ok 4, s') ∧ read_at 1022 4 s' = (Ok [1; 2; 3; 4], s'').
Proof.
  destruct (write_at 1022 [1; 2; 3; 4] sample_file) as [res s'] eqn:Hr.
  assert (fst (write_at 1022 [1; 2; 3; 4] sample_file) = Ok 4) as E by (vm_compute; reflexivity).
  rewrite Hr in E. cbn [fst] in E. subst res.
  destruct (write_read_roundtrip sample_file 1022 [1; 2; 3; 4] s' sample_file_wf) as (s'' & H);
    [reflexivity|repeat constructor; unfold is_uint; lia|unfold is_uint; lia|discriminate|reflexivity|discriminate|exact Hr|].
  exists s', s''. split; [reflexivity|exact H].
Defined.

Lemma truncate_frees_witness : ∃ s', truncate sample_file = (Ok (), s') ∧ ¬ zone_used s' 602.
Proof.
  pose proof (truncate_frees sample_file sample_file_wf eq_refl eq_refl) as H.
  change (file_type _) with (Some Regular) in H. destruct H as (s' & Hr & _ & _ & _ & _ & Hz).
  exists s'. split; [exact Hr|]. rewrite Hz. intros [_ Hn]. apply Hn. exists (Root (Direct 0)).
  split; [by eexists|]. split; [reflexivity|discriminate].
Defined.

Lemma block_map_extends_witness : ∃ s', map_block_id 0 true sample_file = (Ok 602, s').
Proof.
  pose proof (block_map_extends 0 true sample_file sample_file_wf ltac:(lia)) as H.
  change (MAX_LOGICAL_BLOCKS <=? 0) with false in H. cbn [negb mounted sample_file] in H.
  destruct H as (res & s' & Hr & _ & _ & Hv & _ & [[Hres _]|[_ Hf]] & _); [|by destruct Hf].
  exists s'. rewrite Hr, Hres, (Hv (data_loc 0)); [reflexivity|by eexists|discriminate].
Defined.
End BlockMap.
