(* ===== verification/Directory.v ===== *)
(** * Directories ([kernel/src/fs/minix.rs], directory operations)

    A directory is a file of 16-byte entries.  Lookup, insertion and removal of
    names, the emptiness test, and the finite map from names to inode numbers
    that they implement. *)

From S2P Require Import Prelude Bitmap Layout Minix BlockMap.
From stdpp Require Import gmap.
Open Scope kmonad_scope.
Open Scope Z_scope.

Module Directory.
Import Layout Minix BlockMap.

(** ** Operations *)

(** A visitor sees the slot and the entry; outside [Some] it panics. *)
Definition Visitor (T : Type) : Type := Z → DiskDirectoryEntry → option (option T).

(** [find_map] over the entries of one block. *)
Fixpoint visit_entries {T} (visit : Visitor T) (slot : Z) (l : list DiskDirectoryEntry) : option (option T) :=
  match l with
  | [] => Some None
  | e :: l =>
      match visit slot e with
      | Some None => visit_entries visit (slot + 1) l
      | r => r
      end
  end.

(** The loop over the blocks; [fuel] turns are enough for [64 * fuel] entries. *)
Fixpoint scan_blocks {T} (visit : Visitor T) (fuel : nat) (first_slot entry_count : Z) : M St (option T) :=
  if entry_count <=? first_slot then mok None
  else match fuel with
  | O => mpanic
  | S fuel =>
      block_id <- map_block_id (first_slot / DIRECTORY_ENTRIES_PER_BLOCK) false;;
      if block_id =? 0 then scan_blocks visit fuel (first_slot + DIRECTORY_ENTRIES_PER_BLOCK) entry_count
      else
        o <- read_block block_id;;
        match o with
        | None => merr IO
        | Some block =>
            let entries_in_block := Z.min (entry_count - first_slot) DIRECTORY_ENTRIES_PER_BLOCK in
            found <- mexpect (visit_entries visit first_slot (map (entry_at block) (seqZ 0 entries_in_block)));;
            match found with
            | Some t => mok (Some t)
            | None => scan_blocks visit fuel (first_slot + DIRECTORY_ENTRIES_PER_BLOCK) entry_count
            end
        end
  end.

Definition entry_count (d : DiskInode) : Z := size d / DIRECTORY_ENTRY_SIZE.

Definition find_directory_entry {T} (visit : Visitor T) : M St (option T) :=
  d <- disk;;
  scan_blocks visit (S (Z.to_nat (entry_count d / DIRECTORY_ENTRIES_PER_BLOCK))) 0 (entry_count d).

Definition write_directory_entry (slot : Z) (dirent : DiskDirectoryEntry) : M St () :=
  let logical_block := slot / DIRECTORY_ENTRIES_PER_BLOCK in
  let entry_index := slot mod DIRECTORY_ENTRIES_PER_BLOCK in
  block_id <- map_block_id logical_block true;;
  if block_id =? 0 then merr ERROR
  else
    o <- read_block block_id;;
    match o with
    | None => merr IO
    | Some _ =>
        modify_block block_id (entry_set entry_index dirent);;;
        let end_offset := (slot + 1) * DIRECTORY_ENTRY_SIZE in
        d <- disk;;
        (if size d <? end_offset then set_disk (set_size (as_u32 end_offset)) else mok ());;;
        touch_modified
    end.

Definition assert_directory : M St () :=
  d <- disk;;
  t <- mexpect (file_type (mode d));;
  massert (bool_decide (t = Directory)).

Definition name_is (name : list Z) (e : DiskDirectoryEntry) : option bool :=
  s ← entry_str e; Some (bool_decide (s = name)).

Definition lookup_visit (name : list Z) : Visitor Z := λ _ e,
  if inode_number e =? 0 then Some None
  else b ← name_is name e; Some (if b : bool then Some (inode_number e) else None).

Definition lookup (name : list Z) : M St (option Z) :=
  assert_directory;;;
  find_directory_entry (lookup_visit name).

Definition free_visit : Visitor Z := λ slot e,
  Some (if inode_number e =? 0 then Some slot else None).

Definition add_entry (name : list Z) (inum : Z) : M St () :=
  assert_directory;;;
  d <- disk;;
  o <- find_directory_entry free_visit;;
  e <- mexpect (entry_new name inum);;
  write_directory_entry (default (entry_count d) o) e.

Definition remove_visit (name : list Z) : Visitor (Z * Z) := λ slot e,
  if inode_number e =? 0 then Some None
  else b ← name_is name e; Some (if b : bool then Some (slot, inode_number e) else None).

Definition remove_entry (name : list Z) : M St Z :=
  assert_directory;;;
  o <- find_directory_entry (remove_visit name);;
  match o with
  | None => merr NOENT
  | Some (slot, inum) => write_directory_entry slot entry_empty;;; mok inum
  end.

Definition dot : list Z := [46].
Definition dotdot : list Z := [46; 46].

Definition other_visit : Visitor () := λ _ e,
  if inode_number e =? 0 then Some None
  else s ← entry_str e;
       Some (if negb (bool_decide (s = dot)) && negb (bool_decide (s = dotdot)) then Some () else None).

Definition is_empty_directory : M St bool :=
  assert_directory;;;
  o <- find_directory_entry other_visit;;
  mok (if o is None then true else false).

(** ** Slots *)

Definition slots (s : St) : Z := entry_count (disk_inode (inner s)).

Definition slot_entry (s : St) (i : Z) : DiskDirectoryEntry :=
  entry_at (contents s (i / DIRECTORY_ENTRIES_PER_BLOCK)) (i mod DIRECTORY_ENTRIES_PER_BLOCK).

(** Whether the slot's block is there; the scan skips holes. *)
Definition backed (s : St) (i : Z) : Prop := val s (data_loc (i / DIRECTORY_ENTRIES_PER_BLOCK)) ≠ 0.

Lemma visit_entries_spec {T} (visit : Visitor T) (f : Z → option T) slot l :
  (∀ k e, l !! k = Some e → visit (slot + Z.of_nat k) e = Some (f (slot + Z.of_nat k))) →
  (visit_entries visit slot l = Some None ∧ ∀ k, (k < length l)%nat → f (slot + Z.of_nat k) = None) ∨
  (∃ k t, (k < length l)%nat ∧ f (slot + Z.of_nat k) = Some t ∧ visit_entries visit slot l = Some (Some t)).
Proof.
  revert slot. induction l as [|e l IH]; intros slot Hv; cbn [visit_entries length].
  { left. split; [done|]. lia. }
  pose proof (Hv 0%nat e eq_refl) as H0. rewrite Z.add_0_r in H0. rewrite H0.
  destruct (f slot) as [t|] eqn:Hf.
  { right. exists 0%nat, t. rewrite Z.add_0_r. split_and!; [lia|done|done]. }
  destruct (IH (slot + 1)) as [[-> Hn]|(k & t & Hk & Hft & ->)].
  - intros k e' Hk. specialize (Hv (S k) e' Hk). by replace (slot + 1 + Z.of_nat k) with (slot + Z.of_nat (S k)) by lia.
  - left. split; [done|]. intros [|k] Hk; [by rewrite Z.add_0_r|].
    replace (slot + Z.of_nat (S k)) with (slot + 1 + Z.of_nat k) by lia. apply Hn. lia.
  - right. exists (S k), t. replace (slot + Z.of_nat (S k)) with (slot + 1 + Z.of_nat k) by lia.
    split_and!; [lia|done|done].
Qed.

(** The outcome of a scan of the slots from [lo]. *)
Definition scan_result {T} (s : St) (f : Z → option T) (lo n : Z) (o : option T) : Prop :=
  match o with
  | Some t => ∃ i, lo ≤ i < n ∧ backed s i ∧ f i = Some t
  | None => ∀ i, lo ≤ i < n → backed s i → f i = None
  end.

Lemma same_block first i : first mod 64 = 0 → first ≤ i < first + 64 → i / 64 = first / 64 ∧ i mod 64 = i - first.
Proof.
  intros Hm Hi. pose proof (Z.div_mod first 64). assert (i = i - first + first / 64 * 64) as E by lia.
  split; [rewrite E, Z.div_add, Z.div_small by lia; lia|]. rewrite E at 1. rewrite Z.mod_add, Z.mod_small by lia. lia.
Qed.

Lemma block_visit {T} (visit : Visitor T) (f : Z → option T) s first n :
  first mod 64 = 0 → first < n → val s (data_loc (first / 64)) ≠ 0 →
  (∀ i, first ≤ i < n → visit i (slot_entry s i) = Some (f i)) →
  let r := visit_entries visit first (map (entry_at (block_at s (val s (data_loc (first / 64)))))
    (seqZ 0 (Z.min (n - first) 64))) in
  (r = Some None ∧ ∀ i, first ≤ i < Z.min n (first + 64) → f i = None) ∨
  (∃ i t, first ≤ i < Z.min n (first + 64) ∧ f i = Some t ∧ r = Some (Some t)).
Proof.
  intros Hmod Hlt Hz Hv r.
  destruct (visit_entries_spec visit f first (map (entry_at (block_at s (val s (data_loc (first / 64)))))
    (seqZ 0 (Z.min (n - first) 64)))) as [[Hr Hnone]|(k & t & Hk & Ht & Hr)].
  - intros k e [i [-> [-> Hi]%lookup_seqZ]]%list_lookup_fmap_Some. rewrite <- Hv by lia.
    destruct (same_block first (first + Z.of_nat k)) as [Hd Hm]; [done|lia|]. f_equal.
    unfold slot_entry, contents. change DIRECTORY_ENTRIES_PER_BLOCK with 64. rewrite Hd, Hm.
    rewrite (proj2 (Z.eqb_neq _ _) Hz). f_equal. lia.
  - left. split; [done|]. intros i Hi. replace i with (first + Z.of_nat (Z.to_nat (i - first))) by lia.
    apply Hnone. rewrite length_map, length_seqZ. lia.
  - right. rewrite length_map, length_seqZ in Hk. exists (first + Z.of_nat k), t. split_and!; [lia..|done|done].
Qed.

Lemma scan_blocks_spec {T} (visit : Visitor T) (f : Z → option T) fuel first n s :
  wf s → mounted s = true → faults s = [] → first mod 64 = 0 → 0 ≤ first → n < first + 64 * Z.of_nat fuel →
  n ≤ MAX_LOGICAL_BLOCKS * 64 →
  (∀ i, first ≤ i < n → visit i (slot_entry s i) = Some (f i)) →
  ∃ o s', scan_blocks visit fuel first n s = (Ok o, s') ∧ alike s s' ∧ scan_result s f first n o.
Proof.
  revert first s. induction fuel as [|fuel IH]; intros first s Hwf Hm Hf Hmod Hfirst Hfuel Hn Hv; cbn [scan_blocks];
    destruct (Z.leb_spec n first) as [Hle|Hlt]; [|lia| |].
  1,2: exists None, s; split_and!; [done|apply alike_refl|intros i Hi; lia].
  change DIRECTORY_ENTRIES_PER_BLOCK with 64 in *.
  assert (0 ≤ first / 64 < MAX_LOGICAL_BLOCKS) as Hl by (split; [by apply Z.div_pos|apply Z.div_lt_upper_bound; lia]).
  destruct (map_block_spec (first / 64) false s Hwf Hl Hm) as (r & s1 & Hrun & _ & Hres & Ha). specialize (Ha eq_refl).
  destruct Hres as [[-> _]|[_ Hflt]]; [|done]. rewrite (bind_Ok _ _ _ _ _ Hrun), (alike_val s) by done.
  (* the remaining blocks, once this one has nothing *)
  assert (∀ s2, alike s s2 → (∀ i, first ≤ i < Z.min n (first + 64) → backed s i → f i = None) →
    ∃ o s', scan_blocks visit fuel (first + 64) n s2 = (Ok o, s') ∧ alike s s' ∧ scan_result s f first n o) as Hgo.
  { intros s2 Ha2 Hnone. destruct (IH (first + 64) s2) as (o & s' & Hr & Ha' & Hsc).
    - by apply (alike_wf s).
    - by rewrite (al_mounted _ _ Ha2).
    - by apply (al_faults _ _ Ha2).
    - rewrite <- Hmod. apply (Z.mod_add first 1 64). done.
    - lia.
    - lia.
    - done.
    - intros i Hi. rewrite <- Hv by lia. unfold slot_entry. by rewrite (alike_contents s) by done.
    - exists o, s'. split_and!; [done|by eapply alike_trans|]. unfold scan_result, backed in *. destruct o as [t|].
      + destruct Hsc as (i & Hi & Hb & Ht). exists i. rewrite (alike_val s) in Hb by done. split_and!; [lia..|done|done].
      + intros i Hi Hb. destruct (decide (i < first + 64)); [apply Hnone; [lia|done]|].
        apply Hsc; [lia|]. by rewrite (alike_val s). }
  assert (∀ i, first ≤ i < first + 64 → backed s i ↔ val s (data_loc (first / 64)) ≠ 0) as Hback.
  { intros i Hi. unfold backed. change DIRECTORY_ENTRIES_PER_BLOCK with 64. by destruct (same_block first i) as [-> _]. }
  destruct (Z.eqb_spec (val s (data_loc (first / 64))) 0) as [Hz|Hz].
  { apply Hgo; [done|]. intros i Hi Hb. apply Hback in Hb; [done|lia]. }
  assert (∀ z s, faults s = [] → read_block z s = (Ok (Some (block_at s z)), s)) as Hrd.
  { intros z s0 E. unfold read_block. by rewrite E. }
  rewrite (bind_Ok _ _ _ _ _ (Hrd _ s1 (al_faults _ _ Ha Hf))). cbv beta iota zeta.
  rewrite (alike_block s s1) by done. set (b := block_at s _).
  destruct (block_visit visit f s first n Hmod Hlt Hz Hv) as [[Hr Hnone]|(i & t & Hi & Ht & Hr)]; fold b in Hr; rewrite Hr.
  - apply Hgo; [done|]. intros i Hi _. by apply Hnone.
  - exists (Some t), s1. split_and!; [done..|]. exists i. split_and!; [lia..|apply Hback; [lia|done]|done].
Qed.

(** A directory on a working device.  Live entries have readable names, no two
    of them the same. *)
Record dir_ok (s : St) : Prop := {
  do_wf : wf s;
  do_mounted : mounted s = true;
  do_faults : faults s = [];
  do_type : file_type (mode (disk_inode (inner s))) = Some Directory;
  do_size : 0 ≤ size (disk_inode (inner s)) ≤ MAX_FILE_SIZE;
  do_names : ∀ i, 0 ≤ i < slots s → inode_number (slot_entry s i) ≠ 0 → is_Some (entry_str (slot_entry s i));
  do_unique : ∀ i j, 0 ≤ i < slots s → 0 ≤ j < slots s → inode_number (slot_entry s i) ≠ 0 →
    inode_number (slot_entry s j) ≠ 0 → entry_str (slot_entry s i) = entry_str (slot_entry s j) → i = j;
}.

Definition MAX_SLOTS : Z := MAX_LOGICAL_BLOCKS * DIRECTORY_ENTRIES_PER_BLOCK.

Lemma slots_bound s : 0 ≤ size (disk_inode (inner s)) ≤ MAX_FILE_SIZE → 0 ≤ slots s ≤ MAX_SLOTS.
Proof.
  intros [H0 H1]. unfold slots, entry_count, DIRECTORY_ENTRY_SIZE. split; [by apply Z.div_pos|].
  change MAX_SLOTS with (MAX_FILE_SIZE / 16). by apply Z.div_le_mono.
Qed.

Lemma find_spec {T} (visit : Visitor T) (f : Z → option T) s :
  wf s → mounted s = true → faults s = [] → 0 ≤ size (disk_inode (inner s)) ≤ MAX_FILE_SIZE →
  (∀ i, 0 ≤ i < slots s → visit i (slot_entry s i) = Some (f i)) →
  ∃ o s', find_directory_entry visit s = (Ok o, s') ∧ alike s s' ∧ scan_result s f 0 (slots s) o.
Proof.
  intros Hwf Hm Hf Hsize Hv. pose proof (slots_bound s Hsize) as Hb. unfold find_directory_entry.
  erewrite bind_Ok by reflexivity. fold (slots s). change DIRECTORY_ENTRIES_PER_BLOCK with 64.
  apply scan_blocks_spec; try done.
  - pose proof (Z.div_mod (slots s) 64). pose proof (Z.mod_pos_bound (slots s) 64).
    assert (0 ≤ slots s / 64) by (apply Z.div_pos; lia). lia.
  - apply Hb.
Qed.

Lemma slot_block slot : 0 ≤ slot < MAX_SLOTS → 0 ≤ slot / 64 < MAX_LOGICAL_BLOCKS.
Proof. intros [H0 H1]. split; [by apply Z.div_pos|]. apply Z.div_lt_upper_bound; [done|]. rewrite Z.mul_comm. exact H1. Qed.

Lemma slot_entry_contents s s' i : (∀ l, 0 ≤ l < MAX_LOGICAL_BLOCKS → contents s' l = contents s l) →
  0 ≤ i < MAX_SLOTS → slot_entry s' i = slot_entry s i.
Proof. intros Hc Hi. unfold slot_entry. by rewrite Hc by (by apply slot_block). Qed.

Lemma entry_stored s slot e j :
  wf s → 0 ≤ slot < MAX_SLOTS → 0 ≤ j < MAX_SLOTS → entry_ok e → backed s slot →
  let z := val s (data_loc (slot / 64)) in
  slot_entry (set_block s z (entry_set (slot mod 64) e (block_at s z))) j = if decide (j = slot) then e else slot_entry s j.
Proof.
  intros Hwf Hs Hj He Hb. unfold backed in Hb. change DIRECTORY_ENTRIES_PER_BLOCK with 64 in Hb. intros z. unfold slot_entry.
  change DIRECTORY_ENTRIES_PER_BLOCK with 64. unfold z. rewrite set_data_contents by (done || by apply slot_block).
  pose proof (Z.div_mod slot 64). pose proof (Z.div_mod j 64).
  pose proof (Z.mod_pos_bound slot 64). pose proof (Z.mod_pos_bound j 64).
  destruct (decide (j / 64 = slot / 64)) as [E|E].
  - rewrite entry_at_set by (try done; try (by apply wf_blocks); change DIRECTORY_ENTRIES_PER_BLOCK with 64; lia).
    destruct (decide (j = slot)) as [->|Hne]; [by rewrite decide_True|]. rewrite decide_False by lia.
    unfold contents. rewrite E. by rewrite (proj2 (Z.eqb_neq _ _) Hb).
  - rewrite decide_False; [done|]. by intros ->.
Qed.

(** The state after a successful [write_directory_entry]. *)
Record entry_written (s s' : St) (slot : Z) (e : DiskDirectoryEntry) : Prop := {
  ew_wf : wf s';
  ew_mounted : mounted s' = true;
  ew_faults : faults s' = [];
  ew_mode : mode (disk_inode (inner s')) = mode (disk_inode (inner s));
  ew_size : size (disk_inode (inner s')) = Z.max (size (disk_inode (inner s))) ((slot + 1) * 16);
  ew_entries : ∀ j, 0 ≤ j < MAX_SLOTS → slot_entry s' j = if decide (j = slot) then e else slot_entry s j;
  ew_backed : ∀ j, 0 ≤ j < MAX_SLOTS → backed s j → backed s' j;
}.

Lemma write_entry_spec slot e s :
  wf s → mounted s = true → faults s = [] → 0 ≤ slot < MAX_SLOTS → entry_ok e →
  ∃ res s', write_directory_entry slot e s = (res, s') ∧
    (res = Ok () ∧ entry_written s s' slot e ∨ res = Err ERROR ∧ disk_full s' ∧ ¬ backed s slot ∧ ext s s').
Proof.
  intros Hwf Hm Hf Hs He. unfold write_directory_entry. change DIRECTORY_ENTRIES_PER_BLOCK with 64. cbv zeta.
  pose proof (slot_block slot Hs) as Hl.
  destruct (map_block_spec (slot / 64) true s Hwf Hl Hm) as (r & s1 & Hrun & Hx & Hres & _).
  destruct Hres as [[-> Hfull]|[_ Hflt]]; [|done]. rewrite (bind_Ok _ _ _ _ _ Hrun).
  destruct (Z.eqb_spec (val s1 (data_loc (slot / 64))) 0) as [Hz|Hz].
  { eexists _, s1. split; [done|]. right. split_and!; [done|by apply Hfull| |done]. intros Hb. unfold backed in Hb.
    change DIRECTORY_ENTRIES_PER_BLOCK with 64 in Hb. apply Hb. rewrite <- Hz. symmetry.
    apply (ex_vals _ _ Hx); [by apply data_loc_valid|done]. }
  assert (read_block (val s1 (data_loc (slot / 64))) s1 = (Ok (Some (block_at s1 (val s1 (data_loc (slot / 64))))), s1)) as Hrd.
  { unfold read_block. by rewrite (ex_faults _ _ Hx Hf). }
  rewrite (bind_Ok _ _ _ _ _ Hrd). set (z := val s1 _) in *. set (d := disk_inode (inner s1)).
  pose proof (ex_wf _ _ Hx) as Hwf1.
  set (s2 := set_block s1 z (entry_set (slot mod 64) e (block_at s1 z))).
  assert (wf s2) as Hwf2.
  { apply set_data_wf; [done..|]. apply entry_set_ok; [by apply wf_blocks|done|].
    by apply Z.mod_pos_bound. }
  assert (is_uint 32 ((slot + 1) * 16)) as Hend by (change MAX_SLOTS with 16810432 in Hs; unfold is_uint; lia).
  set (d' := set_mtime (now s1) (set_size (Z.max (size d) ((slot + 1) * 16)) d)).
  destruct (with_disk_spec s2 d' Hwf2 ltac:(by intros []) (wf_direct _ Hwf1) true (access_time (inner s1)) (now s1))
    as (Hwf' & _ & Hval).
  eexists (Ok ()), _. split.
  { erewrite bind_Ok by reflexivity. erewrite bind_Ok by reflexivity.
    change (with_cache s1 _) with s2. change (disk_inode (inner s2)) with d. change DIRECTORY_ENTRY_SIZE with 16.
    assert ((if size d <? (slot + 1) * 16 then set_disk (set_size (as_u32 ((slot + 1) * 16))) else mok ()) s2 =
      (Ok (), with_inner s2 (mkInner (set_size (Z.max (size d) ((slot + 1) * 16)) d) (is_dirty (inner s1))
        (access_time (inner s1)) (change_time (inner s1))))) as Hset.
    { destruct (Z.ltb_spec (size d) ((slot + 1) * 16)) as [Hlt|Hge].
      - rewrite wrap_small, Z.max_r by (done || lia). done.
      - rewrite Z.max_l by lia. unfold mok, s2, d. destruct s1 as [? ? ? ? [[] ? ? ?] ?]. done. }
    rewrite (bind_Ok _ _ _ _ _ Hset). reflexivity. }
  left. split; [done|]. split.
  - exact Hwf'.
  - simpl. by rewrite (ex_mounted _ _ Hx).
  - simpl. by apply (ex_faults _ _ Hx).
  - simpl. apply (ex_mode _ _ Hx).
  - simpl. unfold d. by rewrite (ex_size _ _ Hx).
  - intros j Hj. rewrite <- (slot_entry_contents s s1) by (apply Hx || done).
    rewrite <- (entry_stored s1 slot e j Hwf1 Hs Hj He) by done. fold z s2. apply slot_entry_contents; [|done].
    intros l _. unfold contents. by rewrite Hval.
  - intros j Hj. unfold backed. rewrite Hval. change DIRECTORY_ENTRIES_PER_BLOCK with 64. intros Hb. unfold s2, z.
    rewrite set_data_val by (done || by apply data_loc_level || by apply data_loc_valid, slot_block).
    by rewrite (ex_vals _ _ Hx) by (done || by apply data_loc_valid, slot_block).
Qed.

(** ** The map of a directory *)

Definition live_entry (e : DiskDirectoryEntry) : option (list Z * Z) :=
  if inode_number e =? 0 then None else n ← entry_str e; Some (n, inode_number e).

(** What the directory binds each name to. *)
Definition dir_map (s : St) : gmap (list Z) Z :=
  list_to_map (omap (λ i, live_entry (slot_entry s i)) (seqZ 0 (slots s))).

Lemma live_entry_Some e n x : live_entry e = Some (n, x) ↔ inode_number e ≠ 0 ∧ inode_number e = x ∧ entry_str e = Some n.
Proof.
  unfold live_entry. destruct (Z.eqb_spec (inode_number e) 0); [naive_solver|].
  destruct (entry_str e) as [n'|]; simpl; naive_solver.
Qed.

Lemma dir_map_lookup s n x :
  dir_ok s → dir_map s !! n = Some x ↔ ∃ i, 0 ≤ i < slots s ∧ live_entry (slot_entry s i) = Some (n, x).
Proof.
  intros Hok. assert (∀ y, (n, y) ∈ omap (λ i, live_entry (slot_entry s i)) (seqZ 0 (slots s)) ↔
    ∃ i, 0 ≤ i < slots s ∧ live_entry (slot_entry s i) = Some (n, y)) as Hin.
  { intros y. rewrite list_elem_of_omap. split; intros (i & Hi & Hl); exists i; (split; [|done]).
    - apply elem_of_seqZ in Hi. lia.
    - apply elem_of_seqZ. lia. }
  unfold dir_map. rewrite <- Hin. split; [apply elem_of_list_to_map_2|].
  intros Hx. apply elem_of_list_to_map_1'; [|done]. intros y Hy.
  apply Hin in Hx as (i & Hi & (Hi0 & <- & Hin')%live_entry_Some). apply Hin in Hy as (j & Hj & (Hj0 & <- & Hjn)%live_entry_Some).
  by rewrite (do_unique _ Hok i j) by (done || congruence).
Qed.

Lemma dir_map_None s n i : dir_ok s → dir_map s !! n = None → 0 ≤ i < slots s → inode_number (slot_entry s i) ≠ 0 →
  entry_str (slot_entry s i) ≠ Some n.
Proof.
  intros Hok Hn Hi Hl E. assert (dir_map s !! n = Some (inode_number (slot_entry s i))) as E'; [|congruence].
  apply dir_map_lookup; [done|]. exists i. split; [done|]. by apply live_entry_Some.
Qed.

(** Live entries are not in holes. *)
Lemma live_backed s i : inode_number (slot_entry s i) ≠ 0 → backed s i.
Proof.
  intros Hl Hb. apply Hl. unfold slot_entry, contents. unfold backed in Hb. rewrite Hb. simpl. apply u16_at_zero.
Qed.

(** What a step that changes no contents keeps. *)
Lemma dir_same s s' :
  dir_ok s → wf s' → mounted s' = mounted s → (faults s = [] → faults s' = []) →
  mode (disk_inode (inner s')) = mode (disk_inode (inner s)) →
  size (disk_inode (inner s')) = size (disk_inode (inner s)) →
  (∀ l, 0 ≤ l < MAX_LOGICAL_BLOCKS → contents s' l = contents s l) →
  dir_ok s' ∧ dir_map s' = dir_map s.
Proof.
  intros Hok Hwf Hm Hf Hmode Hsize Hc. pose proof (slots_bound s (do_size _ Hok)) as Hb.
  assert (slots s' = slots s) as Hs by (unfold slots, entry_count; by rewrite Hsize).
  assert (∀ i, 0 ≤ i < slots s → slot_entry s' i = slot_entry s i) as He.
  { intros i Hi. apply slot_entry_contents; [done|lia]. }
  split.
  - destruct Hok. split; rewrite ?Hmode, ?Hsize, ?Hm, ?Hs; auto.
    + intros i Hi. rewrite He by done. auto.
    + intros i j Hi Hj. rewrite !He by done. auto.
  - unfold dir_map. rewrite Hs. f_equal. apply list_omap_ext, Forall_Forall2_diag, Forall_forall.
    intros i Hi%elem_of_seqZ. by rewrite He by lia.
Qed.

Lemma dir_alike s s' : dir_ok s → alike s s' → dir_ok s' ∧ dir_map s' = dir_map s.
Proof.
  intros Hok Ha. apply dir_same; try done; rewrite ?(al_disk _ _ Ha); try apply Ha; try done.
  - by apply (alike_wf s); [apply Hok|].
  - intros l _. by apply alike_contents.
Qed.

Lemma dir_ext s s' : dir_ok s → ext s s' → dir_ok s' ∧ dir_map s' = dir_map s.
Proof. intros Hok He. apply dir_same; try done; apply He. Qed.

(** One entry written, at a slot in use or the next one. *)
Lemma written_slots s s' slot e :
  dir_ok s → entry_written s s' slot e → 0 ≤ slot ≤ slots s → slots s' = Z.max (slots s) (slot + 1).
Proof.
  intros Hok Hw Hs. unfold slots, entry_count in *. rewrite (ew_size _ _ _ _ Hw). change DIRECTORY_ENTRY_SIZE with 16 in *.
  pose proof (do_size _ Hok) as [H0 _]. pose proof (Z.div_mod (size (disk_inode (inner s))) 16).
  pose proof (Z.mod_pos_bound (size (disk_inode (inner s))) 16).
  destruct (Z.max_spec (size (disk_inode (inner s))) ((slot + 1) * 16)) as [[? ->]|[? ->]].
  - rewrite Z.div_mul by done. lia.
  - assert (slot + 1 ≤ size (disk_inode (inner s)) / 16); [|lia].
    apply Z.div_le_lower_bound; lia.
Qed.

Lemma dir_written s s' slot e :
  dir_ok s → entry_written s s' slot e → 0 ≤ slot ≤ slots s → slot < MAX_SLOTS →
  (inode_number e ≠ 0 → ∃ n, entry_str e = Some n ∧ dir_map s !! n = None) →
  dir_ok s' ∧ ∀ n x, dir_map s' !! n = Some x ↔ live_entry e = Some (n, x) ∨
    ∃ j, 0 ≤ j < slots s ∧ j ≠ slot ∧ live_entry (slot_entry s j) = Some (n, x).
Proof.
  intros Hok Hw Hs Hmax He. pose proof (written_slots _ _ _ _ Hok Hw Hs) as Hn.
  pose proof (slots_bound s (do_size _ Hok)) as Hb.
  assert (∀ j, 0 ≤ j < slots s' → slot_entry s' j = if decide (j = slot) then e else slot_entry s j) as Hent.
  { intros j Hj. apply (ew_entries _ _ _ _ Hw). lia. }
  assert (dir_ok s') as Hok'.
  { split; try apply Hw.
    - rewrite (ew_mode _ _ _ _ Hw). apply Hok.
    - rewrite (ew_size _ _ _ _ Hw). pose proof (do_size _ Hok). change MAX_SLOTS with (262663 * 64) in Hmax.
      change MAX_FILE_SIZE with (262663 * 64 * 16) in *. lia.
    - intros j Hj. rewrite Hent by done. case_decide; [intros Hl; by destruct (He Hl) as (n & -> & _)|].
      apply (do_names _ Hok). lia.
    - intros i j Hi Hj. rewrite !Hent by done. repeat case_decide; subst; try done; try (apply (do_unique _ Hok); lia).
      + intros Hl Hlj E. destruct (He Hl) as (n & Hstr & Hnone). exfalso.
        apply (dir_map_None s n j Hok Hnone); [lia|done|congruence].
      + intros Hli Hl E. destruct (He Hl) as (n & Hstr & Hnone). exfalso.
        apply (dir_map_None s n i Hok Hnone); [lia|done|congruence]. }
  split; [done|]. intros n x. rewrite dir_map_lookup by done. split.
  - intros (j & Hj & Hl). rewrite Hent in Hl by done. case_decide; [by left|right]. exists j. split_and!; [lia..|done].
  - intros [Hl|(j & Hj & Hne & Hl)].
    + exists slot. split; [lia|]. rewrite Hent, decide_True by (done || lia). done.
    + exists j. split; [lia|]. rewrite Hent, decide_False by (done || lia). done.
Qed.

(** ** The operations *)

Lemma assert_directory_ok s : dir_ok s → assert_directory s = (Ok (), s).
Proof.
  intros Hok. unfold assert_directory. erewrite bind_Ok by reflexivity.
  rewrite (do_type _ Hok). reflexivity.
Qed.

Lemma dir_find {T} (visit : Visitor T) (f : Z → option T) s :
  dir_ok s → (∀ i, 0 ≤ i < slots s → visit i (slot_entry s i) = Some (f i)) →
  ∃ o s', find_directory_entry visit s = (Ok o, s') ∧ alike s s' ∧ scan_result s f 0 (slots s) o.
Proof. intros Hok Hv. apply find_spec; try apply Hok. done. Qed.

(** Visitors that ask for a name. *)
Definition at_name (s : St) (name : list Z) (i : Z) : bool :=
  bool_decide (live_entry (slot_entry s i) = Some (name, inode_number (slot_entry s i))).

Lemma name_is_spec s name i : dir_ok s → 0 ≤ i < slots s → inode_number (slot_entry s i) ≠ 0 →
  name_is name (slot_entry s i) = Some (at_name s name i).
Proof.
  intros Hok Hi Hl. unfold name_is, at_name, live_entry. rewrite (proj2 (Z.eqb_neq _ _) Hl).
  destruct (do_names _ Hok i Hi Hl) as [n ->]. simpl. f_equal. apply bool_decide_ext. split; congruence.
Qed.

Lemma at_name_true s name i : at_name s name i = true ↔ live_entry (slot_entry s i) = Some (name, inode_number (slot_entry s i)).
Proof. apply bool_decide_eq_true. Qed.

Lemma at_name_live s name i : at_name s name i = true → inode_number (slot_entry s i) ≠ 0.
Proof. by intros (? & _)%at_name_true%live_entry_Some. Qed.

(** A scan for a name finds the slot the map has it from. *)
Lemma scan_name {T} s name (g : Z → T) o :
  dir_ok s → scan_result s (λ i, if at_name s name i then Some (g i) else None) 0 (slots s) o →
  match o with
  | Some t => ∃ i, 0 ≤ i < slots s ∧ t = g i ∧ live_entry (slot_entry s i) = Some (name, inode_number (slot_entry s i)) ∧
      dir_map s !! name = Some (inode_number (slot_entry s i))
  | None => dir_map s !! name = None
  end.
Proof.
  intros Hok. destruct o as [t|].
  - intros (i & Hi & _ & Ht). destruct (at_name s name i) eqn:Ha; [|done]. injection Ht as <-.
    apply at_name_true in Ha. exists i. split_and!; [lia..|done|done|]. apply dir_map_lookup; [done|]. by exists i.
  - intros Hn. destruct (dir_map s !! name) as [x|] eqn:Hm; [|done].
    apply dir_map_lookup in Hm as (i & Hi & Hl); [|done]. exfalso.
    assert (at_name s name i = true) as Ha by (apply at_name_true; apply live_entry_Some in Hl as H; naive_solver).
    specialize (Hn i Hi (live_backed _ _ (at_name_live _ _ _ Ha))). cbv beta in Hn. by rewrite Ha in Hn.
Qed.

Lemma lookup_spec name s :
  dir_ok s → ∃ s', lookup name s = (Ok (dir_map s !! name), s') ∧ alike s s'.
Proof.
  intros Hok. unfold lookup. rewrite (bind_Ok _ _ _ _ _ (assert_directory_ok s Hok)).
  destruct (dir_find (lookup_visit name) (λ i, if at_name s name i then Some (inode_number (slot_entry s i)) else None) s Hok)
    as (o & s' & Hr & Ha & Hsc).
  - intros i Hi. unfold lookup_visit. destruct (Z.eqb_spec (inode_number (slot_entry s i)) 0) as [E|E].
    + destruct (at_name s name i) eqn:Ha; [|done]. by apply at_name_live in Ha.
    + by rewrite name_is_spec.
  - exists s'. split; [|done]. rewrite Hr. apply scan_name in Hsc; [|done]. destruct o as [t|]; [|by rewrite Hsc].
    by destruct Hsc as (i & _ & -> & _ & ->).
Qed.

Lemma is_empty_spec s :
  dir_ok s → ∃ b s', is_empty_directory s = (Ok b, s') ∧ alike s s' ∧
    (b = true ↔ ∀ n x, dir_map s !! n = Some x → n = dot ∨ n = dotdot).
Proof.
  intros Hok. unfold is_empty_directory. rewrite (bind_Ok _ _ _ _ _ (assert_directory_ok s Hok)).
  destruct (dir_find other_visit (λ i, match live_entry (slot_entry s i) with
    | Some (n, _) => if negb (bool_decide (n = dot)) && negb (bool_decide (n = dotdot)) then Some () else None
    | None => None end) s Hok) as (o & s' & Hr & Ha & Hsc).
  { intros i Hi. unfold other_visit, live_entry. destruct (Z.eqb_spec (inode_number (slot_entry s i)) 0) as [E|E]; [done|].
    by destruct (do_names _ Hok i Hi E) as [n ->]. }
  rewrite (bind_Ok _ _ _ _ _ Hr). eexists _, s'. split; [done|]. split; [done|]. destruct o as [[]|].
  - split; [done|]. intros Hall. destruct Hsc as (i & Hi & _ & Ht). destruct (live_entry _) as [[n x]|] eqn:Hl; [|done].
    destruct (Hall n x) as [-> | ->]; [apply dir_map_lookup; [done|]; by exists i|done..].
  - split; [|done]. intros _ n x (i & Hi & Hl)%dir_map_lookup; [|done].
    assert (backed s i) as Hb by (apply live_backed; apply live_entry_Some in Hl; tauto).
    specialize (Hsc i Hi Hb). cbv beta in Hsc. rewrite Hl in Hsc.
    destruct (bool_decide_reflect (n = dot)); [by left|]. destruct (bool_decide_reflect (n = dotdot)); [by right|done].
Qed.

(** A name that an entry can hold. *)
Definition storable (name : list Z) : Prop :=
  (length name ≤ MINIX_NAME_LENGTH)%nat ∧ Forall (is_uint 8) name ∧ (0 ∉ name) ∧ is_str name = true.

Lemma add_entry_spec name inum s :
  dir_ok s → storable name → is_uint 16 inum → inum ≠ 0 → dir_map s !! name = None →
  ∃ res s', add_entry name inum s = (res, s') ∧ dir_ok s' ∧
    (res = Ok () ∧ dir_map s' = <[name := inum]> (dir_map s) ∨
     (res = Err FBIG ∧ slots s = MAX_SLOTS ∨ res = Err ERROR ∧ disk_full s') ∧ dir_map s' = dir_map s).
Proof.
  intros Hok (Hlen & Hu8 & Hnul & Hstr) Hinum Hnz Hnew. unfold add_entry.
  rewrite (bind_Ok _ _ _ _ _ (assert_directory_ok s Hok)). erewrite bind_Ok by reflexivity. fold (slots s).
  destruct (dir_find free_visit (λ i, if inode_number (slot_entry s i) =? 0 then Some i else None) s Hok)
    as (o & s1 & Hr & Ha & Hsc); [done|]. rewrite (bind_Ok _ _ _ _ _ Hr).
  destruct (dir_alike s s1 Hok Ha) as [Hok1 Hmap1]. pose proof (slots_bound s (do_size _ Hok)) as Hb.
  assert (slots s1 = slots s) as Hslots by (unfold slots; by rewrite (al_disk _ _ Ha)).
  assert (∃ e, entry_new name inum = Some e) as [e He].
  { unfold entry_new. rewrite bool_decide_eq_true_2 by done. by eexists. }
  rewrite He. erewrite bind_Ok by reflexivity. destruct (entry_new_str _ _ _ He Hnul Hstr) as [Hes Hei].
  assert (0 ≤ default (slots s) o ≤ slots s ∧ (default (slots s) o = slots s ∨
    inode_number (slot_entry s1 (default (slots s) o)) = 0)) as [Hslot Hfree].
  { destruct o as [i|]; simpl; [|split; [lia|by left]]. destruct Hsc as (j & Hj & _ & Ht).
    destruct (Z.eqb_spec (inode_number (slot_entry s j)) 0) as [E|E]; [|done]. injection Ht as <-. split; [lia|right].
    unfold slot_entry. by rewrite (alike_contents s). }
  set (slot := default (slots s) o) in *. destruct (decide (slot < MAX_SLOTS)) as [Hlt|Hge].
  - destruct (write_entry_spec slot e s1) as (res & s' & -> & Hres); try apply Hok1; [lia|by eapply entry_new_ok|].
    exists res, s'. split; [done|]. destruct Hres as [[-> Hw]|(-> & Hfull & _ & Hx)].
    + destruct (dir_written s1 s' slot e Hok1 Hw) as [Hok' Hmap]; [lia|done| |].
      { intros _. exists name. by rewrite Hmap1. }
      split; [done|]. left. split; [done|]. apply map_eq. intros n. apply option_eq. intros x. rewrite Hmap, <- Hmap1.
      assert (∀ m y, dir_map s1 !! m = Some y ↔ ∃ j, 0 ≤ j < slots s1 ∧ j ≠ slot ∧ live_entry (slot_entry s1 j) = Some (m, y)) as Hold.
      { intros m y. rewrite dir_map_lookup by done. split; intros (j & Hj & H); exists j; split; try done; try tauto.
        split; [|done]. intros ->. apply live_entry_Some in H as [H _]. destruct Hfree; [lia|done]. }
      rewrite <- Hold, live_entry_Some, Hes, Hei. rewrite lookup_insert_Some, Hmap1. naive_solver congruence.
    + destruct (dir_ext s1 s' Hok1 Hx) as [Hok' Hmap']. split; [done|]. right. rewrite Hmap', Hmap1. auto.
  - exists (Err FBIG), s1. split.
    { unfold write_directory_entry, map_block_id. rewrite (proj2 (Z.leb_le _ _)); [done|].
      apply Z.div_le_lower_bound; [done|]. unfold MAX_SLOTS in Hge. lia. }
    split; [done|]. right. split; [left; split; [done|]; lia|done].
Qed.

Lemma remove_entry_spec name s :
  dir_ok s → ∃ res s', remove_entry name s = (res, s') ∧ dir_ok s' ∧
    match dir_map s !! name with
    | Some x => res = Ok x ∧ dir_map s' = delete name (dir_map s)
    | None => res = Err NOENT ∧ dir_map s' = dir_map s
    end.
Proof.
  intros Hok. unfold remove_entry. rewrite (bind_Ok _ _ _ _ _ (assert_directory_ok s Hok)).
  destruct (dir_find (remove_visit name) (λ i, if at_name s name i then Some (i, inode_number (slot_entry s i)) else None) s Hok)
    as (o & s1 & Hr & Ha & Hsc).
  { intros i Hi. unfold remove_visit. destruct (Z.eqb_spec (inode_number (slot_entry s i)) 0) as [E|E].
    - destruct (at_name s name i) eqn:Ha; [|done]. by apply at_name_live in Ha.
    - by rewrite name_is_spec. }
  rewrite (bind_Ok _ _ _ _ _ Hr). apply scan_name in Hsc; [|done]. destruct (dir_alike s s1 Hok Ha) as [Hok1 Hmap1].
  destruct o as [[slot x]|].
  2:{ rewrite Hsc. eexists _, s1. split_and!; [done..|]. done. }
  destruct Hsc as (i & Hi & [= -> ->] & Hl & Hm). rewrite Hm. pose proof (slots_bound s (do_size _ Hok)) as Hb.
  assert (slots s1 = slots s) as Hslots by (unfold slots; by rewrite (al_disk _ _ Ha)).
  assert (slot_entry s1 i = slot_entry s i) as Hsi by (unfold slot_entry; by rewrite (alike_contents s)).
  destruct (write_entry_spec i entry_empty s1) as (res & s' & Hrun & Hres); try apply Hok1; [|apply entry_empty_ok|].
  { assert (∀ y, dir_map s !! name = Some y → i < MAX_SLOTS); [|naive_solver]. lia. }
  destruct Hres as [[-> Hw]|(_ & _ & Hnb & _)].
  2:{ destruct Hnb. apply live_backed. rewrite Hsi. by apply live_entry_Some in Hl as [? _]. }
  rewrite (bind_Ok _ _ _ _ _ Hrun). eexists _, s'. split; [done|].
  destruct (dir_written s1 s' i entry_empty Hok1 Hw) as [Hok' Hmap]; [lia|lia|done|]. split; [done|]. split; [done|].
  apply map_eq. intros n. apply option_eq. intros y. rewrite Hmap, lookup_delete_Some, <- Hmap1, dir_map_lookup by done.
  rewrite <- Hsi in Hl. split.
  - intros [?|(j & Hj & Hne & Hlj)]; [done|]. split; [|by exists j]. intros <-. apply Hne.
    apply live_entry_Some in Hlj as (? & ? & ?), Hl as (? & _ & ?). apply (do_unique _ Hok1); try done; try lia. congruence.
  - intros [Hne (j & Hj & Hlj)]. right. exists j. split; [done|]. split; [|done]. intros ->. congruence.
Qed.

(** A name that is too long stops the kernel: [add_entry] has no check, and
    the entry is built by copying the name into 14 bytes. *)
Lemma long_name_spec s name inum :
  dir_ok s → (MINIX_NAME_LENGTH < length name)%nat → ∃ s', add_entry name inum s = (Panic, s').
Proof.
  intros Hok Hlen. unfold add_entry. rewrite (bind_Ok _ _ _ _ _ (assert_directory_ok s Hok)). erewrite bind_Ok by reflexivity.
  destruct (dir_find free_visit (λ i, if inode_number (slot_entry s i) =? 0 then Some i else None) s Hok)
    as (o & s1 & Hr & _); [done|]. rewrite (bind_Ok _ _ _ _ _ Hr).
  unfold entry_new. rewrite bool_decide_eq_false_2 by lia. by exists s1.
Qed.

(** ** Properties *)

(** C4: A directory is a finite map from names to inode numbers.  [lookup] is
    the map's lookup; [is_empty_directory] tells whether it has only the two dot
    names; [remove_entry] deletes a name and returns its inode, or reports that
    it is not there; [add_entry] inserts a new name that an entry can hold,
    unless the directory has its largest size or the disk is full, and then the
    map stays as it was.  Each keeps the directory well formed.  There is no
    check of a name's length: inserting one that no entry can hold panics. *)
Theorem directory_refines_map s :
  dir_ok s →
  (∀ name, ∃ s', lookup name s = (Ok (dir_map s !! name), s') ∧ dir_ok s' ∧ dir_map s' = dir_map s) ∧
  (∃ b s', is_empty_directory s = (Ok b, s') ∧ dir_ok s' ∧ dir_map s' = dir_map s ∧
     (b = true ↔ ∀ n x, dir_map s !! n = Some x → n = dot ∨ n = dotdot)) ∧
  (∀ name inum, storable name → is_uint 16 inum → inum ≠ 0 → dir_map s !! name = None →
     ∃ res s', add_entry name inum s = (res, s') ∧ dir_ok s' ∧
       (res = Ok () ∧ dir_map s' = <[name := inum]> (dir_map s) ∨
        (res = Err FBIG ∧ slots s = MAX_SLOTS ∨ res = Err ERROR ∧ disk_full s') ∧ dir_map s' = dir_map s)) ∧
  (∀ name, ∃ res s', remove_entry name s = (res, s') ∧ dir_ok s' ∧
     match dir_map s !! name with
     | Some x => res = Ok x ∧ dir_map s' = delete name (dir_map s)
     | None => res = Err NOENT ∧ dir_map s' = dir_map s
     end) ∧
  (∀ name inum, (MINIX_NAME_LENGTH < length name)%nat → ∃ s', add_entry name inum s = (Panic, s')).
Proof.
  intros Hok. split_and!.
  - intros name. destruct (lookup_spec name s Hok) as (s' & Hr & Ha). exists s'. split; [done|]. by apply dir_alike.
  - destruct (is_empty_spec s Hok) as (b & s' & Hr & Ha & Hb). destruct (dir_alike s s' Hok Ha). exists b, s'. by split_and!.
  - intros. by apply add_entry_spec.
  - intros. by apply remove_entry_spec.
  - intros. by apply long_name_spec.
Qed.

(** An empty directory on the disk of [sample_file]. *)
Definition sample_dir : St :=
  mkSt ∅ [] Bitmap.sample true (mkInner (mkDiskInode 16877 0 0 0 0 2 (replicate 7 0) 0 0) false 0 0) 1000.

Lemma sample_dir_ok : dir_ok sample_dir.
Proof.
  assert (∀ p, val sample_dir p = 0) as Hv.
  { intros p. apply null_roots. intros [i| |]; try done. apply (cleared_roots 0 zeroed (Direct i)). }
  split; try done.
  - split; try done; try (intros; by rewrite Hv in *).
    + apply Bitmap.sample_wf.
    + intros z. apply zero_block_ok.
  - intros i Hi. assert (slots sample_dir = 0) as E by reflexivity. lia.
  - intros i j Hi. assert (slots sample_dir = 0) as E by reflexivity. lia.
Qed.

Lemma directory_refines_map_witness :
  ∃ s', add_entry [97; 98] 5 sample_dir = (Ok (), s') ∧ dir_map s' !! [97; 98] = Some 5.
Proof.
  destruct (directory_refines_map sample_dir sample_dir_ok) as (_ & _ & Hadd & _).
  destruct (Hadd [97; 98] 5) as (res & s' & Hr & _ & Hres); [|unfold is_uint; lia|lia|reflexivity|].
  { split; [simpl; unfold MINIX_NAME_LENGTH; lia|]. split; [repeat constructor; unfold is_uint; lia|].
    split; [|reflexivity]. intros H. apply elem_of_cons in H as [?|H]; [lia|].
    apply elem_of_cons in H as [?|H]; [lia|]. by apply elem_of_nil in H. }
  assert (fst (add_entry [97; 98] 5 sample_dir) = Ok ()) as E by (vm_compute; reflexivity).
  rewrite Hr in E. cbn [fst] in E. exists s'. split; [congruence|].
  destruct Hres as [[_ ->]|[[[He _]|[He _]] _]]; [apply lookup_insert_eq|congruence|congruence].
Defined.
End Directory.
