(* ===== verification/Space.v ===== *)
(** * Address spaces ([kernel/src/mm/page.rs] and [kernel/src/mm/space.rs])

    Page tables are words of physical memory, reached through the one page
    directory at physical page 0.  An address space owns its page tables and its
    shares of data frames; the spaces of all tasks are one state. *)

From S2P Require Import Prelude Frame.
From stdpp Require Import gmap.
Open Scope kmonad_scope.
Open Scope Z_scope.

Module Space.
Import Frame.

Definition ENTRIES_PER_TABLE : Z := 1024.
Definition PDES_PER_PROCESS : Z := 16.
Definition TASK0_PAGE_COUNT : Z := 655360 / PAGE_SIZE.
Definition TASK_LINEAR_SIZE : Z := as_u32 (PDES_PER_PROCESS * ENTRIES_PER_TABLE * PAGE_SIZE).

(** ** Entries of page tables and of the directory *)

Definition PRESENT : Z := 1.
Definition WRITABLE : Z := 2.
Definition DIRTY : Z := 64.
Definition ALL_FLAGS : Z := 511.
Definition USER_RW : Z := 7.

Definition new_entry (ppn flags : Z) : Z := Z.lor (as_u32 (Z.shiftl ppn 12)) flags.
Definition is_present (raw : Z) : bool := negb (Z.land raw PRESENT =? 0).
Definition entry_ppn (raw : Z) : Z := Z.shiftr raw 12.
Definition phys_addr (raw : Z) : Z := Z.land raw 4294963200.
Definition flags (raw : Z) : Z := Z.land raw ALL_FLAGS.
Definition without_writable (raw : Z) : Z := Z.land raw (unot 32 WRITABLE).
Definition user_page_table (a : Z) : Z := Z.lor a USER_RW.

(** ** Spaces *)

(** The array of optional page tables is the map of those that are there. *)
Record MemorySpace : Type := mkSpace {
  page_tables : gmap Z Z;
  data_frames : gmap Z Z;
  pde_base : Z;
}.

(** The spaces that exist, each at its task's slot. *)
Record World : Type := mkWorld { phys : Phys; spaces : gmap nat MemorySpace }.

Definition on_phys {A} (m : M Phys A) : M World A := λ w,
  let '(r, p) := m (phys w) in (r, mkWorld p (spaces w)).

Definition space (n : nat) : M World MemorySpace := w <- mget;; mexpect (spaces w !! n).
Definition set_space (n : nat) (ms : MemorySpace) (w : World) : World := mkWorld (phys w) (<[n := ms]> (spaces w)).
Definition update_space (n : nat) (f : MemorySpace → MemorySpace) : M World () :=
  ms <- space n;; mmodify (set_space n (f ms)).

Definition with_table (i f : Z) (ms : MemorySpace) : MemorySpace :=
  mkSpace (<[i := f]> (page_tables ms)) (data_frames ms) (pde_base ms).
Definition with_frame (lin f : Z) (ms : MemorySpace) : MemorySpace :=
  mkSpace (page_tables ms) (<[lin := f]> (data_frames ms)) (pde_base ms).

(** Word [i] counted from the start of page [ppn]. *)
Definition word (w : World) (ppn i : Z) : Z :=
  default 0 (zlookup (page_at (phys w) (ppn + i / 1024)) (i mod 1024)).
Definition set_word (ppn i x : Z) (w : World) : World :=
  let p := ppn + i / 1024 in
  mkWorld (set_page p (zupdate (page_at (phys w) p) (i mod 1024) x) (phys w)) (spaces w).

Definition read_pde (index : Z) : M World Z := mgets (λ w, word w 0 index).
Definition write_pde (index x : Z) : M World () := mmodify (set_word 0 index x).

Definition find_pte (n : nat) (page : Z) : M World (option (Z * Z)) :=
  ms <- space n;;
  let index := pde_index page in
  if (pde_base ms <=? index) && (index <? pde_base ms + PDES_PER_PROCESS) then
    pde <- read_pde index;;
    mok (if is_present pde then Some (entry_ppn pde, pte_index page) else None)
  else mok None.

Definition pte (n : nat) (page : Z) : M World (option Z) :=
  o <- find_pte n page;;
  match o with
  | None => mok None
  | Some (t, j) => mgets (λ w, Some (word w t j))
  end.

Definition set_pte (n : nat) (page x : Z) : M World () :=
  o <- find_pte n page;;
  p <- mexpect o;;
  mmodify (set_word p.1 p.2 x).

Definition to_local (n : nat) (page : Z) : M World (option (Z * Z)) :=
  ms <- space n;;
  let i := pde_index page - pde_base ms in
  mok (if (0 <=? i) && (i <? PDES_PER_PROCESS) then Some (i, pte_index page) else None).

Definition drop_frame (o : option Z) : M World () :=
  match o with Some f => on_phys (dealloc f) | None => mok () end.

Definition alloc_or_nomem : M World Z :=
  o <- on_phys alloc;;
  mok_or o NOMEM.

Definition ensure_page_table (n : nat) (index : Z) : M World () :=
  pde <- read_pde index;;
  if is_present pde then mok ()
  else
    ms <- space n;;
    let local := index - pde_base ms in
    if (0 <=? local) && (local <? PDES_PER_PROCESS) then
      f <- alloc_or_nomem;;
      write_pde index (user_page_table (addr f));;;
      update_space n (with_table local f);;;
      drop_frame (page_tables ms !! local)
    else merr NOMEM.

(** [data_frames.insert], the old handle dropped. *)
Definition insert_frame (n : nat) (lin f : Z) : M World () :=
  ms <- space n;;
  update_space n (with_frame lin f);;;
  drop_frame (data_frames ms !! lin).

(** [frame] is owned, so every early return drops it. *)
Definition map_page (n : nat) (lin : Z) (frame : option Z) : M World () :=
  r <- mtry (ensure_page_table n (pde_index lin));;
  match r with
  | inr e => drop_frame frame;;; merr e
  | inl _ =>
      o <- pte n lin;;
      let already_present := match o with Some e => is_present e | None => false end in
      if already_present then
        match frame with
        | None => mok ()
        | Some f => drop_frame (Some f);;; merr EXIST
        end
      else
        f <- match frame with Some f => mok f | None => alloc_or_nomem end;;
        set_pte n lin (new_entry f USER_RW);;;
        insert_frame n lin f
  end.

Definition ensure_page_writable (n : nat) (lin : Z) : M World () :=
  o <- pte n lin;;
  e <- mexpect o;;
  old_ppn <- mexpect (ppn_of (phys_addr e));;
  c <- (if LOW_MEM <=? phys_addr e then on_phys (ref_count old_ppn) else mok 0);;
  if (LOW_MEM <=? phys_addr e) && (c =? 1) then
    set_pte n lin (new_entry old_ppn (Z.lor (flags e) WRITABLE))
  else
    f <- alloc_or_nomem;;
    set_pte n lin (new_entry f USER_RW);;;
    insert_frame n lin f;;;
    mmodify (λ w, mkWorld (set_page f (page_at (phys w) old_ppn) (phys w)) (spaces w)).

(** [dst.try_share_local_page_from(src, (i, j))] *)
Definition try_share_local_page_from (dst src : nat) (i j : Z) : M World bool :=
  sms <- space src;;
  dms <- space dst;;
  let source_page := from_indices (pde_base sms + i) j in
  let target_page := from_indices (pde_base dms + i) j in
  o <- pte src source_page;;
  match o with
  | None => mok false
  | Some e =>
      if negb (is_present e) || contains (flags e) DIRTY then mok false
      else if phys_addr e <? LOW_MEM then mok false
      else
        ensure_page_table dst (pde_index target_page);;;
        t <- pte dst target_page;;
        if match t with Some e => is_present e | None => false end then mok false
        else
          let cow := without_writable e in
          set_pte src source_page cow;;;
          set_pte dst target_page cow;;;
          ppn <- mexpect (ppn_of (phys_addr e));;
          f <- on_phys (share ppn);;
          insert_frame dst target_page f;;;
          mok true
  end.

(** *** Fork *)

(** Entry [j] of the parent's table [pt], copied to the child's table [ct]. *)
Definition copy_entry (parent_start child_start : Z) (child : nat) (i pt ct j : Z) : M World () :=
  e <- mgets (λ w, word w pt j);;
  if negb (is_present e) then mok ()
  else
    mmodify (set_word ct j (without_writable e));;;
    let parent_ppn := entry_ppn e in
    if LOW_MEM <=? addr parent_ppn then
      mmodify (set_word pt j (without_writable e));;;
      f <- on_phys (share parent_ppn);;
      insert_frame child (from_indices (child_start + i) j) f
    else mok ().

(** One directory entry: 4 MB of the parent. *)
Definition copy_block (parent_start child_start : Z) (child : nat) (i : Z) : M World () :=
  parent_pde <- read_pde (parent_start + i);;
  if negb (is_present parent_pde) then mok ()
  else
    child_pt <- alloc_or_nomem;;
    let pt := floor (phys_addr parent_pde) in
    let entry_count := if parent_start =? 0 then TASK0_PAGE_COUNT else ENTRIES_PER_TABLE in
    mfor (seqZ 0 entry_count) (copy_entry parent_start child_start child i pt child_pt);;;
    write_pde (child_start + i) (user_page_table (addr child_pt));;;
    update_space child (with_table i child_pt).

Definition div_ceil (a b : Z) : Z := (a + b - 1) / b.

Definition new_space (n : nat) : M World () :=
  mmodify (set_space n (mkSpace ∅ ∅ (Z.of_nat n * PDES_PER_PROCESS))).

(** [drop] and the drops of the fields after it. *)
Definition drop_space (n : nat) : M World () :=
  ms <- space n;;
  (if decide (page_tables ms = ∅) then mok ()
   else
     massert (negb (pde_base ms =? 0));;;
     mfor (seqZ 0 PDES_PER_PROCESS) (λ i,
       match page_tables ms !! i with Some _ => write_pde (pde_base ms + i) 0 | None => mok () end));;;
  mmodify (λ w, mkWorld (phys w) (delete n (spaces w)));;;
  mfor (map_to_list (page_tables ms)).*2 (λ f, drop_frame (Some f));;;
  mfor (map_to_list (data_frames ms)).*2 (λ f, drop_frame (Some f)).

(** The child is dropped when a page table cannot be had. *)
Definition cow_copy (parent child : nat) (data_limit : Z) : M World () :=
  ms <- space parent;;
  let child_start := Z.of_nat child * PDES_PER_PROCESS in
  let pde_count := Z.min (div_ceil data_limit (ENTRIES_PER_TABLE * PAGE_SIZE)) PDES_PER_PROCESS in
  new_space child;;;
  r <- mtry (mfor (seqZ 0 pde_count) (copy_block (pde_base ms) child_start child));;
  match r with
  | inl _ => mok ()
  | inr e => drop_space child;;; merr e
  end.

End Space.
