(* ===== verification/Isolation.v ===== *)
(** * Copy on write: who owns which frame

    The invariant that ties the counts of the frame allocator to the handles of
    all address spaces, the page tables to the handles, and write permission to
    sole ownership; that every operation of [Space] keeps it; and what it means
    for the memory that tasks see. *)

From S2P Require Import Prelude Frame Space.
From stdpp Require Import gmap.
Open Scope kmonad_scope.
Open Scope Z_scope.

Module Isolation.
Import Frame Space.

(** ** Entries *)

Definition writable (raw : Z) : bool := negb (Z.land raw WRITABLE =? 0).

Lemma land_bit x k : 0 ≤ k → negb (Z.land x (2 ^ k) =? 0) = Z.testbit x k.
Proof.
  intros Hk. destruct (Z.testbit x k) eqn:Hb.
  - apply negb_true_iff, Z.eqb_neq. intros E. apply (f_equal (λ y, Z.testbit y k)) in E.
    by rewrite Z.land_spec, Hb, Z.pow2_bits_true, Z.bits_0 in E by done.
  - apply negb_false_iff, Z.eqb_eq. apply Z.bits_inj_0. intros n. rewrite Z.land_spec, Z.pow2_bits_eqb by done.
    destruct (Z.eqb_spec k n) as [<-|]; [by rewrite Hb|apply andb_false_r].
Qed.

Lemma present_bit raw : is_present raw = Z.testbit raw 0.
Proof. by apply (land_bit raw 0). Qed.

Lemma writable_bit raw : writable raw = Z.testbit raw 1.
Proof. by apply (land_bit raw 1). Qed.

Lemma entry_ppn_uint raw : is_uint 32 raw → is_uint 20 (entry_ppn raw).
Proof.
  unfold is_uint, entry_ppn. intros H. rewrite Z.shiftr_div_pow2 by done. split; [apply Z.div_pos; lia|].
  apply Z.div_lt_upper_bound; lia.
Qed.

Lemma phys_addr_ppn raw : is_uint 32 raw → phys_addr raw = addr (entry_ppn raw).
Proof.
  intros Hu. pose proof (entry_ppn_uint raw Hu) as Hp. unfold addr, PAGE_SHIFT. rewrite wrap_small.
  - unfold phys_addr, entry_ppn. change 4294963200 with (Z.shiftl (Z.ones 20) 12).
    apply Z.bits_inj_iff'. intros n Hn. rewrite Z.land_spec. rewrite !Z.shiftl_spec by done.
    destruct (decide (n < 12)).
    + rewrite (Z.testbit_neg_r (Z.ones 20)), (Z.testbit_neg_r (Z.shiftr raw 12)) by lia. apply andb_false_r.
    + rewrite Z.shiftr_spec by lia. replace (n - 12 + 12) with n by lia. destruct (decide (n < 32)).
      * by rewrite Z.ones_spec_low, andb_true_r by lia.
      * by rewrite (testbit_high 32 raw) by (done || lia).
  - unfold is_uint in *. rewrite Z.shiftl_mul_pow2 by done. lia.
Qed.

Lemma ppn_of_phys raw : is_uint 32 raw → ppn_of (phys_addr raw) = Some (entry_ppn raw).
Proof. intros Hu. rewrite phys_addr_ppn by done. by apply ppn_of_addr, entry_ppn_uint. Qed.

Lemma addr_mul ppn : is_uint 20 ppn → addr ppn = ppn * 4096.
Proof.
  unfold is_uint. intros H. unfold addr, PAGE_SHIFT. rewrite Z.shiftl_mul_pow2 by done. apply wrap_small.
  unfold is_uint. lia.
Qed.

Lemma low_mem_addr ppn : is_uint 20 ppn → (LOW_MEM <=? addr ppn) = (512 <=? ppn).
Proof.
  intros H. rewrite addr_mul by done. unfold LOW_MEM. destruct (Z.leb_spec 512 ppn); [apply Z.leb_le|apply Z.leb_gt]; lia.
Qed.

Lemma new_entry_eq f x : is_uint 20 f → is_uint 12 x →
  is_uint 32 (new_entry f x) ∧ entry_ppn (new_entry f x) = f ∧
  (∀ n, n < 12 → Z.testbit (new_entry f x) n = Z.testbit x n).
Proof.
  intros Hf Hx. unfold new_entry. rewrite wrap_small.
  2:{ unfold is_uint in *. rewrite Z.shiftl_mul_pow2 by done. lia. }
  split_and!.
  - apply lor_uint; [done| |]; unfold is_uint in *; [|lia]. rewrite Z.shiftl_mul_pow2 by done. lia.
  - unfold entry_ppn. rewrite Z.shiftr_lor, Z.shiftr_shiftl_l, Z.sub_diag, Z.shiftl_0_r by done.
    rewrite (Z.shiftr_div_pow2 x), Z.div_small by (done || unfold is_uint in Hx; lia). apply Z.lor_0_r.
  - intros n Hn. rewrite Z.lor_spec. destruct (decide (n < 0)); [by rewrite !Z.testbit_neg_r|].
    by rewrite Z.shiftl_spec_low by done.
Qed.

Lemma user_entry f : is_uint 20 f → user_page_table (addr f) = new_entry f 7.
Proof. done. Qed.

Lemma without_writable_eq e : is_uint 32 e →
  is_uint 32 (without_writable e) ∧ entry_ppn (without_writable e) = entry_ppn e ∧
  is_present (without_writable e) = is_present e ∧ writable (without_writable e) = false.
Proof.
  intros He. assert (∀ n, Z.testbit (without_writable e) n = Z.testbit e n && negb (n =? 1)) as Hb.
  { intros n. unfold without_writable. rewrite Z.land_spec. destruct (decide (0 ≤ n < 32)) as [Hn|Hn].
    - rewrite testbit_unot by done. f_equal. f_equal. change WRITABLE with (2 ^ 1). rewrite Z.pow2_bits_eqb by done.
      apply Z.eqb_sym.
    - destruct (decide (n < 0)); [by rewrite !Z.testbit_neg_r|]. by rewrite (testbit_high 32 e) by (done || lia). }
  split_and!.
  - by apply land_uint.
  - unfold entry_ppn. apply Z.bits_inj_iff'. intros n Hn. rewrite !Z.shiftr_spec, Hb by done.
    rewrite (proj2 (Z.eqb_neq _ _)) by lia. apply andb_true_r.
  - by rewrite !present_bit, Hb, andb_true_r.
  - by rewrite writable_bit, Hb, andb_false_r.
Qed.

(** Linear pages of slot [n]. *)
Definition lin_page (n : nat) (i j : Z) : Z := (Z.of_nat n * 16 + i) * 1024 + j.

Lemma from_indices_eq p j : 0 ≤ p < 1024 → 0 ≤ j < 1024 →
  from_indices p j = p * 1024 + j ∧ pde_index (from_indices p j) = p ∧ pte_index (from_indices p j) = j.
Proof.
  intros Hp Hj. assert (from_indices p j = p * 1024 + j) as E.
  { unfold from_indices. rewrite wrap_small by (unfold is_uint; rewrite Z.shiftl_mul_pow2 by done; lia).
    rewrite <- Z.lxor_lor.
    - rewrite <- Z.add_nocarry_lxor; [by rewrite Z.shiftl_mul_pow2|].
      apply Z.bits_inj_0. intros k. rewrite Z.land_spec. destruct (decide (k < 10)).
      + destruct (decide (k < 0)); [by rewrite !Z.testbit_neg_r|]. by rewrite Z.shiftl_spec_low.
      + rewrite (testbit_high 10 j) by (unfold is_uint; lia). apply andb_false_r.
    - apply Z.bits_inj_0. intros k. rewrite Z.land_spec. destruct (decide (k < 10)).
      + destruct (decide (k < 0)); [by rewrite !Z.testbit_neg_r|]. by rewrite Z.shiftl_spec_low.
      + rewrite (testbit_high 10 j) by (unfold is_uint; lia). apply andb_false_r. }
  split; [done|]. rewrite E. unfold pde_index, pte_index. split.
  - rewrite Z.shiftr_div_pow2 by done. change (2 ^ 10) with 1024. rewrite Z.add_comm, Z.div_add, Z.div_small by lia. lia.
  - change 1023 with (2 ^ 10 - 1). rewrite land_mask by done. change (2 ^ 10) with 1024.
    rewrite Z.add_comm, Z.mod_add by done. by apply Z.mod_small.
Qed.

(** A page's place in its task's 64 MB. *)
Definition offset (n : nat) (lin : Z) : Z := lin - 16384 * Z.of_nat n.

(** ** Counting values of a map *)

Section vocc.
Context {K : Type} `{Countable K}.
Implicit Types m : gmap K Z.

Definition vocc m (f : Z) : Z := Z.of_nat (size (filter (λ kv, kv.2 = f) m)).

Lemma vocc_empty f : vocc ∅ f = 0.
Proof. unfold vocc. by rewrite map_filter_empty, map_size_empty. Qed.

Lemma vocc_insert m k v f : m !! k = None → vocc (<[k := v]> m) f = vocc m f + (if decide (v = f) then 1 else 0).
Proof.
  intros Hk. unfold vocc. case_decide as Hv.
  - rewrite map_filter_insert_True by done. rewrite map_size_insert_None; [lia|].
    apply map_lookup_filter_None. left. done.
  - rewrite map_filter_insert_False by done. rewrite delete_id by done. lia.
Qed.

Lemma vocc_delete m k v f : m !! k = Some v → vocc (delete k m) f = vocc m f - (if decide (v = f) then 1 else 0).
Proof.
  intros Hk. rewrite <- (insert_delete_id m k v Hk) at 2. rewrite vocc_insert by apply lookup_delete_eq. lia.
Qed.

Lemma vocc_replace m k v x f : m !! k = Some v →
  vocc (<[k := x]> m) f = vocc m f - (if decide (v = f) then 1 else 0) + (if decide (x = f) then 1 else 0).
Proof.
  intros Hk. rewrite <- insert_delete_eq. rewrite vocc_insert by apply lookup_delete_eq. rewrite (vocc_delete m k v) by done. lia.
Qed.

Lemma vocc_nonneg m f : 0 ≤ vocc m f.
Proof. unfold vocc. lia. Qed.

Lemma vocc_zero m f : (∀ k, m !! k ≠ Some f) → vocc m f = 0.
Proof.
  intros Hn. unfold vocc. assert (filter (λ kv, kv.2 = f) m = ∅) as ->; [|by rewrite map_size_empty].
  apply map_empty. intros k. apply map_lookup_filter_None. right. intros x Hx Hf. simpl in Hf. subst x. by apply (Hn k).
Qed.

Lemma vocc_pos m k f : m !! k = Some f → 0 < vocc m f.
Proof.
  intros Hk. rewrite <- (insert_delete_id m k f Hk). rewrite vocc_insert by apply lookup_delete_eq.
  rewrite decide_True by done. pose proof (vocc_nonneg (delete k m) f). lia.
Qed.

Lemma vocc_two m k k' f : m !! k = Some f → m !! k' = Some f → k ≠ k' → 1 < vocc m f.
Proof.
  intros Hk Hk' Hne. rewrite <- (insert_delete_id m k f Hk). rewrite vocc_insert by apply lookup_delete_eq.
  rewrite decide_True by done. pose proof (vocc_pos (delete k m) k' f). rewrite lookup_delete_ne in H0 by done. specialize (H0 Hk'). lia.
Qed.
End vocc.

Definition occ (l : list Z) (f : Z) : Z := Z.of_nat (length (filter (λ x, x = f) l)).

Lemma occ_cons x l f : occ (x :: l) f = (if decide (x = f) then 1 else 0) + occ l f.
Proof. unfold occ. rewrite filter_cons. case_decide; simpl; lia. Qed.

Lemma occ_nonneg l f : 0 ≤ occ l f.
Proof. unfold occ. lia. Qed.

Lemma occ_pos l f : f ∈ l → 0 < occ l f.
Proof.
  induction l as [|x l IH]; [by intros ?%elem_of_nil|]. rewrite occ_cons. pose proof (occ_nonneg l f).
  intros [->|Hf]%elem_of_cons; [rewrite decide_True by done; lia|]. specialize (IH Hf). case_decide; lia.
Qed.

Lemma occ_zero l f : f ∉ l → occ l f = 0.
Proof.
  induction l as [|x l IH]; [done|]. rewrite not_elem_of_cons, occ_cons. intros [Hx Hl].
  rewrite decide_False by done. by rewrite IH.
Qed.

(** ** Handles of all spaces *)

Definition tabs (w : World) : gmap (nat * Z) Z := map_uncurry (M1 := gmap nat) (M2 := gmap Z) (page_tables <$> spaces w).
Definition dats (w : World) : gmap (nat * Z) Z := map_uncurry (M1 := gmap nat) (M2 := gmap Z) (data_frames <$> spaces w).

Lemma tabs_lookup w n i : tabs w !! (n, i) = (ms ← spaces w !! n; page_tables ms !! i).
Proof. unfold tabs. rewrite lookup_map_uncurry, lookup_fmap. by destruct (spaces w !! n). Qed.

Lemma dats_lookup w n lin : dats w !! (n, lin) = (ms ← spaces w !! n; data_frames ms !! lin).
Proof. unfold dats. rewrite lookup_map_uncurry, lookup_fmap. by destruct (spaces w !! n). Qed.

Lemma tabs_with_table w n i f ms : spaces w !! n = Some ms →
  tabs (set_space n (with_table i f ms) w) = <[(n, i) := f]> (tabs w) ∧
  dats (set_space n (with_table i f ms) w) = dats w.
Proof.
  intros Hn. split; apply map_eq; intros [m k].
  - rewrite tabs_lookup. simpl. destruct (decide (m = n)) as [->|Hm].
    + rewrite lookup_insert_eq. simpl. destruct (decide (k = i)) as [->|Hk].
      * by rewrite !lookup_insert_eq.
      * by rewrite !lookup_insert_ne, tabs_lookup, Hn by congruence.
    + by rewrite !lookup_insert_ne, tabs_lookup by congruence.
  - rewrite !dats_lookup. simpl. destruct (decide (m = n)) as [->|Hm].
    + by rewrite lookup_insert_eq, Hn.
    + by rewrite lookup_insert_ne by congruence.
Qed.

Lemma dats_with_frame w n lin f ms : spaces w !! n = Some ms →
  dats (set_space n (with_frame lin f ms) w) = <[(n, lin) := f]> (dats w) ∧
  tabs (set_space n (with_frame lin f ms) w) = tabs w.
Proof.
  intros Hn. split; apply map_eq; intros [m k].
  - rewrite dats_lookup. simpl. destruct (decide (m = n)) as [->|Hm].
    + rewrite lookup_insert_eq. simpl. destruct (decide (k = lin)) as [->|Hk].
      * by rewrite !lookup_insert_eq.
      * by rewrite !lookup_insert_ne, dats_lookup, Hn by congruence.
    + by rewrite !lookup_insert_ne, dats_lookup by congruence.
  - rewrite !tabs_lookup. simpl. destruct (decide (m = n)) as [->|Hm].
    + by rewrite lookup_insert_eq, Hn.
    + by rewrite lookup_insert_ne by congruence.
Qed.

(** ** Words *)

Lemma word_eq w p j : 0 ≤ j < 1024 → word w p j = default 0 (zlookup (page_at (phys w) p) j).
Proof. intros Hj. unfold word. by rewrite Z.div_small, Z.mod_small, Z.add_0_r by done. Qed.

Lemma set_word_eq w p j x : 0 ≤ j < 1024 →
  set_word p j x w = mkWorld (set_page p (zupdate (page_at (phys w) p) j x) (phys w)) (spaces w).
Proof. intros Hj. unfold set_word. by rewrite Z.div_small, Z.mod_small, Z.add_0_r by done. Qed.

Lemma set_word_phys w p j x : phys_ok (phys w) → 0 ≤ j < 1024 → phys_ok (phys (set_word p j x w)).
Proof.
  intros Hok Hj. rewrite set_word_eq by done. apply set_page_ok; [done|]. rewrite length_zupdate. apply (po_pages _ Hok).
Qed.

Lemma word_after_set w p j x q k : phys_ok (phys w) → 0 ≤ j < 1024 → 0 ≤ k < 1024 →
  word (set_word p j x w) q k = if decide (q = p ∧ k = j) then x else word w q k.
Proof.
  intros Hok Hj Hk. rewrite set_word_eq by done. rewrite !word_eq by done. cbn [phys]. rewrite page_at_set.
  destruct (decide (q = p)) as [->|Hq].
  - rewrite zlookup_zupdate by (rewrite (po_pages _ Hok); lia).
    destruct (decide (j = k)) as [->|Hjk]; [by rewrite decide_True|by rewrite decide_False by (intros []; congruence)].
  - by rewrite decide_False by (intros []; congruence).
Qed.

Lemma page_set_word w p j x q : 0 ≤ j < 1024 → q ≠ p → page_at (phys (set_word p j x w)) q = page_at (phys w) q.
Proof. intros Hj Hq. rewrite set_word_eq by done. cbn [phys]. by rewrite page_at_set, decide_False. Qed.

(** ** The invariant *)

Section inv.
#[local] Set Default Proof Using "Type".
(** The frames [init] has made available. *)
Context (lo hi : Z).

Definition pool (f : Z) : Prop := 512 ≤ lo ∧ hi ≤ 4096 ∧ lo ≤ f < hi.

(** [T] has the page tables, the finished ones and the ones under construction;
    [held] the frames that others own. *)
Record inv (T : gmap (nat * Z) Z) (w : World) (held : list Z) : Prop := {
  i_phys : phys_ok (phys w);
  i_reserved : ∀ f, tracked f → ¬ pool f → count (phys w) f ≠ 0;
  i_count : ∀ f, pool f → count (phys w) f = occ held f + vocc T f + vocc (dats w) f;
  i_held : ∀ f, f ∈ held → pool f;
  i_tab : ∀ n i f, T !! (n, i) = Some f →
    pool f ∧ count (phys w) f = 1 ∧ (0 < n < 64)%nat ∧ 0 ≤ i < 16;
  i_words : ∀ n i t j, T !! (n, i) = Some t → 0 ≤ j < 1024 → is_uint 32 (word w t j);
  i_dat : ∀ n lin f, dats w !! (n, lin) = Some f →
    pool f ∧ ∃ i j t, lin = lin_page n i j ∧ 0 ≤ j < 1024 ∧ T !! (n, i) = Some t ∧
      is_present (word w t j) = true ∧ entry_ppn (word w t j) = f;
  i_pte : ∀ n i t j, T !! (n, i) = Some t → 0 ≤ j < 1024 → is_present (word w t j) = true →
    match dats w !! (n, lin_page n i j) with
    | Some f => entry_ppn (word w t j) = f ∧ (writable (word w t j) = true → count (phys w) f = 1)
    | None => entry_ppn (word w t j) < 512 ∧ writable (word w t j) = false
    end;
  (** Those who share a frame have it at the same place. *)
  i_once : ∀ n m lin lin' f, dats w !! (n, lin) = Some f → dats w !! (m, lin') = Some f → offset n lin = offset m lin';
}.

Lemma pool_tracked f : pool f → tracked f.
Proof. unfold pool, tracked. lia. Qed.

Lemma lin_page_inj n i j i' j' : 0 ≤ j < 1024 → 0 ≤ j' < 1024 → lin_page n i j = lin_page n i' j' → i = i' ∧ j = j'.
Proof. unfold lin_page. lia. Qed.

(** A page table has no other owner. *)
Lemma tab_sole T w held n i f : inv T w held → T !! (n, i) = Some f →
  (f ∉ held) ∧ (∀ k, T !! k = Some f → k = (n, i)) ∧ (∀ k, dats w !! k ≠ Some f).
Proof.
  intros Hi Hf. destruct (i_tab _ _ _ Hi _ _ _ Hf) as (Hp & Hc & _). rewrite (i_count _ _ _ Hi f Hp) in Hc.
  pose proof (vocc_pos T _ _ Hf). pose proof (occ_nonneg held f). pose proof (vocc_nonneg (dats w) f). split_and!.
  - intros Hin. pose proof (occ_pos held f Hin). lia.
  - intros k Hk. destruct (decide (k = (n, i))) as [|Hne]; [done|]. pose proof (vocc_two T _ _ _ Hf Hk). naive_solver lia.
  - intros k Hk. pose proof (vocc_pos _ _ _ Hk). lia.
Qed.

(** A frame that nobody counts. *)
Lemma free_unowned T w held f : inv T w held → pool f → count (phys w) f = 0 →
  (f ∉ held) ∧ (∀ k, T !! k ≠ Some f) ∧ (∀ k, dats w !! k ≠ Some f).
Proof.
  intros Hi Hp Hc. rewrite (i_count _ _ _ Hi f Hp) in Hc.
  pose proof (vocc_nonneg T f). pose proof (occ_nonneg held f). pose proof (vocc_nonneg (dats w) f). split_and!.
  - intros Hin. pose proof (occ_pos held f Hin). lia.
  - intros k Hk. pose proof (vocc_pos _ _ _ Hk). lia.
  - intros k Hk. pose proof (vocc_pos _ _ _ Hk). lia.
Qed.

(** A held frame with count 1 has no other owner. *)
Lemma held_sole T w held f : inv T w (f :: held) → count (phys w) f = 1 →
  (f ∉ held) ∧ (∀ k, T !! k ≠ Some f) ∧ (∀ k, dats w !! k ≠ Some f).
Proof.
  intros Hi Hc. assert (pool f) as Hp by (apply (i_held _ _ _ Hi); by left).
  rewrite (i_count _ _ _ Hi f Hp), occ_cons, decide_True in Hc by done.
  pose proof (vocc_nonneg T f). pose proof (occ_nonneg held f). pose proof (vocc_nonneg (dats w) f). split_and!.
  - intros Hin. pose proof (occ_pos held f Hin). lia.
  - intros k Hk. pose proof (vocc_pos _ _ _ Hk). lia.
  - intros k Hk. pose proof (vocc_pos _ _ _ Hk). lia.
Qed.

(** ** Effects that keep it *)

(** A frame allocated. *)
Lemma alloc_inv T w held f p' :
  inv T w held → pool f → count (phys w) f = 0 → took (phys w) p' [f] → inv T (mkWorld p' (spaces w)) (f :: held).
Proof.
  intros Hi Hp Hc [Hok Hcount Hpage]. destruct (free_unowned _ _ _ _ Hi Hp Hc) as (Hh & Ht & Hd).
  assert (∀ q, q ≠ f → count p' q = count (phys w) q) as Hne.
  { intros q Hq. by rewrite Hcount, decide_False by (by rewrite list_elem_of_singleton). }
  assert (∀ q j, q ≠ f → 0 ≤ j < 1024 → word (mkWorld p' (spaces w)) q j = word w q j) as Hw.
  { intros q j Hq Hj. rewrite !word_eq by done. simpl. by rewrite Hpage, decide_False by (by rewrite list_elem_of_singleton). }
  assert (∀ k t, T !! k = Some t → t ≠ f) as Htf by (intros k t E ->; by apply (Ht k)).
  assert (∀ k t, dats w !! k = Some t → t ≠ f) as Hdf by (intros k t E ->; by apply (Hd k)).
  split; cbn [phys]; change (dats (mkWorld p' (spaces w))) with (dats w).
  - done.
  - intros q Hq Hnp. rewrite Hne by (intros ->; done). by apply (i_reserved _ _ _ Hi).
  - intros q Hq. rewrite occ_cons. destruct (decide (f = q)) as [<-|Hfq].
    + rewrite Hcount, decide_True by (by apply list_elem_of_singleton).
      rewrite occ_zero, !vocc_zero by done. lia.
    + rewrite Hne by congruence. rewrite (i_count _ _ _ Hi q Hq). lia.
  - intros q [->|Hq]%elem_of_cons; [done|]. by apply (i_held _ _ _ Hi).
  - intros n i q Hq. rewrite Hne by (by eapply Htf). by apply (i_tab _ _ _ Hi).
  - intros n i t j Hq Hj. rewrite Hw by (done || by eapply Htf). by apply (i_words _ _ _ Hi n i).
  - intros n lin q Hq. destruct (i_dat _ _ _ Hi _ _ _ Hq) as (Hpq & i & j & t & ? & Hj & HT & ?).
    split; [done|]. exists i, j, t. rewrite Hw by (done || by eapply Htf). done.
  - intros n i t j Hq Hj. rewrite Hw by (done || by eapply Htf). intros He. pose proof (i_pte _ _ _ Hi _ _ _ _ Hq Hj He) as Hm.
    destruct (dats w !! _) as [g|] eqn:E; [|done]. rewrite Hne by (by eapply Hdf). done.
  - apply (i_once _ _ _ Hi).
Qed.

(** A held frame given back. *)
Lemma dealloc_inv T w held f :
  inv T w (f :: held) →
  inv T (mkWorld (set_count (f - 512) (count (phys w) f - 1) (phys w)) (spaces w)) held ∧
  on_phys (dealloc f) w = (Ok (), mkWorld (set_count (f - 512) (count (phys w) f - 1) (phys w)) (spaces w)).
Proof.
  intros Hi. assert (pool f) as Hp by (apply (i_held _ _ _ Hi); by left). pose proof (pool_tracked f Hp) as Ht.
  pose proof (i_count _ _ _ Hi f Hp) as Hc. rewrite occ_cons, decide_True in Hc by done.
  pose proof (vocc_nonneg T f). pose proof (occ_nonneg held f). pose proof (vocc_nonneg (dats w) f).
  destruct (frame_dealloc_spec (phys w) f (i_phys _ _ _ Hi) Ht) as [Hrun Hok]; [lia|].
  split; [|by unfold on_phys; rewrite Hrun]. set (p' := set_count _ _ _) in *.
  assert (∀ q, count p' q = if decide (q = f) then count (phys w) f - 1 else count (phys w) q) as Hcount.
  { intros q. apply count_set_count; [apply Hi|done]. }
  split; cbn [phys]; change (dats (mkWorld p' (spaces w))) with (dats w);
    change (word (mkWorld p' (spaces w))) with (word w).
  - done.
  - intros q Hq Hnp. rewrite Hcount. case_decide; [by subst|]. by apply (i_reserved _ _ _ Hi).
  - intros q Hq. rewrite Hcount. pose proof (i_count _ _ _ Hi q Hq) as E. rewrite occ_cons in E.
    repeat case_decide; subst; try done; lia.
  - intros q Hq. apply (i_held _ _ _ Hi). by right.
  - intros n i q Hq. destruct (tab_sole _ _ _ _ _ _ Hi Hq) as (Hn & _ & _). apply not_elem_of_cons in Hn as [Hne _].
    rewrite Hcount, decide_False by done. by apply (i_tab _ _ _ Hi).
  - apply (i_words _ _ _ Hi).
  - apply (i_dat _ _ _ Hi).
  - intros n i t j Hq Hj He. pose proof (i_pte _ _ _ Hi _ _ _ _ Hq Hj He) as Hm.
    destruct (dats w !! _) as [g|] eqn:E; [|done]. destruct Hm as [? Hm]. split; [done|]. intros Hwr. rewrite Hcount.
    case_decide as Hg; [|by apply Hm]. specialize (Hm Hwr). pose proof (vocc_pos _ _ _ E) as Hv. rewrite Hg in Hm, Hv. lia.
  - apply (i_once _ _ _ Hi).
Qed.
(** One entry of a page table written, its handle changed to [o]. *)
Lemma entry_inv T w w' held held' n i t j x (o : option Z) :
  inv T w held → T !! (n, i) = Some t → 0 ≤ j < 1024 → is_uint 32 x → phys_ok (phys w') →
  (∀ k u j', T !! k = Some u → 0 ≤ j' < 1024 → word w' u j' = if decide (u = t ∧ j' = j) then x else word w u j') →
  dats w' = partial_alter (λ _, o) (n, lin_page n i j) (dats w) →
  (∀ f, f ∈ held' → pool f) →
  (∀ q, tracked q → ¬ pool q → count (phys w') q ≠ 0) →
  (∀ q, pool q → count (phys w') q = occ held' q + vocc T q + vocc (dats w') q) →
  (∀ k u, T !! k = Some u → count (phys w') u = 1) →
  (∀ n' i' u j' q, T !! (n', i') = Some u → 0 ≤ j' < 1024 → (n', i', j') ≠ (n, i, j) →
     dats w !! (n', lin_page n' i' j') = Some q → writable (word w u j') = true → count (phys w) q = 1 → count (phys w') q = 1) →
  match o with
  | Some f => pool f ∧ is_present x = true ∧ entry_ppn x = f ∧ (writable x = true → count (phys w') f = 1) ∧
      ∀ m lin, dats w !! (m, lin) = Some f → offset m lin = offset n (lin_page n i j)
  | None => is_present x = true → entry_ppn x < 512 ∧ writable x = false
  end →
  inv T w' held'.
Proof.
  intros Hi Ht Hj Hx Hok Hw Hd Hheld Hres Hcount Htab Hsole Ho.
  assert (∀ k, k ≠ (n, lin_page n i j) → dats w' !! k = dats w !! k) as Hdne.
  { intros k Hk. by rewrite Hd, lookup_partial_alter_ne. }
  assert (dats w' !! (n, lin_page n i j) = o) as Hdeq by (by rewrite Hd, lookup_partial_alter_eq).
  assert (∀ n' i' u j', T !! (n', i') = Some u → 0 ≤ j' < 1024 →
    ((n', i', j') = (n, i, j) ∧ u = t) ∨
    ((n', lin_page n' i' j') ≠ (n, lin_page n i j) ∧ (n', i', j') ≠ (n, i, j) ∧ word w' u j' = word w u j')) as Hcase.
  { intros n' i' u j' HT Hj'. destruct (decide ((n', i', j') = (n, i, j))) as [E|Hne].
    - left. split; [done|]. congruence.
    - right. split_and!; [|done|].
      + intros [= -> E]. apply Hne. destruct (lin_page_inj n i' j' i j) as [-> ->]; done.
      + rewrite (Hw _ _ _ HT Hj'), decide_False; [done|]. intros [-> ->].
        destruct (tab_sole _ _ _ _ _ _ Hi Ht) as (_ & Huniq & _). apply Huniq in HT. congruence. }
  split; try done.
  - intros n' i' u HT. destruct (i_tab _ _ _ Hi _ _ _ HT) as (? & _ & ? & ?). split_and!; try lia; [done|by eapply Htab].
  - intros n' i' u j' HT Hj'. rewrite (Hw _ _ _ HT Hj'). case_decide; [done|by apply (i_words _ _ _ Hi n' i')].
  - intros n' lin f. destruct (decide ((n', lin) = (n, lin_page n i j))) as [[= -> ->]|Hne].
    + rewrite Hdeq. intros ->. destruct Ho as (? & Hpx & Hppn & _). split; [done|]. exists i, j, t.
      destruct (Hcase n i t j Ht Hj) as [_|(? & _)]; [|done]. rewrite (Hw _ _ _ Ht Hj), decide_True by done. done.
    + rewrite Hdne by done. intros Hf. destruct (i_dat _ _ _ Hi _ _ _ Hf) as (? & i' & j' & u & -> & Hj' & HT & Hp & Hppn).
      split; [done|]. exists i', j', u. destruct (Hcase n' i' u j' HT Hj') as [[[= -> -> ->] ->]|(_ & _ & ->)]; [done|]. done.
  - intros n' i' u j' HT Hj'. destruct (Hcase n' i' u j' HT Hj') as [[[= -> -> ->] ->]|(Hne & Hne3 & Hwe)].
    + rewrite (Hw _ _ _ Ht Hj), decide_True, Hdeq by done. intros Hp. destruct o as [f|]; [|by apply Ho].
      destruct Ho as (_ & _ & ? & ? & _). done.
    + rewrite Hwe, Hdne by done. intros Hp. pose proof (i_pte _ _ _ Hi _ _ _ _ HT Hj' Hp) as Hm.
      destruct (dats w !! (n', lin_page n' i' j')) as [q|] eqn:E; [|done]. destruct Hm as [? Hm]. split; [done|].
      intros Hwr. eapply (Hsole n' i' u j' q); try done. by apply Hm.
  - intros n1 n2 lin lin' f Hf Hf'.
    destruct (decide ((n1, lin) = (n, lin_page n i j))) as [E|Hl], (decide ((n2, lin') = (n, lin_page n i j))) as [E'|Hl'].
    + by injection E as -> ->; injection E' as -> ->.
    + injection E as -> ->. rewrite Hdeq in Hf. rewrite Hdne in Hf' by done. rewrite Hf in Ho.
      destruct Ho as (_ & _ & _ & _ & Hu). symmetry. by apply Hu.
    + injection E' as -> ->. rewrite Hdeq in Hf'. rewrite Hdne in Hf by done. rewrite Hf' in Ho.
      destruct Ho as (_ & _ & _ & _ & Hu). by apply Hu.
    + rewrite Hdne in Hf, Hf' by done. by eapply (i_once _ _ _ Hi).
Qed.

(** A finished page table, or one to be filled: a held zero page becomes one. *)
Lemma install_inv T w held n i f :
  inv T w (f :: held) → count (phys w) f = 1 → T !! (n, i) = None → (0 < n < 64)%nat → 0 ≤ i < 16 →
  (∀ j, 0 ≤ j < 1024 → word w f j = 0) →
  inv (<[(n, i) := f]> T) w held.
Proof.
  intros Hi Hc Hn Hr Hir Hz. destruct (held_sole _ _ _ _ Hi Hc) as (Hh & Ht & Hd).
  assert (pool f) as Hp by (apply (i_held _ _ _ Hi); by left).
  assert (∀ n' i' t, <[(n, i) := f]> T !! (n', i') = Some t → ((n', i') = (n, i) ∧ t = f) ∨ T !! (n', i') = Some t) as Hcase.
  { intros n' i' t. rewrite lookup_insert_Some. intros [[[= <- <-] <-]|[_ ?]]; [left|right]; done. }
  split; try apply Hi.
  - intros q Hq. rewrite (i_count _ _ _ Hi q Hq), occ_cons, vocc_insert by done. lia.
  - intros q Hq. apply (i_held _ _ _ Hi). by right.
  - intros n' i' t [[[= -> ->] ->]|HT]%Hcase; [done|by apply (i_tab _ _ _ Hi)].
  - intros n' i' t j [[[= -> ->] ->]|HT]%Hcase Hj; [rewrite Hz by done; unfold is_uint; lia|by apply (i_words _ _ _ Hi n' i')].
  - intros n' lin q Hq. destruct (i_dat _ _ _ Hi _ _ _ Hq) as (? & i' & j & t & ? & ? & HT & ?). split; [done|].
    exists i', j, t. split; [done|]. split; [done|]. split; [|done]. rewrite lookup_insert_ne; [done|]. intros [= -> ->]. congruence.
  - intros n' i' t j [[[= -> ->] ->]|HT]%Hcase Hj; [|by apply (i_pte _ _ _ Hi)].
    rewrite present_bit, Hz by done. by rewrite Z.bits_0.
Qed.

(** Words of tables and spaces and counts as before: user data may change. *)
Lemma data_inv T w w' held :
  inv T w held → phys_ok (phys w') → dats w' = dats w → (∀ q, count (phys w') q = count (phys w) q) →
  (∀ k t j, T !! k = Some t → 0 ≤ j < 1024 → word w' t j = word w t j) → inv T w' held.
Proof.
  intros Hi Hok Hd Hc Hw. split; rewrite ?Hd; try done.
  - intros f. rewrite Hc. by apply (i_reserved _ _ _ Hi).
  - intros f. rewrite Hc. by apply (i_count _ _ _ Hi).
  - apply Hi.
  - intros n i f. rewrite Hc. by apply (i_tab _ _ _ Hi).
  - intros n i t j HT Hj. rewrite (Hw (n, i)) by done. by apply (i_words _ _ _ Hi n i).
  - intros n lin f Hf. destruct (i_dat _ _ _ Hi _ _ _ Hf) as (? & i & j & t & ? & ? & HT & ?). split; [done|].
    exists i, j, t. by rewrite (Hw (n, i)).
  - intros n i t j HT Hj. rewrite (Hw (n, i)) by done. intros Hp. pose proof (i_pte _ _ _ Hi _ _ _ _ HT Hj Hp) as Hm.
    destruct (dats w !! _); [by rewrite Hc|done].
  - apply Hi.
Qed.
(** ** The directory *)

(** The words of low memory: the kernel and its page tables. *)
Context (low : Z → Z → Z).

Record ok (T : gmap (nat * Z) Z) (w : World) (held : list Z) : Prop := {
  ok_inv : inv T w held;
  ok_slots : ∀ n ms, spaces w !! n = Some ms → (n < 64)%nat ∧ pde_base ms = 16 * Z.of_nat n;
  ok_pdes : ∀ n i, (0 < n < 64)%nat → 0 ≤ i < 16 →
    match tabs w !! (n, i) with
    | Some f => word w 0 (16 * Z.of_nat n + i) = user_page_table (addr f)
    | None => is_present (word w 0 (16 * Z.of_nat n + i)) = false
    end;
  (** Tables under construction aside, [T] is what the spaces have. *)
  ok_tabs : tabs w ⊆ T;
  (** Low memory is the kernel's; of the directory, the first slot is. *)
  ok_low : ∀ q k, 0 ≤ q < 512 → 0 ≤ k < 1024 → (q = 0 → k < 16) → word w q k = low q k;
}.

Definition slot_ok (w : World) (n : nat) (i j : Z) : Prop :=
  is_Some (spaces w !! n) ∧ (0 < n < 64)%nat ∧ 0 ≤ i < 16 ∧ 0 ≤ j < 1024.

Lemma pool_uint f : pool f → is_uint 20 f.
Proof. unfold pool, is_uint. lia. Qed.

Lemma lin_page_indices n i j : (n < 64)%nat → 0 ≤ i < 16 → 0 ≤ j < 1024 →
  from_indices (16 * Z.of_nat n + i) j = lin_page n i j ∧
  pde_index (lin_page n i j) = 16 * Z.of_nat n + i ∧ pte_index (lin_page n i j) = j.
Proof.
  intros Hn Hi Hj. destruct (from_indices_eq (16 * Z.of_nat n + i) j) as (E & H1 & H2); [lia|done|].
  assert (from_indices (16 * Z.of_nat n + i) j = lin_page n i j) as E' by (rewrite E; unfold lin_page; lia).
  rewrite E' in *. done.
Qed.

Lemma space_run w n ms : spaces w !! n = Some ms → space n w = (Ok ms, w).
Proof. intros Hn. unfold space. erewrite bind_Ok by reflexivity. by rewrite Hn. Qed.

Lemma user_table f : pool f → entry_ppn (user_page_table (addr f)) = f ∧ is_present (user_page_table (addr f)) = true.
Proof.
  intros Hp. rewrite user_entry by (by apply pool_uint). destruct (new_entry_eq f 7) as (_ & E & Hb); [by apply pool_uint|done|].
  split; [done|]. rewrite present_bit, Hb by done. done.
Qed.

Lemma find_pte_spec T w held n i j :
  ok T w held → slot_ok w n i j →
  find_pte n (lin_page n i j) w = (Ok (match tabs w !! (n, i) with Some t => Some (t, j) | None => None end), w).
Proof.
  intros Hok ([ms Hms] & Hn & Hi & Hj). destruct (ok_slots _ _ _ Hok n ms Hms) as [_ Hb].
  destruct (lin_page_indices n i j) as (_ & Hpde & Hpte); [lia|done..|].
  unfold find_pte. rewrite (bind_Ok _ _ _ _ _ (space_run _ _ _ Hms)). cbv zeta. rewrite Hpde, Hpte, Hb.
  change PDES_PER_PROCESS with 16. rewrite (proj2 (Z.leb_le _ _)), (proj2 (Z.ltb_lt _ _)) by lia. cbn [andb].
  erewrite bind_Ok by reflexivity. pose proof (ok_pdes _ _ _ Hok n i Hn Hi) as Hp.
  destruct (tabs w !! (n, i)) as [t|] eqn:E.
  - rewrite Hp. pose proof (lookup_weaken _ _ _ _ E (ok_tabs _ _ _ Hok)) as HT.
    destruct (user_table t) as [-> ->]; [by apply (i_tab _ _ _ (ok_inv _ _ _ Hok) n i)|done].
  - by rewrite Hp.
Qed.

Lemma pte_spec T w held n i j :
  ok T w held → slot_ok w n i j →
  pte n (lin_page n i j) w = (Ok (match tabs w !! (n, i) with Some t => Some (word w t j) | None => None end), w).
Proof.
  intros Hok Hs. unfold pte. rewrite (bind_Ok _ _ _ _ _ (find_pte_spec _ _ _ _ _ _ Hok Hs)).
  by destruct (tabs w !! (n, i)).
Qed.

Lemma set_pte_spec T w held n i j t x :
  ok T w held → slot_ok w n i j → tabs w !! (n, i) = Some t →
  set_pte n (lin_page n i j) x w = (Ok (), set_word t j x w).
Proof.
  intros Hok Hs Ht. unfold set_pte. rewrite (bind_Ok _ _ _ _ _ (find_pte_spec _ _ _ _ _ _ Hok Hs)), Ht. done.
Qed.

(** *** Allocation *)

Record fresh (w w' : World) (f : Z) : Prop := {
  fh_pool : pool f;
  fh_free : count (phys w) f = 0;
  fh_count : ∀ q, count (phys w') q = if decide (q = f) then 1 else count (phys w) q;
  fh_page : ∀ q, page_at (phys w') q = if decide (q = f) then zero_page else page_at (phys w) q;
  fh_spaces : spaces w' = spaces w;
}.

Lemma tabs_spaces w w' : spaces w' = spaces w → tabs w' = tabs w ∧ dats w' = dats w.
Proof. intros E. unfold tabs, dats. by rewrite E. Qed.

Lemma fresh_word w w' f q j : fresh w w' f → q ≠ f → 0 ≤ j < 1024 → word w' q j = word w q j.
Proof. intros Hf Hq Hj. rewrite !word_eq by done. by rewrite (fh_page _ _ _ Hf), decide_False. Qed.

Lemma fresh_count w w' f q : fresh w w' f → count (phys w) q ≠ 0 → count (phys w') q = count (phys w) q.
Proof. intros Hf Hq. rewrite (fh_count _ _ _ Hf), decide_False; [done|]. intros ->. by rewrite (fh_free _ _ _ Hf) in Hq. Qed.

(** Changes that leave the directory and the spaces alone. *)
Lemma ok_same T T' w w' held held' :
  ok T w held → inv T' w' held' → spaces w' = spaces w → T ⊆ T' →
  (∀ q k, 0 ≤ q < 512 → 0 ≤ k < 1024 → word w' q k = word w q k) →
  ok T' w' held'.
Proof.
  intros Hok Hi Hs HT Hw. destruct (tabs_spaces _ _ Hs) as [Ht Hd]. split; [done|rewrite Hs; apply Hok| |rewrite Ht|].
  - intros n i Hn Hir. rewrite Ht, Hw by lia. by apply (ok_pdes _ _ _ Hok).
  - etrans; [apply (ok_tabs _ _ _ Hok)|done].
  - intros q k Hq Hk Hz. rewrite Hw by done. by apply (ok_low _ _ _ Hok).
Qed.

Definition no_frames (w : World) : Prop := ∀ q, tracked q → count (phys w) q ≠ 0.

Lemma alloc_frame_spec T w held :
  ok T w held →
  (∃ f w', alloc_or_nomem w = (Ok f, w') ∧ ok T w' (f :: held) ∧ fresh w w' f) ∨
  (alloc_or_nomem w = (Err NOMEM, w) ∧ no_frames w).
Proof.
  intros Hok. pose proof (ok_inv _ _ _ Hok) as Hi. unfold alloc_or_nomem, on_phys.
  destruct (frame_alloc_spec (phys w) (i_phys _ _ _ Hi)) as [(f & p' & Hr & Ht & Hc & Htk & _)|[Hr Hn]].
  - left. assert (pool f) as Hp.
    { destruct (decide (512 ≤ lo ∧ hi ≤ 4096 ∧ lo ≤ f < hi)) as [|Hn]; [done|].
      by destruct (i_reserved _ _ _ Hi f Ht Hn). }
    exists f, (mkWorld p' (spaces w)). split; [|split].
    + erewrite bind_Ok by (rewrite Hr; reflexivity). done.
    + eapply ok_same; [done|by apply alloc_inv| |done|]; [done|]. intros q k Hq Hk. rewrite !word_eq by done. simpl.
      rewrite (tk_page _ _ _ Htk), decide_False; [done|]. rewrite list_elem_of_singleton. unfold tracked in Ht. lia.
    + split; [done|done| | |done]; intros q; simpl; [rewrite (tk_count _ _ _ Htk)|rewrite (tk_page _ _ _ Htk)];
        (destruct (decide (q = f)); [rewrite decide_True by (by apply list_elem_of_singleton)
          |rewrite decide_False by (by rewrite list_elem_of_singleton)]; done).
  - right. split; [|done]. erewrite bind_Ok by (rewrite Hr; reflexivity). by destruct w.
Qed.
(** ** What a task sees *)

(** The entry of a linear page, 0 where there is no table. *)
Definition entry_of (w : World) (n : nat) (i j : Z) : Z :=
  match tabs w !! (n, i) with Some t => word w t j | None => 0 end.

(** The contents of a page.  Physical page 0 is the directory, which the first
    user task has in view; it changes with every mapping and is left out. *)
Definition content (w : World) (n : nat) (i j : Z) : option Page :=
  let e := entry_of w n i j in
  if is_present e && negb (entry_ppn e =? 0) then Some (page_at (phys w) (entry_ppn e)) else None.

Definition same_at (w w' : World) (n : nat) (i j : Z) : Prop :=
  entry_of w' n i j = entry_of w n i j ∧ content w' n i j = content w n i j.

Lemma same_at_refl w n i j : same_at w w n i j.
Proof. done. Qed.

Lemma same_at_trans w1 w2 w3 n i j : same_at w1 w2 n i j → same_at w2 w3 n i j → same_at w1 w3 n i j.
Proof. intros [] []. split; congruence. Qed.

(** A page that somebody uses. *)
Definition in_use (w : World) (q : Z) : Prop := q ≠ 0 ∧ (q < 512 ∨ tracked q ∧ count (phys w) q ≠ 0).

Definition calm (w w' : World) : Prop := ∀ q, in_use w q → page_at (phys w') q = page_at (phys w) q.

Lemma table_in_use T w held n i t : inv T w held → T !! (n, i) = Some t → in_use w t.
Proof.
  intros Hi Ht. destruct (i_tab _ _ _ Hi _ _ _ Ht) as (Hp & Hc & _). pose proof (pool_tracked t Hp) as Htr.
  split; [unfold tracked in Htr; lia|right]. split; [done|lia].
Qed.

Lemma mapped_in_use T w held n i t j :
  inv T w held → T !! (n, i) = Some t → 0 ≤ j < 1024 → is_present (word w t j) = true → entry_ppn (word w t j) ≠ 0 →
  in_use w (entry_ppn (word w t j)).
Proof. clear low.
  intros Hi Ht Hj Hp Hz. split; [done|]. pose proof (i_pte _ _ _ Hi _ _ _ _ Ht Hj Hp) as Hm.
  destruct (dats w !! _) as [f|] eqn:E; [right|left; tauto]. destruct Hm as [-> _].
  destruct (i_dat _ _ _ Hi _ _ _ E) as (Hf & _). split; [by apply pool_tracked|].
  rewrite (i_count _ _ _ Hi f Hf). pose proof (vocc_pos _ _ _ E). pose proof (vocc_nonneg T f). pose proof (occ_nonneg held f). lia.
Qed.

Lemma same_view T w w' held n i j t :
  ok T w held → tabs w !! (n, i) = Some t → tabs w' !! (n, i) = Some t → 0 ≤ j < 1024 →
  word w' t j = word w t j →
  (is_present (word w t j) = true → entry_ppn (word w t j) ≠ 0 → in_use w (entry_ppn (word w t j)) →
     page_at (phys w') (entry_ppn (word w t j)) = page_at (phys w) (entry_ppn (word w t j))) →
  same_at w w' n i j.
Proof.
  intros Hok Ht Ht' Hj Hw Hpage. pose proof (lookup_weaken _ _ _ _ Ht (ok_tabs _ _ _ Hok)) as HT.
  unfold same_at, content, entry_of. rewrite Ht, Ht', Hw. split; [done|].
  destruct (is_present (word w t j)) eqn:Hp; [|done]. cbn [andb].
  destruct (Z.eqb_spec (entry_ppn (word w t j)) 0) as [|Hz]; [done|]. cbn [negb]. f_equal.
  apply Hpage; [done|done|]. by eapply mapped_in_use; [apply Hok|..].
Qed.

Lemma calm_view T w w' held n i j :
  ok T w held → calm w w' → tabs w' !! (n, i) = tabs w !! (n, i) → 0 ≤ j < 1024 → same_at w w' n i j.
Proof.
  intros Hok Hc Ht Hj. destruct (tabs w !! (n, i)) as [t|] eqn:E.
  - eapply same_view; try done; [|intros; by apply Hc]. rewrite !word_eq by done. rewrite Hc; [done|].
    apply (table_in_use T w held n i t); [apply Hok|]. by eapply lookup_weaken; [|apply (ok_tabs _ _ _ Hok)].
  - unfold same_at, content, entry_of. by rewrite E, Ht.
Qed.

Lemma fresh_calm w w' f : fresh w w' f → calm w w'.
Proof.
  intros Hf q [Hz Hq]. rewrite (fh_page _ _ _ Hf), decide_False; [done|]. intros ->.
  pose proof (fh_pool _ _ _ Hf) as Hp. destruct Hq as [Hq|[_ Hq]]; [unfold pool in Hp; lia|].
  apply Hq. apply (fh_free _ _ _ Hf).
Qed.

(** *** A table goes into the directory *)

Definition put_table (n : nat) (i f : Z) (ms : MemorySpace) (w : World) : World :=
  set_space n (with_table i f ms) (set_word 0 (16 * Z.of_nat n + i) (user_page_table (addr f)) w).

Lemma put_table_run n i f ms w : spaces w !! n = Some ms → (0 < n < 64)%nat → 0 ≤ i < 16 →
  (write_pde (16 * Z.of_nat n + i) (user_page_table (addr f));;; update_space n (with_table i f)) w = (Ok (), put_table n i f ms w).
Proof.
  intros Hn Hr Hi. erewrite bind_Ok by reflexivity. unfold update_space.
  erewrite bind_Ok by (apply space_run; rewrite set_word_eq by lia; exact Hn). reflexivity.
Qed.

Lemma put_table_spec T w held n i f ms :
  ok T w held → spaces w !! n = Some ms → (0 < n < 64)%nat → 0 ≤ i < 16 →
  T !! (n, i) = Some f → tabs w !! (n, i) = None →
  ok T (put_table n i f ms w) held ∧ tabs (put_table n i f ms w) = <[(n, i) := f]> (tabs w) ∧
  calm w (put_table n i f ms w) ∧ (∀ q, count (phys (put_table n i f ms w)) q = count (phys w) q) ∧
  dats (put_table n i f ms w) = dats w.
Proof.
  intros Hok Hn Hr Hi HT Ht. pose proof (ok_inv _ _ _ Hok) as Hinv. set (k := 16 * Z.of_nat n + i).
  assert (0 ≤ k < 1024) as Hk by (unfold k; lia). set (w1 := set_word 0 k (user_page_table (addr f)) w).
  assert (spaces w1 = spaces w) as Hs by (unfold w1; by rewrite set_word_eq).
  destruct (tabs_spaces _ _ Hs) as [Ht1 Hd1].
  assert (spaces w1 !! n = Some ms) as Hn1 by (by rewrite Hs).
  destruct (tabs_with_table w1 n i f ms Hn1) as [Htabs Hdats]. rewrite Ht1 in Htabs. rewrite Hd1 in Hdats.
  assert (∀ q, q ≠ 0 → page_at (phys w1) q = page_at (phys w) q) as Hpage by (intros; by apply page_set_word).
  assert (∀ q, count (phys w1) q = count (phys w) q) as Hcount by (intros q; unfold w1; by rewrite set_word_eq).
  change (put_table n i f ms w) with (set_space n (with_table i f ms) w1).
  assert (inv T (set_space n (with_table i f ms) w1) held) as Hinv'.
  { eapply data_inv; [done|by apply set_word_phys; [apply Hinv|]|done|done|].
    intros [n' i'] t j Hlk Hj. change (word (set_space n (with_table i f ms) w1) t j) with (word w1 t j).
    destruct (table_in_use _ _ _ _ _ _ Hinv Hlk) as [Hz _]. rewrite !word_eq by done. by rewrite Hpage. }
  split_and!; [|done|by intros q [Hz _]; apply Hpage|done|done].
  split; [done| | | |].
  - intros m ms'. unfold set_space. cbn [spaces]. rewrite Hs. intros [[-> <-]|[_ Hm]]%lookup_insert_Some.
    + by apply (ok_slots _ _ _ Hok) in Hn.
    + by apply (ok_slots _ _ _ Hok).
  - intros m i' Hm Hi'. rewrite Htabs. pose proof (ok_pdes _ _ _ Hok m i' Hm Hi') as Hp.
    change (word (set_space n (with_table i f ms) w1)) with (word w1). unfold w1.
    rewrite word_after_set by (apply Hinv || lia). destruct (decide ((m, i') = (n, i))) as [[= -> ->]|Hne].
    + by rewrite lookup_insert_eq, decide_True.
    + rewrite lookup_insert_ne by congruence. rewrite decide_False; [done|]. intros [_ E]. apply Hne. unfold k in E.
      assert (m = n) as -> by lia. f_equal. lia.
  - rewrite Htabs. apply insert_subseteq_l; [done|]. apply (ok_tabs _ _ _ Hok).
  - intros q k' Hq Hk' Hz. change (word (set_space n (with_table i f ms) w1)) with (word w1). unfold w1.
    rewrite word_after_set by (apply Hinv || lia). rewrite decide_False; [by apply (ok_low _ _ _ Hok)|].
    intros [-> ->]. specialize (Hz eq_refl). unfold k in Hz. lia.
Qed.
(** ** The operations *)

(** [w'] differs from [w] in page tables that were added, and in nothing a task
    sees. *)
Record quiet (w w' : World) : Prop := {
  qt_calm : calm w w';
  qt_count : ∀ q, tracked q → count (phys w) q ≠ 0 → count (phys w') q = count (phys w) q;
  qt_dats : dats w' = dats w;
  qt_live : ∀ m, is_Some (spaces w' !! m) ↔ is_Some (spaces w !! m);
  qt_same : ∀ m i j, 0 ≤ j < 1024 → same_at w w' m i j;
}.

Lemma quiet_refl w : quiet w w.
Proof. split; done. Qed.

Lemma zero_word w f j : page_at (phys w) f = zero_page → 0 ≤ j < 1024 → word w f j = 0.
Proof.
  intros Hz Hj. rewrite word_eq, Hz by done. unfold zlookup, zero_page. destruct (0 <=? j); [|done].
  destruct (_ !! _) as [x|] eqn:E; [|done]. by apply lookup_replicate in E as [-> _].
Qed.

Lemma ensure_table_spec w held n i :
  ok (tabs w) w held → is_Some (spaces w !! n) → (0 < n < 64)%nat → 0 ≤ i < 16 →
  ∃ r w', ensure_page_table n (16 * Z.of_nat n + i) w = (r, w') ∧ ok (tabs w') w' held ∧
    (r = Ok () ∧ is_Some (tabs w' !! (n, i)) ∧ quiet w w' ∨ r = Err NOMEM ∧ w' = w ∧ no_frames w).
Proof.
  intros Hok [ms Hms] Hn Hi. unfold ensure_page_table. erewrite bind_Ok by reflexivity.
  pose proof (ok_pdes _ _ _ Hok n i Hn Hi) as Hp. destruct (tabs w !! (n, i)) as [t|] eqn:Ht.
  { rewrite Hp. destruct (user_table t) as [_ ->]; [by apply (i_tab _ _ _ (ok_inv _ _ _ Hok) n i)|].
    exists (Ok ()), w. split; [done|]. split; [done|]. left. split_and!; [done|by eexists|apply quiet_refl]. }
  rewrite Hp, (bind_Ok _ _ _ _ _ (space_run _ _ _ Hms)). destruct (ok_slots _ _ _ Hok n ms Hms) as [_ Hb].
  cbv zeta. rewrite Hb. replace (16 * Z.of_nat n + i - 16 * Z.of_nat n) with i by lia. change PDES_PER_PROCESS with 16.
  rewrite (proj2 (Z.leb_le _ _)), (proj2 (Z.ltb_lt _ _)) by lia. cbn [andb].
  assert (page_tables ms !! i = None) as Hnone by (rewrite tabs_lookup, Hms in Ht; exact Ht).
  destruct (alloc_frame_spec _ _ _ Hok) as [(f & w1 & Hr & Hok1 & Hf)|[Hr Hno]].
  2:{ rewrite (bind_Err _ _ _ _ _ Hr). eexists _, w. split; [done|]. split; [done|]. by right. }
  rewrite (bind_Ok _ _ _ _ _ Hr). pose proof (fh_spaces _ _ _ Hf) as Hs.
  destruct (tabs_spaces _ _ Hs) as [Ht1 Hd1].
  assert (spaces w1 !! n = Some ms) as Hms1 by (by rewrite Hs).
  assert (page_at (phys w1) f = zero_page) as Hz by (by rewrite (fh_page _ _ _ Hf), decide_True).
  assert (ok (<[(n, i) := f]> (tabs w)) w1 held) as Hok2.
  { assert (inv (<[(n, i) := f]> (tabs w)) w1 held) as Hi2.
    { apply install_inv; [apply Hok1|by rewrite (fh_count _ _ _ Hf), decide_True|done..|]. intros j Hj. by apply zero_word. }
    eapply ok_same; [exact Hok1|exact Hi2|done|by apply insert_subseteq|done]. }
  destruct (put_table_spec _ w1 held n i f ms Hok2 Hms1 Hn Hi) as (Hok3 & Ht3 & Hc3 & Hcount3 & Hd3);
    [apply lookup_insert_eq|by rewrite Ht1|].
  exists (Ok ()), (put_table n i f ms w1). split.
  { rewrite <- bind_bind, (bind_Ok _ _ _ _ _ (put_table_run n i f ms w1 Hms1 Hn Hi)). by rewrite Hnone. }
  rewrite Ht1 in Ht3. split; [by rewrite Ht3|]. left. split; [done|]. split; [rewrite Ht3, lookup_insert_eq; by eexists|].
  assert (calm w (put_table n i f ms w1)) as Hcalm.
  { intros q Hq. rewrite Hc3; [by apply (fresh_calm _ _ _ Hf)|]. destruct Hq as [? Hq]. split; [done|].
    destruct Hq as [?|[? Hq]]; [by left|right]. split; [done|]. rewrite (fh_count _ _ _ Hf). by case_decide. }
  split.
  - done.
  - intros q _ Hq. rewrite Hcount3, (fh_count _ _ _ Hf). case_decide as E; [|done]. subst q. by rewrite (fh_free _ _ _ Hf) in Hq.
  - by rewrite Hd3, Hd1.
  - intros m. unfold put_table, set_space. cbn [spaces]. rewrite set_word_eq by lia. cbn [spaces]. rewrite Hs.
    destruct (decide (m = n)) as [->|]; [rewrite lookup_insert_eq, Hms; split; by eexists|by rewrite lookup_insert_ne].
  - intros m i' j Hj. destruct (decide ((m, i') = (n, i))) as [[= -> ->]|Hne].
    + unfold same_at, content, entry_of. rewrite Ht3, lookup_insert_eq, Ht.
      change (word (put_table n i f ms w1) f j) with (word (set_word 0 (16 * Z.of_nat n + i) (user_page_table (addr f)) w1) f j).
      rewrite word_after_set by (apply Hok1 || lia). rewrite decide_False by (pose proof (fh_pool _ _ _ Hf) as Hpf; unfold pool in Hpf; lia).
      by rewrite zero_word.
    + apply (calm_view (tabs w) _ _ held); [done|done| |done]. by rewrite Ht3, lookup_insert_ne by congruence.
Qed.
(** *** A page is mapped to a new frame *)

(** Everything but page [(n, i, j)] looks as before. *)
Definition others_same (w w' : World) (n : nat) (i j : Z) : Prop :=
  ∀ m i' j', 0 ≤ j' < 1024 → (m, i', j') ≠ (n, i, j) → same_at w w' m i' j'.

Record remapped (w w' : World) (held : list Z) (n : nat) (i j x : Z) : Prop := {
  rm_ok : ok (tabs w') w' held;
  rm_tabs : tabs w' = tabs w;
  rm_entry : entry_of w' n i j = x;
  rm_others : others_same w w' n i j;
  rm_pages : ∀ q, (∀ k, tabs w !! k ≠ Some q) → page_at (phys w') q = page_at (phys w) q;
  rm_live : ∀ m, is_Some (spaces w' !! m) ↔ is_Some (spaces w !! m);
  rm_count : ∀ q, (∀ k, dats w !! k ≠ Some q) → count (phys w') q = count (phys w) q;
}.

(** The handle changes in the space, and the old one is dropped. *)
Definition with_handle (n : nat) (lin f : Z) (ms : MemorySpace) (w : World) : World :=
  let w' := set_space n (with_frame lin f ms) w in
  match data_frames ms !! lin with
  | Some g => mkWorld (set_count (g - 512) (count (phys w) g - 1) (phys w)) (spaces w')
  | None => w'
  end.

Lemma insert_frame_run n lin f ms w :
  spaces w !! n = Some ms → phys_ok (phys w) →
  (∀ g, data_frames ms !! lin = Some g → tracked g ∧ 0 < count (phys w) g) →
  insert_frame n lin f w = (Ok (), with_handle n lin f ms w).
Proof.
  intros Hn Hok Hg. unfold insert_frame. rewrite (bind_Ok _ _ _ _ _ (space_run _ _ _ Hn)).
  erewrite bind_Ok by (unfold update_space; rewrite (bind_Ok _ _ _ _ _ (space_run _ _ _ Hn)); reflexivity).
  unfold drop_frame, with_handle. destruct (data_frames ms !! lin) as [g|]; [|done].
  destruct (Hg g eq_refl) as [Ht Hc]. unfold on_phys. cbn [phys set_space].
  by destruct (frame_dealloc_spec (phys w) g Hok Ht Hc) as [-> _].
Qed.

Lemma with_handle_maps n lin f ms w : spaces w !! n = Some ms →
  dats (with_handle n lin f ms w) = <[(n, lin) := f]> (dats w) ∧ tabs (with_handle n lin f ms w) = tabs w ∧
  (∀ m, is_Some (spaces (with_handle n lin f ms w) !! m) ↔ is_Some (spaces w !! m)) ∧
  mem (phys (with_handle n lin f ms w)) = mem (phys w).
Proof.
  intros Hn. destruct (dats_with_frame w n lin f ms Hn) as [Hd Ht].
  assert (spaces (with_handle n lin f ms w) = spaces (set_space n (with_frame lin f ms) w)) as Hs
    by (unfold with_handle; by destruct (data_frames ms !! lin)).
  destruct (tabs_spaces _ _ Hs) as [Ht' Hd']. split_and!; [by rewrite Hd'|by rewrite Ht'| |].
  - intros m. rewrite Hs. simpl. destruct (decide (m = n)) as [->|]; [rewrite lookup_insert_eq, Hn; split; by eexists|by rewrite lookup_insert_ne].
  - unfold with_handle. by destruct (data_frames ms !! lin).
Qed.

Lemma with_handle_count n lin f ms w q : phys_ok (phys w) →
  (∀ g, data_frames ms !! lin = Some g → tracked g) →
  count (phys (with_handle n lin f ms w)) q = count (phys w) q - (if decide (data_frames ms !! lin = Some q) then 1 else 0).
Proof.
  intros Hok Hg. unfold with_handle. destruct (data_frames ms !! lin) as [g|] eqn:E.
  - cbn [phys]. rewrite count_set_count by (done || by apply Hg). repeat case_decide; subst; try done; try congruence; lia.
  - rewrite decide_False by done. simpl. lia.
Qed.

Lemma with_handle_phys n lin f ms w : phys_ok (phys w) →
  (∀ g, data_frames ms !! lin = Some g → tracked g ∧ 0 < count (phys w) g) → phys_ok (phys (with_handle n lin f ms w)).
Proof.
  intros Hok Hg. unfold with_handle. destruct (data_frames ms !! lin) as [g|]; [|done].
  destruct (Hg g eq_refl). by apply frame_dealloc_spec.
Qed.

Lemma page_mem w w' q : mem (phys w') = mem (phys w) → page_at (phys w') q = page_at (phys w) q.
Proof. intros E. unfold page_at. by rewrite E. Qed.

Lemma dat_counted T w held k g : inv T w held → dats w !! k = Some g → tracked g ∧ 0 < count (phys w) g.
Proof.
  intros Hi Hg. destruct k as [n lin]. destruct (i_dat _ _ _ Hi _ _ _ Hg) as (Hp & _). split; [by apply pool_tracked|].
  rewrite (i_count _ _ _ Hi g Hp). pose proof (vocc_pos _ _ _ Hg). pose proof (vocc_nonneg T g). pose proof (occ_nonneg held g). lia.
Qed.

Lemma remap_spec w held n i j t f x :
  ok (tabs w) w (f :: held) → count (phys w) f = 1 → slot_ok w n i j → tabs w !! (n, i) = Some t →
  is_uint 32 x → is_present x = true → entry_ppn x = f →
  ∃ w', (set_pte n (lin_page n i j) x;;; insert_frame n (lin_page n i j) f) w = (Ok (), w') ∧ remapped w w' held n i j x.
Proof.
  intros Hok Hc Hs Ht Hx Hpx Hfx. pose proof (ok_inv _ _ _ Hok) as Hi. destruct (Hs) as ([ms Hms] & Hn & Hir & Hj).
  rewrite (bind_Ok _ _ _ _ _ (set_pte_spec _ _ _ _ _ _ _ x Hok Hs Ht)). set (w1 := set_word t j x w).
  assert (spaces w1 = spaces w) as Hs1 by (unfold w1; by rewrite set_word_eq).
  destruct (tabs_spaces _ _ Hs1) as [Ht1 Hd1]. assert (spaces w1 !! n = Some ms) as Hms1 by (by rewrite Hs1).
  assert (∀ q, count (phys w1) q = count (phys w) q) as Hc1 by (intros q; unfold w1; by rewrite set_word_eq).
  assert (phys_ok (phys w1)) as Hp1 by (by apply set_word_phys; [apply Hi|]).
  set (lin := lin_page n i j). assert (data_frames ms !! lin = dats w !! (n, lin)) as Hdl by (by rewrite dats_lookup, Hms).
  assert (∀ g, data_frames ms !! lin = Some g → tracked g ∧ 0 < count (phys w1) g) as Hg.
  { intros g E. rewrite Hdl in E. rewrite Hc1. by apply (dat_counted _ _ _ _ _ Hi E). }
  exists (with_handle n lin f ms w1). split; [by apply insert_frame_run|].
  destruct (with_handle_maps n lin f ms w1 Hms1) as (Hd2 & Ht2 & Hl2 & Hm2). rewrite Hd1 in Hd2. rewrite Ht1 in Ht2.
  assert (∀ q k, 0 ≤ k < 1024 → word (with_handle n lin f ms w1) q k = word w1 q k) as Hw2.
  { intros q k Hk. rewrite !word_eq by done. by rewrite (page_mem w1). }
  assert (∀ q, count (phys (with_handle n lin f ms w1)) q = count (phys w) q - (if decide (dats w !! (n, lin) = Some q) then 1 else 0)) as Hc2.
  { intros q. rewrite with_handle_count, Hc1 by (done || by intros g E; apply Hg). by rewrite Hdl. }
  destruct (held_sole _ _ _ _ Hi Hc) as (Hfh & Hft & Hfd).
  assert (∀ q k, dats w !! (n, lin) = Some q → tabs w !! k ≠ Some q) as Hnt.
  { intros q [n' i'] E E'. destruct (tab_sole _ _ _ _ _ _ Hi E') as (_ & _ & Hno). by apply (Hno (n, lin)). }
  assert (inv (tabs w) (with_handle n lin f ms w1) held) as Hinv.
  { apply (entry_inv (tabs w) w _ (f :: held) held n i t j x (Some f)); try done.
    - by apply with_handle_phys.
    - intros k u j' Hu Hj'. rewrite Hw2 by done. unfold w1. rewrite word_after_set by (apply Hi || done). done.
    - intros q Hq. apply (i_held _ _ _ Hi). by right.
    - intros q Hq Hnp. rewrite Hc2, decide_False; [rewrite Z.sub_0_r; by apply (i_reserved _ _ _ Hi)|].
      intros E. by destruct (i_dat _ _ _ Hi _ _ _ E).
    - intros q Hq. rewrite Hc2, Hd2, (i_count _ _ _ Hi q Hq), occ_cons. destruct (dats w !! (n, lin)) as [g|] eqn:E.
      + rewrite (vocc_replace _ _ g) by done. repeat case_decide; simplify_eq; lia.
      + rewrite vocc_insert by done. repeat case_decide; simplify_eq; lia.
    - intros k u Hu. rewrite Hc2, decide_False by (intros E; by apply (Hnt u k)).
      destruct k. rewrite Z.sub_0_r. by apply (i_tab _ _ _ Hi _ _ _ Hu).
    - intros n' i' u j' q Hu Hj' Hne E Hwr E1. rewrite Hc2, decide_False; [lia|]. intros E2.
      assert (pool q) as Hpq by (by apply (i_dat _ _ _ Hi _ _ _ E)). rewrite (i_count _ _ _ Hi q Hpq) in E1.
      assert ((n', lin_page n' i' j') ≠ (n, lin)) as Hk.
      { intros [= -> El]. apply Hne. destruct (lin_page_inj n i' j' i j) as [-> ->]; done. }
      pose proof (vocc_two _ _ _ _ E E2 Hk). pose proof (vocc_nonneg (tabs w) q). pose proof (occ_nonneg (f :: held) q). lia.
    - split_and!; [apply (i_held _ _ _ Hi); by left|done|done| |].
      + intros _. rewrite Hc2, decide_False by (intros E; by apply (Hfd (n, lin))). lia.
      + intros m lin' E. by destruct (Hfd (m, lin')). }
  assert (in_use w t) as [Ht0 _] by (by eapply table_in_use).
  split.
  - rewrite Ht2. destruct Hok as [_ Hsl Hpd _ Hlow]. split; [done| | |by rewrite Ht2|].
    + intros m ms' Hm. assert (is_Some (spaces w1 !! m)) as [ms0 Hm0] by (apply Hl2; by eexists).
      rewrite Hs1 in Hm0. destruct (Hsl m ms0 Hm0) as [? Hb]. split; [done|]. unfold with_handle in Hm.
      assert (<[n := with_frame lin f ms]> (spaces w1) !! m = Some ms') as Hm' by (destruct (data_frames ms !! lin); exact Hm).
      apply lookup_insert_Some in Hm' as [[<- <-]|[_ Hm']]; [simpl; congruence|]. rewrite Hs1 in Hm'. congruence.
    + intros m i' Hm Hi'. rewrite Ht2, Hw2 by lia. unfold w1. rewrite word_after_set by (apply Hi || lia).
      rewrite decide_False by (intros []; done). by apply Hpd.
    + intros q k Hq Hk Hz. rewrite Hw2 by done. unfold w1. rewrite word_after_set by (apply Hi || done).
      rewrite decide_False; [by apply Hlow|]. destruct (i_tab _ _ _ Hi _ _ _ Ht) as (Hpt & _). unfold pool in Hpt. lia.
  - done.
  - unfold entry_of. rewrite Ht2, Ht, Hw2 by done. unfold w1. by rewrite word_after_set, decide_True by (done || apply Hi).
  - intros m i' j' Hj' Hne. destruct (tabs w !! (m, i')) as [u|] eqn:Hu.
    2:{ unfold same_at, content, entry_of. by rewrite Ht2, Hu. }
    eapply same_view; try done; [by rewrite Ht2| |].
    + rewrite Hw2 by done. unfold w1. rewrite word_after_set by (apply Hi || done). rewrite decide_False; [done|].
      intros [-> ->]. destruct (tab_sole _ _ _ _ _ _ Hi Ht) as (_ & Huniq & _). apply Huniq in Hu. congruence.
    + intros Hp Hz Huse. rewrite (page_mem w1) by done. unfold w1. apply page_set_word; [done|]. intros E.
      pose proof (i_pte _ _ _ Hi _ _ _ _ Hu Hj' Hp) as Hm. destruct (tab_sole _ _ _ _ _ _ Hi Ht) as (_ & _ & Hno).
      destruct (i_tab _ _ _ Hi _ _ _ Ht) as (Hpt & _). unfold pool in Hpt.
      destruct (dats w !! (m, lin_page m i' j')) as [g|] eqn:Eg; [|lia]. destruct Hm as [Hm _].
      apply (Hno (m, lin_page m i' j')). congruence.
  - intros q Hq. rewrite (page_mem w1) by done. unfold w1. apply page_set_word; [done|]. intros ->. by apply (Hq (n, i)).
  - intros m. rewrite Hl2. by rewrite Hs1.
  - intros q Hq. rewrite Hc2, decide_False by apply Hq. lia.
Qed.
Definition mapped (w : World) (n : nat) (i j : Z) : bool := is_present (entry_of w n i j).

Lemma fresh_same T w w' held f m i j : ok T w held → fresh w w' f → 0 ≤ j < 1024 → same_at w w' m i j.
Proof.
  intros Hok Hf Hj. eapply calm_view; [done|by eapply fresh_calm| |done].
  by destruct (tabs_spaces _ _ (fh_spaces _ _ _ Hf)) as [-> _].
Qed.

Lemma slot_ok_live w w' n i j : (∀ m, is_Some (spaces w' !! m) ↔ is_Some (spaces w !! m)) → slot_ok w n i j → slot_ok w' n i j.
Proof. intros Hl (? & ?). split; [by apply Hl|done]. Qed.

Lemma pte_entry T w held n i j : ok T w held → slot_ok w n i j →
  ∃ o, pte n (lin_page n i j) w = (Ok o, w) ∧
    (match o with Some e => is_present e | None => false end) = mapped w n i j ∧
    (mapped w n i j = true → o = Some (entry_of w n i j)).
Proof.
  intros Hok Hs. eexists. split; [by eapply pte_spec|]. unfold mapped, entry_of. by destruct (tabs w !! (n, i)).
Qed.

(** A held frame is dropped. *)
Lemma drop_held T w held f : ok T w (f :: held) → 
  ∃ w', drop_frame (Some f) w = (Ok (), w') ∧ ok T w' held ∧ spaces w' = spaces w ∧ mem (phys w') = mem (phys w) ∧
    ∀ q, q ≠ f → count (phys w') q = count (phys w) q.
Proof.
  intros Hok. destruct (dealloc_inv _ _ _ _ (ok_inv _ _ _ Hok)) as [Hi Hrun]. eexists. split; [exact Hrun|].
  split_and!; [by eapply ok_same|done|done|]. intros q Hq. cbn [phys]. rewrite count_set_count, decide_False; [done|done| |].
  - apply (i_phys _ _ _ (ok_inv _ _ _ Hok)).
  - apply pool_tracked, (i_held _ _ _ (ok_inv _ _ _ Hok)). by left.
Qed.

Lemma same_mem w w' n i j : spaces w' = spaces w → mem (phys w') = mem (phys w) → 0 ≤ j < 1024 → same_at w w' n i j.
Proof.
  intros Hs Hm Hj. destruct (tabs_spaces _ _ Hs) as [Ht _]. unfold same_at, content, entry_of. rewrite Ht.
  destruct (tabs w !! (n, i)) as [t|]; [|done]. assert (word w' t j = word w t j) as -> by (rewrite !word_eq by done; by rewrite (page_mem w w' _ Hm)).
  split; [done|]. by rewrite (page_mem w w' _ Hm).
Qed.

Lemma user_rw f : pool f →
  is_uint 32 (new_entry f USER_RW) ∧ is_present (new_entry f USER_RW) = true ∧
  entry_ppn (new_entry f USER_RW) = f ∧ writable (new_entry f USER_RW) = true.
Proof.
  intros Hp. destruct (new_entry_eq f USER_RW) as (Hu & E & Hb); [by apply pool_uint|done|].
  split_and!; [done| |done|]; rewrite ?present_bit, ?writable_bit, Hb by done; done.
Qed.

(** Mapping a held frame. *)
Lemma map_frame_spec w held n i j f :
  ok (tabs w) w (f :: held) → count (phys w) f = 1 → slot_ok w n i j → is_Some (tabs w !! (n, i)) →
  ∃ w', (set_pte n (lin_page n i j) (new_entry f USER_RW);;; insert_frame n (lin_page n i j) f) w = (Ok (), w') ∧
    remapped w w' held n i j (new_entry f USER_RW) ∧ content w' n i j = Some (page_at (phys w) f).
Proof.
  intros Hok Hc Hs [t Ht]. assert (pool f) as Hp by (apply (i_held _ _ _ (ok_inv _ _ _ Hok)); by left).
  destruct (user_rw f Hp) as (Hu & Hpr & E & _).
  destruct (remap_spec w held n i j t f _ Hok Hc Hs Ht Hu Hpr E) as (w' & Hr & Hm).
  exists w'. split; [done|]. split; [done|]. unfold content. rewrite (rm_entry _ _ _ _ _ _ _ Hm), Hpr, E.
  rewrite (proj2 (Z.eqb_neq _ _)) by (unfold pool in Hp; lia). cbn [andb negb]. f_equal. apply (rm_pages _ _ _ _ _ _ _ Hm).
  by apply (held_sole _ _ _ _ (ok_inv _ _ _ Hok) Hc).
Qed.

(** No frame is free but the one that was on its way to the space. *)
Definition scarce (w : World) (o : option Z) : Prop := ∀ q, tracked q → o ≠ Some q → count (phys w) q ≠ 0.

(** What [map_page] does. *)
Record map_result (w w' : World) (held : list Z) (n : nat) (i j : Z) (o : option Z) (r : result ()) : Prop := {
  mr_ok : ok (tabs w') w' held;
  mr_others : others_same w w' n i j;
  mr_live : ∀ m, is_Some (spaces w' !! m) ↔ is_Some (spaces w !! m);
  mr_count : ∀ q, tracked q → count (phys w) q ≠ 0 → (∀ k, dats w !! k ≠ Some q) → o ≠ Some q →
    count (phys w') q = count (phys w) q;
  mr_result :
    match r with
    | Ok _ =>
        if mapped w n i j then o = None ∧ same_at w w' n i j
        else writable (entry_of w' n i j) = true ∧
          content w' n i j = Some (match o with Some f => page_at (phys w) f | None => zero_page end)
    | Err e => same_at w w' n i j ∧ (e = EXIST ∧ mapped w n i j = true ∧ o ≠ None ∨ e = NOMEM ∧ scarce w' o)
    | Panic => False
    end;
}.
Lemma map_page_spec w held n i j o :
  ok (tabs w) w (option_list o ++ held) → (∀ f, o = Some f → count (phys w) f = 1) → slot_ok w n i j →
  ∃ r w', map_page n (lin_page n i j) o w = (r, w') ∧ map_result w w' held n i j o r.
Proof.
  intros Hok Hf1 Hs. destruct (Hs) as (Hlive & Hn & Hi & Hj).
  destruct (lin_page_indices n i j) as (_ & Hpde & _); [lia|done..|]. unfold map_page. rewrite Hpde.
  destruct (ensure_table_spec w _ n i Hok Hlive Hn Hi) as (r & w1 & Hr & Hok1 & Hres).
  destruct Hres as [(-> & Htab & Hq)|(-> & -> & Hno)]; (erewrite bind_Ok by (unfold mtry; rewrite Hr; reflexivity)).
  2:{ (* no page table *) destruct o as [f|].
      - destruct (drop_held _ _ _ _ Hok) as (w2 & Hd & Hok2 & Hs2 & Hm2 & Hc2). cbv beta iota. rewrite (bind_Ok _ _ _ _ _ Hd).
        exists (Err NOMEM), w2. split; [done|]. destruct (tabs_spaces _ _ Hs2) as [Ht2 _].
        split; [by rewrite Ht2|intros m i' j' ? _; by apply same_mem|by rewrite Hs2|intros q _ _ _ Hq; apply Hc2; congruence|].
        split; [by apply same_mem|right; split; [done|]]. intros q Hq Hne. rewrite Hc2 by congruence. by apply Hno.
      - exists (Err NOMEM), w. split; [done|]. split; [done|by intros|done|done|]. split; [done|right; split; [done|by intros q Htq _; apply Hno]]. }
  cbv beta iota. pose proof (slot_ok_live w w1 n i j (qt_live _ _ Hq) Hs) as Hs1.
  pose proof (qt_same _ _ Hq n i j Hj) as Hsame. assert (mapped w1 n i j = mapped w n i j) as Hmap1 by (unfold mapped; by rewrite (proj1 Hsame)).
  assert (∀ w2, others_same w1 w2 n i j → others_same w w2 n i j) as Hoth.
  { intros w2 H m i' j' Hj' Hne. eapply same_at_trans; [by apply (qt_same _ _ Hq)|by apply H]. }
  destruct (pte_entry _ _ _ n i j Hok1 Hs1) as (op & Hpte & Hpres & _). rewrite (bind_Ok _ _ _ _ _ Hpte). cbv zeta. rewrite Hpres, Hmap1.
  destruct (mapped w n i j) eqn:Hmapped.
  { destruct o as [f|].
    - destruct (drop_held _ _ _ _ Hok1) as (w2 & Hd & Hok2 & Hs2 & Hm2 & Hc2). rewrite (bind_Ok _ _ _ _ _ Hd).
      exists (Err EXIST), w2. split; [done|]. destruct (tabs_spaces _ _ Hs2) as [Ht2 _].
      split; [by rewrite Ht2|apply Hoth; intros m i' j' ? _; by apply same_mem|intros m; rewrite Hs2; apply Hq| |].
      { intros q Htr Hq0 _ Hne. rewrite Hc2 by congruence. by apply (qt_count _ _ Hq). }
      split; [eapply same_at_trans; [done|by apply same_mem]|by left].
    - exists (Ok ()), w1. split; [done|]. split; [done|by apply Hoth|apply Hq|intros; by apply (qt_count _ _ Hq)|by rewrite Hmapped]. }
  destruct o as [f|].
  - erewrite bind_Ok by reflexivity. assert (pool f) as Hpf by (apply (i_held _ _ _ (ok_inv _ _ _ Hok)); by left).
    pose proof (Hf1 f eq_refl) as Hc. pose proof (pool_tracked f Hpf) as Htr.
    destruct (map_frame_spec w1 held n i j f Hok1) as (w2 & Hrun & Hm & Hcont); [rewrite (qt_count _ _ Hq); [done|done|lia]|done|done|].
    exists (Ok ()), w2. split; [done|]. split.
    + apply Hm.
    + apply Hoth, Hm.
    + intros m. rewrite (rm_live _ _ _ _ _ _ _ Hm). apply Hq.
    + intros q Htq Hq0 Hd _. rewrite (rm_count _ _ _ _ _ _ _ Hm) by (by rewrite (qt_dats _ _ Hq)). by apply (qt_count _ _ Hq).
    + rewrite Hmapped, (rm_entry _ _ _ _ _ _ _ Hm). split; [by apply user_rw|]. rewrite Hcont. f_equal.
      apply (qt_calm _ _ Hq). split; [unfold tracked in Htr; lia|right; split; [done|lia]].
  - destruct (alloc_frame_spec _ _ _ Hok1) as [(f & w2 & Ha & Hok2 & Hf)|[Ha Hno]].
    2:{ rewrite (bind_Err _ _ _ _ _ Ha). exists (Err NOMEM), w1. split; [done|]. split; [done|by apply Hoth|apply Hq|intros; by apply (qt_count _ _ Hq)|].
        split; [done|right; split; [done|by intros q Htq _; apply Hno]]. }
    rewrite (bind_Ok _ _ _ _ _ Ha). destruct (tabs_spaces _ _ (fh_spaces _ _ _ Hf)) as [Ht2 _]. rewrite <- Ht2 in Hok2.
    destruct (map_frame_spec w2 held n i j f Hok2) as (w3 & Hrun & Hm & Hcont).
    + by rewrite (fh_count _ _ _ Hf), decide_True.
    + eapply slot_ok_live; [|done]. intros m. by rewrite (fh_spaces _ _ _ Hf).
    + by rewrite Ht2.
    + exists (Ok ()), w3. split; [done|]. split.
      * apply Hm.
      * apply Hoth. intros m i' j' Hj' Hne. eapply same_at_trans; [by eapply fresh_same|by apply Hm].
      * intros m. rewrite (rm_live _ _ _ _ _ _ _ Hm), (fh_spaces _ _ _ Hf). apply Hq.
      * intros q Htq Hq0 Hd _. destruct (tabs_spaces _ _ (fh_spaces _ _ _ Hf)) as [_ Hd2].
        rewrite (rm_count _ _ _ _ _ _ _ Hm) by (by rewrite Hd2, (qt_dats _ _ Hq)). pose proof (qt_count _ _ Hq q Htq Hq0) as E.
        rewrite (fresh_count _ _ _ _ Hf); [done|by rewrite E].
      * rewrite Hmapped, (rm_entry _ _ _ _ _ _ _ Hm). split; [apply user_rw, Hf|]. rewrite Hcont. f_equal.
        by rewrite (fh_page _ _ _ Hf), decide_True.
Qed.
(** *** Write faults *)

Lemma entry_facts T w held n i j :
  ok T w held → slot_ok w n i j → mapped w n i j = true →
  ∃ t, tabs w !! (n, i) = Some t ∧ entry_of w n i j = word w t j ∧ is_uint 32 (word w t j) ∧
    is_present (word w t j) = true ∧ T !! (n, i) = Some t.
Proof.
  intros Hok (_ & _ & _ & Hj) Hm. unfold mapped, entry_of in *. destruct (tabs w !! (n, i)) as [t|] eqn:Ht; [|done].
  pose proof (lookup_weaken _ _ _ _ Ht (ok_tabs _ _ _ Hok)) as HT. exists t. split_and!; try done.
  by apply (i_words _ _ _ (ok_inv _ _ _ Hok) n i).
Qed.

(** A data frame is no table. *)
Lemma data_not_table T w held k f : inv T w held → dats w !! k = Some f → ∀ k', T !! k' ≠ Some f.
Proof. intros Hi Hf [n i] E. destruct (tab_sole _ _ _ _ _ _ Hi E) as (_ & _ & Hn). by apply (Hn k). Qed.

Lemma low_not_table T w held q : inv T w held → q < 512 → ∀ k, T !! k ≠ Some q.
Proof. intros Hi Hq [n i] E. destruct (i_tab _ _ _ Hi _ _ _ E) as (Hp & _). unfold pool in Hp. lia. Qed.

Lemma mapped_not_table T w held n i t j :
  inv T w held → T !! (n, i) = Some t → 0 ≤ j < 1024 → is_present (word w t j) = true →
  ∀ k, T !! k ≠ Some (entry_ppn (word w t j)).
Proof.
  intros Hi Ht Hj Hp. pose proof (i_pte _ _ _ Hi _ _ _ _ Ht Hj Hp) as Hm. destruct (dats w !! _) as [f|] eqn:E.
  - destruct Hm as [-> _]. by eapply data_not_table.
  - by eapply low_not_table; [|apply Hm].
Qed.

(** Contents of a frame with one owner may change for that owner alone. *)
Lemma set_page_sole T w held n i j f p :
  ok T w held → dats w !! (n, lin_page n i j) = Some f → count (phys w) f = 1 → length p = 1024%nat → 0 ≤ j < 1024 →
  let w' := mkWorld (set_page f p (phys w)) (spaces w) in
  ok T w' held ∧ others_same w w' n i j ∧ entry_of w' n i j = entry_of w n i j ∧
  (mapped w n i j = true → entry_ppn (entry_of w n i j) = f → content w' n i j = Some p).
Proof.
  intros Hok Hd Hc Hlen Hj w'. pose proof (ok_inv _ _ _ Hok) as Hi.
  assert (pool f) as Hp by (by apply (i_dat _ _ _ Hi _ _ _ Hd)).
  assert (∀ q k, q ≠ f → 0 ≤ k < 1024 → word w' q k = word w q k) as Hw.
  { intros q k Hq Hk. rewrite !word_eq by done. unfold w'. cbn [phys]. by rewrite page_at_set, decide_False. }
  assert (∀ k t, T !! k = Some t → t ≠ f) as Hnt by (intros k t Ht ->; by eapply data_not_table).
  assert (∀ m i' j', 0 ≤ j' < 1024 → entry_of w' m i' j' = entry_of w m i' j') as Hent.
  { intros m i' j' Hj'. unfold entry_of. change (tabs w') with (tabs w). destruct (tabs w !! (m, i')) as [t|] eqn:Ht; [|done].
    apply Hw; [|done]. eapply Hnt. by eapply lookup_weaken; [|apply (ok_tabs _ _ _ Hok)]. }
  split_and!.
  - eapply ok_same; [done| |done|done|]; [|intros q k Hq Hk; apply Hw; [unfold pool in Hp; lia|done]].
    eapply data_inv; [done|by apply set_page_ok; [apply Hi|]|done|done|]. intros k t j' Ht Hj'. apply Hw; [by eapply Hnt|done].
  - intros m i' j' Hj' Hne. destruct (tabs w !! (m, i')) as [t|] eqn:Ht.
    2:{ unfold same_at, content, entry_of. change (tabs w') with (tabs w). by rewrite Ht. }
    pose proof (lookup_weaken _ _ _ _ Ht (ok_tabs _ _ _ Hok)) as HT.
    eapply same_view; try done; [by apply Hw; [eapply Hnt|]|]. intros Hpr Hz _. unfold w'. cbn [phys].
    rewrite page_at_set, decide_False; [done|]. intros E.
    pose proof (i_pte _ _ _ Hi _ _ _ _ HT Hj' Hpr) as Hm. destruct (dats w !! (m, lin_page m i' j')) as [g|] eqn:Eg.
    + destruct Hm as [Hg _]. assert (g = f) as -> by congruence.
      assert ((m, lin_page m i' j') ≠ (n, lin_page n i j)) as Hk.
      { intros [= -> El]. apply Hne. destruct (lin_page_inj n i' j' i j) as [-> ->]; done. }
      rewrite (i_count _ _ _ Hi f Hp) in Hc. pose proof (vocc_two _ _ _ _ Eg Hd Hk).
      pose proof (vocc_nonneg T f). pose proof (occ_nonneg held f). lia.
    + unfold pool in Hp. lia.
  - by apply Hent.
  - unfold mapped, content. rewrite Hent by done. intros -> ->. unfold pool in Hp. rewrite (proj2 (Z.eqb_neq _ _)) by lia.
    unfold w'. cbn [phys andb negb]. by rewrite page_at_set, decide_True.
Qed.

Record write_result (w w' : World) (held : list Z) (n : nat) (i j : Z) : Prop := {
  wr_ok : ok (tabs w') w' held;
  wr_writable : mapped w' n i j = true ∧ writable (entry_of w' n i j) = true;
  wr_content : content w' n i j = Some (page_at (phys w) (entry_ppn (entry_of w n i j)));
  wr_others : others_same w w' n i j;
  wr_live : ∀ m, is_Some (spaces w' !! m) ↔ is_Some (spaces w !! m);
  wr_count : ∀ q, count (phys w) q ≠ 0 → (∀ k, dats w !! k ≠ Some q) → count (phys w') q = count (phys w) q;
}.

Lemma grant_facts e f : is_uint 32 e → is_present e = true → entry_ppn e = f →
  let x := new_entry f (Z.lor (flags e) WRITABLE) in
  is_uint 32 x ∧ is_present x = true ∧ entry_ppn x = f ∧ writable x = true.
Proof.
  intros Hu Hp <- x. assert (is_uint 9 (flags e)) as Hfl.
  { apply bits_uint; [done|]. intros k Hk. unfold flags. change ALL_FLAGS with (Z.ones 9).
    rewrite Z.land_spec, Z.ones_spec_high by lia. apply andb_false_r. }
  assert (is_uint 9 (Z.lor (flags e) WRITABLE)) as Hl by (by apply lor_uint).
  destruct (new_entry_eq (entry_ppn e) (Z.lor (flags e) WRITABLE)) as (? & ? & Hb).
  - by apply entry_ppn_uint.
  - unfold is_uint in *. lia.
  - fold x in H, H0, Hb. split_and!; [done| |done|].
    + rewrite present_bit in *. rewrite Hb, Z.lor_spec by done. unfold flags. change ALL_FLAGS with (Z.ones 9).
      by rewrite Z.land_spec, Hp, Z.ones_spec_low by done.
    + rewrite writable_bit, Hb, Z.lor_spec by done. apply orb_true_r.
Qed.
(** An entry rewritten in place, its handle kept. *)
Lemma rewrite_entry T w held n i j t f x :
  ok T w held → slot_ok w n i j → tabs w !! (n, i) = Some t → dats w !! (n, lin_page n i j) = Some f →
  is_uint 32 x → is_present x = true → entry_ppn x = f → (writable x = true → count (phys w) f = 1) →
  let w' := set_word t j x w in
  ok T w' held ∧ entry_of w' n i j = x ∧ others_same w w' n i j ∧ (∀ q, q ≠ t → page_at (phys w') q = page_at (phys w) q) ∧
  (∀ q, count (phys w') q = count (phys w) q) ∧ tabs w' = tabs w ∧ dats w' = dats w ∧ spaces w' = spaces w.
Proof.
  intros Hok (Hlive & Hn & Hir & Hj) Ht Hd Hx Hpx Hfx Hsole w'. pose proof (ok_inv _ _ _ Hok) as Hi.
  pose proof (lookup_weaken _ _ _ _ Ht (ok_tabs _ _ _ Hok)) as HT.
  assert (spaces w' = spaces w) as Hs by (unfold w'; by rewrite set_word_eq). destruct (tabs_spaces _ _ Hs) as [Ht' Hd'].
  assert (∀ q, count (phys w') q = count (phys w) q) as Hc by (intros q; unfold w'; by rewrite set_word_eq).
  assert (∀ q k, 0 ≤ k < 1024 → word w' q k = if decide (q = t ∧ k = j) then x else word w q k) as Hw.
  { intros q k Hk. unfold w'. by apply word_after_set; [apply Hi|..]. }
  assert (∀ q, q ≠ t → page_at (phys w') q = page_at (phys w) q) as Hpage by (intros; by apply page_set_word).
  assert (inv T w' held) as Hinv.
  { apply (entry_inv T w w' held held n i t j x (Some f)); try done.
    - by apply set_word_phys; [apply Hi|].
    - intros k u j' _ Hj'. by apply Hw.
    - rewrite Hd'. symmetry. exact (insert_id (dats w) (n, lin_page n i j) f Hd).
    - apply (i_held _ _ _ Hi).
    - intros q. rewrite Hc. by apply (i_reserved _ _ _ Hi).
    - intros q. rewrite Hc, Hd'. by apply (i_count _ _ _ Hi).
    - intros [n' i'] u Hu. rewrite Hc. by apply (i_tab _ _ _ Hi _ _ _ Hu).
    - split_and!; [by apply (i_dat _ _ _ Hi _ _ _ Hd)|done|done|by rewrite Hc|].
      intros m lin E. by apply (i_once _ _ _ Hi m n lin (lin_page n i j) f). }
  split_and!; try done.
  - destruct (i_tab _ _ _ Hi _ _ _ HT) as (Hpt & _). unfold pool in Hpt.
    eapply ok_same; try done. intros q k Hq Hk. rewrite Hw by done. rewrite decide_False; [done|]. lia.
  - unfold entry_of. rewrite Ht', Ht, Hw, decide_True by done. done.
  - intros m i' j' Hj' Hne. destruct (tabs w !! (m, i')) as [u|] eqn:Hu.
    2:{ unfold same_at, content, entry_of. by rewrite Ht', Hu. }
    pose proof (lookup_weaken _ _ _ _ Hu (ok_tabs _ _ _ Hok)) as HU.
    eapply same_view; try done.
    + rewrite Hw, decide_False; [done| |done]. intros [-> ->].
      destruct (tab_sole _ _ _ _ _ _ Hi HT) as (_ & Huniq & _). apply Huniq in HU. congruence.
    + intros Hp Hz _. apply Hpage. intros E. eapply mapped_not_table in Hp; [|done..]. apply Hp. rewrite E. exact HT.
Qed.

Lemma ensure_page_writable_spec w held n i j :
  ok (tabs w) w held → slot_ok w n i j → mapped w n i j = true →
  ∃ r w', ensure_page_writable n (lin_page n i j) w = (r, w') ∧
    (r = Ok () ∧ write_result w w' held n i j ∨ r = Err NOMEM ∧ w' = w ∧ no_frames w).
Proof.
  intros Hok Hs Hm. destruct (Hs) as (Hlive & Hn & Hir & Hj). pose proof (ok_inv _ _ _ Hok) as Hi.
  destruct (entry_facts _ _ _ _ _ _ Hok Hs Hm) as (t & Ht & He & Hu & Hp & _). set (e := word w t j) in *.
  unfold ensure_page_writable. rewrite (bind_Ok _ _ _ _ _ (pte_spec _ _ _ _ _ _ Hok Hs)), Ht. fold e.
  erewrite bind_Ok by reflexivity. rewrite (ppn_of_phys e Hu). erewrite bind_Ok by reflexivity.
  rewrite (phys_addr_ppn e Hu), low_mem_addr by (by apply entry_ppn_uint).
  pose proof (i_pte _ _ _ Hi _ _ _ _ Ht Hj Hp) as Hpte. fold e in Hpte.
  assert ((if 512 <=? entry_ppn e then on_phys (ref_count (entry_ppn e)) else mok 0) w =
    (Ok (if 512 <=? entry_ppn e then count (phys w) (entry_ppn e) else 0), w)) as Hrc.
  { destruct (Z.leb_spec 512 (entry_ppn e)) as [Hlow|]; [|done]. destruct (dats w !! _) as [f|] eqn:Hd; [|lia].
    destruct Hpte as [-> _]. unfold on_phys. destruct (dat_counted _ _ _ _ _ Hi Hd) as [Htr _].
    rewrite (ref_count_spec _ _ (i_phys _ _ _ Hi) Htr). by destruct w. }
  rewrite (bind_Ok _ _ _ _ _ Hrc).
  destruct ((512 <=? entry_ppn e) && ((if 512 <=? entry_ppn e then count (phys w) (entry_ppn e) else 0) =? 1)) eqn:Hone.
  - apply andb_true_iff in Hone as [Hlow Hone]. rewrite Hlow in Hone. apply Z.leb_le in Hlow. apply Z.eqb_eq in Hone.
    destruct (dats w !! (n, lin_page n i j)) as [f|] eqn:Hd; [|lia]. destruct Hpte as [Hf _].
    destruct (grant_facts e f Hu Hp Hf) as (Hx & Hpx & Hfx & Hwx). rewrite Hf.
    rewrite (set_pte_spec _ _ _ _ _ _ _ _ Hok Hs Ht).
    destruct (rewrite_entry _ _ _ _ _ _ _ _ _ Hok Hs Ht Hd Hx Hpx Hfx) as (Hok' & He' & Hoth & Hpg & Hc & Htb & _ & Hsp); [congruence|].
    exists (Ok ()), (set_word t j (new_entry f (Z.lor (flags e) WRITABLE)) w). split; [done|]. left. split; [done|]. split.
    + by rewrite Htb.
    + unfold mapped. by rewrite He'.
    + unfold content. rewrite He', Hpx, Hfx, He. fold e. rewrite Hf. rewrite (proj2 (Z.eqb_neq f 0)) by lia. cbn [andb negb]. f_equal. apply Hpg.
      intros ->. by eapply (data_not_table _ _ _ _ _ Hi Hd).
    + done.
    + by intros m; rewrite Hsp.
    + done.
  - destruct (alloc_frame_spec _ _ _ Hok) as [(f & w1 & Ha & Hok1 & Hf)|[Ha Hno]].
    2:{ rewrite (bind_Err _ _ _ _ _ Ha). exists (Err NOMEM), w. split; [done|]. by right. }
    rewrite (bind_Ok _ _ _ _ _ Ha). destruct (tabs_spaces _ _ (fh_spaces _ _ _ Hf)) as [Ht1 _]. rewrite <- Ht1 in Hok1.
    assert (slot_ok w1 n i j) as Hs1 by (eapply slot_ok_live; [|done]; intros m; by rewrite (fh_spaces _ _ _ Hf)).
    destruct (map_frame_spec w1 held n i j f Hok1) as (w2 & Hrun & Hrm & Hcont);
      [by rewrite (fh_count _ _ _ Hf), decide_True|done|rewrite Ht1, Ht; by eexists|].
    rewrite <- bind_bind, (bind_Ok _ _ _ _ _ Hrun). pose proof (rm_ok _ _ _ _ _ _ _ Hrm) as Hok2.
    destruct (user_rw f (fh_pool _ _ _ Hf)) as (_ & Hpf & Hff & Hwf). pose proof (rm_entry _ _ _ _ _ _ _ Hrm) as He2.
    assert (slot_ok w2 n i j) as Hs2 by (eapply slot_ok_live; [apply Hrm|done]).
    assert (mapped w2 n i j = true) as Hm2 by (unfold mapped; by rewrite He2).
    destruct (entry_facts _ _ _ _ _ _ Hok2 Hs2 Hm2) as (t2 & Ht2 & Ee2 & _). rewrite Ee2 in He2.
    pose proof (fh_pool _ _ _ Hf) as Hpool.
    assert (dats w2 !! (n, lin_page n i j) = Some f ∧ count (phys w2) f = 1) as [Hd2 Hc2].
    { pose proof (i_pte _ _ _ (ok_inv _ _ _ Hok2) n i t2 j Ht2 Hj) as Hp2. rewrite He2 in Hp2. specialize (Hp2 Hpf).
      destruct (dats w2 !! _) as [g|]; [|unfold pool in Hpool; lia]. destruct Hp2 as [<- Hw2]. rewrite Hff in *. auto. }
    assert (entry_ppn e ≠ f) as Hnf.
    { intros E. destruct (dats w !! (n, lin_page n i j)) as [g|] eqn:Hd; [|unfold pool in Hpool; lia].
      destruct (dat_counted _ _ _ _ _ Hi Hd) as [_ Hc]. destruct Hpte as [<- _]. rewrite E, (fh_free _ _ _ Hf) in Hc. lia. }
    destruct (set_page_sole _ w2 held n i j f (page_at (phys w2) (entry_ppn e)) Hok2 Hd2 Hc2 (po_pages _ (i_phys _ _ _ (ok_inv _ _ _ Hok2)) _) Hj)
      as (Hok3 & Hoth3 & He3 & Hc3).
    exists (Ok ()), (mkWorld (set_page f (page_at (phys w2) (entry_ppn e)) (phys w2)) (spaces w2)). split; [done|]. left. split; [done|].
    split.
    + exact Hok3.
    + unfold mapped. rewrite He3, Ee2, He2. by split.
    + rewrite Hc3 by (done || by rewrite Ee2, He2). rewrite He. fold e. f_equal.
      rewrite (rm_pages _ _ _ _ _ _ _ Hrm), (fh_page _ _ _ Hf), decide_False; [done|done|].
      intros k. rewrite Ht1. by eapply mapped_not_table.
    + intros m i' j' Hj' Hne. eapply same_at_trans; [by eapply (fresh_same _ _ _ _ _ _ _ _ Hok)|].
      eapply same_at_trans; [by apply Hrm|by apply Hoth3].
    + intros m. cbn [spaces]. rewrite (rm_live _ _ _ _ _ _ _ Hrm). by rewrite (fh_spaces _ _ _ Hf).
    + intros q Hq0 Hd. destruct (tabs_spaces _ _ (fh_spaces _ _ _ Hf)) as [_ Hd1]. change (count (phys w2) q = count (phys w) q).
      rewrite (rm_count _ _ _ _ _ _ _ Hrm) by (by rewrite Hd1). by apply (fresh_count _ _ _ _ Hf).
Qed.
End inv.
Arguments tab_sole {lo hi}.
Arguments free_unowned {lo hi}.
Arguments held_sole {lo hi}.
Arguments alloc_inv {lo hi}.
Arguments dealloc_inv {lo hi}.
Arguments entry_inv {lo hi}.
Arguments install_inv {lo hi}.
Arguments data_inv {lo hi}.
Arguments fresh_word {lo hi}.
Arguments table_in_use {lo hi}.
Arguments mapped_in_use {lo hi}.
Arguments fresh_calm {lo hi}.
Arguments dat_counted {lo hi}.
Arguments data_not_table {lo hi}.
Arguments low_not_table {lo hi}.
Arguments mapped_not_table {lo hi}.
Arguments i_phys {lo hi}.
Arguments i_reserved {lo hi}.
Arguments i_count {lo hi}.
Arguments i_held {lo hi}.
Arguments i_tab {lo hi}.
Arguments i_words {lo hi}.
Arguments i_dat {lo hi}.
Arguments i_pte {lo hi}.
Arguments i_once {lo hi}.
Arguments fh_pool {lo hi}.
Arguments fh_free {lo hi}.
Arguments fh_count {lo hi}.
Arguments fh_page {lo hi}.
Arguments fh_spaces {lo hi}.
Arguments find_pte_spec {lo hi low}.
Arguments pte_spec {lo hi low}.
Arguments set_pte_spec {lo hi low}.
Arguments ok_same {lo hi low}.
Arguments alloc_frame_spec {lo hi low}.
Arguments same_view {lo hi low}.
Arguments calm_view {lo hi low}.
Arguments put_table_spec {lo hi low}.
Arguments ensure_table_spec {lo hi low}.
Arguments remap_spec {lo hi low}.
Arguments fresh_same {lo hi low}.
Arguments pte_entry {lo hi low}.
Arguments drop_held {lo hi low}.
Arguments map_frame_spec {lo hi low}.
Arguments map_page_spec {lo hi low}.
Arguments entry_facts {lo hi low}.
Arguments set_page_sole {lo hi low}.
Arguments rewrite_entry {lo hi low}.
Arguments ensure_page_writable_spec {lo hi low}.
Arguments ok_inv {lo hi low}.
Arguments ok_slots {lo hi low}.
Arguments ok_pdes {lo hi low}.
Arguments ok_tabs {lo hi low}.
Arguments ok_low {lo hi low}.
Arguments rm_ok {lo hi low}.
Arguments rm_tabs {lo hi low}.
Arguments rm_entry {lo hi low}.
Arguments rm_others {lo hi low}.
Arguments rm_pages {lo hi low}.
Arguments rm_live {lo hi low}.
Arguments rm_count {lo hi low}.
Arguments fresh_count {lo hi}.
Arguments mr_ok {lo hi low}.
Arguments mr_others {lo hi low}.
Arguments mr_live {lo hi low}.
Arguments mr_count {lo hi low}.
Arguments mr_result {lo hi low}.
Arguments wr_ok {lo hi low}.
Arguments wr_writable {lo hi low}.
Arguments wr_content {lo hi low}.
Arguments wr_others {lo hi low}.
Arguments wr_live {lo hi low}.
Arguments wr_count {lo hi low}.
Arguments pool_tracked {lo hi}.
Arguments pool_uint {lo hi}.
Arguments user_table {lo hi}.
Arguments user_rw {lo hi}.
End Isolation.
