(* ===== verification/Fork.v ===== *)
(** * Sharing frames between address spaces

    The operations that give a frame one more owner: [try_share_local_page_from],
    which shares the pages of an executable, and [cow_copy], the copy at a fork;
    and [drop], which gives a space's frames back. *)

From S2P Require Import Prelude Frame Space Isolation.
From stdpp Require Import gmap.
Open Scope kmonad_scope.
Open Scope Z_scope.

Module Fork.
Import Frame Space Isolation.

Section inv.
Context (lo hi : Z) (low : Z → Z → Z).
Local Abbreviation pool := (Isolation.pool lo hi).
Local Abbreviation inv := (Isolation.inv lo hi).
Local Abbreviation ok := (Isolation.ok lo hi low).

(** ** Sharing a frame *)

Definition sole_held (w : World) (held : list Z) : Prop := ∀ f, f ∈ held → count (phys w) f = 1.

(** At most one page of each slot has the frame. *)
Lemma shares_bound T w held f : inv T w held → vocc (dats w) f ≤ 64.
Proof.
  intros Hi. unfold vocc. set (m := filter (λ kv : (nat * Z) * Z, kv.2 = f) (dats w)).
  assert (∀ k v, m !! k = Some v → v = f ∧ dats w !! k = Some f) as Hm.
  { intros k v Hk. apply map_lookup_filter_Some in Hk as [Hk E]. simpl in E. by subst v. }
  assert (NoDup ((λ kv : (nat * Z) * Z, kv.1.1) <$> map_to_list m)) as Hnd.
  { apply NoDup_fmap_2_strong; [|apply NoDup_map_to_list]. intros [[n l] v] [[n' l'] v'] H1 H2 E. simpl in E. subst n'.
    apply elem_of_map_to_list, Hm in H1 as [-> H1]. apply elem_of_map_to_list, Hm in H2 as [-> H2].
    pose proof (i_once _ _ _ Hi _ _ _ _ _ H1 H2) as E. unfold offset in E. do 2 f_equal. lia. }
  assert (((λ kv : (nat * Z) * Z, kv.1.1) <$> map_to_list m) ⊆+ seq 0 64) as Hsub.
  { apply NoDup_submseteq; [done|]. intros n [[[n' l] v] [-> Hk]]%list_elem_of_fmap. cbn [fst snd].
    apply elem_of_map_to_list, Hm in Hk as [-> Hk]. destruct (i_dat _ _ _ Hi _ _ _ Hk) as (_ & i & j & t & _ & _ & HT & _).
    destruct (i_tab _ _ _ Hi _ _ _ HT) as (_ & _ & Hn & _). apply elem_of_seq. lia. }
  apply submseteq_length in Hsub. rewrite length_fmap, length_map_to_list, length_seq in Hsub. lia.
Qed.

(** A count never leaves its byte. *)
Lemma share_count T w held k f : inv T w held → sole_held w held → dats w !! k = Some f →
  count (phys w) f = vocc (dats w) f ∧ as_u8 (count (phys w) f + 1) = count (phys w) f + 1.
Proof.
  intros Hi Hex Hf. destruct k as [n lin]. destruct (i_dat _ _ _ Hi _ _ _ Hf) as (Hp & _).
  assert (count (phys w) f = vocc (dats w) f) as E.
  { pose proof (i_count _ _ _ Hi f Hp) as Hc. rewrite (vocc_zero T) in Hc by (by eapply data_not_table).
    rewrite occ_zero in Hc; [lia|]. intros Hin. pose proof (Hex f Hin). pose proof (occ_pos held f Hin).
    pose proof (vocc_pos _ _ _ Hf). lia. }
  split; [done|]. pose proof (shares_bound _ _ _ f Hi). pose proof (vocc_nonneg (dats w) f).
  apply wrap_small. unfold is_uint. lia.
Qed.

(** The second half of a share: the entry, the count and the handle. *)
Definition share_state (m : nat) (lin u j x f : Z) (ms : MemorySpace) (w : World) : World :=
  let w1 := set_word u j x w in
  set_space m (with_frame lin f ms)
    (mkWorld (set_count (f - 512) (count (phys w) f + 1) (phys w1)) (spaces w1)).

Lemma share_dst T w held n m i j t u f x ms :
  ok T w held → sole_held w held → 0 ≤ j < 1024 →
  T !! (n, i) = Some t → dats w !! (n, lin_page n i j) = Some f →
  T !! (m, i) = Some u → spaces w !! m = Some ms → dats w !! (m, lin_page m i j) = None →
  writable (word w t j) = false →
  is_uint 32 x → is_present x = true → entry_ppn x = f → writable x = false →
  let w' := share_state m (lin_page m i j) u j x f ms w in
  ok T w' held ∧ sole_held w' held ∧ tabs w' = tabs w ∧
  (∀ q k, 0 ≤ k < 1024 → word w' q k = if decide (q = u ∧ k = j) then x else word w q k) ∧
  (∀ q, q ≠ u → page_at (phys w') q = page_at (phys w) q) ∧
  dats w' = <[(m, lin_page m i j) := f]> (dats w) ∧
  (∀ q, count (phys w') q = count (phys w) q + (if decide (q = f) then 1 else 0)) ∧
  (∀ k, is_Some (spaces w' !! k) ↔ is_Some (spaces w !! k)).
Proof.
  intros Hok Hex Hj Ht Hf Hu Hms Hnone Hnw Hx Hpx Hfx Hwx w'. pose proof (ok_inv _ _ _ Hok) as Hi.
  set (w1 := set_word u j x w). set (w2 := mkWorld (set_count (f - 512) (count (phys w) f + 1) (phys w1)) (spaces w1)).
  assert (spaces w1 = spaces w) as Hs by (unfold w1; by rewrite set_word_eq).
  destruct (tabs_spaces _ _ Hs) as [Ht1 Hd1]. assert (phys_ok (phys w1)) as Hp1 by (by apply set_word_phys; [apply Hi|]).
  destruct (dat_counted _ _ _ _ _ Hi Hf) as [Htr Hpos]. destruct (share_count _ _ _ _ _ Hi Hex Hf) as [Hcf H8].
  assert (spaces w2 !! m = Some ms) as Hms2 by (unfold w2; cbn [spaces]; by rewrite Hs).
  destruct (dats_with_frame w2 m (lin_page m i j) f ms Hms2) as [Hd' Ht'].
  change (dats w2) with (dats w1) in Hd'. change (tabs w2) with (tabs w1) in Ht'. rewrite Hd1 in Hd'. rewrite Ht1 in Ht'.
  change (set_space m (with_frame (lin_page m i j) f ms) w2) with w' in Hd', Ht'.
  assert (∀ q, count (phys w') q = count (phys w) q + (if decide (q = f) then 1 else 0)) as Hc.
  { intros q. change (phys w') with (phys w2). unfold w2. cbn [phys]. rewrite count_set_count by done.
    assert (count (phys w1) q = count (phys w) q) as -> by (unfold w1; by rewrite set_word_eq). case_decide; subst; lia. }
  assert (∀ q k, 0 ≤ k < 1024 → word w' q k = if decide (q = u ∧ k = j) then x else word w q k) as Hw.
  { intros q k Hk. change (word w' q k) with (word w1 q k). by apply word_after_set; [apply Hi|..]. }
  assert (∀ q, q ≠ u → page_at (phys w') q = page_at (phys w) q) as Hpage.
  { intros q Hq. change (page_at (phys w') q) with (page_at (phys w1) q). by apply page_set_word. }
  assert (pool f) as Hpf by (by apply (i_dat _ _ _ Hi _ _ _ Hf)).
  assert (∀ k v, T !! k = Some v → v ≠ f) as Htf by (intros k v E ->; by eapply data_not_table).
  assert (f ∉ held) as Hfh.
  { intros Hin. pose proof (Hex f Hin) as E1. rewrite (i_count _ _ _ Hi f Hpf) in E1. pose proof (occ_pos held f Hin).
    pose proof (vocc_pos _ _ _ Hf). pose proof (vocc_nonneg T f). lia. }
  assert (inv T w' held) as Hinv.
  { apply (entry_inv T w w' held held m i u j x (Some f)); try done.
    - change (phys w') with (phys w2). unfold w2. cbn [phys]. apply set_count_ok; [done|]. rewrite <- H8. by apply wrap_bound.
    - intros k v j' _ Hj'. by apply Hw.
    - apply (i_held _ _ _ Hi).
    - intros q Hq Hnp. rewrite Hc, decide_False by (by intros ->). rewrite Z.add_0_r. by apply (i_reserved _ _ _ Hi).
    - intros q Hq. rewrite Hc, Hd', vocc_insert, (i_count _ _ _ Hi q Hq) by done. repeat case_decide; subst; done || lia.
    - intros [n' i'] v Hv. rewrite Hc, decide_False by (by eapply Htf). rewrite Z.add_0_r. by apply (i_tab _ _ _ Hi _ _ _ Hv).
    - intros n' i' v j' q Hv Hj' Hne Hq Hwr Hq1. rewrite Hc. case_decide as E; [exfalso|lia]. subst q.
      destruct (decide ((n', lin_page n' i' j') = (n, lin_page n i j))) as [Ek|Hk].
      + injection Ek as -> El. destruct (lin_page_inj n i' j' i j) as [-> ->]; [done..|]. assert (v = t) as -> by congruence. congruence.
      + pose proof (vocc_two _ _ _ _ Hq Hf Hk). lia.
    - split_and!; [done|done|done|by rewrite Hwx|]. intros k lin E.
      rewrite (i_once _ _ _ Hi _ _ _ _ _ E Hf). unfold offset, lin_page. lia. }
  destruct (table_in_use _ _ _ _ _ _ Hi Hu) as [Hu0 _]. destruct (i_tab _ _ _ Hi _ _ _ Hu) as (Hpu & _).
  split_and!; try done.
  - destruct Hok as [_ Hsl Hpd Htb Hlow]. split; [done| | |by rewrite Ht'|].
    + intros k ms'. change (spaces w') with (<[m := with_frame (lin_page m i j) f ms]> (spaces w1)). rewrite Hs.
      intros [[<- <-]|[_ Hk]]%lookup_insert_Some; [by apply Hsl in Hms|by apply Hsl].
    + intros k i' Hk Hi'. rewrite Ht', Hw, decide_False by (lia || intros []; done). by apply Hpd.
    + intros q k Hq Hk Hz. rewrite Hw, decide_False by (done || (unfold pool in Hpu; lia)). by apply Hlow.
  - intros q Hq. rewrite Hc, decide_False by (by intros ->). rewrite Z.add_0_r. by apply Hex.
  - intros k. change (spaces w') with (<[m := with_frame (lin_page m i j) f ms]> (spaces w1)). rewrite Hs.
    destruct (decide (k = m)) as [->|]; [rewrite lookup_insert_eq, Hms; split; by eexists|by rewrite lookup_insert_ne].
Qed.

(** The steps that lead there. *)
Lemma share_run T w held k m u j x f lin ms :
  inv T w held → sole_held w held → dats w !! k = Some f → 0 ≤ j < 1024 →
  spaces w !! m = Some ms → data_frames ms !! lin = None →
  (g <- on_phys (share f);; insert_frame m lin g) (set_word u j x w) = (Ok (), share_state m lin u j x f ms w).
Proof.
  intros Hi Hex Hf Hj Hms Hnone. destruct (share_count _ _ _ _ _ Hi Hex Hf) as [_ H8].
  destruct (dat_counted _ _ _ _ _ Hi Hf) as [Htr Hpos].
  assert (phys_ok (phys (set_word u j x w))) as Hp by (by apply set_word_phys; [apply Hi|]).
  assert (count (phys (set_word u j x w)) f = count (phys w) f) as Hc by (by rewrite set_word_eq).
  destruct (share_spec _ f Hp Htr) as [Hrun Hp']; [by rewrite Hc|]. rewrite Hc, H8 in Hrun, Hp'.
  erewrite bind_Ok by (unfold on_phys; rewrite Hrun; reflexivity).
  rewrite (insert_frame_run m lin f ms); [|cbn [spaces]; by rewrite set_word_eq|done|by intros g; rewrite Hnone].
  unfold with_handle, share_state. by rewrite Hnone.
Qed.

(** Nobody else sees a difference. *)
Lemma share_others T w held m i j u x f ms :
  ok T w held → T !! (m, i) = Some u → 0 ≤ j < 1024 →
  let w' := share_state m (lin_page m i j) u j x f ms w in
  tabs w' = tabs w →
  (∀ q k, 0 ≤ k < 1024 → word w' q k = if decide (q = u ∧ k = j) then x else word w q k) →
  (∀ q, q ≠ u → page_at (phys w') q = page_at (phys w) q) →
  others_same w w' m i j.
Proof.
  intros Hok Hu Hj w' Ht Hw Hpage p i' j' Hj' Hne. pose proof (ok_inv _ _ _ Hok) as Hi.
  destruct (tabs w !! (p, i')) as [v|] eqn:Hv; [|unfold same_at, content, entry_of; by rewrite Ht, Hv].
  pose proof (lookup_weaken _ _ _ _ Hv (ok_tabs _ _ _ Hok)) as HV.
  eapply same_view; [done|done|by rewrite Ht|done| |].
  - rewrite Hw, decide_False; [done| |done]. intros [-> ->].
    destruct (tab_sole _ _ _ _ _ _ Hi Hu) as (_ & Huniq & _). apply Huniq in HV. congruence.
  - intros Hp Hz _. apply Hpage. intros E. eapply mapped_not_table in Hp; [|done..]. apply Hp. rewrite E. exact Hu.
Qed.

(** ** Views *)

(** A page whose contents are as before and whose entry at most lost the right
    to write. *)
Definition view (w w' : World) (n : nat) (i j : Z) : Prop :=
  content w' n i j = content w n i j ∧
  (entry_of w' n i j = entry_of w n i j ∨ entry_of w' n i j = without_writable (entry_of w n i j)).

Lemma same_at_view w w' n i j : same_at w w' n i j → view w w' n i j.
Proof. intros []. split; [done|by left]. Qed.

Lemma without_writable_twice e : without_writable (without_writable e) = without_writable e.
Proof. unfold without_writable. by rewrite <- Z.land_assoc, Z.land_diag. Qed.

Lemma view_trans w1 w2 w3 n i j : view w1 w2 n i j → view w2 w3 n i j → view w1 w3 n i j.
Proof.
  intros [C1 E1] [C2 E2]. split; [congruence|]. destruct E1 as [E1|E1], E2 as [E2|E2]; rewrite E1 in E2;
    [by left|by right|by right|right]. by rewrite without_writable_twice in E2.
Qed.

Lemma view_refl w n i j : view w w n i j.
Proof. split; [done|by left]. Qed.

(** An entry that loses the right to write keeps the page. *)
Lemma cow_content w w' n i j :
  is_uint 32 (entry_of w n i j) → entry_of w' n i j = without_writable (entry_of w n i j) →
  (mapped w n i j = true → entry_ppn (entry_of w n i j) ≠ 0 →
     page_at (phys w') (entry_ppn (entry_of w n i j)) = page_at (phys w) (entry_ppn (entry_of w n i j))) →
  view w w' n i j.
Proof.
  intros Hu He Hpage. split; [|by right]. destruct (without_writable_eq _ Hu) as (_ & Hq & Hp & _).
  unfold content, mapped in *. rewrite He, Hq, Hp. destruct (is_present _); [|done]. cbn [andb].
  destruct (Z.eqb_spec (entry_ppn (entry_of w n i j)) 0); [done|]. cbn [negb]. f_equal. by apply Hpage.
Qed.

Lemma quiet_sole w w' held : (∀ f, f ∈ held → pool f) → sole_held w held → quiet w w' → sole_held w' held.
Proof.
  intros Hp Hex Hq f Hf. rewrite (qt_count _ _ Hq); [by apply Hex|by apply (pool_tracked (lo := lo) (hi := hi)), Hp|].
  by rewrite (Hex f Hf).
Qed.

(** ** Sharing a page of an executable *)

(** A source page that may be shared: present, clean and not low memory. *)
Definition shareable (e : Z) : bool := is_present e && negb (contains (flags e) DIRTY) && (512 <=? entry_ppn e).

Record share_result (w w' : World) (held : list Z) (m n : nat) (i j : Z) (r : result bool) : Prop := {
  sr_ok : ok (tabs w') w' held;
  sr_sole : sole_held w' held;
  sr_live : ∀ k, is_Some (spaces w' !! k) ↔ is_Some (spaces w !! k);
  sr_others : ∀ p i' j', 0 ≤ j' < 1024 → (p, i', j') ≠ (m, i, j) → view w w' p i' j';
  sr_result :
    match r with
    | Ok true => shareable (entry_of w n i j) = true ∧ mapped w m i j = false ∧
        entry_of w' m i j = without_writable (entry_of w n i j) ∧
        entry_of w' n i j = without_writable (entry_of w n i j) ∧
        content w' m i j = content w n i j
    | Ok false => (shareable (entry_of w n i j) = false ∨ mapped w m i j = true) ∧ same_at w w' m i j
    | Err e => e = NOMEM ∧ w' = w ∧ no_frames w
    | Panic => False
    end;
}.

(** Both pages are there: the source loses the right to write, the target gets
    the entry and a share. *)
Lemma share_pages T w held m n i j t u f :
  ok T w held → sole_held w held → slot_ok w n i j → slot_ok w m i j → m ≠ n →
  tabs w !! (n, i) = Some t → tabs w !! (m, i) = Some u → dats w !! (n, lin_page n i j) = Some f →
  is_present (word w t j) = true → entry_ppn (word w t j) = f → is_present (word w u j) = false →
  let x := without_writable (word w t j) in
  ∃ w', (set_pte n (lin_page n i j) x;;; set_pte m (lin_page m i j) x;;;
         g <- on_phys (share f);; insert_frame m (lin_page m i j) g) w = (Ok (), w') ∧
    ok T w' held ∧ sole_held w' held ∧ tabs w' = tabs w ∧ (∀ k, is_Some (spaces w' !! k) ↔ is_Some (spaces w !! k)) ∧
    (∀ p i' j', 0 ≤ j' < 1024 → (p, i', j') ≠ (m, i, j) → view w w' p i' j') ∧
    entry_of w' m i j = x ∧ entry_of w' n i j = x ∧ content w' m i j = content w n i j.
Proof.
  intros Hok Hex Hsn Hsm Hmn Ht Hu Hf Hp Hppn Hpu x. pose proof (ok_inv _ _ _ Hok) as Hi.
  destruct (Hsn) as (_ & Hn & Hir & Hj). destruct (Hsm) as ([ms Hms] & Hm & _).
  pose proof (lookup_weaken _ _ _ _ Ht (ok_tabs _ _ _ Hok)) as HT. pose proof (lookup_weaken _ _ _ _ Hu (ok_tabs _ _ _ Hok)) as HU.
  pose proof (i_words _ _ _ Hi n i t j HT Hj) as Hw32. destruct (without_writable_eq _ Hw32) as (Hx & Hxp & Hxpr & Hxw).
  fold x in Hx, Hxp, Hxpr, Hxw. rewrite Hp in Hxpr. rewrite Hppn in Hxp.
  assert (t ≠ u) as Htu.
  { intros ->. destruct (tab_sole _ _ _ _ _ _ Hi HT) as (_ & Huniq & _). apply Huniq in HU. congruence. }
  destruct (rewrite_entry _ _ _ _ _ _ _ _ x Hok Hsn Ht Hf Hx Hxpr Hxp) as (Hok1 & He1 & Hoth1 & Hpg1 & Hc1 & Ht1 & Hd1 & Hs1); [congruence|].
  rewrite (bind_Ok _ _ _ _ _ (set_pte_spec _ _ _ _ _ _ _ x Hok Hsn Ht)). set (w1 := set_word t j x w) in *.
  assert (slot_ok w1 m i j) as Hsm1 by (by eapply slot_ok_live; [intros k; by rewrite Hs1|]).
  assert (sole_held w1 held) as Hex1 by (intros q Hq; rewrite Hc1; by apply Hex).
  rewrite <- Ht1 in Hu. rewrite (bind_Ok _ _ _ _ _ (set_pte_spec _ _ _ _ _ _ _ x Hok1 Hsm1 Hu)).
  assert (word w1 t j = x) as Hwt by (unfold w1; by rewrite word_after_set, decide_True by (done || apply Hi)).
  assert (dats w !! (m, lin_page m i j) = None) as Hnone.
  { destruct (dats w !! (m, lin_page m i j)) as [g|] eqn:E; [|done]. destruct (i_dat _ _ _ Hi _ _ _ E) as (_ & i' & j' & v & El & Hj' & HV & Hv & _).
    destruct (lin_page_inj m i j i' j') as [<- <-]; [done..|]. congruence. }
  assert (spaces w1 !! m = Some ms) as Hms1 by (by rewrite Hs1).
  assert (data_frames ms !! lin_page m i j = None) as Hnms by (rewrite dats_lookup, Hms in Hnone; exact Hnone).
  pose proof (ok_inv _ _ _ Hok1) as Hi1. rewrite <- Hd1 in Hf, Hnone.
  rewrite (share_run _ _ _ _ m u j x f (lin_page m i j) ms Hi1 Hex1 Hf Hj Hms1 Hnms).
  destruct (share_dst _ _ _ _ _ i j t u f x ms Hok1 Hex1 Hj HT Hf HU Hms1 Hnone) as (Hok2 & Hex2 & Ht2 & Hw2 & Hpg2 & _ & _ & Hl2);
    [by rewrite Hwt|done..|]. set (w2 := share_state _ _ _ _ _ _ _ _) in *.
  pose proof (share_others _ _ _ _ _ _ _ _ f ms Hok1 HU Hj Ht2 Hw2 Hpg2) as Hoth2.
  assert (entry_of w n i j = word w t j) as He by (unfold entry_of; by rewrite Ht).
  assert (view w w1 n i j) as Hv1.
  { apply cow_content; [by rewrite He|rewrite He; exact He1|]. intros Hmp _. apply Hpg1. rewrite He in *.
    intros E. eapply mapped_not_table; [exact Hi|exact HT|exact Hj|exact Hp|]. rewrite E. exact HT. }
  exists w2. assert (∀ p i' j', 0 ≤ j' < 1024 → (p, i', j') ≠ (m, i, j) → view w w2 p i' j') as Hviews.
  { intros p i' j' Hj' Hne. apply (view_trans _ w1); [|by apply same_at_view, Hoth2].
    destruct (decide ((p, i', j') = (n, i, j))) as [[= -> -> ->]|Hne']; [done|]. by apply same_at_view, Hoth1. }
  split; [done|]. assert (entry_of w2 m i j = x) as Hem.
  { unfold entry_of. by rewrite Ht2, Hu, Hw2, decide_True by done. }
  assert (entry_of w2 n i j = x) as Hen.
  { destruct (Hoth2 n i j Hj) as [E _]; [congruence|]. etrans; [exact E|exact He1]. }
  split_and!; [done|done|by rewrite Ht2|intros k; rewrite Hl2; by rewrite Hs1|done|done|done|].
  destruct (Hviews n i j Hj) as [E _]; [congruence|]. etrans; [|exact E]. unfold content. by rewrite Hem, Hen.
Qed.

Lemma shareable_test e : is_uint 32 e →
  (negb (is_present e) || contains (flags e) DIRTY) = false ∧ (phys_addr e <? LOW_MEM) = false ∧ shareable e = true ∨
  ((negb (is_present e) || contains (flags e) DIRTY) = true ∨ (phys_addr e <? LOW_MEM) = true) ∧ shareable e = false.
Proof.
  intros Hu. unfold shareable. rewrite phys_addr_ppn by done. rewrite Z.ltb_antisym.
  rewrite low_mem_addr by (by apply entry_ppn_uint).
  destruct (is_present e), (contains (flags e) DIRTY), (512 <=? entry_ppn e); cbn; tauto.
Qed.

Lemma try_share_spec w held m n i j :
  ok (tabs w) w held → sole_held w held → slot_ok w n i j → slot_ok w m i j → m ≠ n →
  ∃ r w', try_share_local_page_from m n i j w = (r, w') ∧ share_result w w' held m n i j r.
Proof.
  intros Hok Hex Hsn Hsm Hmn. destruct (Hsn) as ([sms Hsms] & Hn & Hir & Hj). destruct (Hsm) as ([dms Hdms] & Hm & _).
  unfold try_share_local_page_from.
  rewrite (bind_Ok _ _ _ _ _ (space_run _ _ _ Hsms)), (bind_Ok _ _ _ _ _ (space_run _ _ _ Hdms)). cbv zeta.
  destruct (ok_slots _ _ _ Hok _ _ Hsms) as [_ ->]. destruct (ok_slots _ _ _ Hok _ _ Hdms) as [_ ->].
  destruct (lin_page_indices n i j) as (-> & _ & _); [lia|done..|].
  destruct (lin_page_indices m i j) as (-> & Hpde & _); [lia|done..|].
  assert (shareable (entry_of w n i j) = false → share_result w w held m n i j (Ok false)) as Hno.
  { intros Hs. split; [done..|by intros; apply view_refl|]. split; [by left|done]. }
  rewrite (bind_Ok _ _ _ _ _ (pte_spec _ _ _ _ _ _ Hok Hsn)). unfold entry_of in Hno at 1.
  destruct (tabs w !! (n, i)) as [t|] eqn:Ht; [|by exists (Ok false), w; split; [|apply Hno]].
  pose proof (i_words _ _ _ (ok_inv _ _ _ Hok) n i t j Ht Hj) as Hu.
  destruct (shareable_test _ Hu) as [(-> & -> & Hsh)|[Htest Hsh]].
  2:{ destruct (negb _ || _) eqn:E1; [by exists (Ok false), w; split; [|apply Hno]|].
      destruct Htest as [|E2]; [done|]. rewrite E2. exists (Ok false), w. split; [done|by apply Hno]. }
  rewrite Hpde. assert (entry_of w n i j = word w t j) as He by (unfold entry_of; by rewrite Ht).
  destruct (ensure_table_spec w held m i Hok (proj1 Hsm) Hm Hir) as (r & w1 & Hr & Hok1 & Hres).
  destruct Hres as [(-> & Htab & Hq)|(-> & -> & Hnf)].
  2:{ rewrite (bind_Err _ _ _ _ _ Hr). exists (Err NOMEM), w. split; [done|]. split; try done. intros; apply view_refl. }
  rewrite (bind_Ok _ _ _ _ _ Hr). assert (slot_ok w1 m i j) as Hsm1 by (eapply slot_ok_live; [apply Hq|done]).
  assert (slot_ok w1 n i j) as Hsn1 by (eapply slot_ok_live; [apply Hq|done]).
  assert (sole_held w1 held) as Hex1 by (eapply quiet_sole; [apply (i_held _ _ _ (ok_inv _ _ _ Hok))|done|done]).
  rewrite (bind_Ok _ _ _ _ _ (pte_spec _ _ _ _ _ _ Hok1 Hsm1)). destruct Htab as [u Hu1]. rewrite Hu1. cbv iota.
  pose proof (qt_same _ _ Hq m i j Hj) as [Em _]. unfold entry_of in Em at 1. rewrite Hu1 in Em. rewrite Em.
  destruct (is_present (entry_of w m i j)) eqn:Hpm.
  { exists (Ok false), w1. split; [done|]. split; [done|done|apply Hq|intros; by apply same_at_view, Hq|]. split; [by right|by apply Hq]. }
  pose proof (qt_same _ _ Hq n i j Hj) as [En Cn]. rewrite He in En.
  unfold shareable in Hsh. apply andb_true_iff in Hsh as [[Hp Hd]%andb_true_iff Hlow%Z.leb_le].
  destruct (entry_facts _ _ _ _ _ _ Hok1 Hsn1) as (t1 & Ht1 & Ee1 & Hu32 & Hp1 & _); [unfold mapped; by rewrite En|].
  rewrite En in Ee1. pose proof (i_pte _ _ _ (ok_inv _ _ _ Hok1) n i t1 j Ht1 Hj Hp1) as Hpte. rewrite <- Ee1 in Hpte, Hp1.
  destruct (dats w1 !! (n, lin_page n i j)) as [f|] eqn:Hf; [|lia]. destruct Hpte as [Hff _].
  destruct (share_pages _ _ _ m n i j t1 u f Hok1 Hex1 Hsn1 Hsm1 Hmn Ht1 Hu1 Hf) as
    (w2 & Hrun & Hok2 & Hex2 & Ht2 & Hl2 & Hv2 & Em2 & En2 & Cm2); [by rewrite <- Ee1..|by rewrite Em|].
  rewrite <- Ee1 in *. exists (Ok true), w2. split.
  - rewrite ppn_of_phys by done. rewrite Hff. unfold mexpect. rewrite <- bind_bind.
    apply bind_Ok_inv in Hrun as ([] & wa & Ha & Hb). apply bind_Ok_inv in Hb as ([] & wb & Hb & Hc).
    rewrite bind_bind, (bind_Ok _ _ _ _ _ Ha), (bind_Ok _ _ _ _ _ Hb). erewrite bind_Ok by reflexivity.
    by rewrite <- bind_bind, (bind_Ok _ _ _ _ _ Hc).
  - split.
    + by rewrite Ht2.
    + done.
    + intros k. rewrite Hl2. apply Hq.
    + intros p i' j' Hj' Hne. eapply view_trans; [by apply same_at_view, Hq|by apply Hv2].
    + rewrite He. split_and!; [unfold shareable; rewrite Hp, Hd; by apply Z.leb_le|done|done|done|by rewrite Cm2].
Qed.

(** ** Fork: the entries of one table *)

(** An entry of low memory has no handle. *)
Lemma low_entry T w held m i u j x :
  ok T w held → T !! (m, i) = Some u → 0 ≤ j < 1024 → dats w !! (m, lin_page m i j) = None →
  is_uint 32 x → (is_present x = true → entry_ppn x < 512 ∧ writable x = false) →
  ok T (set_word u j x w) held.
Proof.
  intros Hok Hu Hj Hnone Hx Hlow. pose proof (ok_inv _ _ _ Hok) as Hi. set (w' := set_word u j x w).
  assert (spaces w' = spaces w) as Hs by (unfold w'; by rewrite set_word_eq). destruct (tabs_spaces _ _ Hs) as [_ Hd].
  assert (∀ q, count (phys w') q = count (phys w) q) as Hc by (intros q; unfold w'; by rewrite set_word_eq).
  assert (∀ q k, 0 ≤ k < 1024 → word w' q k = if decide (q = u ∧ k = j) then x else word w q k) as Hw.
  { intros q k Hk. by apply word_after_set; [apply Hi|..]. }
  destruct (i_tab _ _ _ Hi _ _ _ Hu) as (Hpu & _). unfold Isolation.pool in Hpu.
  eapply ok_same; [done| |done|done|].
  - apply (entry_inv T w w' held held m i u j x None); try done.
    + by apply set_word_phys; [apply Hi|].
    + intros k v j' _ Hj'. by apply Hw.
    + rewrite Hd. apply map_eq. intros k. destruct (decide (k = (m, lin_page m i j))) as [->|];
        [by rewrite lookup_partial_alter_eq|by rewrite lookup_partial_alter_ne].
    + apply (i_held _ _ _ Hi).
    + intros q. rewrite Hc. by apply (i_reserved _ _ _ Hi).
    + intros q. rewrite Hc, Hd. by apply (i_count _ _ _ Hi).
    + intros [n' i'] v Hv. rewrite Hc. by apply (i_tab _ _ _ Hi _ _ _ Hv).
  - intros q k Hq Hk. rewrite Hw, decide_False by (done || lia). done.
Qed.

(** What becomes of an entry of the parent, and what the child gets. *)
Definition protect (e : Z) : Z := if is_present e && (512 <=? entry_ppn e) then without_writable e else e.
Definition inherit (e : Z) : Z := if is_present e then without_writable e else 0.

(** A table that may be copied: the parent's, or the kernel's for the first
    task, whose first [cnt] entries are of low memory. *)
Definition source (w : World) (n : nat) (i t cnt : Z) : Prop :=
  (is_Some (spaces w !! n) ∧ (0 < n < 64)%nat ∧ tabs w !! (n, i) = Some t) ∨
  0 < t < 512 ∧ ∀ k, 0 ≤ k < cnt → is_uint 32 (word w t k) ∧ (is_present (word w t k) = true → entry_ppn (word w t k) < 512).

(** The first [j] entries have been copied to the table [ct] of [c]. *)
Record copying (T : gmap (nat * Z) Z) (w0 w : World) (held : list Z) (c : nat) (i t ct j : Z) : Prop := {
  cp_ok : ok T w held;
  cp_sole : sole_held w held;
  cp_tabs : tabs w = tabs w0;
  cp_live : ∀ k, is_Some (spaces w !! k) ↔ is_Some (spaces w0 !! k);
  cp_src : ∀ k, 0 ≤ k < 1024 → word w t k = if decide (k < j) then protect (word w0 t k) else word w0 t k;
  cp_dst : ∀ k, 0 ≤ k < 1024 → word w ct k = if decide (k < j) then inherit (word w0 t k) else 0;
  cp_page : ∀ q, (q = t → t < 512) → q ≠ ct → page_at (phys w) q = page_at (phys w0) q;
  cp_none : ∀ k, j ≤ k < 1024 → dats w !! (c, lin_page c i k) = None;
}.

Lemma set_word_comm w p q j k x y : p ≠ q → 0 ≤ j < 1024 → 0 ≤ k < 1024 →
  set_word p j x (set_word q k y w) = set_word q k y (set_word p j x w).
Proof.
  intros Hpq Hj Hk. rewrite !set_word_eq by done. f_equal. cbn [phys]. rewrite !page_at_set, !decide_False by congruence.
  unfold set_page. cbn [mem_map mem]. f_equal. by rewrite insert_insert_ne.
Qed.

Lemma copy_entry_run_low w s cs c i t ct j :
  is_present (word w t j) = true → is_uint 32 (word w t j) → entry_ppn (word w t j) < 512 →
  copy_entry s cs c i t ct j w = (Ok (), set_word ct j (without_writable (word w t j)) w).
Proof.
  intros Hp Hu Hlow. unfold copy_entry. erewrite bind_Ok by reflexivity. rewrite Hp. cbn [negb].
  erewrite bind_Ok by reflexivity. cbv zeta. rewrite low_mem_addr by (by apply entry_ppn_uint).
  by rewrite (proj2 (Z.leb_gt _ _)) by done.
Qed.

Lemma copy_entry_run_high w s cs c i t ct j :
  is_present (word w t j) = true → is_uint 32 (word w t j) → 512 ≤ entry_ppn (word w t j) → t ≠ ct → 0 ≤ j < 1024 →
  let x := without_writable (word w t j) in
  copy_entry s cs c i t ct j w =
    (g <- on_phys (share (entry_ppn (word w t j)));; insert_frame c (from_indices (cs + i) j) g) (set_word ct j x (set_word t j x w)).
Proof.
  intros Hp Hu Hhigh Ht Hj x. unfold copy_entry. erewrite bind_Ok by reflexivity. rewrite Hp. cbn [negb].
  erewrite bind_Ok by reflexivity. cbv zeta. rewrite low_mem_addr by (by apply entry_ppn_uint).
  rewrite (proj2 (Z.leb_le _ _)) by done. erewrite bind_Ok by reflexivity. by rewrite (set_word_comm w t ct) by done.
Qed.

Lemma copying_next T w0 w w' held c i t ct j :
  copying T w0 w held c i t ct j → 0 ≤ j < 1024 →
  ok T w' held → sole_held w' held → tabs w' = tabs w → (∀ k, is_Some (spaces w' !! k) ↔ is_Some (spaces w !! k)) →
  (∀ k, 0 ≤ k < 1024 → word w' t k = if decide (k = j) then protect (word w0 t j) else word w t k) →
  (∀ k, 0 ≤ k < 1024 → word w' ct k = if decide (k = j) then inherit (word w0 t j) else word w ct k) →
  (∀ q, (q = t → t < 512) → q ≠ ct → page_at (phys w') q = page_at (phys w) q) →
  (∀ k, j < k < 1024 → dats w' !! (c, lin_page c i k) = dats w !! (c, lin_page c i k)) →
  copying T w0 w' held c i t ct (j + 1).
Proof.
  intros Hcp Hj Hok Hex Ht Hl Hs Hd Hpg Hn. split; [done|done|by rewrite Ht, (cp_tabs _ _ _ _ _ _ _ _ _ Hcp)| | | | |].
  - intros k. rewrite Hl. apply (cp_live _ _ _ _ _ _ _ _ _ Hcp).
  - intros k Hk. rewrite Hs, (cp_src _ _ _ _ _ _ _ _ _ Hcp) by done. repeat case_decide; subst; done || lia.
  - intros k Hk. rewrite Hd, (cp_dst _ _ _ _ _ _ _ _ _ Hcp) by done. repeat case_decide; subst; done || lia.
  - intros q Hq Hq'. rewrite Hpg by done. by apply (cp_page _ _ _ _ _ _ _ _ _ Hcp).
  - intros k Hk. rewrite Hn by lia. apply (cp_none _ _ _ _ _ _ _ _ _ Hcp). lia.
Qed.

(** An entry of a tracked frame. *)
Lemma copy_high T w0 w held n c i t ct j s :
  copying T w0 w held c i t ct j → slot_ok w n i j → slot_ok w c i j → tabs w !! (n, i) = Some t → T !! (c, i) = Some ct →
  tabs w !! (c, i) = None → word w t j = word w0 t j → is_present (word w0 t j) = true → 512 ≤ entry_ppn (word w0 t j) →
  ∃ w', copy_entry s (Z.of_nat c * PDES_PER_PROCESS) c i t ct j w = (Ok (), w') ∧ copying T w0 w' held c i t ct (j + 1).
Proof.
  intros Hcp Hsn Hsc Ht Hct Hnc He Hp Hhigh. pose proof (cp_ok _ _ _ _ _ _ _ _ _ Hcp) as Hok. pose proof (ok_inv _ _ _ Hok) as Hi.
  destruct (Hsc) as ([ms Hms] & Hc & Hir & Hj). pose proof (lookup_weaken _ _ _ _ Ht (ok_tabs _ _ _ Hok)) as HT.
  assert (t ≠ ct) as Htc.
  { intros ->. destruct (tab_sole _ _ _ _ _ _ Hi HT) as (_ & Huniq & _). apply Huniq in Hct. congruence. }
  rewrite <- He in Hp, Hhigh. pose proof (i_words _ _ _ Hi n i t j HT Hj) as Hu.
  pose proof (i_pte _ _ _ Hi n i t j HT Hj Hp) as Hpte.
  destruct (dats w !! (n, lin_page n i j)) as [f|] eqn:Hf; [|lia]. destruct Hpte as [Hppn _].
  destruct (without_writable_eq _ Hu) as (Hx & Hxp & Hxpr & Hxw). set (x := without_writable (word w t j)) in *.
  destruct (rewrite_entry _ _ _ _ _ _ _ _ x Hok Hsn Ht Hf Hx) as (Hok1 & _ & _ & Hpg1 & Hc1 & Ht1 & Hd1 & Hs1); [congruence..|].
  set (w1 := set_word t j x w) in *.
  assert (∀ q k, 0 ≤ k < 1024 → word w1 q k = if decide (q = t ∧ k = j) then x else word w q k) as Hw1.
  { intros q k Hk. unfold w1. by apply word_after_set; [apply Hi|..]. }
  assert (sole_held w1 held) as Hex1 by (intros q Hq; rewrite Hc1; by apply (cp_sole _ _ _ _ _ _ _ _ _ Hcp)).
  pose proof (ok_inv _ _ _ Hok1) as Hi1. rewrite <- Hd1 in Hf.
  assert (dats w1 !! (c, lin_page c i j) = None) as Hnone by (rewrite Hd1; apply (cp_none _ _ _ _ _ _ _ _ _ Hcp); lia).
  assert (spaces w1 !! c = Some ms) as Hms1 by (by rewrite Hs1).
  assert (data_frames ms !! lin_page c i j = None) as Hnms by (rewrite dats_lookup, Hms1 in Hnone; exact Hnone).
  destruct (share_dst _ _ _ _ _ i j t ct f x ms Hok1 Hex1 Hj HT Hf Hct Hms1 Hnone) as (Hok2 & Hex2 & Ht2 & Hw2 & Hpg2 & Hd2 & _ & Hl2);
    [by rewrite Hw1, decide_True|done|congruence|congruence|done|].
  eexists. split.
  - rewrite copy_entry_run_high by done. change PDES_PER_PROCESS with 16. replace (Z.of_nat c * 16 + i) with (16 * Z.of_nat c + i) by lia.
    destruct (lin_page_indices c i j) as (-> & _ & _); [lia|done..|]. fold x w1. rewrite Hppn.
    by apply (share_run _ _ _ _ c ct j x f (lin_page c i j) ms Hi1 Hex1 Hf).
  - assert (protect (word w0 t j) = x) as Hpx by (unfold protect; rewrite <- He, Hp; by rewrite (proj2 (Z.leb_le _ _))).
    assert (inherit (word w0 t j) = x) as Hix by (unfold inherit; by rewrite <- He, Hp).
    apply (copying_next _ _ w); try done.
    + intros k Hk. etrans; [by apply Hw2|]. rewrite Hw1, Hpx by done. repeat case_decide; try done; naive_solver.
    + intros k Hk. etrans; [by apply Hw2|]. rewrite Hw1, Hix by done. repeat case_decide; try done; naive_solver.
    + intros q Hq Hq'. etrans; [by apply Hpg2|]. apply Hpg1. intros E. specialize (Hq E).
      destruct (i_tab _ _ _ Hi _ _ _ HT) as (Hpt & _). unfold Isolation.pool in Hpt. lia.
    + intros k Hk. etrans; [by rewrite Hd2|]. rewrite Hd1, lookup_insert_ne; [done|]. unfold lin_page. intros [=]. lia.
Qed.

Lemma source_facts T w0 w held n c i t ct j cnt :
  copying T w0 w held c i t ct j → source w0 n i t cnt → 0 ≤ j < cnt → cnt ≤ 1024 → 0 ≤ i < 16 →
  T !! (c, i) = Some ct → tabs w0 !! (c, i) = None →
  t ≠ ct ∧ is_uint 32 (word w0 t j) ∧ word w t j = word w0 t j ∧
  (is_present (word w0 t j) = true → 512 ≤ entry_ppn (word w0 t j) → slot_ok w n i j ∧ tabs w !! (n, i) = Some t).
Proof.
  intros Hcp Hs Hj Hcnt Hir Hct Hnc. pose proof (cp_ok _ _ _ _ _ _ _ _ _ Hcp) as Hok. pose proof (ok_inv _ _ _ Hok) as Hi.
  assert (word w t j = word w0 t j) as He by (rewrite (cp_src _ _ _ _ _ _ _ _ _ Hcp), decide_False by lia; done).
  destruct (i_tab _ _ _ Hi _ _ _ Hct) as (Hpool & _). destruct Hs as [(Hl & Hn & Ht)|[Ht Hent]].
  - rewrite <- (cp_tabs _ _ _ _ _ _ _ _ _ Hcp) in Ht, Hnc. pose proof (lookup_weaken _ _ _ _ Ht (ok_tabs _ _ _ Hok)) as HT.
    split_and!; [|rewrite <- He; by apply (i_words _ _ _ Hi n i); [|lia]|done|].
    + intros ->. destruct (tab_sole _ _ _ _ _ _ Hi HT) as (_ & Huniq & _). apply Huniq in Hct. congruence.
    + intros _ _. split; [|done]. split; [by apply (cp_live _ _ _ _ _ _ _ _ _ Hcp)|lia].
  - destruct (Hent j Hj) as [Hu Hl]. unfold Isolation.pool in Hpool. split_and!; [lia|done|done|]. intros Hp Hh. specialize (Hl Hp). lia.
Qed.

Lemma copy_entry_spec T w0 w held n c i t ct j cnt s :
  copying T w0 w held c i t ct j → source w0 n i t cnt → 0 ≤ j < cnt → cnt ≤ 1024 → 0 ≤ i < 16 → (0 < c < 64)%nat →
  is_Some (spaces w0 !! c) → T !! (c, i) = Some ct → tabs w0 !! (c, i) = None →
  ∃ w', copy_entry s (Z.of_nat c * PDES_PER_PROCESS) c i t ct j w = (Ok (), w') ∧ copying T w0 w' held c i t ct (j + 1).
Proof.
  intros Hcp Hs Hj Hcnt Hir Hc Hl Hct Hnc. pose proof (cp_ok _ _ _ _ _ _ _ _ _ Hcp) as Hok. pose proof (ok_inv _ _ _ Hok) as Hi.
  destruct (source_facts _ _ _ _ _ _ _ _ _ _ _ Hcp Hs Hj Hcnt Hir Hct Hnc) as (Htc & Hu & He & Hhi).
  destruct (is_present (word w0 t j)) eqn:Hp.
  2:{ exists w. split; [unfold copy_entry; erewrite bind_Ok by reflexivity; by rewrite He, Hp|].
      apply (copying_next _ _ w); try done; [lia|by apply (cp_sole _ _ _ _ _ _ _ _ _ Hcp)| |].
      - intros k Hk. case_decide; [|done]. subst. unfold protect. by rewrite Hp.
      - intros k Hk. case_decide; [|done]. subst. unfold inherit. rewrite Hp.
        rewrite (cp_dst _ _ _ _ _ _ _ _ _ Hcp), decide_False by lia. done. }
  destruct (decide (512 ≤ entry_ppn (word w0 t j))) as [Hhigh|Hlow].
  { destruct (Hhi eq_refl Hhigh) as [Hsn Ht]. eapply (copy_high T w0 w held n); try done.
    - split; [by apply (cp_live _ _ _ _ _ _ _ _ _ Hcp)|lia].
    - by rewrite (cp_tabs _ _ _ _ _ _ _ _ _ Hcp). }
  destruct (without_writable_eq _ Hu) as (Hx & Hxp & Hxpr & Hxw). set (x := without_writable (word w0 t j)) in *.
  exists (set_word ct j x w). split; [unfold x; rewrite <- He; apply copy_entry_run_low; rewrite He; done || lia|].
  assert (spaces (set_word ct j x w) = spaces w) as Hsp by (by rewrite set_word_eq by lia). destruct (tabs_spaces _ _ Hsp) as [Ht Hd].
  assert (∀ q k, 0 ≤ k < 1024 → word (set_word ct j x w) q k = if decide (q = ct ∧ k = j) then x else word w q k) as Hw.
  { intros q k Hk. by apply word_after_set; [apply Hi|lia|]. }
  apply (copying_next _ _ w); try done.
  - lia.
  - eapply low_entry; try done; [lia|apply (cp_none _ _ _ _ _ _ _ _ _ Hcp); lia|]. intros _. split; [lia|done].
  - intros q Hq. rewrite set_word_eq by lia. by apply (cp_sole _ _ _ _ _ _ _ _ _ Hcp).
  - intros k Hk. rewrite Hw, decide_False by (done || by intros []). case_decide; [|done]. subst k. rewrite He.
    unfold protect. by rewrite Hp, (proj2 (Z.leb_gt _ _)) by lia.
  - intros k Hk. rewrite Hw by done. unfold inherit. rewrite Hp. repeat case_decide; try done; naive_solver.
  - intros q _ Hq. apply page_set_word; [lia|done].
Qed.

(** All entries of a table. *)
Lemma copy_entries_spec T w0 w held n c i t ct cnt s (m : nat) j :
  copying T w0 w held c i t ct j → source w0 n i t cnt → 0 ≤ j → j + Z.of_nat m = cnt → cnt ≤ 1024 → 0 ≤ i < 16 → (0 < c < 64)%nat →
  is_Some (spaces w0 !! c) → T !! (c, i) = Some ct → tabs w0 !! (c, i) = None →
  ∃ w', mfor (seqZ j (Z.of_nat m)) (copy_entry s (Z.of_nat c * PDES_PER_PROCESS) c i t ct) w = (Ok (), w') ∧
    copying T w0 w' held c i t ct cnt.
Proof.
  intros Hcp Hs Hj Hm Hcnt Hir Hc Hl Hct Hnc. revert w j Hcp Hj Hm. induction m as [|m IH]; intros w j Hcp Hj Hm.
  { exists w. split; [done|]. by replace cnt with j by lia. }
  rewrite seqZ_cons by lia. cbn [mfor].
  destruct (copy_entry_spec _ _ _ _ _ _ _ _ _ j _ s Hcp Hs) as (w1 & Hr & Hcp1); [lia|done..|].
  rewrite (bind_Ok _ _ _ _ _ Hr). replace (Z.pred (Z.of_nat (S m))) with (Z.of_nat m) by lia.
  destruct (IH w1 (Z.succ j)) as (w2 & Hr2 & Hcp2); [done|lia..|]. by exists w2.
Qed.

(** ** Fork: one block *)

(** The walk of the hardware: the entry of a linear page by way of the
    directory. *)
Definition walk (w : World) (n : nat) (i j : Z) : Z :=
  let pde := word w 0 (16 * Z.of_nat n + i) in
  if is_present pde then word w (entry_ppn pde) j else 0.

(** What a task finds at a page. *)
Definition seen (w : World) (n : nat) (i j : Z) : option Page :=
  let e := walk w n i j in
  if is_present e && negb (entry_ppn e =? 0) then Some (page_at (phys w) (entry_ppn e)) else None.

Lemma walk_entry T w held n i j : ok T w held → (0 < n < 64)%nat → 0 ≤ i < 16 →
  walk w n i j = entry_of w n i j ∧ seen w n i j = content w n i j.
Proof.
  intros Hok Hn Hi. assert (walk w n i j = entry_of w n i j) as E; [|unfold seen, content; by rewrite E].
  unfold walk, entry_of. cbv zeta. pose proof (ok_pdes _ _ _ Hok n i Hn Hi) as Hp. destruct (tabs w !! (n, i)) as [t|] eqn:Ht.
  - assert (pool t) as Hpt.
    { apply (i_tab _ _ _ (ok_inv _ _ _ Hok) n i). by eapply lookup_weaken; [|apply (ok_tabs _ _ _ Hok)]. }
    rewrite Hp. by destruct (user_table t Hpt) as [-> ->].
  - by rewrite Hp.
Qed.

(** The kernel's first page table maps low memory. *)
Definition kernel_map : Prop :=
  is_uint 32 (low 0 0) ∧ 0 < entry_ppn (low 0 0) < 512 ∧
  ∀ k, 0 ≤ k < 160 → is_uint 32 (low (entry_ppn (low 0 0)) k) ∧
    (is_present (low (entry_ppn (low 0 0)) k) = true → entry_ppn (low (entry_ppn (low 0 0)) k) < 512).

(** The spaces that can be copied, and how many entries of a table are. *)
Definition entries_of (n : nat) : Z := if (n =? 0)%nat then 160 else 1024.
Definition parent_ok (w : World) (n : nat) (i : Z) : Prop :=
  (0 < n < 64)%nat ∧ is_Some (spaces w !! n) ∧ 0 ≤ i < 16 ∨ n = 0%nat ∧ i = 0 ∧ kernel_map.

Lemma entry_count n : (n < 64)%nat → (if 16 * Z.of_nat n =? 0 then TASK0_PAGE_COUNT else ENTRIES_PER_TABLE) = entries_of n.
Proof. intros Hn. unfold entries_of. destruct n; [done|]. by rewrite (proj2 (Z.eqb_neq _ _)) by lia. Qed.

(** The parent's table, if there is one. *)
Lemma parent_source w held n i : ok (tabs w) w held → parent_ok w n i →
  let pde := word w 0 (16 * Z.of_nat n + i) in
  is_present pde = true → is_uint 32 pde ∧ source w n i (entry_ppn pde) (entries_of n).
Proof.
  intros Hok Hp pde Hpr. pose proof (ok_inv _ _ _ Hok) as Hi. destruct Hp as [(Hn & Hl & Hir)|(-> & -> & Hu & Ht & Hk)].
  - pose proof (ok_pdes _ _ _ Hok n i Hn Hir) as Hpd. fold pde in Hpd. destruct (tabs w !! (n, i)) as [t|] eqn:E.
    + assert (pool t) as Hpt by (by apply (i_tab _ _ _ Hi n i)). rewrite Hpd. destruct (user_table t Hpt) as [-> _]. split.
      * rewrite user_entry by (by apply (pool_uint (lo := lo) (hi := hi))). apply new_entry_eq; [by eapply pool_uint|done].
      * by left.
    + congruence.
  - assert (pde = low 0 0) as ->. { unfold pde. apply (ok_low _ _ _ Hok); lia. }
    split; [done|right; split; [done|]]. intros k Hk'. rewrite (ok_low _ _ _ Hok) by (change (entries_of 0) with 160 in *; lia). by apply Hk.
Qed.

Record block_copied (w w' : World) (held : list Z) (n c : nat) (i : Z) : Prop := {
  bc_ok : ok (tabs w') w' held;
  bc_sole : sole_held w' held;
  bc_live : ∀ k, is_Some (spaces w' !! k) ↔ is_Some (spaces w !! k);
  bc_tabs : ∀ k, k ≠ (c, i) → tabs w' !! k = tabs w !! k;
  bc_views : ∀ m i' j, 0 ≤ j < 1024 → (m, i') ≠ (c, i) → view w w' m i' j;
  bc_child : ∀ j, 0 ≤ j < 1024 →
    entry_of w' c i j = (if decide (j < entries_of n) then inherit (walk w n i j) else 0) ∧
    content w' c i j = (if decide (j < entries_of n) then seen w n i j else None);
}.

(** A page that is no table is not touched by the copying. *)
Lemma copying_page T w0 w held n c i t ct j cnt q :
  copying T w0 w held c i t ct j → source w0 n i t cnt → ok T w0 held → (∀ k, T !! k ≠ Some q) → T !! (c, i) = Some ct →
  page_at (phys w) q = page_at (phys w0) q.
Proof.
  intros Hcp Hs Hok Hq Hct. apply (cp_page _ _ _ _ _ _ _ _ _ Hcp); [|by intros ->; apply (Hq (c, i))].
  intros ->. destruct Hs as [(_ & _ & Ht)|[Ht _]]; [|lia]. destruct (Hq (n, i)). by eapply lookup_weaken; [|apply (ok_tabs _ _ _ Hok)].
Qed.

Lemma protect_cases e : protect e = e ∨ protect e = without_writable e.
Proof. unfold protect. destruct (_ && _); auto. Qed.

(** No task sees a difference while a table is copied. *)
Lemma copying_view T w0 w held n c i t ct cnt m i' j :
  copying T w0 w held c i t ct cnt → source w0 n i t cnt → ok T w0 held →
  T !! (c, i) = Some ct → tabs w0 !! (c, i) = None → 0 ≤ j < 1024 → view w0 w m i' j.
Proof.
  intros Hcp Hs Hok Hct Hnc Hj. pose proof (ok_inv _ _ _ Hok) as Hi. pose proof (cp_tabs _ _ _ _ _ _ _ _ _ Hcp) as Htabs.
  destruct (tabs w0 !! (m, i')) as [v|] eqn:Hv.
  2:{ apply same_at_view. unfold same_at, content, entry_of. by rewrite Htabs, Hv. }
  pose proof (lookup_weaken _ _ _ _ Hv (ok_tabs _ _ _ Hok)) as HV.
  assert (is_present (word w0 v j) = true → page_at (phys w) (entry_ppn (word w0 v j)) = page_at (phys w0) (entry_ppn (word w0 v j))) as Hpage.
  { intros Hp. eapply copying_page; try done. by eapply mapped_not_table. }
  assert (word w v j = word w0 v j ∨ word w v j = without_writable (word w0 v j)) as [Hw|Hw].
  { destruct (decide (v = t)) as [->|Hvt].
    - rewrite (cp_src _ _ _ _ _ _ _ _ _ Hcp) by done. case_decide; [apply protect_cases|by left].
    - left. rewrite !word_eq by done. f_equal. f_equal. apply (cp_page _ _ _ _ _ _ _ _ _ Hcp); [done|]. intros ->.
      destruct (tab_sole _ _ _ _ _ _ Hi Hct) as (_ & Huniq & _). apply Huniq in HV. congruence. }
  - apply same_at_view. eapply same_view; try done; [by rewrite Htabs|]. intros; by apply Hpage.
  - assert (entry_of w0 m i' j = word w0 v j) as He0 by (unfold entry_of; by rewrite Hv).
    apply cow_content; unfold mapped; rewrite He0.
    + by apply (i_words _ _ _ Hi m i').
    + unfold entry_of. by rewrite Htabs, Hv.
    + intros Hp _. by apply Hpage.
Qed.

(** What the child has when the copied table is installed. *)
Lemma copied_child T w0 w w' held n c i t ct cnt j :
  copying T w0 w held c i t ct cnt → source w0 n i t cnt → ok T w0 held → T !! (c, i) = Some ct → 0 ≤ j < 1024 →
  tabs w' !! (c, i) = Some ct → (∀ q, q ≠ 0 → page_at (phys w') q = page_at (phys w) q) →
  let e := word w0 t j in
  entry_of w' c i j = (if decide (j < cnt) then inherit e else 0) ∧
  content w' c i j = (if decide (j < cnt) then
    if is_present e && negb (entry_ppn e =? 0) then Some (page_at (phys w0) (entry_ppn e)) else None else None) ∧
  (j < cnt → is_present e = true → entry_ppn e ≠ ct).
Proof.
  intros Hcp Hs Hok Hct Hj Ht' Hpg e. pose proof (ok_inv _ _ _ Hok) as Hi.
  assert (entry_of w' c i j = if decide (j < cnt) then inherit e else 0) as He.
  { unfold entry_of. rewrite Ht'. transitivity (word w ct j); [|by apply (cp_dst _ _ _ _ _ _ _ _ _ Hcp)].
    rewrite !word_eq by done. f_equal. f_equal. apply Hpg. destruct (i_tab _ _ _ Hi _ _ _ Hct) as (Hp & _). unfold Isolation.pool in Hp. lia. }
  assert (j < cnt → is_present e = true → is_uint 32 e ∧ page_at (phys w) (entry_ppn e) = page_at (phys w0) (entry_ppn e) ∧ entry_ppn e ≠ ct) as Hfacts.
  { intros Hjc Hp. assert (is_uint 32 e ∧ ∀ k, T !! k ≠ Some (entry_ppn e)) as [Hu Hnt].
    { destruct Hs as [(_ & _ & Ht)|[_ Hlow]].
      - pose proof (lookup_weaken _ _ _ _ Ht (ok_tabs _ _ _ Hok)) as HT. split; [by apply (i_words _ _ _ Hi n i)|by eapply mapped_not_table].
      - destruct (Hlow j) as [Hu Hl]; [lia|]. split; [done|]. eapply low_not_table; [exact Hi|by apply Hl]. }
    split_and!; [done|by eapply copying_page|]. intros E. apply (Hnt (c, i)). by rewrite E. }
  split_and!; [done| |by intros; apply Hfacts]. unfold content. rewrite He. case_decide as Hjc; [|done].
  unfold inherit. destruct (is_present e) eqn:Hp; [|done]. destruct (Hfacts Hjc eq_refl) as (Hu & Hpage & _).
  destruct (without_writable_eq e Hu) as (_ & -> & -> & _). rewrite Hp. cbn [andb].
  destruct (Z.eqb_spec (entry_ppn e) 0); [done|]. cbn [negb]. by rewrite Hpg, Hpage.
Qed.

(** A table is allocated for the child, not yet in the directory. *)
Lemma pending_table w held c i :
  ok (tabs w) w held → sole_held w held → (0 < c < 64)%nat → 0 ≤ i < 16 → tabs w !! (c, i) = None →
  (∃ f w1, alloc_or_nomem w = (Ok f, w1) ∧ fresh lo hi w w1 f ∧ ok (<[(c, i) := f]> (tabs w)) w1 held ∧ sole_held w1 held) ∨
  (alloc_or_nomem w = (Err NOMEM, w) ∧ no_frames w).
Proof.
  intros Hok Hex Hc Hir Hnone. destruct (alloc_frame_spec _ _ _ Hok) as [(f & w1 & Hr & Hok1 & Hf)|Hno]; [left|by right].
  exists f, w1. split; [done|]. split; [done|]. split.
  - eapply ok_same; [exact Hok1| |done|by apply insert_subseteq|done]. apply install_inv; [apply Hok1| |done..|].
    + by rewrite (fh_count _ _ _ Hf), decide_True.
    + intros j Hj. apply zero_word; [|done]. by rewrite (fh_page _ _ _ Hf), decide_True.
  - intros q Hq. rewrite (fh_count _ _ _ Hf). case_decide; [done|by apply Hex].
Qed.

Lemma source_fresh w w1 f n i t cnt : fresh lo hi w w1 f → cnt ≤ 1024 → source w n i t cnt → source w1 n i t cnt.
Proof.
  intros Hf Hcnt Hs. pose proof (fh_spaces _ _ _ Hf) as Hsp. destruct (tabs_spaces _ _ Hsp) as [Ht _]. unfold source. rewrite Ht, Hsp.
  destruct Hs as [|[? Hk]]; [by left|right; split; [done|]]. pose proof (fh_pool _ _ _ Hf) as Hp. unfold Isolation.pool in Hp.
  intros k Hk'. rewrite (fresh_word _ _ _ t k Hf) by lia. by apply Hk.
Qed.

(** Before the first entry is copied. *)
Lemma copying_start T w held c i t f :
  ok T w held → sole_held w held → T !! (c, i) = Some f → (∀ j, 0 ≤ j < 1024 → word w f j = 0) → copying T w w held c i t f 0.
Proof.
  intros Hok Hex Hf Hz. split; try done.
  - intros k Hk. by rewrite decide_False by lia.
  - intros k Hk. rewrite decide_False by lia. by apply Hz.
  - intros k Hk. destruct (dats w !! (c, lin_page c i k)) as [g|] eqn:E; [|done].
    destruct (i_dat _ _ _ (ok_inv _ _ _ Hok) _ _ _ E) as (_ & i' & j' & t' & El & Hj' & HT & Hp & _).
    destruct (lin_page_inj c i k i' j') as [<- <-]; [lia|done..|]. assert (t' = f) as -> by congruence.
    by rewrite present_bit, Hz, Z.bits_0 in Hp by lia.
Qed.

Lemma no_block w held n c i :
  ok (tabs w) w held → sole_held w held → tabs w !! (c, i) = None →
  is_present (word w 0 (16 * Z.of_nat n + i)) = false → block_copied w w held n c i.
Proof.
  intros Hok Hex Hc Hp. split; try done; [by intros; apply view_refl|]. intros j Hj.
  unfold entry_of, content, seen, walk, inherit, entry_of. rewrite Hp, Hc. by case_decide.
Qed.

Lemma copy_block_spec w held n c i :
  ok (tabs w) w held → sole_held w held → parent_ok w n i → (n < 64)%nat → (0 < c < 64)%nat → 0 ≤ i < 16 → is_Some (spaces w !! c) →
  tabs w !! (c, i) = None →
  ∃ r w', copy_block (16 * Z.of_nat n) (Z.of_nat c * PDES_PER_PROCESS) c i w = (r, w') ∧
    (r = Ok () ∧ block_copied w w' held n c i ∨ r = Err NOMEM ∧ w' = w ∧ no_frames w).
Proof.
  intros Hok Hex Hpar Hn Hc Hir Hl Hnone. unfold copy_block. erewrite bind_Ok by reflexivity.
  set (pde := word w 0 (16 * Z.of_nat n + i)). destruct (is_present pde) eqn:Hp; cbn [negb].
  2:{ exists (Ok ()), w. split; [done|]. left. split; [done|]. by apply no_block. }
  destruct (parent_source w held n i Hok Hpar Hp) as [Hu Hs]. fold pde in Hu, Hs. set (t := entry_ppn pde) in *.
  destruct (pending_table w held c i Hok Hex Hc Hir Hnone) as [(f & w1 & Hr & Hf & Hok1 & Hex1)|[Hr Hno]].
  2:{ rewrite (bind_Err _ _ _ _ _ Hr). exists (Err NOMEM), w. split; [done|]. by right. }
  rewrite (bind_Ok _ _ _ _ _ Hr). cbv zeta. rewrite entry_count by done.
  assert (floor (phys_addr pde) = t) as -> by (rewrite phys_addr_ppn by done; by apply floor_addr, entry_ppn_uint).
  set (T := <[(c, i) := f]> (tabs w)) in *. assert (T !! (c, i) = Some f) as Hct by apply lookup_insert_eq.
  pose proof (fh_spaces _ _ _ Hf) as Hsp. destruct (tabs_spaces _ _ Hsp) as [Ht1 _].
  assert (0 ≤ entries_of n ≤ 1024) as Hcnt by (unfold entries_of; destruct (n =? 0)%nat; lia).
  pose proof (source_fresh _ _ _ _ _ _ _ Hf (proj2 Hcnt) Hs) as Hs1.
  assert (copying T w1 w1 held c i t f 0) as Hcp0.
  { apply copying_start; try done. intros j Hj. apply zero_word; [|done]. by rewrite (fh_page _ _ _ Hf), decide_True. }
  destruct (copy_entries_spec T w1 w1 held n c i t f (entries_of n) (16 * Z.of_nat n) (Z.to_nat (entries_of n)) 0 Hcp0 Hs1)
    as (w2 & Hr2 & Hcp); [lia..|by rewrite Hsp|done|by rewrite Ht1|].
  rewrite Z2Nat.id in Hr2 by lia. rewrite (bind_Ok _ _ _ _ _ Hr2).
  assert (is_Some (spaces w2 !! c)) as [ms2 Hms2] by (apply (cp_live _ _ _ _ _ _ _ _ _ Hcp); by rewrite Hsp).
  assert (tabs w2 = tabs w) as Ht2 by (by rewrite (cp_tabs _ _ _ _ _ _ _ _ _ Hcp)).
  change PDES_PER_PROCESS with 16. replace (Z.of_nat c * 16 + i) with (16 * Z.of_nat c + i) by lia.
  rewrite (put_table_run c i f ms2 w2 Hms2 Hc Hir).
  destruct (put_table_spec _ w2 held c i f ms2 (cp_ok _ _ _ _ _ _ _ _ _ Hcp) Hms2 Hc Hir Hct) as (Hok3 & Ht3 & Hcalm & Hc3 & _);
    [by rewrite Ht2|]. set (w3 := put_table c i f ms2 w2) in *. rewrite Ht2 in Ht3. fold T in Ht3.
  exists (Ok ()), w3. split; [done|]. left. split; [done|].
  assert (∀ m i' j, 0 ≤ j < 1024 → view w w2 m i' j) as Hv2.
  { intros m i' j Hj. apply (view_trans _ w1); [by apply same_at_view; eapply fresh_same|].
    eapply copying_view; try done. by rewrite Ht1. }
  split.
  - by rewrite Ht3.
  - intros q Hq. rewrite Hc3. by apply (cp_sole _ _ _ _ _ _ _ _ _ Hcp).
  - intros k. destruct (cp_live _ _ _ _ _ _ _ _ _ Hcp k) as [H1 H2]. rewrite Hsp in H1, H2. rewrite <- (conj H1 H2 : _ ↔ _).
    unfold w3, put_table, set_space. cbn [spaces]. rewrite set_word_eq by lia. cbn [spaces].
    destruct (decide (k = c)) as [->|]; [rewrite lookup_insert_eq, Hms2; split; by eexists|by rewrite lookup_insert_ne].
  - intros k Hk. rewrite Ht3. unfold T. by rewrite lookup_insert_ne.
  - intros m i' j Hj Hne. eapply view_trans; [by apply Hv2|]. apply same_at_view. eapply calm_view; [apply Hcp|done| |done].
    rewrite Ht3, Ht2. unfold T. by rewrite lookup_insert_ne by congruence.
  - intros j Hj. destruct (copied_child T w1 w2 w3 held n c i t f (entries_of n) j Hcp Hs1 Hok1 Hct Hj) as (He & Hcont & Hpf).
    + by rewrite Ht3.
    + intros q Hq. unfold w3, put_table. cbn [phys set_space]. by apply page_set_word; [lia|].
    + assert (walk w n i j = word w1 t j) as Hw.
      { unfold walk. fold pde. rewrite Hp. fold t. symmetry. eapply fresh_word; [done| |done].
        intros E. destruct Hs as [(_ & _ & Htt)|[Htt _]].
        - destruct (free_unowned _ _ _ f (ok_inv _ _ _ Hok) (fh_pool _ _ _ Hf) (fh_free _ _ _ Hf)) as (_ & Hno & _). apply (Hno (n, i)). congruence.
        - pose proof (fh_pool _ _ _ Hf) as Hpool. unfold Isolation.pool in Hpool. lia. }
      rewrite He, Hcont. unfold seen. rewrite Hw. split; [done|]. case_decide as Hjc; [|done].
      destruct (is_present (word w1 t j)) eqn:Hpe; [|done]. cbn [andb]. destruct (_ =? 0); [done|]. cbn [negb].
      f_equal. by rewrite (fh_page _ _ _ Hf), decide_False by (by apply Hpf).
Qed.
End inv.
Arguments shares_bound {lo hi}.
Arguments share_count {lo hi}.
Arguments share_run {lo hi}.
Arguments quiet_sole {lo hi}.
Arguments source_fresh {lo hi}.
Arguments share_dst {lo hi low}.
Arguments share_others {lo hi low}.
Arguments share_pages {lo hi low}.
Arguments try_share_spec {lo hi low}.
Arguments low_entry {lo hi low}.
Arguments copying_next {lo hi low}.
Arguments copy_high {lo hi low}.
Arguments source_facts {lo hi low}.
Arguments copy_entry_spec {lo hi low}.
Arguments copy_entries_spec {lo hi low}.
Arguments walk_entry {lo hi low}.
Arguments parent_source {lo hi low}.
Arguments copying_page {lo hi low}.
Arguments copying_view {lo hi low}.
Arguments copied_child {lo hi low}.
Arguments pending_table {lo hi low}.
Arguments copying_start {lo hi low}.
Arguments no_block {lo hi low}.
Arguments copy_block_spec {lo hi low}.
Arguments sr_ok {lo hi low}.
Arguments sr_sole {lo hi low}.
Arguments sr_live {lo hi low}.
Arguments sr_others {lo hi low}.
Arguments sr_result {lo hi low}.
Arguments cp_ok {lo hi low}.
Arguments cp_sole {lo hi low}.
Arguments cp_tabs {lo hi low}.
Arguments cp_live {lo hi low}.
Arguments cp_src {lo hi low}.
Arguments cp_dst {lo hi low}.
Arguments cp_page {lo hi low}.
Arguments cp_none {lo hi low}.
Arguments bc_ok {lo hi low}.
Arguments bc_sole {lo hi low}.
Arguments bc_live {lo hi low}.
Arguments bc_tabs {lo hi low}.
Arguments bc_views {lo hi low}.
Arguments bc_child {lo hi low}.
End Fork.
