(* ===== verification/Cow.v ===== *)
(** * Fork and exit, and what they mean for isolation

    [cow_copy] as a whole, [drop], the steps by which address spaces change, and
    the properties of every state they lead to. *)

From S2P Require Import Prelude Frame Space Isolation Fork.
From stdpp Require Import gmap relations.
Open Scope kmonad_scope.
Open Scope Z_scope.

Module Cow.
Import Frame Space Isolation Fork.

(** ** Handles of one space *)

#[local] Instance occ_proper : Proper ((≡ₚ) ==> (=) ==> (=)) occ.
Proof. intros l l' Hl f _ <-. unfold occ. by rewrite Hl. Qed.

Lemma occ_app l l' f : occ (l ++ l') f = occ l f + occ l' f.
Proof. unfold occ. rewrite filter_app, length_app. lia. Qed.

Lemma vocc_list `{Countable K} (m : gmap K Z) f : vocc m f = occ (map_to_list m).*2 f.
Proof.
  induction m as [|k x m Hk IH] using map_ind; [by rewrite vocc_empty, map_to_list_empty|].
  rewrite vocc_insert, IH by done. rewrite map_to_list_insert by done.
  rewrite fmap_cons, occ_cons. cbn [snd]. lia.
Qed.

Lemma vocc_union `{Countable K} (m1 m2 : gmap K Z) f : m1 ##ₘ m2 → vocc (m1 ∪ m2) f = vocc m1 f + vocc m2 f.
Proof.
  intros Hd. unfold vocc. rewrite map_filter_union by done. rewrite map_size_disj_union; [lia|]. by apply map_disjoint_filter.
Qed.

#[local] Instance pair_inj (c : nat) : Inj (=) (=) (λ i : Z, (c, i)).
Proof. by intros i j [= ->]. Qed.

Abbreviation flat X := (map_uncurry (M1 := gmap nat) (M2 := gmap Z) X).

(** All handles are those of the others and those of [c]. *)
Lemma vocc_flat (X : gmap nat (gmap Z Z)) c m f :
  X !! c = Some m → vocc (flat X) f = vocc (flat (delete c X)) f + occ (map_to_list m).*2 f.
Proof.
  intros Hc. assert (flat X = flat (delete c X) ∪ kmap (λ i, (c, i)) m) as ->.
  { apply map_eq. intros [n i]. rewrite lookup_union, !lookup_map_uncurry. destruct (decide (n = c)) as [->|Hn].
    - rewrite Hc, lookup_delete_eq. simpl. rewrite (lookup_kmap (λ i, (c, i)) m i). by destruct (m !! i).
    - rewrite lookup_delete_ne by done. assert (kmap (λ i, (c, i)) m !! (n, i) =@{option Z} None) as ->; [|by destruct (X !! n ≫= _)].
      apply lookup_kmap_None; [apply _|]. by intros k [= -> ->]. }
  rewrite vocc_union.
  - f_equal. rewrite vocc_list. rewrite (map_to_list_kmap (λ i, (c, i)) m). rewrite <- list_fmap_compose. done.
  - apply map_disjoint_spec. intros [n i] x y Hx (k & [= -> ->] & _)%lookup_kmap_Some; [|apply _].
    by rewrite lookup_map_uncurry, lookup_delete_eq in Hx.
Qed.

Lemma tabs_delete w c p : tabs (mkWorld p (delete c (spaces w))) = flat (delete c (page_tables <$> spaces w)).
Proof. unfold tabs. cbn [spaces]. by rewrite fmap_delete. Qed.

Lemma dats_delete w c p : dats (mkWorld p (delete c (spaces w))) = flat (delete c (data_frames <$> spaces w)).
Proof. unfold dats. cbn [spaces]. by rewrite fmap_delete. Qed.

Lemma tabs_delete_lookup w c p n i x : tabs (mkWorld p (delete c (spaces w))) !! (n, i) = Some x ↔ n ≠ c ∧ tabs w !! (n, i) = Some x.
Proof.
  rewrite !tabs_lookup. cbn [spaces]. destruct (decide (n = c)) as [->|Hn]; [rewrite lookup_delete_eq|rewrite lookup_delete_ne by done];
    naive_solver.
Qed.

Lemma dats_delete_lookup w c p n i x : dats (mkWorld p (delete c (spaces w))) !! (n, i) = Some x ↔ n ≠ c ∧ dats w !! (n, i) = Some x.
Proof.
  rewrite !dats_lookup. cbn [spaces]. destruct (decide (n = c)) as [->|Hn]; [rewrite lookup_delete_eq|rewrite lookup_delete_ne by done];
    naive_solver.
Qed.

Section inv.
Context (lo hi : Z) (low : Z → Z → Z).
Local Abbreviation pool := (Isolation.pool lo hi).
Local Abbreviation inv := (Isolation.inv lo hi).
Local Abbreviation ok := (Isolation.ok lo hi low).

(** ** Drop *)

(** The directory entries of the first [x] tables are empty. *)
Record cleared (w w1 : World) (c : nat) (ms : MemorySpace) (x : Z) : Prop := {
  cl_ok : phys_ok (phys w1);
  cl_spaces : spaces w1 = spaces w;
  cl_count : ∀ q, count (phys w1) q = count (phys w) q;
  cl_page : ∀ q, q ≠ 0 → page_at (phys w1) q = page_at (phys w) q;
  cl_dir : ∀ k, 0 ≤ k < 1024 → word w1 0 k =
    if decide (16 * Z.of_nat c ≤ k < 16 * Z.of_nat c + x ∧ is_Some (page_tables ms !! (k - 16 * Z.of_nat c))) then 0 else word w 0 k;
}.

Lemma cleared_word w w1 c ms x q k : cleared w w1 c ms x → q ≠ 0 → 0 ≤ k < 1024 → word w1 q k = word w q k.
Proof. intros Hcl Hq Hk. rewrite !word_eq by done. by rewrite (cl_page _ _ _ _ _ Hcl). Qed.

Lemma clear_loop w w1 c ms (m : nat) x :
  cleared w w1 c ms x → 0 ≤ x → x + Z.of_nat m = 16 → (c < 64)%nat → pde_base ms = 16 * Z.of_nat c →
  ∃ w2, mfor (seqZ x (Z.of_nat m)) (λ i,
      match page_tables ms !! i with Some _ => write_pde (pde_base ms + i) 0 | None => mok () end) w1 = (Ok (), w2) ∧
    cleared w w2 c ms 16.
Proof.
  intros Hcl Hx Hm Hc Hb. revert w1 x Hcl Hx Hm. induction m as [|m IH]; intros w1 x Hcl Hx Hm.
  { exists w1. split; [done|]. by replace 16 with x by lia. }
  rewrite seqZ_cons by lia. cbn [mfor]. replace (Z.pred (Z.of_nat (S m))) with (Z.of_nat m) by lia. rewrite Hb in *.
  destruct (page_tables ms !! x) as [t|] eqn:Ht.
  - erewrite bind_Ok by reflexivity. apply IH; [|lia..]. set (k0 := 16 * Z.of_nat c + x).
    assert (0 ≤ k0 < 1024) as Hk0 by (unfold k0; lia). destruct Hcl as [Hok Hs Hcnt Hpg Hd]. split.
    + by apply set_word_phys.
    + by rewrite set_word_eq.
    + intros q. rewrite set_word_eq by done. apply Hcnt.
    + intros q Hq. rewrite page_set_word by done. by apply Hpg.
    + intros k Hk. rewrite word_after_set by done. destruct (decide (0 = 0 ∧ k = k0)) as [[_ ->]|Hne].
      * rewrite decide_True; [done|]. unfold k0. replace (16 * Z.of_nat c + x - 16 * Z.of_nat c) with x by lia. rewrite Ht. split; [lia|by eexists].
      * rewrite Hd by done. assert (k ≠ k0) as Hk' by tauto. unfold k0 in Hk'.
        repeat case_decide; try done; exfalso; naive_solver lia.
  - erewrite bind_Ok by reflexivity. apply IH; [|lia..]. destruct Hcl as [Hok Hs Hcnt Hpg Hd]. split; try done.
    intros k Hk. rewrite Hd by done. destruct (decide (k = 16 * Z.of_nat c + x)) as [->|Hne].
    + replace (16 * Z.of_nat c + x - 16 * Z.of_nat c) with x by lia. rewrite Ht. rewrite !decide_False; [done|by intros [_ []]..].
    + repeat case_decide; try done; exfalso; naive_solver lia.
Qed.

(** The space gone, its handles are in nobody's map. *)
Lemma drop_inv w w1 held c ms :
  ok (tabs w) w held → spaces w !! c = Some ms → cleared w w1 c ms 16 →
  let w2 := mkWorld (phys w1) (delete c (spaces w1)) in
  ok (tabs w2) w2 ((map_to_list (page_tables ms)).*2 ++ (map_to_list (data_frames ms)).*2 ++ held) ∧
  ∀ m i j, 0 ≤ j < 1024 → m ≠ c → same_at w w2 m i j.
Proof.
  intros Hok Hms Hcl w2. pose proof (ok_inv _ _ _ Hok) as Hi. pose proof (cl_spaces _ _ _ _ _ Hcl) as Hsp.
  assert (w2 = mkWorld (phys w1) (delete c (spaces w))) as Ew by (unfold w2; by rewrite Hsp).
  assert (∀ n i x, tabs w2 !! (n, i) = Some x ↔ n ≠ c ∧ tabs w !! (n, i) = Some x) as Ht by (intros; rewrite Ew; apply tabs_delete_lookup).
  assert (∀ n i x, dats w2 !! (n, i) = Some x ↔ n ≠ c ∧ dats w !! (n, i) = Some x) as Hd by (intros; rewrite Ew; apply dats_delete_lookup).
  assert (∀ q, count (phys w2) q = count (phys w) q) as Hc by apply (cl_count _ _ _ _ _ Hcl).
  assert (∀ n i t j, tabs w !! (n, i) = Some t → 0 ≤ j < 1024 → word w2 t j = word w t j) as Hw.
  { intros n i t j HT Hj. destruct (table_in_use _ _ _ _ _ _ Hi HT) as [Hz _]. by apply (cleared_word _ _ _ _ _ _ _ Hcl). }
  split; [split|].
  - split; try (setoid_rewrite Hc).
    + apply (cl_ok _ _ _ _ _ Hcl).
    + apply (i_reserved _ _ _ Hi).
    + intros f Hf. rewrite Ew, tabs_delete, dats_delete, (i_count _ _ _ Hi f Hf), !occ_app. unfold tabs, dats.
      rewrite (vocc_flat (page_tables <$> spaces w) c (page_tables ms)), (vocc_flat (data_frames <$> spaces w) c (data_frames ms))
        by (by rewrite lookup_fmap, Hms). lia.
    + intros f. rewrite !elem_of_app. intros [Hf|[Hf|Hf]]; [| |by apply (i_held _ _ _ Hi)];
        apply list_elem_of_fmap in Hf as ([k f'] & -> & Hk%elem_of_map_to_list); cbn [snd].
      * apply (i_tab _ _ _ Hi c k). by rewrite tabs_lookup, Hms.
      * apply (i_dat _ _ _ Hi c k). by rewrite dats_lookup, Hms.
    + intros n i f [_ HT]%Ht. by apply (i_tab _ _ _ Hi).
    + intros n i t j [_ HT]%Ht Hj. rewrite (Hw n i) by done. by apply (i_words _ _ _ Hi n i).
    + intros n lin f [Hn Hf]%Hd. destruct (i_dat _ _ _ Hi _ _ _ Hf) as (? & i & j & t & ? & ? & HT & ?). split; [done|].
      exists i, j, t. rewrite (Hw n i), Ht by done. done.
    + intros n i t j [Hn HT]%Ht Hj. rewrite (Hw n i) by done. intros Hp. pose proof (i_pte _ _ _ Hi _ _ _ _ HT Hj Hp) as Hm.
      assert (dats w2 !! (n, lin_page n i j) = dats w !! (n, lin_page n i j)) as ->; [|destruct (dats w !! (n, lin_page n i j)); [by rewrite Hc|done]].
      apply option_eq. intros x. rewrite Hd. naive_solver.
    + intros n m lin lin' f [_ Hf]%Hd [_ Hf']%Hd. by apply (i_once _ _ _ Hi n m lin lin' f).
  - intros n ms' Hn. rewrite Ew in Hn. cbn [spaces] in Hn. apply lookup_delete_Some in Hn as [_ Hn]. by apply (ok_slots _ _ _ Hok).
  - intros n i Hn Hir. pose proof (ok_pdes _ _ _ Hok n i Hn Hir) as Hp. change (word w2) with (word w1). rewrite (cl_dir _ _ _ _ _ Hcl) by lia.
    destruct (tabs w2 !! (n, i)) as [t|] eqn:E.
    + apply Ht in E as [Hne E]. rewrite E in Hp. rewrite decide_False by lia. done.
    + case_decide as Hdec; [by rewrite present_bit, Z.bits_0|]. destruct (tabs w !! (n, i)) as [t|] eqn:E'; [exfalso|done].
      destruct (decide (n = c)) as [->|Hne]; [|assert (tabs w2 !! (n, i) = Some t) by (by apply Ht); congruence].
      apply Hdec. split; [lia|]. replace (16 * Z.of_nat c + i - 16 * Z.of_nat c) with i by lia. rewrite tabs_lookup, Hms in E'. by eexists.
  - done.
  - intros q k Hq Hk Hz. rewrite <- (ok_low _ _ _ Hok q k Hq Hk Hz). change (word w2) with (word w1).
    destruct (decide (q = 0)) as [->|Hq0]; [|by apply (cleared_word _ _ _ _ _ _ _ Hcl)].
    rewrite (cl_dir _ _ _ _ _ Hcl) by done. case_decide as Hdec; [exfalso|done]. destruct Hdec as [Hr [t Htt]].
    assert (tabs w !! (c, k - 16 * Z.of_nat c) = Some t) as HT by (by rewrite tabs_lookup, Hms).
    destruct (i_tab _ _ _ Hi _ _ _ HT) as (_ & _ & Hcr & _). specialize (Hz eq_refl). lia.
  - intros m i j Hj Hm. eapply calm_view; [exact Hok| | |done].
    + intros q [Hq _]. by apply (cl_page _ _ _ _ _ Hcl).
    + apply option_eq. intros x. rewrite Ht. naive_solver.
Qed.

Lemma drop_list T w l held : ok T w (l ++ held) →
  ∃ w', mfor l (λ f, drop_frame (Some f)) w = (Ok (), w') ∧ ok T w' held ∧ spaces w' = spaces w ∧ mem (phys w') = mem (phys w).
Proof.
  revert w. induction l as [|f l IH]; intros w Hok; [by exists w|]. cbn [mfor].
  destruct (drop_held _ _ _ _ Hok) as (w1 & Hr & Hok1 & Hs1 & Hm1 & _). rewrite (bind_Ok _ _ _ _ _ Hr).
  destruct (IH w1 Hok1) as (w2 & Hr2 & Hok2 & Hs2 & Hm2). exists w2. split_and!; [done|done|congruence|congruence].
Qed.

(** A held frame has no other owner, then and later. *)
Lemma sole_again T T' w w' held :
  inv T w held → inv T' w' held → sole_held w held → 
  (∀ k f, T' !! k = Some f → T !! k = Some f) → (∀ k f, dats w' !! k = Some f → dats w !! k = Some f) → sole_held w' held.
Proof.
  intros Hi Hi' Hex HT Hd f Hf. pose proof (i_held _ _ _ Hi f Hf) as Hp. pose proof (Hex f Hf) as Hc.
  rewrite (i_count _ _ _ Hi f Hp) in Hc. rewrite (i_count _ _ _ Hi' f Hp). pose proof (occ_pos held f Hf).
  pose proof (vocc_nonneg T f). pose proof (vocc_nonneg (dats w) f).
  rewrite (vocc_zero T'), (vocc_zero (dats w')); [lia|..]; intros k Hk.
  - apply Hd in Hk. pose proof (vocc_pos _ _ _ Hk). lia.
  - apply HT in Hk. pose proof (vocc_pos _ _ _ Hk). lia.
Qed.

Record dropped (w w' : World) (held : list Z) (c : nat) : Prop := {
  dr_ok : ok (tabs w') w' held;
  dr_sole : sole_held w' held;
  dr_spaces : spaces w' = delete c (spaces w);
  dr_others : ∀ m i j, 0 ≤ j < 1024 → m ≠ c → same_at w w' m i j;
}.

(** [drop] never panics for a user's slot. *)
Lemma drop_space_spec w held c :
  ok (tabs w) w held → sole_held w held → is_Some (spaces w !! c) → (0 < c < 64)%nat →
  ∃ w', drop_space c w = (Ok (), w') ∧ dropped w w' held c.
Proof.
  intros Hok Hex [ms Hms] Hc. destruct (ok_slots _ _ _ Hok c ms Hms) as [_ Hb]. pose proof (ok_inv _ _ _ Hok) as Hi.
  unfold drop_space. rewrite (bind_Ok _ _ _ _ _ (space_run _ _ _ Hms)).
  assert (cleared w w c ms 0) as Hcl0.
  { split; [apply Hi|done..|]. intros k Hk. rewrite decide_False by lia. done. }
  assert (∃ w1, (if decide (page_tables ms = ∅) then mok () else
      massert (negb (pde_base ms =? 0));;;
      mfor (seqZ 0 PDES_PER_PROCESS) (λ i,
        match page_tables ms !! i with Some _ => write_pde (pde_base ms + i) 0 | None => mok () end)) w = (Ok (), w1) ∧
    cleared w w1 c ms 16) as (w1 & Hr1 & Hcl).
  { case_decide as Hemp.
    - exists w. split; [done|]. split; try apply Hcl0. intros k Hk. rewrite Hemp, lookup_empty, decide_False; [done|]. by intros [_ []].
    - destruct (clear_loop w w c ms 16 0 Hcl0) as (w1 & Hr & Hcl); [lia..|]. exists w1. split; [|done].
      rewrite (proj2 (Z.eqb_neq _ _)) by lia. erewrite bind_Ok by reflexivity. exact Hr. }
  rewrite (bind_Ok _ _ _ _ _ Hr1). erewrite bind_Ok by reflexivity.
  destruct (drop_inv w w1 held c ms Hok Hms Hcl) as [Hok2 Hv2]. set (w2 := mkWorld _ _) in *.
  destruct (drop_list _ _ _ _ Hok2) as (w3 & Hr3 & Hok3 & Hs3 & Hm3). rewrite (bind_Ok _ _ _ _ _ Hr3).
  destruct (drop_list _ _ _ _ Hok3) as (w4 & Hr4 & Hok4 & Hs4 & Hm4). exists w4. split; [done|].
  assert (spaces w4 = delete c (spaces w)) as Hs.
  { rewrite Hs4, Hs3. unfold w2. cbn [spaces]. by rewrite (cl_spaces _ _ _ _ _ Hcl). }
  destruct (tabs_spaces w2 w4) as [Ht4 Hd4]; [congruence|]. rewrite <- Ht4 in Hok4.
  assert (w2 = mkWorld (phys w1) (delete c (spaces w))) as Ew by (unfold w2; by rewrite (cl_spaces _ _ _ _ _ Hcl)).
  split; [done| |done|].
  - eapply (sole_again (tabs w) (tabs w4)); [exact Hi|apply Hok4|done|..]; intros [n k] f.
    + rewrite Ht4, Ew, tabs_delete_lookup. by intros [].
    + rewrite Hd4, Ew, dats_delete_lookup. by intros [].
  - intros m i j Hj Hm. eapply same_at_trans; [by apply Hv2|]. apply same_mem; [congruence..|done].
Qed.

(** ** Fork *)

Definition empty_space (c : nat) : MemorySpace := mkSpace ∅ ∅ (Z.of_nat c * PDES_PER_PROCESS).

Lemma new_space_spec w held c :
  ok (tabs w) w held → spaces w !! c = None → (c < 64)%nat →
  let w1 := set_space c (empty_space c) w in
  ok (tabs w1) w1 held ∧ tabs w1 = tabs w ∧ (∀ m i j, same_at w w1 m i j).
Proof.
  intros Hok Hc Hr w1. assert (tabs w1 = tabs w ∧ dats w1 = dats w) as [Ht Hd].
  { split; apply map_eq; intros [n i]; rewrite ?tabs_lookup, ?dats_lookup; unfold w1, set_space; cbn [spaces];
      (destruct (decide (n = c)) as [->|]; [rewrite lookup_insert_eq, Hc; apply lookup_empty|by rewrite lookup_insert_ne]). }
  split_and!; [|done|intros m i j; unfold same_at, content, entry_of; by rewrite Ht].
  rewrite Ht. split.
  - eapply data_inv; [apply Hok|apply (ok_inv _ _ _ Hok)|done..].
  - intros n ms. unfold w1, set_space. cbn [spaces]. intros [[<- <-]|[_ Hn]]%lookup_insert_Some; [|by apply (ok_slots _ _ _ Hok)].
    split; [done|]. unfold empty_space. cbn [pde_base]. change PDES_PER_PROCESS with 16. lia.
  - intros n i. rewrite Ht. apply (ok_pdes _ _ _ Hok).
  - by rewrite Ht.
  - apply (ok_low _ _ _ Hok).
Qed.

Lemma low_page T T' w w' held held' q : ok T w held → ok T' w' held' → 0 < q < 512 → page_at (phys w') q = page_at (phys w) q.
Proof.
  intros Hok Hok' Hq. apply list_eq. intros k. destruct (decide (k < 1024)%nat) as [Hk|Hk].
  - pose proof (ok_low _ _ _ Hok q (Z.of_nat k)) as E. pose proof (ok_low _ _ _ Hok' q (Z.of_nat k)) as E'.
    rewrite <- E in E' by lia. rewrite !word_eq in E' by lia. unfold zlookup in E'. rewrite (proj2 (Z.leb_le 0 _)), Nat2Z.id in E' by lia.
    destruct (lookup_lt_is_Some_2 (page_at (phys w') q) k) as [x Hx]; [by rewrite (po_pages _ (i_phys _ _ _ (ok_inv _ _ _ Hok')))|].
    destruct (lookup_lt_is_Some_2 (page_at (phys w) q) k) as [y Hy]; [by rewrite (po_pages _ (i_phys _ _ _ (ok_inv _ _ _ Hok)))|].
    rewrite Hx, Hy in E'. simpl in E'. rewrite Hx, Hy, E' by lia. done.
  - assert (∀ T w held, ok T w held → page_at (phys w) q !! k = None) as E; [|by rewrite (E _ _ _ Hok), (E _ _ _ Hok')].
    intros T0 v h Hv. apply lookup_ge_None_2. rewrite (po_pages _ (i_phys _ _ _ (ok_inv _ _ _ Hv))). lia.
Qed.

(** What the parent has to give does not change while it is copied. *)
Lemma seen_same T T' w w' held held' n i j :
  ok T w held → ok T' w' held' → (0 < n < 64)%nat ∧ 0 ≤ i < 16 ∧ view w w' n i j ∨ n = 0%nat ∧ i = 0 ∧ kernel_map low →
  0 ≤ j < entries_of n → seen w' n i j = seen w n i j.
Proof.
  intros Hok Hok' [(Hn & Hi & Hv)|(-> & -> & Hu & Ht & Hk)] Hj.
  - destruct (walk_entry _ _ _ _ _ j Hok Hn Hi) as [_ ->]. destruct (walk_entry _ _ _ _ _ j Hok' Hn Hi) as [_ ->]. apply Hv.
  - change (entries_of 0) with 160 in Hj. destruct (Hk j Hj) as [Hju Hlow].
    assert (∀ T w held, ok T w held → walk w 0 0 j = if is_present (low 0 0) then low (entry_ppn (low 0 0)) j else 0) as Hw.
    { intros T0 v h Hv. unfold walk. cbv zeta. rewrite (ok_low _ _ _ Hv 0) by lia. change (16 * Z.of_nat 0 + 0) with 0.
      destruct (is_present (low 0 0)); [|done]. apply (ok_low _ _ _ Hv); lia. }
    unfold seen. rewrite (Hw _ _ _ Hok), (Hw _ _ _ Hok'). destruct (is_present (low 0 0)); [|done].
    destruct (is_present (low _ j)) eqn:Hp; [|done]. cbn [andb]. destruct (Z.eqb_spec (entry_ppn (low (entry_ppn (low 0 0)) j)) 0); [done|].
    cbn [negb]. f_equal. eapply low_page; [done|done|]. specialize (Hlow eq_refl). pose proof (entry_ppn_uint _ Hju) as Hq.
    unfold is_uint in Hq. lia.
Qed.

Lemma inherit_not_writable e : writable (inherit e) = false.
Proof.
  unfold inherit. destruct (is_present e); [|done]. rewrite writable_bit. unfold without_writable.
  rewrite Z.land_spec, testbit_unot by lia. apply andb_false_r.
Qed.

(** A page of a child: what the parent had, not to be written. *)
Definition child_page (w0 w : World) (n c : nat) (i j : Z) : Prop :=
  writable (entry_of w c i j) = false ∧
  content w c i j = if decide (j < entries_of n) then seen w0 n i j else None.

Record forking (w0 w : World) (held : list Z) (n c : nat) (i : Z) : Prop := {
  fk_ok : ok (tabs w) w held;
  fk_sole : sole_held w held;
  fk_live : ∀ k, is_Some (spaces w !! k) ↔ is_Some (spaces w0 !! k);
  fk_none : ∀ i', i ≤ i' < 16 → tabs w !! (c, i') = None;
  fk_views : ∀ m i' j, 0 ≤ j < 1024 → m ≠ c → view w0 w m i' j;
  fk_child : ∀ i' j, 0 ≤ i' < i → 0 ≤ j < 1024 → child_page w0 w n c i' j;
}.

Lemma forking_step w0 w held n c i :
  forking w0 w held n c i → ok (tabs w0) w0 held → parent_ok low w0 n i → (n < 64)%nat → (0 < c < 64)%nat → n ≠ c → 0 ≤ i < 16 →
  is_Some (spaces w0 !! c) →
  ∃ r w', copy_block (16 * Z.of_nat n) (Z.of_nat c * PDES_PER_PROCESS) c i w = (r, w') ∧
    (r = Ok () ∧ forking w0 w' held n c (i + 1) ∨ r = Err NOMEM ∧ w' = w ∧ no_frames w).
Proof.
  intros [Hok Hex Hl Hn Hv Hch] Hok0 Hpar Hnr Hc Hnc Hi Hlc.
  assert (parent_ok low w n i) as Hpar'.
  { destruct Hpar as [(? & ? & ?)|]; [left|by right]. split; [done|]. split; [by apply Hl|done]. }
  destruct (copy_block_spec w held n c i Hok Hex Hpar' Hnr Hc Hi) as (r & w' & Hr & Hres); [by apply Hl|apply Hn; lia|].
  exists r, w'. split; [done|]. destruct Hres as [(-> & [Bok Bex Bl Bt Bv Bc])|]; [left|by right]. split; [done|]. split.
  - done.
  - done.
  - intros k. by rewrite Bl.
  - intros i' Hi'. rewrite Bt by (intros [=]; lia). apply Hn. lia.
  - intros m i' j Hj Hm. eapply view_trans; [by apply Hv|]. apply Bv; [done|congruence].
  - intros i' j Hi' Hj. unfold child_page. destruct (decide (i' = i)) as [->|Hne].
    + destruct (Bc j Hj) as [-> ->]. split; [case_decide; [apply inherit_not_writable|done]|]. case_decide as Hjc; [|done].
      eapply seen_same; [exact Hok0|exact Hok| |lia]. destruct Hpar as [(Hn0 & _ & _)|?]; [left|by right].
      split_and!; try lia. by apply Hv.
    + destruct (Hch i' j) as [Hw Hcont]; [lia|done|]. destruct (Bv c i' j Hj) as [Ec Ee]; [congruence|]. rewrite Ec. split; [|done].
      destruct Ee as [-> | ->]; [done|]. unfold without_writable. rewrite writable_bit, Z.land_spec, testbit_unot by lia. apply andb_false_r.
Qed.

(** How many blocks are copied. *)
Definition blocks_of (data_limit : Z) : Z := Z.min (div_ceil data_limit (ENTRIES_PER_TABLE * PAGE_SIZE)) PDES_PER_PROCESS.

(** The spaces from which one can fork: the user's, and the first task's low
    memory. *)
Definition forkable (w : World) (n : nat) (limit : Z) : Prop :=
  0 ≤ limit ∧ is_Some (spaces w !! n) ∧ (n < 64)%nat ∧ (n = 0%nat → limit ≤ 4194304 ∧ kernel_map low).

Lemma blocks_bound limit : 0 ≤ limit → 0 ≤ blocks_of limit ≤ 16 ∧ (limit ≤ 4194304 → blocks_of limit ≤ 1).
Proof.
  intros H. unfold blocks_of, div_ceil. change (ENTRIES_PER_TABLE * PAGE_SIZE) with 4194304. change PDES_PER_PROCESS with 16.
  assert (0 ≤ (limit + 4194304 - 1) / 4194304) by (apply Z.div_pos; lia). split; [lia|]. intros Hl.
  assert ((limit + 4194304 - 1) / 4194304 < 2) by (apply Z.div_lt_upper_bound; lia). lia.
Qed.

Lemma fork_loop w0 w held n c limit (m : nat) i :
  forking w0 w held n c i → ok (tabs w0) w0 held → forkable w0 n limit → (0 < c < 64)%nat → n ≠ c →
  is_Some (spaces w0 !! c) → 0 ≤ i → i + Z.of_nat m = blocks_of limit →
  ∃ r w', mfor (seqZ i (Z.of_nat m)) (copy_block (16 * Z.of_nat n) (Z.of_nat c * PDES_PER_PROCESS) c) w = (r, w') ∧
    (r = Ok () ∧ forking w0 w' held n c (blocks_of limit) ∨
     r = Err NOMEM ∧ (∃ k, forking w0 w' held n c k) ∧ no_frames w').
Proof.
  intros Hf Hok0 Hfk Hc Hnc Hl Hi Hm. destruct (Hfk) as (Hlim & Hlive & Hn & H0). destruct (blocks_bound limit Hlim) as [Hb Hb1].
  revert w i Hf Hi Hm. induction m as [|m IH]; intros w i Hf Hi Hm.
  { exists (Ok ()), w. split; [done|]. left. split; [done|]. by replace (blocks_of limit) with i by lia. }
  rewrite seqZ_cons by lia. cbn [mfor]. replace (Z.pred (Z.of_nat (S m))) with (Z.of_nat m) by lia.
  assert (parent_ok low w0 n i) as Hpar.
  { destruct (decide (n = 0%nat)) as [E|Hn0]; [right|left; split_and!; done || lia]. destruct (H0 E) as [? ?]. split_and!; [done| |done]. lia. }
  destruct (forking_step w0 w held n c i Hf Hok0 Hpar) as (r & w1 & Hr & [[-> Hf1]|(-> & -> & Hno)]); [done|done|done|lia|done| |].
  - rewrite (bind_Ok _ _ _ _ _ Hr). apply IH; [done|lia..].
  - rewrite (bind_Err _ _ _ _ _ Hr). exists (Err NOMEM), w. split; [done|]. right. split; [done|]. split; [by exists i|done].
Qed.

Record fork_result (w w' : World) (held : list Z) (n c : nat) (limit : Z) (r : result ()) : Prop := {
  fr_ok : ok (tabs w') w' held;
  fr_sole : sole_held w' held;
  fr_views : ∀ m i j, 0 ≤ j < 1024 → m ≠ c → view w w' m i j;
  fr_result :
    match r with
    | Ok _ =>
        (∀ k, is_Some (spaces w' !! k) ↔ k = c ∨ is_Some (spaces w !! k)) ∧
        ∀ i j, 0 ≤ i < 16 → 0 ≤ j < 1024 →
          writable (entry_of w' c i j) = false ∧
          content w' c i j = if decide (i < blocks_of limit ∧ j < entries_of n) then seen w n i j else None
    | Err e => e = NOMEM ∧ (∃ w1, no_frames w1) ∧ (∀ k, is_Some (spaces w' !! k) ↔ is_Some (spaces w !! k))
    | Panic => False
    end;
}.

Lemma cow_copy_spec w held n c limit :
  ok (tabs w) w held → sole_held w held → forkable w n limit → (0 < c < 64)%nat → spaces w !! c = None →
  ∃ r w', cow_copy n c limit w = (r, w') ∧ fork_result w w' held n c limit r.
Proof.
  intros Hok Hex Hfk Hc Hnone. destruct (Hfk) as (Hlim & [ms Hms] & Hn & H0). assert (n ≠ c) as Hnc by (intros ->; congruence).
  destruct (blocks_bound limit Hlim) as [Hb _]. unfold cow_copy. rewrite (bind_Ok _ _ _ _ _ (space_run _ _ _ Hms)). cbv zeta.
  destruct (ok_slots _ _ _ Hok n ms Hms) as [_ ->]. erewrite bind_Ok by reflexivity.
  change (mkSpace ∅ ∅ (Z.of_nat c * PDES_PER_PROCESS)) with (empty_space c).
  destruct (new_space_spec w held c Hok Hnone (proj2 Hc)) as (Hok0 & Ht0 & Hv0). set (w0 := set_space c (empty_space c) w) in *.
  assert (∀ k, is_Some (spaces w0 !! k) ↔ k = c ∨ is_Some (spaces w !! k)) as Hl0.
  { intros k. unfold w0, set_space. cbn [spaces]. destruct (decide (k = c)) as [->|Hk]; [rewrite lookup_insert_eq|rewrite lookup_insert_ne by done];
      split; eauto. by intros []. }
  assert (∀ i, tabs w0 !! (c, i) = None) as Htn by (intros; by rewrite Ht0, tabs_lookup, Hnone).
  assert (forking w0 w0 held n c 0) as Hf0.
  { split; try done; [by intros; apply view_refl|]. intros; lia. }
  assert (forkable w0 n limit) as Hfk0.
  { split_and!; [done|apply Hl0; right; by eexists|done|done]. }
  fold (blocks_of limit). destruct (fork_loop w0 w0 held n c limit (Z.to_nat (blocks_of limit)) 0 Hf0 Hok0 Hfk0 Hc Hnc)
    as (r & w1 & Hr & Hres); [apply Hl0; by left|lia..|]. rewrite Z2Nat.id in Hr by lia.
  assert (∀ m i j, 0 ≤ j < 1024 → view w w0 m i j) as Hvw by (intros; by apply same_at_view).
  destruct Hres as [(-> & Hf)|(-> & [k Hf] & Hno)]; (erewrite bind_Ok by (unfold mtry; rewrite Hr; reflexivity)).
  - exists (Ok ()), w1. split; [done|]. destruct Hf as [Fok Fex Fl Fn Fv Fc]. split; [done|done| |].
    + intros m i j Hj Hm. eapply view_trans; [by apply Hvw|by apply Fv].
    + split; [intros k; by rewrite Fl|]. intros i j Hi Hj. destruct (decide (i < blocks_of limit)) as [Hib|Hib].
      * destruct (Fc i j) as [Hw Hcont]; [lia|done|]. split; [done|]. rewrite Hcont. case_decide as Hjc.
        -- rewrite decide_True by done. eapply seen_same; [exact Hok|exact Hok0| |lia]. destruct (decide (n = 0%nat)) as [En|En].
           ++ right. destruct (H0 En) as [Hlm Hk]. destruct (blocks_bound limit Hlim) as [_ H1]. specialize (H1 Hlm). split_and!; [done|lia|done].
           ++ left. split_and!; try lia. by apply Hvw.
        -- rewrite decide_False by tauto. done.
      * rewrite decide_False by tauto. unfold entry_of, content, entry_of. rewrite Fn by lia. done.
  - destruct Hf as [Fok Fex Fl Fn Fv Fc]. destruct (drop_space_spec w1 held c Fok Fex) as (w2 & Hr2 & Hd); [apply Fl, Hl0; by left|done|].
    cbv beta iota. rewrite (bind_Ok _ _ _ _ _ Hr2). exists (Err NOMEM), w2. split; [done|]. split.
    + apply Hd.
    + apply Hd.
    + intros m i j Hj Hm. eapply view_trans; [by apply Hvw|]. eapply view_trans; [by apply Fv|]. apply same_at_view. by apply Hd.
    + split; [done|]. split; [by exists w1|]. intros m. rewrite (dr_spaces _ _ _ _ Hd). destruct (decide (m = c)) as [->|Hm].
      * rewrite lookup_delete_eq, Hnone. done.
      * rewrite lookup_delete_ne by done. rewrite Fl, Hl0. naive_solver.
Qed.

(** ** Steps *)

#[local] Instance inv_proper : Proper ((=) ==> (=) ==> (≡ₚ) ==> impl) inv.
Proof.
  intros T _ <- w _ <- h h' Hh Hi. split; try apply Hi.
  - intros f Hf. rewrite <- Hh. by apply (i_count _ _ _ Hi).
  - intros f. rewrite <- Hh. apply (i_held _ _ _ Hi).
Qed.

#[local] Instance ok_proper : Proper ((=) ==> (=) ==> (≡ₚ) ==> impl) ok.
Proof. intros T _ <- w _ <- h h' Hh [Hi ? ? ? ?]. split; try done. by rewrite <- Hh. Qed.

#[local] Instance sole_proper w : Proper ((≡ₚ) ==> impl) (sole_held w).
Proof. intros h h' Hh Hs f. rewrite <- Hh. apply Hs. Qed.

(** A store to a page of slot [n]: the processor marks the entry as accessed and
    dirty. *)
Definition user_store (n : nat) (i j k x : Z) (w : World) : World :=
  let t := entry_ppn (word w 0 (16 * Z.of_nat n + i)) in
  set_word (entry_ppn (word w t j)) k x (set_word t j (Z.lor (word w t j) 96) w).

(** The right to store: the kernel does not need it, CR0.WP being clear. *)
Definition may_store (w : World) (n : nat) (i j : Z) : Prop :=
  slot_ok w n i j ∧ is_present (walk w n i j) = true ∧ writable (walk w n i j) = true.

(** The state has the frames that others than the spaces own: pipes, kernel
    stacks, pages on their way to a space.  A step names the slot that acts. *)
Inductive task_step : option nat → World * list Z → World * list Z → Prop :=
| step_fork n c limit w h r w' :
    forkable w n limit → (0 < c < 64)%nat → spaces w !! c = None → cow_copy n c limit w = (r, w') → task_step (Some n) (w, h) (w', h)
| step_touch n i j w h r w' :
    slot_ok w n i j → map_page n (lin_page n i j) None w = (r, w') → task_step (Some n) (w, h) (w', h)
| step_write_fault n i j w h r w' :
    slot_ok w n i j → is_present (walk w n i j) = true → ensure_page_writable n (lin_page n i j) w = (r, w') →
    task_step (Some n) (w, h) (w', h)
| step_share m n i j w h r w' :
    slot_ok w m i j → slot_ok w n i j → m ≠ n → try_share_local_page_from m n i j w = (r, w') → task_step (Some m) (w, h) (w', h)
| step_exit n w h r w' : is_Some (spaces w !! n) → (0 < n < 64)%nat → drop_space n w = (r, w') → task_step (Some n) (w, h) (w', h)
| step_store n i j k x w h :
    may_store w n i j → 0 ≤ k < 1024 → task_step (Some n) (w, h) (user_store n i j k x w, h)
| step_alloc f w h w' : alloc_or_nomem w = (Ok f, w') → task_step None (w, h) (w', f :: h)
| step_fill f p w h : f ∈ h → length p = 1024%nat → task_step None (w, h) (mkWorld (set_page f p (phys w)) (spaces w), h)
| step_free f w h h' r w' : h ≡ₚ f :: h' → drop_frame (Some f) w = (r, w') → task_step None (w, h) (w', h')
| step_install n i j f w h h' r w' :
    h ≡ₚ f :: h' → slot_ok w n i j → map_page n (lin_page n i j) (Some f) w = (r, w') → task_step (Some n) (w, h) (w', h').

(** The kernel's stores to user memory ([segment/uaccess.rs]), for the task in slot
    [n], once the page is there; the faults that bring it are the steps above.
    [Stores] is the only act that goes by no right to write; each byte that
    [uaccess::write_u8] stores is one ([store_byte_step] of [UserAccess]). *)
Inductive Act : Set := Acts (o : option nat) | Stores (n : nat) (i j k x : Z).

Definition actor (a : Act) : option nat := match a with Acts o => o | Stores n _ _ _ _ => Some n end.

Inductive step : Act → World * list Z → World * list Z → Prop :=
| step_acts o s s' : task_step o s s' → step (Acts o) s s'
| step_stores n i j k x w h :
    slot_ok w n i j → is_present (walk w n i j) = true → 0 ≤ k < 1024 →
    step (Stores n i j k x) (w, h) (user_store n i j k x w, h).

(** A child of the first task finds the kernel's low memory in its pages until it
    writes them or calls [execve].  A store of the kernel's through such a page
    goes to the kernel itself; nothing is said of what comes after. *)
Definition spares_kernel (a : Act) (w : World) : Prop :=
  match a with Acts _ => True | Stores n i j _ _ => 512 ≤ entry_ppn (walk w n i j) end.

Definition good (s : World * list Z) : Prop := ok (tabs s.1) s.1 s.2 ∧ sole_held s.1 s.2.

(** What those who did not act may notice. *)
Definition undisturbed (a : option nat) (w w' : World) : Prop :=
  ∀ m i j, Some m ≠ a → is_Some (spaces w !! m) → 0 ≤ j < 1024 → view w w' m i j.

Lemma others_undisturbed w w' n i j : others_same w w' n i j → undisturbed (Some n) w w'.
Proof. intros Ho m i' j' Hm _ Hj. apply same_at_view, Ho; congruence. Qed.

(** Counts of held frames, when the space's operations keep those they do not own. *)
Lemma sole_kept T w w' h :
  inv T w h → sole_held w h →
  (∀ q, q ∈ h → tracked q → count (phys w) q ≠ 0 → (∀ k, dats w !! k ≠ Some q) → count (phys w') q = count (phys w) q) →
  sole_held w' h.
Proof.
  intros Hi Hs Hc f Hf. pose proof (Hs f Hf) as E. pose proof (i_held _ _ _ Hi f Hf) as Hp. rewrite Hc; [done|done| | |].
  - by eapply pool_tracked.
  - lia.
  - intros k Hk. rewrite (i_count _ _ _ Hi f Hp) in E. pose proof (occ_pos h f Hf). pose proof (vocc_pos _ _ _ Hk).
    pose proof (vocc_nonneg T f). lia.
Qed.

Lemma touch_good n i j o w h r w' :
  good (w, option_list o ++ h) → slot_ok w n i j → map_page n (lin_page n i j) o w = (r, w') → good (w', h) ∧ undisturbed (Some n) w w'.
Proof.
  intros [Hok Hs] Hsl Hrun. cbn [fst snd] in *.
  destruct (map_page_spec w h n i j o Hok) as (r' & w1 & Hr & Hm); [|done|].
  - intros f ->. apply Hs. by left.
  - rewrite Hrun in Hr. injection Hr as <- <-. split; [|by eapply others_undisturbed, Hm]. split; [apply Hm|]. cbn [fst snd].
    intros q Hq. assert (q ∈ option_list o ++ h) as Hq' by (apply elem_of_app; by right). pose proof (Hs q Hq') as E.
    assert (pool q) as Hp by (by apply (i_held _ _ _ (ok_inv _ _ _ Hok))).
    rewrite (i_count _ _ _ (ok_inv _ _ _ Hok) q Hp), occ_app in E.
    pose proof (occ_pos h q Hq). pose proof (vocc_nonneg (tabs w) q). pose proof (vocc_nonneg (dats w) q). pose proof (occ_nonneg (option_list o) q).
    rewrite (mr_count _ _ _ _ _ _ _ _ Hm); [by apply Hs|by eapply pool_tracked|rewrite (Hs q Hq'); lia| |].
    + intros k Hk. pose proof (vocc_pos _ _ _ Hk). lia.
    + intros ->. change (option_list (Some q)) with [q] in *. assert (0 < occ [q] q) by (apply occ_pos; by left). lia.
Qed.

Lemma fault_good n i j w h r w' :
  good (w, h) → slot_ok w n i j → mapped w n i j = true → ensure_page_writable n (lin_page n i j) w = (r, w') →
  good (w', h) ∧ undisturbed (Some n) w w'.
Proof.
  intros [Hok Hs] Hsl Hm Hrun. cbn [fst snd] in *. destruct (ensure_page_writable_spec w h n i j Hok Hsl Hm) as (r' & w1 & Hr & Hres).
  rewrite Hrun in Hr. injection Hr as <- <-. destruct Hres as [[_ Hw]|(_ & -> & _)]; [|by split; [|intros ? ? ? ? ? ?; apply view_refl]].
  split; [|by eapply others_undisturbed, Hw]. split; [apply Hw|]. eapply sole_kept; [apply Hok|done|]. intros. by apply (wr_count _ _ _ _ _ _ Hw).
Qed.

Lemma mark_facts e : is_uint 32 e →
  is_uint 32 (Z.lor e 96) ∧ is_present (Z.lor e 96) = is_present e ∧ entry_ppn (Z.lor e 96) = entry_ppn e ∧
  writable (Z.lor e 96) = writable e.
Proof.
  intros Hu. split_and!.
  - by apply lor_uint.
  - rewrite !present_bit, Z.lor_spec. apply orb_false_r.
  - unfold entry_ppn. rewrite Z.shiftr_lor. apply Z.lor_0_r.
  - rewrite !writable_bit, Z.lor_spec. apply orb_false_r.
Qed.

(** A writable page is one owner's. *)
Lemma writable_sole T w h n i j t :
  ok T w h → T !! (n, i) = Some t → 0 ≤ j < 1024 → is_present (word w t j) = true → writable (word w t j) = true →
  dats w !! (n, lin_page n i j) = Some (entry_ppn (word w t j)) ∧ count (phys w) (entry_ppn (word w t j)) = 1.
Proof.
  intros Hok Ht Hj Hp Hw. pose proof (i_pte _ _ _ (ok_inv _ _ _ Hok) n i t j Ht Hj Hp) as Hm.
  destruct (dats w !! (n, lin_page n i j)) as [f|]; [|destruct Hm; congruence]. destruct Hm as [-> Hc]. split; [done|by apply Hc].
Qed.

Lemma store_spec n i j k x w h :
  good (w, h) → may_store w n i j → 0 ≤ k < 1024 →
  good (user_store n i j k x w, h) ∧ others_same w (user_store n i j k x w) n i j ∧
  seen (user_store n i j k x w) n i j = (λ p, zupdate p k x) <$> seen w n i j ∧
  entry_of (user_store n i j k x w) n i j = Z.lor (entry_of w n i j) 96.
Proof.
  intros [Hok Hs] (Hsl & Hp & Hw) Hk. cbn [fst snd] in *. destruct (Hsl) as (Hlive & Hn & Hi & Hj).
  destruct (walk_entry _ _ _ n i j Hok Hn Hi) as [Ewalk Eseen]. rewrite Ewalk in Hp, Hw.
  destruct (entry_facts _ _ _ _ _ _ Hok Hsl Hp) as (t & Ht & He & Hu & Hpe & _). rewrite He in Hw.
  destruct (writable_sole _ _ _ _ _ _ _ Hok Ht Hj Hpe Hw) as [Hd Hc]. pose proof (ok_inv _ _ _ Hok) as Hinv.
  assert (entry_ppn (word w 0 (16 * Z.of_nat n + i)) = t) as Epde.
  { pose proof (ok_pdes _ _ _ Hok n i Hn Hi) as Hpd. rewrite Ht in Hpd. rewrite Hpd. eapply user_table. by apply (i_tab _ _ _ Hinv n i). }
  unfold user_store. rewrite Epde. cbv zeta. set (e := word w t j) in *. set (f := entry_ppn e) in *.
  destruct (mark_facts e Hu) as (Mu & Mp & Mf & Mw).
  destruct (rewrite_entry _ _ _ _ _ _ _ _ _ Hok Hsl Ht Hd Mu) as (Hok1 & He1 & Hoth1 & Hpg1 & Hc1 & Ht1 & Hd1 & Hs1); [congruence|done|done|].
  set (w1 := set_word t j (Z.lor e 96) w) in *. rewrite <- Hd1 in Hd. rewrite <- Hc1 in Hc. rewrite <- Ht1 in Hok1.
  rewrite set_word_eq by done. set (p := zupdate (page_at (phys w1) f) k x).
  destruct (set_page_sole _ w1 h n i j f p Hok1 Hd Hc) as (Hok2 & Hoth2 & He2 & Hcont2); [|done|].
  { unfold p. rewrite length_zupdate. apply (po_pages _ (i_phys _ _ _ (ok_inv _ _ _ Hok1))). }
  set (w2 := mkWorld _ _) in *. assert (tabs w2 = tabs w1) as Ht2 by done. rewrite <- Ht2 in Hok2. split_and!.
  - split; [done|]. cbn [fst snd]. intros q Hq. change (count (phys w2) q) with (count (phys w1) q). rewrite Hc1. by apply Hs.
  - intros m i' j' Hj' Hne. eapply same_at_trans; [by apply Hoth1|by apply Hoth2].
  - destruct (walk_entry _ _ _ n i j Hok2 Hn Hi) as [_ ->]. rewrite Hcont2; [|unfold mapped; by rewrite He1, Mp|by rewrite He1, Mf].
    rewrite Eseen. unfold content. rewrite He. fold e f. rewrite Hpe. rewrite Hd1 in Hd. destruct (i_dat _ _ _ Hinv _ _ _ Hd) as (Hpf & _).
    unfold Isolation.pool in Hpf. rewrite (proj2 (Z.eqb_neq f 0)) by lia. cbn. f_equal. unfold p. f_equal. apply Hpg1. intros E.
    eapply mapped_not_table; [exact Hinv|exact Ht|exact Hj|exact Hpe|]. fold e f. rewrite E. exact Ht.
  - by rewrite He2, He1, He.
Qed.

Lemma alloc_good f w h w' : good (w, h) → alloc_or_nomem w = (Ok f, w') → good (w', f :: h) ∧ undisturbed None w w'.
Proof.
  intros [Hok Hs] Hrun. cbn [fst snd] in *. destruct (alloc_frame_spec _ _ _ Hok) as [(f' & w1 & Hr & Hok1 & Hf)|[Hr _]]; [|congruence].
  rewrite Hr in Hrun. injection Hrun as -> ->. destruct (tabs_spaces _ _ (fh_spaces _ _ _ Hf)) as [Ht _]. split.
  - split; cbn [fst snd]; [by rewrite Ht|]. intros q [->|Hq]%elem_of_cons; [by rewrite (fh_count _ _ _ Hf), decide_True|].
    rewrite (fresh_count _ _ _ _ Hf); [by apply Hs|]. by rewrite (Hs q Hq).
  - intros m i j _ _ Hj. apply same_at_view. by eapply fresh_same.
Qed.

Lemma free_good f w h r w' : good (w, f :: h) → drop_frame (Some f) w = (r, w') → good (w', h) ∧ undisturbed None w w'.
Proof.
  intros [Hok Hs] Hrun. cbn [fst snd] in *. destruct (drop_held _ _ _ _ Hok) as (w1 & Hr & Hok1 & Hs1 & Hm1 & Hc1).
  rewrite Hrun in Hr. injection Hr as -> ->. destruct (tabs_spaces _ _ Hs1) as [Ht _].
  destruct (held_sole _ _ _ _ (ok_inv _ _ _ Hok)) as (Hnf & _); [apply Hs; by left|]. split.
  - split; cbn [fst snd]; [by rewrite Ht|]. intros q Hq. rewrite Hc1 by (by intros ->). apply Hs. by right.
  - intros m i j _ _ Hj. apply same_at_view. by apply same_mem.
Qed.

Lemma fill_good f p w h : good (w, h) → f ∈ h → length p = 1024%nat →
  good (mkWorld (set_page f p (phys w)) (spaces w), h) ∧ undisturbed None w (mkWorld (set_page f p (phys w)) (spaces w)).
Proof.
  intros [Hok Hs] Hf Hlen. cbn [fst snd] in *. set (w' := mkWorld _ _). pose proof (ok_inv _ _ _ Hok) as Hi.
  destruct (elem_of_Permutation h f) as [[h' Hh] _]; [done|]. pose proof Hi as Hi'. rewrite Hh in Hi'.
  destruct (held_sole _ _ _ _ Hi' (Hs f Hf)) as (_ & Hnt & Hnd).
  assert (pool f) as Hp by (by apply (i_held _ _ _ Hi)). unfold Isolation.pool in Hp.
  assert (∀ q j, q ≠ f → 0 ≤ j < 1024 → word w' q j = word w q j) as Hw.
  { intros q j Hq Hj. rewrite !word_eq by done. unfold w'. cbn [phys]. by rewrite page_at_set, decide_False. }
  split; [split; cbn [fst snd]; [|done]|].
  - change (tabs w') with (tabs w). eapply ok_same; [done| |done|done|]; [|intros q k Hq Hk; apply Hw; [lia|done]].
    eapply data_inv; [done|by apply set_page_ok; [apply Hi|]|done|done|]. intros k t j Ht Hj. apply Hw; [|done]. intros ->. by apply (Hnt k).
  - intros m i j _ _ Hj. apply same_at_view. destruct (tabs w !! (m, i)) as [t|] eqn:Ht.
    2:{ unfold same_at, content, entry_of. change (tabs w') with (tabs w). by rewrite Ht. }
    eapply same_view; try done; [apply Hw; [intros ->; by apply (Hnt (m, i))|done]|]. intros Hpr Hz _. unfold w'. cbn [phys].
    rewrite page_at_set, decide_False; [done|]. intros E. pose proof (i_pte _ _ _ Hi m i t j Ht Hj Hpr) as Hm.
    destruct (dats w !! (m, lin_page m i j)) as [g|] eqn:Eg; [|lia]. destruct Hm as [Hm _]. apply (Hnd (m, lin_page m i j)). congruence.
Qed.

(** Every such step keeps the invariant, and disturbs nobody else. *)
Lemma step_good a s s' : task_step a s s' → good s → good s' ∧ undisturbed a s.1 s'.1.
Proof.
  intros [n c limit w h r w' Hfk Hc Hnone Hr|n i j w h r w' Hsl Hr|n i j w h r w' Hsl Hp Hr|m n i j w h r w' Hm Hn Hne Hr
    |n w h r w' Hl Hn Hr|n i j k x w h Hms Hk|f w h w' Hr|f p w h Hf Hp|f w h h' r w' Hh Hr|n i j f w h h' r w' Hh Hsl Hr]
    [Hok Hs]; cbn [fst snd] in *.
  - destruct (cow_copy_spec w h n c limit Hok Hs Hfk Hc Hnone) as (r' & w1 & Hr' & Hf). rewrite Hr in Hr'. injection Hr' as <- <-.
    split; [split; apply Hf|]. intros m i j _ [x Hl] Hj. apply (fr_views _ _ _ _ _ _ _ Hf); [done|]. intros ->. congruence.
  - by eapply (touch_good n i j None).
  - eapply fault_good; [done|done| |done]. destruct (Hsl) as (_ & Hn & Hi & _).
    unfold mapped. by rewrite <- (proj1 (walk_entry _ _ _ n i j Hok Hn Hi)).
  - destruct (try_share_spec w h m n i j Hok Hs Hn Hm Hne) as (r' & w1 & Hr' & Hf). rewrite Hr in Hr'. injection Hr' as <- <-.
    split; [split; apply Hf|]. intros p i' j' Hp _ Hj. apply (sr_others _ _ _ _ _ _ _ _ Hf); [done|congruence].
  - destruct (drop_space_spec w h n Hok Hs Hl Hn) as (w1 & Hr' & Hd). rewrite Hr in Hr'. injection Hr' as -> ->.
    split; [split; apply Hd|]. intros m i j Hm _ Hj. apply same_at_view, (dr_others _ _ _ _ Hd); [done|congruence].
  - destruct (store_spec n i j k x w h (conj Hok Hs) Hms Hk) as (Hg & Ho & _). split; [done|by eapply others_undisturbed].
  - by eapply alloc_good.
  - by apply fill_good.
  - eapply free_good; [|done]. split; cbn [fst snd]; by rewrite <- Hh.
  - eapply (touch_good n i j (Some f)); [|done|done]. split; cbn [fst snd]; by rewrite <- Hh.
Qed.

(** *** Stores of the kernel *)

(** A data frame is given other contents: all pages that have it show them. *)
Lemma set_page_shared T w held key f p :
  ok T w held → dats w !! key = Some f → length p = 1024%nat →
  let w' := mkWorld (set_page f p (phys w)) (spaces w) in
  ok T w' held ∧
  ∀ m i j, 0 ≤ j < 1024 → entry_of w' m i j = entry_of w m i j ∧
    content w' m i j = if decide (mapped w m i j = true ∧ entry_ppn (entry_of w m i j) = f) then Some p else content w m i j.
Proof.
  intros Hok Hd Hlen w'. destruct key as [n lin]. pose proof (ok_inv _ _ _ Hok) as Hi.
  assert (pool f) as Hp by (by apply (i_dat _ _ _ Hi _ _ _ Hd)). unfold Isolation.pool in Hp.
  assert (∀ q k, q ≠ f → 0 ≤ k < 1024 → word w' q k = word w q k) as Hw.
  { intros q k Hq Hk. rewrite !word_eq by done. unfold w'. cbn [phys]. by rewrite page_at_set, decide_False. }
  assert (∀ k t, T !! k = Some t → t ≠ f) as Hnt by (intros k t Ht ->; by eapply data_not_table).
  split.
  - eapply ok_same; [done| |done|done|]; [|intros q k Hq Hk; apply Hw; [lia|done]].
    eapply data_inv; [done|by apply set_page_ok; [apply Hi|]|done|done|]. intros k t j' Ht Hj'. apply Hw; [by eapply Hnt|done].
  - intros m i j Hj. assert (entry_of w' m i j = entry_of w m i j) as E.
    { unfold entry_of. change (tabs w') with (tabs w). destruct (tabs w !! (m, i)) as [t|] eqn:Ht; [|done].
      apply Hw; [|done]. eapply Hnt. by eapply lookup_weaken; [|apply (ok_tabs _ _ _ Hok)]. }
    split; [done|]. unfold content, mapped. rewrite E. unfold w'. cbn [phys]. rewrite page_at_set.
    destruct (is_present _); cbn [andb]; [|by rewrite decide_False by by intros []].
    destruct (decide (entry_ppn (entry_of w m i j) = f)) as [->|Hne].
    + rewrite decide_True by done. by rewrite (proj2 (Z.eqb_neq f 0)) by lia.
    + by rewrite decide_False by tauto.
Qed.

Lemma stores_good n i j k x w h :
  good (w, h) → slot_ok w n i j → is_present (walk w n i j) = true → 512 ≤ entry_ppn (walk w n i j) → 0 ≤ k < 1024 →
  good (user_store n i j k x w, h) ∧
  ∀ m i' j', m ≠ n → 0 ≤ j' < 1024 →
    entry_of (user_store n i j k x w) m i' j' = entry_of w m i' j' ∧
    content (user_store n i j k x w) m i' j' =
      (if decide (mapped w m i' j' = true ∧ entry_ppn (entry_of w m i' j') = entry_ppn (walk w n i j))
       then (λ p, zupdate p k x) <$> content w m i' j' else content w m i' j').
Proof.
  intros [Hok Hs] Hsl Hp Hlow Hk. cbn [fst snd] in *. destruct (Hsl) as (Hlive & Hn & Hi & Hj). pose proof (ok_inv _ _ _ Hok) as Hinv.
  destruct (walk_entry _ _ _ n i j Hok Hn Hi) as [Ewalk _]. rewrite Ewalk in *.
  destruct (entry_facts _ _ _ _ _ _ Hok Hsl Hp) as (t & Ht & He & Hu & Hpe & HT). rewrite He in *. set (e := word w t j) in *. set (f := entry_ppn e) in *.
  assert (dats w !! (n, lin_page n i j) = Some f ∧ (writable e = true → count (phys w) f = 1)) as [Hd Hsole].
  { pose proof (i_pte _ _ _ Hinv n i t j HT Hj Hpe) as Hm. fold e f in Hm. destruct (dats w !! _) as [g|]; [|lia]. by destruct Hm as [-> ?]. }
  assert (entry_ppn (word w 0 (16 * Z.of_nat n + i)) = t) as Epde.
  { pose proof (ok_pdes _ _ _ Hok n i Hn Hi) as Hpd. rewrite Ht in Hpd. rewrite Hpd. eapply user_table. by apply (i_tab _ _ _ Hinv n i). }
  unfold user_store. rewrite Epde. cbv zeta. fold e f. destruct (mark_facts e Hu) as (Mu & Mp & Mf & Mw).
  destruct (rewrite_entry _ _ _ _ _ _ _ _ _ Hok Hsl Ht Hd Mu) as (Hok1 & He1 & Hoth1 & Hpg1 & Hc1 & Ht1 & Hd1 & Hs1); [congruence|done|by rewrite Mw|].
  set (w1 := set_word t j (Z.lor e 96) w) in *. rewrite <- Hd1 in Hd. rewrite <- Ht1 in Hok1.
  rewrite set_word_eq by done. set (p := zupdate (page_at (phys w1) f) k x).
  destruct (set_page_shared _ w1 h (n, lin_page n i j) f p Hok1 Hd) as [Hok2 Hpages].
  { unfold p. rewrite length_zupdate. apply (po_pages _ (i_phys _ _ _ (ok_inv _ _ _ Hok1))). }
  set (w2 := mkWorld _ _) in *. assert (tabs w2 = tabs w1) as Ht2 by done. rewrite <- Ht2 in Hok2.
  assert (page_at (phys w1) f = page_at (phys w) f) as Epage.
  { apply Hpg1. intros E. eapply mapped_not_table; [exact Hinv|exact HT|exact Hj|exact Hpe|]. fold e f. rewrite E. exact HT. }
  split.
  - split; [done|]. cbn [fst snd]. intros q Hq. change (count (phys w2) q) with (count (phys w1) q). rewrite Hc1. by apply Hs.
  - intros m i' j' Hm Hj'. destruct (Hpages m i' j' Hj') as [-> ->]. destruct (Hoth1 m i' j' Hj') as [Ee Ec]; [congruence|].
    unfold mapped. rewrite Ee. split; [done|]. case_decide as Hdec; [|done]. destruct Hdec as [Hpr Ef].
    unfold content. rewrite Hpr, Ef. cbn [andb]. pose proof (i_dat _ _ _ (ok_inv _ _ _ Hok1) _ _ _ Hd) as [Hpool _]. unfold Isolation.pool in Hpool.
    rewrite (proj2 (Z.eqb_neq f 0)) by lia. cbn. unfold p. by rewrite Epage.
Qed.

Lemma act_good a s s' : step a s s' → spares_kernel a s.1 → good s → good s'.
Proof.
  intros [o t t' Hst|n i j k x w h Hsl Hp Hk] Hsp Hg; [by eapply step_good|]. by apply stores_good.
Qed.
End inv.

Arguments step_good {lo hi}.
Arguments act_good {lo hi}.
Arguments stores_good {lo hi}.

(** ** Boot *)

(** The allocator has been told of the memory from [first] to [last], the
    directory has no entries for user slots, and the first task has a space
    without tables of its own. *)
Definition booted (first last : Z) (w : World) : Prop :=
  LOW_MEM ≤ first ∧ first ≤ last ∧ last ≤ HIGH_MEMORY ∧
  (∃ s, phys_ok s ∧ init first last s = Ok (phys w)) ∧
  spaces w = {[ 0%nat := empty_space 0 ]} ∧
  (∀ k, 16 ≤ k < 1024 → is_present (word w 0 k) = false).

Lemma booted_good first last w : booted first last w → good (first / 4096) (last / 4096) (word w) (w, []).
Proof.
  intros (H1 & H2 & H3 & (s & Hs & Hinit) & Hsp & Hdir). destruct (init_spec s first last Hs H1 H2 H3) as (s' & Hi & Hok & Hcnt).
  rewrite Hinit in Hi. injection Hi as <-.
  assert (∀ n i, tabs w !! (n, i) = None) as Ht.
  { intros n i. rewrite tabs_lookup, Hsp. destruct (decide (n = 0%nat)) as [->|]; [by rewrite lookup_singleton_eq|by rewrite lookup_singleton_ne]. }
  assert (∀ n i, dats w !! (n, i) = None) as Hd.
  { intros n i. rewrite dats_lookup, Hsp. destruct (decide (n = 0%nat)) as [->|]; [by rewrite lookup_singleton_eq|by rewrite lookup_singleton_ne]. }
  split; cbn [fst snd]; [|by intros f ?%elem_of_nil]. split.
  - split; try done.
    + intros f Htr Hnp. rewrite Hcnt by done. case_decide as E; [|done]. destruct Hnp. split; [|split; [|done]].
      * apply Z.div_le_lower_bound; [done|]. unfold LOW_MEM in H1. lia.
      * apply Z.div_le_upper_bound; [done|]. change HIGH_MEMORY with (4096 * 4096) in H3. lia.
    + intros f Hp. unfold pool in Hp. rewrite Hcnt by (unfold tracked; lia). rewrite decide_True by lia.
      rewrite occ_zero by apply not_elem_of_nil. rewrite !vocc_zero; [done|..]; intros [n i]; [by rewrite Hd|by rewrite Ht].
    + by intros f ?%elem_of_nil.
    + intros n i f. by rewrite Ht.
    + intros n i t j. by rewrite Ht.
    + intros n lin f. by rewrite Hd.
    + intros n i t j. by rewrite Ht.
    + intros n m lin lin' f. by rewrite Hd.
  - intros n ms. rewrite Hsp. intros [<- <-]%lookup_singleton_Some. split; [lia|done].
  - intros n i Hn Hi. rewrite Ht. apply Hdir. lia.
  - done.
  - done.
Qed.

(** The states that the steps lead to after boot. *)
Definition reachable (w0 : World) (s : World * list Z) : Prop :=
  rtc (λ s s', ∃ a, spares_kernel a s.1 ∧ step (word w0) a s s') (w0, []) s.

Lemma reachable_good first last w0 s : booted first last w0 → reachable w0 s → good (first / 4096) (last / 4096) (word w0) s.
Proof.
  intros Hb Hr. apply booted_good in Hb. induction Hr as [s|s1 s2 s3 (a & Hsp & Hst) _ IH]; [done|]. apply IH. by eapply act_good.
Qed.

(** ** Properties *)

Definition in_slot (m : nat) (i j : Z) : Prop := (0 < m < 64)%nat ∧ 0 ≤ i < 16 ∧ 0 ≤ j < 1024.

Lemma view_seen {lo hi low} T T' w w' h h' m i j :
  ok lo hi low T w h → ok lo hi low T' w' h' → in_slot m i j → view w w' m i j →
  seen w' m i j = seen w m i j ∧ (walk w' m i j = walk w m i j ∨ walk w' m i j = without_writable (walk w m i j)).
Proof.
  intros Hok Hok' (Hm & Hi & Hj) [Hc He]. destruct (walk_entry _ _ _ m i j Hok Hm Hi) as [-> ->].
  by destruct (walk_entry _ _ _ m i j Hok' Hm Hi) as [-> ->].
Qed.

(** An entry that a task's walk finds is one of its space's tables. *)
Lemma walk_facts {lo hi low} w h m i j :
  ok lo hi low (tabs w) w h → in_slot m i j → is_present (walk w m i j) = true →
  ∃ t, tabs w !! (m, i) = Some t ∧ walk w m i j = word w t j.
Proof.
  intros Hok (Hm & Hi & Hj) Hp. destruct (walk_entry _ _ _ m i j Hok Hm Hi) as [E _]. rewrite E in *. unfold entry_of in *.
  destruct (tabs w !! (m, i)) as [t|] eqn:Ht; [by exists t|done].
Qed.

(** Nobody else maps the frame of a page that may be written. *)
Lemma sole_mapping {lo hi low} w h n i j m i' j' :
  ok lo hi low (tabs w) w h → in_slot n i j → is_present (walk w n i j) = true → writable (walk w n i j) = true →
  in_slot m i' j' → (m, i', j') ≠ (n, i, j) → is_present (walk w m i' j') = true →
  entry_ppn (walk w m i' j') ≠ entry_ppn (walk w n i j).
Proof.
  intros Hok Hs Hp Hw Hs' Hne Hp' E. pose proof (ok_inv _ _ _ Hok) as Hi. destruct (Hs) as (_ & _ & Hj). destruct (Hs') as (_ & _ & Hj').
  destruct (walk_facts _ _ _ _ _ Hok Hs Hp) as (t & Ht & Ew). destruct (walk_facts _ _ _ _ _ Hok Hs' Hp') as (t' & Ht' & Ew').
  rewrite Ew in *. rewrite Ew' in *. destruct (writable_sole _ _ _ _ _ _ _ _ _ _ Hok Ht Hj Hp Hw) as [Hd Hc].
  destruct (i_dat _ _ _ Hi _ _ _ Hd) as (Hpool & _). pose proof (i_pte _ _ _ Hi m i' t' j' Ht' Hj' Hp') as Hm.
  destruct (dats w !! (m, lin_page m i' j')) as [g|] eqn:Hg; [|unfold pool in Hpool; lia]. destruct Hm as [Hm _].
  rewrite (i_count _ _ _ Hi _ Hpool) in Hc. pose proof (vocc_nonneg (tabs w) (entry_ppn (word w t j))). pose proof (occ_nonneg h (entry_ppn (word w t j))).
  assert (g = entry_ppn (word w t j)) as -> by congruence. assert ((m, lin_page m i' j') ≠ (n, lin_page n i j)) as Hk.
  { intros [= -> El]. apply Hne. destruct (lin_page_inj n i' j' i j) as [-> ->]; done. }
  pose proof (vocc_two _ _ _ _ Hg Hd Hk). lia.
Qed.

(** C1: Isolation.  After boot, whatever the tasks and the kernel have done (stores
    to the kernel's own memory aside): no step of a task (a fork, a page fault of
    either kind, sharing a page of its executable, exit, a store to a page it may
    write) and no step of the kernel's other users of frames changes what another
    task finds at any page, whose entry at most loses the right to write.  The same
    holds of a store of the kernel's through a page that the task may write.
    Through a write-protected page it does not: the word changes on every page of
    every task that shares the frame, and nothing else does. *)
Theorem cow_isolation first last w0 s a s' m i j :
  booted first last w0 → reachable w0 s → step (word w0) a s s' → spares_kernel a s.1 →
  Some m ≠ actor a → is_Some (spaces s.1 !! m) → in_slot m i j →
  (walk s'.1 m i j = walk s.1 m i j ∨ walk s'.1 m i j = without_writable (walk s.1 m i j)) ∧
  match a with
  | Acts _ => seen s'.1 m i j = seen s.1 m i j
  | Stores n i' j' k x =>
      (writable (walk s.1 n i' j') = true → seen s'.1 m i j = seen s.1 m i j) ∧
      seen s'.1 m i j =
        if decide (is_present (walk s.1 m i j) = true ∧ entry_ppn (walk s.1 m i j) = entry_ppn (walk s.1 n i' j'))
        then (λ p, zupdate p k x) <$> seen s.1 m i j else seen s.1 m i j
  end.
Proof.
  intros Hb Hr Hst Hsp Hm Hl Hs. pose proof (reachable_good _ _ _ _ Hb Hr) as Hg. pose proof (act_good _ _ _ _ Hst Hsp Hg) as Hg'.
  destruct Hst as [o t t' Hst|n i' j' k x w h Hsl Hp Hk].
  - destruct (step_good _ _ _ _ Hst Hg) as [_ Hu].
    destruct (view_seen _ _ _ _ _ _ m i j (proj1 Hg) (proj1 Hg') Hs) as [? ?]; [|by split]. apply Hu; [done..|]. apply Hs.
  - cbn [fst snd actor spares_kernel] in *. assert (m ≠ n) as Hmn by congruence. destruct (Hs) as (Hmr & Hi & Hj).
    destruct (stores_good (word w0) n i' j' k x w h Hg Hsl Hp Hsp Hk) as [_ Hpages]. destruct (Hpages m i j Hmn Hj) as [Ee Ec].
    destruct (walk_entry _ _ _ m i j (proj1 Hg) Hmr Hi) as [Ew Es]. destruct (walk_entry _ _ _ m i j (proj1 Hg') Hmr Hi) as [Ew' Es'].
    cbn [fst snd] in *. unfold mapped in Ec. rewrite <- Ew, <- Es, <- Es' in Ec. rewrite Ew', Ew, Ee. split; [by left|]. rewrite <- Ew.
    split; [|exact Ec]. intros Hw. rewrite Ec, decide_False; [done|]. intros [Hpm Hf]. revert Hf.
    eapply sole_mapping; [apply Hg|split_and!; apply Hsl|exact Hp|exact Hw|done|congruence|exact Hpm].
Qed.

(** The frames that were free at boot. *)
Definition available (w0 : World) (f : Z) : Prop := tracked f ∧ count (phys w0) f = 0.

Lemma available_pool first last w0 f : booted first last w0 → available w0 f → pool (first / 4096) (last / 4096) f.
Proof.
  intros Hb [Ht Hc]. apply booted_good in Hb as [Hok _]. cbn [fst snd] in Hok.
  destruct (decide (512 ≤ first / 4096 ∧ last / 4096 ≤ 4096 ∧ first / 4096 ≤ f < last / 4096)) as [|Hn]; [done|].
  by destruct (i_reserved _ _ _ (ok_inv _ _ _ Hok) f Ht Hn).
Qed.

Lemma count_bound {lo hi low} w h f : good lo hi low (w, h) → pool lo hi f → count (phys w) f ≤ 64.
Proof.
  intros [Hok Hs] Hp. cbn [fst snd] in *. pose proof (ok_inv _ _ _ Hok) as Hi. destruct (decide (f ∈ h)) as [Hf|Hf]; [rewrite (Hs f Hf); lia|].
  pose proof (i_count _ _ _ Hi f Hp) as Hc. rewrite (occ_zero h) in Hc by done. pose proof (shares_bound _ _ _ f Hi).
  destruct (decide (vocc (tabs w) f = 0)) as [E|Hne]; [lia|]. pose proof (vocc_nonneg (tabs w) f). unfold vocc in Hne, H0.
  destruct (decide (filter (λ kv : nat * Z * Z, kv.2 = f) (tabs w) = ∅)) as [E|(k & x & Hk)%map_choose]; [by rewrite E, map_size_empty in Hne|].
  apply map_lookup_filter_Some in Hk as [Hk E]. cbn [snd] in E. subst x. destruct k as [n i].
  destruct (i_tab _ _ _ Hi _ _ _ Hk) as (_ & -> & _). lia.
Qed.

(** C27: The allocator's counts are right.  After boot, the count of every frame
    that was free at boot is the number of its owners, the page tables and the
    handles of all spaces and the kernel's other users, and is at most 64, so
    that adding a share never wraps the byte; a page a task may write has count 1
    and no other page of any task has its frame; and no page of a task is a page
    table of a space. *)
Theorem frame_counts first last w0 w h :
  booted first last w0 → reachable w0 (w, h) →
  (∀ f, available w0 f → count (phys w) f = occ h f + vocc (tabs w) f + vocc (dats w) f ∧ count (phys w) f ≤ 64) ∧
  (∀ n i j, in_slot n i j → is_present (walk w n i j) = true → writable (walk w n i j) = true →
     count (phys w) (entry_ppn (walk w n i j)) = 1 ∧
     ∀ m i' j', in_slot m i' j' → (m, i', j') ≠ (n, i, j) → is_present (walk w m i' j') = true →
       entry_ppn (walk w m i' j') ≠ entry_ppn (walk w n i j)) ∧
  (∀ n i j k, in_slot n i j → is_present (walk w n i j) = true → tabs w !! k ≠ Some (entry_ppn (walk w n i j))).
Proof.
  intros Hb Hr. pose proof (reachable_good _ _ _ _ Hb Hr) as Hg. destruct (Hg) as [Hok _]. cbn [fst snd] in Hok.
  pose proof (ok_inv _ _ _ Hok) as Hi. split_and!.
  - intros f Hf. pose proof (available_pool _ _ _ _ Hb Hf) as Hp. split; [by apply (i_count _ _ _ Hi)|]. by eapply count_bound.
  - intros n i j Hs Hp Hw. split; [|by intros; eapply sole_mapping]. destruct (walk_facts _ _ _ _ _ Hok Hs Hp) as (t & Ht & Ew).
    rewrite Ew in *. eapply writable_sole; [exact Hok|exact Ht|apply Hs|done..].
  - intros n i j k Hs Hp. destruct (walk_facts _ _ _ _ _ Hok Hs Hp) as (t & Ht & Ew). rewrite Ew in *.
    eapply mapped_not_table; [exact Hi|exact Ht|apply Hs|done].
Qed.

(** C8: Fork copies.  After boot, a fork of a live task into a free slot ends,
    without panic.  When it succeeds the child finds, at every page below the
    data limit (of the first task: in its first 640 KB), what the parent found
    before, and nothing above it, and may write none of these pages; no task
    finds anything else than before, the parent included.  When a page table
    cannot be had, the error is [NOMEM], the child is gone, and every task finds
    what it found before. *)
Theorem fork_copies first last w0 w h n c limit :
  booted first last w0 → reachable w0 (w, h) → forkable (word w0) w n limit → (0 < c < 64)%nat → spaces w !! c = None →
  ∃ r w', cow_copy n c limit w = (r, w') ∧
    match r with
    | Ok _ =>
        (∀ k, is_Some (spaces w' !! k) ↔ k = c ∨ is_Some (spaces w !! k)) ∧
        ∀ i j, 0 ≤ i < 16 → 0 ≤ j < 1024 →
          writable (walk w' c i j) = false ∧
          seen w' c i j = if decide (i < blocks_of limit ∧ j < entries_of n) then seen w n i j else None
    | Err e => e = NOMEM ∧ ∀ k, is_Some (spaces w' !! k) ↔ is_Some (spaces w !! k)
    | Panic => False
    end ∧
    ∀ m i j, in_slot m i j → m ≠ c → seen w' m i j = seen w m i j.
Proof.
  intros Hb Hr Hfk Hc Hnone. destruct (reachable_good _ _ _ _ Hb Hr) as [Hok Hs]. cbn [fst snd] in *.
  destruct (cow_copy_spec _ _ _ w h n c limit Hok Hs Hfk Hc Hnone) as (r & w' & Hrun & Hf). exists r, w'. split; [done|].
  pose proof (fr_ok _ _ _ _ _ _ _ _ _ _ Hf) as Hok'. split.
  - pose proof (fr_result _ _ _ _ _ _ _ _ _ _ Hf) as Hres. destruct r as [|e|]; [|by destruct Hres as (? & _ & ?)|done].
    destruct Hres as [Hl Hch]. split; [done|]. intros i j Hi Hj. destruct (Hch i j Hi Hj) as [Hw Hcont].
    by destruct (walk_entry _ _ _ c i j Hok' Hc Hi) as [-> ->].
  - intros m i j Hm Hne. eapply view_seen; [exact Hok|exact Hok'|done|]. apply (fr_views _ _ _ _ _ _ _ _ _ _ Hf); [apply Hm|done].
Qed.

(** A write fault.  After boot, a write fault at a page that is there ends
    with the page writable and its contents as they were, or with [NOMEM], the
    state as it was and no frame free; no other page of any task changes. *)
Theorem write_fault first last w0 w h n i j :
  booted first last w0 → reachable w0 (w, h) → in_slot n i j → is_Some (spaces w !! n) → is_present (walk w n i j) = true →
  ∃ r w', ensure_page_writable n (lin_page n i j) w = (r, w') ∧
    (r = Ok () ∧ is_present (walk w' n i j) = true ∧ writable (walk w' n i j) = true ∧
       seen w' n i j = Some (page_at (phys w) (entry_ppn (walk w n i j))) ∧
       (∀ m i' j', in_slot m i' j' → (m, i', j') ≠ (n, i, j) → seen w' m i' j' = seen w m i' j' ∧ walk w' m i' j' = walk w m i' j') ∨
     r = Err NOMEM ∧ w' = w ∧ no_frames w).
Proof.
  intros Hb Hr Hsl Hl Hp. destruct (reachable_good _ _ _ _ Hb Hr) as [Hok Hs]. cbn [fst snd] in *. destruct (Hsl) as (Hn & Hi & Hj).
  destruct (walk_entry _ _ _ n i j Hok Hn Hi) as [Ew _]. rewrite Ew in *.
  destruct (ensure_page_writable_spec w h n i j Hok) as (r & w' & Hrun & Hres); [done|done|]. exists r, w'. split; [done|].
  destruct Hres as [[-> Hw]|Hno]; [left|by right]. split; [done|]. pose proof (wr_ok _ _ _ _ _ _ Hw) as Hok'.
  destruct (walk_entry _ _ _ n i j Hok' Hn Hi) as [-> ->]. destruct (wr_writable _ _ _ _ _ _ Hw) as [Hm Hwr].
  split_and!; [done|done|by apply (wr_content _ _ _ _ _ _ Hw)|]. intros m i' j' Hm' Hne.
  destruct (wr_others _ _ _ _ _ _ Hw m i' j') as [He Hc]; [apply Hm'|done|]. destruct Hm' as (Hmr & Hi' & _).
  destruct (walk_entry _ _ _ m i' j' Hok Hmr Hi') as [-> ->]. by destruct (walk_entry _ _ _ m i' j' Hok' Hmr Hi') as [-> ->].
Qed.

(** ** An example *)

(** A kernel whose first page table maps its first 640 KB, with 14 MB of frames. *)
Definition kernel_words : gmap Z Page :=
  {[ 0 := 4103 :: replicate 1023 0; 1 := map (λ k, Z.of_nat k * 4096 + 7) (seq 0 1024) ]}.
Definition boot_phys : Phys :=
  match init LOW_MEM HIGH_MEMORY (mkPhys (replicate 3584 0) kernel_words) with Ok p => p | _ => mkPhys [] ∅ end.
Definition boot_world : World := mkWorld boot_phys {[ 0%nat := empty_space 0 ]}.
(** The first task forks. *)
Definition two_tasks : World := (cow_copy 0 1 655360 boot_world).2.

Lemma boot_booted : booted LOW_MEM HIGH_MEMORY boot_world.
Proof.
  split_and!; [done|done|done| |done|].
  - exists (mkPhys (replicate 3584 0) kernel_words). split; [|vm_compute; reflexivity]. split; [done|by apply Forall_replicate|].
    intros q. unfold page_at, kernel_words. cbn [mem].
    destruct (_ !! q) as [p|] eqn:E; [|done]. cbn [default].
    apply lookup_insert_Some in E as [[_ <-]|[_ E]]; [done|]. apply lookup_singleton_Some in E as [_ <-]. vm_compute. reflexivity.
  - assert (forallb (λ k, negb (is_present (word boot_world 0 k))) (seqZ 16 1008) = true) as E by (vm_compute; reflexivity).
    intros k Hk. rewrite forallb_forall in E. apply negb_true_iff, E, list_elem_of_In, elem_of_seqZ. lia.
Qed.

Lemma boot_kernel_map : kernel_map (word boot_world).
Proof.
  assert (entry_ppn (word boot_world 0 0) = 1) as E by (vm_compute; reflexivity). unfold kernel_map. rewrite E.
  split; [|split; [lia|]].
  - assert (word boot_world 0 0 = 4103) as -> by (vm_compute; reflexivity). unfold is_uint. lia.
  - assert (forallb (λ k, bool_decide (is_uint 32 (word boot_world 1 k)) && (entry_ppn (word boot_world 1 k) <? 512)) (seqZ 0 160) = true) as Hall
      by (vm_compute; reflexivity).
    intros k Hk. rewrite forallb_forall in Hall. specialize (Hall k). apply andb_true_iff in Hall as [H1 H2]; [|apply list_elem_of_In, elem_of_seqZ; lia].
    apply bool_decide_eq_true in H1. apply Z.ltb_lt in H2. done.
Qed.

Lemma boot_forks : (cow_copy 0 1 655360 boot_world).1 = Ok ().
Proof. vm_compute. reflexivity. Qed.

Lemma boot_forkable : forkable (word boot_world) boot_world 0 655360.
Proof. split_and!; [lia|by eexists|lia|]. intros _. split; [lia|apply boot_kernel_map]. Qed.

Lemma two_tasks_reachable : reachable boot_world (two_tasks, []).
Proof.
  apply rtc_once. exists (Acts (Some 0%nat)). split; [done|]. apply step_acts, (step_fork _ 0 1 655360 _ _ (cow_copy 0 1 655360 boot_world).1); [apply boot_forkable|lia|done|apply surjective_pairing].
Qed.

Lemma fork_live {lo hi low} w n c limit k :
  good lo hi low (w, []) → forkable low w n limit → (0 < c < 64)%nat → spaces w !! c = None → (cow_copy n c limit w).1 = Ok () →
  is_Some (spaces (cow_copy n c limit w).2 !! k) ↔ k = c ∨ is_Some (spaces w !! k).
Proof.
  intros [Hok Hs] Hfk Hc Hnone Hr. destruct (cow_copy_spec _ _ _ w [] n c limit Hok Hs Hfk Hc Hnone) as (r & w' & Hrun & Hf).
  rewrite Hrun in Hr |- *. cbn [fst snd] in *. subst r. by destruct (fr_result _ _ _ _ _ _ _ _ _ _ Hf) as [Hl _].
Qed.

Lemma two_tasks_live k : is_Some (spaces two_tasks !! k) ↔ k = 1%nat ∨ k = 0%nat.
Proof.
  unfold two_tasks. rewrite (fork_live boot_world 0 1 655360 k (booted_good _ _ _ boot_booted) boot_forkable); [|lia|done|apply boot_forks].
  f_equiv. unfold boot_world. cbn [spaces].
  destruct (decide (k = 0%nat)) as [->|]; [by rewrite lookup_singleton_eq|]. rewrite lookup_singleton_ne by done. split; [by intros []|done].
Qed.

Lemma two_tasks_forkable : forkable (word boot_world) two_tasks 0 655360.
Proof. split_and!; [lia|apply two_tasks_live; by right|lia|]. intros _. split; [lia|apply boot_kernel_map]. Qed.

Lemma slot_2_free : spaces two_tasks !! 2%nat = None.
Proof. destruct (spaces two_tasks !! 2%nat) eqn:E; [exfalso|done]. destruct (proj1 (two_tasks_live 2)); [by eexists|lia..]. Qed.

(** The first task forks once more; the second one's view stays. *)
Lemma cow_isolation_witness :
  seen (cow_copy 0 2 655360 two_tasks).2 1 0 16 = seen two_tasks 1 0 16.
Proof.
  destruct (cow_isolation LOW_MEM HIGH_MEMORY boot_world (two_tasks, []) (Acts (Some 0%nat))
    ((cow_copy 0 2 655360 two_tasks).2, []) 1 0 16 boot_booted two_tasks_reachable) as [_ E].
  - apply step_acts, (step_fork _ 0 2 655360 _ _ (cow_copy 0 2 655360 two_tasks).1);
      [apply two_tasks_forkable|lia|apply slot_2_free|apply surjective_pairing].
  - exact I.
  - discriminate.
  - apply two_tasks_live. left. reflexivity.
  - unfold in_slot. lia.
  - exact E.
Defined.

Lemma frame_counts_witness : available boot_world 3000 ∧ count (phys two_tasks) 3000 ≤ 64.
Proof.
  assert (available boot_world 3000) as Ha by (split; [unfold tracked; lia|vm_compute; reflexivity]).
  split; [exact Ha|].
  destruct (frame_counts LOW_MEM HIGH_MEMORY boot_world two_tasks [] boot_booted two_tasks_reachable) as [Hc _].
  apply Hc, Ha.
Defined.

Lemma fork_copies_witness :
  ∃ r w', cow_copy 0 2 655360 two_tasks = (r, w') ∧ seen w' 1 0 16 = seen two_tasks 1 0 16.
Proof.
  destruct (fork_copies LOW_MEM HIGH_MEMORY boot_world two_tasks [] 0 2 655360 boot_booted two_tasks_reachable
    two_tasks_forkable) as (r & w' & Hr & _ & Hs); [lia|apply slot_2_free|].
  exists r, w'. split; [exact Hr|]. apply Hs; [unfold in_slot; lia|discriminate].
Defined.

Lemma write_fault_witness :
  ∃ r w', ensure_page_writable 1 (lin_page 1 0 16) two_tasks = (r, w') ∧
    (r = Ok () ∧ writable (walk w' 1 0 16) = true ∨ r = Err NOMEM).
Proof.
  destruct (write_fault LOW_MEM HIGH_MEMORY boot_world two_tasks [] 1 0 16 boot_booted two_tasks_reachable) as (r & w' & Hr & Hres).
  - unfold in_slot. lia.
  - apply two_tasks_live. left. reflexivity.
  - vm_compute. reflexivity.
  - exists r, w'. split; [exact Hr|]. destruct Hres as [(Hok & _ & Hw & _)|(He & _)]; [left; split; [exact Hok|exact Hw]|right; exact He].
Defined.

(** A page that a task has written is dirty, and is not handed to a task that
    loads the same executable.  After a fork, the copy that [ensure_page_writable]
    makes of it has the contents but is not dirty: it may be handed out until
    the task writes it again, and a system call that checks its buffer and then
    fails does not. *)
Example copy_forgets_dirty :
  let touched := (map_page 1 (lin_page 1 0 200) None two_tasks).2 in
  let written := user_store 1 0 200 5 77 touched in
  let forked := (cow_copy 1 2 4194304 written).2 in
  let checked := (ensure_page_writable 1 (lin_page 1 0 200) forked).2 in
  shareable (walk written 1 0 200) = false ∧ shareable (walk forked 1 0 200) = false ∧
  shareable (walk checked 1 0 200) = true ∧ (p ← seen checked 1 0 200; p !! 5%nat) = Some 77.
Proof. vm_compute. split_and!; reflexivity. Qed.
End Cow.
