(* ===== verification/PageFault.v ===== *)
(** * Page faults ([kernel/src/mm/page_fault.rs], [ensure_user_area_writable] in
    [kernel/src/mm/mod.rs])

    The handlers that give a task the pages of its executable, fresh zero pages
    and pages of its own, on top of the address spaces ([Space]) and of the block
    map of the executable's inode ([Minix]).  A handler runs to its end: what
    others do while it waits for a block is not interleaved. *)

From S2P Require Import Prelude Frame Space Isolation Fork Cow Bitmap Layout Minix BlockMap.
From stdpp Require Import gmap relations.
Open Scope kmonad_scope.
Open Scope Z_scope.

Module PageFault.
Import Frame Space Isolation Fork Cow.
#[local] Set Default Proof Using "Type".

(** ** State *)

(** What the handlers read of a task: the base of its data segment, the end of
    the data of its executable, and its executable, of which only the identity
    matters ([Arc::ptr_eq]). *)
Record Task : Type := mkTask { base : Z; end_data : Z; executable_inode : option Z }.

(** [file] is the executable of the current task with the buffers it is read
    through; a task has a memory space when [memory] has one at its slot. *)
Record Kernel : Type := mkKernel {
  memory : World;
  file : Minix.St;
  tasks : list (option Task);
  current_slot : nat;
}.

Definition with_memory (w : World) (k : Kernel) : Kernel := mkKernel w (file k) (tasks k) (current_slot k).
Definition with_file (s : Minix.St) (k : Kernel) : Kernel := mkKernel (memory k) s (tasks k) (current_slot k).

Definition on_memory {A} (m : M World A) : M Kernel A := λ k,
  let '(r, w) := m (memory k) in (r, with_memory w k).
Definition on_file {A} (m : M Minix.St A) : M Kernel A := λ k,
  let '(r, s) := m (file k) in (r, with_file s k).

(** [task::with_current] *)
Definition current : M Kernel Task := k <- mget;; mexpect (o ← tasks k !! current_slot k; o).

(** ** Bytes of a page *)

(** The words that bytes make up, and back; the processor is little-endian. *)
Fixpoint words_of (n : nat) (l : list Z) : Page :=
  match n with O => [] | S n => le_value (take 4 l) :: words_of n (drop 4 l) end.
Definition bytes_of (p : Page) : list Z := p ≫= le_bytes 4.

(** Bytes written at an offset of page [f]. *)
Definition put_bytes (f off : Z) (src : list Z) (w : World) : World :=
  mkWorld (set_page f (words_of 1024 (splice (bytes_of (page_at (phys w) f)) off src)) (phys w)) (spaces w).

(** ** Not-present faults *)

Inductive FaultKind : Type :=
| Executable (inode addr_offset end_data : Z) (local_offset : option (Z * Z))
| Anonymous.

(** [inner.memory_space.as_ref().and_then(|ms| ms.to_local(page))] *)
Definition local_of (page : Z) : M Kernel (option (Z * Z)) :=
  k <- mget;;
  match spaces (memory k) !! current_slot k with
  | Some _ => on_memory (to_local (current_slot k) page)
  | None => mok None
  end.

Definition classify (address fault_page : Z) : M Kernel FaultKind :=
  t <- current;;
  let addr_offset := wrapping_sub (Z.land address (unot 32 4095)) (base t) in
  match executable_inode t with
  | Some inode =>
      if addr_offset <? end_data t then
        local_offset <- local_of fault_page;;
        mok (Executable inode addr_offset (end_data t) local_offset)
      else mok Anonymous
  | None => mok Anonymous
  end.

(** One turn of the loop: whether the task in [slot] shared its page. *)
Definition share_from (exe : Z) (i j : Z) (slot : nat) : M Kernel bool :=
  k <- mget;;
  let n := current_slot k in
  if (slot =? n)%nat then mok false
  else match tasks k !! slot with
  | Some (Some source) =>
      if bool_decide (executable_inode source = Some exe) then
        match spaces (memory k) !! slot, spaces (memory k) !! n with
        | Some _, Some _ => on_memory (try_share_local_page_from n slot i j)
        | _, _ => mok false
        end
      else mok false
  | _ => mok false
  end.

Fixpoint share_loop (exe : Z) (i j : Z) (slots : list nat) : M Kernel bool :=
  match slots with
  | [] => mok false
  | slot :: rest =>
      shared <- share_from exe i j slot;;
      if shared : bool then mok true else share_loop exe i j rest
  end.

Definition try_share_page (exe : Z) (local_offset : option (Z * Z)) : M Kernel bool :=
  match local_offset with
  | None => mok false
  | Some (i, j) => k <- mget;; share_loop exe i j (seq 0 (length (tasks k)))
  end.

(** Block [i] of the page goes to frame [f]. *)
Definition load_block (f first_block i : Z) : M Kernel () :=
  block_id <- on_file (Minix.map_block_id (first_block + i) false);;
  buf <- (if negb (block_id =? 0) then on_file (Minix.read_block block_id) else mok None);;
  on_memory (mmodify (put_bytes f (i * Layout.BLOCK_SIZE) (default Layout.zero_block buf))).

(** [frame] is owned, so the early return drops it. *)
Definition load_exe_page (address_offset end_data : Z) : M Kernel (option Z) :=
  o <- on_memory (on_phys alloc);;
  match o with
  | None => mok None
  | Some f =>
      let first_block := 1 + address_offset / Layout.BLOCK_SIZE in
      r <- mtry (mfor (seqZ 0 (PAGE_SIZE / Layout.BLOCK_SIZE)) (load_block f first_block));;
      match r with
      | inr _ => on_memory (drop_frame (Some f));;; mok None
      | inl _ =>
          let page_end := as_u32 (address_offset + PAGE_SIZE) in
          (if (end_data <? page_end) && (address_offset <? end_data) then
             let bss_start := end_data - address_offset in
             on_memory (mmodify (put_bytes f bss_start (replicate (Z.to_nat (PAGE_SIZE - bss_start)) 0)))
           else mok ());;;
          mok (Some f)
      end
  end.

Definition entry_present (o : option Z) : bool := match o with Some e => is_present e | None => false end.
Definition is_ok {A} (r : A + Errno) : bool := match r with inl _ => true | inr _ => false end.

Definition try_load_page (fault_page addr_offset end_data : Z) : M Kernel bool :=
  o <- load_exe_page addr_offset end_data;;
  match o with
  | None => mok false
  | Some f =>
      k <- mget;;
      let n := current_slot k in
      match spaces (memory k) !! n with
      | None => on_memory (drop_frame (Some f));;; mok false
      | Some _ =>
          e <- on_memory (pte n fault_page);;
          if entry_present e then on_memory (drop_frame (Some f));;; mok true
          else r <- mtry (on_memory (map_page n fault_page (Some f)));; mok (is_ok r)
      end
  end.

Definition map_zero_page (fault_page : Z) : M Kernel bool :=
  k <- mget;;
  let n := current_slot k in
  match spaces (memory k) !! n with
  | None => mok false
  | Some _ => r <- mtry (on_memory (map_page n fault_page None));; mok (is_ok r)
  end.

(** How a handler ends: [oom] makes the task exit. *)
Inductive Outcome : Set := Resolved | Oom.

(** The [match] on the kind of fault. *)
Definition resolve (fault_page : Z) (kind : FaultKind) : M Kernel bool :=
  match kind with
  | Executable inode addr_offset end_data local_offset =>
      r <- mtry (try_share_page inode local_offset);;
      match r with
      | inl true => mok true
      | inl false => try_load_page fault_page addr_offset end_data
      | inr _ => mok false
      end
  | Anonymous => map_zero_page fault_page
  end.

Definition handle_no_page (address : Z) : M Kernel Outcome :=
  let fault_page := floor address in
  kind <- classify address fault_page;;
  resolved <- resolve fault_page kind;;
  if resolved : bool then mok Resolved
  else k <- mget;; if (current_slot k =? 0)%nat then mpanic else mok Oom.

(** ** Write faults *)

Definition handle_wp_page (address : Z) : M Kernel Outcome :=
  k <- mget;;
  r <- mtry (on_memory (ensure_page_writable (current_slot k) (floor address)));;
  mok (if is_ok r then Resolved else Oom).

(** One page of [ensure_user_area_writable]. *)
Definition unprotect (n : nat) (lin_page : Z) : M World () :=
  e <- pte n lin_page;;
  match e with
  | Some e => if is_present e && negb (contains (flags e) WRITABLE) then ensure_page_writable n lin_page else mok ()
  | None => mok ()
  end.

(** Every turn takes a page off [remaining]. *)
Fixpoint area_loop (fuel : nat) (n : nat) (remaining linear_addr : Z) : M World () :=
  match fuel with
  | O => mok ()
  | S fuel =>
      if 0 <? remaining then
        unprotect n (floor linear_addr);;;
        area_loop fuel n (Z.max 0 (remaining - PAGE_SIZE)) (as_u32 (linear_addr + PAGE_SIZE))
      else mok ()
  end.

Definition ensure_user_area_writable (addr size : Z) : M Kernel Outcome :=
  t <- current;;
  k <- mget;;
  let n := current_slot k in
  match spaces (memory k) !! n with
  | None => mok Resolved
  | Some _ =>
      let remaining := Z.min (Z.ones 32) (as_u32 size + page_offset addr) in
      let linear_addr := as_u32 (align_down addr + base t) in
      r <- mtry (on_memory (area_loop (S (Z.to_nat (remaining / PAGE_SIZE))) n remaining linear_addr));;
      mok (if is_ok r then Resolved else Oom)
  end.

(** ** Bytes and words *)

Lemma length_words n l : length (words_of n l) = n.
Proof. revert l. induction n; intros l; simpl; auto. Qed.

Lemma length_bytes p : length (bytes_of p) = (4 * length p)%nat.
Proof.
  induction p as [|x p IH]; [done|]. change (bytes_of (x :: p)) with (le_bytes 4 x ++ bytes_of p).
  rewrite length_app, length_le_bytes, IH. cbn [length]. lia.
Qed.

Lemma bytes_uint p : Forall (is_uint 8) (bytes_of p).
Proof.
  induction p as [|x p IH]; [constructor|]. change (bytes_of (x :: p)) with (le_bytes 4 x ++ bytes_of p).
  apply Forall_app. split; [apply le_bytes_uint|done].
Qed.

Lemma bytes_of_words n l : length l = (4 * n)%nat → Forall (is_uint 8) l → bytes_of (words_of n l) = l.
Proof.
  revert l. induction n as [|n IH]; intros l Hl Hu; [by destruct l|].
  change (bytes_of (words_of (S n) l)) with (le_bytes 4 (le_value (take 4 l)) ++ bytes_of (words_of n (drop 4 l))).
  rewrite IH; [|rewrite length_drop; lia|by apply Forall_drop]. etrans; [|apply (take_drop 4 l)]. f_equal.
  etrans; [|by apply (le_bytes_value (take 4 l)), Forall_take]. by rewrite length_take, Nat.min_l by lia.
Qed.

Lemma slice_splice_before {A} (l : list A) off src o n :
  0 ≤ o → 0 ≤ n → o + n ≤ off → off + Z.of_nat (length src) ≤ Z.of_nat (length l) →
  slice (splice l off src) o n = slice l o n.
Proof.
  intros Ho Hn Hb He. apply list_eq. intros x. destruct (decide (x < Z.to_nat n)%nat).
  - rewrite !slice_lookup, splice_lookup by lia. by rewrite decide_False by lia.
  - rewrite !lookup_ge_None_2; [done|..]; unfold slice; rewrite length_take; lia.
Qed.

Lemma splice_uint (l : list Z) off src : Forall (is_uint 8) l → Forall (is_uint 8) src → Forall (is_uint 8) (splice l off src).
Proof. intros Hl Hs. unfold splice. rewrite !Forall_app. split_and!; [by apply Forall_take|done|by apply Forall_drop]. Qed.

(** A page with given bytes. *)
Definition has_bytes (w : World) (f : Z) (B : list Z) : Prop :=
  length B = 4096%nat ∧ Forall (is_uint 8) B ∧ page_at (phys w) f = words_of 1024 B.

Lemma has_bytes_eq w f B : has_bytes w f B → bytes_of (page_at (phys w) f) = B.
Proof. intros (Hl & Hu & ->). by apply bytes_of_words. Qed.

Lemma put_bytes_has w f B off src :
  has_bytes w f B → 0 ≤ off → off + Z.of_nat (length src) ≤ 4096 → Forall (is_uint 8) src →
  has_bytes (put_bytes f off src w) f (splice B off src).
Proof.
  intros Hb Ho He Hs. pose proof (has_bytes_eq _ _ _ Hb) as E. destruct Hb as (Hl & Hu & _). split_and!.
  - rewrite length_splice by lia. done.
  - by apply splice_uint.
  - unfold put_bytes. cbn [phys]. rewrite page_at_set, decide_True by done. by rewrite E.
Qed.

Lemma zero_page_bytes w f : page_at (phys w) f = zero_page → has_bytes w f (replicate 4096 0).
Proof.
  intros E. split_and!; [done|apply Forall_replicate; unfold is_uint; lia|]. rewrite E. vm_compute. reflexivity.
Qed.

(** ** Runs *)

Lemma on_memory_run {A} (m : M World A) k r w : m (memory k) = (r, w) → on_memory m k = (r, with_memory w k).
Proof. intros E. unfold on_memory. by rewrite E. Qed.

Lemma on_file_run {A} (m : M Minix.St A) k r s : m (file k) = (r, s) → on_file m k = (r, with_file s k).
Proof. intros E. unfold on_file. by rewrite E. Qed.

Lemma try_run {S A} (m : M S A) s r s' : m s = (r, s') → r ≠ Panic →
  mtry m s = (Ok (match r with Ok a => inl a | Err e => inr e | Panic => inr NOMEM end), s').
Proof. intros E Hr. unfold mtry. rewrite E. by destruct r. Qed.

(** ** Changes that the tasks do not see *)

(** All pages but those of [P] are as they were, except that an entry may have
    lost the right to write. *)
Definition kept (P : nat * Z * Z → Prop) (w w' : World) : Prop :=
  (∀ m, is_Some (spaces w' !! m) ↔ is_Some (spaces w !! m)) ∧
  ∀ m i j, is_Some (spaces w !! m) → 0 ≤ j < 1024 → ¬ P (m, i, j) → view w w' m i j.

Lemma kept_same P w : kept P w w.
Proof. split; [done|]. intros. apply view_refl. Qed.

Lemma kept_trans P w1 w2 w3 : kept P w1 w2 → kept P w2 w3 → kept P w1 w3.
Proof.
  intros [L1 V1] [L2 V2]. split; [intros m; by rewrite L2|]. intros m i j Hm Hj Hp.
  eapply view_trans; [by apply V1|]. apply V2; [by apply L1|done..].
Qed.

Lemma kept_weaken (P Q : nat * Z * Z → Prop) w w' : (∀ x, P x → Q x) → kept P w w' → kept Q w w'.
Proof. intros H [L V]. split; [done|]. intros m i j Hm Hj Hq. apply V; [done..|]. intros Hp. by apply Hq, H. Qed.

Abbreviation nowhere := (λ _ : nat * Z * Z, False).

Lemma view_mapped w w' n i j : view w w' n i j → mapped w' n i j = mapped w n i j.
Proof.
  intros [_ [E|E]]; unfold mapped; rewrite E; [done|]. unfold without_writable. rewrite !present_bit, Z.land_spec, testbit_unot by lia.
  by rewrite andb_true_r.
Qed.

Section boot.
Context (first last : Z) (w0 : World) (Hb : booted first last w0).
#[local] Set Default Proof Using "Hb".
Local Abbreviation reach := (reachable w0).

Lemma reach_step a s s' : reach s → task_step (word w0) a s s' → reach s'.
Proof. intros Hr Hs. eapply rtc_r; [done|]. exists (Acts a). split; [done|by apply step_acts]. Qed.

Lemma reach_ok w h : reach (w, h) → ok (first / 4096) (last / 4096) (word w0) (tabs w) w h ∧ sole_held w h.
Proof. intros Hr. apply (reachable_good _ _ _ _ Hb Hr). Qed.

Lemma quiet_step w h w' h' : reach (w, h) → task_step (word w0) None (w, h) (w', h') →
  (∀ m, is_Some (spaces w' !! m) ↔ is_Some (spaces w !! m)) → reach (w', h') ∧ kept nowhere w w'.
Proof.
  intros Hr Hs Hl. split; [by eapply reach_step|]. split; [done|]. intros m i j Hm Hj _.
  destruct (step_good _ _ _ _ Hs (reachable_good _ _ _ _ Hb Hr)) as [_ Hu]. by apply (Hu m i j).
Qed.

(** A frame of the kernel's is taken, written and given back. *)
Lemma alloc_step w h : reach (w, h) →
  (∃ f w', on_phys alloc w = (Ok (Some f), w') ∧ reach (w', f :: h) ∧ kept nowhere w w' ∧ page_at (phys w') f = zero_page ∧ count (phys w') f = 1) ∨
  (on_phys alloc w = (Ok None, w) ∧ no_frames w).
Proof.
  intros Hr. destruct (reach_ok _ _ Hr) as [Hok Hs].
  destruct (alloc_frame_spec _ _ _ Hok) as [(f & w' & Ha & Hok' & Hf)|[Ha Hno]].
  - left. assert (on_phys alloc w = (Ok (Some f), w')) as Ea.
    { apply bind_Ok_inv in Ha as (o & w1 & H1 & H2). destruct o; [|done]. by injection H2 as -> ->. }
    destruct (quiet_step w h w' (f :: h) Hr) as [Hr' Hk]; [by apply step_alloc|intros m; by rewrite (fh_spaces _ _ _ Hf)|].
    exists f, w'. split_and!; [done|done|done| |].
    + by rewrite (fh_page _ _ _ Hf), decide_True.
    + by rewrite (fh_count _ _ _ Hf), decide_True.
  - right. split; [|done]. unfold alloc_or_nomem, bind in Ha. destruct (on_phys alloc w) as [[[f|]|e|] w1] eqn:E; try done.
    + injection Ha as <-. done.
    + unfold on_phys in E. destruct (frame_alloc_spec _ (i_phys _ _ _ (ok_inv _ _ _ Hok))) as [(? & ? & E' & _)|[E' _]];
        rewrite E' in E; congruence.
Qed.

Lemma put_step w h f off src : reach (w, h) → f ∈ h →
  reach (put_bytes f off src w, h) ∧ kept nowhere w (put_bytes f off src w).
Proof. intros Hr Hf. apply (quiet_step w h); [done| |done]. apply step_fill; [done|apply length_words]. Qed.

Lemma drop_step w h f : reach (w, f :: h) →
  ∃ w', drop_frame (Some f) w = (Ok (), w') ∧ reach (w', h) ∧ kept nowhere w w' ∧
    (∀ q, q ≠ f → count (phys w') q = count (phys w) q).
Proof.
  intros Hr. destruct (reach_ok _ _ Hr) as [Hok Hs]. destruct (drop_held _ _ _ _ Hok) as (w' & Hd & _ & Hsp & _ & Hc).
  exists w'. destruct (quiet_step w (f :: h) w' h Hr) as [Hr' Hk]; [by eapply step_free|by rewrite Hsp|]. done.
Qed.

(** ** Loading a page of the executable *)

(** The first [c] blocks of [B] are those of the file from block [fb] on; when
    the device may fail ([bad]), a block may be zeros instead. *)
Definition loaded (bad : Prop) (s : Minix.St) (fb c : Z) (B : list Z) : Prop :=
  ∀ d, 0 ≤ d < c →
    slice B (d * 1024) 1024 = BlockMap.contents s (fb + d) ∨ slice B (d * 1024) 1024 = Layout.zero_block ∧ bad.

Lemma loaded_next bad s fb c B b :
  loaded bad s fb c B → length B = 4096%nat → length b = 1024%nat → 0 ≤ c < 4 →
  b = BlockMap.contents s (fb + c) ∨ b = Layout.zero_block ∧ bad →
  loaded bad s fb (c + 1) (splice B (c * 1024) b).
Proof.
  intros Hl HB Hlb Hc Hres d Hd. destruct (decide (d = c)) as [->|Hne].
  - assert (slice (splice B (c * 1024) b) (c * 1024) 1024 = b) as ->; [|done].
    pose proof (splice_slice B (c * 1024) b) as E. rewrite Hlb in E. apply E; lia.
  - rewrite slice_splice_before by lia. apply Hl. lia.
Qed.

(** What a part of a handler keeps, at all pages but those of [P]. *)
Record moved (P : nat * Z * Z → Prop) (k k' : Kernel) (h : list Z) : Prop := {
  ld_reach : reach (memory k', h);
  ld_kept : kept P (memory k) (memory k');
  ld_file : BlockMap.alike (file k) (file k');
  ld_tasks : tasks k' = tasks k ∧ current_slot k' = current_slot k;
}.

Local Abbreviation loading := (moved nowhere).

Lemma loading_refl P k h : reach (memory k, h) → moved P k k h.
Proof. intros Hr. split; [done|apply kept_same|apply BlockMap.alike_refl|done]. Qed.

Lemma loading_trans P k1 k2 k3 h h' : moved P k1 k2 h → moved P k2 k3 h' → moved P k1 k3 h'.
Proof.
  intros [R1 K1 F1 [T1 C1]] [R2 K2 F2 [T2 C2]]. split; [done|by eapply kept_trans|by eapply BlockMap.alike_trans|split; congruence].
Qed.

(** A kernel whose file can be read, which fails only if [bad]. *)
Record readable (bad : Prop) (s0 : Minix.St) (k : Kernel) : Prop := {
  rd_start : BlockMap.wf s0;
  rd_mounted : Minix.mounted (file k) = true;
  rd_alike : BlockMap.alike s0 (file k);
  rd_bad : Minix.faults (file k) ≠ [] → bad;
}.

Lemma rd_wf bad s0 k : readable bad s0 k → BlockMap.wf (file k).
Proof. intros [Hwf _ Ha _]. by eapply BlockMap.alike_wf. Qed.

Lemma readable_next bad s0 k k' : readable bad s0 k → BlockMap.alike (file k) (file k') → readable bad s0 k'.
Proof.
  intros [Hwf Hm Ha Hbad] Ha'. split.
  - done.
  - by rewrite (BlockMap.al_mounted _ _ Ha').
  - by eapply BlockMap.alike_trans.
  - intros Hf. apply Hbad. intros E. by apply Hf, Ha'.
Qed.

(** The block that a turn of the loop gets. *)
Lemma fetch_spec bad s0 k l z :
  readable bad s0 k → z = BlockMap.val (file k) (BlockMap.data_loc l) →
  ∃ o s', (if negb (z =? 0) then on_file (Minix.read_block z) else mok None) k = (Ok o, with_file s' k) ∧ BlockMap.alike (file k) s' ∧
    let b := default Layout.zero_block o in
    Layout.block_ok b ∧ (b = BlockMap.contents s0 l ∨ b = Layout.zero_block ∧ bad).
Proof.
  intros Hrd Hz. pose proof (rd_wf _ _ _ Hrd) as Hwf. destruct Hrd as [_ _ Ha Hbad]. assert (Layout.block_ok Layout.zero_block) as H0 by (split; [done|apply Forall_replicate; unfold is_uint; lia]).
  pose proof (BlockMap.contents_ok (file k) l Hwf) as Hc. rewrite <- (BlockMap.alike_contents _ _ l Ha).
  unfold BlockMap.contents in *. rewrite <- Hz in *. cbv zeta in *. destruct (z =? 0) eqn:Ez; cbn [negb].
  - exists None, (file k). split; [by destruct k|]. split; [apply BlockMap.alike_refl|]. split; [done|by left].
  - destruct (BlockMap.read_block_spec z (file k)) as (o & s2 & Hrd & Ha2 & Ho). exists o, s2.
    split; [by rewrite (on_file_run _ k _ _ Hrd)|]. split; [done|]. destruct Ho as [->|[-> Hfs]]; (split; [done|]); [by left|right].
    split; [done|by apply Hbad].
Qed.

Lemma load_block_spec bad s0 k h f fb c B :
  reach (memory k, h) → f ∈ h → readable bad s0 k → 0 ≤ c < 4 → 0 ≤ fb + c < Minix.MAX_LOGICAL_BLOCKS →
  has_bytes (memory k) f B → loaded bad s0 fb c B →
  ∃ r k', load_block f fb c k = (r, k') ∧ loading k k' h ∧ count (phys (memory k')) f = count (phys (memory k)) f ∧
    (r = Ok () ∧ (∃ B', has_bytes (memory k') f B' ∧ loaded bad s0 fb (c + 1) B') ∨ r = Err IO ∧ bad).
Proof.
  intros Hr Hf Hrd Hc Hl HB HL.
  destruct (BlockMap.map_block_spec (fb + c) false (file k) (rd_wf _ _ _ Hrd) Hl (rd_mounted _ _ _ Hrd)) as (r & s1 & Hrun & _ & Hres & Hal).
  specialize (Hal eq_refl). unfold load_block. set (k1 := with_file s1 k). pose proof (readable_next _ _ _ k1 Hrd Hal) as Hrd1.
  destruct Hres as [[-> _]|[-> Hfl]].
  2:{ rewrite (bind_Err _ _ _ _ _ (on_file_run _ _ _ _ Hrun)). exists (Err IO), k1. split; [done|].
      split; [split; [done|apply kept_same|done|done]|]. split; [done|right]. split; [done|]. by apply (rd_bad _ _ _ Hrd). }
  rewrite (bind_Ok _ _ _ _ _ (on_file_run _ _ _ _ Hrun)).
  destruct (fetch_spec _ _ k1 (fb + c) _ Hrd1 eq_refl) as (o & s2 & Ho & Ha2 & [Hlb Hub] & Hb'). change (file k1) with s1 in Ho.
  fold k1. rewrite (bind_Ok _ _ _ _ _ Ho). set (b := default Layout.zero_block o) in *.
  change (Z.to_nat Layout.BLOCK_SIZE) with 1024%nat in Hlb. change Layout.BLOCK_SIZE with 1024.
  destruct (put_step (memory k) h f (c * 1024) b Hr Hf) as [Hr' Hk']. eexists (Ok ()), _. split; [reflexivity|].
  split; [split; [done|done|by eapply BlockMap.alike_trans|done]|]. split; [done|]. left. split; [done|]. exists (splice B (c * 1024) b). split.
  - apply put_bytes_has; [done|lia..|done].
  - apply loaded_next; [done|apply HB|done..].
Qed.

Lemma load_blocks_spec bad s0 h f fb (m : nat) k c B :
  reach (memory k, h) → f ∈ h → readable bad s0 k → 0 ≤ c → c + Z.of_nat m = 4 → 0 ≤ fb → fb + 4 ≤ Minix.MAX_LOGICAL_BLOCKS →
  has_bytes (memory k) f B → loaded bad s0 fb c B →
  ∃ r k', mfor (seqZ c (Z.of_nat m)) (load_block f fb) k = (r, k') ∧ loading k k' h ∧
    count (phys (memory k')) f = count (phys (memory k)) f ∧
    (r = Ok () ∧ (∃ B', has_bytes (memory k') f B' ∧ loaded bad s0 fb 4 B') ∨ r = Err IO ∧ bad).
Proof.
  revert k c B. induction m as [|m IH]; intros k c B Hr Hf Hrd Hc Hcm Hfb Hmax HB HL.
  { exists (Ok ()), k. split; [done|]. split; [by apply loading_refl|]. split; [done|].
    left. split; [done|]. exists B. replace 4 with c by lia. done. }
  rewrite seqZ_cons by lia. cbn [mfor]. replace (Z.pred (Z.of_nat (S m))) with (Z.of_nat m) by lia.
  destruct (load_block_spec bad s0 k h f fb c B Hr Hf Hrd) as (r & k1 & Hrun & Hl1 & Hc1 & Hres); [lia|lia|done|done|].
  destruct Hres as [[-> (B1 & HB1 & HL1)]|[-> Hbad]].
  2:{ rewrite (bind_Err _ _ _ _ _ Hrun). exists (Err IO), k1. split; [done|]. split; [done|]. split; [done|by right]. }
  rewrite (bind_Ok _ _ _ _ _ Hrun). replace (Z.succ c) with (c + 1) by lia.
  destruct (IH k1 (c + 1) B1) as (r & k2 & Hrun2 & Hl2 & Hc2 & Hres);
    [apply Hl1|done|by eapply readable_next, Hl1|lia|lia|done|done|done|done|].
  exists r, k2. split; [done|]. split; [by eapply loading_trans|]. split; [congruence|done].
Qed.

(** The bytes of a page of the executable: those of the file's data, which
    begins after the header's block, then zeros. *)
Definition exe_page (bad : Prop) (s : Minix.St) (off limit : Z) (B : list Z) : Prop :=
  ∀ x, 0 ≤ x < 4096 →
    zlookup B x = Some (if off + x <? limit then BlockMap.file_byte s (1024 + off + x) else 0) ∨ zlookup B x = Some 0 ∧ bad.

Lemma loaded_byte bad s off B x :
  loaded bad s (1 + off / 1024) 4 B → length B = 4096%nat → BlockMap.wf s → off mod 1024 = 0 → 0 ≤ x < 4096 →
  zlookup B x = Some (BlockMap.file_byte s (1024 + off + x)) ∨ zlookup B x = Some 0 ∧ bad.
Proof.
  intros Hl HB Hwf Ho Hx. assert (0 ≤ x / 1024 < 4 ∧ 0 ≤ x mod 1024 < 1024 ∧ x = x / 1024 * 1024 + x mod 1024) as (Hd & Hm & Ex)
    by (Z.to_euclidean_division_equations; lia).
  assert ((1024 + off + x) / 1024 = 1 + off / 1024 + x / 1024 ∧ (1024 + off + x) mod 1024 = x mod 1024) as [E1 E2]
    by (Z.to_euclidean_division_equations; lia).
  assert (zlookup B x = slice B (x / 1024 * 1024) 1024 !! Z.to_nat (x mod 1024)) as E.
  { unfold zlookup. rewrite (proj2 (Z.leb_le 0 x)), slice_lookup by lia. f_equal. lia. }
  rewrite E. destruct (Hl (x / 1024) Hd) as [El|[El Hbad]]; rewrite El; [left|right].
  - unfold BlockMap.file_byte, Layout.byte_at. change Layout.BLOCK_SIZE with 1024. rewrite E1, E2.
    destruct (BlockMap.contents_ok s (1 + off / 1024 + x / 1024) Hwf) as [Hlen _]. change (Z.to_nat Layout.BLOCK_SIZE) with 1024%nat in Hlen.
    destruct (lookup_lt_is_Some_2 (BlockMap.contents s (1 + off / 1024 + x / 1024)) (Z.to_nat (x mod 1024))) as [b Eb]; [lia|].
    unfold zlookup. rewrite (proj2 (Z.leb_le 0 (x mod 1024))), Eb by lia. done.
  - split; [|done]. apply lookup_replicate_2. change (Z.to_nat Layout.BLOCK_SIZE) with 1024%nat. lia.
Qed.

Lemma loaded_exe_page bad s off limit B B' :
  loaded bad s (1 + off / 1024) 4 B → length B = 4096%nat → BlockMap.wf s → off mod 1024 = 0 → off < limit →
  B' = (if limit <? off + 4096 then splice B (limit - off) (replicate (Z.to_nat (4096 - (limit - off))) 0) else B) →
  exe_page bad s off limit B'.
Proof.
  intros Hl HB Hwf Ho Hlim -> x Hx. pose proof (loaded_byte _ _ _ _ x Hl HB Hwf Ho Hx) as Hbyte.
  destruct (Z.ltb_spec limit (off + 4096)); [|by rewrite (proj2 (Z.ltb_lt _ _)) by lia].
  assert (length (replicate (Z.to_nat (4096 - (limit - off))) 0) = Z.to_nat (4096 - (limit - off))) as Hr by apply length_replicate.
  unfold zlookup in *. rewrite (proj2 (Z.leb_le 0 x)) in * by lia. rewrite splice_lookup by lia. rewrite Hr.
  destruct (Z.ltb_spec (off + x) limit).
  - by rewrite decide_False by lia.
  - left. rewrite decide_True by lia. apply lookup_replicate_2. lia.
Qed.

(** At most the frame [o] is free. *)
Lemma load_exe_page_spec bad s0 k h off limit :
  reach (memory k, h) → readable bad s0 k → 0 ≤ off < limit → limit ≤ TASK_LINEAR_SIZE → off mod 4096 = 0 →
  ∃ r k', load_exe_page off limit k = (Ok r, k') ∧
    match r with
    | Some f => loading k k' (f :: h) ∧ count (phys (memory k')) f = 1 ∧
        ∃ B, has_bytes (memory k') f B ∧ exe_page bad s0 off limit B
    | None => loading k k' h ∧ (no_frames (memory k') ∨ bad)
    end.
Proof.
  intros Hr Hrd Hoff Hlim Hmod. change TASK_LINEAR_SIZE with 67108864 in Hlim. unfold load_exe_page.
  destruct (alloc_step _ _ Hr) as [(f & w1 & Ha & Hr1 & Hk1 & Hz & Hc)|[Ha Hno]]; rewrite (bind_Ok _ _ _ _ _ (on_memory_run _ _ _ _ Ha)).
  2:{ exists None, k. assert (with_memory (memory k) k = k) as -> by (by destruct k). split; [done|]. split; [by apply loading_refl|by left]. }
  set (k1 := with_memory w1 k). assert (loading k k1 (f :: h)) as Hl1 by (split; [done|done|apply BlockMap.alike_refl|done]).
  assert (readable bad s0 k1) as Hrd1 by (eapply readable_next; [done|apply BlockMap.alike_refl]). cbv zeta.
  change (seqZ 0 (PAGE_SIZE / Layout.BLOCK_SIZE)) with (seqZ 0 (Z.of_nat 4)). change Layout.BLOCK_SIZE with 1024.
  assert (0 ≤ off / 1024 < 65536) as Hfb by (Z.to_euclidean_division_equations; lia).
  destruct (load_blocks_spec bad s0 (f :: h) f (1 + off / 1024) 4 k1 0 (replicate 4096 0) Hr1) as (r & k2 & Hrun & Hl2 & Hc2 & Hres);
    [by left|done|done|done|lia|change Minix.MAX_LOGICAL_BLOCKS with 262663; lia|by apply zero_page_bytes|intros d; lia|].
  pose proof (loading_trans _ _ _ _ _ _ Hl1 Hl2) as Hl12.
  destruct Hres as [[-> (B & HB & HL)]|[-> Hbad]]; (erewrite bind_Ok by (by eapply (try_run _ _ _ _ Hrun))); cbv beta iota.
  2:{ destruct (drop_step _ _ _ (ld_reach _ _ _ _ Hl2)) as (w3 & Hd & Hr3 & Hk3 & _). rewrite (bind_Ok _ _ _ _ _ (on_memory_run _ _ _ _ Hd)).
      eexists None, _. split; [done|]. split; [|by right]. eapply loading_trans; [exact Hl12|].
      split; [done|done|apply BlockMap.alike_refl|done]. }
  assert (as_u32 (off + PAGE_SIZE) = off + 4096) as -> by (apply wrap_small; change PAGE_SIZE with 4096; unfold is_uint; lia).
  rewrite (proj2 (Z.ltb_lt off limit)), andb_true_r by lia. pose proof (readable_next _ _ _ _ Hrd1 (ld_file _ _ _ _ Hl2)) as Hrd2.
  assert (off mod 1024 = 0) as Hmod' by (Z.to_euclidean_division_equations; lia). destruct (HB) as (HlB & HuB & _).
  assert (∃ k3, (if limit <? off + 4096
       then on_memory (mmodify (put_bytes f (limit - off) (replicate (Z.to_nat (PAGE_SIZE - (limit - off))) 0))) else mok ()) k2 = (Ok (), k3) ∧
     loading k2 k3 (f :: h) ∧ count (phys (memory k3)) f = count (phys (memory k2)) f ∧
     has_bytes (memory k3) f (if limit <? off + 4096 then splice B (limit - off) (replicate (Z.to_nat (4096 - (limit - off))) 0) else B))
     as (k3 & Hrun3 & Hl3 & Hc3 & HB3).
  { destruct (Z.ltb_spec limit (off + 4096)).
    - destruct (put_step (memory k2) (f :: h) f (limit - off) (replicate (Z.to_nat (4096 - (limit - off))) 0) (ld_reach _ _ _ _ Hl2)) as [Hr3 Hk3]; [by left|].
      eexists. split; [reflexivity|]. split; [split; [done|done|apply BlockMap.alike_refl|done]|]. split; [done|].
      apply put_bytes_has; [done|lia|rewrite length_replicate; lia|apply Forall_replicate; unfold is_uint; lia].
    - exists k2. split; [done|]. split; [apply loading_refl, Hl2|done]. }
  rewrite (bind_Ok _ _ _ _ _ Hrun3). exists (Some f), k3. split; [done|]. split; [by eapply loading_trans|]. split; [change (memory k1) with w1 in Hc2; congruence|].
  eexists. split; [exact HB3|]. eapply loaded_exe_page; [exact HL|done|apply Hrd|done|lia|done].
Qed.

(** ** The page gets a frame *)

Definition here (n : nat) (i j : Z) : nat * Z * Z → Prop := λ x, x = (n, i, j).

Lemma loading_moved P k k' h : loading k k' h → moved P k k' h.
Proof. intros [R K F T]. split; [done| |done|done]. eapply kept_weaken; [|exact K]. by intros ?. Qed.

Lemma kept_slot P w w' n i j : kept P w w' → slot_ok w n i j → slot_ok w' n i j.
Proof. intros [Hl _]. by apply slot_ok_live. Qed.

Lemma kept_unmapped w w' n i j : kept nowhere w w' → slot_ok w n i j → mapped w n i j = false → mapped w' n i j = false.
Proof. intros [_ Hv] Hs Hm. rewrite (view_mapped w); [done|]. apply Hv; [apply Hs|apply Hs|tauto]. Qed.

Lemma map_step w h n i j o :
  reach (w, option_list o ++ h) → slot_ok w n i j → mapped w n i j = false →
  ∃ r w', map_page n (lin_page n i j) o w = (r, w') ∧ r ≠ Panic ∧ reach (w', h) ∧ kept (here n i j) w w' ∧ others_same w w' n i j ∧
    match r with
    | Ok _ => writable (entry_of w' n i j) = true ∧ content w' n i j = Some (match o with Some f => page_at (phys w) f | None => zero_page end)
    | _ => scarce w' o ∧ mapped w' n i j = false
    end.
Proof.
  intros Hr Hs Hm. destruct (reach_ok _ _ Hr) as [Hok Hsole].
  destruct (map_page_spec w h n i j o Hok) as (r & w' & Hrun & Hres); [intros f ->; apply Hsole; by left|done|].
  exists r, w'. split; [done|]. pose proof (mr_result _ _ _ _ _ _ _ _ Hres) as Hr'. rewrite Hm in Hr'.
  split; [by destruct r|]. split; [|split; [|split; [apply Hres|]]].
  - eapply reach_step; [exact Hr|]. destruct o as [f|]; [apply (step_install _ n i j f w (f :: h) h r w'); [done|done|exact Hrun]|eapply step_touch; [done|exact Hrun]].
  - split; [apply Hres|]. intros m i' j' _ Hj' Hne. by apply same_at_view, (mr_others _ _ _ _ _ _ _ _ Hres).
  - destruct r as [|e|]; [done| |done]. destruct Hr' as [[He _] [(_ & ? & _)|[_ ?]]]; [done|]. split; [done|]. unfold mapped. by rewrite He.
Qed.

(** What a handler leaves when a frame could not be had. *)
Definition one_free (w : World) : Prop := ∃ o, scarce w o.

Lemma no_frames_one w : no_frames w → one_free w.
Proof. intros H. exists None. intros q Hq _. by apply H. Qed.

Lemma memory_eta k : with_memory (memory k) k = k.
Proof. by destruct k. Qed.

(** Mapping as the handlers do it. *)
Lemma map_current k h n i j o :
  reach (memory k, option_list o ++ h) → slot_ok (memory k) n i j → mapped (memory k) n i j = false →
  ∃ r k', (r <- mtry (on_memory (map_page n (lin_page n i j) o));; mok (is_ok r)) k = (Ok r, k') ∧ moved (here n i j) k k' h ∧
    others_same (memory k) (memory k') n i j ∧
    if r : bool then writable (entry_of (memory k') n i j) = true ∧
      content (memory k') n i j = Some (match o with Some f => page_at (phys (memory k)) f | None => zero_page end)
    else one_free (memory k') ∧ mapped (memory k') n i j = false.
Proof.
  intros Hr Hs Hm. destruct (map_step _ _ _ _ _ _ Hr Hs Hm) as (r & w' & Hrun & Hnp & Hr' & Hk & Ho & Hres).
  erewrite bind_Ok by (by eapply (try_run _ _ _ _ (on_memory_run _ _ _ _ Hrun))). eexists _, (with_memory w' k). split; [reflexivity|].
  split; [split; [done|done|apply BlockMap.alike_refl|done]|]. split; [done|]. destruct r as [|e|]; [done| |done].
  destruct Hres as [Hsc Hm']. split; [by eexists|done].
Qed.

Lemma try_load_page_spec bad s0 k h i j off limit :
  let n := current_slot k in
  reach (memory k, h) → readable bad s0 k → 0 ≤ off < limit → limit ≤ TASK_LINEAR_SIZE → off mod 4096 = 0 →
  slot_ok (memory k) n i j → mapped (memory k) n i j = false →
  ∃ r k', try_load_page (lin_page n i j) off limit k = (Ok r, k') ∧ moved (here n i j) k k' h ∧
    if r : bool then writable (entry_of (memory k') n i j) = true ∧
      ∃ B, content (memory k') n i j = Some (words_of 1024 B) ∧ length B = 4096%nat ∧ Forall (is_uint 8) B ∧ exe_page bad s0 off limit B
    else one_free (memory k') ∨ bad.
Proof.
  intros n Hr Hrd Hoff Hlim Hmod Hs Hm. unfold try_load_page.
  destruct (load_exe_page_spec bad s0 k h off limit Hr Hrd Hoff Hlim Hmod) as (r & k1 & Hrun & Hres). rewrite (bind_Ok _ _ _ _ _ Hrun).
  destruct r as [f|].
  2:{ destruct Hres as [Hl Hres]. exists false, k1. split; [done|]. split; [by apply loading_moved|].
      destruct Hres as [Hno|]; [left; by apply no_frames_one|by right]. }
  destruct Hres as (Hl1 & Hc & B & (HlB & HuB & HB) & Hexe). erewrite bind_Ok by reflexivity. cbv zeta.
  assert (current_slot k1 = n) as -> by apply Hl1.
  pose proof (kept_slot _ _ _ _ _ _ (ld_kept _ _ _ _ Hl1) Hs) as Hs1. pose proof (kept_unmapped _ _ _ _ _ (ld_kept _ _ _ _ Hl1) Hs Hm) as Hm1.
  destruct (Hs1) as ([ms Hms] & _). rewrite Hms. destruct (reach_ok _ _ (ld_reach _ _ _ _ Hl1)) as [Hok _].
  destruct (pte_entry _ _ _ _ _ _ Hok Hs1) as (e & He & Hpr & _). rewrite (bind_Ok _ _ _ _ _ (on_memory_run _ _ _ _ He)), memory_eta.
  change (entry_present e) with (match e with Some e => is_present e | None => false end). rewrite Hpr, Hm1.
  destruct (map_current k1 h n i j (Some f)) as (r & k2 & Hrun2 & Hl2 & _ & Hres); [apply Hl1|done|done|].
  exists r, k2. split; [done|]. split; [eapply loading_trans; [by apply loading_moved|done]|].
  destruct r; [|left; apply Hres]. destruct Hres as [Hw Hcont]. split; [done|]. exists B. by rewrite Hcont, HB.
Qed.

(** ** A page of another task *)

Lemma contains_bit x k : 0 ≤ k → contains x (2 ^ k) = Z.testbit x k.
Proof.
  intros Hk. unfold contains. destruct (Z.eqb_spec (Z.land x (2 ^ k)) (2 ^ k)) as [E|E].
  - symmetry. apply (f_equal (λ y, Z.testbit y k)) in E. by rewrite Z.land_spec, Z.pow2_bits_true, andb_true_r in E.
  - destruct (Z.testbit x k) eqn:Ex; [|done]. destruct E. apply Z.bits_inj'. intros m Hm. rewrite Z.land_spec, Z.pow2_bits_eqb by done.
    destruct (Z.eqb_spec k m) as [->|]; [by rewrite Ex|apply andb_false_r].
Qed.

Lemma dirty_bit e : contains (flags e) DIRTY = Z.testbit e 6.
Proof. change DIRTY with (2 ^ 6). rewrite contains_bit by done. unfold flags. rewrite Z.land_spec. apply andb_true_r. Qed.

Lemma writable_flag e : contains (flags e) WRITABLE = writable e.
Proof. change WRITABLE with (2 ^ 1). rewrite contains_bit, writable_bit by done. unfold flags. rewrite Z.land_spec. apply andb_true_r. Qed.

Lemma shareable_view w w' n i j : is_uint 32 (entry_of w n i j) → view w w' n i j →
  shareable (entry_of w' n i j) = shareable (entry_of w n i j).
Proof.
  intros Hu [_ [->| ->]]; [done|]. destruct (without_writable_eq _ Hu) as (_ & Hq & Hp & _). unfold shareable. rewrite Hq, Hp, !dirty_bit.
  unfold without_writable. rewrite Z.land_spec, testbit_unot by lia. by rewrite andb_true_r.
Qed.

Lemma entry_uint w h n i j : reach (w, h) → 0 ≤ j < 1024 → is_uint 32 (entry_of w n i j).
Proof.
  intros Hr Hj. destruct (reach_ok _ _ Hr) as [Hok _]. unfold entry_of. destruct (tabs w !! (n, i)) as [t|] eqn:E; [|unfold is_uint; lia].
  by apply (i_words _ _ _ (ok_inv _ _ _ Hok) n i).
Qed.

(** Those whose executable is the current task's: no first task, and no slot
    beyond the table. *)
Definition sharers_ok (k : Kernel) : Prop :=
  (length (tasks k) ≤ 64)%nat ∧ ∀ t, tasks k !! 0%nat = Some (Some t) → executable_inode t = None.

(** Task [m] had the page, clean, and now both have it. *)
Definition shared_with (k k' : Kernel) (exe : Z) (n : nat) (i j : Z) (m : nat) : Prop :=
  (0 < m < 64)%nat ∧ m ≠ n ∧ is_Some (spaces (memory k) !! m) ∧
  (∃ t, tasks k !! m = Some (Some t) ∧ executable_inode t = Some exe) ∧
  shareable (entry_of (memory k) m i j) = true ∧ mapped (memory k') n i j = true ∧
  writable (entry_of (memory k') n i j) = false ∧ content (memory k') n i j = content (memory k) m i j.

Definition share_outcome (k k' : Kernel) (exe : Z) (n : nat) (i j : Z) (r : result bool) : Prop :=
  match r with
  | Ok true => ∃ m, shared_with k k' exe n i j m
  | Ok false => mapped (memory k') n i j = false
  | Err _ => no_frames (memory k')
  | Panic => False
  end.

Lemma share_from_spec k h exe i j slot :
  let n := current_slot k in
  reach (memory k, h) → sharers_ok k → slot_ok (memory k) n i j → mapped (memory k) n i j = false →
  ∃ r k', share_from exe i j slot k = (r, k') ∧ moved (here n i j) k k' h ∧ share_outcome k k' exe n i j r.
Proof.
  intros n Hr [Hlen H0] Hs Hm. unfold share_from. erewrite bind_Ok by reflexivity. cbv zeta. fold n.
  assert (∃ r k', mok false k = (r, k') ∧ moved (here n i j) k k' h ∧ share_outcome k k' exe n i j r) as Hno.
  { exists (Ok false), k. split; [done|]. split; [by apply loading_refl|done]. }
  destruct (Nat.eqb_spec slot n) as [|Hne]; [done|]. destruct (tasks k !! slot) as [[t|]|] eqn:Ht; [|done..].
  case_bool_decide as Hexe; [|done]. destruct (spaces (memory k) !! slot) as [ms|] eqn:Hms; [|done].
  destruct (Hs) as ([cms Hcms] & Hn & Hi & Hj). rewrite Hcms.
  assert (0 < slot < 64)%nat as Hslot.
  { pose proof (lookup_lt_Some _ _ _ Ht). destruct slot; [|lia]. apply H0 in Ht. congruence. }
  assert (slot_ok (memory k) slot i j) as Hss by (split_and!; [by eexists|lia..]).
  destruct (reach_ok _ _ Hr) as [Hok Hsole].
  destruct (try_share_spec (memory k) h n slot i j Hok Hsole Hss Hs) as (r & w' & Hrun & Hres); [done|].
  exists r, (with_memory w' k). rewrite (on_memory_run _ _ _ _ Hrun). split; [done|]. split.
  - split; [|split|apply BlockMap.alike_refl|done].
    + eapply reach_step; [exact Hr|]. by apply (step_share _ n slot i j _ _ r).
    + apply Hres.
    + intros p i' j' _ Hj' Hp. by apply (sr_others _ _ _ _ _ _ _ _ Hres).
  - pose proof (sr_result _ _ _ _ _ _ _ _ Hres) as Hr'. destruct r as [[|]|e|]; [| |by destruct Hr' as (_ & -> & ?)|done].
    + destruct Hr' as (Hsh & _ & He & _ & Hc). exists slot. pose proof (entry_uint _ _ slot i j Hr Hj) as Hu.
      destruct (without_writable_eq _ Hu) as (_ & _ & Hp & Hw). split_and!; [lia|lia|done|by eexists|by exists t|done| | |exact Hc].
      * cbn [memory with_memory]. unfold mapped. rewrite He, Hp. unfold shareable in Hsh. by destruct (is_present _).
      * cbn [memory with_memory]. by rewrite He.
    + destruct Hr' as [_ [He _]]. cbn [share_outcome memory with_memory]. unfold mapped in *. by rewrite He.
Qed.

Lemma sharers_moved P k k' h : moved P k k' h → sharers_ok k → sharers_ok k'.
Proof. intros Hm. unfold sharers_ok. by rewrite (proj1 (ld_tasks _ _ _ _ Hm)). Qed.

Lemma share_loop_spec exe i j slots k h :
  let n := current_slot k in
  reach (memory k, h) → sharers_ok k → slot_ok (memory k) n i j → mapped (memory k) n i j = false →
  ∃ r k', share_loop exe i j slots k = (r, k') ∧ moved (here n i j) k k' h ∧ share_outcome k k' exe n i j r.
Proof.
  revert k. induction slots as [|slot slots IH]; intros k n Hr Hts Hs Hm.
  { exists (Ok false), k. split; [done|]. split; [by apply loading_refl|done]. }
  cbn [share_loop]. destruct (share_from_spec k h exe i j slot Hr Hts Hs Hm) as (r & k1 & Hrun & Hl1 & Hres). fold n in Hl1, Hres.
  destruct r as [[|]|e|].
  - rewrite (bind_Ok _ _ _ _ _ Hrun). exists (Ok true), k1. done.
  - rewrite (bind_Ok _ _ _ _ _ Hrun). cbn [share_outcome] in Hres. pose proof (proj2 (ld_tasks _ _ _ _ Hl1)) as Hn. fold n in Hn.
    destruct (IH k1) as (r & k2 & Hrun2 & Hl2 & Hres2); rewrite ?Hn in *;
      [apply Hl1|by eapply sharers_moved|by eapply kept_slot, Hs; apply Hl1|done|].
    exists r, k2. split; [done|]. split; [by eapply loading_trans|]. destruct r as [[|]|e|]; [|done..].
    destruct Hres2 as (m & Hmr & Hmn & Hlive & Ht & Hsh & Hmap & Hw & Hc). exists m.
    assert (is_Some (spaces (memory k) !! m)) as Hlive0 by (by apply (ld_kept _ _ _ _ Hl1)).
    destruct (ld_kept _ _ _ _ Hl1) as [_ Hv]. destruct (Hs) as (_ & _ & _ & Hj). assert (view (memory k) (memory k1) m i j) as Hv1.
    { apply Hv; [done|done|]. unfold here. congruence. }
    rewrite (proj1 (ld_tasks _ _ _ _ Hl1)) in Ht. rewrite (shareable_view _ _ _ _ _ (entry_uint _ _ m i j Hr Hj) Hv1) in Hsh.
    split_and!; try done; [lia..|]. rewrite Hc. apply Hv1.
  - rewrite (bind_Err _ _ _ _ _ Hrun). by exists (Err e), k1.
  - done.
Qed.

(** ** The handler of not-present faults *)

(** What holds of the kernel whenever a task runs: a task's data segment begins
    at the 64 MB of its slot, in which the data of its executable ends. *)
Record kernel_ok (k : Kernel) (h : list Z) (t : Task) : Prop := {
  ko_memory : reach (memory k, h);
  ko_file : BlockMap.wf (file k) ∧ Minix.mounted (file k) = true;
  ko_sharers : sharers_ok k;
  ko_slot : (0 < current_slot k < 64)%nat ∧ is_Some (spaces (memory k) !! current_slot k);
  ko_current : tasks k !! current_slot k = Some (Some t);
  ko_layout : base t = TASK_LINEAR_SIZE * Z.of_nat (current_slot k) ∧ end_data t ≤ TASK_LINEAR_SIZE;
}.

Lemma kernel_moved P k k' h t : kernel_ok k h t → moved P k k' h → kernel_ok k' h t.
Proof.
  intros [Hr [Hwf Hmt] Hsh [Hn Hl] Hc Hlay] Hm. destruct (ld_tasks _ _ _ _ Hm) as [Ht Hs]. split; rewrite ?Ht, ?Hs; try done.
  - apply Hm.
  - split; [by eapply BlockMap.alike_wf, Hm|]. by rewrite (BlockMap.al_mounted _ _ (ld_file _ _ _ _ Hm)).
  - by eapply sharers_moved.
  - split; [done|]. by apply (ld_kept _ _ _ _ Hm).
Qed.

Lemma align_floor a : is_uint 32 a → Z.land a (unot 32 4095) = floor a * 4096.
Proof.
  intros Ha. change (Z.land a (unot 32 4095)) with (phys_addr a). rewrite phys_addr_ppn by done.
  apply addr_mul. by apply entry_ppn_uint.
Qed.

Lemma current_run k h t : kernel_ok k h t → current k = (Ok t, k).
Proof. intros Hk. unfold current. erewrite bind_Ok by reflexivity. by rewrite (ko_current _ _ _ Hk). Qed.

Lemma local_of_run k h t i j : let n := current_slot k in
  kernel_ok k h t → 0 ≤ i < 16 → 0 ≤ j < 1024 → local_of (lin_page n i j) k = (Ok (Some (i, j)), k).
Proof.
  intros n Hk Hi Hj. destruct (ko_slot _ _ _ Hk) as [Hn [ms Hms]]. fold n in Hn, Hms. destruct (reach_ok _ _ (ko_memory _ _ _ Hk)) as [Hok _].
  destruct (ok_slots _ _ _ Hok _ _ Hms) as [_ Hb']. destruct (lin_page_indices n i j) as (_ & Hpde & Hpte); [lia|done..|].
  unfold local_of. erewrite bind_Ok by reflexivity. fold n. rewrite Hms. erewrite on_memory_run; [by rewrite memory_eta|].
  unfold to_local. rewrite (bind_Ok _ _ _ _ _ (space_run _ _ _ Hms)). cbv zeta. rewrite Hpde, Hpte, Hb'.
  change PDES_PER_PROCESS with 16. replace (16 * Z.of_nat n + i - 16 * Z.of_nat n) with i by lia.
  by rewrite (proj2 (Z.leb_le _ _)), (proj2 (Z.ltb_lt _ _)) by lia.
Qed.

(** The place of a page in the data segment, and whether it is the
    executable's. *)
Definition page_start (i j : Z) : Z := (i * 1024 + j) * 4096.

Lemma page_start_mod i j : page_start i j mod 4096 = 0.
Proof. apply Z.mod_mul. done. Qed.

Definition of_executable (t : Task) (i j : Z) : option Z :=
  if page_start i j <? end_data t then executable_inode t else None.

Definition kind_of (t : Task) (i j : Z) : FaultKind :=
  match of_executable t i j with
  | Some exe => Executable exe (page_start i j) (end_data t) (Some (i, j))
  | None => Anonymous
  end.

Lemma classify_run k h t address i j : let n := current_slot k in
  kernel_ok k h t → is_uint 32 address → floor address = lin_page n i j → 0 ≤ i < 16 → 0 ≤ j < 1024 →
  classify address (lin_page n i j) k = (Ok (kind_of t i j), k).
Proof.
  intros n Hk Ha Hf Hi Hj. unfold classify. rewrite (bind_Ok _ _ _ _ _ (current_run _ _ _ Hk)). cbv zeta.
  assert (wrapping_sub (Z.land address (unot 32 4095)) (base t) = page_start i j) as ->.
  { rewrite align_floor, Hf by done. destruct (ko_layout _ _ _ Hk) as [-> _]. change TASK_LINEAR_SIZE with 67108864.
    unfold wrapping_sub. rewrite wrap_small; unfold lin_page, page_start, is_uint; fold n; lia. }
  unfold kind_of, of_executable. destruct (executable_inode t) as [exe|]; [|by destruct (_ <? _)]. destruct (_ <? _); [|done].
  by rewrite (bind_Ok _ _ _ _ _ (local_of_run k h t i j Hk Hi Hj)).
Qed.

Lemma reach_walk w h n i j : reach (w, h) → in_slot n i j → walk w n i j = entry_of w n i j ∧ seen w n i j = content w n i j.
Proof. intros Hr (Hn & Hi & _). destruct (reach_ok _ _ Hr) as [Hok _]. by apply (walk_entry _ _ _ n i j Hok). Qed.

(** What the current task finds afterwards at a page that was not there: outside
    the data of its executable a zero page of its own; inside, the clean page of
    another task with the same executable, which neither may write any more, or
    the file's bytes in a page of its own. *)
Definition supplied (bad : Prop) (k k' : Kernel) (t : Task) (i j : Z) : Prop :=
  let n := current_slot k in let w := memory k in let w' := memory k' in
  is_present (walk w' n i j) = true ∧
  match of_executable t i j with
  | None => writable (walk w' n i j) = true ∧ seen w' n i j = Some zero_page
  | Some exe =>
      (∃ m u, in_slot m i j ∧ m ≠ n ∧ tasks k !! m = Some (Some u) ∧ executable_inode u = Some exe ∧
         shareable (walk w m i j) = true ∧ writable (walk w' n i j) = false ∧ seen w' n i j = seen w m i j) ∨
      (writable (walk w' n i j) = true ∧ ∃ B, seen w' n i j = Some (words_of 1024 B) ∧ length B = 4096%nat ∧ Forall (is_uint 8) B ∧
         exe_page bad (file k) (page_start i j) (end_data t) B)
  end.

(** All pages but those of [P] are found as before. *)
Definition undisturbed_but (P : nat * Z * Z → Prop) (w w' : World) : Prop :=
  ∀ m i j, is_Some (spaces w !! m) → in_slot m i j → ¬ P (m, i, j) →
    seen w' m i j = seen w m i j ∧ (walk w' m i j = walk w m i j ∨ walk w' m i j = without_writable (walk w m i j)).

Lemma moved_undisturbed P k k' h h' : reach (memory k, h) → moved P k k' h' → undisturbed_but P (memory k) (memory k').
Proof.
  intros Hr Hm m i j Hl Hs Hp. destruct (reach_walk _ _ _ _ _ Hr Hs) as [-> ->]. destruct (reach_walk _ _ _ _ _ (ld_reach _ _ _ _ Hm) Hs) as [-> ->].
  destruct (ld_kept _ _ _ _ Hm) as [_ Hv]. destruct (Hs) as (_ & _ & Hj). apply (Hv m i j Hl Hj Hp).
Qed.

Lemma content_mapped w n i j p : content w n i j = Some p → is_present (entry_of w n i j) = true.
Proof. unfold content. by destruct (is_present _). Qed.

(** The two ways the handler goes. *)
Lemma anonymous_fault k h t i j : let n := current_slot k in
  kernel_ok k h t → in_slot n i j → is_present (walk (memory k) n i j) = false → of_executable t i j = None →
  ∃ r k', map_zero_page (lin_page n i j) k = (Ok r, k') ∧ moved (here n i j) k k' h ∧ others_same (memory k) (memory k') n i j ∧
    if r : bool then supplied False k k' t i j else one_free (memory k') ∧ is_present (walk (memory k') n i j) = false.
Proof.
  intros n Hk Hs Hp Hexe. pose proof (ko_memory _ _ _ Hk) as Hr. destruct (reach_walk _ _ _ _ _ Hr Hs) as [Ew _]. rewrite Ew in Hp.
  destruct (ko_slot _ _ _ Hk) as [Hn [ms Hms]]. fold n in Hn, Hms. unfold map_zero_page. erewrite bind_Ok by reflexivity. cbv zeta. fold n. rewrite Hms.
  destruct (map_current k h n i j None Hr) as (r & k' & Hrun & Hm & Ho & Hres); [split; [by eexists|exact Hs]|done|].
  exists r, k'. split; [done|]. split; [done|]. split; [done|].
  destruct r; [|split; [apply Hres|]; destruct (reach_walk _ _ _ _ _ (ld_reach _ _ _ _ Hm) Hs) as [-> _]; apply Hres]. unfold supplied. fold n. rewrite Hexe.
  destruct (reach_walk _ _ _ _ _ (ld_reach _ _ _ _ Hm) Hs) as [-> ->]. destruct Hres as [Hw Hc]. split; [by eapply content_mapped|done].
Qed.

Lemma shared_supplied bad k k' h t exe i j m : let n := current_slot k in
  reach (memory k, h) → reach (memory k', h) → in_slot n i j → of_executable t i j = Some exe → shared_with k k' exe n i j m →
  supplied bad k k' t i j.
Proof.
  intros n Hr Hr' Hs Hexe (Hm & Hne & _ & (u & Hu & Hue) & Hsh & Hmap & Hw & Hc). assert (in_slot m i j) as Hsm by (split; [done|apply Hs]).
  unfold supplied. fold n. rewrite Hexe. destruct (reach_walk _ _ _ _ _ Hr' Hs) as [-> ->]. split; [done|]. left. exists m, u.
  by destruct (reach_walk _ _ _ _ _ Hr Hsm) as [-> ->].
Qed.

Lemma executable_fault k h t exe i j : let n := current_slot k in let bad := Minix.faults (file k) ≠ [] in
  kernel_ok k h t → in_slot n i j → is_present (walk (memory k) n i j) = false → of_executable t i j = Some exe →
  ∃ r k', resolve (lin_page n i j) (kind_of t i j) k = (Ok r, k') ∧ moved (here n i j) k k' h ∧
    if r : bool then supplied bad k k' t i j else one_free (memory k') ∨ bad.
Proof.
  intros n bad Hk Hs Hp Hexe. pose proof (ko_memory _ _ _ Hk) as Hr. destruct (reach_walk _ _ _ _ _ Hr Hs) as [Ew _]. rewrite Ew in Hp.
  destruct (ko_slot _ _ _ Hk) as [Hn Hl]. fold n in Hn, Hl. assert (slot_ok (memory k) n i j) as Hso by (split; [done|exact Hs]).
  destruct (share_loop_spec exe i j (seq 0 (length (tasks k))) k h Hr (ko_sharers _ _ _ Hk) Hso Hp) as (r & k1 & Hrun & Hm1 & Hres).
  fold n in Hm1, Hres. assert (try_share_page exe (Some (i, j)) k = (r, k1)) as Hrun' by exact Hrun.
  unfold kind_of. rewrite Hexe. cbn [resolve]. erewrite bind_Ok by (eapply (try_run _ _ _ _ Hrun'); by destruct r as [[|]| |]). destruct r as [[|]|e|]; [| | |done].
  - exists true, k1. split; [done|]. split; [done|]. destruct Hres as [m Hres]. by eapply shared_supplied, Hres; [|apply Hm1|..].
  - assert (current_slot k1 = n) as En by apply Hm1. destruct (Hs) as (_ & Hi & Hj).
    assert (readable bad (file k) k1) as Hrd.
    { apply (readable_next _ _ k); [|apply Hm1]. split; [apply Hk|apply Hk|apply BlockMap.alike_refl|done]. }
    unfold of_executable in Hexe. destruct (Z.ltb_spec (page_start i j) (end_data t)) as [Hlt|]; [|done].
    destruct (try_load_page_spec bad (file k) k1 h i j (page_start i j) (end_data t) (ld_reach _ _ _ _ Hm1) Hrd) as (r & k2 & Hrun2 & Hm2 & Hres2);
      rewrite ?En in *; [unfold page_start in *; lia|apply (ko_layout _ _ _ Hk)|apply page_start_mod|by eapply kept_slot, Hso; apply Hm1|done|].
    exists r, k2. split; [done|]. split; [by eapply loading_trans|]. destruct r; [|done].
    destruct Hres2 as (Hw & B & Hc & HB). unfold supplied. fold n. unfold of_executable. rewrite (proj2 (Z.ltb_lt _ _)), Hexe by done.
    destruct (reach_walk _ _ _ _ _ (ld_reach _ _ _ _ Hm2) Hs) as [-> ->]. split; [by eapply content_mapped|]. right. split; [done|by exists B].
  - exists false, k1. split; [done|]. split; [done|]. left. by apply no_frames_one.
Qed.
(** ** Write protection *)

(** Nothing is lost: what was found is found, pages stay there or not there,
    those that could be written still can, and tasks other than [n] have their
    entries as they were. *)
Definition gained (n : nat) (w w' : World) : Prop :=
  (∀ m, is_Some (spaces w' !! m) ↔ is_Some (spaces w !! m)) ∧
  ∀ m i j, in_slot m i j →
    (∀ p, seen w m i j = Some p → seen w' m i j = Some p) ∧
    is_present (walk w' m i j) = is_present (walk w m i j) ∧
    (writable (walk w m i j) = true → writable (walk w' m i j) = true) ∧
    (m ≠ n → walk w' m i j = walk w m i j).

Lemma gained_refl n w : gained n w w.
Proof. split; [done|]. by intros. Qed.

Lemma gained_trans n w1 w2 w3 : gained n w1 w2 → gained n w2 w3 → gained n w1 w3.
Proof.
  intros [L1 G1] [L2 G2]. split; [intros m; by rewrite L2|]. intros m i j Hs.
  destruct (G1 m i j Hs) as (S1 & P1 & W1 & E1). destruct (G2 m i j Hs) as (S2 & P2 & W2 & E2).
  split_and!; [by auto|congruence|by auto|]. intros Hm. rewrite E2, E1; done.
Qed.

Lemma page_cases n p : is_uint 20 p →
  (∃ i j, 0 ≤ i < 16 ∧ 0 ≤ j < 1024 ∧ p = lin_page n i j) ∨ ¬ 16 * Z.of_nat n ≤ pde_index p < 16 * Z.of_nat n + 16.
Proof.
  unfold is_uint, pde_index, lin_page. rewrite Z.shiftr_div_pow2 by done. change (2 ^ 10) with 1024. intros Hp.
  destruct (decide (16 * Z.of_nat n ≤ p / 1024 < 16 * Z.of_nat n + 16)) as [Hd|]; [left|by right].
  exists (p / 1024 - 16 * Z.of_nat n), (p mod 1024). Z.to_euclidean_division_equations. lia.
Qed.

Lemma pte_outside w h n p : reach (w, h) → is_Some (spaces w !! n) → ¬ 16 * Z.of_nat n ≤ pde_index p < 16 * Z.of_nat n + 16 →
  pte n p w = (Ok None, w).
Proof.
  intros Hr [ms Hms] Hp. destruct (reach_ok _ _ Hr) as [Hok _]. destruct (ok_slots _ _ _ Hok _ _ Hms) as [_ Hbase].
  unfold pte, find_pte. rewrite bind_bind, (bind_Ok _ _ _ _ _ (space_run _ _ _ Hms)). cbv zeta. rewrite Hbase. change PDES_PER_PROCESS with 16.
  destruct (Z.leb_spec (16 * Z.of_nat n) (pde_index p)), (Z.ltb_spec (pde_index p) (16 * Z.of_nat n + 16)); cbn [andb]; [lia|done..].
Qed.

(** A page that is there becomes the task's own. *)
Lemma own_page w h n i j : reach (w, h) → is_Some (spaces w !! n) → in_slot n i j → is_present (walk w n i j) = true →
  ∃ r w', ensure_page_writable n (lin_page n i j) w = (r, w') ∧ reach (w', h) ∧ gained n w w' ∧
    (r = Ok () ∧ writable (walk w' n i j) = true ∨ r = Err NOMEM ∧ w' = w ∧ no_frames w).
Proof.
  intros Hr Hl Hs Hp. destruct (write_fault first last w0 w h n i j Hb Hr Hs Hl Hp) as (r & w' & Hrun & Hres).
  assert (slot_ok w n i j) as Hso by (by split). exists r, w'. split; [done|].
  assert (reach (w', h)) as Hr' by (eapply reach_step; [exact Hr|by eapply step_write_fault]). split; [done|].
  destruct Hres as [(-> & Hp' & Hw & Hseen & Hoth)|(-> & -> & Hno)]; [|split; [apply gained_refl|by right]]. split; [|by left]. split.
  - destruct (reach_ok _ _ Hr) as [Hok Hsole]. destruct (reach_walk _ _ _ _ _ Hr Hs) as [Ew _].
    destruct (ensure_page_writable_spec w h n i j Hok Hso) as (r & w1 & Hrun' & Hwr); [unfold mapped; by rewrite <- Ew|].
    rewrite Hrun in Hrun'. injection Hrun' as <- <-. destruct Hwr as [[_ Hwr]|[? _]]; [apply Hwr|done].
  - intros m i' j' Hs'. destruct (decide ((m, i', j') = (n, i, j))) as [[= -> -> ->]|Hne].
    + split_and!; [|congruence|done|done]. intros p Hpg. rewrite Hseen. unfold seen in Hpg. destruct (_ && _); congruence.
    + destruct (Hoth m i' j' Hs' Hne) as [-> ->]. done.
Qed.

Lemma unprotect_spec w h n p : reach (w, h) → (0 < n < 64)%nat → is_Some (spaces w !! n) → is_uint 20 p →
  ∃ r w', unprotect n p w = (r, w') ∧ reach (w', h) ∧ gained n w w' ∧
    (r = Ok () ∧ (∀ i j, in_slot n i j → p = lin_page n i j → is_present (walk w' n i j) = true → writable (walk w' n i j) = true) ∨
     r = Err NOMEM ∧ no_frames w').
Proof.
  intros Hr Hn Hl Hu. unfold unprotect. destruct (page_cases n p Hu) as [(i & j & Hi & Hj & ->)|Hout].
  2:{ rewrite (bind_Ok _ _ _ _ _ (pte_outside _ _ _ _ Hr Hl Hout)). exists (Ok ()), w. split; [done|]. split; [done|]. split; [apply gained_refl|].
      left. split; [done|]. intros i j (_ & Hi & Hj) ->. destruct Hout. destruct (lin_page_indices n i j) as (_ & -> & _); [lia|done..|lia]. }
  assert (in_slot n i j) as Hs by done. destruct (reach_ok _ _ Hr) as [Hok _].
  destruct (pte_entry _ _ _ n i j Hok) as (o & Ho & Hpr & Hoe); [by split|]. rewrite (bind_Ok _ _ _ _ _ Ho).
  destruct (reach_walk _ _ _ _ _ Hr Hs) as [Ew _]. unfold mapped in *. rewrite <- Ew in *.
  assert (∀ i' j', in_slot n i' j' → lin_page n i j = lin_page n i' j' → i' = i ∧ j' = j) as Hinj.
  { intros i' j' (_ & ? & ?) E. destruct (lin_page_inj n i j i' j') as [-> ->]; done. }
  destruct (is_present (walk w n i j) && negb (contains (flags (walk w n i j)) WRITABLE)) eqn:E.
  - apply andb_true_iff in E as [E1 E2]. rewrite (Hoe E1), E1, E2. cbn [andb].
    destruct (own_page w h n i j Hr Hl Hs E1) as (r & w' & Hrun & Hr' & Hg & Hres). exists r, w'. split; [done|]. split; [done|]. split; [done|].
    destruct Hres as [[-> Hw]|(-> & -> & Hno)]; [left|by right]. split; [done|]. intros i' j' Hs' El _. by destruct (Hinj i' j' Hs' El) as [-> ->].
  - exists (Ok ()), w. split.
    { destruct o as [e|]; [|done]. destruct (is_present e) eqn:Ee; [|done]. injection (Hoe (eq_sym Hpr)) as ->. by rewrite Ee in E; rewrite E. }
    split; [done|]. split; [apply gained_refl|]. left. split; [done|]. intros i' j' Hs' El Hp'. destruct (Hinj i' j' Hs' El) as [-> ->].
    rewrite Hp', writable_flag in E. cbn [andb] in E. by apply negb_false_iff in E.
Qed.

Lemma area_loop_spec fuel w h n remaining linear :
  reach (w, h) → (0 < n < 64)%nat → is_Some (spaces w !! n) → is_uint 32 linear → 0 ≤ remaining ≤ 4096 * Z.of_nat fuel →
  ∃ r w', area_loop fuel n remaining linear w = (r, w') ∧ reach (w', h) ∧ gained n w w' ∧
    (r = Ok () ∧ (∀ c i j, 0 ≤ c → 4096 * c < remaining → in_slot n i j → floor (as_u32 (linear + 4096 * c)) = lin_page n i j →
       is_present (walk w' n i j) = true → writable (walk w' n i j) = true) ∨
     r = Err NOMEM ∧ no_frames w').
Proof.
  revert w remaining linear. induction fuel as [|fuel IH]; intros w rem lin Hr Hn Hl Hu Hrem; cbn [area_loop].
  { exists (Ok ()), w. split; [done|]. split; [done|]. split; [apply gained_refl|left; split; [done|lia]]. }
  destruct (Z.ltb_spec 0 rem) as [Hpos|]; [|exists (Ok ()), w; split; [done|]; split; [done|]; split; [apply gained_refl|left; split; [done|lia]]].
  destruct (unprotect_spec w h n (floor lin) Hr Hn Hl) as (r & w1 & Hrun & Hr1 & Hg1 & Hres).
  { by apply entry_ppn_uint. }
  destruct Hres as [[-> Hp1]|[-> Hno]]; [|rewrite (bind_Err _ _ _ _ _ Hrun); exists (Err NOMEM), w1; split; [done|]; split; [done|]; split; [done|by right]].
  rewrite (bind_Ok _ _ _ _ _ Hrun). change PAGE_SIZE with 4096.
  destruct (IH w1 (Z.max 0 (rem - 4096)) (as_u32 (lin + 4096))) as (r & w2 & Hrun2 & Hr2 & Hg2 & Hres);
    [done|done|by apply Hg1|by apply wrap_bound|lia|].
  exists r, w2. split; [done|]. split; [done|]. split; [by eapply gained_trans|]. destruct Hres as [[-> Hp2]|?]; [left|by right].
  split; [done|]. intros c i j Hc Hcr Hs Hfl Hpr. destruct (decide (c = 0)) as [->|Hc0].
  - destruct Hg2 as [_ Hg2]. destruct (Hg2 n i j Hs) as (_ & Hpp & Hww & _). apply Hww, Hp1; [done| |congruence].
    rewrite <- Hfl. rewrite Z.mul_0_r, Z.add_0_r. by rewrite wrap_small.
  - apply (Hp2 (c - 1)); [lia|lia|done| |done]. rewrite <- Hfl. f_equal. unfold as_u32, wrap.
    rewrite Zplus_mod_idemp_l. f_equal. lia.
Qed.
Lemma kernel_with k h t w' : kernel_ok k h t → reach (w', h) → (∀ m, is_Some (spaces w' !! m) ↔ is_Some (spaces (memory k) !! m)) →
  kernel_ok (with_memory w' k) h t.
Proof. intros [? ? ? [? ?] ? ?] Hr Hl. split; try done. split; [done|]. by apply Hl. Qed.

(** Where an address of the task's data segment is. *)
Lemma area_page n a : (n < 64)%nat → 0 ≤ a < TASK_LINEAR_SIZE →
  a / 4096 + 16384 * Z.of_nat n = lin_page n (a / 4194304) (a / 4096 mod 1024) ∧ 0 ≤ a / 4194304 < 16.
Proof. change TASK_LINEAR_SIZE with 67108864. unfold lin_page. Z.to_euclidean_division_equations. lia. Qed.

Lemma area_step n addr a : (n < 64)%nat → 0 ≤ addr ≤ a → a < TASK_LINEAR_SIZE →
  let linear := as_u32 (align_down addr + TASK_LINEAR_SIZE * Z.of_nat n) in
  floor (as_u32 (linear + 4096 * (a / 4096 - addr / 4096))) = lin_page n (a / 4194304) (a / 4096 mod 1024).
Proof.
  intros Hn Ha Hlim. destruct (area_page n a Hn) as [<- _]; [lia|]. change TASK_LINEAR_SIZE with 67108864 in *. cbv zeta.
  assert (align_down addr = addr / 4096 * 4096) as ->.
  { change (align_down addr) with (Z.land addr (unot 32 4095)). rewrite align_floor by (unfold is_uint; lia).
    unfold floor, PAGE_SHIFT. by rewrite Z.shiftr_div_pow2. }
  unfold as_u32, wrap. rewrite Zplus_mod_idemp_l. unfold floor, PAGE_SHIFT. rewrite Z.shiftr_div_pow2 by done.
  rewrite Z.mod_small by (Z.to_euclidean_division_equations; lia).
  change (2 ^ 12) with 4096. Z.to_euclidean_division_equations. lia.
Qed.
End boot.

(** ** Properties *)

Lemma handler_run first last w0 k h t address i j r k' :
  let n := current_slot k in
  booted first last w0 → kernel_ok w0 k h t → is_uint 32 address → floor address = lin_page n i j → in_slot n i j →
  resolve (lin_page n i j) (kind_of t i j) k = (Ok r, k') → current_slot k' = n →
  handle_no_page address k = (Ok (if r then Resolved else Oom), k').
Proof.
  intros n Hb Hk Ha Hf (Hn & Hi & Hj) Hrun Hc. unfold handle_no_page. rewrite Hf.
  rewrite (bind_Ok _ _ _ _ _ (classify_run _ _ _ Hb _ _ _ _ _ _ Hk Ha Hf Hi Hj)), (bind_Ok _ _ _ _ _ Hrun). destruct r; [done|].
  erewrite bind_Ok by reflexivity. rewrite Hc. by destruct n; [lia|].
Qed.

(** A fault outside the data of the executable. *)
Lemma zero_handler first last w0 k h t address i j :
  let n := current_slot k in
  booted first last w0 → kernel_ok w0 k h t → is_uint 32 address → floor address = lin_page n i j → in_slot n i j →
  is_present (walk (memory k) n i j) = false → of_executable t i j = None →
  ∃ r k', handle_no_page address k = (Ok r, k') ∧ moved w0 (here n i j) k k' h ∧ others_same (memory k) (memory k') n i j ∧
    match r with Resolved => supplied False k k' t i j | Oom => one_free (memory k') ∧ is_present (walk (memory k') n i j) = false end.
Proof.
  intros n Hb Hk Ha Hf Hs Hp Hexe. destruct (anonymous_fault first last w0 Hb _ _ _ _ _ Hk Hs Hp Hexe) as (r & k' & Hrun & Hm & Ho & Hres).
  eexists _, k'. split; [eapply handler_run; try done; [unfold kind_of; rewrite Hexe; exact Hrun|apply Hm]|].
  split; [done|]. split; [done|]. by destruct r.
Qed.

(** C32: The handler of not-present faults.  A fault of a running task at a page
    of its 64 MB that is not there ends, without panic.  If it is resolved, the
    page is there: beyond the data of the executable it is a zero page of the
    task's own; inside, it is the clean page that another task with the same
    executable has there, which neither may now write, or a page of its own with
    the bytes of the file from the second block on, zeros beyond the end of the
    data, and zeros for blocks that the device failed to give.  The task is to
    be killed only when at most one frame is left or the device fails.  All other
    pages of all tasks are found as before, and the kernel is as the next fault
    needs it. *)
Theorem no_page_fault first last w0 k h t address i j :
  let n := current_slot k in
  booted first last w0 → kernel_ok w0 k h t → is_uint 32 address → floor address = lin_page n i j → in_slot n i j →
  is_present (walk (memory k) n i j) = false →
  ∃ r k', handle_no_page address k = (Ok r, k') ∧ kernel_ok w0 k' h t ∧
    undisturbed_but (λ x, x = (n, i, j)) (memory k) (memory k') ∧
    match r with
    | Resolved => supplied (Minix.faults (file k) ≠ []) k k' t i j
    | Oom => one_free (memory k') ∨ Minix.faults (file k) ≠ []
    end.
Proof.
  intros n Hb Hk Ha Hf Hs Hp.
  assert (∃ r k', resolve (lin_page n i j) (kind_of t i j) k = (Ok r, k') ∧ moved w0 (here n i j) k k' h ∧
      if r : bool then supplied (Minix.faults (file k) ≠ []) k k' t i j else one_free (memory k') ∨ Minix.faults (file k) ≠ [])
    as (r & k' & Hrun & Hm & Hres).
  { destruct (of_executable t i j) as [exe|] eqn:Hexe; [by apply (executable_fault first last w0 Hb _ _ _ exe)|].
    destruct (anonymous_fault first last w0 Hb _ _ _ _ _ Hk Hs Hp Hexe) as (r & k' & Hrun & Hm & _ & Hres).
    exists r, k'. split; [unfold kind_of; by rewrite Hexe|]. split; [done|]. destruct r; [|left; apply Hres]. unfold supplied in *. by rewrite Hexe in *. }
  eexists _, k'. split; [eapply handler_run; try done; apply Hm|]. split; [by eapply kernel_moved|].
  split; [by apply (moved_undisturbed _ _ _ Hb _ _ _ h h); [apply Hk|]|]. by destruct r.
Qed.

(** Write faults.  A fault of a running task at a page that is there ends,
    without panic: with the page the task's own to write, or the task is to be
    killed, nothing having changed and no frame being free.  Whatever any task
    found it finds, and other tasks' entries are as they were. *)
Lemma wp_fault first last w0 k h t address i j :
  let n := current_slot k in
  booted first last w0 → kernel_ok w0 k h t → floor address = lin_page n i j → in_slot n i j →
  is_present (walk (memory k) n i j) = true →
  ∃ r k', handle_wp_page address k = (Ok r, k') ∧ kernel_ok w0 k' h t ∧ gained n (memory k) (memory k') ∧
    match r with Resolved => writable (walk (memory k') n i j) = true | Oom => k' = k ∧ no_frames (memory k) end.
Proof.
  intros n Hb Hk Hf Hs Hp. destruct (ko_slot _ _ _ _ Hk) as [Hn Hl]. fold n in Hn, Hl.
  destruct (own_page first last w0 Hb (memory k) h n i j (ko_memory _ _ _ _ Hk) Hl Hs Hp) as (r & w' & Hrun & Hr' & Hg & Hres).
  unfold handle_wp_page. erewrite bind_Ok by reflexivity. fold n. rewrite Hf.
  erewrite bind_Ok by (eapply (try_run _ _ _ _ (on_memory_run _ _ _ _ Hrun)); by destruct Hres as [[-> _]|[-> _]]).
  eexists _, (with_memory w' k). split; [reflexivity|]. split; [by apply (kernel_with _ _ _ Hb); [done..|apply Hg]|]. split; [done|].
  destruct Hres as [[-> Hw]|(-> & -> & Hno)]; [done|]. by rewrite (memory_eta _ _ _ Hb).
Qed.

(** Before the kernel writes to a task's memory.  [ensure_user_area_writable]
    ends; if it does not kill the task, every page of the area that is there may
    be written by the task, so is no other's; what any task found it still
    finds.  The task is killed only when no frame is free. *)
Lemma user_area_writable first last w0 k h t addr size :
  let n := current_slot k in
  booted first last w0 → kernel_ok w0 k h t → is_uint 32 addr → is_uint 32 size →
  ∃ r w', ensure_user_area_writable addr size k = (Ok r, with_memory w' k) ∧ kernel_ok w0 (with_memory w' k) h t ∧ gained n (memory k) w' ∧
    match r with
    | Resolved => ∀ a, addr ≤ a < addr + size → a < TASK_LINEAR_SIZE →
        let e := walk w' n (a / 4194304) (a / 4096 mod 1024) in is_present e = true → writable e = true
    | Oom => no_frames w'
    end.
Proof.
  intros n Hb Hk Ha Hsz. destruct (ko_slot _ _ _ _ Hk) as [Hn Hl]. fold n in Hn, Hl. pose proof (ko_layout _ _ _ _ Hk) as [Hbase _].
  unfold ensure_user_area_writable. rewrite (bind_Ok _ _ _ _ _ (current_run _ _ _ Hb _ _ _ Hk)). erewrite bind_Ok by reflexivity. cbv zeta. fold n.
  destruct Hl as [ms Hms]. rewrite Hms, Hbase. fold n. rewrite page_offset_mod, (wrap_small 32 size) by done.
  set (rem := Z.min (Z.ones 32) (size + addr mod 4096)). assert (0 ≤ rem ∧ rem = Z.min 4294967295 (size + addr mod 4096)) as [Hrem Erem].
  { unfold rem. change (Z.ones 32) with 4294967295. unfold is_uint in *. Z.to_euclidean_division_equations. lia. }
  destruct (area_loop_spec first last w0 Hb (S (Z.to_nat (rem / PAGE_SIZE))) (memory k) h n rem
    (as_u32 (align_down addr + TASK_LINEAR_SIZE * Z.of_nat n))) as (r & w' & Hrun & Hr' & Hg & Hres);
    [apply Hk|done|by eexists|by apply wrap_bound|change PAGE_SIZE with 4096; Z.to_euclidean_division_equations; lia|].
  erewrite bind_Ok by (eapply (try_run _ _ _ _ (on_memory_run _ _ _ _ Hrun)); by destruct Hres as [[-> _]|[-> _]]).
  eexists _, w'. split; [reflexivity|]. split; [by apply (kernel_with _ _ _ Hb); [done..|apply Hg]|]. split; [done|].
  destruct Hres as [[-> Hw]|[-> Hno]]; [|done]. intros a Haa Hlim Hp. unfold is_uint in Ha.
  destruct (area_page _ _ _ Hb n a) as [_ Hi]; [lia|lia|]. apply (Hw (a / 4096 - addr / 4096)); [| | |eapply area_step; [exact Hb|lia..|done]|done].
  - Z.to_euclidean_division_equations. lia.
  - change TASK_LINEAR_SIZE with 67108864 in Hlim. rewrite Erem. unfold is_uint in Hsz. Z.to_euclidean_division_equations. lia.
  - split; [done|]. split; [done|]. by apply Z.mod_pos_bound.
Qed.

(** ** An example *)

(** After the first fork, the second task runs; its executable has no blocks
    but the first. *)
Definition sample_task : Task := mkTask TASK_LINEAR_SIZE 1000000 (Some 7).
Definition sample_kernel : Kernel :=
  mkKernel two_tasks BlockMap.sample_file [Some (mkTask 0 655360 None); Some sample_task] 1.

Lemma sample_kernel_ok : kernel_ok boot_world sample_kernel [] sample_task.
Proof.
  split.
  - apply two_tasks_reachable.
  - split; [apply BlockMap.sample_file_wf|reflexivity].
  - split; [cbn; lia|]. intros t Ht. cbn in Ht. by injection Ht as <-.
  - split; [cbn; lia|]. apply two_tasks_live. by left.
  - reflexivity.
  - by split.
Qed.

Lemma sample_slot j : 0 ≤ j < 1024 → in_slot 1 0 j.
Proof. unfold in_slot. lia. Qed.

Lemma no_page_fault_witness : ∃ k', handle_no_page 67929092 sample_kernel = (Ok Resolved, k') ∧ is_present (walk (memory k') 1 0 200) = true.
Proof.
  destruct (no_page_fault LOW_MEM HIGH_MEMORY boot_world sample_kernel [] sample_task 67929092 0 200 boot_booted sample_kernel_ok)
    as (r & k' & Hr & _ & _ & Hres); [unfold is_uint; lia|reflexivity|apply sample_slot; lia|vm_compute; reflexivity|].
  assert ((handle_no_page 67929092 sample_kernel).1 = Ok Resolved) as E by (vm_compute; reflexivity).
  rewrite Hr in E. cbn [fst] in E. injection E as ->. exists k'. split; [exact Hr|]. exact (proj1 Hres).
Defined.

Lemma wp_fault_witness : ∃ k', handle_wp_page 67174403 sample_kernel = (Ok Resolved, k') ∧ writable (walk (memory k') 1 0 16) = true.
Proof.
  destruct (wp_fault LOW_MEM HIGH_MEMORY boot_world sample_kernel [] sample_task 67174403 0 16 boot_booted sample_kernel_ok)
    as (r & k' & Hr & _ & _ & Hres); [reflexivity|apply sample_slot; lia|vm_compute; reflexivity|].
  assert ((handle_wp_page 67174403 sample_kernel).1 = Ok Resolved) as E by (vm_compute; reflexivity).
  rewrite Hr in E. cbn [fst] in E. injection E as ->. exists k'. split; [exact Hr|exact Hres].
Defined.

Lemma user_area_writable_witness :
  ∃ w', ensure_user_area_writable 65540 5000 sample_kernel = (Ok Resolved, with_memory w' sample_kernel) ∧ writable (walk w' 1 0 17) = true.
Proof.
  destruct (user_area_writable LOW_MEM HIGH_MEMORY boot_world sample_kernel [] sample_task 65540 5000 boot_booted sample_kernel_ok)
    as (r & w' & Hr & _ & Hg & Hres); [unfold is_uint; lia|unfold is_uint; lia|].
  assert ((ensure_user_area_writable 65540 5000 sample_kernel).1 = Ok Resolved) as E by (vm_compute; reflexivity).
  rewrite Hr in E. cbn [fst] in E. injection E as ->. exists w'. split; [exact Hr|].
  apply (Hres 70000); [lia|reflexivity|]. destruct Hg as [_ Hg]. destruct (Hg 1%nat 0 17) as (_ & Hp & _); [apply sample_slot; lia|].
  etrans; [exact Hp|]. vm_compute. reflexivity.
Defined.
End PageFault.
