(* ===== verification/UserAccess.v ===== *)
(** * Copies between kernel and user memory ([kernel/src/segment/uaccess.rs])

    Every access goes through the task's data segment and the page tables, and
    faults when the page is not there; the kernel's stores do not fault on pages
    that are write-protected, since [boot/head.s] leaves CR0.WP clear.  What
    [ensure_user_area_writable] gives the callers, and what happens without it. *)

From S2P Require Import Prelude Frame Space Isolation Fork Cow Bitmap Layout Minix BlockMap PageFault.
From stdpp Require Import gmap relations.
Open Scope kmonad_scope.
Open Scope Z_scope.

Module UserAccess.
Import Frame Space Isolation Fork Cow PageFault.
#[local] Set Default Proof Using "Type".

Definition MAX_PATH_LEN : nat := 256.

(** ** One access *)

(** The entry that the processor finds for a linear address. *)
Definition entry_at (w : World) (linear : Z) : Z :=
  let pde := word w 0 (Z.shiftr linear 22) in
  if is_present pde then word w (entry_ppn pde) (Z.land (Z.shiftr linear 12) 1023) else 0.

Definition linear_of (addr : Z) : M Kernel Z := t <- current;; mok (as_u32 (base t + addr)).

(** The page is there, or the fault handler supplies it; [false] when the task
    is killed instead. *)
Definition page_in (linear : Z) : M Kernel bool :=
  k <- mget;;
  if is_present (entry_at (memory k) linear) then mok true
  else
    r <- handle_no_page linear;;
    mok (match r with Resolved => true | Oom => false end).

(** Byte [r] of a word. *)
Definition get_byte (r x : Z) : Z := default 0 (le_bytes 4 x !! Z.to_nat r).
Definition set_byte (r b x : Z) : Z := le_value (<[Z.to_nat r := b]> (le_bytes 4 x)).

Definition load_byte (linear : Z) (w : World) : Z :=
  get_byte (linear mod 4) (word w (entry_ppn (entry_at w linear)) (linear mod 4096 / 4)).

(** The store of a byte; the processor marks the entry as accessed and dirty. *)
Definition store_byte (linear b : Z) (w : World) : World :=
  let e := entry_at w linear in
  let t := entry_ppn (word w 0 (Z.shiftr linear 22)) in
  let q := linear mod 4096 / 4 in
  set_word (entry_ppn e) q (set_byte (linear mod 4) b (word w (entry_ppn e) q))
    (set_word t (Z.land (Z.shiftr linear 12) 1023) (Z.lor e 96) w).

Definition read_u8 (addr : Z) : M Kernel (option Z) :=
  linear <- linear_of addr;;
  ok <- page_in linear;;
  if ok : bool then k <- mget;; mok (Some (load_byte linear (memory k))) else mok None.

Definition write_u8 (val addr : Z) : M Kernel bool :=
  linear <- linear_of addr;;
  ok <- page_in linear;;
  if ok : bool then on_memory (mmodify (store_byte linear val));;; mok true else mok false.

(** ** Copies *)

(** [addr.add(i)] counts on from [addr]; [None] when the task is killed. *)
Fixpoint read_bytes (addr : Z) (len : nat) : M Kernel (option (list Z)) :=
  match len with
  | O => mok (Some [])
  | S len =>
      b <- read_u8 addr;;
      match b with
      | None => mok None
      | Some b => rest <- read_bytes (as_u32 (addr + 1)) len;; mok (cons b <$> rest)
      end
  end.

Fixpoint write_bytes (buf : list Z) (addr : Z) : M Kernel bool :=
  match buf with
  | [] => mok true
  | b :: rest =>
      ok <- write_u8 b addr;;
      if ok : bool then write_bytes rest (as_u32 (addr + 1)) else mok false
  end.

(** [movw] and [movl] as their bytes, the least significant first. *)
Definition read_u16 (addr : Z) : M Kernel (option Z) := o <- read_bytes addr 2;; mok (le_value <$> o).
Definition read_u32 (addr : Z) : M Kernel (option Z) := o <- read_bytes addr 4;; mok (le_value <$> o).
Definition write_u32 (val addr : Z) : M Kernel bool := write_bytes (le_bytes 4 val) addr.

(** A structure is its bytes. *)
Definition read_struct (size : nat) (addr : Z) : M Kernel (option (list Z)) := read_bytes addr size.
Definition write_struct (value : list Z) (addr : Z) : M Kernel bool := write_bytes value addr.

(** A string is its bytes' characters. *)
Fixpoint read_string (addr : Z) (max_len : nat) : M Kernel (option (list Z)) :=
  match max_len with
  | O => mok (Some [])
  | S max_len =>
      b <- read_u8 addr;;
      match b with
      | None => mok None
      | Some b =>
          if b =? 0 then mok (Some [])
          else rest <- read_string (as_u32 (addr + 1)) max_len;; mok (cons b <$> rest)
      end
  end.

Definition read_pathname (addr : Z) : M Kernel (option (list Z)) := read_string addr MAX_PATH_LEN.

(** What the handlers do that give a result to the caller's memory. *)
Definition copy_out (buf : list Z) (addr : Z) : M Kernel bool :=
  r <- ensure_user_area_writable addr (Z.of_nat (length buf));;
  match r with Resolved => write_bytes buf addr | Oom => mok false end.

(** ** Bytes *)

Lemma get_set_byte r r' b x : 0 ≤ r < 4 → 0 ≤ r' < 4 → is_uint 8 b →
  get_byte r' (set_byte r b x) = if decide (r = r') then b else get_byte r' x.
Proof.
  intros Hr Hr' Hb. unfold get_byte, set_byte. set (l := <[Z.to_nat r := b]> (le_bytes 4 x)).
  assert (length l = 4%nat) as Hl by (unfold l; rewrite length_insert; apply length_le_bytes).
  assert (Forall (is_uint 8) l) as Hu by (apply Forall_insert; [apply le_bytes_uint|done]).
  pose proof (le_bytes_value l Hu) as E. rewrite Hl in E. rewrite E. unfold l. case_decide as Hd.
  - subst r'. rewrite list_lookup_insert_eq; [done|]. rewrite length_le_bytes. lia.
  - rewrite list_lookup_insert_ne by lia. done.
Qed.

(** The byte a task finds at an address of its data segment. *)
Definition byte_seen (w : World) (n : nat) (a : Z) : option Z :=
  p ← seen w n (a / 4194304) (a / 4096 mod 1024); get_byte (a mod 4) <$> zlookup p (a mod 4096 / 4).

(** The entry of the page at an address of the data segment. *)
Definition entry_for (w : World) (n : nat) (a : Z) : Z := walk w n (a / 4194304) (a / 4096 mod 1024).

Lemma seg_linear n a : (n < 64)%nat → 0 ≤ a < TASK_LINEAR_SIZE →
  let linear := as_u32 (TASK_LINEAR_SIZE * Z.of_nat n + a) in
  Z.shiftr linear 22 = 16 * Z.of_nat n + a / 4194304 ∧ Z.land (Z.shiftr linear 12) 1023 = a / 4096 mod 1024 ∧
  linear mod 4096 = a mod 4096 ∧ linear mod 4 = a mod 4 ∧ is_uint 32 linear ∧
  floor linear = lin_page n (a / 4194304) (a / 4096 mod 1024) ∧ 0 ≤ a / 4194304 < 16 ∧ 0 ≤ a / 4096 mod 1024 < 1024.
Proof.
  change TASK_LINEAR_SIZE with 67108864. intros Hn Ha. cbv zeta. rewrite wrap_small by (unfold is_uint; lia).
  unfold floor, PAGE_SHIFT, lin_page, is_uint. change 1023 with (2 ^ 10 - 1). rewrite land_mask, !Z.shiftr_div_pow2 by done.
  change (2 ^ 22) with 4194304. change (2 ^ 12) with 4096. change (2 ^ 10) with 1024. change (2 ^ 32) with 4294967296.
  set (N := Z.of_nat n) in *. assert (0 ≤ N < 64) as HN by lia. clearbody N. split_and!; Z.to_euclidean_division_equations; lia.
Qed.

Lemma seg_entry w n a : (n < 64)%nat → 0 ≤ a < TASK_LINEAR_SIZE →
  entry_at w (as_u32 (TASK_LINEAR_SIZE * Z.of_nat n + a)) = entry_for w n a.
Proof. intros Hn Ha. destruct (seg_linear n a Hn Ha) as (E1 & E2 & _). unfold entry_at, entry_for, walk. by rewrite E1, E2. Qed.

Lemma store_byte_user w n a b : (n < 64)%nat → 0 ≤ a < TASK_LINEAR_SIZE → is_present (entry_for w n a) = true →
  let q := a mod 4096 / 4 in
  store_byte (as_u32 (TASK_LINEAR_SIZE * Z.of_nat n + a)) b w =
    user_store n (a / 4194304) (a / 4096 mod 1024) q (set_byte (a mod 4) b (word w (entry_ppn (entry_for w n a)) q)) w.
Proof.
  intros Hn Ha Hp q. unfold store_byte. cbv zeta. rewrite (seg_entry _ _ _ Hn Ha). destruct (seg_linear n a Hn Ha) as (E1 & E2 & E3 & E4 & _).
  rewrite E1, E2, E3, E4. fold q. unfold user_store. cbv zeta.
  assert (entry_for w n a = word w (entry_ppn (word w 0 (16 * Z.of_nat n + a / 4194304))) (a / 4096 mod 1024)) as E; [|by rewrite <- E].
  revert Hp. unfold entry_for, walk. cbv zeta. by destruct (is_present (word w 0 _)).
Qed.

(** A byte that the kernel stores is an act of the system of [Cow], whether or not
    the task may write the page. *)
Lemma store_byte_step w0 w h n a b : (0 < n < 64)%nat → is_Some (spaces w !! n) → 0 ≤ a < TASK_LINEAR_SIZE → is_present (entry_for w n a) = true →
  ∃ x, step (word w0) (Stores n (a / 4194304) (a / 4096 mod 1024) (a mod 4096 / 4) x) (w, h)
         (store_byte (as_u32 (TASK_LINEAR_SIZE * Z.of_nat n + a)) b w, h).
Proof.
  intros Hn Hl Ha Hp. rewrite store_byte_user by (done || lia). cbv zeta. eexists. apply step_stores; [|done|].
  - destruct (seg_linear n a) as (_ & _ & _ & _ & _ & _ & Hi & Hj); [lia|done|]. exact (conj Hl (conj Hn (conj Hi Hj))).
  - Z.to_euclidean_division_equations. lia.
Qed.

Section boot.
Context (first last : Z) (w0 : World) (Hb : booted first last w0).
#[local] Set Default Proof Using "Hb".
Local Abbreviation reach := (reachable w0).

(** Pages of other tasks. *)
Definition mine (n : nat) : nat * Z * Z → Prop := λ x, x.1.1 = n.

Lemma others_mine w w' n i j : (∀ m, is_Some (spaces w' !! m) ↔ is_Some (spaces w !! m)) → others_same w w' n i j → kept (mine n) w w'.
Proof.
  intros Hl Ho. split; [done|]. intros m i' j' _ Hj Hm. apply same_at_view, Ho; [done|]. intros [= -> _ _]. by apply Hm.
Qed.

Lemma addr_slot n a : (0 < n < 64)%nat → 0 ≤ a < TASK_LINEAR_SIZE → in_slot n (a / 4194304) (a / 4096 mod 1024).
Proof using. clear Hb. intros Hn Ha. destruct (seg_linear n a) as (_ & _ & _ & _ & _ & _ & Hi & Hj); [lia|done|]. done. Qed.

(** Two addresses of one page, and of one word. *)
Lemma same_byte a a' : 0 ≤ a → 0 ≤ a' →
  a / 4194304 = a' / 4194304 → a / 4096 mod 1024 = a' / 4096 mod 1024 → a mod 4096 / 4 = a' mod 4096 / 4 → a mod 4 = a' mod 4 → a = a'.
Proof. intros. Z.to_euclidean_division_equations. lia. Qed.

Lemma same_others_entry w w' h h' n i j a' : reach (w, h) → reach (w', h') → (0 < n < 64)%nat → 0 ≤ a' < TASK_LINEAR_SIZE →
  others_same w w' n i j → (a' / 4194304, a' / 4096 mod 1024) ≠ (i, j) →
  entry_for w' n a' = entry_for w n a' ∧ byte_seen w' n a' = byte_seen w n a'.
Proof.
  intros Hr Hr' Hn Ha' Ho Hne. pose proof (addr_slot n a' Hn Ha') as Hs. unfold entry_for, byte_seen.
  destruct (reach_walk _ _ _ Hb _ _ _ _ _ Hr Hs) as [-> ->]. destruct (reach_walk _ _ _ Hb _ _ _ _ _ Hr' Hs) as [-> ->].
  destruct (Ho n (a' / 4194304) (a' / 4096 mod 1024)) as [-> ->]; [apply Hs|congruence|done].
Qed.

Record stored (w w' : World) (h : list Z) (n : nat) (a b : Z) : Prop := {
  st_reach : reach (w', h);
  st_kept : kept (mine n) w w';
  st_entries : ∀ a', 0 ≤ a' < TASK_LINEAR_SIZE →
    is_present (entry_for w' n a') = is_present (entry_for w n a') ∧ writable (entry_for w' n a') = writable (entry_for w n a');
  st_bytes : ∀ a', 0 ≤ a' < TASK_LINEAR_SIZE → byte_seen w' n a' = if decide (a' = a) then Some b else byte_seen w n a';
}.

(** A page a task may write is not the directory's. *)
Lemma own_seen w h n i j : reach (w, h) → in_slot n i j → is_present (walk w n i j) = true → writable (walk w n i j) = true →
  seen w n i j = Some (page_at (phys w) (entry_ppn (walk w n i j))).
Proof.
  intros Hr Hs Hp Hw. destruct (reach_ok _ _ _ Hb _ _ Hr) as [Hok _]. destruct (walk_facts _ _ _ _ _ Hok Hs Hp) as (t & Ht & Ew).
  unfold seen. cbv zeta. rewrite Hp. rewrite Ew in *. destruct (writable_sole _ _ _ _ _ _ _ _ _ _ Hok Ht (proj2 (proj2 Hs)) Hp Hw) as [Hd _].
  destruct (i_dat _ _ _ (ok_inv _ _ _ Hok) _ _ _ Hd) as (Hpool & _). unfold pool in Hpool. by rewrite (proj2 (Z.eqb_neq _ _)) by lia.
Qed.

(** The word of a page with one byte replaced. *)
Lemma replaced_byte p q r b q' r' x : length p = 1024%nat → 0 ≤ q < 1024 → 0 ≤ r < 4 → 0 ≤ r' < 4 → is_uint 8 b →
  zlookup p q = Some x →
  get_byte r' <$> zlookup (zupdate p q (set_byte r b x)) q' =
    if decide (q' = q ∧ r' = r) then Some b else get_byte r' <$> zlookup p q'.
Proof.
  intros Hl Hq Hr Hr' Hb8 Hx. rewrite zlookup_zupdate by lia. destruct (decide (q = q')) as [<-|Hne].
  - cbn [fmap option_fmap option_map]. rewrite get_set_byte, Hx by done. cbn [fmap option_fmap option_map].
    repeat case_decide; try done; exfalso; naive_solver.
  - by rewrite decide_False by naive_solver.
Qed.

Lemma store_byte_spec w h n a b :
  reach (w, h) → (0 < n < 64)%nat → is_Some (spaces w !! n) → 0 ≤ a < TASK_LINEAR_SIZE → is_uint 8 b →
  is_present (entry_for w n a) = true → writable (entry_for w n a) = true →
  stored w (store_byte (as_u32 (TASK_LINEAR_SIZE * Z.of_nat n + a)) b w) h n a b.
Proof.
  intros Hr Hn Hl Ha Hb8 Hp Hw. rewrite store_byte_user by (done || lia). cbv zeta.
  set (i := a / 4194304). set (j := a / 4096 mod 1024). set (q := a mod 4096 / 4). set (x := set_byte _ _ _).
  pose proof (addr_slot n a Hn Ha) as Hs. fold i j in Hs. assert (0 ≤ q < 1024) as Hq by (unfold q; Z.to_euclidean_division_equations; lia).
  assert (may_store w n i j) as Hms by done.
  destruct (store_spec _ _ _ n i j q x w h (reachable_good _ _ _ _ Hb Hr) Hms Hq) as (_ & Ho & Hseen & Hent). set (w' := user_store n i j q x w) in *.
  assert (reach (w', h)) as Hr' by (eapply reach_step; [exact Hb|exact Hr|by apply step_store]).
  assert (∀ m, is_Some (spaces w' !! m) ↔ is_Some (spaces w !! m)) as Hl' by (unfold w', user_store; by rewrite !set_word_eq by (done || apply Hs)).
  destruct (reach_walk _ _ _ Hb _ _ _ _ _ Hr Hs) as [Ew _]. destruct (reach_walk _ _ _ Hb _ _ _ _ _ Hr' Hs) as [Ew' _].
  assert (∀ a', 0 ≤ a' < TASK_LINEAR_SIZE → (a' / 4194304, a' / 4096 mod 1024) ≠ (i, j) →
    entry_for w' n a' = entry_for w n a' ∧ byte_seen w' n a' = byte_seen w n a') as Hoth by (intros a' ? ?; by apply (same_others_entry _ _ h h n i j)).
  split; [done|by eapply others_mine| |]; intros a' Ha'; destruct (decide ((a' / 4194304, a' / 4096 mod 1024) = (i, j))) as [[= Ei Ej]|Hne].
  - unfold entry_for. rewrite Ei, Ej, Ew', Hent, Ew. destruct (mark_facts (entry_of w n i j)) as (_ & -> & _ & ->); [|done].
    eapply entry_uint; [exact Hb|exact Hr|apply Hs].
  - by destruct (Hoth a' Ha' Hne) as [-> _].
  - unfold byte_seen. rewrite Ei, Ej, Hseen, (own_seen _ _ _ _ _ Hr Hs Hp Hw). cbn [fmap option_fmap option_map mbind option_bind].
    set (p := page_at _ _). destruct (reach_ok _ _ _ Hb _ _ Hr) as [Hok _].
    assert (length p = 1024%nat) as Hlen by apply (i_phys _ _ _ (ok_inv _ _ _ Hok)).
    assert (zlookup p q = Some (word w (entry_ppn (entry_for w n a)) q)) as Hword.
    { rewrite word_eq by done. fold i j in p |- *. unfold entry_for. fold i j p. unfold zlookup. rewrite (proj2 (Z.leb_le 0 q)) by lia.
      by destruct (lookup_lt_is_Some_2 p (Z.to_nat q)) as [y ->]; [lia|]. }
    unfold x. rewrite (replaced_byte p q (a mod 4) b (a' mod 4096 / 4) (a' mod 4) _ Hlen Hq); [|by apply Z.mod_pos_bound..|done|exact Hword].
    apply decide_ext. split; [intros [? ?]; symmetry; apply same_byte; lia|by intros ->].
  - destruct (Hoth a' Ha' Hne) as [_ ->]. rewrite decide_False; [done|]. intros ->. by apply Hne.
Qed.

(** ** Stores of the kernel *)

(** An address at which the kernel's store is the task's own affair: the page
    is there and the task may write it, or it is not there and will be a fresh
    zero page. *)
Definition ready (t : Task) (w : World) (n : nat) (a : Z) : Prop :=
  if is_present (entry_for w n a) then writable (entry_for w n a) = true
  else of_executable t (a / 4194304) (a / 4096 mod 1024) = None.

Lemma seg_run k h t a : kernel_ok w0 k h t → linear_of a k = (Ok (as_u32 (TASK_LINEAR_SIZE * Z.of_nat (current_slot k) + a)), k).
Proof.
  intros Hk. unfold linear_of. rewrite (bind_Ok _ _ _ _ _ (current_run _ _ _ Hb _ _ _ Hk)). by destruct (ko_layout _ _ _ _ Hk) as [-> _].
Qed.

(** What an access keeps: other tasks' pages, and of the task's own all bytes
    but those of [P]. *)
Record accessed (P : Z → Prop) (k k' : Kernel) (h : list Z) (t : Task) : Prop := {
  ac_moved : moved w0 (mine (current_slot k)) k k' h;
  ac_bytes : ∀ a x, 0 ≤ a < TASK_LINEAR_SIZE → ¬ P a → byte_seen (memory k) (current_slot k) a = Some x →
    byte_seen (memory k') (current_slot k) a = Some x;
  ac_ready : ∀ a, 0 ≤ a < TASK_LINEAR_SIZE → ready t (memory k) (current_slot k) a → ready t (memory k') (current_slot k) a;
}.

Lemma accessed_refl P k h t : reach (memory k, h) → accessed P k k h t.
Proof. intros Hr. split; [by apply (loading_refl first last w0 Hb)|done|done]. Qed.

Lemma accessed_trans (P Q R : Z → Prop) k1 k2 k3 h t :
  accessed P k1 k2 h t → accessed Q k2 k3 h t → (∀ a, P a ∨ Q a → R a) → accessed R k1 k3 h t.
Proof.
  intros [M1 B1 R1] [M2 B2 R2] HPQ. assert (current_slot k2 = current_slot k1) as E by apply M1. rewrite E in *. split.
  - by eapply loading_trans.
  - intros a x Ha Hn Hx. apply B2; [done|naive_solver|]. apply B1; [done|naive_solver|done].
  - intros a Ha Hx. by apply R2, R1.
Qed.

Lemma accessed_weaken (P Q : Z → Prop) k k' h t : accessed P k k' h t → (∀ a, P a → Q a) → accessed Q k k' h t.
Proof. intros [M B R] HPQ. split; [done| |done]. intros a x Ha Hn. apply B; [done|]. intros Hp. by apply Hn, HPQ. Qed.

Lemma page_in_spec k h t a : let n := current_slot k in
  kernel_ok w0 k h t → 0 ≤ a < TASK_LINEAR_SIZE → ready t (memory k) n a →
  ∃ r k', page_in (as_u32 (TASK_LINEAR_SIZE * Z.of_nat n + a)) k = (Ok r, k') ∧ accessed (λ _, False) k k' h t ∧
    if r : bool then is_present (entry_for (memory k') n a) = true ∧ writable (entry_for (memory k') n a) = true else one_free (memory k').
Proof.
  intros n Hk Ha Hrd. destruct (ko_slot _ _ _ _ Hk) as [Hn Hl]. fold n in Hn, Hl. pose proof (ko_memory _ _ _ _ Hk) as Hr.
  unfold page_in. erewrite bind_Ok by reflexivity. rewrite seg_entry by (done || lia).
  destruct (is_present (entry_for (memory k) n a)) eqn:Hp.
  { exists true, k. split; [done|]. split; [by apply accessed_refl|]. unfold ready in Hrd. by rewrite Hp in *. }
  unfold ready in Hrd. rewrite Hp in Hrd. destruct (seg_linear n a) as (_ & _ & _ & _ & Hu & Hf & _); [lia|done|].
  pose proof (addr_slot n a Hn Ha) as Hs.
  destruct (zero_handler first last w0 k h t _ _ _ Hb Hk Hu Hf Hs Hp Hrd) as (r & k' & Hrun & Hm & Ho & Hres). fold n in Hm, Ho.
  rewrite (bind_Ok _ _ _ _ _ Hrun). eexists _, k'. split; [reflexivity|].
  assert (accessed (λ _, False) k k' h t) as Hacc.
  { split.
    - split; [apply Hm| |apply Hm|apply Hm]. apply (others_mine _ _ n _ _ (proj1 (ld_kept _ _ _ _ _ Hm)) Ho).
    - fold n. intros a' x Ha' _ Hx. destruct (decide ((a' / 4194304, a' / 4096 mod 1024) = (a / 4194304, a / 4096 mod 1024))) as [[= Ei Ej]|Hne].
      + unfold byte_seen in Hx. rewrite Ei, Ej in Hx. unfold seen in Hx. unfold entry_for in Hp. by rewrite Hp in Hx.
      + by destruct (same_others_entry _ _ _ _ _ _ _ a' Hr (ld_reach _ _ _ _ _ Hm) Hn Ha' Ho Hne) as [_ ->].
    - fold n. intros a' Ha' Hx. unfold ready in *. destruct (decide ((a' / 4194304, a' / 4096 mod 1024) = (a / 4194304, a / 4096 mod 1024))) as [[= Ei Ej]|Hne].
      + unfold entry_for. rewrite Ei, Ej. destruct r.
        * destruct Hres as [Hp' Hres]. fold n in Hp', Hres. rewrite Hp'. rewrite Hrd in Hres. apply Hres.
        * destruct Hres as [_ Hp']. fold n in Hp'. by rewrite Hp'.
      + by destruct (same_others_entry _ _ _ _ _ _ _ a' Hr (ld_reach _ _ _ _ _ Hm) Hn Ha' Ho Hne) as [-> _]. }
  split; [done|]. destruct r; [|apply Hres]. destruct Hres as [Hp' Hres]. split; [done|]. rewrite Hrd in Hres. apply Hres.
Qed.

Lemma write_u8_spec k h t a b : let n := current_slot k in
  kernel_ok w0 k h t → 0 ≤ a < TASK_LINEAR_SIZE → is_uint 8 b → ready t (memory k) n a →
  ∃ r k', write_u8 b a k = (Ok r, k') ∧ accessed (λ a', a' = a) k k' h t ∧
    if r : bool then byte_seen (memory k') n a = Some b else one_free (memory k').
Proof.
  intros n Hk Ha Hb8 Hrd. unfold write_u8. rewrite (bind_Ok _ _ _ _ _ (seg_run _ _ _ a Hk)). fold n.
  destruct (page_in_spec k h t a Hk Ha Hrd) as (r & k1 & Hrun & Hacc & Hres). fold n in Hrun, Hres. rewrite (bind_Ok _ _ _ _ _ Hrun).
  destruct r; [|exists false, k1; split; [done|]; split; [by eapply accessed_weaken|done]].
  destruct Hres as [Hp Hw]. pose proof (kernel_moved _ _ _ Hb _ _ _ _ _ Hk (ac_moved _ _ _ _ _ Hacc)) as Hk1.
  assert (current_slot k1 = n) as En by apply (ac_moved _ _ _ _ _ Hacc).
  destruct (ko_slot _ _ _ _ Hk1) as [Hn Hl]. rewrite En in Hn, Hl.
  pose proof (store_byte_spec (memory k1) h n a b (ko_memory _ _ _ _ Hk1) Hn Hl Ha Hb8 Hp Hw) as [Sr Sk Se Sb].
  eexists true, (with_memory _ k1). split; [reflexivity|]. split; [|cbn [memory with_memory]; by rewrite Sb, decide_True].
  eapply (accessed_trans _ (λ a', a' = a)); [exact Hacc| |tauto]. split; rewrite ?En; cbn [memory with_memory].
  - split; [done|done|apply BlockMap.alike_refl|done].
  - intros a' x Ha' Hne Hx. by rewrite Sb, decide_False.
  - intros a' Ha' Hx. unfold ready in *. by destruct (Se a' Ha') as [-> ->].
Qed.

Lemma store_bytes_spec buf k h t a : let n := current_slot k in
  kernel_ok w0 k h t → 0 ≤ a → a + Z.of_nat (length buf) ≤ TASK_LINEAR_SIZE → Forall (is_uint 8) buf →
  (∀ a', a ≤ a' < a + Z.of_nat (length buf) → ready t (memory k) n a') →
  ∃ r k', write_bytes buf a k = (Ok r, k') ∧ accessed (λ a', a ≤ a' < a + Z.of_nat (length buf)) k k' h t ∧
    if r : bool then ∀ c b, buf !! c = Some b → byte_seen (memory k') n (a + Z.of_nat c) = Some b else one_free (memory k').
Proof.
  revert k a. induction buf as [|b buf IH]; intros k a n Hk Ha Hlen Hu Hrd.
  { exists true, k. split; [done|]. split; [by apply accessed_refl, Hk|done]. }
  apply Forall_cons in Hu as [Hb8 Hu]. cbn [length] in *. cbn [write_bytes].
  destruct (write_u8_spec k h t a b Hk) as (r & k1 & Hrun & Hacc & Hres); [lia|done|apply Hrd; lia|]. fold n in Hres.
  rewrite (bind_Ok _ _ _ _ _ Hrun). destruct r.
  2:{ exists false, k1. split; [done|]. split; [|done]. eapply accessed_weaken; [exact Hacc|]. cbn beta. lia. }
  pose proof (kernel_moved _ _ _ Hb _ _ _ _ _ Hk (ac_moved _ _ _ _ _ Hacc)) as Hk1.
  assert (current_slot k1 = n) as En by apply (ac_moved _ _ _ _ _ Hacc). change TASK_LINEAR_SIZE with 67108864 in *.
  assert (as_u32 (a + 1) = a + 1) as -> by (apply wrap_small; unfold is_uint; lia).
  destruct (IH k1 (a + 1) Hk1) as (r & k2 & Hrun2 & Hacc2 & Hres2); rewrite ?En in *; [lia|lia|done| |].
  { intros a' Ha'. apply (ac_ready _ _ _ _ _ Hacc); [change TASK_LINEAR_SIZE with 67108864; lia|]. apply Hrd. lia. }
  exists r, k2. split; [done|]. split; [eapply accessed_trans; [exact Hacc|exact Hacc2|cbn beta; lia]|].
  destruct r; [|done]. intros [|c] x Hx; [|replace (a + Z.of_nat (S c)) with (a + 1 + Z.of_nat c) by lia; by apply Hres2].
  injection Hx as <-. pose proof (ac_bytes _ _ _ _ _ Hacc2) as Hk2. rewrite En in Hk2. rewrite Z.add_0_r.
  apply Hk2; [change TASK_LINEAR_SIZE with 67108864; lia|lia|done].
Qed.

(** ** Reading *)

Lemma read_u8_spec k h t a b : let n := current_slot k in
  kernel_ok w0 k h t → 0 ≤ a < TASK_LINEAR_SIZE → byte_seen (memory k) n a = Some b → read_u8 a k = (Ok (Some b), k).
Proof.
  intros n Hk Ha Hs. destruct (ko_slot _ _ _ _ Hk) as [Hn _]. fold n in Hn. unfold read_u8.
  rewrite (bind_Ok _ _ _ _ _ (seg_run _ _ _ a Hk)). fold n. unfold page_in. rewrite bind_bind. erewrite bind_Ok by reflexivity.
  rewrite seg_entry by (done || lia). destruct (seg_linear n a) as (_ & _ & Em & Er & _); [lia|done|].
  unfold byte_seen, seen in Hs. fold (entry_for (memory k) n a) in Hs. cbv zeta in Hs.
  destruct (is_present (entry_for (memory k) n a)); [|done]. cbv [bind mget mok]. do 3 f_equal.
  unfold load_byte. rewrite seg_entry, Em, Er by (done || lia). rewrite word_eq by (Z.to_euclidean_division_equations; lia).
  destruct (negb _); [|done]. cbn [andb mbind option_bind] in Hs. by destruct (zlookup _ _) as [x|]; [injection Hs as <-|].
Qed.

Lemma next_addr a : 0 ≤ a < TASK_LINEAR_SIZE → as_u32 (a + 1) = a + 1.
Proof using. clear Hb. change TASK_LINEAR_SIZE with 67108864. intros. apply wrap_small. unfold is_uint. lia. Qed.

Lemma read_bytes_spec l k h t a : let n := current_slot k in
  kernel_ok w0 k h t → 0 ≤ a → a + Z.of_nat (length l) ≤ TASK_LINEAR_SIZE →
  (∀ c b, l !! c = Some b → byte_seen (memory k) n (a + Z.of_nat c) = Some b) → read_bytes a (length l) k = (Ok (Some l), k).
Proof.
  revert a. induction l as [|b l IH]; intros a n Hk Ha Hlen Hs; [done|]. cbn [length] in *. cbn [read_bytes].
  rewrite (bind_Ok _ _ _ _ _ (read_u8_spec k h t a b Hk ltac:(lia) ltac:(rewrite <- (Z.add_0_r a); by apply (Hs 0%nat)))).
  rewrite next_addr by lia.
  rewrite (bind_Ok _ _ _ _ _ (IH (a + 1) Hk ltac:(lia) ltac:(lia) ltac:(intros c x Hx; rewrite <- (Hs (S c) x Hx); f_equal; lia))). done.
Qed.

(** A string that ends within the bound. *)
Lemma read_string_spec s m k h t a : let n := current_slot k in
  kernel_ok w0 k h t → 0 ≤ a → a + Z.of_nat (length s) < TASK_LINEAR_SIZE → 0 ∉ s → (length s < m)%nat →
  (∀ c b, (s ++ [0]) !! c = Some b → byte_seen (memory k) n (a + Z.of_nat c) = Some b) → read_string a m k = (Ok (Some s), k).
Proof.
  revert a m. induction s as [|b s IH]; intros a m n Hk Ha Hlen Hnz Hm Hs; (destruct m as [|m]; [cbn in Hm; lia|]); cbn [length] in *; cbn [read_string].
  - rewrite (bind_Ok _ _ _ _ _ (read_u8_spec k h t a 0 Hk ltac:(lia) ltac:(rewrite <- (Z.add_0_r a); by apply (Hs 0%nat)))). done.
  - rewrite (bind_Ok _ _ _ _ _ (read_u8_spec k h t a b Hk ltac:(lia) ltac:(rewrite <- (Z.add_0_r a); by apply (Hs 0%nat)))).
    apply not_elem_of_cons in Hnz as [Hb0 Hnz]. rewrite (proj2 (Z.eqb_neq b 0)) by done. rewrite next_addr by lia.
    rewrite (bind_Ok _ _ _ _ _ (IH (a + 1) m Hk ltac:(lia) ltac:(lia) Hnz ltac:(lia) ltac:(intros c x Hx; rewrite <- (Hs (S c) x Hx); f_equal; lia))). done.
Qed.
End boot.

(** ** Properties *)

(** Tasks other than [n] find what they found; an entry at most loses the right
    to write. *)
Definition intact (n : nat) (w w' : World) : Prop :=
  ∀ m i j p, m ≠ n → in_slot m i j → seen w m i j = Some p →
    seen w' m i j = Some p ∧ (walk w' m i j = walk w m i j ∨ walk w' m i j = without_writable (walk w m i j)).

Lemma seen_live first last w0 w h m i j p : booted first last w0 → reachable w0 (w, h) → in_slot m i j → seen w m i j = Some p → is_Some (spaces w !! m).
Proof.
  intros Hb Hr Hs Hp. destruct (reach_ok _ _ _ Hb _ _ Hr) as [Hok _].
  assert (is_present (walk w m i j) = true) as Hpr by (unfold seen in Hp; by destruct (is_present _)).
  destruct (walk_facts _ _ _ _ _ Hok Hs Hpr) as (t & Ht & _). rewrite tabs_lookup in Ht. by destruct (spaces w !! m) as [ms|]; [eexists|].
Qed.

Lemma gained_bytes n w w' a x : gained n w w' → (0 < n < 64)%nat → 0 ≤ a < TASK_LINEAR_SIZE → byte_seen w n a = Some x → byte_seen w' n a = Some x.
Proof.
  intros [_ Hg] Hn Ha Hx. pose proof (addr_slot n a Hn Ha) as Hs. destruct (Hg _ _ _ Hs) as [Hseen _]. unfold byte_seen in *.
  destruct (seen w n _ _) as [p|] eqn:E; [|done]. by rewrite (Hseen p eq_refl).
Qed.

(** C33: A copy to user memory.  Let every page of the area be there or lie beyond
    the data of the task's executable.  Then [ensure_user_area_writable] and the
    copy end, without panic.  If the task is not killed, the area has the bytes,
    and reading it gives them; all other bytes of the task's stay, and no other
    task finds anything else than before.  The task is killed only when at most
    one frame is left.  For an absent page of the executable this fails: see
    [check_skips_absent]. *)
Theorem copy_to_user first last w0 k h t buf addr :
  let n := current_slot k in
  booted first last w0 → kernel_ok w0 k h t → Forall (is_uint 8) buf → 0 ≤ addr → addr + Z.of_nat (length buf) ≤ TASK_LINEAR_SIZE →
  (∀ a, addr ≤ a < addr + Z.of_nat (length buf) → is_present (entry_for (memory k) n a) = true ∨
     of_executable t (a / 4194304) (a / 4096 mod 1024) = None) →
  ∃ r k', copy_out buf addr k = (Ok r, k') ∧ kernel_ok w0 k' h t ∧ intact n (memory k) (memory k') ∧
    (∀ a x, 0 ≤ a < TASK_LINEAR_SIZE → ¬ addr ≤ a < addr + Z.of_nat (length buf) →
       byte_seen (memory k) n a = Some x → byte_seen (memory k') n a = Some x) ∧
    if r : bool then
      (∀ c b, buf !! c = Some b → byte_seen (memory k') n (addr + Z.of_nat c) = Some b) ∧
      read_bytes addr (length buf) k' = (Ok (Some buf), k')
    else one_free (memory k').
Proof.
  intros n Hb Hk Hu Ha Hlen Habs. assert (Z.of_nat (length buf) ≤ 67108864 ∧ addr ≤ 67108864) as [? ?] by (change TASK_LINEAR_SIZE with 67108864 in Hlen; lia).
  destruct (ko_slot _ _ _ _ Hk) as [Hn _]. fold n in Hn. unfold copy_out.
  destruct (user_area_writable first last w0 k h t addr (Z.of_nat (length buf)) Hb Hk) as (r & w1 & Hrun & Hk1 & Hg & Hres);
    [unfold is_uint; lia|unfold is_uint; lia|]. fold n in Hg, Hres. rewrite (bind_Ok _ _ _ _ _ Hrun).
  assert (intact n (memory k) w1) as Hi1.
  { intros m i j p Hm Hs Hp. destruct (proj2 Hg m i j Hs) as (Hseen & _ & _ & Hw). split; [by apply Hseen|left; by apply Hw]. }
  destruct r; [|exists false, (with_memory w1 k); split; [done|]; split; [done|]; split; [done|];
    split; [intros a x ? _; by apply gained_bytes|by apply (no_frames_one first last w0 Hb)]].
  destruct (store_bytes_spec first last w0 Hb buf (with_memory w1 k) h t addr Hk1 Ha Hlen Hu) as (r & k2 & Hrun2 & Hacc & Hres2).
  { intros a Haa. cbn [memory with_memory current_slot]. fold n. unfold ready. destruct (is_present (entry_for w1 n a)) eqn:Hp; [apply Hres; [done|lia|done]|].
    destruct (Habs a Haa) as [Hp'|]; [exfalso|done]. pose proof (addr_slot n a Hn) as Hs. destruct (proj2 Hg _ _ _ (Hs ltac:(lia))) as (_ & E & _).
    unfold entry_for in *. congruence. }
  pose proof (kernel_moved _ _ _ Hb _ _ _ _ _ Hk1 (ac_moved _ _ _ _ _ _ Hacc)) as Hk2.
  assert (current_slot k2 = n) as En by apply (ac_moved _ _ _ _ _ _ Hacc). cbn [current_slot with_memory] in *.
  exists r, k2. split; [done|]. split; [done|]. split; [|split].
  - intros m i j p Hm Hs Hp. destruct (Hi1 m i j p Hm Hs Hp) as [Hp1 Hw1].
    pose proof (seen_live _ _ _ _ _ _ _ _ _ Hb (ko_memory _ _ _ _ Hk1) Hs Hp1) as Hl.
    destruct (moved_undisturbed _ _ _ Hb _ _ _ _ _ (ko_memory _ _ _ _ Hk1) (ac_moved _ _ _ _ _ _ Hacc) m i j Hl Hs) as [E1 E2]; [done|].
    cbn [memory with_memory] in E1, E2. split; [congruence|]. destruct Hw1 as [Hw1|Hw1], E2 as [E2|E2]; rewrite Hw1 in E2; [by left|by right|by right|right].
    by rewrite without_writable_twice in E2.
  - intros a x Haa Hout Hx. apply (ac_bytes _ _ _ _ _ _ Hacc a x Haa Hout). by apply (gained_bytes _ (memory k)).
  - destruct r; [|done]. split; [done|]. apply (read_bytes_spec first last w0 Hb buf k2 h t addr Hk2 Ha Hlen). by rewrite En.
Qed.

(** ** Examples *)

Lemma copy_to_user_witness :
  ∃ k', copy_out [104; 105] 69631 sample_kernel = (Ok true, k') ∧ read_bytes 69631 2 k' = (Ok (Some [104; 105]), k') ∧
    byte_seen (memory k') 1 69632 = Some 105.
Proof.
  destruct (copy_to_user LOW_MEM HIGH_MEMORY boot_world sample_kernel [] sample_task [104; 105] 69631 boot_booted sample_kernel_ok)
    as (r & k' & Hr & _ & _ & _ & Hres).
  - repeat constructor; unfold is_uint; lia.
  - lia.
  - vm_compute; discriminate.
  - intros a Ha. left. assert (a = 69631 ∨ a = 69632) as [->| ->] by (cbn [length] in Ha; lia); vm_compute; reflexivity.
  - assert ((copy_out [104; 105] 69631 sample_kernel).1 = Ok true) as E by (vm_compute; reflexivity).
    rewrite Hr in E. cbn [fst] in E. injection E as ->. exists k'. destruct Hres as [Hb Hread].
    split; [exact Hr|]. split; [exact Hread|]. exact (Hb 1%nat 105 eq_refl).
Defined.

(** The third task, a child of the second with the same executable, runs. *)
Definition child_kernel (w : World) : Kernel :=
  mkKernel w BlockMap.sample_file
    [Some (mkTask 0 655360 None); Some sample_task; Some (mkTask (2 * TASK_LINEAR_SIZE) 1000000 (Some 7))] 2.

(** [sys_read] and [sys_pipe] store to user memory without
    [ensure_user_area_writable].  A child that reads into a page it still shares
    with its parent changes the parent's memory; with the check it does not. *)
Example read_writes_parent :
  let forked := (cow_copy 1 2 4194304 (memory (write_u8 5 819200 sample_kernel).2)).2 in
  let unchecked := memory (write_bytes [9] 819200 (child_kernel forked)).2 in
  let checked := memory (copy_out [9] 819200 (child_kernel forked)).2 in
  byte_seen forked 1 819200 = Some 5 ∧
  byte_seen unchecked 1 819200 = Some 9 ∧ byte_seen unchecked 2 819200 = Some 9 ∧
  byte_seen checked 1 819200 = Some 5 ∧ byte_seen checked 2 819200 = Some 9.
Proof. vm_compute. split_and!; reflexivity. Qed.

(** [ensure_user_area_writable] skips pages that are not there.  If such a page
    is the executable's, the store faults, the page of another task is shared,
    and the store goes to both. *)
Example check_skips_absent :
  let forked := (cow_copy 1 2 655360 two_tasks).2 in
  let loaded := memory (handle_no_page 67928064 (mkKernel forked BlockMap.sample_file (tasks (child_kernel forked)) 1)).2 in
  let checked := memory (copy_out [9] 819200 (child_kernel loaded)).2 in
  byte_seen loaded 1 819200 = Some 0 ∧ byte_seen checked 1 819200 = Some 9 ∧ byte_seen checked 2 819200 = Some 9.
Proof. vm_compute. split_and!; reflexivity. Qed.

(** A string longer than the bound is cut without an error. *)
Example pathname_is_cut :
  let k := (copy_out (replicate 300 97 ++ [0]) 69632 sample_kernel).2 in
  (read_pathname 69632 k).1 = Ok (Some (replicate 256 97)).
Proof. vm_compute. reflexivity. Qed.
End UserAccess.
