(* ===== verification/Calendar.v ===== *)
(** * Time ([kernel/src/time.rs] and the calendar of [user_program/src/bin/date.rs])

    The timestamp the kernel makes of the clock chip's registers at boot, the
    two system calls that move the clock, and the calendar that [date] shows,
    against the Gregorian calendar. *)

From S2P Require Import Prelude.
From stdpp Require Import list.
Open Scope Z_scope.

Module Calendar.

(** ** The clock chip *)

Definition RTC_SECONDS_REGISTER : Z := 0.
Definition RTC_MINUTES_REGISTER : Z := 2.
Definition RTC_HOURS_REGISTER : Z := 4.
Definition RTC_DAY_REGISTER : Z := 7.
Definition RTC_MONTH_REGISTER : Z := 8.
Definition RTC_YEAR_REGISTER : Z := 9.

Definition MINUTE : Z := 60.
Definition HOUR : Z := 60 * MINUTE.
Definition DAY : Z := 24 * HOUR.
Definition COMMON_YEAR : Z := 365 * DAY.
Definition UNIX_EPOCH_YEAR : Z := 1970.
Definition UNIX_EPOCH_YEAR_IN_CENTURY : Z := UNIX_EPOCH_YEAR mod 100.

Record RtcTime : Type := mkRtc {
  second : Z; minute : Z; hour : Z; day_of_month : Z; month_index : Z; year_of_century : Z;
}.

Definition decode_bcd (value : Z) : Z := as_u8 (Z.land value 15 + as_u8 (Z.shiftr value 4 * 10)).

(** The registers as successive reads find them. *)
Fixpoint read_rtc_time (fuel : nat) (read_cmos : nat → Z → Z) (now : nat) : option RtcTime :=
  match fuel with
  | O => None
  | S fuel =>
      let second := read_cmos now RTC_SECONDS_REGISTER in
      let minute := read_cmos (now + 1)%nat RTC_MINUTES_REGISTER in
      let hour := read_cmos (now + 2)%nat RTC_HOURS_REGISTER in
      let day := read_cmos (now + 3)%nat RTC_DAY_REGISTER in
      let month := read_cmos (now + 4)%nat RTC_MONTH_REGISTER in
      let year := read_cmos (now + 5)%nat RTC_YEAR_REGISTER in
      if second =? read_cmos (now + 6)%nat RTC_SECONDS_REGISTER then
        Some (mkRtc (decode_bcd second) (decode_bcd minute) (decode_bcd hour) (decode_bcd day)
                (wrapping_sub (decode_bcd month) 1) (decode_bcd year))
      else read_rtc_time fuel read_cmos (now + 7)%nat
  end.

Definition full_year_from_rtc (year_of_century : Z) : Z :=
  if UNIX_EPOCH_YEAR_IN_CENTURY <=? year_of_century then 1900 + year_of_century else 2000 + year_of_century.

Definition is_leap_year (year : Z) : bool := year mod 4 =? 0.

Definition build_month_start_days_in_leap_year : list Z :=
  let month_lengths := [31; 29; 31; 30; 31; 30; 31; 31; 30; 31; 30; 31] in
  fold_left (λ offsets month,
      zupdate offsets month (default 0 (zlookup offsets (month - 1)) + default 0 (zlookup month_lengths (month - 1))))
    (seqZ 1 11) (replicate 12 0).

Definition MONTH_START_DAYS_IN_LEAP_YEAR : list Z := build_month_start_days_in_leap_year.

(** A month index beyond the table panics; the sum is modulo [2 ^ 32]. *)
Definition unix_timestamp_from_rtc (rtc : RtcTime) : option Z :=
  let full_year := full_year_from_rtc (year_of_century rtc) in
  let years_since_epoch := wrapping_sub full_year UNIX_EPOCH_YEAR in
  let leap_day_adjustment := if (1 <? month_index rtc) && negb (is_leap_year full_year) then DAY else 0 in
  month_start ← zlookup MONTH_START_DAYS_IN_LEAP_YEAR (month_index rtc);
  Some (as_u32 (COMMON_YEAR * years_since_epoch + DAY * ((years_since_epoch + 1) / 4) + DAY * month_start
    + DAY * (day_of_month rtc - 1) + HOUR * hour rtc + MINUTE * minute rtc + second rtc - leap_day_adjustment)).

(** *** The running clock: the boot timestamp and the ticks since. *)

Definition HZ : Z := 100.
Definition current_time (startup jiffies : Z) : Z := wrapping_add startup (jiffies / HZ).
Definition sys_stime (superuser : bool) (new_time jiffies startup : Z) : result Z * Z :=
  if negb superuser then (Err PERM, startup) else (Ok 0, wrapping_sub new_time (jiffies / HZ)).

(** ** [Calendar::from_unix] *)

Record Calendar : Type := mkCalendar {
  c_year : Z; c_month : Z; c_day : Z; c_hour : Z; c_minute : Z; c_second : Z; c_weekday : Z;
}.

Definition civil (z : Z) : Z * Z * Z :=
  let era := (if 0 <=? z then z else z - 146096) ÷ 146097 in
  let doe := z - era * 146097 in
  let yoe := (doe - doe / 1460 + doe / 36524 - doe / 146096) / 365 in
  let y0 := yoe + era * 400 in
  let doy := doe - (365 * yoe + yoe / 4 - yoe / 100) in
  let mp := (5 * doy + 2) / 153 in
  let day := doy - (153 * mp + 2) / 5 + 1 in
  let month_offset := if mp <? 10 then mp + 3 else mp - 9 in
  let year := y0 + (if month_offset <=? 2 then 1 else 0) in
  (year, month_offset, day).

(** [div_euclid] and [rem_euclid] by a positive number are those of [Z]. *)
Definition from_unix (secs : Z) : Calendar :=
  let days := secs / 86400 in
  let seconds_of_day := secs mod 86400 in
  let '(year, month, day) := civil (days + 719468) in
  mkCalendar year month day (seconds_of_day / 3600) ((seconds_of_day / 60) mod 60) (seconds_of_day mod 60) ((days + 4) mod 7).

(** ** The Gregorian calendar *)

Definition leap (y : Z) : bool := (y mod 4 =? 0) && (negb (y mod 100 =? 0) || (y mod 400 =? 0)).
Definition month_days (y m : Z) : Z :=
  if m =? 2 then (if leap y then 29 else 28) else if (m =? 4) || (m =? 6) || (m =? 9) || (m =? 11) then 30 else 31.

(** Days from the first of January 1970 to that of year [y]. *)
Definition year_start (y : Z) : Z := 365 * (y - 1970) + ((y - 1) / 4 - (y - 1) / 100 + (y - 1) / 400 - 477).
Definition days_of (y m d : Z) : Z := year_start y + foldr Z.add 0 (map (month_days y) (seqZ 1 (m - 1))) + (d - 1).
Definition valid (y m d : Z) : Prop := 1 ≤ m ≤ 12 ∧ 1 ≤ d ≤ month_days y m.

(** ** Years that begin in March *)

(** Days from the first of March of the year 0 to that of year [y]. *)
Definition march_start (y : Z) : Z := 365 * y + y / 4 - y / 100 + y / 400.

Lemma div_pred n y : 1 < n → y / n - (y - 1) / n = if y mod n =? 0 then 1 else 0.
Proof.
  intros Hn. pose proof (Z.div_mod y n ltac:(lia)) as E. pose proof (Z.mod_pos_bound y n ltac:(lia)).
  set (q := y / n) in *. set (r := y mod n) in *. destruct (Z.eqb_spec r 0) as [Er|Hr].
  - replace ((y - 1) / n) with (q - 1); [lia|]. apply (Z.div_unique (y - 1) n (q - 1) (n - 1)); lia.
  - replace ((y - 1) / n) with q; [lia|]. apply (Z.div_unique (y - 1) n q (r - 1)); lia.
Qed.

Lemma leap_day y : (if leap y then 1 else 0) = y / 4 - (y - 1) / 4 - (y / 100 - (y - 1) / 100) + (y / 400 - (y - 1) / 400).
Proof.
  rewrite (div_pred 4), (div_pred 100), (div_pred 400) by lia. unfold leap.
  destruct (Z.eqb_spec (y mod 4) 0), (Z.eqb_spec (y mod 100) 0), (Z.eqb_spec (y mod 400) 0); cbn [andb orb negb];
    Z.to_euclidean_division_equations; lia.
Qed.

Lemma march_of_year y : year_start y + 59 + (if leap y then 1 else 0) = march_start y - 719468.
Proof. rewrite leap_day. unfold year_start, march_start. lia. Qed.

Lemma january_after y : year_start (y + 1) = march_start y + 306 - 719468.
Proof. unfold year_start, march_start. replace (y + 1 - 1) with y by lia. lia. Qed.

(** The year of a day of an era. *)
Definition year_of_era (doe : Z) : Z := (doe - doe / 1460 + doe / 36524 - doe / 146096) / 365.

Lemma year_of_era_spec doe : 0 ≤ doe < 146097 →
  0 ≤ year_of_era doe < 400 ∧ 0 ≤ doe - march_start (year_of_era doe) ≤ 365 ∧
  (doe - march_start (year_of_era doe) = 365 → leap (year_of_era doe + 1) = true).
Proof.
  intros Hd. unfold year_of_era. set (y := _ / 365).
  assert (0 ≤ y < 400) as Hy by (unfold y; Z.to_euclidean_division_equations; lia). unfold march_start. replace (y / 400) with 0 by (symmetry; by apply Z.div_small).
  assert (0 ≤ doe - (365 * y + y / 4 - y / 100 + 0) ≤ 365) as Hr by (unfold y; Z.to_euclidean_division_equations; lia).
  split_and!; try lia. intros E. pose proof (leap_day (y + 1)) as Hl. destruct (leap (y + 1)); [done|exfalso].
  replace (y + 1 - 1) with y in Hl by lia. unfold y in *. Z.to_euclidean_division_equations; lia.
Qed.

(** The days of a year that begins in March: month, day, and whether the year
    is over. *)
Definition month_of_day (doy : Z) : Z * Z :=
  let mp := (5 * doy + 2) / 153 in
  (if mp <? 10 then mp + 3 else mp - 9, doy - (153 * mp + 2) / 5 + 1).

(** Days before month [m], and in it, in a leap year or not. *)
Definition days_in (l : bool) (m : Z) : Z :=
  if m =? 2 then (if l then 29 else 28) else if (m =? 4) || (m =? 6) || (m =? 9) || (m =? 11) then 30 else 31.
Definition days_before (l : bool) (m : Z) : Z := foldr Z.add 0 (map (days_in l) (seqZ 1 (m - 1))).

Lemma month_days_in y m : month_days y m = days_in (leap y) m.
Proof. done. Qed.

Lemma days_of_eq y m d : days_of y m d = year_start y + days_before (leap y) m + (d - 1).
Proof. done. Qed.

Definition day_ok (l : bool) (doy : Z) : bool :=
  let '(m, d) := month_of_day doy in
  (1 <=? m) && (m <=? 12) && (1 <=? d) && (d <=? days_in l m) && Bool.eqb (m <=? 2) (306 <=? doy) &&
  (days_before l m + (d - 1) =? if 306 <=? doy then doy - 306 else doy + 59 + (if l then 1 else 0)).

Lemma days_ok : forallb (day_ok true) (seqZ 0 366) && forallb (day_ok false) (seqZ 0 365) = true.
Proof. vm_compute. reflexivity. Qed.

Lemma day_spec l doy : 0 ≤ doy ≤ 365 → (doy = 365 → l = true) → day_ok l doy = true.
Proof.
  intros Hd Hl. pose proof days_ok as H. apply andb_true_iff in H as [Ht Hf]. rewrite !forallb_forall in *.
  destruct l; [apply Ht|apply Hf]; apply list_elem_of_In, elem_of_seqZ; [lia|].
  assert (doy ≠ 365); [|lia]. intros E. by specialize (Hl E).
Qed.

(** [civil] finds the day of the calendar. *)
Lemma civil_spec z :
  let '(y, m, d) := civil z in valid y m d ∧ days_of y m d = z - 719468.
Proof.
  unfold civil. assert ((if 0 <=? z then z else z - 146096) ÷ 146097 = z / 146097) as ->.
  { destruct (Z.leb_spec 0 z); Z.to_euclidean_division_equations; lia. }
  set (era := z / 146097). set (doe := z - era * 146097). assert (0 ≤ doe < 146097) as Hd by (unfold doe, era; Z.to_euclidean_division_equations; lia).
  cbv zeta. fold (year_of_era doe). set (yoe := year_of_era doe). destruct (year_of_era_spec doe Hd) as (Hy & Hdoy & Hl). fold yoe in Hy, Hdoy, Hl.
  set (doy := doe - (365 * yoe + yoe / 4 - yoe / 100)).
  assert (doy = doe - march_start yoe) as Edoy by (unfold doy, march_start; rewrite (Z.div_small yoe 400) by done; lia).
  rewrite <- Edoy in Hdoy, Hl. set (y0 := yoe + era * 400).
  assert (march_start y0 = march_start yoe + 146097 * era) as Em by (unfold march_start, y0; Z.to_euclidean_division_equations; lia).
  assert (∀ k, leap (y0 + k) = leap (yoe + k)) as Hleap.
  { intros k. unfold leap, y0. replace (yoe + era * 400 + k) with (yoe + k + era * 400) by lia.
    rewrite Z.mod_add by done. replace (era * 400) with (era * 100 * 4) at 1 by lia. rewrite Z.mod_add by done.
    replace (era * 400) with (era * 4 * 100) by lia. by rewrite Z.mod_add. }
  change (((5 * doy + 2) / 153 <? 10)) with ((5 * doy + 2) / 153 <? 10).
  destruct (month_of_day doy) as [m d] eqn:Hmd. pose proof Hmd as Hmd'. unfold month_of_day in Hmd. injection Hmd as Em' Ed'.
  rewrite Em', Ed'.
  destruct (Z.leb_spec 306 doy) as [Hj|Hj].
  - pose proof (day_spec (leap (y0 + 1)) doy Hdoy) as Hok. rewrite Hleap in Hok. specialize (Hok Hl). unfold day_ok in Hok.
    rewrite Hmd', (proj2 (Z.leb_le 306 doy)) in Hok by done. 
    repeat (apply andb_true_iff in Hok as [Hok ?]). assert ((m <=? 2) = true) as -> by (by destruct (m <=? 2)).
    rewrite <- Hleap in *. split; [unfold valid; rewrite month_days_in; lia|]. rewrite days_of_eq, january_after. lia.
  - pose proof (day_spec (leap y0) doy Hdoy) as Hok. unfold day_ok in Hok.
    rewrite Hmd', (proj2 (Z.leb_gt 306 doy)) in Hok by done. specialize (Hok ltac:(lia)).
    repeat (apply andb_true_iff in Hok as [Hok ?]). assert ((m <=? 2) = false) as -> by (by destruct (m <=? 2)).
    rewrite Z.add_0_r. split; [unfold valid; rewrite month_days_in; lia|]. rewrite days_of_eq. pose proof (march_of_year y0). lia.
Qed.

(** ** Dates are determined by their day *)

Lemma foldr_add l x : foldr Z.add x l = foldr Z.add 0 l + x.
Proof. induction l as [|y l IH]; simpl; [lia|]. rewrite IH. lia. Qed.

Lemma days_before_succ l m : 1 ≤ m → days_before l (m + 1) = days_before l m + days_in l m.
Proof.
  intros Hm. unfold days_before. replace (m + 1 - 1) with (m - 1 + 1) by lia. rewrite seqZ_app by lia.
  rewrite map_app, foldr_app. replace (1 + (m - 1)) with m by lia. rewrite (seqZ_cons m 1) by lia. change (seqZ _ (Z.pred 1)) with (@nil Z).
  cbn [map foldr]. rewrite foldr_add. lia.
Qed.

Lemma days_before_mono l m (k : nat) : 1 ≤ m → days_before l m + days_in l m ≤ days_before l (m + 1 + Z.of_nat k).
Proof.
  intros Hm. induction k as [|k IH]; [rewrite Z.add_0_r, days_before_succ by done; lia|].
  replace (m + 1 + Z.of_nat (S k)) with (m + 1 + Z.of_nat k + 1) by lia. rewrite days_before_succ by lia.
  assert (0 ≤ days_in l (m + 1 + Z.of_nat k)); [|lia]. unfold days_in. destruct l; repeat case_match; lia.
Qed.

Lemma days_before_le l m m' : 1 ≤ m < m' → days_before l m + days_in l m ≤ days_before l m'.
Proof.
  intros Hm. pose proof (days_before_mono l m (Z.to_nat (m' - m - 1))) as H.
  replace (m + 1 + Z.of_nat (Z.to_nat (m' - m - 1))) with m' in H by lia. apply H. lia.
Qed.

Lemma in_year y m d : valid y m d → year_start y ≤ days_of y m d < year_start (y + 1).
Proof.
  intros [Hm Hd]. rewrite month_days_in in Hd. rewrite days_of_eq. assert (days_before (leap y) 1 = 0) as H1 by done.
  assert (days_before (leap y) 13 = 365 + if leap y then 1 else 0) as H13 by (by destruct (leap y)).
  pose proof (days_before_le (leap y) m 13 ltac:(lia)). assert (0 ≤ days_before (leap y) m).
  { destruct (decide (m = 1)) as [->|]; [lia|]. pose proof (days_before_le (leap y) 1 m ltac:(lia)) as Hle.
    change (days_in (leap y) 1) with 31 in Hle. lia. }
  pose proof (march_of_year y). pose proof (january_after y). lia.
Qed.

Lemma year_start_mono y y' : y < y' → year_start (y + 1) ≤ year_start y'.
Proof. intros Hy. unfold year_start. Z.to_euclidean_division_equations; lia. Qed.

Lemma days_inj y m d y' m' d' : valid y m d → valid y' m' d' → days_of y m d = days_of y' m' d' → y = y' ∧ m = m' ∧ d = d'.
Proof.
  intros Hv Hv' E. pose proof (in_year _ _ _ Hv). pose proof (in_year _ _ _ Hv'). assert (y = y') as <-.
  { destruct (Z.lt_trichotomy y y') as [Hy|[Hy|Hy]]; [|done|]; pose proof (year_start_mono _ _ Hy); lia. }
  split; [done|]. destruct Hv as [Hm Hd], Hv' as [Hm' Hd']. rewrite month_days_in in *. rewrite !days_of_eq in E.
  assert (m = m') as <-; [|split; [done|lia]].
  destruct (Z.lt_trichotomy m m') as [Hl|[Hl|Hl]]; [|done|]; [pose proof (days_before_le (leap y) m m')|pose proof (days_before_le (leap y) m' m)]; lia.
Qed.

(** ** Properties *)

(** The fields of a moment of the years the clock chip can show. *)
Definition rtc_valid (r : RtcTime) : Prop :=
  0 ≤ year_of_century r ≤ 99 ∧ valid (full_year_from_rtc (year_of_century r)) (month_index r + 1) (day_of_month r) ∧
  0 ≤ hour r < 24 ∧ 0 ≤ minute r < 60 ∧ 0 ≤ second r < 60.

Lemma timestamp_spec r : rtc_valid r →
  let days := days_of (full_year_from_rtc (year_of_century r)) (month_index r + 1) (day_of_month r) in
  unix_timestamp_from_rtc r = Some (86400 * days + 3600 * hour r + 60 * minute r + second r) ∧
  is_uint 32 (86400 * days + 3600 * hour r + 60 * minute r + second r).
Proof.
  intros (Hy & [Hm Hd] & Hh & Hmi & Hs) days. set (y := full_year_from_rtc _) in *.
  assert (1970 ≤ y ≤ 2069) as Hyr.
  { unfold y, full_year_from_rtc. change UNIX_EPOCH_YEAR_IN_CENTURY with 70. destruct (Z.leb_spec 70 (year_of_century r)); lia. }
  assert (is_leap_year y = leap y) as Hleap.
  { unfold is_leap_year, leap. destruct (Z.eqb_spec (y mod 4) 0), (Z.eqb_spec (y mod 100) 0), (Z.eqb_spec (y mod 400) 0);
      cbn [andb orb negb]; done || (exfalso; Z.to_euclidean_division_equations; lia). }
  assert (is_uint 32 (86400 * days + 3600 * hour r + 60 * minute r + second r)) as Hu.
  { pose proof (in_year y (month_index r + 1) (day_of_month r) (conj Hm Hd)) as Hin. fold days in Hin.
    assert (0 ≤ year_start y ∧ year_start (y + 1) ≤ 36525) as Hb by (unfold year_start; Z.to_euclidean_division_equations; lia).
    unfold is_uint. lia. }
  split; [|done]. unfold unix_timestamp_from_rtc. cbv zeta. fold y. rewrite Hleap. change UNIX_EPOCH_YEAR with 1970.
  assert (wrapping_sub y 1970 = y - 1970) as -> by (apply wrap_small; unfold is_uint; lia).
  assert (zlookup MONTH_START_DAYS_IN_LEAP_YEAR (month_index r) = Some (days_before true (month_index r + 1))) as ->.
  { assert (Forall (λ m, zlookup MONTH_START_DAYS_IN_LEAP_YEAR m = Some (days_before true (m + 1))) (seqZ 0 12)) as Hall by (by repeat constructor).
    rewrite Forall_forall in Hall. apply Hall, elem_of_seqZ. lia. }
  cbn [mbind option_bind]. f_equal. rewrite <- (wrap_small 32 _ Hu). f_equal. unfold days. rewrite days_of_eq.
  assert (days_before (leap y) (month_index r + 1) = days_before true (month_index r + 1) - if (1 <? month_index r) && negb (leap y) then 1 else 0) as ->.
  { assert (∀ l, forallb (λ m, days_before l (m + 1) =? days_before true (m + 1) - if (1 <? m) && negb l then 1 else 0) (seqZ 0 12) = true) as Hall
      by (by intros []).
    specialize (Hall (leap y)). rewrite forallb_forall in Hall. apply Z.eqb_eq, Hall, list_elem_of_In, elem_of_seqZ. lia. }
  assert (year_start y = 365 * (y - 1970) + (y - 1970 + 1) / 4) as -> by (unfold year_start; Z.to_euclidean_division_equations; lia).
  unfold COMMON_YEAR, DAY, HOUR, MINUTE. destruct (_ && _); lia.
Qed.

(** A calendar for the moment [secs]. *)
Definition shows (c : Calendar) (secs : Z) : Prop :=
  valid (c_year c) (c_month c) (c_day c) ∧ 0 ≤ c_hour c < 24 ∧ 0 ≤ c_minute c < 60 ∧ 0 ≤ c_second c < 60 ∧
  86400 * days_of (c_year c) (c_month c) (c_day c) + 3600 * c_hour c + 60 * c_minute c + c_second c = secs ∧
  c_weekday c = (days_of (c_year c) (c_month c) (c_day c) + 4) mod 7.

Lemma from_unix_shows secs : shows (from_unix secs) secs.
Proof.
  unfold from_unix. pose proof (civil_spec (secs / 86400 + 719468)) as Hc. destruct (civil _) as [[y m] d]. destruct Hc as [Hv Hd].
  assert (days_of y m d = secs / 86400) as E by lia. unfold shows. cbn [c_year c_month c_day c_hour c_minute c_second c_weekday].
  rewrite E. split; [done|]. split_and!; try (Z.to_euclidean_division_equations; lia).
Qed.
Lemma shows_unique c c' secs : shows c secs → shows c' secs → c = c'.
Proof.
  destruct c as [y m d h mi s wd], c' as [y' m' d' h' mi' s' wd'].
  intros (Hv & Hh & Hm & Hs & E & Hw) (Hv' & Hh' & Hm' & Hs' & E' & Hw'). cbn in *.
  assert (days_of y m d = days_of y' m' d') as Ed by lia. destruct (days_inj _ _ _ _ _ _ Hv Hv' Ed) as (-> & -> & ->).
  assert (wd = wd') as -> by congruence. f_equal; lia.
Qed.

(** Two decimal digits as the clock chip has them. *)
Definition bcd (x : Z) : Z := 16 * (x / 10) + x mod 10.

Lemma decode_bcd_spec x : 0 ≤ x < 100 → decode_bcd (bcd x) = x.
Proof.
  intros Hx. assert (forallb (λ x, decode_bcd (bcd x) =? x) (seqZ 0 100) = true) as Hall by (vm_compute; reflexivity).
  rewrite forallb_forall in Hall. by apply Z.eqb_eq, Hall, list_elem_of_In, elem_of_seqZ.
Qed.

(** The chip shows [r], in each of seven reads. *)
Definition chip_shows (r : RtcTime) (read_cmos : nat → Z → Z) (now : nat) : Prop :=
  ∀ k, (now ≤ k ≤ now + 6)%nat →
    read_cmos k RTC_SECONDS_REGISTER = bcd (second r) ∧ read_cmos k RTC_MINUTES_REGISTER = bcd (minute r) ∧
    read_cmos k RTC_HOURS_REGISTER = bcd (hour r) ∧ read_cmos k RTC_DAY_REGISTER = bcd (day_of_month r) ∧
    read_cmos k RTC_MONTH_REGISTER = bcd (month_index r + 1) ∧ read_cmos k RTC_YEAR_REGISTER = bcd (year_of_century r).

Lemma read_rtc_spec fuel r read_cmos now : rtc_valid r → chip_shows r read_cmos now → read_rtc_time (S fuel) read_cmos now = Some r.
Proof.
  intros (Hy & [Hm Hd] & Hh & Hmi & Hs) Hc. cbn [read_rtc_time].
  destruct (Hc now) as (-> & _); [lia|]. destruct (Hc (now + 1)%nat) as (_ & -> & _); [lia|].
  destruct (Hc (now + 2)%nat) as (_ & _ & -> & _); [lia|]. destruct (Hc (now + 3)%nat) as (_ & _ & _ & -> & _); [lia|].
  destruct (Hc (now + 4)%nat) as (_ & _ & _ & _ & -> & _); [lia|]. destruct (Hc (now + 5)%nat) as (_ & _ & _ & _ & _ & ->); [lia|].
  destruct (Hc (now + 6)%nat) as (-> & _); [lia|]. rewrite Z.eqb_refl.
  assert (day_of_month r ≤ 31) by (unfold month_days in Hd; repeat case_match; lia).
  rewrite !decode_bcd_spec by lia. unfold wrapping_sub. rewrite (wrap_small 32) by (unfold is_uint; lia). replace (month_index r + 1 - 1) with (month_index r) by lia.
  by destruct r.
Qed.

(** C38: The time of day.  For every moment of 1970 to 2069 that the clock chip
    shows, the kernel reads its fields and makes of them the number of seconds
    since 1970 of the Gregorian calendar, within 32 bits; [date] makes of this
    number the calendar fields that the chip shows, and of any number of seconds
    the one Gregorian date, time and weekday it stands for.  A clock set by
    [stime] shows the time it was set to. *)
Theorem calendar_time :
  (∀ r read_cmos now fuel, rtc_valid r → chip_shows r read_cmos now →
     ∃ t, read_rtc_time (S fuel) read_cmos now = Some r ∧ unix_timestamp_from_rtc r = Some t ∧ is_uint 32 t ∧
       let c := from_unix t in
       c_year c = full_year_from_rtc (year_of_century r) ∧ c_month c = month_index r + 1 ∧ c_day c = day_of_month r ∧
       c_hour c = hour r ∧ c_minute c = minute r ∧ c_second c = second r) ∧
  (∀ secs c, shows c secs ↔ c = from_unix secs) ∧
  (∀ new_time jiffies startup, is_uint 32 new_time →
     let '(r, startup') := sys_stime true new_time jiffies startup in r = Ok 0 ∧ current_time startup' jiffies = new_time) ∧
  (∀ new_time jiffies startup, sys_stime false new_time jiffies startup = (Err PERM, startup)).
Proof.
  split_and!.
  - intros r read_cmos now fuel Hr Hc. destruct (timestamp_spec r Hr) as [Ht Hu]. eexists. split; [by apply read_rtc_spec|].
    split; [exact Ht|]. split; [exact Hu|]. destruct Hr as (Hy & Hv & Hh & Hm & Hs).
    set (t := _ + second r) in *. set (days := days_of _ _ _) in *.
    assert (shows (mkCalendar (full_year_from_rtc (year_of_century r)) (month_index r + 1) (day_of_month r)
      (hour r) (minute r) (second r) ((days + 4) mod 7)) t) as Hsh by done.
    by rewrite <- (shows_unique _ _ _ Hsh (from_unix_shows t)).
  - intros secs c. split; [|intros ->; apply from_unix_shows]. intros Hc. by eapply shows_unique; [|apply from_unix_shows].
  - intros new_time jiffies startup Hn. cbn. split; [done|]. unfold current_time, wrapping_add, wrapping_sub, wrap.
    rewrite Zplus_mod_idemp_l. rewrite Z.sub_add. by apply wrap_small.
  - done.
Qed.

(** Noon, the 29th of February 2024. *)
Definition leap_noon : RtcTime := mkRtc 0 0 12 29 1 24.
Definition leap_chip (_ : nat) (register : Z) : Z :=
  if register =? 4 then 18 else if register =? 7 then 41 else if register =? 8 then 2 else if register =? 9 then 36 else 0.

Lemma calendar_time_witness : unix_timestamp_from_rtc leap_noon = Some 1709208000 ∧ c_day (from_unix 1709208000) = 29.
Proof.
  destruct calendar_time as [H _]. destruct (H leap_noon leap_chip 0%nat 0%nat) as (t & _ & Ht & _ & _ & _ & Hd & _).
  - split_and!; try (vm_compute; congruence). split; vm_compute; split; congruence.
  - intros k _. split_and!; reflexivity.
  - split; [vm_compute; reflexivity|]. vm_compute in Ht. injection Ht as <-. exact Hd.
Defined.
End Calendar.
