(* ===== verification/Glob.v ===== *)
(** * Wildcard patterns ([user_program/src/fnmatch.rs])

    The matcher that the shell and [find] use, and its equivalence with what
    patterns mean: the words of a small language of tokens. *)

From S2P Require Import Prelude.
Open Scope Z_scope.

Module Glob.

(** ** The matcher

    Patterns and strings are bytes.  An index into either is given by the rest of
    the slice from there on. *)

Definition PATHNAME : Z := 1.
Definition NOESCAPE : Z := 2.
Definition CASEFOLD : Z := 4.

Definition STAR : Z := 42.       (* '*' *)
Definition QUESTION : Z := 63.   (* '?' *)
Definition OPEN : Z := 91.       (* '[' *)
Definition CLOSE : Z := 93.      (* ']' *)
Definition BACKSLASH : Z := 92.
Definition SLASH : Z := 47.
Definition BANG : Z := 33.
Definition CARET : Z := 94.
Definition DASH : Z := 45.

Definition has_flag (flags f : Z) : bool := negb (Z.land flags f =? 0).

(** [u8::to_ascii_lowercase]. *)
Definition lower (c : Z) : Z := if (65 <=? c) && (c <=? 90) then c + 32 else c.

Definition byte_eq (a b flags : Z) : bool :=
  if has_flag flags CASEFOLD then lower a =? lower b else a =? b.

Definition in_range (lo hi c flags : Z) : bool :=
  if has_flag flags CASEFOLD then (lower lo <=? lower c) && (lower c <=? lower hi)
  else (lo <=? c) && (c <=? hi).

(** The loop of [match_class]: from the first member on, with what matched so
    far; the rest starts at the closing bracket, if there is one. *)
Fixpoint class_loop (pat : list Z) (c flags : Z) (matched : bool) : bool * list Z :=
  match pat with
  | [] => (matched, [])
  | lo :: rest =>
      if lo =? CLOSE then (matched, pat)
      else
        let single := class_loop rest c flags (byte_eq lo c flags || matched) in
        match rest with
        | d :: hi :: rest' =>
            if (d =? DASH) && negb (hi =? CLOSE)
            then class_loop rest' c flags (in_range lo hi c flags || matched)
            else single
        | _ => single
        end
  end.

(** [match_class] from the byte after the opening bracket. *)
Definition match_class (pat : list Z) (c flags : Z) : bool * list Z :=
  match pat with
  | [] => (false, [])
  | x :: pat1 =>
      let neg := (x =? BANG) || (x =? CARET) in
      let pat2 := if neg then pat1 else pat in
      match pat2 with
      | [] => (false, [])
      | y :: pat3 =>
          let (matched, pat4) := if y =? CLOSE then (c =? CLOSE, pat3) else (false, pat2) in
          match class_loop pat4 c flags matched with
          | (_, []) => (c =? OPEN, [])
          | (matched, _ :: pat5) => (negb (eqb matched neg), pat5)
          end
      end
  end.

(** One turn of the loop per unit of fuel; the recursive calls for [*] are turns
    too. *)
Fixpoint match_core (fuel : nat) (pat s : list Z) (flags : Z) : bool :=
  match fuel with
  | O => false
  | S fuel =>
      match pat with
      | [] => bool_decide (s = [])
      | x :: pat' =>
          if x =? STAR then
            match pat' with
            | [] => negb (has_flag flags PATHNAME) || negb (existsb (Z.eqb SLASH) s)
            | _ =>
                (fix star (s : list Z) : bool :=
                   match_core fuel pat' s flags ||
                   match s with
                   | [] => false
                   | c :: s' =>
                       if has_flag flags PATHNAME && (c =? SLASH) then false else star s'
                   end) s
            end
          else if x =? QUESTION then
            match s with
            | [] => false
            | c :: s' =>
                if has_flag flags PATHNAME && (c =? SLASH) then false
                else match_core fuel pat' s' flags
            end
          else if x =? OPEN then
            match s with
            | [] => false
            | c :: s' =>
                let (ok, pat'') := match_class pat' c flags in
                if ok then match_core fuel pat'' s' flags else false
            end
          else if (x =? BACKSLASH) && negb (has_flag flags NOESCAPE) then
            match pat', s with
            | [], [] => false
            | [], c :: _ => c =? BACKSLASH
            | _, [] => false
            | y :: pat'', c :: s' =>
                if byte_eq y c flags then match_core fuel pat'' s' flags else false
            end
          else
            match s with
            | [] => false
            | c :: s' => if byte_eq x c flags then match_core fuel pat' s' flags else false
            end
      end
  end.

Definition fnmatch (pattern string : list Z) (flags : Z) : bool :=
  match_core (S (length pattern)) pattern string flags.

(** ** What patterns mean *)

Inductive item : Set :=
| Single (c : Z)
| Range (lo hi : Z)
| Bracket.

(** [Never] is an opening bracket with nothing after it, [Open] one without its
    closing bracket, and [Tail] a backslash at the end. *)
Inductive token : Set :=
| Star
| Any
| Lit (c : Z)
| Class (neg : bool) (items : list item)
| Never
| Open
| Tail.

Fixpoint items (pat : list Z) : option (list item * list Z) :=
  match pat with
  | [] => None
  | lo :: rest =>
      if lo =? CLOSE then Some ([], rest)
      else
        let single := '(l, r) ← items rest; Some (Single lo :: l, r) in
        match rest with
        | d :: hi :: rest' =>
            if (d =? DASH) && negb (hi =? CLOSE)
            then '(l, r) ← items rest'; Some (Range lo hi :: l, r)
            else single
        | _ => single
        end
  end.

(** The token of a bracket and what follows it. *)
Definition bracket (pat : list Z) : token * list Z :=
  let neg := match pat with x :: _ => (x =? BANG) || (x =? CARET) | [] => false end in
  let pat2 := if neg then tail pat else pat in
  match pat2 with
  | [] => (Never, [])
  | y :: pat3 =>
      match if y =? CLOSE then '(l, r) ← items pat3; Some (Bracket :: l, r) else items pat2 with
      | Some (l, r) => (Class neg l, r)
      | None => (Open, [])
      end
  end.

Fixpoint tokens (fuel : nat) (flags : Z) (pat : list Z) : list token :=
  match fuel, pat with
  | S fuel, x :: pat' =>
      if x =? STAR then Star :: tokens fuel flags pat'
      else if x =? QUESTION then Any :: tokens fuel flags pat'
      else if x =? OPEN then let (t, r) := bracket pat' in t :: tokens fuel flags r
      else if (x =? BACKSLASH) && negb (has_flag flags NOESCAPE) then
        match pat' with
        | [] => [Tail]
        | y :: pat'' => Lit y :: tokens fuel flags pat''
        end
      else Lit x :: tokens fuel flags pat'
  | _, _ => []
  end.

Definition parse (flags : Z) (pat : list Z) : list token := tokens (length pat) flags pat.

(** Bytes that wildcards stand for. *)
Definition wild (flags c : Z) : Prop := has_flag flags PATHNAME = true → c ≠ SLASH.

Definition same (flags a b : Z) : Prop :=
  if has_flag flags CASEFOLD then lower a = lower b else a = b.

Definition member (flags c : Z) (i : item) : Prop :=
  match i with
  | Single x => same flags x c
  | Range lo hi =>
      if has_flag flags CASEFOLD then lower lo ≤ lower c ≤ lower hi else lo ≤ c ≤ hi
  | Bracket => c = CLOSE
  end.

Inductive matches (flags : Z) : list token → list Z → Prop :=
| m_nil : matches flags [] []
| m_star u ts s : Forall (wild flags) u → matches flags ts s → matches flags (Star :: ts) (u ++ s)
| m_any c ts s : wild flags c → matches flags ts s → matches flags (Any :: ts) (c :: s)
| m_lit x c ts s : same flags x c → matches flags ts s → matches flags (Lit x :: ts) (c :: s)
| m_class neg l c ts s :
    (if neg : bool then ¬ Exists (member flags c) l else Exists (member flags c) l) →
    matches flags ts s → matches flags (Class neg l :: ts) (c :: s)
| m_open ts s : matches flags ts s → matches flags (Open :: ts) (OPEN :: s)
| m_tail s : matches flags [Tail] (BACKSLASH :: s).

Lemma byte_eq_spec a b flags : byte_eq a b flags = true ↔ same flags a b.
Proof. unfold byte_eq, same. destruct (has_flag _ _); apply Z.eqb_eq. Qed.

Lemma in_range_spec lo hi c flags : in_range lo hi c flags = true ↔ member flags c (Range lo hi).
Proof. unfold in_range. simpl. destruct (has_flag _ _); rewrite andb_true_iff, !Z.leb_le; done. Qed.

Lemma wild_spec flags c :
  (has_flag flags PATHNAME && (c =? SLASH)) = false ↔ wild flags c.
Proof.
  unfold wild. rewrite andb_false_iff, Z.eqb_neq. destruct (has_flag _ _); [|naive_solver].
  split; [intros [?|?]; [done|auto]|auto].
Qed.

Lemma orb_step b m P Q : (b = true ↔ P) → (b || m = true ∨ Q ↔ m = true ∨ P ∨ Q).
Proof. intros H. rewrite orb_true_iff, H. tauto. Qed.

Lemma class_loop_spec p c flags m :
  match items p with
  | Some (l, r) => (length r < length p)%nat ∧ ∃ m', class_loop p c flags m = (m', CLOSE :: r) ∧
      (m' = true ↔ m = true ∨ Exists (member flags c) l)
  | None => ∃ m', class_loop p c flags m = (m', [])
  end.
Proof.
  remember (length p) as n eqn:Hn. revert p m Hn.
  induction n as [n IH] using lt_wf_ind. intros p m ->. destruct p as [|lo rest]; [by exists m|].
  cbn [items class_loop]. destruct (Z.eqb_spec lo CLOSE) as [->|Hlo].
  { split; [simpl; lia|]. exists m. split; [done|]. rewrite Exists_nil. tauto. }
  assert (match '(l, r) ← items rest; Some (Single lo :: l, r) with
    | Some (l, r) => (length r < length (lo :: rest))%nat ∧
        ∃ m', class_loop rest c flags (byte_eq lo c flags || m) = (m', CLOSE :: r) ∧
        (m' = true ↔ m = true ∨ Exists (member flags c) l)
    | None => ∃ m', class_loop rest c flags (byte_eq lo c flags || m) = (m', [])
    end) as Hsingle.
  { specialize (IH (length rest) ltac:(simpl; lia) rest (byte_eq lo c flags || m) eq_refl).
    destruct (items rest) as [[l r]|]; [|done]. destruct IH as (? & m' & ? & Hm). split; [simpl; lia|].
    exists m'. split; [done|]. rewrite Hm, Exists_cons. apply orb_step, byte_eq_spec. }
  destruct rest as [|d [|hi rest']]; [exact Hsingle..|].
  destruct ((d =? DASH) && negb (hi =? CLOSE)); [|exact Hsingle].
  specialize (IH (length rest') ltac:(simpl; lia) rest' (in_range lo hi c flags || m) eq_refl).
  destruct (items rest') as [[l r]|]; [|done]. destruct IH as (? & m' & ? & Hm).
  split; [simpl; lia|]. exists m'. split; [done|].
  rewrite Hm, Exists_cons. apply orb_step, in_range_spec.
Qed.

Definition class_accepts (flags c : Z) (neg : bool) (l : list item) : Prop :=
  if neg then ¬ Exists (member flags c) l else Exists (member flags c) l.

Lemma match_class_spec p c flags :
  (length (bracket p).2 ≤ length p)%nat ∧
  match (bracket p).1 with
  | Class neg l => ∃ b, match_class p c flags = (b, (bracket p).2) ∧ (b = true ↔ class_accepts flags c neg l)
  | Open => match_class p c flags = (c =? OPEN, []) ∧ (bracket p).2 = []
  | _ => (match_class p c flags).1 = false ∧ (bracket p).1 = Never
  end.
Proof.
  unfold bracket, match_class. destruct p as [|x p1]; [done|].
  set (neg := (x =? BANG) || (x =? CARET)). cbn [tail].
  set (p2 := if neg then p1 else x :: p1).
  assert (length p2 ≤ length (x :: p1))%nat as Hl by (subst p2; destruct neg; simpl; lia).
  clearbody p2 neg. destruct p2 as [|y p3]; [done|].
  assert (∀ p4 m0 (l0 : list item), (length p4 ≤ length (x :: p1))%nat →
    (m0 = true ↔ Exists (member flags c) l0) →
    let o := match items p4 with Some (l, r) => Some (l0 ++ l, r) | None => None end in
    let t := match o with Some (l, r) => (Class neg l, r) | None => (Open, []) end in
    (length t.2 ≤ length (x :: p1))%nat ∧
    match t.1 with
    | Class neg l => ∃ b, match class_loop p4 c flags m0 with
        | (_, []) => (c =? OPEN, []) | (matched, _ :: p5) => (negb (eqb matched neg), p5) end = (b, t.2) ∧
        (b = true ↔ class_accepts flags c neg l)
    | Open => match class_loop p4 c flags m0 with
        | (_, []) => (c =? OPEN, []) | (matched, _ :: p5) => (negb (eqb matched neg), p5) end =
        (c =? OPEN, []) ∧ t.2 = []
    | _ => False
    end) as Hmain.
  { intros p4 m0 l0 Hl4 Hm0. pose proof (class_loop_spec p4 c flags m0) as Hc.
    destruct (items p4) as [[l r]|]; cbv zeta; simpl.
    - destruct Hc as (Hlr & m' & -> & Hm'). split; [simpl in *; lia|]. eexists. split; [done|].
      assert (Exists (member flags c) (l0 ++ l) ↔ m' = true) as He by (by rewrite Exists_app, <- Hm0).
      unfold class_accepts. destruct m', neg; simpl; naive_solver.
    - destruct Hc as (m' & ->). split; [lia|]. by split. }
  destruct (Z.eqb_spec y CLOSE) as [->|Hy].
  - specialize (Hmain p3 (c =? CLOSE) [Bracket] ltac:(simpl in *; lia)).
    cbn [app] in Hmain.
    destruct (items p3) as [[l r]|]; cbn [mbind option_bind] in *; simpl in *.
    + apply Hmain. rewrite Exists_cons, Exists_nil, Z.eqb_eq. simpl. tauto.
    + apply Hmain. rewrite Exists_cons, Exists_nil, Z.eqb_eq. simpl. tauto.
  - specialize (Hmain (y :: p3) false [] ltac:(simpl in *; lia)).
    cbn [app] in Hmain.
    destruct (items (y :: p3)) as [[l r]|]; apply Hmain; rewrite Exists_nil; naive_solver.
Qed.

(** A star takes nothing or one more byte. *)
Lemma matches_star flags ts s :
  matches flags (Star :: ts) s ↔
  matches flags ts s ∨ ∃ c s', s = c :: s' ∧ wild flags c ∧ matches flags (Star :: ts) s'.
Proof.
  split.
  - inversion 1 as [|u ts' s' Hu Hm| | | | |]; subst. destruct Hu as [|c u Hc Hu]; [by left|right].
    exists c, (u ++ s'). split_and!; [done|done|]. by apply m_star.
  - intros [Hm|(c & s' & -> & Hc & Hm)]; [by apply (m_star _ [])|].
    inversion Hm as [|u ts' s2 Hu Hm'| | | | |]; subst. by apply (m_star _ (c :: u)); [constructor|].
Qed.

Lemma matches_all flags s :
  negb (has_flag flags PATHNAME) || negb (existsb (Z.eqb SLASH) s) = true ↔ matches flags [Star] s.
Proof.
  assert (matches flags [Star] s ↔ Forall (wild flags) s) as ->.
  { split.
    - inversion 1 as [|u ts' s' Hu Hm| | | | |]; subst. inversion Hm. by rewrite app_nil_r.
    - intros. rewrite <- (app_nil_r s). apply m_star; [done|constructor]. }
  rewrite Forall_forall. unfold wild. rewrite orb_true_iff, !negb_true_iff.
  destruct (has_flag flags PATHNAME); [|naive_solver].
  split.
  - intros [?|H] c Hc _ ->; [done|]. enough (existsb (Z.eqb SLASH) s = true) by congruence.
    apply existsb_exists. exists SLASH. split; [by apply list_elem_of_In|apply Z.eqb_refl].
  - intros H. right. apply not_true_iff_false. intros (c & Hc & <-%Z.eqb_eq)%existsb_exists.
    apply (H SLASH); [by apply list_elem_of_In|done..].
Qed.

(** One byte for one token. *)
Lemma matches_cons flags t ts s (P : Z → Prop) :
  (∀ c s', matches flags (t :: ts) (c :: s') ↔ P c ∧ matches flags ts s') →
  ¬ matches flags (t :: ts) [] →
  matches flags (t :: ts) s ↔ match s with [] => False | c :: s' => P c ∧ matches flags ts s' end.
Proof. intros Hc Hn. destruct s; [done|apply Hc]. Qed.

Lemma match_core_spec fuel n pat s flags :
  (length pat < fuel)%nat → (length pat ≤ n)%nat →
  match_core fuel pat s flags = true ↔ matches flags (tokens n flags pat) s.
Proof.
  revert n pat s. induction fuel as [|fuel IH]; intros n pat s Hf Hn; [lia|].
  destruct pat as [|x pat']; cbn [match_core].
  { assert (tokens n flags [] = []) as -> by (by destruct n). rewrite bool_decide_eq_true. split.
    - intros ->. constructor.
    - by inversion 1. }
  destruct n as [|n]; [simpl in Hn; lia|]. cbn [tokens]. simpl in Hf, Hn.
  destruct (Z.eqb_spec x STAR) as [->|Hstar].
  { destruct pat' as [|y pat'']; [destruct n; apply matches_all|].
    assert (∀ s, match_core fuel (y :: pat'') s flags = true ↔ matches flags (tokens n flags (y :: pat'')) s)
      as Hr by (intros; apply IH; simpl in *; lia).
    revert Hr. generalize (match_core fuel (y :: pat'')), (tokens n flags (y :: pat'')). intros f ts Hr.
    induction s as [|c s IHs]; rewrite matches_star, orb_true_iff, Hr; [naive_solver|].
    pose proof (wild_spec flags c) as Hw. destruct (has_flag flags PATHNAME && (c =? SLASH)); naive_solver. }
  destruct (Z.eqb_spec x QUESTION) as [->|Hq].
  { rewrite (matches_cons _ _ _ _ (wild flags)).
    - destruct s as [|c s']; [done|]. pose proof (wild_spec flags c) as Hw.
      rewrite <- IH by lia. destruct (_ && _); naive_solver.
    - intros c s'. split; [by inversion 1|]. intros [? ?]. by constructor.
    - by inversion 1. }
  destruct (Z.eqb_spec x OPEN) as [->|Ho].
  { destruct (bracket pat') as [t r] eqn:Hbr.
    destruct s as [|c s'].
    { split; [done|]. destruct (match_class_spec pat' 0 flags) as [_ Hm]. rewrite Hbr in Hm. simpl in Hm.
      destruct t; try (by destruct Hm); by inversion 1. }
    destruct (match_class_spec pat' c flags) as [Hl Hm]. rewrite Hbr in Hl, Hm. simpl in Hl, Hm.
    destruct t as [| | |neg l| | |]; try (by destruct Hm).
    - destruct Hm as (b & -> & Hb). rewrite (matches_cons _ _ _ _ (λ c, class_accepts flags c neg l)).
      + rewrite <- IH by lia. destruct b; naive_solver.
      + intros c0 s0. split; [by inversion 1|]. intros [? ?]. by constructor.
      + by inversion 1.
    - destruct Hm as [Hm _]. destruct (match_class pat' c flags) as [ok rest]. simpl in Hm. subst ok.
      split; [done|]. by inversion 1.
    - destruct Hm as [-> ->]. rewrite (matches_cons _ _ _ _ (λ c, c = OPEN)).
      + rewrite <- IH by (simpl; lia). destruct (Z.eqb_spec c OPEN); naive_solver.
      + intros c0 s0. split; [by inversion 1|]. intros [-> ?]. by constructor.
      + by inversion 1. }
  assert (∀ y p, (length p < fuel)%nat → (length p ≤ n)%nat →
    match s with [] => false | c :: s' => if byte_eq y c flags then match_core fuel p s' flags else false end
      = true ↔ matches flags (Lit y :: tokens n flags p) s) as Hlit.
  { intros y p ? ?. rewrite (matches_cons _ _ _ _ (same flags y)).
    - destruct s as [|c s']; [done|]. pose proof (byte_eq_spec y c flags). rewrite <- IH by lia.
      destruct (byte_eq y c flags); naive_solver.
    - intros c s'. split; [by inversion 1|]. intros [? ?]. by constructor.
    - by inversion 1. }
  destruct ((x =? BACKSLASH) && negb (has_flag flags NOESCAPE)); [|apply Hlit; lia].
  destruct pat' as [|y pat'']; [|destruct s; (etrans; [|apply Hlit; simpl in *; lia]); done].
  destruct s as [|c s']; [split; [done|by inversion 1]|]. rewrite Z.eqb_eq. split.
  - intros ->. constructor.
  - by inversion 1.
Qed.

Lemma items_unclosed p : CLOSE ∉ p → items p = None.
Proof.
  remember (length p) as n eqn:Hn. revert p Hn. induction n as [n IH] using lt_wf_ind.
  intros p -> Hp. destruct p as [|lo rest]; [done|]. cbn [items].
  apply not_elem_of_cons in Hp as [Hlo Hp].
  destruct (Z.eqb_spec lo CLOSE); [congruence|].
  assert (items rest = None) as -> by (apply (IH (length rest)); simpl; auto).
  destruct rest as [|d [|hi rest']]; [done..|]. destruct (_ && _); [|done].
  rewrite (IH (length rest')); [done|simpl; lia|done|].
  apply not_elem_of_cons in Hp as [_ Hp]. by apply not_elem_of_cons in Hp as [_ Hp].
Qed.

Lemma bracket_unclosed x p : CLOSE ∉ x :: p → x ≠ BANG → x ≠ CARET → bracket (x :: p) = (Open, []).
Proof.
  intros Hc Hb Hca. unfold bracket. apply Z.eqb_neq in Hb as ->. apply Z.eqb_neq in Hca as ->.
  cbn [orb]. pose proof (items_unclosed _ Hc) as ->. apply not_elem_of_cons in Hc as [Hx _].
  by destruct (Z.eqb_spec x CLOSE).
Qed.

(** C40: [fnmatch] decides what patterns mean, for every combination of flags: the
    search with stars ends, and finds a division of the string if there is one;
    classes, ranges and escapes are read as [parse] does.  Two forms are not read
    as documented: a bracket that is not closed stands for itself together with
    everything after it in the pattern, so such a pattern does not match itself;
    and a pattern that is a backslash matches every string that starts with one. *)
Theorem fnmatch_correct pattern string flags :
  (fnmatch pattern string flags = true ↔ matches flags (parse flags pattern) string) ∧
  (∀ x p, CLOSE ∉ x :: p → x ≠ BANG → x ≠ CARET →
     fnmatch (OPEN :: x :: p) [OPEN] flags = true ∧
     fnmatch (OPEN :: x :: p) (OPEN :: x :: p) flags = false) ∧
  (∀ s, has_flag flags NOESCAPE = false → fnmatch [BACKSLASH] (BACKSLASH :: s) flags = true).
Proof.
  split_and!.
  - apply match_core_spec; lia.
  - intros x p Hc Hb Hca. pose proof (match_class_spec (x :: p) OPEN flags) as [_ Hm].
    rewrite bracket_unclosed in Hm by done. destruct Hm as [Hm _].
    unfold fnmatch. split; cbn [match_core Z.eqb OPEN STAR QUESTION Pos.eqb]; by rewrite Hm.
  - intros s Hn. unfold fnmatch. simpl. by rewrite Hn.
Qed.

(** [\*\[a-c\]] and the words ["xx/b"], ["[ab"]. *)
Lemma fnmatch_correct_witness :
  matches 0 (parse 0 [42; 91; 97; 45; 99; 93]) [120; 120; 47; 98] ∧
  fnmatch [91; 97; 98] [91] 0 = true.
Proof.
  split.
  - apply (proj1 (fnmatch_correct [42; 91; 97; 45; 99; 93] [120; 120; 47; 98] 0)). vm_compute. reflexivity.
  - refine (proj1 (proj1 (proj2 (fnmatch_correct [] [] 0)) 97 [98] _ _ _)); [|discriminate..].
    rewrite !not_elem_of_cons. split_and!; [discriminate..|]. apply not_elem_of_nil.
Defined.

End Glob.
