(* ===== verification/InodeTable.v ===== *)
(** * The inode table ([kernel/src/fs/minix.rs], [InodeTable] and [MinixFileSystem])

    Inodes and the super block on disk, the file system on one device, and the
    table of 32 inodes in memory, with reference counts, write-back and the clock
    that chooses a victim.  The table is a cache of the inodes on disk: loading
    one inode changes no other, except that a victim without links is freed. *)

From S2P Require Import Prelude Task Bitmap Layout Minix BlockMap.
From stdpp Require Import gmap.
Open Scope kmonad_scope.
Open Scope Z_scope.

Module InodeTable.
Import Layout Minix.

(** ** Inodes and super blocks in blocks *)

Definition u32_at (b : Block) (i : Z) : Z := u16_at b i + 65536 * u16_at b (i + 1).
Definition u32_bytes (x : Z) : list Z := u16_bytes (x mod 65536) ++ u16_bytes (x / 65536).

(** [block\[i\]] of an [InodeBlock]; an inode has 16 words of 16 bits. *)
Definition inode_at (b : Block) (i : Z) : DiskInode :=
  let w := 16 * i in
  mkDiskInode (u16_at b w) (u16_at b (w + 1)) (u32_at b (w + 2)) (u32_at b (w + 4))
    (byte_at b (2 * w + 12)) (byte_at b (2 * w + 13))
    (map (λ k, u16_at b (w + 7 + k)) (seqZ 0 DIRECT_ZONE_COUNT))
    (u16_at b (w + 14)) (u16_at b (w + 15)).

Definition inode_bytes (d : DiskInode) : list Z :=
  u16_bytes (mode d) ++ u16_bytes (user_id d) ++ u32_bytes (size d) ++ u32_bytes (modification_time d) ++
  [group_id d; link_count d] ++ concat (map u16_bytes (direct_zones d)) ++
  u16_bytes (single_indirect_zone d) ++ u16_bytes (double_indirect_zone d).

Definition inode_set (i : Z) (d : DiskInode) (b : Block) : Block := splice b (32 * i) (inode_bytes d).

Record DiskSuperBlock : Type := mkSuper {
  inode_count : Z;
  zone_count : Z;
  inode_bitmap_block_count : Z;
  zone_bitmap_block_count : Z;
  first_data_zone : Z;
  log_zone_size : Z;
  max_file_size : Z;
  magic : Z;
}.

Definition super_at (b : Block) : DiskSuperBlock :=
  mkSuper (u16_at b 0) (u16_at b 1) (u16_at b 2) (u16_at b 3) (u16_at b 4) (u16_at b 5)
    (u32_at b 6) (u16_at b 8).

Definition MINIX_SUPER_MAGIC : Z := 4991.
Definition MINIX_BITMAP_BLOCK_CAPACITY : nat := 8.
Definition INODE_TABLE_CAPACITY : nat := 32.

(** ** State *)

Record InodeId : Set := mkId { device : Z; inumber : Z }.

#[global] Instance InodeId_eq_dec : EqDecision InodeId.
Proof. solve_decision. Defined.

(** A block device seen through the buffer cache, as in [Minix]. *)
Record Device : Type := mkDevice { blocks : gmap Z Block; dev_faults : list bool }.

Record MinixFileSystem : Type := mkMinixFs {
  fs_device : Z;
  super_block : DiskSuperBlock;
  inode_bitmap : Bitmap.Bitmap;
  zone_bitmap : Bitmap.Bitmap;
}.

(** [Arc]s are numbers: indices into the list of all objects ever made.  The
    number of a file system stands for the [Weak] handle as well. *)
Record Inode : Type := mkInode { id : InodeId; file_system : nat; i_inner : InodeInner }.

Record Mount : Type := mkMount {
  m_device : Z;
  m_file_system : nat;
  root_inode : nat;
  mount_point_inode : option nat;
}.

Record Table : Type := mkTable { slots : list (option nat); clock : nat }.

(** [fs] and [identity] are those of the running task.  [held] are the inodes
    that local variables of the running call refer to, [users] the references of
    open files and of other tasks. *)
Record World : Type := mkWorld {
  devices : gmap Z Device;
  file_systems : list MinixFileSystem;
  inodes : list Inode;
  table : Table;
  mounts : list (option Mount);
  fs : Task.TaskFileSystemContext;
  identity : Task.TaskIdentityInfo;
  users : list nat;
  held : list nat;
  time : Z;
}.

Definition with_devices (w : World) (x : gmap Z Device) : World :=
  mkWorld x (file_systems w) (inodes w) (table w) (mounts w) (fs w) (identity w) (users w) (held w) (time w).
Definition with_file_systems (w : World) (x : list MinixFileSystem) : World :=
  mkWorld (devices w) x (inodes w) (table w) (mounts w) (fs w) (identity w) (users w) (held w) (time w).
Definition with_inodes (w : World) (x : list Inode) : World :=
  mkWorld (devices w) (file_systems w) x (table w) (mounts w) (fs w) (identity w) (users w) (held w) (time w).
Definition with_table (w : World) (x : Table) : World :=
  mkWorld (devices w) (file_systems w) (inodes w) x (mounts w) (fs w) (identity w) (users w) (held w) (time w).
Definition with_mounts (w : World) (x : list (option Mount)) : World :=
  mkWorld (devices w) (file_systems w) (inodes w) (table w) x (fs w) (identity w) (users w) (held w) (time w).
Definition with_fs (w : World) (x : Task.TaskFileSystemContext) : World :=
  mkWorld (devices w) (file_systems w) (inodes w) (table w) (mounts w) x (identity w) (users w) (held w) (time w).
Definition with_users (w : World) (x : list nat) : World :=
  mkWorld (devices w) (file_systems w) (inodes w) (table w) (mounts w) (fs w) (identity w) x (held w) (time w).
Definition with_held (w : World) (x : list nat) : World :=
  mkWorld (devices w) (file_systems w) (inodes w) (table w) (mounts w) (fs w) (identity w) (users w) x (time w).

Definition device_at (w : World) (dev : Z) : Device := default (mkDevice ∅ []) (devices w !! dev).

(** ** References *)

Definition hold (h : nat) : M World () := mmodify (λ w, with_held w (h :: held w)).

(** One local reference is dropped. *)
Fixpoint remove_one (h : nat) (l : list nat) : list nat :=
  match l with
  | [] => []
  | x :: l => if decide (x = h) then l else x :: remove_one h l
  end.

Definition release (h : nat) : M World () := mmodify (λ w, with_held w (remove_one h (held w))).

Definition references (w : World) : list nat :=
  omap (λ o, o) (slots (table w)) ++
  flat_map (λ o, match o with
                 | Some m => root_inode m :: match mount_point_inode m with Some h => [h] | None => [] end
                 | None => []
                 end) (mounts w) ++
  omap (λ o, o) [Task.root_directory (fs w); Task.current_directory (fs w); Task.executable_inode (fs w)] ++
  users w ++ held w.

Definition strong_count (w : World) (h : nat) : nat := length (filter (λ x, x = h) (references w)).

(** [file_system.upgrade()] succeeds while a mount holds the file system. *)
Definition alive (w : World) (k : nat) : bool :=
  existsb (λ o, match o with Some m => bool_decide (m_file_system m = k) | None => false end) (mounts w).

(** ** Devices *)

Definition read_dev (dev blk : Z) : M World (option Block) := λ w,
  let d := device_at w dev in
  let b := default zero_block (blocks d !! blk) in
  match dev_faults d with
  | [] => (Ok (Some b), w)
  | fault :: rest =>
      (Ok (if fault : bool then None else Some b), with_devices w (<[dev := mkDevice (blocks d) rest]> (devices w)))
  end.

Definition modify_dev (dev blk : Z) (f : Block → Block) : M World () :=
  mmodify (λ w,
    let d := device_at w dev in
    with_devices w (<[dev := mkDevice (<[blk := f (default zero_block (blocks d !! blk))]> (blocks d)) (dev_faults d)]> (devices w))).

(** ** The file system *)

Definition fs_at (k : nat) : M World MinixFileSystem :=
  w <- mget;; mexpect (file_systems w !! k).

(** [(block_number, offset)] of an inode. *)
Definition inode_block_position (f : MinixFileSystem) (n : Z) : Z * Z :=
  let index := as_u16 (n - 1) in
  (2 + inode_bitmap_block_count (super_block f) + zone_bitmap_block_count (super_block f) + index / INODES_PER_BLOCK,
   index mod INODES_PER_BLOCK).

Definition read_inode (k : nat) (n : Z) : M World DiskInode :=
  f <- fs_at k;;
  let '(block_number, offset) := inode_block_position f n in
  o <- read_dev (fs_device f) block_number;;
  b <- mexpect o;;
  mok (inode_at b offset).

Definition write_inode (k : nat) (n : Z) (d : DiskInode) : M World () :=
  f <- fs_at k;;
  let '(block_number, offset) := inode_block_position f n in
  o <- read_dev (fs_device f) block_number;;
  _ <- mexpect o;;
  modify_dev (fs_device f) block_number (inode_set offset d).

(** An operation on one of the two bitmaps. *)
Definition with_bitmaps (k : nat) (f : MinixFileSystem) (ib zb : Bitmap.Bitmap) (w : World) : World :=
  with_file_systems w (<[k := mkMinixFs (fs_device f) (super_block f) ib zb]> (file_systems w)).

Definition on_inode_bitmap {A} (k : nat) (m : M Bitmap.Bitmap A) : M World A :=
  f <- fs_at k;;
  λ w, let '(r, b) := m (inode_bitmap f) in (r, with_bitmaps k f b (zone_bitmap f) w).

Definition alloc_inode (k : nat) : M World (option Z) :=
  o <- on_inode_bitmap k Bitmap.alloc;;
  match o with
  | None => mok None
  | Some x => let n := as_u16 x in write_inode k n zeroed;;; mok (Some n)
  end.

Definition free_inode (k : nat) (n : Z) : M World () :=
  write_inode k n zeroed;;;
  on_inode_bitmap k (Bitmap.dealloc n).

(** ** Operations on one inode

    The file and directory operations of [Minix] and [Directory] run on the
    device of the inode, the zone bitmap of its file system, and its own copy of
    the disk inode. *)

Definition st_of (w : World) (o : Inode) (f : MinixFileSystem) : St :=
  let d := device_at w (device (id o)) in
  mkSt (blocks d) (dev_faults d) (zone_bitmap f) (alive w (file_system o)) (i_inner o) (time w).

Definition put_st (h : nat) (o : Inode) (f : MinixFileSystem) (s : St) (w : World) : World :=
  let w := with_devices w (<[device (id o) := mkDevice (cache s) (faults s)]> (devices w)) in
  let w := with_bitmaps (file_system o) f (inode_bitmap f) (zones s) w in
  with_inodes w (<[h := mkInode (id o) (file_system o) (inner s)]> (inodes w)).

Definition inode_of (h : nat) : M World Inode :=
  w <- mget;; mexpect (inodes w !! h).

Definition on_inode {A} (h : nat) (m : M St A) : M World A :=
  o <- inode_of h;;
  f <- fs_at (file_system o);;
  λ w, let '(r, s) := m (st_of w o f) in (r, put_st h o f s w).

(** [Inode::sync]. *)
Definition set_clean (h : nat) : M World () :=
  mmodify (λ w, with_inodes w (alter (λ o, mkInode (id o) (file_system o)
    (mkInner (disk_inode (i_inner o)) false (access_time (i_inner o)) (change_time (i_inner o)))) h (inodes w))).

Definition sync (h : nat) : M World () :=
  o <- inode_of h;;
  if negb (is_dirty (i_inner o)) then mok ()
  else
    w <- mget;;
    if alive w (file_system o)
    then write_inode (file_system o) (inumber (id o)) (disk_inode (i_inner o));;; set_clean h
    else mok ().

(** ** The table *)

(** [find_map] over the slots for an inode's identifier. *)
Definition cached (w : World) (i : InodeId) : option nat :=
  find_map (λ s, h ← s; o ← inodes w !! h; if decide (id o = i) then Some h else None) (slots (table w)).

Definition lookup (i : InodeId) : M World (option nat) :=
  w <- mget;;
  match cached w i with
  | Some h => hold h;;; mok (Some h)
  | None => mok None
  end.

(** The clock scan from [offset] on, [n] slots; [dirty_fallback] is the first
    unused slot that is dirty. *)
Fixpoint scan_victim (w : World) (n : nat) (slot_index : nat) (dirty_fallback : option nat) : option nat :=
  match n with
  | O => dirty_fallback
  | S n =>
      let next := ((slot_index + 1) mod INODE_TABLE_CAPACITY)%nat in
      match slots (table w) !! slot_index with
      | Some (Some h) =>
          if negb (strong_count w h =? 1)%nat then scan_victim w n next dirty_fallback
          else
            match inodes w !! h with
            | Some o =>
                if negb (is_dirty (i_inner o)) then Some slot_index
                else scan_victim w n next
                       (match dirty_fallback with Some s => Some s | None => Some slot_index end)
            | None => scan_victim w n next dirty_fallback
            end
      | _ => scan_victim w n next dirty_fallback
      end
  end.

Definition find_victim (w : World) : option nat :=
  scan_victim w INODE_TABLE_CAPACITY (clock (table w) mod INODE_TABLE_CAPACITY) None.

Definition set_slot (k : nat) (x : option nat) : M World () :=
  mmodify (λ w, with_table w (mkTable (<[k := x]> (slots (table w))) (clock (table w)))).

Definition set_clock (c : nat) : M World () :=
  mmodify (λ w, with_table w (mkTable (slots (table w)) c)).

(** The slot is emptied first, so that the local handle is the only one left. *)
Definition flush_slot (slot_index : nat) : M World () :=
  w <- mget;;
  victim <- mexpect (slots (table w) !! slot_index ≫= λ o, o);;
  set_slot slot_index None;;;
  hold victim;;;
  o <- inode_of victim;;
  (if link_count (disk_inode (i_inner o)) =? 0
   then
     on_inode victim truncate;;;
     w <- mget;;
     (if alive w (file_system o) then free_inode (file_system o) (inumber (id o)) else mok ())
   else if is_dirty (i_inner o) then sync victim
   else mok ());;;
  release victim.

Definition install (inode : nat) : M World () :=
  w <- mget;;
  match position (λ s : option nat, negb (bool_decide (is_Some s))) (slots (table w)) with
  | Some slot => set_slot slot (Some inode)
  | None =>
      victim_slot <- mexpect (find_victim w);;
      flush_slot victim_slot;;;
      set_slot victim_slot (Some inode);;;
      set_clock ((victim_slot + 1) mod INODE_TABLE_CAPACITY)
  end.

Definition new_inode (o : Inode) : M World nat := λ w,
  (Ok (length (inodes w)), with_inodes w (inodes w ++ [o])).

(** The handle that is returned is held by the caller. *)
Definition acquire_raw (i : InodeId) (k : nat) : M World nat :=
  massert (negb (device i =? 0));;;
  o <- lookup i;;
  match o with
  | Some h => mok h
  | None =>
      d <- read_inode k (inumber i);;
      h <- new_inode (mkInode i k (mkInner d false 0 0));;
      hold h;;;
      install h;;;
      mok h
  end.

(** [sync] of every cached inode, in the order of the slots. *)
Definition sync_inodes : M World () :=
  w <- mget;;
  mfor (omap (λ o, o) (slots (table w))) sync.

Definition has_active_inodes (w : World) (dev : Z) : bool :=
  existsb (λ s, match s with
                | Some h => match inodes w !! h with
                            | Some o => (device (id o) =? dev) && (1 <? strong_count w h)%nat
                            | None => false
                            end
                | None => false
                end) (slots (table w)).

Definition evict_device (dev : Z) : M World () :=
  mfor (seq 0 INODE_TABLE_CAPACITY) (λ slot_index,
    w <- mget;;
    match slots (table w) !! slot_index with
    | Some (Some h) =>
        o <- inode_of h;;
        if device (id o) =? dev then flush_slot slot_index else mok ()
    | _ => mok ()
    end).

(** ** Opening a file system *)

(** 64-bit words of a bitmap block. *)
Definition u64_at (b : Block) (i : Z) : Z := u32_at b (4 * i) + 2 ^ 32 * u32_at b (4 * i + 2).

Definition bitmap_words (b : Block) : list Z := map (u64_at b) (seqZ 0 128).

(** [count] blocks from [block] on; the bitmap takes over their words. *)
Fixpoint read_bitmap (dev block : Z) (count : nat) : M World (option (list (list Z))) :=
  match count with
  | O => mok (Some [])
  | S count =>
      o <- read_dev dev block;;
      match o with
      | None => mok None
      | Some b =>
          r <- read_bitmap dev (as_u32 (block + 1)) count;;
          mok ((λ l, bitmap_words b :: l) <$> r)
      end
  end.

Definition new_bitmap (base : Z) (l : list (list Z)) (bits : Z) : M World Bitmap.Bitmap :=
  match Bitmap.new MINIX_BITMAP_BLOCK_CAPACITY base l (Z.to_nat bits) with
  | Ok b => mok b
  | Err e => merr e
  | Panic => mpanic
  end.

(** [MinixFileSystem::open]. *)
Definition open (dev : Z) : M World (option nat) :=
  o <- read_dev dev 1;;
  match o with
  | None => mok None
  | Some b =>
      let sb := super_at b in
      if negb (magic sb =? MINIX_SUPER_MAGIC) then mok None
      else if negb (log_zone_size sb =? 0) then mok None
      else
        io <- read_bitmap dev 2 (Z.to_nat (inode_bitmap_block_count sb));;
        match io with
        | None => mok None
        | Some il =>
            zo <- read_bitmap dev (2 + inode_bitmap_block_count sb) (Z.to_nat (zone_bitmap_block_count sb));;
            match zo with
            | None => mok None
            | Some zl =>
                ib <- new_bitmap 0 il (inode_count sb + 1);;
                zb <- new_bitmap (wrapping_sub (first_data_zone sb) 1) zl
                        (wrapping_add (wrapping_sub (zone_count sb) (first_data_zone sb)) 1);;
                λ w, (Ok (Some (length (file_systems w))),
                      with_file_systems w (file_systems w ++ [mkMinixFs dev sb ib zb]))
            end
        end
  end.

(** ** The codec of inodes *)

Record inode_ok (d : DiskInode) : Prop := {
  io_mode : is_uint 16 (mode d);
  io_user : is_uint 16 (user_id d);
  io_size : is_uint 32 (size d);
  io_mtime : is_uint 32 (modification_time d);
  io_group : is_uint 8 (group_id d);
  io_links : is_uint 8 (link_count d);
  io_direct : length (direct_zones d) = 7%nat ∧ Forall (is_uint 16) (direct_zones d);
  io_single : is_uint 16 (single_indirect_zone d);
  io_double : is_uint 16 (double_indirect_zone d);
}.

Lemma u32_bytes_uint x : is_uint 32 x → Forall (is_uint 8) (u32_bytes x).
Proof.
  intros Hx. unfold is_uint in Hx. pose proof (Z.mod_pos_bound x 65536).
  assert (0 ≤ x / 65536 < 65536) by (split; [apply Z.div_pos|apply Z.div_lt_upper_bound]; lia).
  apply Forall_app. split; apply u16_bytes_uint; unfold is_uint; lia.
Qed.

Lemma length_inode_bytes d : inode_ok d → length (inode_bytes d) = 32%nat.
Proof.
  intros Hd. destruct (io_direct _ Hd) as [Hl _]. destruct d as [? ? ? ? ? ? z ? ?]. simpl in Hl.
  by do 8 (destruct z as [|? z]; try done).
Qed.

Lemma inode_bytes_uint d : inode_ok d → Forall (is_uint 8) (inode_bytes d).
Proof.
  intros Hd. destruct (io_direct _ Hd) as [_ Hz]. unfold inode_bytes. rewrite !Forall_app.
  split_and!; try (apply u16_bytes_uint || apply u32_bytes_uint; apply Hd).
  - repeat constructor; apply Hd.
  - apply Forall_concat, Forall_map. eapply Forall_impl; [exact Hz|]. intros x. apply u16_bytes_uint.
Qed.

Lemma inode_set_ok i d b : block_ok b → inode_ok d → 0 ≤ i < INODES_PER_BLOCK → block_ok (inode_set i d b).
Proof.
  intros Hb Hd Hi. change INODES_PER_BLOCK with 32 in Hi. apply splice_ok; [done|by apply inode_bytes_uint|lia|].
  rewrite length_inode_bytes by done. unfold BLOCK_SIZE. lia.
Qed.

(** What an inode decodes to depends on its 32 bytes only. *)
Lemma inode_at_ext b b' i j :
  (∀ k, 0 ≤ k < 32 → byte_at b (32 * i + k) = byte_at b' (32 * j + k)) → inode_at b i = inode_at b' j.
Proof.
  intros H. assert (∀ k, 0 ≤ k < 16 → u16_at b (16 * i + k) = u16_at b' (16 * j + k)) as Hw.
  { intros k Hk. unfold u16_at. pose proof (H (2 * k) ltac:(lia)). pose proof (H (2 * k + 1) ltac:(lia)).
    replace (2 * (16 * i + k)) with (32 * i + 2 * k) by lia. replace (2 * (16 * j + k)) with (32 * j + 2 * k) by lia.
    rewrite <- !Z.add_assoc. congruence. }
  unfold inode_at, u32_at. rewrite <- !Z.add_assoc.
  pose proof (Hw 0 ltac:(lia)) as H0. rewrite !Z.add_0_r in H0.
  pose proof (H 12 ltac:(lia)) as H12. pose proof (H 13 ltac:(lia)) as H13.
  replace (2 * (16 * i)) with (32 * i) by lia. replace (2 * (16 * j)) with (32 * j) by lia.
  f_equal; try done; try (apply Hw; lia); try (f_equal; [|f_equal]; apply Hw; lia).
  apply map_ext_in. intros k Hk%list_elem_of_In%elem_of_seqZ. change DIRECT_ZONE_COUNT with 7 in Hk.
  rewrite <- !Z.add_assoc. apply Hw. lia.
Qed.

Lemma word_bytes x : x mod 256 + 256 * (x / 256) = x.
Proof. pose proof (Z.div_mod x 256). lia. Qed.

Lemma dword_bytes x :
  (x mod 65536) mod 256 + 256 * (x mod 65536 / 256) + 65536 * ((x / 65536) mod 256 + 256 * (x / 65536 / 256)) = x.
Proof. rewrite !word_bytes. pose proof (Z.div_mod x 65536). lia. Qed.

Lemma inode_at_bytes d : inode_ok d → inode_at (inode_bytes d) 0 = d.
Proof.
  intros Hd. destruct (io_direct _ Hd) as [Hl _]. destruct d as [m u s t g l z i1 i2]. simpl in Hl.
  destruct z as [|z0 [|z1 [|z2 [|z3 [|z4 [|z5 [|z6 [|]]]]]]]]; try done.
  transitivity (mkDiskInode (m mod 256 + 256 * (m / 256)) (u mod 256 + 256 * (u / 256))
    ((s mod 65536) mod 256 + 256 * (s mod 65536 / 256) + 65536 * ((s / 65536) mod 256 + 256 * (s / 65536 / 256)))
    ((t mod 65536) mod 256 + 256 * (t mod 65536 / 256) + 65536 * ((t / 65536) mod 256 + 256 * (t / 65536 / 256)))
    g l (map (λ x, x mod 256 + 256 * (x / 256)) [z0; z1; z2; z3; z4; z5; z6])
    (i1 mod 256 + 256 * (i1 / 256)) (i2 mod 256 + 256 * (i2 / 256))); [reflexivity|].
  rewrite !dword_bytes, !word_bytes. f_equal. simpl. by rewrite !word_bytes.
Qed.

Lemma inode_at_set i j d b :
  block_ok b → inode_ok d → 0 ≤ i < INODES_PER_BLOCK → 0 ≤ j < INODES_PER_BLOCK →
  inode_at (inode_set i d b) j = if decide (j = i) then d else inode_at b j.
Proof.
  change INODES_PER_BLOCK with 32. intros Hb Hd Hi Hj. pose proof (length_inode_bytes d Hd) as Hl.
  assert (∀ k, byte_at (inode_set i d b) k = if decide (32 * i ≤ k < 32 * i + 32)
            then byte_at (inode_bytes d) (k - 32 * i) else byte_at b k) as Hbyte.
  { intros k. unfold inode_set. rewrite byte_at_splice by (rewrite ?Hl; unfold BLOCK_SIZE; done || lia).
    by rewrite Hl. }
  destruct (decide (j = i)) as [->|Hne].
  - rewrite <- (inode_at_bytes d Hd) at 2. apply inode_at_ext. intros k Hk. rewrite Hbyte, decide_True by lia.
    f_equal. lia.
  - apply inode_at_ext. intros k Hk. by rewrite Hbyte, decide_False by lia.
Qed.

Lemma inode_at_ok b i : block_ok b → inode_ok (inode_at b i).
Proof.
  intros Hb. assert (∀ k, is_uint 32 (u32_at b k)) as H32.
  { intros k. unfold u32_at. pose proof (u16_at_uint b k Hb). pose proof (u16_at_uint b (k + 1) Hb). unfold is_uint in *. lia. }
  split; try (apply H32 || by apply u16_at_uint || by apply byte_at_uint).
  split; [done|]. apply Forall_map, Forall_forall. intros k _. by apply u16_at_uint.
Qed.

(** ** The table as a cache *)

Definition block_of (w : World) (dev b : Z) : Block := default zero_block (blocks (device_at w dev) !! b).

(** The inode on disk, and the inode as the system sees it. *)
Definition stored (w : World) (f : MinixFileSystem) (n : Z) : DiskInode :=
  let '(b, off) := inode_block_position f n in inode_at (block_of w (fs_device f) b) off.

Definition view (w : World) (f : MinixFileSystem) (n : Z) : DiskInode :=
  match cached w (mkId (fs_device f) n) ≫= (λ h, inodes w !! h) with
  | Some o => disk_inode (i_inner o)
  | None => stored w f n
  end.

Definition number_ok (n : Z) : Prop := 1 ≤ n < 2 ^ 16.

(** An inode without links can be reclaimed: its zones and its number are taken
    in the bitmaps. *)
Definition reclaimable (w : World) (o : Inode) (f : MinixFileSystem) : Prop :=
  BlockMap.wf (st_of w o f) ∧ is_Some (file_type (mode (disk_inode (i_inner o)))) ∧
  Bitmap.wf (inode_bitmap f) ∧ Bitmap.base_id (inode_bitmap f) = 0 ∧
  inumber (id o) < Z.of_nat (Bitmap.bit_count (inode_bitmap f)).

Record object_ok (w : World) (o : Inode) : Prop := {
  ob_number : number_ok (inumber (id o));
  ob_disk : inode_ok (disk_inode (i_inner o));
  ob_alive : alive w (file_system o) = true;
  ob_fs : ∃ f, file_systems w !! file_system o = Some f ∧ fs_device f = device (id o) ∧
    (is_dirty (i_inner o) = false → disk_inode (i_inner o) = stored w f (inumber (id o)));
}.

Definition slot_object (w : World) (k : nat) (h : nat) (o : Inode) : Prop :=
  slots (table w) !! k = Some (Some h) ∧ inodes w !! h = Some o.

(** Slots hold objects, one per identifier; an inode that is not dirty is as on
    disk.  The devices work, and no device has two file systems. *)
Record inv (w : World) : Prop := {
  iv_len : length (slots (table w)) = INODE_TABLE_CAPACITY;
  iv_clock : (clock (table w) < INODE_TABLE_CAPACITY)%nat;
  iv_handles : ∀ k h, slots (table w) !! k = Some (Some h) → is_Some (inodes w !! h);
  iv_objects : ∀ k h o, slot_object w k h o → object_ok w o;
  iv_inj : ∀ k k' h h' o o', slot_object w k h o → slot_object w k' h' o' → id o = id o' → k = k';
  iv_devices : ∀ k k' f f', file_systems w !! k = Some f → file_systems w !! k' = Some f' →
    fs_device f = fs_device f' → k = k';
  iv_blocks : ∀ dev b, block_ok (block_of w dev b);
  iv_working : ∀ dev, dev_faults (device_at w dev) = [];
}.

(** *** Reading and writing inode blocks *)

Lemma read_dev_working w dev b :
  dev_faults (device_at w dev) = [] → read_dev dev b w = (Ok (Some (block_of w dev b)), w).
Proof. intros Hf. unfold read_dev. by rewrite Hf. Qed.

Definition write_block (w : World) (dev b : Z) (x : Block) : World :=
  with_devices w (<[dev := mkDevice (<[b := x]> (blocks (device_at w dev))) (dev_faults (device_at w dev))]> (devices w)).

Lemma block_of_write w dev b x dev' b' :
  block_of (write_block w dev b x) dev' b' = if decide (dev' = dev ∧ b' = b) then x else block_of w dev' b'.
Proof.
  unfold block_of, write_block, device_at. simpl. destruct (decide (dev' = dev)) as [->|Hd].
  - rewrite lookup_insert_eq. simpl. destruct (decide (b' = b)) as [->|Hb].
    + by rewrite lookup_insert_eq, decide_True.
    + rewrite lookup_insert_ne by done. rewrite decide_False; [done|tauto].
  - rewrite lookup_insert_ne by done. rewrite decide_False; [done|tauto].
Qed.

Lemma faults_write w dev b x dev' :
  dev_faults (device_at (write_block w dev b x) dev') = dev_faults (device_at w dev').
Proof.
  unfold write_block, device_at. simpl. destruct (decide (dev' = dev)) as [->|Hd].
  - by rewrite lookup_insert_eq.
  - by rewrite lookup_insert_ne.
Qed.

Lemma position_inj f n m :
  number_ok n → number_ok m → inode_block_position f n = inode_block_position f m → n = m.
Proof.
  unfold number_ok, inode_block_position. intros Hn Hm [= Hb Ho].
  rewrite !(wrap_small 16) in * by (unfold is_uint; lia). change INODES_PER_BLOCK with 32 in *.
  pose proof (Z.div_mod (n - 1) 32). pose proof (Z.div_mod (m - 1) 32). lia.
Qed.

Lemma offset_bound f n : 0 ≤ (inode_block_position f n).2 < INODES_PER_BLOCK.
Proof. apply Z.mod_pos_bound. done. Qed.

Lemma read_inode_spec w k f n :
  inv w → file_systems w !! k = Some f → read_inode k n w = (Ok (stored w f n), w).
Proof.
  intros Hinv Hf. unfold read_inode, fs_at, stored. erewrite bind_Ok by (erewrite bind_Ok by done; by rewrite Hf).
  destruct (inode_block_position f n) as [b off]. by erewrite bind_Ok by (apply read_dev_working, (iv_working _ Hinv)).
Qed.

(** What a write of inode [n] leaves. *)
Definition wrote (w : World) (f : MinixFileSystem) (n : Z) (d : DiskInode) : World :=
  let '(b, off) := inode_block_position f n in
  write_block w (fs_device f) b (inode_set off d (block_of w (fs_device f) b)).

Lemma write_inode_spec w k f n d :
  dev_faults (device_at w (fs_device f)) = [] → file_systems w !! k = Some f →
  write_inode k n d w = (Ok (), wrote w f n d).
Proof.
  intros Hw Hf. unfold write_inode, fs_at, wrote. erewrite bind_Ok by (erewrite bind_Ok by done; by rewrite Hf).
  destruct (inode_block_position f n) as [b off]. by erewrite bind_Ok by (by apply read_dev_working).
Qed.

(** A store of one inode changes no other inode. *)
Lemma stored_wrote w k k' f f' n m d :
  inv w → file_systems w !! k = Some f → file_systems w !! k' = Some f' →
  number_ok n → number_ok m → inode_ok d →
  stored (wrote w f n d) f' m =
    if decide (fs_device f' = fs_device f ∧ m = n) then d else stored w f' m.
Proof.
  intros Hinv Hf Hf' Hn Hm Hd. unfold stored, wrote.
  pose proof (position_inj f n m Hn Hm) as Hinj. pose proof (offset_bound f n) as Hon. pose proof (offset_bound f' m) as Hom.
  destruct (inode_block_position f n) as [b off] eqn:Hp, (inode_block_position f' m) as [b' off'] eqn:Hp'. simpl in Hon, Hom.
  rewrite block_of_write. destruct (decide (fs_device f' = fs_device f)) as [E|E]; cbn [fst snd].
  - assert (f' = f) as -> by (pose proof (iv_devices _ Hinv _ _ _ _ Hf' Hf E); subst k'; congruence).
    destruct (decide (m = n)) as [->|Hne].
    + rewrite Hp in Hp'. injection Hp' as <- <-. rewrite !decide_True by done.
      rewrite inode_at_set by (done || by apply (iv_blocks _ Hinv)). by rewrite decide_True.
    + rewrite (decide_False (P := fs_device f = fs_device f ∧ m = n)) by tauto.
      destruct (decide (b' = b)) as [->|Hb]; [|by rewrite decide_False by tauto].
      rewrite decide_True by done. rewrite inode_at_set by (done || by apply (iv_blocks _ Hinv)).
      rewrite decide_False; [done|]. intros ->. apply Hne. symmetry. apply Hinj. congruence.
  - by rewrite !decide_False by tauto.
Qed.

Lemma wrote_block_ok w f n d dev b :
  inv w → inode_ok d → block_ok (block_of (wrote w f n d) dev b).
Proof.
  intros Hinv Hd. unfold wrote. pose proof (offset_bound f n). destruct (inode_block_position f n) as [b' off].
  rewrite block_of_write. case_decide; [apply inode_set_ok; [apply (iv_blocks _ Hinv)|done|done]|apply (iv_blocks _ Hinv)].
Qed.

Lemma wrote_faults w f n d dev : dev_faults (device_at (wrote w f n d) dev) = dev_faults (device_at w dev).
Proof. unfold wrote. destruct (inode_block_position f n). apply faults_write. Qed.

Lemma wrote_fields w f n d :
  ∃ x, wrote w f n d = with_devices w x.
Proof. unfold wrote. destruct (inode_block_position f n). by eexists. Qed.

Lemma block_of_devices w w' dev b : devices w' = devices w → block_of w' dev b = block_of w dev b.
Proof. intros E. unfold block_of, device_at. by rewrite E. Qed.

Lemma stored_devices w w' f n : devices w' = devices w → stored w' f n = stored w f n.
Proof. intros E. unfold stored. destruct (inode_block_position f n). by rewrite (block_of_devices w). Qed.

Lemma wrote_devices w w' f n d : devices w' = devices w → devices (wrote w' f n d) = devices (wrote w f n d).
Proof.
  intros E. unfold wrote. destruct (inode_block_position f n). unfold write_block. simpl.
  unfold block_of, device_at. by rewrite E.
Qed.

(** Where an inode is kept depends on the super block only. *)
Definition layout (f : MinixFileSystem) : Z * DiskSuperBlock := (fs_device f, super_block f).

Lemma stored_layout w f f' n : layout f' = layout f → stored w f' n = stored w f n.
Proof. intros [= E1 E2]. unfold stored, inode_block_position. by rewrite E1, E2. Qed.

Lemma stored_blocks w w' f n : (∀ dev b, block_of w' dev b = block_of w dev b) → stored w' f n = stored w f n.
Proof. intros E. unfold stored. destruct (inode_block_position f n). by rewrite E. Qed.

Lemma wrote_blocks w w' f n d dev b :
  (∀ dev b, block_of w' dev b = block_of w dev b) → block_of (wrote w' f n d) dev b = block_of (wrote w f n d) dev b.
Proof. intros E. unfold wrote. destruct (inode_block_position f n). by rewrite !block_of_write, !E. Qed.

Lemma wrote_layout w f f' n d : layout f' = layout f → wrote w f' n d = wrote w f n d.
Proof. intros [= E1 E2]. unfold wrote, inode_block_position. by rewrite E1, E2. Qed.

(** *** Emptying a slot *)

(** Slot [k] with object [h] is empty, the inode is on disk, and nothing else has
    changed. *)
Record flushed (w w' : World) (k h : nat) (o : Inode) : Prop := {
  fl_table : table w' = mkTable (<[k := None]> (slots (table w))) (clock (table w));
  fl_mounts : mounts w' = mounts w;
  fl_fs : fs w' = fs w;
  fl_identity : identity w' = identity w;
  fl_users : users w' = users w;
  fl_held : held w' = held w;
  fl_objects : ∀ h', h' ≠ h → inodes w' !! h' = inodes w !! h';
  fl_length : length (inodes w') = length (inodes w);
  fl_layout : ∀ j, layout <$> file_systems w' !! j = layout <$> file_systems w !! j;
  fl_others : ∀ j, j ≠ file_system o → file_systems w' !! j = file_systems w !! j;
  fl_stored : ∀ j f n, file_systems w !! j = Some f → number_ok n →
    stored w' f n = if decide (mkId (fs_device f) n = id o)
                    then (if link_count (disk_inode (i_inner o)) =? 0 then zeroed else disk_inode (i_inner o))
                    else stored w f n;
  fl_blocks : ∀ dev b, block_ok (block_of w' dev b);
  fl_working : ∀ dev, dev_faults (device_at w' dev) = [];
}.

(** The inode's number and zones are free again. *)
Record reclaimed (w w' : World) (o : Inode) (f : MinixFileSystem) : Prop := {
  rc_fs : ∃ f', file_systems w' !! file_system o = Some f' ∧ layout f' = layout f ∧
    Bitmap.only_bit (inode_bitmap f) (inode_bitmap f') (Z.to_nat (inumber (id o))) false ∧
    ∀ x, Bitmap.used (zone_bitmap f') x = Bitmap.used (zone_bitmap f) x &&
      negb (bool_decide (Bitmap.base_id (zone_bitmap f) + Z.of_nat x ∈
        match file_type (mode (disk_inode (i_inner o))) with
        | Some Regular | Some Directory => BlockMap.file_zones (st_of w o f)
        | _ => []
        end));
}.

Lemma id_eta (i : InodeId) d n : mkId d n = i ↔ d = device i ∧ n = inumber i.
Proof. destruct i as [a b]. simpl. split; [by intros [= -> ->]|by intros [-> ->]]. Qed.

Lemma remove_one_cons h l : remove_one h (h :: l) = l.
Proof. simpl. by rewrite decide_True. Qed.

Section flush.
Context (w : World) (k h : nat) (o : Inode) (f : MinixFileSystem).
Context (Hinv : inv w) (Hslot : slot_object w k h o).
Context (Hf : file_systems w !! file_system o = Some f).

(** The state in which the slot is empty and the victim is held. *)
Definition taken : World :=
  with_held (with_table w (mkTable (<[k := None]> (slots (table w))) (clock (table w)))) (h :: held w).

Lemma flush_slot_taken :
  flush_slot k w =
    ((if link_count (disk_inode (i_inner o)) =? 0
      then on_inode h truncate;;; (w <- mget;;
        (if alive w (file_system o) then free_inode (file_system o) (inumber (id o)) else mok ()))
      else if is_dirty (i_inner o) then sync h else mok ());;; release h) taken.
Proof using Hslot.
  destruct Hslot as [Hs Ho]. unfold flush_slot. erewrite bind_Ok by reflexivity. rewrite Hs. cbn [mbind option_bind].
  erewrite bind_Ok by reflexivity. unfold set_slot, hold. do 2 (erewrite bind_Ok by reflexivity).
  erewrite bind_Ok; [reflexivity|]. unfold inode_of. erewrite bind_Ok by reflexivity. simpl. by rewrite Ho.
Qed.

Lemma flush_live :
  link_count (disk_inode (i_inner o)) ≠ 0 →
  ∃ w', flush_slot k w = (Ok (), w') ∧ flushed w w' k h o ∧ file_systems w' = file_systems w.
Proof using Hinv Hslot Hf.
  intros Hl. rewrite flush_slot_taken, (proj2 (Z.eqb_neq _ _) Hl).
  pose proof (iv_objects _ Hinv _ _ _ Hslot) as [Hn Hd Ha (f0 & Hf0 & Hdev & Hclean)].
  assert (f0 = f) as -> by congruence. destruct (is_dirty (i_inner o)) eqn:Hdirty.
  - assert (sync h taken = set_clean h (wrote taken f (inumber (id o)) (disk_inode (i_inner o)))) as Hsync.
    { unfold sync, inode_of. erewrite bind_Ok by (erewrite bind_Ok by reflexivity; simpl; by rewrite (proj2 Hslot)).
      rewrite Hdirty. cbn [negb]. erewrite bind_Ok by reflexivity.
      assert (alive taken (file_system o) = true) as -> by done.
      by erewrite bind_Ok by (apply write_inode_spec; [apply (iv_working _ Hinv)|done]). }
    destruct (wrote_fields taken f (inumber (id o)) (disk_inode (i_inner o))) as [x Hx].
    pose proof (wrote_devices w taken f (inumber (id o)) (disk_inode (i_inner o)) eq_refl) as Hwd.
    rewrite Hx in Hsync, Hwd. cbn [devices with_devices] in Hwd. erewrite bind_Ok by exact Hsync.
    eexists. split; [reflexivity|]. split; [|done].
    split; try done; cbn [held inodes with_held with_inodes with_devices release mmodify].
    + apply remove_one_cons.
    + intros h' Hh. by apply list_lookup_alter_ne.
    + by rewrite length_alter.
    + intros j g n Hg Hno. rewrite (stored_devices (wrote w f (inumber (id o)) (disk_inode (i_inner o)))) by done.
      erewrite stored_wrote by (try done; exact Hn || exact Hf || exact Hg || exact Hd).
      rewrite (proj2 (Z.eqb_neq _ _) Hl).
      apply decide_ext. rewrite id_eta. by rewrite Hdev.
    + intros dev b. rewrite (block_of_devices (wrote w f (inumber (id o)) (disk_inode (i_inner o)))) by done.
      by apply wrote_block_ok.
    + intros dev. unfold device_at. simpl. rewrite Hwd. change (dev_faults (device_at (wrote w f (inumber (id o)) (disk_inode (i_inner o))) dev) = []).
      rewrite wrote_faults. apply (iv_working _ Hinv).
  - eexists. split; [reflexivity|]. split; [|done]. split; try done.
    + apply remove_one_cons.
    + intros j g n Hg Hno. rewrite (stored_devices w) by done.
      case_decide as E; [|done]. apply id_eta in E as [Eg ->]. rewrite (proj2 (Z.eqb_neq _ _) Hl).
      assert (g = f) as -> by (pose proof (iv_devices _ Hinv _ _ _ _ Hg Hf ltac:(congruence)); congruence). symmetry. by apply Hclean.
    + intros dev b. rewrite (block_of_devices w) by done. apply (iv_blocks _ Hinv).
    + apply (iv_working _ Hinv).
Qed.

(** [truncate] of the victim touches the bitmap and the victim only. *)
Lemma truncate_victim :
  reclaimable w o f →
  ∃ s, truncate (st_of w o f) = (Ok (), s) ∧ cache s = blocks (device_at w (device (id o))) ∧ faults s = [] ∧
    ∀ x, Bitmap.used (zones s) x = Bitmap.used (zone_bitmap f) x &&
      negb (bool_decide (Bitmap.base_id (zone_bitmap f) + Z.of_nat x ∈
        match file_type (mode (disk_inode (i_inner o))) with
        | Some Regular | Some Directory => BlockMap.file_zones (st_of w o f)
        | _ => []
        end)).
Proof using Hinv Hslot.
  intros (Hwf & [t Ht] & _). pose proof (iv_objects _ Hinv _ _ _ Hslot) as [_ _ Ha _]. rewrite Ht.
  pose proof (iv_working _ Hinv (device (id o))) as Hw.
  assert (t = Regular ∨ t = Directory ∨ truncate (st_of w o f) = (Ok (), st_of w o f) ∧ t ≠ Regular ∧ t ≠ Directory) as Hcases.
  { unfold truncate. destruct t; auto; right; right; (split; [|done]);
      erewrite bind_Ok by reflexivity; cbn [mounted st_of]; rewrite Ha; cbn [negb];
      erewrite bind_Ok by reflexivity; cbn [disk_inode inner st_of]; by rewrite Ht. }
  destruct Hcases as [->|[->|(Hr & ? & ?)]].
  3:{ exists (st_of w o f). split_and!; [done..|]. intros x.
      rewrite bool_decide_eq_false_2; [by rewrite andb_true_r|]. destruct t; try done; by intros ?%elem_of_nil. }
  all: destruct (BlockMap.truncate_run (st_of w o f) Hwf Ha Hw) as (s & Hr & [Hc Hi Hflt _ _ _ _ _ Hu]); [auto|];
    exists s; split_and!; [done|done|by rewrite Hflt|exact Hu].
Qed.

Lemma inode_of_spec w' (o' : Inode) : inodes w' !! h = Some o' → inode_of h w' = (Ok o', w').
Proof. intros Ho. unfold inode_of. erewrite bind_Ok by reflexivity. by rewrite Ho. Qed.

Lemma fs_at_spec w' j g : file_systems w' !! j = Some g → fs_at j w' = (Ok g, w').
Proof. intros Hg. unfold fs_at. erewrite bind_Ok by reflexivity. by rewrite Hg. Qed.

Lemma zeroed_ok : inode_ok zeroed.
Proof. split; try (by unfold is_uint). split; [done|]. by apply Forall_replicate. Qed.

(** After the truncation: the disk and everything but the victim are as before. *)
Definition truncated (s : St) : World := put_st h o f s taken.

Definition truncated_fs (s : St) : MinixFileSystem :=
  mkMinixFs (fs_device f) (super_block f) (inode_bitmap f) (zones s).

Lemma truncated_blocks s dev b :
  cache s = blocks (device_at w (device (id o))) → block_of (truncated s) dev b = block_of w dev b.
Proof.
  intros Hc. unfold block_of, device_at. simpl. destruct (decide (dev = device (id o))) as [->|Hd].
  - by rewrite lookup_insert_eq, Hc.
  - by rewrite lookup_insert_ne.
Qed.

Lemma truncated_faults s dev : faults s = [] → dev_faults (device_at (truncated s) dev) = [].
Proof using Hinv.
  intros Hc. unfold device_at. simpl. destruct (decide (dev = device (id o))) as [->|Hd].
  - by rewrite lookup_insert_eq.
  - rewrite lookup_insert_ne by done. apply (iv_working _ Hinv).
Qed.

Lemma truncated_systems s j :
  file_systems (truncated s) !! j = if decide (j = file_system o) then Some (truncated_fs s) else file_systems w !! j.
Proof using Hf.
  change (<[file_system o := truncated_fs s]> (file_systems w) !! j =
    if decide (j = file_system o) then Some (truncated_fs s) else file_systems w !! j).
  case_decide as E; [subst j; apply list_lookup_insert_eq; by eapply lookup_lt_Some|by apply list_lookup_insert_ne].
Qed.

Lemma free_victim s :
  reclaimable w o f → cache s = blocks (device_at w (device (id o))) → faults s = [] →
  ∃ ib, Bitmap.only_bit (inode_bitmap f) ib (Z.to_nat (inumber (id o))) false ∧
    free_inode (file_system o) (inumber (id o)) (truncated s) =
      (Ok (), with_bitmaps (file_system o) (truncated_fs s) ib (zones s)
                (wrote (truncated s) f (inumber (id o)) zeroed)).
Proof using Hinv Hslot Hf.
  intros (_ & _ & Hb & Hbase & Hbits) Hc Hflt.
  pose proof (iv_objects _ Hinv _ _ _ Hslot) as [Hn _ _ _]. unfold number_ok in Hn.
  destruct (Bitmap.dealloc_outcome _ (inumber (id o)) Hb) as [(m & ib & E & Hm & Hd & _ & Honly)|[Hout _]];
    [unfold is_uint; lia| |lia].
  rewrite Hbase in E. exists ib. split; [by replace (Z.to_nat _) with m by lia|].
  assert (file_systems (truncated s) !! file_system o = Some (truncated_fs s)) as Hfs by
    (rewrite truncated_systems; by rewrite decide_True).
  unfold free_inode. erewrite bind_Ok by (apply write_inode_spec; [by apply truncated_faults|exact Hfs]).
  rewrite (wrote_layout _ f) by done. unfold on_inode_bitmap.
  erewrite bind_Ok.
  2:{ apply fs_at_spec. destruct (wrote_fields (truncated s) f (inumber (id o)) zeroed) as [x ->]. exact Hfs. }
  cbn [inode_bitmap truncated_fs]. by rewrite Hd.
Qed.

Lemma flush_dead :
  link_count (disk_inode (i_inner o)) = 0 → reclaimable w o f →
  ∃ w', flush_slot k w = (Ok (), w') ∧ flushed w w' k h o ∧ reclaimed w w' o f.
Proof using Hinv Hslot Hf.
  intros Hl Hr. rewrite flush_slot_taken, Hl. cbn [Z.eqb].
  destruct (truncate_victim Hr) as (s & Ht & Hc & Hflt & Hz).
  destruct (free_victim s Hr Hc Hflt) as (ib & Hib & Hfree).
  pose proof (iv_objects _ Hinv _ _ _ Hslot) as [Hn Hd Ha (f0 & Hf0 & Hdev & _)]. assert (f0 = f) as -> by congruence.
  assert (on_inode h truncate taken = (Ok (), truncated s)) as Htr.
  { unfold on_inode. erewrite bind_Ok by (apply inode_of_spec; apply Hslot).
    erewrite bind_Ok by (apply fs_at_spec; exact Hf). change (st_of taken o f) with (st_of w o f). by rewrite Ht. }
  rewrite bind_bind. erewrite bind_Ok by exact Htr. rewrite bind_bind. erewrite bind_Ok by reflexivity.
  change (alive (truncated s) (file_system o)) with (alive w (file_system o)). rewrite Ha.
  erewrite bind_Ok by exact Hfree. eexists. split; [reflexivity|].
  destruct (wrote_fields (truncated s) f (inumber (id o)) zeroed) as [x Hx].
  assert (∀ dev b, block_of (wrote (truncated s) f (inumber (id o)) zeroed) dev b =
    block_of (wrote w f (inumber (id o)) zeroed) dev b) as Hblocks.
  { intros dev b. apply wrote_blocks. intros. by apply truncated_blocks. }
  assert (∀ dev, dev_faults (device_at (wrote (truncated s) f (inumber (id o)) zeroed) dev) = []) as Hfaults.
  { intros dev. rewrite wrote_faults. by apply truncated_faults. }
  rewrite Hx in *. set (w1 := with_devices (truncated s) x) in *.
  assert (∀ j, file_systems (with_bitmaps (file_system o) (truncated_fs s) ib (zones s) w1) !! j =
    if decide (j = file_system o) then Some (mkMinixFs (fs_device f) (super_block f) ib (zones s)) else file_systems w !! j) as Hsys.
  { intros j. unfold with_bitmaps. simpl. rewrite list_insert_insert_eq. case_decide as E.
    - subst j. apply list_lookup_insert_eq. by eapply lookup_lt_Some.
    - by apply list_lookup_insert_ne. }
  split; [split; try done|split].
  - apply remove_one_cons.
  - intros h' Hh. by apply list_lookup_insert_ne.
  - apply length_insert.
  - intros j. simpl. rewrite Hsys. case_decide as E; [subst j; by rewrite Hf|done].
  - intros j Hj. simpl. rewrite Hsys. by rewrite decide_False.
  - intros j g n Hg Hno. rewrite (stored_blocks (wrote w f (inumber (id o)) zeroed)) by exact Hblocks.
    erewrite stored_wrote by (try done; exact Hn || exact Hf || exact Hg || apply zeroed_ok).
    rewrite Hl. apply decide_ext. rewrite id_eta. by rewrite Hdev.
  - intros dev b. assert (block_ok (block_of w1 dev b)) as Hok; [|done].
    rewrite Hblocks. apply wrote_block_ok; [done|apply zeroed_ok].
  - eexists. simpl. rewrite Hsys, decide_True by done. split_and!; [done|done|exact Hib|exact Hz].
Qed.
End flush.

(** *** Finding an inode and finding a victim *)

Lemma cached_Some w i h : cached w i = Some h → ∃ s o, slot_object w s h o ∧ id o = i.
Proof.
  unfold cached. intros (l1 & x & l2 & Hl & Hx & _)%find_map_Some. destruct x as [h'|]; [|done]. simpl in Hx.
  destruct (inodes w !! h') as [o|] eqn:Ho; [|done]. simpl in Hx. destruct (decide (id o = i)); [|done].
  injection Hx as <-. exists (length l1), o. split; [|done]. split; [|done].
  by rewrite Hl, lookup_app_r, Nat.sub_diag by done.
Qed.

Lemma cached_None w i s h o : cached w i = None → slot_object w s h o → id o ≠ i.
Proof.
  unfold cached. intros Hn [Hs Ho] E. pose proof (find_map_None _ _ Hn (Some h)) as H. simpl in H.
  rewrite Ho in H. simpl in H. rewrite decide_True in H by done. by discriminate H; [eapply list_elem_of_lookup_2].
Qed.

Lemma cached_slot w i s h o : inv w → slot_object w s h o → id o = i → cached w i = Some h.
Proof.
  intros Hinv Hso Hi. destruct (cached w i) as [h'|] eqn:Hc.
  - apply cached_Some in Hc as (s' & o' & Hso' & Hi'). f_equal.
    assert (s' = s) as -> by (apply (iv_inj _ Hinv _ _ _ _ _ _ Hso' Hso); congruence).
    destruct Hso, Hso'. congruence.
  - by destruct (cached_None _ _ _ _ _ Hc Hso).
Qed.

Lemma view_cached w f n s h o :
  inv w → slot_object w s h o → id o = mkId (fs_device f) n → view w f n = disk_inode (i_inner o).
Proof. intros Hinv Hso Hi. unfold view. rewrite (cached_slot _ _ s h o) by done. simpl. by rewrite (proj2 Hso). Qed.

Lemma view_stored w f n : cached w (mkId (fs_device f) n) = None → view w f n = stored w f n.
Proof. intros Hc. unfold view. by rewrite Hc. Qed.

(** A slot whose object only the table refers to. *)
Definition unused (w : World) (k h : nat) (o : Inode) : Prop := slot_object w k h o ∧ strong_count w h = 1%nat.

Definition all_active (w : World) : Prop :=
  ∀ k, (k < INODE_TABLE_CAPACITY)%nat → ∃ h o, slot_object w k h o ∧ strong_count w h ≠ 1%nat.

Definition next_slot (j i : nat) : nat := ((j + i) mod INODE_TABLE_CAPACITY)%nat.

Lemma next_slot_S j i : next_slot ((j + 1) mod INODE_TABLE_CAPACITY) i = next_slot j (S i).
Proof.
  unfold next_slot. rewrite Nat.Div0.add_mod_idemp_l. f_equal. lia.
Qed.

Section scan.
Context (w : World) (Hinv : inv w).

Lemma scan_victim_Some n j fb k : scan_victim w n j fb = Some k → fb = Some k ∨ ∃ h o, unused w k h o.
Proof.
  revert j fb. induction n as [|n IH]; intros j fb; cbn [scan_victim]; [by left|].
  destruct (slots (table w) !! j) as [[h|]|] eqn:Hs; [|apply IH..].
  destruct (Nat.eqb_spec (strong_count w h) 1) as [Hc|Hc]; cbn [negb]; [|apply IH].
  destruct (inodes w !! h) as [o|] eqn:Ho; [|apply IH].
  destruct (is_dirty (i_inner o)); cbn [negb].
  - intros [E|?]%IH; [|by right]. destruct fb as [s|]; [by left|]. injection E as <-. right. by exists h, o.
  - intros [= <-]. right. by exists h, o.
Qed.

Lemma find_victim_unused k : find_victim w = Some k → ∃ h o, unused w k h o.
Proof. unfold find_victim. intros [?|?]%scan_victim_Some; done. Qed.

Lemma scan_victim_clean n j fb k h o i :
  (j < INODE_TABLE_CAPACITY)%nat → (i < n)%nat →
  scan_victim w n j fb = Some k → unused w (next_slot j i) h o → is_dirty (i_inner o) = false →
  ∃ h' o', unused w k h' o' ∧ is_dirty (i_inner o') = false.
Proof.
  revert j fb i. induction n as [|n IH]; intros j fb i Hj Hi; [lia|]. cbn [scan_victim].
  assert (next_slot j 0 = j) as Hz by (unfold next_slot; rewrite Nat.add_0_r; by apply Nat.mod_small).
  assert (∀ fb', scan_victim w n ((j + 1) mod INODE_TABLE_CAPACITY)%nat fb' = Some k →
    unused w (next_slot j i) h o → is_dirty (i_inner o) = false → i ≠ 0%nat →
    ∃ h' o', unused w k h' o' ∧ is_dirty (i_inner o') = false) as Hrec.
  { intros fb' Hs Hu Hd Hi0. destruct i as [|i]; [done|]. apply (IH ((j + 1) mod INODE_TABLE_CAPACITY)%nat fb' i); try done; [|lia|by rewrite next_slot_S].
    by apply Nat.mod_upper_bound. }
  intros Hscan Hu Hd. destruct (decide (i = 0)%nat) as [->|Hi0].
  - rewrite Hz in Hu. destruct Hu as [[Hs Ho] Hc]. rewrite Hs, Hc in Hscan. cbn [Nat.eqb negb] in Hscan.
    rewrite Ho, Hd in Hscan. injection Hscan as <-. by exists h, o.
  - destruct (slots (table w) !! j) as [[h1|]|] eqn:Hs; [|by eapply Hrec..].
    destruct (Nat.eqb_spec (strong_count w h1) 1) as [Hc|Hc]; cbn [negb] in Hscan; [|by eapply Hrec].
    destruct (inodes w !! h1) as [o1|] eqn:Ho; [|by eapply Hrec].
    destruct (is_dirty (i_inner o1)) eqn:Hd1; cbn [negb] in Hscan; [by eapply Hrec|].
    injection Hscan as <-. by exists h1, o1.
Qed.

Lemma scan_victim_None n j fb i :
  (j < INODE_TABLE_CAPACITY)%nat → (i < n)%nat → scan_victim w n j fb = None →
  fb = None ∧ ∀ h o, ¬ unused w (next_slot j i) h o.
Proof.
  revert j fb i. induction n as [|n IH]; intros j fb i Hj Hi; [lia|]. cbn [scan_victim].
  assert (next_slot j 0 = j) as Hz by (unfold next_slot; rewrite Nat.add_0_r; by apply Nat.mod_small).
  assert (∀ m j fb, scan_victim w m j fb = None → fb = None) as Hfb.
  { clear. intros m. induction m as [|m IH]; intros j fb; cbn [scan_victim]; [done|].
    repeat case_match; try apply IH; try done. }
  assert (∀ fb', scan_victim w n ((j + 1) mod INODE_TABLE_CAPACITY)%nat fb' = None → i ≠ 0%nat →
    ∀ h o, ¬ unused w (next_slot j i) h o) as Hrec.
  { intros fb' Hs Hi0. destruct i as [|i]; [done|]. rewrite <- next_slot_S. apply (IH ((j + 1) mod INODE_TABLE_CAPACITY)%nat fb' i); try done; [|lia].
    by apply Nat.mod_upper_bound. }
  intros Hscan. split.
  { repeat case_match; eauto; done. }
  destruct (decide (i = 0)%nat) as [->|Hi0].
  - rewrite Hz. intros h o [[Hs Ho] Hc]. rewrite Hs, Hc in Hscan. cbn [Nat.eqb negb] in Hscan. rewrite Ho in Hscan.
    destruct (is_dirty (i_inner o)); [|done]. cbn [negb] in Hscan. apply Hfb in Hscan. by destruct fb.
  - repeat case_match; eauto; done.
Qed.

Lemma next_slot_surj j k : (j < INODE_TABLE_CAPACITY)%nat → (k < INODE_TABLE_CAPACITY)%nat →
  ∃ i, (i < INODE_TABLE_CAPACITY)%nat ∧ next_slot j i = k.
Proof.
  unfold next_slot, INODE_TABLE_CAPACITY. intros Hj Hk. destruct (decide (j ≤ k)%nat).
  - exists (k - j)%nat. split; [lia|]. replace (j + (k - j))%nat with k by lia. by apply Nat.mod_small.
  - exists (k + 32 - j)%nat. split; [lia|]. replace (j + (k + 32 - j))%nat with (k + 1 * 32)%nat by lia.
    rewrite Nat.Div0.mod_add. by apply Nat.mod_small.
Qed.

(** The victim is an unused slot, clean if there is a clean one; there is none
    only when every inode of a full table is in use. *)
Lemma find_victim_spec :
  match find_victim w with
  | Some k => ∃ h o, unused w k h o ∧
      (is_dirty (i_inner o) = true → ∀ k' h' o', unused w k' h' o' → is_dirty (i_inner o') = true)
  | None => ∀ k h o, ¬ unused w k h o
  end.
Proof using Hinv.
  unfold find_victim. rewrite Nat.mod_small by apply (iv_clock _ Hinv).
  assert (∀ k h o, slot_object w k h o → (k < INODE_TABLE_CAPACITY)%nat) as Hlt.
  { intros k h o [Hs _]. rewrite <- (iv_len _ Hinv). by eapply lookup_lt_Some. }
  destruct (scan_victim _ _ _ _) as [k|] eqn:Hscan.
  - destruct (scan_victim_Some _ _ _ _ Hscan) as [?|(h & o & Hu)]; [done|]. exists h, o. split; [done|].
    intros Hd k' h' o' Hu'. destruct (is_dirty (i_inner o')) eqn:Hd'; [done|exfalso].
    destruct (next_slot_surj (clock (table w)) k') as (i & Hi & Hk); [apply (iv_clock _ Hinv)|eapply Hlt, Hu'|].
    rewrite <- Hk in Hu'. destruct (scan_victim_clean _ _ _ _ _ _ _ (iv_clock _ Hinv) Hi Hscan Hu' Hd') as (h2 & o2 & [[Hs2 Ho2] _] & Hd2).
    destruct Hu as [[Hs Ho] _]. congruence.
  - intros k h o Hu. destruct (next_slot_surj (clock (table w)) k) as (i & Hi & <-); [apply (iv_clock _ Hinv)|eapply Hlt, Hu|].
    by apply (scan_victim_None _ _ _ _ (iv_clock _ Hinv) Hi Hscan) in Hu.
Qed.
End scan.

(** *** The table after a slot is emptied or filled *)

Lemma object_ok_same w w' o :
  object_ok w o → mounts w' = mounts w →
  (∀ j, layout <$> file_systems w' !! j = layout <$> file_systems w !! j) →
  (∀ f, file_systems w !! file_system o = Some f → fs_device f = device (id o) →
     stored w' f (inumber (id o)) = stored w f (inumber (id o))) →
  object_ok w' o.
Proof.
  intros [Hn Hd Ha (f & Hf & Hdev & Hc)] Hm Hl Hs. split; try done; [by unfold alive; rewrite Hm|].
  pose proof (Hl (file_system o)) as E. rewrite Hf in E. apply fmap_Some in E as (f' & Hf' & E).
  exists f'. split_and!; [done|by injection E as <- _|]. intros Hclean.
  rewrite (stored_layout w' f) by done. rewrite (Hs f Hf Hdev). by apply Hc.
Qed.

Lemma devices_same w w' :
  inv w → (∀ j, layout <$> file_systems w' !! j = layout <$> file_systems w !! j) →
  ∀ k k' f f', file_systems w' !! k = Some f → file_systems w' !! k' = Some f' → fs_device f = fs_device f' → k = k'.
Proof.
  intros Hinv Hl k k' f f' Hf Hf' E. pose proof (Hl k) as Hk. pose proof (Hl k') as Hk'. rewrite Hf in Hk. rewrite Hf' in Hk'.
  symmetry in Hk, Hk'. apply fmap_Some in Hk as (g & Hg & Eg). apply fmap_Some in Hk' as (g' & Hg' & Eg').
  apply (iv_devices _ Hinv k k' g g' Hg Hg'). injection Eg as Eg _. injection Eg' as Eg' _. congruence.
Qed.

Section flushed.
Context (w w' : World) (k h : nat) (o : Inode).
Context (Hinv : inv w) (Hslot : slot_object w k h o) (Hfl : flushed w w' k h o).

Lemma flushed_slot s h' o' : slot_object w' s h' o' ↔ s ≠ k ∧ slot_object w s h' o'.
Proof using Hinv Hslot Hfl.
  unfold slot_object. rewrite (fl_table _ _ _ _ _ Hfl). simpl.
  assert (k < length (slots (table w)))%nat as Hk by (eapply lookup_lt_Some, Hslot).
  assert (s ≠ k → slots (table w) !! s = Some (Some h') → h' ≠ h) as Hne.
  { intros Hs E ->. apply Hs. eapply (iv_inj _ Hinv); [split; [exact E|apply Hslot]|exact Hslot|done]. }
  destruct (decide (s = k)) as [->|Hs].
  - rewrite list_lookup_insert_eq by done. split; [by intros [? _]|by intros [? _]].
  - rewrite list_lookup_insert_ne by done. split.
    + intros [E Ho]. rewrite (fl_objects _ _ _ _ _ Hfl) in Ho by auto. done.
    + intros [_ [E Ho]]. rewrite (fl_objects _ _ _ _ _ Hfl) by auto. done.
Qed.

Lemma flushed_inv : inv w'.
Proof using Hinv Hslot Hfl.
  pose proof (fl_table _ _ _ _ _ Hfl) as Ht. split.
  - rewrite Ht. simpl. rewrite length_insert. apply (iv_len _ Hinv).
  - rewrite Ht. apply (iv_clock _ Hinv).
  - intros s h' Hs. rewrite Ht in Hs. simpl in Hs.
    assert (slots (table w) !! s = Some (Some h')) as Hs'.
    { apply list_lookup_insert_Some in Hs as [(? & ? & ?)|[_ ?]]; done. }
    apply (iv_handles _ Hinv) in Hs'. apply lookup_lt_is_Some in Hs'. apply lookup_lt_is_Some. by rewrite (fl_length _ _ _ _ _ Hfl).
  - intros s h' o' [Hs Hso]%flushed_slot. eapply object_ok_same; [by eapply (iv_objects _ Hinv)|apply Hfl|apply Hfl|].
    intros f Hf Hdev. rewrite (fl_stored _ _ _ _ _ Hfl _ _ _ Hf) by (eapply ob_number, (iv_objects _ Hinv), Hso).
    rewrite decide_False; [done|]. rewrite id_eta. intros [E1 E2]. apply Hs. eapply (iv_inj _ Hinv); [exact Hso|exact Hslot|].
    destruct (id o') as [a b], (id o) as [a' b']. simpl in *. congruence.
  - intros s s' h1 h2 o1 o2 [_ H1]%flushed_slot [_ H2]%flushed_slot. by eapply (iv_inj _ Hinv).
  - eapply devices_same; [exact Hinv|apply Hfl].
  - apply Hfl.
  - apply Hfl.
Qed.

Lemma flushed_view j g n :
  file_systems w !! j = Some g → number_ok n →
  view w' g n = if decide (mkId (fs_device g) n = id o)
                then (if link_count (disk_inode (i_inner o)) =? 0 then zeroed else disk_inode (i_inner o))
                else view w g n.
Proof using Hinv Hslot Hfl.
  intros Hg Hn. destruct (cached w' (mkId (fs_device g) n)) as [h'|] eqn:Hc.
  - apply cached_Some in Hc as (s & o' & Hso & Hi). rewrite (view_cached w' g n s h' o' flushed_inv Hso Hi).
    apply flushed_slot in Hso as [Hs Hso]. rewrite decide_False.
    + symmetry. by eapply view_cached.
    + intros E. apply Hs. eapply (iv_inj _ Hinv); [exact Hso|exact Hslot|congruence].
  - rewrite view_stored by done. rewrite (fl_stored _ _ _ _ _ Hfl _ _ _ Hg Hn).
    case_decide as E; [done|]. symmetry. apply view_stored.
    destruct (cached w (mkId (fs_device g) n)) as [h'|] eqn:Hc'; [|done].
    apply cached_Some in Hc' as (s & o' & Hso & Hi). exfalso.
    eapply (cached_None _ _ s h' o' Hc); [|done]. apply flushed_slot. split; [|done].
    intros ->. apply E. rewrite <- Hi. destruct Hso, Hslot. congruence.
Qed.
End flushed.

Section filled.
Context (w : World) (k h c : nat) (o : Inode).
Context (Hinv : inv w) (Hc : (c < INODE_TABLE_CAPACITY)%nat) (Hfree : slots (table w) !! k = Some None).
Context (Ho : inodes w !! h = Some o) (Hok : object_ok w o) (Hnew : cached w (id o) = None).

Definition filled : World := with_table w (mkTable (<[k := Some h]> (slots (table w))) c).

Lemma filled_slot s h' o' :
  slot_object filled s h' o' ↔ s = k ∧ h' = h ∧ o' = o ∨ s ≠ k ∧ slot_object w s h' o'.
Proof using Hfree Ho.
  unfold slot_object, filled. simpl. assert (k < length (slots (table w)))%nat as Hk by (by eapply lookup_lt_Some).
  destruct (decide (s = k)) as [->|Hs].
  - rewrite list_lookup_insert_eq by done. split; [intros [[= <-] ?]; left; split_and!; congruence|].
    intros [(_ & -> & ->)|[? _]]; done.
  - rewrite list_lookup_insert_ne by done. split; [by right|]. by intros [(? & _)|[_ ?]].
Qed.

Lemma filled_inv : inv filled.
Proof using Hinv Hc Hfree Ho Hok Hnew.
  split.
  - simpl. rewrite length_insert. apply (iv_len _ Hinv).
  - done.
  - intros s h' Hs. simpl in *. apply list_lookup_insert_Some in Hs as [(-> & [= <-] & _)|[_ Hs]]; [by eexists|].
    by apply (iv_handles _ Hinv) in Hs.
  - intros s h' o' [(-> & -> & ->)|[_ Hso]]%filled_slot; [|apply (iv_objects _ Hinv) in Hso as Hok'];
      eapply object_ok_same; done.
  - intros s s' h1 h2 o1 o2 [(-> & -> & ->)|[_ H1]]%filled_slot [(-> & -> & ->)|[_ H2]]%filled_slot E; try done.
    + by destruct (cached_None _ _ _ _ _ Hnew H2).
    + by destruct (cached_None _ _ _ _ _ Hnew H1).
    + by eapply (iv_inj _ Hinv).
  - apply (iv_devices _ Hinv).
  - apply (iv_blocks _ Hinv).
  - apply (iv_working _ Hinv).
Qed.

Lemma filled_view g n :
  view filled g n = if decide (mkId (fs_device g) n = id o) then disk_inode (i_inner o) else view w g n.
Proof using Hinv Hc Hfree Ho Hok Hnew.
  case_decide as E.
  - apply (view_cached _ _ _ k h); [apply filled_inv|apply filled_slot; auto|done].
  - destruct (cached w (mkId (fs_device g) n)) as [h'|] eqn:Hcc.
    + apply cached_Some in Hcc as (s & o' & Hso & Hi). rewrite (view_cached w g n s h' o') by done.
      eapply view_cached; [apply filled_inv| |exact Hi]. apply filled_slot. right. split; [|done].
      intros ->. destruct Hso. congruence.
    + rewrite (view_stored w) by done. rewrite view_stored; [done|].
      destruct (cached filled (mkId (fs_device g) n)) as [h'|] eqn:Hcf; [exfalso|done].
      apply cached_Some in Hcf as (s & o' & [(-> & -> & ->)|[_ Hso]]%filled_slot & Hi); [congruence|].
      by eapply cached_None.
Qed.
End filled.

(** *** Loading an inode *)

(** The number of references to each object of the table is that of [w], when
    the table, the mounts, the task and the users are the same, and the local
    references the same but for objects that [w] does not have. *)
Lemma strong_count_held w w' l h :
  table w' = table w → mounts w' = mounts w → fs w' = fs w → users w' = users w → held w' = l ++ held w →
  h ∉ l → strong_count w' h = strong_count w h.
Proof.
  intros Et Em Ef Eu Eh Hl. unfold strong_count, references. rewrite Et, Em, Ef, Eu, Eh.
  rewrite !filter_app, !length_app. replace (filter (λ x, x = h) l) with (@nil nat); [done|]. symmetry. apply Bitmap.filter_none. intros x Hx ->. done.
Qed.

(** The inode [i] is in the table at [h] with its contents; other inodes look as
    before, except for a victim without links; and an inode in use stays. *)
Record acquired (w w' : World) (i : InodeId) (f : MinixFileSystem) (h : nat) : Prop := {
  ac_inv : inv w';
  ac_object : ∃ s o, slot_object w' s h o ∧ id o = i ∧ disk_inode (i_inner o) = view w f (inumber i);
  ac_held : held w' = h :: held w;
  ac_mounts : mounts w' = mounts w;
  ac_fs : fs w' = fs w;
  ac_users : users w' = users w;
  ac_active : ∀ s h' o', slot_object w s h' o' → strong_count w h' ≠ 1%nat → slot_object w' s h' o';
  ac_view : ∀ j g n, file_systems w !! j = Some g → number_ok n →
    view w' g n = view w g n ∨
    ∃ s h' o' g', unused w s h' o' ∧ link_count (disk_inode (i_inner o')) = 0 ∧
      file_systems w !! file_system o' = Some g' ∧ reclaimed w w' o' g' ∧
      id o' = mkId (fs_device g) n ∧ view w' g n = zeroed;
}.

Definition dead_reclaimable (w : World) : Prop :=
  ∀ s h o f, unused w s h o → link_count (disk_inode (i_inner o)) = 0 →
    file_systems w !! file_system o = Some f → reclaimable w o f.

Section acquire.
Context (w : World) (i : InodeId) (k : nat) (f : MinixFileSystem).
Context (Hinv : inv w) (Hf : file_systems w !! k = Some f) (Hdev : fs_device f = device i).
Context (Halive : alive w k = true) (Hn : number_ok (inumber i)).
Context (Hdead : dead_reclaimable w).

Lemma acquire_hit h : cached w i = Some h →
  ∃ w', lookup i w = (Ok (Some h), w') ∧ acquired w w' i f h.
Proof using Hinv Hdev Hn.
  intros Hc. exists (with_held w (h :: held w)). split.
  - unfold lookup. erewrite bind_Ok by reflexivity. by rewrite Hc.
  - destruct (cached_Some _ _ _ Hc) as (s & o & Hso & Hi). split; try done.
    + split; try apply Hinv. intros s' h' o' H'. destruct (iv_objects _ Hinv s' h' o' H'). by split.
    + exists s, o. split_and!; [done|done|]. symmetry. apply (view_cached _ _ _ s h); [done|done|].
      rewrite Hdev. by destruct i.
    + intros j g n _ _. by left.
Qed.

(** The new object, before it gets a slot. *)
Definition loaded : Inode := mkInode i k (mkInner (stored w f (inumber i)) false 0 0).
Definition made : World := with_held (with_inodes w (inodes w ++ [loaded])) (length (inodes w) :: held w).

Lemma made_slot s h o : slot_object made s h o ↔ slot_object w s h o.
Proof using Hinv.
  unfold slot_object, made. simpl. split; intros [Hs Ho]; (split; [done|]).
  - destruct (iv_handles _ Hinv _ _ Hs) as [o' Ho']. rewrite lookup_app_l in Ho by (by eapply lookup_lt_Some). done.
  - rewrite lookup_app_l; [done|by eapply lookup_lt_Some].
Qed.

Lemma made_inv : inv made.
Proof using Hinv.
  split; try apply Hinv.
  - intros s h Hs. destruct (iv_handles _ Hinv _ _ Hs) as [o Ho]. exists o. apply (proj2 (made_slot s h o)). done.
  - intros s h o Hso%made_slot. eapply object_ok_same; [by eapply (iv_objects _ Hinv)|done..].
  - intros s s' h h' o o' H1%made_slot H2%made_slot. by eapply (iv_inj _ Hinv).
Qed.

Lemma made_cached : cached made i = None ↔ cached w i = None.
Proof using Hinv.
  split; intros Hc.
  - destruct (cached w i) as [h|] eqn:E; [|done]. apply cached_Some in E as (s & o & Hso & Hi).
    exfalso. by eapply (cached_None _ _ s h o Hc); [apply made_slot|].
  - destruct (cached made i) as [h|] eqn:E; [|done]. apply cached_Some in E as (s & o & Hso%made_slot & Hi).
    exfalso. by eapply (cached_None _ _ s h o Hc).
Qed.

Lemma made_view g n : view made g n = view w g n.
Proof using Hinv.
  destruct (cached w (mkId (fs_device g) n)) as [h|] eqn:Hc.
  - apply cached_Some in Hc as (s & o & Hso & Hi). rewrite (view_cached w g n s h o) by done.
    eapply view_cached; [apply made_inv|by apply made_slot|done].
  - rewrite (view_stored w) by done. rewrite (view_stored made); [done|].
    destruct (cached made (mkId (fs_device g) n)) as [h|] eqn:E; [|done].
    apply cached_Some in E as (s & o & Hso%made_slot & Hi). exfalso. by eapply (cached_None _ _ s h o Hc).
Qed.

Lemma made_count s h o : slot_object w s h o → strong_count made h = strong_count w h.
Proof using Hinv.
  intros [_ Ho]. apply (strong_count_held w made [length (inodes w)]); try done.
  intros E%list_elem_of_singleton. apply lookup_lt_Some in Ho. lia.
Qed.

Lemma loaded_ok : cached w i = None → object_ok made loaded.
Proof using Hinv Hf Hdev Halive Hn.
  intros Hc. split; [done| |done|].
  - simpl. unfold stored. destruct (inode_block_position f (inumber i)). apply inode_at_ok, (iv_blocks _ Hinv).
  - by exists f.
Qed.

Lemma acquire_miss : cached w i = None →
  acquire_raw i k w = (if device i =? 0 then (Panic, w) else (install (length (inodes w));;; mok (length (inodes w))) made).
Proof using Hinv Hf.
  intros Hc. unfold acquire_raw. destruct (device i =? 0) eqn:Hd; [done|]. cbn [negb massert].
  erewrite bind_Ok by reflexivity. erewrite bind_Ok.
  2:{ unfold lookup. erewrite bind_Ok by reflexivity. by rewrite Hc. }
  cbv beta iota. rewrite (bind_Ok _ _ _ _ _ (read_inode_spec w k f (inumber i) Hinv Hf)).
  reflexivity.
Qed.

(** The new object gets a slot that is free in a state that shows the same. *)
Lemma install_at w2 s c :
  inv w2 → slots (table w2) !! s = Some None → (c < INODE_TABLE_CAPACITY)%nat → cached w2 i = None →
  inodes w2 !! length (inodes w) = Some loaded → object_ok w2 loaded →
  let w3 := filled w2 s (length (inodes w)) c in
  inv w3 ∧ slot_object w3 s (length (inodes w)) loaded ∧
  (∀ s' h' o', s' ≠ s → slot_object w2 s' h' o' → slot_object w3 s' h' o') ∧
  (∀ g n, mkId (fs_device g) n ≠ i → view w3 g n = view w2 g n) ∧
  (∀ g n, mkId (fs_device g) n = i → view w3 g n = stored w f (inumber i)).
Proof.
  intros Hi2 Hs Hcl Hc Ho Hok w3. split_and!.
  - by apply filled_inv with loaded.
  - apply (filled_slot w2 s (length (inodes w)) c loaded Hs Ho). by left.
  - intros s' h' o' Hne Hso. apply (filled_slot w2 s (length (inodes w)) c loaded Hs Ho). by right.
  - intros g n Hne. unfold w3. rewrite (filled_view w2 s _ c loaded) by done. by rewrite decide_False.
  - intros g n E. unfold w3. rewrite (filled_view w2 s _ c loaded) by done. by rewrite decide_True.
Qed.

Lemma full_or_free :
  match position (λ s : option nat, negb (bool_decide (is_Some s))) (slots (table w)) with
  | Some s => slots (table w) !! s = Some None
  | None => ∀ s, (s < INODE_TABLE_CAPACITY)%nat → ∃ h o, slot_object w s h o
  end.
Proof using Hinv.
  destruct (position _ _) as [s|] eqn:Hp.
  - apply position_Some in Hp as [(x & Hx & Hb) _]. destruct x; [done|exact Hx].
  - intros s Hs. rewrite <- (iv_len _ Hinv) in Hs. apply lookup_lt_is_Some in Hs as [x Hx].
    pose proof (proj1 (position_None _ _) Hp x ltac:(by eapply list_elem_of_lookup_2)) as Hb.
    destruct x as [h|]; [|done]. destruct (iv_handles _ Hinv _ _ Hx) as [o Ho]. by exists h, o.
Qed.

Lemma acquire_free s :
  cached w i = None → slots (table w) !! s = Some None →
  acquired w (filled made s (length (inodes w)) (clock (table w))) i f (length (inodes w)).
Proof using Hinv Hf Hdev Halive Hn.
  intros Hc Hs. destruct (install_at made s (clock (table w)) made_inv Hs (iv_clock _ Hinv)) as (Hi & Hso & Hold & Hv & Hvi).
  - by apply made_cached.
  - simpl. by rewrite lookup_app_r, Nat.sub_diag.
  - by apply loaded_ok.
  - assert (view w f (inumber i) = stored w f (inumber i)) as Hvw by (apply view_stored; rewrite Hdev; by destruct i).
    split; try done.
    + exists s, loaded. by split_and!.
    + intros s' h' o' H' _. apply Hold; [|by apply made_slot]. intros ->. destruct H'. congruence.
    + intros j g n Hg Hno. left. destruct (decide (mkId (fs_device g) n = i)) as [E|E].
      * rewrite Hvi by done. rewrite view_stored by (by rewrite E). apply id_eta in E as [Eg ->].
        assert (g = f) as -> by (pose proof (iv_devices _ Hinv _ _ _ _ Hg Hf ltac:(congruence)); congruence). done.
      * rewrite Hv by done. apply made_view.
Qed.

Lemma acquire_evict v hv ov w2 :
  cached w i = None → unused made v hv ov → flushed made w2 v hv ov →
  (link_count (disk_inode (i_inner ov)) = 0 → ∃ g, file_systems w !! file_system ov = Some g ∧ reclaimed made w2 ov g) →
  acquired w (filled w2 v (length (inodes w)) ((v + 1) mod INODE_TABLE_CAPACITY)) i f (length (inodes w)).
Proof using Hinv Hf Hdev Halive Hn.
  intros Hc [Hso Hcount] Hfl Hrec. pose proof (flushed_inv _ _ _ _ _ made_inv Hso Hfl) as Hi2.
  pose proof (flushed_slot _ _ _ _ _ made_inv Hso Hfl) as Hslots.
  pose proof Hso as Hsow. apply made_slot in Hsow.
  assert (slots (table w2) !! v = Some None) as Hs2.
  { rewrite (fl_table _ _ _ _ _ Hfl). simpl. apply list_lookup_insert_eq. eapply lookup_lt_Some, Hsow. }
  assert (cached w2 i = None) as Hc2.
  { destruct (cached w2 i) as [h|] eqn:E; [|done]. apply cached_Some in E as (s & o & [_ H']%Hslots & Hi).
    exfalso. eapply (cached_None w i s h o Hc); [by apply made_slot|done]. }
  assert (inodes w2 !! length (inodes w) = Some loaded) as Ho2.
  { rewrite (fl_objects _ _ _ _ _ Hfl); [simpl; by rewrite lookup_app_r, Nat.sub_diag|].
    intros E. destruct Hsow as [_ Hov%lookup_lt_Some]. lia. }
  assert (id ov ≠ i) as Hid by (by apply (cached_None w i v hv)).
  assert (object_ok w2 loaded) as Hok2.
  { eapply object_ok_same; [by apply loaded_ok|apply Hfl|apply Hfl|]. intros g Hg Hgd.
    change (inumber (id loaded)) with (inumber i). rewrite (fl_stored _ _ _ _ _ Hfl _ _ _ Hg Hn). rewrite decide_False; [done|].
    rewrite id_eta. simpl. intros [E1 E2]. apply Hid. destruct (id ov) as [a b], i as [a' b']. simpl in *. congruence. }
  destruct (install_at w2 v ((v + 1) mod INODE_TABLE_CAPACITY) Hi2 Hs2) as (Hi & Hso3 & Hold & Hv & Hvi);
    [by apply Nat.mod_upper_bound|done..|].
  assert (view w f (inumber i) = stored w f (inumber i)) as Hvw by (apply view_stored; rewrite Hdev; by destruct i).
  split; try apply Hfl.
  - exact Hi.
  - exists v, loaded. by split_and!.
  - intros s' h' o' H' Ha. assert (s' ≠ v) as Hne.
    { intros ->. rewrite <- (made_count v h' o' H') in Ha. destruct H', Hsow. congruence. }
    apply Hold; [done|]. apply Hslots. split; [done|]. by apply made_slot.
  - intros j g n Hg Hno. destruct (decide (mkId (fs_device g) n = i)) as [E|E].
    + left. rewrite Hvi by done. rewrite view_stored by (by rewrite E). apply id_eta in E as [Eg ->].
      assert (g = f) as -> by (pose proof (iv_devices _ Hinv _ _ _ _ Hg Hf ltac:(congruence)); congruence). done.
    + rewrite Hv by done. rewrite (flushed_view _ _ _ _ _ made_inv Hso Hfl j g n Hg Hno). case_decide as Ev; [|left; apply made_view].
      destruct (Z.eqb_spec (link_count (disk_inode (i_inner ov))) 0) as [Hl|Hl].
      * right. destruct (Hrec Hl) as (g' & Hg' & Hr). exists v, hv, ov, g'. split_and!; [|done|done| |done|done].
        -- split; [done|]. by rewrite <- (made_count v hv ov).
        -- destruct Hr as [Hr]. by split.
      * left. symmetry. by apply (view_cached _ _ _ v hv).
Qed.

Lemma acquire_raw_spec : device i ≠ 0 →
  (∃ h w', acquire_raw i k w = (Ok h, w') ∧ acquired w w' i f h) ∨
  (∃ w', acquire_raw i k w = (Panic, w')) ∧ all_active w.
Proof using Hinv Hf Hdev Halive Hn Hdead.
  intros Hd0. destruct (cached w i) as [h|] eqn:Hc.
  { left. destruct (acquire_hit h Hc) as (w' & Hl & Ha). exists h, w'. split; [|done]. unfold acquire_raw.
    rewrite (proj2 (Z.eqb_neq _ _) Hd0). erewrite bind_Ok by reflexivity. by rewrite (bind_Ok _ _ _ _ _ Hl). }
  rewrite acquire_miss, (proj2 (Z.eqb_neq _ _) Hd0) by done.
  pose proof full_or_free as Hfull. unfold install. rewrite bind_bind. erewrite bind_Ok by reflexivity.
  change (slots (table made)) with (slots (table w)). destruct (position _ _) as [s|].
  { left. eexists _, _. split; [reflexivity|]. by apply acquire_free. }
  pose proof (find_victim_spec made made_inv) as Hvic. destruct (find_victim made) as [v|].
  - left. destruct Hvic as (hv & ov & Hu & _). pose proof Hu as [Hso Hcount].
    destruct (iv_objects _ made_inv _ _ _ Hso) as [_ _ _ (g & Hg & _)].
    assert (∃ w2, flush_slot v made = (Ok (), w2) ∧ flushed made w2 v hv ov ∧
      (link_count (disk_inode (i_inner ov)) = 0 → ∃ g, file_systems w !! file_system ov = Some g ∧ reclaimed made w2 ov g))
      as (w2 & Hflush & Hfl & Hrec).
    { destruct (decide (link_count (disk_inode (i_inner ov)) = 0)) as [Hl|Hl].
      - destruct (flush_dead made v hv ov g made_inv Hso Hg Hl) as (w2 & ? & ? & ?); [|by exists w2; eauto].
        apply (Hdead v hv ov g); [|done|done]. pose proof Hso as Hsow. apply made_slot in Hsow. split; [done|].
        by rewrite <- (made_count v hv ov).
      - destruct (flush_live made v hv ov g made_inv Hso Hg Hl) as (w2 & ? & ? & ?). exists w2. by split_and!. }
    eexists _, _. split.
    { rewrite bind_bind. erewrite bind_Ok by reflexivity. rewrite bind_bind, (bind_Ok _ _ _ _ _ Hflush). reflexivity. }
    pose proof (acquire_evict v hv ov w2 Hc Hu Hfl Hrec) as Ha. exact Ha.
  - right. split; [by eexists|]. intros s Hs. destruct (Hfull s Hs) as (h & o & Hso). exists h, o. split; [done|].
    rewrite <- (made_count s h o Hso). intros E. apply (Hvic s h o). split; [by apply made_slot|done].
Qed.
End acquire.

(** *** Writing back *)

(** The system looks the same; an inode on disk is as it was or as it looks. *)
Record synced (w w' : World) : Prop := {
  sy_inv : inv w';
  sy_table : table w' = table w;
  sy_systems : file_systems w' = file_systems w;
  sy_mounts : mounts w' = mounts w;
  sy_ids : ∀ h, id <$> inodes w' !! h = id <$> inodes w !! h;
  sy_view : ∀ j g n, file_systems w !! j = Some g → number_ok n → view w' g n = view w g n;
  sy_stored : ∀ j g n, file_systems w !! j = Some g → number_ok n →
    stored w' g n = stored w g n ∨ stored w' g n = view w g n;
}.

Lemma synced_refl w : inv w → synced w w.
Proof. intros Hinv. split; auto. Qed.

Lemma synced_trans w1 w2 w3 : synced w1 w2 → synced w2 w3 → synced w1 w3.
Proof.
  intros H1 H2. pose proof (sy_systems _ _ H1) as Es. split.
  - apply H2.
  - by rewrite (sy_table _ _ H2), (sy_table _ _ H1).
  - by rewrite (sy_systems _ _ H2).
  - by rewrite (sy_mounts _ _ H2), (sy_mounts _ _ H1).
  - intros h. by rewrite (sy_ids _ _ H2), (sy_ids _ _ H1).
  - intros j g n Hg Hn. rewrite (sy_view _ _ H2 j) by (by rewrite ?Es). by rewrite (sy_view _ _ H1 j).
  - intros j g n Hg Hn. destruct (sy_stored _ _ H2 j g n) as [-> | ->]; [by rewrite Es|done| |].
    + by apply (sy_stored _ _ H1 j).
    + right. by apply (sy_view _ _ H1 j).
Qed.

Definition clean_object (o : Inode) : Inode :=
  mkInode (id o) (file_system o)
    (mkInner (disk_inode (i_inner o)) false (access_time (i_inner o)) (change_time (i_inner o))).

Section sync.
Context (w : World) (s h : nat) (o : Inode) (f : MinixFileSystem).
Context (Hinv : inv w) (Hso : slot_object w s h o) (Hf : file_systems w !! file_system o = Some f).
Context (Hdev : fs_device f = device (id o)).

Definition written_back : World :=
  with_inodes (wrote w f (inumber (id o)) (disk_inode (i_inner o))) (alter clean_object h (inodes w)).

Lemma written_fields :
  table written_back = table w ∧ file_systems written_back = file_systems w ∧ mounts written_back = mounts w.
Proof. unfold written_back. by destruct (wrote_fields w f (inumber (id o)) (disk_inode (i_inner o))) as [x ->]. Qed.

Lemma written_slot s' h' o' :
  slot_object written_back s' h' o' ↔
  s' = s ∧ h' = h ∧ o' = clean_object o ∨ s' ≠ s ∧ slot_object w s' h' o'.
Proof using Hinv Hso.
  unfold slot_object at 1. destruct written_fields as (-> & _ & _). cbn [inodes written_back with_inodes].
  pose proof Hso as [Hs Ho]. destruct (decide (s' = s)) as [->|Hne].
  - split.
    + intros [Hs' Ho']. assert (h' = h) as -> by congruence. left. rewrite list_lookup_alter_eq, Ho in Ho'.
      injection Ho' as <-. done.
    + intros [(_ & -> & ->)|[? _]]; [|done]. split; [done|]. by rewrite list_lookup_alter_eq, Ho.
  - assert (slots (table w) !! s' = Some (Some h') → h' ≠ h) as Hh.
    { intros E ->. apply Hne. eapply (iv_inj _ Hinv); [split; [exact E|exact Ho]|exact Hso|done]. }
    split.
    + intros [Hs' Ho']. rewrite list_lookup_alter_ne in Ho' by (intros <-; by apply Hh). by right.
    + intros [(? & _)|[_ [Hs' Ho']]]; [done|]. rewrite list_lookup_alter_ne by (intros <-; by apply Hh). done.
Qed.

Lemma written_stored j g n : file_systems w !! j = Some g → number_ok n →
  stored written_back g n = if decide (mkId (fs_device g) n = id o) then disk_inode (i_inner o) else stored w g n.
Proof using Hinv Hso Hf Hdev.
  intros Hg Hn. pose proof (iv_objects _ Hinv _ _ _ Hso) as [Ho Hd _ _].
  rewrite (stored_devices (wrote w f (inumber (id o)) (disk_inode (i_inner o)))) by done.
  rewrite (stored_wrote w (file_system o) j f g) by done. apply decide_ext. by rewrite id_eta, Hdev.
Qed.

Lemma written_inv : inv written_back.
Proof using Hinv Hso Hf Hdev.
  destruct written_fields as (Et & Ef & Em). pose proof (iv_objects _ Hinv _ _ _ Hso) as [Ho Hd Ha _].
  split; rewrite ?Et, ?Ef; try apply Hinv.
  - intros k h' Hk. destruct (iv_handles _ Hinv _ _ Hk) as [o' Ho']. apply lookup_lt_is_Some.
    cbn [inodes written_back with_inodes]. rewrite length_alter. by eapply lookup_lt_Some.
  - intros s' h' o' [(-> & -> & ->)|[Hne H']]%written_slot.
    + split; [done|done|by unfold alive; rewrite Em|]. exists f. split_and!; [by rewrite Ef|done|]. intros _.
      symmetry. rewrite (written_stored _ _ _ Hf) by done. rewrite decide_True; [done|]. by apply id_eta.
    + eapply object_ok_same; [by eapply (iv_objects _ Hinv)|done|by rewrite Ef|]. intros g Hg Hgd.
      rewrite (written_stored _ _ _ Hg) by (eapply ob_number, (iv_objects _ Hinv), H').
      rewrite decide_False; [done|]. rewrite id_eta. intros [E1 E2]. apply Hne.
      eapply (iv_inj _ Hinv); [exact H'|exact Hso|]. destruct (id o') as [a b], (id o) as [a' b']. simpl in *. congruence.
  - intros s1 s2 h1 h2 o1 o2 [(-> & -> & ->)|[N1 H1]]%written_slot [(-> & -> & ->)|[N2 H2]]%written_slot E; try done.
    + symmetry. by apply (iv_inj _ Hinv s2 s h2 h o2 o).
    + by apply (iv_inj _ Hinv s1 s h1 h o1 o).
    + by eapply (iv_inj _ Hinv).
  - intros dev b. rewrite (block_of_devices (wrote w f (inumber (id o)) (disk_inode (i_inner o)))) by done.
    by apply wrote_block_ok.
  - intros dev. change (dev_faults (device_at (wrote w f (inumber (id o)) (disk_inode (i_inner o))) dev) = []).
    rewrite wrote_faults. apply (iv_working _ Hinv).
Qed.

Lemma written_view j g n : file_systems w !! j = Some g → number_ok n → view written_back g n = view w g n.
Proof using Hinv Hso Hf Hdev.
  intros Hg Hn. destruct (cached w (mkId (fs_device g) n)) as [h'|] eqn:Hc.
  - apply cached_Some in Hc as (s' & o' & H' & Hi). rewrite (view_cached w g n s' h' o') by done.
    destruct (decide (s' = s)) as [->|Hne].
    + assert (h' = h ∧ o' = o) as [-> ->] by (destruct H' as [E1 E2], Hso as [E3 E4]; split; congruence).
      apply (view_cached _ _ _ s h (clean_object o)); [apply written_inv|apply written_slot; auto|done].
    + apply (view_cached _ _ _ s' h'); [apply written_inv|apply written_slot; auto|done].
  - rewrite (view_stored w) by done. rewrite (view_stored written_back).
    + rewrite (written_stored j) by done. rewrite decide_False; [done|]. intros E.
      by apply (cached_None w _ s h o Hc).
    + destruct (cached written_back (mkId (fs_device g) n)) as [h'|] eqn:E; [|done].
      apply cached_Some in E as (s' & o' & [(-> & -> & ->)|[_ H']]%written_slot & Hi); exfalso;
        by eapply (cached_None w _ _ _ _ Hc).
Qed.

Lemma sync_run : ∃ w', sync h w = (Ok (), w') ∧ synced w w' ∧
  ∀ j g n, file_systems w !! j = Some g → number_ok n → mkId (fs_device g) n = id o → stored w' g n = view w g n.
Proof using Hinv Hso Hf Hdev.
  pose proof (iv_objects _ Hinv _ _ _ Hso) as [Ho Hd Ha (f0 & Hf0 & _ & Hclean)].
  assert (f0 = f) as -> by congruence.
  unfold sync. rewrite (bind_Ok _ _ _ _ _ (inode_of_spec h w o (proj2 Hso))).
  destruct (is_dirty (i_inner o)) eqn:Hdirty; cbn [negb].
  - exists written_back. split_and!.
    + erewrite bind_Ok by reflexivity. rewrite Ha.
      erewrite bind_Ok by (apply write_inode_spec; [apply (iv_working _ Hinv)|exact Hf]).
      unfold set_clean, mmodify, written_back. destruct (wrote_fields w f (inumber (id o)) (disk_inode (i_inner o))) as [x ->]. done.
    + destruct written_fields as (Et & Ef & Em). split; try done.
      * apply written_inv.
      * intros h'. cbn [inodes written_back with_inodes]. destruct (decide (h' = h)) as [->|Hne].
        -- rewrite list_lookup_alter_eq, (proj2 Hso). done.
        -- by rewrite list_lookup_alter_ne.
      * apply written_view.
      * intros j g n Hg Hn. rewrite (written_stored j) by done. case_decide as E; [right|by left].
        symmetry. by apply (view_cached _ _ _ s h).
    + intros j g n Hg Hn E. rewrite (written_stored j), decide_True by done. symmetry. by apply (view_cached _ _ _ s h).
  - exists w. split_and!; [done|by apply synced_refl|]. intros j g n Hg Hn E.
    rewrite (view_cached w g n s h o) by done. apply id_eta in E as [Eg ->].
    assert (g = f) as -> by (pose proof (iv_devices _ Hinv _ _ _ _ Hg Hf ltac:(congruence)); congruence).
    symmetry. by apply Hclean.
Qed.
End sync.

Lemma sync_list l w :
  inv w → (∀ h, h ∈ l → ∃ s o, slot_object w s h o) →
  ∃ w', mfor l sync w = (Ok (), w') ∧ synced w w' ∧
    ∀ h o j g n, h ∈ l → inodes w !! h = Some o → file_systems w !! j = Some g → number_ok n →
      mkId (fs_device g) n = id o → stored w' g n = view w g n.
Proof.
  revert w. induction l as [|h l IH]; intros w Hinv Hl.
  { exists w. split_and!; [done|by apply synced_refl|]. intros ? ? ? ? ? ?%elem_of_nil. done. }
  destruct (Hl h ltac:(by left)) as (s & o & Hso).
  destruct (iv_objects _ Hinv _ _ _ Hso) as [_ _ _ (f & Hf & Hdev & _)].
  destruct (sync_run w s h o f Hinv Hso Hf Hdev) as (w1 & Hr1 & S1 & Hst1).
  destruct (IH w1) as (w2 & Hr2 & S2 & Hst2).
  - apply S1.
  - intros h' Hh'. destruct (Hl h' ltac:(by right)) as (s' & o' & [Hs' Ho']). pose proof (sy_ids _ _ S1 h') as Hid.
    rewrite Ho' in Hid. apply fmap_Some in Hid as (o2 & Ho2 & _). exists s', o2.
    split; [by rewrite (sy_table _ _ S1)|done].
  - exists w2. split_and!; [cbn [mfor]; by rewrite (bind_Ok _ _ _ _ _ Hr1)|by eapply synced_trans|].
    pose proof (sy_systems _ _ S1) as Es.
    intros h' o' j g n Hh' Ho' Hg Hn E. apply elem_of_cons in Hh' as [->|Hh'].
    + assert (o' = o) as -> by (destruct Hso; congruence).
      destruct (sy_stored _ _ S2 j g n) as [-> | ->]; [by rewrite Es|done|by eapply Hst1|by eapply (sy_view _ _ S1)].
    + pose proof (sy_ids _ _ S1 h') as Hid. rewrite Ho' in Hid. apply fmap_Some in Hid as (o2 & Ho2 & Eo2).
      rewrite (Hst2 h' o2 j g n); [by eapply (sy_view _ _ S1)|done|done|by rewrite Es|done|congruence].
Qed.

Lemma sync_inodes_spec w :
  inv w → ∃ w', sync_inodes w = (Ok (), w') ∧ synced w w' ∧
    ∀ j g n, file_systems w !! j = Some g → number_ok n → stored w' g n = view w g n.
Proof.
  intros Hinv. destruct (sync_list (omap (λ o, o) (slots (table w))) w Hinv) as (w' & Hr & S & Hst).
  - intros h Hh. apply list_elem_of_omap in Hh as (x & Hx & E). simpl in E. subst x.
    apply list_elem_of_lookup in Hx as [s Hs]. destruct (iv_handles _ Hinv _ _ Hs) as [o Ho]. by exists s, o.
  - exists w'. split_and!; [|done|].
    + unfold sync_inodes. by erewrite bind_Ok by reflexivity.
    + intros j g n Hg Hn. destruct (cached w (mkId (fs_device g) n)) as [h|] eqn:Hc.
      * apply cached_Some in Hc as (s & o & [Hs Ho] & Hi). apply (Hst h o j); try done.
        apply list_elem_of_omap. exists (Some h). split; [by eapply list_elem_of_lookup_2|done].
      * destruct (sy_stored _ _ S j g n Hg Hn) as [-> | ->]; [|done]. symmetry. by apply view_stored.
Qed.

(** ** Property *)

(** C6: The inode table is a cache of the inodes on disk.  [acquire_raw] gives the
    object of the inode with its contents, loaded at most once; it changes how no
    other inode looks and never drops an inode that is in use.  A full table gives
    up an unused inode, a clean one if there is one, and writes a dirty one back
    first; an inode that has lost its last link is the exception: its number and
    zones are free from then on.  It panics only when all 32 inodes are in use.
    [sync_inodes] brings the disk up to date. *)
Theorem inode_table_cache w :
  inv w →
  (∀ i k f, file_systems w !! k = Some f → fs_device f = device i → alive w k = true → number_ok (inumber i) →
     device i ≠ 0 → dead_reclaimable w →
     (∃ h w', acquire_raw i k w = (Ok h, w') ∧ acquired w w' i f h) ∨
     (∃ w', acquire_raw i k w = (Panic, w')) ∧ all_active w) ∧
  match find_victim w with
  | Some k => ∃ h o, unused w k h o ∧
      (is_dirty (i_inner o) = true → ∀ k' h' o', unused w k' h' o' → is_dirty (i_inner o') = true)
  | None => ∀ k h o, ¬ unused w k h o
  end ∧
  (∃ w', sync_inodes w = (Ok (), w') ∧ synced w w' ∧
     ∀ j g n, file_systems w !! j = Some g → number_ok n → stored w' g n = view w g n).
Proof.
  intros Hinv. split_and!.
  - intros. by apply acquire_raw_spec.
  - by apply find_victim_spec.
  - by apply sync_inodes_spec.
Qed.

(** One mounted file system, nothing cached. *)
Definition sample_fs : MinixFileSystem := mkMinixFs 769 (mkSuper 64 1000 1 1 602 0 0 MINIX_SUPER_MAGIC) Bitmap.sample Bitmap.sample.

Definition sample_world : World :=
  mkWorld {[769 := mkDevice {[4 := inode_set 0 BlockMap.sample_inode zero_block]} []]} [sample_fs] []
    (mkTable (replicate INODE_TABLE_CAPACITY None) 0) [Some (mkMount 769 0 0 None)]
    (Task.mkFs 0 None None None 0 []) (Task.mkIdentity 0 0 0 0 0 0) [] [] 1000.

Lemma sample_inode_ok : inode_ok BlockMap.sample_inode.
Proof. split; try (by unfold is_uint). split; [done|]. repeat constructor; unfold is_uint; lia. Qed.

Lemma sample_world_inv : inv sample_world.
Proof.
  assert (∀ k h, slots (table sample_world) !! k ≠ Some (Some h)) as Hno.
  { intros k h E. by apply lookup_replicate in E as [? _]. }
  split.
  - done.
  - unfold INODE_TABLE_CAPACITY. simpl. lia.
  - intros k h E. by apply Hno in E.
  - intros k h o [E _]. by apply Hno in E.
  - intros k k' h h' o o' [E _]. by apply Hno in E.
  - intros [|k] [|k'] f f' E E'; try done; by simpl in *.
  - intros dev b. unfold block_of, device_at, sample_world. cbn [devices]. destruct (decide (dev = 769)) as [->|Hd].
    + rewrite lookup_singleton_eq. cbn [default from_option Datatypes.id blocks]. destruct (decide (b = 4)) as [->|Hb].
      * rewrite lookup_singleton_eq. apply inode_set_ok; [apply zero_block_ok|apply sample_inode_ok|done].
      * rewrite lookup_singleton_ne by done. apply zero_block_ok.
    + rewrite lookup_singleton_ne by done. apply zero_block_ok.
  - intros dev. unfold device_at, sample_world. cbn [devices]. destruct (decide (dev = 769)) as [->|Hd].
    + by rewrite lookup_singleton_eq.
    + by rewrite lookup_singleton_ne.
Qed.

Lemma inode_table_cache_witness :
  ∃ h w' s o, acquire_raw (mkId 769 1) 0 sample_world = (Ok h, w') ∧ slot_object w' s h o ∧
    disk_inode (i_inner o) = BlockMap.sample_inode.
Proof.
  destruct (inode_table_cache sample_world sample_world_inv) as (Ha & _).
  destruct (Ha (mkId 769 1) 0%nat sample_fs) as [(h & w' & Hr & Hac)|[_ Hall]]; try done.
  - intros s h o f [[E _] _]. by apply lookup_replicate in E as [? _].
  - destruct (ac_object _ _ _ _ _ Hac) as (s & o & Hso & _ & Hd). exists h, w', s, o. split_and!; [done..|].
    rewrite Hd. change (view sample_world sample_fs (inumber (mkId 769 1))) with
      (inode_at (inode_set 0 BlockMap.sample_inode zero_block) 0).
    rewrite inode_at_set; [done|apply zero_block_ok|apply sample_inode_ok|done|done].
  - destruct (Hall 0%nat) as (h & o & [E _] & _); [unfold INODE_TABLE_CAPACITY; lia|]. by apply lookup_replicate in E as [? _].
Defined.
End InodeTable.
