(* ===== verification/BlockFile.v ===== *)
(** * Raw block devices ([kernel/src/fs/file/block_device.rs])

    Reading and writing the bytes of a block device through the buffer cache. *)

From S2P Require Import Prelude Layout Minix BlockMap InodeTable.
From stdpp Require Import gmap.
Open Scope kmonad_scope.
Open Scope Z_scope.

Module BlockFile.
Import Layout Minix InodeTable.

(** [BlockChunk::new]: the block, the offset in it and the length; a quotient of
    a 32-bit number always fits. *)
Definition block_chunk (pos remaining : Z) : Z * Z * Z :=
  let offset := pos mod BLOCK_SIZE in (pos / BLOCK_SIZE, offset, Z.min (BLOCK_SIZE - offset) remaining).

Definition is_full_block (offset len : Z) : bool := (offset =? 0) && (len =? BLOCK_SIZE).

Definition advance (pos len : Z) : Z := wrapping_add pos len.

(** The loop of [block_read]: what has been read, and the position.  [IO] leaves
    the position where it was.  Every turn reads a byte at least. *)
Fixpoint block_read_loop (fuel : nat) (dev pos left : Z) (got : list Z) : M World (list Z * Z) :=
  if left <=? 0 then mok (got, pos)
  else match fuel with
  | O => mpanic
  | S fuel =>
      let '(block_number, offset, len) := block_chunk pos left in
      o <- read_dev dev block_number;;
      match o with
      | None => match got with [] => merr IO | _ => mok (got, pos) end
      | Some b => block_read_loop fuel dev (advance pos len) (left - len) (got ++ slice b offset len)
      end
  end.

Definition block_read (dev pos count : Z) : M World (list Z * Z) :=
  block_read_loop (Z.to_nat count) dev pos count [].

(** A block that is wholly overwritten is not read. *)
Fixpoint block_write_loop (fuel : nat) (dev pos written : Z) (buf : list Z) : M World (Z * Z) :=
  let left := Z.of_nat (length buf) - written in
  if left <=? 0 then mok (written, pos)
  else match fuel with
  | O => mpanic
  | S fuel =>
      let '(block_number, offset, len) := block_chunk pos left in
      o <- (if is_full_block offset len then mok (Some zero_block) else read_dev dev block_number);;
      match o with
      | None => if written =? 0 then merr IO else mok (written, pos)
      | Some _ =>
          modify_dev dev block_number (λ b, splice b offset (slice buf written len));;;
          block_write_loop fuel dev (advance pos len) (written + len) buf
      end
  end.

Definition block_write (dev pos : Z) (buf : list Z) : M World (Z * Z) :=
  block_write_loop (length buf) dev pos 0 buf.

(** ** The bytes of a device *)

Definition dev_byte (w : World) (dev p : Z) : Z := byte_at (block_of w dev (p / BLOCK_SIZE)) (p mod BLOCK_SIZE).

Definition dev_bytes (w : World) (dev pos n : Z) : list Z := map (dev_byte w dev) (seqZ pos n).

Definition dev_ok (w : World) (dev : Z) : Prop := ∀ b, block_ok (block_of w dev b).

Definition working (w : World) (dev : Z) : Prop := dev_faults (device_at w dev) = [].

(** Only the device [dev] changes. *)
Definition only_device (w w' : World) (dev : Z) : Prop :=
  (∃ ds, w' = with_devices w ds) ∧ ∀ d, d ≠ dev → devices w' !! d = devices w !! d.

Lemma only_device_refl w dev : only_device w w dev.
Proof. split; [|done]. exists (devices w). by destruct w. Qed.

Lemma only_device_trans w1 w2 w3 dev : only_device w1 w2 dev → only_device w2 w3 dev → only_device w1 w3 dev.
Proof. intros [[ds ->] H1] [[ds' ->] H2]. split; [by exists ds'|]. intros d Hd. by rewrite H2, H1. Qed.

(** The device shows the same bytes. *)
Record same_bytes (w w' : World) (dev : Z) : Prop := {
  sb_only : only_device w w' dev;
  sb_blocks : ∀ b, block_of w' dev b = block_of w dev b;
  sb_working : working w dev → working w' dev;
}.

Lemma same_bytes_refl w dev : same_bytes w w dev.
Proof. split; [apply only_device_refl|done|done]. Qed.

Lemma same_bytes_trans w1 w2 w3 dev : same_bytes w1 w2 dev → same_bytes w2 w3 dev → same_bytes w1 w3 dev.
Proof. intros [] []. split; [by eapply only_device_trans|congruence|auto]. Qed.

Lemma same_bytes_ok w w' dev : same_bytes w w' dev → dev_ok w dev → dev_ok w' dev.
Proof. intros Hs Hok b. rewrite (sb_blocks _ _ _ Hs). apply Hok. Qed.

Lemma dev_bytes_same w w' dev pos n : same_bytes w w' dev → dev_bytes w' dev pos n = dev_bytes w dev pos n.
Proof. intros Hs. unfold dev_bytes. apply map_ext. intros p. unfold dev_byte. by rewrite (sb_blocks _ _ _ Hs). Qed.

Lemma read_dev_spec dev b w : ∃ o w', read_dev dev b w = (Ok o, w') ∧ same_bytes w w' dev ∧
  (o = Some (block_of w dev b) ∨ o = None ∧ ¬ working w dev).
Proof.
  unfold read_dev, block_of, working. destruct (dev_faults (device_at w dev)) as [|fault rest] eqn:E.
  - eexists _, w. split; [done|]. split; [apply same_bytes_refl|by left].
  - eexists _, _. split; [done|]. split; [|destruct fault; [right|left]; done]. split.
    + split; [by eexists|]. intros d Hd. simpl. by rewrite lookup_insert_ne.
    + intros b'. unfold block_of, device_at. simpl. by rewrite lookup_insert_eq.
    + unfold working. by rewrite E.
Qed.

Lemma dev_bytes_app w dev pos n m : 0 ≤ n → 0 ≤ m → dev_bytes w dev pos (n + m) = dev_bytes w dev pos n ++ dev_bytes w dev (pos + n) m.
Proof. intros. unfold dev_bytes. by rewrite seqZ_app, map_app by lia. Qed.

Lemma dev_chunk w dev pos n : dev_ok w dev → 0 ≤ n → pos mod BLOCK_SIZE + n ≤ BLOCK_SIZE →
  slice (block_of w dev (pos / BLOCK_SIZE)) (pos mod BLOCK_SIZE) n = dev_bytes w dev pos n.
Proof.
  intros Hok Hn Hend. pose proof (Z.mod_pos_bound pos BLOCK_SIZE ltac:(done)) as Hb.
  pose proof (proj1 (Hok (pos / BLOCK_SIZE))) as Hlen. unfold BLOCK_SIZE in Hlen.
  apply list_eq. intros i. unfold dev_bytes. rewrite list_lookup_fmap. destruct (decide (i < Z.to_nat n)%nat) as [Hi|Hi].
  - rewrite slice_lookup, lookup_seqZ_lt by lia. simpl. unfold dev_byte.
    destruct (BlockMap.block_pos pos (Z.of_nat i)) as [-> ->]; [lia..|].
    unfold byte_at, zlookup. rewrite (proj2 (Z.leb_le 0 _)) by lia.
    replace (Z.to_nat (pos mod BLOCK_SIZE + Z.of_nat i)) with (Z.to_nat (pos mod BLOCK_SIZE) + i)%nat by lia.
    destruct (lookup_lt_is_Some_2 (block_of w dev (pos / BLOCK_SIZE)) (Z.to_nat (pos mod BLOCK_SIZE) + i)) as [x Hx];
      [unfold BLOCK_SIZE in *; lia|by rewrite Hx].
  - rewrite lookup_seqZ_ge by lia. rewrite lookup_ge_None_2; [done|]. unfold slice. rewrite length_take. lia.
Qed.

(** ** Reading *)

Lemma block_read_loop_spec fuel dev pos left got w :
  dev_ok w dev → 0 ≤ pos → 0 ≤ left ≤ Z.of_nat fuel → pos + left < 2 ^ 32 →
  ∃ res w', block_read_loop fuel dev pos left got w = (res, w') ∧ same_bytes w w' dev ∧
    (res = Ok (got ++ dev_bytes w dev pos left, pos + left) ∨
     ¬ working w dev ∧ (res = Err IO ∧ got = [] ∨ ∃ n, 0 ≤ n < left ∧ res = Ok (got ++ dev_bytes w dev pos n, pos + n) ∧ (0 < n ∨ got ≠ []))).
Proof.
  revert pos left got w. induction fuel as [|fuel IH]; intros pos left got w Hok Hpos Hleft Hend.
  all: cbn [block_read_loop]; destruct (Z.leb_spec left 0) as [Hz|Hz]; [|try lia].
  1,2: assert (left = 0) as -> by lia; eexists _, _; split; [done|]; split; [apply same_bytes_refl|];
    left; rewrite Z.add_0_r; do 2 f_equal; symmetry; apply app_nil_r.
  unfold block_chunk. cbv zeta beta iota. set (n := Z.min (BLOCK_SIZE - pos mod BLOCK_SIZE) left).
  pose proof (Z.mod_pos_bound pos BLOCK_SIZE ltac:(done)) as Hmod.
  assert (0 < n ∧ n ≤ left ∧ pos mod BLOCK_SIZE + n ≤ BLOCK_SIZE) as (Hn & Hn1 & Hn2) by (unfold n; lia).
  destruct (read_dev_spec dev (pos / BLOCK_SIZE) w) as (o & w1 & Hrun & Hs & [->|[-> Hf]]); rewrite (bind_Ok _ _ _ _ _ Hrun).
  - unfold advance, wrapping_add. rewrite wrap_small by (unfold is_uint; lia).
    destruct (IH (pos + n) (left - n) (got ++ slice (block_of w dev (pos / BLOCK_SIZE)) (pos mod BLOCK_SIZE) n) w1)
      as (res & w' & Hr & Hs' & Hres); [by eapply same_bytes_ok|lia..|].
    exists res, w'. split; [done|]. split; [by eapply same_bytes_trans|]. rewrite dev_chunk in Hres by (done || lia).
    rewrite !(dev_bytes_same w w1) in Hres by done. rewrite <- app_assoc, <- dev_bytes_app in Hres by lia.
    replace (n + (left - n)) with left in Hres by lia. replace (pos + n + (left - n)) with (pos + left) in Hres by lia.
    assert (got ++ dev_bytes w dev pos n ≠ []) as Hne.
    { intros [_ E]%app_eq_nil. apply (f_equal length) in E. unfold dev_bytes in E. rewrite length_map, length_seqZ in E. simpl in E. lia. }
    destruct Hres as [?|[Hf [[_ ?]|(k & Hk & -> & _)]]]; [by left|by destruct Hne|right].
    split; [intros E; by apply Hf, (sb_working _ _ _ Hs)|]. right. exists (n + k). rewrite (dev_bytes_same w w1) by done.
    rewrite <- app_assoc, <- dev_bytes_app, Z.add_assoc by lia. split; [lia|]. split; [done|]. left. lia.
  - destruct got as [|x got]; (eexists _, w1; split; [done|]; split; [done|]; right; split; [done|]); [by left|right].
    exists 0. rewrite Z.add_0_r. split; [lia|]. split; [|by right]. unfold dev_bytes. simpl. by rewrite app_nil_r.
Qed.
(** ** Writing *)

Definition store (w : World) (dev b off : Z) (src : list Z) : World := write_block w dev b (splice (block_of w dev b) off src).

Lemma modify_dev_run dev b off src w : modify_dev dev b (λ x, splice x off src) w = (Ok (), store w dev b off src).
Proof. done. Qed.

Lemma store_only w dev b off src : only_device w (store w dev b off src) dev.
Proof. split; [by eexists|]. intros d Hd. simpl. by rewrite lookup_insert_ne. Qed.

Lemma store_ok w dev b off src : dev_ok w dev → Forall (is_uint 8) src → 0 ≤ off → off + Z.of_nat (length src) ≤ BLOCK_SIZE →
  dev_ok (store w dev b off src) dev.
Proof. intros Hok Hs Ho He b'. unfold store. rewrite block_of_write. case_decide; [by apply splice_ok|apply Hok]. Qed.

(** One chunk. *)
Lemma dev_byte_store w dev pos src p : dev_ok w dev → 0 ≤ pos → 0 ≤ p → pos mod BLOCK_SIZE + Z.of_nat (length src) ≤ BLOCK_SIZE →
  dev_byte (store w dev (pos / BLOCK_SIZE) (pos mod BLOCK_SIZE) src) dev p =
    if decide (pos ≤ p < pos + Z.of_nat (length src)) then byte_at src (p - pos) else dev_byte w dev p.
Proof.
  intros Hok Hpos Hp Hend. unfold dev_byte, store. rewrite block_of_write.
  pose proof (Z.mod_pos_bound pos BLOCK_SIZE ltac:(done)) as Hm. pose proof (Z.mod_pos_bound p BLOCK_SIZE ltac:(done)) as Hmp.
  pose proof (Z.div_mod p BLOCK_SIZE ltac:(done)) as Hd. pose proof (Z.div_mod pos BLOCK_SIZE ltac:(done)) as Hdp.
  destruct (decide (p / BLOCK_SIZE = pos / BLOCK_SIZE)) as [E|E].
  - rewrite decide_True by done. rewrite byte_at_splice by (apply Hok || lia). rewrite E in Hd.
    case_decide as Hin.
    + rewrite decide_True by lia. f_equal. lia.
    + rewrite decide_False by lia. by rewrite E.
  - rewrite decide_False by (intros [_ ?]; done). rewrite decide_False; [done|]. intros Hin. apply E.
    replace p with (pos + (p - pos)) by lia. apply BlockMap.block_pos; lia.
Qed.

(** [n] bytes of [buf] are on the device, from the [written]-th, which is at [pos]. *)
Record wrote_bytes (w w' : World) (dev pos written n : Z) (buf : list Z) : Prop := {
  wb_only : only_device w w' dev;
  wb_ok : dev_ok w' dev;
  wb_working : working w dev → working w' dev;
  wb_bytes : ∀ p, 0 ≤ p → dev_byte w' dev p =
    if decide (pos ≤ p < pos + (n - written)) then byte_at buf (p - pos + written) else dev_byte w dev p;
}.

Lemma wrote_nothing w w' dev pos written buf : dev_ok w dev → same_bytes w w' dev → wrote_bytes w w' dev pos written written buf.
Proof.
  intros Hok Hs. split; [apply Hs|by eapply same_bytes_ok|apply Hs|]. intros p Hp. rewrite decide_False by lia.
  unfold dev_byte. by rewrite (sb_blocks _ _ _ Hs).
Qed.

Lemma wrote_chunk w w' w'' dev pos written n len buf :
  dev_ok w dev → same_bytes w w' dev → Forall (is_uint 8) buf → 0 ≤ pos → 0 ≤ written → 0 < len → written + len ≤ n → n ≤ Z.of_nat (length buf) →
  pos mod BLOCK_SIZE + len ≤ BLOCK_SIZE →
  let w1 := store w' dev (pos / BLOCK_SIZE) (pos mod BLOCK_SIZE) (slice buf written len) in
  wrote_bytes w1 w'' dev (pos + len) (written + len) n buf → wrote_bytes w w'' dev pos written n buf.
Proof.
  intros Hok Hs Hbuf Hpos Hwr Hlen Hn Hnb Hend w1 [Ho Hok' Hw Hb]. set (src := slice buf written len) in *.
  assert (Z.of_nat (length src) = len) as Hsrc by (apply length_slice; lia). split.
  - eapply only_device_trans; [apply Hs|]. eapply only_device_trans; [apply store_only|exact Ho].
  - done.
  - intros H. apply Hw. unfold working, w1, store. rewrite faults_write. by apply Hs.
  - intros p Hp. rewrite Hb by done. unfold w1. rewrite dev_byte_store by (done || lia || by eapply same_bytes_ok). rewrite Hsrc.
    assert (dev_byte w' dev p = dev_byte w dev p) as -> by (unfold dev_byte; by rewrite (sb_blocks _ _ _ Hs)).
    destruct (decide (pos + len ≤ p < pos + len + (n - (written + len)))) as [H1|H1].
    + rewrite decide_True by lia. f_equal. lia.
    + destruct (decide (pos ≤ p < pos + len)) as [H2|H2].
      * rewrite decide_True by lia. unfold src. rewrite BlockMap.byte_at_slice by lia. f_equal. lia.
      * by rewrite decide_False by lia.
Qed.

Lemma block_write_loop_spec fuel dev pos written buf w :
  dev_ok w dev → Forall (is_uint 8) buf → 0 ≤ pos → 0 ≤ written ≤ Z.of_nat (length buf) →
  Z.of_nat (length buf) - written ≤ Z.of_nat fuel → pos + (Z.of_nat (length buf) - written) < 2 ^ 32 →
  ∃ n res w', block_write_loop fuel dev pos written buf w = (res, w') ∧ written ≤ n ≤ Z.of_nat (length buf) ∧
    wrote_bytes w w' dev pos written n buf ∧
    (n = Z.of_nat (length buf) ∨
     ¬ working w dev ∧ ¬ (pos mod BLOCK_SIZE = 0 ∧ (Z.of_nat (length buf) - written) mod BLOCK_SIZE = 0)) ∧
    res = (if decide (n = 0 ∧ buf ≠ []) then Err IO else Ok (n, pos + (n - written))).
Proof.
  revert pos written w. induction fuel as [|fuel IH]; intros pos written w Hok Hbuf Hpos Hwr Hfuel Hend.
  all: cbn [block_write_loop]; destruct (Z.leb_spec (Z.of_nat (length buf) - written) 0) as [Hz|Hz]; [|try lia].
  1,2: assert (Z.of_nat (length buf) = written) as E by lia; exists written, (Ok (written, pos)), w; split; [done|]; split; [lia|];
    split; [apply wrote_nothing; [done|apply same_bytes_refl]|]; split; [by left|]; rewrite decide_False;
    [by replace (pos + (written - written)) with pos by lia|intros [H0 H1]; destruct buf; [done|simpl in E; lia]].
  unfold block_chunk. cbv zeta beta iota. set (left := Z.of_nat (length buf) - written) in *.
  set (len := Z.min (BLOCK_SIZE - pos mod BLOCK_SIZE) left).
  pose proof (Z.mod_pos_bound pos BLOCK_SIZE ltac:(done)) as Hmod.
  assert (0 < len ∧ len ≤ left ∧ pos mod BLOCK_SIZE + len ≤ BLOCK_SIZE) as (Hn & Hn1 & Hn2) by (unfold len; lia).
  assert (∀ w1, same_bytes w w1 dev → ∃ n res w', 
    (modify_dev dev (pos / BLOCK_SIZE) (λ b, splice b (pos mod BLOCK_SIZE) (slice buf written len));;;
     block_write_loop fuel dev (advance pos len) (written + len) buf) w1 = (res, w') ∧
    written ≤ n ≤ Z.of_nat (length buf) ∧ wrote_bytes w w' dev pos written n buf ∧
    (n = Z.of_nat (length buf) ∨ ¬ working w dev ∧ ¬ (pos mod BLOCK_SIZE = 0 ∧ left mod BLOCK_SIZE = 0)) ∧
    res = (if decide (n = 0 ∧ buf ≠ []) then Err IO else Ok (n, pos + (n - written)))) as Hgo.
  { intros w1 Hs. rewrite (bind_Ok _ _ _ _ _ (modify_dev_run _ _ _ _ w1)). unfold advance, wrapping_add. rewrite wrap_small by (unfold is_uint; lia).
    assert (Z.of_nat (length (slice buf written len)) = len) as Hsl by (apply length_slice; lia).
    destruct (IH (pos + len) (written + len) (store w1 dev (pos / BLOCK_SIZE) (pos mod BLOCK_SIZE) (slice buf written len)))
      as (n & res & w' & Hr & Hnn & Hwb & Hall & Hres); [|done|lia..|].
    { apply store_ok; [by eapply same_bytes_ok|by apply Forall_take, Forall_drop|lia|lia]. }
    exists n, res, w'. split; [done|]. split; [lia|]. split; [eapply wrote_chunk; try done; lia|]. split.
    - destruct Hall as [?|[Hw Hal]]; [by left|right]. split.
      + intros H. apply Hw. unfold working, store. rewrite faults_write. by apply Hs.
      + intros [H1 H2]. apply Hal. unfold len, BLOCK_SIZE in *. split; Z.to_euclidean_division_equations; lia.
    - rewrite Hres. by replace (pos + len + (n - (written + len))) with (pos + (n - written)) by lia. }
  unfold is_full_block. destruct ((pos mod BLOCK_SIZE =? 0) && (len =? BLOCK_SIZE)) eqn:Efull.
  - erewrite bind_Ok by reflexivity. apply Hgo, same_bytes_refl.
  - destruct (read_dev_spec dev (pos / BLOCK_SIZE) w) as (o & w1 & Hrun & Hs & [->|[-> Hf]]); rewrite (bind_Ok _ _ _ _ _ Hrun);
      [by apply Hgo|]. clear Hgo.
    assert (¬ (pos mod BLOCK_SIZE = 0 ∧ left mod BLOCK_SIZE = 0)) as Hal.
    { intros [H1 H2]. rewrite H1 in Efull. simpl in Efull. apply Z.eqb_neq in Efull. apply Efull. unfold len. rewrite H1.
      unfold BLOCK_SIZE in *. Z.to_euclidean_division_equations. lia. }
    destruct (Z.eqb_spec written 0) as [->|Hne].
    + exists 0, (Err IO), w1. split; [done|]. split; [lia|]. split; [by apply wrote_nothing|]. split; [by right|].
      rewrite decide_True; [done|]. split; [done|]. intros ->. simpl in *. lia.
    + exists written, (Ok (written, pos)), w1. split; [done|]. split; [lia|]. split; [by apply wrote_nothing|]. split; [by right|].
      rewrite decide_False by tauto. by replace (pos + (written - written)) with pos by lia.
Qed.

(** C26: A block device is an array of bytes.  Reading gives the bytes from the
    position on, and writing changes exactly those; both move the position by what
    they did, and they stop early only when a block cannot be read, with an error if
    they did nothing.  A write of whole blocks reads none, so it never fails. *)
Theorem block_device_bytes w dev pos :
  dev_ok w dev → 0 ≤ pos →
  (∀ count, 0 ≤ count → pos + count < 2 ^ 32 → ∃ res w', block_read dev pos count w = (res, w') ∧ same_bytes w w' dev ∧
     (res = Ok (dev_bytes w dev pos count, pos + count) ∨
      ¬ working w dev ∧ (res = Err IO ∨ ∃ n, 0 < n < count ∧ res = Ok (dev_bytes w dev pos n, pos + n)))) ∧
  (∀ buf, Forall (is_uint 8) buf → pos + Z.of_nat (length buf) < 2 ^ 32 →
     ∃ n res w', block_write dev pos buf w = (res, w') ∧ 0 ≤ n ≤ Z.of_nat (length buf) ∧ only_device w w' dev ∧ dev_ok w' dev ∧
       (∀ p, 0 ≤ p → dev_byte w' dev p = if decide (pos ≤ p < pos + n) then byte_at buf (p - pos) else dev_byte w dev p) ∧
       (working w dev ∨ pos mod BLOCK_SIZE = 0 ∧ Z.of_nat (length buf) mod BLOCK_SIZE = 0 → n = Z.of_nat (length buf)) ∧
       res = (if decide (n = 0 ∧ buf ≠ []) then Err IO else Ok (n, pos + n))).
Proof.
  intros Hok Hpos. split.
  - intros count Hc Hend. destruct (block_read_loop_spec (Z.to_nat count) dev pos count [] w) as (res & w' & Hr & Hs & Hres); [done|lia..|].
    exists res, w'. split; [done|]. split; [done|]. destruct Hres as [?|[Hw [[? _]|(n & Hn & -> & [Hn0|?])]]]; [by left|by right; auto| |done].
    right. split; [done|]. right. exists n. split; [lia|done].
  - intros buf Hb Hend. destruct (block_write_loop_spec (length buf) dev pos 0 buf w) as (n & res & w' & Hr & Hn & [Ho Hok' _ Hbs] & Hall & Hres); [done|done|lia..|].
    exists n, res, w'. rewrite Z.sub_0_r in *. split_and!; [done|lia|lia|done|done| | |done].
    + intros p Hp. rewrite Hbs by done. by rewrite Z.add_0_r.
    + intros H. destruct Hall as [?|[Hw Ha]]; [done|tauto].
Qed.

(** Two bytes across a block boundary of an empty disk. *)
Lemma block_device_bytes_witness :
  ∃ w', block_write 769 1023 [7; 8] sample_world = (Ok (2, 1025), w') ∧ dev_byte w' 769 1024 = 8.
Proof.
  destruct (block_device_bytes sample_world 769 1023) as [_ Hw]; [intros b; apply sample_world_inv|lia|].
  destruct (Hw [7; 8]) as (n & res & w' & Hr & Hn & _ & _ & Hb & Hall & Hres); [repeat constructor; unfold is_uint; lia|simpl; lia|].
  rewrite (Hall (or_introl eq_refl)) in *. exists w'. split; [rewrite Hr, Hres; reflexivity|]. rewrite Hb by lia. reflexivity.
Defined.
End BlockFile.
