(* ===== verification/Path.v ===== *)
(** * Mounts and path names ([kernel/src/fs/mount.rs], [kernel/src/fs/path.rs])

    The mount table, [resolve_inode], which follows mounts, the parsing of path
    names, permissions, and the resolution of paths to inodes. *)

From S2P Require Import Prelude Task Bitmap Layout Minix BlockMap Directory InodeTable.
From stdpp Require Import gmap.
Open Scope kmonad_scope.
Open Scope Z_scope.

Module Path.
Import Layout Minix InodeTable.

(** ** The mount table *)

Definition MOUNT_TABLE_CAPACITY : nat := 8.
Definition ROOT_INODE_NUMBER : Z := 1.

Definition id_of (w : World) (h : nat) : option InodeId := id <$> inodes w !! h.

Definition insert_mount (m : Mount) : M World (option nat) := λ w,
  match position (λ s : option Mount, negb (bool_decide (is_Some s))) (mounts w) with
  | Some slot => (Ok (Some slot), with_mounts w (<[slot := Some m]> (mounts w)))
  | None => (Ok None, w)
  end.

Definition find_fs (w : World) (dev : Z) : option nat :=
  find_map (λ s, m ← s; if m_device m =? dev then Some (m_file_system m) else None) (mounts w).

Definition mounted_root_at (w : World) (i : InodeId) : option nat :=
  find_map (λ s, m ← s; p ← mount_point_inode m; j ← id_of w p;
                 if decide (j = i) then Some (root_inode m) else None) (mounts w).

Definition mount_point_for_root (w : World) (i : InodeId) : option nat :=
  find_map (λ s, m ← s; j ← id_of w (root_inode m);
                 if decide (j = i) then mount_point_inode m else None) (mounts w).

Definition is_mount_point (w : World) (i : InodeId) : bool := bool_decide (is_Some (mounted_root_at w i)).

Definition remove_by_device (dev : Z) : M World (option Mount) := λ w,
  match position (λ s : option Mount, match s with Some m => m_device m =? dev | None => false end) (mounts w) with
  | Some slot => (Ok (mounts w !! slot ≫= λ o, o), with_mounts w (<[slot := None]> (mounts w)))
  | None => (Ok None, w)
  end.

(** One turn per unit of fuel; [None] when it runs out. *)
Fixpoint resolve_loop (fuel : nat) (current_id : InodeId) : M World (option nat) :=
  match fuel with
  | O => mok None
  | S fuel =>
      w <- mget;;
      k <- mexpect (find_fs w (device current_id));;
      inode <- acquire_raw current_id k;;
      o <- inode_of inode;;
      w <- mget;;
      match mounted_root_at w (id o) with
      | None => mok (Some inode)
      | Some root =>
          r <- inode_of root;;
          release inode;;;
          resolve_loop fuel (id r)
      end
  end.

(** Two turns are enough: no root is a mount point. *)
Definition resolve_inode (i : InodeId) : M World nat :=
  massert (negb (device i =? 0));;;
  o <- resolve_loop 2 i;;
  mexpect o.

(** ** Path names

    A string is its UTF-8 bytes. *)

Definition SLASH : Z := 47.

(** [s.push(b as char)] for the byte [b]. *)
Definition push_char (b : Z) : list Z := if b <? 128 then [b] else [192 + b / 64; 128 + b mod 64].

Definition MAX_PATH_LEN : nat := 256.

(** The name that the bytes at a user address, up to a zero byte, stand for. *)
Definition read_string (user : list Z) (max_len : nat) : list Z :=
  let l := take max_len user in
  concat (map push_char (take (default (length l) (position (Z.eqb 0) l)) l)).

Definition read_pathname (user : list Z) : list Z := read_string user MAX_PATH_LEN.

(** [str::is_char_boundary] and [&s\[..i\]], [&s\[i..\]]; outside a boundary they
    panic. *)
Definition is_char_boundary (s : list Z) (i : nat) : bool :=
  (i =? 0)%nat || match s !! i with Some b => negb (continuation b) | None => (i =? length s)%nat end.

Definition str_to (s : list Z) (i : nat) : option (list Z) :=
  if is_char_boundary s i then Some (take i s) else None.
Definition str_from (s : list Z) (i : nat) : option (list Z) :=
  if is_char_boundary s i then Some (drop i s) else None.

(** [rfind(p)] for a test of characters that only looks for an ASCII one: the
    index where the last such character starts. *)
Definition rfind (p : Z → bool) (s : list Z) : option nat := rposition (λ b, negb (continuation b) && p b) s.

Inductive PathComponent : Set :=
| Current
| Parent
| Name (name : list Z).

Definition from_raw (component : list Z) : PathComponent :=
  if bool_decide (component = Directory.dot) then Current
  else if bool_decide (component = Directory.dotdot) then Parent
  else Name component.

(** [raw.split('/')]. *)
Fixpoint split (s : list Z) : list (list Z) :=
  match s with
  | [] => [[]]
  | b :: s =>
      if b =? SLASH then [] :: split s
      else match split s with
           | c :: l => (b :: c) :: l
           | [] => [[b]]
           end
  end.

(** The iterator [PathComponents], run to its end. *)
Definition components (raw : list Z) : list PathComponent :=
  map from_raw (filter (λ c, c ≠ []) (split raw)).

Definition is_absolute (raw : list Z) : bool := bool_decide (head raw = Some SLASH).
Definition has_trailing_slash (raw : list Z) : bool := bool_decide (last raw = Some SLASH).

(** [None] is a panic. *)
Definition parent_path (raw : list Z) : option (list PathComponent * list Z) :=
  if has_trailing_slash raw then Some (components raw, [])
  else
    let trimmed_end := match rfind (λ b, negb (b =? SLASH)) raw with Some i => S i | None => 0%nat end in
    without_trailing_separators ← str_to raw trimmed_end;
    let basename_start :=
      match rfind (Z.eqb SLASH) without_trailing_separators with Some i => S i | None => 0%nat end in
    parent ← str_to raw basename_start;
    basename ← str_from without_trailing_separators basename_start;
    Some (components parent, basename).

(** ** Permissions *)

Definition MAY_EXEC : Z := 1.
Definition MAY_WRITE : Z := 2.
Definition MAY_READ : Z := 4.

Definition check_permission_as (d : DiskInode) (mask uid gid : Z) : bool :=
  if link_count d =? 0 then false
  else
    let mode := if uid =? user_id d then Z.shiftr (mode d) 6
                else if gid =? group_id d then Z.shiftr (mode d) 3
                else mode d in
    (Z.land (Z.land mode mask) 7 =? mask) || (uid =? 0).

Definition check_permission (h : nat) (mask : Z) : M World bool :=
  w <- mget;;
  o <- inode_of h;;
  mok (check_permission_as (disk_inode (i_inner o)) mask (Task.euid (identity w)) (Task.egid (identity w))).

Definition inode_type (h : nat) : M World InodeType :=
  o <- inode_of h;;
  mexpect (file_type (mode (disk_inode (i_inner o)))).

(** Whether the inode is a directory that the task may search. *)
Definition searchable (h : nat) : M World bool :=
  t <- inode_type h;;
  if decide (t = Layout.Directory) then check_permission h MAY_EXEC else mok false.

(** ** Resolution

    The calls give handles that the caller holds. *)

(** [dir.lookup(name).ok()??]. *)
Definition lookup_name (dir : nat) (name : list Z) : M World (option Z) :=
  r <- mtry (on_inode dir (Directory.lookup name));;
  mok (match r with inl o => o | inr _ => None end).

Definition resolve_dotdot (current_inode root_inode : nat) : M World (option nat) :=
  c <- inode_of current_inode;;
  r <- inode_of root_inode;;
  if decide (id c = id r) then hold root_inode;;; mok (Some root_inode)
  else
    w <- mget;;
    let parent_lookup_base := default current_inode (mount_point_for_root w (id c)) in
    hold parent_lookup_base;;;
    o <- lookup_name parent_lookup_base Directory.dotdot;;
    match o with
    | None => release parent_lookup_base;;; mok None
    | Some parent_inode_number =>
        b <- inode_of parent_lookup_base;;
        h <- resolve_inode (mkId (device (id b)) parent_inode_number);;
        release parent_lookup_base;;;
        mok (Some h)
    end.

(** The loop of [resolve_parent]; it holds [current_inode]. *)
Fixpoint walk (l : list PathComponent) (root_inode current_inode : nat) : M World (option nat) :=
  match l with
  | [] => mok (Some current_inode)
  | component :: l =>
      b <- searchable current_inode;;
      if negb b then release current_inode;;; mok None
      else
        match component with
        | Current => walk l root_inode current_inode
        | Parent =>
            o <- resolve_dotdot current_inode root_inode;;
            release current_inode;;;
            match o with
            | None => mok None
            | Some h => walk l root_inode h
            end
        | Name name =>
            o <- lookup_name current_inode name;;
            match o with
            | None => release current_inode;;; mok None
            | Some child_inum =>
                c <- inode_of current_inode;;
                h <- resolve_inode (mkId (device (id c)) child_inum);;
                release current_inode;;;
                walk l root_inode h
            end
        end
  end.

(** The directory, and the last component. *)
Definition resolve_parent (path : list Z) : M World (option (nat * list Z)) :=
  match path with
  | [] => mok None
  | _ =>
      w <- mget;;
      match Task.root_directory (fs w) with
      | None => mok None
      | Some root_inode =>
          match (if is_absolute path then Some root_inode else Task.current_directory (fs w)) with
          | None => mok None
          | Some start =>
              p <- mexpect (parent_path path);;
              hold start;;;
              o <- walk p.1 root_inode start;;
              match o with
              | None => mok None
              | Some dir =>
                  b <- (if bool_decide (p.2 = []) then mok true else searchable dir);;
                  if b : bool then mok (Some (dir, p.2)) else release dir;;; mok None
              end
          end
      end
  end.

Definition resolve_path (path : list Z) : M World (option nat) :=
  o <- resolve_parent path;;
  match o with
  | None => mok None
  | Some (dir, basename) =>
      r <- (if bool_decide (basename = []) then mok (Some dir)
            else
              o <- lookup_name dir basename;;
              match o with
              | None => release dir;;; mok None
              | Some inum =>
                  d <- inode_of dir;;
                  h <- resolve_inode (mkId (device (id d)) inum);;
                  release dir;;;
                  mok (Some h)
              end);;
      match r with
      | None => mok None
      | Some inode => on_inode inode touch_access;;; mok (Some inode)
      end
  end.

(** ** Parsing *)

(** The characters of a name that a user passes, and the parts of a path. *)
Definition user_chars (user : list Z) : list Z :=
  let l := take MAX_PATH_LEN user in take (default (length l) (position (Z.eqb 0) l)) l.

Definition parts (raw : list Z) : list (list Z) := filter (λ c, c ≠ []) (split raw).

Lemma read_pathname_chars user : read_pathname user = concat (map push_char (user_chars user)).
Proof. done. Qed.

Lemma components_parts raw : components raw = map from_raw (parts raw).
Proof. done. Qed.

Lemma split_nonempty s : split s ≠ [].
Proof. destruct s as [|b s]; simpl; [done|]. destruct (b =? SLASH); [done|]. by destruct (split s). Qed.

Lemma split_app s1 s2 :
  split (s1 ++ SLASH :: s2) = split s1 ++ split s2.
Proof.
  induction s1 as [|b s1 IH]; [done|]. cbn [app split]. rewrite IH.
  destruct (b =? SLASH); [done|]. destruct (split s1) eqn:E; [by destruct (split_nonempty s1)|done].
Qed.

Lemma split_plain s : SLASH ∉ s → split s = [s].
Proof.
  induction s as [|b s IH]; intros Hs; [done|]. apply not_elem_of_cons in Hs as [Hb Hs]. cbn [split].
  rewrite IH by done. by rewrite (proj2 (Z.eqb_neq b SLASH)).
Qed.

Lemma parts_slash s1 s2 : parts (s1 ++ SLASH :: s2) = parts s1 ++ parts s2.
Proof. unfold parts. rewrite split_app. apply filter_app. Qed.

Lemma parts_plain s : SLASH ∉ s → s ≠ [] → parts s = [s].
Proof. intros Hs Hne. unfold parts. rewrite split_plain by done. rewrite filter_cons, decide_True by done. done. Qed.

Lemma parts_no_slash s c : c ∈ parts s → c ≠ [] ∧ SLASH ∉ c.
Proof.
  unfold parts. intros [Hne Hc]%list_elem_of_filter. split; [done|]. clear Hne. revert c Hc.
  induction s as [|b s IH]; intros c; cbn [split].
  - intros ->%list_elem_of_singleton. by intros ?%elem_of_nil.
  - destruct (Z.eqb_spec b SLASH) as [->|Hb].
    + intros [->|Hc]%elem_of_cons; [by intros ?%elem_of_nil|by apply IH].
    + destruct (split s) as [|x l] eqn:E; [by destruct (split_nonempty s)|].
      intros [->|Hc]%elem_of_cons; [|apply IH; by right].
      intros [?|Hx]%elem_of_cons; [done|]. by apply (IH x); [left|].
Qed.

(** *** UTF-8 of Latin-1 characters *)

Lemma push_char_small b : b < 128 → push_char b = [b].
Proof. intros Hb. unfold push_char. by rewrite (proj2 (Z.ltb_lt _ _)). Qed.

Lemma push_char_large b : 128 ≤ b < 256 → ∃ x y, push_char b = [x; y] ∧ continuation x = false ∧ continuation y = true ∧
  x ≠ SLASH ∧ y ≠ SLASH.
Proof.
  intros Hb. unfold push_char. rewrite (proj2 (Z.ltb_ge _ _)) by lia. eexists _, _. split; [done|].
  pose proof (Z.mod_pos_bound b 64 ltac:(lia)). assert (2 ≤ b / 64 ≤ 3) by (Z.to_euclidean_division_equations; lia).
  unfold continuation, in_range, SLASH. split_and!; [|apply andb_true_iff; rewrite !Z.leb_le; lia|lia..].
  apply andb_false_iff. right. apply Z.leb_gt. lia.
Qed.

Lemma plain_continuation b : is_uint 8 b → b < 128 → continuation b = false.
Proof. intros [H0 _] Hb. unfold continuation, in_range. apply andb_false_iff. left. apply Z.leb_gt. lia. Qed.

(** The encoding of characters starts at a boundary, and a slash in it is one of
    the characters. *)
Lemma encoded_head l : Forall (is_uint 8) l → match concat (map push_char l) with b :: _ => continuation b = false | [] => True end.
Proof.
  intros Hl. destruct Hl as [|b l Hb Hl]; [done|]. cbn [map concat]. destruct (decide (b < 128)) as [Hs|Hs].
  - rewrite push_char_small by done. by apply plain_continuation.
  - destruct (push_char_large b) as (x & y & -> & ? & _); [unfold is_uint in Hb; lia|done].
Qed.

Lemma encoded_slash l : Forall (is_uint 8) l → (SLASH ∈ concat (map push_char l) ↔ SLASH ∈ l).
Proof.
  intros Hl. induction Hl as [|b l Hb Hl IH]; [done|]. cbn [map concat]. rewrite elem_of_app, elem_of_cons, IH.
  assert (SLASH ∈ push_char b ↔ SLASH = b) as ->; [|done]. destruct (decide (b < 128)) as [Hs|Hs].
  - rewrite push_char_small by done. apply list_elem_of_singleton.
  - destruct (push_char_large b) as (x & y & -> & _ & _ & Hx & Hy); [unfold is_uint in Hb; lia|].
    rewrite !elem_of_cons, elem_of_nil. unfold SLASH in *. intuition congruence || lia.
Qed.

Lemma str_split_at s1 s2 :
  match s2 with b :: _ => continuation b = false | [] => True end →
  str_to (s1 ++ s2) (length s1) = Some s1 ∧ str_from (s1 ++ s2) (length s1) = Some s2.
Proof.
  intros Hs2. unfold str_to, str_from. assert (is_char_boundary (s1 ++ s2) (length s1) = true) as ->.
  { unfold is_char_boundary. apply orb_true_iff. right. rewrite lookup_app_r, Nat.sub_diag by done.
    destruct s2 as [|b s2]; simpl; [rewrite app_nil_r; apply Nat.eqb_refl|by rewrite Hs2]. }
  by rewrite take_app_length, drop_app_length.
Qed.

Lemma rposition_last {A} (p : A → bool) l x : p x = true → rposition p (l ++ [x]) = Some (length l).
Proof. intros Hp. induction l as [|y l IH]; simpl; [by rewrite Hp|]. by rewrite IH. Qed.

Lemma rposition_mid {A} (p : A → bool) l x l' :
  p x = true → (∀ y, y ∈ l' → p y = false) → rposition p (l ++ x :: l') = Some (length l).
Proof.
  intros Hp Hl. induction l as [|y l IH]; simpl; [|by rewrite IH].
  rewrite (proj2 (rposition_None p l') Hl). by rewrite Hp.
Qed.

Section encoded.
Context (l : list Z) (Hl : Forall (is_uint 8) l).
Let raw : list Z := concat (map push_char l).

Lemma encoded_snoc l' b : l = l' ++ [b] → raw = concat (map push_char l') ++ push_char b.
Proof. unfold raw. intros ->. rewrite map_app, concat_app. simpl. by rewrite app_nil_r. Qed.

Lemma parent_path_slash l' : l = l' ++ [SLASH] → parent_path raw = Some (components raw, []).
Proof.
  intros E. unfold parent_path, has_trailing_slash. rewrite bool_decide_eq_true_2; [done|].
  rewrite (encoded_snoc _ _ E). apply last_snoc.
Qed.

Lemma parent_path_wide l' b : l = l' ++ [b] → 128 ≤ b → parent_path raw = None.
Proof using Hl.
  intros E Hb. assert (is_uint 8 b) as Hu by (rewrite E in Hl; apply Forall_app in Hl as [_ H]; by inversion H).
  destruct (push_char_large b) as (x & y & Ep & Hx & Hy & Hxs & Hys); [unfold is_uint in Hu; lia|].
  pose proof (encoded_snoc _ _ E) as Er. rewrite Ep in Er. rewrite Er. set (r := concat (map push_char l')).
  unfold parent_path, has_trailing_slash. rewrite bool_decide_eq_false_2.
  2:{ change [x; y] with ([x] ++ [y]). rewrite app_assoc, last_snoc. by intros [= ->]. }
  unfold rfind. rewrite rposition_mid.
  - unfold str_to, is_char_boundary. rewrite lookup_app_r by lia.
    replace (S (length r) - length r)%nat with 1%nat by lia. simpl. by rewrite Hy.
  - rewrite Hx, (proj2 (Z.eqb_neq _ _) Hxs). done.
  - intros z ->%list_elem_of_singleton. by rewrite Hy.
Qed.

Lemma parent_path_plain l' b : l = l' ++ [b] → b < 128 → b ≠ SLASH →
  ∃ init base, parts raw = init ++ [base] ∧ parent_path raw = Some (map from_raw init, base).
Proof using Hl.
  intros E Hb Hne. assert (is_uint 8 b) as Hu by (rewrite E in Hl; apply Forall_app in Hl as [_ H]; by inversion H).
  pose proof (encoded_snoc _ _ E) as Er. rewrite push_char_small in Er by done.
  pose proof (plain_continuation b Hu Hb) as Hc.
  assert (raw ≠ []) as Hraw by (rewrite Er; by destruct (concat (map push_char l'))).
  unfold parent_path, has_trailing_slash. rewrite bool_decide_eq_false_2 by (rewrite Er, last_snoc; congruence).
  assert (rfind (λ b, negb (b =? SLASH)) raw = Some (length (concat (map push_char l')))) as ->.
  { rewrite Er. apply rposition_last. by rewrite Hc, (proj2 (Z.eqb_neq _ _) Hne). }
  assert (str_to raw (S (length (concat (map push_char l')))) = Some raw) as ->.
  { pose proof (str_split_at raw [] I) as [H _]. rewrite app_nil_r in H. rewrite <- H. f_equal. rewrite Er, length_app. simpl. lia. }
  cbn [mbind option_bind].
  destruct (decide (SLASH ∈ l)) as [Hs|Hs].
  - apply list_elem_of_split_r in Hs as (l1 & l2 & El & Hl2).
    assert (raw = (concat (map push_char l1) ++ [SLASH]) ++ concat (map push_char l2)) as Er2.
    { unfold raw. rewrite El, map_app, concat_app. simpl. by rewrite <- app_assoc. }
    assert (Forall (is_uint 8) l2) as Hu2 by (rewrite El in Hl; apply Forall_app in Hl as [_ H]; by inversion H).
    set (r1 := concat (map push_char l1)) in *. set (r2 := concat (map push_char l2)) in *.
    assert (SLASH ∉ r2) as Hr2 by (unfold r2; by rewrite encoded_slash).
    assert (rfind (Z.eqb SLASH) raw = Some (length r1)) as ->.
    { rewrite Er2, <- app_assoc. apply rposition_mid; [done|]. intros y Hy.
      apply andb_false_iff. right. apply Z.eqb_neq. by intros <-. }
    assert (S (length r1) = length (r1 ++ [SLASH])) as -> by (rewrite length_app; simpl; lia).
    pose proof (encoded_head l2 Hu2) as Hh. fold r2 in Hh.
    destruct (str_split_at (r1 ++ [SLASH]) r2 Hh) as [E1 E2]. rewrite Er2, E1. cbn [mbind option_bind]. rewrite E2.
    cbn [mbind option_bind]. exists (parts r1), r2. rewrite <- app_assoc. cbn [app].
    rewrite components_parts, !parts_slash. unfold parts at 4. simpl. rewrite app_nil_r. split; [|done].
    rewrite (parts_plain r2); [done|done|]. intros E0. rewrite Er2, E0, app_nil_r in Er.
    apply app_inj_tail in Er as [_ Er]. congruence.
  - assert (SLASH ∉ raw) as Hr by (unfold raw; by rewrite encoded_slash).
    assert (rfind (Z.eqb SLASH) raw = None) as ->.
    { apply rposition_None. intros y Hy. apply andb_false_iff. right. apply Z.eqb_neq. by intros <-. }
    pose proof (encoded_head l Hl) as Hh. fold raw in Hh.
    destruct (str_split_at [] raw Hh) as [E1 E2]. simpl in E1, E2. rewrite E1. cbn [mbind option_bind]. rewrite E2.
    cbn [mbind option_bind]. exists [], raw. split; [by apply parts_plain|done].
Qed.
End encoded.

Lemma user_chars_uint user : Forall (is_uint 8) user → Forall (is_uint 8) (user_chars user).
Proof. intros. unfold user_chars. by apply Forall_take, Forall_take. Qed.

(** C13: Path names.  The parts of a path are the nonempty pieces between slashes:
    repeated slashes do not matter.  A path that ends in a slash has all its parts
    as directories and an empty last name; otherwise the last part is the name.
    But a byte from 128 on, which becomes a character of two bytes, panics the
    kernel when it is the last of a path that a user passes. *)
Theorem path_parsing user :
  Forall (is_uint 8) user →
  let raw := read_pathname user in
  match last (user_chars user) with
  | None => raw = []
  | Some b =>
      if b =? SLASH then parent_path raw = Some (map from_raw (parts raw), [])
      else if 128 <=? b then parent_path raw = None
      else ∃ init base, parts raw = init ++ [base] ∧ parent_path raw = Some (map from_raw init, base)
  end ∧
  (∀ c, c ∈ parts raw → c ≠ [] ∧ SLASH ∉ c) ∧
  (∀ s1 s2, parts (s1 ++ SLASH :: s2) = parts s1 ++ parts s2) ∧
  (∀ s, SLASH ∉ s → s ≠ [] → parts s = [s]).
Proof.
  intros Hu%user_chars_uint raw. split_and!; [|intros c; apply parts_no_slash|apply parts_slash|apply parts_plain].
  unfold raw. rewrite read_pathname_chars. destruct (list_snoc_case (user_chars user)) as [E|(l' & b & E)].
  - by rewrite E.
  - replace (last (user_chars user)) with (Some b) by (by rewrite E, last_snoc). destruct (Z.eqb_spec b SLASH) as [->|Hne].
    + rewrite <- components_parts. by eapply parent_path_slash.
    + destruct (Z.leb_spec 128 b); [by eapply parent_path_wide|by eapply parent_path_plain].
Qed.

(** The path [a/] followed by [é] in UTF-8. *)
Lemma path_parsing_witness : parent_path (read_pathname [97; 47; 195; 169]) = None.
Proof.
  assert (Forall (is_uint 8) [97; 47; 195; 169]) as Hu by (repeat constructor; unfold is_uint; lia).
  destruct (path_parsing [97; 47; 195; 169] Hu) as (H & _). exact H.
Defined.
End Path.
