(* ===== verification/Calls.v ===== *)
(** * System calls on paths ([kernel/src/syscall/handler/fs/path.rs], [mount.rs])

    Creation and removal of names, the calls that change inodes, the working and
    root directories, mounting; with [stat] and the creation of inodes from
    [kernel/src/fs/minix.rs] and [mount_root] from [kernel/src/fs/mod.rs]. *)

From S2P Require Import Prelude Task Bitmap Layout Minix BlockMap Directory InodeTable Path.
From stdpp Require Import gmap.
Open Scope kmonad_scope.
Open Scope Z_scope.

Module Calls.
Import Layout Minix InodeTable Path.

(** A call; when it returns, its local variables are dropped. *)
Definition call {A} (m : M World A) : M World A := λ w,
  let '(r, w') := m w in (r, with_held w' []).

Definition or_err {A} (m : M World (option A)) (e : Errno) : M World A := o <- m;; mok_or o e.

(** ** Inode fields *)

Definition set_mode (m : Z) (d : DiskInode) : DiskInode :=
  mkDiskInode m (user_id d) (size d) (modification_time d) (group_id d) (link_count d) (direct_zones d)
    (single_indirect_zone d) (double_indirect_zone d).
Definition set_owner (u g : Z) (d : DiskInode) : DiskInode :=
  mkDiskInode (mode d) u (size d) (modification_time d) g (link_count d) (direct_zones d)
    (single_indirect_zone d) (double_indirect_zone d).
Definition set_links (f : Z → Z) (d : DiskInode) : DiskInode :=
  mkDiskInode (mode d) (user_id d) (size d) (modification_time d) (group_id d) (f (link_count d)) (direct_zones d)
    (single_indirect_zone d) (double_indirect_zone d).

Definition zero_links : Z → Z := λ _, 0.
Definition one_more : Z → Z := λ l, as_u8 (l + 1).
Definition one_less : Z → Z := λ l, as_u8 (l - 1).

Definition touch_created : M St () :=
  t <- mgets now;;
  set_disk (set_mtime t);;;
  mmodify (λ s, with_inner s (mkInner (disk_inode (inner s)) true t t)).

Definition set_access_and_modified (access_time modification_time : Z) : M St () :=
  mmodify (λ s, with_inner s (mkInner (disk_inode (inner s)) (is_dirty (inner s)) access_time (change_time (inner s))));;;
  set_disk (set_mtime modification_time);;;
  touch_change.

Definition disk_of (h : nat) : M World DiskInode :=
  o <- inode_of h;; mok (disk_inode (i_inner o)).

Definition device_number (h : nat) : M World Z :=
  d <- disk_of h;;
  t <- mexpect (file_type (mode d));;
  massert (bool_decide (t = BlockDevice) || bool_decide (t = CharacterDevice));;;
  mexpect (direct_zones d !! 0%nat).

(** [x as i32] of a 32-bit [x]. *)
Definition as_i32 (x : Z) : Z := if as_u32 x <? 2 ^ 31 then as_u32 x else as_u32 x - 2 ^ 32.

Record Stat : Type := mkStat {
  st_dev : Z; st_ino : Z; st_mode : Z; st_nlink : Z; st_uid : Z; st_gid : Z; st_rdev : Z;
  st_size : Z; st_atime : Z; st_mtime : Z; st_ctime : Z;
}.

Definition stat (h : nat) : M World Stat :=
  o <- inode_of h;;
  let d := disk_inode (i_inner o) in
  t <- mexpect (file_type (mode d));;
  let st_rdev := if bool_decide (t = BlockDevice) || bool_decide (t = CharacterDevice)
                 then default 0 (direct_zones d !! 0%nat) else 0 in
  mok (mkStat (device (id o)) (inumber (id o)) (mode d) (link_count d) (user_id d) (group_id d) st_rdev
         (as_i32 (size d)) (as_i32 (access_time (i_inner o))) (as_i32 (modification_time d))
         (as_i32 (change_time (i_inner o)))).

(** ** Creation *)

Definition alloc_and_link (dir : nat) (name : list Z) (type_bits m links : Z) : M World nat :=
  d <- inode_of dir;;
  w <- mget;;
  if negb (alive w (file_system d)) then merr IO
  else
    inode_number <- or_err (alloc_inode (file_system d)) NOSPC;;
    inode <- acquire_raw (mkId (device (id d)) inode_number) (file_system d);;
    w <- mget;;
    on_inode inode (
      set_disk (set_mode (Z.lor type_bits (Z.land (Z.land m 511) (unot 16 (Task.umask (fs w))))));;;
      set_disk (set_owner (Task.euid (identity w)) (as_u8 (Task.egid (identity w))));;;
      set_disk (set_links (λ _, links));;;
      touch_created);;;
    r <- mtry (on_inode dir (Directory.add_entry name inode_number));;
    match r with
    | inr e => on_inode inode (set_disk (set_links zero_links);;; touch_change);;; merr e
    | inl _ => mok inode
    end.

Definition create_file (dir : nat) (name : list Z) (m : Z) : M World nat := alloc_and_link dir name 32768 m 1.

Definition create_device (dir : nat) (name : list Z) (type_bits m dev : Z) : M World nat :=
  inode <- alloc_and_link dir name type_bits m 1;;
  on_inode inode (set_disk (λ d, set_direct (zupdate (direct_zones d) 0 dev) d);;; touch_change);;;
  mok inode.

Definition create_directory (dir : nat) (name : list Z) (m : Z) : M World nat :=
  inode <- alloc_and_link dir name 16384 m 2;;
  i <- inode_of inode;;
  d <- inode_of dir;;
  on_inode inode (Directory.add_entry Directory.dot (inumber (id i)));;;
  on_inode inode (Directory.add_entry Directory.dotdot (inumber (id d)));;;
  on_inode dir (set_disk (set_links one_more);;; touch_change);;;
  mok inode.

(** ** Handlers of [path.rs] *)

(** The parent of a path with a last component, and write permission on it. *)
Definition parent_of (path : list Z) (e : Errno) : M World (nat * list Z) :=
  p <- or_err (resolve_parent path) e;;
  if bool_decide (p.2 = []) then merr e else mok p.

Definition may_write (dir : nat) : M World () :=
  b <- check_permission dir MAY_WRITE;;
  if b : bool then mok () else merr ACCESS.

Definition no_entry (dir : nat) (name : list Z) : M World () :=
  o <- on_inode dir (Directory.lookup name);;
  match o with Some _ => merr EXIST | None => mok () end.

Definition child_of (dir : nat) (inum : Z) : M World nat :=
  d <- inode_of dir;; resolve_inode (mkId (device (id d)) inum).

Definition sys_stat (path : list Z) : M World Stat := call (
  inode <- or_err (resolve_path (read_pathname path)) NOENT;;
  stat inode).

Definition sys_link (oldname newname : list Z) : M World Z := call (
  old_inode <- or_err (resolve_path (read_pathname oldname)) NOENT;;
  t <- inode_type old_inode;;
  if decide (t = Layout.Directory) then merr PERM
  else
    p <- parent_of (read_pathname newname) ACCESS;;
    let '(dir, basename) := p in
    d <- inode_of dir;;
    o <- inode_of old_inode;;
    if negb (device (id d) =? device (id o)) then merr XDEV
    else
      may_write dir;;;
      no_entry dir basename;;;
      on_inode dir (Directory.add_entry basename (inumber (id o)));;;
      on_inode old_inode (set_disk (set_links one_more);;; touch_change);;;
      mok 0).

Definition sys_unlink (path : list Z) : M World Z := call (
  p <- parent_of (read_pathname path) NOENT;;
  let '(dir, basename) := p in
  may_write dir;;;
  inum <- or_err (on_inode dir (Directory.lookup basename)) NOENT;;
  inode <- child_of dir inum;;
  t <- inode_type inode;;
  if decide (t = Layout.Directory) then merr ISDIR
  else
    _ <- on_inode dir (Directory.remove_entry basename);;
    on_inode inode (set_disk (set_links one_less);;; touch_change);;;
    mok 0).

Definition set_cwd (h : nat) (c : Task.TaskFileSystemContext) : Task.TaskFileSystemContext :=
  Task.mkFs (Task.umask c) (Task.root_directory c) (Some h) (Task.executable_inode c)
    (Task.close_on_exec c) (Task.open_files c).
Definition set_root (h : nat) (c : Task.TaskFileSystemContext) : Task.TaskFileSystemContext :=
  Task.mkFs (Task.umask c) (Some h) (Task.current_directory c) (Task.executable_inode c)
    (Task.close_on_exec c) (Task.open_files c).

Definition sys_chdir (path : list Z) : M World Z := call (
  inode <- or_err (resolve_path (read_pathname path)) NOENT;;
  t <- inode_type inode;;
  if negb (bool_decide (t = Layout.Directory)) then merr NOTDIR
  else
    b <- check_permission inode MAY_EXEC;;
    if negb b then merr ACCESS
    else mmodify (λ w, with_fs w (set_cwd inode (fs w)));;; mok 0).

Definition sys_chroot (path : list Z) : M World Z := call (
  inode <- or_err (resolve_path (read_pathname path)) NOENT;;
  t <- inode_type inode;;
  if negb (bool_decide (t = Layout.Directory)) then merr NOTDIR
  else mmodify (λ w, with_fs w (set_root inode (fs w)));;; mok 0).

Definition sys_mkdir (path : list Z) (m : Z) : M World Z := call (
  p <- parent_of (read_pathname path) NOENT;;
  let '(dir, basename) := p in
  may_write dir;;;
  no_entry dir basename;;;
  _ <- create_directory dir basename (as_u16 m);;
  mok 0).

Definition is_superuser : M World bool := mgets (λ w, Task.euid (identity w) =? 0).

Definition sys_mknod (path : list Z) (m dev : Z) : M World Z := call (
  su <- is_superuser;;
  if negb su then merr PERM
  else
    p <- parent_of (read_pathname path) NOENT;;
    let '(dir, basename) := p in
    may_write dir;;;
    no_entry dir basename;;;
    let type_bits := Z.land (as_u16 m) TYPE_MASK in
    if negb (type_bits =? 24576) && negb (type_bits =? 8192) then merr INVAL
    else
      _ <- create_device dir basename type_bits (Z.land (as_u16 m) 4095) (as_u16 dev);;
      mok 0).

Definition sys_rmdir (path : list Z) : M World Z := call (
  p <- parent_of (read_pathname path) NOENT;;
  let '(dir, basename) := p in
  may_write dir;;;
  inum <- or_err (on_inode dir (Directory.lookup basename)) NOENT;;
  inode <- child_of dir inum;;
  t <- inode_type inode;;
  if negb (bool_decide (t = Layout.Directory)) then merr NOTDIR
  else
    e <- on_inode inode Directory.is_empty_directory;;
    if negb e then merr NOTEMPTY
    else
      _ <- on_inode dir (Directory.remove_entry basename);;
      on_inode inode (set_disk (set_links zero_links);;; touch_change);;;
      on_inode dir (set_disk (set_links one_less);;; touch_modified);;;
      mok 0).

Definition sys_chmod (path : list Z) (m : Z) : M World Z := call (
  inode <- or_err (resolve_path (read_pathname path)) NOENT;;
  w <- mget;;
  d <- disk_of inode;;
  if negb (Task.euid (identity w) =? user_id d) && negb (Task.euid (identity w) =? 0) then merr ACCESS
  else
    on_inode inode (
      set_disk (λ d, set_mode (Z.lor (Z.land (as_u16 m) 4095) (Z.land (mode d) (unot 16 4095))) d);;;
      touch_change);;;
    mok 0).

Definition sys_chown (path : list Z) (uid gid : Z) : M World Z := call (
  su <- is_superuser;;
  if negb su then merr ACCESS
  else
    inode <- or_err (resolve_path (read_pathname path)) NOENT;;
    on_inode inode (set_disk (set_owner (as_u16 uid) (as_u8 gid));;; touch_change);;;
    mok 0).

Definition sys_access (path : list Z) (m : Z) : M World Z := call (
  inode <- or_err (resolve_path (read_pathname path)) ACCESS;;
  w <- mget;;
  d <- disk_of inode;;
  if check_permission_as d (Z.land (as_u16 m) 7) (Task.uid (identity w)) (Task.gid (identity w))
  then mok 0 else merr ACCESS).

(** [times] is what the user's structure holds, if the pointer is not null. *)
Definition sys_utime (path : list Z) (times : option (Z * Z)) : M World Z := call (
  inode <- or_err (resolve_path (read_pathname path)) NOENT;;
  w <- mget;;
  let '(actime, modtime) := default (time w, time w) times in
  on_inode inode (set_access_and_modified (as_u32 actime) (as_u32 modtime));;;
  mok 0).

(** *** [rename] *)

Definition MAX_PATH_DEPTH : nat := 256.

(** The walk from [cursor] up to the root: [INVAL] when it meets the inode that
    is to be moved.  The cursor of every turn is held to the end of the turn. *)
Fixpoint check_not_below (fuel : nat) (old_inode : nat) (old_inum : Z) (cursor : nat) : M World () :=
  match fuel with
  | O => release cursor
  | S fuel =>
      c <- inode_of cursor;;
      o <- inode_of old_inode;;
      if (device (id c) =? device (id o)) && (inumber (id c) =? old_inum) then merr INVAL
      else
        parent_inum <- or_err (on_inode cursor (Directory.lookup Directory.dotdot)) IO;;
        if parent_inum =? inumber (id c) then release cursor
        else
          h <- child_of cursor parent_inum;;
          release cursor;;;
          check_not_below fuel old_inode old_inum h
  end.

Definition splittable (path : list Z) : M World (nat * list Z) :=
  p <- or_err (resolve_parent (read_pathname path)) NOENT;;
  if bool_decide (p.2 = []) || bool_decide (p.2 = Directory.dot) || bool_decide (p.2 = Directory.dotdot)
  then merr INVAL else mok p.

(** The destination exists: it is emptied of its name. *)
Definition displace (old_is_dir : bool) (new_dir : nat) (new_base : list Z) (new_inum : Z) : M World () :=
  new_inode <- child_of new_dir new_inum;;
  t <- inode_type new_inode;;
  let new_is_dir := bool_decide (t = Layout.Directory) in
  if old_is_dir && negb new_is_dir then merr NOTDIR
  else if negb old_is_dir && new_is_dir then merr ISDIR
  else
    e <- (if new_is_dir then on_inode new_inode Directory.is_empty_directory else mok true);;
    if negb e then merr NOTEMPTY
    else
      _ <- on_inode new_dir (Directory.remove_entry new_base);;
      (if new_is_dir
       then on_inode new_inode (set_disk (set_links zero_links);;; touch_change);;;
            on_inode new_dir (set_disk (set_links one_less);;; touch_modified)
       else on_inode new_inode (set_disk (set_links one_less);;; touch_change));;;
      release new_inode.

(** A directory that changes its parent. *)
Definition rewire (old_inode old_dir new_dir : nat) : M World () :=
  n <- inode_of new_dir;;
  _ <- on_inode old_inode (Directory.remove_entry Directory.dotdot);;
  on_inode old_inode (Directory.add_entry Directory.dotdot (inumber (id n)));;;
  on_inode old_dir (set_disk (set_links one_less);;; touch_modified);;;
  on_inode new_dir (set_disk (set_links one_more);;; touch_modified).

Definition sys_rename (oldname newname : list Z) : M World Z := call (
  op <- splittable oldname;;
  let '(old_dir, old_base) := op in
  np <- splittable newname;;
  let '(new_dir, new_base) := np in
  od <- inode_of old_dir;;
  nd <- inode_of new_dir;;
  if negb (device (id od) =? device (id nd)) then merr XDEV
  else
    may_write old_dir;;;
    may_write new_dir;;;
    old_inum <- or_err (on_inode old_dir (Directory.lookup old_base)) NOENT;;
    old_inode <- child_of old_dir old_inum;;
    t <- inode_type old_inode;;
    let old_is_dir := bool_decide (t = Layout.Directory) in
    let same_parent := inumber (id od) =? inumber (id nd) in
    if same_parent && bool_decide (old_base = new_base) then mok 0
    else
      existing <- on_inode new_dir (Directory.lookup new_base);;
      if bool_decide (existing = Some old_inum) then mok 0
      else
        (if old_is_dir && negb same_parent
         then hold new_dir;;; check_not_below MAX_PATH_DEPTH old_inode old_inum new_dir
         else mok ());;;
        o <- on_inode new_dir (Directory.lookup new_base);;
        match o with
        | Some new_inum => displace old_is_dir new_dir new_base new_inum
        | None => mok ()
        end;;;
        on_inode new_dir (Directory.add_entry new_base old_inum);;;
        _ <- on_inode old_dir (Directory.remove_entry old_base);;
        (if old_is_dir && negb same_parent then rewire old_inode old_dir new_dir else mok ());;;
        on_inode old_inode touch_change;;;
        mok 0).

Record Ustat : Type := mkUstat { f_blocks : Z; f_bfree : Z; f_files : Z; f_ffree : Z }.

Definition count_free (b : Bitmap.Bitmap) : M World nat := λ w, ((Bitmap.count_free b).1, w).

Definition sys_ustat (dev : Z) : M World Ustat := call (
  w <- mget;;
  k <- mok_or (find_fs w (as_u16 dev)) NODEV;;
  f <- fs_at k;;
  bfree <- count_free (zone_bitmap f);;
  ffree <- count_free (inode_bitmap f);;
  mok (mkUstat (zone_count (super_block f)) (as_u32 (Z.of_nat bfree)) (inode_count (super_block f)) (as_u32 (Z.of_nat ffree)))).

(** ** Handlers of [mount.rs], and [fs/mod.rs] *)

(** [fs::sync] and [sync]; blocks that the cache writes back look the same. *)
Definition sys_sync : M World Z := call (sync_inodes;;; mok 0).

(** [mount_root]. *)
Definition mount_root (root_dev : Z) : M World () := call (
  o <- open root_dev;;
  root_fs <- mexpect o;;
  boot_root_inode <- acquire_raw (mkId root_dev ROOT_INODE_NUMBER) root_fs;;
  s <- insert_mount (mkMount root_dev root_fs boot_root_inode None);;
  _ <- mexpect s;;
  root_inode <- resolve_inode (mkId root_dev ROOT_INODE_NUMBER);;
  mmodify (λ w, with_fs w (set_cwd root_inode (set_root root_inode (fs w))))).

Definition sys_mount (dev_name dir_name : list Z) : M World Z := call (
  dev_inode <- or_err (resolve_path (read_pathname dev_name)) NOENT;;
  t <- inode_type dev_inode;;
  if negb (bool_decide (t = BlockDevice)) then merr PERM
  else
    dev <- device_number dev_inode;;
    release dev_inode;;;
    dir_inode <- or_err (resolve_path (read_pathname dir_name)) NOENT;;
    t <- inode_type dir_inode;;
    if negb (bool_decide (t = Layout.Directory)) then merr PERM
    else
      d <- inode_of dir_inode;;
      if inumber (id d) =? ROOT_INODE_NUMBER then merr BUSY
      else
        w <- mget;;
        if bool_decide (is_Some (find_fs w dev)) then merr BUSY
        else if is_mount_point w (id d) then merr PERM
        else
          new_fs <- or_err (open dev) BUSY;;
          root_inode <- acquire_raw (mkId dev ROOT_INODE_NUMBER) new_fs;;
          _ <- or_err (insert_mount (mkMount dev new_fs root_inode (Some dir_inode))) BUSY;;
          mok 0).

Definition sys_umount (root_dev : Z) (dev_name : list Z) : M World Z := call (
  dev_inode <- or_err (resolve_path (read_pathname dev_name)) NOENT;;
  t <- inode_type dev_inode;;
  if negb (bool_decide (t = BlockDevice)) then merr NOTBLK
  else
    dev <- device_number dev_inode;;
    release dev_inode;;;
    if dev =? root_dev then merr BUSY
    else
      w <- mget;;
      if bool_decide (find_fs w dev = None) then merr NOENT
      else if has_active_inodes w dev then merr BUSY
      else
        evict_device dev;;;
        _ <- remove_by_device dev;;
        mok 0).
End Calls.
