(* ===== verification/Mounts.v ===== *)
(** * Mounts in the reachable states

    The calls of [Calls] as steps, with switches to other tasks between them; the
    invariant of the mount table over all of them, and what follows for
    [resolve_inode] and for [umount]. *)

From S2P Require Import Prelude Task Bitmap Layout Minix BlockMap Directory InodeTable Path Calls.
From stdpp Require Import gmap.
Open Scope kmonad_scope.
Open Scope Z_scope.

Module Mounts.
Import Layout Minix InodeTable Path Calls.

(** ** Calls as steps *)

Inductive syscall : Set :=
| Stat (path : list Z)
| Link (oldname newname : list Z)
| Unlink (path : list Z)
| Chdir (path : list Z)
| Chroot (path : list Z)
| Mkdir (path : list Z) (m : Z)
| Mknod (path : list Z) (m dev : Z)
| Rmdir (path : list Z)
| Chmod (path : list Z) (m : Z)
| Chown (path : list Z) (uid gid : Z)
| Access (path : list Z) (m : Z)
| Utime (path : list Z) (times : option (Z * Z))
| Rename (oldname newname : list Z)
| Ustat (dev : Z)
| Sync
| Mount (dev_name dir_name : list Z)
| Umount (dev_name : list Z).

Definition discard {A} (m : M World A) : M World () := m;;; mok ().

Definition run (root_dev : Z) (c : syscall) : M World () :=
  match c with
  | Stat path => discard (sys_stat path)
  | Link oldname newname => discard (sys_link oldname newname)
  | Unlink path => discard (sys_unlink path)
  | Chdir path => discard (sys_chdir path)
  | Chroot path => discard (sys_chroot path)
  | Mkdir path m => discard (sys_mkdir path m)
  | Mknod path m dev => discard (sys_mknod path m dev)
  | Rmdir path => discard (sys_rmdir path)
  | Chmod path m => discard (sys_chmod path m)
  | Chown path uid gid => discard (sys_chown path uid gid)
  | Access path m => discard (sys_access path m)
  | Utime path times => discard (sys_utime path times)
  | Rename oldname newname => discard (sys_rename oldname newname)
  | Ustat dev => discard (sys_ustat dev)
  | Sync => discard sys_sync
  | Mount dev_name dir_name => discard (sys_mount dev_name dir_name)
  | Umount dev_name => discard (sys_umount root_dev dev_name)
  end.

(** Another task runs: its context, and what open files and other tasks refer to,
    are any. *)
Definition switched (w : World) (c : Task.TaskFileSystemContext) (i : Task.TaskIdentityInfo) (u : list nat) (t : Z) : World :=
  mkWorld (devices w) (file_systems w) (inodes w) (table w) (mounts w) c i u (held w) t.

Inductive step (root_dev : Z) : World → World → Prop :=
| s_call c r w w' : run root_dev c w = (r, w') → step root_dev w w'
| s_switch c i u t w : step root_dev w (switched w c i u t).

(** Start-up: an empty table, no mounts. *)
Definition booting (w : World) : Prop :=
  slots (table w) = replicate INODE_TABLE_CAPACITY None ∧ mounts w = replicate MOUNT_TABLE_CAPACITY None.

Inductive reachable (root_dev : Z) : World → Prop :=
| r_boot w w' : booting w → mount_root root_dev w = (Ok (), w') → reachable root_dev w'
| r_step w w' : reachable root_dev w → step root_dev w w' → reachable root_dev w'.

(** ** The invariant *)

(** A mount's root is inode 1 of its device and in the table; what it covers is
    not a root. *)
Record mount_ok (w : World) (m : InodeTable.Mount) : Prop := {
  mo_root : ∃ o, inodes w !! root_inode m = Some o ∧ id o = mkId (m_device m) ROOT_INODE_NUMBER;
  mo_cached : Some (root_inode m) ∈ slots (table w);
  mo_point : ∀ p, mount_point_inode m = Some p → ∃ o, inodes w !! p = Some o ∧ inumber (id o) ≠ ROOT_INODE_NUMBER;
}.

Definition mounts_ok (w : World) : Prop := ∀ m, Some m ∈ mounts w → mount_ok w m.

(** ** Operations that keep it *)

(** Objects keep their identifiers, and the tables stay. *)
Definition same_tables (w w' : World) : Prop :=
  mounts w' = mounts w ∧ slots (table w') = slots (table w) ∧
  ∀ h o, inodes w !! h = Some o → ∃ o', inodes w' !! h = Some o' ∧ id o' = id o.

Lemma same_tables_ok w w' : same_tables w w' → mounts_ok w → mounts_ok w'.
Proof.
  intros (Em & Et & Hi) Hw m Hm. rewrite Em in Hm. destruct (Hw m Hm) as [(o & Ho & Eo) Hc Hp]. split.
  - destruct (Hi _ _ Ho) as (o' & Ho' & E). exists o'. split; [done|congruence].
  - by rewrite Et.
  - intros p Hpp. destruct (Hp p Hpp) as (o2 & Ho2 & Hne). destruct (Hi _ _ Ho2) as (o' & Ho' & E). exists o'. by rewrite E.
Qed.

Lemma same_tables_refl w : same_tables w w.
Proof. split_and!; eauto. Qed.

(** Computations that keep the tables whatever they do. *)
Definition quiet {A} (m : M World A) : Prop := ∀ w0, preserves (same_tables w0) m.

Lemma quiet_ok {A} (m : M World A) : quiet m → preserves mounts_ok m.
Proof. intros Hq w Hw. eapply same_tables_ok; [apply Hq, same_tables_refl|done]. Qed.

Lemma same_tables_trans w1 w2 w3 : same_tables w1 w2 → same_tables w2 w3 → same_tables w1 w3.
Proof.
  intros (Em1 & Et1 & H1) (Em2 & Et2 & H2). split_and!; [congruence..|]. intros h o Ho.
  destruct (H1 h o Ho) as (o1 & Ho1 & E1). destruct (H2 h o1 Ho1) as (o2 & Ho2 & E2). exists o2. split; [done|congruence].
Qed.

Lemma same_tables_fields w w' : mounts w' = mounts w → slots (table w') = slots (table w) → inodes w' = inodes w → same_tables w w'.
Proof. intros Em Et Ei. split_and!; [done..|]. rewrite Ei. eauto. Qed.

(** A change outside the tables. *)
Lemma quiet_modify f :
  (∀ w, mounts (f w) = mounts w ∧ slots (table (f w)) = slots (table w) ∧ inodes (f w) = inodes w) → quiet (mmodify f).
Proof.
  intros Hf w0 w Hw. eapply same_tables_trans; [exact Hw|]. destruct (Hf w) as (Em & Et & Ei). by apply same_tables_fields.
Qed.

Lemma quiet_bind {A B} (m : M World A) (k : A → M World B) : quiet m → (∀ a, quiet (k a)) → quiet (bind m k).
Proof. intros Hm Hk w0. apply preserves_bind; [apply Hm|intros a; apply Hk]. Qed.

Lemma quiet_mtry {A} (m : M World A) : quiet m → quiet (mtry m).
Proof. intros Hm w0. apply preserves_mtry, Hm. Qed.

Lemma quiet_mok {A} (a : A) : quiet (mok a).
Proof. intros w0. apply preserves_mok. Qed.
Lemma quiet_merr {A} e : quiet (@merr World A e).
Proof. intros w0. apply preserves_merr. Qed.
Lemma quiet_mpanic {A} : quiet (@mpanic World A).
Proof. intros w0. apply preserves_mpanic. Qed.
Lemma quiet_mget : quiet mget.
Proof. intros w0. apply preserves_mget. Qed.
Lemma quiet_mgets {A} (f : World → A) : quiet (mgets f).
Proof. intros w0. apply preserves_mgets. Qed.
Lemma quiet_massert b : quiet (massert b).
Proof. intros w0. apply preserves_massert. Qed.
Lemma quiet_mexpect {A} (o : option A) : quiet (mexpect o).
Proof. intros w0. apply preserves_mexpect. Qed.
Lemma quiet_mok_or {A} (o : option A) e : quiet (mok_or o e).
Proof. intros w0. apply preserves_mok_or. Qed.
Lemma quiet_mfor {A} (l : list A) f : (∀ x, quiet (f x)) → quiet (mfor l f).
Proof. intros Hf w0. apply preserves_mfor. intros x _. apply Hf. Qed.

Create HintDb quiet discriminated.
#[local] Hint Resolve quiet_mok quiet_merr quiet_mpanic quiet_mget quiet_mgets quiet_massert quiet_mexpect quiet_mok_or : quiet.

Ltac quiet_tac :=
  repeat match goal with
  | |- quiet (bind _ _) => apply quiet_bind; [|intros ?]
  | |- quiet (mtry _) => apply quiet_mtry
  | |- quiet (mfor _ _) => apply quiet_mfor; intros ?
  | |- quiet (match ?x with _ => _ end) => destruct x
  | |- quiet (let _ := _ in _) => cbv zeta
  | |- quiet _ => solve [eauto with quiet]
  end.

Lemma quiet_hold h : quiet (hold h).
Proof. by apply quiet_modify. Qed.
Lemma quiet_release h : quiet (release h).
Proof. by apply quiet_modify. Qed.
Lemma quiet_modify_dev dev b f : quiet (modify_dev dev b f).
Proof. by apply quiet_modify. Qed.

Lemma quiet_read_dev dev b : quiet (read_dev dev b).
Proof.
  intros w0 w Hw. eapply same_tables_trans; [exact Hw|]. unfold read_dev. destruct (dev_faults _); by apply same_tables_fields.
Qed.

Lemma quiet_fs_at k : quiet (fs_at k).
Proof. unfold fs_at. quiet_tac. Qed.
Lemma quiet_inode_of h : quiet (inode_of h).
Proof. unfold inode_of. quiet_tac. Qed.
#[local] Hint Resolve quiet_hold quiet_release quiet_modify_dev quiet_read_dev quiet_fs_at quiet_inode_of : quiet.

Lemma quiet_read_inode k n : quiet (read_inode k n).
Proof. unfold read_inode. quiet_tac. Qed.
Lemma quiet_write_inode k n d : quiet (write_inode k n d).
Proof. unfold write_inode. quiet_tac. Qed.

Lemma quiet_on_inode_bitmap {A} k (m : M Bitmap.Bitmap A) : quiet (on_inode_bitmap k m).
Proof.
  unfold on_inode_bitmap. apply quiet_bind; [apply quiet_fs_at|]. intros f w0 w Hw.
  destruct (m (inode_bitmap f)) as [r b]. eapply same_tables_trans; [exact Hw|]. by apply same_tables_fields.
Qed.
#[local] Hint Resolve quiet_read_inode quiet_write_inode quiet_on_inode_bitmap : quiet.

Lemma quiet_alloc_inode k : quiet (alloc_inode k).
Proof. unfold alloc_inode. quiet_tac. Qed.
Lemma quiet_free_inode k n : quiet (free_inode k n).
Proof. unfold free_inode. quiet_tac. Qed.

(** Replacing the object of a handle by one with the same identifier. *)
Lemma same_tables_object w h o o' :
  inodes w !! h = Some o → id o' = id o → same_tables w (with_inodes w (<[h := o']> (inodes w))).
Proof.
  intros Ho E. split_and!; [done..|]. intros h1 o1 H1. simpl. destruct (decide (h1 = h)) as [->|Hne].
  - exists o'. rewrite list_lookup_insert_eq by (by eapply lookup_lt_Some). split; [done|congruence].
  - exists o1. by rewrite list_lookup_insert_ne.
Qed.

Lemma quiet_on_inode {A} h (m : M St A) : quiet (on_inode h m).
Proof.
  intros w0 w Hw. eapply same_tables_trans; [exact Hw|]. unfold on_inode, inode_of, fs_at, bind, mget, mexpect, mpanic, mok.
  destruct (inodes w !! h) as [o|] eqn:Ho; [|by apply same_tables_fields].
  destruct (file_systems w !! file_system o) as [f|]; [|by apply same_tables_fields].
  destruct (m (st_of w o f)) as [r s].
  eapply same_tables_trans; [|by apply (same_tables_object _ h o)]. by apply same_tables_fields.
Qed.

Lemma quiet_set_clean h : quiet (set_clean h).
Proof.
  intros w0 w Hw. eapply same_tables_trans; [exact Hw|]. split_and!; [done..|]. intros h1 o1 H1. simpl.
  destruct (decide (h1 = h)) as [->|Hne].
  - rewrite list_lookup_alter_eq, H1. by eexists.
  - rewrite list_lookup_alter_ne by done. by exists o1.
Qed.

Lemma quiet_new_inode o : quiet (new_inode o).
Proof.
  intros w0 w Hw. eapply same_tables_trans; [exact Hw|]. split_and!; [done..|]. intros h1 o1 H1. exists o1.
  simpl. rewrite lookup_app_l; [done|by eapply lookup_lt_Some].
Qed.
#[local] Hint Resolve quiet_alloc_inode quiet_free_inode quiet_on_inode quiet_set_clean quiet_new_inode : quiet.

Lemma quiet_sync h : quiet (sync h).
Proof. unfold sync. quiet_tac. Qed.
Lemma quiet_lookup i : quiet (InodeTable.lookup i).
Proof. unfold lookup. quiet_tac. Qed.
#[local] Hint Resolve quiet_sync quiet_lookup : quiet.

Lemma quiet_sync_inodes : quiet sync_inodes.
Proof. unfold sync_inodes. quiet_tac. Qed.

Lemma quiet_read_bitmap dev b n : quiet (read_bitmap dev b n).
Proof. revert b. induction n as [|n IH]; intros b; cbn [read_bitmap]; quiet_tac. Qed.
Lemma quiet_new_bitmap base l bits : quiet (new_bitmap base l bits).
Proof. unfold new_bitmap. quiet_tac. Qed.
#[local] Hint Resolve quiet_sync_inodes quiet_read_bitmap quiet_new_bitmap : quiet.

Lemma quiet_open dev : quiet (open dev).
Proof. unfold open. quiet_tac. Qed.
#[local] Hint Resolve quiet_open : quiet.

(** ** The inode table *)

Definition same_ids (w w' : World) : Prop :=
  ∀ h o, inodes w !! h = Some o → ∃ o', inodes w' !! h = Some o' ∧ id o' = id o.

Record stable (w0 w : World) : Prop := {
  sb_ok : mounts_ok w;
  sb_mounts : mounts w = mounts w0;
  sb_ids : same_ids w0 w;
}.

Lemma same_ids_trans w1 w2 w3 : same_ids w1 w2 → same_ids w2 w3 → same_ids w1 w3.
Proof.
  intros H1 H2 h o Ho. destruct (H1 h o Ho) as (o1 & Ho1 & E1). destruct (H2 h o1 Ho1) as (o2 & Ho2 & E2).
  exists o2. split; [done|congruence].
Qed.

Lemma stable_refl w : mounts_ok w → stable w w.
Proof. intros Hw. split; [done|done|]. intros h o Ho. eauto. Qed.

Lemma stable_same w0 w w' : stable w0 w → same_tables w w' → stable w0 w'.
Proof.
  intros [Hok Em Hi] Hs. split; [by eapply same_tables_ok|destruct Hs; congruence|].
  eapply same_ids_trans; [exact Hi|]. by destruct Hs as (_ & _ & ?).
Qed.

(** Computations that keep mounts and identifiers, once the mounts are right. *)
Definition tame {A} (m : M World A) : Prop := ∀ w0, preserves (stable w0) m.

Lemma quiet_tame {A} (m : M World A) : quiet m → tame m.
Proof. intros Hq w0 w Hw. eapply stable_same; [exact Hw|]. apply Hq, same_tables_refl. Qed.

Lemma tame_bind {A B} (m : M World A) (k : A → M World B) : tame m → (∀ a, tame (k a)) → tame (bind m k).
Proof. intros Hm Hk w0. apply preserves_bind; [apply Hm|intros a; apply Hk]. Qed.
Lemma tame_mtry {A} (m : M World A) : tame m → tame (mtry m).
Proof. intros Hm w0. apply preserves_mtry, Hm. Qed.

Create HintDb tame discriminated.

Ltac tame_tac :=
  repeat match goal with
  | |- tame (bind _ _) => apply tame_bind; [|intros ?]
  | |- tame (mtry _) => apply tame_mtry
  | |- tame (match ?x with _ => _ end) => destruct x
  | |- tame (let _ := _ in _) => cbv zeta
  | |- tame _ => solve [eauto with tame | apply quiet_tame; eauto with quiet]
  end.

Lemma count_pos (l : list nat) h : h ∈ l → (1 ≤ length (filter (λ x, x = h) l))%nat.
Proof.
  intros Hh. destruct (filter (λ x, x = h) l) as [|y l'] eqn:E; [|simpl; lia].
  exfalso. by eapply (filter_nil_not_elem_of (λ x, x = h) l h) in E.
Qed.

(** The root of a mount has two owners at least: the table and the mount. *)
Lemma root_active w m : mounts_ok w → Some m ∈ mounts w → (2 ≤ strong_count w (root_inode m))%nat.
Proof.
  intros Hok Hm. destruct (Hok m Hm) as [_ Hc _]. unfold strong_count, references.
  rewrite !filter_app, !length_app.
  pose proof (count_pos (omap (λ o, o) (slots (table w))) (root_inode m)) as H1.
  pose proof (count_pos (flat_map (λ o, match o with
                 | Some m => root_inode m :: match mount_point_inode m with Some h => [h] | None => [] end
                 | None => []
                 end) (mounts w)) (root_inode m)) as H2.
  assert (1 ≤ length (filter (λ x, x = root_inode m) (omap (λ o, o) (slots (table w)))))%nat.
  { apply H1, list_elem_of_omap. by exists (Some (root_inode m)). }
  match type of H2 with ?a → _ => assert a as Hin end.
  { apply list_elem_of_In, in_flat_map. exists (Some m). split; [by apply list_elem_of_In|]. by left. }
  specialize (H2 Hin). lia.
Qed.

(** Emptying or filling a slot that has no root. *)
Lemma stable_set_slot w0 w k x :
  stable w0 w → (∀ m h, Some m ∈ mounts w → slots (table w) !! k = Some (Some h) → root_inode m ≠ h) →
  stable w0 (set_slot k x w).2.
Proof.
  intros [Hok Em Hi] Hk. split; [|done|done]. intros m Hm. destruct (Hok m Hm) as [Hr Hc Hp]. split; [done| |done].
  apply list_elem_of_lookup in Hc as [s Hs]. apply list_elem_of_lookup. exists s. simpl.
  rewrite list_lookup_insert_ne; [done|]. intros ->. by apply (Hk m (root_inode m)).
Qed.

Lemma quiet_set_clock c : quiet (set_clock c).
Proof. by apply quiet_modify. Qed.
#[local] Hint Resolve quiet_set_clock : quiet.

(** [flush_slot] after it has emptied the slot. *)
Lemma flush_slot_cases w k :
  flush_slot k w = (Panic, w) ∨
  ∃ m : M World (), quiet m ∧ flush_slot k w = m (set_slot k None w).2.
Proof.
  unfold flush_slot. erewrite bind_Ok by reflexivity.
  destruct (slots (table w) !! k ≫= λ o, o) as [victim|]; [right|by left]. erewrite bind_Ok by reflexivity.
  erewrite bind_Ok by reflexivity. eexists. split; [|reflexivity]. quiet_tac.
Qed.

Lemma flush_empties w k w1 h : flush_slot k w = (Ok (), w1) → slots (table w1) !! k ≠ Some (Some h).
Proof.
  destruct (flush_slot_cases w k) as [->|(m & Hq & ->)]; [done|]. intros E Hs.
  pose proof (Hq _ _ (same_tables_refl (set_slot k None w).2)) as (_ & Es & _). rewrite E in Es. simpl in Es.
  rewrite Es in Hs. by apply list_lookup_insert_Some in Hs as [(_ & ? & _)|[? _]].
Qed.

Lemma stable_flush w0 w k :
  stable w0 w → (∀ m h, Some m ∈ mounts w → slots (table w) !! k = Some (Some h) → root_inode m ≠ h) →
  stable w0 (flush_slot k w).2.
Proof.
  intros Hw Hk. destruct (flush_slot_cases w k) as [->|(m & Hq & ->)]; [done|].
  apply (quiet_tame m Hq), (stable_set_slot _ _ k None); done.
Qed.

Lemma victim_not_root w v m h :
  mounts_ok w → find_victim w = Some v → Some m ∈ mounts w → slots (table w) !! v = Some (Some h) → root_inode m ≠ h.
Proof.
  intros Hok Hv Hm Hs E. apply find_victim_unused in Hv as (h2 & o2 & [[Hs2 _] Hc]).
  assert (h2 = h) as -> by congruence. subst h. pose proof (root_active w m Hok Hm) as H2. rewrite Hc in H2. lia.
Qed.

Lemma stable_evict w0 w v h c :
  stable w0 w → find_victim w = Some v →
  stable w0 ((flush_slot v;;; set_slot v (Some h);;; set_clock c) w).2.
Proof.
  intros Hw Hv.
  pose proof (stable_flush w0 w v Hw (λ m h', victim_not_root w v m h' (sb_ok _ _ Hw) Hv)) as Hf.
  pose proof (λ w1 h', flush_empties w v w1 h') as He.
  destruct (flush_slot v w) as [[[]|e|] w1] eqn:Hr; cbn [snd] in Hf.
  2: by rewrite (bind_Err _ _ _ _ _ Hr).
  2: by rewrite (bind_Panic _ _ _ _ Hr).
  rewrite (bind_Ok _ _ _ _ _ Hr).
  assert (set_slot v (Some h) w1 = (Ok (), (set_slot v (Some h) w1).2)) as Hset by done.
  rewrite (bind_Ok _ _ _ _ _ Hset). apply quiet_tame; [apply quiet_set_clock|].
  apply stable_set_slot; [done|]. intros m h' _ Hs. by destruct (He w1 h').
Qed.

Lemma tame_install h : tame (install h).
Proof.
  intros w0 w Hw. unfold install. rewrite (bind_Ok _ _ _ w w) by done.
  destruct (position _ _) as [s|] eqn:Hp.
  - apply stable_set_slot; [done|]. intros m h' _ Hs. apply position_Some in Hp as [(x & Hx & Hb) _].
    rewrite Hx in Hs. injection Hs as ->. done.
  - destruct (find_victim w) as [v|] eqn:Hv.
    + rewrite (bind_Ok _ _ _ v w) by done. by apply stable_evict.
    + by rewrite (bind_Panic _ _ _ w) by done.
Qed.

(** *** What [acquire_raw] gives *)

Lemma quiet_ids {A} (m : M World A) w0 : quiet m → preserves (same_ids w0) m.
Proof.
  intros Hq w Hw. eapply same_ids_trans; [exact Hw|]. by destruct (Hq w w (same_tables_refl w)) as (_ & _ & ?).
Qed.

Lemma install_ids h w0 : preserves (same_ids w0) (install h).
Proof.
  unfold install, flush_slot, set_slot.
  preserves_tac; try done; apply quiet_ids; quiet_tac.
Qed.

Lemma install_cached h w w' : install h w = (Ok (), w') → Some h ∈ slots (table w').
Proof.
  unfold install. rewrite (bind_Ok _ _ _ w w) by done. destruct (position _ _) as [s|] eqn:Hp.
  - intros [= <-]. apply position_Some in Hp as [(x & Hx & _) _]. apply list_elem_of_lookup. exists s. simpl.
    apply list_lookup_insert_eq. by eapply lookup_lt_Some.
  - intros (v & w1 & Hv & H)%bind_Ok_inv. destruct (find_victim w) as [v'|] eqn:Hf; [|done]. injection Hv as -> <-.
    apply bind_Ok_inv in H as ([] & w2 & Hfl & H). apply bind_Ok_inv in H as ([] & w3 & [= <-] & [= <-]).
    apply find_victim_unused in Hf as (hv & ov & [[Hs _] _]).
    apply list_elem_of_lookup. exists v. simpl. apply list_lookup_insert_eq.
    destruct (flush_slot_cases w v) as [E|(m & Hq & E)]; [congruence|]. rewrite Hfl in E.
    pose proof (Hq _ _ (same_tables_refl (set_slot v None w).2)) as (_ & Es & _). rewrite <- E in Es. simpl in Es.
    rewrite Es, length_insert. by eapply lookup_lt_Some.
Qed.

Lemma acquire_post i k w h w' :
  acquire_raw i k w = (Ok h, w') → Some h ∈ slots (table w') ∧ ∃ o, inodes w' !! h = Some o ∧ id o = i.
Proof.
  unfold acquire_raw. intros ([] & w1 & Ha & H)%bind_Ok_inv. destruct (device i =? 0); [done|]. injection Ha as <-.
  apply bind_Ok_inv in H as (o & w2 & Hl & H). unfold InodeTable.lookup in Hl.
  rewrite (bind_Ok _ _ _ w w) in Hl by done. destruct (cached w i) as [h1|] eqn:Hc.
  - injection Hl as <- <-. injection H as -> <-. apply cached_Some in Hc as (s & o & [Hs Ho] & Hi).
    split; [by eapply list_elem_of_lookup_2|by exists o].
  - injection Hl as <- <-. apply bind_Ok_inv in H as (d & w3 & Hr & H).
    apply bind_Ok_inv in H as (h1 & w4 & [= <- <-] & H). apply bind_Ok_inv in H as ([] & w5 & [= <-] & H).
    apply bind_Ok_inv in H as ([] & w6 & Hin & [= <- <-]). split; [by eapply install_cached|].
    match type of Hin with install _ ?x = _ => pose proof (install_ids (length (inodes w3)) x x) as Hid end.
    cbn beta in Hid. rewrite Hin in Hid. cbn [snd] in Hid.
    destruct (Hid (λ h0 o0 H0, ex_intro _ o0 (conj H0 eq_refl)) (length (inodes w3)) (mkInode i k (mkInner d false 0 0)))
      as (o & Ho & E); [simpl; by rewrite lookup_app_r, Nat.sub_diag|by exists o].
Qed.

Lemma tame_acquire i k : tame (acquire_raw i k).
Proof. unfold acquire_raw. tame_tac. apply tame_install. Qed.
#[local] Hint Resolve tame_acquire : tame.

(** ** Following mounts ends *)

Lemma mounted_root_Some w i r :
  mounted_root_at w i = Some r → ∃ m p o, Some m ∈ mounts w ∧ root_inode m = r ∧ mount_point_inode m = Some p ∧
    inodes w !! p = Some o ∧ id o = i.
Proof.
  unfold mounted_root_at, id_of. intros (l1 & x & l2 & Hl & Hx & _)%find_map_Some.
  destruct x as [m|]; [|done]. simpl in Hx. destruct (mount_point_inode m) as [p|] eqn:Hp; [|done]. simpl in Hx.
  destruct (inodes w !! p) as [o|] eqn:Ho; [|done]. simpl in Hx. destruct (decide (id o = i)); [|done].
  injection Hx as <-. exists m, p, o. split_and!; try done. rewrite Hl. apply elem_of_app. right. by left.
Qed.

(** No root is a mount point, and what is mounted is a root. *)
Lemma mounted_on_root w i : mounts_ok w → inumber i = ROOT_INODE_NUMBER → mounted_root_at w i = None.
Proof.
  intros Hok Hi. destruct (mounted_root_at w i) as [r|] eqn:E; [exfalso|done].
  apply mounted_root_Some in E as (m & p & o & Hm & _ & Hp & Ho & <-).
  destruct (Hok m Hm) as [_ _ Hpt]. destruct (Hpt p Hp) as (o' & Ho' & Hne). congruence.
Qed.

Lemma mounted_is_root w i r o :
  mounts_ok w → mounted_root_at w i = Some r → inodes w !! r = Some o → inumber (id o) = ROOT_INODE_NUMBER.
Proof.
  intros Hok (m & p & o' & Hm & <- & _)%mounted_root_Some Ho. destruct (Hok m Hm) as [(o2 & Ho2 & E) _ _].
  assert (o2 = o) as -> by congruence. by rewrite E.
Qed.

(** One turn of the loop. *)
Lemma resolve_turn fuel i w :
  resolve_loop (S fuel) i w =
    match find_fs w (device i) with
    | None => (Panic, w)
    | Some k =>
        match acquire_raw i k w with
        | (Ok h, w1) =>
            match mounted_root_at w1 i with
            | None => (Ok (Some h), w1)
            | Some root => (r <- inode_of root;; release h;;; resolve_loop fuel (id r)) w1
            end
        | (Err e, w1) => (Err e, w1)
        | (Panic, w1) => (Panic, w1)
        end
    end.
Proof.
  cbn [resolve_loop]. rewrite (bind_Ok _ _ _ w w) by done.
  destruct (find_fs w (device i)) as [k|]; [|done]. rewrite (bind_Ok _ _ _ k w) by done.
  destruct (acquire_raw i k w) as [[h|e|] w1] eqn:Ha.
  - rewrite (bind_Ok _ _ _ _ _ Ha). destruct (acquire_post _ _ _ _ _ Ha) as (_ & o & Ho & Eo).
    rewrite (bind_Ok _ _ _ _ _ (inode_of_spec h w1 o Ho)), (bind_Ok _ _ _ w1 w1) by done. rewrite Eo.
    by destruct (mounted_root_at w1 i).
  - by rewrite (bind_Err _ _ _ _ _ Ha).
  - by rewrite (bind_Panic _ _ _ _ Ha).
Qed.

Lemma acquire_ok i k w h w1 : mounts_ok w → acquire_raw i k w = (Ok h, w1) → mounts_ok w1.
Proof. intros Hok Ha. pose proof (tame_acquire i k w w (stable_refl _ Hok)) as H. rewrite Ha in H. apply H. Qed.

Lemma resolve_root fuel i w :
  mounts_ok w → inumber i = ROOT_INODE_NUMBER →
  resolve_loop (S fuel) i w = resolve_loop 1 i w ∧ ∀ w', resolve_loop (S fuel) i w ≠ (Ok None, w').
Proof.
  intros Hok Hi. rewrite !resolve_turn. destruct (find_fs w (device i)) as [k|]; [|done].
  destruct (acquire_raw i k w) as [[h|e|] w1] eqn:Ha; [|done..].
  by rewrite mounted_on_root by (done || by eapply acquire_ok).
Qed.

(** From any inode two turns are enough. *)
Lemma resolve_two fuel i w :
  mounts_ok w →
  resolve_loop (S (S fuel)) i w = resolve_loop 2 i w ∧ ∀ w', resolve_loop (S (S fuel)) i w ≠ (Ok None, w').
Proof.
  intros Hok. rewrite (resolve_turn (S fuel)), (resolve_turn 1). destruct (find_fs w (device i)) as [k|]; [|done].
  destruct (acquire_raw i k w) as [[h|e|] w1] eqn:Ha; [|done..]. pose proof (acquire_ok _ _ _ _ _ Hok Ha) as Hok1.
  destruct (mounted_root_at w1 i) as [root|] eqn:Hr; [|done].
  destruct (inodes w1 !! root) as [o|] eqn:Ho.
  - rewrite !(bind_Ok _ _ _ _ _ (inode_of_spec root w1 o Ho)).
    assert (release h w1 = (Ok (), (release h w1).2)) as Hrel by done. rewrite !(bind_Ok _ _ _ _ _ Hrel).
    pose proof (mounted_is_root _ _ _ _ Hok1 Hr Ho) as Hn.
    assert (mounts_ok (release h w1).2) as Hok2 by (by apply (quiet_ok _ (quiet_release h))).
    destruct (resolve_root fuel (id o) _ Hok2 Hn) as [E Hne].
    split; [exact E|exact Hne].
  - assert (inode_of root w1 = (Panic, w1)) as Hp.
    { unfold inode_of. rewrite (bind_Ok _ _ _ w1 w1) by done. by rewrite Ho. }
    by rewrite !(bind_Panic _ _ _ _ Hp).
Qed.

(** ** The calls *)

Lemma tame_resolve_loop fuel i : tame (resolve_loop fuel i).
Proof.
  revert i. induction fuel as [|fuel IH]; intros i; cbn [resolve_loop]; tame_tac; apply IH.
Qed.
#[local] Hint Resolve tame_resolve_loop : tame.

Lemma tame_resolve_inode i : tame (resolve_inode i).
Proof. unfold resolve_inode. tame_tac. Qed.
#[local] Hint Resolve tame_resolve_inode : tame.

Lemma quiet_check_permission h m : quiet (check_permission h m).
Proof. unfold check_permission. quiet_tac. Qed.
Lemma quiet_inode_type h : quiet (inode_type h).
Proof. unfold inode_type. quiet_tac. Qed.
#[local] Hint Resolve quiet_check_permission quiet_inode_type : quiet.

Lemma quiet_searchable h : quiet (searchable h).
Proof. unfold searchable. quiet_tac. Qed.
Lemma quiet_lookup_name h name : quiet (lookup_name h name).
Proof. unfold lookup_name. quiet_tac. Qed.
Lemma quiet_disk_of h : quiet (disk_of h).
Proof. unfold disk_of. quiet_tac. Qed.
Lemma quiet_may_write h : quiet (may_write h).
Proof. unfold may_write. quiet_tac. Qed.
#[local] Hint Resolve quiet_searchable quiet_lookup_name quiet_disk_of quiet_may_write : quiet.

Lemma tame_resolve_dotdot c r : tame (resolve_dotdot c r).
Proof. unfold resolve_dotdot. tame_tac. Qed.
#[local] Hint Resolve tame_resolve_dotdot : tame.

Lemma tame_walk l r c : tame (walk l r c).
Proof. revert c. induction l as [|x l IH]; intros c; cbn [walk]; tame_tac; apply IH. Qed.
#[local] Hint Resolve tame_walk : tame.

Lemma tame_resolve_parent path : tame (resolve_parent path).
Proof. unfold resolve_parent. tame_tac. Qed.
#[local] Hint Resolve tame_resolve_parent : tame.

Lemma tame_resolve_path path : tame (resolve_path path).
Proof. unfold resolve_path. tame_tac. Qed.

Lemma tame_child_of h n : tame (child_of h n).
Proof. unfold child_of. tame_tac. Qed.
#[local] Hint Resolve tame_resolve_path tame_child_of : tame.

Lemma tame_or_err {A} (m : M World (option A)) e : tame m → tame (or_err m e).
Proof. intros. unfold or_err. tame_tac. Qed.

Ltac call_tac :=
  repeat match goal with
  | |- tame (or_err _ _) => apply tame_or_err
  | |- tame (mmodify _) => apply quiet_tame, quiet_modify; done
  | |- tame _ => progress tame_tac
  end.

Lemma tame_parent_of path e : tame (parent_of path e).
Proof. unfold parent_of. call_tac. Qed.
#[local] Hint Resolve tame_parent_of : tame.

Lemma tame_alloc_and_link dir name t m l : tame (alloc_and_link dir name t m l).
Proof. unfold alloc_and_link. call_tac. Qed.
#[local] Hint Resolve tame_alloc_and_link : tame.

Lemma tame_check_not_below fuel o n c : tame (check_not_below fuel o n c).
Proof. revert c. induction fuel as [|fuel IH]; intros c; cbn [check_not_below]; call_tac; apply IH. Qed.
Lemma tame_displace b d n i : tame (displace b d n i).
Proof. unfold displace. call_tac. Qed.
Lemma tame_rewire a b c : tame (rewire a b c).
Proof. unfold rewire. call_tac. Qed.
Lemma tame_splittable path : tame (splittable path).
Proof. unfold splittable. call_tac. Qed.
#[local] Hint Resolve tame_check_not_below tame_displace tame_rewire tame_splittable : tame.

Lemma tame_call {A} (m : M World A) : tame m → tame (call m).
Proof.
  intros Hm w0 w Hw. unfold call. specialize (Hm w0 w Hw). destruct (m w) as [r w1]. cbn [snd] in *.
  eapply stable_same; [exact Hm|]. by apply same_tables_fields.
Qed.

(** Every call but the two that change the mount table. *)
Lemma tame_run root_dev c :
  match c with Mount _ _ | Umount _ => True | _ => tame (run root_dev c) end.
Proof.
  destruct c; try done; cbn [run]; unfold discard; (apply tame_bind; [apply tame_call|intros ?; call_tac]).
  all: unfold create_directory, create_device, no_entry, stat, count_free, is_superuser; call_tac.
Qed.

(** *** Mounting *)

Lemma tame_ok {A} (m : M World A) : tame m → preserves mounts_ok m.
Proof. intros Hm w Hw. apply (Hm w w). by apply stable_refl. Qed.

Lemma find_fs_Some w dev k : find_fs w dev = Some k → ∃ m, Some m ∈ mounts w ∧ m_device m = dev.
Proof.
  unfold find_fs. intros (l1 & x & l2 & Hl & Hx & _)%find_map_Some. destruct x as [m|]; [|done]. simpl in Hx.
  destruct (Z.eqb_spec (m_device m) dev) as [E|]; [|done]. exists m. split; [|done]. rewrite Hl.
  apply elem_of_app. right. by left.
Qed.

(** The mounts are right, and those of [w0] are among them. *)
Definition grown (w0 w : World) : Prop := mounts_ok w ∧ ∀ m, Some m ∈ mounts w0 → Some m ∈ mounts w.

Lemma tame_grown {A} (m : M World A) w0 : tame m → preserves (grown w0) m.
Proof.
  intros Hm w [Hok Hg]. destruct (Hm w w (stable_refl _ Hok)) as [Hok' Em _]. split; [done|]. by rewrite Em.
Qed.

Lemma grown_same w0 w w' : grown w0 w → same_tables w w' → grown w0 w'.
Proof. intros [Hok Hg] Hs. split; [by eapply same_tables_ok|]. by destruct Hs as (-> & _ & _). Qed.

(** A new mount of a cached root over something that is not a root. *)
Lemma insert_mount_ok w0 w m : grown w0 w → mount_ok w m → grown w0 (insert_mount m w).2.
Proof.
  intros [Hok Hg] Hm. unfold insert_mount. destruct (position _ _) as [s|] eqn:Hpos; [|done]. split.
  - intros m' Hm'. simpl in Hm'. assert (mount_ok w m') as [Hr Hc Hp]; [|by split].
    apply list_elem_of_lookup in Hm' as [k Hk].
    apply list_lookup_insert_Some in Hk as [(_ & [= <-] & _)|[_ Hk]]; [done|]. apply Hok. by eapply list_elem_of_lookup_2.
  - intros m' Hm'. simpl. specialize (Hg m' Hm'). apply list_elem_of_lookup in Hg as [k Hk].
    apply list_elem_of_lookup. exists k. rewrite list_lookup_insert_ne; [done|]. intros ->.
    apply position_Some in Hpos as [(x & Hx & Hb) _]. rewrite Hx in Hk. by injection Hk as ->.
Qed.

Lemma insert_mount_or m e w : ((_ <- or_err (insert_mount m) e;; mok 0) w).2 = (insert_mount m w).2.
Proof. unfold or_err, bind, insert_mount. by destruct (position _ _). Qed.

Lemma mount_tail w0 w dev k point e :
  grown w0 w → (∀ p, point = Some p → ∃ o, inodes w !! p = Some o ∧ inumber (id o) ≠ ROOT_INODE_NUMBER) →
  grown w0 ((root_inode <- acquire_raw (mkId dev ROOT_INODE_NUMBER) k;;
              _ <- or_err (insert_mount (mkMount dev k root_inode point)) e;; mok 0) w).2.
Proof.
  intros Hg Hp. pose proof (tame_acquire (mkId dev ROOT_INODE_NUMBER) k w w (stable_refl _ (proj1 Hg))) as H.
  pose proof (tame_grown _ w0 (tame_acquire (mkId dev ROOT_INODE_NUMBER) k) w Hg) as Hg1.
  destruct (acquire_raw (mkId dev ROOT_INODE_NUMBER) k w) as [[h|e'|] w1] eqn:Ha; cbn [snd] in H, Hg1.
  - rewrite (bind_Ok _ _ _ _ _ Ha). destruct (acquire_post _ _ _ _ _ Ha) as (Hc & o & Ho & Eo).
    rewrite insert_mount_or. apply insert_mount_ok; [exact Hg1|]. split; [by exists o|done|]. intros p E. simpl in E.
    destruct (Hp p E) as (o2 & Ho2 & Hne). destruct (sb_ids _ _ H _ _ Ho2) as (o3 & Ho3 & E3).
    exists o3. by rewrite E3.
  - by rewrite (bind_Err _ _ _ _ _ Ha).
  - by rewrite (bind_Panic _ _ _ _ Ha).
Qed.

Lemma preserves_call {A} (m : M World A) w0 : preserves (grown w0) m → preserves (grown w0) (call m).
Proof.
  intros Hm w Hw. unfold call. specialize (Hm w Hw). destruct (m w) as [r w1]. cbn [snd] in *.
  eapply grown_same; [exact Hm|]. by apply same_tables_fields.
Qed.

Lemma preserves_inode_of {A} (P : World → Prop) h (k : Inode → M World A) :
  (∀ w o, P w → inodes w !! h = Some o → P (k o w).2) → preserves P (bind (inode_of h) k).
Proof.
  intros Hk w Hw. destruct (inodes w !! h) as [o|] eqn:Ho.
  - rewrite (bind_Ok _ _ _ _ _ (inode_of_spec h w o Ho)). by apply Hk.
  - unfold inode_of. rewrite bind_bind, (bind_Ok _ _ _ w w), Ho by done. done.
Qed.

Lemma preserves_mget_at {A} (P : World → Prop) (k : World → M World A) w : P (k w w).2 → P (bind mget k w).2.
Proof. done. Qed.

Lemma sys_mount_grown w0 d p : preserves (grown w0) (sys_mount d p).
Proof.
  unfold sys_mount. apply preserves_call.
  apply preserves_bind; [apply tame_grown; call_tac|intros dev_inode].
  apply preserves_bind; [apply tame_grown; call_tac|intros t].
  destruct (negb _); [apply preserves_merr|].
  apply preserves_bind; [apply tame_grown; unfold device_number; call_tac|intros dev].
  apply preserves_bind; [apply tame_grown; call_tac|intros []].
  apply preserves_bind; [apply tame_grown; call_tac|intros dir_inode].
  apply preserves_bind; [apply tame_grown; call_tac|intros t'].
  destruct (negb _); [apply preserves_merr|]. apply preserves_inode_of. intros w o Hw Ho.
  destruct (Z.eqb_spec (inumber (id o)) ROOT_INODE_NUMBER) as [|Hne]; [done|]. apply preserves_mget_at.
  destruct (bool_decide _); [done|]. destruct (is_mount_point w (id o)); [done|].
  assert (quiet (or_err (open dev) BUSY)) as Hq by (unfold or_err; quiet_tac).
  pose proof (Hq _ _ (same_tables_refl w)) as Hs.
  destruct (or_err (open dev) BUSY w) as [[k|e|] w1] eqn:Hopen; cbn [snd] in Hs.
  2: rewrite (bind_Err _ _ _ _ _ Hopen); by eapply grown_same.
  2: rewrite (bind_Panic _ _ _ _ Hopen); by eapply grown_same.
  rewrite (bind_Ok _ _ _ _ _ Hopen). apply mount_tail; [by eapply grown_same|].
  destruct Hs as (_ & _ & Hi). intros q [= <-]. destruct (Hi _ _ Ho) as (o1 & Ho1 & E1). exists o1. by rewrite E1.
Qed.

Lemma mount_root_ok root_dev w w' : booting w → mount_root root_dev w = (Ok (), w') → mounts_ok w'.
Proof.
  intros [_ Em] Hr. assert (mounts_ok w) as Hok.
  { intros m Hm. rewrite Em in Hm. by apply elem_of_replicate in Hm as [? _]. }
  unfold mount_root, call in Hr. match type of Hr with context [?m w] => destruct (m w) as [r w1] eqn:Hb end.
  injection Hr as -> <-. eapply same_tables_ok; [by apply (same_tables_fields w1)|].
  apply bind_Ok_inv in Hb as (o & w2 & Ho & Hb). apply bind_Ok_inv in Hb as (k & w3 & Hk & Hb).
  assert (mounts_ok w2) as Hok2 by (pose proof (quiet_ok _ (quiet_open root_dev) w Hok) as H; by rewrite Ho in H).
  destruct o; [|done]. injection Hk as -> <-.
  pose proof (mount_tail w2 w2 root_dev k None ERROR (conj Hok2 (λ _ H, H)) ltac:(done)) as [Htail _].
  apply bind_Ok_inv in Hb as (h & w4 & Ha & Hb). rewrite (bind_Ok _ _ _ _ _ Ha), insert_mount_or in Htail.
  apply bind_Ok_inv in Hb as (s & w5 & Hs & Hb). rewrite Hs in Htail. cbn [snd] in Htail.
  match type of Hb with ?m w5 = _ => assert (tame m) as Ht end.
  { call_tac. }
  pose proof (tame_ok _ Ht w5 Htail) as H. by rewrite Hb in H.
Qed.

(** *** Unmounting *)

(** A computation that fails whenever the mounts are right, and keeps them. *)
Definition futile {A} (m : M World A) : Prop :=
  ∀ w0 w, stable w0 w → stable w0 (m w).2 ∧ ∀ a, (m w).1 ≠ Ok a.

Lemma futile_merr {A} e : futile (@merr World A e).
Proof. by intros w0 w Hw. Qed.

Lemma futile_bind {A B} (m : M World A) (k : A → M World B) : tame m → (∀ a, futile (k a)) → futile (bind m k).
Proof.
  intros Hm Hk w0 w Hw. specialize (Hm w0 w Hw). destruct (m w) as [[a|e|] w1] eqn:Hr; cbn [snd] in Hm.
  - rewrite (bind_Ok _ _ _ _ _ Hr). by apply Hk.
  - by rewrite (bind_Err _ _ _ _ _ Hr).
  - by rewrite (bind_Panic _ _ _ _ Hr).
Qed.

(** A mounted device always has an active inode: the root of its file system. *)
Lemma mounted_active w dev k : mounts_ok w → find_fs w dev = Some k → has_active_inodes w dev = true.
Proof.
  intros Hok (m & Hm & <-)%find_fs_Some. pose proof (root_active w m Hok Hm) as Hc.
  destruct (Hok m Hm) as [(o & Ho & Eo) Hcache _]. unfold has_active_inodes. apply existsb_exists.
  exists (Some (root_inode m)). split; [by apply list_elem_of_In|]. rewrite Ho, Eo. simpl. rewrite Z.eqb_refl. simpl.
  by apply Nat.ltb_lt.
Qed.

Lemma umount_futile root_dev d : futile (sys_umount root_dev d).
Proof.
  intros w0 w Hw. unfold sys_umount, call.
  match goal with |- context [?m w] => assert (futile m) as Hm end.
  2:{ match goal with |- context [?m w] => destruct (Hm w0 w Hw) as [H1 H2]; destruct (m w) as [r w1] end.
      split; [|exact H2]. eapply stable_same; [exact H1|]. by apply same_tables_fields. }
  clear w0 w Hw.
  apply futile_bind; [call_tac|intros dev_inode]. apply futile_bind; [call_tac|intros t].
  destruct (negb _); [apply futile_merr|].
  apply futile_bind; [unfold device_number; call_tac|intros dev]. apply futile_bind; [call_tac|intros []].
  destruct (dev =? root_dev); [apply futile_merr|].
  intros w0 w Hw. rewrite (bind_Ok _ _ _ w w) by done. case_bool_decide as Hf; [by apply futile_merr|].
  destruct (find_fs w dev) as [k|] eqn:Hk; [|done].
  rewrite (mounted_active w dev k) by (done || apply Hw). by apply futile_merr.
Qed.

(** ** Properties *)

Lemma step_grown root_dev w w' : mounts_ok w → step root_dev w w' → grown w w'.
Proof.
  intros Hok Hst. assert (grown w w) as Hg by done. destruct Hst as [c r w w' Hr|c i u t w].
  - assert (grown w (run root_dev c w).2) as H; [|by rewrite Hr in H]. pose proof (tame_run root_dev c) as Ht.
    destruct c; try by apply tame_grown.
    + cbn [run]. unfold discard. apply preserves_bind; [apply sys_mount_grown|intros ?; apply preserves_mok|done].
    + cbn [run]. unfold discard. destruct (umount_futile root_dev dev_name w w (stable_refl _ Hok)) as [Hs Hn].
      destruct (sys_umount root_dev dev_name w) as [[x|e|] w1] eqn:Hu; [by destruct (Hn x)|..].
      * rewrite (bind_Err _ _ _ _ _ Hu). destruct Hs as [? Em _]. split; [done|]. cbn [snd] in *. by rewrite Em.
      * rewrite (bind_Panic _ _ _ _ Hu). destruct Hs as [? Em _]. split; [done|]. cbn [snd] in *. by rewrite Em.
  - eapply grown_same; [exact Hg|]. by apply same_tables_fields.
Qed.

Lemma reachable_ok root_dev w : reachable root_dev w → mounts_ok w.
Proof.
  induction 1 as [w w' Hb Hm|w w' _ IH Hst]; [by eapply mount_root_ok|]. by destruct (step_grown _ _ _ IH Hst).
Qed.

(** C12: Mounts.  In every state that the calls reach after start-up, with any
    switches between tasks: a mount's root is inode 1 of its device and never
    leaves the table, and nothing is mounted on a root; so [resolve_inode] ends,
    in two turns at most.  But the reference that the mount itself has makes the
    root count as in use: [umount] fails on every device, and what has been mounted
    stays mounted. *)
Theorem mounts_permanent root_dev w :
  reachable root_dev w →
  mounts_ok w ∧
  (∀ fuel i, resolve_loop (2 + fuel) i w = resolve_loop 2 i w ∧ ∀ w', resolve_loop (2 + fuel) i w ≠ (Ok None, w')) ∧
  (∀ dev_name a w', sys_umount root_dev dev_name w ≠ (Ok a, w')) ∧
  (∀ w' m, step root_dev w w' → Some m ∈ mounts w → Some m ∈ mounts w').
Proof.
  intros Hr%reachable_ok. split_and!.
  - done.
  - intros fuel i. by apply resolve_two.
  - intros d a w' E. destruct (umount_futile root_dev d w w (stable_refl _ Hr)) as [_ Hn]. apply (Hn a). by rewrite E.
  - intros w' m Hst Hm. by apply (step_grown _ _ _ Hr Hst).
Qed.

(** A machine with one formatted device. *)
Definition boot_super : Block :=
  splice zero_block 0 (u16_bytes 64 ++ u16_bytes 1000 ++ u16_bytes 1 ++ u16_bytes 1 ++ u16_bytes 602 ++ u16_bytes 0 ++
    u32_bytes 268966912 ++ u16_bytes MINIX_SUPER_MAGIC).

Definition boot_world : World :=
  mkWorld {[769 := mkDevice {[1 := boot_super]} []]} [] []
    (mkTable (replicate INODE_TABLE_CAPACITY None) 0) (replicate MOUNT_TABLE_CAPACITY None)
    (Task.mkFs 0 None None None 0 []) (Task.mkIdentity 0 0 0 0 0 0) [] [] 1000.

Definition booted_world : World := (mount_root 769 boot_world).2.

Lemma booted : mount_root 769 boot_world = (Ok (), booted_world).
Proof. unfold booted_world. rewrite (surjective_pairing (mount_root 769 boot_world)) at 1. by f_equal. Qed.

Lemma mounts_permanent_witness :
  reachable 769 booted_world ∧ (∀ d a w', sys_umount 769 d booted_world ≠ (Ok a, w')) ∧
  ∀ w', step 769 booted_world w' → length (filter is_Some (mounts w')) ≠ 0%nat.
Proof.
  assert (reachable 769 booted_world) as Hr by (apply (r_boot 769 boot_world); [by split|exact booted]).
  destruct (mounts_permanent 769 booted_world Hr) as (_ & _ & Hu & Hk). split_and!; [done|exact Hu|].
  intros w' Hst Hlen.
  assert (∃ m, Some m ∈ mounts booted_world) as [m Hm] by (eexists; apply list_elem_of_lookup; exists 0%nat; reflexivity).
  specialize (Hk w' m Hst Hm). apply length_zero_iff_nil in Hlen.
  eapply (filter_nil_not_elem_of is_Some) in Hlen; [by apply Hlen|]. by eexists.
Defined.
End Mounts.
