(* ===== verification/Files.v ===== *)
(** * Open files and descriptors ([kernel/src/fs/file], [kernel/src/syscall/handler/fs/fd.rs])

    The file objects over inodes, block devices and character devices, with the
    ends of pipes from [Pipe], and the system calls on descriptors.  A read or
    write of a terminal or of a pipe goes on in the component [Tty] or [Pipe],
    where it may sleep. *)

From S2P Require Import Prelude Task Pipe Layout Minix BlockMap Directory InodeTable BlockFile Path Calls.
From stdpp Require Import gmap.
Open Scope kmonad_scope.
Open Scope Z_scope.

Module Files.
Import Layout Minix InodeTable BlockFile Path Calls.

(** ** Flags *)

Inductive AccessMode : Set := ReadOnly | WriteOnly | ReadWrite.

#[global] Instance AccessMode_eq_dec : EqDecision AccessMode.
Proof. solve_decision. Defined.

Definition access_mode_from_raw (raw : Z) : option AccessMode :=
  if raw =? 0 then Some ReadOnly else if raw =? 1 then Some WriteOnly else if raw =? 2 then Some ReadWrite else None.

Definition CREATE : Z := 64.
Definition EXCLUSIVE : Z := 128.
Definition TRUNCATE : Z := 512.
Definition APPEND : Z := 1024.

(** [OpenFlags::into_parts]. *)
Definition into_parts (flags : Z) : option (AccessMode * Z) :=
  access_mode ← access_mode_from_raw (Z.land flags 3);
  Some (access_mode, Z.land flags (unot 32 3)).

Inductive Whence : Set := SeekSet | SeekCurrent | SeekEnd.

Definition whence_from_raw (raw : Z) : option Whence :=
  if raw =? 0 then Some SeekSet else if raw =? 1 then Some SeekCurrent else if raw =? 2 then Some SeekEnd else None.

(** [DevNum::major] and [minor]. *)
Definition major (dev : Z) : Z := Z.shiftr dev 8.
Definition minor (dev : Z) : Z := Z.land dev 255.

(** ** State *)

(** An [Arc<dyn File>] is an index into the list of all file objects; so is a pipe. *)
Inductive File : Type :=
| InodeFile (access_mode : AccessMode) (open_options : Z) (inode : nat) (offset : Z)
| BlockDeviceFile (dev : Z) (inode : nat) (offset : Z)
| CharDeviceFile (dev : Z) (inode : nat)
| PipeFile (shared : nat) (is_write : bool).

Definition file_inode (f : File) : option nat :=
  match f with
  | InodeFile _ _ i _ | BlockDeviceFile _ i _ | CharDeviceFile _ i => Some i
  | PipeFile _ _ => None
  end.

(** [file_refs] and [inode_refs] are the files and inodes that other tasks refer
    to, [locals] the files that local variables of the running call do; [tty] is
    the terminal of the running task. *)
Record State : Type := mkState {
  world : World;
  files : list File;
  pipes : list Pipe.PipeState;
  file_refs : list nat;
  inode_refs : list nat;
  locals : list nat;
  tty : Z;
}.

Definition with_world (s : State) (w : World) : State :=
  mkState w (files s) (pipes s) (file_refs s) (inode_refs s) (locals s) (tty s).
Definition with_files (s : State) (l : list File) : State :=
  mkState (world s) l (pipes s) (file_refs s) (inode_refs s) (locals s) (tty s).
Definition with_pipes (s : State) (l : list Pipe.PipeState) : State :=
  mkState (world s) (files s) l (file_refs s) (inode_refs s) (locals s) (tty s).
Definition with_locals (s : State) (l : list nat) : State :=
  mkState (world s) (files s) (pipes s) (file_refs s) (inode_refs s) l (tty s).

Definition open_files (s : State) : list (option nat) := Task.open_files (fs (world s)).

(** ** References *)

Definition live (s : State) (h : nat) : bool :=
  bool_decide (h ∈ omap (λ o, o) (open_files s) ++ file_refs s ++ locals s).

(** What open files and other tasks refer to; it takes the place of the field
    [users] of [world]. *)
Definition users_of (s : State) : list nat :=
  omap (λ h, if live s h then files s !! h ≫= file_inode else None) (seq 0 (length (files s))) ++ inode_refs s.

Definition view (s : State) : World := with_users (world s) (users_of s).

Definition on_world {A} (m : M World A) : M State A := λ s,
  let '(r, w) := m (view s) in (r, with_world s (with_users w (users (world s)))).

(** [Drop] of the files that [s] has and [s'] no longer has. *)
Definition drop_file (s s' : State) (h : nat) (l : list Pipe.PipeState) : list Pipe.PipeState :=
  if live s h && negb (live s' h) then
    match files s !! h with
    | Some (PipeFile p is_write) => alter (Pipe.drop_end is_write) p l
    | _ => l
    end
  else l.

Definition drop_files (s s' : State) : State :=
  with_pipes s' (foldr (drop_file s s') (pipes s') (seq 0 (length (files s)))).

Definition with_drops {A} (m : M State A) : M State A := λ s,
  let '(r, s') := m s in (r, drop_files s s').

(** A change of the task's file context, with what it drops. *)
Definition set_context (f : Task.TaskFileSystemContext → Task.TaskFileSystemContext) : M State () :=
  with_drops (mmodify (λ s, with_world s (with_fs (world s) (f (fs (world s)))))).

Definition set_open_files (l : list (option nat)) : M State () :=
  set_context (λ c, Task.mkFs (Task.umask c) (Task.root_directory c) (Task.current_directory c)
    (Task.executable_inode c) (Task.close_on_exec c) l).

Definition set_close_on_exec (x : Z) : M State () :=
  set_context (λ c, Task.mkFs (Task.umask c) (Task.root_directory c) (Task.current_directory c)
    (Task.executable_inode c) x (Task.open_files c)).

Definition keep (h : nat) : M State () := mmodify (λ s, with_locals s (h :: locals s)).

(** [Arc::new], held by a local variable. *)
Definition new_file (f : File) : M State nat :=
  s <- mget;;
  let h := length (files s) in
  mmodify (λ s, with_files s (files s ++ [f]));;;
  keep h;;;
  mok h.

(** A call; when it returns, its local variables are dropped. *)
Definition fcall {A} (m : M State A) : M State A := λ s,
  let '(r, s') := m s in
  let s'' := with_locals (with_world s' (with_held (world s') [])) [] in
  (r, drop_files s' s'').

Definition file_at (h : nat) : M State File := s <- mget;; mexpect (files s !! h).

Definition set_file (h : nat) (f : File) : M State () := mmodify (λ s, with_files s (<[h := f]> (files s))).

(** ** Character devices *)

(** A call is done, or goes on in a terminal or a pipe. *)
Inductive Reply (A : Type) : Type :=
| Done (a : A)
| InTty (channel : Z)
| InPipe (shared : nat) (is_write : bool).
Arguments Done {A} _.
Arguments InTty {A} _.
Arguments InPipe {A} _ _.

Definition current_tty_channel : M State Z :=
  s <- mget;; if tty s <? 0 then merr PERM else mok (tty s).

Definition read_memory (minor : Z) : M State (list Z) := if minor =? 3 then mok [] else merr IO.
Definition write_memory (minor count : Z) : M State Z := if minor =? 3 then mok count else merr IO.

(** ** The operations of [File] *)

Definition file_read (h : nat) (count : Z) : M State (Reply (list Z)) :=
  f <- file_at h;;
  match f with
  | InodeFile am opts i off =>
      if decide (am = WriteOnly) then merr BADF
      else
        l <- on_world (on_inode i (read_at off count));;
        set_file h (InodeFile am opts i (wrapping_add off (Z.of_nat (length l))));;;
        mok (Done l)
  | BlockDeviceFile dev i off =>
      r <- on_world (block_read dev off count);;
      set_file h (BlockDeviceFile dev i r.2);;;
      mok (Done r.1)
  | CharDeviceFile dev _ =>
      if major dev =? 1 then l <- read_memory (minor dev);; mok (Done l)
      else if major dev =? 4 then mok (InTty (minor dev))
      else if major dev =? 5 then c <- current_tty_channel;; mok (InTty c)
      else merr NODEV
  | PipeFile p is_write => mok (InPipe p is_write)
  end.

Definition file_write (h : nat) (buf : list Z) : M State (Reply Z) :=
  f <- file_at h;;
  match f with
  | InodeFile am opts i off =>
      if decide (am = ReadOnly) then merr BADF
      else
        d <- on_world (disk_of i);;
        let offset := if contains opts APPEND then size d else off in
        n <- on_world (on_inode i (write_at offset buf));;
        set_file h (InodeFile am opts i (wrapping_add offset n));;;
        mok (Done n)
  | BlockDeviceFile dev i off =>
      r <- on_world (block_write dev off buf);;
      set_file h (BlockDeviceFile dev i r.2);;;
      mok (Done r.1)
  | CharDeviceFile dev _ =>
      if major dev =? 1 then n <- write_memory (minor dev) (Z.of_nat (length buf));; mok (Done n)
      else if major dev =? 4 then mok (InTty (minor dev))
      else if major dev =? 5 then c <- current_tty_channel;; mok (InTty c)
      else merr NODEV
  | PipeFile p is_write => mok (InPipe p is_write)
  end.

Definition file_stat (h : nat) : M State Stat :=
  f <- file_at h;;
  match f with
  | InodeFile _ _ i _ | BlockDeviceFile _ i _ | CharDeviceFile _ i => on_world (stat i)
  | PipeFile p _ =>
      s <- mget;;
      q <- mexpect (pipes s !! p);;
      let '(m, n, size) := Pipe.stat q in mok (mkStat 0 0 m n 0 0 0 (as_i32 size) 0 0 0)
  end.

(** [offset] is signed.  The new offset, and the file with it. *)
Definition file_seek (h : nat) (offset : Z) (whence : Whence) : M State Z :=
  f <- file_at h;;
  match f with
  | InodeFile am opts i off =>
      d <- on_world (disk_of i);;
      let new_offset := match whence with
                        | SeekSet => offset
                        | SeekCurrent => as_i32 (as_i32 off + offset)
                        | SeekEnd => as_i32 (as_i32 (size d) + offset)
                        end in
      if new_offset <? 0 then merr INVAL
      else set_file h (InodeFile am opts i new_offset);;; mok new_offset
  | BlockDeviceFile dev i off =>
      let set_offset (x : Z) : M State Z :=
        if bool_decide (is_uint 32 x) then set_file h (BlockDeviceFile dev i x);;; mok x else merr INVAL in
      match whence with
      | SeekSet => set_offset offset
      | SeekCurrent => set_offset (off + offset)
      | SeekEnd => merr INVAL
      end
  | CharDeviceFile _ _ | PipeFile _ _ => merr SPIPE
  end.

(** The channel of the terminal that the control operation is for. *)
Definition file_ioctl (h : nat) : M State Z :=
  f <- file_at h;;
  match f with
  | CharDeviceFile dev _ =>
      if major dev =? 4 then mok (minor dev)
      else if major dev =? 5 then current_tty_channel
      else merr NOTTY
  | _ => merr NOTTY
  end.

(** ** System calls on descriptors *)

Definition lookup_file (fd : Z) : M State nat :=
  s <- mget;;
  h <- mok_or (zlookup (open_files s) fd ≫= λ o, o) BADF;;
  keep h;;;
  mok h.

(** [add_file(file).ok_or(MFILE)?]. *)
Definition add_file (h : nat) : M State Z :=
  s <- mget;;
  match Task.add_file h (fs (world s)) with
  | Some (fd, c) => set_context (λ _, c);;; mok (Z.of_nat fd)
  | None => merr MFILE
  end.

(** The inode that [sys_open] opens, and the access mode. *)
Definition open_inode (path : list Z) (flags : Z) (m : Z) : M World (nat * (AccessMode * Z)) :=
  parts <- mok_or (into_parts flags) INVAL;;
  let '(access_mode, open_options) := parts in
  let effective := if bool_decide (access_mode = ReadOnly) && contains open_options TRUNCATE
                   then WriteOnly else access_mode in
  p <- or_err (resolve_parent (read_pathname path)) NOENT;;
  let '(dir, basename) := p in
  inode <- (
    if bool_decide (basename = []) then
      if negb (bool_decide (effective = ReadOnly)) || negb (Z.land open_options (Z.lor CREATE TRUNCATE) =? 0)
      then merr ISDIR else mok dir
    else
      o <- on_inode dir (Directory.lookup basename);;
      match o with
      | None =>
          if contains open_options CREATE then may_write dir;;; create_file dir basename (as_u16 m)
          else merr NOENT
      | Some inum =>
          if contains open_options EXCLUSIVE then merr EXIST
          else
            inode <- child_of dir inum;;
            t <- inode_type inode;;
            if bool_decide (t = Layout.Directory) && negb (bool_decide (effective = ReadOnly)) then merr PERM
            else
              let required := match effective with
                              | ReadOnly => MAY_READ
                              | WriteOnly => MAY_WRITE
                              | ReadWrite => Z.lor MAY_READ MAY_WRITE
                              end in
              b <- check_permission inode required;;
              if negb b then merr PERM
              else
                on_inode inode touch_access;;;
                (if contains open_options TRUNCATE then on_inode inode truncate else mok ());;;
                mok inode
      end);;
  mok (inode, (effective, open_options)).

Definition file_of (inode : nat) (am : AccessMode) (opts : Z) : M World File :=
  t <- inode_type inode;;
  match t with
  | Regular | Layout.Directory => mok (InodeFile am opts inode 0)
  | CharacterDevice => dev <- device_number inode;; mok (CharDeviceFile dev inode)
  | BlockDevice => dev <- device_number inode;; mok (BlockDeviceFile dev inode 0)
  | _ => merr PERM
  end.

Definition sys_open (path : list Z) (raw_flags m : Z) : M State Z := fcall (
  r <- on_world (open_inode path raw_flags m);;
  let '(inode, (am, opts)) := r in
  f <- on_world (file_of inode am opts);;
  h <- new_file f;;
  add_file h).

Definition sys_creat (path : list Z) (m : Z) : M State Z :=
  sys_open path (Z.lor (Z.lor 1 CREATE) TRUNCATE) m.

(** The bytes that the call gives to the user, or takes. *)
Definition sys_read (fd count : Z) : M State (Reply (list Z)) := fcall (h <- lookup_file fd;; file_read h count).
Definition sys_write (fd : Z) (buf : list Z) : M State (Reply Z) := fcall (h <- lookup_file fd;; file_write h buf).

Definition sys_close (fd : Z) : M State Z := fcall (
  s <- mget;;
  slot <- mok_or (zlookup (open_files s) fd) BADF;;
  match slot with
  | None => merr BADF
  | Some _ => set_open_files (zupdate (open_files s) fd None);;; mok 0
  end).

Definition sys_lseek (fd offset whence : Z) : M State Z := fcall (
  whence <- mok_or (whence_from_raw whence) INVAL;;
  h <- lookup_file fd;;
  file_seek h (as_i32 offset) whence).

Definition sys_dup (fd : Z) : M State Z := fcall (h <- lookup_file fd;; add_file h).

Definition sys_dup2 (oldfd newfd : Z) : M State Z := fcall (
  if oldfd =? newfd then _ <- lookup_file oldfd;; mok newfd
  else
    h <- lookup_file oldfd;;
    s <- mget;;
    _ <- mok_or (zlookup (open_files s) newfd) BADF;;
    set_open_files (zupdate (open_files s) newfd (Some h));;;
    mok newfd).

Definition sys_fstat (fd : Z) : M State Stat := fcall (h <- lookup_file fd;; file_stat h).

Definition sys_ioctl (fd : Z) : M State Z := fcall (h <- lookup_file fd;; file_ioctl h).

(** The first free descriptor from [n] on, and whether the bit of a descriptor is set. *)
Definition free_from (l : list (option nat)) (n : Z) : option Z :=
  find (λ i, bool_decide (zlookup l i = Some None)) (seqZ n (Z.of_nat Task.TASK_OPEN_FILES_LIMIT - n)).

Definition fd_bit (fd : Z) : Z := as_u32 (Z.shiftl 1 fd).

Definition sys_fcntl (fd cmd arg : Z) : M State Z := fcall (
  h <- lookup_file fd;;
  s <- mget;;
  let close_on_exec := Task.close_on_exec (fs (world s)) in
  if cmd =? 0 then
    new_fd <- mok_or (free_from (open_files s) arg) MFILE;;
    set_open_files (zupdate (open_files s) new_fd (Some h));;;
    set_close_on_exec (Z.land close_on_exec (unot 32 (fd_bit new_fd)));;;
    mok new_fd
  else if cmd =? 1 then mok (Z.land (Z.shiftr close_on_exec fd) 1)
  else if cmd =? 2 then
    set_close_on_exec (if negb (Z.land arg 1 =? 0) then Z.lor close_on_exec (fd_bit fd)
                       else Z.land close_on_exec (unot 32 (fd_bit fd)));;;
    mok 0
  else if (cmd =? 3) || (cmd =? 4) then mok 0
  else merr INVAL).

(** [page] is what [frame::alloc()] gives; the call gives the two descriptors. *)
Definition sys_pipe (page : option (list Z)) : M State (Z * Z) := fcall (
  q <- (λ s, (Pipe.create_pair page, s));;
  s <- mget;;
  let p := length (pipes s) in
  mmodify (λ s, with_pipes s (pipes s ++ [q]));;;
  reader <- new_file (PipeFile p false);;
  writer <- new_file (PipeFile p true);;
  fd0 <- add_file reader;;
  r <- mtry (add_file writer);;
  match r with
  | inl fd1 => mok (fd0, fd1)
  | inr _ => s <- mget;; set_open_files (zupdate (open_files s) fd0 None);;; merr MFILE
  end).

(** ** An open file as a stream *)

(** An inode with its device and file system. *)
Definition inode_state (s : State) (i : nat) : option St :=
  o ← inodes (world s) !! i; f ← file_systems (world s) !! file_system o; Some (st_of (world s) o f).

(** The file [h] is open on the inode [i], whose state is [t]. *)
Record stream (s : State) (h i : nat) (am : AccessMode) (opts off : Z) (t : St) : Prop := {
  sr_file : files s !! h = Some (InodeFile am opts i off);
  sr_inode : inode_state s i = Some t;
  sr_wf : BlockMap.wf t;
  sr_mounted : mounted t = true;
  sr_size : 0 ≤ size (disk_inode (inner t)) ≤ BlockMap.MAX_FILE_SIZE;
  sr_off : 0 ≤ off < 2 ^ 31;
}.

(** Nothing changes in the other files, the pipes and the descriptors. *)
Record kept (s s' : State) (h : nat) : Prop := {
  kp_files : ∀ h', h' ≠ h → files s' !! h' = files s !! h';
  kp_pipes : pipes s' = pipes s;
  kp_context : fs (world s') = fs (world s);
  kp_refs : file_refs s' = file_refs s ∧ inode_refs s' = inode_refs s ∧ locals s' = locals s;
}.

Lemma view_world s : with_users (view s) (users (world s)) = world s.
Proof. unfold view. by destruct (world s). Qed.

Lemma with_world_id s : with_world s (world s) = s.
Proof. by destruct s. Qed.

Lemma file_at_Some h f s : files s !! h = Some f → file_at h s = (Ok f, s).
Proof. intros H. unfold file_at. erewrite bind_Ok by reflexivity. by rewrite H. Qed.

Lemma inode_state_Some s i t : inode_state s i = Some t →
  ∃ o f, inodes (world s) !! i = Some o ∧ file_systems (world s) !! file_system o = Some f ∧ t = st_of (world s) o f.
Proof.
  unfold inode_state. intros (o & Ho & (f & Hf & [= <-])%bind_Some)%bind_Some. eauto.
Qed.

Lemma disk_of_run s i t : inode_state s i = Some t → on_world (disk_of i) s = (Ok (disk_inode (inner t)), s).
Proof.
  intros (o & f & Ho & Hf & ->)%inode_state_Some. unfold on_world, disk_of, inode_of.
  rewrite (bind_Ok _ _ (view s) o (view s)).
  - unfold mok. by rewrite view_world, with_world_id.
  - erewrite bind_Ok by reflexivity. simpl. by rewrite Ho.
Qed.

(** An operation on an inode that keeps the clock. *)
Lemma on_inode_run {A} (m : M St A) s i t r t' h :
  inode_state s i = Some t → m t = (r, t') → mounted t' = mounted t → now t' = now t →
  ∃ s', on_world (on_inode i m) s = (r, s') ∧ inode_state s' i = Some t' ∧ kept s s' h ∧ files s' = files s.
Proof.
  intros (o & f & Ho & Hf & ->)%inode_state_Some Hm Hmt Hnow. unfold on_world, on_inode, inode_of, fs_at.
  rewrite (bind_Ok _ _ (view s) o (view s)) by (erewrite bind_Ok by reflexivity; simpl; by rewrite Ho).
  rewrite (bind_Ok _ _ (view s) f (view s)) by (erewrite bind_Ok by reflexivity; simpl; by rewrite Hf).
  change (st_of (view s) o f) with (st_of (world s) o f). rewrite Hm.
  eexists. split; [done|]. split; [|by split].
  unfold inode_state. simpl. rewrite list_lookup_insert_eq by (by eapply lookup_lt_Some). simpl.
  rewrite list_lookup_insert_eq by (by eapply lookup_lt_Some). simpl. f_equal. unfold st_of. simpl.
  unfold device_at. simpl. rewrite lookup_insert_eq. simpl. destruct t'; simpl in *. by rewrite Hmt, Hnow.
Qed.
Lemma set_file_run h f s : set_file h f s = (Ok (), with_files s (<[h := f]> (files s))).
Proof. done. Qed.

Lemma kept_refl s h : kept s s h.
Proof. by split. Qed.

Lemma kept_set_file s s' h f : kept s s' h → kept s (with_files s' (<[h := f]> (files s'))) h.
Proof.
  intros []. split; [|done..]. intros h' Hne. simpl. rewrite list_lookup_insert_ne by done. auto.
Qed.

(** The file after it has moved to [off] in the inode state [t']. *)
Lemma stream_moved s s' h i am opts off off' t t' :
  stream s h i am opts off t → files s' = files s → inode_state s' i = Some t' → BlockMap.wf t' → mounted t' = true →
  0 ≤ size (disk_inode (inner t')) ≤ BlockMap.MAX_FILE_SIZE → 0 ≤ off' < 2 ^ 31 →
  stream (with_files s' (<[h := InodeFile am opts i off']> (files s'))) h i am opts off' t'.
Proof.
  intros Hs Ef Hi Hwf Hm Hsz Ho. split; [|done..]. simpl. rewrite Ef.
  apply list_lookup_insert_eq. eapply lookup_lt_Some, Hs.
Qed.

(** What a file shows: its size and its bytes. *)
Definition same_content (t t' : St) : Prop :=
  size (disk_inode (inner t')) = size (disk_inode (inner t)) ∧
  ∀ pos n, BlockMap.file_bytes t' pos n = BlockMap.file_bytes t pos n.

Section stream.
Context (s : State) (h i : nat) (am : AccessMode) (opts off : Z) (t : St).
Context (Hs : stream s h i am opts off t).

Lemma stream_stay t' s' : files s' = files s → inode_state s' i = Some t' → BlockMap.wf t' → mounted t' = true →
  0 ≤ size (disk_inode (inner t')) ≤ BlockMap.MAX_FILE_SIZE → stream s' h i am opts off t'.
Proof using Hs. intros Ef. destruct Hs. split; [by rewrite Ef|done..]. Qed.

Lemma stream_read count : 0 ≤ count → am ≠ WriteOnly →
  ∃ res s' n t', file_read h count s = (res, s') ∧ stream s' h i am opts (off + n) t' ∧ kept s s' h ∧ same_content t t' ∧
    0 ≤ n ≤ BlockMap.readable t off count ∧
    (res = Ok (Done (BlockMap.file_bytes t off n)) ∧ (faults t = [] → n = BlockMap.readable t off count) ∨
     res = Err IO ∧ n = 0 ∧ faults t ≠ []).
Proof using Hs.
  intros Hc Ham. pose proof Hs as [Hf Hi Hwf Hm Hsz Ho].
  destruct (BlockMap.read_at_spec t off count Hwf Hm) as (r & t' & Hr & Ha & Hres); [lia..|].
  destruct (on_inode_run (read_at off count) s i t r t' h Hi Hr) as (s1 & Hw & Hi' & Hk & Ef); [apply Ha..|].
  assert (same_content t t') as Hsame by (split; [by rewrite (BlockMap.al_disk _ _ Ha)|intros; by apply BlockMap.file_bytes_alike]).
  pose proof (BlockMap.alike_wf _ _ Hwf Ha) as Hwf'.
  assert (mounted t' = true) as Hm' by (by rewrite (BlockMap.al_mounted _ _ Ha)).
  assert (0 ≤ size (disk_inode (inner t')) ≤ BlockMap.MAX_FILE_SIZE) as Hsz' by (by rewrite (proj1 Hsame)).
  unfold file_read. rewrite (bind_Ok _ _ _ _ _ (file_at_Some _ _ _ Hf)). rewrite decide_False by done.
  assert (0 ≤ BlockMap.readable t off count ∧ (BlockMap.readable t off count = 0 ∨ off + BlockMap.readable t off count ≤ BlockMap.MAX_FILE_SIZE))
    as Hrd by (unfold BlockMap.readable; lia).
  assert (∀ n, 0 ≤ n ≤ BlockMap.readable t off count → r = Ok (BlockMap.file_bytes t off n) →
    ∃ s', (l <- on_world (on_inode i (read_at off count));;
           set_file h (InodeFile am opts i (wrapping_add off (Z.of_nat (length l))));;; mok (Done l)) s =
          (Ok (Done (BlockMap.file_bytes t off n)), s') ∧ stream s' h i am opts (off + n) t' ∧ kept s s' h) as Hgo.
  { intros n Hn ->. rewrite (bind_Ok _ _ _ _ _ Hw). rewrite BlockMap.length_file_bytes by lia.
    unfold wrapping_add. rewrite wrap_small by (change BlockMap.MAX_FILE_SIZE with 268966912 in Hrd; unfold is_uint; lia).
    eexists. split; [done|]. split; [|by apply kept_set_file].
    eapply stream_moved; try done. change BlockMap.MAX_FILE_SIZE with 268966912 in Hrd. lia. }
  destruct Hres as [Er|[Hflt [Er|(n & Hn & Er)]]].
  - destruct (Hgo (BlockMap.readable t off count)) as (s' & Hrun & Hst & Hkept); [lia|done|].
    eexists _, s', _, t'. split_and!; [exact Hrun|done..|lia|lia|]. left. auto.
  - subst r. rewrite (bind_Err _ _ _ _ _ Hw). exists (Err IO), s1, 0, t'. rewrite Z.add_0_r.
    split_and!; [done|by apply stream_stay|done..|lia|lia|]. auto.
  - destruct (Hgo n) as (s' & Hrun & Hst & Hkept); [lia|done|].
    eexists _, s', _, t'. split_and!; [exact Hrun|done..|lia|lia|]. left. split; [done|]. by intros ?.
Qed.

(** Where a write goes. *)
Definition write_offset : Z := if contains opts APPEND then size (disk_inode (inner t)) else off.

Lemma stream_write buf : am ≠ ReadOnly → Forall (is_uint 8) buf → buf ≠ [] → write_offset ≤ BlockMap.MAX_FILE_SIZE →
  ∃ res s' n t', file_write h buf s = (res, s') ∧ kept s s' h ∧
    stream s' h i am opts (if decide (n = 0) then off else write_offset + n) t' ∧
    0 ≤ n ≤ Z.of_nat (length buf) ∧
    (∀ pos, 0 ≤ pos < BlockMap.MAX_FILE_SIZE → BlockMap.file_byte t' pos =
       if decide (write_offset ≤ pos < write_offset + n) then byte_at buf (pos - write_offset) else BlockMap.file_byte t pos) ∧
    size (disk_inode (inner t')) = Z.max (size (disk_inode (inner t))) (write_offset + n) ∧
    (n < Z.of_nat (length buf) → BlockMap.MAX_FILE_SIZE ≤ write_offset + n ∨ BlockMap.disk_full t' ∨ faults t ≠ []) ∧
    (if decide (n = 0) then ∃ e, res = Err e else res = Ok (Done n)).
Proof using Hs.
  intros Ham Hb Hne Hat. pose proof Hs as [Hf Hi Hwf Hm Hsz Ho]. change BlockMap.MAX_FILE_SIZE with 268966912 in *.
  assert (0 ≤ write_offset) as Hat0 by (unfold write_offset; case_match; lia).
  destruct (BlockMap.write_at_run t write_offset buf Hwf Hm Hb) as (n & t1 & Hw & Hn & Hmax & Hshort & r & Hrun & Hres);
    [unfold is_uint; lia|done|]. change BlockMap.MAX_FILE_SIZE with 268966912 in *.
  set (z := Z.max (size (disk_inode (inner t))) (write_offset + n)) in *. set (t' := BlockMap.written_inode t1 z) in *.
  destruct (BlockMap.with_disk_spec t1 (set_mtime (now t1) (set_size z (disk_inode (inner t1)))) (BlockMap.wr_wf _ _ _ _ _ _ Hw)
    ltac:(by intros []) (BlockMap.wf_direct _ (BlockMap.wr_wf _ _ _ _ _ _ Hw)) true (access_time (inner t1)) (now t1)) as (Hwf' & Hbytes & _).
  fold (BlockMap.written_inode t1 z) in Hwf', Hbytes. fold t' in Hwf', Hbytes.
  destruct (on_inode_run (write_at write_offset buf) s i t r t' h Hi Hrun) as (s1 & Hrunw & Hi' & Hk & Ef); [apply Hw..|].
  assert (mounted t' = true) as Hm' by (change (mounted t1 = true); by rewrite (BlockMap.wr_mounted _ _ _ _ _ _ Hw)).
  assert (0 ≤ size (disk_inode (inner t')) ≤ 268966912) as Hsz'.
  { change (0 ≤ z ≤ 268966912). unfold z. destruct (decide (n = 0)) as [->|]; lia. }
  assert (∀ pos, 0 ≤ pos < 268966912 → BlockMap.file_byte t' pos =
    if decide (write_offset ≤ pos < write_offset + n) then byte_at buf (pos - write_offset) else BlockMap.file_byte t pos) as Hbs.
  { intros pos Hpos. rewrite Hbytes by done. rewrite (BlockMap.wr_bytes _ _ _ _ _ _ Hw) by done. by rewrite Z.add_0_r. }
  unfold file_write. rewrite (bind_Ok _ _ _ _ _ (file_at_Some _ _ _ Hf)). rewrite decide_False by done.
  rewrite (bind_Ok _ _ _ _ _ (disk_of_run _ _ _ Hi)). cbv zeta. fold write_offset.
  destruct (decide (n = 0)) as [Hn0|Hn0].
  - destruct Hres as [e ->]. rewrite (bind_Err _ _ _ _ _ Hrunw). exists (Err e), s1, n, t'. rewrite !(decide_True _ _ Hn0).
    split_and!; [done|done|by apply stream_stay|lia|lia|done|done|done|by exists e].
  - subst r. rewrite (bind_Ok _ _ _ _ _ Hrunw). specialize (Hmax ltac:(lia)).
    unfold wrapping_add. rewrite wrap_small by (unfold is_uint; lia).
    eexists _, _, n, t'. rewrite !(decide_False _ _ Hn0). split_and!; [done|by apply kept_set_file| |lia|lia|done..].
    eapply stream_moved; try done. lia.
Qed.

Lemma as_i32_small x : - 2 ^ 31 ≤ x < 2 ^ 31 → as_i32 x = x.
Proof. intros Hx. unfold as_i32, wrap. destruct (Z.ltb_spec (x mod 2 ^ 32) (2 ^ 31)); Z.to_euclidean_division_equations; lia. Qed.

Lemma as_i32_over x : 2 ^ 31 ≤ x < 2 ^ 32 → as_i32 x < 0.
Proof. intros Hx. unfold as_i32, wrap. destruct (Z.ltb_spec (x mod 2 ^ 32) (2 ^ 31)); Z.to_euclidean_division_equations; lia. Qed.

(** Where a seek counts from. *)
Definition seek_base (whence : Whence) : Z :=
  match whence with SeekSet => 0 | SeekCurrent => off | SeekEnd => size (disk_inode (inner t)) end.

Lemma stream_seek offset whence : - 2 ^ 31 ≤ offset < 2 ^ 31 → let x := seek_base whence + offset in
  if decide (0 ≤ x < 2 ^ 31) then ∃ s', file_seek h offset whence s = (Ok x, s') ∧ stream s' h i am opts x t ∧ kept s s' h
  else file_seek h offset whence s = (Err INVAL, s).
Proof using Hs.
  intros Hoff x. pose proof Hs as [Hf Hi Hwf Hm Hsz Ho]. change BlockMap.MAX_FILE_SIZE with 268966912 in Hsz.
  unfold file_seek. rewrite (bind_Ok _ _ _ _ _ (file_at_Some _ _ _ Hf)). rewrite (bind_Ok _ _ _ _ _ (disk_of_run _ _ _ Hi)).
  cbv zeta. set (y := match whence with SeekSet => _ | SeekCurrent => _ | SeekEnd => _ end).
  assert (y = as_i32 x) as Hy.
  { unfold y, x, seek_base. destruct whence; [by rewrite as_i32_small by lia|by rewrite (as_i32_small off) by lia|].
    by rewrite (as_i32_small (size _)) by lia. }
  assert (- 2 ^ 31 ≤ x < 2 ^ 32) as Hx by (unfold x, seek_base; destruct whence; lia). rewrite Hy.
  destruct (decide (0 ≤ x < 2 ^ 31)) as [Hin|Hout].
  - rewrite as_i32_small by lia. rewrite (proj2 (Z.ltb_ge _ _)) by lia. eexists. split; [done|].
    split; [by eapply stream_moved|apply kept_set_file, kept_refl].
  - destruct (decide (x < 0)) as [Hneg|Hpos]; [rewrite as_i32_small by lia|pose proof (as_i32_over x ltac:(lia)) as Hlt];
      by rewrite (proj2 (Z.ltb_lt _ _)) by lia.
Qed.
End stream.

(** C7: An open file is a stream.  A file that is open on an inode reads and writes
    at its own offset and moves it by what it read or wrote; a write with [APPEND]
    goes to the end.  Reading gives the bytes of the inode and changes nothing that
    it shows; writing stores a first part of the buffer and nothing else.  A seek
    moves to any offset below 2^31 and fails for any other, without wrapping.  No
    operation touches another file, and the access mode is obeyed. *)
Theorem file_stream s h i am opts off t :
  stream s h i am opts off t →
  (∀ count, 0 ≤ count →
     if decide (am = WriteOnly) then file_read h count s = (Err BADF, s)
     else ∃ res s' n t', file_read h count s = (res, s') ∧ stream s' h i am opts (off + n) t' ∧ kept s s' h ∧ same_content t t' ∧
       0 ≤ n ≤ BlockMap.readable t off count ∧
       (res = Ok (Done (BlockMap.file_bytes t off n)) ∧ (faults t = [] → n = BlockMap.readable t off count) ∨
        res = Err IO ∧ n = 0 ∧ faults t ≠ [])) ∧
  (∀ buf, Forall (is_uint 8) buf → buf ≠ [] → let at_ := write_offset opts off t in at_ ≤ BlockMap.MAX_FILE_SIZE →
     if decide (am = ReadOnly) then file_write h buf s = (Err BADF, s)
     else ∃ res s' n t', file_write h buf s = (res, s') ∧ kept s s' h ∧
       stream s' h i am opts (if decide (n = 0) then off else at_ + n) t' ∧ 0 ≤ n ≤ Z.of_nat (length buf) ∧
       (∀ pos, 0 ≤ pos < BlockMap.MAX_FILE_SIZE → BlockMap.file_byte t' pos =
          if decide (at_ ≤ pos < at_ + n) then byte_at buf (pos - at_) else BlockMap.file_byte t pos) ∧
       size (disk_inode (inner t')) = Z.max (size (disk_inode (inner t))) (at_ + n) ∧
       (n < Z.of_nat (length buf) → BlockMap.MAX_FILE_SIZE ≤ at_ + n ∨ BlockMap.disk_full t' ∨ faults t ≠ []) ∧
       (if decide (n = 0) then ∃ e, res = Err e else res = Ok (Done n))) ∧
  (∀ offset whence, - 2 ^ 31 ≤ offset < 2 ^ 31 → let x := seek_base off t whence + offset in
     if decide (0 ≤ x < 2 ^ 31) then ∃ s', file_seek h offset whence s = (Ok x, s') ∧ stream s' h i am opts x t ∧ kept s s' h
     else file_seek h offset whence s = (Err INVAL, s)).
Proof.
  intros Hs. split_and!.
  - intros count Hc. case_decide as Ham; [|by apply stream_read].
    unfold file_read. rewrite (bind_Ok _ _ _ _ _ (file_at_Some _ _ _ (sr_file _ _ _ _ _ _ _ Hs))). by rewrite decide_True.
  - intros buf Hb Hne at_ Hat. case_decide as Ham; [|by apply stream_write].
    unfold file_write. rewrite (bind_Ok _ _ _ _ _ (file_at_Some _ _ _ (sr_file _ _ _ _ _ _ _ Hs))). by rewrite decide_True.
  - intros. by apply stream_seek.
Qed.
(** ** The table of descriptors *)

Definition slot_of (s : State) (fd : Z) : option nat := zlookup (open_files s) fd ≫= λ o, o.

(** Between two calls. *)
Definition idle (s : State) : Prop := locals s = [] ∧ held (world s) = [].

Definition with_table (s : State) (l : list (option nat)) : State :=
  with_world s (with_fs (world s)
    (Task.mkFs (Task.umask (fs (world s))) (Task.root_directory (fs (world s))) (Task.current_directory (fs (world s)))
       (Task.executable_inode (fs (world s))) (Task.close_on_exec (fs (world s))) l)).

(** The files that [l] and the other tasks refer to. *)
Definition referenced (s : State) (l : list (option nat)) (h : nat) : bool :=
  bool_decide (h ∈ omap (λ o, o) l ++ file_refs s).

(** The pipes after the reference in [fd] is gone: an end is dropped with its
    last reference. *)
Definition pipes_without (s : State) (fd : Z) : list Pipe.PipeState :=
  match slot_of s fd with
  | Some g =>
      if referenced s (zupdate (open_files s) fd None) g then pipes s
      else match files s !! g with
           | Some (PipeFile p is_write) => alter (Pipe.drop_end is_write) p (pipes s)
           | _ => pipes s
           end
  | None => pipes s
  end.

Lemma with_pipes_id s : with_pipes s (pipes s) = s.
Proof. by destruct s. Qed.

(** At most [g] is dropped. *)
Lemma drop_only s s' g l n : (∀ h, live s h = true → live s' h = false → h = g) →
  foldr (drop_file s s') l (seq 0 n) = if decide (g < n)%nat then drop_file s s' g l else l.
Proof.
  intros Hg. assert (∀ h l, h ≠ g → drop_file s s' h l = l) as Hother.
  { intros h l' Hne. unfold drop_file. destruct (live s h) eqn:E1, (live s' h) eqn:E2; try done. by destruct Hne; apply Hg. }
  induction n as [|n IH] in l |- *; [by rewrite decide_False by lia|]. rewrite seq_S, foldr_app. simpl.
  destruct (decide (n = g)) as [->|Hne].
  - rewrite IH, decide_False by lia. by rewrite decide_True by lia.
  - rewrite Hother, IH by done. by destruct (decide (g < n)%nat), (decide (g < S n)%nat); try lia.
Qed.

Lemma drop_none s s' : (∀ h, live s h = true → live s' h = true) → drop_files s s' = s'.
Proof.
  intros H. unfold drop_files. rewrite (drop_only _ _ 0).
  - case_decide; [|apply with_pipes_id]. unfold drop_file. destruct (live s 0) eqn:E; [|apply with_pipes_id].
    rewrite (H _ E). apply with_pipes_id.
  - intros h E1 E2. rewrite (H _ E1) in E2. done.
Qed.

Lemma drop_last s s' g : files s' = files s → (∀ h, live s h = true → live s' h = false → h = g) → live s g = true →
  drop_files s s' = with_pipes s' (if live s' g then pipes s' else
    match files s !! g with Some (PipeFile p is_write) => alter (Pipe.drop_end is_write) p (pipes s') | _ => pipes s' end).
Proof.
  intros Ef Hg Hl. unfold drop_files. rewrite (drop_only _ _ g) by done. unfold drop_file. rewrite Hl. simpl.
  destruct (decide _) as [?|Hn]; [by destruct (live s' g)|].
  rewrite lookup_ge_None_2 by lia. by destruct (live s' g).
Qed.

Lemma live_true s h : live s h = true ↔ h ∈ omap (λ o, o) (open_files s) ++ file_refs s ++ locals s.
Proof. apply bool_decide_eq_true. Qed.

Lemma slot_of_open s fd h : slot_of s fd = Some h ↔ zlookup (open_files s) fd = Some (Some h).
Proof. unfold slot_of. destruct (zlookup _ _) as [[|]|]; simpl; split; congruence. Qed.

Lemma zlookup_elem {A} (l : list A) i x : zlookup l i = Some x → x ∈ l.
Proof. unfold zlookup. destruct (0 <=? i); [|done]. by apply list_elem_of_lookup_2. Qed.

Lemma slot_of_elem s fd h : slot_of s fd = Some h → h ∈ omap (λ o, o) (open_files s).
Proof. intros H%slot_of_open%zlookup_elem. apply list_elem_of_omap. by exists (Some h). Qed.

Lemma slot_of_live s fd h : slot_of s fd = Some h → live s h = true.
Proof. intros H%slot_of_elem. apply live_true, elem_of_app. by left. Qed.

(** *** What the calls start and end with *)

Section calls.
Context (s : State) (Hidle : idle s).

Let kept_local (h : nat) : State := with_locals s [h].

Lemma lookup_file_open fd h : slot_of s fd = Some h → lookup_file fd s = (Ok h, kept_local h).
Proof using Hidle.
  intros H. unfold lookup_file. erewrite bind_Ok by reflexivity. unfold slot_of in H. rewrite H.
  erewrite bind_Ok by reflexivity. unfold kept_local. destruct Hidle as [El _]. unfold keep, mmodify. erewrite bind_Ok by reflexivity. by rewrite El.
Qed.

Lemma lookup_file_closed fd : slot_of s fd = None → lookup_file fd s = (Err BADF, s).
Proof. intros H. unfold lookup_file. erewrite bind_Ok by reflexivity. unfold slot_of in H. by rewrite H. Qed.

Lemma fcall_end {A} (m : M State A) r s1 : m s = (r, s1) → held (world s1) = [] →
  (∀ h, h ∈ locals s1 → h ∈ omap (λ o, o) (open_files s1) ++ file_refs s1) → fcall m s = (r, with_locals s1 []).
Proof.
  intros Hm Hh Hl. unfold fcall. rewrite Hm. assert (with_held (world s1) [] = world s1) as -> by (revert Hh; destruct (world s1); unfold with_held; simpl; by intros ->).
  rewrite with_world_id. f_equal. apply drop_none. intros h [H|[H|H]%elem_of_app]%live_true%elem_of_app; apply live_true; simpl; rewrite app_nil_r.
  - apply elem_of_app. by left.
  - apply elem_of_app. by right.
  - auto.
Qed.

Lemma with_locals_idle : with_locals s [] = s.
Proof using Hidle. destruct s, Hidle as [El _]. simpl in *. by subst. Qed.

(** The call ends without a change. *)
Lemma fcall_same {A} (m : M State A) r : m s = (r, s) → fcall m s = (r, s).
Proof using Hidle.
  intros Hm. rewrite (fcall_end _ _ _ Hm); [by rewrite with_locals_idle|apply Hidle|].
  destruct Hidle as [El _]. intros h. rewrite El. by intros ?%elem_of_nil.
Qed.

Lemma fcall_kept {A} (m : M State A) r fd h : slot_of s fd = Some h → m s = (r, kept_local h) → fcall m s = (r, s).
Proof using Hidle.
  intros Hs Hm. rewrite (fcall_end _ _ _ Hm).
  - f_equal. apply with_locals_idle.
  - apply Hidle.
  - simpl. intros ? ->%list_elem_of_singleton. apply elem_of_app. left. by eapply slot_of_elem.
Qed.

(** *** Changes of the table *)

Lemma elem_of_table (l : list (option nat)) h : h ∈ omap (λ o, o) l ↔ ∃ j, zlookup l j = Some (Some h).
Proof.
  rewrite list_elem_of_omap. split.
  - intros (o & [j Hj]%list_elem_of_lookup_1 & ->). exists (Z.of_nat j). unfold zlookup.
    by rewrite (proj2 (Z.leb_le _ _)), Nat2Z.id by lia.
  - intros (j & Hj%zlookup_elem). eauto.
Qed.

Lemma elem_of_zupdate (l : list (option nat)) fd o x : is_Some (zlookup l fd) →
  x ∈ omap (λ o, o) (zupdate l fd o) ↔ o = Some x ∨ x ∈ omap (λ o, o) (zupdate l fd None).
Proof.
  intros Hfd%zlookup_is_Some. rewrite !elem_of_table. split.
  - intros (j & Hj). rewrite zlookup_zupdate in Hj by done. case_decide as E; [left; by injection Hj|].
    right. exists j. rewrite zlookup_zupdate by done. by rewrite decide_False.
  - intros [->|(j & Hj)]; [exists fd; rewrite zlookup_zupdate by done; by rewrite decide_True|].
    rewrite zlookup_zupdate in Hj by done. case_decide as E; [done|]. exists j. rewrite zlookup_zupdate by done. by rewrite decide_False.
Qed.

Lemma zupdate_same (l : list (option nat)) fd o : zlookup l fd = Some o → zupdate l fd o = l.
Proof.
  unfold zlookup, zupdate. destruct (0 <=? fd); [|done]. apply list_insert_id.
Qed.

Lemma elem_of_open fd o x : zlookup (open_files s) fd = Some o →
  x ∈ omap (λ o, o) (open_files s) ↔ o = Some x ∨ x ∈ omap (λ o, o) (zupdate (open_files s) fd None).
Proof.
  intros Ho. rewrite <- (zupdate_same _ _ _ Ho) at 1. apply elem_of_zupdate. by eexists.
Qed.

Lemma set_open_files_run L fd (o o' : option nat) :
  (L = [] ∧ o' = None ∨ ∃ h, L = [h] ∧ o' = Some h ∧ h ∈ omap (λ o, o) (zupdate (open_files s) fd None)) →
  zlookup (open_files s) fd = Some o →
  set_open_files (zupdate (open_files s) fd o') (with_locals s L) =
    (Ok (), with_pipes (with_locals (with_table s (zupdate (open_files s) fd o')) L) (pipes_without s fd)).
Proof.
  intros HL Ho. unfold set_open_files, set_context, with_drops, mmodify. f_equal.
  change (drop_files (with_locals s L) (with_locals (with_table s (zupdate (open_files s) fd o')) L) =
    with_pipes (with_locals (with_table s (zupdate (open_files s) fd o')) L) (pipes_without s fd)).
  assert (is_Some (zlookup (open_files s) fd)) as Hfd by by eexists.
  set (s' := with_locals (with_table s (zupdate (open_files s) fd o')) L).
  assert (∀ h, live s' h = true ↔ h ∈ omap (λ o, o) (zupdate (open_files s) fd None) ++ file_refs s) as Hlive.
  { intros h. rewrite live_true. change (open_files s') with (zupdate (open_files s) fd o').
    change (file_refs s') with (file_refs s). change (locals s') with L.
    rewrite !elem_of_app, (elem_of_zupdate _ _ o') by done. destruct HL as [[-> ->]|(g & -> & -> & Hg)].
    - rewrite elem_of_nil. naive_solver.
    - rewrite list_elem_of_singleton. naive_solver. }
  assert (∀ h, live (with_locals s L) h = true → live s' h = false → o = Some h) as Hdrop.
  { intros h H1 H2. assert (¬ live s' h = true) as H3 by congruence. rewrite Hlive, elem_of_app in H3.
    apply live_true in H1. change (open_files (with_locals s L)) with (open_files s) in H1. simpl in H1.
    rewrite !elem_of_app in H1. destruct H1 as [H1|[H1|H1]]; [|tauto|].
    - apply (elem_of_open _ _ _ Ho) in H1 as [?|?]; [done|tauto].
    - destruct HL as [[-> _]|(g & -> & _ & Hg)]; [by apply elem_of_nil in H1|].
      apply list_elem_of_singleton in H1. subst. tauto. }
  unfold pipes_without, slot_of. rewrite Ho. destruct o as [g|]; simpl.
  - rewrite (drop_last _ _ g).
    + assert (live s' g = referenced s (zupdate (open_files s) fd None) g) as ->.
      { apply eq_true_iff_eq. rewrite Hlive. symmetry. apply bool_decide_eq_true. }
      change (files (with_locals s L)) with (files s). change (pipes s') with (pipes s). reflexivity.
    + done.
    + intros h H1 H2. specialize (Hdrop h H1 H2). congruence.
    + apply live_true. apply elem_of_app. left. apply (elem_of_open _ _ _ Ho). by left.
  - rewrite drop_none; [|intros h H1; destruct (live s' h) eqn:E; [done|by specialize (Hdrop h H1 E)]].
    change (pipes s) with (pipes s'). by rewrite with_pipes_id.
Qed.
(** The call ends with a new table and the local files [L] in it. *)
Lemma fcall_table {A} (m : M State A) r L l p :
  m s = (r, with_pipes (with_locals (with_table s l) L) p) → (∀ h, h ∈ L → h ∈ omap (λ o, o) l) →
  fcall m s = (r, with_pipes (with_table s l) p).
Proof using Hidle.
  intros Hm HL. rewrite (fcall_end _ _ _ Hm).
  - f_equal. destruct Hidle as [El _]. unfold with_pipes, with_locals, with_table, with_world. simpl. by rewrite El.
  - apply Hidle.
  - intros h Hh. apply elem_of_app. left. by apply HL.
Qed.

Lemma call_close fd h : slot_of s fd = Some h →
  sys_close fd s = (Ok 0, with_pipes (with_table s (zupdate (open_files s) fd None)) (pipes_without s fd)).
Proof using Hidle.
  intros Hs%slot_of_open. eapply (fcall_table _ _ []); [|by intros ? ?%elem_of_nil].
  erewrite bind_Ok by reflexivity. rewrite Hs. erewrite bind_Ok by reflexivity. cbv beta iota.
  pose proof (set_open_files_run [] fd (Some h) None ltac:(by left) Hs) as Hrun. rewrite with_locals_idle in Hrun.
  rewrite (bind_Ok _ _ _ _ _ Hrun). done.
Qed.

Lemma call_dup2 fd newfd h : slot_of s fd = Some h → fd ≠ newfd →
  sys_dup2 fd newfd s =
    match zlookup (open_files s) newfd with
    | Some _ => (Ok newfd, with_pipes (with_table s (zupdate (open_files s) newfd (Some h))) (pipes_without s newfd))
    | None => (Err BADF, s)
    end.
Proof using Hidle.
  intros Hs Hne. unfold sys_dup2. rewrite (proj2 (Z.eqb_neq _ _) Hne). destruct (zlookup (open_files s) newfd) as [o|] eqn:Ho.
  - assert (h ∈ omap (λ o, o) (zupdate (open_files s) newfd None)) as Hin.
    { apply elem_of_table. exists fd. apply slot_of_open in Hs. rewrite zlookup_zupdate by (by eapply zlookup_Some).
      by rewrite decide_False. }
    eapply (fcall_table _ _ [h]).
    + rewrite (bind_Ok _ _ _ _ _ (lookup_file_open _ _ Hs)). erewrite bind_Ok by reflexivity.
      change (open_files (kept_local h)) with (open_files s). rewrite Ho. erewrite bind_Ok by reflexivity.
      rewrite (bind_Ok _ _ _ _ _ (set_open_files_run [h] newfd o (Some h) ltac:(right; by exists h) Ho)). done.
    + intros ? ->%list_elem_of_singleton. apply elem_of_zupdate; [by eexists|by left].
  - eapply fcall_kept; [done|]. rewrite (bind_Ok _ _ _ _ _ (lookup_file_open _ _ Hs)). erewrite bind_Ok by reflexivity.
    change (open_files (kept_local h)) with (open_files s). by rewrite Ho.
Qed.

Lemma add_file_open fd h n : slot_of s fd = Some h → zlookup (open_files s) n = Some None →
  (∀ j, 0 ≤ j < n → zlookup (open_files s) j ≠ Some None) →
  Task.add_file h (fs (world s)) = Some (Z.to_nat n, fs (world (with_table s (zupdate (open_files s) n (Some h))))).
Proof.
  intros Hs Hn Hlow. pose proof (zlookup_Some _ _ _ Hn) as Hb. unfold Task.add_file. fold (open_files s).
  assert (position (λ o : option nat, negb (bool_decide (is_Some o))) (open_files s) = Some (Z.to_nat n)) as ->.
  { apply position_Some. unfold zlookup in Hn. rewrite (proj2 (Z.leb_le _ _)) in Hn by lia.
    split; [by exists None|]. intros j o Hj Ho. destruct o as [g|]; [done|]. exfalso. apply (Hlow (Z.of_nat j)); [lia|].
    unfold zlookup. by rewrite (proj2 (Z.leb_le _ _)), Nat2Z.id by lia. }
  simpl. unfold zupdate. by rewrite (proj2 (Z.leb_le _ _)) by lia.
Qed.
Lemma call_dup fd h n : slot_of s fd = Some h → zlookup (open_files s) n = Some None →
  (∀ j, 0 ≤ j < n → zlookup (open_files s) j ≠ Some None) →
  sys_dup fd s = (Ok n, with_table s (zupdate (open_files s) n (Some h))).
Proof using Hidle.
  intros Hs Hn Hlow. pose proof (zlookup_Some _ _ _ Hn) as Hb.
  assert (pipes_without s n = pipes s) as Hp by (unfold pipes_without, slot_of; by rewrite Hn).
  replace (with_table s (zupdate (open_files s) n (Some h)))
    with (with_pipes (with_table s (zupdate (open_files s) n (Some h))) (pipes_without s n)) by (by rewrite Hp; destruct s).
  eapply (fcall_table _ _ [h]).
  - rewrite (bind_Ok _ _ _ _ _ (lookup_file_open _ _ Hs)). unfold add_file. erewrite bind_Ok by reflexivity.
    change (fs (world (kept_local h))) with (fs (world s)). rewrite (add_file_open _ _ _ Hs Hn Hlow). rewrite Z2Nat.id by lia.
    pose proof (set_open_files_run [h] n None (Some h)) as Hrun. unfold set_open_files in Hrun.
    erewrite bind_Ok; [reflexivity|]. unfold set_context, with_drops, mmodify in *. apply Hrun; [|done].
    right. exists h. split_and!; [done..|]. rewrite (zupdate_same _ _ _ Hn). by eapply slot_of_elem.
  - intros ? ->%list_elem_of_singleton. apply elem_of_zupdate; [by eexists|by left].
Qed.

Lemma call_dup_full fd h : slot_of s fd = Some h → (∀ j, zlookup (open_files s) j ≠ Some None) → sys_dup fd s = (Err MFILE, s).
Proof using Hidle.
  intros Hs Hfull. eapply fcall_kept; [done|]. rewrite (bind_Ok _ _ _ _ _ (lookup_file_open _ _ Hs)).
  unfold add_file. erewrite bind_Ok by reflexivity. unfold Task.add_file. change (Task.open_files (fs (world (kept_local h)))) with (open_files s).
  assert (position (λ o : option nat, negb (bool_decide (is_Some o))) (open_files s) = None) as ->; [|done].
  apply position_None. intros [g|] Hg; [done|]. exfalso. apply list_elem_of_lookup_1 in Hg as [j Hj].
  apply (Hfull (Z.of_nat j)). unfold zlookup. by rewrite (proj2 (Z.leb_le _ _)), Nat2Z.id by lia.
Qed.

Lemma call_closed {A} fd (k : nat → M State A) : slot_of s fd = None → fcall (h <- lookup_file fd;; k h) s = (Err BADF, s).
Proof using Hidle.
  intros Hs. apply fcall_same. by rewrite (bind_Err _ _ _ _ _ (lookup_file_closed _ Hs)).
Qed.
End calls.

(** C25: Descriptors.  Every call on a descriptor that is not open fails with [BADF]
    and changes nothing.  [dup] takes the lowest free descriptor, or fails when
    there is none; [dup2] replaces the file of a descriptor in range, and [close]
    removes it; the other descriptors stay.  The file that loses its descriptor
    stays open while another one, or another task, refers to it; an end of a pipe
    is dropped exactly with its last reference.  The close-on-exec bits are left as
    they are, also that of a descriptor that is closed or taken. *)
Theorem descriptor_calls s fd :
  idle s →
  match slot_of s fd with
  | None =>
      sys_close fd s = (Err BADF, s) ∧ sys_dup fd s = (Err BADF, s) ∧ (∀ newfd, sys_dup2 fd newfd s = (Err BADF, s)) ∧
      (∀ n, sys_read fd n s = (Err BADF, s)) ∧ (∀ buf, sys_write fd buf s = (Err BADF, s)) ∧ sys_fstat fd s = (Err BADF, s) ∧
      sys_ioctl fd s = (Err BADF, s) ∧ ∀ cmd arg, sys_fcntl fd cmd arg s = (Err BADF, s)
  | Some h =>
      let table := open_files s in
      (∀ n, zlookup table n = Some None → (∀ j, 0 ≤ j < n → zlookup table j ≠ Some None) →
         sys_dup fd s = (Ok n, with_table s (zupdate table n (Some h)))) ∧
      ((∀ n, zlookup table n ≠ Some None) → sys_dup fd s = (Err MFILE, s)) ∧
      sys_close fd s = (Ok 0, with_pipes (with_table s (zupdate table fd None)) (pipes_without s fd)) ∧
      (∀ newfd, sys_dup2 fd newfd s =
         if decide (fd = newfd) then (Ok newfd, s)
         else match zlookup table newfd with
              | Some _ => (Ok newfd, with_pipes (with_table s (zupdate table newfd (Some h))) (pipes_without s newfd))
              | None => (Err BADF, s)
              end)
  end.
Proof.
  intros Hidle. destruct (slot_of s fd) as [h|] eqn:Hs.
  - split_and!; [intros; by apply call_dup|intros; by eapply call_dup_full|by eapply call_close|].
    intros newfd. case_decide as E; [|by apply call_dup2]. unfold sys_dup2. rewrite (proj2 (Z.eqb_eq _ _) E).
    eapply fcall_kept; [done..|]. by rewrite (bind_Ok _ _ _ _ _ (lookup_file_open _ Hidle _ _ Hs)).
  - split_and!; intros; try by apply call_closed.
    + apply fcall_same; [done|]. erewrite bind_Ok by reflexivity. unfold slot_of in Hs. destruct (zlookup _ fd) as [[|]|] eqn:E; try done;
        erewrite ?bind_Ok by (rewrite E; reflexivity); rewrite ?E; done.
    + unfold sys_dup2. case_match; by apply call_closed.
Qed.

(** A file of three bytes and a pipe of which only the write end is left. *)
Definition sample_state : State :=
  mkState
    (mkWorld {[769 := mkDevice (cache BlockMap.sample_file) []]} [sample_fs]
       [mkInode (mkId 769 1) 0 (mkInner BlockMap.sample_inode false 0 0)] (mkTable (replicate INODE_TABLE_CAPACITY None) 0) [Some (mkMount 769 0 0 None)]
       (Task.mkFs 0 None None None 8 [Some 0%nat; None; None; Some 1%nat]) (Task.mkIdentity 0 0 0 0 0 0) [] [] 1000)
    [InodeFile ReadWrite 0 0 1; PipeFile 0 true] [Pipe.mkPipe [] 0 0 0 1] [] [] [] 0.

Lemma sample_stream : stream sample_state 0 0 ReadWrite 0 1 BlockMap.sample_file.
Proof. split; [done..|apply BlockMap.sample_file_wf|done|split; [done|by vm_compute]|lia]. Qed.

Lemma file_stream_witness :
  (∃ s', file_read 0 5 sample_state = (Ok (Done [98; 99]), s')) ∧ file_seek 0 (-2) SeekCurrent sample_state = (Err INVAL, sample_state).
Proof.
  destruct (file_stream _ _ _ _ _ _ _ sample_stream) as (Hr & _ & Hk). split.
  - specialize (Hr 5 ltac:(lia)). rewrite decide_False in Hr by done.
    destruct Hr as (res & s' & n & t' & Hr & _ & _ & _ & _ & [[-> Hn]|(_ & _ & Hf)]); [|by destruct Hf].
    exists s'. rewrite Hr, (Hn eq_refl). reflexivity.
  - specialize (Hk (-2) SeekCurrent ltac:(lia)). exact Hk.
Defined.

(** Descriptor 3 has its close-on-exec bit, and keeps it when it is closed. *)
Lemma descriptor_calls_witness :
  sys_close 1 sample_state = (Err BADF, sample_state) ∧
  ∃ s', sys_close 3 sample_state = (Ok 0, s') ∧ pipes s' = [Pipe.mkPipe [] 0 0 0 0] ∧ Task.close_on_exec (fs (world s')) = 8.
Proof.
  assert (idle sample_state) as Hidle by done. split.
  - apply (descriptor_calls sample_state 1 Hidle).
  - destruct (descriptor_calls sample_state 3 Hidle) as (_ & _ & Hc & _). eexists. split; [exact Hc|]. split; reflexivity.
Defined.
End Files.
