(* ===== verification/Text.v ===== *)
(** * Strings

    The functions of the Rust library on strings that several programs use.  A
    string is the list of its characters, as numbers; UTF-8 is at the end. *)

From Stdlib Require Import Ascii String.
From S2P Require Import Prelude.
Open Scope Z_scope.

Module Text.

(** An ASCII literal. *)
Definition str (s : string) : list Z := map (λ c, Z.of_N (N_of_ascii c)) (list_ascii_of_string s).
Arguments str s%_string.

(** ** Searching and trimming *)

(** [char::is_whitespace]. *)
Definition is_whitespace (c : Z) : bool :=
  ((9 <=? c) && (c <=? 13)) || (c =? 32) || (c =? 133) || (c =? 160) || (c =? 5760) ||
  ((8192 <=? c) && (c <=? 8202)) || (c =? 8232) || (c =? 8233) || (c =? 8239) || (c =? 8287) || (c =? 12288).

Fixpoint drop_while {A} (p : A → bool) (l : list A) : list A :=
  match l with
  | [] => []
  | x :: l' => if p x then drop_while p l' else l
  end.

Definition trim_start (s : list Z) : list Z := drop_while is_whitespace s.

Definition trim (s : list Z) : list Z := reverse (drop_while is_whitespace (reverse (drop_while is_whitespace s))).

Definition to_ascii_lowercase (s : list Z) : list Z := map (λ c, if (65 <=? c) && (c <=? 90) then c + 32 else c) s.

Definition eq_ignore_ascii_case (a b : list Z) : bool := bool_decide (to_ascii_lowercase a = to_ascii_lowercase b).

Fixpoint strip_prefix (p s : list Z) : option (list Z) :=
  match p, s with
  | [], _ => Some s
  | x :: p, y :: s => if x =? y then strip_prefix p s else None
  | _, [] => None
  end.

Definition is_digit (c : Z) : bool := (48 <=? c) && (c <=? 57).

Definition to_digit (radix c : Z) : option Z :=
  let v := if is_digit c then Some (c - 48)
           else if (97 <=? c) && (c <=? 122) then Some (c - 87)
           else if (65 <=? c) && (c <=? 90) then Some (c - 55)
           else None in
  match v with Some d => if d <? radix then Some d else None | None => None end.

(** [from_str_radix] of an unsigned type of [w] bits, with its optional plus sign. *)
Fixpoint parse_digits (w radix acc : Z) (s : list Z) : option Z :=
  match s with
  | [] => Some acc
  | c :: s =>
      d ← to_digit radix c;
      let x := acc * radix + d in
      if x <? 2 ^ w then parse_digits w radix x s else None
  end.

Definition from_str_radix (w radix : Z) (s : list Z) : option Z :=
  match s with
  | [] => None
  | c :: s' => if c =? 43 then match s' with [] => None | _ => parse_digits w radix 0 s' end
               else parse_digits w radix 0 s
  end.

(** ** Decimal numbers *)

Fixpoint decimal_loop (fuel : nat) (n : Z) (acc : list Z) : list Z :=
  match fuel with
  | O => acc
  | S fuel =>
      let acc := (48 + n mod 10) :: acc in
      if n / 10 =? 0 then acc else decimal_loop fuel (n / 10) acc
  end.

(** [to_string] of an integer. *)
Definition to_decimal (n : Z) : list Z :=
  if n <? 0 then 45 :: decimal_loop (S (Z.to_nat (Z.log2 (- n)))) (- n) []
  else decimal_loop (S (Z.to_nat (Z.log2 n))) n [].

Example to_decimal_1 : map to_decimal [0; 9; 1024; -70] = map str ["0"; "9"; "1024"; "-70"]%string.
Proof. reflexivity. Qed.

Lemma decimal_digit n : 0 ≤ n → is_digit (48 + n mod 10) = true ∧ to_digit 10 (48 + n mod 10) = Some (n mod 10).
Proof.
  intros Hn. pose proof (Z.mod_pos_bound n 10). assert (is_digit (48 + n mod 10) = true) as Hdig by (unfold is_digit; lia). split; [done|].
  unfold to_digit. rewrite Hdig. cbv zeta iota. replace (48 + n mod 10 - 48) with (n mod 10) by lia. by rewrite (proj2 (Z.ltb_lt _ _)) by lia.
Qed.

Lemma parse_decimal_loop w fuel : ∀ n acc, 0 ≤ n < 2 ^ Z.of_nat fuel → n < 2 ^ w → parse_digits w 10 0 (decimal_loop fuel n acc) = parse_digits w 10 n acc.
Proof.
  induction fuel as [|fuel IH]; intros n acc Hn Hw; cbn [decimal_loop]; [by replace n with 0 by lia|]. destruct (decimal_digit n) as [_ Hd]; [lia|].
  rewrite Nat2Z.inj_succ, Z.pow_succ_r in Hn by lia. destruct (Z.eqb_spec (n / 10) 0) as [Hz|Hz].
  - cbn [parse_digits]. rewrite Hd. cbn [mbind option_bind]. replace (0 * 10 + n mod 10) with n by (Z.to_euclidean_division_equations; lia).
    by rewrite (proj2 (Z.ltb_lt _ _)) by lia.
  - rewrite IH; [|Z.to_euclidean_division_equations; lia|Z.to_euclidean_division_equations; lia]. cbn [parse_digits]. rewrite Hd. cbn [mbind option_bind].
    replace (n / 10 * 10 + n mod 10) with n by (Z.to_euclidean_division_equations; lia). by rewrite (proj2 (Z.ltb_lt _ _)) by lia.
Qed.

Lemma parse_decimal w n : 0 ≤ n < 2 ^ w → parse_digits w 10 0 (to_decimal n) = Some n.
Proof.
  intros Hn. unfold to_decimal. rewrite (proj2 (Z.ltb_ge _ _)) by lia. rewrite parse_decimal_loop; [done| |lia]. split; [lia|].
  rewrite Nat2Z.inj_succ, Z2Nat.id by apply Z.log2_nonneg. destruct (Z.eq_dec n 0) as [->|]; [done|]. apply Z.log2_spec. lia.
Qed.

Lemma decimal_loop_digits fuel : ∀ n acc, 0 ≤ n → forallb is_digit acc = true → forallb is_digit (decimal_loop fuel n acc) = true.
Proof.
  induction fuel as [|fuel IH]; intros n acc Hn Ha; [done|]. cbn [decimal_loop]. destruct (decimal_digit n Hn) as [Hd _].
  assert (forallb is_digit ((48 + n mod 10) :: acc) = true) as H by (cbn [forallb]; by rewrite Hd). destruct (n / 10 =? 0); [done|].
  apply IH; [|done]. apply Z.div_pos; lia.
Qed.

Lemma decimal_loop_nonempty fuel : ∀ n acc, acc ≠ [] → decimal_loop fuel n acc ≠ [].
Proof. induction fuel as [|fuel IH]; intros n acc Ha; cbn; [done|]. destruct (n / 10 =? 0); [done|]. by apply IH. Qed.

Lemma to_decimal_digits n : 0 ≤ n → forallb is_digit (to_decimal n) = true ∧ to_decimal n ≠ [].
Proof.
  intros Hn. unfold to_decimal. rewrite (proj2 (Z.ltb_ge _ _)) by lia. split; [by apply decimal_loop_digits|].
  cbn [decimal_loop]. destruct (n / 10 =? 0); [done|by apply decimal_loop_nonempty].
Qed.

(** [split_at(s.find(p))]. *)
Fixpoint split_while {A} (p : A → bool) (l : list A) : list A * list A :=
  match l with
  | [] => ([], [])
  | x :: l' => if p x then let '(a, b) := split_while p l' in (x :: a, b) else ([], l)
  end.

Definition split_once (sep : Z) (s : list Z) : option (list Z * list Z) :=
  match split_while (λ c, negb (c =? sep)) s with
  | (a, _ :: b) => Some (a, b)
  | (_, []) => None
  end.

Fixpoint split_on (sep : Z) (s : list Z) : list (list Z) :=
  match s with
  | [] => [[]]
  | c :: s =>
      if c =? sep then [] :: split_on sep s
      else match split_on sep s with
           | x :: l => (c :: x) :: l
           | [] => [[c]]
           end
  end.

(** ** UTF-8 *)

(** [str::from_utf8]: the shortest form of a scalar value, or nothing. *)
Definition continuation (b : Z) : bool := (128 <=? b) && (b <? 192).

Definition decode_char (s : list Z) : option (Z * list Z) :=
  match s with
  | [] => None
  | b0 :: s =>
      if b0 <? 128 then Some (b0, s)
      else if (194 <=? b0) && (b0 <=? 223) then
        match s with
        | b1 :: s => if continuation b1 then Some ((b0 - 192) * 64 + (b1 - 128), s) else None
        | _ => None
        end
      else if (224 <=? b0) && (b0 <=? 239) then
        match s with
        | b1 :: b2 :: s =>
            let c := (b0 - 224) * 4096 + (b1 - 128) * 64 + (b2 - 128) in
            if continuation b1 && continuation b2 && (2048 <=? c) && negb ((55296 <=? c) && (c <=? 57343))
            then Some (c, s) else None
        | _ => None
        end
      else if (240 <=? b0) && (b0 <=? 244) then
        match s with
        | b1 :: b2 :: b3 :: s =>
            let c := (b0 - 240) * 262144 + (b1 - 128) * 4096 + (b2 - 128) * 64 + (b3 - 128) in
            if continuation b1 && continuation b2 && continuation b3 && (65536 <=? c) && (c <=? 1114111)
            then Some (c, s) else None
        | _ => None
        end
      else None
  end.

Fixpoint decode_loop (fuel : nat) (s : list Z) : option (list Z) :=
  match s, fuel with
  | [], _ => Some []
  | _, O => None
  | _, S fuel => '(c, s) ← decode_char s; l ← decode_loop fuel s; Some (c :: l)
  end.

(** Every character has a byte at least. *)
Definition from_utf8 (s : list Z) : option (list Z) := decode_loop (length s) s.

Definition encode_char (c : Z) : list Z :=
  if c <? 128 then [c]
  else if c <? 2048 then [192 + c / 64; 128 + c mod 64]
  else if c <? 65536 then [224 + c / 4096; 128 + c / 64 mod 64; 128 + c mod 64]
  else [240 + c / 262144; 128 + c / 4096 mod 64; 128 + c / 64 mod 64; 128 + c mod 64].

Definition as_bytes (s : list Z) : list Z := flat_map encode_char s.

(** A character: a scalar value of Unicode. *)
Definition is_char (c : Z) : Prop := 0 ≤ c ≤ 1114111 ∧ ¬ 55296 ≤ c ≤ 57343.

Lemma decode_encode_char c s : is_char c → decode_char (encode_char c ++ s) = Some (c, s).
Proof.
  intros [Hc Hs]. unfold encode_char. destruct (Z.ltb_spec c 128) as [H1|H1]; [simpl; by rewrite (proj2 (Z.ltb_lt _ _)) by lia|].
  destruct (Z.ltb_spec c 2048) as [H2|H2]; [|destruct (Z.ltb_spec c 65536) as [H3|H3]].
  - assert (2 ≤ c / 64 < 32 ∧ 0 ≤ c mod 64 < 64 ∧ c = c / 64 * 64 + c mod 64) as (Ha & Hb & E) by (Z.to_euclidean_division_equations; lia).
    cbn [app decode_char]. unfold continuation.
    rewrite (proj2 (Z.ltb_ge _ _)), !(proj2 (Z.leb_le _ _)), !(proj2 (Z.ltb_lt _ _)) by lia. cbn [andb]. do 2 f_equal. lia.
  - assert (0 ≤ c / 4096 < 16 ∧ 0 ≤ c / 64 mod 64 < 64 ∧ 0 ≤ c mod 64 < 64 ∧ c = c / 4096 * 4096 + c / 64 mod 64 * 64 + c mod 64)
      as (Ha & Hb & Hd & E) by (Z.to_euclidean_division_equations; lia).
    cbn [app decode_char]. unfold continuation.
    rewrite (proj2 (Z.ltb_ge (224 + _) _)), (proj2 (Z.leb_le 194 _)), (proj2 (Z.leb_gt (224 + _) 223)), (proj2 (Z.leb_le 224 _)), (proj2 (Z.leb_le (224 + _) 239)) by lia.
    cbn [andb]. replace ((224 + c / 4096 - 224) * 4096 + (128 + c / 64 mod 64 - 128) * 64 + (128 + c mod 64 - 128)) with c by lia.
    rewrite !(proj2 (Z.leb_le 128 _)), !(proj2 (Z.ltb_lt _ 192)), (proj2 (Z.leb_le 2048 _)) by lia. cbn [andb].
    destruct (Z.leb_spec 55296 c), (Z.leb_spec c 57343); simpl; done || lia.
  - assert (0 ≤ c / 262144 < 5 ∧ 0 ≤ c / 4096 mod 64 < 64 ∧ 0 ≤ c / 64 mod 64 < 64 ∧ 0 ≤ c mod 64 < 64 ∧
      c = c / 262144 * 262144 + c / 4096 mod 64 * 4096 + c / 64 mod 64 * 64 + c mod 64)
      as (Ha & Hb & Hd & He & E) by (Z.to_euclidean_division_equations; lia).
    cbn [app decode_char]. unfold continuation.
    rewrite (proj2 (Z.ltb_ge (240 + _) _)), (proj2 (Z.leb_le 194 _)), (proj2 (Z.leb_gt (240 + _) 223)), (proj2 (Z.leb_le 224 _)),
      (proj2 (Z.leb_gt (240 + _) 239)), (proj2 (Z.leb_le 240 _)), (proj2 (Z.leb_le (240 + _) 244)) by lia. cbn [andb].
    replace ((240 + c / 262144 - 240) * 262144 + (128 + c / 4096 mod 64 - 128) * 4096 + (128 + c / 64 mod 64 - 128) * 64 + (128 + c mod 64 - 128)) with c by lia.
    rewrite !(proj2 (Z.leb_le 128 _)), !(proj2 (Z.ltb_lt _ 192)), (proj2 (Z.leb_le 65536 _)), (proj2 (Z.leb_le c _)) by lia. done.
Qed.

Lemma from_as_bytes s : Forall is_char s → from_utf8 (as_bytes s) = Some s.
Proof.
  intros Hs. unfold from_utf8. assert (∀ fuel, (length (as_bytes s) <= fuel)%nat → decode_loop fuel (as_bytes s) = Some s) as H; [|by apply H].
  induction Hs as [|c s Hc Hs IH]; intros fuel Hf; [by destruct fuel|]. cbn [as_bytes flat_map] in *. fold (as_bytes s) in *.
  assert (∃ b l, encode_char c = b :: l) as (b & l & E) by (unfold encode_char; repeat case_match; eauto).
  pose proof (decode_encode_char c (as_bytes s) Hc) as Hd. rewrite E in *. cbn [app] in *.
  destruct fuel as [|fuel]; [simpl in Hf; lia|]. cbn [decode_loop]. rewrite Hd. cbn [mbind option_bind].
  rewrite IH; [done|]. simpl in Hf. rewrite length_app in Hf. lia.
Qed.
End Text.
