(* ===== verification/Io.v ===== *)
(** * Readers and writers of the user library ([user_lib/src/io])

    The traits of [mod.rs] are type classes; what a source or sink promises is a
    class of laws, which the buffered adapters of [buffered.rs] rely on and, for
    their own clients, keep.  A loop that tries again after an interruption has
    [turns] turns; the laws bound the interruptions that are to come. *)

From S2P Require Import Prelude Text.
From stdpp Require Import list.
Open Scope Z_scope.

Module Io.
#[local] Set Default Proof Using "Type".

(** ** Errors ([io/error.rs]) *)

Inductive ErrorKind : Set :=
| NotFound | PermissionDenied | BrokenPipe | AlreadyExists | WouldBlock | NotADirectory | IsADirectory
| DirectoryNotEmpty | ReadOnlyFilesystem | InvalidInput | InvalidData | WriteZero | StorageFull | NotSeekable
| FileTooLarge | ResourceBusy | ExecutableFileBusy | CrossesDevices | TooManyLinks | ArgumentListTooLong
| Interrupted | Unsupported | UnexpectedEof | OutOfMemory | Other.

#[export] Instance ErrorKind_eq_dec : EqDecision ErrorKind.
Proof. solve_decision. Defined.

(** A system error, or a kind with nothing, a message or an object attached. *)
Inductive Error : Set := Os (c : Z) | Simple (k : ErrorKind) | SimpleMessage (k : ErrorKind) | Custom (k : ErrorKind).

Definition one_of (raw : Z) (l : list Errno) : bool := existsb (λ e, raw =? code e) l.

Definition errno_to_kind (c : Z) : ErrorKind :=
  let raw := if c <? 0 then wrap 32 (- c) else wrap 32 c in
  if one_of raw [PERM; ACCESS] then PermissionDenied
  else if one_of raw [NOENT; SRCH; NXIO; NODEV] then NotFound
  else if one_of raw [INTR] then Interrupted
  else if one_of raw [AGAIN] then WouldBlock
  else if one_of raw [NOMEM] then OutOfMemory
  else if one_of raw [EXIST] then AlreadyExists
  else if one_of raw [XDEV] then CrossesDevices
  else if one_of raw [NOTDIR] then NotADirectory
  else if one_of raw [ISDIR] then IsADirectory
  else if one_of raw [INVAL; FAULT; DOM; RANGE; NAMETOOLONG] then InvalidInput
  else if one_of raw [BUSY] then ResourceBusy
  else if one_of raw [TXTBSY] then ExecutableFileBusy
  else if one_of raw [FBIG] then FileTooLarge
  else if one_of raw [NOSPC] then StorageFull
  else if one_of raw [SPIPE] then NotSeekable
  else if one_of raw [ROFS] then ReadOnlyFilesystem
  else if one_of raw [MLINK] then TooManyLinks
  else if one_of raw [PIPE] then BrokenPipe
  else if one_of raw [NOSYS] then Unsupported
  else if one_of raw [NOTEMPTY] then DirectoryNotEmpty
  else if one_of raw [TOOBIG] then ArgumentListTooLong
  else Other.

Definition kind (e : Error) : ErrorKind :=
  match e with Os c => errno_to_kind c | Simple k | SimpleMessage k | Custom k => k end.

Definition const_io_error (k : ErrorKind) : Error := SimpleMessage k.

Definition interrupted (e : Error) : bool := bool_decide (kind e = Interrupted).

(** A result; [NoFuel] is a loop that is cut off. *)
Inductive Res (A : Type) : Type := Done (a : A) | Fail (e : Error) | NoFuel.
Arguments Done {A} _.
Arguments Fail {A} _.
Arguments NoFuel {A}.

Class Fuel : Set := turns : nat.

(** ** The traits ([io/mod.rs]) *)

(** [read n] gives the bytes put at the front of a buffer of [n] bytes. *)
Class Read (R : Type) : Type := read : nat → R → Res (list Z) * R.

Class BufRead (B : Type) : Type := { fill_buf : B → Res (list Z) * B; consume : nat → B → B }.

Class Write (W : Type) : Type := { write : list Z → W → Res nat * W; flush : W → Res unit * W }.

Inductive SeekFrom : Set := Start (n : Z) | End (n : Z) | Current (n : Z).

Class Seek (R : Type) : Type := seek : SeekFrom → R → Res Z * R.

Definition stream_position {R} `{Seek R} (r : R) : Res Z * R := seek (Current 0) r.

Definition rewind {R} `{Seek R} (r : R) : Res unit * R :=
  match seek (Start 0) r with
  | (Done _, r) => (Done tt, r)
  | (Fail e, r) => (Fail e, r)
  | (NoFuel, r) => (NoFuel, r)
  end.

Section provided.
Context {F : Fuel}.

(** *** [Read] *)

Fixpoint read_exact_loop {R} `{Read R} (fuel n : nat) (r : R) : Res (list Z) * R :=
  match n with
  | O => (Done [], r)
  | _ =>
      match fuel with
      | O => (NoFuel, r)
      | S fuel =>
          match read n r with
          | (Done [], r) => (Fail (const_io_error UnexpectedEof), r)
          | (Done l, r) =>
              match read_exact_loop fuel (n - length l)%nat r with
              | (Done l', r) => (Done (l ++ l'), r)
              | x => x
              end
          | (Fail e, r) => if interrupted e then read_exact_loop fuel n r else (Fail e, r)
          | (NoFuel, r) => (NoFuel, r)
          end
      end
  end.

Definition read_exact {R} `{Read R} (n : nat) (r : R) : Res (list Z) * R := read_exact_loop turns n r.

Definition DEFAULT_BUF_SIZE : nat := Z.to_nat 1024.

(** What was read stays in the buffer when the reader fails. *)
Fixpoint default_read_to_end {R} `{Read R} (fuel start_len : nat) (buf : list Z) (r : R) : Res nat * list Z * R :=
  match fuel with
  | O => (NoFuel, buf, r)
  | S fuel =>
      match read DEFAULT_BUF_SIZE r with
      | (Done [], r) => (Done (length buf - start_len)%nat, buf, r)
      | (Done l, r) => default_read_to_end fuel start_len (buf ++ l) r
      | (Fail e, r) => if interrupted e then default_read_to_end fuel start_len buf r else (Fail e, buf, r)
      | (NoFuel, r) => (NoFuel, buf, r)
      end
  end.

Definition read_to_end {R} `{Read R} (buf : list Z) (r : R) : Res nat * list Z * R :=
  default_read_to_end turns (length buf) buf r.

Definition is_utf8 (s : list Z) : bool := bool_decide (is_Some (Text.from_utf8 s)).

(** The string is taken apart first, so that an error of the reader empties it. *)
Definition read_to_string {R} `{Read R} (buf : list Z) (r : R) : Res nat * list Z * R :=
  let start := length buf in
  match read_to_end buf r with
  | (Done n, bytes, r) => if is_utf8 bytes then (Done n, bytes, r) else (Fail (Simple InvalidData), take start bytes, r)
  | (Fail e, _, r) => (Fail e, [], r)
  | (NoFuel, _, r) => (NoFuel, [], r)
  end.

(** *** [BufRead] *)

(** [position]. *)
Fixpoint position (d : Z) (l : list Z) : option nat :=
  match l with [] => None | b :: l => if b =? d then Some 0%nat else S <$> position d l end.

Fixpoint default_read_until {B} `{BufRead B} (fuel : nat) (delim : Z) (total : nat) (buf : list Z) (b : B) : Res nat * list Z * B :=
  match fuel with
  | O => (NoFuel, buf, b)
  | S fuel =>
      match fill_buf b with
      | (Fail e, b) => if interrupted e then default_read_until fuel delim total buf b else (Fail e, buf, b)
      | (NoFuel, b) => (NoFuel, buf, b)
      | (Done available, b) =>
          let '(found, done, used) :=
            match position delim available with
            | Some i => (take (S i) available, true, S i)
            | None => (available, false, length available)
            end in
          let buf := buf ++ found in
          let b := consume used b in
          let total := (total + used)%nat in
          if done || (used =? 0)%nat then (Done total, buf, b) else default_read_until fuel delim total buf b
      end
  end.

Definition read_until {B} `{BufRead B} (delim : Z) (buf : list Z) (b : B) : Res nat * list Z * B :=
  default_read_until turns delim 0 buf b.

Definition NEWLINE : Z := 10.
Definition RETURN : Z := 13.

Definition read_line {B} `{BufRead B} (buf : list Z) (b : B) : Res nat * list Z * B :=
  let start := length buf in
  match read_until NEWLINE buf b with
  | (Done n, bytes, b) =>
      if is_utf8 (drop start bytes) then (Done n, bytes, b) else (Fail (const_io_error InvalidData), take start bytes, b)
  | (Fail e, _, b) => (Fail e, [], b)
  | (NoFuel, _, b) => (NoFuel, [], b)
  end.

Fixpoint skip_until_loop {B} `{BufRead B} (fuel : nat) (delim : Z) (total : nat) (b : B) : Res nat * B :=
  match fuel with
  | O => (NoFuel, b)
  | S fuel =>
      match fill_buf b with
      | (Fail e, b) => if interrupted e then skip_until_loop fuel delim total b else (Fail e, b)
      | (NoFuel, b) => (NoFuel, b)
      | (Done available, b) =>
          let '(done, used) := match position delim available with Some i => (true, S i) | None => (false, length available) end in
          let b := consume used b in
          if done || (used =? 0)%nat then (Done (total + used)%nat, b) else skip_until_loop fuel delim (total + used) b
      end
  end.

Definition skip_until {B} `{BufRead B} (delim : Z) (b : B) : Res nat * B := skip_until_loop turns delim 0 b.

Definition has_data_left {B} `{BufRead B} (b : B) : Res bool * B :=
  match fill_buf b with
  | (Done l, b) => (Done (negb (length l =? 0)%nat), b)
  | (Fail e, b) => (Fail e, b)
  | (NoFuel, b) => (NoFuel, b)
  end.

(** *** [Write] *)

Fixpoint write_all_loop {W} `{Write W} (fuel : nat) (buf : list Z) (w : W) : Res unit * W :=
  match buf with
  | [] => (Done tt, w)
  | _ =>
      match fuel with
      | O => (NoFuel, w)
      | S fuel =>
          match write buf w with
          | (Done O, w) => (Fail (const_io_error WriteZero), w)
          | (Done n, w) => write_all_loop fuel (drop n buf) w
          | (Fail e, w) => if interrupted e then write_all_loop fuel buf w else (Fail e, w)
          | (NoFuel, w) => (NoFuel, w)
          end
      end
  end.

Definition write_all {W} `{Write W} (buf : list Z) (w : W) : Res unit * W := write_all_loop turns buf w.

(** *** [copy] ([io/copy.rs]) *)

Definition STACK_BUF_SIZE : nat := Z.to_nat 8192.

Fixpoint copy_loop {R W} `{Read R} `{Write W} (fuel : nat) (total : Z) (r : R) (w : W) : Res Z * R * W :=
  match fuel with
  | O => (NoFuel, r, w)
  | S fuel =>
      match read STACK_BUF_SIZE r with
      | (Done [], r) => (Done total, r, w)
      | (Done l, r) =>
          let total := wrap 64 (total + Z.of_nat (length l)) in
          match write_all l w with
          | (Done _, w) => copy_loop fuel total r w
          | (Fail e, w) => (Fail e, r, w)
          | (NoFuel, w) => (NoFuel, r, w)
          end
      | (Fail e, r) => if interrupted e then copy_loop fuel total r w else (Fail e, r, w)
      | (NoFuel, r) => (NoFuel, r, w)
      end
  end.

Definition copy {R W} `{Read R} `{Write W} (r : R) (w : W) : Res Z * R * W := copy_loop turns 0 r w.
End provided.

(** ** Sources and sinks *)

(** *** A byte slice *)

#[export] Instance slice_Read : Read (list Z) := λ n s,
  let amt := Nat.min n (length s) in (Done (take amt s), drop amt s).

#[export] Instance slice_BufRead : BufRead (list Z) := {
  fill_buf s := (Done s, s);
  consume amt s := drop (Nat.min amt (length s)) s;
}.

(** *** [Cursor] ([io/cursor.rs]), over a vector *)

Record Cursor : Set := mkCursor { inner : list Z; pos : Z }.

Definition cursor_new (v : list Z) : Cursor := mkCursor v 0.
Definition set_position (p : Z) (c : Cursor) : Cursor := mkCursor (inner c) p.

(** [self.pos as usize] *)
Definition slice_pair (c : Cursor) : list Z * list Z :=
  let p := Nat.min (Z.to_nat (wrap 32 (pos c))) (length (inner c)) in (take p (inner c), drop p (inner c)).

Definition advance (n : nat) (c : Cursor) : Cursor := mkCursor (inner c) (wrap 64 (pos c + Z.of_nat n)).

#[export] Instance cursor_Read : Read Cursor := λ len c,
  let remaining := (slice_pair c).2 in
  let n := Nat.min len (length remaining) in
  if (n =? 0)%nat then (Done [], c) else (Done (take n remaining), advance n c).

Definition cursor_read_to_end (buf : list Z) (c : Cursor) : Res nat * list Z * Cursor :=
  let remaining := (slice_pair c).2 in (Done (length remaining), buf ++ remaining, advance (length remaining) c).

Definition cursor_read_exact (len : nat) (c : Cursor) : Res (list Z) * Cursor :=
  let remaining := (slice_pair c).2 in
  if (length remaining <? len)%nat then (Fail (const_io_error UnexpectedEof), mkCursor (inner c) (Z.of_nat (length (inner c))))
  else (Done (take len remaining), advance len c).

#[export] Instance cursor_BufRead : BufRead Cursor := {
  fill_buf c := (Done (slice_pair c).2, c);
  consume amt c := advance amt c;
}.

#[export] Instance cursor_Seek : Seek Cursor := λ style c,
  let go base offset :=
    let n := base + offset in
    if (0 <=? n) && (n <? 2 ^ 64) then (Done n, mkCursor (inner c) n) else (Fail (const_io_error InvalidInput), c) in
  match style with
  | Start n => (Done n, mkCursor (inner c) n)
  | End n => go (Z.of_nat (length (inner c))) n
  | Current n => go (pos c) n
  end.

(** [resize] with zeros, then the bytes in their place. *)
#[export] Instance cursor_Write : Write Cursor := {
  write buf c :=
    let p := Z.to_nat (wrap 32 (pos c)) in
    let v := inner c ++ replicate (p + length buf - length (inner c)) 0 in
    (Done (length buf), mkCursor (take p v ++ buf ++ drop (p + length buf) v) (wrap 64 (pos c + Z.of_nat (length buf))));
  flush c := (Done tt, c);
}.

(** Over a slice that cannot grow. *)
Definition slice_cursor_write (buf : list Z) (c : Cursor) : Res nat * Cursor :=
  let p := Nat.min (Z.to_nat (wrap 32 (pos c))) (length (inner c)) in
  let n := Nat.min (length buf) (length (inner c) - p) in
  (Done n, mkCursor (take p (inner c) ++ take n buf ++ drop (p + n) (inner c)) (wrap 64 (pos c + Z.of_nat n))).

Definition slice_cursor_write_all (buf : list Z) (c : Cursor) : Res unit * Cursor :=
  match slice_cursor_write buf c with
  | (Done n, c) => ((if (n <? length buf)%nat then Fail (const_io_error WriteZero) else Done tt), c)
  | (Fail e, c) => (Fail e, c)
  | (NoFuel, c) => (NoFuel, c)
  end.

(** *** [Empty], [Sink] and [Repeat] ([io/util.rs]) *)

Inductive Empty : Set := empty.
Inductive Sink : Set := sink.
Record Repeat : Set := repeat { byte : Z }.

#[export] Instance Empty_Read : Read Empty := λ _ e, (Done [], e).
#[export] Instance Empty_BufRead : BufRead Empty := { fill_buf e := (Done [], e); consume _ e := e }.
#[export] Instance Empty_Seek : Seek Empty := λ _ e, (Done 0, e).
#[export] Instance Empty_Write : Write Empty := { write buf e := (Done (length buf), e); flush e := (Done tt, e) }.
#[export] Instance Sink_Write : Write Sink := { write buf s := (Done (length buf), s); flush s := (Done tt, s) }.
#[export] Instance Repeat_Read : Read Repeat := λ n r, (Done (replicate n (byte r)), r).

(** *** [Take] ([io/mod.rs]) *)

Record Take (T : Type) : Type := mkTake { tk_inner : T; limit : Z }.
Arguments mkTake {T} _ _.
Arguments tk_inner {T} _.
Arguments limit {T} _.

#[export] Instance Take_Read {T} `{Read T} : Read (Take T) := λ n t,
  if limit t =? 0 then (Done [], t)
  else
    let max := Z.to_nat (Z.min (Z.of_nat n) (limit t)) in
    match read max (tk_inner t) with
    | (Done l, i) => (Done l, mkTake i (limit t - Z.of_nat (length l)))
    | (Fail e, i) => (Fail e, mkTake i (limit t))
    | (NoFuel, i) => (NoFuel, mkTake i (limit t))
    end.

(** ** What readers promise *)

(** [todo]: the bytes to come.  [delays]: a bound on the interruptions to come. *)
Class Reader (R : Type) `{Read R} {F : Fuel} : Type := {
  rd_ok : R → Prop;
  todo : R → list Z;
  delays : R → nat;
  read_spec n r : rd_ok r →
    let '(x, r') := read n r in
    rd_ok r' ∧ (delays r' ≤ delays r)%nat ∧
    match x with
    | Done l => todo r = l ++ todo r' ∧ (length l ≤ n)%nat ∧ (l = [] → n = 0%nat ∨ todo r = [])
    | Fail e => todo r' = todo r ∧ (interrupted e = true → (delays r' < delays r)%nat)
    | NoFuel => (turns ≤ delays r)%nat
    end;
}.

(** What is in the buffer comes first; [consume] leaves out a part of it. *)
Class BufReaderSpec (B : Type) `{BufRead B} {F : Fuel} : Type := {
  bf_ok : B → Prop;
  ahead : B → list Z;
  waits : B → nat;
  fill_spec b : bf_ok b →
    let '(x, b') := fill_buf b in
    bf_ok b' ∧ (waits b' ≤ waits b)%nat ∧
    match x with
    | Done l => ahead b' = ahead b ∧ (l = [] → ahead b = []) ∧ (∃ k, ahead b = l ++ k) ∧
        ∀ n, (n ≤ length l)%nat → bf_ok (consume n b') ∧ ahead (consume n b') = drop n (ahead b) ∧ (waits (consume n b') ≤ waits b')%nat
    | Fail e => ahead b' = ahead b ∧ (interrupted e = true → (waits b' < waits b)%nat)
    | NoFuel => (turns ≤ waits b)%nat
    end;
}.

(** [out]: the bytes that arrived.  [stalls]: a bound on the interruptions to come. *)
Class Writer (W : Type) `{Write W} {F : Fuel} : Type := {
  wr_ok : W → Prop;
  out : W → list Z;
  stalls : W → nat;
  write_spec b w : wr_ok w →
    let '(x, w') := write b w in
    wr_ok w' ∧ (stalls w' ≤ stalls w)%nat ∧
    match x with
    | Done n => (n ≤ length b)%nat ∧ out w' = out w ++ take n b
    | Fail e => out w' = out w ∧ (interrupted e = true → (stalls w' < stalls w)%nat)
    | NoFuel => (turns ≤ stalls w)%nat
    end;
  flush_spec w : wr_ok w →
    let '(x, w') := flush w in
    wr_ok w' ∧ (stalls w' ≤ stalls w)%nat ∧ match x with NoFuel => (turns ≤ stalls w)%nat | _ => out w' = out w end;
}.

(** A writer that takes at least a byte, or fails. *)
Class Steady (W : Type) `{Writer W} : Prop := steady b (w : W) : wr_ok w → b ≠ [] → (write b w).1 ≠ Done 0%nat.

(** ** The loops *)

(** The bytes up to and with the first [d]. *)
Fixpoint upto (d : Z) (l : list Z) : list Z :=
  match l with [] => [] | b :: l => b :: (if b =? d then [] else upto d l) end.

Lemma position_spec d l :
  match position d l with
  | Some i => (i < length l)%nat ∧ ∀ k, upto d (l ++ k) = take (S i) l
  | None => (d ∉ l) ∧ ∀ k, upto d (l ++ k) = l ++ upto d k
  end.
Proof.
  induction l as [|b l IH]; [split; [apply not_elem_of_nil|done]|]. cbn [position]. destruct (Z.eqb_spec b d) as [->|Hne].
  - split; [simpl; lia|]. intros k. cbn. by rewrite Z.eqb_refl.
  - destruct (position d l) as [i|]; cbn [fmap option_fmap option_map]; destruct IH as [H1 H2].
    + split; [simpl; lia|]. intros k. cbn [app upto]. rewrite (proj2 (Z.eqb_neq b d)) by done. by rewrite H2.
    + split; [by rewrite not_elem_of_cons|]. intros k. cbn [app upto]. rewrite (proj2 (Z.eqb_neq b d)) by done. by rewrite H2.
Qed.

Lemma upto_app d l : ∃ k, l = upto d l ++ k.
Proof. induction l as [|b l [k IH]]; [by exists []|]. cbn. destruct (b =? d); [by exists l|exists k; simpl; congruence]. Qed.

Lemma upto_nil d l : upto d l = [] → l = [].
Proof. by destruct l. Qed.

Section laws.
Context {F : Fuel}.

Section reader.
Context {R : Type} {HR : Read R} {HRd : Reader R}.

(** [read_to_end] takes all that is to come, or what came before an error. *)
Lemma read_to_end_loop fuel start : ∀ buf r, rd_ok r → (delays r < turns)%nat → (length (todo r) + delays r < fuel)%nat →
  let '(x, buf', r') := default_read_to_end fuel start buf r in
  rd_ok r' ∧ (delays r' ≤ delays r)%nat ∧ ∃ l, buf' = buf ++ l ∧ todo r = l ++ todo r' ∧
  match x with
  | Done n => todo r' = [] ∧ n = (length buf' - start)%nat
  | Fail e => interrupted e = false
  | NoFuel => False
  end.
Proof.
  induction fuel as [|fuel IH]; intros buf r Hok Hd Hf; [lia|]. cbn [default_read_to_end]. pose proof (read_spec DEFAULT_BUF_SIZE r Hok) as Hr.
  destruct (read DEFAULT_BUF_SIZE r) as [[l|e|] r']; destruct Hr as (Hok' & Hd' & Hr); [| |lia].
  - destruct Hr as (E & _ & Hnil). destruct l as [|b l].
    + split; [done|]. split; [done|]. exists []. rewrite app_nil_r. split; [done|]. split; [done|]. split; [|done].
      destruct Hnil as [Hz|Hn]; [done|by vm_compute in Hz|]. rewrite Hn in E. by destruct (todo r').
    + assert (length (todo r) = S (length l) + length (todo r'))%nat as Elen by (rewrite E, length_app; done).
      specialize (IH (buf ++ b :: l) r' Hok' ltac:(lia) ltac:(lia)). destruct (default_read_to_end _ _ _ _) as [[x buf'] r2].
      destruct IH as (H1 & H2 & k & -> & E2 & H3). split; [done|]. split; [lia|]. exists (b :: l ++ k). split; [by rewrite <- app_assoc|].
      split; [rewrite E, E2; simpl; by rewrite app_assoc|done].
  - destruct Hr as (E & Hi). destruct (interrupted e) eqn:Ei.
    + specialize (IH buf r' Hok' ltac:(lia)). rewrite E in IH. specialize (Hi eq_refl). specialize (IH ltac:(lia)).
      destruct (default_read_to_end _ _ _ _) as [[x buf'] r2]. destruct IH as (H1 & H2 & Hl). split; [done|]. split; [lia|done].
    + split; [done|]. split; [done|]. exists []. rewrite app_nil_r. done.
Qed.
End reader.

Section buf_reader.
Context {B : Type} {HB : BufRead B} {HBf : BufReaderSpec B}.

(** [read_until] takes the bytes up to and with the delimiter. *)
Lemma read_until_loop d : ∀ fuel total buf b, bf_ok b → (waits b < turns)%nat → (length (ahead b) + waits b < fuel)%nat →
  let '(x, buf', b') := default_read_until fuel d total buf b in
  bf_ok b' ∧ (waits b' ≤ waits b)%nat ∧ ∃ l, buf' = buf ++ l ∧ ahead b = l ++ ahead b' ∧
  match x with
  | Done n => l = upto d (ahead b) ∧ n = (total + length l)%nat
  | Fail e => interrupted e = false ∧ (d ∉ l)
  | NoFuel => False
  end.
Proof.
  induction fuel as [|fuel IH]; intros total buf b Hok Hd Hf; [lia|]. cbn [default_read_until]. pose proof (fill_spec b Hok) as Hr.
  destruct (fill_buf b) as [[l|e|] b']; destruct Hr as (Hok' & Hd' & Hr); [| |lia].
  - destruct Hr as (E & Hnil & [k Ek] & Hcons). pose proof (position_spec d l) as Hpos. destruct (position d l) as [i|].
    + destruct Hpos as [Hi Hup]. destruct (Hcons (S i)) as (Hok2 & E2 & Hd2); [lia|]. cbn [orb]. split; [done|]. split; [lia|].
      exists (take (S i) l). split; [done|]. rewrite E2. split; [|split; [by rewrite Ek, Hup|by rewrite length_take_le by lia]].
      rewrite Ek, drop_app_le by lia. rewrite app_assoc, take_drop. done.
    + destruct Hpos as [Hni Hup]. destruct (Hcons (length l)) as (Hok2 & E2 & Hd2); [lia|]. cbn [orb]. destruct (Nat.eqb_spec (length l) 0) as [Hz|Hnz].
      * apply nil_length_inv in Hz. subst l. split; [done|]. split; [lia|]. exists []. split; [done|]. rewrite E2, drop_0. split; [done|]. by rewrite (Hnil eq_refl).
      * assert (ahead (consume (length l) b') = k) as Ek2 by (by rewrite E2, Ek, drop_app_length).
        assert (length (ahead b) = length l + length k)%nat as Elen by (by rewrite Ek, length_app).
        specialize (IH (total + length l)%nat (buf ++ l) (consume (length l) b') Hok2 ltac:(lia)). rewrite Ek2 in IH. specialize (IH ltac:(lia)).
        destruct (default_read_until _ _ _ _ _) as [[x buf'] b2]. destruct IH as (H1 & H2 & m & -> & Em & Hx). split; [done|]. split; [lia|].
        exists (l ++ m). split; [by rewrite <- app_assoc|]. split; [by rewrite Ek, Em, <- app_assoc|]. destruct x as [n|e|]; [| |done].
        -- destruct Hx as [-> ->]. split; [by rewrite Ek, Hup|rewrite length_app; lia].
        -- destruct Hx as [? ?]. split; [done|]. by rewrite not_elem_of_app.
  - destruct Hr as (E & Hi). destruct (interrupted e) eqn:Ei.
    + specialize (IH total buf b' Hok' ltac:(lia)). rewrite E in IH. specialize (Hi eq_refl). specialize (IH ltac:(lia)).
      destruct (default_read_until _ _ _ _ _) as [[x buf'] b2]. destruct IH as (H1 & H2 & Hl). split; [done|]. split; [lia|done].
    + split; [done|]. split; [done|]. exists []. rewrite app_nil_r. split; [done|]. split; [done|]. split; [done|apply not_elem_of_nil].
Qed.
End buf_reader.

Section writer.
Context {W : Type} {HW : Write W} {HWr : Writer W}.

(** [write_all] writes all, or some part from the front before an error. *)
Lemma write_all_spec fuel : ∀ b w, wr_ok w → (stalls w < turns)%nat → (length b + stalls w < fuel)%nat →
  let '(x, w') := write_all_loop fuel b w in
  wr_ok w' ∧ (stalls w' ≤ stalls w)%nat ∧
  match x with
  | Done _ => out w' = out w ++ b
  | Fail e => interrupted e = false ∧ ∃ n, out w' = out w ++ take n b
  | NoFuel => False
  end.
Proof.
  induction fuel as [|fuel IH]; intros b w Hok Hd Hf; [lia|]. destruct b as [|c b]; [split; [done|]; split; [done|]; by rewrite app_nil_r|].
  set (l := c :: b) in *. cbn [write_all_loop]. change (match l with [] => _ | _ => ?x end) with x. pose proof (write_spec l w Hok) as Hr.
  destruct (write l w) as [[n|e|] w']; destruct Hr as (Hok' & Hd' & Hr); [| |lia].
  - destruct Hr as [Hn E]. destruct n as [|n].
    + split; [done|]. split; [done|]. split; [done|]. exists 0%nat. done.
    + specialize (IH (drop (S n) l) w' Hok' ltac:(lia)). rewrite length_drop in IH. specialize (IH ltac:(lia)).
      destruct (write_all_loop _ _ _) as [x w2]. destruct IH as (H1 & H2 & H3). split; [done|]. split; [lia|]. destruct x as [[]|e|]; [| |done].
      * by rewrite H3, E, <- app_assoc, take_drop.
      * destruct H3 as (He & m & Em). split; [done|]. exists (S n + m)%nat. rewrite Em, E, <- app_assoc. by rewrite take_take_drop.
  - destruct Hr as (E & Hi). destruct (interrupted e) eqn:Ei.
    + specialize (Hi eq_refl). specialize (IH l w' Hok' ltac:(lia) ltac:(lia)). rewrite E in IH.
      destruct (write_all_loop _ _ _) as [x w2]. destruct IH as (H1 & H2 & H3). split; [done|]. split; [lia|done].
    + split; [done|]. split; [done|]. split; [done|]. exists 0%nat. by rewrite E, app_nil_r.
Qed.

(** [copy] brings all bytes of the reader to the writer, in their order. *)
Lemma copy_spec {R : Type} {HR : Read R} {HRd : Reader R} fuel : ∀ total (r : R) w, rd_ok r → wr_ok w → (delays r < turns)%nat → (STACK_BUF_SIZE + stalls w < turns)%nat →
  (length (todo r) + delays r < fuel)%nat → 0 ≤ total → total + Z.of_nat (length (todo r)) < 2 ^ 64 →
  let '(x, r', w') := copy_loop fuel total r w in
  match x with
  | Done n => todo r' = [] ∧ out w' = out w ++ todo r ∧ n = total + Z.of_nat (length (todo r))
  | Fail e => interrupted e = false ∧ ∃ l n, todo r = l ++ todo r' ∧ out w' = out w ++ take n l
  | NoFuel => False
  end.
Proof.
  induction fuel as [|fuel IH]; intros total r w Hr Hw Hd Hs Hf Ht Hb; [lia|]. cbn [copy_loop]. pose proof (read_spec STACK_BUF_SIZE r Hr) as Hrd.
  destruct (read STACK_BUF_SIZE r) as [[l|e|] r']; destruct Hrd as (Hr' & Hd' & Hrd); [| |lia].
  - destruct Hrd as (E & Hlen & Hnil). destruct l as [|c l].
    + destruct Hnil as [Hz|Hn]; [done|by vm_compute in Hz|]. rewrite Hn in E |- *. rewrite app_nil_r. cbn [length]. split; [by destruct (todo r')|]. split; [done|lia].
    + set (k := c :: l) in *. change (match k with [] => _ | _ => ?x end) with x. cbv zeta.
      assert (length (todo r) = length k + length (todo r'))%nat as Elen by (by rewrite E, length_app).
      assert (1 ≤ length k)%nat as Hk by (unfold k; simpl; lia). clearbody k.
      rewrite wrap_small by (split; lia). assert (stalls w < turns ∧ length k + stalls w < turns)%nat as [Hs1 Hs2] by lia.
      pose proof (write_all_spec turns k w Hw Hs1 Hs2) as Hwr. fold (write_all k w) in Hwr.
      destruct (write_all k w) as [[[]|e|] w']; destruct Hwr as (Hw' & Hs' & Hwr); [| |done].
      * specialize (IH (total + Z.of_nat (length k)) r' w' Hr' Hw' ltac:(lia) ltac:(lia) ltac:(lia) ltac:(lia) ltac:(lia)).
        destruct (copy_loop _ _ _ _) as [[x r2] w2]. destruct x as [n|e|]; [| |done].
        -- destruct IH as (H1' & H2' & ->). split; [done|]. split; [by rewrite H2', Hwr, E, <- app_assoc|lia].
        -- destruct IH as (He & m & n & Em & Eo). split; [done|]. exists (k ++ m), (length k + n)%nat. split; [by rewrite E, Em, <- app_assoc|].
           by rewrite Eo, Hwr, <- app_assoc, take_app_add.
      * destruct Hwr as (He & n & Eo). split; [done|]. by exists k, n.
  - destruct Hrd as (E & Hi). destruct (interrupted e) eqn:Ei.
    + specialize (Hi eq_refl). specialize (IH total r' w Hr' Hw ltac:(lia) Hs). rewrite E in IH. by apply IH; [lia|..].
    + split; [done|]. exists [], 0%nat. by rewrite app_nil_r.
Qed.
End writer.
End laws.

(** ** The sources keep the promises *)

Section sources.
Context {F : Fuel}.

#[export] Instance slice_Reader : Reader (list Z).
Proof.
  refine {| rd_ok s := True; todo s := s; delays s := 0%nat |}. intros n s _. unfold read, slice_Read. split; [done|]. split; [lia|].
  split; [by rewrite take_drop|]. split; [rewrite length_take; lia|]. intros E%(f_equal length). rewrite length_take in E.
  destruct s; [by right|left]. simpl in *. lia.
Defined.

#[export] Instance slice_BufReader : BufReaderSpec (list Z).
Proof.
  refine {| bf_ok s := True; ahead s := s; waits s := 0%nat |}. intros s _. cbn [fill_buf slice_BufRead]. split; [done|]. split; [lia|].
  split; [done|]. split; [done|]. split; [exists []; by rewrite app_nil_r|]. intros n Hn. cbn [consume slice_BufRead]. by rewrite Nat.min_l by lia.
Defined.

Lemma advance_todo n c : Z.of_nat (length (inner c)) < 2 ^ 32 → (n ≤ length (slice_pair c).2)%nat → (slice_pair (advance n c)).2 = drop n (slice_pair c).2.
Proof using.
  clear. intros Hl Hn. unfold slice_pair, advance in *. cbn [snd inner pos] in *. rewrite length_drop in Hn. rewrite drop_drop.
  assert (wrap 32 (wrap 64 (pos c + Z.of_nat n)) = wrap 32 (pos c + Z.of_nat n)) as -> by (unfold wrap; apply Z.mod_mod_divide; by exists (2 ^ 32)).
  assert (0 ≤ wrap 32 (pos c) < 2 ^ 32) as Hw by (apply Z.mod_pos_bound; lia). unfold wrap in *. rewrite <- Zplus_mod_idemp_l.
  destruct (decide (Z.to_nat (pos c mod 2 ^ 32) ≤ length (inner c))%nat).
  - rewrite Z.mod_small by lia. rewrite !Nat.min_l by lia. f_equal. lia.
  - assert (n = 0%nat) as -> by lia. rewrite Z.add_0_r, Nat.add_0_r, Z.mod_mod by lia. done.
Qed.

(** A cursor over less than the address space. *)
Definition cursor_ok (c : Cursor) : Prop := Z.of_nat (length (inner c)) < 2 ^ 32.

#[export] Instance cursor_Reader : Reader Cursor.
Proof.
  refine {| rd_ok := cursor_ok; todo c := (slice_pair c).2; delays c := 0%nat |}. intros n c Hc. unfold read, cursor_Read. cbv zeta.
  destruct (Nat.eqb_spec (Nat.min n (length (slice_pair c).2)) 0) as [Hz|Hz].
  - split; [done|]. split; [lia|]. split; [done|]. split; [simpl; lia|]. intros _. destruct (slice_pair c).2 as [|b l]; [by right|left; cbn [length] in Hz; lia].
  - split; [done|]. split; [lia|]. rewrite advance_todo by (exact Hc || lia). split; [by rewrite take_drop|]. split; [rewrite length_take; lia|].
    intros E%(f_equal length). rewrite length_take in E. cbn [length] in E. lia.
Defined.

#[export] Instance cursor_BufReader : BufReaderSpec Cursor.
Proof.
  refine {| bf_ok := cursor_ok; ahead c := (slice_pair c).2; waits c := 0%nat |}. intros c Hc. cbn [fill_buf cursor_BufRead]. split; [done|]. split; [lia|].
  split; [done|]. split; [done|]. split; [exists []; by rewrite app_nil_r|]. intros n Hn. cbn [consume cursor_BufRead]. split; [done|].
  by rewrite advance_todo.
Defined.

(** A seek from the start moves a cursor to that byte. *)
Lemma cursor_seek n c : 0 ≤ n < 2 ^ 32 → let '(x, c') := seek (Start n) c in x = Done n ∧ todo c' = drop (Z.to_nat n) (inner c).
Proof.
  intros Hn. cbn. unfold slice_pair. cbn [snd inner pos]. split; [done|]. rewrite wrap_small by done.
  destruct (decide (Z.to_nat n ≤ length (inner c))%nat); [by rewrite Nat.min_l by lia|]. by rewrite Nat.min_r, !drop_ge by lia.
Qed.

(** [limit] cuts a reader off. *)
#[export] Instance Take_Reader {T} {HT : Read T} {HTr : Reader T} : Reader (Take T).
Proof.
  refine {| rd_ok t := rd_ok (tk_inner t) ∧ 0 ≤ limit t; todo t := take (Z.to_nat (limit t)) (todo (tk_inner t)); delays t := delays (tk_inner t) |}.
  intros n [i lim] [Hok Hl]. cbn [tk_inner limit] in *. unfold read at 1, Take_Read. cbn [tk_inner limit]. destruct (Z.eqb_spec lim 0) as [->|Hz].
  - split; [done|]. split; [done|]. split; [done|]. split; [cbn [length]; lia|]. by right.
  - set (m := Z.to_nat (Z.min (Z.of_nat n) lim)). assert (m = Nat.min n (Z.to_nat lim)) as Em by (unfold m; lia). clearbody m.
    pose proof (read_spec m i Hok) as Hr. destruct (read m i) as [[l|e|] i']; destruct Hr as (Hok' & Hd & Hr); cbn [tk_inner limit].
    + destruct Hr as (E & Hlen & Hnil). split; [split; [done|lia]|]. split; [done|]. split; [|split; [lia|]].
      * rewrite E, firstn_app. rewrite (take_ge l) by lia. do 2 f_equal. lia.
      * intros ->. destruct (Hnil eq_refl) as [?|Ht]; [left; lia|right; by rewrite Ht, take_nil].
    + destruct Hr as [-> Hi]. done.
    + done.
Defined.
End sources.

End Io.
