(* ===== verification/Buffered.v ===== *)
(** * Buffered readers and writers ([user_lib/src/io/buffered.rs])

    [BufReader], [BufWriter] and [LineWriter] over any reader or writer of [Io],
    and the iterators [Lines] and [Split].  The adapters keep the promises of
    what they wrap, so they may wrap each other. *)

From S2P Require Import Prelude Text Io.
From stdpp Require Import list.
Open Scope Z_scope.

Module Buffered.
Import Io.
#[local] Set Default Proof Using "Type".

(** ** [BufWriter] and [LineWriter] *)

Record BufWriter (W : Type) : Type := mkBufWriter { bw_inner : W; buffer : list Z; capacity : nat }.
Arguments mkBufWriter {W} _ _ _.
Arguments bw_inner {W} _.
Arguments buffer {W} _.
Arguments capacity {W} _.

Record LineWriter (W : Type) : Type := mkLineWriter { lw_inner : BufWriter W }.
Arguments mkLineWriter {W} _.
Arguments lw_inner {W} _.

Definition DEFAULT_CAPACITY : nat := Z.to_nat 1024.

Definition bw_with_capacity {W} (capacity : nat) (w : W) : BufWriter W := mkBufWriter w [] capacity.
Definition bw_new {W} (w : W) : BufWriter W := bw_with_capacity DEFAULT_CAPACITY w.
Definition lw_with_capacity {W} (capacity : nat) (w : W) : LineWriter W := mkLineWriter (bw_with_capacity capacity w).
Definition lw_new {W} (w : W) : LineWriter W := lw_with_capacity DEFAULT_CAPACITY w.

(** [rposition] of the newline. *)
Fixpoint rposition (l : list Z) : option nat :=
  match l with
  | [] => None
  | b :: l => match rposition l with Some i => Some (S i) | None => if b =? NEWLINE then Some 0%nat else None end
  end.

Section writers.
Context {F : Fuel} {W : Type} {HW : Write W}.

(** A writer that takes nothing leaves the buffer as it is, other errors take
    out what was written. *)
Fixpoint flush_loop (fuel written : nat) (bw : BufWriter W) : Res unit * BufWriter W :=
  if (written <? length (buffer bw))%nat then
    match fuel with
    | O => (NoFuel, bw)
    | S fuel =>
        match write (drop written (buffer bw)) (bw_inner bw) with
        | (Done O, w) => (Fail (const_io_error WriteZero), mkBufWriter w (buffer bw) (capacity bw))
        | (Done n, w) => flush_loop fuel (written + n) (mkBufWriter w (buffer bw) (capacity bw))
        | (Fail e, w) =>
            if interrupted e then flush_loop fuel written (mkBufWriter w (buffer bw) (capacity bw))
            else (Fail e, mkBufWriter w (drop written (buffer bw)) (capacity bw))
        | (NoFuel, w) => (NoFuel, mkBufWriter w (buffer bw) (capacity bw))
        end
    end
  else (Done tt, mkBufWriter (bw_inner bw) [] (capacity bw)).

Definition flush_buf (bw : BufWriter W) : Res unit * BufWriter W := flush_loop turns 0 bw.

Definition bw_write (buf : list Z) (bw : BufWriter W) : Res nat * BufWriter W :=
  let '(x, bw) := if (capacity bw <? length (buffer bw) + length buf)%nat then flush_buf bw else (Done tt, bw) in
  match x with
  | Fail e => (Fail e, bw)
  | NoFuel => (NoFuel, bw)
  | Done _ =>
      if (capacity bw <=? length buf)%nat then
        let '(x, w) := write buf (bw_inner bw) in (x, mkBufWriter w (buffer bw) (capacity bw))
      else (Done (length buf), mkBufWriter (bw_inner bw) (buffer bw ++ buf) (capacity bw))
  end.

Definition bw_flush (bw : BufWriter W) : Res unit * BufWriter W :=
  match flush_buf bw with
  | (Done _, bw) => let '(x, w) := flush (bw_inner bw) in (x, mkBufWriter w (buffer bw) (capacity bw))
  | x => x
  end.

#[export] Instance BufWriter_Write : Write (BufWriter W) := { write := bw_write; flush := bw_flush }.

(** [drop]: errors are lost. *)
Definition bw_drop (bw : BufWriter W) : W := bw_inner (flush_buf bw).2.

Definition lw_write (buf : list Z) (lw : LineWriter W) : Res nat * LineWriter W :=
  match rposition buf with
  | None => let '(x, bw) := write buf (lw_inner lw) in (x, mkLineWriter bw)
  | Some idx =>
      match write_all (take (S idx) buf) (lw_inner lw) with
      | (Done _, bw) =>
          match flush bw with
          | (Done _, bw) =>
              let remainder := drop (S idx) buf in
              match (if (length remainder =? 0)%nat then (Done tt, bw) else write_all remainder bw) with
              | (Done _, bw) => (Done (length buf), mkLineWriter bw)
              | (Fail e, bw) => (Fail e, mkLineWriter bw)
              | (NoFuel, bw) => (NoFuel, mkLineWriter bw)
              end
          | (Fail e, bw) => (Fail e, mkLineWriter bw)
          | (NoFuel, bw) => (NoFuel, mkLineWriter bw)
          end
      | (Fail e, bw) => (Fail e, mkLineWriter bw)
      | (NoFuel, bw) => (NoFuel, mkLineWriter bw)
      end
  end.

Definition lw_flush (lw : LineWriter W) : Res unit * LineWriter W :=
  let '(x, bw) := flush (lw_inner lw) in (x, mkLineWriter bw).

#[export] Instance LineWriter_Write : Write (LineWriter W) := { write := lw_write; flush := lw_flush }.
End writers.

(** ** [BufReader] *)

Record BufReader (R : Type) : Type := mkBufReader { buf : list Z; br_pos : nat; cap : nat; br_inner : R }.
Arguments mkBufReader {R} _ _ _ _.
Arguments buf {R} _.
Arguments br_pos {R} _.
Arguments cap {R} _.
Arguments br_inner {R} _.

Definition BUFREADER_CAPACITY : nat := Z.to_nat 8192.

Section readers.
Context {F : Fuel} {R : Type} {HR : Read R}.

Definition br_with_capacity (capacity : nat) (r : R) : BufReader R := mkBufReader (replicate capacity 0) 0 0 r.
Definition br_new (r : R) : BufReader R := br_with_capacity BUFREADER_CAPACITY r.
Definition br_buffer (b : BufReader R) : list Z := drop (br_pos b) (take (cap b) (buf b)).
Definition discard_buffer (b : BufReader R) : BufReader R := mkBufReader (buf b) 0 0 (br_inner b).
Definition br_consume (amt : nat) (b : BufReader R) : BufReader R :=
  mkBufReader (buf b) (Nat.min (br_pos b + amt) (cap b)) (cap b) (br_inner b).

(** The buffer is filled from the front; what is behind stays. *)
Fixpoint fill_loop (fuel : nat) (b : BufReader R) : Res unit * BufReader R :=
  match fuel with
  | O => (NoFuel, b)
  | S fuel =>
      match read (length (buf b)) (br_inner b) with
      | (Done l, r) => (Done tt, mkBufReader (l ++ drop (length l) (buf b)) 0 (length l) r)
      | (Fail e, r) =>
          let b := mkBufReader (buf b) (br_pos b) (cap b) r in if interrupted e then fill_loop fuel b else (Fail e, b)
      | (NoFuel, r) => (NoFuel, mkBufReader (buf b) (br_pos b) (cap b) r)
      end
  end.

Definition br_fill_buf (b : BufReader R) : Res (list Z) * BufReader R :=
  if (cap b <=? br_pos b)%nat then
    match fill_loop turns b with
    | (Done _, b) => (Done (br_buffer b), b)
    | (Fail e, b) => (Fail e, b)
    | (NoFuel, b) => (NoFuel, b)
    end
  else (Done (br_buffer b), b).

#[export] Instance BufReader_BufRead : BufRead (BufReader R) := { fill_buf := br_fill_buf; consume := br_consume }.

#[export] Instance BufReader_Read : Read (BufReader R) := λ len b,
  if (br_pos b =? cap b)%nat && (length (buf b) <=? len)%nat then
    let b := discard_buffer b in
    let '(x, r) := read len (br_inner b) in (x, mkBufReader (buf b) (br_pos b) (cap b) r)
  else
    match fill_buf b with
    | (Done available, b) => let n := Nat.min (length available) len in (Done (take n available), consume n b)
    | x => x
    end.

Definition br_read_to_end (into : list Z) (b : BufReader R) : Res nat * list Z * BufReader R :=
  let buffered := length (br_buffer b) in
  let b' := discard_buffer b in
  let '(x, into, r) := read_to_end (into ++ br_buffer b) (br_inner b') in
  let b' := mkBufReader (buf b') (br_pos b') (cap b') r in
  (match x with Done n => Done (buffered + n)%nat | x => x end, into, b').

#[export] Instance BufReader_Seek `{Seek R} : Seek (BufReader R) := λ pos b,
  let slow :=
    let '(x, r) := seek pos (br_inner (discard_buffer b)) in (x, mkBufReader (buf b) 0 0 r) in
  match pos with
  | Current offset =>
      let buffered := Z.of_nat (cap b) - Z.of_nat (br_pos b) in
      let absorbed := - Z.of_nat (br_pos b) in
      if (absorbed <=? offset) && (offset <=? buffered) then
        let p := Z.to_nat (Z.of_nat (br_pos b) + offset) in
        match stream_position (br_inner b) with
        | (Done inner_pos, r) => (Done (Z.max 0 (inner_pos - (Z.of_nat (cap b) - Z.of_nat p))), mkBufReader (buf b) p (cap b) r)
        | (Fail e, r) => (Fail e, mkBufReader (buf b) p (cap b) r)
        | (NoFuel, r) => (NoFuel, mkBufReader (buf b) p (cap b) r)
        end
      else slow
  | _ => slow
  end.
End readers.

(** ** [Lines] and [Split] *)

Section iterators.
Context {F : Fuel} {B : Type} {HB : BufRead B}.

(** [ends_with] and [pop]. *)
Definition pop_byte (d : Z) (l : list Z) : list Z := if bool_decide (last l = Some d) then take (length l - 1) l else l.

(** The outer [option] is the iterator's. *)
Definition lines_next (b : B) : option (Res (list Z)) * B :=
  match read_line [] b with
  | (Done O, _, b) => (None, b)
  | (Done _, line, b) =>
      let line' := if bool_decide (last line = Some NEWLINE) then pop_byte RETURN (pop_byte NEWLINE line) else line in (Some (Done line'), b)
  | (Fail e, _, b) => (Some (Fail e), b)
  | (NoFuel, _, b) => (Some NoFuel, b)
  end.

Definition split_next (delim : Z) (b : B) : option (Res (list Z)) * B :=
  match read_until delim [] b with
  | (Done O, _, b) => (None, b)
  | (Done _, chunk, b) => (Some (Done (pop_byte delim chunk)), b)
  | (Fail e, _, b) => (Some (Fail e), b)
  | (NoFuel, _, b) => (Some NoFuel, b)
  end.

(** A [for] loop over an iterator. *)
Fixpoint collect (next : B → option (Res (list Z)) * B) (fuel : nat) (b : B) : option (list (Res (list Z)) * B) :=
  match fuel with
  | O => None
  | S fuel =>
      match next b with
      | (None, b) => Some ([], b)
      | (Some x, b) => '(l, b) ← collect next fuel b; Some (x :: l, b)
      end
  end.
End iterators.

(** ** The writers *)

Section bw_laws.
Context {F : Fuel} {W : Type} {HW : Write W} {HWr : Writer W} {Hst : Steady W}.

(** What the client of a [BufWriter] has written: it arrived, or it is kept. *)
Definition bw_out (bw : BufWriter W) : list Z := out (bw_inner bw) ++ buffer bw.
Definition bw_ok (bw : BufWriter W) : Prop := wr_ok (bw_inner bw) ∧ (length (buffer bw) ≤ capacity bw)%nat.

Lemma flush_loop_spec fuel : ∀ n bw, wr_ok (bw_inner bw) → (n ≤ length (buffer bw))%nat →
  let '(x, bw') := flush_loop fuel n bw in
  wr_ok (bw_inner bw') ∧ (stalls (bw_inner bw') ≤ stalls (bw_inner bw))%nat ∧ (capacity bw' = capacity bw ∧ length (buffer bw') ≤ length (buffer bw))%nat ∧
  (x ≠ NoFuel → ∃ k, out (bw_inner bw') = out (bw_inner bw) ++ k) ∧
  match x with
  | Done _ => buffer bw' = [] ∧ out (bw_inner bw') = out (bw_inner bw) ++ drop n (buffer bw)
  | Fail e => interrupted e = false ∧ bw_out bw' = out (bw_inner bw) ++ drop n (buffer bw)
  | NoFuel => (fuel ≤ length (buffer bw) - n + stalls (bw_inner bw))%nat ∨ (turns ≤ stalls (bw_inner bw))%nat
  end.
Proof using Hst.
  induction fuel as [|fuel IH]; intros n [w l c] Hok Hn; cbn [flush_loop bw_inner buffer capacity] in *.
  - destruct (Nat.ltb_spec n (length l)) as [Hlt|Hge].
    + split; [done|]. split; [done|]. split; [split; [done|cbn; lia]|]. split; [intros _; exists []; by rewrite app_nil_r|]. left. lia.
    + split; [done|]. split; [done|]. split; [split; [done|cbn; lia]|]. split; [intros _; exists []; by rewrite app_nil_r|]. by rewrite drop_ge, app_nil_r by lia.
  - destruct (Nat.ltb_spec n (length l)) as [Hlt|Hge].
    2:{ split; [done|]. split; [done|]. split; [split; [done|cbn; lia]|]. split; [intros _; exists []; by rewrite app_nil_r|]. by rewrite drop_ge, app_nil_r by lia. }
    pose proof (write_spec (drop n l) w Hok) as Hr. pose proof (steady (drop n l) w Hok) as Hs.
    assert (drop n l ≠ []) as Hne by (intros E%(f_equal length); rewrite length_drop in E; simpl in E; lia).
    destruct (write (drop n l) w) as [[k|e|] w']; destruct Hr as (Hok' & Hd & Hr).
    + destruct Hr as [Hk E]. rewrite length_drop in Hk. destruct k as [|k]; [by specialize (Hs Hne)|].
      specialize (IH (n + S k)%nat (mkBufWriter w' l c) Hok'). cbn [bw_inner buffer capacity] in IH. specialize (IH ltac:(lia)).
      assert (out w ++ drop n l = out w' ++ drop (n + S k) l) as Eo by (by rewrite E, <- app_assoc, <- drop_drop, take_drop).
      destruct (flush_loop _ _ _) as [x bw']. destruct IH as (H1 & H2 & H3 & H4 & H5). split; [done|]. split; [lia|]. split; [done|].
      split; [intros Hx; destruct (H4 Hx) as [m Em]; eexists; by rewrite Em, E, <- app_assoc|]. rewrite Eo. destruct x as [[]|e|]; [done|done|lia].
    + destruct Hr as (E & Hi). destruct (interrupted e) eqn:Ei.
      * specialize (Hi eq_refl). specialize (IH n (mkBufWriter w' l c) Hok'). cbn [bw_inner buffer capacity] in IH. specialize (IH Hn). rewrite E in IH.
        destruct (flush_loop _ _ _) as [x bw']. destruct IH as (H1 & H2 & H3 & H4 & H5). split; [done|]. split; [lia|]. split; [done|]. split; [done|].
        destruct x as [[]|e'|]; [done|done|lia].
      * cbn [bw_inner buffer capacity]. split; [done|]. split; [done|]. split; [split; [done|rewrite length_drop; lia]|].
        split; [intros _; exists []; by rewrite app_nil_r|]. split; [done|]. unfold bw_out. cbn [bw_inner buffer]. by rewrite E.
    + cbn [bw_inner buffer capacity]. split; [done|]. split; [done|]. split; [done|]. split; [done|]. by right.
Qed.

Lemma bw_write_spec b bw : bw_ok bw →
  let '(x, bw') := bw_write b bw in
  bw_ok bw' ∧ (stalls (bw_inner bw') ≤ stalls (bw_inner bw))%nat ∧ capacity bw' = capacity bw ∧
  (x ≠ NoFuel → ∃ k, out (bw_inner bw') = out (bw_inner bw) ++ k) ∧
  match x with
  | Done n => (n ≤ length b)%nat ∧ bw_out bw' = bw_out bw ++ take n b ∧ (b ≠ [] → n ≠ 0%nat)
  | Fail e => bw_out bw' = bw_out bw ∧ (interrupted e = true → (stalls (bw_inner bw') < stalls (bw_inner bw))%nat)
  | NoFuel => (turns ≤ stalls (bw_inner bw) + capacity bw)%nat
  end.
Proof using Hst.
  intros [Hok Hlen]. unfold bw_write. set (go := if (capacity bw <? length (buffer bw) + length b)%nat then _ else _).
  assert (let '(x, bw') := go in wr_ok (bw_inner bw') ∧ (stalls (bw_inner bw') ≤ stalls (bw_inner bw))%nat ∧ capacity bw' = capacity bw ∧
    (length (buffer bw') ≤ capacity bw)%nat ∧
    (x ≠ NoFuel → ∃ k, out (bw_inner bw') = out (bw_inner bw) ++ k) ∧
    match x with
    | Done _ => bw_out bw' = bw_out bw ∧ (length (buffer bw') + length b ≤ capacity bw ∨ buffer bw' = [])%nat
    | Fail e => bw_out bw' = bw_out bw ∧ interrupted e = false
    | NoFuel => (turns ≤ stalls (bw_inner bw) + capacity bw)%nat
    end) as Hgo.
  { unfold go. destruct (Nat.ltb_spec (capacity bw) (length (buffer bw) + length b)).
    - pose proof (flush_loop_spec turns 0 bw Hok ltac:(lia)) as Hf. unfold flush_buf. destruct (flush_loop turns 0 bw) as [x bw'].
      destruct Hf as (H1 & H2 & [H3 Hb] & H4 & H5). split_and!; [done|done|done|lia|done|]. destruct x as [[]|e|].
      + destruct H5 as [E1 E2]. unfold bw_out. rewrite E1, E2, app_nil_r, drop_0. split; [done|by right].
      + by destruct H5.
      + lia.
    - split_and!; [done|done|done|done|intros _; exists []; by rewrite app_nil_r|done|left; lia]. }
  clearbody go. destruct go as [x bw1]. destruct Hgo as (H1 & H2 & H3 & Hb & H4 & H5). destruct x as [[]|e|].
  2:{ destruct H5 as (? & Hi). split; [split; [done|lia]|]. split_and!; [done|done|intros _; by apply H4|done|by rewrite Hi]. }
  2:{ split; [split; [done|lia]|]. done. }
  destruct H5 as [E Hroom]. rewrite H3. destruct (Nat.leb_spec (capacity bw) (length b)) as [Hbig|Hsmall].
  - pose proof (write_spec b (bw_inner bw1) H1) as Hr. pose proof (steady b (bw_inner bw1) H1) as Hs.
    assert (buffer bw1 = []) as Enil by (destruct Hroom as [?|?]; [apply nil_length_inv; lia|done]).
    destruct (write b (bw_inner bw1)) as [x w']. destruct Hr as (H6 & H7 & H8). unfold bw_ok, bw_out in *. cbn [bw_inner buffer capacity].
    rewrite Enil, app_nil_r in *. split; [split; [done|simpl; lia]|]. split; [lia|]. split; [done|]. destruct (H4 ltac:(done)) as [k Ek]. destruct x as [n|e|].
    + destruct H8 as [Hn Eo]. split; [intros _; eexists; by rewrite Eo, Ek, <- app_assoc|]. split_and!; [done|by rewrite Eo, E|]. intros Hne ->. by apply Hs.
    + destruct H8 as [Eo Hi]. split; [intros _; exists k; by rewrite Eo|]. split; [by rewrite Eo|]. intros ?%Hi. lia.
    + split; [done|lia].
  - unfold bw_ok, bw_out in *. cbn [bw_inner buffer capacity]. split; [split; [done|]|].
    + rewrite length_app. destruct Hroom as [?| ->]; [lia|simpl; lia].
    + split_and!; [lia|done|by intros _; apply H4|done|by rewrite app_assoc, E, take_ge by lia|]. intros Hne Hz. by apply Hne, nil_length_inv.
Qed.

Lemma bw_flush_spec bw : bw_ok bw →
  let '(x, bw') := bw_flush bw in
  bw_ok bw' ∧ (stalls (bw_inner bw') ≤ stalls (bw_inner bw))%nat ∧ capacity bw' = capacity bw ∧
  match x with
  | Done _ => buffer bw' = [] ∧ out (bw_inner bw') = bw_out bw
  | Fail e => bw_out bw' = bw_out bw
  | NoFuel => (turns ≤ stalls (bw_inner bw) + capacity bw)%nat
  end.
Proof using Hst.
  intros [Hok Hlen]. pose proof (flush_loop_spec turns 0 bw Hok ltac:(lia)) as Hf. unfold bw_flush, flush_buf. destruct (flush_loop turns 0 bw) as [x bw1].
  rewrite drop_0 in Hf. destruct Hf as (H1 & H2 & [H3 Hb] & _ & H5). destruct x as [[]|e|].
  - destruct H5 as [E1 E2]. pose proof (flush_spec (bw_inner bw1) H1) as Hfl. destruct (flush (bw_inner bw1)) as [x w]. destruct Hfl as (H6 & H7 & H8).
    unfold bw_ok, bw_out. cbn [bw_inner buffer capacity]. split_and!; [done|rewrite E1; simpl; lia|lia|done|]. rewrite E1. destruct x as [[]|e|].
    + by rewrite H8.
    + by rewrite H8, app_nil_r.
    + lia.
  - destruct H5 as [_ H5]. split; [split; [done|lia]|]. done.
  - split; [split; [done|lia]|]. split; [done|]. split; [done|lia].
Qed.

#[export] Instance BufWriter_Writer : Writer (BufWriter W).
Proof using Hst.
  refine {| wr_ok := bw_ok; out := bw_out; stalls bw := (stalls (bw_inner bw) + capacity bw)%nat |}.
  - intros b bw Hok. pose proof (bw_write_spec b bw Hok) as Hs. cbn [write BufWriter_Write]. destruct (bw_write b bw) as [x bw'].
    destruct Hs as (H1 & H2 & H3 & _ & H4). rewrite H3. split; [done|]. split; [lia|]. destruct x as [n|e|]; [by destruct H4 as (? & ? & _)| |done].
    destruct H4 as [? Hi]. split; [done|]. intros ?%Hi. lia.
  - intros bw Hok. pose proof (bw_flush_spec bw Hok) as Hs. cbn [flush BufWriter_Write]. destruct (bw_flush bw) as [x bw'].
    destruct Hs as (H1 & H2 & H3 & H4). rewrite H3. split; [done|]. split; [lia|]. destruct x as [[]|e|]; [|done|done].
    destruct H4 as [E1 E2]. unfold bw_out at 1. by rewrite E1, app_nil_r.
Defined.

#[export] Instance BufWriter_Steady : Steady (BufWriter W).
Proof using Hst.
  intros b bw Hok Hne E. pose proof (bw_write_spec b bw Hok) as Hs. cbn [write BufWriter_Write] in E. destruct (bw_write b bw) as [x bw'].
  cbn [fst] in E. subst x. destruct Hs as (_ & _ & _ & _ & _ & _ & Hz). by apply Hz.
Qed.

(** What has arrived only grows. *)
Lemma write_all_inner fuel : ∀ b bw bw', bw_ok bw → write_all_loop fuel b bw = (Done tt, bw') →
  capacity bw' = capacity bw ∧ ∃ k, out (bw_inner bw') = out (bw_inner bw) ++ k.
Proof using Hst.
  induction fuel as [|fuel IH]; intros b bw bw' Hok; (destruct b as [|c b]; [intros [= <-]; split; [done|]; exists []; by rewrite app_nil_r|]); [done|].
  set (l := c :: b). cbn [write_all_loop]. change (match l with [] => _ | _ => ?x end) with x. pose proof (bw_write_spec l bw Hok) as Hs.
  change (write l bw) with (bw_write l bw). destruct (bw_write l bw) as [x bw1]. destruct Hs as (Hok1 & _ & Hc & Hk & Hx). destruct x as [[|n]|e|]; [done| | |done].
  - destruct (Hk ltac:(done)) as [k Ek]. intros (E & k' & Ek')%IH; [|done]. split; [congruence|]. eexists. by rewrite Ek', Ek, <- app_assoc.
  - destruct (interrupted e); [|done]. destruct (Hk ltac:(done)) as [k Ek]. intros (E & k' & Ek')%IH; [|done]. split; [congruence|]. eexists. by rewrite Ek', Ek, <- app_assoc.
Qed.

Lemma rposition_spec l :
  match rposition l with
  | Some i => (i < length l)%nat ∧ (NEWLINE ∉ drop (S i) l) ∧ NEWLINE ∈ l
  | None => NEWLINE ∉ l
  end.
Proof using.
  clear. induction l as [|b l IH]; [apply not_elem_of_nil|]. cbn [rposition]. destruct (rposition l) as [i|].
  - destruct IH as (? & ? & ?). split_and!; [simpl; lia|done|by right].
  - destruct (Z.eqb_spec b NEWLINE) as [->|]; [split_and!; [simpl; lia|done|left]|by rewrite not_elem_of_cons].
Qed.

(** C15: [LineWriter] over any writer that promises to take a byte or to fail.  When
    [write] returns, the bytes it says it took, and no others, follow what was written
    before, in what has arrived and the buffer together, and the buffer stays within
    its capacity.  If there was a newline, everything was taken, and all up to the last
    newline has arrived: the buffer has none.  After an error nothing of what was
    written before is lost or sent twice, and of the new bytes some part from the front
    was taken.  [write] returns when there are more turns than bytes, capacity and
    interruptions. *)
Theorem line_writer b (lw : LineWriter W) : let bw := lw_inner lw in bw_ok bw → (length b + capacity bw + stalls (bw_inner bw) < turns)%nat →
  let '(x, lw') := lw_write b lw in let bw' := lw_inner lw' in
  bw_ok bw' ∧
  match x with
  | Done n => (n ≤ length b)%nat ∧ bw_out bw' = bw_out bw ++ take n b ∧
      (NEWLINE ∈ b → n = length b ∧ (NEWLINE ∉ buffer bw'))
  | Fail e => ∃ n, bw_out bw' = bw_out bw ++ take n b
  | NoFuel => False
  end.
Proof using Hst.
  destruct lw as [bw]. cbn [lw_inner]. intros Hok Hf. unfold lw_write. cbn [lw_inner]. pose proof (rposition_spec b) as Hpos. destruct (rposition b) as [i|].
  2:{ pose proof (write_spec b bw Hok) as Hs. destruct (write b bw) as [x bw']. cbn [lw_inner]. destruct Hs as (H1 & H2 & H3). split; [done|].
      destruct x as [n|e|]; [by destruct H3|exists 0%nat; by rewrite app_nil_r; destruct H3|]. cbn [stalls BufWriter_Writer] in H3. lia. }
  destruct Hpos as (Hi & Hni & Hin). assert (stalls bw = stalls (bw_inner bw) + capacity bw)%nat as Est by done.
  pose proof (write_all_spec turns (take (S i) b) bw Hok ltac:(lia)) as H1. rewrite length_take_le in H1 by lia. specialize (H1 ltac:(lia)).
  fold (write_all (take (S i) b) bw) in H1. destruct (write_all (take (S i) b) bw) as [[[]|e|] bw1]; destruct H1 as (Hok1 & Hs1 & H1); [| |done].
  2:{ cbn [lw_inner]. split; [done|]. destruct H1 as (_ & n & E). exists (Nat.min n (S i)). cbn [out BufWriter_Writer] in E. by rewrite E, take_take. }
  pose proof (bw_flush_spec bw1 Hok1) as H2. change (flush bw1) with (bw_flush bw1). destruct (bw_flush bw1) as [[[]|e|] bw2]; destruct H2 as (Hok2 & Hs2 & Hc2 & H2);
    cbn [out BufWriter_Writer] in H1.
  2:{ cbn [lw_inner]. split; [done|]. exists (S i). by rewrite H2. }
  2:{ cbn [stalls BufWriter_Writer] in Hs1. lia. }
  destruct H2 as [Enil E2]. rewrite H1 in E2. destruct (Nat.eqb_spec (length (drop (S i) b)) 0) as [Hz|Hnz].
  - cbn [lw_inner]. split; [done|]. rewrite length_drop in Hz. split; [done|]. split.
    + unfold bw_out at 1. rewrite Enil, app_nil_r, E2. by rewrite !take_ge by lia.
    + intros _. split; [done|]. rewrite Enil. apply not_elem_of_nil.
  - assert (stalls bw2 ≤ stalls bw)%nat as Hs by (cbn [stalls BufWriter_Writer] in *; lia).
    pose proof (write_all_spec turns (drop (S i) b) bw2 Hok2 ltac:(lia)) as H3. rewrite length_drop in H3. specialize (H3 ltac:(lia)).
    fold (write_all (drop (S i) b) bw2) in H3. destruct (write_all (drop (S i) b) bw2) as [[[]|e|] bw3] eqn:E3; destruct H3 as (Hok3 & _ & H3); [| |done].
    + cbn [lw_inner]. split; [done|]. split; [done|]. assert (bw_out bw2 = bw_out bw ++ take (S i) b) as Eo by (unfold bw_out at 1; by rewrite Enil, app_nil_r).
      cbn [out BufWriter_Writer] in H3. rewrite Eo, <- app_assoc, take_drop in H3. split; [by rewrite take_ge by lia|]. intros _. split; [done|].
      destruct (write_all_inner turns _ bw2 bw3 Hok2 E3) as (_ & k & Ek). unfold bw_out at 1 in H3. rewrite Ek, E2, <- !app_assoc in H3. apply app_inv_head in H3.
      rewrite <- (take_drop (S i) b) in H3 at 2. apply app_inv_head in H3. rewrite <- H3 in Hni. intros Hbad. apply Hni, elem_of_app. by right.
    + cbn [lw_inner]. split; [done|]. destruct H3 as (_ & n & E). exists (S i + n)%nat. cbn [out BufWriter_Writer] in E. rewrite E.
      unfold bw_out at 1. by rewrite Enil, app_nil_r, E2, <- app_assoc, take_take_drop.
Qed.
End bw_laws.

(** ** The reader *)

Section br_laws.
Context {F : Fuel} {R : Type} {HR : Read R} {HRd : Reader R}.

Definition br_ok (b : BufReader R) : Prop :=
  rd_ok (br_inner b) ∧ (br_pos b ≤ cap b ≤ length (buf b) ∧ 0 < length (buf b))%nat.

(** What was fetched and not yet consumed comes before what is to come. *)
Definition br_todo (b : BufReader R) : list Z := br_buffer b ++ todo (br_inner b).

Lemma br_buffer_length b : br_ok b → length (br_buffer b) = (cap b - br_pos b)%nat.
Proof. intros (_ & ? & _). unfold br_buffer. rewrite length_drop, length_take. lia. Qed.

Lemma fill_loop_spec fuel : ∀ b, br_ok b → (cap b ≤ br_pos b)%nat →
  let '(x, b') := fill_loop fuel b in
  br_ok b' ∧ (delays (br_inner b') ≤ delays (br_inner b))%nat ∧
  match x with
  | Done _ => br_todo b' = br_todo b ∧ (br_buffer b' = [] → br_todo b = [])
  | Fail e => br_todo b' = br_todo b ∧ interrupted e = false
  | NoFuel => (fuel ≤ delays (br_inner b))%nat ∨ (turns ≤ delays (br_inner b))%nat
  end.
Proof.
  induction fuel as [|fuel IH]; intros [v p c r] (Hok & Hp & Hv) He; cbn [fill_loop buf br_pos cap br_inner] in *; [split; [done|]; split; [done|left; lia]|].
  assert (∀ r' : R, br_buffer (mkBufReader v p c r') = []) as Hnil.
  { intros r'. apply nil_length_inv. unfold br_buffer. cbn [buf br_pos cap]. rewrite length_drop, length_take. lia. }
  pose proof (read_spec (length v) r Hok) as Hr. destruct (read (length v) r) as [[l|e|] r']; destruct Hr as (Hok' & Hd & Hr).
  - destruct Hr as (E & Hl & Hend). unfold br_ok, br_todo. rewrite Hnil. cbn [buf br_pos cap br_inner].
    assert (br_buffer (mkBufReader (l ++ drop (length l) v) 0 (length l) r') = l) as ->.
    { unfold br_buffer. cbn [buf br_pos cap]. by rewrite drop_0, take_app_length. }
    rewrite length_app, length_drop. split_and!; [done|lia|lia|lia|done|done|]. intros Hl0. destruct (Hend Hl0); [lia|done].
  - destruct Hr as (E & Hi). destruct (interrupted e) eqn:Ei.
    + specialize (Hi eq_refl). specialize (IH (mkBufReader v p c r')). cbn [buf br_pos cap br_inner] in IH. specialize (IH (conj Hok' (conj Hp Hv)) He).
      destruct (fill_loop fuel _) as [x b']. destruct IH as (H1 & H2 & H3). split; [done|]. split; [lia|]. unfold br_todo in *. rewrite Hnil in *.
      cbn [br_inner] in *. rewrite E in H3. destruct x as [[]|e'|]; [done|done|lia].
    + split; [done|]. split; [done|]. unfold br_todo. rewrite !Hnil. cbn [br_inner]. by rewrite E.
  - split; [done|]. split; [done|]. by right.
Qed.

Lemma br_consume_spec n b : br_ok b → (n ≤ length (br_buffer b))%nat →
  br_ok (br_consume n b) ∧ br_todo (br_consume n b) = drop n (br_todo b) ∧ delays (br_inner (br_consume n b)) = delays (br_inner b).
Proof.
  intros Hok Hn. pose proof Hok as (H1 & H2 & H3). pose proof (br_buffer_length b Hok) as Hl. unfold br_ok, br_todo. cbn [br_consume br_inner buf br_pos cap].
  split; [split_and!; [done|lia..]|]. split; [|done]. rewrite drop_app_le by done. f_equal. unfold br_buffer. cbn [br_consume br_inner buf br_pos cap].
  rewrite drop_drop. f_equal. lia.
Qed.

Lemma br_fill_spec b : br_ok b →
  let '(x, b') := br_fill_buf b in
  br_ok b' ∧ (delays (br_inner b') ≤ delays (br_inner b))%nat ∧
  match x with
  | Done l => br_todo b' = br_todo b ∧ l = br_buffer b' ∧ (l = [] → br_todo b = [])
  | Fail e => br_todo b' = br_todo b ∧ interrupted e = false
  | NoFuel => (turns ≤ delays (br_inner b))%nat
  end.
Proof.
  intros Hok. unfold br_fill_buf. destruct (Nat.leb_spec (cap b) (br_pos b)) as [He|He].
  - pose proof (fill_loop_spec turns b Hok He) as Hf. destruct (fill_loop turns b) as [[[]|e|] b']; destruct Hf as (H1 & H2 & H3).
    + destruct H3. by split_and!.
    + by destruct H3.
    + split_and!; [done|done|]. by destruct H3.
  - split_and!; [done|done|done|done|]. intros E%(f_equal length). rewrite br_buffer_length in E by done. simpl in E. lia.
Qed.

#[export] Instance BufReader_BufReaderSpec : BufReaderSpec (BufReader R).
Proof using HRd.
  refine {| bf_ok := br_ok; ahead := br_todo; waits b := delays (br_inner b) |}. intros b Hok. cbn [fill_buf consume BufReader_BufRead].
  pose proof (br_fill_spec b Hok) as Hf. destruct (br_fill_buf b) as [[l|e|] b']; destruct Hf as (H1 & H2 & H3); (split; [done|]; split; [done|]); [| |done].
  - destruct H3 as (E & -> & Hnil). split; [done|]. split; [done|]. split; [exists (todo (br_inner b')); by rewrite <- E|]. intros n Hn.
    destruct (br_consume_spec n b' H1 Hn) as (Hc1 & Hc2 & Hc3). split; [done|]. rewrite Hc2, E, Hc3. done.
  - destruct H3 as [? ->]. done.
Defined.

#[export] Instance BufReader_Reader : Reader (BufReader R).
Proof using HRd.
  refine {| rd_ok := br_ok; todo := br_todo; delays b := delays (br_inner b) |}. intros n b Hok. pose proof Hok as (Hr & Hp & Hv). unfold read at 1, BufReader_Read.
  destruct ((br_pos b =? cap b)%nat && (length (buf b) <=? n)%nat) eqn:Eby.
  - apply andb_true_iff in Eby as [E1%Nat.eqb_eq E2%Nat.leb_le]. cbn [discard_buffer buf br_pos cap br_inner].
    assert (br_buffer b = []) as Enil by (apply nil_length_inv; rewrite br_buffer_length by done; lia).
    pose proof (read_spec n (br_inner b) Hr) as Hs. destruct (read n (br_inner b)) as [x r]. destruct Hs as (H1 & H2 & H3). unfold br_ok, br_todo.
    rewrite Enil. cbn [buf br_pos cap br_inner]. assert (br_buffer (mkBufReader (buf b) 0 0 r) = []) as -> by done. split; [split_and!; [done|lia..]|].
    split; [done|]. destruct x; done.
  - cbn [fill_buf consume BufReader_BufRead]. pose proof (br_fill_spec b Hok) as Hf. destruct (br_fill_buf b) as [[l|e|] b']; destruct Hf as (H1 & H2 & H3); [| |done].
    + destruct H3 as (E & -> & Hnil). destruct (br_consume_spec (Nat.min (length (br_buffer b')) n) b' H1 ltac:(lia)) as (Hc1 & Hc2 & Hc3).
      split; [done|]. split; [by rewrite Hc3|]. rewrite Hc2, <- E. split_and!.
      * unfold br_todo. rewrite drop_app_le by lia. by rewrite app_assoc, take_drop.
      * rewrite length_take. lia.
      * intros E0%(f_equal length). rewrite length_take in E0. cbn [length] in E0. destruct n as [|n]; [by left|right]. rewrite E. apply Hnil, nil_length_inv. lia.
    + destruct H3 as [-> Hi]. split; [done|]. split; [done|]. split; [done|]. by rewrite Hi.
Defined.
End br_laws.

(** ** Lines *)

(** The pieces of a text, each up to and with the next [d]. *)
Fixpoint pieces (d : Z) (s : list Z) : list (list Z) :=
  match s with
  | [] => []
  | b :: s =>
      if b =? d then [b] :: pieces d s
      else match pieces d s with [] => [[b]] | c :: l => (b :: c) :: l end
  end.

(** A line without its end. *)
Definition strip_line (s : list Z) : list Z :=
  match reverse s with
  | b :: c :: r => if b =? NEWLINE then if c =? RETURN then reverse r else reverse (c :: r) else s
  | [b] => if b =? NEWLINE then [] else s
  | [] => s
  end.

(** The lines of a text: those that are not UTF-8 give an error. *)
Definition line_items (s : list Z) : list (Res (list Z)) :=
  (λ l, if is_utf8 l then Done (strip_line l) else Fail (const_io_error InvalidData)) <$> pieces NEWLINE s.

(** The pieces without their delimiters. *)
Definition split_items (d : Z) (s : list Z) : list (Res (list Z)) := (λ l, Done (pop_byte d l)) <$> pieces d s.

Lemma pieces_upto d s : s ≠ [] → pieces d s = upto d s :: pieces d (drop (length (upto d s)) s).
Proof.
  induction s as [|b s IH]; [done|]. intros _. cbn [pieces upto]. destruct (b =? d); [done|]. destruct s as [|c s]; [done|].
  cbn [length drop]. rewrite IH by done. done.
Qed.

Lemma pop_snoc d l b : pop_byte d (l ++ [b]) = if b =? d then l else l ++ [b].
Proof.
  unfold pop_byte. rewrite last_snoc. destruct (Z.eqb_spec b d) as [->|Hne].
  - rewrite bool_decide_true by done. rewrite length_app. cbn [length]. by rewrite Nat.add_sub, take_app_length.
  - rewrite bool_decide_false by congruence. done.
Qed.

Lemma strip_line_pop l : (if bool_decide (last l = Some NEWLINE) then pop_byte RETURN (pop_byte NEWLINE l) else l) = strip_line l.
Proof.
  destruct l as [|b l _] using rev_ind; [done|]. rewrite last_snoc, pop_snoc. unfold strip_line. rewrite reverse_snoc. destruct (Z.eqb_spec b NEWLINE) as [->|Hne].
  - rewrite bool_decide_true by done. destruct l as [|c l _] using rev_ind; [done|]. rewrite reverse_snoc, pop_snoc.
    destruct (c =? RETURN); [by rewrite reverse_involutive|]. by rewrite reverse_cons, reverse_involutive.
  - rewrite bool_decide_false by congruence. by destruct (reverse l).
Qed.

Section line_laws.
Context {F : Fuel} {B : Type} {HB : BufRead B} {HBf : BufReaderSpec B}.

(** A reader that is interrupted, at most. *)
Definition reliable : Prop := ∀ b e, bf_ok b → (fill_buf b).1 = Fail e → interrupted e = true.

Lemma reliable_read_until d fuel : reliable → ∀ total into b e into' b', bf_ok b →
  default_read_until fuel d total into b = (Fail e, into', b') → interrupted e = true.
Proof.
  intros Hrel. induction fuel as [|fuel IH]; intros total into b e into' b' Hok; [done|]. cbn [default_read_until].
  pose proof (fill_spec b Hok) as Hf. pose proof (Hrel b) as Hi. destruct (fill_buf b) as [[l|e1|] b1]; destruct Hf as (Hok1 & _ & Hf); [| |done].
  - destruct Hf as (_ & _ & _ & Hc). pose proof (position_spec d l) as Hpos. destruct (position d l) as [i|]; cbn [orb]; [done|].
    destruct (length l =? 0)%nat; [done|]. apply IH. by apply (Hc (length l)).
  - rewrite (Hi e1) by done. by apply IH.
Qed.

(** One turn of either iterator. *)
Lemma read_piece d b : reliable → bf_ok b → (length (ahead b) + waits b < turns)%nat →
  ∃ b', read_until d [] b = (Done (length (upto d (ahead b))), upto d (ahead b), b') ∧ bf_ok b' ∧ (waits b' ≤ waits b)%nat ∧
    ahead b' = drop (length (upto d (ahead b))) (ahead b).
Proof.
  intros Hrel Hok Hf. unfold read_until. pose proof (read_until_loop d turns 0%nat [] b Hok ltac:(lia) Hf) as Hr.
  pose proof (reliable_read_until d turns Hrel 0%nat [] b) as Hi. destruct (default_read_until turns d 0 [] b) as [[x l] b'] eqn:E.
  destruct Hr as (H1 & H2 & k & -> & Ek & H3). destruct x as [n|e|]; [|exfalso; destruct H3 as [H3 _]; by rewrite (Hi e _ b' Hok eq_refl) in H3|done].
  destruct H3 as [-> ->]. exists b'. split_and!; [done|done|done|]. rewrite Ek at 2. by rewrite drop_app_length.
Qed.

(** Any iterator whose turns read a piece gives all pieces, in order. *)
Lemma collect_pieces d (next : B → option (Res (list Z)) * B) (f : list Z → Res (list Z)) : reliable →
  (∀ b b', read_until d [] b = (Done (length (upto d (ahead b))), upto d (ahead b), b') →
    next b = (if (length (upto d (ahead b)) =? 0)%nat then None else Some (f (upto d (ahead b))), b')) →
  ∀ fuel b, bf_ok b → (length (ahead b) + waits b < turns)%nat → (length (ahead b) < fuel)%nat →
  ∃ b', collect next fuel b = Some (f <$> pieces d (ahead b), b') ∧ bf_ok b' ∧ ahead b' = [].
Proof.
  intros Hrel Hnext. induction fuel as [|fuel IH]; intros b Hok Hf Hl; [lia|]. destruct (read_piece d b Hrel Hok Hf) as (b' & E & Hok' & Hw & Ea).
  cbn [collect]. rewrite (Hnext b b' E). destruct (Nat.eqb_spec (length (upto d (ahead b))) 0) as [Hz|Hnz].
  - apply nil_length_inv, upto_nil in Hz. exists b'. rewrite Hz in Ea |- *. done.
  - destruct (upto_app d (ahead b)) as [k Ek]. assert (length (ahead b) = length (upto d (ahead b)) + length k)%nat as El by (by rewrite <- length_app, <- Ek).
    assert (length (ahead b') = length (ahead b) - length (upto d (ahead b)))%nat as El' by (by rewrite Ea, length_drop).
    destruct (IH b' Hok' ltac:(lia) ltac:(lia)) as (b2 & E2 & Hok2 & Ha2). rewrite E2. exists b2. split; [|done]. cbn [mbind option_bind].
    rewrite (pieces_upto d (ahead b)), fmap_cons, Ea; [done|]. intros Hn. by rewrite Hn in Hnz.
Qed.

(** C16: [lines], over any buffered reader that keeps its promises and fails with
    interruptions at most: the loop ends, and gives the lines of what was to come, in
    order, each up to its newline and without it and a carriage return before it, the
    rest behind the last newline as a last line, and an error in the place of a line
    that is not UTF-8; wherever the ends of the buffer and short reads fell. *)
Theorem lines_of_stream (b : B) : reliable → bf_ok b → (length (ahead b) + waits b < turns)%nat →
  ∃ b', collect lines_next turns b = Some (line_items (ahead b), b') ∧ bf_ok b' ∧ ahead b' = [].
Proof.
  intros Hrel Hok Hf. apply (collect_pieces NEWLINE lines_next (λ l, if is_utf8 l then Done (strip_line l) else Fail (const_io_error InvalidData)) Hrel); [|done|done|lia].
  intros c c' E. unfold lines_next, read_line. rewrite E. cbn [length]. rewrite drop_0. set (l := upto NEWLINE (ahead c)).
  destruct l as [|x l']; [done|]. cbn [length Nat.eqb]. destruct (is_utf8 (x :: l')); [|done]. by rewrite strip_line_pop.
Qed.

(** [split] on a byte. *)
Lemma split_of_stream d (b : B) : reliable → bf_ok b → (length (ahead b) + waits b < turns)%nat →
  ∃ b', collect (split_next d) turns b = Some (split_items d (ahead b), b') ∧ bf_ok b' ∧ ahead b' = [].
Proof.
  intros Hrel Hok Hf. apply (collect_pieces d (split_next d) (λ l, Done (pop_byte d l)) Hrel); [|done|done|lia].
  intros c c' E. unfold split_next. rewrite E. by destruct (upto d (ahead c)).
Qed.
End line_laws.

(** *** The rest of [BufReader] *)

Section more.
Context {F : Fuel} {R : Type} {HR : Read R} {HRd : Reader R}.

(** [read_to_end] goes around the buffer, after what is in it. *)
Lemma br_read_to_end_spec into (b : BufReader R) : br_ok b → (length (todo (br_inner b)) + delays (br_inner b) < turns)%nat →
  let '(x, into', b') := br_read_to_end into b in
  br_ok b' ∧ ∃ l, into' = into ++ l ∧ br_todo b = l ++ br_todo b' ∧
  match x with
  | Done n => br_todo b' = [] ∧ n = length l
  | Fail e => interrupted e = false
  | NoFuel => False
  end.
Proof.
  intros (Hok & Hp & Hv) Hf. unfold br_read_to_end, read_to_end. cbn [discard_buffer buf br_pos cap br_inner]. set (into1 := into ++ br_buffer b).
  pose proof (read_to_end_loop turns (length into1) into1 (br_inner b) Hok ltac:(lia) Hf) as Hr. destruct (default_read_to_end _ _ _ _) as [[x into2] r].
  destruct Hr as (H1 & H2 & l & -> & E & H3). split; [split; [done|cbn; lia]|]. exists (br_buffer b ++ l). unfold into1, br_todo.
  assert (br_buffer (mkBufReader (buf b) 0 0 r) = []) as -> by done. cbn [br_inner app]. split; [by rewrite <- app_assoc|]. split; [by rewrite E, app_assoc|].
  destruct x as [n|e|]; [|done|done]. destruct H3 as [? ->]. split; [done|]. unfold into1. rewrite !length_app. lia.
Qed.

(** A seek within the buffer moves over what was fetched. *)
Lemma seek_in_buffer `{Seek R} n (b : BufReader R) p r : br_ok b → 0 ≤ n ≤ Z.of_nat (length (br_buffer b)) →
  stream_position (br_inner b) = (Done p, r) → rd_ok r → todo r = todo (br_inner b) →
  let '(x, b') := seek (Current n) b in br_ok b' ∧ br_todo b' = drop (Z.to_nat n) (br_todo b) ∧ x = Done (Z.max 0 (p - Z.of_nat (length (br_buffer b')))).
Proof.
  intros Hok Hn Ep Hr Et. pose proof Hok as (_ & H1 & H2). rewrite br_buffer_length in Hn by done. unfold seek at 1, BufReader_Seek. cbv zeta.
  rewrite (proj2 (Z.leb_le _ n)), (proj2 (Z.leb_le n _)) by lia. cbn [andb]. rewrite Ep.
  set (q := Z.to_nat (Z.of_nat (br_pos b) + n)). assert (q = br_pos b + Z.to_nat n)%nat as Eq by (unfold q; lia). clearbody q.
  assert (br_ok (mkBufReader (buf b) q (cap b) r)) as Hok' by (split; [done|cbn; lia]). split; [done|]. split.
  - unfold br_todo. rewrite drop_app_le by (rewrite br_buffer_length by done; lia). cbn [br_inner]. rewrite Et. f_equal. unfold br_buffer.
    cbn [buf br_pos cap]. rewrite drop_drop. f_equal. lia.
  - rewrite br_buffer_length by done. cbn [br_pos cap]. do 3 f_equal. lia.
Qed.
End more.

(** ** Runs *)

(** A sink that answers as it is told: a number of bytes, or an interruption. *)
Record Script : Set := mkScript { got : list Z; answers : list (option nat) }.

#[export] Instance Script_Write : Write Script := {
  write b s :=
    match answers s with
    | None :: a => (Fail (Simple Interrupted), mkScript (got s) a)
    | Some n :: a => let k := Nat.min n (length b) in (Done k, mkScript (got s ++ take k b) a)
    | [] => (Done (length b), mkScript (got s ++ b) [])
    end;
  flush s := (Done tt, s);
}.

Definition script_ok (s : Script) : Prop := Forall (λ a, a ≠ Some 0%nat) (answers s).

#[export] Instance Script_Writer {F : Fuel} : Writer Script.
Proof.
  refine {| wr_ok := script_ok; out := got; stalls s := length (answers s) |}; [|done].
  intros b [g a] Hok. unfold script_ok in *. cbn [answers] in Hok. unfold write, Script_Write. cbn [answers got]. destruct a as [|[n|] a]; cbn [answers got length].
  - split; [done|]. split; [done|]. by rewrite take_ge.
  - apply Forall_cons in Hok as [_ Hok]. split; [done|]. split; [lia|]. split; [lia|done].
  - apply Forall_cons in Hok as [_ Hok]. split; [done|]. split; [lia|]. split; [done|lia].
Defined.

#[export] Instance Script_Steady {F : Fuel} : Steady Script.
Proof.
  intros b [g [|[n|] a]] Hok Hne; cbn; [by destruct b| |done]. apply Forall_cons in Hok as [Hn _]. intros [= E]. destruct b; [done|]. destruct n; [done|]. done.
Qed.

#[local] Instance twenty : Fuel := 20%nat.

(** Three bytes taken at a time and one interruption; the line arrives. *)
Definition lw0 : LineWriter Script := lw_with_capacity 4 (mkScript [] [Some 3%nat; None]).

Lemma line_writer_witness :
  (bw_ok (lw_inner lw0) ∧ NEWLINE ∈ [97; 98; 99; 100; 101; NEWLINE; 102]) ∧
  let '(x, lw') := lw_write [97; 98; 99; 100; 101; NEWLINE; 102] lw0 in x = Done 7%nat ∧ (NEWLINE ∉ buffer (lw_inner lw')).
Proof.
  assert (bw_ok (lw_inner lw0)) as Hok by (split; [repeat constructor; done|cbn; lia]).
  assert (NEWLINE ∈ [97; 98; 99; 100; 101; NEWLINE; 102]) as Hin by (apply list_elem_of_In; vm_compute; tauto).
  split; [done|]. pose proof (line_writer [97; 98; 99; 100; 101; NEWLINE; 102] lw0 Hok ltac:(vm_compute; lia)) as H.
  destruct (lw_write [97; 98; 99; 100; 101; NEWLINE; 102] lw0) as [x lw'] eqn:E. assert (x = Done 7%nat) as -> by (vm_compute in E; congruence).
  destruct H as (_ & _ & _ & H). split; [done|]. apply H, Hin.
Defined.

(** The lines of a text through a buffer of three bytes. *)
Definition br0 : BufReader (list Z) := br_with_capacity 3 [97; 98; RETURN; NEWLINE; NEWLINE; 255; NEWLINE; 99].

Lemma slices_reliable : reliable (B := BufReader (list Z)).
Proof.
  intros b e Hok E. pose proof (br_fill_spec b Hok) as Hs. cbn [fill_buf BufReader_BufRead] in E. unfold br_fill_buf in E.
  destruct (cap b <=? br_pos b)%nat; [|done]. cbn [fill_loop] in E. done.
Qed.

Lemma lines_of_stream_witness :
  bf_ok br0 ∧ ∃ b', collect lines_next turns br0 = Some ([Done [97; 98]; Done []; Fail (SimpleMessage InvalidData); Done [99]], b') ∧ ahead b' = [].
Proof.
  assert (bf_ok br0) as Hok by (split; [done|cbn; lia]). split; [done|].
  destruct (lines_of_stream br0 slices_reliable Hok) as (b' & E & _ & Ha); [vm_compute; lia|]. exists b'. split; [|done].
  assert (line_items (ahead br0) = [Done [97; 98]; Done []; Fail (SimpleMessage InvalidData); Done [99]]) as El by (vm_compute; reflexivity).
  rewrite El in E. exact E.
Defined.

(** A sink that takes a part and then nothing: the error leaves what was written
    in the buffer, and the next flush sends it again. *)
Example written_twice :
  let bw := mkBufWriter (mkScript [] [Some 2%nat; Some 0%nat]) [97; 98; 99] 8 in
  let '(x, bw') := flush_buf bw in
  x = Fail (SimpleMessage WriteZero) ∧ buffer bw' = [97; 98; 99] ∧ got (bw_drop bw') = [97; 98; 97; 98; 99].
Proof. by vm_compute. Qed.

(** A seek from the current byte past the buffer starts where the buffer was filled
    to, not at that byte: byte 9 instead of byte 6. *)
Example seek_skips_buffer :
  let b := (read 1 (br_with_capacity 4 (cursor_new [0; 1; 2; 3; 4; 5; 6; 7; 8; 9]))).2 in
  let '(x, b') := seek (Current 5) b in x = Done 9 ∧ (read 1 b').1 = Done [9].
Proof. by vm_compute. Qed.

(** A reader that fails: [read_line] loses the text that the caller had. *)
Inductive Broken : Set := broken.
#[export] Instance Broken_Read : Read Broken := λ _ r, (Fail (Os 5), r).

Example text_lost : (read_line [104; 105] (br_with_capacity 3 broken)).1 = (Fail (Os 5), []).
Proof. by vm_compute. Qed.

End Buffered.
