(* ===== verification/Vi.v ===== *)
(** * The editor ([user_program/src/bin/vi])

    [buffer.rs], [undo.rs], [motion.rs], [edit.rs], [search.rs], [ex.rs],
    [keys.rs] and the key handlers of [main.rs].  Lines are UTF-8 bytes, columns
    are byte offsets, and the operations of [String] and [Vec] panic where they do
    in Rust.  Regular expressions and the file system are arguments. *)

From S2P Require Import Prelude Text Io.
From stdpp Require Import list strings.
Open Scope Z_scope.

Module Vi.
#[local] Existing Instance Io.ErrorKind_eq_dec.
#[local] Set Default Proof Using "Type".

(** ** Results *)

Inductive Out (A : Type) : Type := Ret (a : A) | Panic | NoFuel.
Arguments Ret {A} _.
Arguments Panic {A}.
Arguments NoFuel {A}.

Definition bind {A B} (x : Out A) (k : A → Out B) : Out B :=
  match x with Ret a => k a | Panic => Panic | NoFuel => NoFuel end.

Declare Scope vi_scope.
Delimit Scope vi_scope with vi.
Notation "'let!' x := m 'in' k" := (bind m (λ x, k)) (at level 10, x pattern, k at level 200) : vi_scope.
Open Scope vi_scope.

Definition or_panic {A} (x : option A) : Out A := match x with Some a => Ret a | None => Panic end.

(** ** Strings and vectors *)

Definition is_char_boundary (s : list Z) (i : nat) : bool :=
  (i =? 0)%nat || (i =? length s)%nat || match s !! i with Some b => negb (Text.continuation b) | None => false end.

Definition insert_str (s : list Z) (i : nat) (t : list Z) : Out (list Z) :=
  if is_char_boundary s i then Ret (take i s ++ t ++ drop i s) else Panic.

Definition insert_char (s : list Z) (i : nat) (c : Z) : Out (list Z) := insert_str s i (Text.encode_char c).

(** [String::remove] takes a whole character. *)
Definition remove_char (s : list Z) (i : nat) : Out (Z * list Z) :=
  if is_char_boundary s i then
    match Text.decode_char (drop i s) with Some (c, rest) => Ret (c, take i s ++ rest) | None => Panic end
  else Panic.

Definition slice_to (s : list Z) (i : nat) : Out (list Z) := if is_char_boundary s i then Ret (take i s) else Panic.

Definition split_off (s : list Z) (i : nat) : Out (list Z * list Z) :=
  if is_char_boundary s i then Ret (take i s, drop i s) else Panic.

(** [drain(start..end)]: what is left, and what is taken. *)
Definition drain (s : list Z) (i j : nat) : Out (list Z * list Z) :=
  if (i <=? j)%nat && is_char_boundary s i && is_char_boundary s j then Ret (take i s ++ drop j s, drop i (take j s)) else Panic.

(** [str::trim_start], of characters. *)
Definition trim_start (s : list Z) : list Z :=
  match Text.from_utf8 s with Some cs => Text.as_bytes (Text.trim_start cs) | None => s end.

Definition vec_insert {A} (l : list A) (i : nat) (x : A) : Out (list A) :=
  if (i <=? length l)%nat then Ret (take i l ++ x :: drop i l) else Panic.

Definition vec_remove {A} (l : list A) (i : nat) : Out (A * list A) :=
  match l !! i with Some x => Ret (x, take i l ++ drop (S i) l) | None => Panic end.

(** ** The buffer ([buffer.rs]) *)

Record Buffer : Set := mkBuffer {
  path : option (list Z); lines : list (list Z); row : nat; col : nat; dirty : bool; new_file : bool;
}.

Definition with_lines (l : list (list Z)) (b : Buffer) : Buffer := mkBuffer (path b) l (row b) (col b) (dirty b) (new_file b).
Definition at_pos (r c : nat) (b : Buffer) : Buffer := mkBuffer (path b) (lines b) r c (dirty b) (new_file b).
Definition at_col (c : nat) (b : Buffer) : Buffer := at_pos (row b) c b.
Definition touched (b : Buffer) : Buffer := mkBuffer (path b) (lines b) (row b) (col b) true (new_file b).

Definition empty_buffer : Buffer := mkBuffer None [[]] 0 0 false true.

Definition split_keep_empty (text : list Z) : list (list Z) :=
  match text with
  | [] => [[]]
  | _ =>
      let out := Text.split_on 10 text in
      if bool_decide (last out = Some []) then match removelast out with [] => [[]] | l => l end else out
  end.

(** [lines[row]], and the write to it. *)
Definition current (b : Buffer) : Out (list Z) := or_panic (lines b !! row b).
Definition set_current (s : list Z) (b : Buffer) : Buffer := with_lines (<[row b := s]> (lines b)) b.

Definition line (b : Buffer) (r : nat) : list Z := match lines b !! r with Some s => s | None => [] end.
Definition line_count (b : Buffer) : nat := length (lines b).

Definition clamp_col (allow_one_past : bool) (b : Buffer) : Out Buffer :=
  let! s := current b in
  let len := length s in
  let max := if allow_one_past || (len =? 0)%nat then len else (len - 1)%nat in
  Ret (if (max <? col b)%nat then at_col max b else b).

Definition insert_byte (byte : Z) (b : Buffer) : Out Buffer :=
  let! s := current b in
  let! s' := insert_char s (col b) byte in
  Ret (touched (at_col (S (col b)) (set_current s' b))).

Definition split_line (b : Buffer) : Out Buffer :=
  let! s := current b in
  let! (head, tail) := split_off s (col b) in
  let! l := vec_insert (lines (set_current head b)) (S (row b)) tail in
  Ret (touched (at_pos (S (row b)) 0 (with_lines l b))).

Definition backspace (b : Buffer) : Out Buffer :=
  if (col b =? 0)%nat then
    if (row b =? 0)%nat then Ret b
    else
      let! (cur, l) := vec_remove (lines b) (row b) in
      let b := at_pos (row b - 1) (col b) (with_lines l b) in
      let! s := current b in
      Ret (touched (at_col (length s) (set_current (s ++ cur) b)))
  else
    let! s := current b in
    let b := at_col (col b - 1) b in
    let! (_, s') := remove_char s (col b) in
    Ret (touched (set_current s' b)).

Definition delete_at_cursor (b : Buffer) : Out (option Z * Buffer) :=
  let! s := current b in
  if (length s =? 0)%nat || (length s <=? col b)%nat then Ret (None, b)
  else
    let! (c, s') := remove_char s (col b) in
    let b := set_current s' b in
    let b := if (length s' <=? col b)%nat && (0 <? col b)%nat then at_col (col b - 1) b else b in
    Ret (Some c, touched b).

Definition delete_line (b : Buffer) : Out (list Z * Buffer) :=
  let! (removed, l) :=
    if (line_count b =? 1)%nat then
      match lines b with s :: l => Ret (s, [] :: l) | [] => Panic end
    else vec_remove (lines b) (row b) in
  let r := if (length l <=? row b)%nat then (length l - 1)%nat else row b in
  Ret (removed, touched (at_pos r 0 (with_lines l b))).

Definition clear_current_line (b : Buffer) : Out (list Z * Buffer) :=
  let! s := current b in Ret (s, touched (at_col 0 (set_current [] b))).

Definition open_below (b : Buffer) : Out Buffer :=
  let! l := vec_insert (lines b) (S (row b)) [] in Ret (touched (at_pos (S (row b)) 0 (with_lines l b))).

Definition open_above (b : Buffer) : Out Buffer :=
  let! l := vec_insert (lines b) (row b) [] in Ret (touched (at_pos (row b) 0 (with_lines l b))).

Definition replace_at_cursor (byte : Z) (b : Buffer) : Out Buffer :=
  let! s := current b in
  if (length s <=? col b)%nat then Ret b
  else
    let! (_, s') := remove_char s (col b) in
    let! s' := insert_char s' (col b) byte in
    Ret (touched (set_current s' b)).

(** ** Undo ([undo.rs]) *)

Record Snapshot : Set := mkSnapshot { s_lines : list (list Z); s_row : nat; s_col : nat }.

(** The stack, the oldest first. *)
Record Undo : Set := mkUndo { stack : list Snapshot; undo_cap : nat }.

Definition undo_new : Undo := mkUndo [] 200.

Definition snapshot (b : Buffer) (u : Undo) : Undo :=
  let l := if (length (stack u) =? undo_cap u)%nat then tail (stack u) else stack u in
  mkUndo (l ++ [mkSnapshot (lines b) (row b) (col b)]) (undo_cap u).

Definition pop_into (b : Buffer) (u : Undo) : bool * Buffer * Undo :=
  match last (stack u) with
  | None => (false, b, u)
  | Some s => (true, touched (at_pos (s_row s) (s_col s) (with_lines (s_lines s) b)), mkUndo (removelast (stack u)) (undo_cap u))
  end.

(** ** Motions ([motion.rs]) *)

Definition left (b : Buffer) : Buffer := if (0 <? col b)%nat then at_col (col b - 1) b else b.

Definition right (b : Buffer) : Out Buffer :=
  let! s := current b in
  Ret (if (0 <? length s)%nat && (S (col b) <? length s)%nat then at_col (S (col b)) b else b).

Definition up (b : Buffer) : Out Buffer :=
  if (0 <? row b)%nat then clamp_col false (at_pos (row b - 1) (col b) b) else Ret b.

Definition down (b : Buffer) : Out Buffer :=
  if (S (row b) <? line_count b)%nat then clamp_col false (at_pos (S (row b)) (col b) b) else Ret b.

Definition line_start (b : Buffer) : Buffer := at_col 0 b.

Fixpoint find_index (p : Z → bool) (s : list Z) : option nat :=
  match s with [] => None | x :: s => if p x then Some 0%nat else S <$> find_index p s end.

Definition first_non_blank (b : Buffer) : Out Buffer :=
  let! s := current b in
  Ret (at_col (default 0%nat (find_index (λ x, negb ((x =? 32) || (x =? 9))) s)) b).

Definition line_end (b : Buffer) : Out Buffer :=
  let! s := current b in Ret (at_col (length s - 1) b).

Definition buf_start (b : Buffer) : Out Buffer := first_non_blank (at_pos 0 (col b) b).

Definition buf_end (b : Buffer) : Out Buffer := first_non_blank (at_pos (line_count b - 1) (col b) b).

Inductive CharClass : Set := Word | Punct | Space.

#[export] Instance CharClass_eq_dec : EqDecision CharClass.
Proof. solve_decision. Defined.

Definition char_class (b : Z) : CharClass :=
  if ((97 <=? b) && (b <=? 122)) || ((65 <=? b) && (b <=? 90)) || ((48 <=? b) && (b <=? 57)) || (b =? 95) then Word
  else if (b =? 32) || (b =? 9) then Space
  else Punct.

Definition byte_at (b : Buffer) (p : nat * nat) : Z := match line b p.1 !! p.2 with Some x => x | None => 32 end.

Definition advance_one (b : Buffer) (p : nat * nat) : nat * nat :=
  let '(r, c) := p in
  let len := length (line b r) in
  if (S c <? len)%nat then (r, S c)
  else if (S r <? line_count b)%nat then (S r, 0%nat)
  else (r, (len - 1)%nat).

Definition retreat_one (b : Buffer) (p : nat * nat) : nat * nat :=
  let '(r, c) := p in
  if (0 <? c)%nat then (r, (c - 1)%nat)
  else if (0 <? r)%nat then ((r - 1)%nat, (length (line b (r - 1)) - 1)%nat)
  else (r, c).

(** Turns that suffice for a walk over the text, from one end to the other. *)
Definition walk (b : Buffer) : nat := (3 + sum_list_with (λ s, S (length s)) (lines b))%nat.

Fixpoint advance_while (fuel : nat) (b : Buffer) (pred : Z → bool) (p : nat * nat) : Out (nat * nat) :=
  match fuel with
  | O => NoFuel
  | S fuel =>
      if pred (byte_at b p) then
        let q := advance_one b p in if bool_decide (q = p) then Ret q else advance_while fuel b pred q
      else Ret p
  end.

Fixpoint retreat_while (fuel : nat) (b : Buffer) (pred : Z → bool) (p : nat * nat) : Out (nat * nat) :=
  match fuel with
  | O => NoFuel
  | S fuel =>
      if pred (byte_at b p) then
        if bool_decide (p = (0%nat, 0%nat)) then Ret p
        else let q := retreat_one b p in if bool_decide (q = p) then Ret q else retreat_while fuel b pred q
      else Ret p
  end.

Definition next_is (b : Buffer) (pred : Z → bool) (p : nat * nat) : bool :=
  let q := advance_one b p in if bool_decide (q = p) then false else pred (byte_at b q).

Definition of_class (k : CharClass) (x : Z) : bool := bool_decide (char_class x = k).

Definition word_next (b : Buffer) : Out Buffer :=
  let p := (row b, col b) in
  let start_class := char_class (byte_at b p) in
  let! p := advance_while (walk b) b (of_class start_class) p in
  let! p := advance_while (walk b) b (of_class Space) p in
  Ret (at_pos p.1 p.2 b).

(** The loop of [word_back]. *)
Fixpoint back_loop (fuel : nat) (b : Buffer) (class : CharClass) (p : nat * nat) : Out (nat * nat) :=
  match fuel with
  | O => NoFuel
  | S fuel =>
      if (0 <? p.1)%nat || (0 <? p.2)%nat then
        let t := retreat_one b p in
        if bool_decide (char_class (byte_at b t) = class) then back_loop fuel b class t else Ret p
      else Ret p
  end.

Definition word_back (b : Buffer) : Out Buffer :=
  let p := retreat_one b (row b, col b) in
  let! p := retreat_while (walk b) b (of_class Space) p in
  let! p := back_loop (walk b) b (char_class (byte_at b p)) p in
  Ret (at_pos p.1 p.2 b).

(** The loop of [word_end]. *)
Fixpoint end_loop (fuel : nat) (b : Buffer) (class : CharClass) (p : nat * nat) : Out (nat * nat) :=
  match fuel with
  | O => NoFuel
  | S fuel => if next_is b (of_class class) p then end_loop fuel b class (advance_one b p) else Ret p
  end.

Definition word_end (b : Buffer) : Out Buffer :=
  let p := advance_one b (row b, col b) in
  let! p := advance_while (walk b) b (of_class Space) p in
  let! p := end_loop (walk b) b (char_class (byte_at b p)) p in
  Ret (at_pos p.1 p.2 b).

Definition find_forward (target : Z) (b : Buffer) : Out (bool * Buffer) :=
  let! s := current b in
  Ret match find_index (λ x, x =? target) (drop (S (col b)) s) with
      | Some i => (true, at_col (S (col b) + i) b)
      | None => (false, b)
      end.

(** [rposition]. *)
Fixpoint rfind_index (p : Z → bool) (s : list Z) : option nat :=
  match s with
  | [] => None
  | x :: s => match rfind_index p s with Some i => Some (S i) | None => if p x then Some 0%nat else None end
  end.

(** The bytes before the cursor: a slice of bytes, out of range it panics. *)
Definition find_backward (target : Z) (b : Buffer) : Out (bool * Buffer) :=
  let! s := current b in
  if (length s <? col b)%nat then Panic
  else
    Ret match rfind_index (λ x, x =? target) (take (col b) s) with
        | Some i => (true, at_col i b)
        | None => (false, b)
        end.

(** Where the depth comes to zero, counted from the start of [s]. *)
Fixpoint match_loop (opn cls : Z) (depth : Z) (s : list Z) : option nat :=
  match s with
  | [] => None
  | x :: s =>
      if x =? opn then S <$> match_loop opn cls (depth + 1) s
      else if x =? cls then if depth - 1 =? 0 then Some 0%nat else S <$> match_loop opn cls (depth - 1) s
      else S <$> match_loop opn cls depth s
  end.

Definition bracket (x : Z) : option (Z * Z * bool) :=
  if x =? 40 then Some (40, 41, true) else if x =? 41 then Some (40, 41, false)
  else if x =? 91 then Some (91, 93, true) else if x =? 93 then Some (91, 93, false)
  else if x =? 123 then Some (123, 125, true) else if x =? 125 then Some (123, 125, false)
  else None.

Definition matching_bracket (b : Buffer) : Out Buffer :=
  let! s := current b in
  match s !! col b with
  | None => Ret b
  | Some x =>
      match bracket x with
      | None => Ret b
      | Some (opn, cls, true) =>
          Ret match match_loop opn cls 1 (drop (S (col b)) s) with Some i => at_col (S (col b) + i) b | None => b end
      | Some (opn, cls, false) =>
          Ret match match_loop cls opn 1 (reverse (take (col b) s)) with Some i => at_col (col b - S i) b | None => b end
      end
  end.

(** ** Edits ([edit.rs]) *)

Definition delete_char (b : Buffer) : Out (option (list Z) * Buffer) :=
  let! (c, b) := delete_at_cursor b in Ret (Text.encode_char <$> c, b).

Definition backspace_char (b : Buffer) : Out (option (list Z) * Buffer) :=
  if (col b =? 0)%nat then Ret (None, b) else delete_char (at_col (col b - 1) b).

Definition yank_line (b : Buffer) : list Z := line b (row b).

Definition strip_newline (s : list Z) : option (list Z) :=
  if bool_decide (last s = Some 10) then Some (removelast s) else None.

(** The loops that insert lines from row [r] on. *)
Fixpoint insert_lines (r : nat) (ls : list (list Z)) (l : list (list Z)) : Out (list (list Z)) :=
  match ls with [] => Ret l | s :: ls => let! l := vec_insert l r s in insert_lines (S r) ls l end.

Definition paste_after (register : list Z) (b : Buffer) : Out Buffer :=
  match strip_newline register with
  | Some stripped =>
      let! l := insert_lines (S (row b)) (Text.split_on 10 stripped) (lines b) in
      Ret (touched (at_pos (S (row b)) 0 (with_lines l b)))
  | None =>
      let! s := current b in
      let insert_at := Nat.min (S (col b)) (length s) in
      let! s' := insert_str s insert_at register in
      Ret (touched (at_col (insert_at + (length register - 1)) (set_current s' b)))
  end.

Definition paste_before (register : list Z) (b : Buffer) : Out Buffer :=
  match strip_newline register with
  | Some stripped =>
      let! l := insert_lines (row b) (Text.split_on 10 stripped) (lines b) in
      Ret (touched (at_pos (row b) 0 (with_lines l b)))
  | None =>
      let! s := current b in
      let! s' := insert_str s (col b) register in
      Ret (touched (set_current s' b))
  end.

Definition delete_word (b : Buffer) : Out (list Z * Buffer) :=
  let start := col b in
  let r := row b in
  let! moved := word_next b in
  let! s := current b in
  let stop := if (row moved =? r)%nat then col moved else length s in
  let! (s', removed) := drain s start stop in
  let b := touched (set_current s' b) in
  Ret (removed, if (length s' <=? col b)%nat && (0 <? col b)%nat then at_col (length s' - 1) b else b).

Definition delete_to_eol (b : Buffer) : Out (list Z * Buffer) :=
  let! s := current b in
  let! (s', removed) := drain s (col b) (length s) in
  let b := set_current s' b in
  let b := if (0 <? col b)%nat && (length s' <=? col b)%nat then at_col (length s' - 1) b else b in
  Ret (removed, touched b).

Definition join_lines (b : Buffer) : Out Buffer :=
  if (line_count b <=? S (row b))%nat then Ret b
  else
    let! (next, l) := vec_remove (lines b) (S (row b)) in
    let b := with_lines l b in
    let trimmed := trim_start next in
    let! s := current b in
    let s' := if negb (length s =? 0)%nat && negb (bool_decide (last s = Some 32)) && negb (length trimmed =? 0)%nat then s ++ [32] else s in
    Ret (touched (at_col (length s) (set_current (s' ++ trimmed) b))).

(** [repeat], of an action on the buffer. *)
Fixpoint times (n : nat) (f : Buffer → Out Buffer) (b : Buffer) : Out Buffer :=
  match n with O => Ret b | S n => let! b := f b in times n f b end.

Definition repeat (count : nat) (f : Buffer → Out Buffer) (b : Buffer) : Out Buffer := times (Nat.max count 1) f b.

(** The byte before the cursor. *)
Definition before (b : Buffer) : Out (option Z) := let! s := current b in Ret (s !! (col b - 1)%nat).

Fixpoint drop_loop (fuel : nat) (p : Z → bool) (b : Buffer) : Out Buffer :=
  match fuel with
  | O => NoFuel
  | S fuel =>
      if (col b =? 0)%nat then Ret b
      else
        let! x := before b in
        if match x with Some x => p x | None => false end then let! b := backspace b in drop_loop fuel p b else Ret b
  end.

(** Every turn takes a byte of the line at least. *)
Definition drop_word_left (b : Buffer) : Out Buffer :=
  let! b := drop_loop (S (col b)) (λ x, x =? 32) b in
  drop_loop (S (col b)) (λ x, negb (x =? 32)) b.

(** ** Keys ([keys.rs]) *)

Inductive Key : Set :=
| KChar (b : Z) | KCtrl (b : Z) | KEnter | KBackspace | KTab | KEsc | KUp | KDown | KLeft | KRight | KHome | KEnd
| KPageUp | KPageDown | KDelete | KUnknown (b : Z).

(** The byte given back, and the input. *)
Record Reader : Set := mkReader { pending : option Z; input : list Z }.

Definition read_one (r : Reader) : option Z * Reader :=
  match pending r with
  | Some b => (Some b, mkReader None (input r))
  | None => match input r with b :: i => (Some b, mkReader None i) | [] => (None, r) end
  end.

Definition is_ascii_alphabetic (b : Z) : bool := ((65 <=? b) && (b <=? 90)) || ((97 <=? b) && (b <=? 122)).

Definition number_key (number : list Z) : Key :=
  if bool_decide (number = [49]) || bool_decide (number = [55]) then KHome
  else if bool_decide (number = [51]) then KDelete
  else if bool_decide (number = [52]) || bool_decide (number = [56]) then KEnd
  else if bool_decide (number = [53]) then KPageUp
  else if bool_decide (number = [54]) then KPageDown
  else KUnknown 27.

(** The number of a sequence, on the input: nothing is pending by then. *)
Fixpoint number_loop (number : list Z) (i : list Z) : Key * list Z :=
  match i with
  | [] => (KUnknown 27, [])
  | b :: i =>
      if (b =? 126) || is_ascii_alphabetic b then (number_key number, i)
      else if negb (Text.is_digit b) && negb (b =? 59) then (KUnknown 27, i)
      else number_loop (number ++ [b]) i
  end.

Definition decode_escape (r : Reader) : Key * Reader :=
  match read_one r with
  | (None, r) => (KEsc, r)
  | (Some b1, r) =>
      if negb (b1 =? 91) && negb (b1 =? 79) then (KEsc, mkReader (Some b1) (input r))
      else
        match read_one r with
        | (None, r) => (KEsc, r)
        | (Some b2, r) =>
            if b2 =? 65 then (KUp, r) else if b2 =? 66 then (KDown, r) else if b2 =? 67 then (KRight, r)
            else if b2 =? 68 then (KLeft, r) else if b2 =? 72 then (KHome, r) else if b2 =? 70 then (KEnd, r)
            else if Text.is_digit b2 then let '(k, i) := number_loop [b2] (input r) in (k, mkReader None i)
            else (KUnknown 27, r)
        end
  end.

Definition next_key (r : Reader) : option Key * Reader :=
  match read_one r with
  | (None, r) => (None, r)
  | (Some b, r) =>
      if (b =? 13) || (b =? 10) then (Some KEnter, r)
      else if b =? 9 then (Some KTab, r)
      else if (b =? 127) || (b =? 8) then (Some KBackspace, r)
      else if b =? 27 then let '(k, r) := decode_escape r in (Some k, r)
      else if (1 <=? b) && (b <=? 26) then (Some (KCtrl (b + 97 - 1)), r)
      else if (32 <=? b) && (b <=? 126) then (Some (KChar b), r)
      else (Some (KUnknown b), r)
  end.

(** ** The editor ([search.rs], [ex.rs], [main.rs], [mode.rs]) *)

Inductive CommandKind : Set := Ex | SearchForward | SearchBackward.
Inductive Mode : Set := Normal | Insert | ReplaceOne | CommandLine (k : CommandKind).

(** What the status line says, by its cases. *)
Inductive Message : Set :=
| AtOldestChange | PatternNotFound | BadPattern | EmptyPattern | NotOnThisLine (target : Z) | ZZ
| Written (bytes : nat) | WriteFailed | NoWriteSinceLastChange | NoFileName | Usage | Opened | CannotOpen | ReadIn (count : nat)
| CannotRead | UnknownOption | NotACommand (verb : list Z) | Help | Substitutions (count : nat).

Inductive ExResult : Set := Continue (m : option Message) | Quit (code : Z) | Replace (b : Buffer) (m : option Message).

Section editor.
(** Regular expressions; the matches of [find_iter] by their starts. *)
Context (Regex : Type) (compile : list Z → option Regex) (find_at : Regex → list Z → nat → option nat) (find_iter : Regex → list Z → list nat).
(** [replace_all], or [replacen] of one match. *)
Context (replace : Regex → bool → list Z → list Z → list Z).
(** The files. *)
Context (Files : Type) (read_to_string : Files → list Z → Io.Res (list Z)) (write_file : Files → list Z → list Z → Io.Res unit * Files).

Record Search : Type := mkSearch { pattern : list Z; compiled : option Regex; forward : bool }.

Definition search_new : Search := mkSearch [] None true.

Definition search_set (p : list Z) (fwd : bool) (s : Search) : Search + Message :=
  match p with
  | [] => inr EmptyPattern
  | _ => match compile p with Some re => inl (mkSearch p (Some re) fwd) | None => inr BadPattern end
  end.

Definition last_match_in (re : Regex) (s : list Z) : option nat := last (find_iter re s).

(** The rows after [start_row], around the end; [offset] counts them. *)
Fixpoint find_rows (hit : list Z → option nat) (next : nat → nat) (start_row : nat) (turns offset : nat) (b : Buffer) : bool * Buffer :=
  match turns with
  | O => (false, b)
  | S turns =>
      let r := next offset in
      match hit (line b r) with
      | Some c => (true, at_pos r c b)
      | None => if (r =? start_row)%nat then (false, b) else find_rows hit next start_row turns (S offset) b
      end
  end.

Definition find (fwd include_cursor : bool) (s : Search) (b : Buffer) : Out (bool * Buffer) :=
  match compiled s with
  | None => Ret (false, b)
  | Some re =>
      let r := row b in let c := col b in let n := line_count b in let l := line b r in
      if fwd then
        let scan_from := Nat.min (if include_cursor then c else S c) (length l) in
        match find_at re l scan_from with
        | Some m => Ret (true, at_col m b)
        | None => Ret (find_rows (λ l, find_at re l 0) (λ offset, Nat.modulo (r + offset) n) r n 1 b)
        end
      else
        let cutoff := if include_cursor then Nat.min (S c) (length l) else c in
        let! here := if (0 <? cutoff)%nat then let! h := slice_to l cutoff in Ret (last_match_in re h) else Ret None in
        match here with
        | Some m => Ret (true, at_col m b)
        | None => Ret (find_rows (last_match_in re) (λ offset, Nat.modulo (r + n - offset) n) r n 1 b)
        end
  end.

(** *** Files of the buffer *)

Definition load (p : list Z) (fs : Files) : Io.Res Buffer :=
  match read_to_string fs p with
  | Io.Done text => Io.Done (mkBuffer (Some p) (split_keep_empty text) 0 0 false false)
  | Io.Fail e => if bool_decide (Io.kind e = Io.NotFound) then Io.Done (mkBuffer (Some p) [[]] 0 0 false true) else Io.Fail e
  | Io.NoFuel => Io.NoFuel
  end.

(** [join] with newlines. *)
Fixpoint join_with_newlines (l : list (list Z)) : list Z :=
  match l with [] => [] | [s] => s | s :: l => s ++ 10 :: join_with_newlines l end.

Definition save_as (p : list Z) (b : Buffer) (fs : Files) : Io.Res nat * Buffer * Files :=
  let bytes := join_with_newlines (lines b) ++ [10] in
  match write_file fs p bytes with
  | (Io.Done _, fs) => (Io.Done (length bytes), mkBuffer (Some p) (lines b) (row b) (col b) false false, fs)
  | (Io.Fail e, fs) => (Io.Fail e, b, fs)
  | (Io.NoFuel, fs) => (Io.NoFuel, b, fs)
  end.

Definition save (b : Buffer) (fs : Files) : Io.Res nat * Buffer * Files :=
  match path b with
  | None => (Io.Fail (Io.Custom Io.InvalidInput), b, fs)
  | Some p => save_as p b fs
  end.

(** *** Ex commands *)

(** [str::trim], of characters. *)
Definition trim (s : list Z) : list Z :=
  match Text.from_utf8 s with Some cs => Text.as_bytes (Text.trim cs) | None => s end.

Definition split_verb (s : list Z) : list Z * list Z :=
  match Text.strip_prefix (Text.str "q!") s with
  | Some rest => (Text.str "q!", rest)
  | None => match find_index (λ x, (x =? 32) || (x =? 9)) s with Some i => (take i s, drop i s) | None => (s, []) end
  end.

Definition ex_write (arg : list Z) (b : Buffer) (fs : Files) : ExResult * Buffer * Files :=
  match (match arg with [] => save b fs | _ => save_as arg b fs end) with
  | (Io.Done n, b, fs) => (Continue (Some (Written n)), b, fs)
  | (_, b, fs) => (Continue (Some WriteFailed), b, fs)
  end.

Definition ex_quit (b : Buffer) (force : bool) : ExResult :=
  if dirty b && negb force then Continue (Some NoWriteSinceLastChange) else Quit 0.

Definition ex_edit (arg : list Z) (fs : Files) : ExResult :=
  match arg with
  | [] => Continue (Some Usage)
  | _ => match load arg fs with Io.Done b => Replace b (Some Opened) | _ => Continue (Some CannotOpen) end
  end.

(** [str::lines]: the end of a line may have a carriage return. *)
Definition strip_return (s : list Z) : list Z := if bool_decide (last s = Some 13) then removelast s else s.

Fixpoint str_lines (parts : list (list Z)) : list (list Z) :=
  match parts with
  | [] => []
  | [s] => match s with [] => [] | _ => [s] end
  | s :: parts => strip_return s :: str_lines parts
  end.

Definition read_into (arg : list Z) (b : Buffer) (fs : Files) : Out (ExResult * Buffer) :=
  match arg with
  | [] => Ret (Continue (Some Usage), b)
  | _ =>
      match read_to_string fs arg with
      | Io.Done text =>
          let inserted := str_lines (Text.split_on 10 text) in
          let! l := insert_lines (S (row b)) inserted (lines b) in
          Ret (Continue (Some (ReadIn (length inserted))), touched (with_lines l b))
      | _ => Ret (Continue (Some CannotRead), b)
      end
  end.

Definition set_option (arg : list Z) (show_numbers : bool) : ExResult * bool :=
  if bool_decide (arg = Text.str "nu") || bool_decide (arg = Text.str "number") then (Continue None, true)
  else if bool_decide (arg = Text.str "nonu") || bool_decide (arg = Text.str "nonumber") then (Continue None, false)
  else (Continue (Some UnknownOption), show_numbers).

(** The parts before and behind the separators that no backslash precedes. *)
Fixpoint split_unescaped (sep : Z) (cur : list Z) (s : list Z) : list (list Z) :=
  match s with
  | [] => [cur]
  | x :: s' =>
      match s' with
      | y :: s'' => if (x =? 92) && (y =? sep) then split_unescaped sep (cur ++ [sep]) s''
                    else if x =? sep then cur :: split_unescaped sep [] s' else split_unescaped sep (cur ++ [x]) s'
      | [] => if x =? sep then cur :: split_unescaped sep [] s' else split_unescaped sep (cur ++ [x]) s'
      end
  end.

Fixpoint substitute_rows (re : Regex) (rep : list Z) (all : bool) (rows : list nat) (count : nat) (b : Buffer) : Out (nat * Buffer) :=
  match rows with
  | [] => Ret (count, b)
  | r :: rows =>
      let! s := or_panic (lines b !! r) in
      let new := replace re all s rep in
      if bool_decide (new = s) then substitute_rows re rep all rows count b
      else
        let count := (count + if all then length (find_iter re s) else 1)%nat in
        substitute_rows re rep all rows count (touched (with_lines (<[r := new]> (lines b)) b))
  end.

Definition substitute (s : list Z) (b : Buffer) : Out (ExResult * Buffer) :=
  let '(global_lines, body) :=
    match Text.strip_prefix (Text.str "%s/") s with Some rest => (true, rest) | None => (false, drop 2 s) end in
  match split_unescaped 47 [] body with
  | pat :: rep :: flags =>
      let all := match flags with f :: _ => bool_decide (103 ∈ f) | [] => false end in
      match compile pat with
      | None => Ret (Continue (Some BadPattern), b)
      | Some re =>
          let! (count, b) := substitute_rows re rep all (if global_lines then seq 0 (line_count b) else [row b]) 0 b in
          Ret (Continue (Some (Substitutions count)), b)
      end
  | _ => Ret (Continue (Some Usage), b)
  end.

Definition is_substitution (s : list Z) : bool :=
  match Text.strip_prefix (Text.str "s/") s, Text.strip_prefix (Text.str "%s/") s with None, None => false | _, _ => true end.

Definition verb_is (verb : list Z) (s : string) : bool := bool_decide (verb = Text.str s).

Definition dispatch (cmd : list Z) (b : Buffer) (show_numbers : bool) (fs : Files) : Out (ExResult * Buffer * bool * Files) :=
  let trimmed := trim cmd in
  match trimmed with
  | [] => Ret (Continue None, b, show_numbers, fs)
  | _ =>
      match Text.from_str_radix 32 10 trimmed with
      | Some n => Ret (Continue None, at_pos (Nat.min (Z.to_nat n - 1) (line_count b - 1)) 0 b, show_numbers, fs)
      | None =>
          if is_substitution trimmed then let! (x, b) := substitute trimmed b in Ret (x, b, show_numbers, fs)
          else
            let '(verb, rest) := split_verb trimmed in
            let arg := trim_start rest in
            if verb_is verb "w" then let '(x, b, fs) := ex_write arg b fs in Ret (x, b, show_numbers, fs)
            else if verb_is verb "q" then Ret (ex_quit b false, b, show_numbers, fs)
            else if verb_is verb "q!" then Ret (ex_quit b true, b, show_numbers, fs)
            else if verb_is verb "wq" || verb_is verb "x" then
              let '(x, b, fs) := ex_write arg b fs in
              Ret (match x with Continue _ => Quit 0 | other => other end, b, show_numbers, fs)
            else if verb_is verb "e" then Ret (ex_edit arg fs, b, show_numbers, fs)
            else if verb_is verb "r" then let! (x, b) := read_into arg b fs in Ret (x, b, show_numbers, fs)
            else if verb_is verb "set" then let '(x, show) := set_option arg show_numbers in Ret (x, b, show, fs)
            else if verb_is verb "help" then Ret (Continue (Some Help), b, show_numbers, fs)
            else Ret (Continue (Some (NotACommand verb)), b, show_numbers, fs)
      end
  end.

(** *** The editor's state *)

Record Editor : Type := mkEditor {
  buffer : Buffer; mode : Mode; cmdline : list Z; undo : Undo; search : Search; register : list Z; status : option Message;
  show_numbers : bool; count : Z; pending_op : option Z; last_insert : list Z; g_prefix : bool; pending_find : option Z; files : Files;
}.

Definition set_buffer x (e : Editor) : Editor := mkEditor x (mode e) (cmdline e) (undo e) (search e) (register e) (status e) (show_numbers e) (count e) (pending_op e) (last_insert e) (g_prefix e) (pending_find e) (files e).
Definition set_mode x (e : Editor) : Editor := mkEditor (buffer e) x (cmdline e) (undo e) (search e) (register e) (status e) (show_numbers e) (count e) (pending_op e) (last_insert e) (g_prefix e) (pending_find e) (files e).
Definition set_cmdline x (e : Editor) : Editor := mkEditor (buffer e) (mode e) x (undo e) (search e) (register e) (status e) (show_numbers e) (count e) (pending_op e) (last_insert e) (g_prefix e) (pending_find e) (files e).
Definition set_undo x (e : Editor) : Editor := mkEditor (buffer e) (mode e) (cmdline e) x (search e) (register e) (status e) (show_numbers e) (count e) (pending_op e) (last_insert e) (g_prefix e) (pending_find e) (files e).
Definition set_search x (e : Editor) : Editor := mkEditor (buffer e) (mode e) (cmdline e) (undo e) x (register e) (status e) (show_numbers e) (count e) (pending_op e) (last_insert e) (g_prefix e) (pending_find e) (files e).
Definition set_register x (e : Editor) : Editor := mkEditor (buffer e) (mode e) (cmdline e) (undo e) (search e) x (status e) (show_numbers e) (count e) (pending_op e) (last_insert e) (g_prefix e) (pending_find e) (files e).
Definition set_status x (e : Editor) : Editor := mkEditor (buffer e) (mode e) (cmdline e) (undo e) (search e) (register e) x (show_numbers e) (count e) (pending_op e) (last_insert e) (g_prefix e) (pending_find e) (files e).
Definition set_show_numbers x (e : Editor) : Editor := mkEditor (buffer e) (mode e) (cmdline e) (undo e) (search e) (register e) (status e) x (count e) (pending_op e) (last_insert e) (g_prefix e) (pending_find e) (files e).
Definition set_count x (e : Editor) : Editor := mkEditor (buffer e) (mode e) (cmdline e) (undo e) (search e) (register e) (status e) (show_numbers e) x (pending_op e) (last_insert e) (g_prefix e) (pending_find e) (files e).
Definition set_pending_op x (e : Editor) : Editor := mkEditor (buffer e) (mode e) (cmdline e) (undo e) (search e) (register e) (status e) (show_numbers e) (count e) x (last_insert e) (g_prefix e) (pending_find e) (files e).
Definition set_last_insert x (e : Editor) : Editor := mkEditor (buffer e) (mode e) (cmdline e) (undo e) (search e) (register e) (status e) (show_numbers e) (count e) (pending_op e) x (g_prefix e) (pending_find e) (files e).
Definition set_g_prefix x (e : Editor) : Editor := mkEditor (buffer e) (mode e) (cmdline e) (undo e) (search e) (register e) (status e) (show_numbers e) (count e) (pending_op e) (last_insert e) x (pending_find e) (files e).
Definition set_pending_find x (e : Editor) : Editor := mkEditor (buffer e) (mode e) (cmdline e) (undo e) (search e) (register e) (status e) (show_numbers e) (count e) (pending_op e) (last_insert e) (g_prefix e) x (files e).
Definition set_files x (e : Editor) : Editor := mkEditor (buffer e) (mode e) (cmdline e) (undo e) (search e) (register e) (status e) (show_numbers e) (count e) (pending_op e) (last_insert e) (g_prefix e) (pending_find e) x.

Definition new_editor (b : Buffer) (fs : Files) : Editor :=
  mkEditor b Normal [] undo_new search_new [] (Some Opened) false 0 None [] false None fs.

Definition snap (e : Editor) : Editor := set_undo (snapshot (buffer e) (undo e)) e.

(** An action on the buffer. *)
Definition on_buffer (f : Buffer → Out Buffer) (e : Editor) : Out Editor := let! b := f (buffer e) in Ret (set_buffer b e).

(** An action that gives the text it took to the register. *)
Definition into_register (f : Buffer → Out (list Z * Buffer)) (suffix : list Z) (e : Editor) : Out Editor :=
  let! (s, b) := f (buffer e) in Ret (set_register (s ++ suffix) (set_buffer b e)).

Definition enter_insert (e : Editor) : Editor := snap (set_last_insert [] (set_mode Insert e)).

(** *** Normal mode *)

Definition execute_find (verb target : Z) (e : Editor) : Out Editor :=
  let b := buffer e in
  let! (moved, b) :=
    if verb =? 102 then find_forward target b
    else if verb =? 70 then find_backward target b
    else if verb =? 116 then
      let! (r, b) := find_forward target b in Ret (r, if r && (0 <? col b)%nat then at_col (col b - 1) b else b)
    else if verb =? 84 then
      let! (r, b) := find_backward target b in Ret (r, if r then at_col (S (col b)) b else b)
    else Ret (false, b) in
  let e := set_buffer b e in
  Ret (if moved then e else set_status (Some (NotOnThisLine target)) e).

Definition key_is (k : Key) (c : Z) : bool := match k with KChar b => b =? c | _ => false end.

Definition execute_operator (op : Z) (k : Key) (e : Editor) : Out Editor :=
  if (op =? 100) && key_is k 100 then into_register delete_line [10] (snap e)
  else if (op =? 121) && key_is k 121 then Ret (set_register (yank_line (buffer e) ++ [10]) e)
  else if (op =? 100) && key_is k 119 then into_register delete_word [] (snap e)
  else if (op =? 99) && key_is k 119 then let! e := into_register delete_word [] (snap e) in Ret (enter_insert e)
  else if (op =? 99) && key_is k 99 then let! e := into_register clear_current_line [10] (snap e) in Ret (enter_insert e)
  else if (op =? 99) && key_is k 36 then let! e := into_register delete_to_eol [] (snap e) in Ret (enter_insert e)
  else if (op =? 90) && key_is k 90 then
    let! (_, b, show, fs) := dispatch (Text.str "wq") (buffer e) (show_numbers e) (files e) in
    Ret (set_status (Some ZZ) (set_files fs (set_show_numbers show (set_buffer b e))))
  else Ret e.

Definition TEXT_ROWS : nat := 23.

Definition append_after (b : Buffer) : Out Buffer :=
  let! s := current b in
  clamp_col true (if negb (length s =? 0)%nat then at_col (S (col b)) b else b).

Definition append_end (b : Buffer) : Out Buffer := let! s := current b in Ret (at_col (length s) b).

Definition search_from (fwd : bool) (e : Editor) : Out Editor :=
  let! (hit, b) := find fwd false (search e) (buffer e) in
  let e := set_buffer b e in
  Ret (if hit then e else set_status (Some PatternNotFound) e).

(** The commands of one key; [n] is the count, [explicit] if it was typed. *)
Definition command (k : Key) (n : Z) (explicit : bool) (e : Editor) : Out Editor :=
  let moves f := on_buffer (repeat (Z.to_nat n) f) e in
  match k with
  | KLeft | KBackspace => moves (λ b, Ret (left b))
  | KRight => moves right
  | KUp => moves up
  | KDown | KEnter => moves down
  | KHome => on_buffer first_non_blank e
  | KEnd => on_buffer line_end e
  | KPageDown => moves (times TEXT_ROWS down)
  | KPageUp => moves (times TEXT_ROWS up)
  | KCtrl c => if c =? 102 then moves (times TEXT_ROWS down) else if c =? 98 then moves (times TEXT_ROWS up) else Ret e
  | KChar c =>
      if c =? 104 then moves (λ b, Ret (left b))
      else if (c =? 108) || (c =? 32) then moves right
      else if c =? 107 then moves up
      else if c =? 106 then moves down
      else if c =? 119 then moves word_next
      else if c =? 98 then moves word_back
      else if c =? 101 then moves word_end
      else if c =? 48 then Ret (set_buffer (line_start (buffer e)) e)
      else if c =? 94 then on_buffer first_non_blank e
      else if c =? 36 then on_buffer line_end e
      else if c =? 103 then Ret (set_g_prefix true e)
      else if c =? 71 then
        if explicit then Ret (set_buffer (at_pos (Nat.min (Z.to_nat n - 1) (line_count (buffer e) - 1)) 0 (buffer e)) e)
        else on_buffer buf_end e
      else if c =? 37 then on_buffer matching_bracket e
      else if (c =? 102) || (c =? 70) || (c =? 116) || (c =? 84) then Ret (set_pending_find (Some c) e)
      else if c =? 105 then Ret (enter_insert e)
      else if c =? 73 then let! e := on_buffer first_non_blank e in Ret (enter_insert e)
      else if c =? 97 then let! e := on_buffer append_after e in Ret (enter_insert e)
      else if c =? 65 then let! e := on_buffer append_end e in Ret (enter_insert e)
      else if c =? 111 then let! e := on_buffer open_below (snap e) in Ret (set_last_insert [] (set_mode Insert e))
      else if c =? 79 then let! e := on_buffer open_above (snap e) in Ret (set_last_insert [] (set_mode Insert e))
      else if c =? 120 then on_buffer (repeat (Z.to_nat n) (λ b, let! (_, b) := delete_char b in Ret b)) (snap e)
      else if c =? 88 then on_buffer (repeat (Z.to_nat n) (λ b, let! (_, b) := backspace_char b in Ret b)) (snap e)
      else if c =? 114 then Ret (set_mode ReplaceOne e)
      else if c =? 68 then into_register delete_to_eol [] (snap e)
      else if c =? 74 then on_buffer (repeat (Z.to_nat n) join_lines) (snap e)
      else if (c =? 100) || (c =? 121) || (c =? 99) || (c =? 90) then Ret (set_pending_op (Some c) e)
      else if c =? 112 then match register e with [] => Ret e | _ => on_buffer (paste_after (register e)) (snap e) end
      else if c =? 80 then match register e with [] => Ret e | _ => on_buffer (paste_before (register e)) (snap e) end
      else if c =? 117 then
        let '(ok, b, u) := pop_into (buffer e) (undo e) in
        let e := set_undo u (set_buffer b e) in
        Ret (if ok then e else set_status (Some AtOldestChange) e)
      else if c =? 58 then Ret (set_cmdline [] (set_mode (CommandLine Ex) e))
      else if c =? 47 then Ret (set_cmdline [] (set_mode (CommandLine SearchForward) e))
      else if c =? 63 then Ret (set_cmdline [] (set_mode (CommandLine SearchBackward) e))
      else if c =? 110 then search_from (forward (search e)) e
      else if c =? 78 then search_from (negb (forward (search e))) e
      else Ret e
  | _ => Ret e
  end.

(** Behind the count: the second key of a pair, or a command. *)
Definition handle_rest (k : Key) (e : Editor) : Out Editor :=
  if g_prefix e && key_is k 103 then
    let! e := on_buffer buf_start (set_g_prefix false e) in Ret (set_count 0 e)
  else
    let e := set_g_prefix false e in
    match pending_op e with
    | Some op => let! e := execute_operator op k (set_pending_op None e) in Ret (set_count 0 e)
    | None => command k (Z.max (count e) 1) (0 <? count e) (set_count 0 e)
    end.

Definition handle_normal (k : Key) (e : Editor) : Out Editor :=
  match pending_find e with
  | Some verb =>
      let e := set_pending_find None e in
      let! e := match k with KChar b => execute_find verb b e | _ => Ret e end in
      Ret (set_count 0 e)
  | None =>
      match k with
      | KChar b =>
          if Text.is_digit b && negb ((b =? 48) && (count e =? 0)) then
            Ret (set_count (wrap 32 (Z.min (2 ^ 32 - 1) (count e * 10) + (b - 48))) e)
          else handle_rest k e
      | _ => handle_rest k e
      end
  end.

(** *** Insert and replace mode *)

Definition handle_insert (k : Key) (e : Editor) : Out Editor :=
  match k with
  | KEsc => on_buffer (clamp_col false) (set_mode Normal e)
  | KEnter => let! e := on_buffer split_line e in Ret (set_last_insert (last_insert e ++ [10]) e)
  | KBackspace => on_buffer backspace e
  | KChar c => let! e := on_buffer (insert_byte c) e in Ret (set_last_insert (last_insert e ++ Text.encode_char c) e)
  | KTab => let! e := on_buffer (insert_byte 9) e in Ret (set_last_insert (last_insert e ++ [9]) e)
  | KLeft => Ret (set_buffer (left (buffer e)) e)
  | KRight => on_buffer (λ b, let! s := current b in Ret (if (col b <? length s)%nat then at_col (S (col b)) b else b)) e
  | KUp => on_buffer (λ b, if (0 <? row b)%nat then clamp_col true (at_pos (row b - 1) (col b) b) else Ret b) e
  | KDown => on_buffer (λ b, if (S (row b) <? line_count b)%nat then clamp_col true (at_pos (S (row b)) (col b) b) else Ret b) e
  | KCtrl c => if c =? 119 then on_buffer drop_word_left e else Ret e
  | _ => Ret e
  end.

Definition handle_replace (k : Key) (e : Editor) : Out Editor :=
  let! e := match k with KChar c => on_buffer (replace_at_cursor c) (snap e) | _ => Ret e end in
  Ret (set_mode Normal e).

(** *** The command line; [inr] leaves the editor. *)

(** [String::pop] takes a character. *)
Fixpoint pop_char_rev (s : list Z) : list Z :=
  match s with [] => [] | b :: s => if Text.continuation b then pop_char_rev s else s end.

Definition with_message (m : option Message) (e : Editor) : Editor := match m with Some _ => set_status m e | None => e end.

Definition handle_cmdline (k : Key) (kind : CommandKind) (e : Editor) : Out (Editor + Z) :=
  match k with
  | KEnter =>
      let text := cmdline e in
      let e := set_mode Normal (set_cmdline [] e) in
      match kind with
      | Ex =>
          let! (x, b, show, fs) := dispatch text (buffer e) (show_numbers e) (files e) in
          let e := set_files fs (set_show_numbers show (set_buffer b e)) in
          Ret match x with
              | Continue m => inl (with_message m e)
              | Quit c => inr c
              | Replace b m => inl (with_message m (set_undo undo_new (set_buffer b e)))
              end
      | _ =>
          match search_set text match kind with SearchForward => true | _ => false end (search e) with
          | inl s =>
              let e := set_search s e in
              let! (hit, b) := find (forward s) true s (buffer e) in
              let e := set_buffer b e in
              Ret (inl (if hit then e else set_status (Some PatternNotFound) e))
          | inr m => Ret (inl (set_status (Some m) e))
          end
      end
  | KEsc => Ret (inl (set_mode Normal (set_cmdline [] e)))
  | KBackspace => Ret (inl match cmdline e with [] => set_mode Normal e | s => set_cmdline (reverse (pop_char_rev (reverse s))) e end)
  | KChar c => Ret (inl (set_cmdline (cmdline e ++ Text.encode_char c) e))
  | _ => Ret (inl e)
  end.

(** One turn of the main loop; the status line is shown before the key is read,
    and then forgotten, but in command line mode. *)
Definition turn (k : Key) (e : Editor) : Out (Editor + Z) :=
  match mode e with
  | CommandLine kind => handle_cmdline k kind e
  | Normal => let! e := handle_normal k (set_status None e) in Ret (inl e)
  | Insert => let! e := handle_insert k (set_status None e) in Ret (inl e)
  | ReplaceOne => let! e := handle_replace k (set_status None e) in Ret (inl e)
  end.

(** [run], over the bytes of the terminal; the end of the input ends the editor. *)
Fixpoint run (fuel : nat) (r : Reader) (e : Editor) : Out Z :=
  match fuel with
  | O => NoFuel
  | S fuel =>
      match next_key r with
      | (None, _) => Ret 0
      | (Some k, r) => let! x := turn k e in match x with inl e => run fuel r e | inr c => Ret c end
      end
  end.
End editor.

(** ** The invariant *)

Definition ascii (s : list Z) : Prop := Forall (λ b, 0 ≤ b < 128) s.

(** The cursor is on a line, at a byte of it or behind the last. *)
Definition buf_ok (b : Buffer) : Prop :=
  Forall ascii (lines b) ∧ ∃ s, lines b !! row b = Some s ∧ (col b ≤ length s)%nat.

Definition returns {A} (P : A → Prop) (x : Out A) : Prop := match x with Ret a => P a | _ => False end.

Lemma returns_bind {A B} (Q : A → Prop) (P : B → Prop) x (k : A → Out B) :
  returns Q x → (∀ a, Q a → returns P (k a)) → returns P (bind x k).
Proof. destruct x; simpl; auto. Qed.

Lemma returns_mono {A} (Q P : A → Prop) x : returns Q x → (∀ a, Q a → P a) → returns P x.
Proof. destruct x; simpl; auto. Qed.

(** *** ASCII strings *)

Lemma ascii_app s t : ascii s → ascii t → ascii (s ++ t).
Proof. apply Forall_app_2. Qed.

Lemma ascii_take n s : ascii s → ascii (take n s).
Proof. apply Forall_take. Qed.

Lemma ascii_drop n s : ascii s → ascii (drop n s).
Proof. apply Forall_drop. Qed.

Lemma ascii_one c : 0 ≤ c < 128 → ascii [c].
Proof. intros Hc. constructor; [done|constructor]. Qed.

Lemma encode_char_ascii c : 0 ≤ c < 128 → Text.encode_char c = [c].
Proof. intros Hc. unfold Text.encode_char. by rewrite (proj2 (Z.ltb_lt c 128)) by lia. Qed.

Lemma as_bytes_ascii s : ascii s → Text.as_bytes s = s.
Proof. induction 1 as [|c s Hc _ IH]; [done|]. cbn [Text.as_bytes flat_map]. rewrite encode_char_ascii by done. cbn [app]. f_equal. exact IH. Qed.

Lemma from_utf8_ascii s : ascii s → Text.from_utf8 s = Some s.
Proof.
  intros Hs. rewrite <- (as_bytes_ascii s Hs) at 1. apply Text.from_as_bytes. eapply Forall_impl; [exact Hs|]. intros c Hc. cbv beta in Hc. unfold Text.is_char. lia.
Qed.

Lemma drop_while_ascii p s : ascii s → ascii (Text.drop_while p s).
Proof. induction 1 as [|c s Hc Hs IH]; [constructor|]. cbn [Text.drop_while]. destruct (p c); [done|by constructor]. Qed.

Lemma trim_start_ascii s : ascii s → ascii (trim_start s).
Proof. intros Hs. unfold trim_start, Text.trim_start. rewrite from_utf8_ascii by done. pose proof (drop_while_ascii Text.is_whitespace s Hs). by rewrite as_bytes_ascii. Qed.

Lemma boundary s i : ascii s → (i ≤ length s)%nat → is_char_boundary s i = true.
Proof.
  intros Hs Hi. unfold is_char_boundary. destruct (Nat.eqb_spec i 0); [done|]. destruct (Nat.eqb_spec i (length s)); [done|]. cbn [orb].
  destruct (lookup_lt_is_Some_2 s i) as [x Hx]; [lia|]. rewrite Hx. pose proof (Forall_lookup_1 _ _ _ _ Hs Hx) as Hb. cbv beta in Hb. unfold Text.continuation.
  by rewrite (proj2 (Z.leb_gt 128 x)) by lia.
Qed.

Lemma insert_str_ok s i t : ascii s → ascii t → (i ≤ length s)%nat →
  returns (λ s', ascii s' ∧ length s' = (length s + length t)%nat) (insert_str s i t).
Proof.
  intros Hs Ht Hi. unfold insert_str. rewrite boundary by done. cbn. split; [apply ascii_app; [by apply ascii_take|by apply ascii_app, ascii_drop]|].
  rewrite !length_app, length_take, length_drop. lia.
Qed.

Lemma insert_char_ok s i c : ascii s → 0 ≤ c < 128 → (i ≤ length s)%nat →
  returns (λ s', ascii s' ∧ length s' = S (length s)) (insert_char s i c).
Proof.
  intros Hs Hc Hi. unfold insert_char. rewrite encode_char_ascii by done. eapply returns_mono; [apply insert_str_ok; [done|by apply ascii_one|done]|].
  intros s' [? E]. split; [done|]. cbn [length] in E. lia.
Qed.

Lemma remove_char_ok s i : ascii s → (i < length s)%nat →
  returns (λ '(c, s'), 0 ≤ c < 128 ∧ ascii s' ∧ length s' = (length s - 1)%nat) (remove_char s i).
Proof.
  intros Hs Hi. unfold remove_char. rewrite boundary by (done || lia). destruct (lookup_lt_is_Some_2 s i Hi) as [x Hx].
  pose proof (Forall_lookup_1 _ _ _ _ Hs Hx) as Hx'. simpl in Hx'. rewrite (drop_S _ _ _ Hx). cbn [Text.decode_char].
  rewrite (proj2 (Z.ltb_lt x 128)) by lia. cbn. split; [done|]. split; [by apply ascii_app; [apply ascii_take|apply ascii_drop]|].
  rewrite length_app, length_take, length_drop. lia.
Qed.

Lemma drain_ok s i j : ascii s → (i ≤ j ≤ length s)%nat →
  returns (λ '(s', t), ascii s' ∧ ascii t ∧ length s' = (length s - (j - i))%nat) (drain s i j).
Proof.
  intros Hs Hij. unfold drain. rewrite (proj2 (Nat.leb_le i j)) by lia. rewrite !boundary by (done || lia). cbn.
  split; [by apply ascii_app; [apply ascii_take|apply ascii_drop]|]. split; [by apply ascii_drop, ascii_take|].
  rewrite length_app, length_take, length_drop. lia.
Qed.

(** *** Lines *)

Lemma vec_insert_ok (l : list (list Z)) i s : Forall ascii l → ascii s → (i ≤ length l)%nat →
  returns (λ l', Forall ascii l' ∧ length l' = S (length l) ∧ l' !! i = Some s) (vec_insert l i s).
Proof.
  intros Hl Hs Hi. unfold vec_insert. rewrite (proj2 (Nat.leb_le i _)) by done. cbn. split_and!.
  - apply Forall_app_2; [by apply Forall_take|constructor; [done|by apply Forall_drop]].
  - rewrite length_app, length_take. cbn [length]. rewrite length_drop. lia.
  - rewrite lookup_app_r by (rewrite length_take; lia). rewrite length_take, Nat.min_l, Nat.sub_diag by done. done.
Qed.

Lemma vec_remove_ok (l : list (list Z)) i : Forall ascii l → (i < length l)%nat →
  returns (λ '(s, l'), l !! i = Some s ∧ ascii s ∧ Forall ascii l' ∧ length l' = (length l - 1)%nat ∧ ∀ j, (j < i)%nat → l' !! j = l !! j) (vec_remove l i).
Proof.
  intros Hl Hi. unfold vec_remove. destruct (lookup_lt_is_Some_2 l i Hi) as [s Hs]. rewrite Hs. cbn. split_and!.
  - done.
  - exact (Forall_lookup_1 _ _ _ _ Hl Hs).
  - apply Forall_app_2; [by apply Forall_take|by apply Forall_drop].
  - rewrite length_app, length_take, length_drop. lia.
  - intros j Hj. rewrite lookup_app_l by (rewrite length_take; lia). by apply lookup_take_lt.
Qed.

Lemma insert_lines_ok ls : ∀ r l, Forall ascii ls → Forall ascii l → (r ≤ length l)%nat →
  returns (λ l', Forall ascii l' ∧ length l' = (length ls + length l)%nat ∧ (∀ j, (j < r)%nat → l' !! j = l !! j) ∧ ∀ s, head ls = Some s → l' !! r = Some s) (insert_lines r ls l).
Proof.
  induction ls as [|s ls IH]; intros r l Hls Hl Hr; [by split_and!|]. apply Forall_cons in Hls as [Hs Hls]. cbn [insert_lines].
  assert (returns (λ l', Forall ascii l' ∧ length l' = S (length l) ∧ l' !! r = Some s ∧ ∀ j, (j < r)%nat → l' !! j = l !! j) (vec_insert l r s)) as H1.
  { pose proof (vec_insert_ok l r s Hl Hs Hr) as H. unfold vec_insert in *. rewrite (proj2 (Nat.leb_le r _)) in * by done. cbn in *. destruct H as (? & ? & ?). split_and!; [done..|].
    intros j Hj. rewrite lookup_app_l by (rewrite length_take; lia). by apply lookup_take_lt. }
  eapply returns_bind; [exact H1|]. cbv beta. intros l1 (Ha & Hlen & Hhere & Hbelow). eapply returns_mono; [apply (IH (S r) l1); [done|done|lia]|].
  intros l2 (H2 & H3 & H4 & H5). split_and!; [done|cbn [length]; lia| |].
  - intros j Hj. rewrite H4 by lia. by apply Hbelow.
  - intros s' [= <-]. rewrite H4 by lia. done.
Qed.

Lemma current_ok b : buf_ok b → returns (λ s, lines b !! row b = Some s ∧ ascii s ∧ (col b ≤ length s)%nat) (current b).
Proof.
  intros [Hl (s & Hs & Hc)]. unfold current. rewrite Hs. cbn. split_and!; [done| |done]. exact (Forall_lookup_1 _ _ _ _ Hl Hs).
Qed.

Lemma ok_at b L r c s : Forall ascii L → L !! r = Some s → (c ≤ length s)%nat → buf_ok (at_pos r c (with_lines L b)).
Proof. intros HL Hs Hc. split; [done|]. by exists s. Qed.

Lemma ok_set b s s' c : buf_ok b → lines b !! row b = Some s → ascii s' → (c ≤ length s')%nat → buf_ok (at_col c (set_current s' b)).
Proof.
  intros [Hl _] Hs Ha Hc. split; [by apply Forall_insert|]. exists s'. split; [|done]. apply list_lookup_insert_eq. by eapply lookup_lt_Some.
Qed.

Lemma ok_touched b : buf_ok b → buf_ok (touched b).
Proof. done. Qed.

Lemma ok_row b : buf_ok b → (row b < length (lines b))%nat.
Proof. intros [_ (s & Hs & _)]. by eapply lookup_lt_Some. Qed.

(** The current line is [s]. *)
Ltac with_current Hok s Hs Ha Hc :=
  eapply returns_bind; [apply (current_ok _ Hok)|cbv beta; intros s (Hs & Ha & Hc)].

(** *** The operations of the buffer keep the invariant and do not panic *)

Lemma clamp_ok past L r s b : Forall ascii L → L !! r = Some s → returns buf_ok (clamp_col past (at_pos r (col b) (with_lines L b))).
Proof.
  intros HL Hs. unfold clamp_col, current. cbn [lines row at_pos with_lines]. rewrite Hs. cbn [or_panic bind returns]. set (m := if past || (length s =? 0)%nat then length s else (length s - 1)%nat).
  assert (m ≤ length s)%nat as Hm by (unfold m; destruct (past || _); lia). cbn [col at_pos]. destruct (Nat.ltb_spec m (col b)).
  - split; [done|]. by exists s.
  - split; [done|]. exists s. split; [done|cbn; lia].
Qed.

Lemma clamp_row past b r : buf_ok b → (r < line_count b)%nat → returns buf_ok (clamp_col past (at_pos r (col b) b)).
Proof.
  intros [Hl _] Hr. destruct (lookup_lt_is_Some_2 (lines b) r Hr) as [s Hs].
  assert (at_pos r (col b) b = at_pos r (col b) (with_lines (lines b) b)) as -> by done. by eapply clamp_ok.
Qed.

Lemma insert_byte_ok c b : buf_ok b → 0 ≤ c < 128 → returns buf_ok (insert_byte c b).
Proof.
  intros Hok Hc. unfold insert_byte. with_current Hok s Hs Ha Hcol. eapply returns_bind; [by apply insert_char_ok|]. cbv beta. intros s' [Ha' Hlen].
  cbn [returns]. apply ok_touched. eapply ok_set; [done|exact Hs|done|lia].
Qed.

Lemma split_line_ok b : buf_ok b → returns buf_ok (split_line b).
Proof.
  intros Hok. unfold split_line. with_current Hok s Hs Ha Hcol. unfold split_off. rewrite boundary by done. cbn [bind].
  pose proof (ok_set b s (take (col b) s) (col b) Hok Hs (ascii_take _ _ Ha) ltac:(rewrite length_take; lia)) as [Hl _]. cbn [lines at_col at_pos] in Hl.
  pose proof (ok_row b Hok) as Hr. eapply returns_bind; [apply vec_insert_ok; [exact Hl|by apply ascii_drop|cbn [lines set_current with_lines]; rewrite length_insert; lia]|].
  cbv beta. intros l (H1 & H2 & H3). cbn [returns]. apply ok_touched. by eapply ok_at; [|exact H3|lia].
Qed.

Lemma backspace_ok b : buf_ok b → returns (λ b', buf_ok b' ∧ (col b ≠ 0%nat → col b' = (col b - 1)%nat)) (backspace b).
Proof.
  intros Hok. unfold backspace. destruct (Nat.eqb_spec (col b) 0) as [Hz|Hz].
  - destruct (Nat.eqb_spec (row b) 0) as [Hr0|Hr0]; [done|]. pose proof (ok_row b Hok) as Hr. pose proof Hok as [Hl _].
    eapply returns_bind; [by apply vec_remove_ok|]. cbv beta. intros [cur l] (Hcur & Hac & Hl' & Hlen & Hlow).
    destruct (lookup_lt_is_Some_2 l (row b - 1)) as [s Hs]; [lia|]. unfold current. cbn [lines row at_pos with_lines]. rewrite Hs. cbn [or_panic bind returns].
    split; [|done]. apply ok_touched. apply (ok_set (at_pos (row b - 1) 0 (with_lines l b)) s); [by eapply ok_at; [|exact Hs|lia]|done| |rewrite length_app; lia].
    apply ascii_app; [|done]. exact (Forall_lookup_1 _ _ _ _ Hl' Hs).
  - with_current Hok s Hs Ha Hcol. cbn [col at_col at_pos]. eapply returns_bind; [apply remove_char_ok; [done|lia]|]. cbv beta. intros [c s'] (_ & Ha' & Hlen).
    cbn [returns]. split; [|done]. apply ok_touched. apply (ok_set b s s' (col b - 1)); [done|done|done|lia].
Qed.

Lemma delete_at_cursor_ok b : buf_ok b → returns (λ '(c, b'), buf_ok b') (delete_at_cursor b).
Proof.
  intros Hok. unfold delete_at_cursor. with_current Hok s Hs Ha Hcol. destruct (Nat.eqb_spec (length s) 0); [done|]. destruct (Nat.leb_spec (length s) (col b)); [done|].
  cbn [orb]. eapply returns_bind; [by apply remove_char_ok|]. cbv beta. intros [c s'] (_ & Ha' & Hlen). cbn [returns]. apply ok_touched.
  destruct ((length s' <=? col (set_current s' b))%nat && _).
  - apply (ok_set b s s' (col b - 1)); [done|done|done|lia].
  - apply (ok_set b s s' (col b)); [done|done|done|lia].
Qed.

Lemma delete_line_ok b : buf_ok b → returns (λ '(t, b'), ascii t ∧ buf_ok b') (delete_line b).
Proof.
  intros Hok. pose proof (ok_row b Hok) as Hr. pose proof Hok as [Hl _]. unfold delete_line.
  eapply (returns_bind (λ '(t, l), ascii t ∧ Forall ascii l ∧ (0 < length l)%nat)).
  - unfold line_count. destruct (Nat.eqb_spec (length (lines b)) 1) as [H1|H1].
    + destruct (lines b) as [|s l]; [simpl in Hr; lia|]. apply Forall_cons in Hl as [Hs Hl]. cbn. split_and!; [done|by constructor; [constructor|]|lia].
    + eapply returns_mono; [by apply vec_remove_ok|]. intros [t l] (_ & ? & ? & ? & _). split_and!; [done|done|lia].
  - intros [t l] (Ht & Hl' & Hn). cbn [returns]. split; [done|]. apply ok_touched. set (r := if (length l <=? row b)%nat then (length l - 1)%nat else row b).
    assert (r < length l)%nat as Hr' by (unfold r; destruct (Nat.leb_spec (length l) (row b)); lia).
    destruct (lookup_lt_is_Some_2 l r Hr') as [s Hs]. by eapply ok_at; [|exact Hs|lia].
Qed.

Lemma clear_current_line_ok b : buf_ok b → returns (λ '(t, b'), ascii t ∧ buf_ok b') (clear_current_line b).
Proof.
  intros Hok. unfold clear_current_line. with_current Hok s Hs Ha Hcol. cbn [returns]. split; [done|]. apply ok_touched. eapply ok_set; [done|exact Hs|constructor|cbn; lia].
Qed.

Lemma open_below_ok b : buf_ok b → returns buf_ok (open_below b).
Proof.
  intros Hok. pose proof (ok_row b Hok). pose proof Hok as [Hl _]. unfold open_below. eapply returns_bind; [apply vec_insert_ok; [done|constructor|lia]|].
  cbv beta. intros l (H1 & _ & H2). cbn [returns]. apply ok_touched. by eapply ok_at; [|exact H2|cbn; lia].
Qed.

Lemma open_above_ok b : buf_ok b → returns buf_ok (open_above b).
Proof.
  intros Hok. pose proof (ok_row b Hok). pose proof Hok as [Hl _]. unfold open_above. eapply returns_bind; [apply vec_insert_ok; [done|constructor|lia]|].
  cbv beta. intros l (H1 & _ & H2). cbn [returns]. apply ok_touched. by eapply ok_at; [|exact H2|cbn; lia].
Qed.

Lemma replace_at_cursor_ok c b : buf_ok b → 0 ≤ c < 128 → returns buf_ok (replace_at_cursor c b).
Proof.
  intros Hok Hc. unfold replace_at_cursor. with_current Hok s Hs Ha Hcol. destruct (Nat.leb_spec (length s) (col b)); [done|].
  eapply returns_bind; [by apply remove_char_ok|]. cbv beta. intros [x s1] (_ & Ha1 & Hl1). eapply returns_bind; [apply insert_char_ok; [done|done|lia]|].
  cbv beta. intros s2 [Ha2 Hl2]. cbn [returns]. apply ok_touched. apply (ok_set b s s2 (col b)); [done|done|done|lia].
Qed.

(** *** Motions *)

Lemma at_col_ok c b s : buf_ok b → lines b !! row b = Some s → (c ≤ length s)%nat → buf_ok (at_col c b).
Proof. intros [Hl _] Hs Hc. split; [done|]. by exists s. Qed.

Lemma left_ok b : buf_ok b → buf_ok (left b).
Proof. intros Hok. unfold left. destruct (0 <? col b)%nat; [|done]. destruct (Hok) as [_ (s & Hs & Hc)]. eapply at_col_ok; [done|exact Hs|lia]. Qed.

Lemma right_ok b : buf_ok b → returns buf_ok (right b).
Proof.
  intros Hok. unfold right. with_current Hok s Hs Ha Hcol. cbn [returns]. destruct (Nat.ltb_spec (S (col b)) (length s)); [|by rewrite andb_false_r].
  destruct (0 <? length s)%nat; [|done]. eapply at_col_ok; [done|exact Hs|lia].
Qed.

Lemma up_ok b : buf_ok b → returns buf_ok (up b).
Proof. intros Hok. unfold up. destruct (0 <? row b)%nat; [|done]. apply clamp_row; [done|]. pose proof (ok_row b Hok). unfold line_count. lia. Qed.

Lemma down_ok b : buf_ok b → returns buf_ok (down b).
Proof. intros Hok. unfold down. destruct (Nat.ltb_spec (S (row b)) (line_count b)); [|done]. by apply clamp_row. Qed.

Lemma find_index_lt p s i : find_index p s = Some i → (i < length s)%nat.
Proof.
  revert i. induction s as [|x s IH]; intros i; [done|]. cbn. destruct (p x); [intros [= <-]; lia|]. destruct (find_index p s) as [j|]; [|done].
  intros [= <-]. specialize (IH j eq_refl). lia.
Qed.

Lemma rfind_index_lt p s i : rfind_index p s = Some i → (i < length s)%nat.
Proof.
  revert i. induction s as [|x s IH]; intros i; [done|]. cbn. destruct (rfind_index p s) as [j|]; [|destruct (p x); [|done]; intros [= <-]; lia].
  intros [= <-]. specialize (IH j eq_refl). lia.
Qed.

Lemma first_non_blank_row b r : buf_ok b → (r < line_count b)%nat → returns buf_ok (first_non_blank (at_pos r (col b) b)).
Proof.
  intros [Hl _] Hr. destruct (lookup_lt_is_Some_2 (lines b) r Hr) as [s Hs]. unfold first_non_blank, current. cbn [lines row at_pos]. rewrite Hs. cbn.
  split; [done|]. exists s. split; [done|]. cbn. destruct (find_index _ s) as [i|] eqn:E; cbn; [apply find_index_lt in E; lia|lia].
Qed.

Lemma first_non_blank_ok b : buf_ok b → returns buf_ok (first_non_blank b).
Proof. intros Hok. apply (first_non_blank_row b (row b)) in Hok as H; [by destruct b|by apply ok_row]. Qed.

Lemma line_end_ok b : buf_ok b → returns buf_ok (line_end b).
Proof. intros Hok. unfold line_end. with_current Hok s Hs Ha Hcol. cbn [returns]. eapply at_col_ok; [done|exact Hs|lia]. Qed.

Lemma buf_start_ok b : buf_ok b → returns buf_ok (buf_start b).
Proof. intros Hok. apply first_non_blank_row; [done|]. pose proof (ok_row b Hok). unfold line_count. lia. Qed.

Lemma buf_end_ok b : buf_ok b → returns buf_ok (buf_end b).
Proof. intros Hok. apply first_non_blank_row; [done|]. pose proof (ok_row b Hok). unfold line_count. lia. Qed.

Lemma find_forward_ok t b : buf_ok b → returns (λ '(_, b'), buf_ok b') (find_forward t b).
Proof.
  intros Hok. unfold find_forward. with_current Hok s Hs Ha Hcol. cbn [returns]. destruct (find_index _ _) as [i|] eqn:E; [|done].
  apply find_index_lt in E. rewrite length_drop in E. eapply at_col_ok; [done|exact Hs|lia].
Qed.

(** The cursor stops before it was, so there is room behind it. *)
Lemma find_backward_ok t b : buf_ok b → returns (λ '(r, b'), buf_ok b' ∧ (r = true → buf_ok (at_col (S (col b')) b'))) (find_backward t b).
Proof.
  intros Hok. unfold find_backward. with_current Hok s Hs Ha Hcol. rewrite (proj2 (Nat.ltb_ge _ _)) by done. cbn [returns].
  destruct (rfind_index _ _) as [i|] eqn:E; [|done]. apply rfind_index_lt in E. rewrite length_take in E.
  split; [eapply at_col_ok; [done|exact Hs|lia]|]. intros _. eapply (at_col_ok (S i) b s); [done|exact Hs|lia].
Qed.

Lemma match_loop_lt o c s : ∀ d i, match_loop o c d s = Some i → (i < length s)%nat.
Proof.
  induction s as [|x s IH]; intros d i; [done|]. cbn [match_loop length].
  assert (∀ d, S <$> match_loop o c d s = Some i → (i < S (length s))%nat) as H.
  { intros d'. destruct (match_loop o c d' s) as [j|] eqn:E; [|done]. intros [= <-]. apply IH in E. lia. }
  destruct (x =? o); [apply H|]. destruct (x =? c); [|apply H]. destruct (d - 1 =? 0); [intros [= <-]; lia|apply H].
Qed.

Lemma matching_bracket_ok b : buf_ok b → returns buf_ok (matching_bracket b).
Proof.
  intros Hok. unfold matching_bracket. with_current Hok s Hs Ha Hcol. destruct (s !! col b) as [x|]; [|done]. destruct (bracket x) as [[[o c] [|]]|]; [| |done].
  - cbn [returns]. destruct (match_loop _ _ _ _) as [i|] eqn:E; [|done]. apply match_loop_lt in E. rewrite length_drop in E. eapply at_col_ok; [done|exact Hs|lia].
  - cbn [returns]. destruct (match_loop _ _ _ _) as [i|] eqn:E; [|done]. eapply at_col_ok; [done|exact Hs|lia].
Qed.

(** *** Walks over the text *)

Definition pos_ok (b : Buffer) (p : nat * nat) : Prop := (p.1 < line_count b)%nat ∧ (p.2 ≤ length (line b p.1))%nat.

(** The bytes and line ends from [p] on, and those before it. *)
Definition ahead_of (b : Buffer) (p : nat * nat) : nat := (sum_list_with (λ s, S (length s)) (drop p.1 (lines b)) - p.2)%nat.
Definition behind (b : Buffer) (p : nat * nat) : nat := (sum_list_with (λ s, S (length s)) (take p.1 (lines b)) + p.2)%nat.

Lemma line_lookup b r : (r < line_count b)%nat → lines b !! r = Some (line b r).
Proof. intros Hr. unfold line. by destruct (lookup_lt_is_Some_2 (lines b) r Hr) as [s ->]. Qed.

Lemma ahead_split b r : (r < line_count b)%nat →
  sum_list_with (λ s, S (length s)) (drop r (lines b)) = (S (length (line b r)) + sum_list_with (λ s, S (length s)) (drop (S r) (lines b)))%nat.
Proof. intros Hr. by rewrite (drop_S _ _ _ (line_lookup b r Hr)). Qed.

Lemma behind_split b r : (r < line_count b)%nat →
  sum_list_with (λ s, S (length s)) (take (S r) (lines b)) = (sum_list_with (λ s, S (length s)) (take r (lines b)) + S (length (line b r)))%nat.
Proof. intros Hr. rewrite (take_S_r _ _ _ (line_lookup b r Hr)), sum_list_with_app. simpl. lia. Qed.

Lemma walk_bound b p : (ahead_of b p + 3 ≤ walk b)%nat ∧ (pos_ok b p → behind b p < walk b)%nat.
Proof.
  assert (sum_list_with (λ s, S (length s)) (lines b) = (sum_list_with (λ s, S (length s)) (take p.1 (lines b)) +
    sum_list_with (λ s, S (length s)) (drop p.1 (lines b)))%nat) as E by (by rewrite <- sum_list_with_app, take_drop).
  unfold walk, ahead_of, behind. rewrite E. split; [lia|]. intros [Hr Hc]. rewrite (ahead_split b p.1 Hr). lia.
Qed.

Lemma advance_one_spec b p : pos_ok b p → let q := advance_one b p in
  pos_ok b q ∧ (p.1 ≤ q.1)%nat ∧ ((ahead_of b q < ahead_of b p)%nat ∨ advance_one b q = q).
Proof.
  destruct p as [r c]. intros [Hr Hc]. cbn [fst snd] in *. cbv zeta. unfold advance_one. destruct (Nat.ltb_spec (S c) (length (line b r))) as [H1|H1].
  - split; [split; cbn [fst snd]; lia|]. split; [done|]. left. unfold ahead_of. cbn [fst snd]. rewrite (ahead_split b r Hr). lia.
  - destruct (Nat.ltb_spec (S r) (line_count b)) as [H2|H2].
    + split; [split; cbn [fst snd]; lia|]. split; [cbn; lia|]. left. unfold ahead_of. cbn [fst snd]. rewrite (ahead_split b r Hr). lia.
    + split; [split; cbn [fst snd]; lia|]. split; [done|]. right.
      rewrite (proj2 (Nat.ltb_ge (S (length (line b r) - 1)) _)), (proj2 (Nat.ltb_ge (S r) _)) by lia. done.
Qed.

(** The walks keep what a step keeps. *)
Section forward_walk.
Context (b : Buffer) (P : nat * nat → Prop) (HP : ∀ p, pos_ok b p → P p → P (advance_one b p)).

Lemma advance_while_ok pred fuel : ∀ p, pos_ok b p → P p → (ahead_of b p + 2 ≤ fuel)%nat ∨ advance_one b p = p ∧ (1 ≤ fuel)%nat →
  returns (λ q, pos_ok b q ∧ P q) (advance_while fuel b pred p).
Proof using HP.
  induction fuel as [|fuel IH]; intros p Hok Hp Hf; [lia|]. cbn [advance_while]. destruct (pred (byte_at b p)); [|done]. cbv zeta.
  destruct (advance_one_spec b p Hok) as (Hok' & _ & Hd). case_bool_decide as E; [by split; [|apply HP]|]. destruct Hf as [Hf|[? _]]; [|done].
  apply IH; [done|by apply HP|]. destruct Hd as [Hd|Hd]; [left; lia|right; split; [done|lia]].
Qed.

Lemma end_loop_ok class fuel : ∀ p, pos_ok b p → P p → (ahead_of b p + 2 ≤ fuel)%nat ∨ advance_one b p = p ∧ (1 ≤ fuel)%nat →
  returns (λ q, pos_ok b q ∧ P q) (end_loop fuel b class p).
Proof using HP.
  induction fuel as [|fuel IH]; intros p Hok Hp Hf; [lia|]. cbn [end_loop]. destruct (next_is b _ p) eqn:En; [|done]. unfold next_is in En. cbv zeta in En.
  destruct (advance_one_spec b p Hok) as (Hok' & _ & Hd). case_bool_decide as E; [done|]. destruct Hf as [Hf|[? _]]; [|done].
  apply IH; [done|by apply HP|]. destruct Hd as [Hd|Hd]; [left; lia|right; split; [done|lia]].
Qed.
End forward_walk.

Lemma retreat_one_spec b p : pos_ok b p → let q := retreat_one b p in
  pos_ok b q ∧ (p ≠ (0%nat, 0%nat) → (behind b q < behind b p)%nat).
Proof.
  destruct p as [r c]. intros [Hr Hc]. cbn [fst snd] in *. cbv zeta. unfold retreat_one. destruct (Nat.ltb_spec 0 c).
  - split; [split; cbn [fst snd]; lia|]. intros _. unfold behind. cbn [fst snd]. lia.
  - destruct (Nat.ltb_spec 0 r).
    + split; [split; cbn [fst snd]; lia|]. intros _. unfold behind. cbn [fst snd]. replace r with (S (r - 1)) at 3 by lia. rewrite behind_split by lia. lia.
    + split; [done|]. intros Hne. exfalso. apply Hne. f_equal; lia.
Qed.

Lemma retreat_while_ok b pred fuel : ∀ p, pos_ok b p → (behind b p < fuel)%nat → returns (pos_ok b) (retreat_while fuel b pred p).
Proof.
  induction fuel as [|fuel IH]; intros p Hok Hf; [lia|]. cbn [retreat_while]. destruct (pred (byte_at b p)); [|done]. case_bool_decide as E0; [done|]. cbv zeta.
  destruct (retreat_one_spec b p Hok) as [Hok' Hd]. case_bool_decide; [done|]. apply IH; [done|]. specialize (Hd E0). lia.
Qed.

Lemma back_loop_ok b class fuel : ∀ p, pos_ok b p → (behind b p < fuel)%nat → returns (pos_ok b) (back_loop fuel b class p).
Proof.
  induction fuel as [|fuel IH]; intros p Hok Hf; [lia|]. cbn [back_loop]. destruct (_ || _) eqn:Eor; [|done]. cbv zeta. case_bool_decide; [|done].
  destruct (retreat_one_spec b p Hok) as [Hok' Hd]. apply IH; [done|]. assert (p ≠ (0%nat, 0%nat)) as E0 by (intros ->; done). specialize (Hd E0). lia.
Qed.

Lemma pos_of b : buf_ok b → pos_ok b (row b, col b).
Proof. intros [_ (s & Hs & Hc)]. split; [by eapply lookup_lt_Some|]. cbn. unfold line. by rewrite Hs. Qed.

Lemma at_pos_ok b p : buf_ok b → pos_ok b p → buf_ok (at_pos p.1 p.2 b).
Proof. intros [Hl _] [Hr Hc]. split; [done|]. exists (line b p.1). split; [exact (line_lookup b p.1 Hr)|done]. Qed.

(** [word_next], with what its steps keep. *)
Lemma word_next_keeps b (P : nat * nat → Prop) : (∀ p, pos_ok b p → P p → P (advance_one b p)) → buf_ok b → P (row b, col b) →
  returns (λ b', buf_ok b' ∧ lines b' = lines b ∧ P (row b', col b')) (word_next b).
Proof.
  intros HP Hok Hp. unfold word_next. eapply returns_bind.
  - apply (advance_while_ok b P HP); [by apply pos_of|exact Hp|]. left. destruct (walk_bound b (row b, col b)). lia.
  - cbv beta. intros p [Hpos Hp']. eapply returns_bind; [apply (advance_while_ok b P HP); [done|done|]; left; destruct (walk_bound b p); lia|].
    cbv beta. intros q [Hpos' Hp'']. cbn [returns]. split; [by apply at_pos_ok|]. split; [done|]. by destruct q.
Qed.

Lemma word_next_ok b : buf_ok b → returns buf_ok (word_next b).
Proof. intros Hok. eapply returns_mono; [by apply (word_next_keeps b (λ _, True))|]. cbv beta. tauto. Qed.

Lemma word_back_ok b : buf_ok b → returns buf_ok (word_back b).
Proof.
  intros Hok. unfold word_back. destruct (retreat_one_spec b _ (pos_of b Hok)) as [H1 _].
  eapply returns_bind; [apply retreat_while_ok; [done|by apply walk_bound]|]. cbv beta. intros p Hp.
  eapply returns_bind; [apply back_loop_ok; [done|by apply walk_bound]|]. cbv beta. intros q Hq. by apply at_pos_ok.
Qed.

Lemma word_end_ok b : buf_ok b → returns buf_ok (word_end b).
Proof.
  intros Hok. unfold word_end. destruct (advance_one_spec b _ (pos_of b Hok)) as (H1 & _ & _).
  eapply returns_bind; [apply (advance_while_ok b (λ _, True)); [done|done|done|left; destruct (walk_bound b (advance_one b (row b, col b))); lia]|].
  cbv beta. intros p [Hp _]. eapply returns_bind; [apply (end_loop_ok b (λ _, True)); [done|done|done|left; destruct (walk_bound b p); lia]|].
  cbv beta. intros q [Hq _]. by apply at_pos_ok.
Qed.

(** *** Edits *)

(** The cursor is behind the end of the last line, where [dw] panics. *)
Definition past_end (b : Buffer) : Prop := S (row b) = line_count b ∧ col b = length (line b (row b)) ∧ col b ≠ 0%nat.

Lemma delete_word_ok b : buf_ok b → ¬ past_end b → returns (λ '(t, b'), ascii t ∧ buf_ok b') (delete_word b).
Proof.
  intros Hok Hpast. set (n := length (line b (row b))). pose proof (pos_of b Hok) as [Hr Hc]. cbn [fst snd] in Hr, Hc. fold n in Hc.
  set (P := λ p : nat * nat, (row b < p.1)%nat ∨ p.1 = row b ∧ (col b ≤ p.2)%nat ∧ ((p.2 < n)%nat ∨ n = 0%nat ∨ (S (row b) < line_count b)%nat)).
  unfold delete_word. eapply returns_bind; [apply (word_next_keeps b P); [|done|]|].
  - intros [r c] Hpos HP. destruct (advance_one_spec b (r, c) Hpos) as (_ & Hle & _). unfold P in HP |- *. cbn [fst snd] in HP.
    destruct HP as [?|(-> & H1 & H2)]; [left; cbn [fst] in Hle; lia|]. unfold advance_one in *. fold n. destruct Hpos as [_ Hc2]. cbn [fst snd] in Hc2. fold n in Hc2. destruct (Nat.ltb_spec (S c) n); [right; cbn; lia|]. destruct (Nat.ltb_spec (S (row b)) (line_count b)); [left; cbn; lia|].
    right. cbn [fst snd]. lia.
  - right. cbn [fst snd]. split; [done|]. split; [done|]. destruct (decide (col b < n)%nat); [by left|]. destruct (decide (n = 0%nat)); [by right; left|].
    right. right. destruct (decide (S (row b) = line_count b)) as [E|]; [exfalso; apply Hpast; unfold past_end; fold n; lia|lia].
  - cbv beta. intros moved (Hm & El & HP). with_current Hok s Hs Ha Hcol. assert (line b (row b) = s) as Els by (unfold line; by rewrite Hs).
    set (stop := if (row moved =? row b)%nat then col moved else length s). assert (col b ≤ stop ≤ length s)%nat as Hstop.
    { unfold stop. destruct (Nat.eqb_spec (row moved) (row b)) as [E|E]; [|lia]. destruct HP as [HP|HP]; cbn [fst snd] in HP; [lia|]. split; [lia|].
      destruct Hm as [_ (s' & Hs' & Hcm)]. rewrite El, E, Hs in Hs'. by injection Hs' as <-. }
    eapply returns_bind; [by apply drain_ok|]. cbv beta. intros [s' t] (Ha' & Ht & Hlen). cbn [returns]. split; [done|].
    destruct (Nat.leb_spec (length s') (col (touched (set_current s' b)))) as [H1|H1]; cbn [andb].
    + destruct (0 <? _)%nat eqn:E0; [apply (ok_set b s s' (length s' - 1)); [done|done|done|lia]|]. apply Nat.ltb_ge in E0. cbn in E0. apply (ok_set b s s' (col b)); [done|done|done|lia].
    + cbn in H1. apply (ok_set b s s' (col b)); [done|done|done|lia].
Qed.

Lemma delete_to_eol_ok b : buf_ok b → returns (λ '(t, b'), ascii t ∧ buf_ok b') (delete_to_eol b).
Proof.
  intros Hok. unfold delete_to_eol. with_current Hok s Hs Ha Hcol. eapply returns_bind; [by apply drain_ok|]. cbv beta. intros [s' t] (Ha' & Ht & Hlen).
  cbn [returns]. split; [done|]. apply ok_touched. destruct (Nat.ltb_spec 0 (col (set_current s' b))) as [H0|H0]; cbn [andb].
  - destruct (Nat.leb_spec (length s') (col (set_current s' b))) as [H1|H1]; [apply (ok_set b s s' (length s' - 1)); [done|done|done|lia]|].
    cbn in H1. apply (ok_set b s s' (col b)); [done|done|done|lia].
  - cbn in H0. apply (ok_set b s s' (col b)); [done|done|done|lia].
Qed.

Lemma join_lines_ok b : buf_ok b → returns buf_ok (join_lines b).
Proof.
  intros Hok. pose proof Hok as [Hl (s & Hs & Hc)]. unfold join_lines. destruct (Nat.leb_spec (line_count b) (S (row b))); [done|].
  eapply returns_bind; [by apply vec_remove_ok|]. cbv beta. intros [next l] (_ & Han & Hl' & Hlen & Hlow). unfold current. cbn [lines row with_lines].
  rewrite Hlow by lia. rewrite Hs. cbn [or_panic bind returns]. apply ok_touched. pose proof (Forall_lookup_1 _ _ _ _ Hl Hs) as Ha. cbv beta in Ha.
  set (s' := if negb (length s =? 0)%nat && negb (bool_decide (last s = Some 32)) && negb (length (trim_start next) =? 0)%nat then s ++ [32] else s). assert (ascii s' ∧ length s ≤ length s')%nat as [Ha' Hlen'].
  { unfold s'. destruct (_ && _); [|done]. split; [by apply ascii_app, ascii_one|rewrite length_app; lia]. }
  apply (ok_set (with_lines l b) s).
  - split; [done|]. exists s. cbn [lines row with_lines]. by rewrite Hlow by lia.
  - cbn [lines row with_lines]. by rewrite Hlow by lia.
  - apply ascii_app; [done|by apply trim_start_ascii].
  - rewrite length_app. lia.
Qed.

Lemma split_on_ascii d s : ascii s → Forall ascii (Text.split_on d s).
Proof.
  induction 1 as [|c s Hc Hs IH]; [constructor; constructor|]. cbn [Text.split_on]. destruct (c =? d); [constructor; [constructor|done]|].
  destruct (Text.split_on d s) as [|x l]; [constructor; [by apply ascii_one|constructor]|]. apply Forall_cons in IH as [Hx Hl].
  constructor; [by constructor|done].
Qed.

Lemma split_on_head d s : ∃ x, head (Text.split_on d s) = Some x ∧ Text.split_on d s ≠ [].
Proof. destruct s as [|c s]; [by exists []|]. cbn [Text.split_on]. destruct (c =? d); [by exists []|]. destruct (Text.split_on d s) as [|x l]; [by exists [c]|by exists (c :: x)]. Qed.

Lemma removelast_ascii s : ascii s → ascii (removelast s).
Proof. intros Hs. induction Hs as [|c s Hc Hs IH]; [constructor|]. destruct s; [constructor|]. by constructor. Qed.

Lemma paste_lines_ok b r t : buf_ok b → ascii t → (r ≤ line_count b)%nat →
  returns buf_ok (let! l := insert_lines r (Text.split_on 10 t) (lines b) in Ret (touched (at_pos r 0 (with_lines l b)))).
Proof.
  intros [Hl _] Ht Hr. destruct (split_on_head 10 t) as (x & Hx & _). eapply returns_bind; [apply insert_lines_ok; [by apply split_on_ascii|done|done]|].
  cbv beta. intros l (H1 & _ & _ & H2). cbn [returns]. apply ok_touched. eapply ok_at; [done|by apply H2|lia].
Qed.

Lemma paste_after_ok t b : buf_ok b → ascii t → t ≠ [] → returns buf_ok (paste_after t b).
Proof.
  intros Hok Ht Hne. pose proof (ok_row b Hok). unfold paste_after, strip_newline. case_bool_decide.
  - apply paste_lines_ok; [done|by apply removelast_ascii|unfold line_count; lia].
  - with_current Hok s Hs Ha Hcol. eapply returns_bind; [apply insert_str_ok; [done|done|lia]|]. cbv beta. intros s' [Ha' Hlen]. cbn [returns].
    apply ok_touched. eapply ok_set; [done|exact Hs|done|]. destruct t; [done|]. cbn [length] in *. lia.
Qed.

Lemma paste_before_ok t b : buf_ok b → ascii t → returns buf_ok (paste_before t b).
Proof.
  intros Hok Ht. pose proof (ok_row b Hok). unfold paste_before, strip_newline. case_bool_decide.
  - apply paste_lines_ok; [done|by apply removelast_ascii|unfold line_count; lia].
  - with_current Hok s Hs Ha Hcol. eapply returns_bind; [by apply insert_str_ok|]. cbv beta. intros s' [Ha' Hlen]. cbn [returns].
    apply ok_touched. apply (ok_set b s s' (col b)); [done|done|done|lia].
Qed.

Lemma times_ok f n : (∀ b, buf_ok b → returns buf_ok (f b)) → ∀ b, buf_ok b → returns buf_ok (times n f b).
Proof. intros Hf. induction n as [|n IH]; intros b Hok; [done|]. cbn [times]. eapply returns_bind; [by apply Hf|exact IH]. Qed.

Lemma drop_loop_ok p fuel : ∀ b, buf_ok b → (col b < fuel)%nat → returns (λ b', buf_ok b' ∧ (col b' ≤ col b)%nat) (drop_loop fuel p b).
Proof.
  induction fuel as [|fuel IH]; intros b Hok Hf; [lia|]. cbn [drop_loop]. destruct (Nat.eqb_spec (col b) 0) as [Hz|Hz]; [done|]. unfold before.
  pose proof (current_ok b Hok) as Hc. destruct (current b) as [s| |]; [|done|done]. cbn [bind]. destruct (match s !! _ with Some _ => _ | None => _ end); [|done].
  eapply returns_bind; [by apply backspace_ok|]. cbv beta. intros b' [Hok' Hcol]. eapply returns_mono; [apply IH; [done|rewrite Hcol by done; lia]|].
  cbv beta. intros b2 [? ?]. split; [done|]. rewrite Hcol in * by done. lia.
Qed.

Lemma drop_word_left_ok b : buf_ok b → returns buf_ok (drop_word_left b).
Proof.
  intros Hok. unfold drop_word_left. eapply returns_bind; [apply drop_loop_ok; [done|lia]|]. cbv beta. intros b' [Hok' _].
  eapply returns_mono; [apply drop_loop_ok; [done|lia]|]. cbv beta. tauto.
Qed.

(** ** The editor *)

Section editor_laws.
Context {Regex : Type} {compile : list Z → option Regex} {find_at : Regex → list Z → nat → option nat} {find_iter : Regex → list Z → list nat}.
Context {replace : Regex → bool → list Z → list Z → list Z}.
Context {Files : Type} {read_to_string : Files → list Z → Io.Res (list Z)} {write_file : Files → list Z → list Z → Io.Res unit * Files}.
(** Matches lie in the text that is searched, and the files are ASCII. *)
Context (Hfind : ∀ re s i m, find_at re s i = Some m → (m ≤ length s)%nat) (Hiter : ∀ re s m, m ∈ find_iter re s → (m ≤ length s)%nat).
Context (Hread : ∀ fs p t, read_to_string fs p = Io.Done t → ascii t).
Local Abbreviation Editor := (Editor Regex Files).
Local Abbreviation dispatch := (dispatch Regex compile find_iter replace Files read_to_string write_file).
Local Abbreviation turn := (turn Regex compile find_at find_iter replace Files read_to_string write_file).

(** Every snapshot can be gone back to. *)
Definition snap_ok (s : Snapshot) : Prop := Forall ascii (s_lines s) ∧ ∃ l, s_lines s !! s_row s = Some l ∧ (s_col s ≤ length l)%nat.

Definition ed_ok (e : Editor) : Prop :=
  buf_ok (buffer _ _ e) ∧ Forall snap_ok (stack (undo _ _ e)) ∧ ascii (register _ _ e).

Lemma on_buffer_ok f (e : Editor) : ed_ok e → (∀ b, buf_ok b → returns buf_ok (f b)) → returns ed_ok (on_buffer _ _ f e).
Proof. intros (H1 & H2 & H3) Hf. unfold on_buffer. eapply returns_bind; [by apply Hf|]. intros b Hb. cbn [returns]. done. Qed.

Lemma into_register_ok f t (e : Editor) : ed_ok e → ascii t → returns (λ '(s, b), ascii s ∧ buf_ok b) (f (buffer _ _ e)) → returns ed_ok (into_register _ _ f t e).
Proof. intros (H1 & H2 & H3) Ht Hf. unfold into_register. eapply returns_bind; [exact Hf|]. intros [s b] [Hs Hb]. cbn [returns]. split_and!; [done|done|by apply ascii_app]. Qed.

Lemma snap_ed_ok (e : Editor) : ed_ok e → ed_ok (snap _ _ e).
Proof.
  intros (H1 & H2 & H3). split_and!; [done| |done]. cbn. apply Forall_app_2; [|by constructor; [destruct H1|constructor]].
  destruct (_ =? _)%nat; [|done]. destruct H2; [constructor|done].
Qed.

Lemma enter_insert_ok (e : Editor) : ed_ok e → ed_ok (enter_insert _ _ e).
Proof. intros Hok. by apply snap_ed_ok. Qed.

Lemma set_buffer_ok b (e : Editor) : ed_ok e → buf_ok b → ed_ok (set_buffer _ _ b e).
Proof. by intros (_ & H2 & H3) Hb. Qed.

Lemma pop_into_ok (e : Editor) : ed_ok e →
  let '(_, b, u) := pop_into (buffer _ _ e) (undo _ _ e) in buf_ok b ∧ Forall snap_ok (stack u).
Proof.
  intros (H1 & H2 & H3). unfold pop_into. destruct (last (stack (undo _ _ e))) as [s|] eqn:E; [|done]. apply last_Some in E as [l E]. rewrite E in *.
  apply Forall_app in H2 as [Hl Hs]. apply Forall_cons in Hs as [Hs _]. split; [exact Hs|]. cbn [stack]. by rewrite removelast_last.
Qed.

(** *** Searches *)

Lemma line_ascii b r : buf_ok b → ascii (line b r).
Proof using. clear. intros [Hl _]. unfold line. destruct (lines b !! r) as [s|] eqn:E; [exact (Forall_lookup_1 _ _ _ _ Hl E)|constructor]. Qed.

Lemma find_rows_ok hit next start b : buf_ok b → (∀ s m, hit s = Some m → (m ≤ length s)%nat) → (∀ o, (next o < line_count b)%nat) →
  ∀ n o, buf_ok (find_rows hit next start n o b).2.
Proof using.
  clear. intros Hok Hhit Hnext n. induction n as [|n IH]; intros o; [done|]. cbn [find_rows]. cbv zeta. destruct (hit (line b (next o))) as [m|] eqn:E.
  - apply (at_pos_ok b (next o, m) Hok). split; [apply Hnext|by apply Hhit].
  - destruct (_ =? _)%nat; [done|apply IH].
Qed.

Lemma last_match_le re s m : last_match_in Regex find_iter re s = Some m → (m ≤ length s)%nat.
Proof using Hiter. unfold last_match_in. intros [l E]%last_Some. apply (Hiter re). rewrite E. apply elem_of_app. right. by left. Qed.

Lemma find_ok fwd inc s b : buf_ok b → returns (λ '(_, b'), buf_ok b') (find Regex find_at find_iter fwd inc s b).
Proof using Hfind Hiter.
  intros Hok. pose proof (pos_of b Hok) as [Hr Hc]. cbn [fst snd] in *. unfold find. destruct (compiled Regex s) as [re|]; [|done]. cbv zeta. destruct fwd.
  - destruct (find_at re _ _) as [m|] eqn:E; cbn [returns].
    + apply (at_pos_ok b (row b, m) Hok). split; [done|by eapply Hfind].
    + destruct (find_rows _ _ _ _ _ _) as [hit b'] eqn:Er. assert (b' = (hit, b').2) as -> by done. rewrite <- Er. apply find_rows_ok; [done|intros; by eapply Hfind|].
      intros o. apply Nat.mod_upper_bound. lia.
  - set (cutoff := if inc then Nat.min (S (col b)) (length (line b (row b))) else col b).
    assert (cutoff ≤ length (line b (row b)))%nat as Hcut by (unfold cutoff; destruct inc; lia).
    eapply (returns_bind (λ h, ∀ m, h = Some m → (m ≤ length (line b (row b)))%nat)).
    + destruct (0 <? cutoff)%nat; [|done]. unfold slice_to. rewrite boundary by (done || by apply line_ascii). cbn [bind returns].
      intros m Hm%last_match_le. rewrite length_take in Hm. lia.
    + intros [m|] Hm; cbn [returns]; [apply (at_pos_ok b (row b, m) Hok); split; [done|by apply Hm]|].
      destruct (find_rows _ _ _ _ _ _) as [hit b'] eqn:Er. assert (b' = (hit, b').2) as -> by done. rewrite <- Er. apply find_rows_ok; [done|apply last_match_le|].
      intros o. apply Nat.mod_upper_bound. lia.
Qed.

Lemma search_from_ok fwd (e : Editor) : ed_ok e → returns ed_ok (search_from Regex find_at find_iter Files fwd e).
Proof using Hfind Hiter.
  intros Hok. unfold search_from. eapply returns_bind; [apply find_ok, Hok|]. intros [hit b] Hb. cbn [returns]. destruct hit; by apply set_buffer_ok.
Qed.

(** *** Ex commands *)

Lemma split_keep_empty_ok t p : ascii t → buf_ok (mkBuffer p (split_keep_empty t) 0 0 false false).
Proof using.
  clear. intros Ht. assert (∀ l, Forall ascii l → l ≠ [] → buf_ok (mkBuffer p l 0 0 false false)) as Hl.
  { intros [|s l] Hl Hne; [done|]. split; [done|]. exists s. split; [done|cbn; lia]. }
  unfold split_keep_empty. destruct t as [|c t]; [apply Hl; [by constructor; constructor|done]|]. pose proof (split_on_ascii 10 _ Ht) as Hs.
  destruct (split_on_head 10 (c :: t)) as (_ & _ & Hne). case_bool_decide; [|by apply Hl].
  assert (Forall ascii (removelast (Text.split_on 10 (c :: t)))) as Hr.
  { generalize Hs. generalize (Text.split_on 10 (c :: t)). clear. intros l Hl. induction Hl as [|s l Hs Hl IH]; [constructor|]. destruct l; [constructor|by constructor]. }
  destruct (removelast _); apply Hl; [by constructor; constructor|done|done|done].
Qed.

Lemma str_lines_ascii l : Forall ascii l → Forall ascii (str_lines l).
Proof using.
  clear. induction 1 as [|s l Hs Hl IH]; [constructor|]. cbn [str_lines]. destruct l; [destruct s; [constructor|by constructor]|].
  constructor; [|done]. unfold strip_return. case_bool_decide; [by apply removelast_ascii|done].
Qed.

Definition result_ok (x : ExResult) : Prop := match x with Replace b _ => buf_ok b | _ => True end.

Lemma read_into_ok arg fs b : buf_ok b → returns (λ '(x, b'), buf_ok b' ∧ result_ok x) (read_into Files read_to_string arg b fs).
Proof using Hread.
  intros Hok. unfold read_into. destruct arg as [|c arg]; [done|]. destruct (read_to_string fs (c :: arg)) as [t|e|] eqn:E; [|done|done]. cbv zeta.
  pose proof Hok as [Hl (s & Hs & Hc)]. pose proof (ok_row b Hok). eapply returns_bind; [apply insert_lines_ok; [apply str_lines_ascii, split_on_ascii; by eapply Hread|done|lia]|].
  cbv beta. intros l (H1 & _ & H2 & _). cbn [returns]. split; [|done]. apply ok_touched. split; [done|]. exists s. cbn [lines row with_lines]. rewrite H2 by lia. done.
Qed.

Lemma load_ok p fs b : load Files read_to_string p fs = Io.Done b → buf_ok b.
Proof using Hread.
  unfold load. destruct (read_to_string fs p) as [t|e|] eqn:E; [|case_bool_decide; [|done]|done].
  - intros [= <-]. apply split_keep_empty_ok. by eapply Hread.
  - intros [= <-]. split; [by constructor; constructor|]. exists []. split; [done|cbn; lia].
Qed.

Lemma ex_write_ok arg b fs : buf_ok b → let '(x, b', _) := ex_write Files write_file arg b fs in buf_ok b' ∧ result_ok x.
Proof using.
  clear. intros Hok. unfold ex_write, save. assert (∀ p, let '(_, b', _) := save_as Files write_file p b fs in buf_ok b') as Hs.
  { intros p. unfold save_as. destruct (write_file fs p _) as [[[]|e|] fs']; done. }
  destruct arg as [|c arg]; [destruct (path b) as [p|]; [|done]; specialize (Hs p)|specialize (Hs (c :: arg))];
    (destruct (save_as _ _ _ _ _) as [[[n|e|] b'] fs']; done).
Qed.

Lemma dispatch_ok cmd b show fs : buf_ok b → is_substitution (trim cmd) = false →
  returns (λ '(x, b', _, _), buf_ok b' ∧ result_ok x) (dispatch cmd b show fs).
Proof using Hread.
  intros Hok Hsub. unfold Vi.dispatch. destruct (trim cmd) as [|c l] eqn:Et; [done|]. rewrite <- Et in *. destruct (Text.from_str_radix 32 10 (trim cmd)) as [n|].
  { cbn [returns]. split; [|done]. apply (at_pos_ok b (Nat.min (Z.to_nat n - 1) (line_count b - 1), 0)%nat Hok).
    pose proof (ok_row b Hok) as Hr. change (length (lines b)) with (line_count b) in Hr. split; cbn [fst snd]; lia. }
  rewrite Hsub. destruct (split_verb (trim cmd)) as [verb rest]. cbv zeta. pose proof (ex_write_ok (trim_start rest) b fs Hok) as Hw.
  destruct (verb_is verb "w"); [by destruct (ex_write _ _ _ _ _) as [[x b'] fs']|]. destruct (verb_is verb "q"); [split; [done|unfold ex_quit; by destruct (_ && _)]|].
  destruct (verb_is verb "q!"); [split; [done|unfold ex_quit; by destruct (_ && _)]|].
  destruct (verb_is verb "wq" || verb_is verb "x"); [destruct (ex_write _ _ _ _ _) as [[x b'] fs']; destruct Hw; split; [done|by destruct x]|].
  destruct (verb_is verb "e").
  { split; [done|]. unfold ex_edit. destruct (trim_start rest) as [|c' arg]; [done|]. destruct (load _ _ _ fs) as [b'|e|] eqn:El; [|done|done]. by eapply load_ok. }
  destruct (verb_is verb "r"); [eapply returns_bind; [by apply read_into_ok|]; by intros [x b'] Hb'|].
  destruct (verb_is verb "set"); [destruct (set_option _ _) as [x show'] eqn:Es; split; [done|]|destruct (verb_is verb "help"); done].
  unfold set_option in Es. destruct (_ || _); [by injection Es as <- <-|]. destruct (_ || _); by injection Es as <- <-.
Qed.

(** *** Keys *)

Create HintDb vi.

Lemma left_ret b : buf_ok b → returns buf_ok (Ret (left b)).
Proof using. clear. apply left_ok. Qed.

Lemma line_start_ok b : buf_ok b → buf_ok (line_start b).
Proof using. clear. intros [Hl (s & Hs & _)]. split; [done|]. exists s. split; [done|cbn; lia]. Qed.

Lemma moves_ok n f (e : Editor) : ed_ok e → (∀ b, buf_ok b → returns buf_ok (f b)) → returns ed_ok (on_buffer _ _ (repeat n f) e).
Proof. intros Hok Hf. apply on_buffer_ok; [done|]. intros b Hb. by apply times_ok. Qed.

Lemma delete_char_ok b : buf_ok b → returns buf_ok (let! (_, b) := delete_char b in Ret b).
Proof using.
  clear. intros Hok. unfold delete_char. pose proof (delete_at_cursor_ok b Hok) as H. by destruct (delete_at_cursor b) as [[c b']| |].
Qed.

Lemma backspace_char_ok b : buf_ok b → returns buf_ok (let! (_, b) := backspace_char b in Ret b).
Proof using.
  clear. intros Hok. unfold backspace_char. destruct (col b =? 0)%nat eqn:E; [done|]. apply delete_char_ok.
  destruct Hok as [Hl (s & Hs & Hc)]. split; [done|]. exists s. split; [done|cbn; lia].
Qed.

Lemma append_after_ok b : buf_ok b → returns buf_ok (append_after b).
Proof using.
  clear. intros Hok. unfold append_after. with_current Hok s Hs Ha Hcol. assert (∀ c, returns buf_ok (clamp_col true (at_col c b))) as H.
  { intros c. apply (clamp_ok true (lines b) (row b) s (at_col c b)); [by destruct Hok|done]. }
  destruct (negb _); [apply H|]. specialize (H (col b)). by destruct b.
Qed.

Lemma append_end_ok b : buf_ok b → returns buf_ok (append_end b).
Proof using. clear. intros Hok. unfold append_end. with_current Hok s Hs Ha Hcol. cbn [returns]. by eapply at_col_ok; [|exact Hs|]. Qed.

Lemma page_ok f b : (∀ b, buf_ok b → returns buf_ok (f b)) → buf_ok b → returns buf_ok (times TEXT_ROWS f b).
Proof using. clear. intros Hf Hok. by apply times_ok. Qed.

Lemma goto_row_ok n b : buf_ok b → buf_ok (at_pos (Nat.min n (line_count b - 1)) 0 b).
Proof using.
  clear. intros Hok. apply (at_pos_ok b (Nat.min n (line_count b - 1), 0)%nat Hok). pose proof (ok_row b Hok) as Hr.
  change (length (lines b)) with (line_count b) in Hr. split; cbn [fst snd]; lia.
Qed.

#[local] Hint Resolve left_ret line_start_ok right_ok up_ok down_ok word_next_ok word_back_ok word_end_ok first_non_blank_ok line_end_ok buf_start_ok buf_end_ok
  matching_bracket_ok open_below_ok open_above_ok delete_char_ok backspace_char_ok append_after_ok append_end_ok join_lines_ok
  backspace_ok split_line_ok drop_word_left_ok paste_before_ok page_ok snap_ed_ok enter_insert_ok : vi.

Lemma execute_find_ok v t (e : Editor) : ed_ok e → returns ed_ok (execute_find _ _ v t e).
Proof.
  intros Hok. unfold execute_find. cbv zeta. eapply (returns_bind (λ '(_, b), buf_ok b)).
  - pose proof (find_forward_ok t _ (proj1 Hok)) as Hf. pose proof (find_backward_ok t _ (proj1 Hok)) as Hb.
    destruct (v =? 102); [done|]. destruct (v =? 70); [eapply returns_mono; [exact Hb|]; by intros [r b] [? _]|].
    destruct (v =? 116); [|destruct (v =? 84); [|apply Hok]].
    + eapply returns_bind; [exact Hf|]. intros [r b] Hb'. cbn [returns]. pose proof (left_ok b Hb') as Hl. unfold left in Hl. destruct r; [|done]. by destruct (0 <? col b)%nat.
    + eapply returns_bind; [exact Hb|]. intros [r b] [Hb1 Hb2]. cbn [returns]. destruct r; [by apply Hb2|done].
  - intros [moved b] Hb. cbn [returns]. destruct moved; by apply set_buffer_ok.
Qed.

(** Where [dw] and [cw] are safe. *)
Definition word_safe (op : Z) (k : Key) (b : Buffer) : Prop := (op = 100 ∨ op = 99) → k = KChar 119 → ¬ past_end b.

Lemma wq_not_sub : is_substitution (trim (Text.str "wq")) = false.
Proof using. done. Qed.

Lemma key_is_eq k c : key_is k c = true → k = KChar c.
Proof using. clear. destruct k; try done. cbn. by intros ->%Z.eqb_eq. Qed.

Local Abbreviation execute_operator := (execute_operator Regex compile find_iter replace Files read_to_string write_file).

Lemma execute_operator_ok op k (e : Editor) : ed_ok e → word_safe op k (buffer _ _ e) → returns ed_ok (execute_operator op k e).
Proof using Hread.
  intros Hok Hsafe. pose proof (snap_ed_ok e Hok) as Hs. assert (ascii [10]) as H10 by (by apply ascii_one). assert (ascii []) as H0 by constructor.
  assert (∀ o c, (op =? o) && key_is k c = true → op = o ∧ k = KChar c) as Hkey by (intros o c [->%Z.eqb_eq ?%key_is_eq]%andb_true_iff; done).
  assert (∀ f t, ascii t → returns (λ '(s, b), ascii s ∧ buf_ok b) (f (buffer _ _ e)) → returns ed_ok (into_register _ _ f t (snap _ _ e))) as Hreg.
  { intros f t Ht Hf. by apply into_register_ok. }
  unfold Vi.execute_operator. destruct (_ && _) eqn:E1; [apply Hreg; [done|by apply delete_line_ok, Hok]|]. clear E1.
  destruct (_ && _) eqn:E1; [destruct Hok as (H1 & H2 & H3); cbn [returns]; split_and!; [done|done|by apply ascii_app; [apply line_ascii|]]|]. clear E1.
  destruct ((op =? 100) && key_is k 119) eqn:E1; [apply Hkey in E1 as [-> ->]; apply Hreg; [done|apply delete_word_ok; [apply Hok|apply Hsafe; auto]]|]. clear E1.
  destruct ((op =? 99) && key_is k 119) eqn:E1; [apply Hkey in E1 as [-> ->]; eapply returns_bind; [apply Hreg; [exact H0|apply delete_word_ok; [apply Hok|apply Hsafe; auto]]|]; intros e' He'; by apply enter_insert_ok|]. clear E1.
  destruct (_ && _) eqn:E1; [eapply returns_bind; [apply Hreg; [exact H10|by apply clear_current_line_ok, Hok]|]; intros e' He'; by apply enter_insert_ok|]. clear E1.
  destruct (_ && _) eqn:E1; [eapply returns_bind; [apply Hreg; [exact H0|by apply delete_to_eol_ok, Hok]|]; intros e' He'; by apply enter_insert_ok|]. clear E1.
  destruct (_ && _) eqn:E1; [|done]. eapply returns_bind; [apply dispatch_ok; [apply Hok|exact wq_not_sub]|]. intros [[[x b] show] fs] [Hb _]. cbn [returns].
  destruct Hok as (_ & H2 & H3). done.
Qed.

Local Abbreviation command := (command Regex find_at find_iter Files).

Lemma command_ok k n x (e : Editor) : ed_ok e → returns ed_ok (command k n x e).
Proof using Hfind Hiter.
  intros Hok. pose proof (snap_ed_ok e Hok) as Hs. pose proof (pop_into_ok e Hok) as Hpop. pose proof Hok as (Hb & Hu & Hr).
  assert (∀ f (e' : Editor), ed_ok e' → (∀ b, buf_ok b → returns buf_ok (f b)) → returns ed_ok (let! e := on_buffer _ _ f e' in Ret (enter_insert _ _ e))) as Henter.
  { intros f e' He' Hf. eapply returns_bind; [by apply on_buffer_ok|]. intros e2 He2. cbn [returns]. by apply enter_insert_ok. }
  assert (∀ f (e' : Editor), ed_ok e' → (∀ b, buf_ok b → returns buf_ok (f b)) →
    returns ed_ok (let! e := on_buffer _ _ f e' in Ret (set_last_insert _ _ [] (set_mode _ _ Insert e)))) as Hopen.
  { intros f e' He' Hf. eapply returns_bind; [by apply on_buffer_ok|]. intros e2 He2. done. }
  unfold Vi.command. cbv zeta. destruct k as [c|c| | | | | | | | | | | | | |c]; try done; try (apply moves_ok; [done|eauto with vi]); try (apply on_buffer_ok; [done|eauto with vi]).
  all: repeat match goal with |- returns _ (if ?t then _ else _) => destruct t; [solve
    [ done | apply moves_ok; [done|eauto with vi] | apply on_buffer_ok; [done|eauto with vi] | by apply enter_insert_ok
    | by apply search_from_ok | apply set_buffer_ok; [done|eauto with vi] | apply Henter; [done|eauto with vi] | apply Hopen; [done|eauto with vi]
    | apply into_register_ok; [done|constructor|by apply delete_to_eol_ok]
    | destruct x; [apply set_buffer_ok; [done|by apply goto_row_ok]|apply on_buffer_ok; [done|eauto with vi]]
    | destruct (register _ _ e) as [|y l] eqn:Er; [done|]; apply on_buffer_ok; [done|]; intros b' Hb'; first [by apply paste_after_ok|by apply paste_before_ok]
    | destruct (pop_into _ _) as [[ok b'] u]; destruct Hpop; destruct ok; done ]|] end.
  all: done.
Qed.

Local Abbreviation handle_normal := (handle_normal Regex compile find_at find_iter replace Files read_to_string write_file).
Local Abbreviation handle_rest := (handle_rest Regex compile find_at find_iter replace Files read_to_string write_file).

Lemma handle_rest_ok k (e : Editor) : ed_ok e → (∀ op, pending_op _ _ e = Some op → word_safe op k (buffer _ _ e)) → returns ed_ok (handle_rest k e).
Proof using Hfind Hiter Hread.
  intros Hok Hsafe. unfold Vi.handle_rest. destruct (_ && _); [eapply returns_bind; [apply on_buffer_ok; [exact Hok|apply buf_start_ok]|intros e' He'; exact He']|].
  change (pending_op _ _ (set_g_prefix _ _ false e)) with (pending_op _ _ e). destruct (pending_op _ _ e) as [op|] eqn:E; [|by apply command_ok].
  eapply returns_bind; [apply execute_operator_ok; [exact Hok|by apply Hsafe]|intros e' He'; exact He'].
Qed.

Lemma handle_normal_ok k (e : Editor) : ed_ok e → (∀ op, pending_op _ _ e = Some op → word_safe op k (buffer _ _ e)) → returns ed_ok (handle_normal k e).
Proof using Hfind Hiter Hread.
  intros Hok Hsafe. unfold Vi.handle_normal. destruct (pending_find _ _ e) as [v|].
  - apply (returns_bind ed_ok); [|intros e' He'; exact He']. destruct k; try done. by apply execute_find_ok.
  - destruct k; try by apply handle_rest_ok. destruct (_ && _); [done|by apply handle_rest_ok].
Qed.

(** The keys that the terminal can give. *)
Definition key_ok (k : Key) : Prop := match k with KChar c => 32 ≤ c ≤ 126 | _ => True end.

Lemma handle_insert_ok k (e : Editor) : ed_ok e → key_ok k → returns ed_ok (handle_insert _ _ k e).
Proof.
  intros Hok Hk. pose proof Hok as (Hb & _). assert (∀ c, 0 ≤ c < 128 → returns ed_ok (on_buffer _ _ (insert_byte c) e)) as Hins.
  { intros c Hc. apply on_buffer_ok; [done|]. intros b Hb'. by apply insert_byte_ok. }
  unfold handle_insert. destruct k as [c|c| | | | | | | | | | | | | |c]; try done.
  - eapply returns_bind; [apply Hins; cbn in Hk; lia|done].
  - destruct (c =? 119); [|done]. apply on_buffer_ok; [done|]. apply drop_word_left_ok.
  - eapply returns_bind; [apply on_buffer_ok; [done|apply split_line_ok]|done].
  - apply on_buffer_ok; [done|]. intros b Hb'. eapply returns_mono; [by apply backspace_ok|]. cbv beta. tauto.
  - eapply returns_bind; [by apply Hins|done].
  - apply on_buffer_ok; [done|]. intros b Hb'. pose proof (clamp_row false b (row b) Hb' (ok_row b Hb')) as H. by destruct b.
  - apply on_buffer_ok; [done|]. intros b Hb'. destruct (0 <? row b)%nat; [|done]. apply clamp_row; [done|]. pose proof (ok_row b Hb'). unfold line_count. lia.
  - apply on_buffer_ok; [done|]. intros b Hb'. destruct (Nat.ltb_spec (S (row b)) (line_count b)); [|done]. by apply clamp_row.
  - apply set_buffer_ok; [done|by apply left_ok].
  - apply on_buffer_ok; [done|]. intros b Hb'. with_current Hb' s Hs Ha Hc. cbn [returns]. destruct (Nat.ltb_spec (col b) (length s)); [|done]. by eapply at_col_ok; [|exact Hs|].
Qed.

Lemma handle_replace_ok k (e : Editor) : ed_ok e → key_ok k → returns ed_ok (handle_replace _ _ k e).
Proof.
  intros Hok Hk. unfold handle_replace. apply (returns_bind ed_ok); [|intros e' He'; exact He']. destruct k; try done. apply on_buffer_ok; [by apply snap_ed_ok|].
  intros b' Hb. apply replace_at_cursor_ok; [done|cbn in Hk; lia].
Qed.

Definition left_or (x : Editor + Z) : Prop := match x with inl e => ed_ok e | inr _ => True end.

Lemma handle_cmdline_ok k kind (e : Editor) : ed_ok e → (kind = Ex → k = KEnter → is_substitution (trim (cmdline _ _ e)) = false) →
  returns left_or (handle_cmdline Regex compile find_at find_iter replace Files read_to_string write_file k kind e).
Proof using Hfind Hiter Hread.
  intros Hok Hsub. assert (∀ p fwd, returns left_or (match search_set Regex compile p fwd (search _ _ e) with
      | inl s => let e := set_search _ _ s (set_mode _ _ Normal (set_cmdline _ _ [] e)) in
          let! (hit, b) := find Regex find_at find_iter (forward _ s) true s (buffer _ _ e) in
          let e := set_buffer _ _ b e in Ret (inl (if hit then e else set_status _ _ (Some PatternNotFound) e))
      | inr m => Ret (inl (set_status _ _ (Some m) (set_mode _ _ Normal (set_cmdline _ _ [] e)))) end)) as Hsearch.
  { intros p fwd. destruct (search_set _ _ _ _ _) as [s|m]; [|done]. cbv zeta. eapply returns_bind; [apply find_ok, Hok|]. intros [hit b] Hb. cbn [returns left_or].
    destruct Hok as (_ & H2 & H3). by destruct hit. }
  unfold handle_cmdline. destruct k; try done.
  - cbv zeta. destruct kind; [|apply Hsearch..]. eapply returns_bind; [apply dispatch_ok; [apply Hok|by apply Hsub]|]. intros [[[x b] show] fs] [Hb Hx]. cbn [returns].
    destruct Hok as (_ & H2 & H3). destruct x as [[m|]|c|b' [m|]]; cbn [left_or with_message]; try done; (split_and!; [exact Hx|constructor|exact H3]).
  - cbn [returns left_or]. by destruct (cmdline _ _ e).
Qed.

(** Where the editor is known to panic: [dw] and [cw] behind the end of the last
    line; a substitution, which may leave the cursor behind the end of its line. *)
Definition safe (k : Key) (e : Editor) : Prop :=
  match mode _ _ e with
  | Normal => ∀ op, pending_op _ _ e = Some op → word_safe op k (buffer _ _ e)
  | CommandLine Ex => k = KEnter → is_substitution (trim (cmdline _ _ e)) = false
  | _ => True
  end.

(** C20: the editor on ASCII text, for every key in every mode: it does not panic and
    every loop over the text ends, and afterwards the buffer has a line under the
    cursor, the column is on a byte of that line or right behind the last, every
    snapshot can be restored, and all text, the register included, is still ASCII.
    The exceptions are those of [safe]; the examples below show that they are needed. *)
Theorem editor_invariant k (e : Editor) : ed_ok e → key_ok k → safe k e →
  returns (λ x, match x with inl e' => ed_ok e' | inr _ => True end) (turn k e).
Proof using Hfind Hiter Hread.
  intros Hok Hk Hsafe. unfold Vi.turn, safe in *. destruct (mode _ _ e) as [| | |kind].
  - eapply returns_bind; [by apply handle_normal_ok|done].
  - eapply returns_bind; [by apply handle_insert_ok|done].
  - eapply returns_bind; [by apply handle_replace_ok|done].
  - apply handle_cmdline_ok; [done|]. intros -> ->. by apply Hsafe.
Qed.
End editor_laws.

(** The keys decoded from the terminal's bytes. *)
Lemma next_key_ok r : match (next_key r).1 with Some k => key_ok k | None => True end.
Proof.
  unfold next_key. destruct (read_one r) as [[b|] r']; [|done]. destruct (_ || _); [done|]. destruct (b =? 9); [done|]. destruct (_ || _); [done|].
  assert (∀ n i, key_ok (number_loop n i).1) as Hn.
  { intros n i. revert n. induction i as [|x i IH]; intros n; [done|]. cbn [number_loop]. destruct (_ || _); [|destruct (_ && _); [done|apply IH]].
    cbn [fst]. unfold number_key. repeat (destruct (_ || _) || destruct (bool_decide _)); done. }
  destruct (b =? 27).
  - assert (key_ok (decode_escape r').1) as H; [|by destruct (decode_escape r')]. unfold decode_escape. destruct (read_one r') as [[b1|] r1]; [|done].
    destruct (_ && _); [done|]. destruct (read_one r1) as [[b2|] r2]; [|done]. repeat (destruct (b2 =? _); [done|]). destruct (Text.is_digit b2); [|done].
    specialize (Hn [b2] (input r2)). by destruct (number_loop _ _).
  - destruct (_ && _); [done|]. destruct (_ && _) eqn:E; [|done]. cbn. apply andb_true_iff in E as [?%Z.leb_le ?%Z.leb_le]. lia.
Qed.

(** A snapshot taken before a command is what [u] goes back to. *)
Lemma undo_restores b b' u : undo_cap u ≠ 0%nat → (length (stack u) ≤ undo_cap u)%nat →
  let '(ok, b2, u2) := pop_into b' (snapshot b u) in
  ok = true ∧ lines b2 = lines b ∧ row b2 = row b ∧ col b2 = col b ∧
  stack u2 = (if (length (stack u) =? undo_cap u)%nat then tail (stack u) else stack u).
Proof.
  intros _ _. unfold pop_into, snapshot. cbn [stack]. rewrite last_snoc. cbn [s_lines s_row s_col]. by rewrite removelast_last.
Qed.

(** *** A file that was written reads back *)

Lemma split_on_line s t : 10 ∉ s → Text.split_on 10 (s ++ 10 :: t) = s :: Text.split_on 10 t.
Proof.
  induction s as [|c s IH]; intros Hs; [done|]. apply not_elem_of_cons in Hs as [Hc Hs]. cbn [app Text.split_on]. rewrite (IH Hs).
  destruct (Z.eqb_spec c 10) as [->|]; done.
Qed.

Lemma split_on_join l : l ≠ [] → Forall (λ s, 10 ∉ s) l → Text.split_on 10 (join_with_newlines l ++ [10]) = l ++ [[]].
Proof.
  intros Hne Hl. induction Hl as [|s l Hs Hl IH]; [done|]. destruct l as [|s' l]; [exact (split_on_line s [] Hs)|].
  change (join_with_newlines (s :: s' :: l)) with (s ++ 10 :: join_with_newlines (s' :: l)). rewrite <- app_assoc. cbn [app].
  rewrite split_on_line by done. by rewrite IH.
Qed.

Lemma split_keep_join l : l ≠ [] → Forall (λ s, 10 ∉ s) l → split_keep_empty (join_with_newlines l ++ [10]) = l.
Proof.
  intros Hne Hl. unfold split_keep_empty. rewrite split_on_join by done. destruct (join_with_newlines l ++ [10]) eqn:E; [by destruct (join_with_newlines l)|].
  rewrite last_snoc, bool_decide_true by done. rewrite removelast_last. by destruct l.
Qed.

(** [:w], and then [:e] of the same file: the lines are those of the buffer. *)
Lemma save_load {Files : Type} (rd : Files → list Z → Io.Res (list Z)) (wr : Files → list Z → list Z → Io.Res unit * Files) p b fs n b' fs' :
  (∀ fs p t fs', wr fs p t = (Io.Done tt, fs') → rd fs' p = Io.Done t) →
  lines b ≠ [] → Forall (λ s, 10 ∉ s) (lines b) → save_as Files wr p b fs = (Io.Done n, b', fs') →
  load Files rd p fs' = Io.Done (mkBuffer (Some p) (lines b) 0 0 false false) ∧ lines b' = lines b ∧ path b' = Some p ∧ dirty b' = false.
Proof.
  intros Hrw Hne Hl. unfold save_as. destruct (wr fs p _) as [[[]|e|] fs1] eqn:E; [|done|done]. intros [= <- <- <-].
  unfold load. rewrite (Hrw _ _ _ _ E), split_keep_join by done. done.
Qed.

(** *** Sessions

    A pattern that matches at the start of a line, and a replacement that is empty;
    one file, which can not be written. *)

Definition at_start (_ : unit) (s : list Z) (i : nat) : option nat := if (i =? 0)%nat then Some 0%nat else None.
Definition one_match (_ : unit) (_ : list Z) : list nat := [0%nat].
Definition to_empty (_ : unit) (_ : bool) (_ _ : list Z) : list Z := [].
Definition one_file (_ : unit) (p : list Z) : Io.Res (list Z) :=
  if bool_decide (p = Text.str "f") then Io.Done (Text.str "ab cd") else Io.Fail (Io.Custom Io.NotFound).
Definition read_only (fs : unit) (_ _ : list Z) : Io.Res unit * unit := (Io.Fail (Io.Custom Io.Other), fs).

Definition session_turn := turn unit (λ _, Some tt) at_start one_match to_empty unit one_file read_only.
Definition session_run := run unit (λ _, Some tt) at_start one_match to_empty unit one_file read_only.
Definition opened (l : list string) : Editor unit unit := new_editor unit unit (mkBuffer None (map Text.str l) 0 0 false false) tt.

Definition key_of (c : Z) : Key := if c =? 10 then KEnter else if c =? 27 then KEsc else KChar c.

Fixpoint type_keys (ks : list Z) (e : Editor unit unit) : Out (Editor unit unit + Z) :=
  match ks with
  | [] => Ret (inl e)
  | c :: ks => let! x := session_turn (key_of c) e in match x with inl e => type_keys ks e | inr c => Ret (inr c) end
  end.

(** What a session leaves: the lines and the cursor, or the exit code. *)
Definition after (l : list string) (ks : list Z) : Out (list (list Z) * nat * nat + Z) :=
  let! x := type_keys ks (opened l) in
  Ret match x with inl e => inl (lines (buffer _ _ e), row (buffer _ _ e), col (buffer _ _ e)) | inr c => inr c end.

Example change_word : after ["ab cd"%string] (Text.str "cwx" ++ [27]) = Ret (inl ([Text.str "xcd"], 0%nat, 1%nat)).
Proof. vm_compute. reflexivity. Qed.

Example yank_paste : after ["a"%string; "b"%string] (Text.str "yyjp") = Ret (inl ([Text.str "a"; Text.str "b"; Text.str "a"], 2%nat, 0%nat)).
Proof. vm_compute. reflexivity. Qed.

Example open_file : after ["x"%string] (Text.str ":e f" ++ [10] ++ Text.str "w") = Ret (inl ([Text.str "ab cd"], 0%nat, 3%nat)).
Proof. vm_compute. reflexivity. Qed.

(** [w] takes the words on both sides of the end of a line for one. *)
Example word_over_lines : after ["ab"%string; "cd"%string; "ef gh"%string] (Text.str "w") =
  Ret (inl ([Text.str "ab"; Text.str "cd"; Text.str "ef gh"], 2%nat, 3%nat)).
Proof. vm_compute. reflexivity. Qed.

(** [dw] on the last word leaves its last character. *)
Example last_char_stays : after ["ab"%string] (Text.str "dw") = Ret (inl ([Text.str "b"], 0%nat, 0%nat)).
Proof. vm_compute. reflexivity. Qed.

(** [J] with an empty line puts the cursor behind the end of the line: [dw] then
    drains a range that ends before it starts. *)
Example join_delete_panics : after ["ab"%string; EmptyString] (Text.str "Jdw") = Panic.
Proof. vm_compute. reflexivity. Qed.

(** So does [u] after an insertion at the end of the line. *)
Example undo_delete_panics : after ["ab"%string] (Text.str "Ax" ++ [27] ++ Text.str "udw") = Panic.
Proof. vm_compute. reflexivity. Qed.

(** A substitution leaves the column where it was. *)
Example substitute_insert_panics : after ["ab"%string] (Text.str "$:s/b/c/" ++ [10] ++ Text.str "ix") = Panic.
Proof. vm_compute. reflexivity. Qed.

(** [:wq] leaves the editor although the file was not written. *)
Example wq_unwritten : after ["ab"%string] (Text.str "ix" ++ [27] ++ Text.str ":wq f" ++ [10]) = Ret (inr 0).
Proof. vm_compute. reflexivity. Qed.

(** [ZZ] stays in it. *)
Example zz_stays : after ["ab"%string] (Text.str "ZZ") = Ret (inl ([Text.str "ab"], 0%nat, 0%nat)).
Proof. vm_compute. reflexivity. Qed.

(** The bytes of a terminal: an arrow, an insertion, and [:q!]. *)
Example run_session : session_run 20 (mkReader None ([27; 91; 67] ++ Text.str "ix" ++ [27; 58; 113; 33; 13])) (opened ["ab"%string]) = Ret 0.
Proof. vm_compute. reflexivity. Qed.

Lemma one_file_ascii (fs : unit) p t : one_file fs p = Io.Done t → ascii t.
Proof. unfold one_file. case_bool_decide; [|done]. intros [= <-]. unfold ascii. repeat constructor; lia. Qed.

(** [dw] in the middle of a text. *)
Lemma editor_invariant_witness :
  let e := set_pending_op _ _ (Some 100) (opened ["ab cd"%string]) in
  returns (λ x, match x with inl e' => ed_ok e' | inr _ => True end) (session_turn (KChar 119) e).
Proof.
  intros e. apply editor_invariant.
  - intros re s i m. unfold at_start. destruct (i =? 0)%nat; [|done]. intros [= <-]. lia.
  - intros re s m Hm. unfold one_match in Hm. apply list_elem_of_singleton in Hm as ->. lia.
  - exact one_file_ascii.
  - split_and!; [|constructor|constructor]. split; [repeat constructor; lia|]. exists (Text.str "ab cd"). split; [done|]. cbn. lia.
  - cbn. lia.
  - intros op _ _ _ [_ [H _]]. vm_compute in H. done.
Defined.

End Vi.
