(* ===== verification/Mbr.v ===== *)
(** * Partition tables ([mbrkit/src/mbr.rs], [error.rs])

    The sector of a disk that holds the partition table, its coding, and the
    compatibility addresses in it. *)

From S2P Require Import Prelude.
Open Scope Z_scope.

(** ** Errors

    The messages are left out. *)

Inductive MbrkitError : Set :=
| Io
| InvalidArgument
| InvalidPartitionSpec
| InvalidSize
| InvalidPartitionType
| InvalidMbr
| SilentFailure (code : Z)
| Serialize
| Manifest.

Definition exit_code (e : MbrkitError) : Z :=
  match e with
  | SilentFailure code => code
  | InvalidArgument | InvalidPartitionSpec | InvalidSize | InvalidPartitionType => 2
  | _ => 1
  end.

Definition should_print (e : MbrkitError) : bool := match e with SilentFailure _ => false | _ => true end.

(** [Result<T, MbrkitError>], with [?] as the bind. *)
Definition Res (A : Type) : Type := A + MbrkitError.

#[export] Instance res_bind : MBind Res := λ A B f m, match m with inl a => f a | inr e => inr e end.

Definition ok_or {A} (o : option A) (e : MbrkitError) : Res A := match o with Some a => inl a | None => inr e end.
Definition check (b : bool) (e : MbrkitError) : Res () := if b then inr e else inl ().

Module Mbr.

Definition SECTOR_SIZE : Z := 512.
Definition MBR_BOOTSTRAP_CODE_SIZE : Z := 440.
Definition DISK_SIGNATURE_SIZE : Z := 4.
Definition RESERVED_BYTES_SIZE : Z := 2.
Definition DISK_SIGNATURE_OFFSET : Z := MBR_BOOTSTRAP_CODE_SIZE.
Definition RESERVED_BYTES_OFFSET : Z := DISK_SIGNATURE_OFFSET + DISK_SIGNATURE_SIZE.
Definition PARTITION_TABLE_OFFSET : Z := MBR_BOOTSTRAP_CODE_SIZE + DISK_SIGNATURE_SIZE + RESERVED_BYTES_SIZE.
Definition PARTITION_ENTRY_COUNT : Z := 4.
Definition PARTITION_ENTRY_SIZE : Z := 16.
Definition MBR_SIGNATURE_OFFSET : Z := 510.
Definition MBR_SIGNATURE : Z := 43605.

Record PartitionEntry : Type := mkEntry {
  boot_indicator : Z;
  start_chs : list Z;
  partition_type : Z;
  end_chs : list Z;
  starting_lba : Z;
  sectors : Z;
}.

Definition entry_default : PartitionEntry := mkEntry 0 [0; 0; 0] 0 [0; 0; 0] 0 0.

Record MbrHeader : Type := mkHeader {
  bootstrap_code : list Z;
  disk_signature : Z;
  reserved : list Z;
  partitions : list PartitionEntry;
  signature : Z;
}.

Definition header_new (code : list Z) (sig : Z) : MbrHeader :=
  mkHeader code sig [0; 0] (replicate 4 entry_default) MBR_SIGNATURE.

(** ** Entries *)

Definition from_bytes (bytes : list Z) : PartitionEntry :=
  mkEntry (le_value (slice bytes 0 1)) (slice bytes 1 3) (le_value (slice bytes 4 1)) (slice bytes 5 3)
    (le_value (slice bytes 8 4)) (le_value (slice bytes 12 4)).

Definition to_bytes (e : PartitionEntry) : list Z :=
  let bytes := replicate 16 0 in
  let bytes := splice bytes 0 [boot_indicator e] in
  let bytes := splice bytes 1 (start_chs e) in
  let bytes := splice bytes 4 [partition_type e] in
  let bytes := splice bytes 5 (end_chs e) in
  let bytes := splice bytes 8 (le_bytes 4 (starting_lba e)) in
  splice bytes 12 (le_bytes 4 (sectors e)).

Definition is_empty (e : PartitionEntry) : bool :=
  (partition_type e =? 0) && (starting_lba e =? 0) && (sectors e =? 0).

Definition is_bootable (e : PartitionEntry) : bool := boot_indicator e =? 128.

Definition entry_end_lba (e : PartitionEntry) : option Z :=
  if sectors e =? 0 then None else Some (starting_lba e + sectors e - 1).

(** ** The sector *)

Definition entry_offset (index : Z) : Z := PARTITION_TABLE_OFFSET + index * PARTITION_ENTRY_SIZE.

Definition from_sector (sector : list Z) : Res MbrHeader :=
  if Z.of_nat (length sector) <? SECTOR_SIZE then inr InvalidMbr
  else inl (mkHeader (slice sector 0 MBR_BOOTSTRAP_CODE_SIZE) (le_value (slice sector DISK_SIGNATURE_OFFSET 4))
         (slice sector RESERVED_BYTES_OFFSET 2)
         (map (λ i, from_bytes (slice sector (entry_offset i) PARTITION_ENTRY_SIZE)) (seqZ 0 PARTITION_ENTRY_COUNT))
         (le_value (slice sector MBR_SIGNATURE_OFFSET 2))).

Fixpoint put_entries (index : Z) (l : list PartitionEntry) (sector : list Z) : list Z :=
  match l with
  | [] => sector
  | e :: l => put_entries (index + 1) l (splice sector (entry_offset index) (to_bytes e))
  end.

Definition to_sector (h : MbrHeader) : list Z :=
  let sector := replicate (Z.to_nat SECTOR_SIZE) 0 in
  let sector := splice sector 0 (bootstrap_code h) in
  let sector := splice sector DISK_SIGNATURE_OFFSET (le_bytes 4 (disk_signature h)) in
  let sector := splice sector RESERVED_BYTES_OFFSET (reserved h) in
  let sector := put_entries 0 (partitions h) sector in
  splice sector MBR_SIGNATURE_OFFSET (le_bytes 2 (signature h)).

Definition has_valid_signature (h : MbrHeader) : bool := signature h =? MBR_SIGNATURE.

(** ** Cylinder, head and sector *)

Record ChsAddress : Type := mkChs { cylinder : Z; head : Z; sector : Z }.

Definition chs_from_lba (lba : Z) : ChsAddress :=
  let sectors_per_track := 63 in
  let heads := 255 in
  let max_lba := 1023 * heads * sectors_per_track in
  if max_lba <=? lba then mkChs 1023 254 63
  else mkChs (wrap 16 (lba / (heads * sectors_per_track))) (wrap 8 ((lba / sectors_per_track) mod heads))
         (wrap 8 (lba mod sectors_per_track + 1)).

Definition chs_encode (c : ChsAddress) : list Z :=
  let cylinder_high := wrap 8 (Z.land (Z.shiftr (cylinder c) 8) 3) in
  let cylinder_low := wrap 8 (Z.land (cylinder c) 255) in
  [head c; Z.lor (Z.land (sector c) 63) (wrap 8 (Z.shiftl cylinder_high 6)); cylinder_low].

(** ** Coding *)

Lemma splice_fill {A} (a b c src : list A) off : off = Z.of_nat (length a) → length src = length b →
  splice (a ++ b ++ c) off src = a ++ src ++ c.
Proof.
  intros -> E. unfold splice. rewrite Nat2Z.id, take_app_length, E, drop_app_add', drop_app_length by done. done.
Qed.

Lemma slice_middle {A} (a b c : list A) off n : off = Z.of_nat (length a) → n = Z.of_nat (length b) →
  slice (a ++ b ++ c) off n = b.
Proof. intros -> ->. unfold slice. by rewrite !Nat2Z.id, drop_app_length, take_app_length. Qed.

Record entry_ok (e : PartitionEntry) : Prop := {
  eo_boot : is_uint 8 (boot_indicator e);
  eo_start : length (start_chs e) = 3%nat ∧ Forall (is_uint 8) (start_chs e);
  eo_type : is_uint 8 (partition_type e);
  eo_end : length (end_chs e) = 3%nat ∧ Forall (is_uint 8) (end_chs e);
  eo_lba : is_uint 32 (starting_lba e);
  eo_sectors : is_uint 32 (sectors e);
}.

Record header_ok (h : MbrHeader) : Prop := {
  ho_code : length (bootstrap_code h) = 440%nat ∧ Forall (is_uint 8) (bootstrap_code h);
  ho_sig : is_uint 32 (disk_signature h);
  ho_reserved : length (reserved h) = 2%nat ∧ Forall (is_uint 8) (reserved h);
  ho_entries : length (partitions h) = 4%nat ∧ Forall entry_ok (partitions h);
  ho_signature : is_uint 16 (signature h);
}.

Lemma to_bytes_app e : length (start_chs e) = 3%nat → length (end_chs e) = 3%nat →
  to_bytes e = [boot_indicator e] ++ start_chs e ++ [partition_type e] ++ end_chs e ++
    le_bytes 4 (starting_lba e) ++ le_bytes 4 (sectors e).
Proof.
  unfold to_bytes. destruct (start_chs e) as [|? [|? [|? []]]]; try done. destruct (end_chs e) as [|? [|? [|? []]]]; done.
Qed.

Lemma length_to_bytes e : entry_ok e → length (to_bytes e) = 16%nat.
Proof. intros [_ [H1 _] _ [H2 _] _ _]. rewrite to_bytes_app by done. rewrite !length_app, H1, H2, !length_le_bytes. done. Qed.

Lemma le_value_1 x : is_uint 8 x → le_value [x] = x.
Proof. unfold is_uint. intros. cbn [le_value foldr]. lia. Qed.

Lemma from_bytes_app b sc t ec l s : length sc = 3%nat → length ec = 3%nat → length l = 4%nat → length s = 4%nat →
  from_bytes ([b] ++ sc ++ [t] ++ ec ++ l ++ s) = mkEntry (le_value [b]) sc (le_value [t]) ec (le_value l) (le_value s).
Proof.
  destruct sc as [|? [|? [|? []]]], ec as [|? [|? [|? []]]], l as [|? [|? [|? [|? []]]]], s as [|? [|? [|? [|? []]]]]; done.
Qed.

Lemma from_to_bytes e : entry_ok e → from_bytes (to_bytes e) = e.
Proof.
  intros [Hb [H1 _] Ht [H2 _] Hl Hs]. rewrite to_bytes_app, from_bytes_app by done.
  rewrite !le_value_1, !le_value_bytes by done. by destruct e.
Qed.

Lemma to_from_bytes l : length l = 16%nat → Forall (is_uint 8) l → to_bytes (from_bytes l) = l ∧ entry_ok (from_bytes l).
Proof.
  intros Hl Hu. assert (∃ b sc t ec x s, l = [b] ++ sc ++ [t] ++ ec ++ x ++ s ∧
    length sc = 3%nat ∧ length ec = 3%nat ∧ length x = 4%nat ∧ length s = 4%nat) as (b & sc & t & ec & x & s & -> & H1 & H2 & H3 & H4).
  { do 16 (destruct l as [|? l]; [done|]). destruct l; [|done]. by eexists _, [_; _; _], _, [_; _; _], [_; _; _; _], [_; _; _; _]. }
  rewrite !Forall_app, !Forall_singleton in Hu. destruct Hu as (Hb & Hsc & Ht & Hec & Hx & Hs).
  rewrite from_bytes_app by done. pose proof (le_value_bound _ Hx) as Bx. pose proof (le_value_bound _ Hs) as Bs.
  rewrite H3 in Bx. rewrite H4 in Bs. rewrite !le_value_1 by done. split.
  - rewrite to_bytes_app by done. cbn [boot_indicator start_chs partition_type end_chs starting_lba sectors].
    pose proof (le_bytes_value _ Hx) as E1. pose proof (le_bytes_value _ Hs) as E2. rewrite H3 in E1. rewrite H4 in E2.
    by rewrite E1, E2.
  - by split.
Qed.

(** The sector as the sequence of its fields. *)
Lemma put_entries_app l : ∀ i pre mid post, Forall (λ e, length (to_bytes e) = 16%nat) l →
  Z.of_nat (length pre) = entry_offset i → length mid = (16 * length l)%nat →
  put_entries i l (pre ++ mid ++ post) = pre ++ concat (map to_bytes l) ++ post.
Proof.
  induction l as [|e l IH]; intros i pre mid post Hl Hp Hm; cbn [put_entries length map concat] in *; [by destruct mid|].
  inversion_clear Hl as [|? ? He Hl']. rewrite <- (take_drop 16 mid), <- (app_assoc (take 16 mid)).
  rewrite splice_fill by (rewrite ?length_take; done || lia). rewrite (app_assoc pre), IH.
  - by rewrite <- !app_assoc.
  - done.
  - rewrite length_app. unfold entry_offset in *. change PARTITION_ENTRY_SIZE with 16 in *. lia.
  - rewrite length_drop. lia.
Qed.

Lemma to_sector_app h : header_ok h → to_sector h =
  bootstrap_code h ++ le_bytes 4 (disk_signature h) ++ reserved h ++ concat (map to_bytes (partitions h)) ++ le_bytes 2 (signature h).
Proof.
  intros [[Hc _] _ [Hr _] [Hp He] _]. unfold to_sector.
  change (replicate (Z.to_nat SECTOR_SIZE) 0) with
    ([] ++ replicate 440 0 ++ replicate 4 0 ++ replicate 2 0 ++ replicate (16 * 4) 0 ++ replicate 2 0).
  rewrite splice_fill by done. rewrite app_nil_l. rewrite (splice_fill (bootstrap_code h)) by (rewrite ?Hc; done).
  rewrite (app_assoc (bootstrap_code h)).
  rewrite (splice_fill (bootstrap_code h ++ _)) by (rewrite ?length_app, ?Hc; done).
  rewrite (app_assoc (bootstrap_code h ++ _)).
  rewrite put_entries_app by first [by rewrite !length_app, Hc, Hr, length_le_bytes|by rewrite length_replicate, Hp|
    by eapply Forall_impl; [exact He|apply length_to_bytes]].
  assert (length (concat (map to_bytes (partitions h))) = 64%nat) as Hlen.
  { destruct (partitions h) as [|e1 [|e2 [|e3 [|e4 []]]]]; try done. rewrite !Forall_cons in He. destruct He as (?&?&?&?&_).
    cbn [map concat]. rewrite !length_app, !length_to_bytes by done. done. }
  rewrite (app_assoc ((bootstrap_code h ++ _) ++ _)). rewrite <- (app_nil_r (replicate 2 0)).
  rewrite splice_fill by first [by rewrite !length_app, Hc, Hr, Hlen, length_le_bytes|by rewrite length_le_bytes].
  by rewrite app_nil_r, <- !app_assoc.
Qed.

Lemma slice_skip {A} (a l : list A) off n : Z.of_nat (length a) ≤ off → slice (a ++ l) off n = slice l (off - Z.of_nat (length a)) n.
Proof. intros H. unfold slice. rewrite drop_app_ge by lia. do 2 f_equal. lia. Qed.

Lemma slice_head {A} (b c : list A) n : n = Z.of_nat (length b) → slice (b ++ c) 0 n = b.
Proof. intros ->. unfold slice. rewrite Nat2Z.id. simpl. apply take_app_length. Qed.

(** A disk that starts with these fields. *)
Lemma from_sector_app c s r (l : list (list Z)) g rest :
  length c = 440%nat → length s = 4%nat → length r = 2%nat → length l = 4%nat → Forall (λ e, length e = 16%nat) l → length g = 2%nat →
  from_sector (c ++ s ++ r ++ concat l ++ g ++ rest) = inl (mkHeader c (le_value s) r (map from_bytes l) (le_value g)).
Proof.
  intros Hc Hs Hr Hl He Hg. destruct l as [|e1 [|e2 [|e3 [|e4 []]]]]; try done. rewrite !Forall_cons in He. destruct He as (H1&H2&H3&H4&_).
  unfold from_sector. rewrite (proj2 (Z.ltb_ge _ _)).
  2:{ cbn [concat]. rewrite !length_app, Hc, Hs, Hr, H1, H2, H3, H4, Hg. unfold SECTOR_SIZE. lia. }
  cbn [concat]. rewrite app_nil_r, <- !app_assoc. do 2 f_equal.
  - by rewrite slice_head by (rewrite Hc; done).
  - rewrite slice_skip by (rewrite Hc; done). f_equal. by rewrite Hc, slice_head by (rewrite Hs; done).
  - do 2 rewrite slice_skip by (rewrite ?Hc, ?Hs; done). by rewrite Hc, Hs, slice_head by (rewrite Hr; done).
  - change (seqZ 0 PARTITION_ENTRY_COUNT) with [0; 1; 2; 3]. cbn [map]. unfold entry_offset.
    repeat f_equal; do 3 rewrite slice_skip by (rewrite ?Hc, ?Hs, ?Hr; done); rewrite Hc, Hs, Hr.
    + by rewrite slice_head by (rewrite H1; done).
    + rewrite slice_skip by (rewrite H1; done). by rewrite H1, slice_head by (rewrite H2; done).
    + do 2 rewrite slice_skip by (rewrite ?H1, ?H2; done). by rewrite H1, H2, slice_head by (rewrite H3; done).
    + do 3 rewrite slice_skip by (rewrite ?H1, ?H2, ?H3; done). by rewrite H1, H2, H3, slice_head by (rewrite H4; done).
  - do 7 rewrite slice_skip by (rewrite ?Hc, ?Hs, ?Hr, ?H1, ?H2, ?H3, ?H4; done). f_equal.
    by rewrite Hc, Hs, Hr, H1, H2, H3, H4, slice_head by (rewrite Hg; done).
Qed.

Lemma from_to_sector h rest : header_ok h → from_sector (to_sector h ++ rest) = inl h.
Proof.
  intros Hok. pose proof Hok as [[Hc _] Hs [Hr _] [Hp He] Hg]. rewrite to_sector_app by done. rewrite <- !app_assoc.
  rewrite from_sector_app; try done; try apply length_le_bytes.
  - rewrite !le_value_bytes by done. rewrite map_map. f_equal. destruct h as [c s r l g]; simpl in *. f_equal.
    rewrite <- (map_id l) at 2. apply map_ext_in. intros e Hin%list_elem_of_In. rewrite Forall_forall in He. by apply from_to_bytes, He.
  - by rewrite length_map.
  - apply Forall_map. eapply Forall_impl; [exact He|apply length_to_bytes].
Qed.

Lemma split_sector (l : list Z) : length l = 512%nat → ∃ (c s r : list Z) (e : list (list Z)) g, l = c ++ s ++ r ++ concat e ++ g ∧
  length c = 440%nat ∧ length s = 4%nat ∧ length r = 2%nat ∧ length e = 4%nat ∧ Forall (λ x, length x = 16%nat) e ∧ length g = 2%nat.
Proof.
  intros Hl. set (d := λ n, drop n l).
  exists (take 440 l), (take 4 (d 440%nat)), (take 2 (d 444%nat)),
    [take 16 (d 446%nat); take 16 (d 462%nat); take 16 (d 478%nat); take 16 (d 494%nat)], (d 510%nat).
  split.
  - cbn [concat]. rewrite app_nil_r. unfold d.
    assert (∀ a b, take a (drop b l) ++ drop (b + a) l = drop b l) as E by (intros; rewrite <- drop_drop; apply take_drop).
    change 510%nat with (494 + 16)%nat. rewrite <- !app_assoc, E. change 494%nat with (478 + 16)%nat. rewrite E.
    change 478%nat with (462 + 16)%nat. rewrite E. change 462%nat with (446 + 16)%nat. rewrite E.
    change 446%nat with (444 + 2)%nat. rewrite E. change 444%nat with (440 + 4)%nat. rewrite E. by rewrite take_drop.
  - unfold d. rewrite !length_take, !length_drop, Hl. split_and!; try done. repeat constructor; by rewrite length_take, length_drop, Hl.
Qed.

Lemma to_from_sector l h : length l = 512%nat → Forall (is_uint 8) l → from_sector l = inl h → to_sector h = l ∧ header_ok h.
Proof.
  intros Hl Hu. destruct (split_sector l Hl) as (c & s & r & e & g & -> & Hc & Hs & Hr & He & Hee & Hg).
  rewrite !Forall_app in Hu. destruct Hu as (Uc & Us & Ur & Ue & Ug). rewrite <- (app_nil_r g) at 1.
  rewrite from_sector_app by done. intros [= <-].
  pose proof (le_value_bound _ Us) as Bs. rewrite Hs in Bs. pose proof (le_value_bound _ Ug) as Bg. rewrite Hg in Bg.
  assert (Forall (λ x, to_bytes (from_bytes x) = x ∧ entry_ok (from_bytes x)) e) as Hall.
  { apply Forall_concat in Ue. apply Forall_forall. intros x Hx. rewrite Forall_forall in Ue, Hee. apply to_from_bytes; auto. }
  apply Forall_and in Hall as [Hid Hok].
  assert (header_ok (mkHeader c (le_value s) r (map from_bytes e) (le_value g))) as Hh.
  { split; simpl; try done. split; [by rewrite length_map|by apply Forall_map]. }
  split; [|done]. rewrite to_sector_app by done. cbn [bootstrap_code disk_signature reserved partitions signature].
  pose proof (le_bytes_value _ Us) as E1. rewrite Hs in E1. pose proof (le_bytes_value _ Ug) as E2. rewrite Hg in E2. rewrite E1, E2.
  assert (map to_bytes (map from_bytes e) = e) as ->; [|done]. rewrite map_map. clear -Hid. induction Hid as [|x e Hx _ IH]; [done|]. cbn [map]. by rewrite Hx, IH.
Qed.

(** The address that three bytes of an entry stand for. *)
Definition chs_lba (l : list Z) : option Z :=
  match l with
  | [h; s; c] => Some (((Z.shiftr s 6 * 256 + c) * 255 + h) * 63 + Z.land s 63 - 1)
  | _ => None
  end.

Lemma land_3 x : Z.land x 3 = x mod 4.
Proof. apply (land_mask 2). lia. Qed.
Lemma land_63 x : Z.land x 63 = x mod 64.
Proof. apply (land_mask 6). lia. Qed.
Lemma land_255 x : Z.land x 255 = x mod 256.
Proof. apply (land_mask 8). lia. Qed.

Lemma chs_encode_spec lba : 0 ≤ lba < 1023 * 255 * 63 →
  chs_lba (chs_encode (chs_from_lba lba)) = Some lba.
Proof.
  intros Hl. unfold chs_from_lba. cbv zeta. rewrite (proj2 (Z.leb_gt _ _)) by lia.
  assert (0 ≤ lba / (255 * 63) < 1023) as Hc by (split; [apply Z.div_pos; lia|apply Z.div_lt_upper_bound; lia]).
  pose proof (Z.mod_pos_bound (lba / 63) 255 ltac:(lia)) as Hh. pose proof (Z.mod_pos_bound lba 63 ltac:(lia)) as Hs.
  set (c := lba / (255 * 63)) in *. set (h := (lba / 63) mod 255) in *. set (s := lba mod 63 + 1).
  assert ((c * 255 + h) * 63 + s - 1 = lba) as E.
  { clear. unfold c, h, s. change (255 * 63) with 16065. Z.to_euclidean_division_equations. lia. }
  rewrite !wrap_small by (unfold is_uint, s; lia). unfold chs_encode. cbn [cylinder head sector chs_lba].
  rewrite land_255, !land_63, land_3. rewrite (Z.shiftr_div_pow2 c) by lia. change (2 ^ 8) with 256.
  assert (0 ≤ c / 256 < 4) as Hc4 by (split; [apply Z.div_pos; lia|apply Z.div_lt_upper_bound; lia]).
  pose proof (Z.mod_pos_bound c 256 ltac:(lia)) as Hcm.
  rewrite (Z.mod_small (c / 256)) by lia. rewrite (wrap_small 8 (c / 256)), (wrap_small 8 (c mod 256)) by (unfold is_uint; lia).
  rewrite (Z.mod_small s) by (unfold s; lia). rewrite Z.shiftl_mul_pow2 by lia. change (2 ^ 6) with 64.
  rewrite (wrap_small 8 (c / 256 * 64)) by (unfold is_uint; lia).
  assert (Z.lor s (c / 256 * 64) = s + c / 256 * 64) as ->.
  { rewrite <- Z.add_lor_land. assert (Z.land s (c / 256 * 64) = 0) as ->; [|lia]. apply Z.bits_inj'. intros n Hn.
    change 64 with (2 ^ 6). rewrite Z.land_spec, Z.bits_0, <- Z.shiftl_mul_pow2 by lia. destruct (Z.ltb_spec n 6).
    - rewrite Z.shiftl_spec_low by lia. by rewrite andb_false_r.
    - rewrite (testbit_high 6) by (unfold is_uint, s in *; lia). done. }
  rewrite Z.shiftr_div_pow2 by lia. change (2 ^ 6) with 64. rewrite Z.div_add, Z.mod_add by lia.
  rewrite (Z.div_small s), (Z.mod_small s) by (unfold s; lia).
  f_equal. pose proof (Z.div_mod c 256 ltac:(lia)). lia.
Qed.

Lemma to_sector_ok h : header_ok h → length (to_sector h) = 512%nat ∧ Forall (is_uint 8) (to_sector h).
Proof.
  intros Hok. rewrite to_sector_app by done. destruct Hok as [[Hc Uc] _ [Hr Ur] [Hp He] _]. 
  assert (Forall (λ e, length (to_bytes e) = 16%nat ∧ Forall (is_uint 8) (to_bytes e)) (partitions h)) as Hall.
  { eapply Forall_impl; [exact He|]. intros e Hoke. split; [by apply length_to_bytes|]. pose proof Hoke as [? [? ?] ? [? ?] ? ?].
    rewrite to_bytes_app by done. rewrite !Forall_app, !Forall_singleton. split_and!; done || apply le_bytes_uint. }
  apply Forall_and in Hall as [Hl Hu]. split.
  - destruct (partitions h) as [|e1 [|e2 [|e3 [|e4 []]]]]; try done. rewrite !Forall_cons in Hl. destruct Hl as (H1&H2&H3&H4&_).
    cbn [map concat]. rewrite !length_app, Hc, Hr, H1, H2, H3, H4, !length_le_bytes. done.
  - rewrite !Forall_app. split_and!; try done; try apply le_bytes_uint. apply Forall_concat, Forall_map. done.
Qed.

(** The sector of the partition table.  Coding a header and decoding the
    sector, with whatever follows it on the disk, gives the header; every sector of
    512 bytes decodes to a header that codes to the same bytes; a shorter image is
    refused.  The compatibility address of a sector below the limit of the format
    stands for that sector. *)
Theorem mbr_roundtrip :
  (∀ h rest, header_ok h → length (to_sector h) = 512%nat ∧ from_sector (to_sector h ++ rest) = inl h) ∧
  (∀ l, length l = 512%nat → Forall (is_uint 8) l → ∃ h, from_sector l = inl h ∧ header_ok h ∧ to_sector h = l) ∧
  (∀ l, (length l < 512)%nat → from_sector l = inr InvalidMbr) ∧
  (∀ lba, 0 ≤ lba < 1023 * 255 * 63 → chs_lba (chs_encode (chs_from_lba lba)) = Some lba).
Proof.
  split_and!.
  - intros h rest Hok. split; [by apply to_sector_ok|by apply from_to_sector].
  - intros l Hl Hu. destruct (from_sector l) as [h|e] eqn:E.
    + exists h. destruct (to_from_sector l h) as [? ?]; auto.
    + unfold from_sector in E. rewrite Hl in E. done.
  - intros l Hl. unfold from_sector, SECTOR_SIZE. by rewrite (proj2 (Z.ltb_lt _ _)) by lia.
  - apply chs_encode_spec.
Qed.

(** An empty table. *)
Lemma mbr_roundtrip_witness : ∃ h, from_sector (replicate 512 0) = inl h ∧ to_sector h = replicate 512 0.
Proof.
  destruct mbr_roundtrip as (_ & H & _). destruct (H (replicate 512 0)) as (h & Hh & _ & E).
  - reflexivity.
  - apply Forall_replicate. unfold is_uint. lia.
  - by exists h.
Defined.
End Mbr.
