(* ===== verification/Pack.v ===== *)
(** * Disk images ([mbrkit/src/layout.rs], [manifest.rs], [report.rs], [commands])

    The layout of a disk from its description, the image that [pack] writes, and
    [inspect], [verify] and [extract] on an image.  Strings are lists of characters;
    the files of the host are a parameter. *)

From Stdlib Require Import String.
From S2P Require Import Prelude Text Mbr.
Open Scope Z_scope.

Module Pack.
Import Text Mbr.Mbr.

Definition Path := list Z.

(** ** Parsing of descriptions *)

Definition parse_size (value : list Z) : Res Z :=
  let trimmed := trim value in
  let '(number_text, suffix_text) := split_while is_digit trimmed in
  match number_text with
  | [] => inr InvalidSize
  | _ =>
      number ← ok_or (from_str_radix 64 10 number_text) InvalidSize;
      let suffix := to_ascii_lowercase (trim suffix_text) in
      multiplier ←
        (if bool_decide (suffix ∈ [[]; str "b"]) then inl 1
         else if bool_decide (suffix ∈ [str "k"; str "kb"]) then inl 1000
         else if bool_decide (suffix ∈ [str "m"; str "mb"]) then inl 1000000
         else if bool_decide (suffix ∈ [str "g"; str "gb"]) then inl 1000000000
         else if bool_decide (suffix = str "kib") then inl 1024
         else if bool_decide (suffix = str "mib") then inl (1024 * 1024)
         else if bool_decide (suffix = str "gib") then inl (1024 * 1024 * 1024)
         else inr InvalidSize);
      if number * multiplier <? 2 ^ 64 then inl (number * multiplier) else inr InvalidSize
  end.

Definition parse_u32_value (value : list Z) : Res Z :=
  match strip_prefix (str "0x") (trim value) with
  | Some hex => ok_or (from_str_radix 32 16 hex) InvalidArgument
  | None => ok_or (from_str_radix 32 10 (trim value)) InvalidArgument
  end.

(** The code, the canonical name and the aliases of a partition type. *)
Definition PARTITION_TYPE_DEFINITIONS : list (Z * list Z * list (list Z)) :=
  [(0, str "empty", [str "unused"]);
   (1, str "fat12", []);
   (4, str "fat16_small", [str "fat16-16m"; str "fat16_16m"]);
   (5, str "extended", [str "chs_extended"]);
   (6, str "fat16", []);
   (7, str "ntfs", [str "hpfs"; str "exfat"]);
   (11, str "fat32", []);
   (12, str "fat32_lba", [str "fat32-lba"]);
   (14, str "fat16_lba", [str "fat16-lba"]);
   (15, str "extended_lba", [str "extended-lba"; str "lba_extended"]);
   (129, str "minix", []);
   (130, str "linux_swap", [str "linux-swap"; str "swap"]);
   (131, str "linux", [str "linux_native"])].

Definition type_matches (def : Z * list Z * list (list Z)) (value : list Z) : bool :=
  bool_decide (def.1.2 = value) || bool_decide (value ∈ def.2).

Definition partition_type_parse (value : list Z) : Res Z :=
  let normalized := to_ascii_lowercase (trim value) in
  match find (λ def, type_matches def normalized) PARTITION_TYPE_DEFINITIONS with
  | Some def => inl def.1.1
  | None =>
      ok_or (match strip_prefix (str "0x") normalized with
             | Some hex => from_str_radix 8 16 hex
             | None => from_str_radix 8 10 normalized
             end) InvalidPartitionType
  end.

Definition known_name (code : Z) : option (list Z) :=
  option_map (λ def, def.1.2) (find (λ def, def.1.1 =? code) PARTITION_TYPE_DEFINITIONS).

Record PartitionSpec : Type := mkSpec {
  sp_file : Path;
  sp_type : Z;
  sp_bootable : bool;
  sp_start_lba : option Z;
  sp_size_bytes : option Z;
}.

(** What the items before give; the file is not known at first. *)
Record SpecItems : Type := mkItems {
  it_file : option Path;
  it_type : Z;
  it_bootable : bool;
  it_start_lba : option Z;
  it_size_bytes : option Z;
}.

Definition parse_item (i : SpecItems) (item : list Z) : Res SpecItems :=
  let trimmed := trim item in
  if eq_ignore_ascii_case trimmed (str "bootable")
  then inl (mkItems (it_file i) (it_type i) true (it_start_lba i) (it_size_bytes i))
  else
    kv ← ok_or (split_once 61 trimmed) InvalidPartitionSpec;
    let key := trim kv.1 in
    let value := trim kv.2 in
    if bool_decide (key = str "file")
    then inl (mkItems (Some value) (it_type i) (it_bootable i) (it_start_lba i) (it_size_bytes i))
    else if bool_decide (key = str "type") then
      t ← partition_type_parse value;
      inl (mkItems (it_file i) t (it_bootable i) (it_start_lba i) (it_size_bytes i))
    else if bool_decide (key = str "start") then
      start ← (if eq_ignore_ascii_case value (str "auto") then inl None
               else x ← ok_or (from_str_radix 64 10 value) InvalidPartitionSpec; inl (Some x));
      inl (mkItems (it_file i) (it_type i) (it_bootable i) start (it_size_bytes i))
    else if bool_decide (key = str "size") then
      size ← parse_size value;
      inl (mkItems (it_file i) (it_type i) (it_bootable i) (it_start_lba i) (Some size))
    else inr InvalidPartitionSpec.

Fixpoint parse_items (i : SpecItems) (l : list (list Z)) : Res SpecItems :=
  match l with
  | [] => inl i
  | item :: l => i ← parse_item i item; parse_items i l
  end.

(** [PartitionSpec::parse]. *)
Definition parse_spec (spec : list Z) : Res PartitionSpec :=
  i ← parse_items (mkItems None 131 false None None) (split_on 44 spec);
  file ← ok_or (it_file i) InvalidPartitionSpec;
  inl (mkSpec file (it_type i) (it_bootable i) (it_start_lba i) (it_size_bytes i)).

(** The manifest, as the TOML parser gives it. *)
Record PartitionManifest : Type := mkPartitionManifest {
  pm_file : Path;
  pm_type : option (list Z);
  pm_bootable : option bool;
  pm_start_lba : option Z;
  pm_size : option (list Z);
}.

(** [map(f).transpose()?]. *)
Definition transpose {A B} (f : A → Res B) (o : option A) : Res (option B) :=
  match o with Some a => b ← f a; inl (Some b) | None => inl None end.

Definition spec_from_manifest (p : PartitionManifest) : Res PartitionSpec :=
  t ← transpose partition_type_parse (pm_type p);
  size ← transpose parse_size (pm_size p);
  inl (mkSpec (pm_file p) (default 131 t) (default false (pm_bootable p)) (pm_start_lba p) size).

Fixpoint collect {A B} (f : A → Res B) (l : list A) : Res (list B) :=
  match l with
  | [] => inl []
  | a :: l => b ← f a; bs ← collect f l; inl (b :: bs)
  end.

(** ** Layout *)

Record PartitionLayout : Type := mkLayout {
  slot : Z;
  file : Path;
  pl_type : Z;
  bootable : bool;
  start_lba : Z;
  sector_count : Z;
  file_size : Z;
}.

Record DiskLayout : Type := mkDisk {
  output : Path;
  disk_size : Z;
  dl_signature : Z;
  dl_code : list Z;
  dl_reserved : list Z;
  align_sectors : Z;
  dl_partitions : list PartitionLayout;
}.

Abbreviation as_u64 := (wrap 64).

Definition end_lba (p : PartitionLayout) : Z := as_u64 (start_lba p + sector_count p - 1).
Definition start_offset (p : PartitionLayout) : Z := as_u64 (start_lba p * SECTOR_SIZE).
Definition byte_len (p : PartitionLayout) : Z := as_u64 (sector_count p * SECTOR_SIZE).

Definition div_ceil (x y : Z) : Z := x / y + (if x mod y =? 0 then 0 else 1).
Definition bytes_to_sectors (bytes : Z) : Z := div_ceil bytes SECTOR_SIZE.
Definition align_up (value alignment : Z) : Z := as_u64 (div_ceil value alignment * alignment).

(** [sort_by_key], which is stable. *)
Fixpoint insert_by {A} (key : A → Z) (x : A) (l : list A) : list A :=
  match l with
  | [] => [x]
  | y :: l' => if key x <=? key y then x :: l else y :: insert_by key x l'
  end.

Definition sort_by_key {A} (key : A → Z) (l : list A) : list A := foldr (insert_by key) [] l.

(** [windows(2)]. *)
Fixpoint windows {A} (l : list A) : list (A * A) :=
  match l with
  | x :: (y :: _) as l' => (x, y) :: windows l'
  | _ => []
  end.

Definition validate_partitions (l : list PartitionLayout) (disk_sectors : Z) : Res () :=
  if existsb (λ w, start_lba w.2 <=? end_lba w.1) (windows (sort_by_key start_lba l)) then inr InvalidArgument
  else if existsb (λ p, (sector_count p =? 0) || (disk_sectors <=? end_lba p)) l then inr InvalidArgument
  else inl ().

(** The files of the host. *)
Section files.
Context (files : Path → option (list Z)).

Definition metadata (p : Path) : option Z := (λ data, Z.of_nat (length data)) <$> files p.

Fixpoint place (specs : list PartitionSpec) (index next_auto_start align : Z) : Res (list PartitionLayout) :=
  match specs with
  | [] => inl []
  | spec :: specs =>
      file_size ← ok_or (metadata (sp_file spec)) Io;
      let requested_size := default file_size (sp_size_bytes spec) in
      if requested_size <? file_size then inr InvalidArgument
      else
        let sector_count := bytes_to_sectors requested_size in
        let start_lba := default next_auto_start (sp_start_lba spec) in
        if start_lba =? 0 then inr InvalidArgument
        else if 2 ^ 64 <=? start_lba + sector_count then inr InvalidArgument
        else
          rest ← place specs (index + 1) (align_up (start_lba + sector_count) align) align;
          inl (mkLayout (index + 1) (sp_file spec) (sp_type spec) (sp_bootable spec) start_lba sector_count file_size :: rest)
  end.

Definition from_parts (output : Path) (disk_size : Z) (code : list Z) (sig align : Z) (specs : list PartitionSpec) : Res DiskLayout :=
  if align =? 0 then inr InvalidArgument
  else if disk_size <? SECTOR_SIZE then inr InvalidArgument
  else if (length specs =? 0)%nat then inr InvalidArgument
  else if (4 <? length specs)%nat then inr InvalidArgument
  else
    let sector_count := disk_size / SECTOR_SIZE in
    partitions ← place specs 0 (align_up 1 align) align;
    _ ← validate_partitions partitions sector_count;
    inl (mkDisk output disk_size sig code [0; 0] align partitions).

Definition load_boot_code (path : option Path) : Res (list Z) :=
  let zero := replicate (Z.to_nat MBR_BOOTSTRAP_CODE_SIZE) 0 in
  match path with
  | None => inl zero
  | Some path =>
      data ← ok_or (files path) Io;
      if MBR_BOOTSTRAP_CODE_SIZE <? Z.of_nat (length data) then inr InvalidArgument
      else inl (splice zero 0 data)
  end.

Record PackManifest : Type := mkManifest {
  mf_output : Path;
  mf_disk_size : list Z;
  mf_boot_code : option Path;
  mf_disk_signature : option (list Z);
  mf_align_lba : option Z;
  mf_partition : list PartitionManifest;
}.

Definition from_manifest (m : PackManifest) : Res DiskLayout :=
  disk_size ← parse_size (mf_disk_size m);
  sig ← transpose parse_u32_value (mf_disk_signature m);
  code ← load_boot_code (mf_boot_code m);
  specs ← collect spec_from_manifest (mf_partition m);
  from_parts (mf_output m) disk_size code (default 0 sig) (default 2048 (mf_align_lba m)) specs.

(** The flags of [pack], without the manifest. *)
Record PackArgs : Type := mkArgs {
  pa_output : option Path;
  pa_disk_size : option (list Z);
  pa_boot_code : option Path;
  pa_disk_signature : option (list Z);
  pa_align : Z;
  pa_partition : list (list Z);
}.

(** [manifest] is the loaded manifest, if one is named. *)
Definition from_pack_args (manifest : option PackManifest) (args : PackArgs) : Res DiskLayout :=
  match manifest with
  | Some m => from_manifest m
  | None =>
      output ← ok_or (pa_output args) InvalidArgument;
      size ← ok_or (pa_disk_size args) InvalidArgument;
      disk_size ← parse_size size;
      sig ← transpose parse_u32_value (pa_disk_signature args);
      code ← load_boot_code (pa_boot_code args);
      specs ← collect parse_spec (pa_partition args);
      from_parts output disk_size code (default 0 sig) (pa_align args) specs
  end.

(** ** [pack] *)

Definition try_u32 (x : Z) : Res Z := if x <? 2 ^ 32 then inl x else inr InvalidArgument.

(** [PartitionEntry::from_layout]. *)
Definition from_layout (p : PartitionLayout) : Res PartitionEntry :=
  starting_lba ← try_u32 (start_lba p);
  sectors ← try_u32 (sector_count p);
  inl (mkEntry (if bootable p then 128 else 0) (chs_encode (chs_from_lba (start_lba p))) (pl_type p)
         (chs_encode (chs_from_lba (end_lba p))) starting_lba sectors).

Definition set_partition (slot : Z) (p : PartitionLayout) (h : MbrHeader) : Res MbrHeader :=
  if PARTITION_ENTRY_COUNT <=? slot then inr InvalidArgument
  else
    e ← from_layout p;
    inl (mkHeader (bootstrap_code h) (disk_signature h) (reserved h) (zupdate (partitions h) slot e) (signature h)).

Fixpoint set_partitions (l : list PartitionLayout) (h : MbrHeader) : Res MbrHeader :=
  match l with
  | [] => inl h
  | p :: l => h ← set_partition (slot p - 1) p h; set_partitions l h
  end.

(** A write at an offset of a file; a gap before it reads as zeros. *)
Definition write_at (image : list Z) (off : Z) (data : list Z) : list Z :=
  splice (image ++ replicate (Z.to_nat off - length image) 0) off data.

(** [copy_exact_with_padding]: the whole payload, then zeros. *)
Definition copy_exact_with_padding (payload : list Z) (target_len : Z) : Res (list Z) :=
  let copied := Z.of_nat (length payload) in
  if target_len <? copied then inr InvalidArgument
  else inl (payload ++ replicate (Z.to_nat (target_len - copied)) 0).

Fixpoint copy_payloads (l : list PartitionLayout) (image : list Z) : Res (list Z) :=
  match l with
  | [] => inl image
  | p :: l =>
      input ← ok_or (files (file p)) Io;
      data ← copy_exact_with_padding input (byte_len p);
      copy_payloads l (write_at image (start_offset p) data)
  end.

(** The image that [pack] writes; what a failed call leaves is not given. *)
Definition pack (exists_ force : bool) (layout : DiskLayout) : Res (list Z) :=
  if exists_ && negb force then inr InvalidArgument
  else
    let h := header_new (dl_code layout) (dl_signature layout) in
    let h := mkHeader (bootstrap_code h) (disk_signature h) (dl_reserved layout) (partitions h) (signature h) in
    h ← set_partitions (dl_partitions layout) h;
    copy_payloads (dl_partitions layout) (write_at (replicate (Z.to_nat (disk_size layout)) 0) 0 (to_sector h)).
End files.

(** ** [inspect], [verify], [extract] *)

Record PartitionReport : Type := mkReport {
  pr_slot : Z;
  used : bool;
  pr_bootable : bool;
  pr_type : Z;
  pr_type_name : option (list Z);
  pr_start_lba : Z;
  pr_sectors : Z;
  pr_end_lba : option Z;
  pr_start_offset : Z;
  pr_byte_len : Z;
}.

Definition build_partition_report (index : Z) (e : PartitionEntry) : PartitionReport :=
  mkReport (index + 1) (negb (is_empty e)) (is_bootable e) (partition_type e) (known_name (partition_type e))
    (starting_lba e) (sectors e) (entry_end_lba e) (starting_lba e * SECTOR_SIZE) (sectors e * SECTOR_SIZE).

Definition build_partition_reports (h : MbrHeader) : list PartitionReport :=
  zip_with build_partition_report (seqZ 0 (Z.of_nat (length (partitions h)))) (partitions h).

Record InspectReport : Type := mkInspect {
  ir_disk_size : Z;
  mbr_signature_valid : bool;
  ir_mbr : MbrHeader;
  ir_partitions : list PartitionReport;
}.

Definition inspect_disk (data : list Z) : Res InspectReport :=
  mbr ← from_sector data;
  inl (mkInspect (Z.of_nat (length data)) (has_valid_signature mbr) mbr (build_partition_reports mbr)).

Inductive DiagnosticLevel : Set := Error | Warning.

Inductive Diagnostic : Set :=
| invalid_signature
| invalid_boot_flag (slot : Z)
| out_of_bounds (slot : Z)
| unknown_partition_type (slot : Z)
| overlap (left right : Z)
| zero_disk_signature
| multiple_active_partitions.

Definition level (d : Diagnostic) : DiagnosticLevel :=
  match d with
  | unknown_partition_type _ | zero_disk_signature | multiple_active_partitions => Warning
  | _ => Error
  end.

Definition partition_diagnostics (r : InspectReport) (p : PartitionReport) : list Diagnostic :=
  let boot := match zlookup (partitions (ir_mbr r)) (pr_slot p - 1) with Some e => boot_indicator e | None => 0 end in
  (if negb (boot =? 0) && negb (boot =? 128) then [invalid_boot_flag (pr_slot p)] else []) ++
  (if ir_disk_size r <? pr_start_offset p + pr_byte_len p then [out_of_bounds (pr_slot p)] else []) ++
  (if negb (bool_decide (is_Some (pr_type_name p))) && negb (pr_type p =? 0) then [unknown_partition_type (pr_slot p)] else []).

Definition overlap_diagnostic (w : PartitionReport * PartitionReport) : list Diagnostic :=
  if (pr_start_lba w.1 <=? pr_start_lba w.2) && (pr_start_lba w.2 <=? default 0 (pr_end_lba w.1))
  then [overlap (pr_slot w.1) (pr_slot w.2)] else [].

Definition diagnostics (strict : bool) (r : InspectReport) : list Diagnostic :=
  let used_ := sort_by_key pr_start_lba (filter (λ p, used p = true) (ir_partitions r)) in
  (if mbr_signature_valid r then [] else [invalid_signature]) ++
  flat_map (partition_diagnostics r) used_ ++
  flat_map overlap_diagnostic (windows used_) ++
  (if strict && (disk_signature (ir_mbr r) =? 0) then [zero_disk_signature] else []) ++
  (if strict && (1 <? length (filter (λ p, pr_bootable p = true) used_))%nat then [multiple_active_partitions] else []).

Definition verify_disk (strict : bool) (data : list Z) : Res (bool * list Diagnostic) :=
  r ← inspect_disk data;
  let ds := diagnostics strict r in
  inl (forallb (λ d, match level d with Error => false | Warning => negb strict end) ds, ds).

(** The bytes of a partition, by its number from 1. *)
Definition extract (partition : Z) (exists_ force : bool) (data : list Z) : Res (list Z) :=
  if (partition =? 0) || (4 <? partition) then inr InvalidArgument
  else if exists_ && negb force then inr InvalidArgument
  else
    report ← inspect_disk data;
    p ← ok_or (find (λ p, pr_slot p =? partition) (ir_partitions report)) InvalidArgument;
    if negb (used p) then inr InvalidArgument
    else if 2 ^ 64 <=? pr_start_offset p + pr_byte_len p then inr InvalidArgument
    else if Z.of_nat (length data) <? pr_start_offset p + pr_byte_len p then inr InvalidArgument
    else inl (slice data (pr_start_offset p) (pr_byte_len p)).

(** ** Placement *)

(** The fields have the ranges of their types. *)
Record spec_ok (s : PartitionSpec) : Prop := {
  so_type : is_uint 8 (sp_type s);
  so_start : ∀ x, sp_start_lba s = Some x → is_uint 64 x;
  so_size : ∀ x, sp_size_bytes s = Some x → is_uint 64 x;
}.

Section layout.
Context (files : Path → option (list Z)).

(** A partition in slot [n] has sectors for its payload, and none is beyond the
    64-bit range. *)
Record placed (n : Z) (p : PartitionLayout) : Prop := {
  pl_slot : slot p = n;
  pl_start : 1 ≤ start_lba p;
  pl_count : 0 ≤ sector_count p;
  pl_range : start_lba p + sector_count p < 2 ^ 64;
  pl_uint : is_uint 8 (pl_type p);
  pl_payload : ∃ data, files (file p) = Some data ∧ Z.of_nat (length data) ≤ sector_count p * SECTOR_SIZE;
}.

Lemma div_ceil_spec x y : 0 ≤ x → 0 < y → 0 ≤ div_ceil x y ∧ x ≤ div_ceil x y * y.
Proof.
  intros Hx Hy. unfold div_ceil. pose proof (Z.div_mod x y ltac:(lia)). pose proof (Z.mod_pos_bound x y Hy).
  pose proof (Z.div_pos x y Hx Hy). destruct (Z.eqb_spec (x mod y) 0); nia.
Qed.

Lemma bind_inl {A B} (m : Res A) (f : A → Res B) b : m ≫= f = inl b → ∃ a, m = inl a ∧ f a = inl b.
Proof. destruct m as [a|e]; [by exists a|done]. Qed.

Lemma ok_or_inl {A} (o : option A) e a : ok_or o e = inl a → o = Some a.
Proof. destruct o; simpl; congruence. Qed.

Lemma place_spec specs : ∀ index next align l, 0 ≤ next → Forall spec_ok specs →
  place files specs index next align = inl l → length l = length specs ∧ ∀ k p, l !! k = Some p → placed (index + Z.of_nat k + 1) p.
Proof.
  induction specs as [|spec specs IH]; intros index next align l Hnext Hok H; [by injection H as <-|].
  inversion_clear Hok as [|? ? Hs Hok']. cbn [place] in H. apply bind_inl in H as (fsz & Hf%ok_or_inl & H).
  unfold metadata in Hf. destruct (files (sp_file spec)) as [data|] eqn:Efile; [|done]. injection Hf as <-.
  set (req := default _ (sp_size_bytes spec)) in H. destruct (Z.ltb_spec req (Z.of_nat (length data))) as [|Hreq]; [done|].
  set (st := default next (sp_start_lba spec)) in H. cbv zeta in H. destruct (Z.eqb_spec st 0) as [|Hst]; [done|].
  destruct (Z.leb_spec (2 ^ 64) (st + bytes_to_sectors req)) as [|Hrange]; [done|].
  apply bind_inl in H as (rest & Hrest & [= <-]).
  assert (0 ≤ st) as Hst0.
  { unfold st. destruct (sp_start_lba spec) as [x|] eqn:E; [|done]. apply (so_start _ Hs) in E. unfold is_uint in E. simpl. lia. }
  destruct (div_ceil_spec req SECTOR_SIZE) as [Hc1 Hc2]; [lia|done|].
  apply IH in Hrest as [Hlen Hall]; [|apply wrap_bound; lia|done]. split; [simpl; lia|].
  intros [|k] p Hp.
  - injection Hp as <-. split; simpl; try lia; [done|apply Hs|]. exists data. split; [done|]. unfold bytes_to_sectors. lia.
  - replace (index + Z.of_nat (S k) + 1) with (index + 1 + Z.of_nat k + 1) by lia. by apply Hall.
Qed.

(** *** What validation accepts *)

Lemma elem_of_insert_by {A} (key : A → Z) x y l : y ∈ insert_by key x l ↔ y = x ∨ y ∈ l.
Proof.
  induction l as [|z l IH]; simpl; [by rewrite list_elem_of_singleton, elem_of_nil; naive_solver|].
  case_match; rewrite !elem_of_cons; [done|]. rewrite IH. tauto.
Qed.

Lemma elem_of_sort {A} (key : A → Z) y l : y ∈ sort_by_key key l ↔ y ∈ l.
Proof. induction l as [|x l IH]; simpl; [done|]. by rewrite elem_of_insert_by, IH, elem_of_cons. Qed.

Lemma NoDup_sort {A} (key : A → Z) l : NoDup l → NoDup (sort_by_key key l).
Proof.
  assert (∀ x l', x ∉ l' → NoDup l' → NoDup (insert_by key x l')) as Hins.
  { intros x l'. induction l' as [|z l' IH]; intros Hx Hn; simpl; [by apply NoDup_singleton|]. case_match; [by constructor|].
    apply NoDup_cons in Hn as [Hz Hn]. apply not_elem_of_cons in Hx as [Hxz Hx]. constructor; [|by apply IH].
    rewrite elem_of_insert_by. intros [?|?]; congruence. }
  induction 1 as [|x l Hx Hn IH]; simpl; [constructor|]. apply Hins; [|done]. by rewrite elem_of_sort.
Qed.

Lemma elem_of_windows {A} (l : list A) a b : (a, b) ∈ windows l → NoDup l → a ∈ l ∧ b ∈ l ∧ a ≠ b.
Proof.
  induction l as [|x [|y l] IH]; cbn [windows]; [by intros ?%elem_of_nil..|]. intros [[= -> ->]|H]%elem_of_cons Hn.
  - apply NoDup_cons in Hn as [Hx _]. rewrite !elem_of_cons in *. split; [by left|]. split; [by right; left|]. intros ->. tauto.
  - apply NoDup_cons in Hn as [_ Hn]. destruct (IH H Hn) as (? & ? & ?). split_and!; [by right..|done].
Qed.

Definition before (a b : PartitionLayout) : Prop := start_lba a + sector_count a ≤ start_lba b.

Lemma windows_before l : Forall (λ p, 0 < sector_count p) l → (∀ a b, (a, b) ∈ windows l → before a b) →
  ∀ a b, a ∈ l → b ∈ l → a = b ∨ before a b ∨ before b a.
Proof.
  intros Hpos Hw. assert (∀ x l', Forall (λ p, 0 < sector_count p) (x :: l') → (∀ a b, (a, b) ∈ windows (x :: l') → before a b) → ∀ b, b ∈ l' → before x b) as Hhead.
  { clear. intros x l'. revert x. induction l' as [|y l' IH]; intros x Hpos Hw b Hb; [by apply elem_of_nil in Hb|].
    assert (before x y) as Hxy by (apply Hw; by left). apply elem_of_cons in Hb as [->|Hb]; [done|].
    inversion_clear Hpos as [|? ? Hx Hpos']. assert (before y b) as Hyb.
    { apply IH; [done| |done]. intros c d Hcd. apply Hw. by right. }
    inversion_clear Hpos' as [|? ? Hy _]. unfold before in *. lia. }
  induction l as [|x l IH]; intros a b Ha Hb; [by apply elem_of_nil in Ha|].
  apply elem_of_cons in Ha as [->|Ha], Hb as [->|Hb]; [by left|right; left; by eapply Hhead|right; right; by eapply Hhead|].
  inversion_clear Hpos. apply IH; [done| |done|done]. intros c d Hcd. apply Hw. destruct l; [by apply elem_of_nil in Hcd|by right].
Qed.

Lemma end_lba_placed n p : placed n p → end_lba p = start_lba p + sector_count p - 1.
Proof. intros [_ H1 H2 H3 _ _]. apply wrap_small. unfold is_uint. lia. Qed.

Lemma validate_spec l n : (∀ p, p ∈ l → placed (slot p) p) → validate_partitions l n = inl () →
  (∀ p, p ∈ l → 0 < sector_count p ∧ start_lba p + sector_count p ≤ n) ∧
  (∀ a b, a ∈ l → b ∈ l → slot a ≠ slot b → before a b ∨ before b a).
Proof.
  intros Hpl. unfold validate_partitions. destruct (existsb _ (windows _)) eqn:Ew; [done|]. destruct (existsb _ l) eqn:El; [done|]. intros _.
  assert (∀ p, p ∈ l → 0 < sector_count p ∧ start_lba p + sector_count p ≤ n) as Hall.
  { intros p Hp. rewrite <- not_true_iff_false, existsb_exists in El. pose proof (Hpl p Hp) as Hok.
    pose proof (end_lba_placed _ _ Hok) as He. pose proof (pl_count _ _ Hok).
    assert (sector_count p ≠ 0 ∧ end_lba p < n) as [? ?]; [|lia].
    apply Decidable.not_not; [unfold Decidable.decidable; lia|]. intros Hn. apply El. exists p. split; [by apply list_elem_of_In|].
    apply orb_true_iff. rewrite Z.eqb_eq, Z.leb_le. lia. }
  split; [done|]. intros a b Ha Hb Hne. destruct (windows_before (sort_by_key start_lba l)) with (a := a) (b := b) as [->|?]; try done.
  - apply Forall_forall. intros p Hp%elem_of_sort. by apply Hall.
  - intros c d Hcd. rewrite <- not_true_iff_false, existsb_exists in Ew. apply Decidable.not_not; [unfold before, Decidable.decidable; lia|].
    intros Hn. apply Ew. exists (c, d). split; [by apply list_elem_of_In|]. simpl. apply Z.leb_le.
    assert (c ∈ l) as Hc. { apply (elem_of_sort start_lba). revert Hcd. clear. generalize (sort_by_key start_lba l). intros m.
      induction m as [|x [|y m] IH]; cbn [windows]; [by intros ?%elem_of_nil..|]. intros [[= -> ->]|H]%elem_of_cons; [by left|right; by apply IH]. }
    rewrite (end_lba_placed _ _ (Hpl c Hc)). unfold before in Hn. lia.
  - by apply elem_of_sort.
  - by apply elem_of_sort.
Qed.
(** ** The image *)

Lemma write_at_inside image off data : 0 ≤ off → off + Z.of_nat (length data) ≤ Z.of_nat (length image) →
  write_at image off data = splice image off data.
Proof. intros. unfold write_at. replace (Z.to_nat off - length image)%nat with 0%nat by lia. by rewrite app_nil_r. Qed.

Lemma slice_splice_apart {A} (l : list A) off src off' n : 0 ≤ off → off + Z.of_nat (length src) ≤ Z.of_nat (length l) → 0 ≤ off' → 0 ≤ n →
  off' + n ≤ Z.of_nat (length l) → off' + n ≤ off ∨ off + Z.of_nat (length src) ≤ off' → slice (splice l off src) off' n = slice l off' n.
Proof.
  intros. apply list_eq. intros i. destruct (decide (i < Z.to_nat n)%nat).
  - rewrite !slice_lookup, splice_lookup by lia. by rewrite decide_False by lia.
  - rewrite !lookup_ge_None_2; [done| |]; unfold slice; rewrite length_take; lia.
Qed.

(** What the image has in the place of a partition. *)
Definition content (p : PartitionLayout) (data : list Z) : list Z :=
  data ++ replicate (Z.to_nat (sector_count p * SECTOR_SIZE - Z.of_nat (length data))) 0.

Record fits (size : Z) (p : PartitionLayout) : Prop := {
  ft_placed : placed (slot p) p;
  ft_count : 0 < sector_count p;
  ft_end : (start_lba p + sector_count p) * SECTOR_SIZE ≤ size;
  ft_size : size < 2 ^ 64;
}.

Lemma fits_offsets size p : fits size p → start_offset p = start_lba p * SECTOR_SIZE ∧ byte_len p = sector_count p * SECTOR_SIZE.
Proof.
  intros [[] ? ? ?]. unfold start_offset, byte_len. unfold SECTOR_SIZE in *. split; apply wrap_small; unfold is_uint; nia.
Qed.

Lemma copy_payloads_spec size l : ∀ image, Z.of_nat (length image) = size → Forall (fits size) l →
  (∀ a b, a ∈ l → b ∈ l → slot a ≠ slot b → before a b ∨ before b a) → NoDup (map slot l) →
  ∃ image', copy_payloads files l image = inl image' ∧ length image' = length image ∧
    (∀ p, p ∈ l → ∃ data, files (file p) = Some data ∧ slice image' (start_lba p * SECTOR_SIZE) (sector_count p * SECTOR_SIZE) = content p data) ∧
    (∀ off n, 0 ≤ off → 0 ≤ n → off + n ≤ size →
       (∀ p, p ∈ l → off + n ≤ start_lba p * SECTOR_SIZE ∨ (start_lba p + sector_count p) * SECTOR_SIZE ≤ off) →
       slice image' off n = slice image off n).
Proof.
  induction l as [|p l IH]; intros image Hlen Hfit Hdis Hnd; [exists image; split_and!; [done..|by intros ? ?%elem_of_nil|done]|].
  inversion_clear Hfit as [|? ? Hp Hfit']. destruct (fits_offsets _ _ Hp) as [Eo El].
  pose proof Hp as [[_ Hst Hc _ _ (data & Hf & Hdl)] Hpos Hend Hsz]. cbn [copy_payloads]. rewrite Hf. cbn [ok_or mbind res_bind].
  unfold copy_exact_with_padding. rewrite El, (proj2 (Z.ltb_ge _ _)) by lia. cbn [mbind res_bind]. rewrite Eo. fold (content p data).
  assert (Z.of_nat (length (content p data)) = sector_count p * SECTOR_SIZE) as Hcl by (unfold content; rewrite length_app, length_replicate; lia).
  unfold SECTOR_SIZE in *. rewrite write_at_inside by lia. set (image1 := splice image _ _).
  assert (length image1 = length image) as Hl1 by (apply length_splice; lia).
  cbn [map] in Hnd. apply NoDup_cons in Hnd as [Hsp Hnd].
  destruct (IH image1) as (image' & Hrun & Hl' & Hall & Hoth); [by rewrite Hl1|done|intros; apply Hdis; by try right|done|].
  assert (∀ q, q ∈ l → start_lba p * 512 + sector_count p * 512 ≤ start_lba q * 512 ∨ (start_lba q + sector_count q) * 512 ≤ start_lba p * 512) as Hq.
  { intros q Hq. destruct (Hdis p q) as [H|H]; [by left|by right| |unfold before in H; lia..].
    intros E. apply Hsp. apply list_elem_of_In, in_map_iff. exists q. split; [done|by apply list_elem_of_In]. }
  exists image'. split_and!; [done|congruence| |].
  - intros q [->|Hql]%elem_of_cons; [|by apply Hall]. exists data. split; [done|].
    rewrite Hoth by (done || lia). unfold image1. rewrite <- Hcl. apply splice_slice; lia.
  - intros off n Ho Hn Hon Hap. rewrite Hoth; [|done..|intros q Hql; apply Hap; by right].
    apply slice_splice_apart; try lia. destruct (Hap p); [by left|lia..].
Qed.

(** ** The table *)

Lemma chs_encode_ok lba : 0 ≤ lba → length (chs_encode (chs_from_lba lba)) = 3%nat ∧ Forall (is_uint 8) (chs_encode (chs_from_lba lba)).
Proof.
  intros Hl. split; [done|]. assert (is_uint 8 (head (chs_from_lba lba))) as Hh.
  { unfold chs_from_lba. cbv zeta. case_match; simpl; [done|]. by apply wrap_bound. }
  unfold chs_encode. cbv zeta. apply Forall_cons_2; [done|]. apply Forall_cons_2; [|apply Forall_singleton; by apply wrap_bound].
  apply lor_uint; [done| |by apply wrap_bound].
  rewrite land_63. unfold is_uint. pose proof (Z.mod_pos_bound (sector (chs_from_lba lba)) 64). lia.
Qed.

Lemma from_layout_spec n p : placed n p →
  match from_layout p with
  | inl e => entry_ok e ∧ starting_lba e = start_lba p ∧ sectors e = sector_count p ∧ partition_type e = pl_type p ∧
      (boot_indicator e = 0 ∨ boot_indicator e = 128)
  | inr err => err = InvalidArgument ∧ (2 ^ 32 ≤ start_lba p ∨ 2 ^ 32 ≤ sector_count p)
  end.
Proof.
  intros Hp. pose proof (end_lba_placed _ _ Hp) as He. destruct Hp as [_ H1 H2 H3 H4 _]. unfold from_layout, try_u32.
  destruct (Z.ltb_spec (start_lba p) (2 ^ 32)) as [Hs|Hs]; simpl; [|auto].
  destruct (Z.ltb_spec (sector_count p) (2 ^ 32)) as [Hc|Hc]; simpl; [|auto].
  split; [|by destruct (bootable p); auto]. split; simpl; try (unfold is_uint; lia).
  - by destruct (bootable p).
  - apply chs_encode_ok. lia.
  - done.
  - apply chs_encode_ok. rewrite He. lia.
Qed.

Definition with_entries (h : MbrHeader) (l : list PartitionEntry) : MbrHeader :=
  mkHeader (bootstrap_code h) (disk_signature h) (reserved h) l (signature h).

(** The entries of [l] take the slots after the first [pre]. *)
Lemma set_partitions_spec l : ∀ pre h post, partitions h = pre ++ post → (length l ≤ length post)%nat → (length pre + length post = 4)%nat →
  (∀ k p, l !! k = Some p → placed (Z.of_nat (length pre + k) + 1) p) →
  match set_partitions l h with
  | inl h' => ∃ es, Forall2 (λ p e, from_layout p = inl e) l es ∧ h' = with_entries h (pre ++ es ++ drop (length l) post)
  | inr err => err = InvalidArgument ∧ ∃ p, p ∈ l ∧ (2 ^ 32 ≤ start_lba p ∨ 2 ^ 32 ≤ sector_count p)
  end.
Proof.
  induction l as [|p l IH]; intros pre h post Hh Hlen H4 Hpl; cbn [set_partitions].
  { exists []. split; [constructor|]. simpl. rewrite drop_0, <- Hh. by destruct h. }
  destruct post as [|e0 post]; [simpl in Hlen; lia|]. simpl in Hlen, H4.
  pose proof (Hpl 0%nat p eq_refl) as Hp. rewrite Nat.add_0_r in Hp. unfold set_partition. rewrite (pl_slot _ _ Hp).
  replace (Z.of_nat (length pre) + 1 - 1) with (Z.of_nat (length pre)) by lia.
  rewrite (proj2 (Z.leb_gt _ _)) by (unfold PARTITION_ENTRY_COUNT; lia).
  pose proof (from_layout_spec _ _ Hp) as Hs. destruct (from_layout p) as [e|err] eqn:Ee; cbn [mbind res_bind].
  2:{ destruct Hs as [-> ?]. split; [done|]. exists p. split; [by left|done]. }
  assert (zupdate (partitions h) (Z.of_nat (length pre)) e = (pre ++ [e]) ++ post) as ->.
  { rewrite Hh. unfold zupdate. rewrite (proj2 (Z.leb_le _ _)), Nat2Z.id by lia. rewrite <- (Nat.add_0_r (length pre)), insert_app_r. simpl. by rewrite <- app_assoc. }
  set (h1 := mkHeader _ _ _ _ _). specialize (IH (pre ++ [e]) h1 post eq_refl).
  assert (∀ k q, l !! k = Some q → placed (Z.of_nat (length (pre ++ [e]) + k) + 1) q) as Hpl'.
  { intros k q Hq. specialize (Hpl (S k) q Hq). rewrite length_app. simpl. by replace (length pre + 1 + k)%nat with (length pre + S k)%nat by lia. }
  destruct (set_partitions l h1) as [h'|err] eqn:Er.
  - destruct IH as (es & Hes & ->); [lia|rewrite length_app; simpl; lia|done|]. exists (e :: es). split; [by constructor|].
    unfold with_entries, h1. simpl. by rewrite <- app_assoc.
  - destruct IH as (-> & q & Hq & ?); [lia|rewrite length_app; simpl; lia|done|]. split; [done|]. exists q. split; [by right|done].
Qed.
(** ** Reading the image back *)

Definition same_place (r : PartitionReport) (p : PartitionLayout) : Prop :=
  pr_slot r = slot p ∧ pr_start_lba r = start_lba p ∧ pr_sectors r = sector_count p ∧
  pr_start_offset r = start_lba p * SECTOR_SIZE ∧ pr_byte_len r = sector_count p * SECTOR_SIZE ∧
  pr_end_lba r = Some (start_lba p + sector_count p - 1).

Section image.
Context (size : Z) (l : list PartitionLayout) (es : list PartitionEntry) (h : MbrHeader).
Context (Hfits : Forall (fits size) l) (Hslots : ∀ k p, l !! k = Some p → slot p = Z.of_nat k + 1).
Context (Hdis : ∀ a b, a ∈ l → b ∈ l → slot a ≠ slot b → before a b ∨ before b a).
Context (Hlen : (length l ≤ 4)%nat) (Hes : Forall2 (λ p e, from_layout p = inl e) l es).
Context (Hh : partitions h = es ++ drop (length l) (replicate 4 entry_default)).

Lemma entry_of k p : l !! k = Some p → ∃ e, partitions h !! k = Some e ∧ entry_ok e ∧ starting_lba e = start_lba p ∧
  sectors e = sector_count p ∧ (boot_indicator e = 0 ∨ boot_indicator e = 128).
Proof using Hfits Hes Hh.
  intros Hp. destruct (Forall2_lookup_l _ _ _ _ _ Hes Hp) as (e & He & Hpe). exists e.
  rewrite Hh, lookup_app_l by (by eapply lookup_lt_Some). split; [done|].
  rewrite Forall_forall in Hfits. pose proof (Hfits p (list_elem_of_lookup_2 _ _ _ Hp)) as [Hpl _ _ _].
  pose proof (from_layout_spec _ _ Hpl) as Hs. rewrite Hpe in Hs. naive_solver.
Qed.

Lemma report_of k p : l !! k = Some p → ∃ r, build_partition_reports h !! k = Some r ∧ same_place r p ∧ used r = true.
Proof using Hfits Hslots Hlen Hes Hh.
  intros Hp. destruct (entry_of k p Hp) as (e & He & _ & E1 & E2 & _). pose proof (lookup_lt_Some _ _ _ He) as Hk.
  exists (build_partition_report (Z.of_nat k) e). rewrite Forall_forall in Hfits. pose proof (Hfits p (list_elem_of_lookup_2 _ _ _ Hp)) as [Hpl Hpos _ _].
  pose proof (pl_start _ _ Hpl). split; [|split].
  - unfold build_partition_reports. rewrite lookup_zip_with. rewrite lookup_seqZ_lt by lia. simpl. by rewrite He, Z.add_0_l.
  - unfold same_place, build_partition_report, entry_end_lba. cbn [pr_slot pr_start_lba pr_sectors pr_start_offset pr_byte_len pr_end_lba].
    rewrite E1, E2, (Hslots k p Hp). rewrite (proj2 (Z.eqb_neq _ _)) by lia. done.
  - unfold build_partition_report, is_empty. cbn [used]. rewrite E1. rewrite (proj2 (Z.eqb_neq (start_lba p) 0)) by lia. by rewrite andb_false_r.
Qed.

Lemma used_report r : r ∈ build_partition_reports h → used r = true →
  ∃ p, p ∈ l ∧ same_place r p ∧ match zlookup (partitions h) (pr_slot r - 1) with Some e => boot_indicator e = 0 ∨ boot_indicator e = 128 | None => False end.
Proof using Hfits Hslots Hlen Hes Hh.
  intros [k Hr]%list_elem_of_lookup_1 Hu. destruct (decide (k < length l)%nat) as [Hk|Hk].
  - apply lookup_lt_is_Some_2 in Hk as [p Hp]. destruct (report_of k p Hp) as (r' & Hr' & Hsp & _).
    rewrite Hr in Hr'. injection Hr' as <-. exists p. split; [by eapply list_elem_of_lookup_2|]. split; [done|].
    destruct Hsp as [-> _]. rewrite (Hslots k p Hp). destruct (entry_of k p Hp) as (e & He & _ & _ & _ & Hb).
    unfold zlookup. replace (Z.of_nat k + 1 - 1) with (Z.of_nat k) by lia. rewrite (proj2 (Z.leb_le _ _)), Nat2Z.id, He by lia. done.
  - unfold build_partition_reports in Hr. rewrite lookup_zip_with in Hr.
    apply bind_Some in Hr as (i & _ & (e & He & [= <-])%bind_Some). exfalso.
    assert (e = entry_default) as ->; [|done]. rewrite Hh, lookup_app_r in He by (rewrite <- (Forall2_length _ _ _ Hes); lia).
    rewrite lookup_drop in He. by apply lookup_replicate in He as [-> _].
Qed.

Lemma reports_nodup : NoDup (build_partition_reports h).
Proof.
  apply (NoDup_fmap_1 pr_slot). unfold build_partition_reports. rewrite <- (Nat2Z.id (length (partitions h))) at 1.
  assert (∀ m (q : list PartitionEntry), pr_slot <$> zip_with build_partition_report (seqZ m (Z.of_nat (length q))) q = seqZ (m + 1) (Z.of_nat (length q))) as E.
  { intros m q. revert m. induction q as [|e q IH]; intros m; [done|]. cbn [length].
    rewrite Nat2Z.inj_succ, (seqZ_cons m), (seqZ_cons (m + 1) (Z.succ (Z.of_nat (length q)))), !Z.pred_succ by lia. replace (Z.succ (m + 1)) with (Z.succ m + 1) by lia.
    change (m + 1 :: (pr_slot <$> zip_with build_partition_report (seqZ (Z.succ m) (Z.of_nat (length q))) q) =
      m + 1 :: seqZ (Z.succ m + 1) (Z.of_nat (length q))). by rewrite IH. }
  rewrite Nat2Z.id, E. apply NoDup_seqZ.
Qed.

Lemma verify_ok data ds : from_sector data = inl h → has_valid_signature h = true → Z.of_nat (length data) = size →
  ds = diagnostics false (mkInspect size true h (build_partition_reports h)) → verify_disk false data = inl (true, ds).
Proof using Hfits Hslots Hdis Hlen Hes Hh.
  intros Hsec Hsig Hsz ->. unfold verify_disk, inspect_disk. rewrite Hsec. cbn [mbind res_bind]. rewrite Hsig, Hsz.
  set (r := mkInspect _ _ _ _). f_equal. f_equal. apply forallb_forall. intros d Hd%list_elem_of_In.
  assert (level d = Warning) as ->; [|done]. unfold diagnostics in Hd. cbn [mbr_signature_valid r ir_partitions] in Hd.
  set (us := sort_by_key _ _) in Hd. rewrite !andb_false_l, !app_nil_r in Hd. simpl app in Hd.
  assert (∀ x, x ∈ us → ∃ p, p ∈ l ∧ same_place x p ∧
    match zlookup (partitions h) (pr_slot x - 1) with Some e => boot_indicator e = 0 ∨ boot_indicator e = 128 | None => False end) as Hus.
  { intros x Hx. apply elem_of_sort, list_elem_of_filter in Hx as [Hu Hx]. by apply used_report. }
  apply elem_of_app in Hd as [Hd|Hd]; apply list_elem_of_In, in_flat_map in Hd as (x & Hx%list_elem_of_In & Hd%list_elem_of_In).
  - destruct (Hus x Hx) as (p & Hp & (_ & _ & _ & E1 & E2 & _) & Hb). unfold partition_diagnostics in Hd. cbn [r ir_mbr ir_disk_size] in Hd.
    rewrite Forall_forall in Hfits. destruct (Hfits p Hp) as [_ _ Hend _].
    destruct (zlookup (partitions h) (pr_slot x - 1)) as [e|]; [|done]. rewrite !elem_of_app in Hd. destruct Hd as [Hd|[Hd|Hd]].
    + destruct Hb as [Hb|Hb]; rewrite Hb in Hd; by apply elem_of_nil in Hd.
    + rewrite E1, E2, (proj2 (Z.ltb_ge _ _)) in Hd by (unfold SECTOR_SIZE in *; lia). by apply elem_of_nil in Hd.
    + case_match; [|by apply elem_of_nil in Hd]. by apply list_elem_of_singleton in Hd as ->.
  - exfalso. destruct x as [a b]. unfold overlap_diagnostic in Hd. cbn [fst snd] in Hd.
    assert (NoDup us) as Hnd by (apply NoDup_sort, NoDup_filter, reports_nodup).
    destruct (elem_of_windows _ _ _ Hx Hnd) as (Ha & Hb & Hab).
    apply elem_of_sort, list_elem_of_filter in Ha as [Hua Ha]. apply elem_of_sort, list_elem_of_filter in Hb as [Hub Hb].
    destruct (used_report a Ha Hua) as (p & Hp & (S1 & E1 & _ & _ & _ & E3) & _).
    destruct (used_report b Hb Hub) as (q & Hq & (S2 & E2 & _ & _ & _ & _) & _).
    rewrite Forall_forall in Hfits. pose proof (ft_count _ _ (Hfits p Hp)). pose proof (ft_count _ _ (Hfits q Hq)).
    rewrite E1, E2, E3 in Hd. cbn [default from_option Datatypes.id] in Hd.
    destruct (_ && _) eqn:Ec in Hd; [|by apply elem_of_nil in Hd]. apply andb_true_iff in Ec as [H1%Z.leb_le H2%Z.leb_le].
    destruct (decide (slot p = slot q)) as [E|Hne]; [|destruct (Hdis p q Hp Hq Hne) as [?|?]; unfold before in *; lia].
    apply Hab. apply list_elem_of_lookup_1 in Ha as [i Hi], Hb as [j Hj].
    assert (i = j) as ->; [|congruence]. unfold build_partition_reports in Hi, Hj. rewrite lookup_zip_with in Hi, Hj.
    apply bind_Some in Hi as (x & Hx' & (? & _ & [= <-])%bind_Some). apply bind_Some in Hj as (y & Hy' & (? & _ & [= <-])%bind_Some).
    apply lookup_seqZ in Hx' as [-> _], Hy' as [-> _]. simpl in S1, S2. lia.
Qed.

Lemma extract_ok data k p : from_sector data = inl h → Z.of_nat (length data) = size → l !! k = Some p →
  extract (slot p) false false data = inl (slice data (start_lba p * SECTOR_SIZE) (sector_count p * SECTOR_SIZE)).
Proof using Hfits Hslots Hes Hh Hlen.
  intros Hsec Hsz Hp. pose proof (lookup_lt_Some _ _ _ Hp) as Hk. pose proof (Hslots k p Hp) as Hs.
  destruct (report_of k p Hp) as (r & Hr & (S1 & _ & _ & E1 & E2 & _) & Hu).
  rewrite Forall_forall in Hfits. destruct (Hfits p (list_elem_of_lookup_2 _ _ _ Hp)) as [Hpl Hpos Hend Hsize].
  unfold extract. rewrite (proj2 (Z.eqb_neq _ _)), (proj2 (Z.ltb_ge _ _)) by lia. cbn [orb andb negb]. unfold inspect_disk. rewrite Hsec. cbn [mbind res_bind ir_partitions].
  assert (find (λ q, pr_slot q =? slot p) (build_partition_reports h) = Some r) as ->.
  { destruct (find _ _) as [r'|] eqn:Ef.
    - apply find_some in Ef as [Hin Heq]. apply Z.eqb_eq in Heq. apply list_elem_of_In, list_elem_of_lookup_1 in Hin as [j Hj].
      assert (j = k) as ->; [|congruence]. unfold build_partition_reports in Hj, Hr. rewrite lookup_zip_with in Hj, Hr.
      apply bind_Some in Hj as (x & Hx & (? & _ & [= <-])%bind_Some). apply lookup_seqZ in Hx as [-> _]. simpl in Heq. lia.
    - exfalso. assert ((pr_slot r =? slot p) = false) as Ene; [|by apply Z.eqb_neq in Ene].
      apply (find_none _ _ Ef). apply list_elem_of_In. by eapply list_elem_of_lookup_2. }
  cbn [ok_or mbind res_bind]. rewrite Hu. cbn [negb]. rewrite E1, E2.
  rewrite (proj2 (Z.leb_gt _ _)), (proj2 (Z.ltb_ge _ _)) by (unfold SECTOR_SIZE in *; lia). done.
Qed.
End image.

(** What [from_parts] accepts. *)
Lemma from_parts_spec out size code sig align specs layout :
  from_parts files out size code sig align specs = inl layout → is_uint 64 size → 0 ≤ align → Forall spec_ok specs →
  let l := dl_partitions layout in
  layout = mkDisk out size sig code [0; 0] align l ∧ SECTOR_SIZE ≤ size ∧ (0 < length l ≤ 4)%nat ∧ Forall (fits size) l ∧
  (∀ k p, l !! k = Some p → placed (Z.of_nat k + 1) p) ∧
  (∀ a b, a ∈ l → b ∈ l → slot a ≠ slot b → before a b ∨ before b a).
Proof.
  unfold from_parts. intros H Hsz Hal Hok. destruct (align =? 0); [done|]. destruct (Z.ltb_spec size SECTOR_SIZE) as [|Hmin]; [done|].
  destruct (Nat.eqb_spec (length specs) 0) as [|Hne]; [done|]. destruct (Nat.ltb_spec 4 (length specs)) as [|H4]; [done|].
  apply bind_inl in H as (l & Hl & H). apply bind_inl in H as ([] & Hv & [= <-]). cbn [dl_partitions].
  apply place_spec in Hl as [Hlen Hpl]; [|by apply wrap_bound|done].
  assert (∀ k p, l !! k = Some p → placed (Z.of_nat k + 1) p) as Hslot by (intros; by apply (Hpl k)).
  assert (∀ p, p ∈ l → placed (slot p) p) as Hin.
  { intros p [k Hk]%list_elem_of_lookup_1. pose proof (Hslot k p Hk) as Hp. by rewrite (pl_slot _ _ Hp). }
  destruct (validate_spec _ _ Hin Hv) as [Hall Hdis]. split_and!; [done|done|lia|lia| |done|done].
  apply Forall_forall. intros p Hp. destruct (Hall p Hp) as [? He]. split; [by apply Hin|done| |apply Hsz].
  unfold SECTOR_SIZE in *. pose proof (Z.mul_div_le size 512 ltac:(lia)). nia.
Qed.

Lemma entry_default_ok : entry_ok entry_default.
Proof. split; simpl; try (split; [done|]); repeat apply Forall_cons_2; try apply Forall_nil_2; done. Qed.

Lemma slots_nodup (l : list PartitionLayout) n : (∀ k p, l !! k = Some p → slot p = n + Z.of_nat k) → NoDup (map slot l).
Proof.
  revert n. induction l as [|p l IH]; intros n H; [constructor|]. cbn [map]. constructor.
  - rewrite list_elem_of_In, in_map_iff. intros (q & E & Hq). apply list_elem_of_In, list_elem_of_lookup_1 in Hq as [k Hk].
    pose proof (H 0%nat p eq_refl). specialize (H (S k) q Hk). lia.
  - apply (IH (n + 1)). intros k q Hq. rewrite (H (S k) q Hq). lia.
Qed.

(** C39: Images.  A description that is accepted has at most four partitions, each
    with sectors for its payload, none over the table or the end of the disk, and
    no two with a sector in common.  Packing it fails only when an address does not
    fit the table; otherwise the image has the size of the disk, the verifier finds
    no error in it, and the extraction of every partition gives its payload, filled
    up with zeros. *)
Theorem pack_extract out size code sig align specs layout :
  from_parts files out size code sig align specs = inl layout →
  is_uint 64 size → 0 ≤ align → length code = 440%nat ∧ Forall (is_uint 8) code → is_uint 32 sig → Forall spec_ok specs →
  let l := dl_partitions layout in
  (0 < length l ≤ 4)%nat ∧ Forall (fits size) l ∧ (∀ a b, a ∈ l → b ∈ l → slot a ≠ slot b → before a b ∨ before b a) ∧
  match pack files false false layout with
  | inl image => Z.of_nat (length image) = size ∧ (∃ ds, verify_disk false image = inl (true, ds)) ∧
      ∀ p, p ∈ l → ∃ data, files (file p) = Some data ∧ extract (slot p) false false image = inl (content p data)
  | inr e => e = InvalidArgument ∧ ∃ p, p ∈ l ∧ (2 ^ 32 ≤ start_lba p ∨ 2 ^ 32 ≤ sector_count p)
  end.
Proof.
  intros H Hsz Hal [Hcl Hcu] Hsig Hok l. destruct (from_parts_spec _ _ _ _ _ _ _ H Hsz Hal Hok) as (El & Hmin & Hlen & Hfits & Hpl & Hdis).
  fold l in El, Hlen, Hfits, Hpl, Hdis. split; [done|]. split; [done|]. split; [done|]. unfold pack. rewrite El.
  cbn [andb dl_code dl_signature dl_reserved dl_partitions disk_size header_new bootstrap_code disk_signature partitions signature].
  set (h0 := mkHeader code sig [0; 0] (replicate 4 entry_default) MBR_SIGNATURE).
  pose proof (set_partitions_spec l [] h0 (replicate 4 entry_default) eq_refl ltac:(simpl; lia) eq_refl Hpl) as Hset.
  destruct (set_partitions l h0) as [h|e]; cbn [mbind res_bind]; [|done]. destruct Hset as (es & Hes & Eh). simpl app in Eh.
  assert (∀ k p, l !! k = Some p → slot p = Z.of_nat k + 1) as Hslot by (intros k p Hk; apply (pl_slot _ _ (Hpl k p Hk))).
  assert (header_ok h) as Hh.
  { rewrite Eh. split; simpl; [done|done|by split; repeat constructor| |done]. split.
    - rewrite length_app, length_drop, <- (Forall2_length _ _ _ Hes). simpl. lia.
    - apply Forall_app. split.
      + apply Forall_forall. intros e [k Hk]%list_elem_of_lookup_1. destruct (Forall2_lookup_r _ _ _ _ _ Hes Hk) as (p & Hp & Hpe).
        pose proof (from_layout_spec _ _ (Hpl k p Hp)) as Hs. rewrite Hpe in Hs. apply Hs.
      + apply Forall_drop. pose proof entry_default_ok. by repeat apply Forall_cons_2. }
  destruct (to_sector_ok h Hh) as [Hsl _]. set (zeros := replicate (Z.to_nat size) 0).
  assert (Z.of_nat (length zeros) = size) as Hzl by (unfold zeros; rewrite length_replicate; unfold is_uint in Hsz; lia).
  unfold SECTOR_SIZE in Hmin. rewrite write_at_inside by lia. set (image0 := splice zeros 0 (to_sector h)).
  assert (Z.of_nat (length image0) = size) as Hil by (unfold image0; rewrite length_splice; lia).
  destruct (copy_payloads_spec size l image0 Hil Hfits Hdis) as (image & Hrun & Hl & Hall & Hoth).
  { apply (slots_nodup _ 1). intros k p Hk. rewrite (Hslot k p Hk). lia. }
  rewrite Hrun. split; [lia|].
  assert (from_sector image = inl h) as Hsec.
  { rewrite <- (take_drop 512 image). assert (take 512 image = to_sector h) as ->; [|by apply from_to_sector].
    transitivity (slice image 0 512); [done|]. rewrite Hoth; try lia.
    - unfold image0. change 512 with (Z.of_nat 512). rewrite <- Hsl. apply splice_slice; lia.
    - intros p Hp. left. rewrite Forall_forall in Hfits. pose proof (pl_start _ _ (ft_placed _ _ (Hfits p Hp))). unfold SECTOR_SIZE. lia. }
  assert (partitions h = es ++ drop (length l) (replicate 4 entry_default)) as Hparts by (by rewrite Eh).
  split.
  - eexists. eapply (verify_ok size l es h); try done; [lia|by rewrite Eh|lia].
  - intros p Hp. destruct (Hall p Hp) as (data & Hf & Hc). exists data. split; [done|].
    apply list_elem_of_lookup_1 in Hp as [k Hk]. rewrite (extract_ok size l es h) with (k := k); try done; [by rewrite Hc|lia|lia].
Qed.
End layout.

(** Two small partitions on a disk of eight sectors. *)
Definition sample_files (p : Path) : option (list Z) :=
  if bool_decide (p = str "a") then Some [1; 2; 3] else if bool_decide (p = str "b") then Some (replicate 513 7) else None.

Definition sample_specs : list PartitionSpec := [mkSpec (str "a") 129 true None None; mkSpec (str "b") 131 false None None].

Definition sample_layout : DiskLayout :=
  mkDisk [] 4096 1 (replicate 440 0) [0; 0] 2 [mkLayout 1 (str "a") 129 true 2 1 3; mkLayout 2 (str "b") 131 false 4 2 513].

Lemma pack_extract_witness :
  from_parts sample_files [] 4096 (replicate 440 0) 1 2 sample_specs = inl sample_layout ∧
  match pack sample_files false false sample_layout with
  | inl image => extract 1 false false image = inl ([1; 2; 3] ++ replicate 509 0)
  | inr _ => False
  end.
Proof.
  assert (from_parts sample_files [] 4096 (replicate 440 0) 1 2 sample_specs = inl sample_layout) as H by reflexivity.
  split; [exact H|].
  destruct (pack_extract sample_files [] 4096 (replicate 440 0) 1 2 sample_specs sample_layout H) as (_ & _ & _ & Hp).
  - unfold is_uint. lia.
  - lia.
  - split; [reflexivity|]. apply Forall_replicate. unfold is_uint. lia.
  - unfold is_uint. lia.
  - repeat constructor; done.
  - destruct (pack sample_files false false sample_layout) as [image|e].
    + destruct Hp as (_ & _ & Hp). destruct (Hp (mkLayout 1 (str "a") 129 true 2 1 3)) as (data & Hf & He); [left|].
      injection Hf as <-. exact He.
    + destruct Hp as (_ & p & Hp & Hbig). repeat apply elem_of_cons in Hp as [->|Hp]; [simpl in Hbig; lia..|by apply elem_of_nil in Hp].
Defined.
End Pack.
