(* ===== verification/Exec.v ===== *)
(** * Running a program ([kernel/src/syscall/handler/process/exec.rs])

    [execve]: the checks of the file, scripts, the argument area and the tables on
    the new stack.  The memory of the task is a function from addresses to bytes;
    what the frame allocator gives is a list of outcomes.  The pages of the program
    itself are loaded when it first touches them; they are not in this memory. *)

From S2P Require Import Prelude Text Task Frame Space Bitmap Layout Minix BlockMap InodeTable Path Calls Files.
From stdpp Require Import gmap.
Open Scope kmonad_scope.
Open Scope Z_scope.

Module Exec.
Import Text Layout Minix InodeTable Path Calls.

Definition PAGE_SIZE : Z := Frame.PAGE_SIZE.
Definition TASK_LINEAR_SIZE : Z := Space.TASK_LINEAR_SIZE.
Definition MAX_ARG_PAGES : Z := 32.
Definition ZMAGIC : Z := 267.

(** ** User memory *)

Definition Mem := Z → Z.

Definition read_u8 (m : Mem) (a : Z) : Z := m (as_u32 a).
Definition read_u32 (m : Mem) (a : Z) : Z :=
  le_value [read_u8 m a; read_u8 m (a + 1); read_u8 m (a + 2); read_u8 m (a + 3)].

Definition write_u8 (x a : Z) (m : Mem) : Mem := λ b, if b =? as_u32 a then x else m b.

Fixpoint write_bytes (l : list Z) (a : Z) (m : Mem) : Mem :=
  match l with
  | [] => m
  | x :: l => write_bytes l (a + 1) (write_u8 x a m)
  end.

Definition write_u32 (x a : Z) (m : Mem) : Mem := write_bytes (le_bytes 4 x) a m.

(** Loops over memory end at a zero; [None] when it does not come within the fuel. *)
Fixpoint count_ptrs (fuel : nat) (m : Mem) (argv : Z) (count : nat) : option nat :=
  match fuel with
  | O => None
  | S fuel => if read_u32 m (argv + 4 * Z.of_nat count) =? 0 then Some count else count_ptrs fuel m argv (S count)
  end.

Definition count_user_ptrs (fuel : nat) (m : Mem) (argv : Z) : option nat :=
  if argv =? 0 then Some 0%nat else count_ptrs fuel m argv 0.

Fixpoint strlen_from (fuel : nat) (m : Mem) (addr : Z) (len : nat) : option nat :=
  match fuel with
  | O => None
  | S fuel => if read_u8 m (addr + Z.of_nat len) =? 0 then Some len else strlen_from fuel m addr (S len)
  end.

Definition user_strlen (fuel : nat) (m : Mem) (addr : Z) : option nat := strlen_from fuel m addr 0.

(** ** The executable *)

Record AoutHeader : Type := mkAout {
  a_magic : Z; a_text : Z; a_data : Z; a_bss : Z; a_syms : Z; a_entry : Z; a_trsize : Z; a_drsize : Z;
}.

Definition from_block (block : list Z) : option AoutHeader :=
  if (length block <? 32)%nat then None
  else
    let field i := as_u32 (le_value (slice block (4 * i) 4)) in
    Some (mkAout (field 0) (field 1) (field 2) (field 3) (field 4) (field 5) (field 6) (field 7)).

Definition validate {S} (h : AoutHeader) (file_size : Z) : M S () :=
  if negb (a_magic h =? ZMAGIC) then merr NOEXEC
  else if negb (a_trsize h =? 0) || negb (a_drsize h =? 0) then merr NOEXEC
  else if 50331648 <? a_text h + a_data h + a_bss h then merr NOEXEC
  else if file_size <? BLOCK_SIZE + a_text h + a_data h + a_syms h then merr NOEXEC
  else mok ().

Definition SET_USER_ID : Z := 2048.
Definition SET_GROUP_ID : Z := 1024.

(** The effective identity of the new program. *)
Definition check_exec_permission (h : nat) : M World (Z * Z) :=
  d <- disk_of h;;
  t <- mexpect (file_type (mode d));;
  if negb (bool_decide (t = Regular)) then merr ACCESS
  else
    w <- mget;;
    let euid := Task.euid (identity w) in
    let egid := Task.egid (identity w) in
    let e_uid := if contains (mode d) SET_USER_ID then user_id d else euid in
    let e_gid := if contains (mode d) SET_GROUP_ID then group_id d else egid in
    let m := if euid =? user_id d then Z.shiftr (mode d) 6
             else if egid =? group_id d then Z.shiftr (mode d) 3 else mode d in
    if (Z.land m 1 =? 0) && negb (negb (Z.land (mode d) 73 =? 0) && (euid =? 0)) then merr ACCESS
    else mok (e_uid, e_gid).

(** The path, the last part of it and the argument of a script's first line, as bytes. *)
Definition parse_shebang {S} (block : list Z) : M S (list Z * list Z * option (list Z)) :=
  let end_ := default (Nat.min (length block) 1024) (position (λ b, (b =? 10) || (b =? 0)) block) in
  chars <- mok_or (from_utf8 (drop 2 (take end_ block))) NOEXEC;;
  let line := trim chars in
  match line with
  | [] => merr NOEXEC
  | _ =>
      let '(interp_path, rest) := split_while (λ c, negb ((c =? 32) || (c =? 9))) line in
      let interp_arg := match rest with
                        | [] => None
                        | _ => match trim_start rest with [] => None | arg => Some arg end
                        end in
      let interp_name := default interp_path (last (split_on 47 interp_path)) in
      mok (as_bytes interp_path, as_bytes interp_name, as_bytes <$> interp_arg)
  end.

(** ** The argument area *)

(** [allocs] is what [frame::alloc] gives from now on; a list that has run out
    stands for an allocator that works. *)
Record ArgumentPages : Type := mkArgs {
  pages : list (option (list Z));
  write_cursor : Z;
  allocs : list bool;
}.

Definition args_new (allocs : list bool) : ArgumentPages :=
  mkArgs (replicate (Z.to_nat MAX_ARG_PAGES) None) (MAX_ARG_PAGES * PAGE_SIZE - 4) allocs.

Definition zero_page : list Z := replicate (Z.to_nat PAGE_SIZE) 0.

Definition take_frame : M ArgumentPages () := λ s,
  match allocs s with
  | [] => (Ok (), s)
  | b :: rest => (if b : bool then Ok () else Err NOMEM, mkArgs (pages s) (write_cursor s) rest)
  end.

Definition ensure_page (offset : Z) : M ArgumentPages () :=
  s <- mget;;
  let page_index := Z.to_nat (offset / PAGE_SIZE) in
  slot <- mexpect (pages s !! page_index);;
  match slot with
  | Some _ => mok ()
  | None =>
      take_frame;;;
      mmodify (λ s, mkArgs (<[page_index := Some zero_page]> (pages s)) (write_cursor s) (allocs s))
  end.

Definition push_byte (byte : Z) : M ArgumentPages () :=
  s <- mget;;
  if write_cursor s =? 0 then merr NOMEM
  else
    let offset := write_cursor s - 1 in
    mmodify (λ s, mkArgs (pages s) offset (allocs s));;;
    ensure_page offset;;;
    mmodify (λ s, mkArgs (alter (fmap (λ p : list Z, zupdate p (offset mod PAGE_SIZE) byte)) (Z.to_nat (offset / PAGE_SIZE)) (pages s))
                    (write_cursor s) (allocs s)).

Definition copy_kernel_string (bytes : list Z) : M ArgumentPages () :=
  push_byte 0;;; mfor (reverse bytes) push_byte.

Definition copy_one_user_string (fuel : nat) (m : Mem) (user_ptr : Z) : M ArgumentPages () :=
  len <- mexpect (user_strlen fuel m user_ptr);;
  push_byte 0;;;
  mfor (reverse (seq 0 len)) (λ i, push_byte (read_u8 m (user_ptr + Z.of_nat i))).

Definition copy_user_strings (fuel : nat) (m : Mem) (argv : Z) (argc : nat) : M ArgumentPages () :=
  mfor (reverse (seq 0 argc)) (λ i,
    let string_ptr := read_u32 m (argv + 4 * Z.of_nat i) in
    if string_ptr =? 0 then mpanic else copy_one_user_string fuel m string_ptr).

(** The byte at an offset of the area. *)
Definition area (s : ArgumentPages) (offset : Z) : Z :=
  match pages s !! Z.to_nat (offset / PAGE_SIZE) with
  | Some (Some p) => default 0 (zlookup p (offset mod PAGE_SIZE))
  | _ => 0
  end.

Definition ARGS_BASE : Z := TASK_LINEAR_SIZE - MAX_ARG_PAGES * PAGE_SIZE.

(** [install_into]: the pages are the top of a memory that is otherwise zero.
    The first page that is mapped needs a frame for its page table. *)
Definition install_into (s : ArgumentPages) : M (list bool) Mem := λ allocs,
  if bool_decide (Forall (λ p, p = None) (pages s)) then (Ok (λ _, 0), allocs)
  else
    let mem : Mem := λ a, if (ARGS_BASE <=? a) && (a <? TASK_LINEAR_SIZE) then area s (a - ARGS_BASE) else 0 in
    match allocs with
    | [] => (Ok mem, [])
    | b :: rest => (if b : bool then Ok mem else Panic, rest)
    end.

(** ** The tables *)

(** The scan of one string, to after its zero. *)
Fixpoint skip_string (fuel : nat) (m : Mem) (scan : Z) : option Z :=
  match fuel with
  | O => None
  | S fuel => if read_u8 m scan =? 0 then Some (wrapping_add scan 1) else skip_string fuel m (wrapping_add scan 1)
  end.

Fixpoint fill_entries (fuel : nat) (scan base : Z) (i count : nat) (m : Mem) : option (Z * Mem) :=
  match count with
  | O => Some (scan, m)
  | S count =>
      let m := write_u32 scan (base + 4 * Z.of_nat i) m in
      scan' ← skip_string fuel m scan;
      fill_entries fuel scan' base (S i) count m
  end.

Definition fill_ptr_table (fuel : nat) (scan base : Z) (count : nat) (m : Mem) : option (Z * Mem) :=
  '(scan, m) ← fill_entries fuel scan base 0 count m;
  Some (scan, write_u32 0 (base + 4 * Z.of_nat count) m).

(** The new stack pointer, and the memory. *)
Definition create_user_tables (fuel : nat) (args_start : Z) (argc envc : nat) (m : Mem) : option (Z * Mem) :=
  let sp := Z.land args_start 4294967292 in
  let envp_base := wrapping_sub sp (as_u32 ((Z.of_nat envc + 1) * 4)) in
  let argv_base := wrapping_sub envp_base (as_u32 ((Z.of_nat argc + 1) * 4)) in
  let m := write_u32 envp_base (wrapping_sub argv_base 4) m in
  let m := write_u32 argv_base (wrapping_sub argv_base 8) m in
  let sp := wrapping_sub argv_base 12 in
  let m := write_u32 (as_u32 (Z.of_nat argc)) sp m in
  '(scan, m) ← fill_ptr_table fuel args_start argv_base argc m;
  '(_, m) ← fill_ptr_table fuel scan envp_base envc m;
  Some (sp, m).

(** ** [sys_execve] *)

Record State : Type := mkState {
  kernel : Files.State;
  signal_info : Task.TaskSignalInfo;
  mem_layout : Task.TaskMemoryLayout;
  memory : Mem;
  code_limit : Z;
  data_limit : Z;
  frames : list bool;
  eip : Z;
  user_esp : Z;
}.

Definition with_kernel (s : State) (k : Files.State) : State :=
  mkState k (signal_info s) (mem_layout s) (memory s) (code_limit s) (data_limit s) (frames s) (eip s) (user_esp s).
Definition with_frames (s : State) (l : list bool) : State :=
  mkState (kernel s) (signal_info s) (mem_layout s) (memory s) (code_limit s) (data_limit s) l (eip s) (user_esp s).

Definition on_files {A} (m : M Files.State A) : M State A := λ s,
  let '(r, k) := m (kernel s) in (r, with_kernel s k).

(** An operation on the argument area, which draws on the same frames. *)
Definition on_args (a : ArgumentPages) (m : M ArgumentPages ()) : M State ArgumentPages := λ s,
  let '(r, a') := m (mkArgs (pages a) (write_cursor a) (frames s)) in
  (match r with Ok _ => Ok a' | Err e => Err e | Panic => Panic end, with_frames s (allocs a')).

(** One program file: what the loop of [sys_execve] finds out about it. *)
Inductive Found : Type :=
| Binary (header : AoutHeader) (e_uid e_gid : Z)
| Script (interp_path interp_name : list Z) (interp_arg : option (list Z)).

Definition examine (sh_bang : bool) (inode : nat) : M World Found :=
  ids <- check_exec_permission inode;;
  r <- mtry (on_inode inode (read_at 0 BLOCK_SIZE));;
  match r with
  | inr _ => merr ACCESS
  | inl l =>
      let first_block := splice (replicate (Z.to_nat BLOCK_SIZE) 0) 0 l in
      if negb sh_bang && bool_decide (take 2 first_block = [35; 33]) then
        p <- parse_shebang first_block;;
        mok (Script p.1.1 p.1.2 p.2)
      else
        hdr <- mok_or (from_block first_block) NOEXEC;;
        d <- disk_of inode;;
        validate hdr (size d);;;
        mok (Binary hdr ids.1 ids.2)
  end.

(** The arguments of a script: its own, without the first, after the
    interpreter's. *)
Definition script_arguments (fuel : nat) (m : Mem) (argv envp : Z) (argc envc : nat) (filename interp_name : list Z)
    (interp_arg : option (list Z)) : M ArgumentPages () :=
  copy_user_strings fuel m envp envc;;;
  (if (1 <? argc)%nat then copy_user_strings fuel m (argv + 4) (argc - 1) else mok ());;;
  copy_kernel_string filename;;;
  (match interp_arg with Some arg => copy_kernel_string arg | None => mok () end);;;
  copy_kernel_string interp_name.

Definition script_argc (argc : nat) (interp_arg : option (list Z)) : nat :=
  (argc - 1 + 1 + (if interp_arg is Some _ then 1 else 0) + 1)%nat.

(** Up to the point of no return: the file, its header and identity, the
    arguments and their number. *)
Definition prepare (fuel : nat) (filename : list Z) (argv envp : Z) : M State (nat * AoutHeader * (Z * Z) * ArgumentPages * (nat * nat)) :=
  s <- mget;;
  let m := memory s in
  argc <- mexpect (count_user_ptrs fuel m argv);;
  envc <- mexpect (count_user_ptrs fuel m envp);;
  inode <- on_files (Files.on_world (or_err (resolve_path filename) NOENT));;
  f <- on_files (Files.on_world (examine false inode));;
  r <- match f with
       | Binary hdr eu eg =>
           a <- on_args (args_new []) (copy_user_strings fuel m envp envc;;; copy_user_strings fuel m argv argc);;
           mok (inode, hdr, (eu, eg), a, (argc, envc))
       | Script interp_path interp_name interp_arg =>
           a <- on_args (args_new []) (script_arguments fuel m argv envp argc envc filename interp_name interp_arg);;
           inode2 <- on_files (Files.on_world (or_err (resolve_path interp_path) NOENT));;
           on_files (Files.on_world (release inode));;;
           f2 <- on_files (Files.on_world (examine true inode2));;
           match f2 with
           | Binary hdr eu eg => mok (inode2, hdr, (eu, eg), a, (script_argc argc interp_arg, envc))
           | Script _ _ _ => mpanic
           end
       end;;
  let '(_, _, _, a, _) := r in
  if write_cursor a =? 0 then merr NOMEM else mok r.

Definition set_executable (h : nat) (c : Task.TaskFileSystemContext) : Task.TaskFileSystemContext :=
  Task.mkFs (Task.umask c) (Task.root_directory c) (Task.current_directory c) (Some h) (Task.close_on_exec c) (Task.open_files c).

(** The descriptors whose bit is set are closed, one after the other. *)
Definition close_marked : M Files.State () :=
  s <- mget;;
  let close_mask := Task.close_on_exec (fs (Files.world s)) in
  mfor (seqZ 0 (Z.of_nat Task.TASK_OPEN_FILES_LIMIT)) (λ i,
    if Z.land (Z.shiftr close_mask i) 1 =? 1
    then s <- mget;; Files.set_open_files (zupdate (Files.open_files s) i None)
    else mok ());;;
  Files.set_close_on_exec 0.

Definition reset_handlers (s : Task.TaskSignalInfo) : Task.TaskSignalInfo :=
  Task.mkSignalInfo (Task.signal s) (Task.blocked s)
    (map (λ sa, Task.mkSigAction 0 (Task.sa_mask sa) (Task.sa_flags sa) (Task.sa_restorer sa)) (Task.sigaction s))
    (Task.alarm s).

Definition new_identity (ids : Z * Z) (i : Task.TaskIdentityInfo) : Task.TaskIdentityInfo :=
  Task.mkIdentity (Task.uid i) ids.1 ids.1 (Task.gid i) ids.2 ids.2.

Definition set_identity (f : Task.TaskIdentityInfo → Task.TaskIdentityInfo) : M World () :=
  mmodify (λ w, mkWorld (devices w) (file_systems w) (inodes w) (table w) (mounts w) (fs w) (f (identity w)) (users w) (held w) (time w)).

(** Zeros from [i] to the end of its page. *)
Definition clear_bss (i : Z) (m : Mem) : Mem :=
  write_bytes (replicate (Z.to_nat ((PAGE_SIZE - i mod PAGE_SIZE) mod PAGE_SIZE)) 0) i m.

(** From the point of no return on: the new memory, and the rest of the task. *)
Definition commit (fuel : nat) (r : nat * AoutHeader * (Z * Z) * ArgumentPages * (nat * nat)) : M State Z :=
  let '(inode, header, ids, a, (argc, envc)) := r in
  on_files (Files.set_context (set_executable inode));;;
  on_files close_marked;;;
  m <- (λ s, let '(x, l) := install_into a (frames s) in (x, with_frames s l));;
  let args_start := as_u32 (write_cursor a + ARGS_BASE) in
  on_files (Files.on_world (set_identity (new_identity ids)));;;
  t <- mexpect (create_user_tables fuel args_start argc envc m);;
  let '(sp, m) := t in
  let m := clear_bss (a_text header + a_data header) m in
  mmodify (λ s,
    mkState (kernel s) (reset_handlers (signal_info s))
      (Task.mkLayout (a_text header) (a_text header + a_data header) (a_text header + a_data header + a_bss header)
         (Z.land sp 4294963200))
      m (Z.land (as_u32 (a_text header + PAGE_SIZE - 1)) (unot 32 4095)) TASK_LINEAR_SIZE (frames s) (a_entry header) sp);;;
  mok 0.

Definition sys_execve (fuel : nat) (filename : list Z) (argv envp : Z) : M State Z := λ s,
  let '(r, s') := (x <- prepare fuel (read_pathname filename) argv envp;; commit fuel x) s in
  let k := kernel s' in
  (r, with_kernel s' (Files.with_world k (with_held (Files.world k) []))).

(** ** The argument area holds what was pushed *)

Definition AREA_TOP : Z := MAX_ARG_PAGES * PAGE_SIZE - 4.

(** The area ends with [l], which starts at the cursor. *)
Record good (s : ArgumentPages) (l : list Z) : Prop := {
  gd_pages : length (pages s) = 32%nat;
  gd_page : ∀ i p, pages s !! i = Some (Some p) → length p = Z.to_nat PAGE_SIZE;
  gd_cursor : write_cursor s = AREA_TOP - Z.of_nat (length l) ∧ 0 ≤ write_cursor s;
  gd_bytes : ∀ i x, l !! i = Some x → area s (write_cursor s + Z.of_nat i) = x;
}.

(** [m] pushes [bytes], unless there is no room or no frame. *)
Definition pushes (m : M ArgumentPages ()) (bytes : list Z) : Prop :=
  ∀ s l, good s l →
    (∃ s', m s = (Ok (), s') ∧ good s' (bytes ++ l) ∧ (allocs s = [] → allocs s' = [])) ∨
    (∃ s', m s = (Err NOMEM, s') ∧ (AREA_TOP < Z.of_nat (length bytes + length l) ∨ allocs s ≠ [])).

Lemma pushes_nil : pushes (mok ()) [].
Proof. intros s l Hg. left. by exists s. Qed.

Lemma pushes_seq m1 m2 b1 b2 : pushes m1 b1 → pushes m2 b2 → pushes (m1;;; m2) (b2 ++ b1).
Proof.
  intros H1 H2 s l Hg. destruct (H1 s l Hg) as [(s1 & Hr1 & Hg1 & Ha1)|(s1 & Hr1 & Hbad)].
  - destruct (H2 s1 _ Hg1) as [(s2 & Hr2 & Hg2 & Ha2)|(s2 & Hr2 & Hbad)].
    + left. exists s2. rewrite (bind_Ok _ _ _ _ _ Hr1). rewrite <- app_assoc. auto.
    + right. exists s2. rewrite (bind_Ok _ _ _ _ _ Hr1). split; [done|]. destruct Hbad as [Hb|Hb]; [left|right; auto].
      rewrite !length_app in *. lia.
  - right. exists s1. rewrite (bind_Err _ _ _ _ _ Hr1). split; [done|]. rewrite length_app. destruct Hbad; [left; lia|by right].
Qed.

Lemma area_bounds off : 0 ≤ off < MAX_ARG_PAGES * PAGE_SIZE → 0 ≤ off / PAGE_SIZE < 32 ∧ 0 ≤ off mod PAGE_SIZE < PAGE_SIZE.
Proof. change PAGE_SIZE with 4096. change MAX_ARG_PAGES with 32. intros. Z.to_euclidean_division_equations. lia. Qed.

(** A new page changes nothing that the area shows. *)
Lemma area_new_page s i off al : pages s !! i = Some None → area (mkArgs (<[i := Some zero_page]> (pages s)) (write_cursor s) al) off = area s off.
Proof.
  intros Hi. unfold area. cbn [pages]. destruct (decide (Z.to_nat (off / PAGE_SIZE) = i)) as [->|Hne].
  - rewrite list_lookup_insert_eq by (by eapply lookup_lt_Some). rewrite Hi. unfold zlookup, zero_page. case_match; [|done].
    destruct (replicate _ _ !! _) eqn:E; [|done]. by apply lookup_replicate in E as [-> _].
  - by rewrite list_lookup_insert_ne by done.
Qed.

Lemma ensure_page_spec off s l : good s l → 0 ≤ off < MAX_ARG_PAGES * PAGE_SIZE →
  (∃ s', ensure_page off s = (Ok (), s') ∧ good s' l ∧ write_cursor s' = write_cursor s ∧ (allocs s = [] → allocs s' = []) ∧
     (∃ p, pages s' !! Z.to_nat (off / PAGE_SIZE) = Some (Some p))) ∨
  (∃ s', ensure_page off s = (Err NOMEM, s') ∧ allocs s ≠ []).
Proof.
  intros Hg Hoff. destruct (area_bounds off Hoff) as [Hi _]. unfold ensure_page. erewrite bind_Ok by reflexivity.
  destruct (lookup_lt_is_Some_2 (pages s) (Z.to_nat (off / PAGE_SIZE))) as [slot Hs]; [rewrite (gd_pages _ _ Hg); lia|].
  rewrite Hs. erewrite bind_Ok by reflexivity. destruct slot as [p|]; [left; exists s; split_and!; eauto|].
  assert (∀ al, good (mkArgs (<[Z.to_nat (off / PAGE_SIZE) := Some zero_page]> (pages s)) (write_cursor s) al) l ∧
    ∃ p, <[Z.to_nat (off / PAGE_SIZE) := Some zero_page]> (pages s) !! Z.to_nat (off / PAGE_SIZE) = Some (Some p)) as Hnew.
  { intros al. split; [|exists zero_page; apply list_lookup_insert_eq; by eapply lookup_lt_Some]. split; cbn [pages write_cursor].
    - by rewrite length_insert, (gd_pages _ _ Hg).
    - intros j p Hj. destruct (decide (j = Z.to_nat (off / PAGE_SIZE))) as [->|Hne].
      + rewrite list_lookup_insert_eq in Hj by (by eapply lookup_lt_Some). injection Hj as <-. apply length_replicate.
      + rewrite list_lookup_insert_ne in Hj by done. by eapply gd_page.
    - apply Hg.
    - intros k x Hk. rewrite area_new_page by done. by apply (gd_bytes _ _ Hg). }
  unfold take_frame. destruct (allocs s) as [|[|] rest] eqn:Ea.
  - left. eexists. split; [erewrite bind_Ok by (by rewrite Ea); reflexivity|]. cbn [pages write_cursor allocs]. rewrite Ea. split_and!; [apply Hnew|done|done|apply (Hnew [])].
  - left. eexists. split; [erewrite bind_Ok by (by rewrite Ea); reflexivity|]. cbn [pages write_cursor allocs]. split_and!; [apply Hnew|done|done|apply (Hnew [])].
  - right. eexists. split; [|done]. by erewrite bind_Err by (by rewrite Ea).
Qed.

Lemma pushes_byte x : pushes (push_byte x) [x].
Proof.
  intros s l Hg. unfold push_byte. erewrite bind_Ok by reflexivity. destruct (gd_cursor _ _ Hg) as [Hc Hc0].
  destruct (Z.eqb_spec (write_cursor s) 0) as [Hz|Hz].
  { right. exists s. split; [done|]. left. simpl length. lia. }
  erewrite bind_Ok by reflexivity. set (off := write_cursor s - 1). set (s1 := mkArgs (pages s) off (allocs s)).
  assert (0 ≤ off < AREA_TOP) as Hoff by lia.
  assert (0 ≤ off < MAX_ARG_PAGES * PAGE_SIZE) as Hoff2 by (unfold AREA_TOP in Hoff; lia).
  assert (good s1 (area s off :: l)) as Hg1.
  { split; [apply Hg|apply Hg| |].
    - subst s1. cbn [write_cursor length]. unfold off. lia.
    - intros [|i] y Hy; cbn [write_cursor s1] in *.
      + injection Hy as <-. by rewrite Z.add_0_r.
      + simpl in Hy. rewrite <- (gd_bytes _ _ Hg i y Hy). unfold off. by replace (write_cursor s - 1 + Z.of_nat (S i)) with (write_cursor s + Z.of_nat i) by lia. }
  destruct (ensure_page_spec off s1 _ Hg1 Hoff2) as [(s2 & Hr & Hg2 & Ec & Ha & p & Hp)|(s2 & Hr & Ha)].
  - left. rewrite (bind_Ok _ _ _ _ _ Hr). eexists. split; [done|]. split; [|done].
    destruct (area_bounds off Hoff2) as [Hpi Hpo]. pose proof (gd_page _ _ Hg2 _ _ Hp) as Hlp.
    split; cbn [pages write_cursor].
    + by rewrite length_alter, (gd_pages _ _ Hg2).
    + intros j q Hj. destruct (decide (j = Z.to_nat (off / PAGE_SIZE))) as [->|Hne].
      * rewrite list_lookup_alter_eq, Hp in Hj. injection Hj as <-. by rewrite length_zupdate.
      * rewrite list_lookup_alter_ne in Hj by done. by eapply gd_page.
    + rewrite Ec. cbn [s1 write_cursor app length]. lia.
    + intros i y Hy. rewrite Ec. cbn [s1 write_cursor]. unfold area. cbn [pages].
      destruct i as [|i]; simpl in Hy.
      * injection Hy as <-. rewrite Z.add_0_r, list_lookup_alter_eq, Hp. simpl. rewrite zlookup_zupdate by lia. by rewrite decide_True.
      * pose proof (gd_bytes _ _ Hg2 (S i) y Hy) as Hb. rewrite Ec in Hb. cbn [s1 write_cursor] in Hb. unfold area in Hb.
        assert (off + Z.of_nat (S i) < MAX_ARG_PAGES * PAGE_SIZE) as Hin.
        { apply lookup_lt_Some in Hy. unfold AREA_TOP in *. lia. }
        destruct (area_bounds (off + Z.of_nat (S i)) ltac:(lia)) as [Hqi Hqo].
        destruct (decide (Z.to_nat ((off + Z.of_nat (S i)) / PAGE_SIZE) = Z.to_nat (off / PAGE_SIZE))) as [E|E].
        -- rewrite E, list_lookup_alter_eq, Hp. rewrite E, Hp in Hb. simpl. rewrite zlookup_zupdate by lia.
           rewrite decide_False; [done|]. intros Em. apply Z2Nat.inj in E; [|lia..].
           pose proof (Z.div_mod off PAGE_SIZE ltac:(done)). pose proof (Z.div_mod (off + Z.of_nat (S i)) PAGE_SIZE ltac:(done)). lia.
        -- by rewrite list_lookup_alter_ne.
  - right. rewrite (bind_Err _ _ _ _ _ Hr). eexists. split; [done|]. by right.
Qed.

Lemma pushes_bytes l : pushes (mfor (reverse l) push_byte) l.
Proof.
  rewrite <- (reverse_involutive l) at 2. generalize (reverse l). clear l. intros l. induction l as [|x l IH]; [apply pushes_nil|].
  cbn [mfor]. rewrite reverse_cons. apply pushes_seq; [apply pushes_byte|done].
Qed.

(** A string with its zero. *)
Definition terminated (s : list Z) : list Z := s ++ [0].
Definition packed (l : list (list Z)) : list Z := concat (map terminated l).

Lemma pushes_kernel_string s : pushes (copy_kernel_string s) (terminated s).
Proof. apply (pushes_seq _ _ [0] s); [apply pushes_byte|apply pushes_bytes]. Qed.

Lemma packed_app a b : packed (a ++ b) = packed a ++ packed b.
Proof. unfold packed. by rewrite map_app, concat_app. Qed.

Lemma packed_cons s l : packed (s :: l) = terminated s ++ packed l.
Proof. done. Qed.

Lemma length_packed l : (length l <= length (packed l))%nat.
Proof. induction l as [|s l IH]; [done|]. unfold packed in *. cbn [map concat]. rewrite length_app. unfold terminated at 1. rewrite length_app. simpl. lia. Qed.

(** Strings are pushed from the last to the first. *)
Lemma pushes_each {A} (B : A → list Z) (f : nat → M ArgumentPages ()) (l : list A) :
  (∀ i x, l !! i = Some x → pushes (f i) (B x)) → pushes (mfor (reverse (seq 0 (length l))) f) (concat (map B l)).
Proof.
  induction l as [|x l IH] using rev_ind; intros Hf; [apply pushes_nil|].
  rewrite length_app, seq_app, reverse_app, map_app, concat_app. cbn [length seq reverse rev_append app Nat.add map concat mfor]. rewrite app_nil_r.
  apply pushes_seq; [apply Hf, list_lookup_middle; done|]. apply IH. intros i y Hy. apply Hf. by apply lookup_app_l_Some.
Qed.

(** ** Vectors of strings in memory *)

Definition zero_free (l : list Z) : Prop := Forall (λ b, b ≠ 0) l.

(** A string that ends with a zero. *)
Definition cstring (m : Mem) (p : Z) (l : list Z) : Prop :=
  zero_free l ∧ ∀ i x, terminated l !! i = Some x → read_u8 m (p + Z.of_nat i) = x.

(** A list of pointers that ends with a null pointer. *)
Definition pointers (m : Mem) (base : Z) (ps : list Z) : Prop :=
  Forall (λ p, p ≠ 0) ps ∧ ∀ i p, (ps ++ [0]) !! i = Some p → read_u32 m (base + 4 * Z.of_nat i) = p.

(** [argv] or [envp]: a null pointer is no strings. *)
Definition vector (m : Mem) (base : Z) (strs : list (list Z)) : Prop :=
  (base = 0 ∧ strs = []) ∨ (base ≠ 0 ∧ ∃ ps, pointers m base ps ∧ Forall2 (cstring m) ps strs).

Lemma strlen_from_spec m p l n : cstring m p l → (n <= length l)%nat → ∀ fuel, (length l - n < fuel)%nat → strlen_from fuel m p n = Some (length l).
Proof.
  intros [Hz Hm] Hn fuel. revert n Hn. induction fuel as [|fuel IH]; intros n Hn Hf; [lia|]. cbn [strlen_from].
  destruct (decide (n = length l)) as [->|Hne].
  - rewrite (Hm _ 0); [done|]. by apply list_lookup_middle.
  - destruct (lookup_lt_is_Some_2 l n) as [x Hx]; [lia|]. rewrite (Hm n x) by (by apply lookup_app_l_Some).
    destruct (Z.eqb_spec x 0) as [->|]; [by destruct (proj1 (Forall_lookup _ _) Hz _ _ Hx)|]. apply IH; lia.
Qed.

Lemma count_ptrs_spec m base ps n : pointers m base ps → (n <= length ps)%nat → ∀ fuel, (length ps - n < fuel)%nat → count_ptrs fuel m base n = Some (length ps).
Proof.
  intros [Hz Hm] Hn fuel. revert n Hn. induction fuel as [|fuel IH]; intros n Hn Hf; [lia|]. cbn [count_ptrs].
  destruct (decide (n = length ps)) as [->|Hne].
  - rewrite (Hm _ 0); [done|]. by apply list_lookup_middle.
  - destruct (lookup_lt_is_Some_2 ps n) as [x Hx]; [lia|]. rewrite (Hm n x) by (by apply lookup_app_l_Some).
    destruct (Z.eqb_spec x 0) as [->|]; [by destruct (proj1 (Forall_lookup _ _) Hz _ _ Hx)|]. apply IH; lia.
Qed.

Lemma count_vector fuel m base strs : vector m base strs → (length strs < fuel)%nat → count_user_ptrs fuel m base = Some (length strs).
Proof.
  unfold count_user_ptrs. intros [[-> ->]|(Hb & ps & Hp & Hs)] Hf; [done|]. rewrite (proj2 (Z.eqb_neq _ _) Hb), <- (Forall2_length _ _ _ Hs) in *.
  apply (count_ptrs_spec _ _ ps); [done|lia..].
Qed.

Lemma pushes_user_string fuel m p l : cstring m p l → (length l < fuel)%nat → pushes (copy_one_user_string fuel m p) (terminated l).
Proof.
  intros Hs Hf. unfold copy_one_user_string, user_strlen. rewrite (strlen_from_spec m p l 0) by (done || lia).
  assert (l = concat (map (λ x : Z, [x]) l)) as El by (clear; induction l; simpl; congruence).
  apply (pushes_seq _ _ [0] l); [apply pushes_byte|]. rewrite El at 2. apply pushes_each. intros i x Hx.
  destruct Hs as [_ Hm]. rewrite (Hm i x) by (by apply lookup_app_l_Some). apply pushes_byte.
Qed.

Lemma pushes_user_strings fuel m base strs n : vector m base strs → Forall (λ l, (length l < fuel)%nat) strs → n = length strs →
  pushes (copy_user_strings fuel m base n) (packed strs).
Proof.
  intros [[-> ->]|(Hb & ps & [Hz Hp] & Hs)] Hf ->; [apply pushes_nil|]. apply pushes_each. intros i l Hl.
  destruct (Forall2_lookup_r _ _ _ _ _ Hs Hl) as (p & Hpi & Hc). cbv zeta. rewrite (Hp i p) by (by apply lookup_app_l_Some).
  destruct (Z.eqb_spec p 0) as [->|]; [by destruct (proj1 (Forall_lookup _ _) Hz _ _ Hpi)|].
  apply pushes_user_string; [done|]. by apply (proj1 (Forall_lookup _ _) Hf i).
Qed.

(** All but the first. *)
Lemma vector_tail m base s strs : vector m base (s :: strs) → base + 4 ≠ 0 → vector m (base + 4) strs.
Proof.
  intros [[_ ?]|(Hb & ps & [Hz Hp] & Hs)] H4; [done|]. right. split; [done|]. inversion Hs as [|p ? ps' ? Hc Hcs]; subst.
  exists ps'. split; [|done]. split; [by inversion Hz|]. intros i q Hq. replace (base + 4 + 4 * Z.of_nat i) with (base + 4 * Z.of_nat (S i)) by lia. by apply Hp.
Qed.

(** ** Writing memory *)

(** Memory changes between two addresses at most. *)
Definition agree (m m' : Mem) (lo hi : Z) : Prop := ∀ a, ¬ lo ≤ a < hi → m' a = m a.

Lemma agree_trans m1 m2 m3 lo hi lo1 hi1 lo2 hi2 :
  agree m1 m2 lo1 hi1 → agree m2 m3 lo2 hi2 → lo ≤ lo1 → hi1 ≤ hi → lo ≤ lo2 → hi2 ≤ hi → agree m1 m3 lo hi.
Proof. intros H1 H2 ???? a Ha. rewrite H2, H1; [done|lia..]. Qed.

Lemma as_u32_small a : 0 ≤ a < 2 ^ 32 → as_u32 a = a.
Proof. intros. apply wrap_small. split; lia. Qed.

Lemma write_bytes_spec l : ∀ a m, 0 ≤ a → a + Z.of_nat (length l) ≤ 2 ^ 32 →
  agree m (write_bytes l a m) a (a + Z.of_nat (length l)) ∧ ∀ i x, l !! i = Some x → write_bytes l a m (a + Z.of_nat i) = x.
Proof.
  induction l as [|y l IH]; intros a m Ha Hl; [done|]. simpl length in *. cbn [write_bytes].
  destruct (IH (a + 1) (write_u8 y a m)) as [Ho Hi]; [lia..|].
  assert (∀ b, write_u8 y a m b = if b =? a then y else m b) as Hw by (intros b; unfold write_u8; by rewrite as_u32_small by lia).
  split.
  - intros b Hb. rewrite Ho by lia. rewrite Hw. destruct (Z.eqb_spec b a); [lia|done].
  - intros [|i] x Hx.
    + injection Hx as ->. rewrite Z.add_0_r, Ho by lia. by rewrite Hw, Z.eqb_refl.
    + replace (a + Z.of_nat (S i)) with (a + 1 + Z.of_nat i) by lia. by apply Hi.
Qed.

Lemma write_u32_agree x a m : 0 ≤ a → a + 4 ≤ 2 ^ 32 → agree m (write_u32 x a m) a (a + 4).
Proof. intros. apply (write_bytes_spec (le_bytes 4 x)); rewrite ?length_le_bytes; lia. Qed.

Lemma read_write_u32 x a m : 0 ≤ a → a + 4 ≤ 2 ^ 32 → 0 ≤ x < 2 ^ 32 → read_u32 (write_u32 x a m) a = x.
Proof.
  intros Ha Hl Hx. destruct (write_bytes_spec (le_bytes 4 x) a m) as [_ H]; [by rewrite ?length_le_bytes..|].
  unfold read_u32, read_u8. rewrite !as_u32_small by lia. unfold write_u32.
  pose proof (H 0%nat _ eq_refl) as H0. pose proof (H 1%nat _ eq_refl) as H1. pose proof (H 2%nat _ eq_refl) as H2. pose proof (H 3%nat _ eq_refl) as H3.
  change (Z.of_nat 1) with 1 in H1. change (Z.of_nat 2) with 2 in H2. change (Z.of_nat 3) with 3 in H3.
  rewrite Z.add_0_r in H0. rewrite H0, H1, H2, H3. by apply (le_value_bytes 4).
Qed.

Lemma agree_u32 m m' lo hi a : agree m m' lo hi → 0 ≤ a → a + 4 ≤ 2 ^ 32 → a + 4 ≤ lo ∨ hi ≤ a → read_u32 m' a = read_u32 m a.
Proof. intros Hm ???. unfold read_u32, read_u8. rewrite !as_u32_small by lia. rewrite !Hm by lia. done. Qed.

Lemma agree_cstring m m' lo hi p l : agree m m' lo hi → 0 ≤ p → p + Z.of_nat (length l) < 2 ^ 32 → hi ≤ p → cstring m p l → cstring m' p l.
Proof.
  intros Hm Hp Hl Hlo [Hz Hs]. split; [done|]. intros i x Hx. rewrite <- (Hs i x Hx). unfold read_u8.
  apply lookup_lt_Some in Hx. unfold terminated in Hx. rewrite length_app in Hx. simpl in Hx. rewrite as_u32_small by lia. apply Hm. lia.
Qed.

(** ** The tables *)

(** Strings that follow each other in memory. *)
Definition strings_at (m : Mem) (scan : Z) (strs : list (list Z)) : Prop :=
  Forall zero_free strs ∧ ∀ i x, packed strs !! i = Some x → m (scan + Z.of_nat i) = x.

Lemma strings_at_cons m scan s strs : 0 ≤ scan → scan + Z.of_nat (length (packed (s :: strs))) < 2 ^ 32 →
  strings_at m scan (s :: strs) → cstring m scan s ∧ strings_at m (scan + Z.of_nat (length s) + 1) strs.
Proof.
  intros H0 Hl [Hz Hm]. apply Forall_cons in Hz as [Hz Hzs]. unfold packed in *. cbn [map concat] in *. rewrite length_app in Hl.
  unfold terminated in Hl at 1. rewrite length_app in Hl. simpl in Hl. split; (split; [done|]); intros i x Hx.
  - pose proof (lookup_lt_Some _ _ _ Hx) as Hi. unfold terminated in Hi. rewrite length_app in Hi. simpl in Hi. unfold read_u8.
    rewrite as_u32_small by lia. apply Hm. by apply lookup_app_l_Some.
  - replace (scan + Z.of_nat (length s) + 1 + Z.of_nat i) with (scan + Z.of_nat (length (terminated s) + i)) by (unfold terminated; rewrite length_app; simpl; lia).
    apply Hm. rewrite lookup_app_r by lia. by replace (length (terminated s) + i - length (terminated s))%nat with i by lia.
Qed.

Lemma strings_at_agree m m' lo hi scan strs : agree m m' lo hi → hi ≤ scan → strings_at m scan strs → strings_at m' scan strs.
Proof. intros Hm Hh [Hz Hs]. split; [done|]. intros i x Hx. rewrite Hm by lia. by apply Hs. Qed.

Lemma skip_string_spec m l : ∀ p n fuel, cstring m p l → (n <= length l)%nat → 0 ≤ p → p + Z.of_nat (length l) + 1 < 2 ^ 32 → (length l - n < fuel)%nat →
  skip_string fuel m (p + Z.of_nat n) = Some (p + Z.of_nat (length l) + 1).
Proof.
  intros p n fuel [Hz Hs]. revert n. induction fuel as [|fuel IH]; intros n Hn Hp Hl Hf; [lia|]. cbn [skip_string].
  destruct (decide (n = length l)) as [->|Hne].
  - rewrite (Hs _ 0) by (by apply list_lookup_middle). cbn. unfold wrapping_add. by rewrite as_u32_small by lia.
  - destruct (lookup_lt_is_Some_2 l n) as [x Hx]; [lia|]. rewrite (Hs n x) by (by apply lookup_app_l_Some).
    destruct (Z.eqb_spec x 0) as [->|]; [by destruct (proj1 (Forall_lookup _ _) Hz _ _ Hx)|].
    unfold wrapping_add. rewrite as_u32_small by lia. replace (p + Z.of_nat n + 1) with (p + Z.of_nat (S n)) by lia. apply IH; lia.
Qed.

(** The pointers [ps] are at strings above [low]. *)
Definition strings_above (m : Mem) (low : Z) (ps : list Z) (strs : list (list Z)) : Prop :=
  Forall2 (λ p l, cstring m p l ∧ low ≤ p ∧ p + Z.of_nat (length l) < 2 ^ 32) ps strs.

Lemma strings_above_agree m m' lo hi low ps strs : agree m m' lo hi → hi ≤ low → 0 ≤ low → strings_above m low ps strs → strings_above m' low ps strs.
Proof. intros Hm ?? Hs. eapply Forall2_impl; [exact Hs|]. intros p l (Hc & ? & ?). split_and!; [|done..]. by eapply agree_cstring; [done|lia..|]. Qed.

Lemma fill_entries_spec base fuel strs : ∀ scan i m,
  0 ≤ base → base + 4 * Z.of_nat (i + length strs) ≤ scan → scan + Z.of_nat (length (packed strs)) < 2 ^ 32 →
  strings_at m scan strs → Forall (λ l, (length l < fuel)%nat) strs →
  ∃ m' ps, fill_entries fuel scan base i (length strs) m = Some (scan + Z.of_nat (length (packed strs)), m') ∧
    agree m m' (base + 4 * Z.of_nat i) (base + 4 * Z.of_nat (i + length strs)) ∧ strings_above m' scan ps strs ∧
    ∀ j p, ps !! j = Some p → read_u32 m' (base + 4 * Z.of_nat (i + j)) = p.
Proof.
  induction strs as [|s strs IH]; intros scan i m Hb Hlow Hhi Hs Hf.
  { exists m, []. split_and!; [cbn; by rewrite Z.add_0_r|done|constructor|done]. }
  cbn [length fill_entries] in *. apply Forall_cons in Hf as [Hf Hfs].
  assert (Z.of_nat (length (packed (s :: strs))) = Z.of_nat (length s) + 1 + Z.of_nat (length (packed strs))) as El.
  { unfold packed. cbn [map concat]. rewrite length_app. unfold terminated at 1. rewrite length_app. simpl. lia. }
  set (m1 := write_u32 scan (base + 4 * Z.of_nat i) m).
  assert (agree m m1 (base + 4 * Z.of_nat i) (base + 4 * Z.of_nat i + 4)) as H1 by (apply write_u32_agree; lia).
  destruct (strings_at_cons m1 scan s strs) as [Hc Hs1]; [lia..|eapply strings_at_agree; [exact H1|lia|done]|].
  pose proof (skip_string_spec m1 s scan 0 fuel Hc ltac:(lia) ltac:(lia) ltac:(lia) ltac:(lia)) as Hk. simpl Z.of_nat in Hk. rewrite Z.add_0_r in Hk.
  rewrite Hk. cbn [mbind option_bind].
  destruct (IH (scan + Z.of_nat (length s) + 1) (S i) m1) as (m2 & ps & Hr & H2 & Hps & Hp); [lia..|done|done|].
  exists m2, (scan :: ps). split_and!.
  - rewrite Hr. do 2 f_equal. lia.
  - eapply agree_trans; [exact H1|exact H2|lia..].
  - constructor; [split_and!; [eapply agree_cstring; [exact H2|lia..|done]|lia|lia]|]. eapply Forall2_impl; [exact Hps|]. intros p l (? & ? & ?). split_and!; [done|lia|done].
  - intros [|j] p Hj; simpl in Hj.
    + injection Hj as <-. rewrite Nat.add_0_r. erewrite agree_u32; [|exact H2|lia..]. apply read_write_u32; lia.
    + rewrite <- (Hp j p Hj). f_equal. lia.
Qed.

(** A table with its strings, which lie above [low]. *)
Definition table (m : Mem) (base low : Z) (strs : list (list Z)) : Prop := ∃ ps, pointers m base ps ∧ strings_above m low ps strs.

Definition table_end (base : Z) (strs : list (list Z)) : Z := base + 4 * (Z.of_nat (length strs) + 1).

Lemma table_vector m base low strs : 0 < base → table m base low strs → vector m base strs.
Proof. intros Hb (ps & Hp & Hs). right. split; [lia|]. exists ps. split; [done|]. eapply Forall2_impl; [exact Hs|]. naive_solver. Qed.

Lemma table_agree m m' lo hi base low strs : agree m m' lo hi → 0 ≤ base → table_end base strs ≤ 2 ^ 32 → 0 ≤ low → hi ≤ low → hi ≤ base ∨ table_end base strs ≤ lo →
  table m base low strs → table m' base low strs.
Proof.
  unfold table_end. intros Hm Hb He Hl Hh Hd (ps & [Hz Hp] & Hs). exists ps. split; [|by eapply strings_above_agree].
  split; [done|]. intros i p Hi. rewrite <- (Hp i p Hi). apply lookup_lt_Some in Hi. rewrite length_app in Hi. simpl in Hi.
  pose proof (Forall2_length _ _ _ Hs). eapply agree_u32; [exact Hm|lia..].
Qed.

Lemma fill_ptr_table_spec base fuel strs scan m :
  0 < base → table_end base strs ≤ scan → scan + Z.of_nat (length (packed strs)) < 2 ^ 32 →
  strings_at m scan strs → Forall (λ l, (length l < fuel)%nat) strs →
  ∃ m', fill_ptr_table fuel scan base (length strs) m = Some (scan + Z.of_nat (length (packed strs)), m') ∧
    agree m m' base (table_end base strs) ∧ table m' base scan strs.
Proof.
  unfold table_end. intros Hb Hlow Hhi Hs Hf. destruct (fill_entries_spec base fuel strs scan 0 m) as (m1 & ps & Hr & H1 & Hps & Hp); [lia..|done|done|].
  unfold fill_ptr_table. rewrite Hr. cbn [mbind option_bind]. eexists. split; [done|]. pose proof (Forall2_length _ _ _ Hps) as Hlen.
  set (m2 := write_u32 0 _ m1). assert (agree m1 m2 (base + 4 * Z.of_nat (length strs)) (base + 4 * Z.of_nat (length strs) + 4)) as H2 by (apply write_u32_agree; lia).
  split; [eapply agree_trans; [exact H1|exact H2|lia..]|]. exists ps. split; [split|].
  - eapply Forall_lookup_2. intros i p Hi. destruct (Forall2_lookup_l _ _ _ _ _ Hps Hi) as (l & _ & _ & ? & _). lia.
  - intros i p Hi. destruct (decide (i < length ps)%nat) as [Hlt|Hge].
    + rewrite lookup_app_l in Hi by done. erewrite agree_u32; [|exact H2|lia..]. apply (Hp i p Hi).
    + pose proof (lookup_lt_Some _ _ _ Hi) as Hi'. rewrite length_app in Hi'. simpl in Hi'. replace i with (length ps) in * by lia.
      rewrite list_lookup_middle in Hi by done. injection Hi as <-. rewrite Hlen. apply read_write_u32; lia.
  - eapply strings_above_agree; [exact H2|lia..|done].
Qed.

Lemma land_aligned x : 0 ≤ x < 2 ^ 32 → Z.land x 4294967292 = x - x mod 4.
Proof.
  intros Hx. replace (x - x mod 4) with (Z.shiftl (Z.shiftr x 2) 2) by (rewrite Z.shiftl_mul_pow2, Z.shiftr_div_pow2 by lia; change (2 ^ 2) with 4; Z.to_euclidean_division_equations; lia).
  rewrite <- (Z.mod_small x (2 ^ 32)) at 1 by lia. rewrite <- Z.land_ones by lia. change 4294967292 with (Z.shiftl (Z.ones 30) 2).
  rewrite <- (Z.mod_small x (2 ^ 32)) at 2 by lia. rewrite <- Z.land_ones by lia. apply Z.bits_inj'. intros n Hn.
  rewrite !Z.land_spec, !Z.shiftl_spec by lia. destruct (decide (n < 2)) as [Hlt|Hge].
  - by rewrite !(Z.testbit_neg_r _ (n - 2)), andb_false_r by lia.
  - rewrite Z.shiftr_spec, Z.land_spec by lia. replace (n - 2 + 2) with n by lia. rewrite !Z.testbit_ones by lia.
    destruct (Z.testbit x n); [|done]. cbn [andb]. rewrite !(proj2 (Z.leb_le 0 _)) by lia. cbn [andb].
    destruct (Z.ltb_spec n 32), (Z.ltb_spec (n - 2) 30); done || lia.
Qed.

Lemma strings_at_app m a l1 l2 : strings_at m a (l1 ++ l2) → strings_at m a l1 ∧ strings_at m (a + Z.of_nat (length (packed l1))) l2.
Proof.
  intros [Hz Hm]. apply Forall_app in Hz as [Hz1 Hz2]. rewrite packed_app in Hm. split; (split; [done|]); intros i x Hx.
  - apply Hm. by apply lookup_app_l_Some.
  - rewrite <- Z.add_assoc, <- Nat2Z.inj_add. apply Hm. rewrite lookup_app_r by lia. by replace (length (packed l1) + i - length (packed l1))%nat with i by lia.
Qed.

(** What the new program finds at its stack pointer: the number of arguments, and
    where the two tables are. *)
Record Frame_at (m : Mem) (sp low : Z) (args envs : list (list Z)) (argv envp : Z) : Prop := {
  fa_argc : read_u32 m sp = Z.of_nat (length args);
  fa_argv : read_u32 m (sp + 4) = argv;
  fa_envp : read_u32 m (sp + 8) = envp;
  fa_args : table m argv low args;
  fa_envs : table m envp low envs;
  fa_end : table_end argv args = envp ∧ table_end envp envs ≤ low;
  fa_sp : argv = sp + 12;
}.

Lemma frame_at_agree m m' lo hi sp low args envs argv envp : agree m m' lo hi → hi ≤ sp → 0 < sp → low ≤ 2 ^ 32 →
  Frame_at m sp low args envs argv envp → Frame_at m' sp low args envs argv envp.
Proof.
  intros Hm Hh Hsp Hlow [H1 H2 H3 H4 H5 [H6 H7] H8]. unfold table_end in *.
  split; try done; try (erewrite agree_u32; [done|exact Hm|lia..]); (eapply table_agree; [exact Hm|unfold table_end; lia..|done]).
Qed.

Definition tables_size (args envs : list (list Z)) : Z := 4 * (Z.of_nat (length args) + Z.of_nat (length envs) + 2) + 12.

(** The three words at the stack pointer. *)
Lemma write_words x y z sp m : 0 ≤ sp → sp + 12 ≤ 2 ^ 32 → 0 ≤ x < 2 ^ 32 → 0 ≤ y < 2 ^ 32 → 0 ≤ z < 2 ^ 32 →
  let m' := write_u32 x sp (write_u32 y (sp + 4) (write_u32 z (sp + 8) m)) in
  agree m m' sp (sp + 12) ∧ read_u32 m' sp = x ∧ read_u32 m' (sp + 4) = y ∧ read_u32 m' (sp + 8) = z.
Proof.
  intros Hsp Htop Hx Hy Hz. cbv zeta. set (m1 := write_u32 z (sp + 8) m). set (m2 := write_u32 y (sp + 4) m1). set (m3 := write_u32 x sp m2).
  assert (agree m m1 (sp + 8) (sp + 12)) as H1 by (replace (sp + 12) with (sp + 8 + 4) by lia; apply write_u32_agree; lia).
  assert (agree m1 m2 (sp + 4) (sp + 8)) as H2 by (replace (sp + 8) with (sp + 4 + 4) by lia; apply write_u32_agree; lia).
  assert (agree m2 m3 sp (sp + 4)) as H3 by (apply write_u32_agree; lia). split_and!.
  - eapply agree_trans; [eapply (agree_trans _ _ _ (sp + 4) (sp + 12)); [exact H1|exact H2|lia..]|exact H3|lia..].
  - apply read_write_u32; lia.
  - erewrite agree_u32; [|exact H3|lia..]. apply read_write_u32; lia.
  - erewrite agree_u32; [|exact H3|lia..]. erewrite agree_u32; [|exact H2|lia..]. apply read_write_u32; lia.
Qed.

Lemma create_user_tables_spec fuel a args envs m :
  tables_size args envs + 4 ≤ a → a + Z.of_nat (length (packed (args ++ envs))) < 2 ^ 32 →
  strings_at m a (args ++ envs) → Forall (λ l, (length l < fuel)%nat) (args ++ envs) →
  let sp := a - a mod 4 - tables_size args envs in
  ∃ m', create_user_tables fuel a (length args) (length envs) m = Some (sp, m') ∧ agree m m' sp a ∧
    Frame_at m' sp a args envs (sp + 12) (table_end (sp + 12) args).
Proof.
  intros Ha Hhi Hs Hf sp. unfold tables_size in *. rewrite packed_app, length_app in Hhi. apply Forall_app in Hf as [Hfa Hfe].
  destruct (strings_at_app _ _ _ _ Hs) as [Hsa Hse]. pose proof (Z.mod_pos_bound a 4 ltac:(lia)) as Hmod.
  set (argv := sp + 12). set (envp := table_end argv args).
  assert (0 < sp ∧ table_end envp envs = a - a mod 4 ∧ envp = argv + 4 * (Z.of_nat (length args) + 1)) as (Hsp & Htop & Eenvp) by (unfold envp, table_end, argv, sp; lia).
  assert (envp + 4 * (Z.of_nat (length envs) + 1) = a - a mod 4) as Htop' by exact Htop.
  unfold create_user_tables. rewrite land_aligned by lia. unfold wrapping_sub. rewrite (as_u32_small (_ * 4)), (as_u32_small ((Z.of_nat (length args) + 1) * 4)) by lia.
  rewrite !(as_u32_small (a - a mod 4 - _)) by lia.
  replace (a - a mod 4 - (Z.of_nat (length envs) + 1) * 4) with envp by lia. rewrite !(as_u32_small (envp - _)) by lia.
  replace (envp - (Z.of_nat (length args) + 1) * 4) with argv by lia. rewrite !(as_u32_small (argv - _)) by lia.
  replace (argv - 4) with (sp + 8) by lia. replace (argv - 8) with (sp + 4) by lia. replace (argv - 12) with sp by lia. rewrite as_u32_small by lia. cbv zeta.
  destruct (write_words (Z.of_nat (length args)) argv envp sp m) as (H3 & Rc & Ra & Re); [lia..|]. set (m3 := write_u32 _ _ _) in *.
  destruct (fill_ptr_table_spec argv fuel args a m3) as (m4 & Hr4 & H4 & Ht4); [unfold table_end; lia..|eapply strings_at_agree; [exact H3|lia|done]|done|].
  rewrite Hr4. cbn [mbind option_bind]. fold envp in H4.
  destruct (fill_ptr_table_spec envp fuel envs (a + Z.of_nat (length (packed args))) m4) as (m5 & Hr5 & H5 & Ht5);
    [lia..|eapply strings_at_agree; [exact H4|lia|]; eapply strings_at_agree; [exact H3|lia|done]|done|].
  rewrite Hr5. cbn [mbind option_bind]. exists m5. split; [done|].
  assert (∀ p, sp ≤ p → p + 4 ≤ argv → read_u32 m5 p = read_u32 m3 p) as Hrd.
  { intros p ??. erewrite agree_u32; [|exact H5|lia..]. eapply agree_u32; [exact H4|lia..]. }
  split; [|split].
  - eapply agree_trans; [eapply (agree_trans _ _ _ sp a); [exact H3|exact H4|lia..]|exact H5|lia..].
  - rewrite Hrd by lia. done.
  - rewrite Hrd by lia. done.
  - rewrite Hrd by lia. done.
  - eapply table_agree; [exact H5|fold envp; lia..|done].
  - destruct Ht5 as (ps & Hp & Hps). exists ps. split; [done|]. eapply Forall2_impl; [exact Hps|]. intros p l (? & ? & ?). split_and!; [done|lia|done].
  - split; [done|lia].
  - done.
Qed.

(** ** Names without zeros *)

Lemma zero_free_position p l k : (∀ b, p b = false → b ≠ 0) → zero_free (take (default k (position p l)) l).
Proof.
  intros Hp. apply Forall_lookup_2. intros i b Hb. apply lookup_take_Some in Hb as [Hb Hi]. apply Hp.
  destruct (position p l) as [n|] eqn:E; simpl in Hi.
  - apply position_Some in E as [_ Hbefore]. by apply (Hbefore i b).
  - apply (proj1 (position_None _ _) E). by apply list_elem_of_lookup_2 in Hb.
Qed.

Lemma read_pathname_zero_free user : zero_free (read_pathname user).
Proof.
  unfold read_pathname, read_string. apply Forall_concat, Forall_fmap. eapply Forall_impl; [apply zero_free_position; by intros b Hb ->|].
  intros b Hb. simpl. unfold push_char. destruct (Z.ltb_spec b 128); repeat constructor; [done|Z.to_euclidean_division_equations; lia..].
Qed.

Lemma decode_char_nonzero s c s' : zero_free s → decode_char s = Some (c, s') → c ≠ 0 ∧ zero_free s'.
Proof.
  unfold zero_free. intros Hz Hd. unfold decode_char in Hd.
  repeat (match type of Hd with context [match ?x with _ => _ end] => destruct x eqn:?; try done end); simplify_eq;
    repeat match goal with H : Forall _ (_ :: _) |- _ => apply Forall_cons in H as [??] end; (split; [|done]);
    repeat match goal with
      | H : (_ && _) = true |- _ => apply andb_true_iff in H as [??]
      | H : (_ <=? _) = true |- _ => apply Z.leb_le in H
      | H : Text.continuation _ = true |- _ => unfold Text.continuation in H
      | H : (_ <? _) = true |- _ => apply Z.ltb_lt in H
      end; simpl in *; lia.
Qed.

Lemma from_utf8_zero_free s l : zero_free s → from_utf8 s = Some l → zero_free l.
Proof.
  unfold from_utf8. generalize (length s). intros n. revert s l. induction n as [|n IH]; intros s l Hz Hd.
  - destruct s; [|done]. injection Hd as <-. constructor.
  - destruct s as [|b s]; [injection Hd as <-; constructor|]. cbn [decode_loop] in Hd.
    destruct (decode_char (b :: s)) as [[c s']|] eqn:E; [|done]. cbn [mbind option_bind] in Hd.
    destruct (decode_loop n s') as [l'|] eqn:E'; [|done]. injection Hd as <-.
    destruct (decode_char_nonzero _ _ _ Hz E). constructor; [done|]. by eapply IH.
Qed.

Lemma as_bytes_zero_free l : zero_free l → zero_free (as_bytes l).
Proof.
  induction 1 as [|c l Hc _ IH]; [constructor|]. cbn [as_bytes flat_map]. apply Forall_app. split; [|done].
  unfold encode_char. repeat case_match; repeat constructor; try done; Z.to_euclidean_division_equations; lia.
Qed.

Lemma drop_while_Forall {A} (P : A → Prop) p l : Forall P l → Forall P (drop_while p l).
Proof. induction 1; simpl; [constructor|]. case_match; [done|]. by constructor. Qed.

Lemma trim_Forall P l : Forall P l → Forall P (trim l).
Proof. intros. unfold trim. by apply Forall_reverse, drop_while_Forall, Forall_reverse, drop_while_Forall. Qed.

Lemma split_while_Forall {A} (P : A → Prop) p l a b : Forall P l → split_while p l = (a, b) → Forall P a ∧ Forall P b.
Proof.
  intros Hl. revert a b. induction Hl as [|x l Hx Hl IH]; intros a b E; cbn [split_while] in E; [by simplify_eq|].
  destruct (p x); [|simplify_eq; split; [done|by constructor]]. destruct (split_while p l) as [a' b']. simplify_eq.
  destruct (IH a' b eq_refl). split; [by constructor|done].
Qed.

Lemma split_on_Forall P sep l : Forall P l → Forall (Forall P) (split_on sep l).
Proof.
  induction 1 as [|c l Hc _ IH]; [repeat constructor|]. cbn [split_on]. case_match; [by constructor|].
  destruct (split_on sep l); [repeat constructor; done|]. apply Forall_cons in IH as [??]. repeat constructor; done.
Qed.

Lemma parse_shebang_zero_free {S} block (s : S) path name arg s' :
  parse_shebang block s = (Ok (path, name, arg), s') → zero_free name ∧ (∀ a, arg = Some a → zero_free a).
Proof.
  intros H. unfold parse_shebang in H. cbv zeta in H.
  apply bind_Ok_inv in H as (chars & s1 & Hc & H). unfold mok_or in Hc. destruct (from_utf8 _) as [cs|] eqn:E; [|done]. injection Hc as <- <-.
  assert (zero_free (trim cs)) as Hz.
  { apply trim_Forall. eapply from_utf8_zero_free; [|done]. apply Forall_drop, zero_free_position.
    intros b Hb. apply orb_false_iff in Hb as [_ Hb]. by apply Z.eqb_neq. }
  destruct (trim cs) as [|c line] eqn:El; [done|]. rewrite <- El in H, Hz. destruct (split_while _ (trim cs)) as [p rest] eqn:Es.
  destruct (split_while_Forall _ _ _ _ _ Hz Es) as [Hp Hrest]. injection H as _ <- <- _. split.
  - apply as_bytes_zero_free. pose proof (split_on_Forall _ 47 _ Hp) as Hon. destruct (last (split_on 47 p)) as [n|] eqn:En; [|done].
    apply last_Some in En as [l' En]. rewrite En in Hon. apply Forall_app in Hon as [_ Hon]. by apply Forall_cons in Hon as [? _].
  - intros a Ha. destruct rest as [|c' rest]; [done|]. pose proof (drop_while_Forall _ is_whitespace _ Hrest) as Ht. unfold trim_start in Ha.
    destruct (drop_while is_whitespace (c' :: rest)) as [|x t]; [done|]. injection Ha as <-. by apply (as_bytes_zero_free (x :: t)).
Qed.

(** ** The arguments of the new program *)

Lemma pushes_script fuel m argv envp args envs filename name arg :
  vector m argv args → vector m envp envs → 0 ≤ argv → Forall (λ l, (length l < fuel)%nat) (args ++ envs) →
  pushes (script_arguments fuel m argv envp (length args) (length envs) filename name arg)
    (packed ((name :: option_list arg ++ filename :: drop 1 args) ++ envs)).
Proof.
  intros Ha He H0 Hf. apply Forall_app in Hf as [Hfa Hfe]. unfold script_arguments.
  replace (packed _) with ((((terminated name ++ packed (option_list arg)) ++ terminated filename) ++ packed (drop 1 args)) ++ packed envs).
  2:{ cbn [app]. rewrite packed_cons, !packed_app, packed_cons. by rewrite <- !app_assoc. }
  apply pushes_seq; [by apply pushes_user_strings|]. apply pushes_seq.
  { destruct args as [|a0 args]; [apply pushes_nil|]. destruct args as [|a1 args]; [apply pushes_nil|].
    cbn [length Nat.ltb Nat.leb drop]. apply Forall_cons in Hfa as [_ Hfa]. apply pushes_user_strings; [|done|simpl; lia].
    apply (vector_tail _ _ a0); [done|lia]. }
  apply pushes_seq; [apply pushes_kernel_string|]. apply pushes_seq; [|apply pushes_kernel_string].
  destruct arg as [arg|]; [|apply pushes_nil]. replace (packed _) with (terminated arg) by (unfold packed; simpl; by rewrite app_nil_r). apply pushes_kernel_string.
Qed.

(** The arguments of the program: those of the call, or a script's. *)
Definition new_arguments (filename : list Z) (args args' : list (list Z)) : Prop :=
  args' = args ∨ ∃ name arg, args' = name :: option_list arg ++ filename :: drop 1 args.

Lemma good_new frames : good (mkArgs (pages (args_new [])) (write_cursor (args_new [])) frames) [].
Proof. split; cbn [pages write_cursor args_new]; [apply length_replicate|intros i p Hp; by apply lookup_replicate in Hp as [? _]|done|done]. Qed.

Lemma on_args_pushes m b s a s' : pushes m b → on_args (args_new []) m s = (Ok a, s') → good a b.
Proof.
  intros Hm H. unfold on_args in H. destruct (Hm _ [] (good_new (frames s))) as [(a' & Hr & Hg & _)|(a' & Hr & _)]; rewrite Hr in H; [|done].
  injection H as <- _. by rewrite app_nil_r in Hg.
Qed.

Record fits (h : AoutHeader) : Prop := { fit_sizes : 0 ≤ a_text h ∧ 0 ≤ a_data h ∧ 0 ≤ a_bss h ∧ a_text h + a_data h + a_bss h ≤ 50331648 }.

Lemma from_block_sizes block h : from_block block = Some h → 0 ≤ a_text h ∧ 0 ≤ a_data h ∧ 0 ≤ a_bss h.
Proof. unfold from_block. case_match; [done|]. intros [= <-]. cbn [a_text a_data a_bss]. split_and!; apply (wrap_bound 32); lia. Qed.

Lemma validate_fits {S} block h sz (s s' : S) : from_block block = Some h → validate h sz s = (Ok (), s') → fits h.
Proof.
  intros Hb H. pose proof (from_block_sizes _ _ Hb). unfold validate in H. repeat case_match; try done.
  split. split_and!; [tauto..|]. by apply Z.ltb_ge.
Qed.

Lemma examine_spec b inode w f w' : examine b inode w = (Ok f, w') →
  match f with
  | Binary h _ _ => fits h
  | Script _ name arg => zero_free name ∧ ∀ a, arg = Some a → zero_free a
  end.
Proof.
  unfold examine. intros H. apply bind_Ok_inv in H as (ids & w1 & _ & H). apply bind_Ok_inv in H as (r & w2 & _ & H).
  destruct r as [l|]; [|done]. cbv zeta in H. destruct (negb b && _).
  - apply bind_Ok_inv in H as ([[p n] o] & w3 & Hp & H). injection H as <- _. by eapply parse_shebang_zero_free.
  - apply bind_Ok_inv in H as (h & w3 & Hh & H). unfold mok_or in Hh. destruct (from_block _) as [h'|] eqn:Eb; [|done]. injection Hh as <- <-.
    apply bind_Ok_inv in H as (d & w4 & _ & H). apply bind_Ok_inv in H as ([] & w5 & Hv & H). injection H as <- _. by eapply validate_fits.
Qed.

Section arguments.
Context (fuel : nat) (argv envp : Z) (s : State) (args envs : list (list Z)).
Context (Hargs : vector (memory s) argv args) (Henvs : vector (memory s) envp envs) (Hargv : 0 ≤ argv).
Context (Hcount : (length args < fuel)%nat ∧ (length envs < fuel)%nat) (Hlens : Forall (λ l, (length l < fuel)%nat) (args ++ envs)).
#[local] Set Default Proof Using "Type".

Lemma vector_zero_free m base l : vector m base l → Forall zero_free l.
Proof.
  intros [[_ ->]|(_ & ps & _ & Hs)]; [constructor|]. apply Forall_lookup_2. intros i x Hx.
  by destruct (Forall2_lookup_r _ _ _ _ _ Hs Hx) as (p & _ & [? _]).
Qed.

(** What [prepare] hands over. *)
Definition prepared (filename : list Z) (x : nat * AoutHeader * (Z * Z) * ArgumentPages * (nat * nat)) (args' : list (list Z)) : Prop :=
  new_arguments filename args args' ∧ x.2 = (length args', length envs) ∧ fits x.1.1.1.2 ∧
  good x.1.2 (packed (args' ++ envs)) ∧ Forall zero_free (args' ++ envs).

Lemma prepare_spec filename x s1 : zero_free filename → prepare fuel filename argv envp s = (Ok x, s1) → ∃ args', prepared filename x args'.
Proof using Hargs Henvs Hargv Hcount Hlens.
  intros Hfn H. destruct Hcount as [Hca Hce]. pose proof (vector_zero_free _ _ _ Hargs) as Hza. pose proof (vector_zero_free _ _ _ Henvs) as Hze.
  unfold prepare in H. erewrite bind_Ok in H by reflexivity. cbv zeta in H.
  rewrite (count_vector _ _ _ _ Hargs Hca), (count_vector _ _ _ _ Henvs Hce) in H. do 2 erewrite bind_Ok in H by reflexivity.
  apply bind_Ok_inv in H as (inode & s2 & _ & H). apply bind_Ok_inv in H as (f & s3 & Hf & H).
  assert (∀ b i f s s', on_files (Files.on_world (examine b i)) s = (Ok f, s') →
    match f with Binary h _ _ => fits h | Script _ name arg => zero_free name ∧ ∀ a, arg = Some a → zero_free a end) as Hex.
  { intros b i f' t t' Ht. unfold on_files, Files.on_world in Ht. destruct (examine b i _) as [r w] eqn:E. injection Ht as -> _. by eapply examine_spec. }
  apply bind_Ok_inv in H as (r & s4 & Hr & H). destruct r as [[[[i h] ids] a] c]. cbn [fst snd] in H. destruct (write_cursor a =? 0); [done|]. injection H as <- _.
  apply Hex in Hf. destruct f as [hdr eu eg|path name arg].
  - exists args. apply bind_Ok_inv in Hr as (a' & s5 & Ha & Hr). injection Hr as <- <- <- <- <- _. split; [by left|]. cbn [fst snd]. split_and!; [done|done| |by apply Forall_app].
    eapply on_args_pushes; [|exact Ha]. apply Forall_app in Hlens as [? ?]. rewrite packed_app. apply pushes_seq; by apply pushes_user_strings.
  - exists (name :: option_list arg ++ filename :: drop 1 args). apply bind_Ok_inv in Hr as (a' & s5 & Ha & Hr).
    apply bind_Ok_inv in Hr as (i2 & s6 & _ & Hr). apply bind_Ok_inv in Hr as ([] & s7 & _ & Hr). apply bind_Ok_inv in Hr as (f2 & s8 & Hf2 & Hr).
    apply Hex in Hf2. destruct f2 as [hdr eu eg|]; [|done]. injection Hr as <- <- <- <- <- _. split; [right; eauto|]. cbn [fst snd]. split_and!.
    + unfold script_argc. cbn [length]. rewrite length_app. cbn [length]. rewrite length_drop. destruct arg; simpl; f_equal; lia.
    + done.
    + eapply on_args_pushes; [|exact Ha]. by apply pushes_script.
    + destruct Hf as [Hn Ha']. rewrite <- app_comm_cons. constructor; [done|]. rewrite !Forall_app, Forall_cons. split_and!; [|done|by apply Forall_drop|done].
      destruct arg; repeat constructor. by apply Ha'.
Qed.
End arguments.

(** ** The point of no return *)

Lemma set_context_run f k : ∃ p, Files.set_context f k = (Ok (), Files.with_pipes (Files.with_world k (with_fs (Files.world k) (f (fs (Files.world k))))) p).
Proof. eexists. reflexivity. Qed.

Definition closed_on_exec (mask : Z) (l : list Z) (t : list (option nat)) : list (option nat) :=
  foldl (λ t i, if Z.land (Z.shiftr mask i) 1 =? 1 then zupdate t i None else t) t l.

Definition with_open_files (t : list (option nat)) (c : Task.TaskFileSystemContext) : Task.TaskFileSystemContext :=
  Task.mkFs (Task.umask c) (Task.root_directory c) (Task.current_directory c) (Task.executable_inode c) (Task.close_on_exec c) t.

(** The kernel's state with another file context; pipes may lose an end. *)
Definition context_becomes (k k' : Files.State) (c : Task.TaskFileSystemContext) : Prop :=
  ∃ p, k' = Files.with_pipes (Files.with_world k (with_fs (Files.world k) c)) p.

Lemma close_loop mask l k : ∃ k', mfor l (λ i, if Z.land (Z.shiftr mask i) 1 =? 1
    then s <- mget;; Files.set_open_files (zupdate (Files.open_files s) i None) else mok ()) k = (Ok (), k') ∧
  context_becomes k k' (with_open_files (closed_on_exec mask l (Files.open_files k)) (fs (Files.world k))).
Proof.
  revert k. induction l as [|i l IH]; intros k.
  { exists k. split; [done|]. exists (Files.pipes k). by destruct k as [[? ? ? ? ? [] ? ? ? ?] ? ? ? ? ? ?]. }
  cbn [mfor closed_on_exec foldl]. destruct (Z.land _ 1 =? 1).
  - destruct (set_context_run (with_open_files (zupdate (Files.open_files k) i None)) k) as [p Hr].
    rewrite bind_bind. erewrite bind_Ok by reflexivity. cbn beta. rewrite (bind_Ok _ _ _ _ _ Hr).
    destruct (IH (Files.with_pipes (Files.with_world k (with_fs (Files.world k) (with_open_files (zupdate (Files.open_files k) i None) (fs (Files.world k))))) p)) as (k' & Hk & q & ->).
    eexists. split; [exact Hk|]. exists q. reflexivity.
  - erewrite bind_Ok by reflexivity. exact (IH k).
Qed.

(** The file context of the new program. *)
Definition new_context (inode : nat) (c : Task.TaskFileSystemContext) : Task.TaskFileSystemContext :=
  Task.mkFs (Task.umask c) (Task.root_directory c) (Task.current_directory c) (Some inode) 0
    (closed_on_exec (Task.close_on_exec c) (seqZ 0 (Z.of_nat Task.TASK_OPEN_FILES_LIMIT)) (Task.open_files c)).

Lemma context_fs k k' c : context_becomes k k' c → fs (Files.world k') = c.
Proof. by intros [p ->]. Qed.

Lemma context_trans k k1 k2 c1 c2 : context_becomes k k1 c1 → context_becomes k1 k2 c2 → context_becomes k k2 c2.
Proof. intros [p ->] [q ->]. by exists q. Qed.

Lemma set_context_becomes f k : ∃ k', Files.set_context f k = (Ok (), k') ∧ context_becomes k k' (f (fs (Files.world k))).
Proof. destruct (set_context_run f k) as [p Hr]. eexists. split; [exact Hr|]. by exists p. Qed.

Lemma close_marked_steps k k1 k2 : mfor (seqZ 0 (Z.of_nat Task.TASK_OPEN_FILES_LIMIT)) (λ i, if Z.land (Z.shiftr (Task.close_on_exec (fs (Files.world k))) i) 1 =? 1
    then s <- mget;; Files.set_open_files (zupdate (Files.open_files s) i None) else mok ()) k = (Ok (), k1) →
  Files.set_close_on_exec 0 k1 = (Ok (), k2) → close_marked k = (Ok (), k2).
Proof. intros H1 H2. unfold close_marked. erewrite bind_Ok by reflexivity. cbv zeta. rewrite (bind_Ok _ _ _ _ _ H1). exact H2. Qed.

Lemma new_context_steps inode c l :
  let c1 := set_executable inode c in
  let c2 := with_open_files (closed_on_exec (Task.close_on_exec c1) l (Task.open_files c1)) c1 in
  Task.mkFs (Task.umask c2) (Task.root_directory c2) (Task.current_directory c2) (Task.executable_inode c2) 0 (Task.open_files c2) =
  Task.mkFs (Task.umask c) (Task.root_directory c) (Task.current_directory c) (Some inode) 0 (closed_on_exec (Task.close_on_exec c) l (Task.open_files c)).
Proof. done. Qed.

Lemma close_marked_run inode k : ∃ k1 k2, Files.set_context (set_executable inode) k = (Ok (), k1) ∧ close_marked k1 = (Ok (), k2) ∧
  context_becomes k k2 (new_context inode (fs (Files.world k))).
Proof.
  destruct (set_context_becomes (set_executable inode) k) as (k1 & H1 & C1). pose proof (context_fs _ _ _ C1) as F1.
  destruct (close_loop (Task.close_on_exec (fs (Files.world k1))) (seqZ 0 (Z.of_nat Task.TASK_OPEN_FILES_LIMIT)) k1) as (k2 & H2 & C2).
  destruct (set_context_becomes (λ c, Task.mkFs (Task.umask c) (Task.root_directory c) (Task.current_directory c)
    (Task.executable_inode c) 0 (Task.open_files c)) k2) as (k3 & H3 & C3).
  exists k1, k3. split; [exact H1|]. split; [exact (close_marked_steps _ _ _ H2 H3)|].
  pose proof (context_trans _ _ _ _ _ (context_trans _ _ _ _ _ C1 C2) C3) as C. rewrite (context_fs _ _ _ C2) in C. unfold Files.open_files in C. rewrite F1 in C.
  unfold new_context. by rewrite <- new_context_steps.
Qed.

(** The rest of the task after [execve]. *)
Record Replaced (s : State) (inode : nat) (h : AoutHeader) (ids : Z * Z) (s' : State) : Prop := {
  rp_context : fs (Files.world (kernel s')) = new_context inode (fs (Files.world (kernel s)));
  rp_identity : identity (Files.world (kernel s')) = new_identity ids (identity (Files.world (kernel s)));
  rp_signals : signal_info s' = reset_handlers (signal_info s);
  rp_layout : mem_layout s' = Task.mkLayout (a_text h) (a_text h + a_data h) (a_text h + a_data h + a_bss h) (Z.land (user_esp s') 4294963200);
  rp_limits : code_limit s' = Z.land (as_u32 (a_text h + PAGE_SIZE - 1)) (unot 32 4095) ∧ data_limit s' = TASK_LINEAR_SIZE;
  rp_entry : eip s' = a_entry h;
}.

Lemma commit_run fuel inode h ids a argc envc s :
  match (install_into a (frames s)).1 with
  | Ok m =>
      match create_user_tables fuel (as_u32 (write_cursor a + ARGS_BASE)) argc envc m with
      | Some (sp, m') => ∃ s', commit fuel (inode, h, ids, a, (argc, envc)) s = (Ok 0, s') ∧ Replaced s inode h ids s' ∧
          user_esp s' = sp ∧ memory s' = clear_bss (a_text h + a_data h) m'
      | None => (commit fuel (inode, h, ids, a, (argc, envc)) s).1 = Panic
      end
  | _ => (commit fuel (inode, h, ids, a, (argc, envc)) s).1 = Panic
  end.
Proof.
  destruct (close_marked_run inode (kernel s)) as (k1 & k2 & H1 & H2 & p & ->). set (k2 := Files.with_pipes _ p) in *.
  assert (commit fuel (inode, h, ids, a, (argc, envc)) s = (let '(x, l) := install_into a (frames s) in
    match x with
    | Ok m => (on_files (Files.on_world (set_identity (new_identity ids)));;;
        t <- mexpect (create_user_tables fuel (as_u32 (write_cursor a + ARGS_BASE)) argc envc m);;
        let '(sp, m) := t in
        let m := clear_bss (a_text h + a_data h) m in
        mmodify (λ s,
          mkState (kernel s) (reset_handlers (signal_info s))
            (Task.mkLayout (a_text h) (a_text h + a_data h) (a_text h + a_data h + a_bss h) (Z.land sp 4294963200))
            m (Z.land (as_u32 (a_text h + PAGE_SIZE - 1)) (unot 32 4095)) TASK_LINEAR_SIZE (frames s) (a_entry h) sp);;;
        mok 0) (with_frames (with_kernel s k2) l)
    | Err e => (Err e, with_frames (with_kernel s k2) l)
    | Panic => (Panic, with_frames (with_kernel s k2) l)
    end)) as ->.
  { unfold commit. erewrite bind_Ok by (unfold on_files; rewrite H1; reflexivity). erewrite bind_Ok by (unfold on_files; cbn [kernel with_kernel]; rewrite H2; reflexivity).
    unfold bind at 1. cbn [frames with_kernel]. by destruct (install_into a (frames s)) as [[m|e|] l]. }
  destruct (install_into a (frames s)) as [[m|e|] l] eqn:Ei; cbn [fst]; [|unfold install_into in Ei; repeat case_match; done|done].
  erewrite bind_Ok by reflexivity. destruct (create_user_tables _ _ _ _ m) as [[sp m']|]; [|done].
  eexists. split; [reflexivity|]. split; [|done]. by split.
Qed.

Lemma area_limits : ARGS_BASE = 66977792 ∧ AREA_TOP = 131068 ∧ TASK_LINEAR_SIZE = 67108864.
Proof. done. Qed.

Lemma install_strings a strs frames : good a (packed strs) → Forall zero_free strs → hd_error frames ≠ Some false →
  ∃ m, (install_into a frames).1 = Ok m ∧ strings_at m (write_cursor a + ARGS_BASE) strs.
Proof.
  intros Hg Hz Hf. destruct area_limits as (EB & ET & EL). destruct (gd_cursor _ _ Hg) as [Hc Hc0].
  unfold install_into. destruct (bool_decide_reflect (Forall (λ p, p = None) (pages a))) as [Hnone|_].
  - eexists. split; [done|]. split; [done|]. intros i x Hx. rewrite <- (gd_bytes _ _ Hg i x Hx). unfold area.
    destruct (pages a !! _) as [[p|]|] eqn:E; [|done..]. by apply (proj1 (Forall_lookup _ _) Hnone) in E.
  - set (m := λ b, if (ARGS_BASE <=? b) && (b <? TASK_LINEAR_SIZE) then area a (b - ARGS_BASE) else 0).
    assert (strings_at m (write_cursor a + ARGS_BASE) strs) as Hs.
    { split; [done|]. intros i x Hx. pose proof (lookup_lt_Some _ _ _ Hx) as Hi. unfold m.
      rewrite (proj2 (Z.leb_le _ _)), (proj2 (Z.ltb_lt _ _)) by lia. cbn [andb].
      replace (write_cursor a + ARGS_BASE + Z.of_nat i - ARGS_BASE) with (write_cursor a + Z.of_nat i) by lia. by apply (gd_bytes _ _ Hg). }
    exists m. destruct frames as [|[|] rest]; [done|done|]. by destruct Hf.
Qed.

Lemma clear_bss_agree i m : 0 ≤ i ≤ 50331648 → agree m (clear_bss i m) 0 (50331648 + PAGE_SIZE).
Proof.
  intros Hi b Hb. change PAGE_SIZE with 4096 in *. unfold clear_bss. change PAGE_SIZE with 4096.
  pose proof (Z.mod_pos_bound (4096 - i mod 4096) 4096 ltac:(lia)) as Hn.
  destruct (write_bytes_spec (replicate (Z.to_nat ((4096 - i mod 4096) mod 4096)) 0) i m) as [H _]; [lia|rewrite length_replicate; lia|].
  apply H. rewrite length_replicate. lia.
Qed.

(** The area is far above the program, and the strings and the tables fit. *)
Lemma commit_arguments fuel args envs filename x args' s : (Z.to_nat 131072 <= fuel)%nat → hd_error (frames s) ≠ Some false →
  prepared args envs filename x args' →
  ∃ s' low, commit fuel x s = (Ok 0, s') ∧ low = as_u32 (write_cursor x.1.2 + ARGS_BASE) ∧ 0 < user_esp s' ∧ low ≤ 2 ^ 32 ∧
    Frame_at (memory s') (user_esp s') low args' envs (user_esp s' + 12) (table_end (user_esp s' + 12) args').
Proof.
  intros Hfuel Hf (Hn & Hc & [Hfit] & Hg & Hz). destruct x as [[[[inode h] ids] a] [argc envc]]. cbn [fst snd] in *. injection Hc as -> ->.
  destruct area_limits as (EB & ET & EL). destruct (gd_cursor _ _ Hg) as [Hcur Hcur0]. pose proof (length_packed (args' ++ envs)) as Hlen. rewrite length_app in Hlen.
  destruct (install_strings a _ (frames s) Hg Hz Hf) as (m & Hi & Hs).
  pose proof (commit_run fuel inode h ids a (length args') (length envs) s) as Hrun. rewrite Hi in Hrun.
  rewrite as_u32_small in * by lia. set (low := write_cursor a + ARGS_BASE) in *. assert (66977792 ≤ low) as Hlow by (unfold low; lia).
  assert (low + Z.of_nat (length (packed (args' ++ envs))) = 67108860) as Htop by (unfold low; lia).
  destruct (create_user_tables_spec fuel low args' envs m) as (m' & Hr & _ & Hfr); [unfold tables_size; lia|lia|done| |].
  { apply Forall_lookup_2. intros i l Hl. apply list_elem_of_lookup_2, list_elem_of_split in Hl as (l1 & l2 & E).
    rewrite E, packed_app, packed_cons, !length_app in Htop. unfold terminated in Htop. rewrite length_app in Htop. simpl in Htop. lia. }
  rewrite Hr in Hrun. destruct Hrun as (s' & Hrun & Hrep & Esp & Em). exists s', low. split; [done|]. split; [done|].
  assert (50331648 + PAGE_SIZE ≤ low - low mod 4 - tables_size args' envs) as Hsp by (change PAGE_SIZE with 4096; unfold tables_size; pose proof (Z.mod_pos_bound low 4 ltac:(done)); lia).
  rewrite Esp, Em. change PAGE_SIZE with 4096 in Hsp. split_and!; [lia|lia|]. eapply frame_at_agree; [apply clear_bss_agree; lia|done|lia..|done].
Qed.

(** ** What resolution and the checks leave alone *)

Section own_part.
Context (c : Task.TaskFileSystemContext) (i : Task.TaskIdentityInfo).
#[local] Set Default Proof Using "Type".

(** The running task's own part of the file system's state. *)
Definition own (w : World) : Prop := fs w = c ∧ identity w = i.

Ltac own_tac := preserves_tac; try done.

Lemma own_read_dev d b : preserves own (read_dev d b).
Proof. intros w Hw. unfold read_dev. by destruct (dev_faults _). Qed.
Lemma own_fs_at k : preserves own (fs_at k).
Proof. unfold fs_at. own_tac. Qed.
Lemma own_inode_of h : preserves own (inode_of h).
Proof. unfold inode_of. own_tac. Qed.
#[local] Hint Resolve own_read_dev own_fs_at own_inode_of : kernel.

Lemma own_read_inode k n : preserves own (read_inode k n).
Proof. unfold read_inode. own_tac. Qed.
Lemma own_write_inode k n d : preserves own (write_inode k n d).
Proof. unfold write_inode, modify_dev. own_tac. Qed.
Lemma own_on_inode_bitmap {A} k (m : M Bitmap.Bitmap A) : preserves own (on_inode_bitmap k m).
Proof. unfold on_inode_bitmap. own_tac. intros w Hw. by destruct (m _). Qed.
Lemma own_on_inode {A} h (m : M St A) : preserves own (on_inode h m).
Proof. unfold on_inode. own_tac. intros w Hw. by destruct (m _). Qed.
Lemma own_new_inode o : preserves own (new_inode o).
Proof. by intros w Hw. Qed.
#[local] Hint Resolve own_read_inode own_write_inode own_on_inode_bitmap own_on_inode own_new_inode : kernel.

Lemma own_sync h : preserves own (sync h).
Proof. unfold sync, set_clean. own_tac. Qed.
Lemma own_lookup k : preserves own (InodeTable.lookup k).
Proof. unfold InodeTable.lookup, hold. own_tac. Qed.
#[local] Hint Resolve own_sync own_lookup : kernel.

Lemma own_install h : preserves own (install h).
Proof. unfold install, flush_slot, set_slot, set_clock, hold, release, free_inode. own_tac. Qed.
#[local] Hint Resolve own_install : kernel.

Lemma own_acquire_raw k n : preserves own (acquire_raw k n).
Proof. unfold acquire_raw, hold. own_tac. Qed.
#[local] Hint Resolve own_acquire_raw : kernel.

Lemma own_resolve_loop n k : preserves own (resolve_loop n k).
Proof. revert k. induction n as [|n IH]; intros k; cbn [resolve_loop]; unfold hold; own_tac; apply IH. Qed.
#[local] Hint Resolve own_resolve_loop : kernel.

Lemma own_resolve_inode k : preserves own (resolve_inode k).
Proof. unfold resolve_inode. own_tac. Qed.
#[local] Hint Resolve own_resolve_inode : kernel.

Lemma own_searchable h : preserves own (searchable h).
Proof. unfold searchable, inode_type, check_permission. own_tac. Qed.
Lemma own_lookup_name h n : preserves own (lookup_name h n).
Proof. unfold lookup_name. own_tac. Qed.
#[local] Hint Resolve own_searchable own_lookup_name : kernel.

Lemma own_resolve_dotdot h r : preserves own (resolve_dotdot h r).
Proof. unfold resolve_dotdot, hold, release. own_tac. Qed.
#[local] Hint Resolve own_resolve_dotdot : kernel.

Lemma own_walk l r h : preserves own (walk l r h).
Proof. revert h. induction l as [|x l IH]; intros h; cbn [walk]; unfold release; own_tac; apply IH. Qed.
#[local] Hint Resolve own_walk : kernel.

Lemma own_resolve_parent path : preserves own (resolve_parent path).
Proof. unfold resolve_parent, hold, release. own_tac. Qed.
#[local] Hint Resolve own_resolve_parent : kernel.

Lemma own_resolve_path path e : preserves own (or_err (resolve_path path) e).
Proof. unfold or_err, resolve_path, release. own_tac. Qed.

Lemma own_examine b h : preserves own (examine b h).
Proof. unfold examine, check_exec_permission, disk_of, parse_shebang, validate. own_tac. Qed.
End own_part.

(** A call that fails changes the task in no way: not its program, not what it
    has open, not who it is. *)
Record Untouched (s s' : State) : Prop := {
  ut_own : own (fs (Files.world (kernel s))) (identity (Files.world (kernel s))) (Files.world (kernel s'));
  ut_files : Files.files (kernel s') = Files.files (kernel s) ∧ Files.pipes (kernel s') = Files.pipes (kernel s);
  ut_task : signal_info s' = signal_info s ∧ mem_layout s' = mem_layout s ∧ memory s' = memory s;
  ut_limits : code_limit s' = code_limit s ∧ data_limit s' = data_limit s;
  ut_frame : eip s' = eip s ∧ user_esp s' = user_esp s;
}.

Lemma untouched_world {A} (m : M World A) s0 : preserves (own (fs (Files.world (kernel s0))) (identity (Files.world (kernel s0)))) m →
  preserves (Untouched s0) (on_files (Files.on_world m)).
Proof.
  intros Hm s [Ho Hf Ht Hl He]. unfold on_files, Files.on_world. specialize (Hm (Files.view (kernel s)) Ho). destruct (m _) as [r w]. by split.
Qed.

Lemma untouched_args m a s0 : preserves (Untouched s0) (on_args a m).
Proof. intros s Hs. unfold on_args. destruct (m _) as [r a']. by destruct Hs; split. Qed.

Lemma prepare_untouched fuel filename argv envp s0 : preserves (Untouched s0) (prepare fuel filename argv envp).
Proof.
  unfold prepare. preserves_tac; try apply untouched_args; apply untouched_world; try apply own_resolve_path; try apply own_examine.
  by apply preserves_mmodify.
Qed.

(** C23: The new program gets the arguments of the call.  User memory holds two
    vectors of strings, and the preparations succeed, so that the strings fit the
    argument area; then [execve] succeeds unless there is no frame for a page
    table, and the new program finds at its stack pointer the number of its
    arguments and where two vectors in its own memory are: the arguments, which for
    a script are the interpreter's name, its argument, the script's name and the
    rest of the call's, and the environment. *)
Theorem exec_arguments fuel filename argv envp s args envs x s1 :
  vector (memory s) argv args → vector (memory s) envp envs → 0 ≤ argv →
  (length args < fuel)%nat ∧ (length envs < fuel)%nat → Forall (λ l, (length l < fuel)%nat) (args ++ envs) → (Z.to_nat 131072 <= fuel)%nat →
  prepare fuel (read_pathname filename) argv envp s = (Ok x, s1) → hd_error (frames s1) ≠ Some false →
  ∃ s' args', sys_execve fuel filename argv envp s = (Ok 0, s') ∧ new_arguments (read_pathname filename) args args' ∧
    let m := memory s' in
    let sp := user_esp s' in
    read_u32 m sp = Z.of_nat (length args') ∧ vector m (read_u32 m (sp + 4)) args' ∧ vector m (read_u32 m (sp + 8)) envs.
Proof.
  intros Ha He H0 Hc Hl Hfuel Hp Hf.
  destruct (prepare_spec fuel argv envp s args envs Ha He H0 Hc Hl _ _ _ (read_pathname_zero_free filename) Hp) as (args' & Hx).
  destruct (commit_arguments fuel args envs _ x args' s1 Hfuel Hf Hx) as (s' & low & Hrun & _ & Hsp & _ & [F1 F2 F3 F4 F5 [F6 F7] F8]).
  unfold sys_execve. rewrite (bind_Ok _ _ _ _ _ Hp), Hrun. eexists _, args'. split; [done|]. split; [by destruct Hx|].
  cbn [memory user_esp with_kernel]. rewrite F2, F3. split_and!; [done| |].
  - eapply table_vector; [lia|done].
  - eapply table_vector; [unfold table_end; lia|done].
Qed.

Lemma closed_lookup mask l t fd o : 0 ≤ fd → zlookup t fd = Some o →
  zlookup (closed_on_exec mask l t) fd = Some (if bool_decide (fd ∈ l) && (Z.land (Z.shiftr mask fd) 1 =? 1) then None else o).
Proof.
  intros Hfd. revert t o. induction l as [|i l IH]; intros t o Ht; [done|]. cbn [closed_on_exec foldl].
  assert (∃ o', zlookup (if Z.land (Z.shiftr mask i) 1 =? 1 then zupdate t i None else t) fd = Some o' ∧
    o' = if bool_decide (fd = i) && (Z.land (Z.shiftr mask fd) 1 =? 1) then None else o) as (o' & Ho' & ->).
  { eexists. split; [|done]. destruct (bool_decide_reflect (fd = i)) as [->|Hne].
    - destruct (_ =? 1); [|done]. rewrite zlookup_zupdate by (by apply zlookup_Some in Ht). by rewrite decide_True.
    - cbn [andb]. destruct (Z.land (Z.shiftr mask i) 1 =? 1); [|done]. destruct (decide (0 ≤ i < Z.of_nat (length t))); [|by rewrite zupdate_out].
      rewrite zlookup_zupdate by done. by rewrite decide_False. }
  etransitivity; [exact (IH _ _ Ho')|]. f_equal.
  clear. destruct (Z.land (Z.shiftr mask fd) 1 =? 1); rewrite ?andb_true_r, ?andb_false_r; [|done].
  repeat case_bool_decide; set_solver.
Qed.

Lemma replaced_after s s1 inode h ids s' : Untouched s s1 → Replaced s1 inode h ids s' → Replaced s inode h ids s'.
Proof. intros [[E1 E2] _ (E3 & _ & _) _ _] [H1 H2 H3 H4 H5 H6]. split; congruence. Qed.

(** C24: All or nothing.  A call of [execve] that fails leaves the task as it was:
    its registers, memory, signal handlers, identity, directories and
    descriptors; no error comes after the point of no return.  One that succeeds
    gives 0 and replaces them: execution goes on at the entry point of the file,
    every signal has the default action, the effective and the saved identity are
    those of the file's set-user and set-group bits, and of the descriptors
    exactly the ones marked close-on-exec are closed. *)
Theorem exec_atomic fuel filename argv envp s r s' : sys_execve fuel filename argv envp s = (r, s') →
  match r with
  | Ok v => v = 0 ∧ ∃ inode h ids, Replaced s inode h ids s' ∧
      ∀ fd o, 0 ≤ fd < Z.of_nat Task.TASK_OPEN_FILES_LIMIT → zlookup (Files.open_files (kernel s)) fd = Some o →
        zlookup (Files.open_files (kernel s')) fd =
          Some (if Z.land (Z.shiftr (Task.close_on_exec (fs (Files.world (kernel s)))) fd) 1 =? 1 then None else o)
  | Err _ => Untouched s s'
  | Panic => True
  end.
Proof.
  assert (Untouched s s) as Hrefl by (by split).
  unfold sys_execve. intros H. destruct (bind _ _ s) as [r2 s2] eqn:E. injection H as <- <-.
  assert (∀ k, Untouched s k → Untouched s (with_kernel k (Files.with_world (kernel k) (with_held (Files.world (kernel k)) [])))) as Hheld by (by intros k [Ho Hf Ht Hl He]; split).
  pose proof (prepare_untouched fuel (read_pathname filename) argv envp s s Hrefl) as Hp.
  apply bind_inv in E as [(x & s1 & E & Hc)|[(e & E & ->)|[E ->]]]; [|rewrite E in Hp; by apply Hheld|done].
  rewrite E in Hp. destruct x as [[[[inode h] ids] a] [argc envc]]. pose proof (commit_run fuel inode h ids a argc envc s1) as Hrun.
  rewrite Hc in Hrun. destruct (install_into a (frames s1)).1 as [m|e|]; [|by simpl in Hrun; subst..].
  destruct (create_user_tables _ _ _ _ m) as [[sp m']|]; [|by simpl in Hrun; subst].
  destruct Hrun as (s3 & Hs3 & Hrep & _). injection Hs3 as -> ->. apply (replaced_after s) in Hrep; [|done].
  split; [done|]. exists inode, h, ids. split; [by destruct Hrep|]. intros fd o Hfd Ho. unfold Files.open_files. cbn [kernel with_kernel].
  destruct Hrep as [Hctx _ _ _ _ _]. cbn [Files.world Files.with_world with_held fs]. rewrite Hctx. cbn [new_context Task.open_files].
  rewrite (closed_lookup _ _ _ fd o) by (done || lia). by rewrite bool_decide_true by (by apply elem_of_seqZ).
Qed.

(** ** A sample: the program [p] in the root directory, and a task that runs it *)

Definition sample_root : DiskInode := mkDiskInode 16877 0 32 0 0 2 [602; 0; 0; 0; 0; 0; 0] 0 0.
Definition sample_program : DiskInode := mkDiskInode 33261 0 5120 0 0 1 [603; 0; 0; 0; 0; 0; 0] 0 0.

Definition sample_disk : gmap Z Block := {[
  602 := entry_set 1 (mkEntry 2 (112 :: replicate 13 0)) (entry_set 0 (mkEntry 1 (46 :: replicate 13 0)) zero_block);
  603 := splice zero_block 0 [11; 1; 0; 0; 0; 16] ]}.

Definition sample_kernel : Files.State :=
  Files.mkState
    (mkWorld {[769 := mkDevice sample_disk []]} [sample_fs]
       [mkInode (mkId 769 1) 0 (mkInner sample_root false 0 0); mkInode (mkId 769 2) 0 (mkInner sample_program false 0 0)]
       (mkTable (Some 0%nat :: Some 1%nat :: replicate 30 None) 0) [Some (mkMount 769 0 0 None)]
       (Task.mkFs 0 (Some 0%nat) (Some 0%nat) None 0 (replicate Task.TASK_OPEN_FILES_LIMIT None)) (Task.mkIdentity 0 0 0 0 0 0) [] [] 1000)
    [] [] [] [] [] 0.

(** One argument, "p", and no environment. *)
Definition sample_memory : Mem := λ a, if a =? 100 then 200 else if a =? 200 then 112 else 0.

Definition sample_task : State :=
  mkState sample_kernel (Task.mkSignalInfo 0 0 [] 0) (Task.mkLayout 0 0 0 0) sample_memory 0 0 [] 0 0.

Lemma sample_vector : vector sample_memory 100 [[112]].
Proof.
  right. split; [done|]. exists [200]. split.
  - split; [by repeat constructor|]. intros [|[|i]] p Hp; [injection Hp as <-; reflexivity..|by destruct i].
  - repeat constructor; [done|]. intros [|[|i]] x Hx; [injection Hx as <-; reflexivity..|by destruct i].
Qed.

Definition succeeds {S A} (m : M S A) (s : S) : bool := match (m s).1 with Ok _ => true | _ => false end.

Lemma sample_prepared : ∃ fuel, (Z.to_nat 131072 <= fuel)%nat ∧ (1 < fuel)%nat ∧
  succeeds (prepare fuel (read_pathname [112; 0]) 100 0) sample_task = true ∧
  frames (prepare fuel (read_pathname [112; 0]) 100 0 sample_task).2 = [].
Proof. exists (Z.to_nat 131072). split; [apply Nat.le_refl|]. split; [by apply Nat.ltb_lt; vm_compute|by vm_compute]. Qed.

Lemma exec_arguments_witness :
  ∃ fuel s' args', sys_execve fuel [112; 0] 100 0 sample_task = (Ok 0, s') ∧ new_arguments [112] [[112]] args' ∧
    read_u32 (memory s') (user_esp s') = Z.of_nat (length args').
Proof.
  destruct sample_prepared as (fuel & Hfuel & Hone & Hr & Hf). unfold succeeds in Hr. exists fuel.
  destruct (prepare fuel (read_pathname [112; 0]) 100 0 sample_task) as [r s1] eqn:E. cbn [fst snd] in Hr, Hf. destruct r as [x|e|]; [|done..].
  destruct (exec_arguments fuel [112; 0] 100 0 sample_task [[112]] [] x s1) as (s' & args' & Hs & Ha & Hc & _);
    [exact sample_vector|by left|lia|split; cbn [length]; lia|by repeat constructor|exact Hfuel|exact E|by rewrite Hf|].
  by exists s', args'.
Defined.

(** There is no program [q]. *)
Lemma exec_atomic_witness : ∃ s', sys_execve 10 [113; 0] 0 0 sample_task = (Err NOENT, s') ∧ Untouched sample_task s'.
Proof.
  destruct (sys_execve 10 [113; 0] 0 0 sample_task) as [r s'] eqn:E. exists s'.
  assert (fst (sys_execve 10 [113; 0] 0 0 sample_task) = Err NOENT) as Hr by (vm_compute; reflexivity).
  rewrite E in Hr. simpl in Hr. subst r. split; [done|]. exact (exec_atomic 10 [113; 0] 0 0 sample_task _ s' E).
Defined.
End Exec.
