(* ===== verification/Allocator.v ===== *)
(** * The heap of a program ([user_lib/src/allocator.rs])

    The allocator behind [Box], [Vec] and [String]: a list of free blocks, linked
    through the free memory itself, that grows with the program's break.  Memory
    is bytes, read and written as the code's pointers do. *)

From S2P Require Import Prelude Task Process Exec.
From stdpp Require Import gmap.
Open Scope Z_scope.

Module Allocator.
Import Exec.
#[local] Set Default Proof Using "Type".

(** ** Data *)

Definition PAGE_SIZE : Z := 4096.

(** [core::alloc::Layout] *)
Record Layout : Set := mkLayout { lsize : Z; lalign : Z }.

(** An [AllocationHeader] is two words before the pointer that is returned, a
    [FreeBlock] two words at the start of the block. *)
Definition HEADER_SIZE : Z := 8.
Definition WORD_ALIGN : Z := 4.
Definition min_free_block_size : Z := 8.

Definition block_start (m : Mem) (header : Z) : Z := read_u32 m header.
Definition block_size (m : Mem) (header : Z) : Z := read_u32 m (header + 4).
Definition size (m : Mem) (block : Z) : Z := read_u32 m block.
Definition next (m : Mem) (block : Z) : Z := read_u32 m (block + 4).
Definition set_size (block x : Z) (m : Mem) : Mem := write_u32 x block m.
Definition set_next (block x : Z) (m : Mem) : Mem := write_u32 x (block + 4) m.

(** The allocator, the memory it manages and the part of the kernel's state that
    answers [brk]; the null pointer is 0. *)
Record Heap : Type := mkHeap {
  memory : Mem;
  free_list : Z;
  heap_end : Z;
  initialized : bool;
  kernel : Task.TaskMemoryLayout;
}.

Definition with_memory (m : Mem) (h : Heap) : Heap := mkHeap m (free_list h) (heap_end h) (initialized h) (kernel h).
Definition with_free_list (p : Z) (h : Heap) : Heap := mkHeap (memory h) p (heap_end h) (initialized h) (kernel h).
Definition with_kernel (l : Task.TaskMemoryLayout) (h : Heap) : Heap := mkHeap (memory h) (free_list h) (heap_end h) (initialized h) l.

(** [brk] through the system call: a negative return value is an error. *)
Definition syscall_brk (x : Z) (h : Heap) : option Z * Heap :=
  let '(r, l) := Process.sys_brk x (kernel h) in
  (if r <? 2 ^ 31 then Some r else None, with_kernel l h).

(** *** Machine arithmetic *)

Definition checked_add (x y : Z) : option Z := if x + y <? 2 ^ 32 then Some (x + y) else None.
Definition checked_sub (x y : Z) : option Z := if y <=? x then Some (x - y) else None.
Definition saturating_add (x y : Z) : Z := Z.min (2 ^ 32 - 1) (x + y).
Definition align_up (addr align : Z) : Z := Z.land (as_u32 (addr + align - 1)) (unot 32 (align - 1)).

(** ** Placement *)

Record Placement : Set := mkPlacement {
  pl_block_start : Z; pl_block_size : Z; pl_header_start : Z; pl_payload_start : Z;
  pl_prefix_size : Z; pl_suffix_start : Z; pl_suffix_size : Z;
}.

Definition placement_new (start len : Z) (l : Layout) : option Placement :=
  block_end ← checked_add start len;
  let payload_align := Z.max (lalign l) WORD_ALIGN in
  after_header ← checked_add start HEADER_SIZE;
  let payload_start := align_up after_header payload_align in
  header_start ← checked_sub payload_start HEADER_SIZE;
  requested_end ← checked_add payload_start (lsize l);
  if block_end <? requested_end then None
  else
    let raw_prefix_size := as_u32 (header_start - start) in
    let keep_prefix := min_free_block_size <=? raw_prefix_size in
    let allocation_start := if keep_prefix then header_start else start in
    let prefix_size := if keep_prefix then raw_prefix_size else 0 in
    let raw_suffix_size := block_end - requested_end in
    let keep_suffix := min_free_block_size <=? raw_suffix_size in
    let allocation_end := if keep_suffix then requested_end else block_end in
    let suffix_size := if keep_suffix then raw_suffix_size else 0 in
    Some (mkPlacement allocation_start (allocation_end - allocation_start) header_start payload_start
            prefix_size allocation_end suffix_size).

(** ** The free list *)

Definition replace_block (prev replacement : Z) (h : Heap) : Heap :=
  if prev =? 0 then with_free_list replacement h else with_memory (set_next prev replacement (memory h)) h.

Definition remove_block (prev current : Z) (h : Heap) : Heap :=
  let n := next (memory h) current in
  if prev =? 0 then with_free_list n h else with_memory (set_next prev n (memory h)) h.

Definition coalesce_with_next (block : Z) (h : Heap) : Heap :=
  if block =? 0 then h
  else
    let m := memory h in
    let n := next m block in
    if n =? 0 then h
    else
      let block_end := as_u32 (block + size m block) in
      if block_end =? n then
        let m := set_size block (as_u32 (size m block + size m n)) m in
        with_memory (set_next block (next m n) m) h
      else h.

(** Blocks do not overlap, so this bounds their number. *)
Definition max_blocks (h : Heap) : nat := Z.to_nat (heap_end h / 8).

Fixpoint find_prev (fuel : nat) (m : Mem) (prev start : Z) : Z :=
  match fuel with
  | O => prev
  | S fuel =>
      let n := next m prev in
      if negb (n =? 0) && (n <? start) then find_prev fuel m n start else prev
  end.

Definition insert_free_block (start len : Z) (h : Heap) : Heap :=
  if len <? min_free_block_size then h
  else
    let h := with_memory (set_next start 0 (set_size start len (memory h))) h in
    if (free_list h =? 0) || (start <? free_list h) then
      let h := with_memory (set_next start (free_list h) (memory h)) h in
      coalesce_with_next start (with_free_list start h)
    else
      let prev := find_prev (max_blocks h) (memory h) (free_list h) start in
      let m := set_next start (next (memory h) prev) (memory h) in
      let h := with_memory (set_next prev start m) h in
      coalesce_with_next prev (coalesce_with_next start h).

(** ** Allocation *)

Definition take_from_block (prev current : Z) (p : Placement) (h : Heap) : Z * Heap :=
  let n := next (memory h) current in
  let h :=
    if min_free_block_size <=? pl_prefix_size p then
      let m := set_next current n (set_size current (pl_prefix_size p) (memory h)) in
      let m :=
        if min_free_block_size <=? pl_suffix_size p then
          let suffix := pl_suffix_start p in
          set_next current suffix (set_next suffix n (set_size suffix (pl_suffix_size p) m))
        else m in
      with_memory m h
    else if min_free_block_size <=? pl_suffix_size p then
      let suffix := pl_suffix_start p in
      replace_block prev suffix (with_memory (set_next suffix n (set_size suffix (pl_suffix_size p) (memory h))) h)
    else remove_block prev current h in
  let header := pl_header_start p in
  let m := write_u32 (pl_block_size p) (header + 4) (write_u32 (pl_block_start p) header (memory h)) in
  (pl_payload_start p, with_memory m h).

(** The first block of the list that has room. *)
Fixpoint find_block (fuel : nat) (m : Mem) (prev current : Z) (l : Layout) : option (Z * Z * Placement) :=
  match fuel with
  | O => None
  | S fuel =>
      if current =? 0 then None
      else match placement_new current (size m current) l with
      | Some p => Some (prev, current, p)
      | None => find_block fuel m current (next m current) l
      end
  end.

Definition try_alloc (l : Layout) (h : Heap) : option (Z * Heap) :=
  '(prev, current, p) ← find_block (S (max_blocks h)) (memory h) 0 (free_list h) l;
  Some (take_from_block prev current p h).

Definition grow (l : Layout) (h : Heap) : bool * Heap :=
  let '(current_break, h) :=
    if initialized h then (Some (heap_end h), h) else syscall_brk 0 h in
  match current_break with
  | None => (false, h)
  | Some current_break =>
      let needed := saturating_add (saturating_add (saturating_add (lsize l) HEADER_SIZE) (lalign l)) min_free_block_size in
      let grow_size := align_up (Z.max needed PAGE_SIZE) PAGE_SIZE in
      match checked_add current_break grow_size with
      | None => (false, h)
      | Some new_break =>
          let '(actual_break, h) := syscall_brk new_break h in
          match actual_break with
          | None => (false, h)
          | Some actual_break =>
              if actual_break <? new_break then (false, h)
              else
                let h := mkHeap (memory h) (free_list h) actual_break true (kernel h) in
                let start := align_up current_break WORD_ALIGN in
                if actual_break <=? start then (false, h)
                else
                  let len := actual_break - start in
                  if len <? min_free_block_size then (false, h)
                  else (true, insert_free_block start len h)
          end
      end
  end.

(** A pointer, 0 when the break cannot be moved; [None] out of fuel. *)
Fixpoint alloc_loop (fuel : nat) (l : Layout) (h : Heap) : option (Z * Heap) :=
  match fuel with
  | O => None
  | S fuel =>
      match try_alloc l h with
      | Some r => Some r
      | None =>
          let '(ok, h) := grow l h in
          if ok then alloc_loop fuel l h else Some (0, h)
      end
  end.

Definition alloc (fuel : nat) (l : Layout) (h : Heap) : option (Z * Heap) :=
  if lsize l =? 0 then Some (lalign l, h) else alloc_loop fuel l h.

Definition dealloc (ptr : Z) (h : Heap) : Heap :=
  if ptr =? 0 then h
  else
    let header := as_u32 (ptr - HEADER_SIZE) in
    insert_free_block (block_start (memory h) header) (block_size (memory h) header) h.

(** ** The heap as a sequence of blocks *)

(** A block of the heap: free, or with the layout for which pointer [p] was
    returned. *)
Inductive Blk : Set := Free (a s : Z) | Used (a s p : Z) (l : Layout).

Definition bstart (b : Blk) : Z := match b with Free a _ | Used a _ _ _ => a end.
Definition bsize (b : Blk) : Z := match b with Free _ s | Used _ s _ _ => s end.

Definition blk_ok (b : Blk) : Prop :=
  match b with
  | Free a s => 8 ≤ s
  | Used a s p l => a + 8 ≤ p ∧ 0 < lsize l ∧ p + lsize l ≤ a + s ∧ (lalign l | p)
  end.

(** The blocks follow each other between [lo] and [hi]. *)
Fixpoint tiles (lo : Z) (T : list Blk) (hi : Z) : Prop :=
  match T with
  | [] => lo ≤ hi
  | b :: T => lo ≤ bstart b ∧ blk_ok b ∧ tiles (bstart b + bsize b) T hi
  end.

(** The first free block, [n] when there is none, and the last one. *)
Fixpoint nf (T : list Blk) (n : Z) : Z :=
  match T with [] => n | Free a _ :: _ => a | Used _ _ _ _ :: T => nf T n end.
Fixpoint lf (T : list Blk) (p : Z) : Z :=
  match T with [] => p | Free a _ :: T => lf T a | Used _ _ _ _ :: T => lf T p end.

(** What memory says of a block whose next free block is [n]. *)
Definition meta (m : Mem) (b : Blk) (n : Z) : Prop :=
  match b with
  | Free a s => size m a = s ∧ next m a = n
  | Used a s p _ => block_start m (p - 8) = a ∧ block_size m (p - 8) = s
  end.

Fixpoint chain (m : Mem) (T : list Blk) (n : Z) : Prop :=
  match T with [] => True | b :: T => meta m b (nf T n) ∧ chain m T n end.

Definition is_free (b : Blk) : bool := match b with Free _ _ => true | Used _ _ _ _ => false end.
Definition used (T : list Blk) : list Blk := filter (λ b, is_free b = false) T.
Definition frees (T : list Blk) : nat := length (filter (λ b, is_free b = true) T).
Fixpoint total (T : list Blk) : Z := match T with [] => 0 | b :: T => bsize b + total T end.

(** Addresses in free blocks. *)
Definition free_area (T : list Blk) (x : Z) : Prop := ∃ a s, Free a s ∈ T ∧ a ≤ x < a + s.

(** Free blocks only grow, and only into free memory. *)
Definition absorbs (T T' : list Blk) : Prop :=
  (∀ x, free_area T' x → free_area T x) ∧ ∀ a s, Free a s ∈ T → ∃ a' s', Free a' s' ∈ T' ∧ s ≤ s'.

(** Memory differs only where [P] says. *)
Definition keeps (P : Z → Prop) (m m' : Mem) : Prop := ∀ x, ¬ P x → m' x = m x.

Lemma keeps_mem_trans (P Q R : Z → Prop) m1 m2 m3 : keeps P m1 m2 → keeps Q m2 m3 → (∀ x, P x ∨ Q x → R x) → keeps R m1 m3.
Proof. intros H1 H2 HR x Hx. rewrite H2, H1; [done|naive_solver..]. Qed.

Lemma absorbs_refl T : absorbs T T.
Proof. split; [done|]. intros a s Hin. exists a, s. split; [done|lia]. Qed.

Lemma absorbs_trans T1 T2 T3 : absorbs T1 T2 → absorbs T2 T3 → absorbs T1 T3.
Proof.
  intros [A1 B1] [A2 B2]. split; [auto|]. intros a s (a' & s' & (b & t & Hin & Ht)%B2 & Hs)%B1. exists b, t. split; [done|lia].
Qed.

Lemma blk_ok_size b : blk_ok b → 8 ≤ bsize b.
Proof. destruct b; simpl; lia. Qed.

Lemma tiles_le lo T hi : tiles lo T hi → lo ≤ hi.
Proof. revert lo. induction T as [|b T IH]; intros lo; [done|]. intros (H1 & H2%blk_ok_size & H3%IH). lia. Qed.

Lemma tiles_app lo T1 T2 hi : tiles lo (T1 ++ T2) hi ↔ ∃ mid, tiles lo T1 mid ∧ tiles mid T2 hi.
Proof.
  revert lo. induction T1 as [|b T1 IH]; intros lo; cbn [tiles app].
  - split; [intros H; exists lo; split; [lia|done]|]. intros (mid & H1 & H2). destruct T2 as [|b T2]; cbn [tiles] in *; [lia|]. destruct H2; split; [lia|done].
  - rewrite IH. naive_solver.
Qed.

Lemma tiles_weaken lo lo' T hi hi' : tiles lo T hi → lo' ≤ lo → hi ≤ hi' → tiles lo' T hi'.
Proof.
  revert lo lo'. induction T as [|b T IH]; intros lo lo'; cbn [tiles]; [lia|]. intros (H1 & H2 & H3) Hl Hh.
  split; [lia|]. split; [done|]. by eapply IH.
Qed.

Lemma tiles_in lo T hi b : tiles lo T hi → b ∈ T → lo ≤ bstart b ∧ bstart b + bsize b ≤ hi ∧ blk_ok b.
Proof.
  intros Ht [T1 [T2 ->]]%list_elem_of_split. apply tiles_app in Ht as (mid & H1%tiles_le & H2 & H3 & H4%tiles_le). split_and!; [lia|lia|done].
Qed.

Lemma nf_app T1 T2 n : nf (T1 ++ T2) n = nf T1 (nf T2 n).
Proof. induction T1 as [|[] T1 IH]; simpl; auto. Qed.

Lemma lf_app T1 T2 p : lf (T1 ++ T2) p = lf T2 (lf T1 p).
Proof. revert p. induction T1 as [|[a s|a s q l] T1 IH]; intros p; simpl; auto. Qed.

Lemma chain_app m T1 T2 n : chain m (T1 ++ T2) n ↔ chain m T1 (nf T2 n) ∧ chain m T2 n.
Proof. induction T1 as [|b T1 IH]; simpl; [tauto|]. rewrite IH, nf_app. tauto. Qed.

Lemma used_app T1 T2 : used (T1 ++ T2) = used T1 ++ used T2.
Proof. apply filter_app. Qed.

Lemma frees_app T1 T2 : frees (T1 ++ T2) = (frees T1 + frees T2)%nat.
Proof. unfold frees. by rewrite filter_app, length_app. Qed.

Lemma total_app T1 T2 : total (T1 ++ T2) = total T1 + total T2.
Proof. induction T1 as [|b T1 IH]; simpl; lia. Qed.

Lemma free_area_app T1 T2 x : free_area (T1 ++ T2) x ↔ free_area T1 x ∨ free_area T2 x.
Proof. unfold free_area. setoid_rewrite elem_of_app. naive_solver. Qed.

Lemma free_area_bound lo T hi x : tiles lo T hi → free_area T x → lo ≤ x < hi.
Proof. intros Ht (a & s & Hin & Hx). destruct (tiles_in _ _ _ _ Ht Hin) as (? & ? & _). simpl in *. lia. Qed.

(** A list with a free block has a last one. *)
Lemma last_free T : (frees T = 0%nat ∧ (∀ n, nf T n = n) ∧ (∀ p, lf T p = p)) ∨
  ∃ U a s V, T = U ++ Free a s :: V ∧ frees V = 0%nat ∧ (∀ p, lf T p = a).
Proof.
  induction T as [|b T IH] using rev_ind; [by left|]. destruct b as [a s|a s p l].
  - right. exists T, a, s, []. split; [done|]. split; [done|]. intros p. by rewrite lf_app.
  - destruct IH as [(H1 & H2 & H3)|(U & a' & s' & V & -> & H1 & H2)]; [left|right].
    + split_and!; [by rewrite frees_app, H1|intros n; rewrite nf_app; by rewrite H2|intros q; rewrite lf_app; by rewrite H3].
    + exists U, a', s', (V ++ [Used a s p l]). rewrite <- app_assoc. split; [done|]. split; [by rewrite frees_app, H1|].
      intros q. etrans; [|apply (H2 q)]. by rewrite !lf_app.
Qed.

Lemma no_frees T : frees T = 0%nat → (∀ n, nf T n = n) ∧ (∀ p, lf T p = p) ∧ (∀ m n v, chain m T n → chain m T v).
Proof.
  induction T as [|[a s|a s p l] T IH]; [done|done|]. intros H. destruct IH as (H1 & H2 & H3); [done|]. split_and!; [done|done|].
  intros m n v [Hm Hc]. split; [done|by eapply H3].
Qed.

(** The first free block is within the bounds. *)
Lemma nf_bound lo T hi n : tiles lo T hi → nf T n = n ∨ lo ≤ nf T n < hi.
Proof.
  revert lo. induction T as [|[a s|a s p l] T IH]; intros lo; cbn [tiles nf bstart bsize]; [by left|..].
  - intros (H1 & H2 & H3%tiles_le). cbn in H2. right. lia.
  - intros (H1 & H2%blk_ok_size & H3). cbn in H2. destruct (IH _ H3) as [?|?]; [by left|right]. lia.
Qed.

(** ** Memory *)

Definition word_ok (a : Z) : Prop := 0 ≤ a ∧ a + 8 ≤ 2 ^ 32.

Lemma set_size_spec a x m : word_ok a → 0 ≤ x < 2 ^ 32 →
  size (set_size a x m) a = x ∧ next (set_size a x m) a = next m a ∧ agree m (set_size a x m) a (a + 4).
Proof.
  intros [Ha Hl] Hx. assert (agree m (set_size a x m) a (a + 4)) as Hag by (apply write_u32_agree; lia). split_and!; [|  |done].
  - apply read_write_u32; lia.
  - unfold next. eapply agree_u32; [exact Hag|lia..].
Qed.

Lemma set_next_spec a x m : word_ok a → 0 ≤ x < 2 ^ 32 →
  next (set_next a x m) a = x ∧ size (set_next a x m) a = size m a ∧ agree m (set_next a x m) (a + 4) (a + 8).
Proof.
  intros [Ha Hl] Hx. replace (a + 8) with (a + 4 + 4) by lia.
  assert (agree m (set_next a x m) (a + 4) (a + 4 + 4)) as Hag by (apply write_u32_agree; lia). split_and!; [| |done].
  - apply read_write_u32; lia.
  - unfold size. eapply agree_u32; [exact Hag|lia..].
Qed.

(** A node written as a whole. *)
Lemma set_node a s n m : word_ok a → 0 ≤ s < 2 ^ 32 → 0 ≤ n < 2 ^ 32 →
  let m' := set_next a n (set_size a s m) in meta m' (Free a s) n ∧ agree m m' a (a + 8).
Proof.
  intros Ha Hs Hn m'. destruct (set_size_spec a s m Ha Hs) as (E1 & _ & A1).
  destruct (set_next_spec a n (set_size a s m) Ha Hn) as (E2 & E3 & A2). split; [split; [|done]|].
  - etrans; [exact E3|exact E1].
  - eapply agree_trans; [exact A1|exact A2|lia..].
Qed.

Lemma agree_keeps m m' lo hi (P : Z → Prop) : agree m m' lo hi → (∀ x, lo ≤ x < hi → P x) → keeps P m m'.
Proof. intros Ha HP x Hx. apply Ha. intros H. by apply Hx, HP. Qed.

(** What memory says of a block depends on the block's own memory. *)
Lemma meta_agree m m' lo hi b n : agree m m' lo hi → 0 < bstart b → bstart b + bsize b ≤ 2 ^ 32 → blk_ok b →
  bstart b + bsize b ≤ lo ∨ hi ≤ bstart b → meta m b n → meta m' b n.
Proof.
  intros Ha H0 H1 Hok Hd. assert (∀ a, bstart b ≤ a → a + 4 ≤ bstart b + bsize b → read_u32 m' a = read_u32 m a) as E.
  { intros a ??. eapply agree_u32; [exact Ha|lia..]. }
  destruct b as [a s|a s p l]; simpl in *; unfold size, next, block_start, block_size; rewrite !E by lia; done.
Qed.

Lemma chain_agree m m' x y T lo hi n : agree m m' x y → tiles lo T hi → 0 < lo → hi ≤ 2 ^ 32 → hi ≤ x ∨ y ≤ lo →
  chain m T n → chain m' T n.
Proof.
  intros Ha. revert lo. induction T as [|b T IH]; intros lo Ht Hlo Hhi Hd; [done|]. intros [Hm Hc]. destruct Ht as (H1 & H2 & H3).
  pose proof (tiles_le _ _ _ H3). pose proof (blk_ok_size _ H2). split.
  - eapply meta_agree; [exact Ha|lia|lia|done|lia|done].
  - eapply IH; [exact H3|lia..|done].
Qed.

(** The last free block of a sequence gets another successor. *)
Definition relink (T : list Blk) (v : Z) (m : Mem) : Mem := if lf T 0 =? 0 then m else set_next (lf T 0) v m.

Lemma relink_spec m T lo hi n v : chain m T n → tiles lo T hi → 0 < lo → hi ≤ 2 ^ 32 → 0 ≤ v < 2 ^ 32 →
  chain (relink T v m) T v ∧ (frees T = 0%nat ∧ relink T v m = m ∨
    ∃ U a s V, T = U ++ Free a s :: V ∧ frees V = 0%nat ∧ lf T 0 = a ∧ relink T v m = set_next a v m ∧ agree m (relink T v m) (a + 4) (a + 8)).
Proof.
  intros Hc Ht Hlo Hhi Hv. unfold relink. destruct (last_free T) as [(Hz & _ & Hl)|(U & a & s & V & -> & Hz & Hl)].
  - rewrite Hl. cbn. split; [|by left]. by eapply no_frees.
  - rewrite Hl. apply tiles_app in Ht as (mid & Ht1 & H1 & H2 & Ht2). cbn [bstart bsize] in *. cbn in H2.
    pose proof (tiles_le _ _ _ Ht1). pose proof (tiles_le _ _ _ Ht2). rewrite (proj2 (Z.eqb_neq a 0)) by lia.
    destruct (set_next_spec a v m) as (E1 & E2 & Hag); [unfold word_ok; lia|done|].
    apply chain_app in Hc as [Hc1 [[Es _] Hc2]]. split.
    + apply chain_app. split; [|split; [split|]].
      * eapply chain_agree; [exact Hag|exact Ht1|lia..|]. exact Hc1.
      * etrans; [exact E2|exact Es].
      * destruct (no_frees V Hz) as [Hnf _]. by rewrite Hnf.
      * eapply chain_agree; [exact Hag|exact Ht2|lia..|]. by eapply no_frees.
    + right. exists U, a, s, V. split_and!; [done|done|done|done|exact Hag].
Qed.

Lemma relink_keeps m T lo hi n v (P : Z → Prop) : chain m T n → tiles lo T hi → 0 < lo → hi ≤ 2 ^ 32 → 0 ≤ v < 2 ^ 32 →
  (∀ x, free_area T x → P x) → keeps P m (relink T v m) ∧ agree m (relink T v m) lo hi.
Proof.
  intros Hc Ht Hlo Hhi Hv HP. destruct (relink_spec m T lo hi n v Hc Ht Hlo Hhi Hv) as [_ [[_ ->]|(U & a & s & V & -> & _ & _ & _ & Hag)]]; [done|].
  destruct (tiles_in _ _ _ (Free a s) Ht) as (? & ? & Hok); [apply elem_of_app; right; left|]. cbn in *. split.
  - eapply agree_keeps; [exact Hag|]. intros x Hx. apply HP. exists a, s. split; [apply elem_of_app; right; left|lia].
  - intros x Hx. apply Hag. lia.
Qed.

(** ** The invariant *)

Section bounds.
Context (lo hi : Z) (Hlo : 0 < lo) (Hhi : hi ≤ 2 ^ 31).

(** The blocks of [T] are the heap between [lo] and [hi]. *)
Record shape (T : list Blk) (h : Heap) : Prop := {
  sh_tiles : tiles lo T hi;
  sh_chain : chain (memory h) T 0;
  sh_list : free_list h = nf T 0;
}.

(** The rest of the allocator's state. *)
Definition rest (h : Heap) : Z * bool * Task.TaskMemoryLayout := (heap_end h, initialized h, kernel h).

(** From [T] to [T'], [n] bytes more of them free; memory differs in [P]. *)
Record evolves (P : Z → Prop) (n : Z) (T T' : list Blk) (h h' : Heap) : Prop := {
  ev_used : used T' = used T;
  ev_total : total T' = total T + n;
  ev_keeps : keeps P (memory h) (memory h');
  ev_rest : rest h' = rest h;
}.

Lemma evolves_refl P T h : evolves P 0 T T h h.
Proof using. clear. split; [done|lia|done|done]. Qed.

Lemma evolves_trans (P Q R : Z → Prop) n1 n2 T1 T2 T3 h1 h2 h3 :
  evolves P n1 T1 T2 h1 h2 → evolves Q n2 T2 T3 h2 h3 → (∀ x, P x ∨ Q x → R x) → evolves R (n1 + n2) T1 T3 h1 h3.
Proof using.
  clear. intros [U1 T1' K1 R1] [U2 T2' K2 R2] HR. split; [congruence|lia|by eapply keeps_mem_trans|congruence].
Qed.

(** A free block's successor that begins where it ends. *)
Lemma adjacent_next V a s : tiles (a + s) V hi → nf V 0 = a + s → 0 < a + s → ∃ t V', V = Free (a + s) t :: V'.
Proof using Hhi.
  intros Ht Hn Hp. destruct V as [|[b t|b t p l] V]; cbn [nf] in Hn.
  - lia.
  - subst b. by exists t, V.
  - destruct Ht as (H1 & H2%blk_ok_size & H3). cbn [bstart bsize] in *. destruct (nf_bound _ _ _ 0 H3); lia.
Qed.

Lemma tiles_free U a s V : tiles lo (U ++ Free a s :: V) hi →
  tiles lo U a ∧ 8 ≤ s ∧ tiles (a + s) V hi ∧ lo ≤ a ∧ a + s ≤ hi.
Proof using.
  clear. intros (mid & H1 & H2 & H3 & H4)%tiles_app. cbn [bstart bsize] in *. cbn in H3. pose proof (tiles_le _ _ _ H1). pose proof (tiles_le _ _ _ H4).
  split_and!; [eapply tiles_weaken; [exact H1|lia|lia]|done|done|lia|lia].
Qed.

Lemma coalesce_spec U a s V h : shape (U ++ Free a s :: V) h →
  ∃ s' V', let T' := U ++ Free a s' :: V' in
    shape T' (coalesce_with_next a h) ∧
    evolves (free_area (U ++ Free a s :: V)) 0 (U ++ Free a s :: V) T' h (coalesce_with_next a h) ∧
    absorbs (U ++ Free a s :: V) T'.
Proof using Hlo Hhi.
  intros [Ht Hc Hl]. destruct (tiles_free _ _ _ _ Ht) as (H1 & H2 & H3 & H4 & H5). apply chain_app in Hc as [Hc1 [[Es En] Hc2]].
  assert (∃ s' V', let T' := U ++ Free a s' :: V' in shape T' h ∧
      evolves (free_area (U ++ Free a s :: V)) 0 (U ++ Free a s :: V) T' h h ∧ absorbs (U ++ Free a s :: V) T') as Hid.
  { exists s, V. split; [|split; [apply evolves_refl|apply absorbs_refl]]. split; [done|by apply chain_app|done]. }
  unfold coalesce_with_next. rewrite (proj2 (Z.eqb_neq a 0)) by lia. rewrite En, Es.
  destruct (Z.eqb_spec (nf V 0) 0) as [|Hn0]; [done|]. rewrite as_u32_small by lia. destruct (Z.eqb_spec (a + s) (nf V 0)) as [En'|]; [|done].
  destruct (adjacent_next V a s H3) as (t & V' & ->); [done|lia|]. clear Hid. cbn [nf] in *. destruct H3 as (_ & H6 & H7). cbn [bstart bsize] in *. cbn in H6.
  pose proof (tiles_le _ _ _ H7). destruct Hc2 as [[Est Ent] Hc2]. rewrite Est. rewrite as_u32_small by lia.
  assert (0 ≤ nf V' 0 < 2 ^ 32) as Hnv by (destruct (nf_bound _ _ _ 0 H7); lia).
  destruct (set_size_spec a (s + t) (memory h)) as (E1 & E2 & A1); [unfold word_ok; lia|lia|].
  assert (next (set_size a (s + t) (memory h)) (a + s) = nf V' 0) as -> by (rewrite <- Ent; unfold next; eapply agree_u32; [exact A1|lia..]).
  destruct (set_node a (s + t) (nf V' 0) (memory h)) as [Hm Hag]; [unfold word_ok; lia|lia|done|]. exists (s + t), V'. cbv zeta. split; [|split].
  - split.
    + apply tiles_app. exists a. split; [done|]. split; [cbn; lia|]. split; [cbn; lia|]. cbn [bstart bsize]. by replace (a + (s + t)) with (a + s + t) by lia.
    + apply chain_app. split; [eapply chain_agree; [exact Hag|exact H1|lia..|exact Hc1]|]. split; [done|].
      eapply chain_agree; [exact Hag|exact H7|lia..|exact Hc2].
    + cbn [free_list with_memory]. rewrite Hl, !nf_app. done.
  - split; [by rewrite !used_app|rewrite !total_app; cbn [total bsize]; lia| |done].
    eapply agree_keeps; [exact Hag|]. intros x Hx. exists a, s. split; [apply elem_of_app; right; left|lia].
  - split; [intros x; rewrite !free_area_app; intros [?|(b & u & [Hb|Hb]%elem_of_cons & Hx)]; [by left|right|right]|].
    + injection Hb as -> ->. destruct (decide (x < a + s)); [exists a, s; split; [left|lia]|exists (a + s), t; split; [right; left|lia]].
    + exists b, u. split; [by right; right|done].
    + intros b u. rewrite elem_of_app, !elem_of_cons. setoid_rewrite elem_of_app. setoid_rewrite elem_of_cons.
      intros [?|[[= -> ->]|[[= -> ->]|?]]]; [exists b, u|exists a, (s + t)..|exists b, u]; (split; [tauto|lia]).
Qed.

(** ** Insertion *)

Lemma frees_free a s W : frees (Free a s :: W) = S (frees W).
Proof using. done. Qed.

Lemma frees_used a s p l W : frees (Used a s p l :: W) = frees W.
Proof using. done. Qed.

Lemma tiles_count x W y : tiles x W y → x + 8 * Z.of_nat (frees W) ≤ y.
Proof using.
  clear. revert x. induction W as [|b W IH]; intros x; cbn [tiles]; [cbn; lia|]. intros (H1 & H2 & H3%IH). pose proof (blk_ok_size _ H2).
  destruct b; rewrite ?frees_free, ?frees_used; cbn [bstart bsize] in *; lia.
Qed.

Lemma find_prev_spec m start T2 W : ∀ fuel a x,
  next m a = nf (W ++ T2) 0 → chain m (W ++ T2) 0 → tiles x W start → 0 < x → nf T2 0 = 0 ∨ start < nf T2 0 → (frees W ≤ fuel)%nat →
  find_prev fuel m a start = lf W a.
Proof using.
  clear. induction W as [|[b s|b s p l] W IH]; intros fuel a x Hn Hc Ht Hx HT2 Hf.
  - cbn [app] in Hn. destruct fuel as [|fuel]; [done|]. cbn [find_prev lf]. rewrite Hn.
    destruct (Z.eqb_spec (nf T2 0) 0); [done|]. by rewrite (proj2 (Z.ltb_ge _ _)) by lia.
  - destruct Ht as (H1 & H2 & H3). cbn [bstart bsize] in *. cbn in H2. pose proof (tiles_le _ _ _ H3). rewrite frees_free in Hf.
    destruct fuel as [|fuel]; [lia|]. cbn [app nf] in Hn. cbn [find_prev lf]. rewrite Hn, (proj2 (Z.eqb_neq b 0)), (proj2 (Z.ltb_lt b start)) by lia.
    cbn [negb andb]. destruct Hc as [[_ Hb] Hc]. apply (IH fuel b (b + s)); [done|done|done|lia|done|lia].
  - destruct Ht as (H1 & H2%blk_ok_size & H3). cbn [bstart bsize] in *. destruct Hc as [_ Hc]. cbn [lf]. by apply (IH fuel a (b + s)); [..|lia|done|].
Qed.

Lemma first_free T : frees T ≠ 0%nat → ∃ U a s V, T = U ++ Free a s :: V ∧ frees U = 0%nat.
Proof using.
  clear. induction T as [|[a s|a s p l] T IH]; intros Hf; [done|by exists [], a, s, T|]. rewrite frees_used in Hf.
  destruct (IH Hf) as (U & b & t & V & -> & Hz). exists (Used a s p l :: U), b, t, V. by rewrite frees_used.
Qed.

(** The search begins at the first free block. *)
Lemma find_prev_first m start T1 T2 fuel :
  chain m (T1 ++ T2) 0 → tiles lo T1 start → nf T2 0 = 0 ∨ start < nf T2 0 → frees T1 ≠ 0%nat → (frees T1 ≤ fuel)%nat →
  find_prev fuel m (nf (T1 ++ T2) 0) start = lf T1 0.
Proof using Hlo.
  intros Hc Ht HT2 Hf Hfuel. destruct (first_free T1 Hf) as (U & b & t & V & -> & Hz). destruct (no_frees U Hz) as (Hn & Hl & _).
  rewrite <- app_assoc, nf_app, Hn, lf_app, Hl. cbn [app nf lf]. rewrite <- app_assoc in Hc. apply chain_app in Hc as [_ [[_ Hnext] Hc]].
  apply tiles_app in Ht as (mid & H1%tiles_le & H2 & H3%blk_ok_size & H4). cbn [bstart bsize] in *. rewrite frees_app, frees_free in Hfuel.
  apply (find_prev_spec m start T2 V fuel b (b + t)); [done|done|done|lia|done|lia].
Qed.

(** The block in its place, before its neighbours are looked at. *)
Lemma link_block T1 T2 start len h :
  chain (memory h) (T1 ++ T2) 0 → free_list h = nf (T1 ++ T2) 0 → tiles lo T1 start → tiles (start + len) T2 hi → 8 ≤ len → hi ≤ heap_end h →
  let h1 := with_memory (set_next start 0 (set_size start len (memory h))) h in
  ∃ h2, shape (T1 ++ Free start len :: T2) h2 ∧
    evolves (λ x, free_area (T1 ++ Free start len :: T2) x) len (T1 ++ T2) (T1 ++ Free start len :: T2) h h2 ∧
    ((free_list h =? 0) || (start <? free_list h) = true ∧ frees T1 = 0%nat ∧
       h2 = with_free_list start (with_memory (set_next start (free_list h1) (memory h1)) h1) ∨
     (free_list h =? 0) || (start <? free_list h) = false ∧ (∃ U a s V, T1 = U ++ Free a s :: V) ∧
       let prev := find_prev (max_blocks h1) (memory h1) (free_list h1) start in
       prev = lf T1 0 ∧ h2 = with_memory (set_next prev start (set_next start (next (memory h1) prev) (memory h1))) h1).
Proof using Hlo Hhi.
  intros Hc Hl Ht1 Ht2 Hlen Hend h1. pose proof (tiles_le _ _ _ Ht1). pose proof (tiles_le _ _ _ Ht2). apply chain_app in Hc as [Hc1 Hc2].
  assert (tiles lo (T1 ++ Free start len :: T2) hi) as Ht by (apply tiles_app; exists start; split; [done|split; [cbn; lia|done]]).
  assert (0 ≤ nf T2 0 < 2 ^ 32) as Hn2 by (destruct (nf_bound _ _ _ 0 Ht2); lia).
  assert (∀ x, start ≤ x < start + 8 → free_area (T1 ++ Free start len :: T2) x) as Harea.
  { intros x Hx. exists start, len. split; [apply elem_of_app; right; left|lia]. }
  destruct (set_node start len 0 (memory h)) as [Hm1 Hag1]; [unfold word_ok; lia|lia|lia|]. set (m1 := set_next start 0 _) in *.
  change (memory h1) with m1. change (free_list h1) with (free_list h).
  assert (∀ n, 0 ≤ n < 2 ^ 32 → let m2 := set_next start n m1 in meta m2 (Free start len) n ∧ agree (memory h) m2 start (start + 8)) as Hm2.
  { intros n Hn m2. destruct (set_next_spec start n m1) as (E1 & E2 & A2); [unfold word_ok; lia|done|]. split.
    - split; [|done]. etrans; [exact E2|apply Hm1].
    - eapply agree_trans; [exact Hag1|exact A2|lia..]. }
  assert (∀ h2, memory h2 = memory h2 → rest h2 = rest h → keeps (free_area (T1 ++ Free start len :: T2)) (memory h) (memory h2) →
    evolves (λ x, free_area (T1 ++ Free start len :: T2) x) len (T1 ++ T2) (T1 ++ Free start len :: T2) h h2) as Hev.
  { intros h2 _ Hr Hk. split; [by rewrite !used_app|rewrite !total_app; cbn [total bsize]; lia|done|done]. }
  rewrite Hl. destruct ((nf (T1 ++ T2) 0 =? 0) || (start <? nf (T1 ++ T2) 0)) eqn:Ecase.
  - (* in front of the list *)
    assert (frees T1 = 0%nat) as Hz.
    { destruct (last_free T1) as [[? _]|(U & a & s & V & -> & _)]; [done|exfalso]. rewrite <- app_assoc, nf_app in Ecase. cbn [app nf] in Ecase.
      apply tiles_app in Ht1 as (mid & Ht0 & Hta). pose proof (tiles_le _ _ _ Ht0). destruct Hta as (? & Hs & Htb). pose proof (tiles_le _ _ _ Htb). cbn in *.
      destruct (nf_bound _ _ _ a Ht0); destruct (Z.eqb_spec (nf U a) 0), (Z.ltb_spec start (nf U a)); lia || done. }
    destruct (no_frees T1 Hz) as (Hnf & _ & Hch). rewrite nf_app, Hnf. destruct (Hm2 (nf T2 0) Hn2) as [Hmm Hag2]. eexists. split; [|split; [|left; split; [done|split; [done|reflexivity]]]].
    + split; [done| |by rewrite nf_app, Hnf]. cbn [memory with_free_list with_memory]. apply chain_app. split.
      * eapply Hch. eapply chain_agree; [exact Hag2|exact Ht1|lia..|exact Hc1].
      * split; [done|]. eapply chain_agree; [exact Hag2|exact Ht2|lia..|exact Hc2].
    + apply Hev; [done|done|]. eapply agree_keeps; [exact Hag2|exact Harea].
  - (* behind a free block *)
    apply orb_false_iff in Ecase as [E1%Z.eqb_neq E2%Z.ltb_ge].
    destruct (last_free T1) as [(_ & Hnf & _)|(U & a & s & V & E & Hz & Hlf)].
    { rewrite nf_app, Hnf in E1, E2. destruct (nf_bound _ _ _ 0 Ht2); lia. }
    assert (nf T2 0 = 0 ∨ start < nf T2 0) as Hnext by (destruct (nf_bound _ _ _ 0 Ht2); lia).
    assert (chain m1 T1 (nf T2 0)) as Hc1' by (eapply chain_agree; [exact Hag1|exact Ht1|lia..|exact Hc1]).
    assert (chain m1 T2 0) as Hc2' by (eapply chain_agree; [exact Hag1|exact Ht2|lia..|exact Hc2]).
    assert (find_prev (max_blocks h1) m1 (nf (T1 ++ T2) 0) start = lf T1 0) as Hprev.
    { apply find_prev_first; [by apply chain_app|done|done| |].
      - rewrite E, frees_app, frees_free. lia.
      - pose proof (tiles_count _ _ _ Ht1). unfold max_blocks. change (heap_end h1) with (heap_end h). Z.to_euclidean_division_equations. lia. }
    cbv zeta. rewrite Hprev. assert (next m1 (lf T1 0) = nf T2 0) as ->.
    { rewrite (Hlf 0). rewrite E in Hc1'. apply chain_app in Hc1' as [_ [[_ Hna] _]]. destruct (no_frees V Hz) as [Hv _]. by rewrite Hv in Hna. }
    destruct (Hm2 (nf T2 0) Hn2) as [Hmm Hag2]. set (m2 := set_next start (nf T2 0) m1) in *.
    assert (chain m2 T1 (nf T2 0)) as Hc1'' by (eapply chain_agree; [exact Hag2|exact Ht1|lia..|exact Hc1]).
    assert (chain m2 T2 0) as Hc2'' by (eapply chain_agree; [exact Hag2|exact Ht2|lia..|exact Hc2]).
    destruct (relink_spec m2 T1 lo start (nf T2 0) start Hc1'' Ht1) as [Hc3 _]; [lia..|].
    destruct (relink_keeps m2 T1 lo start (nf T2 0) start (free_area (T1 ++ Free start len :: T2)) Hc1'' Ht1) as [Hk3 Hag3];
      [lia..|intros x Hx; apply free_area_app; by left|].
    assert (lf T1 0 ≠ 0) as Hp0.
    { rewrite (Hlf 0). subst T1. destruct (tiles_in _ _ _ (Free a s) Ht1) as (? & _ & _); [apply elem_of_app; right; left|]. cbn in *. lia. }
    unfold relink in Hc3, Hk3, Hag3. rewrite (proj2 (Z.eqb_neq _ _) Hp0) in Hc3, Hk3, Hag3. eexists. split; [|split; [|right; split; [done|split; [by exists U, a, s, V|split; [done|reflexivity]]]]].
    + split; [done| |]; cbn [memory free_list with_memory].
      * apply chain_app. split; [done|]. split; [eapply meta_agree; [exact Hag3|cbn; lia..|done]|]. eapply chain_agree; [exact Hag3|exact Ht2|lia..|done].
      * change (free_list h1) with (free_list h). rewrite Hl, !nf_app, E. rewrite !nf_app. done.
    + apply Hev; [done|done|]. eapply keeps_mem_trans; [eapply agree_keeps; [exact Hag2|exact Harea]|exact Hk3|tauto].
Qed.

(** [insert_free_block] makes unused memory between two parts of the heap free. *)
Lemma insert_spec T1 T2 start len h :
  chain (memory h) (T1 ++ T2) 0 → free_list h = nf (T1 ++ T2) 0 → tiles lo T1 start → tiles (start + len) T2 hi → 8 ≤ len → hi ≤ heap_end h →
  ∃ T', shape T' (insert_free_block start len h) ∧
    evolves (free_area (T1 ++ Free start len :: T2)) len (T1 ++ T2) T' h (insert_free_block start len h) ∧
    absorbs (T1 ++ Free start len :: T2) T'.
Proof using Hlo Hhi.
  intros Hc Hl Ht1 Ht2 Hlen Hend. destruct (link_block T1 T2 start len h Hc Hl Ht1 Ht2 Hlen Hend) as (h2 & Hsh & Hev & Hcase).
  unfold insert_free_block. change (len <? min_free_block_size) with (len <? 8). rewrite (proj2 (Z.ltb_ge len 8)) by lia. cbv zeta in *.
  change (free_list (with_memory ?m h)) with (free_list h). destruct (coalesce_spec T1 start len T2 h2 Hsh) as (s' & V' & Hsh' & Hev' & Har').
  assert (evolves (free_area (T1 ++ Free start len :: T2)) len (T1 ++ T2) (T1 ++ Free start s' :: V') h (coalesce_with_next start h2)) as Hev2.
  { replace len with (len + 0) at 2 by lia. eapply evolves_trans; [exact Hev|exact Hev'|intros x [Hx|Hx]; exact Hx]. }
  destruct Hcase as [(-> & _ & ->)|(-> & (U & a & s & V & ->) & Hprev & Eh2)].
  - exists (T1 ++ Free start s' :: V'). done.
  - cbn [free_list with_memory] in Hprev, Eh2 |- *. rewrite <- Eh2, Hprev.
    destruct (last_free (U ++ Free a s :: V)) as [[Hz _]|(U1 & a1 & s1 & V1 & E & _ & Hlf)]; [by rewrite frees_app, frees_free in Hz; lia|].
    rewrite (Hlf 0). rewrite E in *. clear Hev Hprev Eh2. rewrite <- !app_assoc in *. cbn [app] in *.
    destruct (coalesce_spec U1 a1 s1 (V1 ++ Free start s' :: V') _ Hsh') as (s2 & V2 & Hsh2 & Hev3 & Har2).
    eexists. split; [exact Hsh2|]. split; [|by eapply absorbs_trans].
    replace len with (len + 0) at 2 by lia. eapply evolves_trans; [exact Hev2|exact Hev3|]. intros x [?|?]; [done|by apply (proj1 Har')].
Qed.

(** A used block given back. *)
Lemma release_spec T1 a s p l T2 h : shape (T1 ++ Used a s p l :: T2) h → hi ≤ heap_end h →
  ∃ T', shape T' (dealloc p h) ∧ used T' = used (T1 ++ T2) ∧ total T' = total (T1 ++ Used a s p l :: T2) ∧
    keeps (free_area (T1 ++ Free a s :: T2)) (memory h) (memory (dealloc p h)) ∧ rest (dealloc p h) = rest h.
Proof using Hlo Hhi.
  intros [Ht Hc Hl] Hend. apply tiles_app in Ht as (mid & Ht1 & H1 & (H2 & H3 & H4 & H5) & Ht2). cbn [bstart bsize] in *.
  pose proof (tiles_le _ _ _ Ht1). pose proof (tiles_le _ _ _ Ht2). apply chain_app in Hc as [Hc1 [[Ea Es] Hc2]].
  unfold dealloc, HEADER_SIZE. rewrite (proj2 (Z.eqb_neq p 0)) by lia. rewrite as_u32_small by lia. cbv zeta. rewrite Ea, Es.
  destruct (insert_spec T1 T2 a s h) as (T' & Hsh & [Hu Htot Hk Hr] & _).
  - by apply chain_app.
  - rewrite Hl, !nf_app. done.
  - eapply tiles_weaken; [exact Ht1|lia|lia].
  - done.
  - lia.
  - done.
  - exists T'. split; [done|]. split; [done|]. split; [|done]. rewrite Htot, !total_app. cbn [total bsize]. lia.
Qed.
End bounds.

(** ** Placement *)

(** The layouts that Rust allows, of at least one byte. *)
Definition valid_layout (l : Layout) : Prop :=
  0 < lsize l ∧ (∃ k, 0 ≤ k ∧ lalign l = 2 ^ k) ∧ lsize l + lalign l ≤ 2 ^ 31.

Lemma align_up_eq x k : 0 ≤ x → 0 ≤ k → x + 2 ^ k ≤ 2 ^ 32 → align_up x (2 ^ k) = (x + 2 ^ k - 1) / 2 ^ k * 2 ^ k.
Proof.
  intros Hx Hk Hb. assert (0 < 2 ^ k) by (apply Z.pow_pos_nonneg; lia). unfold align_up. rewrite as_u32_small by lia.
  set (y := x + 2 ^ k - 1). assert (0 ≤ y < 2 ^ 32) as Hy by lia. clearbody y.
  assert (2 ^ k - 1 = Z.ones k) as -> by (rewrite Z.ones_equiv; lia).
  rewrite <- Z.shiftr_div_pow2, <- Z.shiftl_mul_pow2, <- Z.ldiff_ones_r by lia. apply Z.bits_inj'. intros i Hi.
  rewrite Z.land_spec, Z.ldiff_spec. destruct (decide (i < 32)); [by rewrite testbit_unot by lia|].
  rewrite (testbit_high 32 y) by (unfold is_uint; lia). done.
Qed.

Lemma align_up_spec x k : 0 ≤ x → 0 ≤ k → x + 2 ^ k ≤ 2 ^ 32 →
  x ≤ align_up x (2 ^ k) < x + 2 ^ k ∧ (2 ^ k | align_up x (2 ^ k)).
Proof.
  intros Hx Hk Hb. rewrite align_up_eq by done. assert (0 < 2 ^ k) by (apply Z.pow_pos_nonneg; lia).
  pose proof (Z.div_mod (x + 2 ^ k - 1) (2 ^ k)). pose proof (Z.mod_pos_bound (x + 2 ^ k - 1) (2 ^ k)).
  split; [|apply Z.divide_factor_r]. rewrite (Z.mul_comm _ (2 ^ k)). lia.
Qed.

Lemma payload_align l : valid_layout l → ∃ k, 0 ≤ k ∧ Z.max (lalign l) WORD_ALIGN = 2 ^ k ∧ (lalign l | 2 ^ k) ∧ 2 ^ k ≤ Z.max 4 (2 ^ 31 - lsize l).
Proof.
  intros (H0 & (k & Hk & E) & Hs). unfold WORD_ALIGN. destruct (Z.le_gt_cases 2 k) as [H2|H2].
  - assert (2 ^ 2 ≤ 2 ^ k) by (apply Z.pow_le_mono_r; lia). exists k. rewrite E. split_and!; [done|lia|reflexivity|lia].
  - exists 2. assert (k = 0 ∨ k = 1) as [->| ->] by lia; rewrite E; (split_and!; [lia|done| |lia]); [by exists 4|by exists 2].
Qed.

(** Where a placement puts the header and the parts of the block that stay free. *)
Definition placed (a s : Z) (l : Layout) (P : Z) : Placement :=
  let raw_prefix := P - 8 - a in let raw_suffix := a + s - (P + lsize l) in
  let b := if 8 <=? raw_prefix then P - 8 else a in
  let e := if 8 <=? raw_suffix then P + lsize l else a + s in
  mkPlacement b (e - b) (P - 8) P (if 8 <=? raw_prefix then raw_prefix else 0) e (if 8 <=? raw_suffix then raw_suffix else 0).

Lemma placement_run a s l : 0 < a → 8 ≤ s → a + s ≤ 2 ^ 31 → valid_layout l →
  ∃ P, a + 8 ≤ P < a + 8 + Z.max (lalign l) 4 ∧ (lalign l | P) ∧
    placement_new a s l = if a + s <? P + lsize l then None else Some (placed a s l P).
Proof.
  intros Ha Hs Hb Hl. destruct (payload_align l Hl) as (k & Hk & E & Hd & Hkb). destruct (Hl) as (H0 & _ & _).
  destruct (align_up_spec (a + 8) k) as [HP HdP]; [lia|done|lia|]. exists (align_up (a + 8) (2 ^ k)).
  set (P := align_up (a + 8) (2 ^ k)) in *. unfold WORD_ALIGN in E. split; [lia|]. split; [by etrans|].
  unfold placement_new, checked_add, checked_sub, HEADER_SIZE, min_free_block_size, WORD_ALIGN. rewrite E.
  rewrite (proj2 (Z.ltb_lt (a + s) _)) by lia. cbn [mbind option_bind]. rewrite (proj2 (Z.ltb_lt (a + 8) _)) by lia. cbn [mbind option_bind].
  fold P. rewrite (proj2 (Z.leb_le 8 P)) by lia. cbn [mbind option_bind].
  destruct (Z.ltb_spec (P + lsize l) (2 ^ 32)); cbn [mbind option_bind].
  - destruct (a + s <? P + lsize l); [done|]. rewrite as_u32_small by lia. done.
  - by rewrite (proj2 (Z.ltb_lt _ _)) by lia.
Qed.

(** A block with room for the worst alignment is used. *)
Lemma placement_room a s l : 0 < a → 8 ≤ s → a + s ≤ 2 ^ 31 → valid_layout l → lsize l + lalign l + 13 ≤ s → placement_new a s l ≠ None.
Proof.
  intros Ha Hs Hb Hl Hr. destruct (placement_run a s l Ha Hs Hb Hl) as (P & HP & _ & ->). destruct (Hl) as (_ & (k & Hk & E) & _).
  assert (0 < lalign l) by (rewrite E; apply Z.pow_pos_nonneg; lia). rewrite (proj2 (Z.ltb_ge _ _)) by lia. done.
Qed.

(** ** Allocation from the list *)

Section alloc.
Context (lo hi : Z) (Hlo : 0 < lo) (Hhi : hi ≤ 2 ^ 31).
Local Abbreviation shape := (shape lo hi).

Lemma find_block_spec m l T2 : ∀ fuel T1, chain m (T1 ++ T2) 0 → tiles lo (T1 ++ T2) hi → (frees T2 < fuel)%nat →
  match find_block fuel m (lf T1 0) (nf T2 0) l with
  | Some (prev, current, p) => ∃ U s V, T1 ++ T2 = U ++ Free current s :: V ∧ prev = lf U 0 ∧ placement_new current s l = Some p
  | None => ∀ a s, Free a s ∈ T2 → placement_new a s l = None
  end.
Proof using Hlo.
  induction T2 as [|b T2 IH]; intros fuel T1 Hc Ht Hf; (destruct fuel as [|fuel]; [lia|]).
  - cbn. by intros a s ?%elem_of_nil.
  - assert (T1 ++ b :: T2 = (T1 ++ [b]) ++ T2) as E by (by rewrite <- app_assoc). destruct b as [a s|a s p l'].
    + cbn [nf find_block]. destruct (tiles_free _ _ _ _ _ _ Ht) as (_ & _ & _ & ? & _). rewrite (proj2 (Z.eqb_neq a 0)) by lia.
      pose proof Hc as Hc'. apply chain_app in Hc' as [_ [[-> Hn] _]]. destruct (placement_new a s l) as [p|] eqn:Ep; [by exists T1, s, T2|].
      rewrite Hn. rewrite frees_free in Hf. rewrite E in Hc, Ht. specialize (IH fuel (T1 ++ [Free a s]) Hc Ht ltac:(lia)).
      rewrite lf_app in IH. cbn [lf] in IH. rewrite <- E in IH. destruct (find_block _ _ _ _ _) as [[[prev cur] p]|]; [done|].
      intros a' s' [[= -> ->]|?]%elem_of_cons; [done|by apply IH].
    + rewrite frees_used in Hf. rewrite E in Hc, Ht |- *. specialize (IH (S fuel) (T1 ++ [Used a s p l']) Hc Ht Hf). rewrite lf_app in IH.
      cbn [lf] in IH. cbn [nf]. destruct (find_block _ _ _ _ _) as [[[prev cur] p']|]; [done|].
      intros a' s' [?|?]%elem_of_cons; [done|by apply IH].
Qed.

(** What becomes of a free block of which a part is taken. *)
Definition parts (a s : Z) (l : Layout) (P : Z) : list Blk :=
  let p := placed a s l P in
  (if 8 <=? P - 8 - a then [Free a (P - 8 - a)] else []) ++
  Used (pl_block_start p) (pl_block_size p) P l ::
  (if 8 <=? a + s - (P + lsize l) then [Free (P + lsize l) (a + s - (P + lsize l))] else []).

Lemma parts_tiles a s l P U V : tiles lo (U ++ Free a s :: V) hi → a + 8 ≤ P → P + lsize l ≤ a + s → 0 < lsize l → (lalign l | P) →
  tiles lo (U ++ parts a s l P ++ V) hi.
Proof using.
  clear. intros Ht HP He H0 Hd. destruct (tiles_free _ _ _ _ _ _ Ht) as (H1 & H2 & H3 & H4 & H5). apply tiles_app. exists a. split; [done|].
  unfold parts, placed. cbv zeta. cbn [pl_block_start pl_block_size].
  destruct (Z.leb_spec 8 (P - 8 - a)), (Z.leb_spec 8 (a + s - (P + lsize l))); cbn [app tiles bstart bsize blk_ok];
    (split_and!; first [lia|done|idtac]); (eapply tiles_weaken; [exact H3|lia|lia]).
Qed.

Lemma parts_used a s l P U V : ∃ b n, used (U ++ parts a s l P ++ V) = used U ++ Used b n P l :: used V.
Proof using.
  clear. unfold parts. cbv zeta. do 2 eexists. rewrite !used_app.
  destruct (8 <=? P - 8 - a), (8 <=? a + s - (P + lsize l)); cbn [app]; reflexivity.
Qed.

Lemma parts_total a s l P U V : total (U ++ parts a s l P ++ V) = total (U ++ Free a s :: V).
Proof using.
  clear. rewrite !total_app. cbn [total bsize]. unfold parts, placed. cbv zeta.
  destruct (8 <=? P - 8 - a), (8 <=? a + s - (P + lsize l)); cbn [app total bsize pl_block_size]; lia.
Qed.

Lemma header_spec P x y m l n : word_ok (P - 8) → 0 ≤ x < 2 ^ 32 → 0 ≤ y < 2 ^ 32 →
  let m' := write_u32 y (P - 8 + 4) (write_u32 x (P - 8) m) in meta m' (Used x y P l) n ∧ agree m m' (P - 8) P.
Proof using.
  clear. intros HH Hx Hy m'. destruct (set_node (P - 8) x y m HH Hx Hy) as [Hm Hag]. split; [exact Hm|].
  intros b Hb. apply Hag. lia.
Qed.

(** Memory after the header of a part has been written. *)
Definition sealed (a s : Z) (l : Layout) (P : Z) (m : Mem) : Mem :=
  let p := placed a s l P in write_u32 (pl_block_size p) (P - 8 + 4) (write_u32 (pl_block_start p) (P - 8) m).

Lemma sealed_spec a s l P m : 0 < a → a + s ≤ 2 ^ 31 → a + 8 ≤ P → 0 < lsize l → P + lsize l ≤ a + s →
  (∀ n, meta (sealed a s l P m) (Used (pl_block_start (placed a s l P)) (pl_block_size (placed a s l P)) P l) n) ∧
  agree m (sealed a s l P m) (P - 8) P.
Proof using.
  clear. intros Ha Hb HP H0 He. unfold sealed, placed. cbv zeta. cbn [pl_block_start pl_block_size].
  set (x := if 8 <=? P - 8 - a then P - 8 else a). set (y := (if 8 <=? a + s - (P + lsize l) then P + lsize l else a + s) - x).
  assert (0 ≤ x < 2 ^ 32 ∧ 0 ≤ y < 2 ^ 32) as [Hx Hy].
  { unfold y, x. destruct (Z.leb_spec 8 (P - 8 - a)), (Z.leb_spec 8 (a + s - (P + lsize l))); lia. }
  assert (word_ok (P - 8)) as Hw by (unfold word_ok; lia). split; [intros n|]; by eapply (header_spec P x y m l).
Qed.

(** The front of the block stays free: the list is as it was, but for the part
    behind. *)
Lemma take_behind U a s V l P h : shape (U ++ Free a s :: V) h → a + 8 ≤ P → P + lsize l ≤ a + s → 0 < lsize l → 8 ≤ P - 8 - a →
  let n := next (memory h) a in let E := P + lsize l in
  let m1 := set_next a n (set_size a (P - 8 - a) (memory h)) in
  let m2 := if 8 <=? a + s - E then set_next a E (set_next E n (set_size E (a + s - E) m1)) else m1 in
  chain (sealed a s l P m2) (U ++ parts a s l P ++ V) 0 ∧ agree (memory h) (sealed a s l P m2) a (a + s).
Proof using Hlo Hhi.
  intros [Ht Hc Hl] HP He H0 Hpre n E m1 m2. destruct (tiles_free _ _ _ _ _ _ Ht) as (H1 & H2 & H3 & H4 & H5).
  apply chain_app in Hc as [Hc1 [[Es En] Hc2]]. assert (0 ≤ n < 2 ^ 32) as Hn by (unfold n; rewrite En; destruct (nf_bound _ _ _ 0 H3); lia).
  destruct (set_node a (P - 8 - a) n (memory h)) as [Hm1 A1]; [unfold word_ok; lia|lia|lia|]. fold m1 in Hm1, A1.
  destruct (sealed_spec a s l P m2) as [Hhead A3]; [lia|lia|lia|lia|lia|].
  assert (meta m2 (Free a (P - 8 - a)) (if 8 <=? a + s - E then E else n) ∧ agree (memory h) m2 a (a + s) ∧
    (8 ≤ a + s - E → meta m2 (Free E (a + s - E)) n)) as (Hfront & A2 & Hback).
  { unfold m2. destruct (Z.leb_spec 8 (a + s - E)) as [Hsuf|Hsuf].
    - destruct (set_node E (a + s - E) n m1) as [Hm2 A2]; [unfold word_ok, E in *; lia|lia|lia|]. set (m1' := set_next E n _) in *.
      destruct (set_next_spec a E m1') as (E1 & E2 & A2'); [unfold word_ok; lia|unfold E; lia|]. split_and!.
      + split; [|done]. etrans; [exact E2|]. apply (meta_agree _ _ _ _ (Free a (P - 8 - a)) n A2); cbn [bstart bsize blk_ok]; [lia..|unfold E; lia|exact Hm1].
      + assert (agree (memory h) m1' a (a + s)) as A12 by (eapply agree_trans; [exact A1|exact A2|unfold E in *; lia..]).
        eapply agree_trans; [exact A12|exact A2'|lia..].
      + intros _. eapply meta_agree; [exact A2'|cbn [bstart bsize blk_ok]; unfold E in *; lia..|exact Hm2].
    - split_and!; [done|intros x Hx; apply A1; lia|lia]. }
  assert (agree (memory h) (sealed a s l P m2) a (a + s)) as A by (eapply agree_trans; [exact A2|exact A3|lia..]). split; [|exact A].
  apply chain_app. split.
  - eapply chain_agree; [exact A|exact H1|lia..|]. unfold parts. cbv zeta. rewrite (proj2 (Z.leb_le 8 (P - 8 - a))) by done. exact Hc1.
  - apply chain_app. split; [|eapply chain_agree; [exact A|exact H3|lia..|exact Hc2]]. unfold parts. cbv zeta.
    rewrite (proj2 (Z.leb_le 8 (P - 8 - a))) by done. fold E. rewrite <- En. fold n. cbn [app chain nf]. split; [|split; [apply Hhead|]].
    + eapply meta_agree; [exact A3|cbn [bstart bsize blk_ok]; lia..|]. destruct (8 <=? a + s - E); exact Hfront.
    + destruct (Z.leb_spec 8 (a + s - E)); [|done]. split; [|done]. eapply meta_agree; [exact A3|cbn [bstart bsize blk_ok]; unfold E in *; lia..|by apply Hback].
Qed.

(** The block leaves the list, or only its end stays in it. *)
Lemma take_front U a s V l P h : shape (U ++ Free a s :: V) h → a + 8 ≤ P → P + lsize l ≤ a + s → 0 < lsize l → P - 8 - a < 8 →
  let n := next (memory h) a in let E := P + lsize l in
  let m1 := if 8 <=? a + s - E then set_next E n (set_size E (a + s - E) (memory h)) else memory h in
  let v := if 8 <=? a + s - E then E else n in
  chain (sealed a s l P (relink U v m1)) (U ++ parts a s l P ++ V) 0 ∧
  keeps (free_area (U ++ Free a s :: V)) (memory h) (sealed a s l P (relink U v m1)) ∧
  (if lf U 0 =? 0 then v else free_list h) = nf (U ++ parts a s l P ++ V) 0.
Proof using Hlo Hhi.
  intros [Ht Hc Hl] HP He H0 Hpre n E m1 v. destruct (tiles_free _ _ _ _ _ _ Ht) as (H1 & H2 & H3 & H4 & H5).
  apply chain_app in Hc as [Hc1 [[Es En] Hc2]]. assert (0 ≤ n < 2 ^ 32) as Hn by (unfold n; rewrite En; destruct (nf_bound _ _ _ 0 H3); lia).
  assert (0 ≤ v < 2 ^ 32) as Hv by (unfold v, E; destruct (Z.leb_spec 8 (a + s - (P + lsize l))); lia).
  destruct (sealed_spec a s l P (relink U v m1)) as [Hhead A3]; [lia..|].
  assert (agree (memory h) m1 a (a + s) ∧ (8 ≤ a + s - E → meta m1 (Free E (a + s - E)) n)) as [A1 Hback].
  { unfold m1. destruct (Z.leb_spec 8 (a + s - E)); [|split; [done|lia]].
    destruct (set_node E (a + s - E) n (memory h)) as [Hm A]; [unfold word_ok, E in *; lia|lia|lia|]. split; [|done].
    intros x Hx. apply A. unfold E in *. lia. }
  assert (chain m1 U a) as HcU by (eapply chain_agree; [exact A1|exact H1|lia..|exact Hc1]).
  destruct (relink_spec m1 U lo a a v HcU H1) as [HcU2 _]; [lia..|].
  destruct (relink_keeps m1 U lo a a v (free_area (U ++ Free a s :: V)) HcU H1) as [Hk A2]; [lia..|intros x Hx; apply free_area_app; by left|].
  assert (∀ x, a ≤ x < a + s → free_area (U ++ Free a s :: V) x) as Harea by (intros x Hx; exists a, s; split; [apply elem_of_app; right; left|lia]).
  assert (nf (parts a s l P ++ V) 0 = v) as Hnv.
  { unfold parts, v. fold E. rewrite (proj2 (Z.leb_gt 8 _)) by lia. destruct (8 <=? a + s - E); [done|]. cbn [app nf]. done. }
  split_and!.
  - apply chain_app. rewrite Hnv. split; [eapply chain_agree; [exact A3|exact H1|lia..|exact HcU2]|]. apply chain_app. split.
    + unfold parts. cbv zeta. fold E. rewrite (proj2 (Z.leb_gt 8 (P - 8 - a))) by lia. cbn [app chain nf]. split; [apply Hhead|].
      rewrite <- En. fold n. destruct (Z.leb_spec 8 (a + s - E)); [|done]. split; [|done].
      eapply meta_agree; [exact A3|cbn [bstart bsize blk_ok]; unfold E in *; lia..|].
      eapply meta_agree; [exact A2|cbn [bstart bsize blk_ok]; unfold E in *; lia..|by apply Hback].
    + eapply chain_agree; [exact A3|exact H3|lia..|]. eapply chain_agree; [exact A2|exact H3|lia..|].
      eapply chain_agree; [exact A1|exact H3|lia..|exact Hc2].
  - eapply keeps_mem_trans; [eapply agree_keeps; [exact A1|exact Harea]| |intros x [Hx|Hx]; exact Hx].
    eapply keeps_mem_trans; [exact Hk|eapply agree_keeps; [exact A3|intros x Hx; refine (Harea x _); lia]|intros x [Hx|Hx]; exact Hx].
  - rewrite nf_app, Hnv, Hl, nf_app. cbn [nf]. destruct (last_free U) as [(_ & HnU & HlU)|(U1 & b & t & U2 & -> & _ & HlU)].
    + by rewrite HlU, HnU.
    + rewrite (HlU 0). destruct (tiles_in _ _ _ (Free b t) H1) as (? & _ & _); [apply elem_of_app; right; left|]. cbn [bstart] in *.
      rewrite (proj2 (Z.eqb_neq b 0)) by lia. rewrite !nf_app. done.
Qed.

(** [take_from_block]: the block is cut in the parts of its placement. *)
Lemma take_spec U a s V l P h : shape (U ++ Free a s :: V) h → a + 8 ≤ P → P + lsize l ≤ a + s → 0 < lsize l → (lalign l | P) →
  let r := take_from_block (lf U 0) a (placed a s l P) h in
  r.1 = P ∧ shape (U ++ parts a s l P ++ V) r.2 ∧
  keeps (free_area (U ++ Free a s :: V)) (memory h) (memory r.2) ∧ rest r.2 = rest h.
Proof using Hlo Hhi.
  intros Hsh HP He H0 Hd r. split; [done|]. assert (tiles lo (U ++ parts a s l P ++ V) hi) as Htp by (apply parts_tiles; [apply Hsh|done..]).
  assert (∀ x, a ≤ x < a + s → free_area (U ++ Free a s :: V) x) as Harea by (intros x Hx; exists a, s; split; [apply elem_of_app; right; left|lia]).
  destruct (Z.leb_spec 8 (P - 8 - a)) as [Hpre|Hpre].
  - destruct (take_behind U a s V l P h Hsh HP He H0 Hpre) as [Hc A]. cbv zeta in Hc, A.
    assert (r.2 = with_memory (sealed a s l P (if 8 <=? a + s - (P + lsize l)
      then set_next a (P + lsize l) (set_next (P + lsize l) (next (memory h) a) (set_size (P + lsize l) (a + s - (P + lsize l))
        (set_next a (next (memory h) a) (set_size a (P - 8 - a) (memory h)))))
      else set_next a (next (memory h) a) (set_size a (P - 8 - a) (memory h)))) h) as ->.
    { unfold r, take_from_block, sealed, placed, min_free_block_size. cbv zeta. cbn [pl_prefix_size pl_suffix_size pl_suffix_start pl_header_start pl_block_start pl_block_size].
      rewrite (proj2 (Z.leb_le 8 (P - 8 - a))) by done. rewrite (proj2 (Z.leb_le 8 (P - 8 - a))) by done.
      destruct (Z.leb_spec 8 (a + s - (P + lsize l))) as [Hs|Hs]; [rewrite (proj2 (Z.leb_le 8 _)) by done|rewrite (proj2 (Z.leb_gt 8 0)) by done]; done. }
    split_and!; [split; [exact Htp|exact Hc|]|eapply agree_keeps; [exact A|exact Harea]|done].
    cbn [free_list with_memory]. rewrite (sh_list _ _ _ _ Hsh), !nf_app. unfold parts. cbv zeta. rewrite (proj2 (Z.leb_le 8 (P - 8 - a))) by done. done.
  - destruct (take_front U a s V l P h Hsh HP He H0 Hpre) as (Hc & Hk & Hf). cbv zeta in Hc, Hk, Hf.
    set (v := if 8 <=? a + s - (P + lsize l) then P + lsize l else next (memory h) a) in *.
    set (m1 := if 8 <=? a + s - (P + lsize l) then _ else memory h) in *.
    assert (r.2 = mkHeap (sealed a s l P (relink U v m1)) (if lf U 0 =? 0 then v else free_list h) (heap_end h) (initialized h) (kernel h)) as ->.
    { unfold r, take_from_block, sealed, placed, min_free_block_size. cbv zeta. cbn [pl_prefix_size pl_suffix_size pl_suffix_start pl_header_start pl_block_start pl_block_size].
      rewrite (proj2 (Z.leb_gt 8 (P - 8 - a))) by done. rewrite (proj2 (Z.leb_gt 8 0)) by done. unfold v, m1, relink.
      destruct (Z.leb_spec 8 (a + s - (P + lsize l))) as [Hs|Hs]; [rewrite (proj2 (Z.leb_le 8 _)) by done|rewrite (proj2 (Z.leb_gt 8 0)) by done];
        unfold replace_block, remove_block; destruct (lf U 0 =? 0); done. }
    split_and!; [split; [exact Htp|exact Hc|exact Hf]|exact Hk|done].
Qed.
End alloc.

(** ** What the heap promises *)

(** A process's memory: the code, the heap above it, the stack on top. *)
Definition layout_ok (k : Task.TaskMemoryLayout) : Prop :=
  0 < Task.end_code k ∧ Task.end_code k ≤ Task.brk k < 2 ^ 31 ∧ Process.MIN_STACK_GAP ≤ Task.start_stack k ≤ 2 ^ 31.

(** The blocks of the heap end at the break. *)
Record heap_ok (T : list Blk) (h : Heap) : Prop := {
  ho_layout : layout_ok (kernel h);
  ho_shape : ∃ lo, 0 < lo ∧ shape lo (Task.brk (kernel h)) T h;
  ho_end : if initialized h then heap_end h = Task.brk (kernel h) else T = [];
}.

(** The memory of the live allocations is the same. *)
Definition same_data (T : list Blk) (m m' : Mem) : Prop :=
  ∀ a s p l x, Used a s p l ∈ T → p ≤ x < p + lsize l → m' x = m x.

Lemma tiles_disjoint lo T hi b1 b2 : tiles lo T hi → b1 ∈ T → b2 ∈ T →
  b1 = b2 ∨ bstart b1 + bsize b1 ≤ bstart b2 ∨ bstart b2 + bsize b2 ≤ bstart b1.
Proof.
  revert lo. induction T as [|b T IH]; intros lo; [by intros _ ?%elem_of_nil|]. intros (H1 & H2 & H3) [->|Hb1]%elem_of_cons [->|Hb2]%elem_of_cons.
  - by left.
  - destruct (tiles_in _ _ _ _ H3 Hb2). right. left. lia.
  - destruct (tiles_in _ _ _ _ H3 Hb1). right. right. lia.
  - by eapply IH.
Qed.

(** Writes to free memory do not reach the allocations. *)
Lemma keeps_data lo T hi (T0 : list Blk) m m' : tiles lo T hi → keeps (free_area T) m m' → (∀ a s p l, Used a s p l ∈ T0 → Used a s p l ∈ T) →
  same_data T0 m m'.
Proof.
  intros Ht Hk Hin a s p l x Hu%Hin Hx. apply Hk. intros (b & t & Hf & Hb). destruct (tiles_in _ _ _ _ Ht Hu) as (_ & _ & Hok). cbn in Hok.
  destruct (tiles_disjoint _ _ _ _ _ Ht Hu Hf) as [?|?]; [done|]. cbn [bstart bsize] in *. lia.
Qed.

Lemma used_in T a s p l : Used a s p l ∈ T ↔ Used a s p l ∈ used T.
Proof. unfold used. rewrite list_elem_of_filter. naive_solver. Qed.

Lemma same_used T T' a s p l : used T' = used T → Used a s p l ∈ T → Used a s p l ∈ T'.
Proof. intros E Hin%used_in. apply used_in. by rewrite E. Qed.

(** *** The break *)

Lemma brk_moves x k : layout_ok k → Task.end_code k ≤ x → x < Task.start_stack k - Process.MIN_STACK_GAP →
  Process.sys_brk x k = (x, Task.mkLayout (Task.end_code k) (Task.end_data k) x (Task.start_stack k)).
Proof.
  intros (H1 & H2 & H3) Hx Hs. unfold Process.sys_brk, wrapping_sub. rewrite wrap_small by (unfold is_uint; unfold Process.MIN_STACK_GAP in *; lia).
  rewrite (proj2 (Z.leb_le _ _)), (proj2 (Z.ltb_lt _ _)) by done. done.
Qed.

Lemma brk_stays x k : layout_ok k → x < Task.end_code k ∨ Task.start_stack k - Process.MIN_STACK_GAP ≤ x → Process.sys_brk x k = (Task.brk k, k).
Proof.
  intros (H1 & H2 & H3) Hx. unfold Process.sys_brk, wrapping_sub. rewrite wrap_small by (unfold is_uint; unfold Process.MIN_STACK_GAP in *; lia).
  destruct (Z.leb_spec (Task.end_code k) x), (Z.ltb_spec x (Task.start_stack k - Process.MIN_STACK_GAP)); first [done|lia].
Qed.

Lemma with_kernel_id h : with_kernel (kernel h) h = h.
Proof. by destruct h. Qed.

Lemma current_break T h : heap_ok T h → (if initialized h then (Some (heap_end h), h) else syscall_brk 0 h) = (Some (Task.brk (kernel h)), h).
Proof.
  intros [Hk _ He]. destruct (initialized h); [by rewrite He|]. unfold syscall_brk. destruct (Hk) as (H1 & H2 & H3). rewrite brk_stays by (done || by left; lia).
  rewrite (proj2 (Z.ltb_lt _ _)) by lia. by rewrite with_kernel_id.
Qed.

Lemma align_page x : 0 ≤ x → x + 4096 ≤ 2 ^ 32 → x ≤ align_up x PAGE_SIZE < x + 4096.
Proof. intros Hx Hb. apply (align_up_spec x 12); [lia|lia|exact Hb]. Qed.

Lemma align_word x : 0 ≤ x → x + 4 ≤ 2 ^ 32 → x ≤ align_up x WORD_ALIGN < x + 4.
Proof. intros Hx Hb. apply (align_up_spec x 2); [lia|lia|exact Hb]. Qed.

(** The bytes by which a request moves the break. *)
Definition growth (l : Layout) : Z := align_up (Z.max (lsize l + 8 + lalign l + 8) PAGE_SIZE) PAGE_SIZE.

Lemma growth_bound l : valid_layout l → lsize l + lalign l + 16 ≤ growth l ≤ lsize l + lalign l + 8208 ∧ 4096 ≤ growth l.
Proof.
  intros (H0 & (k & Hk & E) & Hs). assert (0 < lalign l) by (rewrite E; apply Z.pow_pos_nonneg; lia).
  pose proof (align_page (Z.max (lsize l + 8 + lalign l + 8) PAGE_SIZE)). unfold growth, PAGE_SIZE in *. lia.
Qed.

(** [grow] adds a free block with room for the request at the end of the heap, or
    the stack is too near. *)
Lemma grow_spec T l h : heap_ok T h → valid_layout l →
  let r := grow l h in
  if r.1 then ∃ T', heap_ok T' r.2 ∧ used T' = used T ∧ same_data T (memory h) (memory r.2) ∧
      (∃ a s, Free a s ∈ T' ∧ lsize l + lalign l + 13 ≤ s)
  else r.2 = h ∧ Task.start_stack (kernel h) - Process.MIN_STACK_GAP ≤ Task.brk (kernel h) + growth l.
Proof.
  intros Hok Hl r. pose proof Hok as [Hk (lo & Hlo & Hsh) He]. pose proof Hk as (Hk1 & Hk2 & Hk3). destruct (growth_bound l Hl) as [Hg Hg4].
  pose proof Hl as (H0 & (j & Hj & Ej) & Hs). assert (0 < lalign l) by (rewrite Ej; apply Z.pow_pos_nonneg; lia).
  subst r. unfold grow. rewrite (current_break T h Hok). cbv beta iota zeta. unfold saturating_add, HEADER_SIZE, min_free_block_size.
  rewrite !Z.min_r by lia. change (align_up (Z.max _ PAGE_SIZE) PAGE_SIZE) with (growth l). set (b := Task.brk (kernel h)) in *.
  unfold checked_add, syscall_brk.
  destruct (Z.lt_ge_cases (b + growth l) (Task.start_stack (kernel h) - Process.MIN_STACK_GAP)) as [Hroom|Hroom].
  2:{ destruct (Z.ltb_spec (b + growth l) (2 ^ 32)); [|done]. rewrite brk_stays by (done || by right). rewrite (proj2 (Z.ltb_lt _ (2 ^ 31))) by lia. rewrite with_kernel_id. fold b. rewrite (proj2 (Z.ltb_lt b _)) by lia. done. }
  unfold Process.MIN_STACK_GAP in Hroom, Hk3. rewrite (proj2 (Z.ltb_lt _ (2 ^ 32))) by lia. rewrite brk_moves by (done || unfold Process.MIN_STACK_GAP, b; lia). rewrite (proj2 (Z.ltb_lt _ (2 ^ 31))) by lia. rewrite Z.ltb_irrefl.
  cbn [with_kernel memory free_list kernel]. destruct (align_word b) as [Hst1 Hst2]; [lia..|]. set (start := align_up b WORD_ALIGN) in *.
  rewrite (proj2 (Z.leb_gt _ _)), (proj2 (Z.ltb_ge _ _)) by lia. cbn [fst snd]. set (k' := Task.mkLayout _ _ _ _). set (h' := mkHeap _ _ _ _ k').
  destruct Hsh as [Ht Hc Hf]. assert (start + (b + growth l - start) = b + growth l) as Eend by lia.
  assert (tiles lo T start) as HtS by (eapply tiles_weaken; [exact Ht|lia|lia]).
  assert (tiles (start + (b + growth l - start)) [] (b + growth l)) as Hnil by (cbn; lia).
  destruct (insert_spec lo (b + growth l) Hlo ltac:(lia) T [] start (b + growth l - start) h') as (T' & Hsh' & [Hu Htot Hkeep Hr] & _ & Hbig);
    [by rewrite app_nil_r|by rewrite app_nil_r|done|done|lia|cbn; lia|].
  rewrite app_nil_r in Hu. injection Hr as R1 R2 R3. exists T'. split_and!.
  - split; [rewrite R3; unfold k', layout_ok, Process.MIN_STACK_GAP; cbn [kernel h' Task.end_code Task.brk Task.start_stack]; lia|rewrite R3; by exists lo|by rewrite R2, R1, R3].
  - done.
  - eapply keeps_data; [|exact Hkeep|].
    + apply tiles_app. exists start. split; [exact HtS|]. split; [cbn; lia|]. split; [cbn; lia|exact Hnil].
    + intros. apply elem_of_app. by left.
  - destruct (Hbig start (b + growth l - start)) as (a & s & Hin & Has); [apply elem_of_app; right; left|]. exists a, s. split; [done|lia].
Qed.

(** [try_alloc] takes the first block with room. *)
Lemma try_alloc_spec T l h : heap_ok T h → valid_layout l →
  match try_alloc l h with
  | Some (p, h') => ∃ T' U V b n, heap_ok T' h' ∧ used T = U ++ V ∧ used T' = U ++ Used b n p l :: V ∧
      total T' = total T ∧ same_data T (memory h) (memory h') ∧ kernel h' = kernel h
  | None => ∀ a s, Free a s ∈ T → placement_new a s l = None
  end.
Proof.
  intros [Hk (lo & Hlo & Hsh) He] Hl. pose proof Hk as (_ & Hb & _). unfold try_alloc. assert (Task.brk (kernel h) ≤ 2 ^ 31) as Hhi by lia.
  pose proof (find_block_spec lo (Task.brk (kernel h)) Hlo (memory h) l T (S (max_blocks h)) []) as Hfind. cbn [app lf] in Hfind.
  rewrite <- (sh_list _ _ _ _ Hsh) in Hfind. specialize (Hfind (sh_chain _ _ _ _ Hsh) (sh_tiles _ _ _ _ Hsh)).
  assert (frees T < S (max_blocks h))%nat as Hfuel.
  { unfold max_blocks. destruct (initialized h); [|subst T; cbn; lia]. pose proof (tiles_count _ _ _ (sh_tiles _ _ _ _ Hsh)).
    rewrite He. Z.to_euclidean_division_equations. lia. }
  specialize (Hfind Hfuel). destruct (find_block _ _ _ _ _) as [[[prev a] p]|]; [|exact Hfind]. cbn [mbind option_bind].
  destruct Hfind as (U & s & V & -> & -> & Hp). destruct (tiles_free _ _ _ _ _ _ (sh_tiles _ _ _ _ Hsh)) as (_ & H2 & _ & H4 & H5).
  destruct (placement_run a s l) as (P & HP & Hd & Er); [lia|done|lia|done|]. rewrite Er in Hp.
  destruct (Z.ltb_spec (a + s) (P + lsize l)); [done|]. injection Hp as <-. destruct Hl as (H0 & _ & _).
  destruct (take_spec lo _ Hlo Hhi U a s V l P h Hsh) as (<- & Hsh' & Hkeep & Hr); [lia..|done|].
  set (r := take_from_block _ _ _ _) in *. destruct r as [q h'] eqn:Eqr. cbn [fst snd] in *. injection Hr as R1 R2 R3.
  destruct (parts_used a s l q U V) as (b & n & Eu). exists (U ++ parts a s l q ++ V), (used U), (used V), b, n. split_and!.
  - split; [by rewrite R3|rewrite R3; by exists lo|]. rewrite R2, R1, R3. destruct (initialized h); [done|]. by destruct U.
  - by rewrite used_app.
  - exact Eu.
  - apply parts_total.
  - eapply keeps_data; [exact (sh_tiles _ _ _ _ Hsh)|exact Hkeep|done].
  - done.
Qed.

Lemma block_place T a s p l h : heap_ok T h → Used a s p l ∈ T →
  0 < a ∧ a + s ≤ Task.brk (kernel h) ∧ a + 8 ≤ p ∧ 0 < lsize l ∧ p + lsize l ≤ a + s ∧ (lalign l | p).
Proof.
  intros [_ (lo & Hlo & Hsh) _] Hin. destruct (tiles_in _ _ _ _ (sh_tiles _ _ _ _ Hsh) Hin) as (H1 & H2 & H3). cbn [bstart bsize blk_ok] in *.
  split_and!; [lia|lia|tauto..].
Qed.

(** [alloc] ends: what [grow] adds is enough. *)
Lemma heap_alloc_spec T l h : heap_ok T h → valid_layout l →
  ∃ p h', alloc 2 l h = Some (p, h') ∧
    (p = 0 ∧ h' = h ∧ Task.start_stack (kernel h) - Process.MIN_STACK_GAP ≤ Task.brk (kernel h) + growth l ∨
     0 < p ∧ ∃ T' U V b n, heap_ok T' h' ∧ used T = U ++ V ∧ used T' = U ++ Used b n p l :: V ∧ same_data T (memory h) (memory h')).
Proof.
  intros Hok Hl. unfold alloc. rewrite (proj2 (Z.eqb_neq _ 0)) by (destruct Hl; lia).
  assert (∀ T1 h1 p h', heap_ok T1 h1 → try_alloc l h1 = Some (p, h') → 0 < p ∧ ∃ T' U V b n,
    heap_ok T' h' ∧ used T1 = U ++ V ∧ used T' = U ++ Used b n p l :: V ∧ same_data T1 (memory h1) (memory h')) as Htry.
  { intros T1 h1 p h' Hok1 E. pose proof (try_alloc_spec T1 l h1 Hok1 Hl) as Hs. rewrite E in Hs.
    destruct Hs as (T' & U & V & b & n & Hok' & Hu & Hu' & _ & Hd & _). split; [|by exists T', U, V, b, n].
    destruct (block_place T' b n p l h' Hok') as (? & _ & ? & _); [|lia]. apply used_in. rewrite Hu'. apply elem_of_app. right. by left. }
  cbn [alloc_loop]. destruct (try_alloc l h) as [[p h']|] eqn:E1; [exists p, h'; split; [done|right; by apply Htry]|].
  pose proof (grow_spec T l h Hok Hl) as Hg. destruct (grow l h) as [[] h1]; cbn [fst snd] in Hg; [|exists 0, h1; split; [done|left; by destruct Hg]].
  destruct Hg as (T1 & Hok1 & Hu1 & Hd1 & a & s & Hin & Hbig). destruct (try_alloc l h1) as [[p h']|] eqn:E2.
  - exists p, h'. split; [done|right]. destruct (Htry T1 h1 p h' Hok1 E2) as (Hp & T' & U & V & b & n & Hok' & Hu & Hu' & Hd). split; [done|].
    exists T', U, V, b, n. split_and!; [done|congruence|done|]. intros a' s' q l' x Hq Hx.
    rewrite (Hd a' s' q l' x (same_used T T1 _ _ _ _ Hu1 Hq) Hx). by eapply Hd1.
  - exfalso. pose proof (try_alloc_spec T1 l h1 Hok1 Hl) as Hnone. rewrite E2 in Hnone. pose proof Hok1 as [(_ & Hb & _) (lo & Hlo & Hsh) _].
    destruct (tiles_in _ _ _ _ (sh_tiles _ _ _ _ Hsh) Hin) as (? & ? & Hs). cbn [bstart bsize blk_ok] in *.
    apply (placement_room a s l); [lia|done|lia|done|done|by apply Hnone].
Qed.

(** [dealloc] frees the block of the pointer. *)
Lemma heap_dealloc_spec T a s p l h : heap_ok T h → Used a s p l ∈ T →
  ∃ T' U V, heap_ok T' (dealloc p h) ∧ used T = U ++ Used a s p l :: V ∧ used T' = U ++ V ∧ same_data T' (memory h) (memory (dealloc p h)).
Proof.
  intros [Hk (lo & Hlo & Hsh) He] [T1 [T2 ->]]%list_elem_of_split. pose proof Hk as (_ & Hb & _).
  destruct (initialized h) eqn:Ei; [|by destruct T1].
  destruct (release_spec lo (Task.brk (kernel h)) Hlo ltac:(lia) T1 a s p l T2 h Hsh) as (T' & Hsh' & Hu & _ & Hkeep & Hr); [lia|].
  injection Hr as R1 R2 R3. rewrite used_app in Hu. exists T', (used T1), (used T2). split_and!.
  - split; [by rewrite R3|rewrite R3; by exists lo|by rewrite R2, Ei, R1, R3].
  - by rewrite used_app.
  - done.
  - eapply keeps_data; [|exact Hkeep|].
    + pose proof (sh_tiles _ _ _ _ Hsh) as (mid & Ht1 & H1 & H2 & Ht2)%tiles_app. apply tiles_app. exists mid. split; [exact Ht1|].
      split; [exact H1|]. split; [|exact Ht2]. cbn in *. lia.
    + intros b n q k Hq%used_in. rewrite Hu, <- used_app, <- used_in in Hq. apply elem_of_app in Hq. apply elem_of_app.
      destruct Hq; [by left|right; by right].
Qed.

(** ** Clients *)

(** The live allocations: a pointer's layout and what it was last filled with. *)
Abbreviation View := (gmap Z (Layout * list Z)).

Inductive Request : Set := Alloc (l : Layout) | Dealloc (p : Z) | Read (p i : Z) | Write (p i x : Z).

Definition serve (r : Request) (h : Heap) : option (Z * Heap) :=
  match r with
  | Alloc l => alloc 2 l h
  | Dealloc p => Some (0, dealloc p h)
  | Read p i => Some (read_u8 (memory h) (p + i), h)
  | Write p i x => Some (0, with_memory (write_u8 x (p + i) (memory h)) h)
  end.

(** A client frees and uses what is allocated. *)
Definition allowed (v : View) (r : Request) : Prop :=
  match r with
  | Alloc l => valid_layout l
  | Dealloc p => is_Some (v !! p)
  | Read p i | Write p i _ => ∃ l d, v !! p = Some (l, d) ∧ 0 ≤ i < lsize l
  end.

Definition contents (m : Mem) (p n : Z) : list Z := (λ i, m (p + i)) <$> seqZ 0 n.

Definition after (v : View) (r : Request) (answer : Z) (h' : Heap) : View :=
  match r with
  | Alloc l => if answer =? 0 then v else <[answer := (l, contents (memory h') answer (lsize l))]> v
  | Dealloc p => delete p v
  | Read _ _ => v
  | Write p i x => alter (λ '(l, d), (l, <[Z.to_nat i := x]> d)) p v
  end.

(** What the client may rely on. *)
Definition promise (v : View) (r : Request) (h : Heap) (answer : Z) (h' : Heap) : Prop :=
  match r with
  | Alloc l =>
      answer = 0 ∧ Task.start_stack (kernel h) - Process.MIN_STACK_GAP ≤ Task.brk (kernel h) + growth l ∨
      0 < answer ∧ (lalign l | answer) ∧ answer + lsize l ≤ Task.brk (kernel h') ∧
        ∀ q l' d, v !! q = Some (l', d) → answer + lsize l ≤ q ∨ q + lsize l' ≤ answer
  | Read p i => ∀ l d, v !! p = Some (l, d) → d !! Z.to_nat i = Some answer
  | Dealloc _ | Write _ _ _ => True
  end.

Definition new_heap (m : Mem) (k : Task.TaskMemoryLayout) : Heap := mkHeap m 0 0 false k.

Inductive reach (m : Mem) (k : Task.TaskMemoryLayout) : View → Heap → Prop :=
  | reach_new : reach m k ∅ (new_heap m k)
  | reach_step v h r answer h' : reach m k v h → allowed v r → serve r h = Some (answer, h') → reach m k (after v r answer h') h'.

(** The used blocks are the live allocations. *)
Record represents (T : list Blk) (v : View) (h : Heap) : Prop := {
  rp_heap : heap_ok T h;
  rp_live : ∀ p l, (∃ a s, Used a s p l ∈ T) ↔ ∃ d, v !! p = Some (l, d);
  rp_data : ∀ p l d, v !! p = Some (l, d) → d = contents (memory h) p (lsize l);
}.

(** *** Contents *)

Lemma contents_lookup m p n j : (Z.of_nat j < n) → contents m p n !! j = Some (m (p + Z.of_nat j)).
Proof. intros Hj. unfold contents. by rewrite list_lookup_fmap, lookup_seqZ_lt by lia. Qed.

Lemma contents_eq m m' p n : (∀ x, p ≤ x < p + n → m' x = m x) → contents m' p n = contents m p n.
Proof. intros E. apply list_fmap_ext. intros j x Hx. apply lookup_seqZ in Hx as [-> Hx]. apply E. lia. Qed.

Lemma contents_write m p n i x : 0 ≤ i < n → 0 ≤ p → p + n ≤ 2 ^ 32 →
  <[Z.to_nat i := x]> (contents m p n) = contents (write_u8 x (p + i) m) p n.
Proof.
  intros Hi Hp Hn. apply list_eq. intros j. assert (length (contents m p n) = Z.to_nat n) as Hlen by (unfold contents; by rewrite length_fmap, length_seqZ).
  destruct (decide (Z.of_nat j < n)) as [Hj|Hj].
  - rewrite (contents_lookup (write_u8 _ _ _)) by done. unfold write_u8. rewrite as_u32_small by lia. destruct (Z.eqb_spec (p + Z.of_nat j) (p + i)) as [E|E].
    + assert (j = Z.to_nat i) as -> by lia. rewrite list_lookup_insert_eq by lia. done.
    + rewrite list_lookup_insert_ne by lia. by apply contents_lookup.
  - rewrite !lookup_ge_None_2; [done|unfold contents; rewrite length_fmap, length_seqZ; lia|rewrite length_insert; lia].
Qed.

(** What memory says of the blocks does not depend on the payloads. *)
Lemma chain_payload m m' a s p l y lo hi T n : agree m m' y (y + 1) → Used a s p l ∈ T → tiles lo T hi → 0 < lo → p ≤ y < p + lsize l → hi ≤ 2 ^ 32 →
  chain m T n → chain m' T n.
Proof.
  intros Hag Hin Ht Hlo Hy Hhi. revert lo Ht Hlo. induction T as [|b T IH]; intros lo Ht Hlo; [done|]. intros [Hm Hc].
  pose proof Ht as (H1 & H2 & H3). pose proof (blk_ok_size _ H2). pose proof (tiles_le _ _ _ H3). destruct (tiles_in _ _ _ _ Ht Hin) as (? & ? & Hok).
  apply elem_of_cons in Hin as [<-|Hin].
  - cbn [bstart bsize blk_ok] in *. split.
    + destruct Hm as [E1 E2]. unfold meta, block_start, block_size in *. split; (etrans; [|eassumption]); (eapply agree_u32; [exact Hag|lia..]).
    + eapply chain_agree; [exact Hag|exact H3|lia..|exact Hc].
  - destruct (tiles_in _ _ _ _ H3 Hin) as (? & ? & _). cbn [bstart bsize blk_ok] in *. split.
    + eapply meta_agree; [exact Hag|lia|lia|done|lia|exact Hm].
    + eapply IH; [done|exact H3|lia|done].
Qed.

(** *** The requests *)

Lemma tiles_NoDup lo T hi : tiles lo T hi → NoDup T.
Proof.
  revert lo. induction T as [|b T IH]; intros lo; [constructor|]. intros (H1 & H2%blk_ok_size & H3). constructor; [|by eapply IH].
  intros Hin. destruct (tiles_in _ _ _ _ H3 Hin). lia.
Qed.

(** A pointer belongs to one block. *)
Lemma block_unique T h a s l b n k p : heap_ok T h → Used a s p l ∈ T → Used b n p k ∈ T → Used a s p l = Used b n p k.
Proof.
  intros Hok H1 H2. pose proof (block_place _ _ _ _ _ _ Hok H1). pose proof (block_place _ _ _ _ _ _ Hok H2).
  destruct Hok as [_ (lo & _ & Hsh) _]. destruct (tiles_disjoint _ _ _ _ _ (sh_tiles _ _ _ _ Hsh) H1 H2); [done|]. cbn [bstart bsize] in *. lia.
Qed.

(** The payloads of different allocations do not overlap. *)
Lemma payloads_disjoint T h a s l b n k p q : heap_ok T h → Used a s p l ∈ T → Used b n q k ∈ T → p ≠ q → p + lsize l ≤ q ∨ q + lsize k ≤ p.
Proof.
  intros Hok H1 H2 Hne. pose proof (block_place _ _ _ _ _ _ Hok H1). pose proof (block_place _ _ _ _ _ _ Hok H2).
  destruct Hok as [_ (lo & _ & Hsh) _]. destruct (tiles_disjoint _ _ _ _ _ (sh_tiles _ _ _ _ Hsh) H1 H2) as [E|?]; [congruence|].
  cbn [bstart bsize] in *. lia.
Qed.

Lemma same_contents T m m' a s p l : same_data T m m' → Used a s p l ∈ T → contents m' p (lsize l) = contents m p (lsize l).
Proof. intros Hd Hin. apply contents_eq. intros x. by eapply Hd. Qed.

(** The other allocations, one taken out. *)
Lemma other_blocks T h U V b n p l : heap_ok T h → used T = U ++ Used b n p l :: V →
  ∀ a s q k, Used a s q k ∈ U ++ V ↔ Used a s q k ∈ T ∧ q ≠ p.
Proof.
  intros Hok Hu a s q k. assert (Used b n p l ∈ T) as Hin by (apply used_in; rewrite Hu; apply elem_of_app; right; left).
  pose proof Hok as [_ (lo & _ & Hsh) _]. assert (NoDup (used T)) as Hnd by (apply NoDup_filter; by eapply tiles_NoDup, sh_tiles).
  rewrite Hu in Hnd. apply NoDup_app in Hnd as (_ & HU & [HV _]%NoDup_cons). rewrite (used_in T), Hu, !elem_of_app, elem_of_cons. split.
  - intros Hq. split; [destruct Hq; tauto|]. intros ->. assert (Used a s p k ∈ T) as HqT.
    { apply used_in. rewrite Hu, elem_of_app, elem_of_cons. tauto. }
    rewrite (block_unique _ _ _ _ _ _ _ _ _ Hok HqT Hin) in Hq. destruct Hq as [Hq|Hq]; [|done]. apply (HU _ Hq). left.
  - intros [[?|[?|?]] Hne]; [by left|congruence|by right].
Qed.

Lemma heap_alloc_step T v h l : represents T v h → valid_layout l →
  ∃ p h', alloc 2 l h = Some (p, h') ∧ promise v (Alloc l) h p h' ∧ ∃ T', represents T' (after v (Alloc l) p h') h'.
Proof.
  intros [Hok Hlive Hdata] Hl. destruct (heap_alloc_spec T l h Hok Hl) as (p & h' & E & [(-> & -> & Hlim)|(Hp & T' & U & V & b & n & Hok' & Hu & Hu' & Hd)]);
    [exists 0, h; split; [done|]; split; [by left|by exists T]|exists p, h'; split; [done|]].
  assert (Used b n p l ∈ T') as Hin by (apply used_in; rewrite Hu'; apply elem_of_app; right; left).
  assert (∀ a s q k, Used a s q k ∈ T ↔ Used a s q k ∈ T' ∧ q ≠ p) as Hold.
  { intros a s q k. rewrite (used_in T), Hu. by apply (other_blocks T' h' U V b n p l). }
  assert (∀ q k d, v !! q = Some (k, d) → ∃ a s, Used a s q k ∈ T ∧ Used a s q k ∈ T' ∧ q ≠ p) as Hview.
  { intros q k d Hq. destruct (proj2 (Hlive q k)) as (a & s & Hq'); [by exists d|]. exists a, s. split; [done|by apply Hold]. }
  destruct (block_place _ _ _ _ _ _ Hok' Hin) as (H1 & H2 & H3 & H4 & H5 & H6). split.
  - right. split_and!; [done|done|lia|]. intros q l' d (a & s & _ & Hq & Hne)%Hview. by eapply payloads_disjoint.
  - exists T'. unfold after. rewrite (proj2 (Z.eqb_neq p 0)) by lia. split; [done| |].
    + intros q k. setoid_rewrite lookup_insert. destruct (decide (p = q)) as [<-|Hne].
      * split; [|intros [d [= <- _]]; by exists b, n]. intros (a & s & Hq). pose proof (block_unique _ _ _ _ _ _ _ _ _ Hok' Hq Hin) as [= _ _ ->]. by eexists.
      * rewrite <- Hlive. setoid_rewrite Hold. naive_solver.
    + intros q k d. setoid_rewrite lookup_insert. destruct (decide (p = q)) as [<-|Hne]; [by intros [= <- <-]|]. intros Hq.
      destruct (Hview q k d Hq) as (a & s & Hq' & _ & _). rewrite (same_contents T _ _ _ _ _ _ Hd Hq'). by apply Hdata.
Qed.

Lemma heap_dealloc_step T v h p : represents T v h → is_Some (v !! p) → ∃ T', represents T' (delete p v) (dealloc p h).
Proof.
  intros [Hok Hlive Hdata] [[l d] Hp]. destruct (proj2 (Hlive p l)) as (a & s & Hin); [by exists d|].
  destruct (heap_dealloc_spec T a s p l h Hok Hin) as (T' & U & V & Hok' & Hu & Hu' & Hd). exists T'.
  assert (∀ b n q k, Used b n q k ∈ T' ↔ Used b n q k ∈ T ∧ q ≠ p) as Hrest.
  { intros b n q k. rewrite (used_in T'), Hu'. by apply (other_blocks T h U V a s p l). }
  split; [done| |].
  - intros q k. setoid_rewrite lookup_delete. setoid_rewrite Hrest. destruct (decide (p = q)) as [->|Hne].
    + split; [intros (? & ? & _ & ?); done|by intros [? ?]].
    + rewrite <- Hlive. naive_solver.
  - intros q k e. setoid_rewrite lookup_delete. destruct (decide (p = q)) as [->|Hne]; [done|]. intros Hq.
    destruct (proj2 (Hlive q k)) as (b & n & Hq'); [by exists e|]. rewrite (same_contents T' _ _ b n _ _ Hd) by (by apply Hrest). by apply Hdata.
Qed.

Lemma write_step T v h p l d i x : represents T v h → v !! p = Some (l, d) → 0 ≤ i < lsize l →
  represents T (after v (Write p i x) 0 (with_memory (write_u8 x (p + i) (memory h)) h)) (with_memory (write_u8 x (p + i) (memory h)) h).
Proof.
  intros [Hok Hlive Hdata] Hp Hi. destruct (proj2 (Hlive p l)) as (a & s & Hin); [by exists d|].
  destruct (block_place _ _ _ _ _ _ Hok Hin) as (H1 & H2 & H3 & H4 & H5 & _). pose proof (ho_layout _ _ Hok) as (_ & Hb & _).
  assert (agree (memory h) (write_u8 x (p + i) (memory h)) (p + i) (p + i + 1)) as Hag.
  { intros b Hbb. unfold write_u8. rewrite as_u32_small by lia. by rewrite (proj2 (Z.eqb_neq _ _)) by lia. }
  split.
  - pose proof Hok as [Hk (lo & Hlo & Hsh) He]. split; [done| |done]. exists lo. split; [done|]. destruct Hsh as [Ht Hc Hf]. split; [done| |done].
    apply (chain_payload (memory h) _ a s p l (p + i) lo (Task.brk (kernel h)) T 0); [exact Hag|done|done|done|lia|lia|done].
  - intros q k. cbn [after]. rewrite Hlive. setoid_rewrite lookup_alter. destruct (decide (p = q)) as [<-|]; [|done]. setoid_rewrite Hp.
    split; intros [e E]; simplify_eq/=; by eexists.
  - intros q k e. cbn [after]. setoid_rewrite lookup_alter. destruct (decide (p = q)) as [<-|Hne].
    + rewrite Hp. intros [= <- <-]. rewrite (Hdata p l d Hp). cbn [memory with_memory]. apply contents_write; lia.
    + intros Hq. rewrite (Hdata q k e Hq). symmetry. destruct (proj2 (Hlive q k)) as (b & n & Hq'); [by exists e|]. cbn [memory with_memory].
      apply contents_eq. intros y Hy. apply Hag. destruct (payloads_disjoint _ _ _ _ _ _ _ _ _ _ Hok Hin Hq' Hne); lia.
Qed.

Lemma read_step T v h p l d i : represents T v h → v !! p = Some (l, d) → 0 ≤ i < lsize l → d !! Z.to_nat i = Some (read_u8 (memory h) (p + i)).
Proof.
  intros [Hok Hlive Hdata] Hp Hi. rewrite (Hdata p l d Hp), contents_lookup by lia.
  destruct (proj2 (Hlive p l)) as (a & s & Hin); [by exists d|]. pose proof (block_place _ _ _ _ _ _ Hok Hin). pose proof (ho_layout _ _ Hok) as (_ & Hb & _).
  unfold read_u8. rewrite as_u32_small by lia. do 2 f_equal. lia.
Qed.

Lemma represents_new m k : layout_ok k → represents [] ∅ (new_heap m k).
Proof.
  intros Hk. pose proof Hk as (H1 & H2 & _). split.
  - split; [done| |done]. exists (Task.brk k). split; [lia|]. split; [cbn; lia|done|done].
  - intros p l. setoid_rewrite lookup_empty. split; [intros (? & ? & ?%elem_of_nil); done|by intros [? ?]].
  - intros p l d. by rewrite lookup_empty.
Qed.

Lemma serve_step T v h r : represents T v h → allowed v r →
  ∃ answer h', serve r h = Some (answer, h') ∧ promise v r h answer h' ∧ ∃ T', represents T' (after v r answer h') h'.
Proof.
  intros Hr Ha. destruct r as [l|p|p i|p i x]; cbn [allowed serve] in *.
  - by apply (heap_alloc_step T v h l).
  - do 2 eexists. split; [done|]. split; [done|]. by eapply heap_dealloc_step.
  - destruct Ha as (l & d & Hp & Hi). do 2 eexists. split; [done|]. split; [|by exists T]. intros l' d' E. rewrite Hp in E. injection E as <- <-.
    by eapply read_step.
  - destruct Ha as (l & d & Hp & Hi). do 2 eexists. split; [done|]. split; [done|]. exists T. by eapply write_step.
Qed.

Lemma reach_represents m k v h : layout_ok k → reach m k v h → ∃ T, represents T v h.
Proof.
  intros Hk Hr. induction Hr as [|v h r answer h' _ [T IH] Ha E]; [exists []; by apply represents_new|].
  destruct (serve_step T v h r IH Ha) as (answer' & h'' & E' & _ & HT). rewrite E in E'. by injection E' as <- <-.
Qed.

(** C14: a client that only frees and uses what it was given may rely on the heap,
    whatever it asked for before: a request for memory ends, with one growth of the
    heap at most; the pointer is aligned as the layout says, and the memory behind
    it lies below the break and overlaps no live allocation; it is null only when
    the growth would bring the break within [MIN_STACK_GAP] of the stack; and a byte
    of a live allocation reads as what the client last left there, so that neither
    the list of free blocks nor the headers of other allocations run over it. *)
Theorem allocator m k v h r : layout_ok k → reach m k v h → allowed v r →
  ∃ answer h', serve r h = Some (answer, h') ∧ promise v r h answer h'.
Proof.
  intros Hk Hr Ha. destruct (reach_represents m k v h Hk Hr) as [T HT]. destruct (serve_step T v h r HT Ha) as (answer & h' & E & Hp & _).
  by exists answer, h'.
Qed.

(** *** A run *)

Definition k0 : Task.TaskMemoryLayout := Task.mkLayout 4096 8192 8192 (2 ^ 26).
Definition m0 : Mem := λ _, 0.
Definition word : Layout := mkLayout 5 1.
Definition after_alloc (l : Layout) (h : Heap) : Heap := match alloc 2 l h with Some (_, h') => h' | None => h end.
Definition h1 : Heap := after_alloc word (new_heap m0 k0).
Definition h2 : Heap := with_memory (write_u8 7 (8200 + 2) (memory h1)) h1.

Lemma k0_ok : layout_ok k0.
Proof. unfold layout_ok, Process.MIN_STACK_GAP. cbn [k0 Task.end_code Task.brk Task.start_stack]. lia. Qed.

Lemma word_valid : valid_layout word.
Proof. split; [done|]. split; [by exists 0|done]. Qed.

Lemma allocator_witness :
  (∃ v, reach m0 k0 v h2 ∧ allowed v (Read 8200 2)) ∧
  ∃ v, reach m0 k0 v h2 ∧ ∃ answer h', serve (Read 8200 2) h2 = Some (answer, h') ∧ promise v (Read 8200 2) h2 answer h'.
Proof.
  assert (∃ v, reach m0 k0 v h2 ∧ allowed v (Read 8200 2)) as (v & Hr & Ha).
  { eexists. split.
    - eapply (reach_step m0 k0 _ h1 (Write 8200 2 7) 0); [eapply (reach_step m0 k0 _ _ (Alloc word) 8200); [apply reach_new|exact word_valid|vm_compute; reflexivity]| |reflexivity].
      exists word, (contents (memory h1) 8200 5). split; [reflexivity|done].
    - exists word, [0; 0; 7; 0; 0]. split; [reflexivity|done]. }
  split; [by exists v|]. exists v. split; [exact Hr|]. exact (allocator m0 k0 v h2 (Read 8200 2) k0_ok Hr Ha).
Defined.

(** What is left of a block begins behind the last byte that was asked for, at an
    address that need not be a multiple of the word: the code then reads and writes
    a [FreeBlock] through a misaligned pointer. *)
Example unaligned_block : free_list h1 = 8205 ∧ next (memory h1) 8205 = 0.
Proof. by vm_compute. Qed.

(** Given back, both halves become one block again. *)
Example all_free_again : let h := dealloc 8200 h1 in free_list h = 8192 ∧ size (memory h) 8192 = 4096 ∧ next (memory h) 8192 = 0.
Proof. by vm_compute. Qed.

End Allocator.
