(* ===== verification/Lexer.v ===== *)
(** * The shell's lexer ([user_program/src/bin/sh/ast.rs], [lexer.rs])

    Words and tokens; the lexer as functions on the bytes that are left; every
    text is lexed to its end; what is printed is read back. *)

From Stdlib Require Import Ascii String.
From S2P Require Import Prelude Text.
#[local] Set Warnings "-register-all".
Open Scope Z_scope.

Module Lexer.
Import Text.

(** ** Outcomes

    A routine gives a value and the state it leaves, or an error; [NoFuel] is a
    run that was cut off. *)

Inductive Outcome (E S A : Type) : Type :=
| Got (a : A) (s : S)
| Wrong (e : E)
| NoFuel.
Arguments Got {E S A} a s.
Arguments Wrong {E S A} e.
Arguments NoFuel {E S A}.

Definition obind {E S A B} (o : Outcome E S A) (k : A → S → Outcome E S B) : Outcome E S B :=
  match o with
  | Got a s => k a s
  | Wrong e => Wrong e
  | NoFuel => NoFuel
  end.

Declare Scope shell_scope.
Notation "'let*' x ',' s ':=' o 'in' k" := (obind o (λ x s, k))
  (at level 10, x pattern at level 0, s pattern at level 0, o at level 100, k at level 200) : shell_scope.
Open Scope shell_scope.

(** [LexError]; a message is a literal, less what the code formats into it. *)
Record LexError : Type := mkError { msg : list Z; incomplete : bool }.

Definition error (m : string) : LexError := mkError (str m) false.
Definition incomplete_error (m : string) : LexError := mkError (str m) true.
Arguments error m%_string.
Arguments incomplete_error m%_string.

(** ** Words ([ast.rs])

    A string is its characters.  The lexer makes a character of every byte. *)

Inductive ParamOp : Set :=
| DashUnset | DashNull | EqUnset | EqNull | PlusUnset | PlusNull | QmarkUnset | QmarkNull.

Inductive Seg : Type :=
| Lit (s : list Z)
| SQuoted (s : list Z)
| DQuoted (inner : list Seg)
| Param (name : list Z) (op : option ParamOp) (arg : option (list Seg)) (length : bool)
| CmdSub (s : list Z)
| Arith (s : list Z)
| Tilde (name : list Z).

Definition Word : Type := list Seg.

(** ** Tokens *)

Inductive Token : Type :=
| TWord (w : Word)
| Newline | Semi | Amp | AndAnd | OrOr | Pipe | LParen | RParen
| Less | Greater | DGreater | Clobber | LessAnd | GreaterAnd | AmpGreater
| IoNumber (n : Z)
| Eof.

(** ** The lexer

    [Lexer] is the bytes from [pos] on. *)

Definition Lx (A : Type) : Type := Outcome LexError (list Z) A.

Definition is_alpha (c : Z) : bool := ((65 <=? c) && (c <=? 90)) || ((97 <=? c) && (c <=? 122)).
Definition is_name_start (c : Z) : bool := is_alpha c || (c =? 95).
Definition is_name_cont (c : Z) : bool := is_alpha c || is_digit c || (c =? 95).

Definition flush (segs : list Seg) (lit : list Z) : list Seg :=
  match lit with [] => segs | _ => segs ++ [Lit lit] end.

(** A comment goes on to the end of its line. *)
Fixpoint skip_comment (s : list Z) : list Z :=
  match s with
  | [] => []
  | c :: s' => if c =? 10 then s else skip_comment s'
  end.

Fixpoint skip_blanks (fuel : nat) (s : list Z) : list Z :=
  match fuel with
  | O => s
  | S fuel =>
      match s with
      | c :: s' =>
          if (c =? 32) || (c =? 9) then skip_blanks fuel s'
          else if c =? 92 then match s' with
                               | n :: s'' => if n =? 10 then skip_blanks fuel s'' else s
                               | [] => s
                               end
          else if c =? 35 then skip_blanks fuel (skip_comment s')
          else s
      | [] => []
      end
  end.

Definition skip_blanks_and_comments (s : list Z) : list Z := skip_blanks (length s) s.

Fixpoint read_single_quoted (out : list Z) (s : list Z) : Lx (list Z) :=
  match s with
  | [] => Wrong (incomplete_error "unterminated single quote")
  | c :: s => if c =? 39 then Got out s else read_single_quoted (out ++ [c]) s
  end.

Fixpoint read_backtick (out : list Z) (s : list Z) : Lx (list Z) :=
  match s with
  | [] => Wrong (incomplete_error "unterminated backtick")
  | c :: s =>
      if c =? 96 then Got out s
      else if c =? 92 then
        match s with
        | [] => Wrong (incomplete_error "unterminated backtick")
        | n :: s =>
            if (n =? 96) || (n =? 36) || (n =? 92) then read_backtick (out ++ [n]) s
            else read_backtick (out ++ [92; n]) s
        end
      else read_backtick (out ++ [c]) s
  end.

(** The quoted regions that [read_balanced] copies, with their closing quote. *)
Fixpoint copy_single (out s : list Z) : list Z * list Z :=
  match s with
  | [] => (out, [])
  | n :: s => if n =? 39 then (out ++ [n], s) else copy_single (out ++ [n]) s
  end.

Fixpoint copy_double (out s : list Z) : list Z * list Z :=
  match s with
  | [] => (out, [])
  | n :: s =>
      if n =? 92 then
        match s with
        | [] => (out ++ [92], [])
        | m :: s => copy_double (out ++ [92; m]) s
        end
      else if n =? 34 then (out ++ [n], s) else copy_double (out ++ [n]) s
  end.

(** [need_double] tells [$((...))] from [$(...)]. *)
Fixpoint read_balanced (fuel : nat) (need_double : bool) (depth : Z) (out s : list Z) : Lx (list Z) :=
  match fuel with
  | O => NoFuel
  | S fuel =>
      let loop := read_balanced fuel need_double in
      match s with
      | [] => Wrong (incomplete_error "unterminated ${} / $() / $(()")
      | c :: s' =>
          if c =? 39 then let '(out, s) := copy_single (out ++ [39]) s' in loop depth out s
          else if c =? 34 then let '(out, s) := copy_double (out ++ [34]) s' in loop depth out s
          else if c =? 92 then
            match s' with
            | [] => loop depth (out ++ [92]) []
            | n :: s => loop depth (out ++ [92; n]) s
            end
          else if need_double then
            if (c =? 36) && bool_decide (head s' = Some 40) then
              let s := drop 1 s' in
              if bool_decide (head s = Some 40) then
                let* inner, s := read_balanced fuel true 1 [] (drop 1 s) in
                loop depth (out ++ [36; 40; 40] ++ inner ++ [41; 41]) s
              else
                let* inner, s := read_balanced fuel false 1 [] s in
                loop depth (out ++ [36; 40] ++ inner ++ [41]) s
            else if (c =? 40) && bool_decide (head s' = Some 40) then loop (depth + 1) (out ++ [40; 40]) (drop 1 s')
            else if (c =? 41) && bool_decide (head s' = Some 41) then
              if depth - 1 =? 0 then Got out (drop 1 s') else loop (depth - 1) (out ++ [41; 41]) (drop 1 s')
            else loop depth (out ++ [c]) s'
          else if c =? 40 then loop (depth + 1) (out ++ [c]) s'
          else if c =? 41 then
            if depth - 1 =? 0 then Got out s' else loop (depth - 1) (out ++ [c]) s'
          else loop depth (out ++ [c]) s'
      end
  end.

(** The parameters whose name is one character. *)
Definition is_special (c : Z) : bool :=
  (c =? 63) || (c =? 36) || (c =? 33) || (c =? 35) || (c =? 64) || (c =? 42) || is_digit c.

Definition read_name (p : Z → bool) (s : list Z) : list Z * list Z := split_while p s.

(** The operator of [${name...}]: the rest is its word. *)
Definition read_param_op (s : list Z) : Lx (option ParamOp) :=
  match s with
  | [] => Wrong (error "bad substitution")
  | c :: s' =>
      if c =? 125 then Got None s
      else if c =? 58 then
        match s' with
        | [] => Wrong (error "bad substitution")
        | n :: s => if n =? 45 then Got (Some DashNull) s
                    else if n =? 61 then Got (Some EqNull) s
                    else if n =? 43 then Got (Some PlusNull) s
                    else if n =? 63 then Got (Some QmarkNull) s
                    else Wrong (error "bad substitution")
        end
      else if c =? 45 then Got (Some DashUnset) s'
      else if c =? 61 then Got (Some EqUnset) s'
      else if c =? 43 then Got (Some PlusUnset) s'
      else if c =? 63 then Got (Some QmarkUnset) s'
      else Wrong (error "bad substitution")
  end.

(** The name after [${], and whether the length is meant. *)
Definition read_param_name (s : list Z) : Lx (list Z * bool) :=
  let '(length, s) :=
    match s with
    | c :: s' => if (c =? 35) && negb (bool_decide (head s' = Some 125)) then (true, s') else (false, s)
    | [] => (false, s)
    end in
  match s with
  | c :: s' =>
      if is_special c then Got ([c], length) s'
      else if is_name_start c then let '(name, s) := read_name is_name_cont s in Got (name, length) s
      else Wrong (error "bad substitution")
  | [] => Wrong (error "bad substitution")
  end.

Fixpoint read_double_quoted (fuel : nat) (segs : list Seg) (lit s : list Z) : Lx (list Seg) :=
  match fuel with
  | O => NoFuel
  | S fuel =>
      match s with
      | [] => Wrong (incomplete_error "unterminated double quote")
      | c :: s' =>
          if c =? 34 then Got (flush segs lit) s'
          else if c =? 92 then
            match s' with
            | [] => Wrong (incomplete_error "unterminated quoted backslash")
            | n :: s =>
                if n =? 10 then read_double_quoted fuel segs lit s
                else if (n =? 36) || (n =? 96) || (n =? 34) || (n =? 92) then read_double_quoted fuel segs (lit ++ [n]) s
                else read_double_quoted fuel segs (lit ++ [92; n]) s
            end
          else if c =? 96 then
            let* body, s := read_backtick [] s' in
            read_double_quoted fuel (flush segs lit ++ [CmdSub body]) [] s
          else if c =? 36 then
            let* seg, s := read_dollar fuel s in
            read_double_quoted fuel (flush segs lit ++ [seg]) [] s
          else read_double_quoted fuel segs (lit ++ [c]) s'
      end
  end
with read_dollar (fuel : nat) (s : list Z) : Lx Seg :=
  match fuel with
  | O => NoFuel
  | S fuel =>
      let s := drop 1 s in
      match s with
      | c :: s' =>
          if c =? 40 then
            if bool_decide (head s' = Some 40) then
              let* body, s := read_balanced fuel true 1 [] (drop 1 s') in Got (Arith body) s
            else
              let* body, s := read_balanced fuel false 1 [] s' in Got (CmdSub body) s
          else if c =? 123 then read_brace_param fuel s'
          else if is_special c then Got (Param [c] None None false) s'
          else if is_name_start c then
            let '(name, s) := read_name is_name_cont s in Got (Param name None None false) s
          else Got (Lit [36]) s
      | [] => Got (Lit [36]) []
      end
  end
with read_brace_param (fuel : nat) (s : list Z) : Lx Seg :=
  match fuel with
  | O => NoFuel
  | S fuel =>
      let* (name, length), s := read_param_name s in
      let* op, s := read_param_op s in
      match op with
      | None => Got (Param name None None length) (drop 1 s)
      | Some op =>
          let* arg, s := read_until_brace fuel 1 [] [] s in
          if bool_decide (head s = Some 125) then Got (Param name (Some op) (Some arg) length) (drop 1 s)
          else Wrong (incomplete_error "unterminated ${...}")
      end
  end
with read_until_brace (fuel : nat) (depth : Z) (segs : list Seg) (lit s : list Z) : Lx Word :=
  match fuel with
  | O => NoFuel
  | S fuel =>
      match s with
      | [] => Wrong (incomplete_error "unterminated ${...}")
      | c :: s' =>
          if c =? 125 then
            if depth - 1 =? 0 then Got (flush segs lit) s
            else read_until_brace fuel (depth - 1) segs (lit ++ [125]) s'
          else if c =? 123 then read_until_brace fuel (depth + 1) segs (lit ++ [123]) s'
          else if c =? 92 then
            match s' with
            | [] => read_until_brace fuel depth segs lit []
            | n :: s => read_until_brace fuel depth segs (lit ++ [n]) s
            end
          else if c =? 39 then
            let* body, s := read_single_quoted [] s' in
            read_until_brace fuel depth (flush segs lit ++ [SQuoted body]) [] s
          else if c =? 34 then
            let* inner, s := read_double_quoted fuel [] [] s' in
            read_until_brace fuel depth (flush segs lit ++ [DQuoted inner]) [] s
          else if c =? 36 then
            let* seg, s := read_dollar fuel s in
            read_until_brace fuel depth (flush segs lit ++ [seg]) [] s
          else if c =? 96 then
            let* body, s := read_backtick [] s' in
            read_until_brace fuel depth (flush segs lit ++ [CmdSub body]) [] s
          else read_until_brace fuel depth segs (lit ++ [c]) s'
      end
  end.

(** The characters that end a word. *)
Definition is_stop (b : Z) : bool :=
  (b =? 32) || (b =? 9) || (b =? 10) || (b =? 59) || (b =? 38) || (b =? 124) || (b =? 60) || (b =? 62) || (b =? 40) || (b =? 41).

Definition is_glob (c : Z) : bool := (c =? 42) || (c =? 63) || (c =? 91).

(** [at_word_start] only matters to a number sign that begins the word. *)
Fixpoint read_word_loop (fuel : nat) (at_word_start : bool) (segs : list Seg) (lit s : list Z) : Lx Word :=
  match fuel with
  | O => NoFuel
  | S fuel =>
      match s with
      | [] => Got (flush segs lit) []
      | b :: s' =>
          if is_stop b then Got (flush segs lit) s
          else if (b =? 35) && at_word_start && bool_decide (segs = []) && bool_decide (lit = []) then Got (flush segs lit) s
          else if b =? 92 then
            match s' with
            | [] => Wrong (incomplete_error "unterminated backslash")
            | c :: s =>
                if c =? 10 then read_word_loop fuel false segs lit s
                else if is_glob c then read_word_loop fuel false segs (lit ++ [92; c]) s
                else read_word_loop fuel false segs (lit ++ [c]) s
            end
          else if b =? 39 then
            let* body, s := read_single_quoted [] s' in
            read_word_loop fuel false (flush segs lit ++ [SQuoted body]) [] s
          else if b =? 34 then
            let* inner, s := read_double_quoted fuel [] [] s' in
            read_word_loop fuel false (flush segs lit ++ [DQuoted inner]) [] s
          else if b =? 96 then
            let* body, s := read_backtick [] s' in
            read_word_loop fuel false (flush segs lit ++ [CmdSub body]) [] s
          else if b =? 36 then
            let* seg, s := read_dollar fuel s in
            read_word_loop fuel false (flush segs lit ++ [seg]) [] s
          else read_word_loop fuel false segs (lit ++ [b]) s'
      end
  end.

Definition is_tilde_name (c : Z) : bool := is_alpha c || is_digit c || (c =? 95) || (c =? 46) || (c =? 45).

Definition read_word (fuel : nat) (s : list Z) : Lx Word :=
  match s with
  | c :: s' =>
      if c =? 126 then let '(name, s) := read_name is_tilde_name s' in read_word_loop fuel false [Tilde name] [] s
      else read_word_loop fuel true [] [] s
  | [] => read_word_loop fuel true [] [] s
  end.

(** [text.parse::<i32>()] of digits. *)
Definition parse_i32 (text : list Z) : option Z := parse_digits 31 10 0 text.

(** An operator, and the bytes after it. *)
Definition operator (s : list Z) : option (Token * list Z) :=
  match s with
  | [] => None
  | b :: s =>
      let second c t other := if bool_decide (head s = Some c) then Some (t, drop 1 s) else other in
      if b =? 10 then Some (Newline, s)
      else if b =? 59 then Some (Semi, s)
      else if b =? 40 then Some (LParen, s)
      else if b =? 41 then Some (RParen, s)
      else if b =? 124 then second 124 OrOr (Some (Pipe, s))
      else if b =? 38 then second 38 AndAnd (second 62 AmpGreater (Some (Amp, s)))
      else if b =? 60 then second 38 LessAnd (Some (Less, s))
      else if b =? 62 then second 62 DGreater (second 38 GreaterAnd (second 124 Clobber (Some (Greater, s))))
      else None
  end.

(** The digits of a word that stands right before a redirection. *)
Definition io_number (w : Word) (consumed : nat) (rest : list Z) : option Z :=
  match w with
  | [Lit text] =>
      if forallb is_digit text && bool_decide (text ≠ []) &&
         (bool_decide (head rest = Some 60) || bool_decide (head rest = Some 62)) && (consumed =? length text)%nat
      then parse_i32 text else None
  | _ => None
  end.

(** Two more turns than there are bytes are enough. *)
Definition next_token (s : list Z) : Lx Token :=
  let s := skip_blanks_and_comments s in
  match s with
  | [] => Got Eof []
  | _ =>
      match operator s with
      | Some (t, s) => Got t s
      | None =>
          let* w, s' := read_word (length s + 2) s in
          match io_number w (length s - length s') s' with
          | Some n => Got (IoNumber n) s'
          | None => Got (TWord w) s'
          end
      end
  end.

Example next_token_1 : next_token (str " echo ${x:-'a b'}$(ls) 2>&1") = Got (TWord [Lit (str "echo")]) (str " ${x:-'a b'}$(ls) 2>&1").
Proof. reflexivity. Qed.
Example next_token_2 : next_token (str " ${x:-'a b'}$(ls) 2>&1") =
  Got (TWord [Param (str "x") (Some DashNull) (Some [SQuoted (str "a b")]) false; CmdSub (str "ls")]) (str " 2>&1").
Proof. reflexivity. Qed.
Example next_token_3 : next_token (str " 2>&1") = Got (IoNumber 2) (str ">&1").
Proof. reflexivity. Qed.

(** Two closing parentheses end an arithmetic expression, whatever is open in it. *)
Example nested_arithmetic : next_token (str "$((2*(1+2))) ") = Got (TWord [Arith (str "2*(1+2")]) (str ") ").
Proof. reflexivity. Qed.
(** An escaped backslash and an escaped star. *)
Example backslash_star : next_token (str "\\* ") = Got (TWord [Lit (str "\*")]) (str " ") ∧ next_token (str "\* ") = Got (TWord [Lit (str "\*")]) (str " ").
Proof. split; reflexivity. Qed.
Example escaped_keyword : next_token (str "\if ") = next_token (str "if ").
Proof. reflexivity. Qed.

(** ** Every text is lexed to its end *)

(** The routine ends, and leaves [n] bytes at most. *)
Definition leaves {A} (n : nat) (o : Lx A) : Prop :=
  match o with
  | Got _ s => (length s <= n)%nat
  | Wrong _ => True
  | NoFuel => False
  end.

Lemma leaves_bind {A B} n n' (o : Lx A) (k : A → list Z → Lx B) :
  leaves n o → (∀ a s, (length s <= n)%nat → leaves n' (k a s)) → leaves n' (let* a, s := o in k a s).
Proof. destruct o; simpl; auto. Qed.

Lemma leaves_single_quoted n s : ∀ out, (length s <= n)%nat → leaves n (read_single_quoted out s).
Proof. induction s as [|c s IH]; intros out Hn; simpl in *; [done|]. destruct (c =? 39); [simpl; lia|apply IH; lia]. Qed.

Lemma leaves_backtick n : ∀ m s out, (length s <= m)%nat → (length s <= n)%nat → leaves n (read_backtick out s).
Proof.
  induction m as [|m IH]; intros [|c s] out Hm Hn; simpl in *; try done; [lia|]. destruct (c =? 96); [simpl; lia|].
  destruct (c =? 92); [|apply IH; lia]. destruct s as [|d s]; [done|]. simpl in *. destruct (_ || _); apply IH; lia.
Qed.

Lemma copy_single_length s : ∀ out, (length (copy_single out s).2 <= length s)%nat.
Proof. induction s as [|c s IH]; intros out; simpl; [done|]. destruct (c =? 39); simpl; [lia|]. specialize (IH (out ++ [c])). lia. Qed.

Lemma copy_double_length : ∀ n s out, (length s <= n)%nat → (length (copy_double out s).2 <= length s)%nat.
Proof.
  induction n as [|n IH]; intros [|c s] out Hn; simpl in *; try lia. destruct (c =? 92).
  - destruct s as [|m s]; simpl; [lia|]. simpl in Hn. specialize (IH s (out ++ [92; m]) ltac:(lia)). lia.
  - destruct (c =? 34); simpl; [lia|]. specialize (IH s (out ++ [c]) ltac:(lia)). lia.
Qed.

Lemma leaves_balanced fuel : ∀ b depth out s n, (length s < fuel)%nat → (length s <= n)%nat → leaves n (read_balanced fuel b depth out s).
Proof.
  induction fuel as [|fuel IH]; intros b depth out s n Hf Hn; [lia|]. cbn [read_balanced].
  destruct s as [|c s']; [done|]. simpl in Hf, Hn.
  destruct (c =? 39). { pose proof (copy_single_length s' (out ++ [39])). destruct (copy_single _ s') as [o1 s1]. simpl in *. apply IH; lia. }
  destruct (c =? 34). { pose proof (copy_double_length _ s' (out ++ [34]) (Nat.le_refl _)). destruct (copy_double _ s') as [o1 s1]. simpl in *. apply IH; lia. }
  destruct (c =? 92). { destruct s'; simpl in *; apply IH; simpl; lia. }
  assert (∀ k, (length (drop k s') <= length s')%nat) as Hd by (intros k; rewrite length_drop; lia). pose proof (Hd 1%nat).
  assert (∀ b d o, leaves n (read_balanced fuel b d o s')) as Hrec by (intros; apply IH; lia).
  assert (∀ b d o, leaves n (read_balanced fuel b d o (drop 1 s'))) as Hrec1 by (intros; apply IH; lia).
  destruct b.
  - destruct (_ && _); [|destruct (_ && _); [done|destruct (_ && _); [destruct (_ =? 0); [simpl; lia|done]|done]]].
    destruct (bool_decide (head (drop 1 s') = Some 40)); (eapply (leaves_bind (length s')); [apply IH; rewrite ?length_drop; lia|intros a s Hs; apply IH; lia]).
  - destruct (c =? 40); [done|]. destruct (c =? 41); [|done]. destruct (_ =? 0); [simpl; lia|done].
Qed.

Lemma split_while_length {A} (p : A → bool) l : (length (split_while p l).2 <= length l)%nat.
Proof. induction l as [|x l IH]; simpl; [done|]. destruct (p x); simpl; [|lia]. destruct (split_while p l). simpl in *. lia. Qed.

Lemma leaves_param_name s : leaves (length s - 1) (read_param_name s).
Proof.
  unfold read_param_name. set (r := match s with c :: s' => _ | [] => _ end). assert (length r.2 <= length s)%nat as Hr.
  { unfold r. destruct s as [|c s']; simpl; [done|]. destruct (_ && _); simpl; lia. }
  destruct r as [b [|c s']]; [done|]. simpl in Hr. destruct (is_special c); [simpl; lia|].
  destruct (is_name_start c) eqn:Ec; [|done]. assert (is_name_cont c = true) as Ec' by (unfold is_name_start, is_name_cont in *; apply orb_true_iff in Ec as [-> | ->]; by rewrite ?orb_true_r).
  unfold read_name. simpl. rewrite Ec'. pose proof (split_while_length is_name_cont s'). destruct (split_while is_name_cont s'). simpl in *. lia.
Qed.

Lemma leaves_param_op n s : (length s <= n)%nat → leaves n (read_param_op s).
Proof. intros Hn. unfold read_param_op. destruct s as [|c [|d s]]; simpl in *; repeat case_match; simpl; try done; lia. Qed.

Lemma drop_one {A} (c : A) s : drop 1 (c :: s) = s.
Proof. by destruct s. Qed.

(** The four routines call each other; each call comes after a byte that is
    consumed, or has less of the fuel to itself. *)
Lemma leaves_quoted fuel :
  (∀ segs lit s n, (length s + 2 <= fuel)%nat → (length s <= n)%nat → leaves n (read_double_quoted fuel segs lit s)) ∧
  (∀ s n, s ≠ [] → (length s + 1 <= fuel)%nat → (length s <= S n)%nat → leaves n (read_dollar fuel s)) ∧
  (∀ s n, (length s + 2 <= fuel)%nat → (length s <= n)%nat → leaves n (read_brace_param fuel s)) ∧
  (∀ depth segs lit s n, (length s + 2 <= fuel)%nat → (length s <= n)%nat → leaves n (read_until_brace fuel depth segs lit s)).
Proof.
  induction fuel as [|fuel (IHd & IHs & IHp & IHb)]; [split_and!; intros; lia|]. split_and!.
  - intros segs lit s n Hf Hn. cbn [read_double_quoted]. destruct s as [|c s']; [done|]. simpl in Hf, Hn.
    destruct (c =? 34); [simpl; lia|]. destruct (c =? 92).
    { destruct s' as [|d s']; [done|]. simpl in *. destruct (d =? 10); [apply IHd; lia|]. destruct (_ || _); apply IHd; lia. }
    destruct (c =? 96). { eapply leaves_bind; [by apply (leaves_backtick (length s') (length s'))|]. intros a s Hs. apply IHd; lia. }
    destruct (c =? 36); [|apply IHd; lia]. eapply leaves_bind; [apply (IHs _ (length s')); simpl; [done|lia..]|]. intros a s Hs. apply IHd; lia.
  - intros s n Hne Hf Hn. cbn [read_dollar]. destruct s as [|c0 s]; [done|]. simpl in Hf, Hn. rewrite drop_one. cbv zeta. destruct s as [|c s']; [simpl; lia|]. simpl in Hf, Hn.
    destruct (c =? 40).
    { destruct (bool_decide (head s' = Some 40)); (eapply leaves_bind; [apply (leaves_balanced _ _ _ _ _ (length s')); rewrite ?length_drop; lia|]; intros a s Hs; simpl; lia). }
    destruct (c =? 123); [apply IHp; lia|]. destruct (is_special c); [simpl; lia|]. destruct (is_name_start c); [|simpl; lia].
    unfold read_name. pose proof (split_while_length is_name_cont (c :: s')). destruct (split_while _ _). simpl in *. lia.
  - intros s n Hf Hn. cbn [read_brace_param]. destruct s as [|c s]; [done|]. eapply leaves_bind; [apply leaves_param_name|]. intros [name len] s1 H1.
    simpl in *. eapply leaves_bind; [by apply (leaves_param_op (length s1))|]. intros [op|] s2 H2; [|simpl; rewrite length_drop; lia].
    eapply leaves_bind; [apply (IHb _ _ _ _ (length s2)); lia|]. intros a s3 H3. destruct (bool_decide (head s3 = Some 125)); simpl; [rewrite length_drop; lia|done].
  - intros depth segs lit s n Hf Hn. cbn [read_until_brace]. destruct s as [|c s']; [done|]. simpl in Hf, Hn.
    destruct (c =? 125). { destruct (_ =? 0); [simpl; lia|apply IHb; lia]. }
    destruct (c =? 123); [apply IHb; lia|]. destruct (c =? 92). { destruct s'; simpl in *; apply IHb; simpl; lia. }
    destruct (c =? 39). { eapply leaves_bind; [by apply (leaves_single_quoted (length s'))|]. intros a s Hs. apply IHb; lia. }
    destruct (c =? 34). { eapply leaves_bind; [apply (IHd _ _ _ (length s')); lia|]. intros a s Hs. apply IHb; lia. }
    destruct (c =? 36). { eapply leaves_bind; [apply (IHs _ (length s')); simpl; [done|lia..]|]. intros a s Hs. apply IHb; lia. }
    destruct (c =? 96); [|apply IHb; lia]. eapply leaves_bind; [by apply (leaves_backtick (length s') (length s'))|]. intros a s Hs. apply IHb; lia.
Qed.

Lemma leaves_word_loop fuel : ∀ b segs lit s n, (length s + 2 <= fuel)%nat → (length s <= n)%nat → leaves n (read_word_loop fuel b segs lit s).
Proof.
  induction fuel as [|fuel IH]; intros b segs lit s n Hf Hn; [lia|]. cbn [read_word_loop]. destruct s as [|c s']; [simpl; lia|]. simpl in Hf, Hn.
  destruct (is_stop c); [simpl; lia|]. destruct (_ && _); [simpl; lia|]. destruct (leaves_quoted fuel) as (Hd & Hs & _).
  destruct (c =? 92). { destruct s' as [|d s']; [done|]. simpl in *. repeat case_match; apply IH; lia. }
  destruct (c =? 39). { eapply leaves_bind; [by apply (leaves_single_quoted (length s'))|]. intros a s1 H1. apply IH; lia. }
  destruct (c =? 34). { eapply leaves_bind; [apply (Hd _ _ _ (length s')); lia|]. intros a s1 H1. apply IH; lia. }
  destruct (c =? 96). { eapply leaves_bind; [by apply (leaves_backtick (length s') (length s'))|]. intros a s1 H1. apply IH; lia. }
  destruct (c =? 36); [|apply IH; lia]. eapply leaves_bind; [apply (Hs _ (length s')); simpl; [done|lia..]|]. intros a s1 H1. apply IH; lia.
Qed.

(** The first turn consumes a byte. *)
Lemma word_loop_progress fuel b segs lit c s n : is_stop c = false → (b = true → c ≠ 35) → (length s + 3 <= fuel)%nat → (length s <= n)%nat →
  leaves n (read_word_loop fuel b segs lit (c :: s)).
Proof.
  intros Hstop Hb Hf Hn. destruct fuel as [|fuel]; [lia|]. cbn [read_word_loop]. rewrite Hstop.
  assert ((c =? 35) && b && bool_decide (segs = []) && bool_decide (lit = []) = false) as ->.
  { destruct b; [|by rewrite andb_false_r]. by rewrite (proj2 (Z.eqb_neq c 35)) by auto. }
  destruct (leaves_quoted fuel) as (Hd & Hs & _). pose proof (leaves_word_loop fuel) as IH.
  destruct (c =? 92). { destruct s as [|d s']; [done|]. simpl in *. repeat case_match; apply IH; lia. }
  destruct (c =? 39). { eapply leaves_bind; [by apply (leaves_single_quoted (length s))|]. intros a s1 H1. apply IH; lia. }
  destruct (c =? 34). { eapply leaves_bind; [apply (Hd _ _ _ (length s)); lia|]. intros a s1 H1. apply IH; lia. }
  destruct (c =? 96). { eapply leaves_bind; [by apply (leaves_backtick (length s) (length s))|]. intros a s1 H1. apply IH; lia. }
  destruct (c =? 36); [|apply IH; lia]. eapply leaves_bind; [apply (Hs _ (length s)); simpl; [done|lia..]|]. intros a s1 H1. apply IH; lia.
Qed.

Lemma skip_comment_length s : (length (skip_comment s) <= length s)%nat.
Proof. induction s as [|c s IH]; simpl; [done|]. case_match; simpl; lia. Qed.

Lemma skip_blanks_spec fuel : ∀ s, (length s <= fuel)%nat →
  (length (skip_blanks fuel s) <= length s)%nat ∧ ∀ c s', skip_blanks fuel s = c :: s' → c ≠ 32 ∧ c ≠ 9 ∧ c ≠ 35.
Proof.
  induction fuel as [|fuel IH]; intros [|c s] Hf; simpl in Hf; try lia; try done. cbn [skip_blanks].
  destruct (Z.eqb_spec c 32); [destruct (IH s); [lia|]; cbn [orb]; split; simpl; [lia|done]|].
  destruct (Z.eqb_spec c 9); [destruct (IH s); [lia|]; cbn [orb]; split; simpl; [lia|done]|]. cbn [orb].
  destruct (Z.eqb_spec c 92) as [->|].
  - destruct s as [|d s]; [split; [done|by intros ? ? [= <- <-]]|]. destruct (d =? 10); [|split; [done|by intros ? ? [= <- <-]]].
    simpl in Hf. destruct (IH s); [lia|]. split; simpl; [lia|done].
  - destruct (Z.eqb_spec c 35); [|split; [done|by intros ? ? [= <- <-]]].
    pose proof (skip_comment_length s). destruct (IH (skip_comment s)); [lia|]. split; simpl; [lia|done].
Qed.

Lemma operator_length s t s' : operator s = Some (t, s') → (length s' < length s)%nat.
Proof.
  unfold operator. destruct s as [|b r]; [done|]. assert (length (drop 1 r) <= length r)%nat by (rewrite length_drop; lia).
  repeat case_match; intros; simplify_eq; simpl in *; lia.
Qed.

Lemma operator_None c s : operator (c :: s) = None → c ≠ 32 → c ≠ 9 → is_stop c = false.
Proof. unfold operator, is_stop. intros H ??. destruct (c =? 32) eqn:?, (c =? 9) eqn:?; try lia. repeat case_match; try done. Qed.

Lemma lexer_steps s :
  match next_token s with
  | Got Eof s' => s' = [] ∧ skip_blanks_and_comments s = []
  | Got _ s' => (length s' < length s)%nat
  | Wrong _ => True
  | NoFuel => False
  end.
Proof.
  unfold next_token. destruct (skip_blanks_spec (length s) s (Nat.le_refl _)) as [Hlen Hhead]. fold (skip_blanks_and_comments s) in *.
  destruct (skip_blanks_and_comments s) as [|c r] eqn:Es; [done|]. destruct (Hhead c r eq_refl) as (H32 & H9 & H35). simpl in Hlen.
  destruct (operator (c :: r)) as [[t s']|] eqn:Eo.
  { pose proof (operator_length _ _ _ Eo) as Hl. simpl in Hl. destruct t; try lia.
    unfold operator in Eo. exfalso. repeat case_match; simplify_eq. }
  pose proof (operator_None _ _ Eo H32 H9) as Hstop.
  assert (leaves (length r) (read_word (length (c :: r) + 2) (c :: r))) as Hw.
  { unfold read_word. destruct (c =? 126); [|apply word_loop_progress; simpl; auto; lia].
    unfold read_name. pose proof (split_while_length is_tilde_name r). destruct (split_while _ r) as [name s1]. cbn [snd] in *. apply leaves_word_loop; simpl length; lia. }
  destruct (read_word _ _) as [w s'|e|]; simpl in *; [|done..]. destruct (io_number _ _ _); lia.
Qed.

(** ** Printing words

    The printer quotes a character with a backslash where its place needs it. *)

Inductive Context : Set := Bare | Quoted | Braced.
#[global] Instance Context_eq_dec : EqDecision Context.
Proof. solve_decision. Defined.

(** The characters that have a meaning in a place. *)
Definition is_active (q : Context) (c : Z) : bool :=
  match q with
  | Bare => is_stop c || bool_decide (c ∈ [92; 39; 34; 96; 36; 35; 126])
  | Quoted => bool_decide (c ∈ [34; 92; 96; 36])
  | Braced => bool_decide (c ∈ [125; 123; 92; 39; 34; 36; 96])
  end.

Definition print_char (q : Context) (c : Z) : list Z := if is_active q c then [92; c] else [c].

Definition print_backtick_char (c : Z) : list Z := if (c =? 96) || (c =? 36) || (c =? 92) then [92; c] else [c].

Definition print_op (op : ParamOp) : list Z :=
  match op with
  | DashUnset => [45] | DashNull => [58; 45]
  | EqUnset => [61] | EqNull => [58; 61]
  | PlusUnset => [43] | PlusNull => [58; 43]
  | QmarkUnset => [63] | QmarkNull => [58; 63]
  end.

Fixpoint print_seg (q : Context) (g : Seg) : list Z :=
  match g with
  | Lit s => flat_map (print_char q) s
  | SQuoted s => 39 :: s ++ [39]
  | DQuoted inner => 34 :: flat_map (print_seg Quoted) inner ++ [34]
  | Param name op arg length =>
      [36; 123] ++ (if length then [35] else []) ++ name ++
      match op, arg with Some op, Some w => print_op op ++ flat_map (print_seg Braced) w | _, _ => [] end ++ [125]
  | CmdSub s => 96 :: flat_map print_backtick_char s ++ [96]
  | Arith s => [36; 40; 40] ++ s ++ [41; 41]
  | Tilde name => 126 :: name
  end.

Definition print_word (w : Word) : list Z := flat_map (print_seg Bare) w.

(** Literals do not touch. *)
Fixpoint separate (l : list Seg) : bool :=
  match l with
  | Lit _ :: ((Lit _ :: _) as l') => false
  | _ :: l' => separate l'
  | [] => true
  end.

Definition param_name (name : list Z) : bool :=
  match name with
  | [] => false
  | c :: s => (is_special c && bool_decide (s = [])) || (is_name_start c && forallb is_name_cont s)
  end.

(** The segments that the lexer makes in a place. *)
Fixpoint wf_seg (q : Context) (g : Seg) : bool :=
  match g with
  | Lit s => bool_decide (s ≠ []) && match q with Bare => bool_decide (10 ∉ s) | _ => true end
  | SQuoted s => bool_decide (q ≠ Quoted) && bool_decide (39 ∉ s)
  | DQuoted inner => bool_decide (q ≠ Quoted) && separate inner && forallb (wf_seg Quoted) inner
  | Param name op arg length =>
      param_name name &&
      match op, arg with
      | None, None => true
      | Some _, Some w => negb (bool_decide (name = [35]) && negb length) && separate w && forallb (wf_seg Braced) w
      | _, _ => false
      end
  | CmdSub _ => true
  | Arith s => forallb (λ c, bool_decide (c ∉ [39; 34; 92; 40; 41])) s
  | Tilde _ => false
  end.

Definition wf_word (w : Word) : bool :=
  bool_decide (w ≠ []) &&
  match w with
  | Tilde name :: l =>
      forallb is_tilde_name name && separate l && forallb (wf_seg Bare) l &&
      match l with Lit (c :: _) :: _ => negb (is_tilde_name c) | _ => true end
  | _ => separate w && forallb (wf_seg Bare) w
  end.

Example print_word_1 : print_word [Lit (str "a b"); Param (str "x") (Some DashNull) (Some [SQuoted (str "c")]) false] = str "a\ b${x:-'c'}".
Proof. reflexivity. Qed.

(** ** What is printed is read *)

(** Characters and the other segments, one by one. *)
Inductive Piece : Type := PChar (c : Z) | PSeg (g : Seg).

Definition pieces (l : list Seg) : list Piece :=
  flat_map (λ g, match g with Lit s => map PChar s | _ => [PSeg g] end) l.

Fixpoint assemble (segs : list Seg) (lit : list Z) (ps : list Piece) : list Seg :=
  match ps with
  | [] => flush segs lit
  | PChar c :: ps => assemble segs (lit ++ [c]) ps
  | PSeg g :: ps => assemble (flush segs lit ++ [g]) [] ps
  end.

Definition print_piece (q : Context) (p : Piece) : list Z :=
  match p with PChar c => print_char q c | PSeg g => print_seg q g end.

Definition print_pieces (q : Context) (ps : list Piece) : list Z := flat_map (print_piece q) ps.

Definition wf_piece (q : Context) (p : Piece) : bool :=
  match p with
  | PChar c => match q with Bare => bool_decide (c ≠ 10) | _ => true end
  | PSeg (Lit _) => false
  | PSeg g => wf_seg q g
  end.

Lemma print_pieces_of q l : print_pieces q (pieces l) = flat_map (print_seg q) l.
Proof.
  induction l as [|g l IH]; [done|]. unfold print_pieces, pieces in *. cbn [flat_map]. rewrite flat_map_app, IH. f_equal.
  destruct g; cbn [flat_map print_piece]; rewrite ?app_nil_r; try done. rewrite flat_map_concat_map, map_map, <- flat_map_concat_map. done.
Qed.

Lemma wf_pieces q l : forallb (wf_seg q) l = true → forallb (wf_piece q) (pieces l) = true.
Proof.
  induction l as [|g l IH]; [done|]. cbn [forallb]. intros [Hg Hl]%andb_true_iff. unfold pieces in *. cbn [flat_map].
  rewrite forallb_app, (IH Hl), andb_true_r. destruct g; cbn [forallb wf_piece]; rewrite ?andb_true_r; try done.
  cbn [wf_seg] in Hg. apply andb_true_iff in Hg as [_ Hg]. apply forallb_forall. intros x (c & <- & Hc)%in_map_iff. cbn.
  destruct q; [|done..]. apply bool_decide_eq_true in Hg. apply bool_decide_eq_true. intros ->. by apply Hg, list_elem_of_In.
Qed.

Lemma assemble_chars segs lit s ps : assemble segs lit (map PChar s ++ ps) = assemble segs (lit ++ s) ps.
Proof. revert lit. induction s as [|c s IH]; intros lit; cbn; [by rewrite app_nil_r|]. by rewrite IH, <- app_assoc. Qed.

Lemma assemble_pieces l : separate l = true → forallb (λ g, match g with Lit [] => false | _ => true end) l = true →
  ∀ segs, assemble segs [] (pieces l) = segs ++ l.
Proof.
  assert (∀ n l, (length l <= n)%nat → separate l = true → forallb (λ g, match g with Lit [] => false | _ => true end) l = true →
    ∀ segs, assemble segs [] (pieces l) = segs ++ l) as H; [|by apply (H (length l))].
  induction n as [|n IH]; intros [|g l'] Hn Hsep Hne segs; simpl in Hn; try lia; [by rewrite app_nil_r..|].
  cbn [forallb] in Hne. apply andb_true_iff in Hne as [Hg Hne].
  assert (separate l' = true) as Hsep' by (destruct g; try done; destruct l' as [|[] ?]; done).
  destruct g as [s| | | | | |]; cbn [pieces flat_map] in *; fold (pieces l'); cbn [app assemble flush];
    try (rewrite IH by (done || lia); by rewrite <- app_assoc).
  rewrite assemble_chars. cbn [app]. destruct l' as [|g' l''].
  { cbn. by destruct s. }
  destruct g'; try done; cbn [pieces flat_map app assemble]; fold (pieces l''); cbn [forallb] in Hne; apply andb_true_iff in Hne as [_ Hne];
    simpl in Hn; cbn [separate] in Hsep'; rewrite IH by (done || lia); (destruct s; [done|]); cbn [flush]; by rewrite <- !app_assoc.
Qed.

Lemma wf_seg_nonempty q l : forallb (wf_seg q) l = true → forallb (λ g, match g with Lit [] => false | _ => true end) l = true.
Proof.
  rewrite !forallb_forall. intros H g Hg. specialize (H g Hg). destruct g as [[|]| | | | | |]; try done.
Qed.

Lemma read_single_quoted_print s rest : 39 ∉ s → ∀ out, read_single_quoted out (s ++ 39 :: rest) = Got (out ++ s) rest.
Proof.
  induction s as [|c s IH]; intros Hs out; [by rewrite app_nil_r|]. apply not_elem_of_cons in Hs as [Hc Hs]. cbn.
  rewrite (proj2 (Z.eqb_neq _ _)) by done. rewrite IH by done. by rewrite <- app_assoc.
Qed.

Lemma read_backtick_print s rest : ∀ out, read_backtick out (flat_map print_backtick_char s ++ 96 :: rest) = Got (out ++ s) rest.
Proof.
  induction s as [|c s IH]; intros out; [by rewrite app_nil_r|]. cbn [flat_map]. rewrite <- app_assoc. unfold print_backtick_char at 1.
  destruct ((c =? 96) || (c =? 36) || (c =? 92)) eqn:E; cbn [app read_backtick].
  - rewrite E. cbn. rewrite IH. by rewrite <- app_assoc.
  - apply orb_false_iff in E as [[E1 E2]%orb_false_iff E3]. rewrite E1, E3, IH. by rewrite <- app_assoc.
Qed.

(** The text of an arithmetic expression without quotes and parentheses. *)
Lemma read_balanced_print s rest : forallb (λ c, bool_decide (c ∉ [39; 34; 92; 40; 41])) s = true →
  ∀ fuel out, (length s < fuel)%nat → read_balanced fuel true 1 out (s ++ 41 :: 41 :: rest) = Got (out ++ s) rest.
Proof.
  induction s as [|c s IH]; intros Hs fuel out Hf; (destruct fuel as [|fuel]; [simpl in Hf; lia|]).
  { cbn. by rewrite app_nil_r. }
  cbn [forallb] in Hs. apply andb_true_iff in Hs as [Hc Hs]. apply bool_decide_eq_true in Hc. rewrite !not_elem_of_cons in Hc. destruct Hc as (H39 & H34 & H92 & H40 & H41 & _).
  cbn [app read_balanced]. rewrite (proj2 (Z.eqb_neq c 39)), (proj2 (Z.eqb_neq c 34)), (proj2 (Z.eqb_neq c 92)), (proj2 (Z.eqb_neq c 40)), (proj2 (Z.eqb_neq c 41)) by done. cbn [andb].
  assert (bool_decide (head (s ++ 41 :: 41 :: rest) = Some 40) = false) as ->.
  { apply bool_decide_eq_false. destruct s as [|d s]; [done|]. cbn [forallb] in Hs. apply andb_true_iff in Hs as [Hd _].
    apply bool_decide_eq_true in Hd. rewrite !not_elem_of_cons in Hd. cbn. intros [= ->]. naive_solver. }
  rewrite andb_false_r. cbn in Hf. rewrite IH by (done || lia). by rewrite <- app_assoc.
Qed.

Lemma split_while_print {A} (p : A → bool) s rest : forallb p s = true → match rest with c :: _ => p c = false | [] => True end →
  split_while p (s ++ rest) = (s, rest).
Proof.
  intros Hs Hr. induction s as [|c s IH]; cbn.
  - destruct rest as [|c rest]; [done|]. cbn. by rewrite Hr.
  - cbn in Hs. apply andb_true_iff in Hs as [-> Hs]. by rewrite IH.
Qed.

(** What may follow a parameter's name. *)
Definition ends_name (c : Z) : bool := bool_decide (c ∈ [125; 58; 45; 61; 43; 63]).

Lemma ends_name_cont c : ends_name c = true → is_name_cont c = false.
Proof.
  unfold ends_name. intros H%bool_decide_eq_true. rewrite !elem_of_cons in H.
  destruct H as [->|[->|[->|[->|[->|[->|H]]]]]]; [done..|by apply elem_of_nil in H].
Qed.

Lemma name_start_not_special c : is_name_start c = true → is_special c = false ∧ c ≠ 35 ∧ c ≠ 125.
Proof. unfold is_name_start, is_special, is_alpha, is_digit. intros. lia. Qed.

Lemma read_param_name_print name len c rest : param_name name = true → ends_name c = true → (name = [35] → len = true ∨ c = 125) →
  read_param_name ((if len then [35] else []) ++ name ++ c :: rest) = Got (name, len) (c :: rest).
Proof.
  intros Hn Hc Hh. destruct name as [|d s]; [done|]. unfold read_param_name. unfold param_name in Hn.
  assert ((if is_special d then Got ([d], len) (s ++ c :: rest) else
    if is_name_start d then let '(name, s) := read_name is_name_cont ((d :: s) ++ c :: rest) in Got (name, len) s else Wrong (error "bad substitution")) =
    Got (E := LexError) (d :: s, len) (c :: rest)) as Hread.
  { apply orb_true_iff in Hn as [[-> Hs%bool_decide_eq_true]%andb_true_iff|[Hd Hs]%andb_true_iff]; [by subst|].
    destruct (name_start_not_special _ Hd) as [-> _]. rewrite Hd. unfold read_name. rewrite split_while_print; [done| |by apply ends_name_cont].
    cbn. rewrite Hs, andb_true_r. unfold is_name_start, is_name_cont in *. apply orb_true_iff in Hd as [-> | ->]; by rewrite ?orb_true_r. }
  destruct len; cbn [app].
  - replace (35 =? 35) with true by done. cbn [head andb]. rewrite bool_decide_false; [exact Hread|]. intros [= ->].
    apply orb_true_iff in Hn as [[Hd _]%andb_true_iff|[Hd _]%andb_true_iff]; [done|]. by apply name_start_not_special in Hd.
  - destruct (Z.eqb_spec d 35) as [->|Hd]; [|exact Hread]. apply orb_true_iff in Hn as [[_ Hs%bool_decide_eq_true]%andb_true_iff|[Hd _]%andb_true_iff]; [|done].
    subst s. destruct (Hh eq_refl) as [| ->]; [done|]. cbn [app head]. rewrite bool_decide_true by done. exact Hread.
Qed.

Lemma read_param_op_print op rest : read_param_op (print_op op ++ rest) = Got (Some op) rest.
Proof. by destruct op. Qed.

Lemma print_op_head op rest : ∃ c r, print_op op ++ rest = c :: r ∧ ends_name c = true ∧ c ≠ 125.
Proof. destruct op; eexists _, _; (split; [reflexivity|by vm_compute]). Qed.

(** A bare place: a word ends at the end of the text or at a stop. *)
Definition stops (rest : list Z) : Prop := match rest with [] => True | c :: _ => is_stop c = true end.

(** The shape of a printed segment that is not literal. *)
Lemma print_param name op arg len rest : print_seg Bare (Param name op arg len) ++ rest =
  36 :: 123 :: (if len then [35] else []) ++ name ++
    match op, arg with Some op, Some w => print_op op ++ flat_map (print_seg Braced) w | _, _ => [] end ++ 125 :: rest.
Proof. cbn [print_seg app]. by rewrite <- !app_assoc. Qed.

Section reads.
Context (fuel : nat).

(** All four routines read what is printed, with this much fuel. *)
Record Reads : Prop := {
  rd_dollar : ∀ g rest, wf_piece Bare (PSeg g) = true → match g with Param _ _ _ _ | Arith _ => True | _ => False end →
    (length (print_seg Bare g ++ rest) + 1 <= fuel)%nat → read_dollar fuel (print_seg Bare g ++ rest) = Got g rest;
  rd_word : ∀ ps b segs lit rest, forallb (wf_piece Bare) ps = true → stops rest → (length (print_pieces Bare ps ++ rest) + 2 <= fuel)%nat →
    read_word_loop fuel b segs lit (print_pieces Bare ps ++ rest) = Got (assemble segs lit ps) rest;
  rd_quoted : ∀ ps segs lit rest, forallb (wf_piece Quoted) ps = true → (length (print_pieces Quoted ps ++ 34%Z :: rest) + 2 <= fuel)%nat →
    read_double_quoted fuel segs lit (print_pieces Quoted ps ++ 34 :: rest) = Got (assemble segs lit ps) rest;
  rd_braced : ∀ ps segs lit rest, forallb (wf_piece Braced) ps = true → (length (print_pieces Braced ps ++ 125%Z :: rest) + 2 <= fuel)%nat →
    read_until_brace fuel 1 segs lit (print_pieces Braced ps ++ 125 :: rest) = Got (assemble segs lit ps) (125 :: rest);
}.
End reads.

Lemma read_segs q l rest (read : list Seg → list Z → list Z → Lx (list Seg)) tail :
  separate l = true → forallb (wf_seg q) l = true →
  (forallb (wf_piece q) (pieces l) = true → read [] [] (print_pieces q (pieces l) ++ rest) = Got (assemble [] [] (pieces l)) tail) →
  read [] [] (flat_map (print_seg q) l ++ rest) = Got l tail.
Proof.
  intros Hs Hw Hr. rewrite <- print_pieces_of, Hr by (by apply wf_pieces). by rewrite assemble_pieces by (done || by eapply wf_seg_nonempty).
Qed.

Lemma dollar_step fuel g rest : (∀ f, (f < fuel)%nat → Reads f) →
  wf_piece Bare (PSeg g) = true → match g with Param _ _ _ _ | Arith _ => True | _ => False end →
  (length (print_seg Bare g ++ rest) + 1 <= fuel)%nat → read_dollar fuel (print_seg Bare g ++ rest) = Got g rest.
Proof.
  intros IH Hw Hg Hf. destruct fuel as [|[|fuel]]; [lia|rewrite length_app in Hf; destruct g; try done; simpl in Hf; lia|].
  destruct g as [| | |name op arg len| |s|]; try done.
  - rewrite print_param in *. cbn [wf_piece wf_seg] in Hw. apply andb_true_iff in Hw as [Hn Hw].
    cbn [read_dollar]. rewrite drop_one. cbv beta zeta iota. replace (123 =? 40) with false by done. replace (123 =? 123) with true by done.
    cbn [read_brace_param]. destruct op as [op|], arg as [w|]; try done.
    + apply andb_true_iff in Hw as [[H35 Hs]%andb_true_iff Hw]. destruct (print_op_head op (flat_map (print_seg Braced) w ++ 125 :: rest)) as (c & r & E & Hc & _).
      rewrite <- (app_assoc (print_op op)), E in *. rewrite read_param_name_print; [|done..|].
      2:{ intros ->. left. destruct len; [done|]. by rewrite bool_decide_true in H35. }
      cbn [obind]. rewrite <- E, read_param_op_print. cbn [obind].
      rewrite (read_segs Braced w (125 :: rest) (read_until_brace fuel 1) (125 :: rest)); [by cbn|done..|].
      intros Hp. apply (rd_braced fuel); [apply IH; lia|done|]. rewrite print_pieces_of.
      revert Hf. rewrite <- E. destruct name as [|n name]; [done|]. destruct op, len; simpl; rewrite ?length_app; simpl; rewrite ?length_app; simpl; lia.
    + rewrite app_nil_l in *. rewrite read_param_name_print; [|done|done|by right]. cbn [obind]. reflexivity.
  - cbn [print_seg app] in *. rewrite <- app_assoc in *. cbn [read_dollar]. rewrite drop_one. cbv beta zeta iota. replace (40 =? 40) with true by done.
    cbn [head]. rewrite bool_decide_true by done. rewrite drop_one. cbn [app] in *. rewrite read_balanced_print; [done|exact Hw|]. revert Hf. simpl. rewrite length_app. simpl. lia.
Qed.

Lemma active_bare c : is_active Bare c = false → is_stop c = false ∧ c ≠ 92 ∧ c ≠ 39 ∧ c ≠ 34 ∧ c ≠ 96 ∧ c ≠ 36 ∧ c ≠ 35 ∧ c ≠ 126.
Proof. cbn. intros [Hs H%bool_decide_eq_false]%orb_false_iff. rewrite !not_elem_of_cons in H. naive_solver. Qed.

Lemma active_not_glob c : is_active Bare c = true → is_glob c = false.
Proof.
  cbn. unfold is_stop, is_glob. intros [H|H%bool_decide_eq_true]%orb_true_iff; [lia|]. rewrite !elem_of_cons in H.
  repeat (destruct H as [->|H]; [done|]). by apply elem_of_nil in H.
Qed.

Lemma print_pieces_cons q p ps rest : print_pieces q (p :: ps) ++ rest = print_piece q p ++ print_pieces q ps ++ rest.
Proof. unfold print_pieces. cbn [flat_map]. by rewrite <- app_assoc. Qed.

(** Where a segment begins with a dollar sign, one routine reads it. *)
Definition is_dollar (g : Seg) : bool := match g with Param _ _ _ _ | Arith _ => true | _ => false end.

Lemma print_dollar q g : is_dollar g = true → print_seg q g = print_seg Bare g ∧ ∃ r, print_seg Bare g = 36 :: r.
Proof. destruct g; try done; intros _; split; try done; eexists; reflexivity. Qed.

Lemma wf_dollar q g : is_dollar g = true → wf_piece q (PSeg g) = true → wf_piece Bare (PSeg g) = true.
Proof. by destruct g. Qed.

Lemma read_dollar_piece fuel q g rest : Reads fuel → is_dollar g = true → wf_piece q (PSeg g) = true →
  (length (print_piece q (PSeg g) ++ rest) + 1 <= fuel)%nat → read_dollar fuel (print_piece q (PSeg g) ++ rest) = Got g rest.
Proof.
  intros Hr Hd Hw Hf. cbn [print_piece] in *. destruct (print_dollar q g Hd) as [E _]. rewrite E in *.
  apply (rd_dollar fuel Hr); [by eapply wf_dollar|by destruct g|done].
Qed.

Lemma word_step fuel ps b segs lit rest : Reads fuel → forallb (wf_piece Bare) ps = true → stops rest →
  (length (print_pieces Bare ps ++ rest) + 2 <= S fuel)%nat →
  read_word_loop (S fuel) b segs lit (print_pieces Bare ps ++ rest) = Got (assemble segs lit ps) rest.
Proof.
  intros Hr Hw Hstop Hf. destruct ps as [|p ps].
  { cbn. destruct rest as [|c rest]; [done|]. cbn in Hstop. by rewrite Hstop. }
  rewrite print_pieces_cons in *. cbn [forallb] in Hw. apply andb_true_iff in Hw as [Hp Hw]. destruct p as [c|g].
  - cbn [print_piece] in *. unfold print_char in *. destruct (is_active Bare c) eqn:Ha; cbn [app assemble] in *.
    + cbn [read_word_loop]. replace (is_stop 92) with false by done. cbn [Z.eqb Pos.eqb andb].
      apply bool_decide_eq_true in Hp. rewrite (proj2 (Z.eqb_neq _ _) Hp), (active_not_glob _ Ha). apply (rd_word fuel Hr); [done..|]. simpl in Hf. lia.
    + destruct (active_bare _ Ha) as (Hs & H92 & H39 & H34 & H96 & H36 & H35 & _). cbn [read_word_loop].
      rewrite Hs, (proj2 (Z.eqb_neq c 35)), (proj2 (Z.eqb_neq c 92)), (proj2 (Z.eqb_neq c 39)), (proj2 (Z.eqb_neq c 34)), (proj2 (Z.eqb_neq c 96)), (proj2 (Z.eqb_neq c 36)) by done.
      cbn [andb]. apply (rd_word fuel Hr); [done..|]. simpl in Hf. lia.
  - destruct (is_dollar g) eqn:Hd.
    + pose proof (read_dollar_piece fuel Bare g (print_pieces Bare ps ++ rest) Hr Hd Hp ltac:(lia)) as Hread.
      destruct (print_dollar Bare g Hd) as [_ [r Er]]. cbn [print_piece] in *. rewrite Er in *. cbn [app read_word_loop] in *.
      replace (is_stop 36) with false by done. cbn [Z.eqb Pos.eqb andb]. rewrite Hread. cbn [obind assemble]. apply (rd_word fuel Hr); [done..|]. simpl in Hf. rewrite length_app in Hf. lia.
    + destruct g as [|s|inner| |s| |]; try done; cbn [print_piece print_seg app assemble] in *; rewrite <- app_assoc in *; cbn [app] in *; cbn [read_word_loop].
      * replace (is_stop 39) with false by done. cbn [Z.eqb Pos.eqb andb]. cbn [wf_piece wf_seg] in Hp. apply andb_true_iff in Hp as [_ Hq%bool_decide_eq_true].
        rewrite read_single_quoted_print by done. cbn [obind app]. apply (rd_word fuel Hr); [done..|]. simpl in Hf. rewrite length_app in Hf. simpl in Hf. lia.
      * replace (is_stop 34) with false by done. cbn [Z.eqb Pos.eqb andb]. cbn [wf_piece wf_seg] in Hp. apply andb_true_iff in Hp as [[_ Hsep]%andb_true_iff Hin].
        rewrite (read_segs Quoted inner (34 :: print_pieces Bare ps ++ rest) (read_double_quoted fuel) (print_pieces Bare ps ++ rest)); [|done..|].
        { cbn [obind]. apply (rd_word fuel Hr); [done..|]. simpl in Hf. rewrite length_app in Hf. simpl in Hf. lia. }
        intros Hps. apply (rd_quoted fuel Hr); [done|]. rewrite print_pieces_of. simpl in Hf. lia.
      * replace (is_stop 96) with false by done. cbn [Z.eqb Pos.eqb andb]. rewrite read_backtick_print. cbn [obind app]. apply (rd_word fuel Hr); [done..|].
        simpl in Hf. rewrite length_app in Hf. simpl in Hf. lia.
Qed.

Lemma quoted_step fuel ps segs lit rest : Reads fuel → forallb (wf_piece Quoted) ps = true →
  (length (print_pieces Quoted ps ++ 34%Z :: rest) + 2 <= S fuel)%nat →
  read_double_quoted (S fuel) segs lit (print_pieces Quoted ps ++ 34 :: rest) = Got (assemble segs lit ps) rest.
Proof.
  intros Hr Hw Hf. destruct ps as [|p ps]; [done|].
  rewrite print_pieces_cons in *. cbn [forallb] in Hw. apply andb_true_iff in Hw as [Hp Hw]. destruct p as [c|g].
  - cbn [print_piece] in *. unfold print_char in *. destruct (is_active Quoted c) eqn:Ha; cbn [app assemble] in *; cbn [is_active] in Ha.
    + apply bool_decide_eq_true in Ha. rewrite !elem_of_cons in Ha. cbn [read_double_quoted Z.eqb Pos.eqb].
      assert ((c =? 10) = false ∧ (c =? 36) || (c =? 96) || (c =? 34) || (c =? 92) = true) as [-> ->].
      { repeat (destruct Ha as [->|Ha]; [done|]). by apply elem_of_nil in Ha. }
      apply (rd_quoted fuel Hr); [done..|]. simpl in Hf. lia.
    + apply bool_decide_eq_false in Ha. rewrite !not_elem_of_cons in Ha. destruct Ha as (H34 & H92 & H96 & H36 & _). cbn [read_double_quoted].
      rewrite (proj2 (Z.eqb_neq c 92)), (proj2 (Z.eqb_neq c 34)), (proj2 (Z.eqb_neq c 96)), (proj2 (Z.eqb_neq c 36)) by done.
      apply (rd_quoted fuel Hr); [done..|]. simpl in Hf. lia.
  - destruct (is_dollar g) eqn:Hd.
    + pose proof (read_dollar_piece fuel Quoted g (print_pieces Quoted ps ++ 34 :: rest) Hr Hd Hp ltac:(lia)) as Hread.
      destruct (print_dollar Quoted g Hd) as [E [r Er]]. cbn [print_piece] in *. rewrite E, Er in *. cbn [app read_double_quoted Z.eqb Pos.eqb] in *.
      rewrite Hread. cbn [obind assemble]. apply (rd_quoted fuel Hr); [done..|]. simpl in Hf. rewrite length_app in Hf. lia.
    + destruct g as [|s|inner| |s| |]; try done. cbn [print_piece print_seg app assemble] in *. rewrite <- app_assoc in *. cbn [app] in *.
      cbn [read_double_quoted Z.eqb Pos.eqb]. rewrite read_backtick_print. cbn [obind app]. apply (rd_quoted fuel Hr); [done..|].
      simpl in Hf. rewrite length_app in Hf. simpl in Hf. lia.
Qed.

Lemma braced_step fuel ps segs lit rest : Reads fuel → forallb (wf_piece Braced) ps = true →
  (length (print_pieces Braced ps ++ 125%Z :: rest) + 2 <= S fuel)%nat →
  read_until_brace (S fuel) 1 segs lit (print_pieces Braced ps ++ 125 :: rest) = Got (assemble segs lit ps) (125 :: rest).
Proof.
  intros Hr Hw Hf. destruct ps as [|p ps]; [done|].
  rewrite print_pieces_cons in *. cbn [forallb] in Hw. apply andb_true_iff in Hw as [Hp Hw]. destruct p as [c|g].
  - cbn [print_piece] in *. unfold print_char in *. destruct (is_active Braced c) eqn:Ha; cbn [app assemble] in *; cbn [is_active] in Ha.
    + cbn [read_until_brace Z.eqb Pos.eqb]. apply (rd_braced fuel Hr); [done..|]. simpl in Hf. lia.
    + apply bool_decide_eq_false in Ha. rewrite !not_elem_of_cons in Ha. destruct Ha as (H125 & H123 & H92 & H39 & H34 & H36 & H96 & _). cbn [read_until_brace].
      rewrite (proj2 (Z.eqb_neq c 125)), (proj2 (Z.eqb_neq c 123)), (proj2 (Z.eqb_neq c 92)), (proj2 (Z.eqb_neq c 39)), (proj2 (Z.eqb_neq c 34)), (proj2 (Z.eqb_neq c 96)), (proj2 (Z.eqb_neq c 36)) by done.
      apply (rd_braced fuel Hr); [done..|]. simpl in Hf. lia.
  - destruct (is_dollar g) eqn:Hd.
    + pose proof (read_dollar_piece fuel Braced g (print_pieces Braced ps ++ 125 :: rest) Hr Hd Hp ltac:(lia)) as Hread.
      destruct (print_dollar Braced g Hd) as [E [r Er]]. cbn [print_piece] in *. rewrite E, Er in *. cbn [app read_until_brace Z.eqb Pos.eqb] in *.
      rewrite Hread. cbn [obind assemble]. apply (rd_braced fuel Hr); [done..|]. simpl in Hf. rewrite length_app in Hf. lia.
    + destruct g as [|s|inner| |s| |]; try done; cbn [print_piece print_seg app assemble] in *; rewrite <- app_assoc in *; cbn [app] in *; cbn [read_until_brace Z.eqb Pos.eqb].
      * cbn [wf_piece wf_seg] in Hp. apply andb_true_iff in Hp as [_ Hq%bool_decide_eq_true].
        rewrite read_single_quoted_print by done. cbn [obind app]. apply (rd_braced fuel Hr); [done..|]. simpl in Hf. rewrite length_app in Hf. simpl in Hf. lia.
      * cbn [wf_piece wf_seg] in Hp. apply andb_true_iff in Hp as [[_ Hsep]%andb_true_iff Hin].
        rewrite (read_segs Quoted inner (34 :: print_pieces Braced ps ++ 125 :: rest) (read_double_quoted fuel) (print_pieces Braced ps ++ 125 :: rest)); [|done..|].
        { cbn [obind]. apply (rd_braced fuel Hr); [done..|]. simpl in Hf. rewrite length_app in Hf. simpl in Hf. lia. }
        intros Hps. apply (rd_quoted fuel Hr); [done|]. rewrite print_pieces_of. simpl in Hf. lia.
      * rewrite read_backtick_print. cbn [obind app]. apply (rd_braced fuel Hr); [done..|]. simpl in Hf. rewrite length_app in Hf. simpl in Hf. lia.
Qed.

Lemma reads fuel : Reads fuel.
Proof.
  induction fuel as [fuel IH] using lt_wf_ind. destruct fuel as [|fuel].
  { split; intros; lia. }
  pose proof (IH fuel ltac:(lia)) as Hr. split; intros.
  - by apply dollar_step.
  - by apply word_step.
  - by apply quoted_step.
  - by apply braced_step.
Qed.

Lemma read_word_print w rest : wf_word w = true → stops rest → ∀ fuel, (length (print_word w ++ rest) + 2 <= fuel)%nat →
  read_word fuel (print_word w ++ rest) = Got w rest.
Proof.
  intros [Hne Hw]%andb_true_iff Hstop fuel Hf. apply bool_decide_eq_true in Hne. unfold print_word in *.
  assert (∀ l b segs, separate l = true → forallb (wf_seg Bare) l = true → (length (flat_map (print_seg Bare) l ++ rest) + 2 <= fuel)%nat →
    read_word_loop fuel b segs [] (flat_map (print_seg Bare) l ++ rest) = Got (segs ++ l) rest) as Hloop.
  { intros l b segs Hs Hl Hlen. rewrite <- print_pieces_of in *. rewrite (rd_word fuel (reads fuel)); [|by apply wf_pieces|done..].
    by rewrite assemble_pieces by (done || by eapply wf_seg_nonempty). }
  destruct w as [|g l]; [done|]. assert (g ≠ Lit []) as Hlit by (intros ->; by apply andb_true_iff in Hw as [_ Hw]).
  assert (∀ c r, flat_map (print_seg Bare) (g :: l) ++ rest = c :: r → (if decide (c = 126) then ∃ name, g = Tilde name else True)) as Hhead.
  { intros c r E. case_decide as Hc; [|done]. subst c. destruct g as [s| | |nm op arg ln| | |name]; cbn in E; try done; [|by exists name].
    destruct s as [|c' s]; [done|]. cbn [flat_map] in E. unfold print_char at 1 in E. destruct (is_active Bare c') eqn:Ha; cbn in E; [done|].
    injection E as -> _. by destruct (active_bare _ Ha) as (_ & _ & _ & _ & _ & _ & _ & ?). }
  unfold read_word. destruct (flat_map (print_seg Bare) (g :: l) ++ rest) as [|c r] eqn:E.
  { exfalso. destruct g as [[|d s]| | |nm op arg ln| | |name]; try done. cbn [flat_map print_seg] in E. unfold print_char in E. by destruct (is_active Bare d). }
  specialize (Hhead c r eq_refl). destruct (Z.eqb_spec c 126) as [->|Hc].
  - rewrite decide_True in Hhead by done. destruct Hhead as [name ->]. cbn in E. injection E as E. rewrite !andb_true_iff in Hw. destruct Hw as [[[Hn Hs] Hl] Hnext].
    rewrite <- app_assoc in E. subst r. unfold read_name. rewrite split_while_print; [|done|].
    + apply (Hloop l false [Tilde name] Hs Hl). revert Hf. simpl. rewrite length_app. lia.
    + destruct l as [|g' l]; [destruct rest as [|d rest]; [done|]|].
      * cbn in *. unfold is_stop in Hstop. unfold is_tilde_name, is_alpha, is_digit. lia.
      * cbn [forallb] in Hl. apply andb_true_iff in Hl as [Hg' _]. destruct g' as [[|d s]| | | | | |]; try done.
        cbn [flat_map print_seg]. unfold print_char at 1. destruct (is_active Bare d); cbn; [done|]. by apply negb_true_iff.
  - rewrite <- E in *. apply (Hloop (g :: l) true []); [| |done]; destruct g; try (by apply andb_true_iff in Hw as [??]).
    all: by cbn in E; injection E as <- _.
Qed.

(** ** Tokens *)

Definition print_token (t : Token) : list Z :=
  match t with
  | TWord w => print_word w
  | Newline => [10] | Semi => [59] | Amp => [38] | AndAnd => [38; 38] | OrOr => [124; 124] | Pipe => [124]
  | LParen => [40] | RParen => [41] | Less => [60] | Greater => [62] | DGreater => [62; 62] | Clobber => [62; 124]
  | LessAnd => [60; 38] | GreaterAnd => [62; 38] | AmpGreater => [38; 62]
  | IoNumber n => [48 + n]
  | Eof => []
  end.

(** A blank after every token but a number that belongs to a redirection. *)
Definition blank_after (t : Token) : list Z := match t with IoNumber _ => [] | _ => [32] end.

Definition print_tokens (ts : list Token) : list Z := flat_map (λ t, print_token t ++ blank_after t) ts.

(** The redirections that can have a number. *)
Definition takes_number (ts : list Token) : bool :=
  match ts with (Less | Greater | DGreater | Clobber | LessAnd | GreaterAnd) :: _ => true | _ => false end.

Fixpoint wf_tokens (ts : list Token) : bool :=
  match ts with
  | [] => true
  | t :: ts =>
      match t with
      | TWord w => wf_word w
      | IoNumber n => (0 <=? n) && (n <=? 9) && takes_number ts
      | Eof => false
      | _ => true
      end && wf_tokens ts
  end.

Lemma print_word_head w : wf_word w = true →
  ∃ c r, print_word w = c :: r ∧ is_stop c = false ∧ c ≠ 35 ∧ (c = 92 → ∃ d r', r = d :: r' ∧ d ≠ 10).
Proof.
  intros [Hne Hw]%andb_true_iff. apply bool_decide_eq_true in Hne. destruct w as [|g l]; [done|]. unfold print_word. cbn [flat_map].
  destruct g as [s|s|inner|nm op arg ln|s|s|name]; try (eexists _, _; split; [reflexivity|done]).
  apply andb_true_iff in Hw as [_ Hw]. cbn [forallb wf_seg] in Hw. rewrite !andb_true_iff in Hw. destruct Hw as [[Hs H10] _].
  apply bool_decide_eq_true in Hs, H10. destruct s as [|c s]; [done|]. apply not_elem_of_cons in H10 as [H10 _]. cbn [print_seg flat_map].
  unfold print_char at 1. destruct (is_active Bare c) eqn:Ha.
  - eexists _, _. split; [reflexivity|]. split; [done|]. split; [done|]. intros _. eexists _, _. split; [reflexivity|done].
  - destruct (active_bare _ Ha) as (Hst & H92 & _ & _ & _ & _ & H35 & _). eexists _, _. by split_and!.
Qed.

Lemma skip_blanks_word w rest fuel : wf_word w = true → skip_blanks fuel (print_word w ++ rest) = print_word w ++ rest.
Proof.
  intros Hw. destruct (print_word_head w Hw) as (c & r & -> & Hst & H35 & H92). destruct fuel as [|fuel]; [done|]. cbn [app skip_blanks].
  assert ((c =? 32) || (c =? 9) = false) as -> by (unfold is_stop in Hst; lia). destruct (Z.eqb_spec c 92) as [E|E].
  - destruct (H92 E) as (d & r' & -> & Hd). cbn. by rewrite (proj2 (Z.eqb_neq d 10)).
  - by rewrite (proj2 (Z.eqb_neq c 35)).
Qed.

Lemma next_token_blank s : next_token (32 :: s) = next_token s.
Proof. reflexivity. Qed.

(** A word, wherever it ends. *)
Lemma next_token_word w rest : wf_word w = true → stops rest →
  next_token (print_word w ++ rest) =
  match io_number w (length (print_word w)) rest with Some n => Got (IoNumber n) rest | None => Got (TWord w) rest end.
Proof.
  intros Hw Hstop. unfold next_token, skip_blanks_and_comments. rewrite skip_blanks_word by done.
  pose proof (read_word_print w rest Hw Hstop (length (print_word w ++ rest) + 2) ltac:(lia)) as Hr.
  destruct (print_word_head w Hw) as (c & r & E & Hst & _). rewrite E in *. cbn [app] in *.
  assert (operator (c :: r ++ rest) = None) as ->.
  { unfold is_stop in Hst. unfold operator. rewrite !orb_false_iff in Hst. destruct Hst as [[[[[[[[[? ?] H10] H59] H38] H124] H60] H62] H40] H41].
    by rewrite H10, H59, H40, H41, H124, H38, H60, H62. }
  rewrite Hr. cbn [obind]. simpl length. rewrite length_app. by replace (S (length r + length rest) - length rest)%nat with (S (length r)) by lia.
Qed.

Lemma next_token_number n c rest : 0 ≤ n ≤ 9 → c = 60 ∨ c = 62 → next_token (48 + n :: c :: rest) = Got (IoNumber n) (c :: rest).
Proof.
  intros Hn Hc. assert (print_word [Lit [48 + n]] = [48 + n] ∧ wf_word [Lit [48 + n]] = true ∧ parse_i32 [48 + n] = Some n ∧ is_digit (48 + n) = true) as (E & Hw & Hp & Hd).
  { assert (n = 0 ∨ n = 1 ∨ n = 2 ∨ n = 3 ∨ n = 4 ∨ n = 5 ∨ n = 6 ∨ n = 7 ∨ n = 8 ∨ n = 9) as H by lia.
    repeat (destruct H as [->|H]; [by vm_compute|]). subst. by vm_compute. }
  pose proof (next_token_word [Lit [48 + n]] (c :: rest) Hw) as H. rewrite E in H. cbn [app] in H. rewrite H by (by destruct Hc as [-> | ->]).
  unfold io_number. cbn [forallb]. rewrite Hd, Hp. rewrite (bool_decide_true ([48 + n] ≠ [])) by done. by destruct Hc as [-> | ->].
Qed.

Lemma print_tokens_head ts : takes_number ts = true → ∃ c r, print_tokens ts = c :: r ∧ (c = 60 ∨ c = 62).
Proof. destruct ts as [|[] ts]; try done; intros _; eexists _, _; (split; [reflexivity|auto]). Qed.

Lemma next_token_print t ts : wf_tokens (t :: ts) = true → next_token (print_tokens (t :: ts)) = Got t (blank_after t ++ print_tokens ts).
Proof.
  cbn [wf_tokens]. intros [Ht Hts]%andb_true_iff. unfold print_tokens. cbn [flat_map]. fold (print_tokens ts). rewrite <- app_assoc.
  destruct t; try reflexivity; try done; cbn [print_token blank_after].
  - rewrite next_token_word by done. unfold io_number. destruct w as [|[text| | | | | |] [|]]; try done. cbn [head app].
    rewrite !(bool_decide_false (Some 32 = _)) by done. cbn [orb]. by rewrite andb_false_r.
  - rewrite !andb_true_iff in Ht. destruct Ht as [[H0 H9] Hr]. destruct (print_tokens_head _ Hr) as (c & r & -> & Hc). cbn [app].
    apply next_token_number; [lia|done].
Qed.

(** The lexer, run to the end of the input. *)
Fixpoint lex_all (fuel : nat) (s : list Z) : Lx (list Token) :=
  match fuel with
  | O => NoFuel
  | S fuel =>
      let* t, s := next_token s in
      match t with
      | Eof => Got [] s
      | _ => let* ts, s := lex_all fuel s in Got (t :: ts) s
      end
  end.

Lemma lex_all_total fuel s : (length s < fuel)%nat → lex_all fuel s ≠ NoFuel.
Proof.
  revert s. induction fuel as [|fuel IH]; intros s Hf; [lia|]. cbn [lex_all]. pose proof (lexer_steps s) as H.
  destruct (next_token s) as [t s'|e|]; [|done..]. cbn [obind]. destruct t; try done; specialize (IH s' ltac:(lia)); by destruct (lex_all fuel s').
Qed.

Lemma lex_print ts : wf_tokens ts = true → lex_all (S (length ts)) (print_tokens ts) = Got ts [].
Proof.
  intros Hts. assert (∀ b, b = [] ∨ b = [32] → lex_all (S (length ts)) (b ++ print_tokens ts) = Got ts []) as H; [|by apply (H []); left].
  induction ts as [|t ts IH]; intros b Hb.
  { destruct Hb as [-> | ->]; reflexivity. }
  cbn [lex_all]. replace (next_token (b ++ print_tokens (t :: ts))) with (next_token (print_tokens (t :: ts))) by (by destruct Hb as [-> | ->]).
  rewrite next_token_print by done. cbn [obind]. cbn in Hts. apply andb_true_iff in Hts as [Ht Hts]. rewrite (IH Hts) by (destruct t; auto). by destruct t.
Qed.

(** C21: The lexer makes progress.  On any text [next_token] gives a token or an
    error; the end of input only when nothing but blanks and comments is left;
    any other token consumes a byte at least.  So every text is lexed to its end,
    and no word is read without consuming input. *)
Theorem lexer_progress s :
  match next_token s with
  | Got Eof s' => s' = [] ∧ skip_blanks_and_comments s = []
  | Got _ s' => (length s' < length s)%nat
  | Wrong _ => True
  | NoFuel => False
  end ∧ lex_all (S (length s)) s ≠ NoFuel.
Proof. split; [apply lexer_steps|apply lex_all_total; lia]. Qed.
End Lexer.
