(* ===== verification/Parser.v ===== *)
(** * The shell's parser ([user_program/src/bin/sh/ast.rs], [parser.rs])

    Commands, the recursive descent over the lexer, and that printed commands are
    parsed to what they were. *)

From Stdlib Require Import String.
From S2P Require Import Prelude Text Lexer.
#[local] Set Warnings "-register-all".
Open Scope Z_scope.

Module Parser.
Import Text Lexer.

(** ** Commands ([ast.rs]) *)

Inductive RedirTarget : Type := RFile (w : Word) | RFd (w : Word).

Inductive RedirOp : Set := In | Out | Append | RClobber | DupOut | DupIn | OutBoth.

Record Redir : Type := mkRedir { fd : option Z; op : RedirOp; target : RedirTarget }.

Record Assignment : Type := mkAssign { name : list Z; value : Word }.

Record SimpleCmd : Type := mkSimple { assigns : list Assignment; words : list Word; redirs : list Redir }.

Inductive AndOrOp : Set := And | Or.
Inductive Sep : Set := Seq | Bg.

Inductive Cmd : Type :=
| Simple (c : SimpleCmd)
| Pipeline (negated : bool) (parts : list Cmd)
| AndOr (lhs : Cmd) (o : AndOrOp) (rhs : Cmd)
| CList (items : list (Cmd * Sep))
| Subshell (body : Cmd) (rs : list Redir)
| Group (body : Cmd) (rs : list Redir)
| If (cond : Cmd) (then_ : Cmd) (elifs : list (Cmd * Cmd)) (els : option Cmd) (rs : list Redir)
| While (cond : Cmd) (body : Cmd) (until : bool) (rs : list Redir)
| For (var : list Z) (ws : option (list Word)) (body : Cmd) (rs : list Redir)
| FuncDef (fname : list Z) (body : Cmd)
| Empty.

(** ** Words with a meaning *)

Definition word_is_literal_keyword (w : Word) (kw : list Z) : bool :=
  match w with [Lit s] => bool_decide (s = kw) | _ => false end.

Definition is_valid_name (s : list Z) : bool :=
  match s with [] => false | c :: s => is_name_start c && forallb is_name_cont s end.

Definition word_as_simple_name (w : Word) : option (list Z) :=
  match w with [Lit s] => if is_valid_name s then Some s else None | _ => None end.

Definition reserved : list (list Z) :=
  map str ["if"; "then"; "else"; "elif"; "fi"; "while"; "until"; "do"; "done"; "for"; "in"; "{"; "}"; "!"]%string.

Definition word_as_reserved (w : Word) : option (list Z) :=
  match w with [Lit s] => if bool_decide (s ∈ reserved) then Some s else None | _ => None end.

Definition word_as_assignment (w : Word) : option (list Z * Word) :=
  match w with
  | Lit text :: segs =>
      match split_once 61 text with
      | Some (name, rest) =>
          if bool_decide (name = []) || negb (is_valid_name name) then None
          else Some (name, flush [] rest ++ segs)
      | None => None
      end
  | _ => None
  end.

Definition redir_op_for (t : Token) : option RedirOp :=
  match t with
  | Less => Some In | Greater => Some Out | DGreater => Some Append
  | LessAnd => Some DupIn | GreaterAnd => Some DupOut | AmpGreater => Some OutBoth | Clobber => Some RClobber
  | _ => None
  end.

Definition redir_target (o : RedirOp) (w : Word) : RedirTarget :=
  match o with DupIn | DupOut => RFd w | _ => RFile w end.

(** ** The parser *)

Record Parser : Type := mkParser { cur : Token; lex : list Z }.

Definition Px (A : Type) : Type := Parser → Outcome LexError Parser A.

Definition advance : Px () := λ s,
  match next_token (lex s) with
  | Got t l => Got () (mkParser t l)
  | Wrong e => Wrong e
  | NoFuel => NoFuel
  end.

Definition parser_new (src : list Z) : Outcome LexError Parser () := advance (mkParser Eof src).

Definition peek_keyword (kw : list Z) (s : Parser) : bool :=
  match cur s with TWord w => word_is_literal_keyword w kw | _ => false end.

Definition peek_any_keyword (kws : list (list Z)) (s : Parser) : bool := existsb (λ k, peek_keyword k s) kws.

Definition expect_word : Px Word := λ s,
  match cur s with
  | TWord w => let* _, s := advance s in Got w s
  | _ => Wrong (error "expected redirection target")
  end.

Definition expect_keyword (kw : list Z) : Px () := λ s,
  if peek_keyword kw s then advance s else Wrong (mkError (str "expected `" ++ kw ++ str "`") false).

(** Loops take one unit of fuel per turn. *)
Fixpoint skip_newlines (n : nat) (s : Parser) : Outcome LexError Parser () :=
  match n with
  | O => NoFuel
  | S n => match cur s with Newline => let* _, s := advance s in skip_newlines n s | _ => Got () s end
  end.

(** One redirection, from its operator on. *)
Definition parse_redir (pending_fd : option Z) (o : RedirOp) : Px Redir := λ s,
  let* _, s := advance s in
  let* tgt, s := expect_word s in
  Got (mkRedir pending_fd o (redir_target o tgt)) s.

Fixpoint trailing_redirs (n : nat) (pending_fd : option Z) (rs : list Redir) (s : Parser) : Outcome LexError Parser (list Redir) :=
  match n with
  | O => NoFuel
  | S n =>
      match cur s with
      | IoNumber k => let* _, s := advance s in trailing_redirs n (Some k) rs s
      | t =>
          match redir_op_for t with
          | Some o => let* r, s := parse_redir pending_fd o s in trailing_redirs n None (rs ++ [r]) s
          | None => Got rs s
          end
      end
  end.

Definition parse_trailing_redirs (n : nat) : Px (list Redir) := trailing_redirs n None [].

(** The separator after an item; [None] where there is none. *)
Definition separator : Px (option Sep) := λ s,
  match cur s with
  | Amp => let* _, s := advance s in Got (Some Bg) s
  | Semi | Newline => let* _, s := advance s in Got (Some Seq) s
  | _ => Got None s
  end.

(** A list of one item that is waited for is the item. *)
Definition single (items : list (Cmd * Sep)) : option Cmd := match items with [(c, Seq)] => Some c | _ => None end.

Definition list_of (items : list (Cmd * Sep)) : Cmd :=
  match single items, items with
  | Some c, _ => c
  | None, [] => Empty
  | None, _ => CList items
  end.

Definition subshell_body (items : list (Cmd * Sep)) : Cmd := default (CList items) (single items).

Section descent.
(** The parser of one command, and the turns that loops have. *)
Context (parse_command : Px Cmd) (n : nat).

Fixpoint pipeline_loop (k : nat) (parts : list Cmd) (s : Parser) : Outcome LexError Parser (list Cmd) :=
  match k with
  | O => NoFuel
  | S k =>
      match cur s with
      | Pipe =>
          let* _, s := advance s in
          let* _, s := skip_newlines n s in
          let* c, s := parse_command s in
          pipeline_loop k (parts ++ [c]) s
      | _ => Got parts s
      end
  end.

Definition parse_pipeline : Px Cmd := λ s,
  let negated := peek_keyword (str "!") s in
  let* _, s := (if negated then advance s else Got () s) in
  let* first, s := parse_command s in
  if negb (match cur s with Pipe => true | _ => false end) && negb negated then Got first s
  else let* parts, s := pipeline_loop n [first] s in Got (Pipeline negated parts) s.

Fixpoint and_or_loop (k : nat) (lhs : Cmd) (s : Parser) : Outcome LexError Parser Cmd :=
  match k with
  | O => NoFuel
  | S k =>
      let next o :=
        let* _, s := advance s in
        let* _, s := skip_newlines n s in
        let* rhs, s := parse_pipeline s in
        and_or_loop k (AndOr lhs o rhs) s in
      match cur s with
      | AndAnd => next And
      | OrOr => next Or
      | _ => Got lhs s
      end
  end.

Definition parse_and_or : Px Cmd := λ s, let* lhs, s := parse_pipeline s in and_or_loop n lhs s.

Fixpoint compound_loop (k : nat) (terminators : list (list Z)) (items : list (Cmd * Sep)) (s : Parser) : Outcome LexError Parser (list (Cmd * Sep)) :=
  match k with
  | O => NoFuel
  | S k =>
      if peek_any_keyword terminators s || (match cur s with Eof => true | _ => false end) then Got items s
      else
        let* c, s := parse_and_or s in
        let* sep, s := separator s in
        let* _, s := skip_newlines n s in
        compound_loop k terminators (items ++ [(c, default Seq sep)]) s
  end.

Definition parse_compound_list (terminators : list (list Z)) : Px Cmd := λ s,
  let* _, s := skip_newlines n s in
  let* items, s := compound_loop n terminators [] s in
  Got (list_of items) s.

Fixpoint elif_loop (k : nat) (elifs : list (Cmd * Cmd)) (s : Parser) : Outcome LexError Parser (list (Cmd * Cmd)) :=
  match k with
  | O => NoFuel
  | S k =>
      if peek_keyword (str "elif") s then
        let* _, s := advance s in
        let* c, s := parse_compound_list [str "then"] s in
        let* _, s := expect_keyword (str "then") s in
        let* b, s := parse_compound_list [str "elif"; str "else"; str "fi"] s in
        elif_loop k (elifs ++ [(c, b)]) s
      else Got elifs s
  end.

Definition parse_if : Px Cmd := λ s,
  let* _, s := advance s in
  let* cond, s := parse_compound_list [str "then"] s in
  let* _, s := expect_keyword (str "then") s in
  let* then_, s := parse_compound_list [str "elif"; str "else"; str "fi"] s in
  let* elifs, s := elif_loop n [] s in
  let* els, s := (if peek_keyword (str "else") s then
                    let* _, s := advance s in
                    let* e, s := parse_compound_list [str "fi"] s in Got (Some e) s
                  else Got None s) in
  let* _, s := expect_keyword (str "fi") s in
  let* rs, s := parse_trailing_redirs n s in
  Got (If cond then_ elifs els rs) s.

Definition parse_while (until : bool) : Px Cmd := λ s,
  let* _, s := advance s in
  let* cond, s := parse_compound_list [str "do"] s in
  let* _, s := expect_keyword (str "do") s in
  let* body, s := parse_compound_list [str "done"] s in
  let* _, s := expect_keyword (str "done") s in
  let* rs, s := parse_trailing_redirs n s in
  Got (While cond body until rs) s.

(** The words of a [for], up to a [do]. *)
Fixpoint for_words (k : nat) (ws : list Word) (s : Parser) : Outcome LexError Parser (list Word) :=
  match k with
  | O => NoFuel
  | S k =>
      match cur s with
      | TWord w =>
          if word_is_literal_keyword w (str "do") then Got ws s
          else let* _, s := advance s in for_words k (ws ++ [w]) s
      | _ => Got ws s
      end
  end.

Definition parse_for : Px Cmd := λ s,
  let* _, s := advance s in
  match (match cur s with TWord w => word_as_simple_name w | _ => None end) with
  | None => Wrong (error "expected variable name after `for`")
  | Some var =>
      let* _, s := advance s in
      let* _, s := skip_newlines n s in
      let* ws, s := (if peek_keyword (str "in") s then
                       let* _, s := advance s in
                       let* ws, s := for_words n [] s in
                       let* _, s := (match cur s with
                                     | Semi | Newline => let* _, s := advance s in skip_newlines n s
                                     | _ => Got () s
                                     end) in
                       Got (Some ws) s
                     else Got None s) in
      let* _, s := expect_keyword (str "do") s in
      let* body, s := parse_compound_list [str "done"] s in
      let* _, s := expect_keyword (str "done") s in
      let* rs, s := parse_trailing_redirs n s in
      Got (For var ws body rs) s
  end.

Definition parse_group : Px Cmd := λ s,
  let* _, s := advance s in
  let* body, s := parse_compound_list [str "}"] s in
  let* _, s := expect_keyword (str "}") s in
  let* rs, s := parse_trailing_redirs n s in
  Got (Group body rs) s.

Fixpoint subshell_loop (k : nat) (items : list (Cmd * Sep)) (s : Parser) : Outcome LexError Parser (list (Cmd * Sep)) :=
  match k with
  | O => NoFuel
  | S k =>
      match cur s with
      | RParen => Got items s
      | _ =>
          let* c, s := parse_and_or s in
          let* sep, s := separator s in
          match sep, cur s with
          | None, RParen | Some _, _ =>
              let* _, s := skip_newlines n s in
              subshell_loop k (items ++ [(c, default Seq sep)]) s
          | None, _ => Wrong (error "expected `;`, `&`, newline, or `)`")
          end
      end
  end.

Definition parse_subshell : Px Cmd := λ s,
  let* _, s := advance s in
  let* _, s := skip_newlines n s in
  let* items, s := subshell_loop n [] s in
  let* _, s := advance s in
  let* rs, s := parse_trailing_redirs n s in
  Got (Subshell (subshell_body items) rs) s.

(** [name ( )] was read up to the opening parenthesis. *)
Definition parse_function (fname : list Z) : Px Cmd := λ s,
  let* _, s := advance s in
  match cur s with
  | RParen =>
      let* _, s := advance s in
      let* _, s := skip_newlines n s in
      let* body, s := parse_command s in
      Got (FuncDef fname body) s
  | _ => Wrong (error "expected ')' in function definition")
  end.

(** [had_word] is that [words] is not empty. *)
Fixpoint simple_loop (k : nat) (c : SimpleCmd) (pending_fd : option Z) (s : Parser) : Outcome LexError Parser Cmd :=
  match k with
  | O => NoFuel
  | S k =>
      match cur s with
      | IoNumber m => let* _, s := advance s in simple_loop k c (Some m) s
      | TWord w =>
          let* _, s := advance s in
          let had_word := negb (bool_decide (length (words c) = 0%nat)) in
          let fname := if negb had_word && bool_decide (length (assigns c) = 0%nat) && (match cur s with LParen => true | _ => false end)
                       then word_as_simple_name w else None in
          match fname with
          | Some fname => parse_function fname s
          | None =>
              match (if had_word then None else word_as_assignment w) with
              | Some (nm, v) => simple_loop k (mkSimple (assigns c ++ [mkAssign nm v]) (words c) (redirs c)) pending_fd s
              | None => simple_loop k (mkSimple (assigns c) (words c ++ [w]) (redirs c)) pending_fd s
              end
          end
      | t =>
          match redir_op_for t with
          | Some o =>
              let* r, s := parse_redir pending_fd o s in
              simple_loop k (mkSimple (assigns c) (words c) (redirs c ++ [r])) None s
          | None => Got (Simple c) s
          end
      end
  end.

Definition parse_simple : Px Cmd := simple_loop n (mkSimple [] [] []) None.

Definition command_body : Px Cmd := λ s,
  let kw := match cur s with TWord w => word_as_reserved w | _ => None end in
  let kw_is k := bool_decide (kw = Some (str k)) in
  if kw_is "if"%string then parse_if s
  else if kw_is "while"%string then parse_while false s
  else if kw_is "until"%string then parse_while true s
  else if kw_is "for"%string then parse_for s
  else if kw_is "{"%string then parse_group s
  else match cur s with LParen => parse_subshell s | _ => parse_simple s end.

Fixpoint program_loop (k : nat) (items : list (Cmd * Sep)) (s : Parser) : Outcome LexError Parser (list (Cmd * Sep)) :=
  match k with
  | O => NoFuel
  | S k =>
      match cur s with
      | Eof => Got items s
      | _ =>
          let* c, s := parse_and_or s in
          let* sep, s := separator s in
          match sep, cur s with
          | None, Eof | Some _, _ =>
              let* _, s := skip_newlines n s in
              program_loop k (items ++ [(c, default Seq sep)]) s
          | None, _ => Wrong (error "unexpected token")
          end
      end
  end.

Definition program_body : Px Cmd := λ s,
  let* _, s := skip_newlines n s in
  let* items, s := program_loop n [] s in
  Got (list_of items) s.
End descent.

Fixpoint parse_command (fuel : nat) : Px Cmd :=
  match fuel with
  | O => λ _, NoFuel
  | S fuel => command_body (parse_command fuel) fuel
  end.

Definition parse_program (fuel : nat) : Px Cmd := program_body (parse_command fuel) fuel.

(** [Parser::new(src)?.parse_program()]. *)
Definition parse (fuel : nat) (src : list Z) : Outcome LexError Parser Cmd :=
  let* _, s := parser_new src in parse_program fuel s.

Example parse_1 : match parse 50 (str "a=1 ls -l | wc >f && { echo; }") with
  | Got (AndOr (Pipeline false [Simple c; Simple d]) And (Group (Simple e) [])) _ => words e = [[Lit (str "echo")]] ∧ length (assigns c) = 1%nat
  | _ => False end.
Proof. vm_compute. auto. Qed.

(** ** Printing commands *)

Definition kw (k : string) : Token := TWord [Lit (str k)].
Arguments kw k%_string.

Definition redir_token (o : RedirOp) : Token :=
  match o with
  | In => Less | Out => Greater | Append => DGreater | RClobber => Clobber
  | DupOut => GreaterAnd | DupIn => LessAnd | OutBoth => AmpGreater
  end.

Definition target_word (t : RedirTarget) : Word := match t with RFile w | RFd w => w end.

Definition redir_tokens (r : Redir) : list Token :=
  match fd r with Some n => [IoNumber n] | None => [] end ++ [redir_token (op r); TWord (target_word (target r))].

Definition assign_word (a : Assignment) : Word :=
  match value a with
  | Lit l :: segs => Lit (name a ++ 61 :: l) :: segs
  | segs => Lit (name a ++ [61]) :: segs
  end.

Definition simple_tokens (c : SimpleCmd) : list Token :=
  map (TWord ∘ assign_word) (assigns c) ++ map TWord (words c) ++ flat_map redir_tokens (redirs c).

Definition sep_token (s : Sep) : Token := match s with Seq => Semi | Bg => Amp end.

(** Every item of a list ends with its separator, so the body of a compound
    command ends with one. *)
Fixpoint cmd_tokens (c : Cmd) : list Token :=
  let items l := flat_map (λ p : Cmd * Sep, cmd_tokens p.1 ++ [sep_token p.2]) l in
  let body b := match b with CList l => items l | Empty => [] | _ => cmd_tokens b ++ [Semi] end in
  match c with
  | Simple c => simple_tokens c
  | Pipeline negated parts =>
      (if negated then [kw "!"] else []) ++
      match parts with [] => [] | p :: ps => cmd_tokens p ++ flat_map (λ p, Pipe :: cmd_tokens p) ps end
  | AndOr l o r => cmd_tokens l ++ (match o with And => AndAnd | Or => OrOr end) :: cmd_tokens r
  | CList l => items l
  | Subshell b rs => LParen :: body b ++ RParen :: flat_map redir_tokens rs
  | Group b rs => kw "{" :: body b ++ kw "}" :: flat_map redir_tokens rs
  | If c t elifs els rs =>
      kw "if" :: body c ++ kw "then" :: body t ++
      flat_map (λ p : Cmd * Cmd, kw "elif" :: body p.1 ++ kw "then" :: body p.2) elifs ++
      match els with Some e => kw "else" :: body e | None => [] end ++
      kw "fi" :: flat_map redir_tokens rs
  | While c b until rs => (if until then kw "until" else kw "while") :: body c ++ kw "do" :: body b ++ kw "done" :: flat_map redir_tokens rs
  | For var ws b rs =>
      kw "for" :: TWord [Lit var] ::
      match ws with Some ws => kw "in" :: map TWord ws ++ [Semi] | None => [] end ++
      kw "do" :: body b ++ kw "done" :: flat_map redir_tokens rs
  | FuncDef f b => TWord [Lit f] :: LParen :: RParen :: cmd_tokens b
  | Empty => []
  end.

Definition body_tokens (b : Cmd) : list Token := match b with CList _ => cmd_tokens b | Empty => [] | _ => cmd_tokens b ++ [Semi] end.

(** Source text. *)
Definition print_cmd (c : Cmd) : list Z := print_tokens (cmd_tokens c).

(** ** The commands that the parser makes *)

Definition wf_redir (r : Redir) : bool :=
  wf_word (target_word (target r)) &&
  match fd r with Some n => (0 <=? n) && (n <=? 9) && (match op r with OutBoth => false | _ => true end) | None => true end &&
  match op r, target r with DupIn, RFd _ | DupOut, RFd _ => true | DupIn, _ | DupOut, _ => false | _, RFile _ => true | _, _ => false end.

(** The word can be the first of a command. *)
Definition first_word (w : Word) : bool := match word_as_assignment w with None => true | Some _ => false end.
Definition command_word (w : Word) : bool := match word_as_reserved w with None => first_word w | Some _ => false end.

(** The value is what is left of the word after the equals sign. *)
Definition wf_assign (a : Assignment) : bool :=
  is_valid_name (name a) && wf_word (assign_word a) && match value a with Lit [] :: _ => false | _ => true end.

Definition wf_simple (c : SimpleCmd) : bool :=
  forallb wf_assign (assigns c) && forallb wf_word (words c) && forallb wf_redir (redirs c) &&
  match assigns c, words c with
  | [], w :: _ => command_word w
  | _, w :: _ => first_word w
  | _, [] => bool_decide (assigns c ≠ []) || bool_decide (redirs c ≠ [])
  end.

Definition not_single (l : list (Cmd * Sep)) : bool := match single l with Some _ => false | None => true end.

Definition is_name (f : list Z) : bool := is_valid_name f && bool_decide (f ∉ reserved).

(** [lv] is 0 for commands, 1 for pipelines and 2 for chains of those. *)
Fixpoint wf_cmd (lv : nat) (c : Cmd) : bool :=
  let body b := match b with
                | CList l => bool_decide (l ≠ []) && not_single l && forallb (λ p : Cmd * Sep, wf_cmd 2 p.1) l
                | Empty => true
                | _ => wf_cmd 2 b
                end in
  match c with
  | Simple c => wf_simple c
  | Pipeline negated parts =>
      (1 <=? lv)%nat && bool_decide (parts ≠ []) && (negated || (2 <=? length parts)%nat) && forallb (wf_cmd 0) parts
  | AndOr l _ r => (2 <=? lv)%nat && wf_cmd 2 l && wf_cmd 1 r
  | CList _ | Empty => false
  | Subshell b rs =>
      forallb wf_redir rs &&
      match b with
      | CList l => not_single l && forallb (λ p : Cmd * Sep, wf_cmd 2 p.1) l
      | _ => wf_cmd 2 b
      end
  | Group b rs => body b && forallb wf_redir rs
  | If c t elifs els rs =>
      body c && body t && forallb (λ p : Cmd * Cmd, body p.1 && body p.2) elifs &&
      match els with Some e => body e | None => true end && forallb wf_redir rs
  | While c b _ rs => body c && body b && forallb wf_redir rs
  | For var ws b rs =>
      is_valid_name var && body b && forallb wf_redir rs &&
      match ws with Some ws => forallb (λ w, wf_word w && negb (word_is_literal_keyword w (str "do"))) ws | None => true end
  | FuncDef f b => is_name f && wf_cmd 0 b
  end.

Definition wf_body (b : Cmd) : bool :=
  match b with
  | CList l => bool_decide (l ≠ []) && not_single l && forallb (λ p : Cmd * Sep, wf_cmd 2 p.1) l
  | Empty => true
  | _ => wf_cmd 2 b
  end.

Definition wf_program (c : Cmd) : bool := wf_body c.

Definition sample : Cmd :=
  CList [(AndOr (Pipeline true [Simple (mkSimple [mkAssign (str "x") [SQuoted (str "a b")]] [[Lit (str "ls")]] [mkRedir (Some 2) DupOut (RFd [Lit (str "1")])])])
                Or (If (Simple (mkSimple [] [[Lit (str "true")]] [])) Empty [] (Some (Group (Simple (mkSimple [] [[DQuoted [Param (str "y") None None true]]] [])) [])) []), Bg);
         (FuncDef (str "f") (Subshell (CList []) []), Seq)].

Example sample_text : print_cmd sample = str "! x='a b' ls 2>& 1 || if true ; then else { " ++ [34] ++ str "${#y}" ++ [34] ++ str " ; } ; fi & f ( ) ( ) ; " ∧ wf_program sample = true.
Proof. split; vm_compute; reflexivity. Qed.
Example sample_parse : match parse 60 (print_cmd sample) with Got c _ => c = sample | _ => False end.
Proof. vm_compute. reflexivity. Qed.

(** ** The parser on printed tokens *)

(** The tokens that the parser still has before it. *)
Definition at_tokens (ts : list Token) (s : Parser) : Prop :=
  wf_tokens ts = true ∧ cur s = default Eof (head ts) ∧ next_token (lex s) = next_token (print_tokens (tail ts)).

Lemma advance_at t ts s : at_tokens (t :: ts) s → ∃ s', advance s = Got () s' ∧ at_tokens ts s'.
Proof.
  intros (Hw & _ & Hl). cbn [wf_tokens] in Hw. apply andb_true_iff in Hw as [_ Hw]. cbn [tail] in Hl. unfold advance. rewrite Hl. destruct ts as [|t' ts].
  - eexists. split; [reflexivity|]. by split_and!.
  - rewrite next_token_print by done. eexists. split; [reflexivity|]. split_and!; [done..|]. cbn [lex tail]. by destruct t'.
Qed.

Lemma cur_at t ts s : at_tokens (t :: ts) s → cur s = t.
Proof. by intros (_ & H & _). Qed.

(** Unfolds the steps of a computation in [parses] goals. *)
Ltac adv H s := destruct (advance_at _ _ _ H) as (s & ? & ?).

Lemma skip_newlines_none n s : (0 < n)%nat → cur s ≠ Newline → skip_newlines n s = Got () s.
Proof. destruct n; [lia|]. intros _ H. cbn. by destruct (cur s). Qed.

(** What can follow a command. *)
Definition ends (ts : list Token) : Prop :=
  match ts with
  | [] => True
  | (Newline | Semi | Amp | AndAnd | OrOr | Pipe | RParen) :: _ => True
  | _ => False
  end.

Lemma ends_cur ts s : ends ts → at_tokens ts s → match cur s with
  | Newline | Semi | Amp | AndAnd | OrOr | Pipe | RParen | Eof => True | _ => False end.
Proof. intros He (_ & -> & _). destruct ts as [|[] ts]; done. Qed.

Lemma redir_token_op o : redir_op_for (redir_token o) = Some o.
Proof. by destruct o. Qed.

Lemma redir_target_wf r : wf_redir r = true → redir_target (op r) (target_word (target r)) = target r.
Proof. unfold wf_redir. rewrite !andb_true_iff. intros [_ H]. by destruct (op r), (target r). Qed.

Lemma parse_redir_at r pending rest s : wf_redir r = true → at_tokens ([redir_token (op r); TWord (target_word (target r))] ++ rest) s →
  ∃ s', parse_redir pending (op r) s = Got (mkRedir pending (op r) (target r)) s' ∧ at_tokens rest s'.
Proof.
  intros Hw H. adv H s1. unfold parse_redir. match goal with E : advance s = _ |- _ => rewrite E end. cbn [obind].
  match goal with H1 : at_tokens _ s1 |- _ => pose proof (cur_at _ _ _ H1) as Hc; destruct (advance_at _ _ _ H1) as (s2 & E2 & H2) end.
  unfold expect_word. rewrite Hc, E2. cbn [obind]. exists s2. by rewrite redir_target_wf.
Qed.

Lemma trailing_redirs_at rs : ∀ n acc rest s, forallb wf_redir rs = true → ends rest → (length (flat_map redir_tokens rs) < n)%nat →
  at_tokens (flat_map redir_tokens rs ++ rest) s → ∃ s', trailing_redirs n None acc s = Got (acc ++ rs) s' ∧ at_tokens rest s'.
Proof.
  induction rs as [|r rs IH]; intros n acc rest s Hw He Hn H; (destruct n as [|n]; [simpl in Hn; lia|]).
  { exists s. split; [|done]. pose proof (ends_cur _ _ He H) as Hc. cbn [trailing_redirs]. rewrite app_nil_r. by destruct (cur s). }
  cbn [forallb] in Hw. apply andb_true_iff in Hw as [Hr Hw]. cbn [flat_map] in *. rewrite length_app in Hn. rewrite <- app_assoc in H.
  assert (∀ n pending s, (length (flat_map redir_tokens rs) < n)%nat → pending = fd r →
    at_tokens ([redir_token (op r); TWord (target_word (target r))] ++ flat_map redir_tokens rs ++ rest) s →
    ∃ s', trailing_redirs (S n) pending acc s = Got (acc ++ r :: rs) s' ∧ at_tokens rest s') as Hop.
  { intros k pending s1 Hk -> H1. destruct (parse_redir_at r (fd r) _ s1 Hr H1) as (s2 & E2 & H2). cbn [trailing_redirs].
    rewrite (cur_at _ _ _ H1). destruct (IH k (acc ++ [r]) rest s2 Hw He Hk H2) as (s3 & E3 & H3). exists s3. split; [|done].
    rewrite <- app_assoc in E3. assert (mkRedir (fd r) (op r) (target r) = r) as Er by (by destruct r). rewrite Er in E2.
    by destruct (op r); cbn [redir_token redir_op_for] in *; rewrite E2; cbn [obind]. }
  assert (redir_tokens r = match fd r with Some n => [IoNumber n] | None => [] end ++ [redir_token (op r); TWord (target_word (target r))]) as Eq by done.
  rewrite Eq in H, Hn. destruct (fd r) as [m|] eqn:Ef.
  - cbn [app] in H. simpl in Hn. pose proof (cur_at _ _ _ H) as Hc. destruct (advance_at _ _ _ H) as (s1 & E1 & H1). cbn [trailing_redirs]. rewrite Hc, E1. cbn [obind].
    destruct n as [|n]; [lia|]. apply Hop; [lia|done|done].
  - cbn [app] in H. simpl in Hn. apply Hop; [lia|done|exact H].
Qed.

(** *** Simple commands *)

Lemma no_equals_in_reserved s : s ∈ reserved → 61 ∉ s.
Proof.
  assert (forallb (λ s, bool_decide (61 ∉ s)) reserved = true) as H by (vm_compute; reflexivity). intros Hs.
  rewrite forallb_forall in H. by apply list_elem_of_In, H, bool_decide_eq_true in Hs.
Qed.

Lemma name_no_equals s : is_valid_name s = true → 61 ∉ s.
Proof.
  destruct s as [|c s]; [done|]. cbn. intros [Hc Hs]%andb_true_iff. apply not_elem_of_cons. split.
  - intros <-. done.
  - intros H. rewrite forallb_forall in Hs. by apply list_elem_of_In, Hs in H.
Qed.

Lemma split_once_print a l : 61 ∉ a → split_once 61 (a ++ 61 :: l) = Some (a, l).
Proof.
  intros Ha. unfold split_once. rewrite split_while_print; [done| |done]. apply forallb_forall. intros c Hc. apply negb_true_iff, Z.eqb_neq. intros ->.
  by apply Ha, list_elem_of_In.
Qed.

Lemma assign_word_is a : wf_assign a = true →
  word_as_assignment (assign_word a) = Some (name a, value a) ∧ word_as_reserved (assign_word a) = None ∧ wf_word (assign_word a) = true.
Proof.
  unfold wf_assign. intros [[Hn Hw]%andb_true_iff Hv]%andb_true_iff. pose proof (name_no_equals _ Hn) as H61.
  assert (∀ l segs, word_as_assignment (Lit (name a ++ 61 :: l) :: segs) = Some (name a, flush [] l ++ segs)) as Ha.
  { intros l segs. cbn [word_as_assignment]. rewrite split_once_print by done. rewrite Hn. by rewrite bool_decide_false by (by intros E; rewrite E in Hn). }
  assert (∀ l segs, word_as_reserved (Lit (name a ++ 61 :: l) :: segs) = None) as Hr.
  { intros l segs. cbn [word_as_reserved]. destruct segs; [|done]. rewrite bool_decide_false; [done|]. intros H%no_equals_in_reserved. apply H. set_solver. }
  split_and!; [| |done]; unfold assign_word in *.
  - destruct (value a) as [|[l| | | | | |] segs] eqn:Ev; rewrite Ha; try done. by destruct l.
  - destruct (value a) as [|[l| | | | | |] segs]; apply Hr.
Qed.

(** The token after a part of a simple command. *)
Definition no_paren (ts : list Token) : Prop := match ts with LParen :: _ => False | _ => True end.

Lemma no_paren_cur ts s : no_paren ts → at_tokens ts s → (match cur s with LParen => true | _ => false end) = false.
Proof. intros Hn (_ & -> & _). by destruct ts as [|[] ?]. Qed.

Lemma redir_tokens_head rs rest : ends rest → no_paren (flat_map redir_tokens rs ++ rest).
Proof. intros He. destruct rs as [|r rs]; [by destruct rest as [|[] ?]|]. cbn. destruct r as [[|] [] ?]; done. Qed.

Lemma word_tokens_head ws ts : no_paren ts → no_paren (map TWord ws ++ ts).
Proof. by destruct ws. Qed.

Section simple.
Context (pc : Px Cmd) (n : nat) (rest : list Token) (Hrest : ends rest).
#[local] Set Default Proof Using "Type".

Lemma simple_redirs rs : ∀ k a w r s, forallb wf_redir rs = true → (length (flat_map redir_tokens rs) < k)%nat →
  at_tokens (flat_map redir_tokens rs ++ rest) s →
  ∃ s', simple_loop pc n k (mkSimple a w r) None s = Got (Simple (mkSimple a w (r ++ rs))) s' ∧ at_tokens rest s'.
Proof using Hrest.
  induction rs as [|x rs IH]; intros k a w r s Hw Hk H; (destruct k as [|k]; [simpl in Hk; lia|]).
  { exists s. split; [|done]. pose proof (ends_cur _ _ Hrest H) as Hc. cbn [simple_loop]. rewrite app_nil_r. by destruct (cur s). }
  cbn [forallb] in Hw. apply andb_true_iff in Hw as [Hx Hw]. cbn [flat_map] in *. rewrite length_app in Hk. rewrite <- app_assoc in H.
  assert (∀ k pending s, (length (flat_map redir_tokens rs) < k)%nat → pending = fd x →
    at_tokens ([redir_token (op x); TWord (target_word (target x))] ++ flat_map redir_tokens rs ++ rest) s →
    ∃ s', simple_loop pc n (S k) (mkSimple a w r) pending s = Got (Simple (mkSimple a w (r ++ x :: rs))) s' ∧ at_tokens rest s') as Hop.
  { intros j pending s1 Hj -> H1. destruct (parse_redir_at x (fd x) _ s1 Hx H1) as (s2 & E2 & H2). cbn [simple_loop].
    rewrite (cur_at _ _ _ H1). destruct (IH j a w (r ++ [x]) s2 Hw Hj H2) as (s3 & E3 & H3). exists s3. split; [|done].
    rewrite <- app_assoc in E3. assert (mkRedir (fd x) (op x) (target x) = x) as Er by (by destruct x). rewrite Er in E2.
    by destruct (op x); cbn [redir_token redir_op_for] in *; rewrite E2; cbn [obind]. }
  assert (redir_tokens x = match fd x with Some n => [IoNumber n] | None => [] end ++ [redir_token (op x); TWord (target_word (target x))]) as Eq by done.
  rewrite Eq in H, Hk. destruct (fd x) as [m|] eqn:Ef; cbn [app] in H; simpl in Hk.
  - pose proof (cur_at _ _ _ H) as Hc. destruct (advance_at _ _ _ H) as (s1 & E1 & H1). cbn [simple_loop]. rewrite Hc, E1. cbn [obind].
    destruct k as [|k]; [lia|]. apply Hop; [lia|done|done].
  - apply Hop; [lia|done|exact H].
Qed.

(** A word that is not the first, or not an assignment. *)
Lemma simple_words rs : ∀ ws k a w s, forallb wf_redir rs = true → match w, ws with [], x :: _ => first_word x = true | _, _ => True end →
  (length (map TWord ws ++ flat_map redir_tokens rs) < k)%nat → at_tokens (map TWord ws ++ flat_map redir_tokens rs ++ rest) s →
  ∃ s', simple_loop pc n k (mkSimple a w []) None s = Got (Simple (mkSimple a (w ++ ws) rs)) s' ∧ at_tokens rest s'.
Proof using Hrest.
  induction ws as [|x ws IH]; intros k a w s Hw Hfirst Hk H.
  { rewrite app_nil_r. by apply (simple_redirs rs k a w []). }
  destruct k as [|k]; [simpl in Hk; lia|]. cbn [map app] in *. simpl in Hk. pose proof (cur_at _ _ _ H) as Hc. destruct (advance_at _ _ _ H) as (s1 & E1 & H1).
  cbn [simple_loop]. rewrite Hc, E1. cbn [obind words assigns].
  rewrite (no_paren_cur _ _ (word_tokens_head _ _ (redir_tokens_head _ _ Hrest)) H1), andb_false_r.
  destruct (IH k a (w ++ [x]) s1 Hw) as (s2 & E2 & H2); [by destruct w|lia|done|]. exists s2. split; [|done]. rewrite <- app_assoc in E2. cbn [app] in E2.
  destruct w as [|y w].
  - rewrite bool_decide_true by done. cbn [negb]. unfold first_word in Hfirst. by destruct (word_as_assignment x).
  - by rewrite bool_decide_false by done.
Qed.

Lemma simple_assigns ws rs : ∀ xs k a s, forallb wf_assign xs = true → forallb wf_redir rs = true → match ws with x :: _ => first_word x = true | _ => True end →
  (length (map (TWord ∘ assign_word) xs ++ map TWord ws ++ flat_map redir_tokens rs) < k)%nat →
  at_tokens (map (TWord ∘ assign_word) xs ++ map TWord ws ++ flat_map redir_tokens rs ++ rest) s →
  ∃ s', simple_loop pc n k (mkSimple a [] []) None s = Got (Simple (mkSimple (a ++ xs) ws rs)) s' ∧ at_tokens rest s'.
Proof using Hrest.
  induction xs as [|x xs IH]; intros k a s Hx Hw Hfirst Hk H.
  { rewrite app_nil_r. by apply (simple_words rs ws k a []). }
  destruct k as [|k]; [simpl in Hk; lia|]. cbn [map app] in *. simpl in Hk. pose proof (cur_at _ _ _ H) as Hc. destruct (advance_at _ _ _ H) as (s1 & E1 & H1).
  cbn [forallb] in Hx. apply andb_true_iff in Hx as [Hx Hxs]. destruct (assign_word_is x Hx) as (Hassign & _).
  assert (no_paren (map (TWord ∘ assign_word) xs ++ map TWord ws ++ flat_map redir_tokens rs ++ rest)) as Hnp
    by (destruct xs; [apply word_tokens_head, redir_tokens_head, Hrest|done]).
  cbn [simple_loop]. rewrite Hc, E1. cbn [obind words assigns]. rewrite (no_paren_cur _ _ Hnp H1), andb_false_r.
  rewrite bool_decide_true by done. cbn [negb]. unfold compose in *. rewrite Hassign.
  destruct (IH k (a ++ [mkAssign (name x) (value x)]) s1 Hxs Hw Hfirst) as (s2 & E2 & H2); [lia|done|]. exists s2. split; [|done].
  rewrite <- app_assoc in E2. assert (mkAssign (name x) (value x) = x) as Ex by (by destruct x). rewrite Ex in *. exact E2.
Qed.

Lemma parse_simple_at c s : wf_simple c = true → (length (simple_tokens c) < n)%nat → at_tokens (simple_tokens c ++ rest) s →
  ∃ s', parse_simple pc n s = Got (Simple c) s' ∧ at_tokens rest s'.
Proof using Hrest.
  unfold wf_simple. rewrite !andb_true_iff. intros [[[Ha Hw] Hr] Hf] Hn H. unfold simple_tokens in *. rewrite <- !app_assoc in H.
  destruct (simple_assigns (words c) (redirs c) (assigns c) n [] s Ha Hr) as (s' & E & H'); [|done|done|by destruct c; exists s'].
  destruct (words c) as [|w ws]; [done|]. destruct (assigns c); [|done]. unfold command_word in Hf. by destruct (word_as_reserved w).
Qed.
End simple.

(** *** Tokens of compound commands *)

(** The items of a body, and their tokens. *)
Definition body_items (b : Cmd) : list (Cmd * Sep) := match b with CList l => l | Empty => [] | _ => [(b, Seq)] end.
Definition item_tokens (l : list (Cmd * Sep)) : list Token := flat_map (λ p, cmd_tokens p.1 ++ [sep_token p.2]) l.

Lemma body_tokens_items b : body_tokens b = item_tokens (body_items b).
Proof. destruct b; try done; cbn [body_tokens body_items item_tokens flat_map]; by rewrite app_nil_r. Qed.

Lemma wf_body_items b : wf_body b = true → forallb (λ p, wf_cmd 2 p.1) (body_items b) = true ∧ list_of (body_items b) = b.
Proof.
  destruct b; cbn [wf_body body_items forallb fst]; intros H; rewrite ?andb_true_r; try (by split); [].
  rewrite !andb_true_iff in H. destruct H as [[Hne Hs] Hi]. apply bool_decide_eq_true in Hne. split; [done|].
  unfold list_of. unfold not_single in Hs. destruct (single items); [done|]. by destruct items.
Qed.

Lemma tokens_subshell b rs : cmd_tokens (Subshell b rs) = LParen :: body_tokens b ++ RParen :: flat_map redir_tokens rs.
Proof. by destruct b. Qed.
Lemma tokens_group b rs : cmd_tokens (Group b rs) = kw "{" :: body_tokens b ++ kw "}" :: flat_map redir_tokens rs.
Proof. by destruct b. Qed.
Lemma tokens_while c b u rs : cmd_tokens (While c b u rs) =
  (if u then kw "until" else kw "while") :: body_tokens c ++ kw "do" :: body_tokens b ++ kw "done" :: flat_map redir_tokens rs.
Proof. by destruct b, c. Qed.
Lemma tokens_for var ws b rs : cmd_tokens (For var ws b rs) =
  kw "for" :: TWord [Lit var] :: match ws with Some ws => kw "in" :: map TWord ws ++ [Semi] | None => [] end ++
  kw "do" :: body_tokens b ++ kw "done" :: flat_map redir_tokens rs.
Proof. by destruct b. Qed.

Lemma wf_group b rs : wf_cmd 0 (Group b rs) = true → wf_body b = true ∧ forallb wf_redir rs = true.
Proof. cbn [wf_cmd]. rewrite !andb_true_iff. intros [? ?]. by split. Qed.
Lemma wf_while c b u rs : wf_cmd 0 (While c b u rs) = true → wf_body c = true ∧ wf_body b = true ∧ forallb wf_redir rs = true.
Proof. cbn [wf_cmd]. rewrite !andb_true_iff. intros [[? ?] ?]. by split_and!. Qed.

Lemma wf_if c t elifs els rs : wf_cmd 0 (If c t elifs els rs) = true →
  wf_body c = true ∧ wf_body t = true ∧ forallb (λ p : Cmd * Cmd, wf_body p.1 && wf_body p.2) elifs = true ∧
  match els with Some e => wf_body e | None => true end = true ∧ forallb wf_redir rs = true.
Proof. cbn [wf_cmd]. rewrite !andb_true_iff. intros [[[[? ?] ?] ?] ?]. by split_and!. Qed.

Definition elif_tokens (l : list (Cmd * Cmd)) : list Token := flat_map (λ p, kw "elif" :: body_tokens p.1 ++ kw "then" :: body_tokens p.2) l.
Definition else_tokens (els : option Cmd) : list Token := match els with Some e => kw "else" :: body_tokens e | None => [] end.

Lemma tokens_if c t elifs els rs : cmd_tokens (If c t elifs els rs) =
  kw "if" :: body_tokens c ++ kw "then" :: body_tokens t ++ elif_tokens elifs ++ else_tokens els ++ kw "fi" :: flat_map redir_tokens rs.
Proof.
  assert (∀ b, body_tokens b = match b with CList l => flat_map (λ p : Cmd * Sep, cmd_tokens p.1 ++ [sep_token p.2]) l | Empty => [] | _ => cmd_tokens b ++ [Semi] end) as E by (by intros []).
  cbn [cmd_tokens]. rewrite !E. do 4 f_equal. f_equal; [|f_equal; destruct els as [e|]; cbn; by rewrite ?E].
  unfold elif_tokens. induction elifs as [|[x y] l IH]; [done|]. cbn [flat_map fst snd]. by rewrite IH, !E.
Qed.

(** The tokens that a command can begin with. *)
Definition openers : list (list Z) := map str ["if"; "while"; "until"; "for"; "{"]%string.
Definition closers : list (list Z) := map str ["then"; "elif"; "else"; "fi"; "do"; "done"; "}"]%string.

Definition start_token (t : Token) : bool :=
  match t with
  | TWord w => match word_as_reserved w with Some k => bool_decide (k ∈ openers) | None => true end
  | LParen | IoNumber _ | Less | Greater | DGreater | Clobber | LessAnd | GreaterAnd | AmpGreater => true
  | _ => false
  end.

Lemma is_name_word f : is_name f = true → word_as_reserved [Lit f] = None ∧ word_as_simple_name [Lit f] = Some f.
Proof. unfold is_name. intros [Hv Hr%bool_decide_eq_true]%andb_true_iff. cbn. rewrite bool_decide_false by done. by rewrite Hv. Qed.

Definition reserved_of (t : Token) : option (list Z) := match t with TWord w => word_as_reserved w | _ => None end.

Lemma simple_head c : wf_simple c = true → ∃ t ts, simple_tokens c = t :: ts ∧ reserved_of t = None ∧ t ≠ LParen ∧ start_token t = true.
Proof.
  unfold wf_simple. rewrite !andb_true_iff. intros [[[Ha Hw] Hr] Hf]. unfold simple_tokens. destruct (assigns c) as [|a l].
  - destruct (words c) as [|w l].
    + destruct (redirs c) as [|r l]; [done|]. cbn. destruct r as [[|] [] ?]; eexists _, _; by split.
    + eexists _, _. split; [done|]. cbn. unfold command_word in Hf. by destruct (word_as_reserved w).
  - eexists _, _. split; [done|]. cbn in *. apply andb_true_iff in Ha as [Ha _]. by destruct (assign_word_is a Ha) as (_ & -> & _).
Qed.

Lemma command_head c : wf_cmd 0 c = true → ∃ t ts, cmd_tokens c = t :: ts ∧ start_token t = true.
Proof.
  destruct c; cbn [wf_cmd]; intros H; try done.
  - destruct (simple_head _ H) as (t & ts & E & _ & _ & Ht). by exists t, ts.
  - rewrite tokens_subshell. by eexists _, _.
  - rewrite tokens_group. by eexists _, _.
  - rewrite tokens_if. by eexists _, _.
  - rewrite tokens_while. destruct until; by eexists _, _.
  - rewrite tokens_for. by eexists _, _.
  - apply andb_true_iff in H as [Hn _]. cbn. eexists _, _. split; [done|]. unfold start_token. by destruct (is_name_word _ Hn) as [-> _].
Qed.

Lemma wf_cmd_level lv c : wf_cmd lv c = true → match c with Pipeline _ _ | AndOr _ _ _ => True | _ => wf_cmd 0 c = true end.
Proof. by destruct c. Qed.

Lemma cmd_head lv c : wf_cmd lv c = true → ∃ t ts, cmd_tokens c = t :: ts ∧ (start_token t = true ∨ t = kw "!").
Proof.
  revert lv. induction c; intros lv H; try (apply wf_cmd_level in H; destruct (command_head _ H) as (t & ts & E & Ht); eexists _, _; split; [exact E|by left]).
  - cbn [wf_cmd] in H. rewrite !andb_true_iff in H. destruct H as [[[_ Hp] _] Hf]. apply bool_decide_eq_true in Hp. cbn [cmd_tokens]. destruct negated; [eexists _, _; split; [done|by right]|].
    destruct parts as [|p ps]; [done|]. cbn [forallb] in Hf. apply andb_true_iff in Hf as [Hp' _]. destruct (command_head _ Hp') as (t & ts & E & Ht).
    rewrite E. eexists _, _. split; [done|by left].
  - cbn [wf_cmd] in H. rewrite !andb_true_iff in H. destruct H as [[_ Hl] _]. destruct (IHc1 _ Hl) as (t & ts & E & Ht). cbn [cmd_tokens]. rewrite E. eexists _, _. by split.
Qed.

Definition token_is (k : list Z) (t : Token) : bool := match t with TWord w => word_is_literal_keyword w k | _ => false end.

Lemma token_is_kw k t : token_is k t = true → t = TWord [Lit k].
Proof. destruct t as [[|[s| | | | | |] [|]]| | | | | | | | | | | | | | | | |]; cbn; try done. by intros ->%bool_decide_eq_true. Qed.

Lemma start_not_kw k t : k ∈ closers ∨ k = str "!" → start_token t = true → token_is k t = false.
Proof.
  intros Hk Ht. destruct (token_is k t) eqn:E; [|done]. apply token_is_kw in E as ->. exfalso.
  assert (forallb (λ k, negb (start_token (TWord [Lit k]))) (str "!" :: closers) = true) as H by (vm_compute; reflexivity).
  rewrite forallb_forall in H. specialize (H k). rewrite Ht in H. discriminate H. apply list_elem_of_In. set_solver.
Qed.

Lemma bang_not_closer k : k ∈ closers → token_is k (kw "!") = false.
Proof.
  intros Hk. assert (forallb (λ k, negb (token_is k (kw "!"))) closers = true) as H by (vm_compute; reflexivity).
  rewrite forallb_forall in H. by apply negb_true_iff, H, list_elem_of_In.
Qed.

Lemma peek_at k t ts s : at_tokens (t :: ts) s → peek_keyword k s = token_is k t.
Proof. intros H. unfold peek_keyword. by rewrite (cur_at _ _ _ H). Qed.

(** A command is next: no list ends here. *)
Lemma cmd_start lv c rest s : wf_cmd lv c = true → at_tokens (cmd_tokens c ++ rest) s →
  (∀ k, k ∈ closers → peek_keyword k s = false) ∧ cur s ≠ Newline ∧ cur s ≠ Eof ∧ cur s ≠ RParen ∧
  (wf_cmd 0 c = true → peek_keyword (str "!") s = false).
Proof.
  intros Hw H. destruct (cmd_head lv c Hw) as (t & ts & E & Ht). rewrite E in H. cbn [app] in H. rewrite (cur_at _ _ _ H). split_and!.
  - intros k Hk. rewrite (peek_at _ _ _ _ H). destruct Ht as [Ht| ->]; [apply start_not_kw; auto|by apply bang_not_closer].
  - by destruct Ht as [Ht| ->]; [intros ->|].
  - by destruct Ht as [Ht| ->]; [intros ->|].
  - by destruct Ht as [Ht| ->]; [intros ->|].
  - intros H0. destruct (command_head c H0) as (t' & ts' & E' & Ht'). rewrite E in E'. injection E' as <- _. rewrite (peek_at _ _ _ _ H). apply start_not_kw; auto.
Qed.

Lemma items_length items : (length items <= length (item_tokens items))%nat.
Proof. unfold item_tokens. induction items as [|[c sp] l IH]; simpl; [done|]. rewrite !length_app. simpl. lia. Qed.

Lemma item_start items t rest s : forallb (λ p, wf_cmd 2 p.1) items = true → t ≠ Newline → at_tokens (item_tokens items ++ t :: rest) s → cur s ≠ Newline.
Proof.
  intros Hw Ht H. destruct items as [|[c sp] items]; [by rewrite (cur_at _ _ _ H)|]. cbn [forallb fst] in Hw. apply andb_true_iff in Hw as [Hc _].
  unfold item_tokens in H. cbn [flat_map fst snd] in H. rewrite <- !app_assoc in H. by apply (cmd_start 2 c _ s Hc) in H as (_ & ? & _).
Qed.

Lemma expect_at t rest s : at_tokens (kw t :: rest) s → ∃ s', expect_keyword (str t) s = Got () s' ∧ at_tokens rest s'.
Proof.
  intros H. unfold expect_keyword. rewrite (peek_at _ _ _ _ H). unfold kw, token_is. cbn [word_is_literal_keyword]. rewrite bool_decide_true by done. by apply advance_at in H.
Qed.
(** The operators on the left spine of a chain. *)
Fixpoint chain (c : Cmd) : nat := match c with AndOr l _ _ => S (chain l) | _ => 0 end.

Lemma chain_tokens c : (chain c <= length (cmd_tokens c))%nat.
Proof. induction c; cbn [chain cmd_tokens]; try lia. rewrite length_app. simpl. lia. Qed.

(** *** The descent *)

Section descent_at.
(** [pc] parses the commands of less than [m] tokens. *)
Context (pc : Px Cmd) (n m : nat) (Hnm : (m <= n)%nat) (Hm : (0 < m)%nat).
Context (Hpc : ∀ c rest s, wf_cmd 0 c = true → (length (cmd_tokens c) < m)%nat → ends rest → at_tokens (cmd_tokens c ++ rest) s →
  ∃ s', pc s = Got c s' ∧ at_tokens rest s').
#[local] Set Default Proof Using "Type".

Definition not_pipe (ts : list Token) : Prop := match ts with Pipe :: _ => False | _ => True end.

Lemma pipeline_loop_at ps : ∀ k acc rest s, forallb (wf_cmd 0) ps = true → (length (flat_map (λ p, Pipe :: cmd_tokens p) ps) < m)%nat → (length ps < k)%nat →
  ends rest → not_pipe rest → at_tokens (flat_map (λ p, Pipe :: cmd_tokens p) ps ++ rest) s →
  ∃ s', pipeline_loop pc n k acc s = Got (acc ++ ps) s' ∧ at_tokens rest s'.
Proof using Hnm Hm Hpc.
  induction ps as [|p ps IH]; intros k acc rest s Hw Hlen Hk He Hp H; (destruct k as [|k]; [simpl in Hk; lia|]); cbn [pipeline_loop].
  { exists s. split; [|done]. rewrite app_nil_r. destruct H as (_ & -> & _). by destruct rest as [|[] ?]. }
  cbn [forallb] in Hw. apply andb_true_iff in Hw as [Hwp Hw]. cbn [flat_map app] in H. simpl in Hlen. rewrite length_app in Hlen. rewrite <- app_assoc in H.
  rewrite (cur_at _ _ _ H). destruct (advance_at _ _ _ H) as (s1 & -> & H1). cbn [obind].
  destruct (cmd_start 0 p _ s1 Hwp H1) as (_ & Hnl & _). rewrite skip_newlines_none by (done || lia). cbn [obind].
  destruct (Hpc p (flat_map (λ p, Pipe :: cmd_tokens p) ps ++ rest) s1) as (s2 & -> & H2); [done|lia| |done|]; [by destruct ps|]. cbn [obind].
  destruct (IH k (acc ++ [p]) rest s2) as (s3 & E & H3); [done|lia|simpl in Hk; lia|done..|]. exists s3. by rewrite <- app_assoc in E.
Qed.

Lemma parse_pipeline_at c rest s : wf_cmd 1 c = true → (length (cmd_tokens c) < m)%nat → ends rest → not_pipe rest → at_tokens (cmd_tokens c ++ rest) s →
  ∃ s', parse_pipeline pc n s = Got c s' ∧ at_tokens rest s'.
Proof using Hnm Hm Hpc.
  intros Hw Hlen He Hp H. unfold parse_pipeline. cbv zeta.
  assert (wf_cmd 0 c = true → ∃ s', parse_pipeline pc n s = Got c s' ∧ at_tokens rest s') as Hcmd.
  { intros H0. destruct (cmd_start 0 c _ s H0 H) as (_ & _ & _ & _ & Hb). unfold parse_pipeline. rewrite (Hb H0). cbn [obind].
    destruct (Hpc c rest s H0 Hlen He H) as (s1 & -> & H1). cbn [obind]. exists s1. split; [|done].
    destruct H1 as (_ & -> & _). by destruct rest as [|[] ?]. }
  destruct c as [|negated parts| | | | | | | | |]; try (by apply Hcmd). clear Hcmd.
  cbn [wf_cmd] in Hw. rewrite !andb_true_iff in Hw. destruct Hw as [[[_ Hne] Hlong] Hparts]. apply bool_decide_eq_true in Hne.
  cbn [cmd_tokens] in H, Hlen. destruct parts as [|p ps]; [done|]. cbn [forallb] in Hparts. apply andb_true_iff in Hparts as [Hwp Hps].
  rewrite !length_app in Hlen. rewrite <- !app_assoc in H.
  assert (∃ s1, peek_keyword (str "!") s = negated ∧ (if negated then advance s else Got () s) = Got () s1 ∧
    at_tokens (cmd_tokens p ++ flat_map (λ p, Pipe :: cmd_tokens p) ps ++ rest) s1) as (s1 & -> & -> & H1).
  { destruct negated; cbn [app] in H.
    - destruct (advance_at _ _ _ H) as (s1 & E & H1). exists s1. split; [|done]. rewrite (peek_at _ _ _ _ H). by vm_compute.
    - exists s. split; [|done]. destruct (cmd_start 0 p _ s Hwp H) as (_ & _ & _ & _ & Hb). by apply Hb. }
  cbn [obind]. destruct (Hpc p (flat_map (λ p, Pipe :: cmd_tokens p) ps ++ rest) s1) as (s2 & -> & H2); [done|lia|by destruct ps|done|]. cbn [obind].
  assert (negb (match cur s2 with Pipe => true | _ => false end) && negb negated = false) as ->.
  { destruct negated; [by rewrite andb_false_r|]. destruct ps as [|q ps]; [done|]. by rewrite (cur_at _ _ _ H2). }
  destruct (pipeline_loop_at ps n [p] rest s2) as (s3 & -> & H3); [done|lia| |done..|by exists s3].
  assert (length ps <= length (flat_map (λ p, Pipe :: cmd_tokens p) ps))%nat; [|lia]. clear. induction ps; simpl; [done|]. rewrite length_app. lia.
Qed.

Lemma parse_spine c : ∀ k rest s, wf_cmd 2 c = true → (length (cmd_tokens c) < m)%nat → ends rest → not_pipe rest → (chain c <= k)%nat →
  at_tokens (cmd_tokens c ++ rest) s →
  ∃ s', (let* lhs, s := parse_pipeline pc n s in and_or_loop pc n k lhs s) = and_or_loop pc n (k - chain c) c s' ∧ at_tokens rest s'.
Proof using Hnm Hm Hpc.
  assert (∀ c k rest s, wf_cmd 1 c = true → chain c = 0%nat → (length (cmd_tokens c) < m)%nat → ends rest → not_pipe rest → at_tokens (cmd_tokens c ++ rest) s →
    ∃ s', (let* lhs, s := parse_pipeline pc n s in and_or_loop pc n k lhs s) = and_or_loop pc n (k - chain c) c s' ∧ at_tokens rest s') as Hbase.
  { intros d k rest s Hw -> Hlen He Hp H. destruct (parse_pipeline_at d rest s Hw Hlen He Hp H) as (s1 & -> & H1). exists s1. cbn [obind]. rewrite Nat.sub_0_r. by split. }
  induction c as [| |l IHl o r _| | | | | | | |]; intros k rest s Hw Hlen He Hp Hk H; try (apply Hbase; [exact Hw|done..]).
  cbn [wf_cmd] in Hw. rewrite !andb_true_iff in Hw. destruct Hw as [[_ Hl] Hr]. cbn [cmd_tokens chain] in *. rewrite length_app in Hlen. simpl in Hlen. rewrite <- app_assoc in H.
  destruct (IHl k ((match o with And => AndAnd | Or => OrOr end) :: cmd_tokens r ++ rest) s) as (s1 & -> & H1); [done|lia|by destruct o|by destruct o|lia|done|].
  pose proof (cur_at _ _ _ H1) as Hc. destruct (advance_at _ _ _ H1) as (s2 & E2 & H2). destruct (cmd_start 1 r _ s2 Hr H2) as (_ & Hnl & _).
  destruct (parse_pipeline_at r rest s2 Hr ltac:(lia) He Hp H2) as (s3 & E3 & H3). exists s3. split; [|done].
  destruct (k - chain l)%nat as [|j] eqn:Ek; [lia|]. cbn [and_or_loop]. replace (k - S (chain l))%nat with j by lia.
  rewrite Hc. destruct o; rewrite E2; cbn [obind]; rewrite skip_newlines_none by (done || lia); cbn [obind]; by rewrite E3.
Qed.

(** What ends a chain of pipelines. *)
Definition ends_item (ts : list Token) : Prop := match ts with [] => True | (Newline | Semi | Amp | RParen) :: _ => True | _ => False end.

Lemma parse_and_or_at c rest s : wf_cmd 2 c = true → (length (cmd_tokens c) < m)%nat → ends_item rest → at_tokens (cmd_tokens c ++ rest) s →
  ∃ s', parse_and_or pc n s = Got c s' ∧ at_tokens rest s'.
Proof using Hnm Hm Hpc.
  intros Hw Hlen He H. pose proof (chain_tokens c). destruct (parse_spine c n rest s) as (s1 & E & H1); [done|done|by destruct rest as [|[] ?]|by destruct rest as [|[] ?]|lia|done|].
  exists s1. split; [|done]. unfold parse_and_or. rewrite E. destruct (n - chain c)%nat as [|k] eqn:Ek; [lia|]. cbn [and_or_loop].
  destruct H1 as (_ & -> & _). by destruct rest as [|[] ?].
Qed.

Lemma parse_item c sp rest s : wf_cmd 2 c = true → (length (cmd_tokens c) < m)%nat → at_tokens (cmd_tokens c ++ sep_token sp :: rest) s →
  ∃ s1 s2, parse_and_or pc n s = Got c s1 ∧ separator s1 = Got (Some sp) s2 ∧ at_tokens rest s2.
Proof using Hnm Hm Hpc.
  intros Hw Hlen H. destruct (parse_and_or_at c (sep_token sp :: rest) s) as (s1 & E1 & H1); [done|done|by destruct sp|done|].
  destruct (advance_at _ _ _ H1) as (s2 & E2 & H2). exists s1, s2. split_and!; [done| |done]. unfold separator. rewrite (cur_at _ _ _ H1).
  destruct sp; cbn [sep_token]; by rewrite E2.
Qed.

(** The keyword after a list. *)
Lemma compound_loop_at items : ∀ k acc terms t rest s, forallb (λ p, wf_cmd 2 p.1) items = true → (length (item_tokens items) < m)%nat → (length items < k)%nat →
  str t ∈ terms → (∀ x, x ∈ terms → x ∈ closers) → at_tokens (item_tokens items ++ kw t :: rest) s →
  ∃ s', compound_loop pc n k terms acc s = Got (acc ++ items) s' ∧ at_tokens (kw t :: rest) s'.
Proof using Hnm Hm Hpc.
  induction items as [|[c sp] items IH]; intros k acc terms t rest s Hw Hlen Hk Ht Hterms H; (destruct k as [|k]; [simpl in Hk; lia|]); cbn [compound_loop].
  { exists s. split; [|done]. rewrite app_nil_r. assert (peek_any_keyword terms s = true) as ->; [|done]. unfold peek_any_keyword. apply existsb_exists.
    exists (str t). split; [by apply list_elem_of_In|]. cbn [item_tokens flat_map app] in H. rewrite (peek_at _ _ _ _ H). cbn. by apply bool_decide_eq_true. }
  cbn [forallb fst] in Hw. apply andb_true_iff in Hw as [Hc Hw]. unfold item_tokens in H, Hlen. cbn [flat_map fst snd] in *. fold (item_tokens items) in *.
  rewrite !length_app in Hlen. simpl in Hlen. rewrite <- !app_assoc in H. cbn [app] in H.
  destruct (cmd_start 2 c _ s Hc H) as (Hcl & _ & Heof & _).
  assert (peek_any_keyword terms s = false) as ->.
  { unfold peek_any_keyword. apply not_true_is_false. rewrite existsb_exists. intros (x & Hx%list_elem_of_In & Hp). rewrite Hcl in Hp; [done|by apply Hterms]. }
  assert ((match cur s with Eof => true | _ => false end) = false) as -> by (by destruct (cur s)). cbn [orb].
  destruct (parse_item c sp _ s Hc ltac:(lia) H) as (s1 & s2 & -> & E2 & H2). cbn [obind]. rewrite E2. cbn [obind default].
  assert (cur s2 ≠ Newline) as Hnl.
  { destruct items as [|[c' sp'] items]; [by rewrite (cur_at _ _ _ H2)|]. cbn [forallb fst] in Hw. apply andb_true_iff in Hw as [Hc' _].
    unfold item_tokens in H2. cbn [flat_map fst snd] in H2. rewrite <- !app_assoc in H2. by apply (cmd_start 2 c' _ s2 Hc') in H2 as (_ & ? & _). }
  rewrite skip_newlines_none by (done || lia). cbn [obind].
  destruct (IH k (acc ++ [(c, sp)]) terms t rest s2) as (s3 & E3 & H3); [done|lia|simpl in Hk; lia|done..|]. exists s3. rewrite <- app_assoc in E3. by split.
Qed.

Lemma parse_body b terms t rest s : at_tokens (body_tokens b ++ kw t :: rest) s → wf_body b = true → (length (body_tokens b) < m)%nat → bool_decide (str t ∈ terms) = true →
  forallb (λ x, bool_decide (x ∈ closers)) terms = true → ∃ s', parse_compound_list pc n terms s = Got b s' ∧ at_tokens (kw t :: rest) s'.
Proof using Hnm Hm Hpc.
  intros H Hw Hlen Ht%bool_decide_eq_true Hterms. assert (∀ x, x ∈ terms → x ∈ closers) as Hcl.
  { intros x Hx%list_elem_of_In. rewrite forallb_forall in Hterms. by eapply bool_decide_eq_true, Hterms. }
  destruct (wf_body_items b Hw) as [Hi Hb]. rewrite body_tokens_items in *. unfold parse_compound_list.
  rewrite skip_newlines_none; [|lia|by eapply item_start; [exact Hi| |exact H]]. cbn [obind]. pose proof (items_length (body_items b)).
  destruct (compound_loop_at (body_items b) n [] terms t rest s) as (s1 & -> & H1); [done|done|lia|done..|]. cbn [obind app]. rewrite Hb. by exists s1.
Qed.

Lemma group_at b rs rest s : wf_cmd 0 (Group b rs) = true → (length (cmd_tokens (Group b rs)) <= m)%nat → ends rest → at_tokens (cmd_tokens (Group b rs) ++ rest) s →
  ∃ s', parse_group pc n s = Got (Group b rs) s' ∧ at_tokens rest s'.
Proof using Hnm Hm Hpc.
  intros [Hb Hr]%wf_group. rewrite tokens_group. intros Hlen He H. cbn [app] in H. simpl in Hlen. rewrite length_app in Hlen. simpl in Hlen. rewrite <- app_assoc in H. cbn [app] in H.
  unfold parse_group. destruct (advance_at _ _ _ H) as (s1 & -> & H1). cbn [obind].
  destruct (parse_body _ [str "}"] _ _ _ H1 Hb) as (s2 & -> & H2); [lia|reflexivity..|]. cbn [obind].
  destruct (expect_at _ _ _ H2) as (s3 & -> & H3). cbn [obind].
  destruct (trailing_redirs_at rs n [] rest s3 Hr He ltac:(lia) H3) as (s4 & E & H4). unfold parse_trailing_redirs. rewrite E. by exists s4.
Qed.

Lemma while_at c b u rs rest s : wf_cmd 0 (While c b u rs) = true → (length (cmd_tokens (While c b u rs)) <= m)%nat → ends rest →
  at_tokens (cmd_tokens (While c b u rs) ++ rest) s → ∃ s', parse_while pc n u s = Got (While c b u rs) s' ∧ at_tokens rest s'.
Proof using Hnm Hm Hpc.
  intros (Hc & Hb & Hr)%wf_while. rewrite tokens_while. intros Hlen He H. cbn [app] in H. simpl in Hlen. rewrite length_app in Hlen. simpl in Hlen. rewrite length_app in Hlen. simpl in Hlen.
  rewrite <- app_assoc in H. cbn [app] in H. rewrite <- app_assoc in H. cbn [app] in H.
  unfold parse_while. destruct (advance_at _ _ _ H) as (s1 & -> & H1). cbn [obind].
  destruct (parse_body _ [str "do"] _ _ _ H1 Hc) as (s2 & -> & H2); [lia|reflexivity..|]. cbn [obind].
  destruct (expect_at _ _ _ H2) as (s3 & -> & H3). cbn [obind].
  destruct (parse_body _ [str "done"] _ _ _ H3 Hb) as (s4 & -> & H4); [lia|reflexivity..|]. cbn [obind].
  destruct (expect_at _ _ _ H4) as (s5 & -> & H5). cbn [obind].
  destruct (trailing_redirs_at rs n [] rest s5 Hr He ltac:(lia) H5) as (s6 & E & H6). unfold parse_trailing_redirs. rewrite E. by exists s6.
Qed.

(** The bodies of an [if] end at any of three keywords. *)
Lemma elif_loop_at l : ∀ k acc t rest s, forallb (λ p : Cmd * Cmd, wf_body p.1 && wf_body p.2) l = true → (length (elif_tokens l) < m)%nat → (length l < k)%nat →
  t = "else"%string ∨ t = "fi"%string → at_tokens (elif_tokens l ++ kw t :: rest) s →
  ∃ s', elif_loop pc n k acc s = Got (acc ++ l) s' ∧ at_tokens (kw t :: rest) s'.
Proof using Hnm Hm Hpc.
  induction l as [|[c b] l IH]; intros k acc t rest s Hw Hlen Hk Ht H; (destruct k as [|k]; [simpl in Hk; lia|]); cbn [elif_loop].
  { exists s. rewrite app_nil_r. split; [|done]. cbn [elif_tokens flat_map app] in H. rewrite (peek_at _ _ _ _ H). by destruct Ht as [-> | ->]. }
  cbn [forallb fst snd] in Hw. rewrite !andb_true_iff in Hw. destruct Hw as [[Hc Hb] Hw]. unfold elif_tokens in H, Hlen. cbn [flat_map fst snd] in H, Hlen. fold (elif_tokens l) in H, Hlen.
  cbn [app] in H. simpl in Hlen. rewrite !length_app in Hlen. simpl in Hlen. rewrite <- !app_assoc in H. cbn [app] in H. rewrite <- ?app_assoc in H.
  rewrite (peek_at _ _ _ _ H). replace (token_is (str "elif") (kw "elif")) with true by (by vm_compute). destruct (advance_at _ _ _ H) as (s1 & -> & H1). cbn [obind].
  destruct (parse_body _ [str "then"] _ _ _ H1 Hc) as (s2 & -> & H2); [lia|reflexivity..|]. cbn [obind].
  destruct (expect_at _ _ _ H2) as (s3 & -> & H3). cbn [obind].
  assert (∃ t' r, elif_tokens l ++ kw t :: rest = kw t' :: r ∧ bool_decide (str t' ∈ [str "elif"; str "else"; str "fi"]) = true) as (t' & r & E & Ht').
  { destruct l as [|[c' b'] l]; [exists t; eexists; split; [done|by destruct Ht as [-> | ->]]|]. exists "elif"%string. eexists. by split. }
  rewrite E in H3. destruct (parse_body _ [str "elif"; str "else"; str "fi"] _ _ _ H3 Hb) as (s4 & -> & H4); [lia|assumption|reflexivity|]. cbn [obind]. rewrite <- E in H4.
  destruct (IH k (acc ++ [(c, b)]) t rest s4 Hw) as (s5 & E5 & H5); [lia|simpl in Hk; lia|done..|]. exists s5. rewrite <- app_assoc in E5. by split.
Qed.

Lemma else_at els rest s : match els with Some e => wf_body e | None => true end = true → (length (else_tokens els) < m)%nat → at_tokens (else_tokens els ++ kw "fi" :: rest) s →
  ∃ s', (if peek_keyword (str "else") s then
           let* _, s := advance s in
           let* e, s := parse_compound_list pc n [str "fi"] s in Got (Some e) s
         else Got None s) = Got els s' ∧ at_tokens (kw "fi" :: rest) s'.
Proof using Hnm Hm Hpc.
  intros Hw Hlen H. destruct els as [e|]; cbn [else_tokens app] in H; rewrite (peek_at _ _ _ _ H); [|by exists s].
  replace (token_is (str "else") (kw "else")) with true by (by vm_compute). destruct (advance_at _ _ _ H) as (s1 & -> & H1). cbn [obind]. simpl in Hlen.
  destruct (parse_body _ [str "fi"] _ _ _ H1 Hw) as (s2 & -> & H2); [lia|reflexivity..|]. by exists s2.
Qed.

Lemma elifs_length l : (length l <= length (elif_tokens l))%nat.
Proof using. clear. unfold elif_tokens. induction l as [|[c b] l IH]; simpl; [done|]. rewrite !length_app. lia. Qed.

Lemma if_at c t elifs els rs rest s : wf_cmd 0 (If c t elifs els rs) = true → (length (cmd_tokens (If c t elifs els rs)) <= m)%nat → ends rest →
  at_tokens (cmd_tokens (If c t elifs els rs) ++ rest) s → ∃ s', parse_if pc n s = Got (If c t elifs els rs) s' ∧ at_tokens rest s'.
Proof using Hnm Hm Hpc.
  intros (Hc & Ht & Hes & Hel & Hr)%wf_if. rewrite tokens_if. intros Hlen He H.
  cbn [app] in H. simpl in Hlen. rewrite length_app in Hlen. simpl in Hlen. rewrite !length_app in Hlen. simpl in Hlen.
  rewrite <- app_assoc in H. cbn [app] in H. rewrite <- !app_assoc in H. cbn [app] in H. pose proof (elifs_length elifs).
  unfold parse_if. destruct (advance_at _ _ _ H) as (s1 & -> & H1). cbn [obind].
  destruct (parse_body _ [str "then"] _ _ _ H1 Hc) as (s2 & -> & H2); [lia|reflexivity..|]. cbn [obind].
  destruct (expect_at _ _ _ H2) as (s3 & -> & H3). cbn [obind].
  assert (∃ x r, else_tokens els ++ kw "fi" :: flat_map redir_tokens rs ++ rest = kw x :: r ∧ (x = "else"%string ∨ x = "fi"%string)) as (x & r & Ex & Hx).
  { destruct els; [exists "else"%string|exists "fi"%string]; eexists; (split; [reflexivity|auto]). }
  rewrite Ex in H3. assert (∃ y r', elif_tokens elifs ++ kw x :: r = kw y :: r' ∧ bool_decide (str y ∈ [str "elif"; str "else"; str "fi"]) = true) as (y & r' & Ey & Hy).
  { destruct elifs as [|[c' b'] l]; [exists x; eexists; split; [done|by destruct Hx as [-> | ->]]|]. exists "elif"%string. eexists. by split. }
  rewrite Ey in H3. destruct (parse_body _ [str "elif"; str "else"; str "fi"] _ _ _ H3 Ht) as (s4 & -> & H4); [lia|assumption|reflexivity|]. cbn [obind]. rewrite <- Ey in H4.
  destruct (elif_loop_at elifs n [] x r s4 Hes ltac:(lia) ltac:(lia) Hx H4) as (s5 & -> & H5). cbn [obind app]. rewrite <- Ex in H5.
  destruct (else_at els _ s5 Hel ltac:(lia) H5) as (s6 & -> & H6). cbn [obind].
  destruct (expect_at _ _ _ H6) as (s7 & -> & H7). cbn [obind].
  destruct (trailing_redirs_at rs n [] rest s7 Hr He ltac:(lia) H7) as (s8 & E & H8). unfold parse_trailing_redirs. rewrite E. by exists s8.
Qed.
Lemma wf_for var ws b rs : wf_cmd 0 (For var ws b rs) = true → is_valid_name var = true ∧ wf_body b = true ∧ forallb wf_redir rs = true ∧
  match ws with Some ws => forallb (λ w, wf_word w && negb (word_is_literal_keyword w (str "do"))) ws = true | None => True end.
Proof using. clear. cbn [wf_cmd]. rewrite !andb_true_iff. intros [[[? ?] ?] ?]. split_and!; [done..|by destruct ws]. Qed.

Lemma for_words_at ws : ∀ k acc rest s, forallb (λ w, wf_word w && negb (word_is_literal_keyword w (str "do"))) ws = true → (length ws < k)%nat →
  at_tokens (map TWord ws ++ Semi :: rest) s → ∃ s', for_words k acc s = Got (acc ++ ws) s' ∧ at_tokens (Semi :: rest) s'.
Proof using.
  clear. induction ws as [|w ws IH]; intros k acc rest s Hw Hk H; (destruct k as [|k]; [simpl in Hk; lia|]); cbn [for_words map app] in *; rewrite (cur_at _ _ _ H).
  { exists s. by rewrite app_nil_r. }
  cbn [forallb] in Hw. rewrite !andb_true_iff, negb_true_iff in Hw. destruct Hw as [[_ ->] Hw]. destruct (advance_at _ _ _ H) as (s1 & -> & H1). cbn [obind].
  destruct (IH k (acc ++ [w]) rest s1 Hw ltac:(simpl in Hk; lia) H1) as (s2 & E & H2). exists s2. rewrite <- app_assoc in E. by split.
Qed.

Definition in_tokens (ws : option (list Word)) : list Token := match ws with Some ws => kw "in" :: map TWord ws ++ [Semi] | None => [] end.

Lemma for_in_at ws rest s : match ws with Some ws => forallb (λ w, wf_word w && negb (word_is_literal_keyword w (str "do"))) ws = true | None => True end →
  (length (in_tokens ws) < n)%nat → at_tokens (in_tokens ws ++ kw "do" :: rest) s →
  ∃ s', (if peek_keyword (str "in") s then
           let* _, s := advance s in
           let* ws, s := for_words n [] s in
           let* _, s := (match cur s with Semi | Newline => let* _, s := advance s in skip_newlines n s | _ => Got () s end) in
           Got (Some ws) s
         else Got None s) = Got ws s' ∧ at_tokens (kw "do" :: rest) s'.
Proof using.
  clear. intros Hw Hn H. destruct ws as [ws|]; cbn [in_tokens app] in H; rewrite (peek_at _ _ _ _ H); [|by exists s].
  replace (token_is (str "in") (kw "in")) with true by (by vm_compute). cbn [in_tokens] in Hn. simpl in Hn. rewrite length_app, length_map in Hn. rewrite <- app_assoc in H.
  destruct (advance_at _ _ _ H) as (s1 & -> & H1). cbn [obind].
  destruct (for_words_at ws n [] _ s1 Hw ltac:(lia) H1) as (s2 & -> & H2). cbn [obind app]. rewrite (cur_at _ _ _ H2).
  destruct (advance_at _ _ _ H2) as (s3 & -> & H3). cbn [obind]. rewrite skip_newlines_none by (lia || by rewrite (cur_at _ _ _ H3)). by exists s3.
Qed.

Lemma for_at var ws b rs rest s : wf_cmd 0 (For var ws b rs) = true → (length (cmd_tokens (For var ws b rs)) <= m)%nat → ends rest →
  at_tokens (cmd_tokens (For var ws b rs) ++ rest) s → ∃ s', parse_for pc n s = Got (For var ws b rs) s' ∧ at_tokens rest s'.
Proof using Hnm Hm Hpc.
  intros (Hv & Hb & Hr & Hws)%wf_for. rewrite tokens_for. fold (in_tokens ws). intros Hlen He H. cbn [app] in H. simpl in Hlen. rewrite length_app in Hlen. simpl in Hlen.
  rewrite length_app in Hlen. simpl in Hlen. rewrite <- app_assoc in H. cbn [app] in H. rewrite <- app_assoc in H. cbn [app] in H.
  unfold parse_for. destruct (advance_at _ _ _ H) as (s1 & -> & H1). cbn [obind]. rewrite (cur_at _ _ _ H1). cbn [word_as_simple_name]. rewrite Hv.
  destruct (advance_at _ _ _ H1) as (s2 & -> & H2). cbn [obind].
  rewrite skip_newlines_none; [|lia|by destruct ws; rewrite (cur_at _ _ _ H2)]. cbn [obind].
  destruct (for_in_at ws _ s2 Hws ltac:(lia) H2) as (s3 & -> & H3). cbn [obind].
  destruct (expect_at _ _ _ H3) as (s4 & -> & H4). cbn [obind].
  destruct (parse_body _ [str "done"] _ _ _ H4 Hb) as (s5 & -> & H5); [lia|reflexivity..|]. cbn [obind].
  destruct (expect_at _ _ _ H5) as (s6 & -> & H6). cbn [obind].
  destruct (trailing_redirs_at rs n [] rest s6 Hr He ltac:(lia) H6) as (s7 & E & H7). unfold parse_trailing_redirs. rewrite E. by exists s7.
Qed.

Lemma wf_subshell b rs : wf_cmd 0 (Subshell b rs) = true →
  forallb wf_redir rs = true ∧ forallb (λ p, wf_cmd 2 p.1) (body_items b) = true ∧ subshell_body (body_items b) = b.
Proof using.
  clear. cbn [wf_cmd]. intros [Hr Hb]%andb_true_iff. split; [done|]. destruct b; cbn [body_items forallb fst]; rewrite ?andb_true_r; try (by split); [].
  apply andb_true_iff in Hb as [Hs Hi]. split; [done|]. unfold subshell_body. unfold not_single in Hs. by destruct (single items).
Qed.

Lemma subshell_loop_at items : ∀ k acc rest s, forallb (λ p, wf_cmd 2 p.1) items = true → (length (item_tokens items) < m)%nat → (length items < k)%nat →
  at_tokens (item_tokens items ++ RParen :: rest) s → ∃ s', subshell_loop pc n k acc s = Got (acc ++ items) s' ∧ at_tokens (RParen :: rest) s'.
Proof using Hnm Hm Hpc.
  induction items as [|[c sp] items IH]; intros k acc rest s Hw Hlen Hk H; (destruct k as [|k]; [simpl in Hk; lia|]); cbn [subshell_loop].
  { exists s. rewrite app_nil_r, (cur_at _ _ _ H). by split. }
  cbn [forallb fst] in Hw. apply andb_true_iff in Hw as [Hc Hw]. unfold item_tokens in H, Hlen. cbn [flat_map fst snd] in *. fold (item_tokens items) in *.
  rewrite !length_app in Hlen. simpl in Hlen. rewrite <- !app_assoc in H. cbn [app] in H. destruct (cmd_start 2 c _ s Hc H) as (_ & _ & _ & Hrp & _).
  destruct (parse_item c sp _ s Hc ltac:(lia) H) as (s1 & s2 & E1 & E2 & H2). rewrite E1. cbn [obind]. rewrite E2. cbn [obind default].
  rewrite skip_newlines_none; [|lia|by eapply item_start; [exact Hw| |exact H2]]. cbn [obind].
  destruct (IH k (acc ++ [(c, sp)]) rest s2) as (s3 & E3 & H3); [done|lia|simpl in Hk; lia|done|]. exists s3. rewrite <- app_assoc in E3. split; [|done].
  by destruct (cur s).
Qed.

Lemma subshell_at b rs rest s : wf_cmd 0 (Subshell b rs) = true → (length (cmd_tokens (Subshell b rs)) <= m)%nat → ends rest →
  at_tokens (cmd_tokens (Subshell b rs) ++ rest) s → ∃ s', parse_subshell pc n s = Got (Subshell b rs) s' ∧ at_tokens rest s'.
Proof using Hnm Hm Hpc.
  intros (Hr & Hi & Hb)%wf_subshell. rewrite tokens_subshell, body_tokens_items. intros Hlen He H. cbn [app] in H. simpl in Hlen. rewrite length_app in Hlen. simpl in Hlen.
  rewrite <- app_assoc in H. cbn [app] in H. pose proof (items_length (body_items b)).
  unfold parse_subshell. destruct (advance_at _ _ _ H) as (s1 & -> & H1). cbn [obind].
  rewrite skip_newlines_none; [|lia|by eapply item_start; [exact Hi| |exact H1]]. cbn [obind].
  destruct (subshell_loop_at _ n [] _ s1 Hi ltac:(lia) ltac:(lia) H1) as (s2 & -> & H2). cbn [obind app]. destruct (advance_at _ _ _ H2) as (s3 & -> & H3). cbn [obind].
  destruct (trailing_redirs_at rs n [] rest s3 Hr He ltac:(lia) H3) as (s4 & E & H4). unfold parse_trailing_redirs. rewrite E. cbn [obind]. rewrite Hb. by exists s4.
Qed.

Lemma funcdef_at f b rest s : wf_cmd 0 (FuncDef f b) = true → (length (cmd_tokens (FuncDef f b)) <= m)%nat → ends rest →
  at_tokens (cmd_tokens (FuncDef f b) ++ rest) s → ∃ s', parse_simple pc n s = Got (FuncDef f b) s' ∧ at_tokens rest s'.
Proof using Hnm Hm Hpc.
  cbn [wf_cmd cmd_tokens app]. intros [Hf Hb]%andb_true_iff Hlen He H. simpl in Hlen. destruct (is_name_word f Hf) as [_ Hname].
  unfold parse_simple. destruct n as [|k] eqn:En; [lia|]. cbn [simple_loop]. rewrite (cur_at _ _ _ H). destruct (advance_at _ _ _ H) as (s1 & -> & H1). cbn [obind].
  cbn [words assigns]. rewrite !bool_decide_true by done. cbn [negb andb]. rewrite (cur_at _ _ _ H1), Hname. unfold parse_function.
  destruct (advance_at _ _ _ H1) as (s2 & -> & H2). cbn [obind]. rewrite (cur_at _ _ _ H2). destruct (advance_at _ _ _ H2) as (s3 & -> & H3). cbn [obind].
  destruct (cmd_start 0 b _ s3 Hb H3) as (_ & Hnl & _). rewrite skip_newlines_none by (done || lia). cbn [obind].
  destruct (Hpc b rest s3 Hb ltac:(lia) He H3) as (s4 & -> & H4). by exists s4.
Qed.

Lemma command_body_at c rest s : wf_cmd 0 c = true → (length (cmd_tokens c) <= m)%nat → (length (cmd_tokens c) < n)%nat → ends rest →
  at_tokens (cmd_tokens c ++ rest) s → ∃ s', command_body pc n s = Got c s' ∧ at_tokens rest s'.
Proof using Hnm Hm Hpc.
  intros Hw Hm' Hn He H. unfold command_body. cbv zeta. destruct c as [c| | | |b rs|b rs|c t es e rs|c b u rs|v ws b rs|f b|]; try done.
  - destruct (simple_head c Hw) as (t & ts & Et & Hres & Hp). cbn [cmd_tokens] in *. pose proof H as H'. rewrite Et in H. cbn [app] in H. rewrite (cur_at _ _ _ H). unfold reserved_of in Hres. rewrite Hres.
    destruct (parse_simple_at pc n rest He c s Hw Hn H') as (s' & E & H2). exists s'. split; [|done]. destruct t; exact E || by destruct Hp.
  - pose proof H as H'. rewrite tokens_subshell in H. cbn [app] in H. rewrite (cur_at _ _ _ H). by apply subshell_at.
  - pose proof H as H'. rewrite tokens_group in H. cbn [app] in H. rewrite (cur_at _ _ _ H). by apply group_at.
  - pose proof H as H'. rewrite tokens_if in H. cbn [app] in H. rewrite (cur_at _ _ _ H). by apply if_at.
  - pose proof H as H'. rewrite tokens_while in H. cbn [app] in H. rewrite (cur_at _ _ _ H). by destruct u; apply while_at.
  - pose proof H as H'. rewrite tokens_for in H. cbn [app] in H. rewrite (cur_at _ _ _ H). by apply for_at.
  - pose proof Hw as [Hf Hb]%andb_true_iff. pose proof H as H'. cbn [cmd_tokens app] in H. rewrite (cur_at _ _ _ H). destruct (is_name_word f Hf) as [-> _]. by apply funcdef_at.
Qed.
End descent_at.
Lemma parse_command_at fuel : ∀ c rest s, wf_cmd 0 c = true → (length (cmd_tokens c) + 1 < fuel)%nat → ends rest → at_tokens (cmd_tokens c ++ rest) s →
  ∃ s', parse_command fuel s = Got c s' ∧ at_tokens rest s'.
Proof.
  induction fuel as [|k IH]; intros c rest s Hw Hlen He H; [lia|]. cbn [parse_command].
  destruct (command_head c Hw) as (t & ts & Et & _). assert (1 <= length (cmd_tokens c))%nat by (rewrite Et; simpl; lia).
  apply (command_body_at (parse_command k) k (k - 1)); [lia..| |done|lia|lia|done|done].
  intros d r u Hd Hlen' He' H'. apply IH; [done|lia|done|done].
Qed.

Lemma program_loop_at fuel items : ∀ k acc s, forallb (λ p, wf_cmd 2 p.1) items = true → (length (item_tokens items) + 1 < fuel)%nat → (length items < k)%nat →
  at_tokens (item_tokens items) s → ∃ s', program_loop (parse_command fuel) fuel k acc s = Got (acc ++ items) s'.
Proof.
  induction items as [|[c sp] items IH]; intros k acc s Hw Hlen Hk H; (destruct k as [|k]; [simpl in Hk; lia|]); cbn [program_loop].
  { exists s. rewrite app_nil_r. by destruct H as (_ & -> & _). }
  cbn [forallb fst] in Hw. apply andb_true_iff in Hw as [Hc Hw]. unfold item_tokens in H, Hlen. cbn [flat_map fst snd] in *. fold (item_tokens items) in *.
  rewrite !length_app in Hlen. simpl in Hlen. rewrite <- app_assoc in H. cbn [app] in H. destruct (cmd_start 2 c _ s Hc H) as (_ & _ & Heof & _).
  destruct (parse_item (parse_command fuel) fuel (fuel - 1) ltac:(lia) ltac:(lia)) with (c := c) (sp := sp) (rest := item_tokens items) (s := s) as (s1 & s2 & E1 & E2 & H2); [|done|lia|done|].
  { intros d r u Hd Hl. by apply parse_command_at; [|lia]. }
  rewrite E1. cbn [obind]. rewrite E2. cbn [obind default].
  assert (cur s2 ≠ Newline) as Hnl.
  { destruct items as [|[c' sp'] items]; [by destruct H2 as (_ & -> & _)|]. cbn [forallb fst] in Hw. apply andb_true_iff in Hw as [Hc' _].
    unfold item_tokens in H2. cbn [flat_map fst snd] in H2. rewrite <- !app_assoc in H2. by apply (cmd_start 2 c' _ s2 Hc') in H2 as (_ & ? & _). }
  rewrite skip_newlines_none by (done || lia). cbn [obind].
  destruct (IH k (acc ++ [(c, sp)]) s2) as (s3 & E3); [done|lia|simpl in Hk; lia|done|]. exists s3. rewrite <- app_assoc in E3. by destruct (cur s).
Qed.

(** *** The tokens of a command can be printed *)

Lemma takes_number_app a b : takes_number a = true → takes_number (a ++ b) = true.
Proof. by destruct a as [|[] a]. Qed.

Lemma wf_tokens_app a b : wf_tokens a = true → wf_tokens b = true → wf_tokens (a ++ b) = true.
Proof.
  intros Ha Hb. induction a as [|t a IH]; [done|]. cbn [app wf_tokens] in *. apply andb_true_iff in Ha as [Ht Ha]. apply andb_true_iff. split; [|by apply IH].
  destruct t; try done. rewrite !andb_true_iff in *. destruct Ht as [? ?%(takes_number_app _ b)]. by split.
Qed.

Lemma wf_tokens_cons t b : wf_tokens [t] = true → wf_tokens b = true → wf_tokens (t :: b) = true.
Proof. apply (wf_tokens_app [t]). Qed.

Lemma wf_tokens_flat_map {A} (f : A → list Token) l : (∀ x, x ∈ l → wf_tokens (f x) = true) → wf_tokens (flat_map f l) = true.
Proof. intros H. induction l as [|x l IH]; [done|]. cbn. apply wf_tokens_app; [apply H; left|apply IH; intros; apply H; by right]. Qed.

Lemma wf_tokens_words ws : forallb wf_word ws = true → wf_tokens (map TWord ws) = true.
Proof. induction ws as [|w ws IH]; [done|]. cbn. intros [-> H]%andb_true_iff. by apply IH. Qed.

Lemma wf_redir_tokens r : wf_redir r = true → wf_tokens (redir_tokens r) = true.
Proof.
  unfold wf_redir, redir_tokens. rewrite !andb_true_iff. intros [[Hw Hf] _]. destruct (fd r) as [k|].
  - rewrite !andb_true_iff in Hf. destruct Hf as [[H0 H9] Ho]. cbn [app wf_tokens]. rewrite H0, H9, Hw. by destruct (op r).
  - cbn [app wf_tokens]. rewrite Hw. by destruct (op r).
Qed.

Lemma wf_redirs_tokens rs : forallb wf_redir rs = true → wf_tokens (flat_map redir_tokens rs) = true.
Proof. intros H. apply wf_tokens_flat_map. intros r Hr. apply wf_redir_tokens. rewrite forallb_forall in H. by apply H, list_elem_of_In. Qed.

Lemma wf_simple_tokens c : wf_simple c = true → wf_tokens (simple_tokens c) = true.
Proof.
  unfold wf_simple. rewrite !andb_true_iff. intros [[[Ha Hw] Hr] _]. unfold simple_tokens. repeat apply wf_tokens_app.
  - induction (assigns c) as [|a l IH]; [done|]. cbn in *. apply andb_true_iff in Ha as [Ha Hl]. destruct (assign_word_is a Ha) as (_ & _ & ->). by apply IH.
  - by apply wf_tokens_words.
  - by apply wf_redirs_tokens.
Qed.

Lemma wf_name_word f : is_valid_name f = true → wf_tokens [TWord [Lit f]] = true.
Proof.
  intros H. destruct f as [|c f]; [done|]. assert (10 ∉ c :: f) as H10; [|cbn; by rewrite bool_decide_true by done].
  intros Hin. cbn in H. apply andb_true_iff in H as [Hc Hf]. rewrite forallb_forall in Hf. apply elem_of_cons in Hin as [<- |Hin]; [done|].
  by apply list_elem_of_In, Hf in Hin.
Qed.

(** Splits the tokens of a command into the tokens of its parts. *)
Ltac split_tokens :=
  repeat match goal with
         | |- wf_tokens (_ ++ _) = true => apply wf_tokens_app
         | |- wf_tokens [_] = true => fail 1
         | |- wf_tokens (_ :: _) = true => apply wf_tokens_cons
         end;
  try match goal with
      | |- wf_tokens [] = true => reflexivity
      | |- wf_tokens [TWord [Lit (str _)]] = true => reflexivity
      | |- wf_tokens [kw _] = true => reflexivity
      | |- wf_tokens (flat_map redir_tokens _) = true => by apply wf_redirs_tokens
      end.

Section tokens_of.
Context (n : nat) (IH : ∀ lv c, wf_cmd lv c = true → (length (cmd_tokens c) < n)%nat → wf_tokens (cmd_tokens c) = true).
#[local] Set Default Proof Using "Type".

Lemma wf_item_tokens l : forallb (λ p, wf_cmd 2 p.1) l = true → (length (item_tokens l) <= n)%nat → wf_tokens (item_tokens l) = true.
Proof using IH.
  unfold item_tokens. intros Hw Hn. induction l as [|[c sp] l IHl]; [done|]. cbn [forallb flat_map fst snd] in *. apply andb_true_iff in Hw as [Hc Hw].
  rewrite !length_app in Hn. simpl in Hn. split_tokens; [eapply IH; [exact Hc|lia]|by destruct sp|apply IHl; [done|lia]].
Qed.

Lemma wf_body_tokens b : wf_body b = true → (length (body_tokens b) <= n)%nat → wf_tokens (body_tokens b) = true.
Proof using IH. intros [Hi _]%wf_body_items. rewrite body_tokens_items. by apply wf_item_tokens. Qed.

Lemma wf_parts_tokens ps : forallb (wf_cmd 0) ps = true → (length (flat_map (λ p, Pipe :: cmd_tokens p) ps) <= n)%nat →
  wf_tokens (flat_map (λ p, Pipe :: cmd_tokens p) ps) = true.
Proof using IH.
  intros Hw Hn. induction ps as [|p ps IHl]; [done|]. cbn [forallb flat_map] in *. apply andb_true_iff in Hw as [Hp Hw]. simpl in Hn. rewrite length_app in Hn.
  split_tokens; [done|eapply IH; [exact Hp|lia]|apply IHl; [done|lia]].
Qed.

Lemma wf_elif_tokens l : forallb (λ p : Cmd * Cmd, wf_body p.1 && wf_body p.2) l = true → (length (elif_tokens l) <= n)%nat → wf_tokens (elif_tokens l) = true.
Proof using IH.
  unfold elif_tokens. intros Hw Hn. induction l as [|[c b] l IHl]; [done|]. cbn [forallb flat_map fst snd] in *. rewrite !andb_true_iff in Hw. destruct Hw as [[Hc Hb] Hw].
  simpl in Hn. rewrite !length_app in Hn. simpl in Hn.
  split_tokens; [apply wf_body_tokens; [done|lia]|apply wf_body_tokens; [done|lia]|apply IHl; [done|lia]].
Qed.

Lemma wf_cmd_tokens_step lv c : wf_cmd lv c = true → (length (cmd_tokens c) <= n)%nat → wf_tokens (cmd_tokens c) = true.
Proof using IH.
  intros Hw Hn. destruct c as [c|ng ps|l o r| |b rs|b rs|c t es e rs|c b u rs|v ws b rs|f b|]; try done.
  - by apply wf_simple_tokens.
  - cbn [wf_cmd cmd_tokens] in *. rewrite !andb_true_iff in Hw. destruct Hw as [[[_ Hne] Hlong] Hps]. destruct ps as [|p ps]; [done|].
    cbn [forallb] in Hps. apply andb_true_iff in Hps as [Hp Hps]. rewrite !length_app in Hn.
    assert (length (cmd_tokens p) < n)%nat by (destruct ng; [simpl in Hn; lia|]; destruct ps as [|q ps]; [done|]; simpl in Hn; lia).
    split_tokens; [by destruct ng|by eapply IH|apply wf_parts_tokens; [done|lia]].
  - cbn [wf_cmd cmd_tokens] in *. rewrite !andb_true_iff in Hw. destruct Hw as [[_ Hl] Hr]. rewrite length_app in Hn. simpl in Hn.
    destruct (cmd_head _ _ Hr) as (t & ts & Et & _). rewrite Et in Hn. split_tokens; [eapply IH; [exact Hl|lia]|by destruct o|].
    eapply IH; [exact Hr|]. rewrite Et. destruct (cmd_head _ _ Hl) as (t' & ts' & Et' & _). rewrite Et' in Hn. simpl in Hn. simpl. lia.
  - apply wf_cmd_level, wf_subshell in Hw as (Hr & Hi & _). rewrite tokens_subshell, body_tokens_items in *. simpl in Hn. rewrite length_app in Hn.
    split_tokens; [done|apply wf_item_tokens; [done|lia]|done].
  - apply wf_cmd_level, wf_group in Hw as (Hb & Hr). rewrite tokens_group in *. simpl in Hn. rewrite length_app in Hn. split_tokens. apply wf_body_tokens; [done|lia].
  - apply wf_cmd_level, wf_if in Hw as (Hc & Ht & Hes & He & Hr). rewrite tokens_if in *. simpl in Hn. rewrite length_app in Hn. simpl in Hn. rewrite !length_app in Hn.
    split_tokens; [apply wf_body_tokens; [done|lia]|apply wf_body_tokens; [done|lia]|apply wf_elif_tokens; [done|lia]|].
    destruct e; [|done]. simpl in Hn. cbn [else_tokens]. split_tokens. apply wf_body_tokens; [done|lia].
  - apply wf_cmd_level, wf_while in Hw as (Hc & Hb & Hr). rewrite tokens_while in *. simpl in Hn. rewrite length_app in Hn. simpl in Hn. rewrite length_app in Hn.
    split_tokens; [by destruct u|apply wf_body_tokens; [done|lia]|apply wf_body_tokens; [done|lia]].
  - apply wf_cmd_level, wf_for in Hw as (Hv & Hb & Hr & Hws). rewrite tokens_for in *. simpl in Hn. rewrite length_app in Hn. simpl in Hn. rewrite length_app in Hn.
    split_tokens; [by apply wf_name_word| |apply wf_body_tokens; [done|lia]].
    destruct ws as [ws|]; [|done]. split_tokens; [|done]. apply wf_tokens_words. apply forallb_forall. intros w Hin. rewrite forallb_forall in Hws.
    by apply Hws, andb_true_iff in Hin as [? _].
  - cbn [wf_cmd cmd_tokens] in *. apply andb_true_iff in Hw as [Hf Hb]. simpl in Hn. apply andb_true_iff in Hf as [Hf _].
    split_tokens; [by apply wf_name_word|done|done|eapply IH; [exact Hb|lia]].
Qed.
End tokens_of.

Lemma wf_cmd_tokens lv c : wf_cmd lv c = true → wf_tokens (cmd_tokens c) = true.
Proof.
  enough (∀ n lv c, wf_cmd lv c = true → (length (cmd_tokens c) < n)%nat → wf_tokens (cmd_tokens c) = true) as H by (intros Hw; eapply H; [exact Hw|apply Nat.lt_succ_diag_r]).
  clear. induction n as [|n IH]; intros lv c Hw Hn; [lia|]. eapply wf_cmd_tokens_step; [exact IH|exact Hw|lia].
Qed.

(** ** Main results *)

(** A program as text: its commands, each with its separator. *)
Definition print_program (c : Cmd) : list Z := print_tokens (body_tokens c).

(** C17: the parser reads back what is printed: for every well-formed program, the text that consists of its tokens parses to exactly that
    program, with any fuel above the number of tokens and two. *)
Theorem parse_print c fuel : wf_program c = true → (length (body_tokens c) + 2 < fuel)%nat → ∃ s, parse fuel (print_program c) = Got c s.
Proof.
  intros Hw Hf. destruct (wf_body_items c Hw) as [Hi Hl]. unfold parse, print_program. rewrite body_tokens_items in *. pose proof (items_length (body_items c)).
  assert (wf_tokens (item_tokens (body_items c)) = true) as Ht by (eapply wf_item_tokens; [intros; by eapply wf_cmd_tokens|done|done]).
  assert (∃ s, parser_new (print_tokens (item_tokens (body_items c))) = Got () s ∧ at_tokens (item_tokens (body_items c)) s) as (s & -> & Hs).
  { unfold parser_new. destruct (item_tokens (body_items c)) as [|t ts] eqn:Et.
    - eexists. split; [reflexivity|]. by split_and!.
    - unfold advance. cbn [lex]. rewrite next_token_print by done. eexists. split; [reflexivity|]. split_and!; [done..|]. cbn [lex tail]. by destruct t. }
  cbn [obind]. unfold parse_program, program_body.
  rewrite skip_newlines_none; [|lia|].
  - cbn [obind]. destruct (program_loop_at fuel _ fuel [] s Hi ltac:(lia) ltac:(lia) Hs) as (s' & ->). cbn [obind app]. rewrite Hl. by exists s'.
  - destruct (body_items c) as [|[d sp] l]; [by destruct Hs as (_ & -> & _)|]. cbn [forallb fst] in Hi. apply andb_true_iff in Hi as [Hd _].
    unfold item_tokens in Hs. cbn [flat_map fst snd] in Hs. rewrite <- !app_assoc in Hs. by apply (cmd_start 2 d _ s Hd) in Hs as (_ & ? & _).
Qed.

Lemma parse_print_witness : wf_program sample = true ∧ ∃ s, parse 60 (print_program sample) = Got sample s.
Proof. split; [vm_compute; reflexivity|]. apply parse_print; [vm_compute; reflexivity|]. apply Nat.ltb_lt. vm_compute. reflexivity. Defined.

(** A closing parenthesis in a group is no terminator, no end and no separator, and stands for a command without words: the loop of the list
    takes it again and again. *)
Lemma stuck_list pc n k terms items s : cur s = RParen → (∀ s, cur s = RParen → pc s = Got (Simple (mkSimple [] [] [])) s ∨ pc s = NoFuel) →
  compound_loop pc n k terms items s = NoFuel.
Proof.
  intros Hs Hpc. revert items. induction k as [|k IH]; intros items; [done|]. cbn [compound_loop].
  assert (∀ k, peek_keyword k s = false) as Hk by (intros; unfold peek_keyword; by rewrite Hs).
  assert (peek_any_keyword terms s = false) as -> by (unfold peek_any_keyword; apply not_true_is_false; rewrite existsb_exists; intros (x & _ & Hx); by rewrite Hk in Hx).
  rewrite Hs. cbn [orb]. unfold parse_and_or, parse_pipeline. rewrite Hk. cbn [obind]. destruct (Hpc s Hs) as [-> | ->]; [|done]. cbn [obind]. rewrite Hs. cbn [negb andb obind].
  destruct n as [|n]; [done|]. cbn [and_or_loop]. rewrite Hs. cbn [obind]. unfold separator. rewrite Hs. cbn [obind skip_newlines]. rewrite Hs. cbn [obind]. apply IH.
Qed.

Lemma paren_command fuel s : cur s = RParen → parse_command fuel s = Got (Simple (mkSimple [] [] [])) s ∨ parse_command fuel s = NoFuel.
Proof.
  intros Hs. destruct fuel as [|fuel]; [by right|]. cbn [parse_command]. unfold command_body. cbv zeta. rewrite Hs. unfold parse_simple.
  destruct fuel as [|fuel]; [by right|]. cbn [simple_loop]. rewrite Hs. by left.
Qed.

(** The text [{ )] has no parse with any fuel. *)
Lemma group_never_returns fuel : parse fuel (str "{ )") = NoFuel.
Proof.
  unfold parse. destruct (parser_new (str "{ )")) as [[] s| |] eqn:E; [|by vm_compute in E..]. vm_compute in E. injection E as <-. cbn [obind].
  unfold parse_program, program_body. destruct fuel as [|fuel]; [done|]. cbn [skip_newlines cur obind program_loop]. unfold parse_and_or, parse_pipeline.
  replace (peek_keyword (str "!") _) with false by (by vm_compute). cbn [obind parse_command]. unfold command_body. cbv zeta. cbn [cur].
  match goal with |- context [parse_group ?pc ?n ?s] => assert (parse_group pc n s = NoFuel) as Hg end.
  { unfold parse_group. destruct (advance _) as [[] s| |] eqn:E; [|by vm_compute in E..]. vm_compute in E. injection E as <-. cbn [obind]. unfold parse_compound_list.
    destruct fuel as [|fuel]; [done|]. cbn [skip_newlines cur obind]. by rewrite stuck_list by (done || intros; by apply paren_command). }
  by rewrite Hg.
Qed.
End Parser.
