(* ===== verification/Arith.v ===== *)
(** * The shell's arithmetic ([mod arith] of [user_program/src/bin/sh/expand.rs])

    The tokens, the evaluator, whose five levels of binary operators are loops of
    one shape, and that it computes the value of an expression. *)

From Stdlib Require Import String.
From S2P Require Import Prelude Text Lexer.
#[local] Set Warnings "-register-all".
Open Scope Z_scope.

Module Arith.
Import Text Lexer.

(** ** Integers of 64 bits *)

Definition i64 (x : Z) : Z := (x + 2 ^ 63) mod 2 ^ 64 - 2 ^ 63.

Definition is_i64 (x : Z) : Prop := - 2 ^ 63 ≤ x < 2 ^ 63.

(** [str::parse::<i64>]. *)
Definition parse_i64 (s : list Z) : option Z :=
  match s with
  | [] => None
  | c :: s' =>
      if c =? 45 then
        if bool_decide (s' = []) then None
        else x ← parse_digits 64 10 0 s'; if x <=? 2 ^ 63 then Some (- x) else None
      else if c =? 43 then if bool_decide (s' = []) then None else parse_digits 63 10 0 s'
      else parse_digits 63 10 0 s
  end.

(** ** Tokens *)

Inductive Tok : Set :=
| Num (n : Z)
| Plus | Minus | Star | Slash | Percent | LParen | RParen
| Eq | Neq | Lt | Gt | Le | Ge | And | Or | Not.

#[global] Instance Tok_eq_dec : EqDecision Tok.
Proof. solve_decision. Defined.

Definition ExpandError : Type := list Z.

Definition is_space (c : Z) : bool := bool_decide (c ∈ [32; 9; 10; 12; 13]).
Definition is_name_char (c : Z) : bool := is_alpha c || is_digit c || (c =? 95).

(** An operator of one or two characters. *)
Definition operator (s : list Z) : option (Tok * list Z) :=
  match s with
  | [] => None
  | c :: s =>
      let next d := bool_decide (head s = Some d) in
      if c =? 43 then Some (Plus, s)
      else if c =? 45 then Some (Minus, s)
      else if c =? 42 then Some (Star, s)
      else if c =? 47 then Some (Slash, s)
      else if c =? 37 then Some (Percent, s)
      else if c =? 40 then Some (LParen, s)
      else if c =? 41 then Some (RParen, s)
      else if (c =? 61) && next 61 then Some (Eq, drop 1 s)
      else if (c =? 33) && next 61 then Some (Neq, drop 1 s)
      else if (c =? 60) && next 61 then Some (Le, drop 1 s)
      else if (c =? 62) && next 61 then Some (Ge, drop 1 s)
      else if c =? 60 then Some (Lt, s)
      else if c =? 62 then Some (Gt, s)
      else if (c =? 38) && next 38 then Some (And, drop 1 s)
      else if (c =? 124) && next 124 then Some (Or, drop 1 s)
      else if c =? 33 then Some (Not, s)
      else None
  end.

(** The variables, as [State::get] has them. *)
Definition Vars : Type := list Z → option (list Z).

Definition value_of (get : Vars) (name : list Z) : Z := default 0 (get name ≫= parse_i64).

(** One unit of fuel per token or blank. *)
Fixpoint tokenize (fuel : nat) (get : Vars) (out : list Tok) (s : list Z) : Outcome ExpandError (list Z) (list Tok) :=
  match fuel with
  | O => NoFuel
  | S fuel =>
      match s with
      | [] => Got out []
      | c :: s' =>
          if is_space c then tokenize fuel get out s'
          else if is_digit c then
            let '(digits, s) := split_while is_digit s in
            match parse_digits 63 10 0 digits with
            | Some n => tokenize fuel get (out ++ [Num n]) s
            | None => Wrong (str "arithmetic: bad number")
            end
          else if is_alpha c || (c =? 95) then
            let '(name, s) := split_while is_name_char s in
            tokenize fuel get (out ++ [Num (value_of get name)]) s
          else match operator s with
               | Some (t, s) => tokenize fuel get (out ++ [t]) s
               | None => Wrong (str "arithmetic: bad char `" ++ [c] ++ str "`")
               end
      end
  end.

(** ** The evaluator *)

Definition Ax (A : Type) : Type := list Tok → Outcome ExpandError (list Tok) A.

Definition bool_to_int (b : bool) : Z := if b then 1 else 0.

Definition by_zero : ExpandError := str "arithmetic: division by zero".

(** What an operator does to its operands; [None] is a division by zero. *)
Definition BinOp : Type := Z → Z → option Z.

Definition or_op (t : Tok) : option BinOp :=
  match t with Or => Some (λ l r, Some (bool_to_int (negb (l =? 0) || negb (r =? 0)))) | _ => None end.
Definition and_op (t : Tok) : option BinOp :=
  match t with And => Some (λ l r, Some (bool_to_int (negb (l =? 0) && negb (r =? 0)))) | _ => None end.
Definition cmp_op (t : Tok) : option BinOp :=
  match t with
  | Eq => Some (λ l r, Some (bool_to_int (l =? r)))
  | Neq => Some (λ l r, Some (bool_to_int (negb (l =? r))))
  | Lt => Some (λ l r, Some (bool_to_int (l <? r)))
  | Le => Some (λ l r, Some (bool_to_int (l <=? r)))
  | Gt => Some (λ l r, Some (bool_to_int (r <? l)))
  | Ge => Some (λ l r, Some (bool_to_int (r <=? l)))
  | _ => None
  end.
Definition addsub_op (t : Tok) : option BinOp :=
  match t with
  | Plus => Some (λ l r, Some (i64 (l + r)))
  | Minus => Some (λ l r, Some (i64 (l - r)))
  | _ => None
  end.
(** [wrapping_div] and [wrapping_rem] round to zero. *)
Definition muldiv_op (t : Tok) : option BinOp :=
  match t with
  | Star => Some (λ l r, Some (i64 (l * r)))
  | Slash => Some (λ l r, if r =? 0 then None else Some (i64 (Z.quot l r)))
  | Percent => Some (λ l r, if r =? 0 then None else Some (i64 (Z.rem l r)))
  | _ => None
  end.

Section level.
Context (next : Ax Z) (op : Tok → option BinOp).

(** The [while] loop of a level. *)
Fixpoint loop (k : nat) (lhs : Z) (s : list Tok) : Outcome ExpandError (list Tok) Z :=
  match k with
  | O => NoFuel
  | S k =>
      match s with
      | t :: s' =>
          match op t with
          | Some f =>
              let* r, s := next s' in
              match f lhs r with
              | Some v => loop k v s
              | None => Wrong by_zero
              end
          | None => Got lhs s
          end
      | [] => Got lhs s
      end
  end.

Definition level (n : nat) : Ax Z := λ s, let* lhs, s := next s in loop n lhs s.
End level.

Section descent.
(** The evaluator of what is in parentheses, and the turns that loops have. *)
Context (parse : Ax Z) (n : nat).

Definition primary : Ax Z := λ s,
  match s with
  | Num v :: s => Got v s
  | LParen :: s =>
      let* v, s := parse s in
      match s with
      | RParen :: s => Got v s
      | _ => Wrong (str "arithmetic: missing ')'")
      end
  | _ => Wrong (str "arithmetic: expected number")
  end.

Fixpoint unary (k : nat) (s : list Tok) : Outcome ExpandError (list Tok) Z :=
  match k with
  | O => NoFuel
  | S k =>
      match s with
      | Plus :: s => unary k s
      | Minus :: s => let* v, s := unary k s in Got (i64 (- v)) s
      | Not :: s => let* v, s := unary k s in Got (bool_to_int (v =? 0)) s
      | _ => primary s
      end
  end.

Definition muldiv : Ax Z := level (unary n) muldiv_op n.
Definition addsub : Ax Z := level muldiv addsub_op n.
Definition cmp : Ax Z := level addsub cmp_op n.
Definition and_ : Ax Z := level cmp and_op n.
Definition or_ : Ax Z := level and_ or_op n.
End descent.

Fixpoint parse (fuel : nat) : Ax Z :=
  match fuel with
  | O => λ _, NoFuel
  | S fuel => or_ (parse fuel) fuel
  end.

(** [eval_arith] after the expansion of its text: one turn per byte is enough for
    the tokens, three more than there are tokens for the evaluation. *)
Definition eval_text (get : Vars) (src : list Z) : Outcome ExpandError (list Tok) Z :=
  match tokenize (S (length src)) get [] src with
  | Got tokens _ =>
      let* v, s := parse (length tokens + 3) tokens in
      if bool_decide (s = []) then Got v s else Wrong (str "arithmetic: trailing tokens")
  | Wrong e => Wrong e
  | NoFuel => NoFuel
  end.

Definition no_vars : Vars := λ _, None.
Example eval_1 : eval_text no_vars (str "1 + 2 * (3 - 4) / 2 == 0 && 7 % 4 >= 3") = Got 1 [].
Proof. reflexivity. Qed.
Example eval_2 : eval_text (λ x, if bool_decide (x = str "n") then Some (str "-7") else None) (str "n / 2 - !m") = Got (-4) [].
Proof. reflexivity. Qed.
Example eval_3 : eval_text no_vars (str "1 || 1 / 0") = Wrong by_zero.
Proof. reflexivity. Qed.
Example eval_4 : eval_text no_vars (str "9223372036854775807 + 1") = Got (- 2 ^ 63) [].
Proof. reflexivity. Qed.
Example eval_5 : eval_text no_vars (str "1 2") = Wrong (str "arithmetic: trailing tokens").
Proof. reflexivity. Qed.

(** ** Expressions *)

Inductive Expr : Type :=
| Lit (n : Z)
| Var (name : list Z)
| Un (t : Tok) (e : Expr)
| Bin (t : Tok) (l r : Expr).

(** How tightly an operator binds: 0 for [||] to 4 for the products, 5 for what is
    no binary operator. *)
Definition tok_level (t : Tok) : nat :=
  match t with
  | Or => 0 | And => 1
  | Eq | Neq | Lt | Le | Gt | Ge => 2
  | Plus | Minus => 3
  | Star | Slash | Percent => 4
  | _ => 5
  end.

Definition expr_level (e : Expr) : nat :=
  match e with Lit _ | Var _ => 6 | Un _ _ => 5 | Bin t _ _ => tok_level t end.

Definition truth (P : Prop) `{Decision P} : Z := if decide P then 1 else 0.

(** Both sides of [||] and [&&] are computed. *)
Definition apply_bin (t : Tok) (a b : Z) : option Z :=
  match t with
  | Or => Some (truth (a ≠ 0 ∨ b ≠ 0))
  | And => Some (truth (a ≠ 0 ∧ b ≠ 0))
  | Eq => Some (truth (a = b))
  | Neq => Some (truth (a ≠ b))
  | Lt => Some (truth (a < b))
  | Le => Some (truth (a ≤ b))
  | Gt => Some (truth (b < a))
  | Ge => Some (truth (b ≤ a))
  | Plus => Some (i64 (a + b))
  | Minus => Some (i64 (a - b))
  | Star => Some (i64 (a * b))
  | Slash => if decide (b = 0) then None else Some (i64 (Z.quot a b))
  | Percent => if decide (b = 0) then None else Some (i64 (Z.rem a b))
  | _ => None
  end.

Definition apply_un (t : Tok) (a : Z) : Z :=
  match t with Minus => i64 (- a) | Not => truth (a = 0) | _ => a end.

(** The value of an expression; [None] when it divides by zero somewhere. *)
Fixpoint denote (get : Vars) (e : Expr) : option Z :=
  match e with
  | Lit n => Some n
  | Var x => Some (value_of get x)
  | Un t e => a ← denote get e; Some (apply_un t a)
  | Bin t l r => a ← denote get l; b ← denote get r; apply_bin t a b
  end.

Definition is_name (x : list Z) : bool :=
  match x with c :: s => (is_alpha c || (c =? 95)) && forallb is_name_char s | [] => false end.

Fixpoint wf_expr (e : Expr) : bool :=
  match e with
  | Lit n => (0 <=? n) && (n <? 2 ^ 63)
  | Var x => is_name x
  | Un t e => match t with Plus | Minus | Not => true | _ => false end && wf_expr e
  | Bin t l r => (tok_level t <? 5)%nat && wf_expr l && wf_expr r
  end.

(** The tokens of an expression, with the parentheses that it needs where
    operators bind as tightly as [lv]. *)
Fixpoint toks (get : Vars) (lv : nat) (e : Expr) : list Tok :=
  let inner :=
    match e with
    | Lit n => [Num n]
    | Var x => [Num (value_of get x)]
    | Un t e => t :: toks get 5 e
    | Bin t l r => toks get (tok_level t) l ++ t :: toks get (S (tok_level t)) r
    end in
  if (expr_level e <? lv)%nat then LParen :: inner ++ [RParen] else inner.

(** ** The evaluator on the tokens of an expression *)

Definition result (get : Vars) (e : Expr) (rest : list Tok) : Outcome ExpandError (list Tok) Z :=
  match denote get e with Some v => Got v rest | None => Wrong by_zero end.

(** No operator of level [lv] or above follows. *)
Definition stops (lv : nat) (rest : list Tok) : Prop :=
  match rest with t :: _ => (tok_level t < lv ∨ tok_level t = 5)%nat | [] => True end.

Definition level_op (i : nat) : Tok → option BinOp :=
  match i with 0 => or_op | 1 => and_op | 2 => cmp_op | 3 => addsub_op | _ => muldiv_op end%nat.

Lemma level_op_None i t : (i < 5)%nat → tok_level t ≠ i → level_op i t = None.
Proof. intros Hi Ht. do 5 (destruct i as [|i]; [by destruct t|]). lia. Qed.

Lemma level_op_Some t : (tok_level t < 5)%nat → ∃ f, level_op (tok_level t) t = Some f ∧ ∀ a b, f a b = apply_bin t a b.
Proof.
  intros Ht. destruct t; cbn in *; try lia; (eexists; split; [reflexivity|]); intros a b; unfold truth, bool_to_int;
    repeat match goal with |- context [Z.eqb ?x ?y] => destruct (Z.eqb_spec x y) | |- context [Z.ltb ?x ?y] => destruct (Z.ltb_spec x y) | |- context [Z.leb ?x ?y] => destruct (Z.leb_spec x y) end;
    cbn; repeat case_decide; naive_solver lia.
Qed.

Section descent_at.
Context (get : Vars) (pp : Ax Z) (n m : nat) (Hnm : (m <= n)%nat).
Context (Hpp : ∀ e rest, wf_expr e = true → (length (toks get 0 e) < m)%nat → stops 0 rest → pp (toks get 0 e ++ rest) = result get e rest).
#[local] Set Default Proof Using "Type".

(** The routine of a level. *)
Definition at_level (i : nat) : Ax Z :=
  match i with
  | 0 => or_ pp n | 1 => and_ pp n | 2 => cmp pp n | 3 => addsub pp n | 4 => muldiv pp n | 5 => unary pp n | _ => primary pp
  end%nat.

Lemma at_level_step i : (i < 5)%nat → at_level i = level (at_level (S i)) (level_op i) n.
Proof using. clear. intros Hi. do 5 (destruct i as [|i]; [done|]). lia. Qed.

Lemma toks_inner lv lv' e : (lv <= expr_level e)%nat → (lv' <= expr_level e)%nat → toks get lv e = toks get lv' e.
Proof using. clear. intros H1 H2. destruct e; cbn [toks expr_level] in *; by rewrite !(proj2 (Nat.ltb_ge _ _)). Qed.

Lemma toks_parens lv e : (expr_level e < lv)%nat → toks get lv e = LParen :: toks get 0 e ++ [RParen].
Proof using. clear. intros H. destruct e; cbn [toks expr_level] in *; by rewrite (proj2 (Nat.ltb_lt _ _)). Qed.

Lemma toks_length lv lv' e : (lv <= lv')%nat → (length (toks get lv e) <= length (toks get lv' e))%nat.
Proof using.
  clear. intros H. destruct (decide (expr_level e < lv))%nat; [by rewrite (toks_parens lv), (toks_parens lv') by lia|]. destruct (decide (expr_level e < lv'))%nat.
  - rewrite (toks_inner lv 0), (toks_parens lv') by lia. simpl. rewrite length_app. lia.
  - by rewrite (toks_inner lv lv') by lia.
Qed.

Lemma toks_nonempty lv e : (0 < length (toks get lv e))%nat.
Proof using.
  clear. apply Nat.lt_le_trans with (length (toks get 0 e)); [|apply toks_length; lia].
  destruct e; cbn; [lia..|]. rewrite length_app. simpl. lia.
Qed.

(** A result of a level that no operator follows is one of the levels below. *)
Lemma lift i j s o : (i <= j <= 5)%nat → at_level j s = o → match o with Got _ rest => stops i rest | Wrong _ => True | NoFuel => True end → (0 < n)%nat →
  at_level i s = o.
Proof using.
  clear. intros [Hi Hj] Ho Hs Hn. induction Hi as [|j Hij IH]; [done|]. apply IH; [lia|]. clear IH. rewrite at_level_step by lia. unfold level. rewrite Ho.
  destruct o as [v rest| |]; cbn [obind]; [|done..]. destruct n as [|k]; [lia|]. cbn [loop]. destruct rest as [|t rest]; [done|].
  cbn in Hs. by rewrite level_op_None by lia.
Qed.

(** The operators of level [i] on the left spine. *)
Fixpoint spine (i : nat) (e : Expr) : nat :=
  match e with Bin t l _ => if (tok_level t =? i)%nat then S (spine i l) else 0%nat | _ => 0%nat end.

Lemma spine_length i e : (spine i e < length (toks get 0 e))%nat.
Proof using.
  clear. induction e as [| | |t l IHl r _]; cbn [spine]; try apply toks_nonempty. destruct (tok_level t =? i)%nat; [|apply toks_nonempty]. cbn [toks expr_level]. rewrite (proj2 (Nat.ltb_ge _ _)) by lia.
  rewrite length_app. simpl. pose proof (toks_length 0 (tok_level t) l). lia.
Qed.

(** What the lemmas below show of an expression, for the unary operators, at a
    level and in the loop of a level. *)
Definition unary_at e := ∀ k rest, (length (toks get 5 e) <= m)%nat → (length (toks get 5 e) <= k)%nat → unary pp k (toks get 5 e ++ rest) = result get e rest.
Definition good_at e := ∀ i rest, (i <= 5)%nat → (length (toks get i e) <= m)%nat → stops i rest → at_level i (toks get i e ++ rest) = result get e rest.
Definition loop_at e := ∀ i k rest, (i < 5)%nat → (length (toks get i e) <= m)%nat → stops (S i) rest → (spine i e <= k)%nat →
  (let* lhs, s := at_level (S i) (toks get i e ++ rest) in loop (at_level (S i)) (level_op i) k lhs s) =
  match denote get e with Some v => loop (at_level (S i)) (level_op i) (k - spine i e) v rest | None => Wrong by_zero end.

Lemma parens_at e rest : wf_expr e = true → (expr_level e < 5)%nat → (length (toks get 5 e) <= m)%nat → primary pp (toks get 5 e ++ rest) = result get e rest.
Proof using Hnm Hpp.
  intros Hw He Hlen. rewrite toks_parens in * by done. cbn [app] in *. simpl in Hlen. rewrite length_app in Hlen. rewrite <- app_assoc. cbn [primary].
  rewrite Hpp by (done || lia || (right; done)). unfold result. by destruct (denote get e).
Qed.

Lemma unary_primary k s : (0 < k)%nat → match s with (Plus | Minus | Not) :: _ => False | _ => True end → unary pp k s = primary pp s.
Proof using. clear. intros Hk Hs. destruct k; [lia|]. by destruct s as [|[] s]. Qed.

Lemma unary_holds e : wf_expr e = true → unary_at e.
Proof using Hnm Hpp.
  induction e as [v|x|t e IH|t l _ r _]; intros Hw k rest Hlen Hk.
  - by rewrite unary_primary.
  - by rewrite unary_primary.
  - cbn [wf_expr] in Hw. apply andb_true_iff in Hw as [Ht He]. cbn [toks expr_level] in *. rewrite Nat.ltb_irrefl in *. cbn [app] in *. simpl in Hlen, Hk.
    destruct k as [|k]; [lia|]. cbn [unary]. specialize (IH He k rest). unfold result in *. cbn [denote].
    destruct t; try done; rewrite IH by lia; destruct (denote get e) as [a|]; cbn; try done. unfold truth, bool_to_int. destruct (Z.eqb_spec a 0); by case_decide.
  - cbn [wf_expr] in Hw. rewrite !andb_true_iff, Nat.ltb_lt in Hw. assert (expr_level (Bin t l r) < 5)%nat by (cbn; lia).
    pose proof (toks_nonempty 5 (Bin t l r)). rewrite unary_primary; [|lia|by rewrite toks_parens].
    apply parens_at; [by cbn [wf_expr]; rewrite !andb_true_iff, Nat.ltb_lt|done|done].
Qed.

Lemma good_tight e : wf_expr e = true → ∀ i rest, (i <= 5)%nat → toks get i e = toks get 5 e → (length (toks get i e) <= m)%nat → stops i rest →
  at_level i (toks get i e ++ rest) = result get e rest.
Proof using Hnm Hpp.
  intros Hw i rest Hi Heq Hlen Hs. pose proof (toks_nonempty i e). apply (lift i 5); [lia| | |lia].
  - rewrite Heq in *. apply unary_holds; [done|lia|lia].
  - unfold result. by destruct (denote get e).
Qed.

Lemma loop_from_good e i k rest : good_at e → toks get i e = toks get (S i) e → spine i e = 0%nat → (i < 5)%nat → (length (toks get i e) <= m)%nat → stops (S i) rest →
  (let* lhs, s := at_level (S i) (toks get i e ++ rest) in loop (at_level (S i)) (level_op i) k lhs s) =
  match denote get e with Some v => loop (at_level (S i)) (level_op i) (k - spine i e) v rest | None => Wrong by_zero end.
Proof using.
  clear. intros Hg Heq Hsp Hi Hlen Hs. rewrite Heq, Hsp in *. rewrite Hg by (done || lia). unfold result. rewrite Nat.sub_0_r. by destruct (denote get e).
Qed.

(** The operator itself. *)
Lemma loop_own t l r k rest : (tok_level t < 5)%nat → loop_at l → good_at r → let e := Bin t l r in let i := tok_level t in
  (length (toks get i e) <= m)%nat → stops (S i) rest → (spine i e <= k)%nat →
  (let* lhs, s := at_level (S i) (toks get i e ++ rest) in loop (at_level (S i)) (level_op i) k lhs s) =
  match denote get e with Some v => loop (at_level (S i)) (level_op i) (k - spine i e) v rest | None => Wrong by_zero end.
Proof using.
  clear. intros Ht Hl Hr. cbv zeta. cbn [toks expr_level spine denote]. rewrite Nat.ltb_irrefl, Nat.eqb_refl. intros Hlen Hs Hk. rewrite length_app in Hlen. simpl in Hlen.
  rewrite <- app_assoc. cbn [app]. rewrite Hl; [|done|lia|left; lia|lia]. destruct (denote get l) as [a|]; [|done]. cbn [mbind option_bind].
  destruct (k - spine (tok_level t) l)%nat as [|j] eqn:Ej; [lia|]. replace (k - S (spine (tok_level t) l))%nat with j by lia. cbn [loop].
  destruct (level_op_Some t Ht) as (f & -> & Hf). rewrite Hr; [|lia|lia|done]. unfold result. destruct (denote get r) as [b|]; [|done]. cbn [obind mbind option_bind].
  rewrite Hf. by destruct (apply_bin t a b).
Qed.

Lemma tight_at e : wf_expr e = true → (5 <= expr_level e)%nat → good_at e ∧ loop_at e.
Proof using Hnm Hpp.
  intros Hw He. assert (good_at e) as Hg.
  { intros i rest Hi Hlen Hs. apply good_tight; [done|done|apply toks_inner; lia|done|done]. }
  split; [done|]. intros i k rest Hi Hlen Hs Hk. apply loop_from_good; try done; [apply toks_inner; lia|].
  destruct e as [| | |t l r]; [done..|]. cbn in He. cbn [spine]. by rewrite (proj2 (Nat.eqb_neq _ _)) by lia.
Qed.

Lemma expr_at e : wf_expr e = true → good_at e ∧ loop_at e.
Proof using Hnm Hpp.
  induction e as [v|x|t e _|t l IHl r IHr]; intros Hw; try (apply tight_at; [done|cbn; lia]).
  pose proof Hw as Hw'. cbn [wf_expr] in Hw'. rewrite !andb_true_iff, Nat.ltb_lt in Hw'. destruct Hw' as [[Ht Hl] Hr].
  destruct (IHl Hl) as [_ Hll]. destruct (IHr Hr) as [Hgr _].
  assert (good_at (Bin t l r)) as Hg.
  { intros i rest Hi Hlen Hs. destruct (decide (tok_level t < i)%nat) as [Hlt|Hge].
    - apply good_tight; [done|done|by rewrite (toks_parens i), (toks_parens 5) by (cbn; lia)|done|done].
    - assert (length (toks get (tok_level t) (Bin t l r)) <= m)%nat as Hlen' by (rewrite (toks_inner _ i) by (cbn; lia); done).
      pose proof (spine_length (tok_level t) (Bin t l r)). pose proof (toks_length 0 (tok_level t) (Bin t l r)).
      rewrite (toks_inner i (tok_level t)) by (cbn; lia). apply (lift i (tok_level t)); [lia| | |lia].
      + rewrite at_level_step by done. unfold level. rewrite (loop_own t l r) by (done || lia || (destruct rest as [|? ?]; [done|cbn in *; lia])).
        unfold result. destruct (denote get (Bin t l r)) as [v|]; [|done]. destruct (n - spine (tok_level t) (Bin t l r))%nat as [|j] eqn:Ej; [lia|].
        cbn [loop]. destruct rest as [|t' rest]; [done|]. cbn in Hs. by rewrite level_op_None by lia.
      + unfold result. by destruct (denote get (Bin t l r)). }
  split; [done|]. intros i k rest Hi Hlen Hs Hk. destruct (decide (tok_level t = i)) as [<-|Hne]; [by apply loop_own|].
  apply loop_from_good; try done; [|cbn [spine]; by rewrite (proj2 (Nat.eqb_neq _ _))].
  destruct (decide (i < tok_level t)%nat); [apply toks_inner; cbn; lia|by rewrite (toks_parens i), (toks_parens (S i)) by (cbn; lia)].
Qed.
End descent_at.

Lemma parse_at get fuel : ∀ e rest, wf_expr e = true → (length (toks get 0 e) + 1 < fuel)%nat → stops 0 rest → parse fuel (toks get 0 e ++ rest) = result get e rest.
Proof.
  induction fuel as [|k IH]; intros e rest Hw Hlen Hs; [lia|]. cbn [parse].
  destruct (expr_at get (parse k) k (k - 1) ltac:(lia)) with (e := e) as [Hg _]; [|done|].
  - intros d r Hd Hd' Hr. apply IH; [done|lia|done].
  - apply (Hg 0%nat rest); [lia|lia|done].
Qed.

(** ** Expressions as text *)

Definition tok_text (t : Tok) : list Z :=
  match t with
  | Num n => to_decimal n
  | Plus => str "+" | Minus => str "-" | Star => str "*" | Slash => str "/" | Percent => str "%" | LParen => str "(" | RParen => str ")"
  | Eq => str "==" | Neq => str "!=" | Lt => str "<" | Gt => str ">" | Le => str "<=" | Ge => str ">=" | And => str "&&" | Or => str "||" | Not => str "!"
  end.

Definition spaced (s : list Z) : list Z := s ++ [32].

(** The same as [toks], in characters: a blank follows every token. *)
Fixpoint expr_text (lv : nat) (e : Expr) : list Z :=
  let inner :=
    match e with
    | Lit n => spaced (to_decimal n)
    | Var x => spaced x
    | Un t e => spaced (tok_text t) ++ expr_text 5 e
    | Bin t l r => expr_text (tok_level t) l ++ spaced (tok_text t) ++ expr_text (S (tok_level t)) r
    end in
  if (expr_level e <? lv)%nat then spaced (str "(") ++ inner ++ spaced (str ")") else inner.

(** [s] is read as the tokens [ts], in at most as many turns as it has characters. *)
Definition reads (get : Vars) (s : list Z) (ts : list Tok) : Prop :=
  ∃ k, (k <= length s)%nat ∧ ∀ fuel out rest, tokenize (k + fuel) get out (s ++ rest) = tokenize fuel get (out ++ ts) rest.

Lemma reads_app get s1 s2 ts1 ts2 : reads get s1 ts1 → reads get s2 ts2 → reads get (s1 ++ s2) (ts1 ++ ts2).
Proof.
  intros (k1 & H1 & R1) (k2 & H2 & R2). exists (k1 + k2)%nat. split; [rewrite length_app; lia|]. intros fuel out rest.
  by rewrite <- app_assoc, <- Nat.add_assoc, R1, R2, <- app_assoc.
Qed.

Lemma tokenize_blank fuel get out rest : tokenize (S fuel) get out (32 :: rest) = tokenize fuel get out rest.
Proof. done. Qed.

Lemma reads_spaced get s ts : s ≠ [] → (∀ fuel out rest, tokenize (S fuel) get out (s ++ 32 :: rest) = tokenize fuel get (out ++ ts) (32 :: rest)) → reads get (spaced s) ts.
Proof.
  intros Hs H. exists 2%nat. split; [unfold spaced; rewrite length_app; destruct s; [done|simpl; lia]|]. intros fuel out rest.
  unfold spaced. rewrite <- app_assoc. cbn [app Nat.add]. by rewrite H, tokenize_blank.
Qed.

Lemma reads_op get t : (match t with Num _ => False | _ => True end) → reads get (spaced (tok_text t)) [t].
Proof. intros Ht. apply reads_spaced; [by destruct t|]. intros fuel out rest. by destruct t. Qed.

Lemma reads_num get n : 0 ≤ n < 2 ^ 63 → reads get (spaced (to_decimal n)) [Num n].
Proof.
  intros Hn. destruct (to_decimal_digits n) as [Hd Hne]; [lia|]. apply reads_spaced; [done|]. intros fuel out rest.
  assert (split_while is_digit (to_decimal n ++ 32 :: rest) = (to_decimal n, 32 :: rest)) as Hsplit by (by apply split_while_print).
  pose proof (parse_decimal 63 n Hn) as Hp. destruct (to_decimal n) as [|c l]; [done|]. cbn [app] in *. cbn [forallb] in Hd. apply andb_true_iff in Hd as [Hc _].
  cbn [tokenize]. rewrite Hc. assert (is_space c = false) as ->; [|by rewrite Hsplit, Hp].
  unfold is_space. apply bool_decide_eq_false. unfold is_digit in Hc. set_unfold. lia.
Qed.

Lemma reads_var get x : is_name x = true → reads get (spaced x) [Num (value_of get x)].
Proof.
  intros Hx. destruct x as [|c l]; [done|]. apply reads_spaced; [done|]. intros fuel out rest. cbn [is_name] in Hx. apply andb_true_iff in Hx as [Hc Hl].
  assert (is_name_char c = true) as Hc' by (unfold is_name_char; apply orb_true_iff in Hc as [-> | ->]; by rewrite ?orb_true_r).
  assert (split_while is_name_char ((c :: l) ++ 32 :: rest) = (c :: l, 32 :: rest)) as Hsplit by (apply split_while_print; [cbn [forallb]; by rewrite Hc'|done]).
  cbn [app] in *. cbn [tokenize]. rewrite Hsplit, Hc.
  assert (is_space c = false ∧ is_digit c = false) as [-> ->]; [|done]. unfold is_space, is_digit. rewrite bool_decide_eq_false. unfold is_alpha in Hc. set_unfold. lia.
Qed.

Lemma reads_expr get e : wf_expr e = true → ∀ lv, reads get (expr_text lv e) (toks get lv e).
Proof.
  assert (∀ lv e s ts, reads get s ts → reads get (if (expr_level e <? lv)%nat then spaced (str "(") ++ s ++ spaced (str ")") else s)
    (if (expr_level e <? lv)%nat then LParen :: ts ++ [RParen] else ts)) as Hparens.
  { intros lv e0 s ts H. destruct (expr_level e0 <? lv)%nat; [|done]. apply (reads_app _ _ _ [LParen]); [by apply (reads_op _ LParen)|].
    apply reads_app; [done|by apply (reads_op _ RParen)]. }
  induction e as [n|x|t e IH|t l IHl r IHr]; intros Hw lv; cbn [wf_expr] in Hw; cbn [expr_text toks]; apply (Hparens lv).
  - apply reads_num. lia.
  - by apply reads_var.
  - apply andb_true_iff in Hw as [Ht Hw]. apply (reads_app _ _ _ [t]); [apply reads_op; by destruct t|by apply IH].
  - rewrite !andb_true_iff, Nat.ltb_lt in Hw. destruct Hw as [[Ht Hl] Hr]. apply reads_app; [by apply IHl|].
    apply (reads_app _ _ _ [t]); [apply reads_op; destruct t; cbn in Ht; try done; lia|by apply IHr].
Qed.

Lemma tokenize_expr get e : wf_expr e = true → tokenize (S (length (expr_text 0 e))) get [] (expr_text 0 e) = Got (toks get 0 e) [].
Proof.
  intros Hw. destruct (reads_expr get e Hw 0) as (k & Hk & R). specialize (R (S (length (expr_text 0 e)) - k)%nat [] []).
  rewrite app_nil_r in R. replace (k + (S (length (expr_text 0 e)) - k))%nat with (S (length (expr_text 0 e))) in R by lia. rewrite R.
  by replace (S (length (expr_text 0 e)) - k)%nat with (S (length (expr_text 0 e) - k)) by lia.
Qed.

(** C19: arithmetic is correct: the text of an expression evaluates to its value, with all arithmetic modulo 2^64 in two's complement and division rounding
    to zero, and to the error exactly when it divides by zero, whatever operators and parentheses it has. *)
Theorem arith_value get e : wf_expr e = true →
  eval_text get (expr_text 0 e) = match denote get e with Some v => Got v [] | None => Wrong by_zero end.
Proof.
  intros Hw. unfold eval_text. rewrite tokenize_expr by done. pose proof (parse_at get (length (toks get 0 e) + 3) e [] Hw ltac:(lia) I) as H.
  rewrite app_nil_r in H. rewrite H. unfold result. by destruct (denote get e).
Qed.

Definition sample : Expr := Bin And (Bin Lt (Un Minus (Var (str "x"))) (Bin Star (Bin Plus (Lit 1) (Lit 2)) (Lit 9223372036854775807))) (Un Not (Bin Minus (Lit 4) (Bin Minus (Lit 5) (Lit 1)))).

Lemma arith_value_witness : wf_expr sample = true ∧ eval_text no_vars (expr_text 0 sample) = Got 1 [].
Proof. split; [reflexivity|]. rewrite (arith_value no_vars sample); reflexivity. Defined.

(** ** Any text *)

Lemma parse_digits_bound w r s : ∀ acc x, 0 ≤ r → 0 ≤ acc < 2 ^ w → parse_digits w r acc s = Some x → 0 ≤ x < 2 ^ w.
Proof.
  induction s as [|c s IH]; intros acc x Hr Ha H; [by injection H as <-|]. cbn [parse_digits] in H. destruct (to_digit r c) as [d|] eqn:Ed; [|done]. cbn [mbind option_bind] in H.
  assert (0 ≤ d) by (unfold to_digit, is_digit in Ed; cbv zeta in Ed; repeat case_match; simplify_eq; lia).
  destruct (Z.ltb_spec (acc * r + d) (2 ^ w)); [|done]. eapply IH; [exact Hr| |exact H]. nia.
Qed.

Lemma i64_bound x : is_i64 (i64 x).
Proof. unfold is_i64, i64. pose proof (Z.mod_pos_bound (x + 2 ^ 63) (2 ^ 64)). lia. Qed.

Lemma value_of_bound get x : is_i64 (value_of get x).
Proof.
  unfold value_of, is_i64. destruct (get x) as [s|]; cbn [mbind option_bind]; [|cbn; lia]. unfold parse_i64. destruct s as [|c s]; [cbn; lia|].
  assert (∀ l, - 2 ^ 63 ≤ default 0 (parse_digits 63 10 0 l) < 2 ^ 63) as Hpos.
  { intros l. destruct (parse_digits 63 10 0 l) as [v|] eqn:E; [|cbn; lia]. apply parse_digits_bound in E; [cbn [default id]; lia|lia|lia]. }
  destruct (c =? 45); [|destruct (c =? 43); [|apply Hpos]].
  - case_bool_decide; [cbn; lia|]. destruct (parse_digits 64 10 0 s) as [v|] eqn:E; [|cbn; lia]. cbn [mbind option_bind]. apply parse_digits_bound in E; [|lia..].
    destruct (Z.leb_spec v (2 ^ 63)); cbn [default id]; lia.
  - case_bool_decide; [cbn; lia|apply Hpos].
Qed.

Definition num_ok (t : Tok) : Prop := match t with Num n => is_i64 n | _ => True end.

Lemma operator_rest s t s' : operator s = Some (t, s') → (length s' < length s)%nat ∧ num_ok t.
Proof.
  destruct s as [|c s]; [done|]. cbn [operator]. intros H. pose proof (length_skipn 1 s) as Hd. change (skipn 1 s) with (drop 1 s) in Hd. simpl length in *.
  repeat match type of H with (if ?b then _ else _) = _ => destruct b end; simplify_eq; (split; [lia|done]).
Qed.

Lemma split_while_rest {A} (p : A → bool) (c : A) s : p c = true → (length (split_while p (c :: s)).2 <= length s)%nat.
Proof.
  intros Hc. cbn [split_while]. rewrite Hc. assert (∀ l, (length (split_while p l).2 <= length l)%nat) as H.
  { induction l as [|x l IH]; [done|]. cbn [split_while]. destruct (p x); [|done]. destruct (split_while p l). simpl in *. lia. }
  specialize (H s). by destruct (split_while p s).
Qed.

Lemma tokenize_total get fuel : ∀ out s, (length s < fuel)%nat → Forall num_ok out →
  match tokenize fuel get out s with Got ts s' => s' = [] ∧ Forall num_ok ts | Wrong _ => True | NoFuel => False end.
Proof.
  induction fuel as [|fuel IH]; intros out s Hf Ho; [lia|]. destruct s as [|c s]; [done|]. cbn [tokenize]. simpl in Hf.
  assert (∀ n s', num_ok (Num n) → (length s' <= length s)%nat → match tokenize fuel get (out ++ [Num n]) s' with Got ts s' => s' = [] ∧ Forall num_ok ts | Wrong _ => True | NoFuel => False end) as Hnum.
  { intros n s' Hn Hs. apply IH; [lia|]. apply Forall_app. by split; [|constructor]. }
  destruct (is_space c); [apply IH; [lia|done]|]. destruct (is_digit c) eqn:Hc.
  { pose proof (split_while_rest is_digit c s Hc). destruct (split_while is_digit (c :: s)) as [d s']. destruct (parse_digits 63 10 0 d) as [n|] eqn:En; [|done].
    apply Hnum; [|done]. apply parse_digits_bound in En; [|lia..]. unfold num_ok, is_i64. lia. }
  destruct (is_alpha c || (c =? 95)) eqn:Ha.
  { assert (is_name_char c = true) as Hn by (unfold is_name_char; apply orb_true_iff in Ha as [-> | ->]; by rewrite ?orb_true_r).
    pose proof (split_while_rest is_name_char c s Hn). destruct (split_while is_name_char (c :: s)) as [x s']. apply Hnum; [apply value_of_bound|done]. }
  destruct (operator (c :: s)) as [[t s']|] eqn:Eo; [|done]. apply operator_rest in Eo as [Hl Ht]. simpl in Hl. apply IH; [lia|].
  apply Forall_app. by split; [|constructor].
Qed.

(** The computation ends, gives an integer of 64 bits, and leaves at least [k] tokens less. *)
Definition ends (k : nat) (s : list Tok) (o : Outcome ExpandError (list Tok) Z) : Prop :=
  match o with
  | Got v s' => is_i64 v ∧ Forall num_ok s' ∧ (length s' + k <= length s)%nat
  | Wrong _ => True
  | NoFuel => False
  end.

(** Good for token lists of less than [m] tokens. *)
Definition total (m : nat) (f : Ax Z) : Prop := ∀ s, Forall num_ok s → (length s < m)%nat → ends 1 s (f s).

Definition keeps (op : Tok → option BinOp) : Prop := ∀ t f a b v, op t = Some f → f a b = Some v → is_i64 v.

Lemma bool_i64 b : is_i64 (bool_to_int b).
Proof. unfold is_i64. destruct b; cbn; lia. Qed.

Lemma ops_keep : keeps or_op ∧ keeps and_op ∧ keeps cmp_op ∧ keeps addsub_op ∧ keeps muldiv_op.
Proof.
  split_and!; intros t f a b v Ht Hv; destruct t; try done; injection Ht as <-; cbn in Hv; try (injection Hv as <-; (apply bool_i64 || apply i64_bound));
    (destruct (b =? 0); [done|injection Hv as <-; apply i64_bound]).
Qed.

Lemma loop_total next op m : total m next → keeps op → ∀ k lhs s, is_i64 lhs → Forall num_ok s → (length s < k)%nat → (length s < m)%nat → ends 0 s (loop next op k lhs s).
Proof.
  intros Hn Ho. induction k as [|k IH]; intros lhs s Hl Hs Hk Hm; [lia|]. cbn [loop]. destruct s as [|t s]; [done|]. simpl in Hk, Hm. assert (Forall num_ok s) as Hs' by (by inversion Hs).
  destruct (op t) as [f|] eqn:Ef; [|split_and!; [done..|lia]]. specialize (Hn s Hs' ltac:(lia)). destruct (next s) as [r s1| |]; [|done..]. destruct Hn as (Hr & Hs1 & Hl1). cbn [obind].
  destruct (f lhs r) as [v|] eqn:Ev; [|done]. specialize (IH v s1). unfold ends in *. destruct (loop next op k v s1); try done.
  - destruct IH as (? & ? & ?); [by eapply Ho|done|lia|lia|]. split_and!; [done..|simpl; lia].
  - apply IH; [by eapply Ho|done|lia|lia].
Qed.

Lemma level_total next op n m : total m next → keeps op → (m <= n)%nat → total m (level next op n).
Proof.
  intros Hn Ho Hm s Hs Hl. unfold level. pose proof (Hn s Hs Hl) as H. destruct (next s) as [v s1| |]; [|done..]. destruct H as (Hv & Hs1 & Hl1). cbn [obind].
  pose proof (loop_total next op m Hn Ho n v s1 Hv Hs1 ltac:(lia) ltac:(lia)) as H. unfold ends in *. destruct (loop next op n v s1); [|done..].
  destruct H as (? & ? & ?). split_and!; [done..|lia].
Qed.

Lemma unary_total pp m : total m pp → ∀ k s, Forall num_ok s → (length s < k)%nat → (length s < S m)%nat → ends 1 s (unary pp k s).
Proof.
  intros Hp. induction k as [|k IH]; intros s Hs Hk Hm; [lia|]. cbn [unary]. destruct s as [|t s]; [done|]. simpl in Hk, Hm. assert (Forall num_ok s) as Hs' by (by inversion Hs).
  assert (∀ g, (∀ v, is_i64 v → is_i64 (g v)) → ends 1 (t :: s) (let* v, s' := unary pp k s in Got (g v) s')) as Hun.
  { intros g Hg. specialize (IH s Hs' ltac:(lia) ltac:(lia)). unfold ends in *. destruct (unary pp k s); [|done..]. destruct IH as (? & ? & ?). split_and!; [by apply Hg|done|simpl; lia]. }
  destruct t; try done; cbn [primary].
  - inversion Hs. split_and!; [done..|simpl; lia].
  - specialize (Hun id (λ _ H, H)). by destruct (unary pp k s).
  - apply Hun. intros. apply i64_bound.
  - specialize (Hp s Hs' ltac:(lia)). destruct (pp s) as [v s1| |]; [|done..]. destruct Hp as (Hv & Hs1 & Hl1). cbn [obind].
    destruct s1 as [|t1 s1]; [done|]. destruct t1; try done. inversion Hs1. split_and!; [done..|simpl in *; lia].
  - apply Hun. intros. apply bool_i64.
Qed.

Lemma parse_total fuel : total (fuel - 1) (parse fuel).
Proof.
  induction fuel as [|k IH]; intros s Hs Hl; [simpl in Hl; lia|]. cbn [parse]. replace (S k - 1)%nat with k in Hl by lia. destruct ops_keep as (H0 & H1 & H2 & H3 & H4).
  assert (total k (unary (parse k) k)) as Hu by (intros s' Hs' Hl'; eapply unary_total; [exact IH|done|lia|lia]).
  revert s Hs Hl. unfold or_, and_, cmp, addsub, muldiv. by repeat apply level_total.
Qed.

(** Any text has a value, an integer of 64 bits, or an error: evaluation never runs on. *)
Lemma eval_text_total get src : match eval_text get src with Got v rest => is_i64 v ∧ rest = [] | Wrong _ => True | NoFuel => False end.
Proof.
  unfold eval_text. pose proof (tokenize_total get (S (length src)) [] src ltac:(lia) ltac:(constructor)) as H.
  destruct (tokenize _ get [] src) as [ts s'| |]; [|done..]. destruct H as [_ Hts]. pose proof (parse_total (length ts + 3) ts Hts ltac:(lia)) as H.
  destruct (parse _ ts) as [v rest| |]; [|done..]. cbn [obind]. destruct H as (Hv & _). by case_bool_decide.
Qed.
End Arith.
