(* ===== verification/ShellState.v ===== *)
(** * The shell's state ([user_program/src/bin/sh/state.rs])

    Variables, functions, aliases and parameters, the order in which they are
    listed, and the copy that a subshell gets ([clone_for_subshell] of
    [exec.rs]). *)

From Stdlib Require Import String.
From stdpp Require Import sorting.
From S2P Require Import Prelude Text Lexer Parser.
#[local] Set Warnings "-register-all".
Open Scope Z_scope.

Module ShellState.
Import Text.

(** ** Maps in the order of their keys *)

(** [Ord] of strings. *)
Fixpoint str_leb (a b : list Z) : bool :=
  match a, b with
  | [], _ => true
  | _ :: _, [] => false
  | x :: a, y :: b => (x <? y) || ((x =? y) && str_leb a b)
  end.

Definition str_le (a b : list Z) : Prop := str_leb a b = true.
#[global] Instance str_le_dec : RelDecision str_le.
Proof. unfold str_le. solve_decision. Defined.

Definition key_le {A} (p q : list Z * A) : Prop := str_le p.1 q.1.
#[global] Instance key_le_dec {A} : RelDecision (@key_le A).
Proof. unfold key_le. solve_decision. Defined.

(** [iter] of a [BTreeMap]. *)
Definition entries {A} (m : gmap (list Z) A) : list (list Z * A) := merge_sort key_le (map_to_list m).

(** ** Variables *)

Record Var : Type := mkVar { value : list Z; exported : bool; readonly : bool }.

Record State : Type := mkState {
  vars : gmap (list Z) Var;
  funcs : gmap (list Z) Parser.Cmd;
  aliases : gmap (list Z) (list Z);
  params : list (list Z);
  arg0 : list Z;
  last_status : Z;
  last_bg_pid : Z;
  errexit : bool;
  xtrace : bool;
  nounset : bool;
}.

Definition with_vars (f : gmap (list Z) Var → gmap (list Z) Var) (s : State) : State :=
  mkState (f (vars s)) (funcs s) (aliases s) (params s) (arg0 s) (last_status s) (last_bg_pid s) (errexit s) (xtrace s) (nounset s).
Definition with_funcs (f : gmap (list Z) Parser.Cmd → gmap (list Z) Parser.Cmd) (s : State) : State :=
  mkState (vars s) (f (funcs s)) (aliases s) (params s) (arg0 s) (last_status s) (last_bg_pid s) (errexit s) (xtrace s) (nounset s).
Definition with_aliases (f : gmap (list Z) (list Z) → gmap (list Z) (list Z)) (s : State) : State :=
  mkState (vars s) (funcs s) (f (aliases s)) (params s) (arg0 s) (last_status s) (last_bg_pid s) (errexit s) (xtrace s) (nounset s).
Definition with_params (p : list (list Z)) (s : State) : State :=
  mkState (vars s) (funcs s) (aliases s) p (arg0 s) (last_status s) (last_bg_pid s) (errexit s) (xtrace s) (nounset s).
Definition with_status (n : Z) (s : State) : State :=
  mkState (vars s) (funcs s) (aliases s) (params s) (arg0 s) n (last_bg_pid s) (errexit s) (xtrace s) (nounset s).
Definition with_bg_pid (n : Z) (s : State) : State :=
  mkState (vars s) (funcs s) (aliases s) (params s) (arg0 s) (last_status s) n (errexit s) (xtrace s) (nounset s).

Definition default_var (key : list Z) (v : Var) (m : gmap (list Z) Var) : gmap (list Z) Var :=
  match m !! key with Some _ => m | None => <[key := v]> m end.

(** [env] is what [env::vars] gives. *)
Definition from_env (env : list (list Z * list Z)) (arg0 : list Z) (params : list (list Z)) : State :=
  let inherited := foldl (λ m p, <[p.1 := mkVar p.2 true false]> m) ∅ env in
  let vars := default_var (str "PS2") (mkVar (str "> ") false false)
    (default_var (str "PS1") (mkVar (str "$ ") false false)
    (default_var (str "IFS") (mkVar [32; 9; 10] false false)
    (default_var (str "PATH") (mkVar (str "/bin:/usr/bin:/usr/local/bin") true false) inherited))) in
  mkState vars ∅ ∅ params arg0 0 0 false false false.

Definition get (s : State) (name : list Z) : option (list Z) := value <$> vars s !! name.

Definition set (name v : list Z) (s : State) : State :=
  with_vars (λ m, match m !! name with
                  | Some x => if readonly x then m else <[name := mkVar v (exported x) (readonly x)]> m
                  | None => <[name := mkVar v false false]> m
                  end) s.

Definition export (name : list Z) (v : option (list Z)) (s : State) : State :=
  with_vars (λ m,
    let entry := default (mkVar [] false false) (m !! name) in
    let new := match v with Some v => if readonly entry then value entry else v | None => value entry end in
    <[name := mkVar new true (readonly entry)]> m) s.

Definition unset (name : list Z) (s : State) : State :=
  with_vars (λ m, match m !! name with
                  | Some x => if readonly x then m else delete name m
                  | None => delete name m
                  end) s.

Definition exported_pairs (s : State) : list (list Z * list Z) :=
  map (λ p, (p.1, value p.2)) (base.filter (λ p, exported p.2 = true) (entries (vars s))).
Definition all_pairs (s : State) : list (list Z * list Z) := map (λ p, (p.1, value p.2)) (entries (vars s)).

(** ** Parameters *)

Definition positional (s : State) (index : Z) : list Z :=
  if index =? 0 then arg0 s else default [] (params s !! Z.to_nat (index - 1)).

Definition positional_count (s : State) : Z := Z.of_nat (length (params s)).
Definition positionals (s : State) : list (list Z) := params s.
Definition set_positionals (new : list (list Z)) (s : State) : State := with_params new s.
Definition replace_positionals (new : list (list Z)) (s : State) : list (list Z) * State := (params s, with_params new s).

Definition shift (n : nat) (s : State) : bool * State :=
  if (length (params s) <? n)%nat then (false, s) else (true, with_params (drop n (params s)) s).

(** ** Functions and aliases *)

Definition define_function (name : list Z) (body : Parser.Cmd) (s : State) : State := with_funcs <[name := body]> s.
Definition function (s : State) (name : list Z) : option Parser.Cmd := funcs s !! name.
Definition all_functions (s : State) : list (list Z * Parser.Cmd) := entries (funcs s).
Definition undefine_function (name : list Z) (s : State) : State := with_funcs (delete name) s.

Definition alias (s : State) (name : list Z) : option (list Z) := aliases s !! name.
Definition define_alias (name v : list Z) (s : State) : State := with_aliases <[name := v]> s.
Definition undefine_alias (name : list Z) (s : State) : bool * State := (bool_decide (is_Some (aliases s !! name)), with_aliases (delete name) s).
Definition clear_aliases (s : State) : State := with_aliases (λ _, ∅) s.
Definition all_aliases (s : State) : list (list Z * list Z) := entries (aliases s).

(** ** Subshells *)

(** The state of a forked subshell; [env] is what [env::vars] gives in it. *)
Definition clone_for_subshell (env : list (list Z * list Z)) (st : State) : State :=
  let new := from_env env (arg0 st) (positionals st) in
  let new := foldl (λ s p, set p.1 p.2 s) new (all_pairs st) in
  let new := foldl (λ s p, export p.1 None s) new (exported_pairs st) in
  let new := foldl (λ s p, define_function p.1 p.2 s) new (all_functions st) in
  let new := foldl (λ s p, define_alias p.1 p.2 s) new (all_aliases st) in
  mkState (vars new) (funcs new) (aliases new) (params new) (arg0 new) (last_status st) (last_bg_pid st) (errexit st) (xtrace st) (nounset st).

Example entries_1 : map fst (entries (vars (from_env [(str "HOME", str "/"); (str "A", [])] [] []))) = map str ["A"; "HOME"; "IFS"; "PATH"; "PS1"; "PS2"]%string.
Proof. vm_compute. reflexivity. Qed.

(** ** Order *)

Lemma str_leb_total a : ∀ b, str_leb a b = true ∨ str_leb b a = true.
Proof.
  induction a as [|x a IH]; intros [|y b]; cbn; auto. destruct (Z.lt_total x y) as [H|[-> |H]].
  - left. by rewrite (proj2 (Z.ltb_lt _ _)).
  - rewrite Z.eqb_refl, Z.ltb_irrefl. cbn. apply IH.
  - right. by rewrite (proj2 (Z.ltb_lt _ _)).
Qed.

Lemma entries_sorted {A} (m : gmap (list Z) A) : Sorted key_le (entries m).
Proof. apply Sorted_merge_sort. intros p q. apply str_leb_total. Qed.

Lemma entries_perm {A} (m : gmap (list Z) A) : entries m ≡ₚ map_to_list m.
Proof. apply merge_sort_Permutation. Qed.

Lemma elem_of_entries {A} (m : gmap (list Z) A) x a : (x, a) ∈ entries m ↔ m !! x = Some a.
Proof. by rewrite entries_perm, elem_of_map_to_list. Qed.

Lemma entries_nodup {A} (m : gmap (list Z) A) : NoDup (entries m).*1.
Proof. rewrite entries_perm. apply NoDup_fst_map_to_list. Qed.

(** ** The state of a subshell *)

Lemma foldl_insert {A B} (get : A → gmap (list Z) B) (step : A → list Z * B → A) : (∀ s p, get (step s p) = <[p.1 := p.2]> (get s)) →
  ∀ (l : list (list Z * B)) s x, NoDup l.*1 → get (foldl step s l) !! x = match (list_to_map l : gmap (list Z) B) !! x with Some v => Some v | None => get s !! x end.
Proof.
  intros Hstep. induction l as [|[k v] l IH]; intros s x Hn; [done|]. cbn in Hn. apply NoDup_cons in Hn as [Hk Hn]. cbn [foldl list_to_map foldr]. rewrite IH, Hstep by done. cbn [fst snd uncurry].
  destruct (decide (x = k)) as [->|Hx].
  - rewrite not_elem_of_list_to_map_1 by done. by rewrite !lookup_insert_eq.
  - by rewrite !lookup_insert_ne by done.
Qed.

Lemma list_to_map_entries {A} (m : gmap (list Z) A) : list_to_map (entries m) = m.
Proof. rewrite <- (list_to_map_to_list m) at 2. apply list_to_map_proper; [apply entries_nodup|apply entries_perm]. Qed.

Definition writable (s : State) : Prop := ∀ x v, vars s !! x = Some v → readonly v = false.

Lemma set_writable s name v : writable s → writable (set name v s) ∧
  ∀ x, vars (set name v s) !! x = if decide (x = name) then Some (mkVar v (match vars s !! x with Some y => exported y | None => false end) false) else vars s !! x.
Proof.
  intros Hw. assert (∀ x, vars (set name v s) !! x = if decide (x = name) then Some (mkVar v (match vars s !! x with Some y => exported y | None => false end) false) else vars s !! x) as H.
  { intros x. unfold set. cbn [vars with_vars]. destruct (vars s !! name) as [y|] eqn:Ey.
    - rewrite (Hw _ _ Ey). case_decide as Hx; [subst; by rewrite lookup_insert_eq, Ey|by rewrite lookup_insert_ne].
    - case_decide as Hx; [subst; by rewrite lookup_insert_eq, Ey|by rewrite lookup_insert_ne]. }
  split; [|done]. intros x y. rewrite H. case_decide; [by intros [= <-]|apply Hw].
Qed.

Lemma foldl_set l : ∀ s, NoDup l.*1 → writable s → writable (foldl (λ s p, set p.1 p.2 s) s l) ∧
  ∀ x, vars (foldl (λ s p, set p.1 p.2 s) s l) !! x =
    match (list_to_map l : gmap (list Z) (list Z)) !! x with
    | Some v => Some (mkVar v (match vars s !! x with Some y => exported y | None => false end) false)
    | None => vars s !! x
    end.
Proof.
  induction l as [|[k v] l IH]; intros s Hn Hw; [done|]. cbn in Hn. apply NoDup_cons in Hn as [Hk Hn]. cbn [foldl fst snd]. destruct (set_writable s k v Hw) as [Hw' Hs].
  destruct (IH (set k v s) Hn Hw') as [Hw'' H]. split; [done|]. intros x. rewrite H, Hs. cbn [list_to_map foldr uncurry]. case_decide as Hx; [subst x|].
  - by rewrite not_elem_of_list_to_map_1, lookup_insert_eq by done.
  - by rewrite lookup_insert_ne by done.
Qed.

Lemma foldl_export (l : list (list Z * list Z)) : ∀ s, (∀ x, x ∈ l.*1 → is_Some (vars s !! x)) →
  ∀ x, vars (foldl (λ s p, export p.1 None s) s l) !! x = (λ v, mkVar (value v) (exported v || bool_decide (x ∈ l.*1)) (readonly v)) <$> vars s !! x.
Proof.
  induction l as [|[k v] l IH]; intros s Hl x.
  { cbn. destruct (vars s !! x) as [[? e ?]|]; [cbn; by rewrite orb_false_r|done]. }
  cbn [foldl fst]. destruct (Hl k) as [y Hy]; [left|].
  assert (∀ x, vars (export k None s) !! x = if decide (x = k) then Some (mkVar (value y) true (readonly y)) else vars s !! x) as He.
  { intros z. unfold export. cbn [vars with_vars]. rewrite Hy. cbn [default id]. case_decide as Hz; [subst; by rewrite lookup_insert_eq|by rewrite lookup_insert_ne]. }
  rewrite IH.
  - rewrite He. case_decide as Hx; [subst; rewrite Hy; cbn; rewrite (bool_decide_true (k ∈ _)) by left; by rewrite orb_true_r|].
    destruct (vars s !! x) as [w|]; [|done]. cbn. do 3 f_equal. apply bool_decide_ext. set_solver.
  - intros z Hz. rewrite He. case_decide; [done|]. apply Hl. by right.
Qed.

Lemma foldl_frame {A B} (get : State → B) (step : State → A → State) : (∀ s p, get (step s p) = get s) → ∀ l s, get (foldl step s l) = get s.
Proof. intros H. induction l as [|p l IH]; intros s; [done|]. cbn. by rewrite IH, H. Qed.

Lemma pairs_nodup {A B} (f : A → B) (l : list (list Z * A)) : NoDup l.*1 → NoDup (map (λ p, (p.1, f p.2)) l).*1.
Proof. intros H. replace (map _ l).*1 with l.*1; [done|]. induction l as [|p l IH]; [done|]. cbn in *. apply NoDup_cons in H as [_ H]. by rewrite IH. Qed.

Lemma all_pairs_map st : list_to_map (all_pairs st) = value <$> vars st.
Proof.
  unfold all_pairs. rewrite <- (list_to_map_entries (vars st)) at 2. rewrite <- list_to_map_fmap. f_equal.
Qed.

Lemma exported_keys st x : x ∈ (exported_pairs st).*1 ↔ ∃ v, vars st !! x = Some v ∧ exported v = true.
Proof.
  unfold exported_pairs. rewrite list_elem_of_fmap. split.
  - intros (p & -> & Hp). apply list_elem_of_fmap in Hp as ([k v] & -> & Hk). apply list_elem_of_filter in Hk as [He Hk]. apply elem_of_entries in Hk. by exists v.
  - intros (v & Hv & He). exists (x, value v). split; [done|]. apply list_elem_of_fmap. exists (x, v). split; [done|]. apply list_elem_of_filter. split; [done|]. by apply elem_of_entries.
Qed.

Lemma from_env_writable env a p : writable (from_env env a p).
Proof.
  unfold from_env, writable. cbn [vars].
  assert (∀ m k v, (∀ x y, m !! x = Some y → readonly y = false) → readonly v = false → ∀ x y, default_var k v m !! x = Some y → readonly y = false) as Hd.
  { intros m k v Hm Hv x y. unfold default_var. destruct (m !! k); [apply Hm|]. intros [[_ <-]|[_ H]]%lookup_insert_Some; [done|by eapply Hm]. }
  repeat (apply Hd; [|done]). generalize (∅ : gmap (list Z) Var) (λ x y (H : (∅ : gmap (list Z) Var) !! x = Some y), False_ind (readonly y = false) ltac:(by rewrite lookup_empty in H)).
  induction env as [|[k v] env IH]; intros m Hm; [done|]. cbn. apply IH. intros x y [[_ <-]|[_ H]]%lookup_insert_Some; [done|by eapply Hm].
Qed.

(** A subshell starts with the variables, functions, aliases, parameters and flags of its shell. It differs in two ways: no variable is readonly, and a
    variable that the shell has unset but that its process has in the environment is set again. *)
Theorem subshell_state env st :
  let s := clone_for_subshell env st in
  (∀ x, vars s !! x = match vars st !! x with
                      | Some v => Some (mkVar (value v) (exported v || match vars (from_env env (arg0 st) (params st)) !! x with Some y => exported y | None => false end) false)
                      | None => vars (from_env env (arg0 st) (params st)) !! x
                      end) ∧
  funcs s = funcs st ∧ aliases s = aliases st ∧ params s = params st ∧ arg0 s = arg0 st ∧ last_status s = last_status st ∧ last_bg_pid s = last_bg_pid st ∧
  errexit s = errexit st ∧ xtrace s = xtrace st ∧ nounset s = nounset st.
Proof.
  cbv zeta. unfold clone_for_subshell. cbv zeta. cbn [vars funcs aliases params arg0 last_status last_bg_pid errexit xtrace nounset].
  unfold positionals. set (s0 := from_env env (arg0 st) (params st)). set (s1 := foldl (λ s p, set p.1 p.2 s) s0 (all_pairs st)).
  set (s2 := foldl (λ s p, export p.1 None s) s1 (exported_pairs st)). set (s3 := foldl (λ s p, define_function p.1 p.2 s) s2 (all_functions st)).
  assert (NoDup (all_pairs st).*1) as Hn by (apply pairs_nodup, entries_nodup).
  destruct (foldl_set (all_pairs st) s0 Hn (from_env_writable _ _ _)) as [Hw H1]. fold s1 in Hw, H1. rewrite all_pairs_map in H1.
  split_and!; try done.
  - intros x. rewrite (foldl_frame vars) by done. unfold s3. rewrite (foldl_frame vars) by done. unfold s2. rewrite foldl_export.
    + rewrite H1, lookup_fmap. destruct (vars st !! x) as [v|] eqn:Ev; cbn [fmap option_fmap option_map].
      * cbn. f_equal. f_equal. rewrite orb_comm. f_equal. destruct (exported v) eqn:Ee; [apply bool_decide_true, exported_keys; eauto|].
        apply bool_decide_false. intros (y & Hy & He)%exported_keys. congruence.
      * destruct (vars s0 !! x) as [y|] eqn:Ey; [|done]. cbn. rewrite bool_decide_false by (intros (z & Hz & _)%exported_keys; congruence).
        rewrite orb_false_r. pose proof (from_env_writable env (arg0 st) (params st) x y Ey). destruct y. cbn in *. congruence.
    + intros z (v & Hv & _)%exported_keys. rewrite H1, lookup_fmap, Hv. eauto.
  - rewrite (foldl_frame funcs) by done. apply map_eq. intros x. unfold s3. rewrite (foldl_insert funcs) by (done || apply entries_nodup).
    unfold all_functions. rewrite list_to_map_entries. destruct (funcs st !! x) eqn:Ef; [done|]. unfold s2, s1. by rewrite (foldl_frame funcs), (foldl_frame funcs) by done.
  - apply map_eq. intros x. rewrite (foldl_insert aliases) by (done || apply entries_nodup).
    unfold all_aliases. rewrite list_to_map_entries. destruct (aliases st !! x) eqn:Ef; [done|]. unfold s3, s2, s1. by rewrite !(foldl_frame aliases) by done.
  - unfold s3, s2, s1. by rewrite !(foldl_frame params) by done.
  - unfold s3, s2, s1. by rewrite !(foldl_frame arg0) by done.
Qed.
End ShellState.
