(* ===== verification/Nesting.v ===== *)
(** * Nesting of arithmetic expansions

    The text of an arithmetic expansion is lexed again when it is expanded.  Each
    level of this nesting takes a dollar sign of the text, which bounds it. *)

From S2P Require Import Prelude Text Lexer.
Open Scope Z_scope.

Module Nesting.
Import Text Lexer.

Fixpoint dollars (s : list Z) : nat :=
  match s with
  | [] => 0
  | c :: s => if c =? 36 then S (dollars s) else dollars s
  end.

Lemma dollars_app s t : dollars (s ++ t) = (dollars s + dollars t)%nat.
Proof. induction s as [|c s IH]; [done|]. cbn. destruct (c =? 36); lia. Qed.

Lemma dollars_cons c s : (dollars s <= dollars (c :: s) <= S (dollars s))%nat.
Proof. cbn. destruct (c =? 36); lia. Qed.

Lemma dollars_tail s : (dollars (drop 1 s) <= dollars s)%nat.
Proof. destruct s as [|c s]; [done|]. rewrite drop_one. pose proof (dollars_cons c s). lia. Qed.

(** How deep the arithmetic in a segment can be nested, at most. *)
Fixpoint need (g : Seg) : nat :=
  match g with
  | DQuoted l => foldr (λ g n, Nat.max (need g) n) 0%nat l
  | Param _ _ (Some l) _ => foldr (λ g n, Nat.max (need g) n) 0%nat l
  | Arith src => S (dollars src)
  | _ => 0
  end.

Definition needs (l : Word) : nat := foldr (λ g n, Nat.max (need g) n) 0%nat l.

Lemma needs_app a b : needs (a ++ b) = Nat.max (needs a) (needs b).
Proof. unfold needs. induction a as [|g a IH]; [done|]. cbn. rewrite IH. lia. Qed.

Lemma needs_flush segs lit : needs (flush segs lit) = needs segs.
Proof. destruct lit; [done|]. cbn [flush]. rewrite needs_app. cbn. lia. Qed.

Lemma needs_snoc segs lit g d : (needs segs <= d)%nat → (need g <= d)%nat → (needs (flush segs lit ++ [g]) <= d)%nat.
Proof. intros Hs Hg. rewrite needs_app, needs_flush. cbn. lia. Qed.

(** A result with a need of [d] at most that leaves [d] dollar signs at most. *)
Definition within {A} (nd : A → nat) (d : nat) (o : Lx A) : Prop :=
  match o with Got a s => (nd a <= d)%nat ∧ (dollars s <= d)%nat | _ => True end.

Definition zero {A} : A → nat := λ _, 0%nat.

Lemma within_bind {A B} (nd : A → nat) (nd' : B → nat) d d' (o : Lx A) (k : A → list Z → Lx B) :
  within nd d o → (∀ a s, (nd a <= d)%nat → (dollars s <= d)%nat → within nd' d' (k a s)) → within nd' d' (let* a, s := o in k a s).
Proof. destruct o; simpl; [|done..]. intros [? ?] Hk. by apply Hk. Qed.

Lemma within_single_quoted d s : ∀ out, (dollars s <= d)%nat → within zero d (read_single_quoted out s).
Proof.
  induction s as [|c s IH]; intros out Hd; [done|]. pose proof (dollars_cons c s). cbn [read_single_quoted].
  destruct (c =? 39); [split; unfold zero; lia|apply IH; lia].
Qed.

Lemma within_backtick d : ∀ m s out, (length s <= m)%nat → (dollars s <= d)%nat → within zero d (read_backtick out s).
Proof.
  induction m as [|m IH]; intros [|c s] out Hm Hd; simpl length in *; try done; [lia|]. pose proof (dollars_cons c s). cbn [read_backtick].
  destruct (c =? 96); [split; unfold zero; lia|]. destruct (c =? 92); [|apply IH; lia]. destruct s as [|e s]; [done|]. pose proof (dollars_cons e s). simpl length in *.
  destruct (_ || _); apply IH; lia.
Qed.

Lemma copy_single_dollars s : ∀ out, (dollars (copy_single out s).1 + dollars (copy_single out s).2 = dollars out + dollars s)%nat.
Proof.
  induction s as [|c s IH]; intros out; [done|]. cbn [copy_single]. assert (dollars (out ++ [c]) + dollars s = dollars out + dollars (c :: s))%nat as Hc
    by (rewrite dollars_app; cbn; destruct (c =? 36); lia). destruct (c =? 39); [done|]. by rewrite IH.
Qed.

Lemma copy_double_dollars : ∀ n s out, (length s <= n)%nat → (dollars (copy_double out s).1 + dollars (copy_double out s).2 = dollars out + dollars s)%nat.
Proof.
  assert (∀ c s out, dollars (out ++ [c]) + dollars s = dollars out + dollars (c :: s))%nat as Hc by (intros; rewrite dollars_app; cbn; destruct (_ =? 36); lia).
  induction n as [|n IH]; intros [|c s] out Hn; simpl length in *; try done; [lia|]. cbn [copy_double]. destruct (Z.eqb_spec c 92) as [->|_].
  - destruct s as [|m s]; [by rewrite <- Hc|]. simpl length in Hn. rewrite IH by lia. rewrite (dollars_app out). cbn. destruct (m =? 36); lia.
  - destruct (c =? 34); [apply Hc|]. by rewrite IH by lia.
Qed.

(** What is copied is no more than what is consumed. *)
Lemma balanced_dollars fuel : ∀ b depth out s,
  match read_balanced fuel b depth out s with Got o s' => (dollars o + dollars s' <= dollars out + dollars s)%nat | _ => True end.
Proof.
  induction fuel as [|fuel IH]; intros b depth out s; [done|]. cbn [read_balanced]. cbv zeta. destruct s as [|c s']; [done|].
  assert (∀ b d o s1 n, dollars o + dollars s1 <= n → match read_balanced fuel b d o s1 with Got o s' => dollars o + dollars s' <= n | _ => True end)%nat as Hle.
  { intros b1 d o s1 n Hn. specialize (IH b1 d o s1). destruct (read_balanced fuel b1 d o s1); [lia|done..]. }
  assert (∀ l, dollars (l ++ [c]) + dollars s' = dollars l + dollars (c :: s'))%nat as Hc by (intros; rewrite dollars_app; cbn; destruct (_ =? 36); lia).
  pose proof (dollars_cons c s'). pose proof (dollars_tail s').
  destruct (Z.eqb_spec c 39) as [->|_]. { pose proof (copy_single_dollars s' (out ++ [39])). rewrite Hc in *. destruct (copy_single _ s'). simpl in *. apply Hle. lia. }
  destruct (Z.eqb_spec c 34) as [->|_]. { pose proof (copy_double_dollars _ s' (out ++ [34]) (Nat.le_refl _)). rewrite Hc in *. destruct (copy_double _ s'). simpl in *. apply Hle. lia. }
  destruct (Z.eqb_spec c 92) as [->|_].
  { destruct s' as [|m s1]; apply Hle; rewrite dollars_app; cbn; [lia|]. destruct (m =? 36); lia. }
  destruct b.
  - destruct ((c =? 36) && _) eqn:E36.
    { apply andb_true_iff in E36 as [->%Z.eqb_eq Hh%bool_decide_eq_true]. pose proof (dollars_tail (drop 1 s')). cbn [dollars Z.eqb Pos.eqb] in *.
      destruct (bool_decide (head (drop 1 s') = Some 40)).
      - pose proof (IH true 1 [] (drop 1 (drop 1 s'))) as Hi. destruct (read_balanced fuel true 1 [] _) as [inner s2| |]; [|done..]. cbn [obind]. cbn in Hi.
        apply Hle. rewrite !dollars_app. cbn. lia.
      - pose proof (IH false 1 [] (drop 1 s')) as Hi. destruct (read_balanced fuel false 1 [] _) as [inner s2| |]; [|done..]. cbn [obind]. cbn in Hi.
        apply Hle. rewrite !dollars_app. cbn. lia. }
    clear E36. set (n := dollars (c :: s')) in *. clearbody n. destruct (_ && _); [apply Hle; rewrite dollars_app; cbn; lia|]. destruct (_ && _); [|apply Hle; rewrite Hc; lia].
    destruct (_ =? 0); [lia|apply Hle; rewrite dollars_app; cbn; lia].
  - destruct (c =? 40); [apply Hle; rewrite Hc; lia|]. destruct (c =? 41); [|apply Hle; rewrite Hc; lia]. destruct (_ =? 0); [lia|apply Hle; rewrite Hc; lia].
Qed.

Lemma split_while_dollars p l : (dollars (split_while p l).2 <= dollars l)%nat.
Proof.
  induction l as [|x l IH]; [done|]. cbn [split_while]. pose proof (dollars_cons x l). destruct (p x); [|done]. destruct (split_while p l). simpl in *. destruct (x =? 36); lia.
Qed.

Lemma within_param_name d s : (dollars s <= d)%nat → within zero d (read_param_name s).
Proof.
  intros Hd. unfold read_param_name. set (r := match s with c :: s' => _ | [] => _ end). assert (dollars r.2 <= d)%nat as Hr.
  { unfold r. destruct s as [|c s']; [done|]. pose proof (dollars_cons c s'). destruct (_ && _); simpl in *; lia. }
  destruct r as [b [|c s']]; [done|]. cbn [snd] in Hr. pose proof (dollars_cons c s'). destruct (is_special c); [split; unfold zero; lia|].
  destruct (is_name_start c); [|done]. unfold read_name. pose proof (split_while_dollars is_name_cont (c :: s')). destruct (split_while is_name_cont _). simpl in *. split; unfold zero; lia.
Qed.

Lemma within_param_op d s : (dollars s <= d)%nat → within zero d (read_param_op s).
Proof.
  intros Hd. unfold read_param_op. destruct s as [|c s]; [done|]. pose proof (dollars_cons c s). destruct s as [|e s].
  - repeat case_match; try done; split; unfold zero; simpl in *; lia.
  - pose proof (dollars_cons e s). repeat case_match; try done; split; unfold zero; lia.
Qed.

Lemma within_quoted fuel :
  (∀ segs lit s d, (needs segs <= d)%nat → (dollars s <= d)%nat → within needs d (read_double_quoted fuel segs lit s)) ∧
  (∀ s d, (dollars (36%Z :: s) <= d)%nat → within need d (read_dollar fuel (36 :: s))) ∧
  (∀ s d, (dollars s <= d)%nat → within need d (read_brace_param fuel s)) ∧
  (∀ depth segs lit s d, (needs segs <= d)%nat → (dollars s <= d)%nat → within needs d (read_until_brace fuel depth segs lit s)).
Proof.
  induction fuel as [|fuel (IHd & IHs & IHp & IHb)]; [done|]. split_and!.
  - intros segs lit s d Hn Hd. cbn [read_double_quoted]. destruct s as [|c s']; [done|]. pose proof (dollars_cons c s').
    destruct (c =? 34); [split; [by rewrite needs_flush|lia]|]. destruct (c =? 92).
    { destruct s' as [|e s']; [done|]. pose proof (dollars_cons e s'). destruct (e =? 10); [apply IHd; lia|]. destruct (_ || _); apply IHd; lia. }
    destruct (c =? 96). { eapply within_bind; [apply (within_backtick d (length s')); lia|]. intros a s Ha Hs. apply IHd; [apply needs_snoc; cbn; lia|done]. }
    destruct (Z.eqb_spec c 36) as [->|_]; [|apply IHd; lia]. eapply within_bind; [by apply IHs|]. intros a s Ha Hs. apply IHd; [by apply needs_snoc|done].
  - intros s d Hd. cbn [read_dollar]. rewrite drop_one. cbv zeta. cbn [dollars Z.eqb Pos.eqb] in Hd. destruct s as [|c s']; [split; cbn in *; lia|].
    pose proof (dollars_cons c s'). pose proof (dollars_tail s').
    destruct (c =? 40).
    { destruct (bool_decide (head s' = Some 40)).
      - pose proof (balanced_dollars fuel true 1 [] (drop 1 s')) as Hb. destruct (read_balanced fuel true 1 [] _) as [body s2| |]; [|done..]. cbn in *. lia.
      - pose proof (balanced_dollars fuel false 1 [] s') as Hb. destruct (read_balanced fuel false 1 [] _) as [body s2| |]; [|done..]. cbn in *. lia. }
    destruct (c =? 123); [apply IHp; lia|]. destruct (is_special c); [split; cbn; lia|]. destruct (is_name_start c); [|split; cbn [need]; lia].
    unfold read_name. pose proof (split_while_dollars is_name_cont (c :: s')). destruct (split_while _ _). simpl in *. lia.
  - intros s d Hd. cbn [read_brace_param]. eapply within_bind; [by apply within_param_name|]. intros [name len] s1 _ H1.
    eapply within_bind; [by apply within_param_op|]. intros [op|] s2 _ H2; [|pose proof (dollars_tail s2); split; cbn [need]; lia].
    eapply within_bind; [apply (IHb 1 [] [] s2 d); [cbn; lia|done]|]. intros a s3 Ha H3. pose proof (dollars_tail s3).
    destruct (bool_decide (head s3 = Some 125)); [|done]. split; [exact Ha|lia].
  - intros depth segs lit s d Hn Hd. cbn [read_until_brace]. destruct s as [|c s']; [done|]. pose proof (dollars_cons c s').
    destruct (c =? 125). { destruct (_ =? 0); [split; [by rewrite needs_flush|done]|apply IHb; lia]. }
    destruct (c =? 123); [apply IHb; lia|]. destruct (c =? 92). { destruct s' as [|e s']; [apply IHb; cbn; lia|]. pose proof (dollars_cons e s'). apply IHb; lia. }
    destruct (c =? 39). { eapply within_bind; [apply (within_single_quoted d); lia|]. intros a s _ Hs. apply IHb; [apply needs_snoc; cbn; lia|done]. }
    destruct (c =? 34). { eapply within_bind; [apply (IHd [] [] s' d); [cbn; lia|lia]|]. intros a s Ha Hs. apply IHb; [by apply needs_snoc|done]. }
    destruct (Z.eqb_spec c 36) as [->|_]. { eapply within_bind; [by apply IHs|]. intros a s Ha Hs. apply IHb; [by apply needs_snoc|done]. }
    destruct (c =? 96); [|apply IHb; lia]. eapply within_bind; [apply (within_backtick d (length s')); lia|]. intros a s _ Hs. apply IHb; [apply needs_snoc; cbn; lia|done].
Qed.

Lemma within_word_loop fuel : ∀ b segs lit s d, (needs segs <= d)%nat → (dollars s <= d)%nat → within needs d (read_word_loop fuel b segs lit s).
Proof.
  induction fuel as [|fuel IH]; intros b segs lit s d Hn Hd; [done|]. cbn [read_word_loop]. destruct s as [|c s']; [split; [by rewrite needs_flush|cbn; lia]|].
  pose proof (dollars_cons c s'). destruct (is_stop c); [split; [by rewrite needs_flush|lia]|]. destruct (_ && _); [split; [by rewrite needs_flush|lia]|].
  destruct (within_quoted fuel) as (Hq & Hs & _).
  destruct (c =? 92). { destruct s' as [|e s']; [done|]. pose proof (dollars_cons e s'). destruct (e =? 10); [apply IH; lia|]. destruct (is_glob e); apply IH; lia. }
  destruct (c =? 39). { eapply within_bind; [apply (within_single_quoted d); lia|]. intros a s1 _ H1. apply IH; [apply needs_snoc; cbn; lia|done]. }
  destruct (c =? 34). { eapply within_bind; [apply (Hq [] [] s' d); [cbn; lia|lia]|]. intros a s1 Ha H1. apply IH; [by apply needs_snoc|done]. }
  destruct (c =? 96). { eapply within_bind; [apply (within_backtick d (length s')); lia|]. intros a s1 _ H1. apply IH; [apply needs_snoc; cbn; lia|done]. }
  destruct (Z.eqb_spec c 36) as [->|_]; [|apply IH; lia]. eapply within_bind; [by apply Hs|]. intros a s1 Ha H1. apply IH; [by apply needs_snoc|done].
Qed.

Lemma skip_comment_dollars s : (dollars (skip_comment s) <= dollars s)%nat.
Proof. induction s as [|c s IH]; [done|]. pose proof (dollars_cons c s). cbn [skip_comment]. destruct (c =? 10); lia. Qed.

Lemma skip_blanks_dollars fuel : ∀ s, (dollars (skip_blanks fuel s) <= dollars s)%nat.
Proof.
  induction fuel as [|fuel IH]; intros s; [done|]. cbn [skip_blanks]. destruct s as [|c s]; [done|]. pose proof (dollars_cons c s).
  destruct (_ || _); [specialize (IH s); lia|]. destruct (c =? 92).
  - destruct s as [|e s]; [lia|]. pose proof (dollars_cons e s). destruct (e =? 10); [specialize (IH s); lia|lia].
  - destruct (c =? 35); [|lia]. specialize (IH (skip_comment s)). pose proof (skip_comment_dollars s). lia.
Qed.

(** A word needs no more than there are dollar signs in the text. *)
Lemma next_token_needs s w s' : next_token s = Got (TWord w) s' → (needs w <= dollars s)%nat.
Proof.
  unfold next_token, skip_blanks_and_comments. pose proof (skip_blanks_dollars (length s) s). destruct (skip_blanks (length s) s) as [|c r] eqn:Es; [done|].
  destruct (operator (c :: r)) as [[t s1]|] eqn:Eo.
  { intros [= -> ->]. exfalso. unfold operator in Eo. repeat case_match; simplify_eq. }
  assert (within needs (dollars (c :: r)) (read_word (length (c :: r) + 2) (c :: r))) as Hw.
  { unfold read_word. pose proof (dollars_cons c r). destruct (c =? 126); [|apply within_word_loop; cbn; lia].
    unfold read_name. pose proof (split_while_dollars is_tilde_name r). destruct (split_while _ r). simpl snd in *. apply within_word_loop; cbn in *; lia. }
  destruct (read_word _ _) as [w1 s1| |]; [|done..]. destruct Hw as [Hw _]. cbn [obind]. destruct (io_number _ _ _); [done|]. intros [= -> _]. lia.
Qed.

(** The bytes of a text have its dollar signs. *)
Lemma dollars_as_bytes s : (dollars (as_bytes s) <= dollars s)%nat.
Proof.
  induction s as [|c s IH]; [done|]. cbn [as_bytes flat_map dollars]. fold (as_bytes s). rewrite dollars_app.
  assert (dollars (encode_char c) <= if (c =? 36)%Z then 1 else 0)%nat; [|destruct (c =? 36); lia]. unfold encode_char.
  destruct (Z.ltb_spec c 128); [cbn; by destruct (c =? 36)|]. rewrite (proj2 (Z.eqb_neq c 36)) by lia.
  assert (∀ b, b ≠ 36 → (b =? 36) = false) as Hb by (intros; by apply Z.eqb_neq).
  repeat case_match; cbn [dollars]; rewrite !Hb; try done; Z.to_euclidean_division_equations; lia.
Qed.
End Nesting.
