(* ===== verification/Expand.v ===== *)
(** * The shell's word expansion ([user_program/src/bin/sh/expand.rs])

    Segments become bytes with a quoted flag; these are split into fields, and
    fields that are patterns into path names.  Command substitution is an argument
    of the definitions, which the executor supplies. *)

From Stdlib Require Import String.
From stdpp Require Import sorting.
From S2P Require Import Prelude Text Lexer Parser Glob Arith ShellState Nesting.
#[local] Set Warnings "-register-all".
Open Scope Z_scope.

(** ** Computations of the shell

    A computation works on the shell's state and the world: it gives a value or
    an error, and what it leaves, also when it fails.  [Out] is a run that was cut
    off. *)

Module Sh.

Inductive Result (E A : Type) : Type :=
| Done (a : A)
| Failed (e : E)
| Out.
Arguments Done {E A} a.
Arguments Failed {E A} e.
Arguments Out {E A}.

Section monad.
Context {S E : Type}.

Definition X (A : Type) : Type := S → Result E A * S.

Definition ret {A} (a : A) : X A := λ s, (Done a, s).
Definition fail {A} (e : E) : X A := λ s, (Failed e, s).
Definition out {A} : X A := λ s, (Out, s).
Definition bind {A B} (m : X A) (k : A → X B) : X B := λ s,
  match m s with
  | (Done a, s) => k a s
  | (Failed e, s) => (Failed e, s)
  | (Out, s) => (Out, s)
  end.
Definition gets {A} (f : S → A) : X A := λ s, (Done (f s), s).
Definition modify (f : S → S) : X () := λ s, (Done (), f s).
End monad.
Arguments X S E A : clear implicits.

Declare Scope sh_scope.
Notation "'do' x '<-' m ';' k" := (bind m (λ x, k)) (at level 90, x pattern at level 0, m at level 89, k at level 90) : sh_scope.
Open Scope sh_scope.
End Sh.

Module Expand.
Import Text Sh.
Import Lexer (Seg, Word, Lit, SQuoted, DQuoted, Param, CmdSub, Tilde, ParamOp, DashUnset, DashNull, EqUnset, EqNull, PlusUnset, PlusNull, QmarkUnset, QmarkNull, LexError, msg).
Import ShellState.

(** The file system, as far as expansion looks at it: a call that fails is
    [false] or [None], and entries that cannot be read are left out. *)
Class Host (W : Type) : Type := {
  process_id : W → Z;
  metadata_is_dir : W → list Z → bool;
  read_dir : W → list Z → option (list (list Z));
}.

(** An error that the code reports, or a parser that did not end. *)
Inductive ExpandError : Type := Message (m : list Z) | ParserRuns.

Record Tag : Type := mkTag { byte : Z; quoted : bool }.

Definition push_str (s : list Z) (q : bool) : list Tag := map (λ b, mkTag b q) (as_bytes s).

(** [byte as char] of every byte. *)
Definition tag_chars (l : list Tag) : list Z := map byte l.

(** ** Fields *)

Definition is_ascii_whitespace (b : Z) : bool := bool_decide (b ∈ [32; 9; 10; 12; 13]).
Definition is_meta (b : Z) : bool := (b =? 42) || (b =? 63) || (b =? 91).

(** The escape that protects a quoted byte from pathname expansion. *)
Definition render (t : Tag) : list Z := if quoted t && (is_meta (byte t) || (byte t =? 92)) then [92; byte t] else [byte t].

(** One turn of the loop takes a byte, or a run of separating blanks. *)
Fixpoint split_loop (fuel : nat) (is_ws is_nonws : Z → bool) (fields : list (list Z)) (current : list Z) (have_field : bool) (l : list Tag) : list (list Z) :=
  match fuel with
  | O => fields
  | S fuel =>
      match l with
      | [] => if have_field then fields ++ [current] else fields
      | t :: l =>
          if (byte t =? 1) && negb (quoted t) then
            if have_field then split_loop fuel is_ws is_nonws (fields ++ [current]) [] false l
            else split_loop fuel is_ws is_nonws fields current have_field l
          else if negb (quoted t) && is_ws (byte t) then
            let l := drop_while (λ t, negb (quoted t) && is_ws (byte t)) l in
            if have_field then split_loop fuel is_ws is_nonws (fields ++ [current]) [] false l
            else split_loop fuel is_ws is_nonws fields current have_field l
          else if negb (quoted t) && is_nonws (byte t) then split_loop fuel is_ws is_nonws (fields ++ [current]) [] false l
          else split_loop fuel is_ws is_nonws fields (current ++ render t) true l
      end
  end.

Definition split_fields (tagged : list Tag) (ifs : list Z) : list (list Z) :=
  match tagged with
  | [] => []
  | _ =>
      let ws_ifs := base.filter (λ b, is_ascii_whitespace b = true) (as_bytes ifs) in
      let non_ws_ifs := base.filter (λ b, is_ascii_whitespace b = false) (as_bytes ifs) in
      let fields := split_loop (S (length tagged)) (λ b, bool_decide (b ∈ ws_ifs)) (λ b, bool_decide (b ∈ non_ws_ifs)) [] [] false tagged in
      if bool_decide (fields = []) && existsb quoted tagged then [[]] else fields
  end.

(** ** Pathname expansion *)

Fixpoint has_unescaped_meta (s : list Z) : bool :=
  match s with
  | [] => false
  | b :: s' =>
      if b =? 92 then match s' with _ :: s'' => has_unescaped_meta s'' | [] => false end
      else is_meta b || has_unescaped_meta s'
  end.

Fixpoint unescape (s : list Z) : list Z :=
  match s with
  | [] => []
  | b :: s' =>
      match s' with
      | c :: s'' => if (b =? 92) && (is_meta c || (c =? 92)) then c :: unescape s'' else b :: unescape s'
      | [] => [b]
      end
  end.

(** A string of bytes that were pushed one by one. *)
Definition unescape_globs (field : list Z) : list Z := unescape (as_bytes field).

Definition ends_with (c : Z) (s : list Z) : bool := bool_decide (last s = Some c).
Definition starts_with (c : Z) (s : list Z) : bool := bool_decide (head s = Some c).

Definition join (base name : list Z) : list Z :=
  if bool_decide (base = []) then name
  else if bool_decide (base = [47]) then 47 :: name
  else if ends_with 47 base then base ++ name
  else base ++ 47 :: name.

Section host.
Context {W : Type} `{Host W}.

Definition glob_entries (w : W) (dir part : list Z) : option (list (list Z)) :=
  match read_dir w dir with
  | None => None
  | Some names =>
      let names := base.filter (λ name, (starts_with 46 name && negb (starts_with 46 part)) = false ∧
                                        Glob.fnmatch (as_bytes part) (as_bytes name) 0 = true) names in
      Some (merge_sort str_le names)
  end.

(** The matches of one part below one directory. *)
Definition glob_part (w : W) (is_last : bool) (part base : list Z) : list (list Z) :=
  let keep name := let joined := join base name in
                   if is_last || metadata_is_dir w joined then [joined] else [] in
  let dir := if bool_decide (base = []) then str "." else base in
  if negb (existsb is_meta (as_bytes part)) then keep part
  else match glob_entries w dir part with
       | None => []
       | Some names => flat_map keep names
       end.

Fixpoint glob_walk (w : W) (parts : list (list Z)) (current : list (list Z)) : list (list Z) :=
  match parts with
  | [] => current
  | part :: parts =>
      let next := flat_map (glob_part w (bool_decide (parts = [])) part) current in
      if bool_decide (next = []) then [] else glob_walk w parts next
  end.

Definition match_glob (w : W) (pattern : list Z) : list (list Z) :=
  let parts := base.filter (λ p, p ≠ []) (split_on 47 pattern) in
  glob_walk w parts (if starts_with 47 pattern then [[47]] else [[]]).

Definition glob_expand (w : W) (field : list Z) : list (list Z) :=
  if negb (has_unescaped_meta (as_bytes field)) then [unescape_globs field]
  else match match_glob w field with
       | [] => [unescape_globs field]
       | matches => matches
       end.

(** ** Parameters *)

Definition Xp (A : Type) : Type := X (State * W) ExpandError A.

Definition mget : Xp State := gets fst.

Fixpoint concat_with (sep : list Z) (l : list (list Z)) : list Z :=
  match l with
  | [] => []
  | [x] => x
  | x :: l => x ++ sep ++ concat_with sep l
  end.

(** A usize has 32 bits. *)
Definition lookup_param (name : list Z) (st : State) (w : W) : option (list Z) :=
  let named n := bool_decide (name = str n) in
  if named "?"%string then Some (to_decimal (last_status st))
  else if named "$"%string then Some (to_decimal (process_id w))
  else if named "!"%string then Some (to_decimal (last_bg_pid st))
  else if named "#"%string then Some (to_decimal (positional_count st))
  else if named "@"%string || named "*"%string then Some (concat_with [32] (positionals st))
  else if forallb is_digit name && negb (bool_decide (name = [])) then Some (positional st (default 0 (parse_digits 32 10 0 name)))
  else ShellState.get st name.

Definition is_null (v : option (list Z)) : bool := match v with None => true | Some s => bool_decide (s = []) end.

(** [arg] is the expansion of the operator's word. *)
Definition apply_param_op (op : ParamOp) (name : list Z) (v : option (list Z)) (arg : Xp (list Z)) : Xp (list Z) :=
  let '(use_default, assign, error_on_miss, invert) :=
    match op with
    | DashUnset => (negb (bool_decide (is_Some v)), false, false, false)
    | DashNull => (is_null v, false, false, false)
    | EqUnset => (negb (bool_decide (is_Some v)), true, false, false)
    | EqNull => (is_null v, true, false, false)
    | PlusUnset => (negb (bool_decide (is_Some v)), false, false, true)
    | PlusNull => (is_null v, false, false, true)
    | QmarkUnset => (negb (bool_decide (is_Some v)), false, true, false)
    | QmarkNull => (is_null v, false, true, false)
    end in
  if (invert : bool) then if negb use_default then arg else ret []
  else if (use_default : bool) then
    do new <- arg;
    if (error_on_miss : bool) then
      fail (Message (if bool_decide (new = []) then name ++ str ": parameter null or not set" else name ++ str ": " ++ new))
    else
      do _ <- (if (assign : bool) then modify (λ s, (set name new s.1, s.2)) else ret ());
      ret new
  else ret (default [] v).

(** ** Segments *)

(** The parameters of ["$@"], with the byte that separates fields between them. *)
Fixpoint at_fields (params : list (list Z)) : list Tag :=
  match params with
  | [] => []
  | [p] => push_str p true
  | p :: params => push_str p true ++ mkTag 1 false :: at_fields params
  end.

Section seg.
(** Command substitution and the value of an arithmetic expression. *)
Context (substitute : list Z → Xp (list Z)) (arith : list Z → Xp Z).

Fixpoint expand_seg (q word_start : bool) (g : Seg) : Xp (list Tag) :=
  match g with
  | Lit s => ret (push_str s q)
  | SQuoted s => ret (push_str s true)
  | DQuoted inner =>
      (fix go (l : list Seg) : Xp (list Tag) :=
         match l with
         | [] => ret []
         | g :: l => do a <- expand_seg true false g; do b <- go l; ret (a ++ b)
         end) inner
  | Tilde name =>
      if negb word_start then ret (push_str (126 :: name) q)
      else if bool_decide (name = []) then do st <- mget; ret (push_str (default [] (ShellState.get st (str "HOME"))) q)
      else ret (push_str (126 :: name) q)
  | Param name op arg length =>
      do v <- gets (λ s, lookup_param name s.1 s.2);
      do expanded <- (match op, arg with
                      | Some op, Some word =>
                          apply_param_op op name v
                            ((fix go (first : bool) (l : list Seg) : Xp (list Z) :=
                                match l with
                                | [] => ret []
                                | g :: l => do a <- expand_seg false first g; do b <- go false l; ret (tag_chars a ++ b)
                                end) true word)
                      | _, _ => ret (default [] v)
                      end);
      if (length : bool) then ret (push_str (to_decimal (Z.of_nat (List.length expanded))) q)
      else if bool_decide (name = [64]) && q then do st <- mget; ret (at_fields (positionals st))
      else ret (push_str expanded q)
  | CmdSub src => do captured <- substitute src; ret (push_str captured q)
  | Lexer.Arith src => do v <- arith src; ret (push_str (to_decimal v) q)
  end.

(** [expand_to_tagged] with [parent_quoted] false, as it is always called. *)
Fixpoint expand_segs (first : bool) (l : list Seg) : Xp (list Tag) :=
  match l with
  | [] => ret []
  | g :: l => do a <- expand_seg false first g; do b <- expand_segs false l; ret (a ++ b)
  end.

Definition expand_to_tagged (word : Word) : Xp (list Tag) := expand_segs true word.

Definition expand_word_unsplit (word : Word) : Xp (list Z) :=
  do tagged <- expand_to_tagged word; ret (tag_chars tagged).

Definition expand_assignment_value (word : Word) : Xp (list Z) := expand_word_unsplit word.

Definition expand_word (word : Word) : Xp (list (list Z)) :=
  do tagged <- expand_to_tagged word;
  do (st, w) <- gets id;
  ret (flat_map (glob_expand w) (split_fields tagged (default [32; 9; 10] (ShellState.get st (str "IFS"))))).
End seg.

(** ** Substitutions *)

Section substitution.
(** [capture_subshell], and the turns that the parser has. *)
Context (capture : Parser.Cmd → State → W → option (list Z) * W) (turns : nat).

Definition strip_newlines (s : list Z) : list Z := reverse (drop_while (λ c, c =? 10) (reverse s)).

Definition run_command_substitution (src : list Z) : Xp (list Z) :=
  match Parser.parse turns (as_bytes src) with
  | Lexer.Got cmd _ => λ '(st, w), let '(captured, w) := capture cmd st w in (Done (strip_newlines (default [] captured)), (st, w))
  | Lexer.Wrong e => fail (Message (msg e))
  | Lexer.NoFuel => fail ParserRuns
  end.

(** The text as a double-quoted word. *)
Definition arith_word (src : list Z) : list Z := 34 :: flat_map (λ c, if c =? 34 then [92; 34] else [c]) src ++ [34].

(** One unit of fuel per level of nesting. *)
Fixpoint eval_arith (fuel : nat) (src : list Z) : Xp Z :=
  match fuel with
  | O => out
  | S fuel =>
      do expanded <- (match Lexer.next_token (as_bytes (arith_word src)) with
                      | Lexer.Got (Lexer.TWord w) _ => expand_word_unsplit run_command_substitution (eval_arith fuel) w
                      | Lexer.Got _ _ => ret src
                      | Lexer.Wrong e => fail (Message (msg e))
                      | Lexer.NoFuel => out
                      end);
      do st <- mget;
      match Arith.eval_text (ShellState.get st) (as_bytes expanded) with
      | Lexer.Got v _ => ret v
      | Lexer.Wrong e => fail (Message e)
      | Lexer.NoFuel => out
      end
  end.

Definition expand (fuel : nat) (word : Word) : Xp (list (list Z)) := expand_word run_command_substitution (eval_arith fuel) word.
Definition expand_unsplit (fuel : nat) (word : Word) : Xp (list Z) := expand_word_unsplit run_command_substitution (eval_arith fuel) word.
End substitution.
End host.

(** ** Examples *)

(** A world of three files; a substitution gives nothing. *)
#[local] Instance three_files : Host () := {|
  process_id _ := 7;
  metadata_is_dir _ p := bool_decide (p = str "/");
  read_dir _ p := if bool_decide (p ∈ [str "."; str "/"]) then Some (map str ["b.c"; ".x"; "a.c"]%string) else None
|}.
Definition no_capture : Parser.Cmd → State → () → option (list Z) * () := λ _ _ w, (None, w).
Definition demo_state : State := set (str "x") (str "1 *") (set (str "e") [] (from_env [] (str "sh") [str "p q"; []; str "r"])).

Definition demo (src : string) : option (list (list Z)) :=
  match Lexer.next_token (str src) with
  | Lexer.Got (Lexer.TWord w) _ => match expand no_capture 100 5 w (demo_state, ()) with (Done l, _) => Some l | _ => None end
  | _ => None
  end.
Arguments demo src%_string.

Definition q : string := String (Ascii.ascii_of_nat 34) EmptyString.

Example demo_1 : demo "$x" = Some (map str ["1"; "a.c"; "b.c"]%string). Proof. vm_compute. reflexivity. Qed.
Example demo_2 : demo (q ++ "$x" ++ q) = Some [str "1 *"]. Proof. vm_compute. reflexivity. Qed.
Example demo_3 : demo "/*.c" = Some (map str ["/a.c"; "/b.c"]%string). Proof. vm_compute. reflexivity. Qed.
Example demo_4 : demo "a$(( ${#x} * $(( 2 + 1 )) ))\*" = Some [str "a9*"]. Proof. vm_compute. reflexivity. Qed.
Example demo_5 : demo "${y:-'b c'd}" = Some (map str ["b"; "cd"]%string). Proof. vm_compute. reflexivity. Qed.

(** ** Quoted bytes survive *)

Lemma encode_ascii b : 0 ≤ b < 128 → encode_char b = [b].
Proof. intros H. unfold encode_char. by rewrite (proj2 (Z.ltb_lt _ _)) by lia. Qed.

(** The bytes of a character that is not ASCII are no ASCII characters. *)
Lemma encode_high b c : 128 ≤ b → c ∈ encode_char b → 128 ≤ c.
Proof.
  intros Hb. unfold encode_char. rewrite (proj2 (Z.ltb_ge _ _)) by lia. pose proof (Z.mod_pos_bound).
  repeat case_match; rewrite ?elem_of_cons, elem_of_nil; intros Hc; destruct_or? Hc; subst; try done; Z.to_euclidean_division_equations; lia.
Qed.

Lemma encode_nonempty c : encode_char c ≠ [].
Proof. unfold encode_char. by repeat case_match. Qed.

Lemma as_bytes_nonempty s : s ≠ [] → as_bytes s ≠ [].
Proof. destruct s as [|c s]; [done|]. intros _. cbn. pose proof (encode_nonempty c). by destruct (encode_char c). Qed.

Definition plain (c : Z) : Prop := c ≠ 92 ∧ is_meta c = false.

Lemma unescape_plain l s : Forall plain l → unescape (l ++ s) = l ++ unescape s ∧ has_unescaped_meta (l ++ s) = has_unescaped_meta s.
Proof.
  induction 1 as [|c l [Hc Hm] _ [IH1 IH2]]; [done|]. cbn [app]. split.
  - cbn [unescape]. rewrite (proj2 (Z.eqb_neq _ _) Hc). cbn [andb]. rewrite <- IH1. by destruct (l ++ s).
  - cbn [has_unescaped_meta]. by rewrite (proj2 (Z.eqb_neq _ _) Hc), Hm, IH2.
Qed.

Lemma encode_plain b : b ≠ 92 → is_meta b = false → Forall plain (encode_char b).
Proof.
  intros Hb Hm. destruct (Z.ltb_spec b 128) as [Hlt|Hge]; [unfold encode_char; rewrite (proj2 (Z.ltb_lt _ _)) by done; by repeat constructor|].
  apply Forall_forall. intros c Hc. pose proof (encode_high b c Hge Hc). unfold plain, is_meta. lia.
Qed.

(** What is rendered with its escapes is no pattern and gives back its bytes. *)
Lemma unescape_render l : Forall (λ t, quoted t = true) l →
  unescape (as_bytes (flat_map render l)) = as_bytes (tag_chars l) ∧ has_unescaped_meta (as_bytes (flat_map render l)) = false.
Proof.
  induction 1 as [|[b q] l Hq _ [IH1 IH2]]; [done|]. cbn in Hq. subst q. cbn [flat_map tag_chars map byte]. fold (tag_chars l). unfold render at 1 3. cbn [quoted byte andb].
  destruct (is_meta b || (b =? 92)) eqn:Eb.
  - assert (encode_char b = [b]) as He by (apply encode_ascii; unfold is_meta in Eb; lia).
    change (as_bytes ([92; b] ++ flat_map render l)) with ([92] ++ encode_char b ++ as_bytes (flat_map render l)). change (as_bytes (b :: tag_chars l)) with (encode_char b ++ as_bytes (tag_chars l)).
    rewrite He. cbn [app unescape has_unescaped_meta]. by rewrite Eb, IH1, IH2.
  - apply orb_false_iff in Eb as [Em Eb]. change (as_bytes ([b] ++ flat_map render l)) with (encode_char b ++ as_bytes (flat_map render l)).
    change (as_bytes (b :: tag_chars l)) with (encode_char b ++ as_bytes (tag_chars l)). apply Z.eqb_neq in Eb. destruct (unescape_plain (encode_char b) (as_bytes (flat_map render l)) (encode_plain b Eb Em)) as [-> ->]. by rewrite IH1.
Qed.

Lemma glob_render {W} `{Host W} (w : W) l : Forall (λ t, quoted t = true) l → glob_expand w (flat_map render l) = [as_bytes (tag_chars l)].
Proof. intros Hl. destruct (unescape_render l Hl) as [H1 H2]. unfold glob_expand, unescape_globs. by rewrite H2, H1. Qed.

Lemma split_loop_quoted ws nonws l : Forall (λ t, quoted t = true) l → ∀ fuel fields cur have rest,
  split_loop (length l + fuel) ws nonws fields cur have (l ++ rest) = split_loop fuel ws nonws fields (cur ++ flat_map render l) (have || negb (bool_decide (l = []))) rest.
Proof.
  induction 1 as [|[b q] l Hq _ IH]; intros fuel fields cur have rest; [cbn; by rewrite app_nil_r, orb_false_r|]. cbn in Hq. subst q.
  cbn [length app Nat.add split_loop quoted byte negb]. rewrite andb_false_r. cbn [andb]. rewrite IH, <- app_assoc. cbn [orb flat_map]. by rewrite bool_decide_false, orb_true_r by done.
Qed.

Lemma split_quoted l ifs : Forall (λ t, quoted t = true) l → split_fields l ifs = if bool_decide (l = []) then [] else [flat_map render l].
Proof.
  intros Hl. destruct l as [|t l]; [done|]. rewrite bool_decide_false by done. unfold split_fields. cbv zeta. set (tl := t :: l) in *.
  pose proof (split_loop_quoted (λ b, bool_decide (b ∈ base.filter (λ b, is_ascii_whitespace b = true) (as_bytes ifs)))
    (λ b, bool_decide (b ∈ base.filter (λ b, is_ascii_whitespace b = false) (as_bytes ifs))) tl Hl 1 [] [] false []) as H.
  rewrite app_nil_r, Nat.add_1_r in H. rewrite H. unfold tl. rewrite bool_decide_false by done. cbn [orb negb split_loop app]. by rewrite bool_decide_false by done.
Qed.

Lemma push_str_quoted s : Forall (λ t, quoted t = true) (push_str s true).
Proof. apply Forall_forall. by intros t (b & <- & _)%list_elem_of_In%in_map_iff. Qed.

Lemma tag_chars_push s q : tag_chars (push_str s q) = as_bytes s.
Proof. unfold tag_chars, push_str. rewrite map_map. apply map_id. Qed.

(** The fields of ["$@"]: the parameters that are not empty. *)
Lemma split_at_fields ws nonws ps : ∀ fuel fields, (length (at_fields ps) < fuel)%nat →
  split_loop fuel ws nonws fields [] false (at_fields ps) = fields ++ map (λ p, flat_map render (push_str p true)) (base.filter (λ p, p ≠ []) ps).
Proof.
  assert (∀ p, push_str p true = [] ↔ p = []) as Hnil.
  { intros p. split; [|by intros ->]. intros Hp. destruct (decide (p = [])) as [|Hne]; [done|]. exfalso. apply (as_bytes_nonempty p Hne). unfold push_str in Hp. by destruct (as_bytes p). }
  induction ps as [|p ps IH]; intros fuel fields Hf; [destruct fuel; [simpl in Hf; lia|]; cbn; by rewrite app_nil_r|].
  destruct ps as [|p' ps].
  - cbn [at_fields] in *. replace fuel with (length (push_str p true) + S (fuel - length (push_str p true) - 1))%nat by lia.
    pose proof (split_loop_quoted ws nonws _ (push_str_quoted p) (S (fuel - length (push_str p true) - 1)) fields [] false []) as Hq. rewrite app_nil_r in Hq. rewrite Hq.
    cbn [split_loop orb app]. rewrite filter_cons, filter_nil.
    destruct (decide (p = [])) as [->|Hp]; [cbn; by rewrite app_nil_r|]. rewrite bool_decide_false by (by rewrite Hnil). by rewrite decide_True.
  - change (at_fields (p :: p' :: ps)) with (push_str p true ++ mkTag 1 false :: at_fields (p' :: ps)) in *. rewrite length_app in Hf. simpl length in Hf.
    replace fuel with (length (push_str p true) + S (fuel - length (push_str p true) - 1))%nat by lia. rewrite split_loop_quoted by apply push_str_quoted.
    cbn [split_loop byte quoted orb app]. replace (_ =? 1) with true by done. cbn [negb andb]. rewrite filter_cons.
    destruct (decide (p = [])) as [->|Hp].
    + rewrite decide_False by auto. rewrite (bool_decide_true (push_str [] true = [])) by done. cbn [negb]. apply IH. simpl length in *. lia.
    + rewrite (bool_decide_false (push_str p true = [])) by (by rewrite Hnil). cbn [negb]. rewrite decide_True by done. rewrite IH by (simpl length in *; lia). by rewrite <- app_assoc.
Qed.

Lemma at_fields_expand {W} `{Host W} (w : W) ps ifs :
  flat_map (glob_expand w) (split_fields (at_fields ps) ifs) = map (λ p, as_bytes (as_bytes p)) (base.filter (λ p, p ≠ []) ps).
Proof.
  assert (∀ l : list (list Z), flat_map (glob_expand w) (map (λ p, flat_map render (push_str p true)) l) = map (λ p, as_bytes (as_bytes p)) l) as Hmap.
  { induction l as [|p l IH]; [done|]. cbn [map flat_map]. rewrite glob_render by apply push_str_quoted. by rewrite IH, tag_chars_push. }
  unfold split_fields. destruct (at_fields ps) as [|t l] eqn:El.
  - destruct ps as [|p [|p' ps]]; [done| |exfalso; change (push_str p true ++ mkTag 1 false :: at_fields (p' :: ps) = []) in El; by apply app_eq_nil in El as [_ ?]]. cbn in El. rewrite filter_cons, filter_nil. case_decide as Hp; [|done].
    exfalso. apply (as_bytes_nonempty p Hp). unfold push_str in El. by destruct (as_bytes p).
  - cbv zeta. rewrite <- El. rewrite split_at_fields by lia. cbn [app]. rewrite <- Hmap. case_bool_decide as Hnil; [|done]. cbn [andb].
    assert (base.filter (λ p, p ≠ []) ps = []) as -> by (by destruct (base.filter (λ p, p ≠ []) ps)).
    assert (existsb quoted (at_fields ps) = false) as ->; [|done]. apply map_eq_nil in Hnil.
    assert (Forall (λ p, p = []) ps) as Hall.
    { apply Forall_forall. intros p Hp. destruct (decide (p = [])) as [|Hne]; [done|]. exfalso. assert (p ∈ base.filter (λ p, p ≠ []) ps) as Hin by (by apply list_elem_of_filter).
      rewrite Hnil in Hin. by apply elem_of_nil in Hin. }
    clear -Hall. induction Hall as [|p ps -> _ IH]; [done|]. by destruct ps.
Qed.

(** What a computation gives, if it gives anything. *)
Definition yields {S E A} (P : A → Prop) (m : X S E A) : Prop := ∀ s, match m s with (Done a, _) => P a | _ => True end.

Lemma yields_ret {S E A} (P : A → Prop) a : P a → yields P (ret a : X S E A).
Proof. by intros H s. Qed.

Lemma yields_bind {S E A B} (P : A → Prop) (Q : B → Prop) (m : X S E A) k : yields P m → (∀ a, P a → yields Q (k a)) → yields Q (bind m k).
Proof. intros Hm Hk s. unfold bind. specialize (Hm s). destruct (m s) as [[a|e|] s']; [|done..]. by apply Hk. Qed.

Lemma yields_any {S E A} (m : X S E A) : yields (λ _, True) m.
Proof. intros s. by destruct (m s) as [[]]. Qed.

Lemma bind_Done {S E A B} (m : X S E A) (k : A → X S E B) s a s' : m s = (Done a, s') → bind m k s = k a s'.
Proof. intros H. unfold bind. by rewrite H. Qed.

Definition all_quoted (l : list Tag) : Prop := Forall (λ t, quoted t = true) l.

(** The parts of a double-quoted region, less ["$@"]. *)
Definition not_at (g : Seg) : bool :=
  match g with
  | DQuoted _ => false
  | Param name _ _ length => negb (bool_decide (name = [64])) || length
  | _ => true
  end.

(** A word that is quoted as a whole. *)
Definition quoted_word (word : Word) : bool :=
  forallb (λ g, match g with SQuoted _ => true | DQuoted inner => forallb not_at inner | _ => false end) word.

(** The parts whose value needs no computation. *)
Definition plain_part (g : Seg) : bool :=
  match g with Lit _ => true | Param name None None false => negb (bool_decide (name = [64])) | _ => false end.

Section quoting.
Context {W : Type} `{Host W} (capture : Parser.Cmd → State → W → option (list Z) * W) (turns fuel : nat).
#[local] Set Default Proof Using "Type".

#[local] Abbreviation subst := (run_command_substitution capture turns).
#[local] Abbreviation arith := (eval_arith capture turns fuel).

Lemma expand_part_quoted g : not_at g = true → yields all_quoted (expand_seg subst arith true false g).
Proof using.
  destruct g as [s|s|inner|name op arg length|src|src|name]; cbn [not_at expand_seg]; intros Hg; try done;
    try (apply yields_ret, push_str_quoted); try (eapply yields_bind; [apply yields_any|]; intros v _; apply yields_ret, push_str_quoted).
  eapply yields_bind; [apply yields_any|]. intros v _. eapply yields_bind; [apply yields_any|]. intros expanded _.
  destruct length; [apply yields_ret, push_str_quoted|]. rewrite orb_false_r in Hg. apply negb_true_iff in Hg. rewrite Hg. apply yields_ret, push_str_quoted.
Qed.

Lemma expand_quoted_segs word : quoted_word word = true → ∀ first, yields all_quoted (expand_segs subst arith first word).
Proof using.
  induction word as [|g word IH]; intros Hw first; cbn [expand_segs]; [by apply yields_ret, Forall_nil|]. cbn in Hw. apply andb_true_iff in Hw as [Hg Hw].
  eapply yields_bind; [|intros a Ha; eapply yields_bind; [by apply IH|]; intros b Hb; apply yields_ret; by apply Forall_app].
  destruct g as [|s|inner| | | |]; try done; cbn [expand_seg]; [apply yields_ret, push_str_quoted|].
  induction inner as [|g inner IHi]; [by apply yields_ret, Forall_nil|]. cbn in Hg. apply andb_true_iff in Hg as [Hg Hi].
  eapply yields_bind; [by apply expand_part_quoted|]. intros a Ha. eapply yields_bind; [by apply IHi|]. intros b Hb. apply yields_ret. by apply Forall_app.
Qed.

Definition part_value (st : State) (w : W) (g : Seg) : list Z :=
  match g with Lit s => s | Param name _ _ _ => default [] (lookup_param name st w) | _ => [] end.

Lemma expand_plain_parts inner st w : forallb plain_part inner = true →
  expand_seg subst arith false true (DQuoted inner) (st, w) = (Done (flat_map (λ g, push_str (part_value st w g) true) inner), (st, w)).
Proof using.
  cbn [expand_seg]. induction inner as [|g inner IH]; [done|]. cbn [forallb flat_map]. intros [Hg Hi]%andb_true_iff.
  rewrite (bind_Done _ _ _ (push_str (part_value st w g) true) (st, w)).
  - by rewrite (bind_Done _ _ _ _ _ (IH Hi)).
  - destruct g as [| | |name [] [] []| | |]; try done. cbn in Hg. apply negb_true_iff in Hg. cbn [expand_seg]. unfold bind, gets, ret. cbn. by rewrite Hg.
Qed.
End quoting.

Lemma bytes_of_ascii v : Forall (λ c, 0 ≤ c < 128) v → as_bytes v = v.
Proof. induction 1 as [|c v Hc _ IH]; [done|]. cbn [as_bytes flat_map]. rewrite encode_ascii by done. cbn [app]. f_equal. exact IH. Qed.

(** C18: What quotes protect.  A word that consists of quoted parts (without ["$@"])
    and has a value that is not empty expands to a single field: the value that it
    has without splitting, each of its bytes encoded as a character, so that ASCII
    text is the same text.  It is neither split nor matched against file names,
    whatever the variables and the output of commands contain.  When the value is
    empty there is no field, where the comment on [expand_word] has one empty
    field.  A double-quoted text with parameters has the values of the parameters
    in it.  ["$@"] gives the parameters one by one, but for the empty ones. *)
Theorem expand_quoted {W} `{Host W} capture turns fuel (st : State) (w : W) :
  (∀ word, quoted_word word = true →
     match expand_unsplit capture turns fuel word (st, w) with
     | (Done v, s) =>
         ∃ fields, expand capture turns fuel word (st, w) = (Done fields, s) ∧
           (v ≠ [] → fields = [as_bytes v]) ∧
           (v ≠ [] → Forall (λ c, 0 ≤ c < 128) v → fields = [v]) ∧
           (v = [] → fields = [])
     | (Failed e, s) => expand capture turns fuel word (st, w) = (Failed e, s)
     | (Out, s) => expand capture turns fuel word (st, w) = (Out, s)
     end) ∧
  (∀ inner, forallb plain_part inner = true →
     expand_unsplit capture turns fuel [DQuoted inner] (st, w) = (Done (flat_map (λ g, as_bytes (part_value st w g)) inner), (st, w))) ∧
  expand capture turns fuel [DQuoted [Param [64] None None false]] (st, w) =
    (Done (map (λ p, as_bytes (as_bytes p)) (base.filter (λ p, p ≠ []) (params st))), (st, w)).
Proof.
  split_and!.
  - intros word Hw. unfold expand, expand_unsplit, expand_word, expand_word_unsplit, expand_to_tagged, bind, gets, ret.
    pose proof (expand_quoted_segs capture turns fuel word Hw true (st, w)) as Hq. destruct (expand_segs _ _ true word (st, w)) as [[l|e|] [st' w']]; [|done..].
    cbn [id]. rewrite split_quoted by done. eexists. split; [reflexivity|]. case_bool_decide as Hl; [by subst l|]. cbn [flat_map].
    rewrite glob_render, app_nil_r by done. split_and!; [done| |by destruct l]. intros _ Ha. by rewrite bytes_of_ascii.
  - intros inner Hi. unfold expand_unsplit, expand_word_unsplit, expand_to_tagged. cbn [expand_segs].
    rewrite (bind_Done _ _ _ (flat_map (λ g, push_str (part_value st w g) true) inner) (st, w)).
    + unfold ret. f_equal. f_equal. clear. induction inner as [|g inner IH]; [done|]. cbn. unfold tag_chars in *. rewrite map_app, IH. f_equal. apply tag_chars_push.
    + rewrite (bind_Done _ _ _ _ _ (expand_plain_parts capture turns fuel inner st w Hi)). unfold bind, ret. by rewrite app_nil_r.
  - unfold expand, expand_word, expand_to_tagged. cbn [expand_segs expand_seg].
    assert (lookup_param [64] st w = Some (concat_with [32] (positionals st))) as Hat by done.
    unfold bind, gets, mget, ret. cbn [fst snd id default]. rewrite Hat. cbn [default id]. rewrite bool_decide_true by done. cbn [andb]. unfold gets. cbn [fst].
    rewrite !app_nil_r. unfold positionals. f_equal. f_equal. apply at_fields_expand.
Qed.

Lemma expand_quoted_witness :
  quoted_word [DQuoted [Param (str "x") None None false]] = true ∧
  expand no_capture 0 0 [DQuoted [Param (str "x") None None false]] (demo_state, ()) = (Done [str "1 *"], (demo_state, ())).
Proof.
  split; [reflexivity|]. destruct (expand_quoted no_capture 0 0 demo_state ()) as (H1 & H2 & _).
  specialize (H1 [DQuoted [Param (str "x") None None false]] eq_refl). rewrite H2 in H1 by reflexivity.
  destruct H1 as (fields & Hrun & _ & Hfields & _). rewrite Hrun.
  assert (fields = [str "1 *"]) as E; [|rewrite E; reflexivity]. rewrite Hfields; [vm_compute; reflexivity|vm_compute; discriminate|].
  vm_compute. repeat constructor; discriminate.
Defined.

(** ** Splitting *)

(** [rs] are the longest pieces of [l] without a separator. *)
Inductive Runs {A} (sep : A → Prop) : list A → list (list A) → Prop :=
| runs_nil : Runs sep [] []
| runs_gap x l rs : sep x → Runs sep l rs → Runs sep (x :: l) rs
| runs_run r l rs : r ≠ [] → Forall (λ x, ¬ sep x) r → match l with x :: _ => sep x | [] => True end → Runs sep l rs → Runs sep (r ++ l) (r :: rs).

(** The unquoted characters of [IFS], and the mark between the fields of ["$@"]. *)
Definition separates (ifs : list Z) (t : Tag) : Prop := quoted t = false ∧ (byte t = 1 ∨ byte t ∈ as_bytes ifs).

Lemma runs_skip {A} (sep : A → Prop) (p : A → bool) l rs : (∀ x, p x = true → sep x) → Runs sep (drop_while p l) rs → Runs sep l rs.
Proof. intros Hp H. induction l as [|x l IH]; [done|]. cbn [drop_while] in H. destruct (p x) eqn:E; [apply runs_gap; auto|done]. Qed.

Lemma drop_while_length {A} (p : A → bool) l : (length (drop_while p l) <= length l)%nat.
Proof. induction l as [|x l IH]; [done|]. cbn. destruct (p x); simpl; lia. Qed.

Section splitting.
Context (ifs : list Z) (Hifs : ∀ b, b ∈ as_bytes ifs → is_ascii_whitespace b = true) (is_ws is_nonws : Z → bool).
Context (Hws : ∀ b, is_ws b = true ↔ b ∈ as_bytes ifs) (Hnonws : ∀ b, is_nonws b = false).
#[local] Set Default Proof Using "Type".

Lemma split_loop_runs fuel : ∀ fields run l, (length l < fuel)%nat → Forall (λ t, ¬ separates ifs t) run →
  ∃ rs, split_loop fuel is_ws is_nonws fields (flat_map render run) (negb (bool_decide (run = []))) l = fields ++ map (flat_map render) rs ∧
    Runs (separates ifs) (run ++ l) rs.
Proof using Hws Hnonws.
  induction fuel as [|fuel IH]; intros fields run l Hf Hrun; [lia|].
  assert (∀ l', (length l' < fuel)%nat → match l with x :: _ => separates ifs x | [] => True end → (∀ rs, Runs (separates ifs) l' rs → Runs (separates ifs) l rs) →
    ∃ rs, (if negb (bool_decide (run = [])) then split_loop fuel is_ws is_nonws (fields ++ [flat_map render run]) [] false l'
           else split_loop fuel is_ws is_nonws fields (flat_map render run) (negb (bool_decide (run = []))) l') = fields ++ map (flat_map render) rs ∧
      Runs (separates ifs) (run ++ l) rs) as Hcut.
  { intros l' Hl' Hsep Hskip. case_bool_decide as Hnil; cbn [negb].
    - subst run. destruct (IH fields [] l' Hl' (Forall_nil_2 _)) as (rs & E & HR). exists rs. split; [exact E|by apply Hskip].
    - destruct (IH (fields ++ [flat_map render run]) [] l' Hl' (Forall_nil_2 _)) as (rs & E & HR). exists (run :: rs). rewrite <- app_assoc in E. split; [exact E|].
      apply runs_run; auto. }
  destruct l as [|t l]; cbn [split_loop].
  { destruct (bool_decide (run = [])) eqn:Hnil; cbn [negb].
    - apply bool_decide_eq_true in Hnil as ->. exists []. rewrite app_nil_r. split; [done|constructor].
    - apply bool_decide_eq_false in Hnil. exists [run]. split; [done|]. by apply runs_run; [| | |constructor]. }
  simpl in Hf. destruct ((byte t =? 1) && negb (quoted t)) eqn:Emark.
  { apply andb_true_iff in Emark as [H1 Hq%negb_true_iff]. assert (separates ifs t) as Ht by (split; [done|left; lia]).
    apply (Hcut l); [lia|done|]. intros rs HR. by apply runs_gap. }
  rewrite Hnonws, andb_false_r. destruct (negb (quoted t) && is_ws (byte t)) eqn:Ews.
  { apply andb_true_iff in Ews as [Hq%negb_true_iff Hb%Hws]. assert (separates ifs t) as Ht by (split; auto).
    pose proof (drop_while_length (λ t, negb (quoted t) && is_ws (byte t)) l). apply Hcut; [lia|done|]. intros rs HR. apply runs_gap; [done|].
    eapply runs_skip; [|exact HR]. intros x [Hx%negb_true_iff Hxb%Hws]%andb_true_iff. split; auto. }
  assert (¬ separates ifs t) as Ht.
  { intros [Hq [H1|Hin]]; rewrite Hq in *; cbn in *; [rewrite H1 in Emark; done|]. apply Hws in Hin. congruence. }
  destruct (IH fields (run ++ [t]) l ltac:(lia)) as (rs & E & HR); [apply Forall_app; split; [done|by constructor]|]. exists rs. rewrite <- app_assoc in HR. split; [|done].
  rewrite flat_map_app in E. cbn [flat_map] in E. rewrite app_nil_r in E. rewrite bool_decide_false in E by (by destruct run). exact E.
Qed.
End splitting.

(** With separators that are blanks, splitting gives the longest pieces without a separator, in order and rendered with their escapes: quoted bytes never
    separate, runs of blanks count as one, blanks at the ends give nothing, and no field is empty. *)
Theorem split_pieces tagged ifs : (∀ b, b ∈ as_bytes ifs → is_ascii_whitespace b = true) →
  ∃ rs, split_fields tagged ifs = map (flat_map render) rs ∧ Runs (separates ifs) tagged rs ∧ Forall (λ f, f ≠ []) (split_fields tagged ifs).
Proof.
  intros Hifs. assert (∃ rs, split_fields tagged ifs = map (flat_map render) rs ∧ Runs (separates ifs) tagged rs) as (rs & E & HR).
  { unfold split_fields. destruct tagged as [|t l]; [exists []; split; [done|constructor]|]. set (tl := t :: l). cbv zeta.
    set (ws := λ b, bool_decide (b ∈ base.filter (λ b, is_ascii_whitespace b = true) (as_bytes ifs))). set (nonws := λ b, bool_decide (b ∈ base.filter (λ b, is_ascii_whitespace b = false) (as_bytes ifs))).
    assert (∀ b, ws b = true ↔ b ∈ as_bytes ifs) as Hws.
    { intros b. unfold ws. rewrite bool_decide_eq_true, list_elem_of_filter. naive_solver. }
    assert (∀ b, nonws b = false) as Hnonws.
    { intros b. unfold nonws. rewrite bool_decide_eq_false, list_elem_of_filter. intros [H1 H2]. rewrite Hifs in H1; done. }
    destruct (split_loop_runs ifs ws nonws Hws Hnonws (S (length tl)) [] [] tl ltac:(lia) (Forall_nil_2 _)) as (rs & E & HR). rewrite (bool_decide_true ([] = [])) in E by done. cbn [flat_map app negb] in E, HR.
    exists rs. split; [|done]. rewrite E. case_bool_decide as Hnil; [|done]. destruct (existsb quoted tl) eqn:Eq; [|done]. exfalso.
    apply map_eq_nil in Hnil as ->. apply existsb_exists in Eq as (x & Hx%list_elem_of_In & Hq). clear -HR Hx Hq.
    remember [] as rs eqn:Ers. induction HR as [|y l1 rs1 Hy HR IH|r l1 rs1 Hr Hrun Hl HR IH]; [by apply elem_of_nil in Hx| |done].
    apply elem_of_cons in Hx as [<- |Hx]; [destruct Hy as [Hy _]; congruence|by apply IH]. }
  exists rs. split_and!; [done..|]. rewrite E. clear -HR. induction HR as [| |r l rs Hr Hrun Hl HR IH]; [constructor|done|]. cbn. constructor; [|done].
  destruct r as [|t r]; [done|]. cbn. unfold render. by destruct (quoted t && _).
Qed.

Definition demo_tags : list Tag := push_str (str " a  b") false ++ push_str (str " c ") true ++ push_str (str " d ") false.

Lemma split_pieces_witness : (∀ b, b ∈ as_bytes [32; 9; 10] → is_ascii_whitespace b = true) ∧
  ∃ rs, map str ["a"; "b c "; "d"]%string = map (flat_map render) rs ∧ Runs (separates [32; 9; 10]) demo_tags rs ∧ Forall (λ f, f ≠ []) (split_fields demo_tags [32; 9; 10]).
Proof.
  assert (∀ b, b ∈ as_bytes [32; 9; 10] → is_ascii_whitespace b = true) as Hifs.
  { intros b Hb. apply bool_decide_eq_true. cbn in Hb. set_solver. }
  split; [exact Hifs|exact (split_pieces demo_tags [32; 9; 10] Hifs)].
Defined.

(** A separator that is no blank: the blank before it ends a field, and it ends another. *)
Example comma_fields : split_fields (push_str (str "a ,b") false) (str " ,") = [str "a"; []; str "b"].
Proof. reflexivity. Qed.
(** Nothing quoted is left of an empty quoted word. *)
Example empty_quoted : (expand no_capture 0 0 [DQuoted []] (demo_state, ())).1 = Done [] ∧ (expand no_capture 0 0 [SQuoted []] (demo_state, ())).1 = Done [].
Proof. split; reflexivity. Qed.

(** ** Expansion ends *)

Definition never_out {S E A} (m : X S E A) : Prop := ∀ s, (m s).1 ≠ Out.

Lemma never_out_ret {S E A} (a : A) : never_out (ret a : X S E A). Proof. by intros s. Qed.
Lemma never_out_fail {S E A} (e : E) : never_out (fail e : X S E A). Proof. by intros s. Qed.
Lemma never_out_gets {S E A} (f : S → A) : never_out (gets f : X S E A). Proof. by intros s. Qed.

Lemma never_out_bind {S E A B} (m : X S E A) (k : A → X S E B) : never_out m → (∀ a, never_out (k a)) → never_out (bind m k).
Proof. intros Hm Hk s. unfold bind. specialize (Hm s). destruct (m s) as [[a|e|] s']; [apply Hk|done|done]. Qed.

#[local] Hint Resolve never_out_ret never_out_fail never_out_gets never_out_bind : core.

Lemma apply_param_op_ends {W} op name v (arg : X (State * W) ExpandError (list Z)) : never_out arg → never_out (apply_param_op op name v arg).
Proof.
  intros Ha. unfold apply_param_op. destruct op; cbn beta iota; (destruct (negb _) || destruct (is_null v)); try apply never_out_ret; try exact Ha;
    (apply never_out_bind; [exact Ha|]; intros new; cbn iota); auto; (apply never_out_bind; [|auto]); auto; by intros s.
Qed.

Fixpoint seg_size (g : Seg) : nat :=
  match g with
  | DQuoted l => S (foldr (λ g n, (seg_size g + n)%nat) 0%nat l)
  | Param _ _ (Some l) _ => S (foldr (λ g n, (seg_size g + n)%nat) 0%nat l)
  | _ => 0
  end.

Section ends.
Context {W : Type} `{Host W} (capture : Parser.Cmd → State → W → option (list Z) * W) (turns : nat).
#[local] Set Default Proof Using "Type".

Lemma substitution_ends src : never_out (run_command_substitution capture turns src).
Proof using. intros [st w]. unfold run_command_substitution. destruct (Parser.parse _ _); [|done..]. by destruct (capture a st w). Qed.

Lemma expand_seg_ends n arith : (∀ src, (S (Nesting.dollars src) <= n)%nat → never_out (arith src)) →
  ∀ k g, (seg_size g < k)%nat → (Nesting.need g <= n)%nat → ∀ q first, never_out (expand_seg (run_command_substitution capture turns) arith q first g).
Proof using.
  intros Harith. induction k as [|k IH]; intros g Hk Hn q first; [lia|]. destruct g as [s|s|inner|name op arg length|src|src|name]; cbn [expand_seg].
  - auto.
  - auto.
  - cbn in Hk, Hn. induction inner as [|g inner IHi]; [auto|]. cbn in Hk, Hn. apply never_out_bind; [apply IH; lia|]. intros a. apply never_out_bind; [apply IHi; lia|auto].
  - apply never_out_bind; [auto|]. intros v. apply never_out_bind.
    + destruct op as [op|]; [|auto]. destruct arg as [word|]; [|auto]. apply apply_param_op_ends. cbn in Hk, Hn. generalize true.
      induction word as [|g word IHw]; intros b; [auto|]. cbn in Hk, Hn. apply never_out_bind; [apply IH; lia|]. intros a. apply never_out_bind; [apply IHw; lia|auto].
    + intros expanded. destruct length; [auto|]. destruct (_ && _); auto. apply never_out_bind; [unfold mget; auto|auto].
  - apply never_out_bind; [apply substitution_ends|auto].
  - apply never_out_bind; [by apply Harith|auto].
  - destruct (negb first); [auto|]. destruct (bool_decide _); auto. apply never_out_bind; [unfold mget; auto|auto].
Qed.

Lemma expand_segs_ends n arith : (∀ src, (S (Nesting.dollars src) <= n)%nat → never_out (arith src)) →
  ∀ word, (Nesting.needs word <= n)%nat → ∀ first, never_out (expand_segs (run_command_substitution capture turns) arith first word).
Proof using.
  intros Harith. induction word as [|g word IH]; intros Hn first; cbn [expand_segs]; [auto|]. unfold Nesting.needs in *. cbn in Hn.
  apply never_out_bind; [|intros a; apply never_out_bind; [apply IH; lia|auto]]. eapply (expand_seg_ends n arith Harith (S (seg_size g))); lia.
Qed.

Lemma arith_word_dollars src : (Nesting.dollars (as_bytes (arith_word src)) <= Nesting.dollars src)%nat.
Proof using.
  etransitivity; [apply Nesting.dollars_as_bytes|]. unfold arith_word. cbn [Nesting.dollars Z.eqb Pos.eqb]. rewrite Nesting.dollars_app. cbn [Nesting.dollars Z.eqb Pos.eqb].
  rewrite Nat.add_0_r. induction src as [|c src IH]; [done|]. cbn [flat_map]. rewrite Nesting.dollars_app. cbn [Nesting.dollars].
  destruct (Z.eqb_spec c 34) as [->|]; [cbn; lia|]. cbn [Nesting.dollars]. destruct (c =? 36); lia.
Qed.

Lemma eval_arith_ends fuel : ∀ src, (Nesting.dollars src < fuel)%nat → never_out (eval_arith capture turns fuel src).
Proof using.
  induction fuel as [|fuel IH]; intros src Hf; [lia|]. cbn [eval_arith]. apply never_out_bind.
  - destruct (Lexer.next_token (as_bytes (arith_word src))) as [t s|e|] eqn:Et.
    + destruct t; auto. apply Nesting.next_token_needs in Et. pose proof (arith_word_dollars src). unfold expand_word_unsplit, expand_to_tagged.
      apply never_out_bind; [|auto]. apply (expand_segs_ends fuel); [|lia]. intros src' Hs. apply IH. lia.
    + auto.
    + exfalso. pose proof (Lexer.lexer_steps (as_bytes (arith_word src))) as Hl. by rewrite Et in Hl.
  - intros expanded. apply never_out_bind; [unfold mget; auto|]. intros st. pose proof (Arith.eval_text_total (ShellState.get st) (as_bytes expanded)) as Ht.
    destruct (Arith.eval_text _ _); auto; done.
Qed.
End ends.

(** Expansion ends. With one unit of fuel per dollar sign of the text of a word, its expansion gives fields or an error, whatever is nested in it; only the
    parser of a command substitution may run on ([ParserRuns]). *)
Theorem expansion_ends {W} `{Host W} capture turns :
  (∀ text word rest, Lexer.next_token text = Lexer.Got (Lexer.TWord word) rest → (Nesting.needs word <= Nesting.dollars text)%nat) ∧
  (∀ fuel word, (Nesting.needs word <= fuel)%nat → never_out (expand capture turns fuel word) ∧ never_out (expand_unsplit capture turns fuel word)).
Proof.
  split; [exact Nesting.next_token_needs|]. intros fuel word Hn.
  assert (never_out (expand_to_tagged (run_command_substitution capture turns) (eval_arith capture turns fuel) word)) as Htag.
  { apply (expand_segs_ends capture turns fuel); [|done]. intros src Hs. apply eval_arith_ends. lia. }
  split.
  - unfold expand, expand_word. apply never_out_bind; [done|]. intros l. apply never_out_bind; [auto|]. intros [st w]. auto.
  - unfold expand_unsplit, expand_word_unsplit. apply never_out_bind; [done|auto].
Qed.

Lemma expansion_ends_witness :
  let word := [Lexer.Arith (str "1 + $((2))")] in Nesting.needs word = 2%nat ∧ never_out (expand no_capture 50 2 word).
Proof. split; [reflexivity|]. apply (expansion_ends no_capture 50). reflexivity. Defined.
End Expand.
